(* ===== verification/_CoqProject ===== *)
-Q . S2P
Prelude.v
Alloc.v
Utf8.v
IntFmt.v
CString.v
DynBuf.v
Rqsort.v
Exchange.v
CharRange.v
UnicodeTables.v
CaseConv.v
UnicodeSets.v
UnicodeIndex.v
UnicodeNames.v
Normalize.v
CombiningClass.v
CanonOrder.v
DecompTables.v
Decomp.v
Composition.v
NormForms.v
Regexp.v
ReState.v
ReClass.v
ReQuant.v
ReCompile.v
ReExec.v
ReChars.v
ReRange.v
ReEmit.v
ReRangeCode.v
ReVerify.v
ReCases.v
Limb.v
MpMul.v
MpDiv.v
MpRecip.v
MpSqrt.v
Bf.v
BfRound.v
BfRatio.v
BfRoundOk.v
BfOps.v
BfCmp.v
BfMulDiv.v
BfCancel.v
BfAdd.v
BfSum.v
BfDivrem.v
BfSqrt.v
BfConv.v
BfFloat.v
BfInt.v
BfLogic.v
BfClaims.v
GcObject.v
GcChildren.v
Gc.v
GcMark.v
GcFree.v
GcRelease.v
GcTyped.v
GcSweep.v
GcRuns.v
GcRemove.v
GcRun.v
Shape.v
ShapeChain.v
ShapeTable.v
ShapeInv.v
ShapeOps.v
ShapeAdd.v
ShapeRefs.v
ShapeProps.v
ShapeDelete.v
ShapeNew.v
ShapeSpec.v
