(* ===== verification/Prelude.v ===== *)
(** A verification library for the C code of Substrata's JavaScript engine.

    The repository wraps the engine QuickJS-NG for Swift.  The engine is the C
    code in [src/Sources/SubstrataQuickJS/]; file names below are relative to it.
    This library models its foundations and a growing part of [quickjs.c], with
    the code's own names, and proves that the models do what the code means to.

    ** How C is modelled

    A function returns an [outcome]: [Ret] of its result with the state it
    changes, or [Err] when it leaves an object's bounds, fails an assertion or
    exhausts the fuel of a loop.  Every read and write of a modelled block goes
    through the checked [rd] and [wr], so a theorem whose conclusion has [m = Ret
    _] (or [post m _]) says that the code neither faults nor loops. The fuel of a
    loop ([iter]) is a bound written next to the loop: the length of the walked
    chain, the number of bytes left, 33 for a doubling of 32 bits; the theorems
    prove it to be enough.  Machine integers are [Z] with their wrap-around ([u8],
    [u16], [u32], [i32], [u64]) written where the code has it.  Pointers are
    offsets in a block, or keys of a finite map when objects are shared.  An
    allocation is a question to an instance of [Allocator], which may refuse at
    any time: theorems hold for every instance, and in those on normalization,
    shapes and numbers an operation reports an error for lack of memory only if
    the instance refuses some request ([can_refuse]).

    ** The parts and their files

    - This file: outcomes, checked access, loops, the lemmas on lists, options and
      integers that the parts share, their tactics and hints.  [Alloc]: the
      allocator.
    - [cutils.c], [cutils.h].  [Utf8]: the UTF-8 and UTF-16 codec ([utf8_encode],
      [utf8_decode], [utf8_scan], the buffer converters).  [IntFmt]: [u32toa] to
      [i64toa_radix].  [CString]: [js__pstrcpy], [js__pstrcat], [js__strstart],
      [js__has_suffix].  [DynBuf]: every operation of [DynBuf].  [Rqsort]:
      [rqsort] with its heapsort, insertion sort and segment stack; [Exchange]:
      the exchange functions on bytes and words.
    - [libunicode.c], [libunicode-table.h].  [UnicodeTables]: the tables.
      [CharRange]: [CharRange] and [cr_op].  [CaseConv]: [lre_case_conv],
      [lre_canonicalize], [lre_is_in_table]; [UnicodeSets]: scripts, categories,
      properties and [cr_regexp_canonicalize]; [UnicodeIndex], [UnicodeNames]:
      their proofs.  [Normalize]: decompositions, [unicode_get_cc], [sort_cc],
      [compose_pair], [unicode_normalize]; [CombiningClass], [CanonOrder],
      [DecompTables], [Decomp], [Composition], [NormForms]: their proofs, from the
      combining classes to the normal forms.
    - [libregexp.c].  [Regexp]: opcodes, header, [lre_byte_swap].  The compiler:
      [ReState] (state, emission, escapes, names), [ReClass] (classes), [ReQuant]
      (the scans of code and pattern), [ReCompile] (terms to [lre_compile]).  The
      matcher: [ReExec] ([lre_exec] and [lre_exec_backtrack]).  [ReChars],
      [ReRange], [ReEmit], [ReRangeCode], [ReVerify]: their proofs.  [ReCases]:
      concrete expressions, with the behaviours that are defects.
    - [libbf.c], [libbf.h].  [Limb]: the routines on limbs ([mp_add] to
      [mp_mul_basecase]); [MpMul]: [mp_mul] against the interface [FftMul] of the
      fast multiplication; [MpDiv]: [udiv1norm], [mp_div1norm], [mp_divnorm],
      [mp_recip], [mp_divnorm_large], with [MpRecip] for the proofs about Newton's
      iteration; [MpSqrt]: [mp_sqrtrem1], [bf_isqrt], [mp_sqrtrem].  [Bf]: the
      floating point numbers, [__bf_round], [bf_normalize_and_round]; [BfRound]:
      the specification of rounding and the bits of a mantissa; [BfRatio]: the
      specification on ratios and on quotients with a sticky bit; [BfRoundOk]:
      rounding is correct.  [BfOps]: comparison, [bf_add_internal], [bf_mul],
      [__bf_div], [bf_divrem], [bf_pow_ui]; their proofs: [BfCmp] (comparison),
      [BfMulDiv] (product, quotient), [BfCancel] (the cancelled bits), [BfAdd]
      (the sum of words), [BfSum] (the sum), [BfDivrem] (division with
      remainder).  [BfConv]: conversions from and to doubles and integers, logical
      operations; their proofs: [BfFloat], [BfInt], [BfLogic].  [BfSqrt]:
      [bf_sqrt] and [bf_sqrtrem].  [BfClaims]: the claims, with instances.
    - [quickjs.c], the garbage collector.  [GcObject]: the objects with the mark
      function of every class, [mark_children]; [Gc]: [gc_decref] and [gc_scan]
      over the three lists and the reference counts; [GcChildren], [GcMark]: their
      proofs.  [GcFree]: the finalizer of every class, written against the class
      [Release] of release operations, with the instance of the runtime:
      [JS_FreeValueRT], [free_var_ref], [js_free_shape], [JS_FreeContext],
      [reset_weak_ref], [free_object], [free_zero_refcount], [gc_free_cycles],
      [JS_RunGC].  [GcRelease] instantiates the finalizers with operations that
      collect the references, and compares them with the mark functions; [GcTyped]
      gives the fields of the objects their types and shows that on a typed object
      both return and agree; [GcSweep] (the invariant of the freeing phase),
      [GcRuns] (the release of one reference), [GcRemove] (the loops), [GcRun]
      ([JS_RunGC]).
    - [quickjs.c], shapes and properties.  [Shape]: the table of the shapes,
      [js_new_shape], [js_clone_shape], [js_free_shape], [resize_properties],
      [compact_properties], [add_shape_property], [find_own_property],
      [add_property], [js_shape_prepare_update], [delete_property], and the
      creation and release of ordinary objects.  [ShapeChain] (the hash table of a
      shape), [ShapeTable] (the table of shapes), [ShapeInv] (the invariant),
      [ShapeOps], [ShapeAdd], [ShapeRefs], [ShapeProps], [ShapeDelete],
      [ShapeNew]: their proofs, operation by operation; [ShapeSpec]: objects as
      lists of properties, and the refinement.

    The matcher calls the case conversion; the regexp compiler is a client of the
    buffers, the sets and the tables; normalization is a client of the buffers;
    everything that allocates is a client of the [Allocator] class.

    ** What the theorems show

    - Memory: on byte code that the decidable check [bc_valid] accepts, and any
      subject and captures, [lre_exec] does not leave its buffers, its stack or
      the code ([ReVerify]).  The UTF-8 decoder reads no more than it is given and
      accepts only canonical sequences.  [rqsort] stays in its array and its stack
      of 50 segments.  The string and number functions stay in their blocks.
    - Function: sorting orders and permutes; the conversions print the number that
      reads back; [cr_op] is the operation on sets; the index-accelerated tables
      agree with the full ones; names are found as in the list of names;
      [unicode_get_cc] is the class of the table; [sort_cc] is the canonical
      order; [unicode_normalize] gives the full decomposition in canonical order,
      in the composing forms a text with the same full decomposition, and is
      idempotent on the decomposing ones.
    - Composition: what [re_emit_range] emits for a set, the range instructions of
      the matcher match exactly on the members of the set.
    - State: the marking of the collector ends with the objects that cannot be
      reached from outside in the list to free, the others in the list of live
      objects with their reference counts restored.  [JS_RunGC] frees exactly the
      unreachable objects, each once, whatever the order in which the finalizers
      meet the cycles, and the counts of the others remain exact; the finalizers
      release what the mark functions visit ([GcRun], [GcTyped]).  Shapes keep an
      invariant from the empty state through every sequence of operations, and the
      sequence is one of the same operations on lists of properties: sharing,
      hashing, copying, growing and compacting do not show.  Dynamic buffers are
      sequences of bytes, with an error that sticks.
    - Numbers: the routines on limbs compute the sum, the product and the quotient
      of the numbers they stand for, [mp_sqrtrem] the integer square root and its
      remainder.  Rounding to a precision gives the number and the status that
      [bf_round_spec] defines on ratios, in every mode and format; [bf_add],
      [bf_sub], [bf_mul] and [bf_div] round the exact result; [bf_divrem] rounds
      the ratio to an integer and leaves the exact remainder; [bf_sqrt] rounds the
      square root, [bf_sqrtrem] gives the integer root; [bf_cmp] is the order of
      the extended real numbers.  [bf_get_float64] rounds to a double,
      [bf_get_int32], [bf_get_int64] and [bf_get_uint64] saturate or reduce; the
      logical operations are those of two's complement.
    - Round trips: UTF-8 and UTF-16, integers in every radix, doubles, composition
      of the pairs that decompose.

    ** Assumptions that are stated

    The comparison function of a sort is consistent and the hypotheses of a
    theorem bound sizes by the widths the code gives them: fewer than [2 ^ 26]
    entries in a shape (the width of [hash_next]; the code has no test), a table
    of the shapes of at most [2 ^ 30] entries (its size is [1 << bits], an [int]),
    a subject of 8-bit or 16-bit units whose size in bytes is an [int], as the
    callers of [lre_exec] have it.  A well-counted heap for the collector: the
    reference count of an object is at least the number of the references that
    objects hold to it; its unreachable objects are well typed (their fields hold
    what the code stores in them, [GcTyped]), and have neither weak references nor
    open variables of a suspended frame (with them the code leaves dangling
    pointers, see the examples of [GcRun]); the finalizers of the classes of the
    host program release what their mark functions visit.  A new address is not in
    use.  The multiplication of numbers of 100 limbs or more returns the product
    or an error ([FftMul]; the number theoretic transform that implements it is
    not modelled, and [ntt_conv] breaks this contract when memory is short and it
    ignores the failure of its recursive call, [libbf.c] line 7940: the theorems
    on such operands suppose that this does not happen).  A request to make a
    block smaller is granted ([ShrinkGranted]), as the comments "cannot fail" of
    [libbf.c] suppose.  The operands of [libbf.c] have at most [2 ^ 50] limbs and
    exponents in the range of the extended format; a sum of unlimited precision
    does not span more than [2 ^ 58] bits, and the operands of [bf_divrem] and of
    the logical operations have at most [2 ^ 50].  Divisions and square roots have
    at most [2 ^ 30] limbs: [mp_sub] and [mp_neg] count the limbs with an [int].
    Memory is not short in the theorems on [bf_get_float64] ([AllocGranted]): it
    reads through a null pointer when it is.  Where the code ignores the failure
    of a copy ([bf_add] of zero, [bf_divrem], the logical operations) the theorems
    allow its result only if the allocator refuses the block of that copy.  The
    greatest number of a precision 0 has no limb to write: [bf_round] faults
    there, and only there.

    ** Not modelled

    - [quickjs.c]: the JavaScript parser, compiler and interpreter, strings,
      atoms, exotic objects and the built-in library; [js_trigger_gc], which may
      run the collector in an allocation.  The values, atoms and prototypes that
      shapes release are recorded as calls in order, as are the strings, symbols,
      big integers and plain memory that the finalizers release.
    - [libbf.c]: the transform behind [fft_mul], conversions from and to text,
      elementary functions, decimal numbers; the faithful rounding of products.
    - [quickjs-libc.c] (bindings to the operating system), time and threads in
      [cutils.c], and the Swift packages.
    - That [lre_compile] produces code that [bc_valid] accepts, and that the
      matcher implements the semantics of expressions, are the next goals for
      [libregexp.c]; strings for [quickjs.c]. *)
From Stdlib Require Import ZArith Lia Bool List.
From stdpp Require Import base tactics list numbers strings.

#[global] Open Scope Z_scope.

(** * Outcomes of C code *)

(** What can stop a C function other than returning: an access outside an
    object or a signed overflow (undefined behaviour), a failed [assert] or an
    [abort], or the fuel of the model running out.  A total-correctness statement
    excludes all of them. *)
Inductive fault : Type :=
  | OutOfBounds
  | IntOverflow
  | AssertFail
  | OutOfFuel.

Inductive outcome (A : Type) : Type :=
  | Ret (a : A)
  | Err (e : fault).
Arguments Ret {A} a.
Arguments Err {A} e.

Definition obind {A B : Type} (m : outcome A) (k : A -> outcome B) : outcome B :=
  match m with
  | Ret a => k a
  | Err e => Err e
  end.

Declare Scope c_scope.
Delimit Scope c_scope with C.
Notation "'let*' x ':=' m 'in' k" := (obind m (fun x => k))
  (at level 10, x pattern, m at level 200, k at level 200) : c_scope.
#[global] Open Scope c_scope.

(** [assert(b)]. *)
Definition c_assert (b : bool) : outcome unit :=
  if b then Ret tt else Err AssertFail.

(** * Memory blocks *)

Definition zlen {A : Type} (l : list A) : Z := Z.of_nat (length l).

(** [l[i]]: a read of one element of a block. *)
Definition rd {A : Type} (l : list A) (i : Z) : outcome A :=
  if i <? 0 then Err OutOfBounds
  else match l !! Z.to_nat i with
       | Some x => Ret x
       | None => Err OutOfBounds
       end.

(** [l[i] = x]: a write of one element. *)
Definition wr {A : Type} (l : list A) (i : Z) (x : A) : outcome (list A) :=
  if (i <? 0) || (zlen l <=? i) then Err OutOfBounds
  else Ret (<[Z.to_nat i := x]> l).

(** The bytes [l[off .. off+n[], as [memcpy] and [memmove] read them. *)
Definition rd_slice {A : Type} (l : list A) (off n : Z) : outcome (list A) :=
  if (off <? 0) || (n <? 0) || (zlen l <? off + n) then Err OutOfBounds
  else Ret (take (Z.to_nat n) (drop (Z.to_nat off) l)).

(** [memcpy(l + off, data, len)]. *)
Definition wr_slice {A : Type} (l : list A) (off : Z) (data : list A) : outcome (list A) :=
  if (off <? 0) || (zlen l <? off + zlen data) then Err OutOfBounds
  else Ret (take (Z.to_nat off) l ++ data ++ drop (Z.to_nat (off + zlen data)) l).

(** * Loops *)

(** A loop whose body returns [inl] of the state to continue with or [inr] of
    the result.  The fuel bounds the number of executions of the body. *)
Fixpoint iter {S R : Type} (fuel : nat) (body : S -> outcome (S + R)) (s : S) : outcome R :=
  match fuel with
  | O => Err OutOfFuel
  | S fuel =>
      let* r := body s in
      match r with
      | inl s => iter fuel body s
      | inr r => Ret r
      end
  end.

(** A loop over the elements of an array. *)
Fixpoint ofold {A S : Type} (f : S -> A -> outcome S) (s : S) (l : list A) : outcome S :=
  match l with
  | [] => Ret s
  | x :: l => let* s := f s x in ofold f s l
  end.

(** * Machine integers *)

Definition u8 (z : Z) : Z := z mod 256.
Definition u16 (z : Z) : Z := z mod 65536.
Definition u32 (z : Z) : Z := z mod 4294967296.
Definition u64 (z : Z) : Z := z mod 18446744073709551616.

(** The signed reading of a 32-bit word, as in [(int)val]. *)
Definition i32 (z : Z) : Z := let v := u32 z in if v <? 2147483648 then v else v - 4294967296.

Definition INT32_MAX : Z := 2147483647.
Definition UINT32_MAX : Z := 4294967295.

Definition in_u8 (z : Z) : Prop := 0 <= z < 256.
Definition in_u16 (z : Z) : Prop := 0 <= z < 65536.
Definition in_u32 (z : Z) : Prop := 0 <= z < 4294967296.
Definition in_u64 (z : Z) : Prop := 0 <= z < 18446744073709551616.
Definition in_i32 (z : Z) : Prop := -2147483648 <= z < 2147483648.
Definition in_i64 (z : Z) : Prop := -9223372036854775808 <= z < 9223372036854775808.

(** The result [z] of an operation on [int]s. *)
Definition c_int (z : Z) : outcome Z :=
  if (-2147483648 <=? z) && (z <? 2147483648) then Ret z else Err IntOverflow.

(** [x << n] of [int]s: neither [x] nor the amount is negative, the amount is
    less than the width, and the result is an [int]. *)
Definition c_shl (x n : Z) : outcome Z :=
  if (0 <=? x) && (0 <=? n) && (n <? 32) then c_int (Z.shiftl x n) else Err IntOverflow.

(** A C truth value used as an integer. *)
Definition b2z (b : bool) : Z := if b then 1 else 0.

(** Little-endian words of [n] bytes: what [put_u16], [put_u32] store and
    [get_u16], [get_u32] load on the (little-endian) targets of the package. *)
Fixpoint le_bytes (n : nat) (v : Z) : list Z :=
  match n with
  | O => []
  | S n => v mod 256 :: le_bytes n (v / 256)
  end.

Fixpoint le_val (l : list Z) : Z :=
  match l with
  | [] => 0
  | b :: l => b + 256 * le_val l
  end.

Definition get_u8 (m : list Z) (p : Z) : outcome Z := rd m p.
Definition get_u16 (m : list Z) (p : Z) : outcome Z :=
  let* bs := rd_slice m p 2 in Ret (le_val bs).
Definition get_u32 (m : list Z) (p : Z) : outcome Z :=
  let* bs := rd_slice m p 4 in Ret (le_val bs).
Definition put_u16 (m : list Z) (p v : Z) : outcome (list Z) := wr_slice m p (le_bytes 2 v).
Definition put_u32 (m : list Z) (p v : Z) : outcome (list Z) := wr_slice m p (le_bytes 4 v).

(** * Total correctness *)

(** [m] returns, without a fault, a value satisfying [Q]. *)
Definition post {A : Type} (m : outcome A) (Q : A -> Prop) : Prop :=
  match m with
  | Ret a => Q a
  | Err _ => False
  end.

Lemma post_ret {A : Type} (a : A) (Q : A -> Prop) : Q a -> post (Ret a) Q.
Proof. done. Qed.

Lemma post_bind {A B : Type} (m : outcome A) (k : A -> outcome B) (Q : B -> Prop) :
  post m (fun a => post (k a) Q) -> post (obind m k) Q.
Proof. by destruct m. Qed.

Lemma post_mono {A : Type} (m : outcome A) (P Q : A -> Prop) :
  post m P -> (forall a, P a -> Q a) -> post m Q.
Proof. destruct m; simpl; auto. Qed.

Lemma post_inv {A : Type} (m : outcome A) (Q : A -> Prop) :
  post m Q -> exists a, m = Ret a /\ Q a.
Proof. destruct m; simpl; [eauto | done]. Qed.

Lemma post_det {A : Type} (m : outcome A) (a : A) (Q : A -> Prop) :
  m = Ret a -> Q a -> post m Q.
Proof. by intros ->. Qed.

Lemma post_eq {A : Type} (m : outcome A) (a : A) : post m (fun x => x = a) -> m = Ret a.
Proof. destruct m; simpl; [by intros -> | done]. Qed.

Lemma post_assert (b : bool) (Q : unit -> Prop) : b = true -> Q tt -> post (c_assert b) Q.
Proof. by intros ->. Qed.

Lemma c_int_in (z : Z) : in_i32 z -> c_int z = Ret z.
Proof.
  unfold in_i32, c_int. intros [H1 H2]. apply Z.leb_le in H1. apply Z.ltb_lt in H2. by rewrite H1, H2.
Qed.

Lemma c_shl_in (x n : Z) : 0 <= x -> 0 <= n < 32 -> x * 2 ^ n < 2 ^ 31 -> c_shl x n = Ret (x * 2 ^ n).
Proof.
  intros Hx [Hn1 Hn2] H. unfold c_shl. rewrite (proj2 (Z.leb_le _ _) Hx), (proj2 (Z.leb_le _ _) Hn1), (proj2 (Z.ltb_lt _ _) Hn2).
  cbn [andb]. rewrite Z.shiftl_mul_pow2 by done. apply c_int_in. split; [|exact H].
  apply Z.le_trans with 0; [done|]. apply Z.mul_nonneg_nonneg; [done|]. by apply Z.pow_nonneg.
Qed.

Lemma post_if {A : Type} (b : bool) (m1 m2 : outcome A) (Q : A -> Prop) :
  (b = true -> post m1 Q) -> (b = false -> post m2 Q) -> post (if b then m1 else m2) Q.
Proof. destruct b; auto. Qed.

(** The loop rule: an invariant [P] and a measure [m] that every continuing
    execution of the body decreases. *)
Lemma post_iter {S R : Type} (P : S -> Prop) (m : S -> nat) (Q : R -> Prop)
    (body : S -> outcome (S + R)) :
  (forall s, P s ->
     post (body s) (fun r => match r with
                             | inl s' => P s' /\ (m s' < m s)%nat
                             | inr r => Q r
                             end)) ->
  forall fuel s, P s -> (m s < fuel)%nat -> post (iter fuel body s) Q.
Proof.
  intros Hbody fuel. induction fuel as [|fuel IH]; intros s HP Hm; [lia|].
  simpl. apply post_bind. eapply post_mono; [by apply Hbody|].
  intros [s'|r]; simpl; [intros [??]; apply IH; [done|lia] | done].
Qed.

Lemma iter_S {S R : Type} fuel (body : S -> outcome (S + R)) s :
  iter (Datatypes.S fuel) body s =
  let* r := body s in match r with inl s' => iter fuel body s' | inr r => Ret r end.
Proof. done. Qed.

(** ** Reads and writes *)

Lemma zlen_nonneg {A : Type} (l : list A) : 0 <= zlen l.
Proof. unfold zlen. lia. Qed.

Lemma zlen_nil {A : Type} : zlen (@nil A) = 0.
Proof. done. Qed.

Lemma zlen_cons {A : Type} (x : A) l : zlen (x :: l) = 1 + zlen l.
Proof. unfold zlen. cbn [length]. lia. Qed.

Lemma zlen_app {A : Type} (l k : list A) : zlen (l ++ k) = zlen l + zlen k.
Proof. unfold zlen. rewrite length_app. lia. Qed.

Lemma zlen_insert {A : Type} (l : list A) i x : zlen (<[i := x]> l) = zlen l.
Proof. unfold zlen. by rewrite length_insert. Qed.

Lemma zlen_take {A : Type} (l : list A) n :
  0 <= n <= zlen l -> zlen (take (Z.to_nat n) l) = n.
Proof. unfold zlen. rewrite length_take. lia. Qed.

Lemma zlen_drop {A : Type} (l : list A) n :
  0 <= n <= zlen l -> zlen (drop (Z.to_nat n) l) = zlen l - n.
Proof. unfold zlen. rewrite length_drop. lia. Qed.

Lemma zlen_replicate {A : Type} n (x : A) : zlen (replicate n x) = Z.of_nat n.
Proof. unfold zlen. by rewrite length_replicate. Qed.

Lemma zlen_rev {A : Type} (l : list A) : zlen (rev l) = zlen l.
Proof. unfold zlen. by rewrite length_rev. Qed.

Create Rewrite HintDb zlen.
#[export] Hint Rewrite @zlen_nil @zlen_cons @zlen_app @zlen_insert @zlen_replicate @zlen_rev : zlen.

(** Element [i] of a block, when there is one. *)
Definition at_ {A : Type} (l : list A) (i : Z) (x : A) : Prop :=
  0 <= i /\ l !! Z.to_nat i = Some x.

Lemma at_lt {A : Type} (l : list A) i x : at_ l i x -> 0 <= i < zlen l.
Proof.
  intros [? Hl]. apply lookup_lt_Some in Hl. unfold zlen. lia.
Qed.

Lemma at_exists {A : Type} (l : list A) i : 0 <= i < zlen l -> exists x, at_ l i x.
Proof.
  intros Hi. unfold zlen in Hi.
  destruct (lookup_lt_is_Some_2 l (Z.to_nat i)) as [x Hx]; [lia|].
  exists x. split; [lia|done].
Qed.

Lemma at_det {A : Type} (l : list A) i x y : at_ l i x -> at_ l i y -> x = y.
Proof. intros [_ H1] [_ H2]. congruence. Qed.

Lemma rd_at {A : Type} (l : list A) i x : at_ l i x -> rd l i = Ret x.
Proof.
  intros [Hi Hl]. unfold rd. destruct (Z.ltb_spec i 0); [lia|]. by rewrite Hl.
Qed.

Lemma rd_Ret {A : Type} (l : list A) i x : rd l i = Ret x -> at_ l i x.
Proof.
  unfold rd, at_. destruct (Z.ltb_spec i 0); [done|].
  destruct (l !! Z.to_nat i) eqn:E; [|done]. intros [= ->]. auto.
Qed.

Lemma post_rd {A : Type} (l : list A) i (Q : A -> Prop) :
  0 <= i < zlen l -> (forall x, at_ l i x -> Q x) -> post (rd l i) Q.
Proof.
  intros Hi HQ. destruct (at_exists l i Hi) as [x Hx].
  rewrite (rd_at l i x Hx). simpl. auto.
Qed.

Lemma wr_in {A : Type} (l : list A) i x :
  0 <= i < zlen l -> wr l i x = Ret (<[Z.to_nat i := x]> l).
Proof.
  intros Hi. unfold wr. destruct (Z.ltb_spec i 0), (Z.leb_spec (zlen l) i); try lia. done.
Qed.

Lemma post_wr {A : Type} (l : list A) i x (Q : list A -> Prop) :
  0 <= i < zlen l -> Q (<[Z.to_nat i := x]> l) -> post (wr l i x) Q.
Proof. intros Hi HQ. by rewrite wr_in. Qed.

Lemma at_insert_eq {A : Type} (l : list A) i x :
  0 <= i < zlen l -> at_ (<[Z.to_nat i := x]> l) i x.
Proof.
  unfold zlen. intros Hi. split; [lia|]. apply list_lookup_insert_eq. lia.
Qed.

Lemma at_insert_ne {A : Type} (l : list A) i j x y :
  0 <= i -> 0 <= j -> i <> j -> at_ (<[Z.to_nat i := x]> l) j y <-> at_ l j y.
Proof.
  intros. unfold at_. rewrite list_lookup_insert_ne by lia. done.
Qed.

Lemma rd_slice_in {A : Type} (l : list A) off n :
  0 <= off -> 0 <= n -> off + n <= zlen l ->
  rd_slice l off n = Ret (take (Z.to_nat n) (drop (Z.to_nat off) l)).
Proof.
  intros. unfold rd_slice.
  destruct (Z.ltb_spec off 0), (Z.ltb_spec n 0), (Z.ltb_spec (zlen l) (off + n)); try lia. done.
Qed.

Lemma wr_slice_in {A : Type} (l : list A) off data :
  0 <= off -> off + zlen data <= zlen l ->
  wr_slice l off data
  = Ret (take (Z.to_nat off) l ++ data ++ drop (Z.to_nat (off + zlen data)) l).
Proof.
  intros. unfold wr_slice.
  destruct (Z.ltb_spec off 0), (Z.ltb_spec (zlen l) (off + zlen data)); try lia. done.
Qed.

(** A write at the boundary between a written prefix and the rest of a block,
    the way the code fills its output buffers. *)
Lemma wr_app {A : Type} (l k : list A) (y x : A) i :
  i = zlen l -> wr (l ++ y :: k) i x = Ret (l ++ x :: k).
Proof.
  intros ->. rewrite wr_in.
  - unfold zlen. rewrite Nat2Z.id, insert_app_r_alt by lia.
    by rewrite Nat.sub_diag.
  - autorewrite with zlen. pose proof (zlen_nonneg l). pose proof (zlen_nonneg k). lia.
Qed.

Lemma rd_app_mid {A : Type} (l k : list A) (x : A) i :
  i = zlen l -> rd (l ++ x :: k) i = Ret x.
Proof.
  intros ->. apply rd_at. split; [apply zlen_nonneg|].
  unfold zlen. rewrite Nat2Z.id. by apply list_lookup_middle.
Qed.

(** ** Automation *)

(** One step of symbolic execution under [post]. *)
Ltac step :=
  lazymatch goal with
  | |- post (obind _ _) _ => apply post_bind
  | |- post (Ret _) _ => apply post_ret
  | |- post (let '(_, _) := ?x in _) _ => destruct x
  | |- post (if ?b then _ else _) _ =>
      let E := fresh "E" in destruct b eqn:E
  | |- post (c_assert _) _ => apply post_assert
  end.

(** Turns boolean comparisons in the context into propositions. *)
Ltac bool_to_prop :=
  repeat match goal with
  | H : _ && _ = true |- _ => apply andb_true_iff in H; destruct H
  | H : _ || _ = false |- _ => apply orb_false_iff in H; destruct H
  | H : _ && _ = false |- _ => apply andb_false_iff in H
  | H : _ || _ = true |- _ => apply orb_true_iff in H
  | H : negb _ = true |- _ => apply negb_true_iff in H
  | H : negb _ = false |- _ => apply negb_false_iff in H
  | H : (_ <? _) = true |- _ => apply Z.ltb_lt in H
  | H : (_ <? _) = false |- _ => apply Z.ltb_ge in H
  | H : (_ <=? _) = true |- _ => apply Z.leb_le in H
  | H : (_ <=? _) = false |- _ => apply Z.leb_gt in H
  | H : (_ =? _) = true |- _ => apply Z.eqb_eq in H
  | H : (_ =? _) = false |- _ => apply Z.eqb_neq in H
  end.

(** [lia] with division and modulo by constants and the word operations. *)
Ltac zlia :=
  unfold u8, u16, u32, u64, in_u8, in_u16, in_u32, in_u64, INT32_MAX, UINT32_MAX in *;
  Z.to_euclidean_division_equations; lia.

(** ** Bit operations as arithmetic *)

Lemma lor_low_high (k a m : Z) :
  0 <= k -> 0 <= a < 2 ^ k -> Z.lor a (m * 2 ^ k) = a + m * 2 ^ k.
Proof.
  intros Hk Ha. rewrite <- Z.shiftl_mul_pow2 by done.
  assert (Z.land a (Z.shiftl m k) = 0) as Hz.
  { apply Z.bits_inj'. intros n Hn. rewrite Z.land_spec, Z.bits_0.
    destruct (Z.ltb_spec n k).
    - rewrite Z.shiftl_spec_low by done. apply andb_false_r.
    - rewrite <- (Z.mod_small a (2 ^ k)) by done.
      by rewrite Z.mod_pow2_bits_high by lia. }
  rewrite <- Z.lxor_lor by done. by rewrite Z.add_nocarry_lxor.
Qed.

Lemma land_mask (a k m : Z) : 0 <= k -> m = 2 ^ k - 1 -> Z.land a m = a mod 2 ^ k.
Proof. intros Hk ->. rewrite <- Z.land_ones by done. by rewrite Z.ones_equiv, Z.sub_1_r. Qed.

Lemma shiftr_div (a k d : Z) : 0 <= k -> d = 2 ^ k -> Z.shiftr a k = a / d.
Proof. intros Hk ->. by apply Z.shiftr_div_pow2. Qed.

Lemma shiftl_mul (a k d : Z) : 0 <= k -> d = 2 ^ k -> Z.shiftl a k = a * d.
Proof. intros Hk ->. by apply Z.shiftl_mul_pow2. Qed.

Lemma lor_add (k a b : Z) :
  0 <= k -> 0 <= b < 2 ^ k -> a mod 2 ^ k = 0 -> Z.lor a b = a + b.
Proof.
  intros Hk Hb Ha. rewrite Z.lor_comm.
  rewrite (Z.div_mod a (2 ^ k)) by lia. rewrite Ha, Z.add_0_r, (Z.mul_comm (2 ^ k)).
  rewrite lor_low_high by done. lia.
Qed.

(** ** Little-endian words *)

Lemma length_le_bytes n v : length (le_bytes n v) = n.
Proof. revert v. induction n; simpl; auto. Qed.

Lemma zlen_le_bytes n v : zlen (le_bytes n v) = Z.of_nat n.
Proof. unfold zlen. by rewrite length_le_bytes. Qed.

Lemma le_val_le_bytes n v : le_val (le_bytes n v) = v mod 2 ^ (8 * Z.of_nat n).
Proof.
  revert v. induction n as [|n IH]; intros v; cbn [le_bytes le_val].
  - by rewrite Z.mod_1_r.
  - rewrite IH. replace (8 * Z.of_nat (S n)) with (8 + 8 * Z.of_nat n) by lia.
    rewrite Z.pow_add_r by lia. change (2 ^ 8) with 256.
    rewrite (Z.rem_mul_r v 256); lia.
Qed.

Lemma le_bytes_mod n v : le_bytes n (v mod 2 ^ (8 * Z.of_nat n)) = le_bytes n v.
Proof.
  revert v. induction n as [|n IH]; intros v; cbn [le_bytes]; [done|].
  replace (8 * Z.of_nat (S n)) with (8 + 8 * Z.of_nat n) by lia.
  rewrite Z.pow_add_r by lia. change (2 ^ 8) with 256. f_equal.
  - rewrite Z.rem_mul_r by lia. rewrite (Z.mul_comm 256), Z.mod_add by lia. by rewrite Z.mod_mod.
  - rewrite Z.rem_mul_r by lia. rewrite (Z.mul_comm 256), Z.div_add by lia.
    rewrite Z.div_small by (apply Z.mod_pos_bound; lia). by rewrite Z.add_0_l, IH.
Qed.

Lemma le_bytes_u8 n v : Forall in_u8 (le_bytes n v).
Proof.
  revert v. induction n; intros; cbn [le_bytes]; constructor; [|done].
  unfold in_u8. zlia.
Qed.

#[export] Hint Rewrite zlen_le_bytes : zlen.

Create HintDb cmem.
#[export] Hint Resolve zlen_nonneg at_lt rd_at : cmem.

(** ** Sub-blocks *)

(** The block [bs] sits at offset [p] of [m]. *)
Fixpoint block_at {A : Type} (m : list A) (p : Z) (bs : list A) : Prop :=
  match bs with
  | [] => True
  | b :: bs => at_ m p b /\ block_at m (p + 1) bs
  end.

Lemma block_at_app {A : Type} (m : list A) p bs cs :
  block_at m p (bs ++ cs) <-> block_at m p bs /\ block_at m (p + zlen bs) cs.
Proof.
  revert p. induction bs as [|b bs IH]; intros p.
  - rewrite zlen_nil, Z.add_0_r. simpl. tauto.
  - rewrite zlen_cons. simpl. rewrite IH.
    replace (p + (1 + zlen bs)) with (p + 1 + zlen bs) by lia. tauto.
Qed.

Lemma block_at_mid {A : Type} (l k r : list A) : block_at (l ++ k ++ r) (zlen l) k.
Proof.
  revert l. induction k as [|x k IH]; intros l; [done|]. cbn [block_at]. split.
  - apply rd_Ret. by apply rd_app_mid.
  - specialize (IH (l ++ [x])). rewrite <- app_assoc in IH.
    by replace (zlen l + 1) with (zlen (l ++ [x])) by (by rewrite zlen_app).
Qed.

Lemma block_at_le {A : Type} (m : list A) p bs :
  block_at m p bs -> bs <> [] -> 0 <= p /\ p + zlen bs <= zlen m.
Proof.
  revert p. induction bs as [|b bs IH]; [done|]. intros p [Hb Hbs] _.
  apply at_lt in Hb. rewrite zlen_cons. destruct bs as [|b' bs].
  - unfold zlen in *. cbn [length]. lia.
  - apply IH in Hbs; [lia|done].
Qed.

(** Decides the conditionals of a goal whose tests follow from the context. *)
Ltac decide_ifs tac :=
  repeat match goal with
  | |- context [if ?b then _ else _] =>
      first [ replace b with true by (symmetry; tac)
            | replace b with false by (symmetry; tac) ]
  end.

(** Performs the reads whose contents are known. *)
Ltac rd_known :=
  repeat match goal with
  | H : at_ ?m ?p ?x |- context [rd ?m ?q] =>
      replace (rd m q) with (Ret x) by (symmetry; apply rd_at; first
        [ exact H | replace q with p by lia; exact H ])
  end; cbn [obind].

(** ** Inversion of returned values *)

Lemma obind_Ret {A B : Type} (m : outcome A) (k : A -> outcome B) b :
  obind m k = Ret b -> exists a, m = Ret a /\ k a = Ret b.
Proof. destruct m; simpl; [eauto | done]. Qed.

Lemma at_Forall {A : Type} (P : A -> Prop) (l : list A) i x : Forall P l -> at_ l i x -> P x.
Proof. intros HP [_ Hl]. by eapply Forall_lookup_1. Qed.

(** Takes apart an equation between the body of a definition and [Ret]. *)
Ltac inv_ret :=
  repeat match goal with
  | H : obind _ _ = Ret _ |- _ =>
      let x := fresh "x" in let Hx := fresh "Hx" in
      apply obind_Ret in H; destruct H as (x & Hx & H); cbn beta in H
  | H : Ret _ = Ret _ |- _ => progress simplify_eq
  | H : Err _ = Ret _ |- _ => discriminate H
  | H : rd _ _ = Ret _ |- _ => apply rd_Ret in H
  | H : (if ?b then _ else _) = Ret _ |- _ =>
      let E := fresh "E" in destruct b eqn:E
  | H : (let '(_, _) := ?x in _) = Ret _ |- _ => destruct x
  end.

(** ** Values that fit their type *)

Lemma u8_id z : in_u8 z -> u8 z = z.
Proof. apply Z.mod_small. Qed.

Lemma u16_id z : in_u16 z -> u16 z = z.
Proof. apply Z.mod_small. Qed.

Lemma u32_id z : in_u32 z -> u32 z = z.
Proof. apply Z.mod_small. Qed.

Lemma u64_id z : in_u64 z -> u64 z = z.
Proof. apply Z.mod_small. Qed.

Lemma at_plus {A : Type} (m : list A) p q x y : at_ m p x -> p = q -> x = y -> at_ m q y.
Proof. by intros ? -> ->. Qed.

(** Identifies the values of two reads of one cell. *)
Ltac at_merge :=
  repeat match goal with
  | H1 : at_ ?m ?p ?x, H2 : at_ ?m ?p ?y |- _ =>
      assert (x = y) as -> by (eapply at_det; eassumption); clear H1
  end.

Lemma lor_bound k a b :
  0 <= k -> 0 <= a < 2 ^ k -> 0 <= b < 2 ^ k -> 0 <= Z.lor a b < 2 ^ k.
Proof.
  intros Hk Ha Hb. rewrite <- (Z.mod_small a (2 ^ k)), <- (Z.mod_small b (2 ^ k)) by done.
  rewrite <- !Z.land_ones, <- Z.land_lor_distr_l, Z.land_ones by done.
  apply Z.mod_pos_bound. lia.
Qed.

(** ** Block writes *)

Lemma split_at {A : Type} (l : list A) i :
  0 <= i < zlen l -> exists p x r, l = p ++ x :: r /\ zlen p = i.
Proof.
  intros Hi. destruct (at_exists l i Hi) as (x & _ & Hx).
  exists (take (Z.to_nat i) l), x, (drop (S (Z.to_nat i)) l). split.
  - symmetry. by apply take_drop_middle.
  - apply zlen_take. lia.
Qed.

Lemma wr_slice_app {A : Type} (p r t : list A) :
  zlen t <= zlen r -> wr_slice (p ++ r) (zlen p) t = Ret (p ++ t ++ drop (length t) r).
Proof.
  intros Ht. pose proof (zlen_nonneg p).
  rewrite wr_slice_in by (rewrite ?zlen_app; lia). f_equal. unfold zlen in *.
  rewrite Nat2Z.id, take_app_length. do 2 f_equal.
  rewrite <- Nat2Z.inj_add, Nat2Z.id. apply drop_app_add.
Qed.

Lemma wr_slice_nil {A : Type} (l : list A) i : 0 <= i <= zlen l -> wr_slice l i [] = Ret l.
Proof.
  intros Hi. rewrite wr_slice_in by (change (zlen []) with 0; lia). f_equal.
  change (zlen []) with 0. rewrite Z.add_0_r. cbn [app]. apply take_drop.
Qed.

(** A block write is the sequence of the writes of its elements. *)
Lemma wr_slice_cons {A : Type} (l : list A) i a t :
  wr_slice l i (a :: t) = let* l := wr l i a in wr_slice l (i + 1) t.
Proof.
  unfold wr_slice at 1, wr. rewrite zlen_cons. pose proof (zlen_nonneg t).
  destruct (Z.ltb_spec i 0) as [Hi|Hi]; [done|]. cbn [orb].
  destruct (Z.leb_spec (zlen l) i) as [Hl|Hl]; cbn [obind].
  { destruct (Z.ltb_spec (zlen l) (i + (1 + zlen t))); [done|lia]. }
  destruct (split_at l i) as (p & x & r & -> & <-); [lia|].
  assert (<[Z.to_nat (zlen p):=a]> (p ++ x :: r) = p ++ a :: r) as ->
    by (unfold zlen; rewrite Nat2Z.id, insert_app_r_alt, Nat.sub_diag by lia; done).
  replace (p ++ a :: r) with ((p ++ [a]) ++ r) by (by rewrite <- app_assoc).
  replace (zlen p + 1) with (zlen (p ++ [a])) by (by rewrite zlen_app).
  rewrite zlen_app, zlen_cons.
  destruct (Z.ltb_spec (zlen p + (1 + zlen r)) (zlen p + (1 + zlen t))).
  - unfold wr_slice. rewrite !zlen_app.
    replace (zlen p + zlen [a] + zlen r <? _) with true by (change (zlen [a]) with 1; lia).
    by rewrite orb_true_r.
  - rewrite wr_slice_app by lia. f_equal. rewrite <- app_assoc. unfold zlen.
    rewrite Nat2Z.id, take_app_length. cbn [app]. do 3 f_equal.
    replace (Z.to_nat _) with (length p + (1 + length t))%nat by lia.
    by rewrite drop_app_add.
Qed.

(** * Character constants *)

(** The bytes of a C string literal, without the terminator. *)
Definition bytes_of_string (s : string) : list Z :=
  map (fun a => Z.of_nat (Ascii.nat_of_ascii a)) (String.list_ascii_of_string s).

Lemma wr_slice_Ret {A : Type} (m m' : list A) p t :
  wr_slice m p t = Ret m' ->
  exists a h r, m = a ++ h ++ r /\ zlen a = p /\ length h = length t /\ m' = a ++ t ++ r.
Proof.
  unfold wr_slice. destruct (_ || _) eqn:E; [done|]. bool_to_prop. intros [= <-].
  exists (take (Z.to_nat p) m), (take (length t) (drop (Z.to_nat p) m)), (drop (Z.to_nat (p + zlen t)) m).
  pose proof (zlen_nonneg t). unfold zlen in *. split_and!.
  - rewrite <- (take_drop (Z.to_nat p) m) at 1. f_equal.
    rewrite <- (take_drop (length t) (drop (Z.to_nat p) m)) at 1. f_equal.
    rewrite drop_drop. f_equal. lia.
  - rewrite length_take. lia.
  - rewrite length_take, length_drop. lia.
  - done.
Qed.

Lemma wr_slice_mid {A : Type} (a h r t : list A) :
  length h = length t -> wr_slice (a ++ h ++ r) (zlen a) t = Ret (a ++ t ++ r).
Proof.
  intros Hl. rewrite wr_slice_app.
  - by rewrite <- Hl, drop_app_length.
  - rewrite zlen_app. pose proof (zlen_nonneg r). unfold zlen in *. lia.
Qed.

Lemma wr_slice_exists {A : Type} (m : list A) p t :
  0 <= p -> p + zlen t <= zlen m -> exists m', wr_slice m p t = Ret m'.
Proof. intros. rewrite wr_slice_in by done. eauto. Qed.

(** A store just before a written block extends the block. *)
Lemma wr_slice_before {A : Type} (m m1 : list A) p t c :
  0 <= p -> wr_slice m (p + 1) t = Ret m1 -> wr m1 p c = wr_slice m p (c :: t).
Proof.
  intros Hp H. apply wr_slice_Ret in H as (a & h & r & -> & Ha & Hl & ->).
  destruct a as [|x a] using rev_ind; [unfold zlen in Ha; cbn [length] in Ha; lia|]. clear IHa.
  rewrite zlen_app in Ha. change (zlen [x]) with 1 in Ha.
  rewrite <- !app_assoc. cbn [app]. rewrite wr_app by lia.
  replace p with (zlen a) by lia.
  change (a ++ x :: h ++ r) with (a ++ (x :: h) ++ r).
  rewrite wr_slice_mid by (cbn [length]; lia). done.
Qed.

(** A block written over the end of another one. *)
Lemma wr_slice_overlay {A : Type} (m m1 : list A) p (t u v : list A) :
  wr_slice m p (t ++ u) = Ret m1 -> zlen u <= zlen v ->
  p + zlen t + zlen v <= zlen m ->
  wr_slice m1 (p + zlen t) v = wr_slice m p (t ++ v).
Proof.
  intros H Hl Hlen. apply wr_slice_Ret in H as (a & h & r & -> & <- & Hh & ->).
  rewrite !zlen_app in Hlen. rewrite length_app in Hh.
  assert (zlen (a ++ h ++ r) = zlen (a ++ t ++ u ++ r)) as Hz
    by (unfold zlen; rewrite !length_app; lia).
  rewrite wr_slice_in by (rewrite ?zlen_app; pose proof (zlen_nonneg a); pose proof (zlen_nonneg t);
                          unfold zlen in *; lia).
  rewrite wr_slice_in by (rewrite ?zlen_app; pose proof (zlen_nonneg a); unfold zlen in *; lia).
  f_equal. unfold zlen in *. rewrite Nat2Z.id, length_app, take_app_length.
  replace (Z.to_nat (Z.of_nat (length a) + Z.of_nat (length t))) with (length a + length t)%nat by lia.
  rewrite <- app_assoc, take_app_add, take_app_length, <- !app_assoc. do 3 f_equal.
  replace (Z.to_nat (_ + _)) with (length a + (length t + length v))%nat by lia.
  rewrite drop_app_add, drop_app_add.
  replace (Z.to_nat (_ + _)) with (length a + (length t + length v))%nat by lia.
  rewrite drop_app_add. rewrite !drop_app_ge by lia. f_equal. lia.
Qed.

Lemma wr_slice_block {A : Type} (m m' : list A) p t :
  wr_slice m p t = Ret m' -> block_at m' p t /\ zlen m' = zlen m.
Proof.
  intros H. apply wr_slice_Ret in H as (a & h & r & -> & <- & Hh & ->). split.
  - apply block_at_mid.
  - unfold zlen. rewrite !length_app. lia.
Qed.

Lemma wr_slice_outside {A : Type} (m m' : list A) p t i x :
  wr_slice m p t = Ret m' -> i < p \/ p + zlen t <= i -> at_ m i x <-> at_ m' i x.
Proof.
  intros H Hi. apply wr_slice_Ret in H as (a & h & r & -> & <- & Hh & ->).
  unfold at_, zlen in *. destruct Hi as [Hi|Hi].
  - split; (intros [H0 Hx]; split; [done|]); rewrite lookup_app_l in * by lia; done.
  - split; (intros [H0 Hx]; split; [done|]);
      rewrite !lookup_app_r in * by lia; by rewrite Hh in *.
Qed.

Lemma rd_slice_block_at {A : Type} (m : list A) p bs :
  0 <= p -> block_at m p bs -> p + zlen bs <= zlen m -> rd_slice m p (zlen bs) = Ret bs.
Proof.
  intros Hp Hb Hl. pose proof (zlen_nonneg bs). rewrite rd_slice_in by lia. f_equal.
  unfold zlen in *. rewrite Nat2Z.id. clear H. revert p Hp Hb Hl.
  induction bs as [|b bs IH]; intros p Hp Hb Hl; [done|]. cbn [block_at length] in *.
  destruct Hb as [[_ Hb] Hbs]. rewrite (drop_S _ _ _ Hb). cbn [take]. f_equal.
  replace (S (Z.to_nat p)) with (Z.to_nat (p + 1)) by lia. apply IH; (done || lia).
Qed.

Lemma zlen_map {A B : Type} (f : A -> B) l : zlen (map f l) = zlen l.
Proof. unfold zlen. by rewrite length_map. Qed.

Lemma wr_slice_1 {A : Type} (m : list A) p x :
  0 <= p < zlen m -> wr m p x = wr_slice m p [x].
Proof.
  intros Hp. rewrite wr_slice_cons, wr_in by done. cbn [obind].
  rewrite wr_slice_nil; [done|]. rewrite zlen_insert. lia.
Qed.

Lemma wr_slice_2 {A : Type} (m : list A) p x y :
  0 <= p -> p + 1 < zlen m ->
  (let* m := wr m p x in wr m (p + 1) y) = wr_slice m p [x; y].
Proof.
  intros. rewrite wr_slice_cons, wr_in by lia. cbn [obind].
  rewrite wr_slice_1; [done|]. rewrite zlen_insert. lia.
Qed.

Lemma obind_assoc {A B C : Type} (m : outcome A) (f : A -> outcome B) (g : B -> outcome C) :
  obind (obind m f) g = obind m (fun a => obind (f a) g).
Proof. by destruct m. Qed.

(** A block is at the same place in memories that agree on its cells. *)
Lemma block_at_transport {A : Type} (m m' : list A) p bs :
  block_at m p bs ->
  (forall i x, p <= i < p + zlen bs -> at_ m i x <-> at_ m' i x) -> block_at m' p bs.
Proof.
  revert p. induction bs as [|b bs IH]; intros p; [done|]. cbn [block_at]. rewrite zlen_cons.
  pose proof (zlen_nonneg bs). intros [Hb Hbs] H'. split; [apply H'; [lia|done]|].
  apply IH; [done|]. intros i x Hi. apply H'. lia.
Qed.

Lemma block_at_take {A : Type} (m : list A) n :
  0 <= n <= zlen m -> block_at m 0 (take (Z.to_nat n) m).
Proof.
  intros Hn. rewrite <- (take_drop (Z.to_nat n) m) at 1. apply (block_at_mid []).
Qed.

Lemma take_block_at {A : Type} (m : list A) bs :
  block_at m 0 bs -> zlen bs <= zlen m -> take (Z.to_nat (zlen bs)) m = bs.
Proof.
  intros Hb Hl. pose proof (zlen_nonneg bs). pose proof (rd_slice_block_at m 0 bs) as H1.
  rewrite rd_slice_in, drop_0 in H1 by lia. specialize (H1 ltac:(lia) Hb Hl). congruence.
Qed.

Lemma block_at_insert_ne {A : Type} (m : list A) i x p bs :
  block_at m p bs -> 0 <= p -> 0 <= i -> i < p \/ p + zlen bs <= i ->
  block_at (<[Z.to_nat i := x]> m) p bs.
Proof.
  intros Hb Hp Hi Hout. eapply block_at_transport; [exact Hb|].
  intros j y Hj. symmetry. apply at_insert_ne; lia.
Qed.

(** A write just after a block extends it. *)
Lemma block_at_snoc {A : Type} (m : list A) p bs x :
  block_at m p bs -> 0 <= p -> p + zlen bs < zlen m ->
  block_at (<[Z.to_nat (p + zlen bs) := x]> m) p (bs ++ [x]).
Proof.
  intros Hb Hp Hl. pose proof (zlen_nonneg bs). apply block_at_app. split.
  - apply block_at_insert_ne; [done|lia..].
  - split; [|done]. apply at_insert_eq. lia.
Qed.

(** ** Even lists *)

Lemma pairs_ind {A : Type} (P : list A -> Prop) :
  P [] -> (forall a, P [a]) -> (forall a b l, P l -> P (a :: b :: l)) -> forall l, P l.
Proof.
  intros H0 H1 H2. fix IH 1. intros [|a [|b l]]; [exact H0|apply H1|apply H2, IH].
Qed.

Lemma even_SS n : Nat.Even (S (S n)) <-> Nat.Even n.
Proof. apply Nat.Even_succ_succ. Qed.

Lemma even_not_1 : ~ Nat.Even 1.
Proof. by intros [m Hm]; destruct m; cbn in *; lia. Qed.

#[export] Hint Resolve even_not_1 : core.

Lemma zlen_1 {A : Type} (x : A) : zlen [x] = 1.
Proof. done. Qed.

Lemma zlen_2 {A : Type} (x y : A) : zlen [x; y] = 2.
Proof. done. Qed.

#[export] Hint Rewrite @zlen_1 @zlen_2 : zlen.

(** ** Cells of slices *)

Lemma at_rd_slice {A : Type} (m t : list A) p n :
  rd_slice m p n = Ret t ->
  zlen t = n /\ forall i x, at_ t i x <-> 0 <= i < n /\ at_ m (p + i) x.
Proof.
  unfold rd_slice. destruct (_ || _) eqn:E; [done|]. bool_to_prop. intros [= <-].
  unfold zlen in *. split; [rewrite length_take, length_drop; lia|]. intros i x. unfold at_.
  split.
  - intros [Hi Hx]. apply lookup_take_Some in Hx as [Hx Hlt]. rewrite lookup_drop in Hx.
    split; [lia|]. split; [lia|]. rewrite <- Hx. f_equal. lia.
  - intros [Hi [_ Hx]]. split; [lia|]. apply lookup_take_Some. split; [|lia].
    rewrite lookup_drop, <- Hx. f_equal. lia.
Qed.

Lemma at_wr_slice {A : Type} (m m' t : list A) p :
  wr_slice m p t = Ret m' ->
  zlen m' = zlen m /\
  forall i x, at_ m' i x <-> if (p <=? i) && (i <? p + zlen t) then at_ t (i - p) x else at_ m i x.
Proof.
  intros H. pose proof (wr_slice_outside m m' p t) as Hout. specialize (fun i x => Hout i x H).
  destruct (wr_slice_block _ _ _ _ H) as [Hb Hz]. split; [done|]. intros i x.
  destruct (Z.leb_spec p i), (Z.ltb_spec i (p + zlen t)); cbn [andb]; try (symmetry; apply Hout; lia).
  assert (forall j, 0 <= j < zlen t -> forall y, at_ t j y -> at_ m' (p + j) y) as Hin.
  { clear - Hb. revert p Hb. induction t as [|z t IH]; intros p Hb j Hj y Hy; [change (zlen []) with 0 in Hj; lia|].
    destruct Hb as [Hz Hb]. rewrite zlen_cons in Hj. destruct Hy as [Hj0 Hy].
    destruct (Z.eq_dec j 0) as [->|Hne].
    - injection Hy as ->. by rewrite Z.add_0_r.
    - replace (p + j) with (p + 1 + (j - 1)) by lia. apply (IH _ Hb); [lia|]. split; [lia|].
      by replace (Z.to_nat j) with (S (Z.to_nat (j - 1))) in Hy by lia. }
  destruct (at_exists t (i - p)) as [y Hy]; [lia|].
  pose proof (Hin (i - p) ltac:(lia) y Hy) as Hy'. replace (p + (i - p)) with i in Hy' by lia.
  split; intros Hx.
  - by rewrite (at_det _ _ _ _ Hx Hy').
  - by rewrite (at_det _ _ _ _ Hx Hy).
Qed.

(** * Safety *)

(** [m] does not fault; if it returns, its value satisfies [Q].  The statement
    for code whose running time is not bounded by the model's fuel. *)
Definition safely {A : Type} (m : outcome A) (Q : A -> Prop) : Prop :=
  match m with
  | Ret a => Q a
  | Err OutOfFuel => True
  | Err _ => False
  end.

Lemma post_safely {A : Type} (m : outcome A) (Q : A -> Prop) : post m Q -> safely m Q.
Proof. by destruct m. Qed.

Lemma safely_ret {A : Type} (a : A) (Q : A -> Prop) : Q a -> safely (Ret a) Q.
Proof. done. Qed.

Lemma safely_mono {A : Type} (m : outcome A) (P Q : A -> Prop) :
  safely m P -> (forall a, P a -> Q a) -> safely m Q.
Proof. destruct m; simpl; auto. Qed.

Lemma safely_bind {A B : Type} (m : outcome A) (k : A -> outcome B) (P : A -> Prop) (Q : B -> Prop) :
  safely m P -> (forall a, P a -> safely (k a) Q) -> safely (obind m k) Q.
Proof. destruct m as [a|e]; simpl; [auto|]. by destruct e. Qed.

Lemma safely_iter {S R : Type} (I : S -> Prop) (Q : R -> Prop) (body : S -> outcome (S + R)) fuel s :
  (forall s, I s -> safely (body s) (fun r => match r with inl s => I s | inr r => Q r end)) ->
  I s -> safely (iter fuel body s) Q.
Proof.
  intros Hb. revert s. induction fuel as [|fuel IH]; intros s Hs; [done|]. cbn [iter].
  eapply safely_bind; [by apply Hb|]. intros [s'|r] H; [by apply IH|done].
Qed.

(** A returned value, when the computation is known not to fault. *)
Lemma safely_Ret {A : Type} (m : outcome A) (Q : A -> Prop) a : safely m Q -> m = Ret a -> Q a.
Proof. by intros H ->. Qed.

(** * Loops over the elements of an array *)

Lemma ofold_app {A S : Type} (f : S -> A -> outcome S) s l k :
  ofold f s (l ++ k) = let* s := ofold f s l in ofold f s k.
Proof.
  revert s. induction l as [|x l IH]; intros s; [done|]. cbn [app ofold].
  destruct (f s x); [apply IH|done].
Qed.

(** The rule of a loop over an array: [P] holds of the elements done. *)
Lemma post_ofold {A S : Type} (f : S -> A -> outcome S) (P : list A -> S -> Prop) l :
  (forall l1 x l2 s, l = l1 ++ x :: l2 -> P l1 s -> post (f s x) (P (l1 ++ [x]))) ->
  forall s, P [] s -> post (ofold f s l) (P l).
Proof.
  intros Hstep. assert (forall l2 l1 s, l = l1 ++ l2 -> P l1 s -> post (ofold f s l2) (P l)) as H.
  { induction l2 as [|x l2 IH]; intros l1 s -> HP; cbn [ofold].
    - apply post_ret. by rewrite app_nil_r in *.
    - apply post_bind. eapply post_mono; [exact (Hstep l1 x l2 s eq_refl HP)|]. intros s' HP'.
      apply (IH (l1 ++ [x])); [by rewrite <- app_assoc|done]. }
  intros s. by apply H.
Qed.
