(* ===== verification/Alloc.v ===== *)
(** The memory allocator the C code is given.

    Every component that allocates takes a [realloc] function with an opaque
    argument.  Whether a request succeeds, and what the fresh cells of a block
    hold, is up to that function and its state, so both are a parameter: an
    instance of [Allocator].  What [realloc] does to the block is documented by
    the C library and fixed here: the cells both blocks have are kept. *)
From Stdlib Require Import ZArith Lia Bool List.
From stdpp Require Import base tactics list numbers.
From S2P Require Import Prelude.

(** The state behind the [opaque] pointer, and the answer to a request for
    [n] bytes: the new state, and [None] for a null result or the contents of
    the cells of a new block. *)
Class Allocator := {
  heap : Type;
  heap_alloc : heap -> Z -> heap * option (nat -> Z)
}.

(** A cell read from fresh memory holds some value of its type. *)
Definition fresh_cells (wrap : Z -> Z) (fresh : nat -> Z) (from n : nat) : list Z :=
  map (fun i => wrap (fresh i)) (seq from n).

Definition resize (wrap : Z -> Z) (fresh : nat -> Z) (buf : list Z) (n : nat) : list Z :=
  take n buf ++ fresh_cells wrap fresh (length buf) (n - length buf).

Section Realloc.
Context `{AL : Allocator}.

(** A request for a block of [n] bytes whose contents are not modelled: the new
    state, and whether the result is not null. *)
Definition alloc (h : heap) (n : Z) : heap * bool :=
  let '(h, r) := heap_alloc h n in
  (h, match r with Some _ => n <? 2 ^ 63 | None => false end).

(** [realloc_func(opaque, buf, n * size)] on a block of cells of [size] bytes
    with the conversion [wrap]: [None] is a null result, the only answer to a
    request above [PTRDIFF_MAX]. *)
Definition realloc (size : Z) (wrap : Z -> Z) (h : heap) (buf : list Z) (n : Z)
    : heap * option (list Z) :=
  let '(h, r) := heap_alloc h (n * size) in
  match r with
  | None => (h, None)
  | Some fresh =>
      (h, if n * size <? 2 ^ 63 then Some (resize wrap fresh buf (Z.to_nat n)) else None)
  end.

Lemma realloc_Some size wrap h buf n h' buf' :
  realloc size wrap h buf n = (h', Some buf') -> 0 <= n ->
  zlen buf' = n /\ n * size < 2 ^ 63 /\
  take (Z.to_nat (Z.min n (zlen buf))) buf' = take (Z.to_nat n) buf.
Proof.
  unfold realloc. destruct (heap_alloc h (n * size)) as [h1 [fresh|]]; [|done].
  destruct (Z.ltb_spec (n * size) (2 ^ 63)) as [Hb|]; [|done].
  intros [= <- <-] Hn. unfold resize, fresh_cells, zlen.
  rewrite length_app, length_take, length_map, length_seq. split; [lia|]. split; [done|].
  rewrite take_app_le by (rewrite length_take; lia). rewrite take_take.
  destruct (Nat.le_ge_cases (Z.to_nat n) (length buf)).
  - f_equal. lia.
  - rewrite (take_ge buf (Z.to_nat n)) by lia. apply take_ge. lia.
Qed.
End Realloc.

(** The allocator refuses a request for [n] bytes in the state [h], or in some
    state; it refuses some request: memory can be short. *)
Definition refuses `{AL : Allocator} (h : heap) (n : Z) : Prop := (heap_alloc h n).2 = None.
Definition may_refuse `{AL : Allocator} (n : Z) : Prop := exists h, refuses h n.
Definition can_refuse `{AL : Allocator} : Prop := exists n, may_refuse n.

(** The allocator that always succeeds with zeroed cells. *)
Definition alloc_always : Allocator := {| heap := unit; heap_alloc h _ := (h, Some (fun _ => 0)) |}.

Lemma alloc_always_serves : ~ @can_refuse alloc_always.
Proof. by intros (n & h & H). Qed.

(** The allocator that fails once [h] requests have been served. *)
Definition alloc_budget : Allocator :=
  {| heap := nat;
     heap_alloc h _ := match h with O => (O, None) | S h => (h, Some (fun _ => 0)) end |}.

(** The allocator that serves the requests up to [h] bytes. *)
Definition alloc_limit : Allocator :=
  {| heap := Z;
     heap_alloc h n := (h, if n <=? h then Some (fun _ => 0) else None) |}.
