(* ===== verification/Utf8.v ===== *)
(** The UTF-8 and UTF-16 codec of [cutils.c] and [cutils.h].

    Input buffers are lists of bytes and input pointers are offsets in them;
    every read and write is checked.  The encoders of one code point return the
    bytes they store, the buffer converters return the destination block after
    their writes.  The surrogate predicates and converters are those of
    [cutils.h]. *)
From Stdlib Require Import ZArith Lia Bool List.
From stdpp Require Import base tactics list numbers.
From S2P Require Import Prelude.

(** * Surrogates *)

Definition is_surrogate (c : Z) : bool := Z.shiftr c 11 =? Z.shiftr 0xD800 11.
Definition is_hi_surrogate (c : Z) : bool := Z.shiftr c 10 =? Z.shiftr 0xD800 10.
Definition is_lo_surrogate (c : Z) : bool := Z.shiftr c 10 =? Z.shiftr 0xDC00 10.

Definition get_hi_surrogate (c : Z) : Z :=
  u32 (Z.shiftr c 10 - Z.shiftr 0x10000 10 + 0xD800).
Definition get_lo_surrogate (c : Z) : Z := Z.lor (Z.land c 0x3FF) 0xDC00.
Definition from_surrogate (hi lo : Z) : Z :=
  u32 (65536 + 1024 * Z.land hi 1023 + Z.land lo 1023).

(** * One code point *)

Definition utf8_encode_len (c : Z) : Z :=
  if c <? 0x80 then 1
  else if c <? 0x800 then 2
  else if c <? 0x10000 then 3
  else if c <? 0x110000 then 4
  else 3.

(** The bytes stored at [buf]; the return value is their number. *)
Definition utf8_encode (c : Z) : list Z :=
  if c <? 0x80 then [u8 c]
  else if c <? 0x800 then
    [u8 (Z.lor (Z.shiftr c 6) 0xC0); u8 (Z.lor (Z.land c 0x3F) 0x80)]
  else if c <? 0x10000 then
    [u8 (Z.lor (Z.shiftr c 12) 0xE0);
     u8 (Z.lor (Z.land (Z.shiftr c 6) 0x3F) 0x80);
     u8 (Z.lor (Z.land c 0x3F) 0x80)]
  else if c <? 0x110000 then
    [u8 (Z.lor (Z.shiftr c 18) 0xF0);
     u8 (Z.lor (Z.land (Z.shiftr c 12) 0x3F) 0x80);
     u8 (Z.lor (Z.land (Z.shiftr c 6) 0x3F) 0x80);
     u8 (Z.lor (Z.land c 0x3F) 0x80)]
  else
    [u8 (Z.lor (Z.shiftr 0xFFFD 12) 0xE0);
     u8 (Z.lor (Z.land (Z.shiftr 0xFFFD 6) 0x3F) 0x80);
     u8 (Z.lor (Z.land 0xFFFD 0x3F) 0x80)].

(** [*p >= lower && *p <= upper] for the byte at [p]. *)
Definition in_range (m : list Z) (p lower upper : Z) : outcome bool :=
  let* b := rd m p in Ret ((lower <=? b) && (b <=? upper)).

(** The two-byte case of the [switch], label-free. *)
Definition utf8_need1 (m : list Z) (p c : Z) : outcome (Z * Z) :=
  let* ok := in_range m p 0x80 0xBF in
  if ok then
    let* b := rd m p in
    Ret (u32 (Z.shiftl (c - 0xC0) 6 + (b - 0x80)), p + 1)
  else Ret (0xFFFD, p).

(** The code at label [need2]. *)
Definition utf8_need2 (m : list Z) (p c lower : Z) : outcome (Z * Z) :=
  let* ok := in_range m p lower 0xBF in
  let* ok := if ok then in_range m (p + 1) 0x80 0xBF else Ret false in
  if ok then
    let* b := rd m p in
    let* b1 := rd m (p + 1) in
    Ret (u32 (Z.shiftl (c - 0xE0) 12 + Z.shiftl (b - 0x80) 6 + (b1 - 0x80)), p + 2)
  else Ret (0xFFFD, p).

(** The code at label [need3]. *)
Definition utf8_need3 (m : list Z) (p c lower upper : Z) : outcome (Z * Z) :=
  let* ok := in_range m p lower upper in
  let* ok := if ok then in_range m (p + 1) 0x80 0xBF else Ret false in
  let* ok := if ok then in_range m (p + 2) 0x80 0xBF else Ret false in
  if ok then
    let* b := rd m p in
    let* b1 := rd m (p + 1) in
    let* b2 := rd m (p + 2) in
    Ret (u32 (Z.shiftl (c - 0xF0) 18 + Z.shiftl (b - 0x80) 12
              + Z.shiftl (b1 - 0x80) 6 + (b2 - 0x80)), p + 3)
  else Ret (0xFFFD, p).

(** Returns the code point and the new value of [*pp]. *)
Definition utf8_decode (m : list Z) (p : Z) : outcome (Z * Z) :=
  let* c := rd m p in
  let p := p + 1 in
  if c <? 0x80 then Ret (c, p)
  else if (0xC2 <=? c) && (c <=? 0xDF) then utf8_need1 m p c
  else if c =? 0xE0 then utf8_need2 m p c 0xA0
  else if (0xE1 <=? c) && (c <=? 0xEF) then utf8_need2 m p c 0x80
  else if c =? 0xF0 then utf8_need3 m p c 0x90 0xBF
  else if c =? 0xF4 then utf8_need3 m p c 0x80 0x8F
  else if (0xF1 <=? c) && (c <=? 0xF3) then utf8_need3 m p c 0x80 0xBF
  else Ret (0xFFFD, p).

Definition utf8_decode_len (m : list Z) (p max_len : Z) : outcome (Z * Z) :=
  if max_len =? 0 then Ret (0xFFFD, p)
  else
    let* b := if max_len <? 4 then rd m p else Ret 0 in
    if ((max_len =? 1) && negb (b <? 0x80))
       || ((max_len =? 2) && negb (b <? 0xE0))
       || ((max_len =? 3) && negb (b <? 0xF0))
    then Ret (0xFFFD, p + 1)
    else utf8_decode m p.

(** * Buffers *)

Definition UTF8_PLAIN_ASCII : Z := 0.
Definition UTF8_NON_ASCII : Z := 1.
Definition UTF8_HAS_16BIT : Z := 2.
Definition UTF8_HAS_NON_BMP1 : Z := 4.
Definition UTF8_HAS_ERRORS : Z := 8.

(** The loop [for (i = 0; i < buf_len; i++) cbits |= buf[i]]. *)
Definition utf8_scan_cbits (m : list Z) (buf_len : Z) : outcome Z :=
  iter (S (Z.to_nat buf_len)) (fun '(i, cbits) =>
    if i <? buf_len then
      let* b := rd m i in
      Ret (inl (i + 1, u8 (Z.lor cbits b)))
    else Ret (inr cbits)) (0, 0).

(** The body of [while (p < p_end)] in [utf8_scan]. *)
Definition utf8_scan_step (m : list Z) (p_end : Z)
    (s : Z * Z * Z) : outcome (Z * Z * Z + Z * Z) :=
  let '(p, len, kind) := s in
  if p <? p_end then
    let len := len + 1 in
    let* b := rd m p in
    let p := p + 1 in
    if 0x80 <=? b then
      let* (c, p_next) := utf8_decode_len m (p - 1) (p_end - (p - 1)) in
      let kind := if p_next =? p then Z.lor kind UTF8_HAS_ERRORS else kind in
      let p := p_next in
      if 0xFF <? c then
        let kind := Z.lor kind UTF8_HAS_16BIT in
        if 0xFFFF <? c then Ret (inl (p, len + 1, Z.lor kind UTF8_HAS_NON_BMP1))
        else Ret (inl (p, len, kind))
      else Ret (inl (p, len, kind))
    else Ret (inl (p, len, kind))
  else Ret (inr (kind, len)).

(** Returns the kind and the length stored at [*plen]. *)
Definition utf8_scan (m : list Z) (buf_len : Z) : outcome (Z * Z) :=
  let* cbits := utf8_scan_cbits m buf_len in
  if 0x80 <=? cbits then
    iter (S (Z.to_nat buf_len)) (utf8_scan_step m buf_len) (0, 0, UTF8_NON_ASCII)
  else Ret (UTF8_PLAIN_ASCII, buf_len).

(** [if (i < dest_len) dest[i] = c]. *)
Definition put_dest (dest : list Z) (dest_len i c : Z) : outcome (list Z) :=
  if i <? dest_len then wr dest i c else Ret dest.

Definition utf8_decode_buf8_step (m : list Z) (p_end dest_len : Z)
    (s : Z * Z * list Z) : outcome (Z * Z * list Z + Z * list Z) :=
  let '(p, i, dest) := s in
  if p <? p_end then
    let* c := rd m p in
    let p := p + 1 in
    let* (c, p) :=
      if 0xC0 <=? c then
        let* b := rd m p in
        Ret (u32 (Z.shiftl c 6 + b - (Z.shiftl 0xC0 6 + 0x80)), p + 1)
      else Ret (c, p) in
    let* dest := put_dest dest dest_len i (u8 c) in
    Ret (inl (p, i + 1, dest))
  else Ret (inr (i, dest)).

(** The store of the null terminator that ends the 8-bit converters. *)
Definition utf8_decode_buf8 (dest : list Z) (dest_len : Z) (m : list Z) (src_len : Z)
    : outcome (Z * list Z) :=
  let* (i, dest) := iter (S (Z.to_nat src_len)) (utf8_decode_buf8_step m src_len dest_len)
                      (0, 0, dest) in
  let* dest :=
    if i <? dest_len then wr dest i 0
    else if 0 <? dest_len then wr dest (dest_len - 1) 0
    else Ret dest in
  Ret (i, dest).

Definition utf8_decode_buf16_step (m : list Z) (p_end dest_len : Z)
    (s : Z * Z * list Z) : outcome (Z * Z * list Z + Z * list Z) :=
  let '(p, i, dest) := s in
  if p <? p_end then
    let* c := rd m p in
    let p := p + 1 in
    if 0x80 <=? c then
      let* (c, p) := utf8_decode_len m (p - 1) (p_end - (p - 1)) in
      if 0xFFFF <? c then
        let* dest := put_dest dest dest_len i (u16 (get_hi_surrogate c)) in
        let* dest := put_dest dest dest_len (i + 1) (u16 (get_lo_surrogate c)) in
        Ret (inl (p, i + 2, dest))
      else
        let* dest := put_dest dest dest_len i (u16 c) in
        Ret (inl (p, i + 1, dest))
    else
      let* dest := put_dest dest dest_len i (u16 c) in
      Ret (inl (p, i + 1, dest))
  else Ret (inr (i, dest)).

Definition utf8_decode_buf16 (dest : list Z) (dest_len : Z) (m : list Z) (src_len : Z)
    : outcome (Z * list Z) :=
  iter (S (Z.to_nat src_len)) (utf8_decode_buf16_step m src_len dest_len) (0, 0, dest).

(** The code at [overflow:] of [utf8_encode_buf8]. *)
Definition utf8_encode_buf8_overflow (dest : list Z) (dest_len : Z) (src : list Z)
    (src_len i j : Z) : outcome (Z * list Z) :=
  let* dest := if j <? dest_len then wr dest j 0 else Ret dest in
  let* j := iter (S (Z.to_nat src_len)) (fun '(i, j) =>
      if i <? src_len then
        let* b := rd src i in
        Ret (inl (i + 1, j + 1 + b2z (0x80 <=? b)))
      else Ret (inr j)) (i, j) in
  Ret (j, dest).

Definition utf8_encode_buf8_step (dest_len : Z) (src : list Z) (src_len : Z)
    (s : Z * Z * list Z) : outcome (Z * Z * list Z + Z * list Z) :=
  let '(i, j, dest) := s in
  if i <? src_len then
    let* c := rd src i in
    if c <? 0x80 then
      if dest_len <=? j + 1 then
        let* r := utf8_encode_buf8_overflow dest dest_len src src_len i j in Ret (inr r)
      else
        let* dest := wr dest j (u8 c) in
        Ret (inl (i + 1, j + 1, dest))
    else
      if dest_len <=? j + 2 then
        let* r := utf8_encode_buf8_overflow dest dest_len src src_len i j in Ret (inr r)
      else
        let* dest := wr dest j (u8 (Z.lor (Z.shiftr c 6) 0xC0)) in
        let* dest := wr dest (j + 1) (u8 (Z.lor (Z.land c 0x3F) 0x80)) in
        Ret (inl (i + 1, j + 2, dest))
  else
    let* dest := if j <? dest_len then wr dest j 0 else Ret dest in
    Ret (inr (j, dest)).

Definition utf8_encode_buf8 (dest : list Z) (dest_len : Z) (src : list Z) (src_len : Z)
    : outcome (Z * list Z) :=
  iter (S (Z.to_nat src_len)) (utf8_encode_buf8_step dest_len src src_len) (0, 0, dest).

(** [c = src[i++]], with the pairing of surrogates that both loops of
    [utf8_encode_buf16] do for [c >= 0x80]: the code point and the new [i]. *)
Definition utf16_next (src : list Z) (src_len i : Z) : outcome (Z * Z) :=
  let* c := rd src i in
  let i := i + 1 in
  if c <? 0x80 then Ret (c, i)
  else if is_hi_surrogate c && (i <? src_len) then
    let* d := rd src i in
    if is_lo_surrogate d then Ret (from_surrogate c d, i + 1) else Ret (c, i)
  else Ret (c, i).

(** The code at [overflow:] of [utf8_encode_buf16]: [i] is the value after
    [i -= 1 + (c > 0xFFFF)]. *)
Definition utf8_encode_buf16_overflow (dest : list Z) (dest_len : Z) (src : list Z)
    (src_len i j : Z) : outcome (Z * list Z) :=
  let* dest := if j <? dest_len then wr dest j 0 else Ret dest in
  let* j := iter (S (Z.to_nat src_len)) (fun '(i, j) =>
      if i <? src_len then
        let* (c, i) := utf16_next src src_len i in
        if c <? 0x80 then Ret (inl (i, j + 1))
        else Ret (inl (i, j + utf8_encode_len c))
      else Ret (inr j)) (i, j) in
  Ret (j, dest).

Definition utf8_encode_buf16_step (dest_len : Z) (src : list Z) (src_len : Z)
    (s : Z * Z * list Z) : outcome (Z * Z * list Z + Z * list Z) :=
  let '(i, j, dest) := s in
  if i <? src_len then
    let* (c, i) := utf16_next src src_len i in
    let overflow :=
      let* r := utf8_encode_buf16_overflow dest dest_len src src_len
                  (i - (1 + b2z (0xFFFF <? c))) j in Ret (inr r) in
    if c <? 0x80 then
      if dest_len <=? j + 1 then overflow
      else
        let* dest := wr dest j (u8 c) in
        Ret (inl (i, j + 1, dest))
    else
      if dest_len <=? j + utf8_encode_len c then overflow
      else
        let* dest := wr_slice dest j (utf8_encode c) in
        Ret (inl (i, j + zlen (utf8_encode c), dest))
  else
    let* dest := if j <? dest_len then wr dest j 0 else Ret dest in
    Ret (inr (j, dest)).

Definition utf8_encode_buf16 (dest : list Z) (dest_len : Z) (src : list Z) (src_len : Z)
    : outcome (Z * list Z) :=
  iter (S (Z.to_nat src_len)) (utf8_encode_buf16_step dest_len src src_len) (0, 0, dest).

(** * Specifications of the buffer converters *)

(** The code points, and the bytes each takes, that successive calls of
    [utf8_decode_len] deliver on [m[p .. p_end[]. *)
Fixpoint utf8_cps (fuel : nat) (m : list Z) (p p_end : Z) : outcome (list (Z * Z)) :=
  match fuel with
  | O => Err OutOfFuel
  | S fuel =>
      if p <? p_end then
        let* (c, p') := utf8_decode_len m p (p_end - p) in
        let* r := utf8_cps fuel m p' p_end in
        Ret ((c, p' - p) :: r)
      else Ret []
  end.

Definition utf16_of_cp (c : Z) : list Z :=
  if 0xFFFF <? c then [0xD800 + (c - 0x10000) / 1024; 0xDC00 + c mod 1024] else [c].

Definition utf16_of_cps (cps : list Z) : list Z := concat (map utf16_of_cp cps).

Definition utf8_of_cps (cps : list Z) : list Z := concat (map utf8_encode cps).

(** The code points of a UTF-16 string; a surrogate without its pair stands
    for itself. *)
Fixpoint cps_of_utf16 (l : list Z) : list Z :=
  match l with
  | [] => []
  | h :: t =>
      match t with
      | d :: t' =>
          if is_hi_surrogate h && is_lo_surrogate d
          then from_surrogate h d :: cps_of_utf16 t' else h :: cps_of_utf16 t
      | [] => [h]
      end
  end.

(** The content flags of a list of decoded code points and byte counts. *)
Definition cp_kind (x : Z * Z) : Z :=
  let '(c, n) := x in
  Z.lor (if (0xFFFD =? c) && (n =? 1) then UTF8_HAS_ERRORS else 0)
    (Z.lor (if 0xFF <? c then UTF8_HAS_16BIT else 0)
       (if 0xFFFF <? c then UTF8_HAS_NON_BMP1 else 0)).

Definition cps_kind (kind : Z) (cps : list (Z * Z)) : Z :=
  fold_left (fun k x => Z.lor k (cp_kind x)) cps kind.

(** A destination block of which the first [dest_len] cells take the units
    [us], as far as they fit. *)
Definition overwrite (dest : list Z) (dest_len : Z) (us : list Z) : list Z :=
  let us := take (Z.to_nat dest_len) us in us ++ drop (length us) dest.

(** The same for the 8-bit converters, which end what is stored with a null: the
    last cell is kept for it. *)
Definition overwrite_nul (dest : list Z) (dest_len : Z) (us : list Z) : list Z :=
  if 0 <? dest_len then overwrite dest dest_len (take (Z.to_nat (dest_len - 1)) us ++ [0]) else dest.

(** The leading code points whose encodings leave room for the terminator. *)
Fixpoint fit_cps (room : Z) (cps : list Z) : list Z :=
  match cps with
  | [] => []
  | c :: cps =>
      if utf8_encode_len c <? room then c :: fit_cps (room - utf8_encode_len c) cps else []
  end.

(** * Arithmetic form of the bit operations *)

(** Puts masks, shifts and tags in the arithmetic form [lia] understands. *)
Ltac bits_arith :=
  repeat first
    [ rewrite (land_mask _ 6 0x3F) by lia
    | rewrite (land_mask _ 10 0x3FF) by lia
    | rewrite (land_mask _ 10 1023) by lia
    | rewrite (shiftr_div _ 6 64) by lia
    | rewrite (shiftr_div _ 12 4096) by lia
    | rewrite (shiftr_div _ 18 262144) by lia
    | rewrite (shiftr_div _ 10 1024) by lia
    | rewrite (shiftr_div _ 11 2048) by lia
    | rewrite (shiftl_mul _ 6 64) by lia
    | rewrite (shiftl_mul _ 12 4096) by lia
    | rewrite (shiftl_mul _ 18 262144) by lia ];
  change (2 ^ 6) with 64; change (2 ^ 10) with 1024.

Lemma lor_tag (a t k : Z) : 0 <= k -> 0 <= a < 2 ^ k -> t mod 2 ^ k = 0 -> Z.lor a t = a + t.
Proof. intros. rewrite Z.lor_comm, (lor_add k) by done. lia. Qed.

Lemma utf8_encode_eq c :
  0 <= c < 0x110000 ->
  utf8_encode c =
    if c <? 0x80 then [c]
    else if c <? 0x800 then [0xC0 + c / 64; 0x80 + c mod 64]
    else if c <? 0x10000 then
      [0xE0 + c / 4096; 0x80 + (c / 64) mod 64; 0x80 + c mod 64]
    else
      [0xF0 + c / 262144; 0x80 + (c / 4096) mod 64; 0x80 + (c / 64) mod 64; 0x80 + c mod 64].
Proof.
  intros Hc. unfold utf8_encode. bits_arith.
  destruct (Z.ltb_spec c 0x80); [f_equal; zlia|].
  destruct (Z.ltb_spec c 0x800).
  { rewrite (lor_tag _ 0xC0 5) by zlia. rewrite (lor_tag _ 0x80 6) by zlia.
    repeat f_equal; zlia. }
  destruct (Z.ltb_spec c 0x10000).
  { rewrite (lor_tag _ 0xE0 4) by zlia. rewrite !(lor_tag _ 0x80 6) by zlia.
    repeat f_equal; zlia. }
  destruct (Z.ltb_spec c 0x110000); [|lia].
  rewrite (lor_tag _ 0xF0 3) by zlia. rewrite !(lor_tag _ 0x80 6) by zlia.
  repeat f_equal; zlia.
Qed.

Lemma zlen_utf8_encode c : 0 <= c -> zlen (utf8_encode c) = utf8_encode_len c.
Proof.
  intros Hc. unfold utf8_encode, utf8_encode_len.
  destruct (c <? 0x80), (c <? 0x800), (c <? 0x10000), (c <? 0x110000); done.
Qed.

Lemma utf8_encode_bytes c : 0 <= c -> Forall in_u8 (utf8_encode c).
Proof.
  intros Hc. unfold utf8_encode, u8, in_u8.
  repeat match goal with |- Forall _ (if ?b then _ else _) => destruct b end;
    repeat constructor; zlia.
Qed.
(** * Decoding inverts encoding *)

Ltac ranges := repeat (unfold in_range; rd_known; cbn [obind]; decide_ifs ltac:(zlia)).

Lemma utf8_decode_encode m p c :
  0 <= c < 0x110000 -> block_at m p (utf8_encode c) ->
  utf8_decode m p = Ret (c, p + utf8_encode_len c).
Proof.
  intros Hc Hm. rewrite utf8_encode_eq in Hm by done. unfold utf8_decode, utf8_encode_len.
  destruct (Z.ltb_spec c 0x80); [|destruct (Z.ltb_spec c 0x800); [|destruct (Z.ltb_spec c 0x10000)]];
    cbn [block_at] in Hm; destruct_and!; rd_known.
  - by decide_ifs lia.
  - unfold utf8_need1. ranges. bits_arith. do 2 f_equal; zlia.
  - unfold utf8_need2. destruct (Z.ltb_spec c 0x1000); ranges; bits_arith; do 2 f_equal; zlia.
  - unfold utf8_need3. destruct (Z.ltb_spec c 0x40000), (Z.ltb_spec c 0x100000); try lia; ranges; bits_arith; do 2 f_equal; zlia.
Qed.
(** * What decoding accepts *)

Lemma in_range_Ret m p lo hi ok :
  in_range m p lo hi = Ret ok -> exists b, at_ m p b /\ ok = (lo <=? b) && (b <=? hi).
Proof. unfold in_range. intros H. inv_ret. eauto. Qed.

(** The reads of an accepted sequence, with their bounds. *)
Ltac inv_ranges :=
  repeat match goal with
  | H : in_range _ _ _ _ = Ret _ |- _ =>
      let b := fresh "b" in let Hb := fresh "Hb" in let Hk := fresh "Hk" in
      apply in_range_Ret in H; destruct H as (b & Hb & Hk); symmetry in Hk
  end; bool_to_prop; at_merge.

Ltac find_at :=
  match goal with
  | H : at_ ?m _ _ |- at_ ?m _ _ => apply (at_plus _ _ _ _ _ H); [lia | zlia]
  end.

Ltac encoded :=
  bits_arith; rewrite ?u32_id by zlia;
  rewrite utf8_encode_eq by zlia; unfold utf8_encode_len;
  decide_ifs ltac:(zlia); cbn [block_at];
  repeat match goal with |- _ /\ _ => split end; try zlia; find_at.

(** The code point and length that [utf8_decode] returns are either the error
    value with one byte consumed, or those of a sequence that is exactly the
    encoding of the code point. *)
Lemma utf8_decode_Ret m p c p' :
  Forall in_u8 m -> utf8_decode m p = Ret (c, p') ->
  (c = 0xFFFD /\ p' = p + 1) \/
  (0 <= c < 0x110000 /\ p' = p + utf8_encode_len c /\ block_at m p (utf8_encode c)).
Proof.
  intros Hm H. unfold utf8_decode, utf8_need1, utf8_need2, utf8_need3 in H.
  inv_ret; inv_ranges; (try (left; split; [done|lia])); right;
    match goal with
    | Hb : at_ m p ?b |- _ => pose proof (at_Forall _ _ _ _ Hm Hb) as Hb0; unfold in_u8 in Hb0
    end; encoded.
Qed.

(** * Bounded decoding *)

Lemma utf8_decode_len_encode m p n c :
  0 <= c < 0x110000 -> block_at m p (utf8_encode c) -> utf8_encode_len c <= n ->
  utf8_decode_len m p n = Ret (c, p + utf8_encode_len c).
Proof.
  intros Hc Hm Hn. pose proof (utf8_decode_encode m p c Hc Hm) as Hd.
  rewrite utf8_encode_eq in Hm by done.
  unfold utf8_decode_len, utf8_encode_len in *. revert Hn Hd.
  destruct (Z.ltb_spec c 0x80); [|destruct (Z.ltb_spec c 0x800); [|destruct (Z.ltb_spec c 0x10000)]];
    cbn [block_at] in Hm; destruct_and!; decide_ifs lia; intros Hn Hd;
    decide_ifs lia; (destruct (Z.ltb_spec n 4); try lia; rd_known; decide_ifs ltac:(zlia)); exact Hd.
Qed.

(** Symbolic execution of a decoder: every read is in bounds. *)
Ltac dstep :=
  first [ step | apply post_rd; [bool_to_prop; at_merge; lia | intros ? ?]
        | progress unfold in_range ].

Lemma utf8_decode_len_total m p n :
  Forall in_u8 m -> 0 <= p -> 0 < n -> p + n <= zlen m ->
  post (utf8_decode_len m p n)
    (fun '(c, p') => utf8_decode_len m p n = Ret (c, p') /\ 0 <= c < 0x110000 /\ p < p' <= p + n).
Proof.
  intros Hm Hp Hn Hlen.
  assert (post (utf8_decode_len m p n) (fun '(c, p') => p < p' <= p + n)) as H.
  { unfold utf8_decode_len, utf8_decode, utf8_need1, utf8_need2, utf8_need3.
    repeat dstep; bool_to_prop; at_merge; lia. }
  apply post_inv in H as ([c p'] & HR & ?). rewrite HR. split; [done|]. split; [|done].
  unfold utf8_decode_len in HR. inv_ret; try lia;
    eapply utf8_decode_Ret in HR; (done || lia).
Qed.

(** * Writing through a destination *)

Lemma overwrite_nil dest n : overwrite dest n [] = dest.
Proof. unfold overwrite. by rewrite take_nil. Qed.

Lemma zlen_overwrite dest n us :
  0 <= n <= zlen dest -> zlen (overwrite dest n us) = zlen dest.
Proof.
  intros. unfold overwrite, zlen in *. rewrite length_app, length_drop, length_take. lia.
Qed.

Lemma put_dest_overwrite dest n us c i :
  0 <= n <= zlen dest -> i = zlen us ->
  put_dest (overwrite dest n us) n i c = Ret (overwrite dest n (us ++ [c])).
Proof.
  intros Hn ->. unfold put_dest, overwrite, zlen in *.
  destruct (Z.ltb_spec (Z.of_nat (length us)) n).
  - rewrite !take_ge by (rewrite ?length_app; cbn [length]; lia).
    destruct (drop (length us) dest) as [|d r] eqn:E.
    { apply (f_equal length) in E. rewrite length_drop in E. cbn [length] in E. lia. }
    rewrite wr_app by done. rewrite length_app, <- (drop_drop dest 1), E, <- app_assoc. done.
  - rewrite take_app_le by lia. done.
Qed.

(** * Decoding into 16-bit units *)

Lemma surrogates_eq c :
  0x10000 <= c < 0x110000 ->
  u16 (get_hi_surrogate c) = 0xD800 + (c - 0x10000) / 1024 /\
  u16 (get_lo_surrogate c) = 0xDC00 + c mod 1024.
Proof.
  intros Hc. unfold get_hi_surrogate, get_lo_surrogate. rewrite (lor_tag _ 0xDC00 10).
  - change (Z.shiftr 0x10000 10) with 64. bits_arith. zlia.
  - lia.
  - bits_arith. zlia.
  - done.
Qed.

Lemma rd_ascii m p n b :
  at_ m p b -> 0 <= b < 0x80 -> 0 < n -> utf8_decode_len m p n = Ret (b, p + 1).
Proof.
  intros Hb Hr Hn. unfold utf8_decode_len, utf8_decode.
  destruct (Z.ltb_spec n 4); rd_known; decide_ifs lia; done.
Qed.

Lemma utf8_cps_total m n :
  Forall in_u8 m -> n <= zlen m ->
  forall fuel p, 0 <= p <= n -> (Z.to_nat (n - p) < fuel)%nat ->
  post (utf8_cps fuel m p n) (fun cps => Forall (fun x => 0 <= x.1 < 0x110000) cps).
Proof.
  intros Hm Hn fuel. induction fuel as [|fuel IH]; intros p Hp Hf; [lia|]. simpl.
  step; [|by step]. bool_to_prop. step.
  eapply post_mono; [apply utf8_decode_len_total; (done || lia)|].
  intros [c p'] (_ & Hc & Hp'). simpl. step.
  eapply post_mono; [apply IH; lia|]. intros cps Hcps. simpl. by constructor.
Qed.

(** One step of each consumer, in terms of the decoder. *)
Lemma utf8_decode_buf16_step_eq m n dl p us dest c p' :
  Forall in_u8 m -> 0 <= p < n -> n <= zlen m -> 0 <= dl <= zlen dest ->
  0 <= c < 0x110000 -> utf8_decode_len m p (n - p) = Ret (c, p') ->
  utf8_decode_buf16_step m n dl (p, zlen us, overwrite dest dl us)
  = Ret (inl (p', zlen (us ++ utf16_of_cp c), overwrite dest dl (us ++ utf16_of_cp c))).
Proof.
  intros Hm Hp Hn Hdl Hc HR. unfold utf8_decode_buf16_step.
  destruct (Z.ltb_spec p n); [|lia].
  destruct (at_exists m p) as [b Hb]; [lia|]. rewrite (rd_at _ _ _ Hb). cbn [obind].
  pose proof (at_Forall _ _ _ _ Hm Hb) as Hb8. unfold in_u8 in Hb8.
  replace (p + 1 - 1) with p by lia. unfold utf16_of_cp.
  destruct (Z.leb_spec 0x80 b).
  - rewrite HR. cbn [obind]. destruct (Z.ltb_spec 0xFFFF c).
    + rewrite put_dest_overwrite by done. cbn [obind].
      rewrite put_dest_overwrite by (rewrite ?zlen_app; done). cbn [obind].
      destruct (surrogates_eq c) as [-> ->]; [lia|].
      rewrite <- app_assoc, zlen_app. done.
    + rewrite put_dest_overwrite by done. cbn [obind].
      rewrite u16_id by zlia. by rewrite zlen_app.
  - rewrite (rd_ascii m p (n - p) b) in HR by (done || lia). simplify_eq.
    rewrite put_dest_overwrite by done. cbn [obind].
    destruct (Z.ltb_spec 0xFFFF c); [lia|]. rewrite u16_id by zlia. by rewrite zlen_app.
Qed.

Lemma utf8_decode_buf16_loop m n dl dest :
  Forall in_u8 m -> n <= zlen m -> 0 <= dl <= zlen dest ->
  forall fuel p us cps, 0 <= p <= n -> utf8_cps fuel m p n = Ret cps ->
  Forall (fun x => 0 <= x.1 < 0x110000) cps ->
  iter fuel (utf8_decode_buf16_step m n dl) (p, zlen us, overwrite dest dl us)
  = Ret (zlen (us ++ utf16_of_cps (map fst cps)),
         overwrite dest dl (us ++ utf16_of_cps (map fst cps))).
Proof.
  intros Hm Hn Hdl fuel. induction fuel as [|fuel IH]; intros p us cps Hp HR Hc; [done|].
  cbn [utf8_cps] in HR. cbn [iter]. inv_ret; bool_to_prop.
  - rename Hx into HR. inversion Hc as [|? ? Hc1 Hc2]; subst. cbn in Hc1.
    pose proof (utf8_decode_len_total m p (n - p)) as Ht.
    rewrite HR in Ht. destruct Ht as (_ & _ & Hlt); [done|lia..|].
    rewrite (utf8_decode_buf16_step_eq m n dl p us dest z z0) by (done || lia). cbn [obind].
    erewrite IH by (done || lia). cbn [map fst].
    unfold utf16_of_cps. cbn [map concat]. by rewrite app_assoc.
  - unfold utf8_decode_buf16_step. destruct (Z.ltb_spec p n); [lia|].
    unfold utf16_of_cps. cbn. by rewrite app_nil_r.
Qed.

(** * Scanning *)

Lemma utf8_decode_len_high m p n b c p' :
  Forall in_u8 m -> at_ m p b -> 0x80 <= b -> 0 < n ->
  utf8_decode_len m p n = Ret (c, p') ->
  (p' = p + 1 /\ c = 0xFFFD) \/ p + 1 < p'.
Proof.
  intros Hm Hb Hb8 Hn HR.
  assert ((p' = p + 1 /\ c = 0xFFFD) \/ utf8_decode m p = Ret (c, p')) as [?|HD]
    by (unfold utf8_decode_len in HR; inv_ret; bool_to_prop; try lia; auto); [auto|].
  apply utf8_decode_Ret in HD; [|done].
  destruct HD as [[-> ->]|(Hc & -> & Hblk)]; [by left|right].
  rewrite utf8_encode_eq in Hblk by done. unfold utf8_encode_len.
  destruct (Z.ltb_spec c 0x80); [|destruct (c <? 0x800), (c <? 0x10000), (c <? 0x110000); lia].
  cbn [block_at] in Hblk. destruct Hblk as [Hblk _]. at_merge. lia.
Qed.

Lemma utf8_scan_step_eq m n p len kind c p' :
  Forall in_u8 m -> 0 <= p < n -> n <= zlen m -> 0 <= c < 0x110000 ->
  utf8_decode_len m p (n - p) = Ret (c, p') ->
  utf8_scan_step m n (p, len, kind)
  = Ret (inl (p', len + zlen (utf16_of_cp c), Z.lor kind (cp_kind (c, p' - p)))).
Proof.
  intros Hm Hp Hn Hc HR. unfold utf8_scan_step.
  destruct (Z.ltb_spec p n); [|lia].
  destruct (at_exists m p) as [b Hb]; [lia|]. rewrite (rd_at _ _ _ Hb). cbn [obind].
  pose proof (at_Forall _ _ _ _ Hm Hb) as Hb8. unfold in_u8 in Hb8.
  replace (p + 1 - 1) with p by lia. unfold utf16_of_cp, cp_kind.
  destruct (Z.leb_spec 0x80 b).
  - rewrite HR. cbn [obind].
    destruct (utf8_decode_len_high m p (n - p) b c p' Hm Hb) as [[-> ->]|Hp']; [lia..|done| |].
    + rewrite Z.eqb_refl. replace (p + 1 - p) with 1 by lia. cbn -[Z.lor Z.add].
      rewrite <- !Z.lor_assoc. done.
    + destruct (Z.eqb_spec p' (p + 1)); [lia|].
      destruct (Z.eqb_spec (p' - p) 1); [lia|]. rewrite andb_false_r, Z.lor_0_l.
      destruct (Z.ltb_spec 0xFF c), (Z.ltb_spec 0xFFFF c); try lia;
        rewrite ?Z.lor_0_r, ?Z.lor_assoc; unfold zlen; cbn [length]; do 4 f_equal; lia.
  - rewrite (rd_ascii m p (n - p) b) in HR by (done || lia). simplify_eq.
    destruct (Z.eqb_spec 0xFFFD c), (Z.ltb_spec 0xFF c), (Z.ltb_spec 0xFFFF c); try lia.
    cbn [andb]. by rewrite !Z.lor_0_r.
Qed.

Lemma utf8_scan_loop m n :
  Forall in_u8 m -> n <= zlen m ->
  forall fuel p len kind cps, 0 <= p <= n -> utf8_cps fuel m p n = Ret cps ->
  Forall (fun x => 0 <= x.1 < 0x110000) cps ->
  iter fuel (utf8_scan_step m n) (p, len, kind)
  = Ret (cps_kind kind cps, len + zlen (utf16_of_cps (map fst cps))).
Proof.
  intros Hm Hn fuel. induction fuel as [|fuel IH]; intros p len kind cps Hp HR Hc; [done|].
  cbn [utf8_cps] in HR. cbn [iter]. inv_ret; bool_to_prop.
  - rename Hx into HR. inversion Hc as [|? ? Hc1 Hc2]; subst. cbn in Hc1.
    pose proof (utf8_decode_len_total m p (n - p)) as Ht.
    rewrite HR in Ht. destruct Ht as (_ & _ & Hlt); [done|lia..|].
    rewrite (utf8_scan_step_eq m n p len kind z z0) by (done || lia). cbn [obind].
    erewrite IH by (done || lia). unfold utf16_of_cps, cps_kind. cbn [map fst concat fold_left].
    rewrite zlen_app. do 2 f_equal. lia.
  - unfold utf8_scan_step. destruct (Z.ltb_spec p n); [lia|].
    unfold cps_kind. cbn. by rewrite Z.add_0_r.
Qed.

(** The bits of all the bytes decide whether the buffer is plain ASCII. *)
Lemma u8_lor a b : in_u8 a -> in_u8 b -> u8 (Z.lor a b) = Z.lor a b /\
  (0x80 <=? Z.lor a b) = (0x80 <=? a) || (0x80 <=? b).
Proof.
  unfold in_u8. intros Ha Hb.
  assert (forall x, 0 <= x < 256 -> (0x80 <=? x) = Z.testbit x 7) as H7.
  { intros x Hx. rewrite Z.testbit_eqb by lia. change (2 ^ 7) with 128.
    destruct (Z.leb_spec 0x80 x), (Z.eqb_spec ((x / 128) mod 2) 1); try done; zlia. }
  assert (0 <= Z.lor a b < 256) as Hab. by (apply (lor_bound 8); lia).
  split; [by apply u8_id|]. rewrite !H7 by lia. apply Z.lor_spec.
Qed.

Lemma utf8_scan_cbits_eq m n :
  Forall in_u8 m -> 0 <= n <= zlen m ->
  post (utf8_scan_cbits m n) (fun cbits =>
    (0x80 <=? cbits) = true \/ forall i b, at_ m i b -> i < n -> b < 0x80).
Proof.
  intros Hm Hn. unfold utf8_scan_cbits.
  apply (post_iter
    (fun '(i, cbits) => 0 <= i <= n /\ in_u8 cbits /\
       ((0x80 <=? cbits) = true \/ forall j b, at_ m j b -> j < i -> b < 0x80))
    (fun '(i, _) => Z.to_nat (n - i))); [|split; [lia|]|lia].
  - intros [i cbits] (Hi & Hc & Hinv). step; bool_to_prop.
    + step. apply post_rd; [lia|]. intros b Hb.
      pose proof (at_Forall _ _ _ _ Hm Hb) as Hb8.
      destruct (u8_lor cbits b Hc Hb8) as [E1 E2].
      step. split; [|lia]. split; [lia|]. split; [unfold in_u8; zlia|].
      rewrite E1, E2. destruct Hinv as [->|Hinv]; [by left|].
      destruct (Z.leb_spec 0x80 b); [left; apply orb_true_r|right].
      intros j b' Hj Hlt. destruct (Z.eq_dec j i) as [->|]; [at_merge; lia|].
      apply (Hinv j); [done|lia].
    + step. destruct Hinv as [?|Hinv]; [by left|right].
      intros j b Hj Hlt. apply (Hinv j); [done|lia].
  - split; [done|]. right. intros j b Hj. apply at_lt in Hj. lia.
Qed.

Lemma utf8_cps_ascii m n :
  Forall in_u8 m -> n <= zlen m -> (forall i b, at_ m i b -> i < n -> b < 0x80) ->
  forall fuel p, 0 <= p <= n -> (Z.to_nat (n - p) < fuel)%nat ->
  post (utf8_cps fuel m p n) (fun cps => zlen (utf16_of_cps (map fst cps)) = n - p /\ Forall (fun x => x.1 < 0x80) cps).
Proof.
  intros Hm Hn Ha fuel. induction fuel as [|fuel IH]; intros p Hp Hf; [lia|]. cbn [utf8_cps].
  step; bool_to_prop; [|step; split; [unfold utf16_of_cps, zlen; cbn; lia|constructor]].
  destruct (at_exists m p) as [b Hb]; [lia|].
  pose proof (at_Forall _ _ _ _ Hm Hb) as Hb8. unfold in_u8 in Hb8.
  rewrite (rd_ascii m p (n - p) b) by first [done | lia | split; [lia|apply (Ha p); done||lia]].
  cbn [obind]. step. eapply post_mono; [apply IH; lia|]. intros cps [Hcps Hlt].
  cbn [post map fst]. split; [|constructor; [exact (Ha p b Hb ltac:(lia))|exact Hlt]]. unfold utf16_of_cps in *. cbn [map concat].
  rewrite zlen_app, Hcps. unfold utf16_of_cp.
  pose proof (Ha p b Hb). destruct (Z.ltb_spec 0xFFFF b); [lia|]. unfold zlen; cbn. lia.
Qed.

(** * Decoding into 8-bit units *)

Lemma utf8_decode_buf8_step_eq m n dl p us dest c p' :
  Forall in_u8 m -> 0 <= p < n -> n <= zlen m -> 0 <= dl <= zlen dest ->
  0 <= c <= 0xFF -> utf8_decode_len m p (n - p) = Ret (c, p') ->
  utf8_decode_buf8_step m n dl (p, zlen us, overwrite dest dl us)
  = Ret (inl (p', zlen (us ++ [c]), overwrite dest dl (us ++ [c]))).
Proof.
  intros Hm Hp Hn Hdl Hc HR. unfold utf8_decode_buf8_step.
  destruct (Z.ltb_spec p n); [|lia].
  destruct (at_exists m p) as [b Hb]; [lia|]. rewrite (rd_at _ _ _ Hb). cbn [obind].
  pose proof (at_Forall _ _ _ _ Hm Hb) as Hb8. unfold in_u8 in Hb8.
  destruct (Z.ltb_spec b 0x80).
  - rewrite (rd_ascii m p (n - p) b) in HR by (done || lia). simplify_eq.
    destruct (Z.leb_spec 0xC0 c); [lia|]. cbn [obind].
    rewrite put_dest_overwrite by done. cbn [obind]. by rewrite u8_id, zlen_app.
  - assert (utf8_decode m p = Ret (c, p')) as HD
      by (unfold utf8_decode_len in HR; inv_ret; bool_to_prop; try lia; done).
    apply utf8_decode_Ret in HD; [|done]. destruct HD as [[??]|(_ & -> & Hblk)]; [lia|].
    rewrite utf8_encode_eq in Hblk by lia. unfold utf8_encode_len. revert Hblk.
    destruct (Z.ltb_spec c 0x80); cbn [block_at].
    { intros [Hb' _]. at_merge. lia. }
    decide_ifs lia. cbn [block_at]. intros (Hb1 & Hb2 & _). at_merge.
    destruct (Z.leb_spec 0xC0 (192 + c / 64)); [|zlia]. rd_known.
    bits_arith. rewrite (u32_id _) by zlia.
    replace ((192 + c / 64) * 64 + (128 + c mod 64) - (192 * 64 + 128)) with c by zlia.
    rewrite u8_id by zlia. rewrite put_dest_overwrite by done. cbn [obind].
    rewrite zlen_app. do 4 f_equal. lia.
Qed.

Lemma utf8_decode_buf8_loop m n dl dest :
  Forall in_u8 m -> n <= zlen m -> 0 <= dl <= zlen dest ->
  forall fuel p us cps, 0 <= p <= n -> utf8_cps fuel m p n = Ret cps ->
  Forall (fun x => 0 <= x.1 <= 0xFF) cps ->
  iter fuel (utf8_decode_buf8_step m n dl) (p, zlen us, overwrite dest dl us)
  = Ret (zlen (us ++ map fst cps), overwrite dest dl (us ++ map fst cps)).
Proof.
  intros Hm Hn Hdl fuel. induction fuel as [|fuel IH]; intros p us cps Hp HR Hc; [done|].
  cbn [utf8_cps] in HR. cbn [iter]. inv_ret; bool_to_prop.
  - rename Hx into HR. inversion Hc as [|? ? Hc1 Hc2]; subst. cbn in Hc1.
    pose proof (utf8_decode_len_total m p (n - p)) as Ht.
    rewrite HR in Ht. destruct Ht as (_ & _ & Hlt); [done|lia..|].
    rewrite (utf8_decode_buf8_step_eq m n dl p us dest z z0) by (done || lia). cbn [obind].
    erewrite IH by (done || lia). cbn [map fst]. by rewrite <- app_assoc.
  - unfold utf8_decode_buf8_step. destruct (Z.ltb_spec p n); [lia|].
    cbn. by rewrite app_nil_r.
Qed.

(** * Encoding 16-bit units *)

Lemma utf8_encode_len_pos c : 1 <= utf8_encode_len c <= 4.
Proof.
  unfold utf8_encode_len.
  destruct (c <? 0x80), (c <? 0x800), (c <? 0x10000), (c <? 0x110000); lia.
Qed.

Lemma utf8_encode_len_ascii c : c < 0x80 -> utf8_encode_len c = 1.
Proof. intros. unfold utf8_encode_len. by decide_ifs lia. Qed.

Lemma surrogate_ranges c :
  (is_hi_surrogate c = true <-> 0xD800 <= c <= 0xDBFF) /\
  (is_lo_surrogate c = true <-> 0xDC00 <= c <= 0xDFFF).
Proof.
  unfold is_hi_surrogate, is_lo_surrogate. rewrite !Z.eqb_eq.
  change (Z.shiftr 0xD800 10) with 54. change (Z.shiftr 0xDC00 10) with 55.
  bits_arith. zlia.
Qed.

Lemma from_surrogate_eq h d :
  0xD800 <= h <= 0xDBFF -> 0xDC00 <= d <= 0xDFFF ->
  from_surrogate h d = 0x10000 + (h - 0xD800) * 1024 + (d - 0xDC00).
Proof.
  intros. unfold from_surrogate. bits_arith. rewrite u32_id; zlia.
Qed.

Lemma drop_at {A : Type} (l : list A) i x :
  at_ l i x -> drop (Z.to_nat i) l = x :: drop (Z.to_nat (i + 1)) l.
Proof.
  intros [Hi Hl]. rewrite (drop_S _ _ _ Hl). do 2 f_equal. lia.
Qed.

Lemma utf16_next_spec src i :
  Forall in_u16 src -> 0 <= i < zlen src ->
  post (utf16_next src (zlen src) i) (fun '(c, i') =>
    cps_of_utf16 (drop (Z.to_nat i) src) = c :: cps_of_utf16 (drop (Z.to_nat i') src) /\
    i < i' <= zlen src /\ i' - i = 1 + b2z (0xFFFF <? c) /\ 0 <= c < 0x110000).
Proof.
  intros Hs Hi. unfold utf16_next. step. apply post_rd; [lia|]. intros c Hc.
  pose proof (at_Forall _ _ _ _ Hs Hc) as Hc16. unfold in_u16 in Hc16.
  rewrite (drop_at _ _ _ Hc). destruct (surrogate_ranges c) as [Hhi _].
  assert (forall t, is_hi_surrogate c = false -> cps_of_utf16 (c :: t) = c :: cps_of_utf16 t) as Hnh.
  { intros t E. destruct t; cbn [cps_of_utf16]; [done|]. by rewrite E. }
  assert (i + 1 - i = 1 + b2z (0xFFFF <? c)) as Hone
    by (destruct (Z.ltb_spec 0xFFFF c); unfold b2z; lia).
  step; bool_to_prop.
  { step. split; [apply Hnh|lia]. apply not_true_iff_false. rewrite Hhi. lia. }
  step; bool_to_prop.
  - step. apply post_rd; [lia|]. intros d Hd. rewrite (drop_at _ _ _ Hd).
    pose proof (at_Forall _ _ _ _ Hs Hd) as Hd16. unfold in_u16 in Hd16.
    destruct (surrogate_ranges d) as [_ Hlo]. cbn [cps_of_utf16].
    match goal with H : is_hi_surrogate c = true |- _ => rewrite H; apply Hhi in H end.
    step; cbn [andb]; step.
    + assert (0xDC00 <= d <= 0xDFFF) by (apply Hlo; done).
      rewrite from_surrogate_eq by lia. split; [done|].
      unfold b2z. decide_ifs lia. lia.
    + split; [by rewrite (drop_at _ _ _ Hd)|]. lia.
  - step. split; [|lia]. destruct E0 as [E0|E0]; [by apply Hnh|]. bool_to_prop.
    rewrite drop_ge by (unfold zlen in *; lia). done.
Qed.

Lemma utf8_of_cps_cons c cps : utf8_of_cps (c :: cps) = utf8_encode c ++ utf8_of_cps cps.
Proof. done. Qed.

Lemma utf16_rest_len src i fuel j :
  Forall in_u16 src -> 0 <= i <= zlen src -> (Z.to_nat (zlen src - i) < fuel)%nat ->
  iter fuel (fun '(i, j) =>
      if i <? zlen src then
        let* (c, i) := utf16_next src (zlen src) i in
        if c <? 0x80 then Ret (inl (i, j + 1))
        else Ret (inl (i, j + utf8_encode_len c))
      else Ret (inr j)) (i, j)
  = Ret (j + zlen (utf8_of_cps (cps_of_utf16 (drop (Z.to_nat i) src)))).
Proof.
  intros Hs. revert i j. induction fuel as [|fuel IH]; intros i j Hi Hf; [lia|]. cbn [iter].
  destruct (Z.ltb_spec i (zlen src)).
  - pose proof (utf16_next_spec src i Hs) as Hn. apply post_inv in Hn; [|lia].
    destruct Hn as ([c i'] & -> & -> & Hi' & _ & Hc). cbn [obind].
    rewrite utf8_of_cps_cons, zlen_app, zlen_utf8_encode by lia.
    destruct (Z.ltb_spec c 0x80); cbn [obind]; rewrite IH by lia; f_equal; [|lia].
    rewrite utf8_encode_len_ascii by lia. lia.
  - cbn [obind]. rewrite drop_ge by (unfold zlen in *; lia). f_equal.
    change (zlen (utf8_of_cps (cps_of_utf16 []))) with 0. lia.
Qed.

Lemma overwrite_app dest dl us vs :
  0 <= dl <= zlen dest -> zlen us + zlen vs <= dl ->
  wr_slice (overwrite dest dl us) (zlen us) vs = Ret (overwrite dest dl (us ++ vs)).
Proof.
  intros Hdl Hlen. pose proof (zlen_nonneg us). pose proof (zlen_nonneg vs).
  pose proof (zlen_overwrite dest dl us Hdl) as Hz.
  rewrite wr_slice_in by lia. f_equal.
  clear Hz. unfold overwrite, zlen in *.
  rewrite (take_ge us), (take_ge (us ++ vs)) by (rewrite ?length_app; lia).
  rewrite Nat2Z.id, take_app_length, <- Nat2Z.inj_add, Nat2Z.id, length_app.
  rewrite drop_app_add, drop_drop, <- app_assoc. done.
Qed.

Lemma overwrite_put dest dl us x :
  0 <= dl <= zlen dest -> zlen us < dl ->
  wr (overwrite dest dl us) (zlen us) x = Ret (overwrite dest dl (us ++ [x])).
Proof.
  intros Hdl Hlen. pose proof (put_dest_overwrite dest dl us x (zlen us) Hdl eq_refl) as H.
  unfold put_dest in H. destruct (Z.ltb_spec (zlen us) dl); [done|lia].
Qed.

(** The store of the terminator, at both exits of the loop. *)
Lemma overwrite_end dest dl us :
  0 <= dl <= zlen dest -> (dl = 0 /\ us = []) \/ zlen us < dl ->
  (if zlen us <? dl then wr (overwrite dest dl us) (zlen us) 0 else Ret (overwrite dest dl us))
  = Ret (if 0 <? dl then overwrite dest dl (us ++ [0]) else dest).
Proof.
  intros Hdl [[-> ->]|Hlt].
  - cbn. by rewrite overwrite_nil.
  - pose proof (zlen_nonneg us). decide_ifs lia. by rewrite overwrite_put.
Qed.

Lemma utf8_encode_ascii c : 0 <= c < 0x80 -> utf8_encode c = [u8 c].
Proof. intros. unfold utf8_encode. by decide_ifs lia. Qed.

Lemma utf8_encode_buf16_step_eq src dl dest i us c i' :
  0 <= dl <= zlen dest -> 0 <= i < zlen src ->
  utf16_next src (zlen src) i = Ret (c, i') -> 0 <= c < 0x110000 ->
  utf8_encode_buf16_step dl src (zlen src) (i, zlen us, overwrite dest dl us)
  = if utf8_encode_len c <? dl - zlen us
    then Ret (inl (i', zlen (us ++ utf8_encode c), overwrite dest dl (us ++ utf8_encode c)))
    else let* r := utf8_encode_buf16_overflow (overwrite dest dl us) dl src (zlen src)
                     (i' - (1 + b2z (0xFFFF <? c))) (zlen us) in Ret (inr r).
Proof.
  intros Hdl Hi HR Hc. unfold utf8_encode_buf16_step. decide_ifs lia. rewrite HR. cbn [obind].
  rewrite zlen_app, zlen_utf8_encode by lia.
  destruct (Z.ltb_spec c 0x80) as [H8|H8], (Z.ltb_spec (utf8_encode_len c) (dl - zlen us)) as [Hf|Hf];
    try rewrite utf8_encode_len_ascii in * by lia; decide_ifs lia; try done.
  - rewrite overwrite_put by lia. by rewrite utf8_encode_ascii by lia.
  - rewrite overwrite_app by (rewrite ?zlen_utf8_encode; lia). done.
Qed.

Lemma utf8_encode_buf16_loop src dl dest :
  Forall in_u16 src -> 0 <= dl <= zlen dest ->
  forall fuel i us, 0 <= i <= zlen src -> (Z.to_nat (zlen src - i) < fuel)%nat ->
  (dl = 0 /\ us = []) \/ zlen us < dl ->
  let cps := cps_of_utf16 (drop (Z.to_nat i) src) in
  iter fuel (utf8_encode_buf16_step dl src (zlen src)) (i, zlen us, overwrite dest dl us)
  = Ret (zlen us + zlen (utf8_of_cps cps),
         if 0 <? dl then overwrite dest dl ((us ++ utf8_of_cps (fit_cps (dl - zlen us) cps)) ++ [0])
         else dest).
Proof.
  intros Hs Hdl fuel. induction fuel as [|fuel IH]; intros i us Hi Hf Hus; [lia|].
  cbn zeta. cbn [iter]. pose proof (zlen_nonneg us) as Hus0.
  destruct (Z.ltb_spec i (zlen src)).
  - pose proof (utf16_next_spec src i Hs) as Hn. apply post_inv in Hn; [|lia].
    destruct Hn as ([c i'] & HR & Hcps & Hi' & Hd & Hc).
    pose proof (utf8_encode_len_pos c) as Hl.
    rewrite (utf8_encode_buf16_step_eq _ _ _ _ _ c i') by (done || lia).
    rewrite Hcps. cbn [fit_cps]. rewrite utf8_of_cps_cons, zlen_app, zlen_utf8_encode by lia.
    destruct (Z.ltb_spec (utf8_encode_len c) (dl - zlen us)) as [Hfit|Hfit]; cbn [obind].
    + rewrite <- (zlen_utf8_encode c) in * by lia. rewrite <- (zlen_app us (utf8_encode c)).
      rewrite IH by first [lia | right; rewrite zlen_app; lia].
      rewrite utf8_of_cps_cons, !zlen_app, (app_assoc us), Z.sub_add_distr, Z.add_assoc. done.
    + unfold utf8_encode_buf16_overflow. rewrite overwrite_end by done. cbn [obind].
      replace (i' - (1 + b2z (0xFFFF <? c))) with i by lia.
      rewrite utf16_rest_len by (done || lia). cbn [obind].
      rewrite Hcps, utf8_of_cps_cons, zlen_app, zlen_utf8_encode by lia.
      change (utf8_of_cps []) with (@nil Z). by rewrite app_nil_r.
  - unfold utf8_encode_buf16_step. decide_ifs lia. rewrite overwrite_end by done. cbn [obind].
    rewrite drop_ge by (unfold zlen in *; lia). cbn [cps_of_utf16 fit_cps].
    change (utf8_of_cps []) with (@nil Z). change (zlen []) with 0.
    by rewrite Z.add_0_r, app_nil_r.
Qed.

(** * Properties *)

Lemma fit_cps_all cps room :
  Forall (fun c => 0 <= c) cps -> zlen (utf8_of_cps cps) < room -> fit_cps room cps = cps.
Proof.
  revert room. induction cps as [|c cps IH]; intros room HF Hr; [done|]. inversion HF; subst.
  rewrite utf8_of_cps_cons, zlen_app, zlen_utf8_encode in Hr by done.
  pose proof (zlen_nonneg (utf8_of_cps cps)). cbn [fit_cps]. decide_ifs lia.
  rewrite IH; (done || lia).
Qed.

Lemma cps_of_utf16_ind (P : list Z -> Prop) :
  P [] -> (forall h, P [h]) ->
  (forall h d t, is_hi_surrogate h && is_lo_surrogate d = true -> P t -> P (h :: d :: t)) ->
  (forall h d t, is_hi_surrogate h && is_lo_surrogate d = false -> P (d :: t) -> P (h :: d :: t)) ->
  forall l, P l.
Proof.
  intros H0 H1 H2 H3 l. remember (length l) as n eqn:Hn.
  assert (length l <= n)%nat as Hl by lia. clear Hn. revert l Hl.
  induction n as [|n IH]; intros l Hl; destruct l as [|h [|d t]]; cbn [length] in Hl; try lia; auto.
  destruct (is_hi_surrogate h && is_lo_surrogate d) eqn:E.
  - apply H2; [done|]. apply IH. lia.
  - apply H3; [done|]. apply IH. cbn [length]. lia.
Qed.

Lemma utf16_of_cps_of_utf16 src : Forall in_u16 src -> utf16_of_cps (cps_of_utf16 src) = src.
Proof.
  induction src as [|h|h d t E IH|h d t E IH] using cps_of_utf16_ind; intros Hs; [done|..].
  - inversion Hs; subst. unfold utf16_of_cps, utf16_of_cp. cbn. decide_ifs ltac:(zlia). done.
  - inversion Hs as [|?? Hh Hs']; subst. inversion Hs'; subst. cbn [cps_of_utf16]. rewrite E.
    apply andb_true_iff in E as [Eh Ed]. apply surrogate_ranges in Eh, Ed.
    unfold utf16_of_cps in *. cbn [map concat]. rewrite IH by done.
    rewrite from_surrogate_eq by done. unfold utf16_of_cp. decide_ifs ltac:(zlia).
    cbn [app]. repeat f_equal; zlia.
  - inversion Hs as [|?? Hh Hs']; subst. cbn [cps_of_utf16]. rewrite E.
    unfold utf16_of_cps in *. cbn [map concat]. fold cps_of_utf16.
    change (match t with
            | [] => [d]
            | d0 :: t' => if is_hi_surrogate d && is_lo_surrogate d0
                          then from_surrogate d d0 :: cps_of_utf16 t' else d :: cps_of_utf16 t
            end) with (cps_of_utf16 (d :: t)).
    rewrite IH by done. unfold utf16_of_cp. decide_ifs ltac:(zlia). done.
Qed.

Lemma cps_of_utf16_range src :
  Forall in_u16 src -> Forall (fun c => 0 <= c < 0x110000) (cps_of_utf16 src).
Proof.
  induction src as [|h|h d t E IH|h d t E IH] using cps_of_utf16_ind; intros Hs; [constructor|..].
  - inversion Hs; subst. repeat constructor; zlia.
  - inversion Hs as [|?? Hh Hs']; subst. inversion Hs'; subst. cbn [cps_of_utf16]. rewrite E.
    apply andb_true_iff in E as [Eh Ed]. apply surrogate_ranges in Eh, Ed.
    constructor; [rewrite from_surrogate_eq by done; lia|auto].
  - inversion Hs as [|?? Hh Hs']; subst. cbn [cps_of_utf16]. rewrite E.
    constructor; [zlia|]. by apply IH.
Qed.

Lemma utf8_cps_of_encoded m n cps :
  Forall (fun c => 0 <= c < 0x110000) cps ->
  forall fuel p, block_at m p (utf8_of_cps cps) -> n = p + zlen (utf8_of_cps cps) ->
  (length cps < fuel)%nat ->
  post (utf8_cps fuel m p n) (fun r => map fst r = cps).
Proof.
  induction 1 as [|c cps Hc Hcps IH]; intros fuel p Hm Hn Hf; (destruct fuel as [|fuel]; [cbn in Hf; lia|]);
    cbn [utf8_cps].
  - change (zlen (utf8_of_cps [])) with 0 in Hn. decide_ifs lia. done.
  - rewrite utf8_of_cps_cons in *. apply block_at_app in Hm as [Hm1 Hm2].
    rewrite zlen_app, zlen_utf8_encode in * by lia. pose proof (utf8_encode_len_pos c).
    pose proof (zlen_nonneg (utf8_of_cps cps)). decide_ifs lia.
    rewrite (utf8_decode_len_encode m p (n - p) c) by (done || lia). cbn [obind]. step.
    eapply post_mono; [apply IH; [done|lia|cbn in Hf; lia]|]. intros r Hr. cbn. by rewrite Hr.
Qed.

Lemma cps_kind_16bit k cps :
  Z.land (cps_kind k cps) UTF8_HAS_16BIT = 0 -> Forall (fun x => x.1 <= 0xFF) cps.
Proof.
  assert (forall k, Z.land (cps_kind k cps) 2 = 0 ->
            Z.land k 2 = 0 /\ Forall (fun x => x.1 <= 0xFF) cps) as H.
  { clear k. induction cps as [|[c n] cps IH]; intros k Hk; [auto|].
    apply IH in Hk as [Hk HF]. rewrite Z.land_lor_distr_l in Hk.
    apply Z.lor_eq_0_iff in Hk as [Hk Hc]. split; [done|]. constructor; [|done].
    unfold cp_kind in Hc. cbn [fst]. destruct (Z.ltb_spec 0xFF c); [exfalso|lia]. revert Hc.
    destruct (65533 =? c), (n =? 1), (65535 <? c); vm_compute; discriminate. }
  apply H.
Qed.

Lemma iter_ext {St R : Type} (f g : St -> outcome (St + R)) fuel s :
  (forall s, f s = g s) -> iter fuel f s = iter fuel g s.
Proof.
  intros Hfg. revert s. induction fuel as [|fuel IH]; intros s; [done|]. cbn [iter].
  rewrite Hfg. destruct (g s) as [[s'|r]|]; cbn [obind]; auto.
Qed.

Lemma utf16_next_byte src i :
  Forall in_u8 src ->
  utf16_next src (zlen src) i = let* c := rd src i in Ret (c, i + 1).
Proof.
  intros Hs. unfold utf16_next. destruct (rd src i) as [c|] eqn:E; [|done]. cbn [obind].
  apply rd_Ret in E. pose proof (at_Forall _ _ _ _ Hs E) as Hc. unfold in_u8 in Hc.
  destruct (c <? 0x80); [done|].
  replace (is_hi_surrogate c) with false; [done|]. symmetry. apply not_true_iff_false.
  destruct (surrogate_ranges c) as [-> _]. lia.
Qed.

Lemma utf8_encode_buf8_overflow_eq dest dl src i j :
  Forall in_u8 src ->
  utf8_encode_buf8_overflow dest dl src (zlen src) i j
  = utf8_encode_buf16_overflow dest dl src (zlen src) i j.
Proof.
  intros Hs. unfold utf8_encode_buf8_overflow, utf8_encode_buf16_overflow.
  destruct (if j <? dl then wr dest j 0 else Ret dest) as [d|]; [|done]. cbn [obind].
  f_equal. apply iter_ext. intros [i' j']. rewrite utf16_next_byte by done.
  destruct (i' <? zlen src); [|done]. destruct (rd src i') as [c|] eqn:E; [|done].
  apply rd_Ret in E. pose proof (at_Forall _ _ _ _ Hs E) as Hc. unfold in_u8 in Hc. cbn [obind].
  unfold utf8_encode_len, b2z.
  destruct (Z.ltb_spec c 0x80); decide_ifs lia; do 3 f_equal; lia.
Qed.

Lemma utf8_encode_buf8_step_eq dl src s :
  Forall in_u8 src ->
  utf8_encode_buf8_step dl src (zlen src) s = utf8_encode_buf16_step dl src (zlen src) s.
Proof.
  intros Hs. destruct s as [[i j] dest]. unfold utf8_encode_buf8_step, utf8_encode_buf16_step.
  rewrite utf16_next_byte by done.
  destruct (i <? zlen src); [|done]. destruct (rd src i) as [c|] eqn:E; [|done].
  apply rd_Ret in E. pose proof (at_Forall _ _ _ _ Hs E) as Hc. unfold in_u8 in Hc. cbn [obind].
  rewrite utf8_encode_buf8_overflow_eq by done.
  replace (0xFFFF <? c) with false by lia. replace (i + 1 - (1 + b2z false)) with i by (cbn; lia).
  destruct (Z.ltb_spec c 0x80); [done|].
  replace (utf8_encode_len c) with 2 by (unfold utf8_encode_len; decide_ifs lia; done).
  destruct (Z.leb_spec dl (j + 2)); [done|]. unfold utf8_encode. decide_ifs lia.
  rewrite wr_slice_cons. destruct (wr dest j _) as [d|]; [|done]. cbn [obind].
  rewrite wr_slice_cons.
  destruct (wr d (j + 1) _) as [d'|] eqn:Ew; [|done]. cbn [obind].
  rewrite wr_slice_nil; [done|]. unfold wr in Ew.
  destruct ((j + 1 <? 0) || (zlen d <=? j + 1)) eqn:Eb; [done|]. bool_to_prop.
  injection Ew as <-. rewrite zlen_insert. lia.
Qed.

Lemma utf16_of_cps_low cps :
  Forall (fun x : Z * Z => x.1 <= 0xFF) cps -> utf16_of_cps (map fst cps) = map fst cps.
Proof.
  induction 1 as [|[c q] l Hc _ IH]; [done|]. unfold utf16_of_cps in *. cbn [map fst concat].
  rewrite IH. unfold utf16_of_cp. cbn in Hc. by replace (0xFFFF <? c) with false by lia.
Qed.

Lemma overwrite_last dest dl us :
  0 < dl <= zlen dest -> dl <= zlen us ->
  wr (overwrite dest dl us) (dl - 1) 0 = Ret (overwrite dest dl (take (Z.to_nat (dl - 1)) us ++ [0])).
Proof.
  intros Hdl Hus. unfold overwrite, zlen in *.
  assert (take (Z.to_nat dl) us = take (Z.to_nat (dl - 1)) us ++ [default 0 (us !! Z.to_nat (dl - 1))]) as ->.
  { destruct (lookup_lt_is_Some_2 us (Z.to_nat (dl - 1))) as [x Hx]; [lia|]. rewrite Hx. cbn [default from_option id].
    replace (Z.to_nat dl) with (S (Z.to_nat (dl - 1))) by lia. by apply take_S_r. }
  assert (length (take (Z.to_nat (dl - 1)) us) = Z.to_nat (dl - 1)) as Hl by (rewrite length_take; lia).
  rewrite (take_ge (_ ++ [0])) by (rewrite length_app, Hl; cbn [length]; lia). rewrite !length_app, Hl, <- !app_assoc. cbn [length app].
  apply (wr_app (take (Z.to_nat (dl - 1)) us)). unfold zlen. lia.
Qed.

Lemma utf8_decode_buf8_eq m n dl dest cps :
  Forall in_u8 m -> n <= zlen m -> 0 <= n -> 0 <= dl <= zlen dest ->
  utf8_cps (S (Z.to_nat n)) m 0 n = Ret cps -> Forall (fun x => 0 <= x.1 <= 0xFF) cps ->
  utf8_decode_buf8 dest dl m n = Ret (zlen (map fst cps), overwrite_nul dest dl (map fst cps)).
Proof.
  intros Hm Hn Hn0 Hdl HR Hc. unfold utf8_decode_buf8.
  pose proof (utf8_decode_buf8_loop m n dl dest Hm Hn Hdl _ 0 [] cps ltac:(lia) HR Hc) as HL.
  rewrite overwrite_nil in HL. cbn [app] in HL. change (zlen []) with 0 in HL. rewrite HL.
  cbn [obind]. unfold overwrite_nul. pose proof (zlen_nonneg (map fst cps)).
  destruct (Z.ltb_spec (zlen (map fst cps)) dl).
  - decide_ifs lia. rewrite overwrite_put, take_ge by (unfold zlen in *; lia). done.
  - destruct (Z.ltb_spec 0 dl); [by rewrite overwrite_last by lia|].
    replace dl with 0 by lia. done.
Qed.

Lemma utf8_scan_eq m n cps :
  Forall in_u8 m -> 0 <= n <= zlen m -> utf8_cps (S (Z.to_nat n)) m 0 n = Ret cps ->
  Forall (fun x => 0 <= x.1 < 0x110000) cps ->
  exists kind, utf8_scan m n = Ret (kind, zlen (utf16_of_cps (map fst cps))) /\
    ((kind = UTF8_PLAIN_ASCII /\ Forall (fun x => x.1 < 0x80) cps) \/
     kind = cps_kind UTF8_NON_ASCII cps).
Proof.
  intros Hm Hn HR Hc. unfold utf8_scan.
  destruct (post_inv _ _ (utf8_scan_cbits_eq m n Hm Hn)) as (cb & -> & Hcase). cbn [obind].
  destruct (Z.leb_spec 0x80 cb) as [Hhi|Hlo].
  - rewrite (utf8_scan_loop m n Hm (proj2 Hn) _ 0 0 _ cps) by (done || lia).
    rewrite Z.add_0_l. eauto.
  - assert (forall i b, at_ m i b -> i < n -> b < 0x80) as Ha
      by (destruct Hcase as [E|E]; [done|exact E]).
    pose proof (utf8_cps_ascii m n Hm (proj2 Hn) Ha (S (Z.to_nat n)) 0 ltac:(lia) ltac:(lia)) as Hz.
    rewrite HR in Hz. destruct Hz as [Hz Hlt]. exists UTF8_PLAIN_ASCII. split; [do 2 f_equal; lia|auto].
Qed.

Lemma utf8_encode_buf16_eq dest src dl :
  Forall in_u16 src -> 0 <= dl <= zlen dest ->
  utf8_encode_buf16 dest dl src (zlen src)
  = Ret (zlen (utf8_of_cps (cps_of_utf16 src)),
         if 0 <? dl
         then overwrite dest dl (utf8_of_cps (fit_cps dl (cps_of_utf16 src)) ++ [0]) else dest).
Proof.
  intros Hs Hdl. unfold utf8_encode_buf16. pose proof (zlen_nonneg src).
  pose proof (utf8_encode_buf16_loop src dl dest Hs Hdl (S (Z.to_nat (zlen src))) 0 []) as HL.
  cbn zeta in HL. rewrite overwrite_nil in HL. change (zlen []) with 0 in HL.
  rewrite !Z.sub_0_r in HL. change (drop (Z.to_nat 0) src) with src in HL.
  rewrite HL; [done|lia|lia|]. destruct (Z.eq_dec dl 0); [by left|right; lia].
Qed.

Lemma length_cps_le cps :
  Forall (fun c => 0 <= c < 0x110000) cps ->
  (length cps <= Z.to_nat (zlen (utf8_of_cps cps)))%nat.
Proof.
  induction 1 as [|c cps Hc _ IH]; [cbn; lia|].
  rewrite utf8_of_cps_cons, zlen_app, zlen_utf8_encode by lia.
  pose proof (utf8_encode_len_pos c). pose proof (zlen_nonneg (utf8_of_cps cps)). cbn [length]. lia.
Qed.

(** A unit takes three bytes at most. *)
Lemma zlen_utf8_of_utf16 src :
  Forall in_u16 src -> zlen (utf8_of_cps (cps_of_utf16 src)) <= 3 * zlen src.
Proof.
  assert (forall c, in_u16 c -> utf8_encode_len c <= 3) as H3.
  { intros c Hc. unfold in_u16 in Hc. unfold utf8_encode_len. destruct (c <? 0x80), (c <? 0x800); decide_ifs lia; lia. }
  intros Hs. pose proof (cps_of_utf16_range src Hs) as Hr. revert Hs Hr.
  induction src as [|h|h d t E IH|h d t E IH] using cps_of_utf16_ind; intros Hs Hr; [done|..]; inversion_clear Hs as [|? ? Hh Ht].
  - cbn [cps_of_utf16] in *. inversion_clear Hr. rewrite utf8_of_cps_cons, zlen_app, zlen_utf8_encode by lia. specialize (H3 h Hh). unfold zlen in *. cbn. lia.
  - inversion_clear Ht as [|? ? _ Ht']. cbn [cps_of_utf16] in *. rewrite E in *. inversion_clear Hr. specialize (IH Ht' ltac:(done)).
    rewrite utf8_of_cps_cons, zlen_app, !zlen_cons, zlen_utf8_encode by lia. pose proof (utf8_encode_len_pos (from_surrogate h d)). lia.
  - change (cps_of_utf16 (h :: d :: t)) with (if is_hi_surrogate h && is_lo_surrogate d then from_surrogate h d :: cps_of_utf16 t else h :: cps_of_utf16 (d :: t)) in *.
    rewrite E in *. inversion_clear Hr. specialize (IH Ht ltac:(done)).
    rewrite utf8_of_cps_cons, zlen_app, (zlen_cons h), zlen_utf8_encode by lia. specialize (H3 h Hh). lia.
Qed.

(** C28: the codec of one code point.  Every code point, surrogates included, is
    encoded in [utf8_encode_len] bytes, and [utf8_decode], started on these
    bytes anywhere in a buffer, delivers the code point and the position after
    them. *)
Theorem utf8_roundtrip (pre suf : list Z) (c : Z) :
  0 <= c < 0x110000 ->
  zlen (utf8_encode c) = utf8_encode_len c /\
  Forall in_u8 (utf8_encode c) /\
  utf8_decode (pre ++ utf8_encode c ++ suf) (zlen pre) = Ret (c, zlen pre + zlen (utf8_encode c)).
Proof.
  intros Hc. rewrite zlen_utf8_encode by lia. split; [done|]. split; [apply utf8_encode_bytes; lia|].
  apply utf8_decode_encode; [done|]. apply block_at_mid.
Qed.

Lemma utf8_roundtrip_witness :
  utf8_encode 0x20AC = [0xE2; 0x82; 0xAC] /\
  utf8_decode ([0x41] ++ utf8_encode 0x20AC ++ [0]) (zlen [0x41])
  = Ret (0x20AC, zlen [0x41] + zlen (utf8_encode 0x20AC)).
Proof. split; [reflexivity|]. apply (utf8_roundtrip [0x41] [0] 0x20AC). lia. Defined.

(** C34: bounded decoding is safe and accepts nothing but canonical sequences.
    Given [n > 0] readable bytes, [utf8_decode_len] reads only them, consumes
    between 1 and [n], and returns either 0xFFFD for one consumed byte or a code
    point below 0x110000 whose encoding is exactly the bytes consumed (so no
    overlong form is accepted). *)
Theorem utf8_decode_len_canonical (m : list Z) (p n : Z) :
  Forall in_u8 m -> 0 <= p -> 0 < n -> p + n <= zlen m ->
  exists c p', utf8_decode_len m p n = Ret (c, p') /\ p < p' <= p + n /\
    ((c = 0xFFFD /\ p' = p + 1) \/
     (0 <= c < 0x110000 /\ p' = p + utf8_encode_len c /\ block_at m p (utf8_encode c))).
Proof.
  intros Hm Hp Hn Hlen.
  destruct (post_inv _ _ (utf8_decode_len_total m p n Hm Hp Hn Hlen)) as ([c p'] & HR & _ & Hc & Hlt).
  exists c, p'. split; [done|]. split; [done|].
  unfold utf8_decode_len in HR. inv_ret; bool_to_prop; try lia; by apply utf8_decode_Ret.
Qed.

Lemma utf8_decode_len_canonical_witness :
  exists c p', utf8_decode_len [0xF0; 0x9F; 0x98] 0 3 = Ret (c, p') /\ 0 < p' <= 0 + 3 /\
    ((c = 0xFFFD /\ p' = 0 + 1) \/
     (0 <= c < 0x110000 /\ p' = 0 + utf8_encode_len c /\
      block_at [0xF0; 0x9F; 0x98] 0 (utf8_encode c))).
Proof.
  apply (utf8_decode_len_canonical [0xF0; 0x9F; 0x98] 0 3);
    [repeat constructor; unfold in_u8; lia | lia | lia | vm_compute; discriminate].
Defined.

(** C35: the contract between the scan that sizes and classifies a string and the
    converters that fill it.  On any bytes, [utf8_scan] returns the number of
    units of the string and flags that say what it holds, plain ASCII only for
    code points below 0x80; [utf8_decode_buf16] returns that number and stores
    the units as far as the destination has room.  When the 16-bit flag is
    clear, for plain ASCII too, [utf8_decode_buf8] returns the same number and
    stores the same units, as far as they fit before the null that it adds. *)
Theorem utf8_scan_decode (m dest : list Z) (n dl : Z) :
  Forall in_u8 m -> 0 <= n <= zlen m -> 0 <= dl <= zlen dest ->
  exists cps kind,
    let us := utf16_of_cps (map fst cps) in
    utf8_cps (S (Z.to_nat n)) m 0 n = Ret cps /\
    utf8_scan m n = Ret (kind, zlen us) /\
    ((kind = UTF8_PLAIN_ASCII /\ Forall (fun x => x.1 < 0x80) cps) \/
     kind = cps_kind UTF8_NON_ASCII cps) /\
    utf8_decode_buf16 dest dl m n = Ret (zlen us, overwrite dest dl us) /\
    (Z.land kind UTF8_HAS_16BIT = 0 ->
     utf8_decode_buf8 dest dl m n = Ret (zlen us, overwrite_nul dest dl us)).
Proof.
  intros Hm Hn Hdl.
  pose proof (utf8_cps_total m n Hm (proj2 Hn) (S (Z.to_nat n)) 0) as Ht.
  apply post_inv in Ht as (cps & HR & Hc); [|lia..].
  destruct (utf8_scan_eq m n cps Hm Hn HR Hc) as (kind & Hs & Hk).
  pose proof (utf8_decode_buf16_loop m n dl dest Hm (proj2 Hn) Hdl _ 0 [] cps ltac:(lia) HR Hc) as H16.
  rewrite overwrite_nil in H16. exists cps, kind. cbn zeta. split_and!; try done.
  intros H0. assert (Forall (fun x : Z * Z => x.1 <= 0xFF) cps) as Hlow.
  { destruct Hk as [[_ Ha]| ->]; [|by apply (cps_kind_16bit UTF8_NON_ASCII)]. eapply Forall_impl; [|exact Ha]. intros x Hx. cbn beta in Hx. lia. }
  rewrite utf16_of_cps_low in * by done. apply utf8_decode_buf8_eq; try done; try lia.
  apply Forall_forall. intros x Hx. rewrite Forall_forall in Hc, Hlow. specialize (Hc x Hx). specialize (Hlow x Hx). lia.
Qed.

Lemma utf8_scan_decode_witness :
  exists cps kind,
    let us := utf16_of_cps (map fst cps) in
    utf8_cps 3 [0xC3; 0xA9] 0 2 = Ret cps /\
    utf8_scan [0xC3; 0xA9] 2 = Ret (kind, zlen us) /\
    ((kind = UTF8_PLAIN_ASCII /\ Forall (fun x => x.1 < 0x80) cps) \/
     kind = cps_kind UTF8_NON_ASCII cps) /\
    utf8_decode_buf16 [7; 7; 7] 3 [0xC3; 0xA9] 2 = Ret (zlen us, overwrite [7; 7; 7] 3 us) /\
    (Z.land kind UTF8_HAS_16BIT = 0 ->
     utf8_decode_buf8 [7; 7; 7] 3 [0xC3; 0xA9] 2 = Ret (zlen us, overwrite_nul [7; 7; 7] 3 us)).
Proof.
  apply (utf8_scan_decode [0xC3; 0xA9] [7; 7; 7] 2 3);
    [repeat constructor; unfold in_u8; lia | split; vm_compute; discriminate
    | split; vm_compute; discriminate].
Defined.

(** what [utf8_encode_buf16] writes.  The result is the length of the full
    encoding whatever the size of the destination; the destination takes the
    encodings of the code points that fit before a terminator, and the
    terminator; nothing is written past [dest_len]. *)
Theorem utf8_encode_buf16_spec (dest src : list Z) (dl : Z) :
  Forall in_u16 src -> 0 <= dl <= zlen dest ->
  let cps := cps_of_utf16 src in
  utf8_encode_buf16 dest dl src (zlen src)
  = Ret (zlen (utf8_of_cps cps),
         if 0 <? dl then overwrite dest dl (utf8_of_cps (fit_cps dl cps) ++ [0]) else dest).
Proof.
  intros Hs Hdl. by apply utf8_encode_buf16_eq.
Qed.

Lemma utf8_encode_buf16_spec_witness :
  utf8_encode_buf16 (replicate 6 7) 6 [0x41; 0x20AC; 0xD83D; 0xDE00] 4
  = Ret (8, [0x41; 0xE2; 0x82; 0xAC; 0; 7]).
Proof.
  apply (utf8_encode_buf16_spec (replicate 6 7) [0x41; 0x20AC; 0xD83D; 0xDE00] 6);
    [repeat constructor; unfold in_u16; lia | split; vm_compute; discriminate].
Defined.

(** C36: any UTF-16 string, with paired or unpaired surrogates, survives the
    conversion to UTF-8 and back.  The encoder returns on any string and any
    destination; its result is the length of the encoding, at most three bytes
    for a unit, and when the destination has room for it the decoder gives the
    string back. *)
Theorem utf16_utf8_roundtrip (src dest dest2 : list Z) (dl dl2 : Z) :
  Forall in_u16 src -> Forall in_u8 dest ->
  0 <= dl <= zlen dest -> 0 <= dl2 <= zlen dest2 ->
  exists n bytes, utf8_encode_buf16 dest dl src (zlen src) = Ret (n, bytes) /\ n <= 3 * zlen src /\
    (n < dl -> utf8_decode_buf16 dest2 dl2 bytes n = Ret (zlen src, overwrite dest2 dl2 src)).
Proof.
  intros Hs Hd Hdl Hdl2. rewrite utf8_encode_buf16_eq by done.
  pose proof (cps_of_utf16_range src Hs) as Hr. pose proof (zlen_utf8_of_utf16 src Hs) as H3. set (cps := cps_of_utf16 src) in *.
  eexists _, _. split; [done|]. split; [exact H3|]. intros Hn. pose proof (zlen_nonneg (utf8_of_cps cps)).
  replace (0 <? dl) with true by lia.
  rewrite fit_cps_all by first [lia | eapply Forall_impl; [|exact Hr]; cbn; lia].
  set (us := utf8_of_cps cps) in *.
  assert (Forall in_u8 us) as Hus.
  { unfold us, utf8_of_cps. apply Forall_concat, Forall_map. eapply Forall_impl; [|exact Hr].
    intros c Hc. apply utf8_encode_bytes. cbn beta in Hc. lia. }
  assert (overwrite dest dl (us ++ [0]) = us ++ [0] ++ drop (length us + 1) dest) as ->.
  { unfold overwrite, zlen in *. rewrite take_ge by (rewrite length_app; cbn [length]; lia).
    by rewrite length_app, <- app_assoc. }
  assert (Forall in_u8 (us ++ [0] ++ drop (length us + 1) dest)) as Hb
    by (apply Forall_app; split; [done|]; apply Forall_app; split;
        [repeat constructor; unfold in_u8; lia | by apply Forall_drop]).
  assert (zlen us <= zlen (us ++ [0] ++ drop (length us + 1) dest)) as Hlen
    by (rewrite zlen_app; pose proof (zlen_nonneg ([0] ++ drop (length us + 1) dest)); lia).
  pose proof (utf8_cps_of_encoded (us ++ [0] ++ drop (length us + 1) dest) (zlen us) cps Hr
                (S (Z.to_nat (zlen us))) 0 (block_at_mid [] us _) eq_refl) as Hc.
  apply post_inv in Hc as (r & HR & Hr'); [|apply Nat.lt_succ_r, length_cps_le; done].
  pose proof (utf8_decode_buf16_loop _ _ dl2 dest2 Hb Hlen Hdl2 _ 0 [] r ltac:(lia) HR) as HD.
  rewrite Hr', overwrite_nil in HD. unfold cps in HD. rewrite utf16_of_cps_of_utf16 in HD by done.
  apply HD. by apply (Forall_map fst (fun c => 0 <= c < 0x110000)); rewrite Hr'.
Qed.

Lemma utf16_utf8_roundtrip_witness :
  exists n bytes, utf8_encode_buf16 (replicate 7 7) 7 [0x41; 0xDC00] 2 = Ret (n, bytes) /\ n <= 6 /\
    utf8_decode_buf16 (replicate 4 0) 4 bytes n = Ret (2, overwrite (replicate 4 0) 4 [0x41; 0xDC00]).
Proof.
  destruct (utf16_utf8_roundtrip [0x41; 0xDC00] (replicate 7 7) (replicate 4 0) 7 4) as (n & bytes & E & Hn & H).
  - repeat constructor; unfold in_u16; lia.
  - repeat constructor; unfold in_u8; lia.
  - split; vm_compute; discriminate.
  - split; vm_compute; discriminate.
  - change (zlen [0x41; 0xDC00]) with 2 in *. exists n, bytes. split; [exact E|]. split; [lia|]. apply H. lia.
Defined.

(** On Latin-1 strings the 8-bit encoder is the 16-bit one, truncation and
    returned length included, for any destination. *)
Theorem utf8_encode_buf8_buf16 (dest src : list Z) (dl : Z) :
  Forall in_u8 src ->
  utf8_encode_buf8 dest dl src (zlen src) = utf8_encode_buf16 dest dl src (zlen src).
Proof.
  intros Hs. unfold utf8_encode_buf8, utf8_encode_buf16. apply iter_ext. intros s.
  by apply utf8_encode_buf8_step_eq.
Qed.

Lemma utf8_encode_buf8_buf16_witness :
  utf8_encode_buf8 [7; 7; 7] 3 [0xE9; 0x41] 2 = utf8_encode_buf16 [7; 7; 7] 3 [0xE9; 0x41] 2.
Proof.
  apply (utf8_encode_buf8_buf16 [7; 7; 7] [0xE9; 0x41] 3). repeat constructor; unfold in_u8; lia.
Defined.
