(* ===== verification/IntFmt.v ===== *)
(** Integer to string conversions of [cutils.c].

    A function writes its text in the block [m] from offset [dest] on and
    returns the text's length and the new block.  The conversions are those of a
    little-endian target ([is_be() == 0]), where [gen_digit] shifts the buffer
    word left. *)
From Stdlib Require Import ZArith Lia Bool List.
From stdpp Require Import base tactics list numbers strings.
From S2P Require Import Prelude.

Definition digits36 : list Z := bytes_of_string "0123456789abcdefghijklmnopqrstuvwxyz".

(** [gen_digit(buf, c)] on a 64-bit [buf]. *)
Definition gen_digit (buf c : Z) : Z := Z.lor (u64 (Z.shiftl buf 8)) c.

Definition u7toa_shift (m : list Z) (dest n : Z) : outcome (Z * list Z) :=
  let* (n, buf, len) := iter 11 (fun '(n, buf, len) =>
      if 10 <=? n then Ret (inl (n / 10, gen_digit buf (48 + n mod 10), len + 1))
      else Ret (inr (n, buf, len))) (n, 0, 1) in
  let buf := gen_digit buf (48 + n) in
  let* m := wr_slice m dest (le_bytes 8 buf) in
  Ret (len, m).

Definition u07toa_shift (m : list Z) (dest n len : Z) : outcome (Z * list Z) :=
  let dest := dest + len in
  let* m := wr m (dest + 7) 0 in
  let* (i, n, m) := iter 8 (fun '(i, n, m) =>
      if 1 <? i then
        let i := i - 1 in
        let* m := wr m (dest + i) (u8 (48 + n mod 10)) in
        Ret (inl (i, n / 10, m))
      else Ret (inr (i - 1, n, m))) (7, n, m) in
  let* m := wr m (dest + i) (u8 (48 + n)) in
  Ret (len + 7, m).

Definition TEN_POW_7 : Z := 10000000.

Definition u32toa (m : list Z) (buf n : Z) : outcome (Z * list Z) :=
  if n <? 10 then
    let* m := wr m buf (u8 (48 + n)) in
    let* m := wr m (buf + 1) 0 in
    Ret (1, m)
  else if TEN_POW_7 <=? n then
    let quo := n / TEN_POW_7 in
    let n := n mod TEN_POW_7 in
    let* (len, m) := u7toa_shift m buf quo in
    u07toa_shift m buf n len
  else u7toa_shift m buf n.

Definition u64toa (m : list Z) (buf n : Z) : outcome (Z * list Z) :=
  if n <? 0x100000000 then u32toa m buf n
  else if TEN_POW_7 <=? n then
    let n1 := n / TEN_POW_7 in
    let n := n mod TEN_POW_7 in
    let* (len, m) :=
      if TEN_POW_7 <=? n1 then
        let quo := u32 (n1 / TEN_POW_7) in
        let n1 := n1 mod TEN_POW_7 in
        let* (len, m) := u7toa_shift m buf quo in
        u07toa_shift m buf (u32 n1) len
      else u7toa_shift m buf (u32 n1) in
    u07toa_shift m buf (u32 n) len
  else u7toa_shift m buf (u32 n).

Definition i32toa (m : list Z) (buf n : Z) : outcome (Z * list Z) :=
  if 0 <=? n then u32toa m buf n
  else
    let* m := wr m buf 45 in
    let* (len, m) := u32toa m (buf + 1) (u32 (- u32 n)) in
    Ret (1 + len, m).

Definition i64toa (m : list Z) (buf n : Z) : outcome (Z * list Z) :=
  if 0 <=? n then u64toa m buf n
  else
    let* m := wr m buf 45 in
    let* (len, m) := u64toa m (buf + 1) (u64 (- u64 n)) in
    Ret (1 + len, m).

Definition radix_shift : list Z :=
  [0; 0; 1; 0; 2; 0; 0; 0; 3; 0; 0; 0; 0; 0; 0; 0;
   4; 0; 0; 0; 0; 0; 0; 0; 0; 0; 0; 0; 0; 0; 0; 0;
   5; 0; 0; 0; 0; 0; 0; 0; 0; 0; 0; 0; 0; 0; 0; 0;
   0; 0; 0; 0; 0; 0; 0; 0; 0; 0; 0; 0; 0; 0; 0; 0].

(** [clz32] and [clz64], defined for a non-zero argument. *)
Definition clz32 (a : Z) : Z := 31 - Z.log2 a.
Definition clz64 (a : Z) : Z := 63 - Z.log2 a.

(** [*end = digits36[d]]. *)
Definition put_digit (m : list Z) (e d : Z) : outcome (list Z) :=
  let* c := rd digits36 d in wr m e c.

(** The stores of the power-of-two branch, from [*end-- = '\0'] on; [fuel]
    bounds the digits of the word. *)
Definition radix_shift_digits (fuel : nat) (m : list Z) (e n base shift mask : Z)
    : outcome (list Z) :=
  let last := Z.land n mask in
  let n := Z.shiftr n shift in
  let* m := wr m e 0 in
  let* m := put_digit m (e - 1) last in
  let* (n, e, m) := iter fuel (fun '(n, e, m) =>
      if base <=? n then
        let* m := put_digit m e (Z.land n mask) in
        Ret (inl (Z.shiftr n shift, e - 1, m))
      else Ret (inr (n, e, m))) (n, e - 2, m) in
  put_digit m e n.

(** The stores of the other branch, for [last] and the [n] after [n /= base]. *)
Definition radix_div_digits (fuel : nat) (m : list Z) (e last n base : Z)
    : outcome (list Z) :=
  let* m := wr m e 0 in
  let* m := put_digit m (e - 1) last in
  let* (n, e, m) := iter fuel (fun '(n, e, m) =>
      if base <=? n then
        let* m := put_digit m e (n mod base) in
        Ret (inl (n / base, e - 1, m))
      else Ret (inr (n, e, m))) (n, e - 2, m) in
  put_digit m e n.

(** The loop [while (n >= nbase) { nbase *= base; len++; }], from [len = 2]. *)
Definition radix_len (fuel : nat) (wrap : Z -> Z) (n base : Z) : outcome Z :=
  iter fuel (fun '(nbase, len) =>
    if nbase <=? n then Ret (inl (wrap (nbase * base), len + 1)) else Ret (inr len)) (base, 2).

Definition u32toa_radix (m : list Z) (buf n base : Z) : outcome (Z * list Z) :=
  if base =? 10 then u32toa m buf n
  else if n <? base then
    let* m := put_digit m buf n in
    let* m := wr m (buf + 1) 0 in
    Ret (1, m)
  else
    let* shift := rd radix_shift (Z.land base 63) in
    if negb (shift =? 0) then
      let mask := Z.shiftl 1 shift - 1 in
      let len := (32 - clz32 n + shift - 1) / shift in
      let* m := radix_shift_digits 33 m (buf + len) n base shift mask in
      Ret (len, m)
    else
      let last := n mod base in
      let n := n / base in
      let* len := radix_len 33 u32 n base in
      let* m := radix_div_digits 33 m (buf + len) last n base in
      Ret (len, m).

Definition u64toa_radix (m : list Z) (buf n base : Z) : outcome (Z * list Z) :=
  if base =? 10 then u64toa m buf n
  else
    let* shift := rd radix_shift (Z.land base 63) in
    if negb (shift =? 0) then
      if n <? base then
        let* m := put_digit m buf n in
        let* m := wr m (buf + 1) 0 in
        Ret (1, m)
      else
        let mask := Z.shiftl 1 shift - 1 in
        let len := (64 - clz64 n + shift - 1) / shift in
        let* m := radix_shift_digits 65 m (buf + len) n base shift mask in
        Ret (len, m)
    else if n <? 0x100000000 then u32toa_radix m buf n base
    else
      let last := n mod base in
      let n := n / base in
      let* len := radix_len 65 u64 n base in
      let* m := radix_div_digits 65 m (buf + len) last n base in
      Ret (len, m).

Definition i32toa_radix (m : list Z) (buf n base : Z) : outcome (Z * list Z) :=
  if 0 <=? n then u32toa_radix m buf n base
  else
    let* m := wr m buf 45 in
    let* (len, m) := u32toa_radix m (buf + 1) (u32 (- u32 n)) base in
    Ret (1 + len, m).

Definition i64toa_radix (m : list Z) (buf n base : Z) : outcome (Z * list Z) :=
  if 0 <=? n then u64toa_radix m buf n base
  else
    let* m := wr m buf 45 in
    let* (len, m) := u64toa_radix m (buf + 1) (u64 (- u64 n)) base in
    Ret (1 + len, m).

(** * Specification *)

(** The digits of [n] in [base], most significant first; the fuel covers a
    64-bit word in base 2. *)
Fixpoint radix_digits (fuel : nat) (base n : Z) : list Z :=
  match fuel with
  | O => [n]
  | S fuel => if n <? base then [n] else radix_digits fuel base (n / base) ++ [n mod base]
  end.

Definition to_radix (base n : Z) : list Z := radix_digits 64 base n.

(** The value of a list of digits. *)
Definition of_radix (base : Z) (ds : list Z) : Z := fold_left (fun v d => v * base + d) ds 0.

Definition digit_char (d : Z) : Z := if d <? 10 then 48 + d else 87 + d.

Definition text (base n : Z) : list Z := map digit_char (to_radix base n).

(** The text of a number: an optional minus sign and the digits. *)
Definition number_text (base n : Z) : list Z :=
  if n <? 0 then 45 :: text base (- n) else text base n.

(** [m'] differs from [m] in the [k] cells from [p] on at most. *)
Definition same_outside (m m' : list Z) (p k : Z) : Prop :=
  zlen m' = zlen m /\ forall i x, (i < p \/ p + k <= i) -> at_ m i x <-> at_ m' i x.

(** The result of a conversion of text [cs] in a buffer of [k] bytes at [p]. *)
Definition prints (m : list Z) (p k : Z) (cs : list Z) (r : outcome (Z * list Z)) : Prop :=
  post r (fun '(len, m') =>
    len = zlen cs /\ block_at m' p (cs ++ [0]) /\ same_outside m m' p k).

(** The last [k] decimal digits of a number. *)
Fixpoint fixed_digits (k : nat) (n : Z) : list Z :=
  match k with
  | O => []
  | S k => fixed_digits k (n / 10) ++ [n mod 10]
  end.

(** [r] is the result of storing [cs] and a terminator at [p], and bytes that
    complete a word of 8. *)
Definition stores (m : list Z) (p : Z) (cs : list Z) (r : outcome (Z * list Z)) : Prop :=
  exists z, zlen cs + 1 + zlen z <= Z.max 8 (zlen cs + 1) /\
    r = let* m := wr_slice m p (cs ++ 0 :: z) in Ret (zlen cs, m).

(** Reading a text back. *)
Definition char_digit (c : Z) : Z := if c <? 58 then c - 48 else c - 87.

Definition text_value (base : Z) (cs : list Z) : Z :=
  match cs with
  | 45 :: cs => - of_radix base (map char_digit cs)
  | _ => of_radix base (map char_digit cs)
  end.

(** * Digits *)

Lemma div_base_bound base n k :
  2 <= base -> 0 <= n < base ^ (Z.of_nat (S k)) -> 0 <= n / base < base ^ Z.of_nat k.
Proof.
  intros Hb Hn. rewrite Nat2Z.inj_succ, Z.pow_succ_r in Hn by lia.
  split; [apply Z.div_pos; lia|]. apply Z.div_lt_upper_bound; lia.
Qed.

Lemma radix_digits_S f base n :
  radix_digits (S f) base n
  = if n <? base then [n] else radix_digits f base (n / base) ++ [n mod base].
Proof. done. Qed.

Lemma radix_digits_fuel base n f f' :
  2 <= base -> 0 <= n < base ^ (Z.of_nat (S f)) -> (f <= f')%nat ->
  radix_digits f' base n = radix_digits f base n.
Proof.
  intros Hb. revert f' n. induction f as [|f IH]; intros f' n Hn Hf.
  - rewrite Z.pow_1_r in Hn. destruct f'; cbn [radix_digits]; [done|]. by decide_ifs lia.
  - destruct f' as [|f']; [lia|]. cbn [radix_digits]. destruct (n <? base); [done|].
    rewrite IH; [done| |lia]. by apply div_base_bound.
Qed.

Lemma pow_base_64 base : 2 <= base -> 2 ^ 64 <= base ^ 64.
Proof. intros. apply Z.pow_le_mono_l. lia. Qed.

Lemma to_radix_eq base n :
  2 <= base -> 0 <= n < 2 ^ 64 ->
  to_radix base n = if n <? base then [n] else to_radix base (n / base) ++ [n mod base].
Proof.
  intros Hb Hn. pose proof (pow_base_64 base Hb).
  unfold to_radix at 1. change 64%nat with (S 63). rewrite radix_digits_S.
  destruct (n <? base); [done|]. unfold to_radix.
  rewrite (radix_digits_fuel base (n / base) 63 64); [done|done| |lia].
  change (Z.of_nat 64) with 64. split.
  - apply Z.div_pos; lia.
  - apply Z.div_lt_upper_bound; [lia|]. nia.
Qed.

(** Induction along the digits of a number. *)
Lemma digits_ind base (P : Z -> Prop) :
  2 <= base ->
  (forall n, 0 <= n < base -> P n) ->
  (forall n, base <= n -> P (n / base) -> P n) ->
  forall n, 0 <= n -> P n.
Proof.
  intros Hb H0 H1 n Hn0. assert (0 <= n) as Hn by done. revert n Hn0 Hn.
  apply (Z_lt_induction (fun n => 0 <= n -> P n)). intros n IH Hn.
  destruct (Z.lt_ge_cases n base); [apply H0; lia|]. apply H1; [lia|]. apply IH.
  - split; [apply Z.div_pos; lia|]. apply Z.div_lt; lia.
  - apply Z.div_pos; lia.
Qed.

Ltac digits_induction Hb :=
  match goal with
  | |- forall n, 0 <= n -> @?P n => apply (digits_ind _ P Hb); cbn beta
  end.

Lemma div_range base n : 2 <= base -> 0 <= n < 2 ^ 64 -> 0 <= n / base < 2 ^ 64.
Proof.
  intros. split; [apply Z.div_pos; lia|]. apply Z.le_lt_trans with n; [|lia].
  apply Z.div_le_upper_bound; nia.
Qed.

Lemma to_radix_digits base n :
  2 <= base -> 0 <= n < 2 ^ 64 -> Forall (fun d => 0 <= d < base) (to_radix base n).
Proof.
  intros Hb [H0 H1]. revert n H0 H1. digits_induction Hb.
  - intros n Hn H1. rewrite to_radix_eq by lia. decide_ifs lia. by constructor.
  - intros n Hn IH H1. rewrite to_radix_eq by lia. decide_ifs lia. apply Forall_app. split.
    + apply IH. apply div_range; lia.
    + constructor; [apply Z.mod_pos_bound; lia|constructor].
Qed.

Lemma of_radix_snoc base ds d : of_radix base (ds ++ [d]) = of_radix base ds * base + d.
Proof. unfold of_radix. by rewrite fold_left_app. Qed.

Lemma of_radix_to_radix base n :
  2 <= base -> 0 <= n < 2 ^ 64 -> of_radix base (to_radix base n) = n.
Proof.
  intros Hb [H0 H1]. revert n H0 H1. digits_induction Hb.
  - intros n Hn H1. rewrite to_radix_eq by lia. decide_ifs lia. done.
  - intros n Hn IH H1. rewrite to_radix_eq by lia. decide_ifs lia.
    rewrite of_radix_snoc, IH by (apply div_range; lia).
    rewrite Z.mul_comm. symmetry. apply Z.div_mod. lia.
Qed.

Lemma zlen_to_radix_pos base n : 2 <= base -> 0 <= n < 2 ^ 64 -> 1 <= zlen (to_radix base n).
Proof.
  intros. rewrite to_radix_eq by done. destruct (n <? base); [done|].
  rewrite zlen_app. change (zlen [_]) with 1. pose proof (zlen_nonneg (to_radix base (n / base))). lia.
Qed.

(** The number of digits is determined by the powers of the base around [n]. *)
Lemma zlen_to_radix base n k :
  2 <= base -> 0 <= n < 2 ^ 64 -> 1 <= k ->
  (n < base ^ k -> zlen (to_radix base n) <= k) /\
  (base ^ k <= n -> k < zlen (to_radix base n)).
Proof.
  intros Hb [H0 H1] Hk. revert k Hk H1. revert n H0. digits_induction Hb.
  - intros n Hn k Hk H1. rewrite to_radix_eq by lia. decide_ifs lia.
    change (zlen [n]) with 1. split; [lia|]. intros Hp.
    assert (base ^ 1 <= base ^ k) by (apply Z.pow_le_mono_r; lia). rewrite Z.pow_1_r in *. lia.
  - intros n Hn IH k Hk H1. pose proof (div_range base n Hb) as Hd.
    rewrite to_radix_eq by lia. decide_ifs lia. rewrite zlen_app. change (zlen [_]) with 1.
    destruct (Z.eq_dec k 1) as [->|Hk1].
    + rewrite Z.pow_1_r. pose proof (zlen_to_radix_pos base (n / base)). lia.
    + assert (base ^ k = base * base ^ (k - 1)) as Hp
        by (rewrite <- Z.pow_succ_r by lia; f_equal; lia).
      destruct (IH (k - 1)) as [IH1 IH2]; [lia|lia|]. rewrite Hp. split; intros Hlt.
      * assert (n / base < base ^ (k - 1)) by (apply Z.div_lt_upper_bound; lia). lia.
      * assert (base ^ (k - 1) <= n / base) by (apply Z.div_le_lower_bound; lia). lia.
Qed.


(** * The base 10 writers *)

Lemma le_val_bound cs : Forall in_u8 cs -> 0 <= le_val cs < 256 ^ zlen cs.
Proof.
  induction 1 as [|c cs Hc _ IH]; [done|]. unfold in_u8 in Hc.
  rewrite zlen_cons, Z.pow_add_r by (pose proof (zlen_nonneg cs); lia). cbn [le_val]. lia.
Qed.

Lemma gen_digit_cons cs c :
  Forall in_u8 cs -> zlen cs <= 7 -> in_u8 c -> gen_digit (le_val cs) c = le_val (c :: cs).
Proof.
  intros Hcs Hl Hc. pose proof (le_val_bound cs Hcs) as Hb.
  assert (256 ^ zlen cs <= 256 ^ 7) as Hp by (apply Z.pow_le_mono_r; lia).
  change (256 ^ 7) with 72057594037927936 in Hp.
  unfold gen_digit. rewrite (shiftl_mul _ 8 256), u64_id by zlia.
  rewrite (lor_add 8); [cbn [le_val]; lia|lia|exact Hc|].
  change (2 ^ 8) with 256. apply Z.mod_mul. lia.
Qed.

Lemma le_bytes_le_val cs n :
  Forall in_u8 cs -> (length cs <= n)%nat ->
  le_bytes n (le_val cs) = cs ++ replicate (n - length cs) 0.
Proof.
  intros Hcs. revert n. induction Hcs as [|c cs Hc _ IH]; intros n Hn.
  - cbn [le_val length app]. rewrite Nat.sub_0_r. clear Hn. induction n as [|n IHn]; [done|].
    cbn [le_bytes replicate]. f_equal. exact IHn.
  - destruct n as [|n]; cbn [length] in Hn; [lia|]. cbn [le_bytes le_val app length Nat.sub].
    unfold in_u8 in Hc. f_equal; [zlia|]. rewrite <- IH by lia. f_equal. zlia.
Qed.

Lemma digit_char_u8 d : 0 <= d < 36 -> in_u8 (digit_char d).
Proof. intros. unfold digit_char, in_u8. destruct (d <? 10); lia. Qed.

Lemma digit_chars_u8 ds : Forall (fun d => 0 <= d < 10) ds -> Forall in_u8 (map digit_char ds).
Proof.
  induction 1; cbn [map]; constructor; [apply digit_char_u8; lia|done].
Qed.

Lemma digit_char_10 d : 0 <= d < 10 -> 48 + d = digit_char d.
Proof. intros. unfold digit_char. by decide_ifs lia. Qed.

Lemma u7toa_loop fuel n ds :
  0 <= n < 2 ^ 64 -> Forall (fun d => 0 <= d < 10) ds ->
  zlen (to_radix 10 n) <= Z.of_nat fuel -> zlen (to_radix 10 n) + zlen ds <= 8 ->
  exists d ds', to_radix 10 n ++ ds = d :: ds' /\ 0 <= d < 10 /\
    iter fuel (fun '(n, buf, len) =>
      if 10 <=? n then Ret (inl (n / 10, gen_digit buf (48 + n mod 10), len + 1))
      else Ret (inr (n, buf, len))) (n, le_val (map digit_char ds), 1 + zlen ds)
    = Ret (d, le_val (map digit_char ds'), 1 + zlen ds').
Proof.
  revert n ds. induction fuel as [|fuel IH]; intros n ds Hn Hds Hf Hl.
  { pose proof (zlen_to_radix_pos 10 n). lia. }
  rewrite to_radix_eq in * by lia. destruct (Z.ltb_spec n 10); cbn [iter].
  - exists n, ds. decide_ifs lia. split; [done|]. split; [lia|done].
  - decide_ifs lia. cbn [obind]. rewrite zlen_app in *. change (zlen [n mod 10]) with 1 in *.
    assert (0 <= n mod 10 < 10) as Hm by (apply Z.mod_pos_bound; lia).
    pose proof (div_range 10 n ltac:(lia) Hn) as Hd.
    pose proof (zlen_to_radix_pos 10 (n / 10) ltac:(lia) Hd).
    assert (zlen (map digit_char ds) = zlen ds) as Hz by (unfold zlen; by rewrite length_map).
    rewrite digit_char_10, gen_digit_cons by first
      [done | lia | by apply digit_chars_u8 | apply digit_char_u8; lia].
    destruct (IH (n / 10) (n mod 10 :: ds)) as (d & ds' & E & Hr & HI);
      [done|by constructor|lia|rewrite zlen_cons; lia|].
    exists d, ds'. rewrite <- app_assoc. split; [exact E|]. split; [done|]. rewrite <- HI.
    rewrite zlen_cons. replace (1 + (1 + zlen ds)) with (1 + zlen ds + 1) by lia. done.
Qed.

Lemma u7toa_shift_eq m p n :
  0 <= n < TEN_POW_7 ->
  u7toa_shift m p n =
    let* m := wr_slice m p (text 10 n ++ replicate (8 - length (text 10 n)) 0) in
    Ret (zlen (text 10 n), m).
Proof.
  unfold TEN_POW_7. intros Hn. unfold u7toa_shift, text.
  assert (zlen (to_radix 10 n) <= 7) as Hl by (apply (zlen_to_radix 10 n 7); lia).
  destruct (u7toa_loop 11 n []) as (d & ds' & E & Hd & HI);
    [lia|constructor|lia|unfold zlen at 2; cbn [length]; lia|].
  cbn [map le_val] in HI. change (1 + zlen []) with 1 in HI. rewrite HI. cbn [obind].
  rewrite app_nil_r in E.
  pose proof (to_radix_digits 10 n ltac:(lia) ltac:(lia)) as Hds. rewrite E in *.
  inversion Hds; subst. rewrite zlen_cons in Hl.
  assert (zlen (map digit_char ds') = zlen ds') as Hz by (unfold zlen; by rewrite length_map).
  rewrite digit_char_10, gen_digit_cons by first
    [lia | by apply digit_chars_u8 | apply digit_char_u8; lia].
  change (digit_char d :: map digit_char ds') with (map digit_char (d :: ds')).
  rewrite le_bytes_le_val by first [by apply digit_chars_u8
    | rewrite length_map; unfold zlen in *; cbn [length]; lia].
  destruct (wr_slice _ _ _); [|done]. cbn [obind]. cbn [map]. rewrite !zlen_cons. do 2 f_equal. lia.
Qed.


Lemma length_fixed_digits k n : length (fixed_digits k n) = k.
Proof.
  revert n. induction k as [|k IH]; intros n; [done|].
  cbn [fixed_digits]. rewrite length_app, IH. cbn. lia.
Qed.

Lemma fixed_digits_range k n : Forall (fun d => 0 <= d < 10) (fixed_digits k n).
Proof.
  revert n. induction k as [|k IH]; intros n; [constructor|]. cbn [fixed_digits].
  apply Forall_app. split; [apply IH|]. constructor; [apply Z.mod_pos_bound; lia|constructor].
Qed.

Lemma fixed_digits_cons k n :
  fixed_digits (S k) n = (n / 10 ^ Z.of_nat k) mod 10 :: fixed_digits k n.
Proof.
  revert n. induction k as [|k IH]; intros n.
  - cbn [fixed_digits app]. change (10 ^ Z.of_nat 0) with 1. by rewrite Z.div_1_r.
  - change (fixed_digits (S (S k)) n) with (fixed_digits (S k) (n / 10) ++ [n mod 10]).
    rewrite IH. cbn [app fixed_digits]. rewrite Z.div_div by lia.
    by rewrite Nat2Z.inj_succ, Z.pow_succ_r by lia.
Qed.

Lemma to_radix_fixed k q r :
  1 <= q -> 0 <= r < 10 ^ Z.of_nat k -> q * 10 ^ Z.of_nat k + r < 2 ^ 64 ->
  to_radix 10 (q * 10 ^ Z.of_nat k + r) = to_radix 10 q ++ fixed_digits k r.
Proof.
  revert r. induction k as [|k IH]; intros r Hq Hr Hlt.
  - rewrite app_nil_r. f_equal. change (10 ^ Z.of_nat 0) with 1 in *. lia.
  - rewrite Nat2Z.inj_succ, Z.pow_succ_r in * by lia.
    assert (0 < 10 ^ Z.of_nat k) by lia.
    rewrite to_radix_eq by lia. decide_ifs ltac:(nia).
    replace (q * (10 * 10 ^ Z.of_nat k) + r) with (r + q * 10 ^ Z.of_nat k * 10) by lia.
    rewrite Z.div_add, Z.mod_add by lia. rewrite (Z.add_comm (r / 10)).
    assert (0 <= r / 10 < 10 ^ Z.of_nat k) by
      (split; [apply Z.div_pos; lia|apply Z.div_lt_upper_bound; lia]).
    rewrite IH by (try lia; nia). by rewrite <- app_assoc.
Qed.

Lemma put_char m p d : 0 <= d < 10 -> wr m p (u8 (48 + d)) = wr m p (digit_char d).
Proof. intros. rewrite <- digit_char_10 by done. by rewrite u8_id by zlia. Qed.

Lemma u07toa_loop k fuel m m1 D n t :
  0 <= D -> (k < fuel)%nat -> wr_slice m (D + Z.of_nat (S k)) t = Ret m1 ->
  exists m2, wr_slice m (D + 1) (map digit_char (fixed_digits k n) ++ t) = Ret m2 /\
    iter fuel (fun '(i, n, m) =>
      if 1 <? i then
        let* m := wr m (D + (i - 1)) (u8 (48 + n mod 10)) in
        Ret (inl (i - 1, n / 10, m))
      else Ret (inr (i - 1, n, m))) (Z.of_nat (S k), n, m1)
    = Ret (0, n / 10 ^ Z.of_nat k, m2).
Proof.
  intros HD. revert fuel n m1 t. induction k as [|k IH]; intros fuel n m1 t Hf Hw;
    (destruct fuel as [|fuel]; [lia|]); cbn [iter].
  - exists m1. change (10 ^ Z.of_nat 0) with 1. by rewrite Z.div_1_r.
  - replace (Z.of_nat (S (S k)) - 1) with (Z.of_nat (S k)) by lia.
    assert (0 <= n mod 10 < 10) by (apply Z.mod_pos_bound; lia).
    rewrite put_char by done.
    replace (D + Z.of_nat (S (S k))) with (D + Z.of_nat (S k) + 1) in Hw by lia.
    rewrite (wr_slice_before m m1 _ t) by (done || lia).
    pose proof (zlen_nonneg t). assert (D + Z.of_nat (S k) + 1 + zlen t <= zlen m) as Hlen.
    { unfold wr_slice in Hw. destruct (_ || _) eqn:E; [done|]. bool_to_prop. lia. }
    destruct (wr_slice_exists m (D + Z.of_nat (S k)) (digit_char (n mod 10) :: t)) as [m2 Hm2];
      [lia|rewrite zlen_cons; lia|]. rewrite Hm2. cbn [obind].
    destruct (IH fuel (n / 10) m2 _ ltac:(lia) Hm2) as (m3 & Hm3 & HI). exists m3. split.
    + rewrite <- Hm3. cbn [fixed_digits]. by rewrite map_app, <- app_assoc.
    + replace (1 <? Z.of_nat (S (S k))) with true by (symmetry; apply Z.ltb_lt; lia). cbn [obind].
      rewrite HI, Z.div_div by lia. by rewrite (Nat2Z.inj_succ k), Z.pow_succ_r by lia.
Qed.

Lemma u07toa_shift_eq m p n len :
  0 <= n < TEN_POW_7 -> 0 <= p + len -> p + len + 8 <= zlen m ->
  u07toa_shift m p n len =
    let* m := wr_slice m (p + len) (map digit_char (fixed_digits 7 n) ++ [0]) in
    Ret (len + 7, m).
Proof.
  unfold TEN_POW_7. intros Hn Hp Hlen. unfold u07toa_shift. cbn zeta.
  destruct (wr_slice_exists m (p + len + Z.of_nat 7) [0]) as [m1 Hm1];
    [lia|change (zlen [0]) with 1; lia|].
  assert (wr m (p + len + 7) 0 = Ret m1) as ->.
  { rewrite <- Hm1, wr_slice_cons. change (Z.of_nat 7) with 7. rewrite wr_in by lia. cbn [obind].
    by rewrite wr_slice_nil by (rewrite zlen_insert; lia). }
  cbn [obind].
  destruct (u07toa_loop 6 8 m m1 (p + len) n [0] Hp ltac:(lia) Hm1) as (m2 & Hm2 & HI).
  change (Z.of_nat 7) with 7 in HI. rewrite HI. cbn [obind]. rewrite Z.add_0_r.
  change (10 ^ Z.of_nat 6) with 1000000. rewrite put_char by zlia.
  rewrite (wr_slice_before _ _ _ _ _ Hp Hm2). rewrite (fixed_digits_cons 6).
  change (10 ^ Z.of_nat 6) with 1000000. cbn [map app]. by rewrite (Z.mod_small (n / 1000000)) by zlia.
Qed.


Lemma stores_prints m p k cs r :
  0 <= p -> p + k <= zlen m -> 8 <= k -> zlen cs + 1 <= k -> stores m p cs r ->
  prints m p k cs r.
Proof.
  intros Hp Hlen Hk8 Hkc (z & Hk & ->). unfold prints.
  destruct (wr_slice_exists m p (cs ++ 0 :: z)) as [m' Hm'];
    [done|rewrite zlen_app, zlen_cons; lia|].
  rewrite Hm'. cbn [obind post]. destruct (wr_slice_block _ _ _ _ Hm') as [Hb Hz].
  split; [done|]. split; [|split; [done|]].
  - change (cs ++ 0 :: z) with (cs ++ [0] ++ z) in Hb. rewrite app_assoc in Hb.
    apply block_at_app in Hb as [Hb _]. exact Hb.
  - intros i x Hi. eapply wr_slice_outside; [exact Hm'|]. rewrite zlen_app, zlen_cons. lia.
Qed.

Lemma zlen_fixed_digits k n : zlen (fixed_digits k n) = Z.of_nat k.
Proof. unfold zlen. by rewrite length_fixed_digits. Qed.

Lemma zlen_text10 n k :
  0 <= n < 2 ^ 64 -> 1 <= k -> n < 10 ^ k -> 1 <= zlen (text 10 n) <= k.
Proof.
  intros Hn Hk Hlt. unfold text. rewrite zlen_map. split.
  - apply zlen_to_radix_pos; [lia|done].
  - by apply zlen_to_radix.
Qed.

Lemma text10_split q r :
  1 <= q -> 0 <= r < TEN_POW_7 -> q * TEN_POW_7 + r < 2 ^ 64 ->
  text 10 (q * TEN_POW_7 + r) = text 10 q ++ map digit_char (fixed_digits 7 r).
Proof.
  intros. unfold text. rewrite <- map_app. f_equal. by apply (to_radix_fixed 7).
Qed.

Lemma u7toa_shift_stores m p n :
  0 <= n < TEN_POW_7 -> stores m p (text 10 n) (u7toa_shift m p n).
Proof.
  intros Hn. rewrite u7toa_shift_eq by done.
  assert (1 <= zlen (text 10 n) <= 7) as Hl by (unfold TEN_POW_7 in Hn; apply (zlen_text10 n 7); lia).
  exists (replicate (7 - length (text 10 n)) 0). unfold zlen in *. rewrite length_replicate.
  split; [lia|]. replace (8 - length (text 10 n))%nat with (S (7 - length (text 10 n))) by lia. done.
Qed.

(** [u07toa_shift] after a first part of the text. *)
Lemma u07toa_shift_stores m p cs r n :
  stores m p cs r -> 1 <= zlen cs -> 0 <= n < TEN_POW_7 -> 0 <= p -> p + zlen cs + 8 <= zlen m ->
  stores m p (cs ++ map digit_char (fixed_digits 7 n))
    (let* (len, m) := r in u07toa_shift m p n len).
Proof.
  intros (z & Hz & ->) Hcs Hn Hp Hlen. exists [].
  rewrite zlen_app, zlen_map, zlen_fixed_digits. change (zlen []) with 0. split; [lia|].
  destruct (wr_slice_exists m p (cs ++ 0 :: z)) as [m1 Hm1];
    [done|rewrite zlen_app, zlen_cons; lia|].
  rewrite Hm1. cbn [obind]. destruct (wr_slice_block _ _ _ _ Hm1) as [_ Hz1].
  rewrite u07toa_shift_eq by (done || lia).
  rewrite (wr_slice_overlay m m1 p cs (0 :: z));
    [by rewrite app_assoc|done|..];
    rewrite ?zlen_app, ?zlen_cons, zlen_map, zlen_fixed_digits; change (zlen [0]) with 1;
    change (zlen (@nil Z)) with 0; lia.
Qed.

Lemma one_digit_stores m p c :
  0 <= p -> p + 1 < zlen m ->
  stores m p [c] (let* m := wr m p c in let* m := wr m (p + 1) 0 in Ret (1, m)).
Proof.
  intros. exists []. split; [vm_compute; discriminate|].
  rewrite <- obind_assoc, wr_slice_2 by done. done.
Qed.

Lemma u32toa_stores m p n :
  in_u32 n -> 0 <= p -> p + 11 <= zlen m -> stores m p (text 10 n) (u32toa m p n).
Proof.
  intros Hn Hp Hlen. unfold u32toa. destruct (Z.ltb_spec n 10) as [H10|H10].
  - unfold text. rewrite to_radix_eq by (unfold in_u32 in Hn; lia). decide_ifs lia.
    cbn [map]. unfold in_u32 in Hn. rewrite put_char by lia. apply one_digit_stores; lia.
  - unfold in_u32 in Hn. destruct (Z.leb_spec TEN_POW_7 n) as [H7|H7].
    + unfold TEN_POW_7 in H7. rewrite (Z.div_mod n TEN_POW_7) at 1 by done.
      rewrite Z.mul_comm. assert (1 <= n / TEN_POW_7 < 1000) by (unfold TEN_POW_7; zlia).
      assert (0 <= n mod TEN_POW_7 < TEN_POW_7) by (by apply Z.mod_pos_bound).
      rewrite text10_split by (unfold TEN_POW_7 in *; lia).
      pose proof (zlen_text10 (n / TEN_POW_7) 3 ltac:(lia) ltac:(lia) ltac:(lia)).
      apply u07toa_shift_stores; [|lia..]. apply u7toa_shift_stores. unfold TEN_POW_7 in *; lia.
    + apply u7toa_shift_stores. lia.
Qed.

Lemma u64toa_stores m p n :
  in_u64 n -> 0 <= p -> p + 21 <= zlen m -> stores m p (text 10 n) (u64toa m p n).
Proof.
  intros Hn Hp Hlen. unfold u64toa. destruct (Z.ltb_spec n 0x100000000) as [H32|H32].
  { apply u32toa_stores; [unfold in_u32, in_u64 in *; lia|done|lia]. }
  unfold in_u64 in Hn. decide_ifs ltac:(apply Z.leb_le; unfold TEN_POW_7; lia).
  set (n1 := n / TEN_POW_7). set (r := n mod TEN_POW_7).
  assert (n = n1 * TEN_POW_7 + r) as E by (subst n1 r; rewrite Z.mul_comm; by apply Z.div_mod).
  assert (0 <= r < TEN_POW_7) by (by apply Z.mod_pos_bound).
  rewrite (u32_id r) by (unfold in_u32, TEN_POW_7 in *; lia).
  assert (400 <= n1 < 2000000000000) by (unfold TEN_POW_7 in *; lia). clearbody n1 r. subst n.
  rewrite text10_split by (unfold TEN_POW_7 in *; lia).
  pose proof (zlen_text10 n1 13 ltac:(lia) ltac:(lia) ltac:(lia)).
  apply u07toa_shift_stores; [|lia..]. destruct (Z.leb_spec TEN_POW_7 n1).
  - rewrite (u32_id (n1 / _)) by (unfold TEN_POW_7; zlia).
    rewrite u32_id by (unfold TEN_POW_7; zlia).
    rewrite (Z.div_mod n1 TEN_POW_7) at 1 by done. rewrite Z.mul_comm.
    assert (1 <= n1 / TEN_POW_7 < 200000) by (unfold TEN_POW_7 in *; zlia).
    assert (0 <= n1 mod TEN_POW_7 < TEN_POW_7) by (by apply Z.mod_pos_bound).
    rewrite text10_split by (unfold TEN_POW_7 in *; lia).
    pose proof (zlen_text10 (n1 / TEN_POW_7) 6 ltac:(lia) ltac:(lia) ltac:(lia)).
    apply u07toa_shift_stores; [|lia..]. apply u7toa_shift_stores. unfold TEN_POW_7 in *; lia.
  - rewrite u32_id by (unfold in_u32, TEN_POW_7 in *; lia). apply u7toa_shift_stores. lia.
Qed.

(** ** Conversions in any radix *)

Lemma zlen_text base n : zlen (text base n) = zlen (to_radix base n).
Proof. apply zlen_map. Qed.

Lemma text_ge base n :
  2 <= base -> 0 <= n < 2 ^ 64 -> base <= n ->
  text base n = text base (n / base) ++ [digit_char (n mod base)].
Proof. intros. unfold text. rewrite to_radix_eq by done. decide_ifs lia. by rewrite map_app. Qed.

Lemma text_lt base n :
  2 <= base -> 0 <= n < 2 ^ 64 -> n < base -> text base n = [digit_char n].
Proof. intros. unfold text. rewrite to_radix_eq by done. by decide_ifs lia. Qed.

Lemma put_digit_eq m e d : 0 <= d < 36 -> put_digit m e d = wr m e (digit_char d).
Proof.
  intros Hd. unfold put_digit. cut (rd digits36 d = Ret (digit_char d)); [by intros ->|].
  assert (Forall (fun d => rd digits36 d = Ret (digit_char d)) (seqZ 0 36)) as H
    by (vm_compute; repeat constructor).
  rewrite Forall_forall in H. apply H. apply elem_of_seqZ. lia.
Qed.

Lemma radix_shift_eq base :
  2 <= base <= 36 ->
  exists s, rd radix_shift (Z.land base 63) = Ret s /\ (s = 0 \/ 1 <= s <= 5 /\ base = 2 ^ s).
Proof.
  intros Hb.
  assert (Forall (fun b => match rd radix_shift (Z.land b 63) with
      | Ret s => (s =? 0) || (1 <=? s) && (s <=? 5) && (b =? 2 ^ s) = true
      | Err _ => False end) (seqZ 2 35)) as H
    by (vm_compute; repeat constructor).
  rewrite Forall_forall in H. specialize (H base). rewrite elem_of_seqZ in H.
  specialize (H ltac:(lia)). destruct (rd _ _) as [s|]; [|done]. exists s. split; [done|].
  bool_to_prop. destruct H; [left|right]; bool_to_prop; lia.
Qed.

(** The backward loop on the digits and the store of the last one. *)
Lemma backward_digits base lo hi fuel m m1 D t n :
  2 <= base <= 36 ->
  (forall n, 0 <= n -> lo n = n mod base) -> (forall n, 0 <= n -> hi n = n / base) ->
  0 <= n < 2 ^ 64 -> 0 <= D -> (length (to_radix base n) <= fuel)%nat ->
  wr_slice m (D + zlen (text base n)) t = Ret m1 ->
  (let* (n, e, m) := iter fuel (fun '(n, e, m) =>
      if base <=? n then
        let* m := put_digit m e (lo n) in
        Ret (inl (hi n, e - 1, m))
      else Ret (inr (n, e, m))) (n, D + zlen (text base n) - 1, m1) in
   put_digit m e n)
  = wr_slice m D (text base n ++ t).
Proof.
  intros Hb Hlo Hhi [Hn0 Hn] HD. revert m1 t fuel Hn.
  assert (2 <= base) as Hb2 by lia. revert n Hn0. digits_induction Hb2.
  - intros n Hn m1 t fuel Hn' Hf Hw. rewrite text_lt in * by lia. rewrite to_radix_eq in Hf by lia.
    replace (n <? base) with true in Hf by lia. cbn [length] in Hf. destruct fuel as [|fuel]; [lia|].
    change (zlen [_]) with 1 in *. cbn [iter]. decide_ifs lia. cbn [obind].
    rewrite put_digit_eq by lia. replace (D + 1 - 1) with D by lia.
    by apply wr_slice_before.
  - intros n Hn IH m1 t fuel Hn' Hf Hw. pose proof (div_range base n ltac:(lia) ltac:(lia)).
    assert (0 <= n mod base < base) by (apply Z.mod_pos_bound; lia).
    rewrite text_ge in * by lia. rewrite to_radix_eq in Hf by lia.
    replace (n <? base) with false in Hf by lia. rewrite length_app in Hf. cbn [length] in Hf.
    destruct fuel as [|fuel]; [lia|]. cbn [iter]. decide_ifs lia. cbn [obind].
    rewrite Hlo, Hhi, put_digit_eq by lia. rewrite zlen_app in *. change (zlen [_]) with 1 in *.
    replace (D + (zlen (text base (n / base)) + 1) - 1) with (D + zlen (text base (n / base))) by lia.
    pose proof (zlen_nonneg (text base (n / base))).
    rewrite Z.add_assoc in Hw. 
    rewrite (wr_slice_before m m1 (D + zlen (text base (n / base))) t) by (done || lia).
    assert (exists m2, wr_slice m (D + zlen (text base (n / base))) (digit_char (n mod base) :: t) = Ret m2)
      as [m2 Hm2].
    { apply wr_slice_Ret in Hw as (a & h & r & -> & Ha & Hl & _). apply wr_slice_exists; [lia|].
      rewrite !zlen_app, zlen_cons. unfold zlen in *. lia. }
    rewrite Hm2. cbn [obind]. rewrite (IH m2 (digit_char (n mod base) :: t) fuel); [|lia|lia|done].
    by rewrite <- app_assoc.
Qed.

Lemma zlen_to_radix_le base n k :
  2 <= base -> 1 <= k <= 64 -> 0 <= n < 2 ^ k -> zlen (to_radix base n) <= k.
Proof.
  intros Hb Hk Hn. assert (2 ^ k <= base ^ k) by (apply Z.pow_le_mono_l; lia).
  assert (2 ^ k <= 2 ^ 64) by (apply Z.pow_le_mono_r; lia). apply zlen_to_radix; lia.
Qed.

Lemma zlen_to_radix_pow2 s n :
  1 <= s -> 1 <= n < 2 ^ 64 -> zlen (to_radix (2 ^ s) n) = Z.log2 n / s + 1.
Proof.
  intros Hs Hn. assert (2 ^ 1 <= 2 ^ s) by (apply Z.pow_le_mono_r; lia).
  assert (Z.log2 n = s * (Z.log2 n / s) + Z.log2 n mod s) as E by (apply Z.div_mod; lia).
  pose proof (Z.mod_pos_bound (Z.log2 n) s ltac:(lia)). pose proof (Z.log2_nonneg n).
  assert (0 <= Z.log2 n / s) by (apply Z.div_pos; lia).
  pose proof (Z.log2_spec n ltac:(lia)) as [Hl1 Hl2]. set (q := Z.log2 n / s) in *.
  assert (n < (2 ^ s) ^ (q + 1)) as Hu1.
  { rewrite <- Z.pow_mul_r by lia. eapply Z.lt_le_trans; [exact Hl2|].
    apply Z.pow_le_mono_r; lia. }
  destruct (Z.eq_dec q 0) as [Hq|Hq].
  - rewrite Hq in *. pose proof (zlen_to_radix_pos (2 ^ s) n).
    pose proof (zlen_to_radix (2 ^ s) n 1). lia.
  - assert ((2 ^ s) ^ q <= n) as Hu2.
    { rewrite <- Z.pow_mul_r by lia. eapply Z.le_trans; [|exact Hl1]. apply Z.pow_le_mono_r; lia. }
    pose proof (zlen_to_radix (2 ^ s) n q). pose proof (zlen_to_radix (2 ^ s) n (q + 1)). lia.
Qed.

(** The length loop does not overflow and counts the digits. *)
Lemma radix_len_eq fuel wrap n base W :
  (forall x, 0 <= x < W -> wrap x = x) -> 2 <= base -> 1 <= n -> n * base < W -> W <= 2 ^ 64 ->
  zlen (to_radix base n) < Z.of_nat fuel ->
  radix_len fuel wrap n base = Ret (zlen (to_radix base n) + 1).
Proof.
  intros Hwrap Hb Hn HW HW64 Hf. unfold radix_len.
  assert (0 <= n < 2 ^ 64) as Hn64 by nia.
  set (len := zlen (to_radix base n)) in *.
  cut (forall fuel k, 1 <= k <= len -> len - k < Z.of_nat fuel ->
    iter fuel (fun '(nbase, len) =>
      if nbase <=? n then Ret (inl (wrap (nbase * base), len + 1)) else Ret (inr len))
      (base ^ k, k + 1) = Ret (len + 1)).
  { intros H. specialize (H fuel 1). rewrite Z.pow_1_r in H. apply H; [|lia].
    pose proof (zlen_to_radix_pos base n Hb Hn64). lia. }
  clear fuel Hf. induction fuel as [|fuel IH]; intros k Hk Hf; [lia|]. cbn [iter].
  destruct (zlen_to_radix base n k Hb Hn64 ltac:(lia)) as [Hlt Hge]. fold len in Hlt, Hge.
  destruct (Z.leb_spec (base ^ k) n) as [Hle|Hgt]; cbn [obind].
  - rewrite Hwrap by nia. specialize (Hge Hle).
    replace (base ^ k * base) with (base ^ (k + 1)) by (rewrite Z.pow_add_r, Z.pow_1_r by lia; done).
    apply IH; lia.
  - do 2 f_equal. specialize (Hlt Hgt). lia.
Qed.

(** [stores] with nothing after the terminator. *)
Lemma stores_exact m p cs : stores m p cs (let* m := wr_slice m p (cs ++ [0]) in Ret (zlen cs, m)).
Proof. exists []. split; [change (zlen []) with 0; lia|done]. Qed.

(** The terminator and the last digit, then the other digits. *)
Lemma tail_digits base lo hi fuel m D n :
  2 <= base <= 36 ->
  (forall n, 0 <= n -> lo n = n mod base) -> (forall n, 0 <= n -> hi n = n / base) ->
  base <= n < 2 ^ 64 -> 0 <= D -> zlen (to_radix base n) <= Z.of_nat fuel ->
  D + zlen (text base n) < zlen m ->
  (let* m := wr m (D + zlen (text base n)) 0 in
   let* m := put_digit m (D + zlen (text base n) - 1) (lo n) in
   let* (n, e, m) := iter fuel (fun '(n, e, m) =>
      if base <=? n then
        let* m := put_digit m e (lo n) in
        Ret (inl (hi n, e - 1, m))
      else Ret (inr (n, e, m))) (hi n, D + zlen (text base n) - 2, m) in
   put_digit m e n)
  = wr_slice m D (text base n ++ [0]).
Proof.
  intros Hb Hlo Hhi Hn HD Hf Hlen. rewrite Hlo, Hhi by lia.
  rewrite <- zlen_text in Hf. pose proof (div_range base n ltac:(lia) ltac:(lia)).
  assert (0 <= n mod base < base) by (apply Z.mod_pos_bound; lia).
  rewrite text_ge in * by lia. set (k := zlen (text base (n / base))).
  rewrite zlen_app in *. change (zlen [_]) with 1 in *. fold k in Hf, Hlen |- *.
  pose proof (zlen_nonneg (text base (n / base))) as Hk. fold k in Hk.
  destruct (wr_slice_exists m (D + k) [digit_char (n mod base); 0]) as [m2 Hm2];
    [lia|rewrite !zlen_cons; change (zlen (@nil Z)) with 0; lia|].
  rewrite wr_slice_1 by lia.
  destruct (wr_slice_exists m (D + (k + 1)) [0]) as [m1 Hm1]; [lia|change (zlen [0]) with 1; lia|].
  rewrite Hm1. cbn [obind]. rewrite put_digit_eq by lia.
  replace (D + (k + 1) - 1) with (D + k) by lia.
  replace (D + (k + 1)) with (D + k + 1) in Hm1 by lia.
  rewrite (wr_slice_before m m1 (D + k) [0]), Hm2 by (done || lia). cbn [obind].
  replace (D + (k + 1) - 2) with (D + k - 1) by lia.
  rewrite (backward_digits base lo hi fuel m m2 D [digit_char (n mod base); 0]);
    [by rewrite <- app_assoc|lia|done|done|lia|lia| |done].
  unfold k, text in Hf. rewrite zlen_map in Hf. unfold zlen in Hf. lia.
Qed.

Lemma radix_div_stores fuel m p n base len :
  2 <= base <= 36 -> base <= n < 2 ^ 64 -> 0 <= p -> zlen (to_radix base n) <= Z.of_nat fuel ->
  p + zlen (to_radix base n) < zlen m -> len = zlen (to_radix base n) ->
  stores m p (text base n)
    (let* m := radix_div_digits fuel m (p + len) (n mod base) (n / base) base in Ret (len, m)).
Proof.
  intros Hb Hn Hp Hl Hlen ->. rewrite <- zlen_text in *. unfold radix_div_digits.
  rewrite (tail_digits base (fun n => n mod base) (fun n => n / base)) by first
    [done | lia | rewrite <- zlen_text; lia].
  apply stores_exact.
Qed.

Lemma radix_shift_stores fuel m p n s len :
  1 <= s <= 5 -> 2 ^ s <= n < 2 ^ 64 -> 0 <= p -> zlen (to_radix (2 ^ s) n) <= Z.of_nat fuel ->
  p + zlen (to_radix (2 ^ s) n) < zlen m -> len = zlen (to_radix (2 ^ s) n) ->
  stores m p (text (2 ^ s) n)
    (let* m := radix_shift_digits fuel m (p + len) n (2 ^ s) s (Z.shiftl 1 s - 1) in Ret (len, m)).
Proof.
  intros Hs Hn Hp Hl Hlen ->. rewrite <- zlen_text in *. unfold radix_shift_digits.
  assert (2 ^ 1 <= 2 ^ s) by (apply Z.pow_le_mono_r; lia).
  assert (2 ^ s <= 2 ^ 5) by (apply Z.pow_le_mono_r; lia).
  rewrite (tail_digits (2 ^ s) (fun n => Z.land n (Z.shiftl 1 s - 1)) (fun n => Z.shiftr n s));
    [apply stores_exact|lia|..|done|done|rewrite <- zlen_text; lia|lia].
  - intros. apply land_mask; [lia|]. rewrite Z.shiftl_mul_pow2 by lia. lia.
  - intros. apply shiftr_div; [lia|done].
Qed.

(** The two branches of a multi-digit conversion of a [w]-bit word. *)
Lemma radix_div_branch fuel wrap W m p n base :
  (forall x, 0 <= x < W -> wrap x = x) -> W <= 2 ^ 64 -> 2 <= base <= 36 -> base <= n < W ->
  0 <= p -> p + zlen (to_radix base n) < zlen m -> zlen (to_radix base n) < Z.of_nat fuel ->
  stores m p (text base n)
    (let* len := radix_len fuel wrap (n / base) base in
     let* m := radix_div_digits fuel m (p + len) (n mod base) (n / base) base in Ret (len, m)).
Proof.
  intros Hw HW Hb Hn Hp Hlen Hf. pose proof (div_range base n ltac:(lia) ltac:(lia)).
  assert (1 <= n / base) by (apply Z.div_le_lower_bound; lia).
  assert (n / base * base <= n) by (rewrite Z.mul_comm; apply Z.mul_div_le; lia).
  assert (zlen (to_radix base n) = zlen (to_radix base (n / base)) + 1) as E.
  { rewrite (to_radix_eq base n) by lia. decide_ifs lia. by rewrite zlen_app. }
  rewrite (radix_len_eq fuel wrap (n / base) base W) by (done || lia).
  cbn [obind]. apply radix_div_stores; lia.
Qed.

Lemma radix_shift_branch fuel w m p n s :
  1 <= s <= 5 -> 2 ^ s <= n < 2 ^ 64 -> 0 <= p -> zlen (to_radix (2 ^ s) n) <= Z.of_nat fuel ->
  p + zlen (to_radix (2 ^ s) n) < zlen m ->
  stores m p (text (2 ^ s) n)
    (let* m := radix_shift_digits fuel m (p + (w - (w - 1 - Z.log2 n) + s - 1) / s) n (2 ^ s) s
                 (Z.shiftl 1 s - 1) in
     Ret ((w - (w - 1 - Z.log2 n) + s - 1) / s, m)).
Proof.
  intros. assert (2 ^ 1 <= 2 ^ s) by (apply Z.pow_le_mono_r; lia).
  apply radix_shift_stores; try lia. rewrite zlen_to_radix_pow2 by lia.
  replace (w - (w - 1 - Z.log2 n) + s - 1) with (Z.log2 n + 1 * s) by lia.
  rewrite Z.div_add by lia. lia.
Qed.

Lemma u32toa_radix_stores m p n base :
  in_u32 n -> 2 <= base <= 36 -> 0 <= p -> p + 33 <= zlen m ->
  stores m p (text base n) (u32toa_radix m p n base).
Proof.
  unfold in_u32. intros Hn Hb Hp Hlen. unfold u32toa_radix.
  destruct (Z.eqb_spec base 10) as [->|_]; [apply u32toa_stores; unfold in_u32; lia|].
  destruct (Z.ltb_spec n base) as [Hlt|Hge].
  { rewrite text_lt, put_digit_eq by lia. apply one_digit_stores; lia. }
  pose proof (zlen_to_radix_le base n 32 ltac:(lia) ltac:(lia) ltac:(lia)) as Hl.
  destruct (radix_shift_eq base Hb) as (s & -> & Hs). cbn [obind].
  destruct Hs as [->|[Hs ->]]; cbn [negb Z.eqb].
  - apply (radix_div_branch 33 u32 4294967296); try lia. apply u32_id.
  - decide_ifs lia. apply radix_shift_branch; lia.
Qed.

Lemma u64toa_radix_stores m p n base :
  in_u64 n -> 2 <= base <= 36 -> 0 <= p -> p + 65 <= zlen m ->
  stores m p (text base n) (u64toa_radix m p n base).
Proof.
  unfold in_u64. intros Hn Hb Hp Hlen. unfold u64toa_radix.
  destruct (Z.eqb_spec base 10) as [->|_]; [apply u64toa_stores; unfold in_u64; lia|].
  pose proof (zlen_to_radix_le base n 64 ltac:(lia) ltac:(lia) ltac:(lia)) as Hl.
  destruct (radix_shift_eq base Hb) as (s & -> & Hs). cbn [obind].
  destruct Hs as [->|[Hs ->]]; cbn [negb Z.eqb].
  - destruct (Z.ltb_spec n 0x100000000); [apply u32toa_radix_stores; unfold in_u32; lia|].
    apply (radix_div_branch 65 u64 (2 ^ 64)); try lia. apply u64_id.
  - decide_ifs lia. destruct (Z.ltb_spec n (2 ^ s)) as [Hlt|Hge].
    { rewrite text_lt, put_digit_eq by lia. apply one_digit_stores; lia. }
    apply radix_shift_branch; lia.
Qed.

(** A minus sign in front of an unsigned conversion. *)
Lemma sign_prints m p k cs f :
  0 <= p -> p + (1 + k) <= zlen m -> 8 <= k -> zlen cs + 1 <= k ->
  (forall m, p + 1 + k <= zlen m -> stores m (p + 1) cs (f m)) ->
  prints m p (1 + k) (45 :: cs)
    (let* m := wr m p 45 in let* (len, m) := f m in Ret (1 + len, m)).
Proof.
  intros Hp Hlen Hk8 Hkc Hf. rewrite wr_in by lia. cbn [obind].
  destruct (Hf (<[Z.to_nat p:=45]> m)) as (z & Hz & ->); [rewrite zlen_insert; lia|].
  destruct (wr_slice_exists m p (45 :: cs ++ 0 :: z)) as [m' Hm'];
    [done|rewrite zlen_cons, zlen_app, zlen_cons; lia|].
  pose proof Hm' as Hw. rewrite wr_slice_cons, wr_in in Hw by lia. cbn [obind] in Hw.
  rewrite Hw. cbn [obind]. apply post_ret. destruct (wr_slice_block _ _ _ _ Hm') as [Hb Hzl].
  split; [by rewrite zlen_cons|]. split; [|split; [done|]].
  - change (45 :: cs ++ 0 :: z) with ((45 :: cs) ++ [0] ++ z) in Hb. rewrite app_assoc in Hb.
    apply block_at_app in Hb as [Hb _]. exact Hb.
  - intros i x Hi. eapply wr_slice_outside; [exact Hm'|].
    rewrite zlen_cons, zlen_app, zlen_cons. lia.
Qed.

Lemma number_text_nonneg base n : 0 <= n -> number_text base n = text base n.
Proof. intros. unfold number_text. by decide_ifs lia. Qed.

Lemma number_text_neg base n : n < 0 -> number_text base n = 45 :: text base (- n).
Proof. intros. unfold number_text. by decide_ifs lia. Qed.

Lemma u32_neg n : in_i32 n -> n < 0 -> u32 (- u32 n) = - n.
Proof. unfold in_i32. intros. zlia. Qed.

Lemma u64_neg n : in_i64 n -> n < 0 -> u64 (- u64 n) = - n.
Proof. unfold in_i64. intros. zlia. Qed.

Lemma sign_case m p k base n f g :
  0 <= p -> p + (1 + k) <= zlen m -> 8 <= k -> zlen (text base (Z.abs n)) + 1 <= k ->
  (0 <= n -> stores m p (text base n) f) ->
  (n < 0 -> forall m, p + 1 + k <= zlen m -> stores m (p + 1) (text base (- n)) (g m)) ->
  prints m p (1 + k) (number_text base n)
    (if 0 <=? n then f else let* m := wr m p 45 in let* (len, m) := g m in Ret (1 + len, m)).
Proof.
  intros Hp Hlen Hk8 Hkl Hf Hg. destruct (Z.leb_spec 0 n) as [H0|H0].
  - rewrite number_text_nonneg by done. rewrite Z.abs_eq in Hkl by done.
    apply stores_prints; [lia..|auto].
  - rewrite number_text_neg by done. rewrite Z.abs_neq in Hkl by lia.
    apply sign_prints; auto.
Qed.

Lemma char_digit_digit_char d : 0 <= d < 36 -> char_digit (digit_char d) = d.
Proof. intros. unfold char_digit, digit_char. destruct (Z.ltb_spec d 10); decide_ifs lia; lia. Qed.

Lemma of_radix_text base n :
  2 <= base <= 36 -> 0 <= n < 2 ^ 64 -> of_radix base (map char_digit (text base n)) = n.
Proof.
  intros Hb Hn. unfold text. rewrite map_map.
  rewrite <- (of_radix_to_radix base n) at 2 by lia. f_equal.
  pose proof (to_radix_digits base n ltac:(lia) Hn) as Hd.
  induction Hd as [|d ds Hd _ IH]; [done|]. cbn [map]. f_equal; [|exact IH].
  apply char_digit_digit_char. lia.
Qed.

Lemma text_value_number_text base n :
  2 <= base <= 36 -> - 2 ^ 64 < n < 2 ^ 64 -> text_value base (number_text base n) = n.
Proof.
  intros Hb Hn. destruct (Z.lt_ge_cases n 0) as [H0|H0].
  - rewrite number_text_neg by done. cbn [text_value]. rewrite of_radix_text by lia. lia.
  - rewrite number_text_nonneg by done. rewrite <- (of_radix_text base n) at 2 by lia.
    pose proof (to_radix_digits base n ltac:(lia) ltac:(lia)) as Hd. unfold text.
    destruct Hd as [|d ds Hd _]; [done|]. cbn [map text_value].
    destruct (digit_char d) as [|q|q] eqn:E; try done.
    unfold digit_char in E. destruct (d <? 10) eqn:?; bool_to_prop;
      (destruct (Z.eq_dec (Z.pos q) 45); [lia|]);
      (do 6 (destruct q as [q|q|]; try done)).
Qed.

Lemma i32toa_radix_stored m p n base :
  in_i32 n -> 2 <= base <= 36 -> 0 <= p -> p + 34 <= zlen m ->
  prints m p 34 (number_text base n) (i32toa_radix m p n base).
Proof.
  intros Hn Hb Hp Hlen. unfold i32toa_radix.
  apply (sign_case m p 33 base n _ (fun m => u32toa_radix m (p + 1) (u32 (- u32 n)) base)); try lia.
  - rewrite zlen_text. pose proof (zlen_to_radix_le base (Z.abs n) 32). unfold in_i32 in *. lia.
  - intros. apply u32toa_radix_stores; unfold in_u32, in_i32 in *; lia.
  - intros. rewrite u32_neg by done. apply u32toa_radix_stores; unfold in_u32, in_i32 in *; lia.
Qed.

Lemma i64toa_radix_stored m p n base :
  in_i64 n -> 2 <= base <= 36 -> 0 <= p -> p + 66 <= zlen m ->
  prints m p 66 (number_text base n) (i64toa_radix m p n base).
Proof.
  intros Hn Hb Hp Hlen. unfold i64toa_radix.
  apply (sign_case m p 65 base n _ (fun m => u64toa_radix m (p + 1) (u64 (- u64 n)) base)); try lia.
  - rewrite zlen_text. pose proof (zlen_to_radix_le base (Z.abs n) 64). unfold in_i64 in *. lia.
  - intros. apply u64toa_radix_stores; unfold in_u64, in_i64 in *; lia.
  - intros. rewrite u64_neg by done. apply u64toa_radix_stores; unfold in_u64, in_i64 in *; lia.
Qed.

(** * Properties *)

(** C37: [i64toa_radix] writes, for every 64-bit integer and every base from 2 to
    36, the minus sign, the digits of the magnitude and the terminator, returns
    the length without the terminator, and stores nothing outside the 66 bytes
    its declaration asks for.  The length computed up front is the number of
    digits, and its power of the base does not wrap. *)
Theorem i64toa_radix_prints m p n base :
  in_i64 n -> 2 <= base <= 36 -> 0 <= p -> p + 66 <= zlen m ->
  post (i64toa_radix m p n base) (fun '(len, m') =>
    len = zlen (number_text base n) /\ block_at m' p (number_text base n ++ [0]) /\
    zlen m' = zlen m /\ forall i x, (i < p \/ p + 66 <= i) -> at_ m i x <-> at_ m' i x).
Proof. apply i64toa_radix_stored. Qed.

Lemma i64toa_radix_prints_witness :
  i64toa_radix (replicate 66 7) 0 (-255) 16
  = Ret (3, [45; 102; 102; 0] ++ replicate 62 7) /\
  post (i64toa_radix (replicate 66 7) 0 (-255) 16) (fun '(len, m') =>
    len = zlen (number_text 16 (-255)) /\ block_at m' 0 (number_text 16 (-255) ++ [0]) /\
    zlen m' = zlen (replicate 66 7) /\
    forall i x, (i < 0 \/ 0 + 66 <= i) -> at_ (replicate 66 7) i x <-> at_ m' i x).
Proof.
  split; [reflexivity|]. apply (i64toa_radix_prints (replicate 66 7) 0 (-255) 16);
    [unfold in_i64|..]; vm_compute; intuition discriminate.
Defined.

(** The decimal conversion [i32toa], with its 7-digits-at-a-time stores of
    whole 8-byte words, writes exactly the decimal text of every 32-bit integer
    within the 12 bytes its declaration asks for. *)
Theorem i32toa_prints m p n :
  in_i32 n -> 0 <= p -> p + 12 <= zlen m ->
  post (i32toa m p n) (fun '(len, m') =>
    len = zlen (number_text 10 n) /\ block_at m' p (number_text 10 n ++ [0]) /\
    zlen m' = zlen m /\ forall i x, (i < p \/ p + 12 <= i) -> at_ m i x <-> at_ m' i x).
Proof.
  intros Hn Hp Hlen. unfold i32toa.
  apply (sign_case m p 11 10 n _ (fun m => u32toa m (p + 1) (u32 (- u32 n)))); try lia.
  - rewrite zlen_text. pose proof (zlen_to_radix 10 (Z.abs n) 10). unfold in_i32 in *. lia.
  - intros. apply u32toa_stores; unfold in_u32, in_i32 in *; lia.
  - intros. rewrite u32_neg by done. apply u32toa_stores; unfold in_u32, in_i32 in *; lia.
Qed.

Lemma i32toa_prints_witness :
  i32toa (replicate 12 7) 0 (-2147483648)
  = Ret (11, [45; 50; 49; 52; 55; 52; 56; 51; 54; 52; 56; 0]) /\
  post (i32toa (replicate 12 7) 0 (-2147483648)) (fun '(len, m') =>
    len = zlen (number_text 10 (-2147483648)) /\
    block_at m' 0 (number_text 10 (-2147483648) ++ [0]) /\
    zlen m' = zlen (replicate 12 7) /\
    forall i x, (i < 0 \/ 0 + 12 <= i) -> at_ (replicate 12 7) i x <-> at_ m' i x).
Proof.
  split; [reflexivity|]. apply (i32toa_prints (replicate 12 7) 0 (-2147483648));
    [unfold in_i32|..]; vm_compute; intuition discriminate.
Defined.

(** Conversion round trip: the [len] characters that [i64toa_radix] leaves at
    [p] are the text of exactly one number in that base, and reading them back
    yields [n]. *)
Theorem i64toa_radix_roundtrip m p n base :
  in_i64 n -> 2 <= base <= 36 -> 0 <= p -> p + 66 <= zlen m ->
  post (let* (len, m) := i64toa_radix m p n base in rd_slice m p len)
    (fun cs => text_value base cs = n).
Proof.
  intros Hn Hb Hp Hlen. pose proof (i64toa_radix_stored m p n base Hn Hb Hp Hlen) as H.
  apply post_inv in H as ([len m'] & -> & -> & Hbl & Hz & _). cbn [obind].
  pose proof (text_value_number_text base n Hb ltac:(unfold in_i64 in Hn; lia)) as Ht.
  apply block_at_app in Hbl as [Hbl [Hend _]].
  rewrite (rd_slice_block_at _ _ _ Hp Hbl); [exact Ht|].
  apply at_lt in Hend. lia.
Qed.

Lemma i64toa_radix_roundtrip_witness :
  post (let* (len, m) := i64toa_radix (replicate 66 7) 0 (-9223372036854775808) 36 in
        rd_slice m 0 len) (fun cs => text_value 36 cs = -9223372036854775808).
Proof.
  apply (i64toa_radix_roundtrip (replicate 66 7) 0 (-9223372036854775808) 36);
    [unfold in_i64|..]; vm_compute; intuition discriminate.
Defined.
