(* ===== verification/CString.v ===== *)
(** String functions of [cutils.c].

    A C string is the bytes of a block from an offset to the first zero byte.
    [strlen] and [memcmp] are the functions of the C library. *)
From Stdlib Require Import ZArith Lia Bool List.
From stdpp Require Import base tactics list numbers.
From S2P Require Import Prelude.

(** The C library's [strlen(str + p)]. *)
Definition strlen (m : list Z) (p : Z) : outcome Z :=
  iter (S (length m)) (fun q =>
    let* c := rd m q in
    if c =? 0 then Ret (inr (q - p)) else Ret (inl (q + 1))) p.

(** The C library's [memcmp(m1 + p, m2 + q, n) == 0]. *)
Definition memcmp_eq (m1 : list Z) (p : Z) (m2 : list Z) (q n : Z) : outcome bool :=
  let* a := rd_slice m1 p n in
  let* b := rd_slice m2 q n in
  Ret (bool_decide (a = b)).

Definition js__pstrcpy (m : list Z) (buf buf_size : Z) (s : list Z) (str : Z)
    : outcome (list Z) :=
  if buf_size <=? 0 then Ret m
  else
    let* (q, m) := iter (S (length s)) (fun '(str, q, m) =>
      let* c := rd s str in
      if (c =? 0) || (buf + buf_size - 1 <=? q) then Ret (inr (q, m))
      else let* m := wr m q c in Ret (inl (str + 1, q + 1, m))) (str, buf, m) in
    wr m q 0.

Definition js__pstrcat (m : list Z) (buf buf_size : Z) (s : list Z) (str : Z)
    : outcome (list Z) :=
  let* len := strlen m buf in
  if len <? buf_size then js__pstrcpy m (buf + len) (buf_size - len) s str else Ret m.

(** The result and the offset stored in [*ptr] when it is 1. *)
Definition js__strstart (m1 : list Z) (str : Z) (m2 : list Z) (val : Z) : outcome (Z * Z) :=
  iter (S (length m2)) (fun '(p, q) =>
    let* c := rd m2 q in
    if c =? 0 then Ret (inr (1, p))
    else
      let* d := rd m1 p in
      if negb (d =? c) then Ret (inr (0, p)) else Ret (inl (p + 1, q + 1))) (str, val).

Definition js__has_suffix (m1 : list Z) (str : Z) (m2 : list Z) (suffix : Z) : outcome bool :=
  let* len := strlen m1 str in
  let* slen := strlen m2 suffix in
  if slen <=? len then memcmp_eq m1 (str + len - slen) m2 suffix slen else Ret false.

(** * Specification *)

(** The string [s] is at [p] in [m]. *)
Definition cstr_at (m : list Z) (p : Z) (s : list Z) : Prop :=
  block_at m p (s ++ [0]) /\ Forall (fun c => c <> 0) s.

(** * Lemmas *)

Lemma cstr_at_cons m p c s : cstr_at m p (c :: s) <-> at_ m p c /\ c <> 0 /\ cstr_at m (p + 1) s.
Proof.
  unfold cstr_at. cbn [app block_at]. rewrite Forall_cons_iff. tauto.
Qed.

Lemma cstr_at_nil m p : cstr_at m p [] <-> at_ m p 0.
Proof.
  unfold cstr_at. cbn [app block_at]. split; [tauto|]. intros H. by repeat split; try apply H.
Qed.

Lemma cstr_at_bounds m p s : cstr_at m p s -> 0 <= p /\ p + zlen s + 1 <= zlen m.
Proof.
  intros [H _]. apply block_at_le in H; [|by destruct s].
  rewrite zlen_app in H. change (zlen [0]) with 1 in H. lia.
Qed.

Lemma cstr_at_drop m p s t : cstr_at m p (s ++ t) -> cstr_at m (p + zlen s) t.
Proof.
  unfold cstr_at. rewrite <- app_assoc, block_at_app, Forall_app. tauto.
Qed.

Lemma strlen_eq m p s : cstr_at m p s -> strlen m p = Ret (zlen s).
Proof.
  intros H. unfold strlen.
  cut (forall fuel q, cstr_at m q s -> (length s < fuel)%nat ->
    iter fuel (fun q => let* c := rd m q in
      if c =? 0 then Ret (inr (q - p)) else Ret (inl (q + 1))) q = Ret (q + zlen s - p)).
  { intros Hc. rewrite (Hc _ p H); [f_equal; lia|]. apply cstr_at_bounds in H. unfold zlen in *. lia. }
  clear H. induction s as [|c s IH]; intros fuel q H Hf; (destruct fuel as [|fuel]; [cbn in Hf; lia|]);
    cbn [iter].
  - rewrite cstr_at_nil in H. rewrite (rd_at _ _ _ H). cbn [obind Z.eqb]. f_equal.
    change (zlen []) with 0. lia.
  - apply cstr_at_cons in H as (H & Hc & Hs). rewrite (rd_at _ _ _ H). cbn [obind].
    decide_ifs lia. cbn [obind]. rewrite (IH fuel (q + 1) Hs) by (cbn [length] in Hf; lia).
    rewrite zlen_cons. f_equal. lia.
Qed.

(** The copy loop stores a prefix of the string. *)
Lemma pstrcpy_loop fuel m q lim s str cs :
  cstr_at s str cs -> (length cs < fuel)%nat -> 0 <= q <= lim -> lim < zlen m ->
  let t := take (Z.to_nat (lim - q)) cs in
  exists m', wr_slice m q t = Ret m' /\
  iter fuel (fun '(str, q, m) =>
      let* c := rd s str in
      if (c =? 0) || (lim <=? q) then Ret (inr (q, m))
      else let* m := wr m q c in Ret (inl (str + 1, q + 1, m))) (str, q, m)
  = Ret (q + zlen t, m').
Proof.
  intros Hs Hf Hq Hlim. revert fuel m q str Hs Hf Hq Hlim.
  induction cs as [|c cs IH]; intros fuel m q str Hs Hf Hq Hlim;
    (destruct fuel as [|fuel]; [cbn in Hf; lia|]); cbn [iter].
  - rewrite cstr_at_nil in Hs. rewrite (rd_at _ _ _ Hs). cbn [obind Z.eqb orb].
    rewrite take_nil, wr_slice_nil by lia. change (zlen []) with 0. eexists. split; [done|].
    by rewrite Z.add_0_r.
  - apply cstr_at_cons in Hs as (H & Hc & Hs). rewrite (rd_at _ _ _ H). cbn [obind].
    destruct (Z.leb_spec lim q) as [Hle|Hlt].
    + rewrite orb_true_r. cbn [obind]. replace (Z.to_nat (lim - q)) with 0%nat by lia.
      cbn [take]. rewrite wr_slice_nil by lia. change (zlen []) with 0. eexists.
      split; [done|]. by rewrite Z.add_0_r.
    + decide_ifs lia. rewrite wr_in by lia. cbn [obind].
      replace (Z.to_nat (lim - q)) with (S (Z.to_nat (lim - (q + 1)))) by lia. cbn [take].
      rewrite wr_slice_cons, wr_in by lia. cbn [obind].
      destruct (IH fuel (<[Z.to_nat q:=c]> m) (q + 1) (str + 1) Hs) as (m' & Hw & HI);
        [cbn [length] in Hf; lia|lia|rewrite zlen_insert; lia|].
      exists m'. split; [exact Hw|]. etrans; [exact HI|]. rewrite zlen_cons. do 2 f_equal. lia.
Qed.

Lemma js__pstrcpy_eq m buf buf_size s str cs :
  cstr_at s str cs -> 0 < buf_size -> 0 <= buf -> buf + buf_size <= zlen m ->
  js__pstrcpy m buf buf_size s str
  = wr_slice m buf (take (Z.to_nat (buf_size - 1)) cs ++ [0]).
Proof.
  intros Hs Hn Hb Hm. unfold js__pstrcpy. decide_ifs lia.
  assert (length cs < S (length s))%nat as Hf
    by (apply cstr_at_bounds in Hs; unfold zlen in *; lia).
  destruct (pstrcpy_loop (S (length s)) m buf (buf + buf_size - 1) s str cs Hs Hf)
    as (m' & Hw & HI); [lia|lia|]. rewrite HI. cbn [obind].
  replace (buf + buf_size - 1 - buf) with (buf_size - 1) in * by lia.
  set (t := take _ cs) in *.
  assert (zlen t <= buf_size - 1) by (unfold t, zlen; rewrite length_take; lia).
  destruct (wr_slice_block _ _ _ _ Hw) as [_ Hz]. pose proof (zlen_nonneg t).
  rewrite wr_slice_1 by lia. apply (wr_slice_overlay m m' buf t [] [0]);
    [by rewrite app_nil_r|done|change (zlen [0]) with 1; lia].
Qed.

Lemma Forall_take {A : Type} (P : A -> Prop) n l : Forall P l -> Forall P (take n l).
Proof. intros H. rewrite <- (take_drop n l) in H. by apply Forall_app in H as [? _]. Qed.

Lemma js__strstart_prefix m1 str m2 val a b :
  cstr_at m1 str a -> cstr_at m2 val b ->
  exists r p, js__strstart m1 str m2 val = Ret (r, p) /\
    (r = 1 /\ p = str + zlen b /\ (exists k, a = b ++ k) \/
     r = 0 /\ ~ exists k, a = b ++ k).
Proof.
  intros Ha Hb. unfold js__strstart.
  assert (length b < S (length m2))%nat as Hf
    by (apply cstr_at_bounds in Hb; unfold zlen in *; lia).
  revert Hf. generalize (S (length m2)) as fuel.
  revert a str val Ha Hb. induction b as [|c b IH]; intros a str val Ha Hb fuel Hf;
    (destruct fuel as [|fuel]; [cbn in Hf; lia|]); cbn [iter].
  - rewrite cstr_at_nil in Hb. rewrite (rd_at _ _ _ Hb). cbn [obind Z.eqb]. do 2 eexists.
    split; [done|]. left. change (zlen []) with 0. split; [done|]. split; [lia|]. by exists a.
  - apply cstr_at_cons in Hb as (H & Hc & Hb). rewrite (rd_at _ _ _ H). cbn [obind].
    decide_ifs lia. destruct a as [|d a].
    + rewrite cstr_at_nil in Ha. rewrite (rd_at _ _ _ Ha). cbn [obind]. decide_ifs lia.
      cbn [obind]. do 2 eexists. split; [done|]. right. split; [done|]. by intros [k [=]].
    + apply cstr_at_cons in Ha as (Hd & _ & Ha). rewrite (rd_at _ _ _ Hd). cbn [obind].
      destruct (Z.eqb_spec d c) as [->|Hne]; cbn [negb obind].
      * destruct (IH a (str + 1) (val + 1) Ha Hb fuel) as (r & p & -> & Hr);
          [cbn [length] in Hf; lia|].
        do 2 eexists. split; [done|]. destruct Hr as [(-> & -> & k & ->)|[-> Hn]]; [left|right].
        -- rewrite zlen_cons. split; [done|]. split; [lia|]. by exists k.
        -- split; [done|]. intros [k [= ->]]. apply Hn. by exists k.
      * do 2 eexists. split; [done|]. right. split; [done|]. by intros [k [= ->]].
Qed.

Lemma js__has_suffix_suffix m1 str m2 suffix a b :
  cstr_at m1 str a -> cstr_at m2 suffix b ->
  exists r, js__has_suffix m1 str m2 suffix = Ret r /\ (r = true <-> exists k, a = k ++ b).
Proof.
  intros Ha Hb. unfold js__has_suffix. rewrite (strlen_eq _ _ _ Ha), (strlen_eq _ _ _ Hb).
  cbn [obind]. destruct (Z.leb_spec (zlen b) (zlen a)) as [Hle|Hgt].
  - assert (exists h t, a = h ++ t /\ zlen t = zlen b) as (h & t & -> & Hl).
    { exists (take (length a - length b) a), (drop (length a - length b) a).
      split; [by rewrite take_drop|]. unfold zlen in *. rewrite length_drop. lia. }
    pose proof (cstr_at_bounds _ _ _ Hb). apply cstr_at_drop in Ha.
    pose proof (cstr_at_bounds _ _ _ Ha).
    destruct Ha as [Ha _]. apply block_at_app in Ha as [Ha _].
    destruct Hb as [Hb _]. apply block_at_app in Hb as [Hb _].
    unfold memcmp_eq. rewrite zlen_app.
    replace (str + (zlen h + zlen t) - zlen b) with (str + zlen h) by lia.
    assert (rd_slice m1 (str + zlen h) (zlen b) = Ret t) as ->
      by (rewrite <- Hl; apply rd_slice_block_at; (done || lia)).
    cbn [obind]. rewrite (rd_slice_block_at m2 suffix b) by (done || lia). cbn [obind].
    eexists. split; [done|]. rewrite bool_decide_eq_true. split; [intros ->; by exists h|].
    intros [k Hk]. apply app_inj_2 in Hk as [_ ?]; [done|]. unfold zlen in Hl. lia.
  - eexists. split; [done|]. split; [done|]. intros [k ->]. rewrite zlen_app in Hgt.
    pose proof (zlen_nonneg k). lia.
Qed.

(** ** Properties *)

(** [js__pstrcat] appends to the string in a buffer of [buf_size] bytes as
    much of another string as leaves room for the terminator, always leaves a
    terminated string in the buffer, and writes only inside it. *)
Theorem js__pstrcat_spec m buf buf_size s str a b :
  cstr_at m buf a -> cstr_at s str b -> zlen a < buf_size -> buf + buf_size <= zlen m ->
  post (js__pstrcat m buf buf_size s str) (fun m' =>
    cstr_at m' buf (a ++ take (Z.to_nat (buf_size - 1 - zlen a)) b) /\
    zlen m' = zlen m /\
    forall i x, (i < buf + zlen a \/ buf + buf_size <= i) -> at_ m i x <-> at_ m' i x).
Proof.
  intros Ha Hb Hlen Hm. unfold js__pstrcat. rewrite (strlen_eq _ _ _ Ha). cbn [obind].
  decide_ifs lia. pose proof (cstr_at_bounds _ _ _ Ha). pose proof (zlen_nonneg a).
  rewrite (js__pstrcpy_eq m _ _ s str b) by (done || lia).
  replace (buf_size - zlen a - 1) with (buf_size - 1 - zlen a) by lia.
  set (t := take _ b).
  assert (zlen t <= buf_size - 1 - zlen a) by (unfold t, zlen in *; rewrite length_take; lia).
  destruct (wr_slice_exists m (buf + zlen a) (t ++ [0])) as [m' Hm'];
    [lia|rewrite zlen_app; change (zlen [0]) with 1; lia|].
  rewrite Hm'. apply post_ret. destruct (wr_slice_block _ _ _ _ Hm') as [Hbl Hz].
  assert (forall i x, (i < buf + zlen a \/ buf + buf_size <= i) -> at_ m i x <-> at_ m' i x) as Hout.
  { intros i x Hi. eapply wr_slice_outside; [exact Hm'|].
    rewrite zlen_app. change (zlen [0]) with 1. lia. }
  split; [|done]. destruct Ha as [Ha Hna]. split.
  - rewrite <- app_assoc. apply block_at_app. split; [|done].
    apply block_at_app in Ha as [Ha _].
    eapply (block_at_transport m m' buf); [exact Ha|]. intros i x Hi. apply Hout. lia.
  - apply Forall_app. split; [done|]. apply Forall_take. apply Hb.
Qed.

Lemma js__pstrcat_spec_witness :
  js__pstrcat [104; 105; 0; 7; 7; 9] 0 5 [33; 33; 33; 0] 0 = Ret [104; 105; 33; 33; 0; 9] /\
  post (js__pstrcat [104; 105; 0; 7; 7; 9] 0 5 [33; 33; 33; 0] 0) (fun m' =>
    cstr_at m' 0 ([104; 105] ++ take (Z.to_nat (5 - 1 - zlen [104; 105])) [33; 33; 33]) /\
    zlen m' = zlen [104; 105; 0; 7; 7; 9] /\
    forall i x, (i < 0 + zlen [104; 105] \/ 0 + 5 <= i) ->
      at_ [104; 105; 0; 7; 7; 9] i x <-> at_ m' i x).
Proof.
  split; [reflexivity|].
  apply (js__pstrcat_spec [104; 105; 0; 7; 7; 9] 0 5 [33; 33; 33; 0] 0 [104; 105] [33; 33; 33]);
    [..|vm_compute; done|vm_compute; done];
    (split; [cbn; repeat split; vm_compute; done|repeat constructor; discriminate]).
Defined.

(** [js__strstart] answers 1 exactly when the second string is a prefix of
    the first, with [*ptr] after the prefix, and [js__has_suffix] answers
    whether it is a suffix; neither reads outside the two strings. *)
Theorem strstart_has_suffix_spec m1 str m2 val a b :
  cstr_at m1 str a -> cstr_at m2 val b ->
  (exists r p, js__strstart m1 str m2 val = Ret (r, p) /\
    (r = 1 /\ p = str + zlen b /\ (exists k, a = b ++ k) \/
     r = 0 /\ ~ exists k, a = b ++ k)) /\
  (exists r, js__has_suffix m1 str m2 val = Ret r /\ (r = true <-> exists k, a = k ++ b)).
Proof.
  intros Ha Hb. split.
  - by apply js__strstart_prefix.
  - by apply js__has_suffix_suffix.
Qed.

Lemma strstart_has_suffix_spec_witness :
  cstr_at [97; 98; 99; 0] 0 [97; 98; 99] /\ cstr_at [98; 99; 0] 0 [98; 99] /\
  (exists r p, js__strstart [97; 98; 99; 0] 0 [98; 99; 0] 0 = Ret (r, p) /\
    (r = 1 /\ p = 0 + zlen [98; 99] /\ (exists k, [97; 98; 99] = [98; 99] ++ k) \/
     r = 0 /\ ~ exists k, [97; 98; 99] = [98; 99] ++ k)) /\
  (exists r, js__has_suffix [97; 98; 99; 0] 0 [98; 99; 0] 0 = Ret r /\
    (r = true <-> exists k, [97; 98; 99] = k ++ [98; 99])).
Proof.
  assert (cstr_at [97; 98; 99; 0] 0 [97; 98; 99]) as Ha
    by (split; [cbn; repeat split; vm_compute; done|repeat constructor; discriminate]).
  assert (cstr_at [98; 99; 0] 0 [98; 99]) as Hb
    by (split; [cbn; repeat split; vm_compute; done|repeat constructor; discriminate]).
  split; [exact Ha|]. split; [exact Hb|]. apply (strstart_has_suffix_spec _ _ _ _ _ _ Ha Hb).
Defined.
