(* ===== verification/DynBuf.v ===== *)
(** The dynamic byte buffer of [cutils.c].

    [buf] is the allocated block, so [allocated_size] is its length in a
    well-formed buffer; the first [size] bytes are the contents.  The fields
    [realloc_func] and [opaque] are the allocator instance and its state [h],
    which the operations take and return beside the buffer and the C result. *)
From Stdlib Require Import ZArith Lia Bool List.
From stdpp Require Import base tactics list numbers.
From S2P Require Import Prelude Alloc CString.

Record DynBuf := mkDynBuf {
  buf : list Z;
  size : Z;
  allocated_size : Z;
  error : bool
}.

(** [memcpy(buf + dst, buf + src, len)]: the ranges must not overlap. *)
Definition memcpy_self (m : list Z) (dst src len : Z) : outcome (list Z) :=
  if (0 <? len) && (src <? dst + len) && (dst <? src + len) then Err OutOfBounds
  else let* d := rd_slice m src len in wr_slice m dst d.

Section DynBuf.
Context `{AL : Allocator}.

Definition dbuf_init : DynBuf := mkDynBuf [] 0 0 false.

Definition dbuf_realloc (h : heap) (s : DynBuf) (new_size : Z) : heap * DynBuf * Z :=
  if allocated_size s <? new_size then
    if error s then (h, s, -1)
    else
      let sz := u64 (allocated_size s * 3) / 2 in
      let new_size := if new_size <? sz then sz else new_size in
      match realloc 1 u8 h (buf s) new_size with
      | (h, None) => (h, mkDynBuf (buf s) (size s) (allocated_size s) true, -1)
      | (h, Some new_buf) => (h, mkDynBuf new_buf (size s) new_size (error s), 0)
      end
  else (h, s, 0).

Definition dbuf_write (h : heap) (s : DynBuf) (offset : Z) (data : list Z)
    : outcome (heap * DynBuf * Z) :=
  let e := u64 (offset + zlen data) in
  let '(h, s, r) := dbuf_realloc h s e in
  if negb (r =? 0) then Ret (h, s, -1)
  else
    let* b := wr_slice (buf s) offset data in
    let sz := if size s <? e then e else size s in
    Ret (h, mkDynBuf b sz (allocated_size s) (error s), 0).

Definition dbuf_put (h : heap) (s : DynBuf) (data : list Z) : outcome (heap * DynBuf * Z) :=
  let len := zlen data in
  let '(h, s, r) :=
    if allocated_size s <? u64 (size s + len) then dbuf_realloc h s (u64 (size s + len))
    else (h, s, 0) in
  if negb (r =? 0) then Ret (h, s, -1)
  else if 0 <? len then
    let* b := wr_slice (buf s) (size s) data in
    Ret (h, mkDynBuf b (size s + len) (allocated_size s) (error s), 0)
  else Ret (h, s, 0).

Definition dbuf_put_self (h : heap) (s : DynBuf) (offset len : Z)
    : outcome (heap * DynBuf * Z) :=
  let '(h, s, r) :=
    if allocated_size s <? u64 (size s + len) then dbuf_realloc h s (u64 (size s + len))
    else (h, s, 0) in
  if negb (r =? 0) then Ret (h, s, -1)
  else
    let* b := memcpy_self (buf s) (size s) offset len in
    Ret (h, mkDynBuf b (size s + len) (allocated_size s) (error s), 0).

Definition dbuf_putc (h : heap) (s : DynBuf) (c : Z) : outcome (heap * DynBuf * Z) :=
  dbuf_put h s [u8 c].

Definition dbuf_put_u16 (h : heap) (s : DynBuf) (val : Z) : outcome (heap * DynBuf * Z) :=
  dbuf_put h s (le_bytes 2 (u16 val)).

Definition dbuf_put_u32 (h : heap) (s : DynBuf) (val : Z) : outcome (heap * DynBuf * Z) :=
  dbuf_put h s (le_bytes 4 (u32 val)).

Definition dbuf_put_u64 (h : heap) (s : DynBuf) (val : Z) : outcome (heap * DynBuf * Z) :=
  dbuf_put h s (le_bytes 8 (u64 val)).

(** [dbuf_putstr(s, m + p)]. *)
Definition dbuf_putstr (h : heap) (s : DynBuf) (m : list Z) (p : Z)
    : outcome (heap * DynBuf * Z) :=
  let* len := strlen m p in
  let* str := rd_slice m p len in
  dbuf_put h s str.

(** [dbuf_printf] for a format and arguments whose formatted text is [txt];
    [vsnprintf] stores what fits before a terminator and returns the length
    of the text. *)
Definition vsnprintf (m : list Z) (p n : Z) (txt : list Z) : outcome (list Z) :=
  if n <=? 0 then Ret m else wr_slice m p (take (Z.to_nat (n - 1)) txt ++ [0]).

Definition dbuf_printf (h : heap) (s : DynBuf) (txt : list Z) : outcome (heap * DynBuf * Z) :=
  let len := zlen txt in
  if len <? 128 then dbuf_put h s txt
  else
    let '(h, s, r) := dbuf_realloc h s (u64 (size s + len + 1)) in
    if negb (r =? 0) then Ret (h, s, -1)
    else
      let* b := vsnprintf (buf s) (size s) (allocated_size s - size s) txt in
      Ret (h, mkDynBuf b (size s + len) (allocated_size s) (error s), 0).

Definition dbuf_error (s : DynBuf) : bool := error s.

Definition dbuf_set_error (s : DynBuf) : DynBuf :=
  mkDynBuf (buf s) (size s) (allocated_size s) true.

(** [dbuf_free]: the block is released and the fields zeroed. *)
Definition dbuf_free (s : DynBuf) : DynBuf := mkDynBuf [] 0 0 false.
End DynBuf.

(** * Specification *)

Definition contents (s : DynBuf) : list Z := take (Z.to_nat (size s)) (buf s).

(** The fields agree with the block. *)
Definition dbuf_wf (s : DynBuf) : Prop :=
  0 <= size s <= allocated_size s /\ zlen (buf s) = allocated_size s /\ allocated_size s < 2 ^ 63.

(** The calls a client makes, and what they mean for the contents. *)
Inductive dbuf_op :=
  | OpPut (data : list Z)
  | OpPutSelf (offset len : Z)
  | OpWrite (offset : Z) (data : list Z)
  | OpPrintf (txt : list Z).

(** The bytes [bs] stored at [offset] over [c]. *)
Definition patch (c : list Z) (offset : Z) (bs : list Z) : list Z :=
  take (Z.to_nat offset) c ++ bs ++ drop (Z.to_nat (offset + zlen bs)) c.

Definition spec_op (c : list Z) (op : dbuf_op) : list Z :=
  match op with
  | OpPut data => c ++ data
  | OpPutSelf offset len => c ++ take (Z.to_nat len) (drop (Z.to_nat offset) c)
  | OpWrite offset data => patch c offset data
  | OpPrintf txt => c ++ txt
  end.

Definition valid_op (c : list Z) (op : dbuf_op) : Prop :=
  match op with
  | OpPut data => zlen data < 2 ^ 62
  | OpPutSelf offset len => 0 <= offset /\ 0 <= len /\ offset + len <= zlen c
  | OpWrite offset data => 0 <= offset <= zlen c /\ zlen data < 2 ^ 62
  | OpPrintf txt => zlen txt < 2 ^ 31
  end.

Fixpoint valid_ops (c : list Z) (ops : list dbuf_op) : Prop :=
  match ops with
  | [] => True
  | op :: ops => valid_op c op /\ valid_ops (spec_op c op) ops
  end.

Section Run.
Context `{AL : Allocator}.

Definition run_op (h : heap) (s : DynBuf) (op : dbuf_op) : outcome (heap * DynBuf * Z) :=
  match op with
  | OpPut data => dbuf_put h s data
  | OpPutSelf offset len => dbuf_put_self h s offset len
  | OpWrite offset data => dbuf_write h s offset data
  | OpPrintf txt => dbuf_printf h s txt
  end.

(** A client that stops at the first call that fails. *)
Fixpoint run_ops (h : heap) (s : DynBuf) (ops : list dbuf_op) : outcome (heap * DynBuf * Z) :=
  match ops with
  | [] => Ret (h, s, 0)
  | op :: ops =>
      let* (h, s, r) := run_op h s op in
      if r =? 0 then run_ops h s ops else Ret (h, s, r)
  end.

(** A client that only looks at the error flag in the end. *)
Fixpoint put_all (h : heap) (s : DynBuf) (chunks : list (list Z)) : outcome (heap * DynBuf) :=
  match chunks with
  | [] => Ret (h, s)
  | data :: chunks => let* (h, s, _) := dbuf_put h s data in put_all h s chunks
  end.
End Run.

(** * Lemmas *)

Lemma zlen_contents s : dbuf_wf s -> zlen (contents s) = size s.
Proof. intros (Hs & Hb & _). unfold contents. apply zlen_take. lia. Qed.

(** Storing [data] at [offset] in the contents and extending [size] over it. *)
Lemma contents_patch b b' sz offset data :
  wr_slice b offset data = Ret b' -> 0 <= sz <= zlen b -> 0 <= offset <= sz ->
  take (Z.to_nat (Z.max sz (offset + zlen data))) b' = patch (take (Z.to_nat sz) b) offset data.
Proof.
  intros Hw Hsz Hoff. apply wr_slice_Ret in Hw as (a & e & r & -> & <- & Hl & ->).
  unfold patch, zlen in *. rewrite Nat2Z.id. rewrite !length_app in Hsz.
  rewrite take_take, Nat.min_l, take_app_length by lia.
  replace (Z.to_nat (Z.max _ _)) with (length a + (length data + (Z.to_nat sz - length a - length data)))%nat
    by lia.
  rewrite take_app_add, take_app_add. do 2 f_equal.
  destruct (Nat.le_gt_cases (length a + length data) (Z.to_nat sz)).
  - replace (Z.to_nat sz) with (length a + (length e + (Z.to_nat sz - length a - length data)))%nat by lia.
    rewrite take_app_add, take_app_add.
    replace (Z.to_nat (_ + _)) with (length a + (length e + 0))%nat by lia.
    rewrite drop_app_add, drop_app_add, drop_0. f_equal. lia.
  - replace (Z.to_nat sz - length a - length data)%nat with 0%nat by lia. cbn [take].
    rewrite drop_ge; [done|]. rewrite length_take. lia.
Qed.

Lemma patch_end c sz data : sz = zlen c -> patch c sz data = c ++ data.
Proof.
  intros ->. unfold patch. pose proof (zlen_nonneg data). unfold zlen in *. rewrite Nat2Z.id, firstn_all.
  rewrite (drop_ge c) by lia. by rewrite app_nil_r.
Qed.

Section Lemmas.
Context `{AL : Allocator}.

Lemma dbuf_realloc_spec h s n :
  dbuf_wf s -> 0 <= n < 2 ^ 64 ->
  let '(h', s', r) := dbuf_realloc h s n in
  dbuf_wf s' /\ contents s' = contents s /\ size s' = size s /\
  (r = 0 /\ n <= allocated_size s' /\ error s' = error s \/ r = -1 /\ error s' = true).
Proof.
  intros (Hs & Hb & Ha) Hn. unfold dbuf_realloc.
  destruct (Z.ltb_spec (allocated_size s) n) as [Hlt|Hge]; [|repeat split; (lia || done || auto)].
  destruct (error s) eqn:Ee; [repeat split; (lia || done || auto)|].
  set (n' := if n <? _ then _ else _).
  assert (n <= n') by (unfold n'; destruct (Z.ltb_spec n (u64 (allocated_size s * 3) / 2)); lia).
  destruct (realloc 1 u8 h (buf s) n') as [h' [b|]] eqn:Er.
  - apply realloc_Some in Er as (Hz & Hmax & Ht); [|lia]. unfold dbuf_wf, contents. cbn.
    rewrite Z.mul_1_r in Hmax. split; [repeat split; lia|]. split; [|repeat split; left; auto].
    apply (f_equal (take (Z.to_nat (size s)))) in Ht. rewrite !take_take in Ht.
    rewrite !Nat.min_l in Ht by lia. done.
  - unfold dbuf_wf. cbn. repeat split; (lia || done || auto).
Qed.

(** A store in the block, followed by the update of [size]. *)
Lemma store_spec (h : heap) s offset data :
  dbuf_wf s -> 0 <= offset <= size s -> offset + zlen data <= allocated_size s ->
  post (let* b := wr_slice (buf s) offset data in
        Ret (h, mkDynBuf b (Z.max (size s) (offset + zlen data)) (allocated_size s) (error s), 0))
    (fun '(h', s', r) =>
      dbuf_wf s' /\ r = 0 /\ contents s' = patch (contents s) offset data /\ error s' = error s).
Proof.
  intros (Hs & Hb & Ha) Hoff Hlen.
  destruct (wr_slice_exists (buf s) offset data) as [b Hw]; [lia|lia|].
  rewrite Hw. cbn [obind post]. destruct (wr_slice_block _ _ _ _ Hw) as [_ Hz].
  unfold dbuf_wf, contents. cbn [buf size allocated_size error].
  split; [lia|]. split; [done|]. split; [|done]. by apply contents_patch; [|lia|].
Qed.

(** What a call that appends [data] may do. *)
Definition appends (s : DynBuf) (data : list Z) (x : heap * DynBuf * Z) : Prop :=
  let '(_, s', r) := x in
  dbuf_wf s' /\
  (r = 0 /\ contents s' = contents s ++ data /\ error s' = error s \/
   r = -1 /\ contents s' = contents s /\ error s' = true).

Lemma grow_spec h s n :
  dbuf_wf s -> 0 <= n < 2 ^ 64 ->
  let '(h', s', r) :=
    if allocated_size s <? n then dbuf_realloc h s n else (h, s, 0) in
  dbuf_wf s' /\ contents s' = contents s /\ size s' = size s /\
  (r = 0 /\ n <= allocated_size s' /\ error s' = error s \/ r = -1 /\ error s' = true).
Proof.
  intros Hwf Hn. destruct (Z.ltb_spec (allocated_size s) n); [by apply dbuf_realloc_spec|].
  repeat split; (done || apply Hwf || auto).
Qed.

Lemma dbuf_put_appends h s data :
  dbuf_wf s -> zlen data < 2 ^ 63 -> post (dbuf_put h s data) (appends s data).
Proof.
  intros Hwf Hd. pose proof Hwf as (Hs & Hb & Ha). pose proof (zlen_nonneg data).
  unfold dbuf_put. rewrite u64_id by (unfold in_u64; lia).
  pose proof (grow_spec h s (size s + zlen data) Hwf ltac:(lia)) as Hg.
  destruct (if _ <? _ then _ else _) as [[h1 s1] r1].
  destruct Hg as (Hwf1 & Hc & Hsz & [(-> & Hal & He)|[-> He]]).
  - cbn [Z.eqb negb]. destruct (Z.ltb_spec 0 (zlen data)) as [Hpos|Hz].
    + pose proof (store_spec h1 s1 (size s1) data Hwf1) as Hst.
      replace (Z.max (size s1) (size s1 + zlen data)) with (size s1 + zlen data) in Hst by lia.
      eapply post_mono; [apply Hst; lia|]. intros [[h2 s2] r2] (Hwf2 & -> & Hp & He2).
      split; [done|]. left. rewrite Hp, Hc, Hsz, patch_end by (by rewrite zlen_contents).
      split; [done|]. split; [done|congruence].
    + destruct data; [|rewrite zlen_cons in Hz; pose proof (zlen_nonneg data); lia].
      split; [done|]. left. rewrite app_nil_r. done.
  - apply post_ret. split; [done|]. right. done.
Qed.

(** A call fails after an earlier failure, when the allocator refuses the block,
    or when the block is larger than any can be. *)
Lemma dbuf_realloc_fails h s n :
  dbuf_wf s -> 0 <= n ->
  let '(_, s', r) := dbuf_realloc h s n in
  r = 0 /\ error s' = error s \/ r = -1 /\ (error s = true \/ can_refuse \/ 2 ^ 63 <= n).
Proof.
  intros (Hs & Hb & Ha) Hn. unfold dbuf_realloc. destruct (allocated_size s <? n); [|by left].
  destruct (error s) eqn:Ee; [right; auto|]. set (sz := u64 _ / 2). cbv zeta.
  assert (0 <= sz < 2 ^ 63) as Hsz.
  { pose proof (Z.mod_pos_bound (allocated_size s * 3) (2 ^ 64) ltac:(lia)). unfold sz, u64. Z.to_euclidean_division_equations; lia. }
  destruct (realloc 1 u8 h (buf s) (if n <? sz then sz else n)) as [h' [b|]] eqn:Er; [by left|right].
  split; [done|]. right. unfold realloc in Er. destruct (heap_alloc h _) as [h1 [fresh|]] eqn:Eh.
  - right. destruct (Z.ltb_spec ((if n <? sz then sz else n) * 1) (2 ^ 63)); [done|]. destruct (Z.ltb_spec n sz); lia.
  - left. eexists _, h. unfold refuses. by rewrite Eh.
Qed.

Lemma dbuf_put_fails h s data :
  dbuf_wf s -> zlen data < 2 ^ 63 ->
  post (dbuf_put h s data) (fun '(_, s', _) => appends s data (h, s', 0) \/
    appends s data (h, s', -1) /\ (error s = true \/ can_refuse \/ 2 ^ 63 <= zlen (contents s) + zlen data)).
Proof.
  intros Hwf Hd. pose proof Hwf as (Hs & Hb & Ha). pose proof (zlen_nonneg data). rewrite zlen_contents by done.
  pose proof (dbuf_put_appends h s data Hwf Hd) as Hp. apply post_inv in Hp as ([[h' s'] r] & E & Hp).
  rewrite E. cbn [post]. unfold dbuf_put in E. rewrite u64_id in E by (unfold in_u64; lia).
  pose proof (dbuf_realloc_fails h s (size s + zlen data) Hwf ltac:(lia)) as Hf.
  destruct Hp as [Hw [(-> & Hp)|(-> & Hp)]]; [left; split; [done|by left]|right]. split; [split; [done|by right]|].
  destruct (allocated_size s <? size s + zlen data); [destruct (dbuf_realloc h s _) as [[h1 s1] r1]|];
    [destruct Hf as [[-> _]|[_ Hf]]; [|exact Hf]|]; cbn [Z.eqb negb] in E;
    (destruct (0 <? zlen data); [destruct (wr_slice _ _ _)|]; done).
Qed.

Lemma rd_contents s offset len :
  dbuf_wf s -> 0 <= offset -> 0 <= len -> offset + len <= size s ->
  rd_slice (buf s) offset len
  = Ret (take (Z.to_nat len) (drop (Z.to_nat offset) (contents s))).
Proof.
  intros (Hs & Hb & _) Ho Hl Hlen. rewrite rd_slice_in by lia. f_equal. unfold contents.
  rewrite skipn_firstn_comm, take_take. f_equal. lia.
Qed.

Lemma dbuf_put_self_appends h s offset len :
  dbuf_wf s -> 0 <= offset -> 0 <= len -> offset + len <= size s ->
  post (dbuf_put_self h s offset len)
    (appends s (take (Z.to_nat len) (drop (Z.to_nat offset) (contents s)))).
Proof.
  intros Hwf Ho Hl Hlen. pose proof Hwf as (Hs & Hb & Ha).
  unfold dbuf_put_self. rewrite u64_id by (unfold in_u64; lia).
  pose proof (grow_spec h s (size s + len) Hwf ltac:(lia)) as Hg.
  destruct (if _ <? _ then _ else _) as [[h1 s1] r1].
  destruct Hg as (Hwf1 & Hc & Hsz & [(-> & Hal & He)|[-> He]]).
  - cbn [Z.eqb negb]. unfold memcpy_self.
    replace ((0 <? len) && (offset <? size s1 + len) && (size s1 <? offset + len)) with false by lia.
    rewrite rd_contents, Hc by (done || lia). cbn [obind].
    set (data := take _ (drop _ _)).
    assert (zlen data = len) as Hd.
    { unfold data, zlen. rewrite length_take, length_drop. pose proof (zlen_contents s Hwf).
      unfold zlen in *. lia. }
    pose proof (store_spec h1 s1 (size s1) data Hwf1 ltac:(destruct Hwf1; lia) ltac:(lia)) as Hst.
    replace (Z.max (size s1) (size s1 + zlen data)) with (size s1 + len) in Hst by lia.
    eapply post_mono; [exact Hst|]. intros [[h2 s2] r2] (Hwf2 & -> & Hp & He2).
    split; [done|]. left. rewrite Hp, Hc, Hsz, patch_end by (by rewrite zlen_contents).
    split; [done|]. split; [done|congruence].
  - apply post_ret. split; [done|]. by right.
Qed.

Lemma dbuf_write_patches h s offset data :
  dbuf_wf s -> 0 <= offset <= size s -> zlen data < 2 ^ 62 ->
  post (dbuf_write h s offset data) (fun '(h', s', r) => dbuf_wf s' /\
    (r = 0 /\ contents s' = patch (contents s) offset data /\ error s' = error s \/
     r = -1 /\ contents s' = contents s /\ error s' = true)).
Proof.
  intros Hwf Ho Hd. pose proof Hwf as (Hs & Hb & Ha). pose proof (zlen_nonneg data).
  unfold dbuf_write. rewrite u64_id by (unfold in_u64; lia).
  pose proof (dbuf_realloc_spec h s (offset + zlen data) Hwf ltac:(lia)) as Hg.
  destruct (dbuf_realloc _ _ _) as [[h1 s1] r1].
  destruct Hg as (Hwf1 & Hc & Hsz & [(-> & Hal & He)|[-> He]]).
  - cbn [Z.eqb negb].
    pose proof (store_spec h1 s1 offset data Hwf1 ltac:(lia) ltac:(lia)) as Hst.
    replace (Z.max (size s1) (offset + zlen data))
      with (if size s1 <? offset + zlen data then offset + zlen data else size s1) in Hst
      by (destruct (Z.ltb_spec (size s1) (offset + zlen data)); lia).
    eapply post_mono; [exact Hst|]. intros [[h2 s2] r2] (Hwf2 & -> & Hp & He2).
    split; [done|]. left. rewrite Hp, Hc. split; [done|]. split; [done|congruence].
  - apply post_ret. split; [done|]. by right.
Qed.

Lemma dbuf_printf_appends h s txt :
  dbuf_wf s -> zlen txt < 2 ^ 31 -> post (dbuf_printf h s txt) (appends s txt).
Proof.
  intros Hwf Hd. unfold dbuf_printf. destruct (Z.ltb_spec (zlen txt) 128) as [Hlt|Hge].
  { apply dbuf_put_appends; [done|lia]. }
  pose proof Hwf as (Hs & Hb & Ha). rewrite u64_id by (unfold in_u64; lia).
  pose proof (dbuf_realloc_spec h s (size s + zlen txt + 1) Hwf ltac:(lia)) as Hg.
  destruct (dbuf_realloc _ _ _) as [[h1 s1] r1].
  destruct Hg as (Hwf1 & Hc & Hsz & [(-> & Hal & He)|[-> He]]).
  - cbn [Z.eqb negb]. pose proof Hwf1 as (Hs1 & Hb1 & Ha1). unfold vsnprintf.
    replace (_ <=? 0) with false by lia.
    replace (take _ txt) with txt by (symmetry; apply take_ge; unfold zlen in *; lia).
    destruct (wr_slice_exists (buf s1) (size s1) (txt ++ [0])) as [b Hw];
      [lia|rewrite zlen_app; change (zlen [0]) with 1; lia|].
    rewrite Hw. apply post_ret. destruct (wr_slice_block _ _ _ _ Hw) as [_ Hz].
    pose proof (contents_patch _ _ (size s1) _ _ Hw ltac:(lia) ltac:(lia)) as Hp.
    fold (contents s1) in Hp. rewrite patch_end in Hp by (by rewrite zlen_contents).
    split; [unfold dbuf_wf; cbn [buf size allocated_size]; lia|]. left.
    split; [done|]. split; [|done]. rewrite <- Hc.
    apply (f_equal (take (Z.to_nat (size s1 + zlen txt)))) in Hp.
    rewrite take_take, zlen_app, Nat.min_l in Hp by (change (zlen [0]) with 1; lia).
    unfold contents at 1. cbn [buf size]. rewrite Hp, app_assoc. apply take_app_length'.
    pose proof (zlen_contents s1 Hwf1). rewrite length_app. unfold zlen in *. lia.
  - apply post_ret. split; [done|]. by right.
Qed.

Lemma run_op_spec h s op :
  dbuf_wf s -> valid_op (contents s) op ->
  post (run_op h s op) (fun '(h', s', r) => dbuf_wf s' /\
    (r = 0 /\ contents s' = spec_op (contents s) op /\ error s' = error s \/
     r = -1 /\ contents s' = contents s /\ error s' = true)).
Proof.
  intros Hwf Hv. destruct op; cbn [run_op spec_op valid_op] in *.
  - apply dbuf_put_appends; [done|lia].
  - rewrite zlen_contents in Hv by done. apply dbuf_put_self_appends; (done || lia).
  - rewrite zlen_contents in Hv by done. apply dbuf_write_patches; (done || lia).
  - by apply dbuf_printf_appends.
Qed.
End Lemmas.

(** ** Properties *)

(** C24: refinement of the dynamic buffer by its contents: a client whose calls
    are valid for the contents built so far never meets a fault, whatever the
    allocator answers; a run in which every call returned 0 leaves the contents
    the calls describe, and a run that stopped at a failing call leaves the
    contents before that call and the error flag set. *)
Theorem dbuf_run_refines `{AL : Allocator} h s ops :
  dbuf_wf s -> valid_ops (contents s) ops ->
  post (run_ops h s ops) (fun '(h', s', r) => dbuf_wf s' /\
    (r = 0 /\ contents s' = fold_left spec_op ops (contents s) /\ error s' = error s \/
     r = -1 /\ error s' = true /\
     exists done_ops failed rest, ops = done_ops ++ failed :: rest /\
       contents s' = fold_left spec_op done_ops (contents s))).
Proof.
  revert h s. induction ops as [|op ops IH]; intros h s Hwf Hv; cbn [run_ops].
  - apply post_ret. split; [done|]. by left.
  - destruct Hv as [Hv Hvs]. apply post_bind. eapply post_mono; [by apply run_op_spec|].
    intros [[h1 s1] r1] (Hwf1 & [(-> & Hc & He)|(-> & Hc & He)]); cbn [Z.eqb].
    + eapply post_mono; [apply IH; [done|by rewrite Hc]|].
      intros [[h2 s2] r2] (Hwf2 & [(-> & Hc2 & He2)|(-> & He2 & ds & f & rest & -> & Hc2)]);
        (split; [done|]); [left|right].
      * cbn [fold_left]. rewrite <- Hc, <- He. done.
      * split; [done|]. split; [done|]. exists (op :: ds), f, rest. split; [done|].
        cbn [fold_left]. by rewrite <- Hc.
    + apply post_ret. split; [done|]. right. split; [done|]. split; [done|].
      exists [], op, ops. done.
Qed.

Lemma dbuf_run_refines_witness :
  run_ops (AL := alloc_always) tt dbuf_init
    [OpPut [1; 2]; OpWrite 1 [7]; OpPutSelf 0 2]
  = Ret (tt, mkDynBuf [1; 7; 1; 7] 4 4 false, 0) /\
  post (run_ops (AL := alloc_budget) 1%nat dbuf_init [OpPut [1; 2]; OpPutSelf 0 2])
    (fun '(h', s', r) => dbuf_wf s' /\
      (r = 0 /\ contents s' = fold_left spec_op [OpPut [1; 2]; OpPutSelf 0 2] (contents dbuf_init)
         /\ error s' = error dbuf_init \/
       r = -1 /\ error s' = true /\
       exists done_ops failed rest, [OpPut [1; 2]; OpPutSelf 0 2] = done_ops ++ failed :: rest /\
         contents s' = fold_left spec_op done_ops (contents dbuf_init))).
Proof.
  split; [reflexivity|].
  apply (dbuf_run_refines (AL := alloc_budget) 1%nat dbuf_init [OpPut [1; 2]; OpPutSelf 0 2]);
    vm_compute; intuition discriminate.
Defined.

(** C38: the error flag is sticky and covers every call: a client that ignores
    the results of its [dbuf_put] calls and finds no error in the end has all
    its data in the buffer, and an error seen before is never forgotten. *)
Theorem dbuf_put_all_or_error `{AL : Allocator} h s chunks :
  dbuf_wf s -> Forall (fun data => zlen data < 2 ^ 63) chunks ->
  post (put_all h s chunks) (fun '(h', s') => dbuf_wf s' /\
    (dbuf_error s' = false -> contents s' = contents s ++ concat chunks) /\
    (dbuf_error s = true -> dbuf_error s' = true)).
Proof.
  unfold dbuf_error. revert h s. induction chunks as [|data chunks IH]; intros h s Hwf Hd;
    cbn [put_all].
  - apply post_ret. cbn [concat]. by rewrite app_nil_r.
  - inversion_clear Hd. apply post_bind. eapply post_mono; [by apply dbuf_put_appends|].
    intros [[h1 s1] r1] (Hwf1 & Hcase). eapply post_mono; [by apply IH|].
    intros [h2 s2] (Hwf2 & Hok & Herr). split; [done|]. split.
    + intros He. rewrite Hok by done. destruct Hcase as [(_ & -> & _)|(_ & _ & He1)].
      * by rewrite <- app_assoc.
      * rewrite (Herr He1) in He. discriminate.
    + intros He. apply Herr. destruct Hcase as [(_ & _ & ->)|(_ & _ & ->)]; done.
Qed.

Lemma dbuf_put_all_or_error_witness :
  put_all (AL := alloc_limit) 4 dbuf_init [[1; 2; 3]; [4; 5]; [6]]
  = Ret (4, mkDynBuf [1; 2; 3] 3 3 true) /\
  post (put_all (AL := alloc_limit) 4 dbuf_init [[1; 2; 3]; [4; 5]; [6]])
    (fun '(h', s') => dbuf_wf s' /\
      (dbuf_error s' = false -> contents s' = contents dbuf_init ++ concat [[1; 2; 3]; [4; 5]; [6]]) /\
      (dbuf_error dbuf_init = true -> dbuf_error s' = true)).
Proof.
  split; [reflexivity|].
  apply (dbuf_put_all_or_error (AL := alloc_limit) 4 dbuf_init [[1; 2; 3]; [4; 5]; [6]]).
  - vm_compute. intuition discriminate.
  - repeat constructor.
Defined.
