(* ===== verification/Rqsort.v ===== *)
(** The sort of [cutils.c]: quicksort on a local stack, with heapsort and
    insertion sort.

    The array is a list of elements and the pointers [base + k * size] are the
    indexes [k]; the comparison function may change its [opaque] state.  The
    exchange functions, which work on bytes and machine words, are modelled in
    [Exchange.v]: there they are shown to swap elements and blocks of elements,
    which is what [swap] and [swap_block] do here. *)
From Stdlib Require Import ZArith Lia Bool List.
From stdpp Require Import base tactics list numbers.
From S2P Require Import Prelude.

(** An entry of the local array of [rqsort]: base, count and depth. *)
Abbreviation frame := (Z * Z * Z)%type (only parsing).

Section Sort.
Context {S A : Type} (cmp : S -> A -> A -> S * Z).

Definition cmp_at (s : S) (m : list A) (i j : Z) : outcome (S * Z) :=
  let* x := rd m i in
  let* y := rd m j in
  Ret (cmp s x y).

Definition swap (m : list A) (i j : Z) : outcome (list A) :=
  let* x := rd m i in
  let* y := rd m j in
  let* m := wr m i y in
  wr m j x.

(** The exchange of [n] elements. *)
Definition swap_block (m : list A) (i j n : Z) : outcome (list A) :=
  iter (Datatypes.S (Z.to_nat n)) (fun '(k, m) =>
    if k <? n then let* m := swap m (i + k) (j + k) in Ret (inl (k + 1, m))
    else Ret (inr m)) (0, m).

(** [for (r = ...; (c = r * 2 + size) < n; r = c)]. *)
Definition sift_step (base n : Z) '(s, m, r) : outcome (S * list A * Z + S * list A) :=
  let c := r * 2 + 1 in
  if c <? n then
    let* (s, c) :=
      if c <? n - 1 then
        let* (s, z) := cmp_at s m (base + c) (base + c + 1) in
        Ret (s, if z <=? 0 then c + 1 else c)
      else Ret (s, c) in
    let* (s, z) := cmp_at s m (base + r) (base + c) in
    if 0 <? z then Ret (inr (s, m))
    else
      let* m := swap m (base + r) (base + c) in
      Ret (inl (s, m, c))
  else Ret (inr (s, m)).

Definition sift (base n : Z) (s : S) (m : list A) (r : Z) : outcome (S * list A) :=
  iter (Datatypes.S (Z.to_nat n)) (sift_step base n) (s, m, r).

Definition heapsortx (s : S) (m : list A) (base nmemb : Z) : outcome (S * list A) :=
  if 1 <? nmemb then
    let i := nmemb / 2 in
    let n := nmemb in
    let* (s, m) := iter (Datatypes.S (Z.to_nat i)) (fun '(s, m, i) =>
      if 0 <? i then
        let i := i - 1 in
        let* (s, m) := sift base n s m i in
        Ret (inl (s, m, i))
      else Ret (inr (s, m))) (s, m, i) in
    iter (Datatypes.S (Z.to_nat n)) (fun '(s, m, i) =>
      if 0 <? i then
        let* m := swap m base (base + i) in
        let* (s, m) := sift base i s m 0 in
        Ret (inl (s, m, i - 1))
      else Ret (inr (s, m))) (s, m, n - 1)
  else Ret (s, m).

Definition med3 (s : S) (m : list A) (a b c : Z) : outcome (S * Z) :=
  let* (s, z) := cmp_at s m a b in
  if z <? 0 then
    let* (s, z) := cmp_at s m b c in
    if z <? 0 then Ret (s, b)
    else let* (s, z) := cmp_at s m a c in Ret (s, if z <? 0 then c else a)
  else
    let* (s, z) := cmp_at s m b c in
    if 0 <? z then Ret (s, b)
    else let* (s, z) := cmp_at s m a c in Ret (s, if z <? 0 then a else c).

(** The three loops of the partition of [ptr .. ptr + nmemb[ around the pivot
    at [ptr]; [i], [lt], [gt] and [j] are the offsets from [ptr] of the
    pointers [pi], [plt], [pgt] and [pj]. *)
Definition scan_up_step (ptr j : Z) '(s, m, i, lt) : outcome (S * list A * Z * Z + S * list A * Z * Z) :=
  if i <? j then
    let* (s, c) := cmp_at s m ptr (ptr + i) in
    if 0 <=? c then
      if c =? 0 then
        let* m := swap m (ptr + lt) (ptr + i) in
        Ret (inl (s, m, i + 1, lt + 1))
      else Ret (inl (s, m, i + 1, lt))
    else Ret (inr (s, m, i, lt))
  else Ret (inr (s, m, i, lt)).

Definition scan_down_step (ptr i : Z) '(s, m, j, gt) : outcome (S * list A * Z * Z + S * list A * Z * Z) :=
  let j := j - 1 in
  if i <? j then
    let* (s, c) := cmp_at s m ptr (ptr + j) in
    if c <=? 0 then
      if c =? 0 then
        let gt := gt - 1 in
        let* m := swap m (ptr + gt) (ptr + j) in
        Ret (inl (s, m, j, gt))
      else Ret (inl (s, m, j, gt))
    else Ret (inr (s, m, j, gt))
  else Ret (inr (s, m, j, gt)).

Definition partition_step (fuel : nat) (ptr : Z) '(s, m, i, lt, j, gt)
    : outcome (S * list A * Z * Z * Z * Z + S * list A * Z * Z * Z) :=
  let* (s, m, i, lt) := iter fuel (scan_up_step ptr j) (s, m, i, lt) in
  let* (s, m, j, gt) := iter fuel (scan_down_step ptr i) (s, m, j, gt) in
  if j <=? i then Ret (inr (s, m, i, lt, gt))
  else
    let* m := swap m (ptr + i) (ptr + j) in
    Ret (inl (s, m, i + 1, lt, j, gt)).

(** The pivot, the partition and the moves of the elements identical to the
    pivot to the middle: the new [lt] and [gt]. *)
Definition partition (s : S) (m : list A) (ptr nmemb : Z) : outcome (S * list A * Z * Z) :=
  let fuel := Datatypes.S (Z.to_nat nmemb) in
  let m4 := Z.shiftr nmemb 2 in
  let* (s, p) := med3 s m (ptr + m4) (ptr + 2 * m4) (ptr + 3 * m4) in
  let* m := swap m ptr p in
  let* (s, m, i, lt, gt) := iter fuel (partition_step fuel ptr) (s, m, 1, 1, nmemb, nmemb) in
  let span := lt in
  let span2 := i - lt in
  let lt := i - lt in
  let span := if span2 <? span then span2 else span in
  let* m := swap_block m ptr (ptr + i - span) span in
  let span := nmemb - gt in
  let span2 := gt - i in
  let gt := nmemb - (gt - i) in
  let span := if span2 <? span then span2 else span in
  let* m := swap_block m (ptr + i) (ptr + nmemb - span) span in
  Ret (s, m, lt, gt).

(** The local array [stack[50]] is a list with the last entry pushed first. *)
Definition push (stk : list frame) (f : frame) : outcome (list frame) :=
  if (length stk <? 50)%nat then Ret (f :: stk) else Err OutOfBounds.

(** The loop [while (nmemb > 6)]. *)
Definition segment_step '(s, m, stk, ptr, nmemb, depth)
    : outcome (S * list A * list frame * Z * Z * Z + S * list A * list frame * Z * Z) :=
  if 6 <? nmemb then
    let depth := depth + 1 in
    if 50 <? depth then
      let* (s, m) := heapsortx s m ptr nmemb in
      Ret (inr (s, m, stk, ptr, 0))
    else
      let* (s, m, lt, gt) := partition s m ptr nmemb in
      if nmemb - gt <? lt then
        let* stk := push stk (ptr, lt, depth) in
        Ret (inl (s, m, stk, ptr + gt, nmemb - gt, depth))
      else
        let* stk := push stk (ptr + gt, nmemb - gt, depth) in
        Ret (inl (s, m, stk, ptr, lt, depth))
  else Ret (inr (s, m, stk, ptr, nmemb)).

(** [for (pj = pi; pj > ptr && cmp(pj - size, pj, opaque) > 0; pj -= size)]. *)
Definition insert_step (ptr : Z) '(s, m, j) : outcome (S * list A * Z + S * list A) :=
  if ptr <? j then
    let* (s, c) := cmp_at s m (j - 1) j in
    if 0 <? c then
      let* m := swap m j (j - 1) in
      Ret (inl (s, m, j - 1))
    else Ret (inr (s, m))
  else Ret (inr (s, m)).

Definition insertion_sort (s : S) (m : list A) (ptr nmemb : Z) : outcome (S * list A) :=
  let fuel := Datatypes.S (Z.to_nat nmemb) in
  iter fuel (fun '(s, m, i) =>
    if i <? ptr + nmemb then
      let* (s, m) := iter fuel (insert_step ptr) (s, m, i) in
      Ret (inl (s, m, i + 1))
    else Ret (inr (s, m))) (s, m, ptr + 1).

Definition rqsort_step '(s, m, stk) : outcome (S * list A * list frame + S * list A) :=
  match stk with
  | [] => Ret (inr (s, m))
  | (ptr, nmemb, depth) :: stk =>
      let* (s, m, stk, ptr, nmemb) :=
        iter (Datatypes.S (Z.to_nat nmemb)) segment_step (s, m, stk, ptr, nmemb, depth) in
      let* (s, m) := insertion_sort s m ptr nmemb in
      Ret (inl (s, m, stk))
  end.

(** [rqsort] on the elements [m[base .. base + nmemb[]. *)
Definition rqsort (s : S) (m : list A) (base nmemb : Z) : outcome (S * list A) :=
  if nmemb <? 2 then Ret (s, m)
  else
    let* stk := push [] (base, nmemb, 0) in
    iter (Z.to_nat nmemb + 2) rqsort_step (s, m, stk).
End Sort.

(** * Specification *)

(** The index that a transposition of [i] and [j] takes to [k]. *)
Definition transp (i j k : Z) : Z := if k =? i then j else if k =? j then i else k.

(** The elements at [i] and [j] exchanged. *)
Definition swapped {A : Type} (m m' : list A) (i j : Z) : Prop :=
  m' ≡ₚ m /\ zlen m' = zlen m /\ forall k x, at_ m' k x <-> at_ m (transp i j k) x.

(** [m'] is the result of exchanges of elements of [m] between [lo] and [hi]. *)
Inductive shuffled {A : Type} (lo hi : Z) (m : list A) : list A -> Prop :=
  | shuffled_refl : shuffled lo hi m m
  | shuffled_swap m1 m2 i j :
      shuffled lo hi m m1 -> lo <= i < hi -> lo <= j < hi -> swapped m1 m2 i j ->
      shuffled lo hi m m2.

(** All the elements from [lo] to [hi] satisfy [P]. *)
Definition all_in {A : Type} (m : list A) (lo hi : Z) (P : A -> Prop) : Prop :=
  forall k x, lo <= k < hi -> at_ m k x -> P x.

(** * Lemmas *)

(** ** Exchanges *)

Lemma swap_Permutation {A : Type} (m : list A) i j x y :
  at_ m i x -> at_ m j y -> <[Z.to_nat j := x]> (<[Z.to_nat i := y]> m) ≡ₚ m.
Proof.
  assert (forall i j x y, at_ m i x -> at_ m j y -> i < j ->
    <[Z.to_nat j := x]> (<[Z.to_nat i := y]> m) ≡ₚ m /\
    <[Z.to_nat i := y]> (<[Z.to_nat j := x]> m) ≡ₚ m) as Hlt.
  { clear i j x y. intros i j x y [Hi Hx] [Hj Hy] Hij.
    assert (exists a b c, m = a ++ x :: b ++ y :: c /\ length a = Z.to_nat i /\
      (length a + S (length b) = Z.to_nat j)%nat) as (a & b & c & -> & Ha & Hb).
    { apply list_elem_of_split_length in Hx as (a & r & -> & Ha).
      rewrite lookup_app_r in Hy by lia. replace (Z.to_nat j - length a)%nat
        with (S (Z.to_nat j - Z.to_nat i - 1)) in Hy by lia. cbn in Hy.
      apply list_elem_of_split_length in Hy as (b & c & -> & Hb).
      exists a, b, c. split; [done|]. lia. }
    assert (forall (l r : list A) u v, <[length l := v]> (l ++ u :: r) = l ++ v :: r) as Hmid
      by (intros; by rewrite insert_app_r_alt, Nat.sub_diag by lia).
    assert (forall u v, <[Z.to_nat j := v]> (a ++ u :: b ++ y :: c) = a ++ u :: b ++ v :: c) as Hj'.
    { intros u v. rewrite <- Hb. change (a ++ u :: b ++ ?r) with (a ++ (u :: b) ++ r).
      rewrite !app_assoc. rewrite <- (Hmid (a ++ u :: b) c y v). f_equal.
      rewrite length_app. cbn [length]. lia. }
    rewrite <- Ha, Hmid, !Hj', Hmid.
    split; solve_Permutation. }
  intros Hx Hy. destruct (Z.lt_trichotomy i j) as [Hij|[->|Hij]].
  - by apply (Hlt i j x y).
  - rewrite list_insert_insert_eq. destruct Hy as [_ Hy]. rewrite (at_det _ _ _ _ Hx (conj (proj1 Hx) Hy)).
    by rewrite list_insert_id.
  - by apply (Hlt j i y x).
Qed.

Lemma at_at_bounds {A : Type} (m : list A) i x : at_ m i x -> 0 <= i < zlen m.
Proof. apply at_lt. Qed.

Section Swap.
Context {A : Type}.
Implicit Types m : list A.

Lemma swap_spec m i j :
  0 <= i < zlen m -> 0 <= j < zlen m -> exists m', swap m i j = Ret m' /\ swapped m m' i j.
Proof.
  intros Hi Hj. destruct (at_exists m i Hi) as [x Hx], (at_exists m j Hj) as [y Hy].
  unfold swap. rewrite (rd_at _ _ _ Hx). cbn [obind]. rewrite (rd_at _ _ _ Hy). cbn [obind].
  rewrite wr_in by done. cbn [obind]. rewrite wr_in by (by rewrite zlen_insert).
  eexists. split; [done|]. split; [by apply swap_Permutation|].
  split; [by rewrite !zlen_insert|]. intros k z. unfold transp.
  destruct (Z.eqb_spec k i) as [->|Hki]; [|destruct (Z.eqb_spec k j) as [->|Hkj]].
  - destruct (Z.eq_dec i j) as [->|Hij].
    + rewrite (at_det _ _ _ _ Hy Hx). split; intros H.
      * rewrite <- (at_det _ _ _ _ (at_insert_eq _ j x ltac:(by rewrite zlen_insert)) H). done.
      * rewrite (at_det _ _ _ _ H Hx). apply at_insert_eq. by rewrite zlen_insert.
    + rewrite at_insert_ne by lia. split; intros H.
      * by rewrite <- (at_det _ _ _ _ (at_insert_eq _ i y Hi) H).
      * rewrite (at_det _ _ _ _ H Hy). by apply at_insert_eq.
  - split; intros H.
    + rewrite <- (at_det _ _ _ _ (at_insert_eq _ j x ltac:(by rewrite zlen_insert)) H). done.
    + rewrite (at_det _ _ _ _ H Hx). apply at_insert_eq. by rewrite zlen_insert.
  - destruct (Z.lt_ge_cases k 0) as [Hk|Hk]; [split; intros H; apply at_lt in H; lia|].
    by rewrite !at_insert_ne by lia.
Qed.

Lemma post_swap m i j (Q : list A -> Prop) :
  0 <= i < zlen m -> 0 <= j < zlen m -> (forall m', swapped m m' i j -> Q m') -> post (swap m i j) Q.
Proof. intros Hi Hj HQ. destruct (swap_spec m i j Hi Hj) as (m' & -> & H). by apply HQ. Qed.

Lemma shuffled_one lo hi m m' i j :
  lo <= i < hi -> lo <= j < hi -> swapped m m' i j -> shuffled lo hi m m'.
Proof. intros. by apply (shuffled_swap _ _ _ m m' i j (shuffled_refl _ _ _)). Qed.

Lemma shuffled_trans lo hi m1 m2 m3 :
  shuffled lo hi m1 m2 -> shuffled lo hi m2 m3 -> shuffled lo hi m1 m3.
Proof. intros H1 H2. 
  induction H2 as [|n1 n2 i j _ IH Hi Hj Hs]; [done|].
  exact (shuffled_swap _ _ _ n1 n2 i j IH Hi Hj Hs).
Qed.

Lemma shuffled_mono lo hi lo' hi' m m' :
  shuffled lo hi m m' -> lo' <= lo -> hi <= hi' -> shuffled lo' hi' m m'.
Proof.
  intros H Hlo Hhi. induction H as [|m1 m2 i j _ IH Hi Hj Hs]; [apply shuffled_refl|].
  apply (shuffled_swap _ _ _ m1 m2 i j); (done || lia).
Qed.

Lemma shuffled_Permutation lo hi m m' : shuffled lo hi m m' -> m' ≡ₚ m.
Proof. induction 1 as [|m1 m2 i j _ IH _ _ [Hs _]]; [done|]. by rewrite Hs. Qed.

Lemma shuffled_zlen lo hi m m' : shuffled lo hi m m' -> zlen m' = zlen m.
Proof. induction 1 as [|m1 m2 i j _ IH _ _ (_ & Hs & _)]; [done|]. congruence. Qed.

(** Outside, nothing changes; inside, the elements come from inside. *)
Lemma shuffled_outside lo hi m m' k x :
  shuffled lo hi m m' -> k < lo \/ hi <= k -> at_ m' k x <-> at_ m k x.
Proof.
  intros H Hk. induction H as [|m1 m2 i j _ IH Hi Hj (_ & _ & Hs)]; [done|].
  rewrite Hs, <- IH. unfold transp. by decide_ifs lia.
Qed.

Lemma shuffled_inside lo hi m m' k x :
  shuffled lo hi m m' -> lo <= k < hi -> at_ m' k x -> exists k', lo <= k' < hi /\ at_ m k' x.
Proof.
  intros H. revert k. induction H as [|m1 m2 i j _ IH Hi Hj (_ & _ & Hs)]; intros k Hk Hx;
    [by exists k|].
  apply Hs in Hx. apply IH in Hx; [done|]. unfold transp.
  destruct (k =? i); [done|]. by destruct (k =? j).
Qed.

Lemma shuffled_all_in lo hi m m' P : shuffled lo hi m m' -> all_in m lo hi P -> all_in m' lo hi P.
Proof.
  intros H HP k x Hk Hx. destruct (shuffled_inside _ _ _ _ _ _ H Hk Hx) as (k' & Hk' & Hx').
  by apply (HP k').
Qed.
End Swap.

(** ** Comparisons *)

Section Order.
Context {S A : Type} (cmp : S -> A -> A -> S * Z) (le : A -> A -> Prop).
Implicit Types (m : list A) (s : S).

(** The comparison function decides the total preorder [le], whatever its
    state. *)
Definition consistent : Prop :=
  (forall s x y, ((cmp s x y).2 <= 0 <-> le x y) /\ (0 <= (cmp s x y).2 <-> le y x)) /\
  (forall x y z, le x y -> le y z -> le x z).

Definition sorted_on m (lo hi : Z) : Prop :=
  forall a b x y, lo <= a -> a < b -> b < hi -> at_ m a x -> at_ m b y -> le x y.

(** A routine that only exchanges elements of [m] between [lo] and [hi] and,
    for a consistent comparison, establishes [Q]. *)
Definition sorts (lo hi : Z) m (Q : list A -> Prop) (r : S * list A) : Prop :=
  shuffled lo hi m r.2 /\ (consistent -> Q r.2).

Lemma post_cmp_at s m i j (Q : S * Z -> Prop) :
  0 <= i < zlen m -> 0 <= j < zlen m ->
  (forall s' z, (consistent -> forall x y, at_ m i x -> at_ m j y ->
      (z <= 0 <-> le x y) /\ (0 <= z <-> le y x)) -> Q (s', z)) ->
  post (cmp_at cmp s m i j) Q.
Proof.
  intros Hi Hj HQ. unfold cmp_at. apply post_bind, post_rd; [done|]. intros x Hx.
  apply post_bind, post_rd; [done|]. intros y Hy. apply post_ret.
  destruct (cmp s x y) as [s' z] eqn:E. apply HQ. intros [Hc _] x' y' Hx' Hy'.
  rewrite (at_det _ _ _ _ Hx' Hx), (at_det _ _ _ _ Hy' Hy). specialize (Hc s x y). by rewrite E in Hc.
Qed.

Lemma le_total : consistent -> forall s x y, le x y \/ le y x.
Proof. intros [Hc _] s x y. 
  destruct (Hc s x y) as [H1 H2]. destruct (Z.le_ge_cases (cmp s x y).2 0);
    [left; by apply H1|right; apply H2; lia].
Qed.

(** ** Insertion sort *)

Lemma insert_loop fuel ptr hi s m j :
  0 <= ptr <= j -> j < hi -> hi <= zlen m -> (Z.to_nat (j - ptr) < fuel)%nat ->
  (consistent -> forall a b x y, ptr <= a -> a < b -> b < hi -> b <> j ->
     at_ m a x -> at_ m b y -> le x y) ->
  post (iter fuel (insert_step cmp ptr) (s, m, j))
    (sorts ptr hi m (fun m' => sorted_on m' ptr hi)).
Proof.
  intros Hptr Hj Hlen Hf Hord. revert s m j Hptr Hj Hlen Hf Hord.
  induction fuel as [|fuel IH]; intros s m j Hptr Hj Hlen Hf Hord; [lia|]. cbn [iter].
  unfold insert_step at 1. destruct (Z.ltb_spec ptr j) as [Hlt|Hge]; cbn [obind].
  - apply post_bind, post_bind. apply post_cmp_at; [lia|lia|]. intros s' z Hz.
    destruct (Z.ltb_spec 0 z) as [Hpos|Hnpos].
    + apply post_bind, post_swap; [lia|lia|]. intros m' Hs. apply post_ret.
      pose proof Hs as (_ & Hz' & Hat). eapply post_mono.
      * apply IH; [lia|lia|lia|lia|]. intros Hc a b x y Ha Hab Hb Hne Hx Hy.
        apply Hat in Hx, Hy. unfold transp in Hx, Hy.
        destruct (at_exists m j) as [xj Hxj]; [lia|].
        destruct (at_exists m (j - 1)) as [xj1 Hxj1]; [lia|].
        pose proof (proj2 (Hz Hc _ _ Hxj1 Hxj)) as Hle.
        assert (le xj xj1) as Hle' by (apply Hle; lia). clear Hle Hz.
        specialize (Hord Hc).
        destruct (Z.eqb_spec b j) as [->|Hbj]; [|destruct (Z.eqb_spec b (j - 1)); [lia|]];
          (destruct (Z.eqb_spec a j) as [->|Haj]; [|destruct (Z.eqb_spec a (j - 1)) as [->|Haj1]]);
          try lia.
        -- by rewrite (at_det _ _ _ _ Hx Hxj), (at_det _ _ _ _ Hy Hxj1).
        -- apply (Hord a (j - 1)); (done || lia).
        -- apply (Hord (j - 1) b); (done || lia).
        -- apply (Hord j b); (done || lia).
        -- apply (Hord a b); (done || lia).
      * intros r [Hsh Hsorted]. split; [|done]. eapply shuffled_trans; [|exact Hsh].
        by apply (shuffled_one ptr hi m m' j (j - 1)); [lia|lia|].
    + apply post_ret. split; [apply shuffled_refl|]. intros Hc a b x y Ha Hab Hb Hx Hy. cbn in *.
      destruct (Z.eq_dec b j) as [->|Hne]; [|by apply (Hord Hc a b)].
      destruct (at_exists m (j - 1)) as [xj1 Hxj1]; [lia|].
      assert (le xj1 y) as Hle by (apply (Hz Hc _ _ Hxj1 Hy); lia).
      destruct (Z.eq_dec a (j - 1)) as [->|Hne]; [by rewrite (at_det _ _ _ _ Hx Hxj1)|].
      apply (proj2 Hc) with xj1; [|done]. apply (Hord Hc a (j - 1)); (done || lia).
  - apply post_ret. split; [apply shuffled_refl|]. intros Hc a b x y Ha Hab Hb Hx Hy.
    apply (Hord Hc a b); (done || lia).
Qed.

Lemma insertion_sort_spec s m ptr n :
  0 <= ptr -> 0 <= n -> ptr + n <= zlen m ->
  post (insertion_sort cmp s m ptr n) (sorts ptr (ptr + n) m (fun m' => sorted_on m' ptr (ptr + n))).
Proof.
  intros Hp Hn Hlen. unfold insertion_sort.
  apply (post_iter (fun '(s, m', i) => shuffled ptr (ptr + n) m m' /\ ptr + 1 <= i /\
      (consistent -> sorted_on m' ptr (Z.min i (ptr + n))))
    (fun '(s, m', i) => Z.to_nat (ptr + n - i))).
  - intros [[s1 m1] i] (Hsh & Hi & Hs). pose proof (shuffled_zlen _ _ _ _ Hsh) as Hz.
    destruct (Z.ltb_spec i (ptr + n)) as [Hlt|Hge].
    + apply post_bind. eapply post_mono; [apply (insert_loop _ ptr (i + 1)); try lia|].
      * intros Hc a b x y Ha Hab Hb Hne. apply (Hs Hc); lia.
      * intros [s2 m2] [Hsh2 Hs2]. cbn in *. apply post_ret. split; [|lia]. split_and!; [|lia|].
        -- eapply shuffled_trans; [exact Hsh|]. eapply shuffled_mono; [exact Hsh2|lia|lia].
        -- by rewrite Z.min_l by lia.
    + apply post_ret. split; [done|]. rewrite Z.min_r in Hs by lia. done.
  - split_and!; [apply shuffled_refl|lia|]. intros Hc a b x y. lia.
  - lia.
Qed.

(** ** Heapsort *)

Definition child (k c : Z) : Prop := c = k * 2 + 1 \/ c = k * 2 + 2.

(** The heap of [n] elements at [base], from the node [r0] on, except that the
    children of [ex] may be greater than it; those of the parent of [ex] are
    then compared to its grandparent. *)
Definition heap_except m (base n r0 ex : Z) : Prop :=
  (forall k c x y, r0 <= k -> k <> ex -> child k c -> c < n ->
     at_ m (base + k) x -> at_ m (base + c) y -> le y x) /\
  (forall p c x y, r0 <= p -> child p ex -> child ex c -> c < n ->
     at_ m (base + p) x -> at_ m (base + c) y -> le y x).

Definition is_heap m (base n r0 : Z) : Prop :=
  forall k c x y, r0 <= k -> child k c -> c < n ->
    at_ m (base + k) x -> at_ m (base + c) y -> le y x.

(** The exchange of a node with its greatest child [c]. *)
Lemma heap_swap m m' base n r0 r c :
  consistent -> 0 <= base -> 0 <= r0 <= r -> child r c -> c < n -> base + n <= zlen m ->
  heap_except m base n r0 r -> swapped m m' (base + r) (base + c) ->
  (forall d x y, child r d -> d < n -> at_ m (base + c) x -> at_ m (base + d) y -> le y x) ->
  (forall x y, at_ m (base + r) x -> at_ m (base + c) y -> le x y) ->
  heap_except m' base n r0 c.
Proof.
  intros Hc Hbase Hr0 Hrc Hcn Hlen [Hheap Hpar] (_ & _ & Hat) Hmax Hlt. unfold child in *.
  destruct (at_exists m (base + r)) as [xr Hxr]; [lia|].
  destruct (at_exists m (base + c)) as [xc Hxc]; [lia|]. specialize (Hlt _ _ Hxr Hxc).
  split.
  - intros k d x y Hk Hkc Hd Hdn Hx Hy. apply Hat in Hx, Hy. unfold transp in Hx, Hy.
    unfold child in Hd.
    destruct (Z.eqb_spec (base + k) (base + r)) as [Hkr|Hkr];
      [assert (k = r) as -> by lia|
       destruct (Z.eqb_spec (base + k) (base + c)); [lia|]];
    (destruct (Z.eqb_spec (base + d) (base + r)) as [Hdr|Hdr];
      [assert (d = r) as -> by lia|
       destruct (Z.eqb_spec (base + d) (base + c)) as [Hdc|Hdc];
         [assert (d = c) as -> by lia|]]); try lia.
    + rewrite (at_det _ _ _ _ Hx Hxc), (at_det _ _ _ _ Hy Hxr). done.
    + apply (Hmax d); (done || lia).
    + apply (Hpar k c); (done || lia).
    + apply (Hheap k d); (done || lia).
  - intros p d x y Hp Hpc Hcd Hdn Hx Hy. apply Hat in Hx, Hy. unfold transp in Hx, Hy.
    unfold child in Hpc, Hcd.
    assert (p = r) as -> by lia. rewrite Z.eqb_refl in Hx.
    destruct (Z.eqb_spec (base + d) (base + r)); [lia|].
    destruct (Z.eqb_spec (base + d) (base + c)); [lia|].
    apply (Hheap c d); (done || lia).
Qed.

Lemma sift_loop fuel base n r0 s m r :
  0 <= base -> 0 <= r0 <= r -> base + n <= zlen m -> (Z.to_nat (n - r) < fuel)%nat ->
  (consistent -> heap_except m base n r0 r) ->
  post (iter fuel (sift_step cmp base n) (s, m, r))
    (sorts base (base + n) m (fun m' => is_heap m' base n r0)).
Proof.
  intros Hbase Hr0 Hlen Hf Hh. revert s m r Hr0 Hlen Hf Hh.
  induction fuel as [|fuel IH]; intros s m r Hr0 Hlen Hf Hh; [lia|]. cbn [iter].
  unfold sift_step at 1. destruct (Z.ltb_spec (r * 2 + 1) n) as [Hlt|Hge]; cbn [obind].
  - apply post_bind, post_bind.
    apply (post_mono _ (fun '(s', c) => child r c /\ c < n /\ (consistent ->
      forall d x y, child r d -> d < n -> at_ m (base + c) x -> at_ m (base + d) y -> le y x))).
    { destruct (Z.ltb_spec (r * 2 + 1) (n - 1)) as [H2|H2].
      - apply post_bind, post_cmp_at; [lia|lia|]. intros s' z Hz. apply post_ret.
        unfold child. split; [destruct (z <=? 0); lia|]. split; [destruct (z <=? 0); lia|].
        intros Hc d x y Hd Hdn Hx Hy.
        destruct (Z.leb_spec z 0) as [Hneg|Hpos]; destruct Hd as [->| ->].
        + replace (base + (r * 2 + 1 + 1)) with (base + (r * 2 + 1) + 1) in Hx by lia.
          apply (Hz Hc _ _ Hy Hx). lia.
        + replace (base + (r * 2 + 1 + 1)) with (base + (r * 2 + 2)) in Hx by lia.
          rewrite (at_det _ _ _ _ Hx Hy). by destruct (le_total Hc s y y).
        + rewrite (at_det _ _ _ _ Hx Hy). by destruct (le_total Hc s y y).
        + replace (base + (r * 2 + 2)) with (base + (r * 2 + 1) + 1) in Hy by lia.
          apply (Hz Hc _ _ Hx Hy). lia.
      - apply post_ret. unfold child. split; [lia|]. split; [lia|].
        intros Hc d x y Hd Hdn Hx Hy. assert (d = r * 2 + 1) as -> by lia.
        rewrite (at_det _ _ _ _ Hx Hy). by destruct (le_total Hc s y y). }
    intros [s' c] (Hrc & Hcn & Hmax). unfold child in Hrc.
    apply post_bind, post_cmp_at; [lia|lia|]. intros s2 z Hz.
    destruct (Z.ltb_spec 0 z) as [Hpos|Hneg]; cbn [obind].
    + apply post_ret. split; [apply shuffled_refl|]. cbn.
      intros Hc k d x y Hk Hkd Hdn Hx Hy. destruct (Z.eq_dec k r) as [->|Hne];
        [|by apply (proj1 (Hh Hc) k d)].
      destruct (at_exists m (base + c)) as [xc Hxc]; [lia|].
      apply (proj2 Hc) with xc; [by apply (Hmax Hc d)|]. apply (Hz Hc _ _ Hx Hxc). lia.
    + apply post_bind, post_swap; [lia|lia|]. intros m' Hs. apply post_ret.
      pose proof Hs as (_ & Hz' & _). eapply post_mono.
      * apply IH; [lia|lia|lia|]. intros Hc. apply (heap_swap m m' base n r0 r c); [done|done|done|done|done|done|by apply Hh|done|by apply Hmax|].
        intros x y Hx Hy. apply (Hz Hc _ _ Hx Hy). lia.
      * intros q [Hsh Hq]. split; [|done]. eapply shuffled_trans; [|exact Hsh].
        apply (shuffled_one _ _ m m' (base + r) (base + c)); [lia|lia|done].
  - apply post_ret. split; [apply shuffled_refl|]. cbn. intros Hc k c x y Hk Hkc Hcn Hx Hy.
    destruct (Z.eq_dec k r) as [->|Hne]; [unfold child in Hkc; lia|].
    by apply (proj1 (Hh Hc) k c).
Qed.

(** The root of a heap is a greatest element. *)
Lemma heap_root s m base n k x y :
  consistent -> 0 <= base -> base + n <= zlen m -> is_heap m base n 0 -> 0 <= k < n ->
  at_ m base x -> at_ m (base + k) y -> le y x.
Proof.
  intros Hc Hbase Hlen Hh [Hk0 Hk] Hx. assert (0 <= k) as Hk0' by done. revert y Hk0' Hk.
  revert k Hk0. apply (Z_lt_induction (fun k => forall y, 0 <= k -> k < n -> at_ m (base + k) y -> le y x)).
  intros k IH y Hk0 Hk Hy. destruct (Z.eq_dec k 0) as [->|Hne].
  - rewrite Z.add_0_r in Hy. rewrite (at_det _ _ _ _ Hy Hx). by destruct (le_total Hc s x x).
  - set (p := (k - 1) / 2). assert (k = p * 2 + 1 \/ k = p * 2 + 2) as Hp by (unfold p; zlia).
    destruct (at_exists m (base + p)) as [z Hz]; [unfold p; zlia|].
    apply (proj2 Hc) with z; [by apply (Hh p k); [lia|..]|].
    apply (IH p); [lia|lia|lia|done].
Qed.

Lemma heapify s m base n :
  0 <= base -> 0 <= n -> base + n <= zlen m ->
  post (iter (Datatypes.S (Z.to_nat (n / 2))) (fun '(s, m, i) =>
      if 0 <? i then
        let* (s, m) := sift cmp base n s m (i - 1) in
        Ret (inl (s, m, i - 1))
      else Ret (inr (s, m))) (s, m, n / 2))
    (sorts base (base + n) m (fun m' => is_heap m' base n 0)).
Proof.
  intros Hbase Hn Hlen.
  apply (post_iter (fun '(s, m', i) => shuffled base (base + n) m m' /\ 0 <= i /\
      (consistent -> is_heap m' base n i)) (fun '(s, m', i) => Z.to_nat i)).
  - intros [[s1 m1] i] (Hsh & Hi & Hh). pose proof (shuffled_zlen _ _ _ _ Hsh) as Hz.
    destruct (Z.ltb_spec 0 i) as [Hpos|Hle].
    + apply post_bind. unfold sift. eapply post_mono.
      * apply (sift_loop _ base n (i - 1)); try lia. intros Hc. split.
        -- intros k c x y Hk Hne. apply (Hh Hc). lia.
        -- intros p c x y Hp Hpc. unfold child in Hpc. lia.
      * intros [s2 m2] [Hsh2 Hh2]. cbn in *. apply post_ret. split; [|lia].
        split; [by eapply shuffled_trans|]. split; [lia|done].
    + apply post_ret. split; [done|]. intros Hc. assert (i = 0) as -> by lia. by apply Hh.
  - split; [apply shuffled_refl|]. split; [apply Z.div_pos; lia|].
    intros Hc k c x y Hk Hkc. unfold child in Hkc. zlia.
  - lia.
Qed.

(** Once the greatest elements are sorted at the end. *)
Definition heap_sorting m (base n i : Z) : Prop :=
  is_heap m base (i + 1) 0 /\ sorted_on m (base + i + 1) (base + n) /\
  forall a b x y, 0 <= a <= i -> i < b < n ->
    at_ m (base + a) x -> at_ m (base + b) y -> le x y.

Lemma heap_sorting_swap s m m' base n i :
  consistent -> 0 <= base -> base + n <= zlen m -> 0 < i < n -> heap_sorting m base n i ->
  swapped m m' base (base + i) ->
  heap_except m' base i 0 0 /\ sorted_on m' (base + i) (base + n) /\
  forall a b x y, 0 <= a < i -> i <= b < n ->
    at_ m' (base + a) x -> at_ m' (base + b) y -> le x y.
Proof.
  intros Hc Hbase Hlen Hi (Hh & Hs & Hle) (_ & Hz & Hat).
  destruct (at_exists m base) as [x0 Hx0]; [lia|].
  assert (forall k y, 0 <= k <= i -> at_ m (base + k) y -> le y x0) as Hroot.
  { intros k y Hk. apply (heap_root s m base (i + 1) k); (done || lia). }
  assert (forall k x, 0 <= k < i -> at_ m' (base + k) x -> exists k', 0 <= k' <= i /\ at_ m (base + k') x)
    as Hlow.
  { intros k x Hk Hx. apply Hat in Hx. unfold transp in Hx.
    destruct (Z.eqb_spec (base + k) base); [exists i; split; [lia|done]|].
    destruct (Z.eqb_spec (base + k) (base + i)); [lia|]. exists k. split; [lia|done]. }
  assert (forall k x, i < k < n -> at_ m' (base + k) x -> at_ m (base + k) x) as Hhigh.
  { intros k x Hk Hx. apply Hat in Hx. unfold transp in Hx.
    destruct (Z.eqb_spec (base + k) base); [lia|].
    by destruct (Z.eqb_spec (base + k) (base + i)); [lia|]. }
  assert (at_ m' (base + i) x0) as Hi0.
  { apply Hat. unfold transp. replace (base + i =? base) with false by lia. by rewrite Z.eqb_refl. }
  split; [split|split].
  - intros k c x y Hk Hne Hkc Hcn Hx Hy. unfold child in Hkc. apply Hat in Hx, Hy.
    unfold transp in Hx, Hy.
    replace (base + k =? base) with false in Hx by lia.
    replace (base + k =? base + i) with false in Hx by lia.
    replace (base + c =? base) with false in Hy by lia.
    replace (base + c =? base + i) with false in Hy by lia.
    apply (Hh k c); (done || lia).
  - intros p c x y Hp Hpc. unfold child in Hpc. lia.
  - intros a b x y Ha Hab Hb Hx Hy. replace b with (base + (b - base)) in Hy by lia.
    apply Hhigh in Hy; [|lia]. destruct (Z.eq_dec a (base + i)) as [->|Hne].
    + rewrite (at_det _ _ _ _ Hx Hi0). apply (Hle 0 (b - base)); [lia|lia|by rewrite Z.add_0_r|done].
    + replace a with (base + (a - base)) in Hx by lia. apply Hhigh in Hx; [|lia].
      apply (Hs (base + (a - base)) (base + (b - base))); (done || lia).
  - intros a b x y Ha Hb Hx Hy. destruct (Hlow a x Ha Hx) as (a' & Ha' & Hx').
    destruct (Z.eq_dec b i) as [->|Hne].
    + rewrite (at_det _ _ _ _ Hy Hi0). by apply (Hroot a').
    + apply Hhigh in Hy; [|lia]. apply (Hle a' b); (done || lia).
Qed.

Lemma sorted_on_outside lo hi lo' hi' m m' :
  shuffled lo hi m m' -> hi <= lo' -> sorted_on m lo' hi' -> sorted_on m' lo' hi'.
Proof.
  intros Hsh Hhi Hs a b x y Ha Hab Hb Hx Hy.
  rewrite (shuffled_outside _ _ _ _ a x Hsh) in Hx by lia.
  rewrite (shuffled_outside _ _ _ _ b y Hsh) in Hy by lia. by apply (Hs a b).
Qed.

Lemma heapsortx_spec s m base n :
  0 <= base -> 0 <= n -> base + n <= zlen m ->
  post (heapsortx cmp s m base n) (sorts base (base + n) m (fun m' => sorted_on m' base (base + n))).
Proof.
  intros Hbase Hn Hlen. unfold heapsortx. destruct (Z.ltb_spec 1 n) as [H1|H1]; cycle 1.
  { apply post_ret. split; [apply shuffled_refl|]. intros Hc a b x y. lia. }
  apply post_bind. eapply post_mono; [by apply heapify|]. intros [s1 m1] [Hsh1 Hh1]. cbn in Hsh1, Hh1.
  pose proof (shuffled_zlen _ _ _ _ Hsh1) as Hz1.
  apply (post_iter (fun '(s, m', i) => shuffled base (base + n) m m' /\ 0 <= i < n /\
      (consistent -> heap_sorting m' base n i)) (fun '(s, m', i) => Z.to_nat i)); [|split_and!|].
  - intros [[s2 m2] i] (Hsh2 & Hi & Hh2). pose proof (shuffled_zlen _ _ _ _ Hsh2) as Hz2.
    destruct (Z.ltb_spec 0 i) as [Hpos|Hle].
    + apply post_bind, post_swap; [lia|lia|]. intros m3 Hs3. apply post_bind.
      pose proof Hs3 as (_ & Hz3 & _). unfold sift. eapply post_mono.
      * apply (sift_loop _ base i 0); try lia. intros Hc.
        destruct (heap_sorting_swap s2 m2 m3 base n i Hc) as [Hex _]; try done; [lia|lia|by apply Hh2].
      * intros [s4 m4] [Hsh4 Hh4]. cbn in Hsh4, Hh4. apply post_ret. split; [|lia].
        split_and!; [|lia..|].
        -- eapply shuffled_trans; [exact Hsh2|]. eapply shuffled_trans;
             [by apply (shuffled_one _ _ m2 m3 base (base + i)); [lia|lia|]|].
           eapply shuffled_mono; [exact Hsh4|lia|lia].
        -- intros Hc. destruct (heap_sorting_swap s2 m2 m3 base n i Hc) as (_ & Hso & Hlow);
             try done; [lia|lia|by apply Hh2|]. split; [|split].
           ++ replace (i - 1 + 1) with i by lia. by apply Hh4.
           ++ replace (base + (i - 1) + 1) with (base + i) by lia.
              by eapply sorted_on_outside; [exact Hsh4|lia|].
           ++ intros a b x y Ha Hb Hx Hy.
              rewrite (shuffled_outside _ _ _ _ (base + b) y Hsh4) in Hy by lia.
              destruct (shuffled_inside _ _ _ _ (base + a) x Hsh4) as (a' & Ha' & Hx'); [lia|done|].
              apply (Hlow (a' - base) b); [lia|lia| |done].
              by replace (base + (a' - base)) with a' by lia.
    + apply post_ret. split; [done|]. cbn. intros Hc. assert (i = 0) as -> by lia.
      destruct (Hh2 Hc) as (_ & Hso & Hlow). intros a b x y Ha Hab Hb Hx Hy.
      destruct (Z.eq_dec a base) as [->|Hne].
      * replace b with (base + (b - base)) in Hy by lia.
        apply (Hlow 0 (b - base)); [lia|lia|by rewrite Z.add_0_r|done].
      * apply (Hso a b); (done || lia).
  - done.
  - lia.
  - lia.
  - intros Hc. specialize (Hh1 Hc). split; [by replace (n - 1 + 1) with n by lia|].
    split; [intros a b x y; lia|intros a b x y; lia].
  - lia.
Qed.

(** ** Partition *)

(** The parts of the segment at [ptr] with [n] elements during the scans:
    identical to the pivot [v], smaller, not seen, greater, identical. *)
Record parts (v : A) m (ptr n i lt j gt : Z) : Prop := {
  p_pivot : at_ m ptr v;
  p_eq_lo : all_in m ptr (ptr + lt) (fun x => le x v /\ le v x);
  p_less : all_in m (ptr + lt) (ptr + i) (fun x => le x v /\ ~ le v x);
  p_greater : all_in m (ptr + j) (ptr + gt) (fun x => le v x /\ ~ le x v);
  p_eq_hi : all_in m (ptr + gt) (ptr + n) (fun x => le x v /\ le v x)
}.

Definition part_bounds (n i lt j gt : Z) : Prop :=
  1 <= lt <= i /\ i <= n /\ i - 1 <= j /\ j <= gt <= n /\ i <= gt.

Ltac transp_case :=
  match goal with
  | H : at_ _ (transp ?a ?b ?k) _ |- _ =>
      unfold transp in H; destruct (Z.eqb_spec k a) as [?E|?E];
        [|destruct (Z.eqb_spec k b) as [?E|?E]]; try lia
  end.

Lemma all_in_swapped m m' i j lo hi (P : A -> Prop) :
  swapped m m' i j ->
  (forall k x, lo <= k < hi -> at_ m (transp i j k) x -> P x) -> all_in m' lo hi P.
Proof. intros (_ & _ & Hat) H k x Hk Hx. apply Hat in Hx. by apply (H k). Qed.

(** An element identical to the pivot joins the first part. *)
Lemma parts_eq_lo v m m' ptr n i lt j gt x :
  parts v m ptr n i lt j gt -> part_bounds n i lt j gt -> i < j -> 0 <= ptr ->
  at_ m (ptr + i) x -> le x v -> le v x -> swapped m m' (ptr + lt) (ptr + i) ->
  parts v m' ptr n (i + 1) (lt + 1) j gt.
Proof.
  intros [Hp H1 H2 H3 H4] Hb Hij Hptr Hx Hxv Hvx Hs. unfold part_bounds in Hb. split.
  - apply (proj2 (proj2 Hs)). unfold transp. by decide_ifs lia.
  - eapply all_in_swapped; [exact Hs|]. intros k y Hk Hy. transp_case.
    + by rewrite (at_det _ _ _ _ Hy Hx).
    + apply (H1 k); (done || lia).
  - eapply all_in_swapped; [exact Hs|]. intros k y Hk Hy. transp_case.
    + apply (H2 (ptr + lt)); (done || lia).
    + apply (H2 k); (done || lia).
  - eapply all_in_swapped; [exact Hs|]. intros k y Hk Hy. transp_case. apply (H3 k); (done || lia).
  - eapply all_in_swapped; [exact Hs|]. intros k y Hk Hy. transp_case. apply (H4 k); (done || lia).
Qed.

Lemma parts_eq_hi v m m' ptr n i lt j gt x :
  parts v m ptr n i lt (j + 1) gt -> part_bounds n i lt (j + 1) gt -> i < j -> 0 <= ptr ->
  at_ m (ptr + j) x -> le x v -> le v x -> swapped m m' (ptr + (gt - 1)) (ptr + j) ->
  parts v m' ptr n i lt j (gt - 1).
Proof.
  intros [Hp H1 H2 H3 H4] Hb Hij Hptr Hx Hxv Hvx Hs. unfold part_bounds in Hb. split.
  - apply (proj2 (proj2 Hs)). unfold transp. by decide_ifs lia.
  - eapply all_in_swapped; [exact Hs|]. intros k y Hk Hy. transp_case. apply (H1 k); (done || lia).
  - eapply all_in_swapped; [exact Hs|]. intros k y Hk Hy. transp_case. apply (H2 k); (done || lia).
  - eapply all_in_swapped; [exact Hs|]. intros k y Hk Hy. transp_case.
    + apply (H3 (ptr + (gt - 1))); (done || lia).
    + apply (H3 k); (done || lia).
  - eapply all_in_swapped; [exact Hs|]. intros k y Hk Hy. transp_case.
    + by rewrite (at_det _ _ _ _ Hy Hx).
    + apply (H4 k); (done || lia).
Qed.

Lemma parts_exchange v m m' ptr n i lt j gt x y :
  parts v m ptr n i lt (j + 1) gt -> part_bounds n i lt (j + 1) gt -> i < j -> 0 <= ptr ->
  at_ m (ptr + i) x -> le v x -> ~ le x v -> at_ m (ptr + j) y -> le y v -> ~ le v y ->
  swapped m m' (ptr + i) (ptr + j) ->
  parts v m' ptr n (i + 1) lt j gt.
Proof.
  intros [Hp H1 H2 H3 H4] Hb Hij Hptr Hx Hvx Hxv Hy Hyv Hvy Hs. unfold part_bounds in Hb. split.
  - apply (proj2 (proj2 Hs)). unfold transp. by decide_ifs lia.
  - eapply all_in_swapped; [exact Hs|]. intros k z Hk Hz. transp_case. apply (H1 k); (done || lia).
  - eapply all_in_swapped; [exact Hs|]. intros k z Hk Hz. transp_case.
    + by rewrite (at_det _ _ _ _ Hz Hy).
    + apply (H2 k); (done || lia).
  - eapply all_in_swapped; [exact Hs|]. intros k z Hk Hz. transp_case.
    + by rewrite (at_det _ _ _ _ Hz Hx).
    + apply (H3 k); (done || lia).
  - eapply all_in_swapped; [exact Hs|]. intros k z Hk Hz. transp_case. apply (H4 k); (done || lia).
Qed.

Definition above m k v : Prop := forall x, at_ m k x -> le v x /\ ~ le x v.
Definition beneath m k v : Prop := forall x, at_ m k x -> le x v /\ ~ le v x.

Lemma all_in_extend_r m lo hi hi' (P : A -> Prop) :
  all_in m lo hi P -> hi' <= hi + 1 -> (forall x, at_ m hi x -> P x) -> all_in m lo hi' P.
Proof.
  intros H Hhi HP k x Hk Hx. destruct (Z.eq_dec k hi) as [->|Hne]; [auto|].
  apply (H k); (done || lia).
Qed.

Lemma all_in_extend_l m lo lo' hi (P : A -> Prop) :
  all_in m lo hi P -> lo - 1 <= lo' -> (forall x, at_ m (lo - 1) x -> P x) -> all_in m lo' hi P.
Proof.
  intros H Hlo HP k x Hk Hx. destruct (Z.eq_dec k (lo - 1)) as [->|Hne]; [auto|].
  apply (H k); (done || lia).
Qed.

Lemma swapped_shuffled lo hi m0 m m' i j :
  shuffled lo hi m0 m -> lo <= i < hi -> lo <= j < hi -> swapped m m' i j -> shuffled lo hi m0 m'.
Proof. intros Hsh Hi Hj Hs. exact (shuffled_swap lo hi m0 m m' i j Hsh Hi Hj Hs). Qed.

Section Scan.
Context (m0 : list A) (ptr n : Z) (v : A).
Context (Hptr : 0 <= ptr) (Hlen : ptr + n <= zlen m0) (H2n : 2 <= n).

Definition part_state m (i lt j gt : Z) : Prop :=
  shuffled ptr (ptr + n) m0 m /\ part_bounds n i lt j gt /\ i <= j /\
  (consistent -> parts v m ptr n i lt j gt).

Lemma scan_up_spec fuel s m i lt j gt :
  part_state m i lt j gt -> (Z.to_nat (j - i) < fuel)%nat ->
  post (iter fuel (scan_up_step cmp ptr j) (s, m, i, lt)) (fun '(s', m', i', lt') =>
    part_state m' i' lt' j gt /\ i <= i' /\ (consistent -> i' < j -> above m' (ptr + i') v)).
Proof.
  intros HS Hf. apply (post_iter (fun '(s, m, i', lt) => part_state m i' lt j gt /\ i <= i')
    (fun '(s, m, i, lt) => Z.to_nat (j - i))); [|split; [done|lia]|done].
  clear HS Hf s m lt. intros [[[s m] i'] lt] [(Hsh & Hb & Hij & Hp) Hi].
  pose proof (shuffled_zlen _ _ _ _ Hsh) as Hz. pose proof Hb as Hb'. unfold part_bounds in Hb'.
  unfold scan_up_step. destruct (Z.ltb_spec i' j) as [Hlt|Hge]; cycle 1.
  { apply post_ret. split; [by split_and!|]. split; [lia|]. lia. }
  apply post_bind, post_cmp_at; [lia|lia|]. intros s' c Hc.
  destruct (at_exists m (ptr + i')) as [x Hx]; [lia|].
  destruct (Z.leb_spec 0 c) as [Hpos|Hneg]; [destruct (Z.eqb_spec c 0) as [->|Hne]|].
  - apply post_bind, post_swap; [lia|lia|]. intros m' Hs. apply post_ret. split; [|lia].
    split; [|lia]. split_and!.
    + eapply swapped_shuffled; [exact Hsh| | |exact Hs]; lia.
    + unfold part_bounds. lia.
    + lia.
    + intros Hcons. pose proof (Hp Hcons) as Hpc. destruct (Hc Hcons _ _ (p_pivot _ _ _ _ _ _ _ _ Hpc) Hx).
      eapply parts_eq_lo; try done; [tauto|tauto].
  - apply post_ret. split; [|lia]. split; [|lia]. split_and!; [done|unfold part_bounds; lia|lia|].
    intros Hcons. pose proof (Hp Hcons) as [Hv H1 H2 H3 H4]. destruct (Hc Hcons _ _ Hv Hx) as [Ha Hb''].
    split; try done. apply (all_in_extend_r m _ (ptr + i')); [done|lia|]. intros y Hy.
    rewrite (at_det _ _ _ _ Hy Hx). split; [apply Hb''; lia|]. rewrite <- Ha. lia.
  - apply post_ret. split; [by split_and!|]. split; [lia|]. intros Hcons _ y Hy.
    destruct (Hc Hcons _ _ (p_pivot _ _ _ _ _ _ _ _ (Hp Hcons)) Hy) as [Ha Hb''].
    split; [apply Ha; lia|]. rewrite <- Hb''. lia.
Qed.

Lemma scan_down_spec fuel s m i lt j gt :
  part_state m i lt j gt -> (consistent -> i < j -> above m (ptr + i) v) ->
  (Z.to_nat (j - i) < fuel)%nat ->
  post (iter fuel (scan_down_step cmp ptr i) (s, m, j, gt)) (fun '(s', m', j', gt') =>
    j' < j /\ if j' <=? i then part_state m' i lt i gt'
    else part_state m' i lt (j' + 1) gt' /\
         (consistent -> above m' (ptr + i) v /\ beneath m' (ptr + j') v)).
Proof.
  intros HS Hab Hf. apply (post_iter (fun '(s, m, j', gt) => part_state m i lt j' gt /\ j' <= j /\
      (consistent -> i < j' -> above m (ptr + i) v))
    (fun '(s, m, j, gt) => Z.to_nat (j - i))); [|split; [done|split; [lia|done]]|done].
  clear HS Hab Hf s m gt. intros [[[s m] j'] gt] ((Hsh & Hb & Hij & Hp) & Hj & Hab).
  pose proof (shuffled_zlen _ _ _ _ Hsh) as Hz. pose proof Hb as Hb'. unfold part_bounds in Hb'.
  unfold scan_down_step. destruct (Z.ltb_spec i (j' - 1)) as [Hlt|Hge]; cycle 1.
  { apply post_ret. split; [lia|]. replace (j' - 1 <=? i) with true by lia.
    split_and!; [done|unfold part_bounds; lia|lia|]. intros Hcons.
    destruct (Hp Hcons) as [Hv H1 H2 H3 H4]. split; try done.
    destruct (Z.eq_dec i j') as [->|Hne]; [done|].
    apply (all_in_extend_l m (ptr + j')); [done|lia|]. intros x Hx.
    apply (Hab Hcons); [lia|]. by replace (ptr + i) with (ptr + j' - 1) by lia. }
  apply post_bind, post_cmp_at; [lia|lia|]. intros s' c Hc.
  destruct (at_exists m (ptr + (j' - 1))) as [x Hx]; [lia|].
  destruct (Z.leb_spec c 0) as [Hneg|Hpos]; [destruct (Z.eqb_spec c 0) as [->|Hne]|].
  - apply post_bind, post_swap; [lia|lia|]. intros m' Hs. apply post_ret. split; [|lia].
    split; [|split; [lia|]]; [split_and!|].
    + eapply swapped_shuffled; [exact Hsh| | |exact Hs]; lia.
    + unfold part_bounds. lia.
    + lia.
    + intros Hcons. pose proof (Hp Hcons) as Hpc. destruct (Hc Hcons _ _ (p_pivot _ _ _ _ _ _ _ _ Hpc) Hx).
      replace j' with (j' - 1 + 1) in Hpc, Hb by lia.
      eapply parts_eq_hi; try done; [tauto|tauto].
    + intros Hcons _ y Hy. apply (proj2 (proj2 Hs)) in Hy. unfold transp in Hy.
      replace (ptr + i =? ptr + (gt - 1)) with false in Hy by lia.
      replace (ptr + i =? ptr + (j' - 1)) with false in Hy by lia. apply (Hab Hcons); [lia|done].
  - apply post_ret. split; [|lia]. split; [|split; [lia|]].
    + split_and!; [done|unfold part_bounds; lia|lia|].
      intros Hcons. pose proof (Hp Hcons) as [Hv H1 H2 H3 H4]. destruct (Hc Hcons _ _ Hv Hx) as [Ha Hb''].
      split; try done. apply (all_in_extend_l m (ptr + j')); [done|lia|]. intros y Hy.
      replace (ptr + j' - 1) with (ptr + (j' - 1)) in Hy by lia.
      rewrite (at_det _ _ _ _ Hy Hx). split; [apply Ha; lia|]. rewrite <- Hb''. lia.
    + intros Hcons _. apply (Hab Hcons). lia.
  - apply post_ret. split; [lia|]. replace (j' - 1 <=? i) with false by lia.
    replace (j' - 1 + 1) with j' by lia. split; [by split_and!|]. intros Hcons.
    split; [apply (Hab Hcons); lia|]. intros y Hy.
    destruct (Hc Hcons _ _ (p_pivot _ _ _ _ _ _ _ _ (Hp Hcons)) Hy) as [Ha Hb''].
    split; [apply Hb''; lia|]. rewrite <- Ha. lia.
Qed.

Lemma partition_loop fuel s m :
  part_state m 1 1 n n -> (Z.to_nat n < fuel)%nat ->
  post (iter fuel (partition_step cmp fuel ptr) (s, m, 1, 1, n, n))
    (fun '(s', m', i, lt, gt) => part_state m' i lt i gt).
Proof.
  intros HS Hf. apply (post_iter (fun '(s, m, i, lt, j, gt) => part_state m i lt j gt)
    (fun '(s, m, i, lt, j, gt) => Z.to_nat (j - i))); [|done|lia].
  clear HS s m. intros [[[[[s m] i] lt] j] gt] HS. pose proof HS as (_ & Hb & Hij & _).
  unfold part_bounds in Hb. unfold partition_step.
  apply post_bind. eapply post_mono; [apply (scan_up_spec fuel s m i lt j gt HS); lia|].
  intros [[[s1 m1] i1] lt1] (HS1 & Hi1 & Hab1). pose proof HS1 as (_ & Hb1 & Hij1 & _).
  unfold part_bounds in Hb1.
  apply post_bind. eapply post_mono; [apply (scan_down_spec fuel s1 m1 i1 lt1 j gt HS1 Hab1); lia|].
  intros [[[s2 m2] j2] gt2] (Hj2 & HS2). destruct (Z.leb_spec j2 i1) as [Hle|Hgt];
    [by apply post_ret|]. destruct HS2 as ((Hsh & Hb2 & Hij2 & Hp) & Hxy).
  pose proof (shuffled_zlen _ _ _ _ Hsh) as Hz. pose proof Hb2 as Hb2'. unfold part_bounds in Hb2'.
  apply post_bind, post_swap; [lia|lia|]. intros m3 Hs. apply post_ret. split; [|lia].
  destruct (at_exists m2 (ptr + i1)) as [x Hx]; [lia|].
  destruct (at_exists m2 (ptr + j2)) as [y Hy]; [lia|]. split_and!.
  - eapply swapped_shuffled; [exact Hsh| | |exact Hs]; lia.
  - unfold part_bounds. lia.
  - lia.
  - intros Hcons. destruct (Hxy Hcons) as [Ha Hbe]. destruct (Ha x Hx), (Hbe y Hy).
    by apply (parts_exchange v m2 m3 ptr n i1 lt1 j2 gt2 x y (Hp Hcons)).
Qed.
End Scan.

(** ** Moving the elements identical to the pivot *)

(** The index that the exchange of two blocks takes to [k]. *)
Definition blk (a b n k : Z) : Z :=
  if (a <=? k) && (k <? a + n) then k - a + b
  else if (b <=? k) && (k <? b + n) then k - b + a else k.

Lemma blk_cases a b n k :
  a <= k < a + n /\ blk a b n k = k - a + b \/
  ~ (a <= k < a + n) /\ b <= k < b + n /\ blk a b n k = k - b + a \/
  ~ (a <= k < a + n) /\ ~ (b <= k < b + n) /\ blk a b n k = k.
Proof.
  unfold blk. destruct (Z.leb_spec a k), (Z.ltb_spec k (a + n)), (Z.leb_spec b k),
    (Z.ltb_spec k (b + n)); cbn [andb]; lia.
Qed.

Lemma swap_block_spec lo hi m a b n :
  lo <= a -> a + n <= b -> b + n <= hi -> 0 <= lo -> hi <= zlen m -> 0 <= n ->
  post (swap_block m a b n) (fun m' =>
    shuffled lo hi m m' /\ forall k x, at_ m' k x <-> at_ m (blk a b n k) x).
Proof.
  intros Ha Hab Hb Hlo Hhi Hn. unfold swap_block.
  apply (post_iter (fun '(t, m') => 0 <= t <= n /\ shuffled lo hi m m' /\
      forall k x, at_ m' k x <-> at_ m (blk a b t k) x) (fun '(t, m') => Z.to_nat (n - t))).
  - intros [t m'] (Ht & Hsh & Hat). pose proof (shuffled_zlen _ _ _ _ Hsh) as Hz.
    destruct (Z.ltb_spec t n) as [Hlt|Hge].
    + apply post_bind, post_swap; [lia|lia|]. intros m2 Hs. apply post_ret. split; [|lia].
      split; [lia|]. split; [eapply swapped_shuffled; [exact Hsh| | |exact Hs]; lia|].
      intros k x. rewrite (proj2 (proj2 Hs)), Hat.
      replace (blk a b t (transp (a + t) (b + t) k)) with (blk a b (t + 1) k); [done|].
      unfold transp. destruct (Z.eqb_spec k (a + t)) as [->|]; [|destruct (Z.eqb_spec k (b + t)) as [->|]].
      * pose proof (blk_cases a b t (b + t)). pose proof (blk_cases a b (t + 1) (a + t)). lia.
      * pose proof (blk_cases a b t (a + t)). pose proof (blk_cases a b (t + 1) (b + t)). lia.
      * pose proof (blk_cases a b t k). pose proof (blk_cases a b (t + 1) k). lia.
    + apply post_ret. assert (t = n) as -> by lia. done.
  - split; [lia|]. split; [apply shuffled_refl|]. intros k x.
    replace (blk a b 0 k) with k; [done|]. pose proof (blk_cases a b 0 k). lia.
  - lia.
Qed.

Lemma all_in_blk m m' a b n lo hi (P : A -> Prop) :
  (forall k x, at_ m' k x <-> at_ m (blk a b n k) x) ->
  (forall k x, lo <= k < hi -> at_ m (blk a b n k) x -> P x) -> all_in m' lo hi P.
Proof. intros Hat H k x Hk Hx. apply Hat in Hx. by apply (H k). Qed.

(** The three parts of a partitioned segment. *)
Record partitioned (v : A) m (ptr n lt gt : Z) : Prop := {
  d_less : all_in m ptr (ptr + lt) (fun x => le x v);
  d_same : all_in m (ptr + lt) (ptr + gt) (fun x => le x v /\ le v x);
  d_greater : all_in m (ptr + gt) (ptr + n) (fun x => le v x)
}.

Lemma partition_spec s m ptr n :
  0 <= ptr -> 6 < n -> ptr + n <= zlen m ->
  post (partition cmp s m ptr n) (fun '(s', m', lt, gt) =>
    shuffled ptr (ptr + n) m m' /\ 0 <= lt < gt /\ gt <= n /\
    (consistent -> exists v, partitioned v m' ptr n lt gt)).
Proof.
  intros Hptr Hn Hlen. unfold partition.
  assert (Z.shiftr n 2 = n / 4) as -> by (by apply shiftr_div).
  assert (0 <= n / 4 /\ 3 * (n / 4) < n) as Hq by zlia. set (q := n / 4) in *.
  apply post_bind, (post_mono _ (fun '(_, p) => p = ptr + q \/ p = ptr + 2 * q \/ p = ptr + 3 * q)).
  { unfold med3. repeat first
      [ apply post_ret; match goal with |- context [if ?b then _ else _] => destruct b | |- _ => idtac end; lia
      | apply post_bind; apply post_cmp_at; [lia|lia|]; intros ? ? _
      | apply post_if; intros _ ]. }
  intros [s1 p] Hp. apply post_bind, post_swap; [lia|lia|]. intros m1 Hs1.
  pose proof Hs1 as (_ & Hz1 & _). destruct (at_exists m1 ptr) as [v Hv]; [lia|].
  assert (shuffled ptr (ptr + n) m m1) as Hsh1
    by (apply (shuffled_one _ _ m m1 ptr p); [lia|lia|done]).
  apply post_bind. eapply post_mono.
  { apply (partition_loop m1 ptr n v); [lia|lia|lia| |lia].
    split_and!; [apply shuffled_refl|unfold part_bounds; lia|lia|].
    intros Hcons. destruct (le_total Hcons s v v) as [Hvv|Hvv];
      (split; [done|..]; intros k x Hk Hx; try lia;
       assert (k = ptr) as -> by lia; by rewrite (at_det _ _ _ _ Hx Hv)). }
  intros [[[[s2 m2] i] lt] gt] (Hsh2 & Hb & _ & Hparts). unfold part_bounds in Hb.
  pose proof (shuffled_zlen _ _ _ _ Hsh2) as Hz2.
  cbn zeta. set (span := if i - lt <? lt then i - lt else lt).
  assert (span = Z.min lt (i - lt)) as Hspan by (unfold span; destruct (Z.ltb_spec (i - lt) lt); lia).
  apply post_bind. eapply post_mono.
  { apply (swap_block_spec ptr (ptr + n)); lia. }
  intros m3 [Hsh3 Hat3]. pose proof (shuffled_zlen _ _ _ _ Hsh3) as Hz3.
  set (span2 := if gt - i <? n - gt then gt - i else n - gt).
  assert (span2 = Z.min (n - gt) (gt - i)) as Hspan2
    by (unfold span2; destruct (Z.ltb_spec (gt - i) (n - gt)); lia).
  apply post_bind. eapply post_mono.
  { apply (swap_block_spec ptr (ptr + n)); lia. }
  intros m4 [Hsh4 Hat4]. apply post_ret. split; [|split; [lia|split; [lia|]]].
  { eapply shuffled_trans; [exact Hsh1|]. eapply shuffled_trans; [exact Hsh2|].
    by eapply shuffled_trans. }
  intros Hcons. exists v. destruct (Hparts Hcons) as [_ H1 H2 H3 H4].
  clearbody span span2. split; intros k x Hk Hx; apply Hat4, Hat3 in Hx;
    pose proof (blk_cases (ptr + i) (ptr + n - span2) span2 k) as B4;
    set (k4 := blk _ _ span2 k) in *;
    pose proof (blk_cases ptr (ptr + i - span) span k4) as B3;
    set (k3 := blk _ _ span k4) in *.
  - apply (H2 k3); [lia|done].
  - destruct (Z.lt_ge_cases k3 (ptr + i)).
    + apply (H1 k3); [lia|done].
    + apply (H4 k3); [lia|done].
  - apply (H3 k3); [lia|done].
Qed.

(** ** The segments left to sort *)

Definition in_seg (segs : list frame) (a b : Z) : Prop :=
  Exists (fun '(p, c, _) => p <= a /\ b < p + c) segs.

Definition apart (p c : Z) (f : frame) : Prop :=
  let '(q, d, _) := f in p + c <= q \/ q + d <= p.

Fixpoint segs_ok (lo hi : Z) (segs : list frame) : Prop :=
  match segs with
  | [] => True
  | (p, c, _) :: segs =>
      lo <= p /\ 0 <= c /\ p + c <= hi /\ Forall (apart p c) segs /\ segs_ok lo hi segs
  end.

(** The elements are ordered, but for those of one segment. *)
Definition pending m (lo hi : Z) (segs : list frame) : Prop :=
  forall a b x y, lo <= a -> a < b -> b < hi -> at_ m a x -> at_ m b y ->
    le x y \/ in_seg segs a b.

(** The depths of the frames increase towards the top of the stack. *)
Fixpoint stack_ok (d : Z) (stk : list frame) : Prop :=
  match stk with
  | [] => 0 <= d
  | (_, _, e) :: stk => e < d /\ stack_ok e stk
  end.

Fixpoint weight (stk : list frame) : Z :=
  match stk with
  | [] => 0
  | (_, c, _) :: stk => c + 1 + weight stk
  end.

Lemma stack_ok_mono d d' stk : stack_ok d stk -> d <= d' -> stack_ok d' stk.
Proof. destruct stk as [|[[p c] e] stk]; cbn [stack_ok]; [lia|]. intros [? ?] ?. split; [lia|done]. Qed.

Lemma stack_ok_length d stk : stack_ok d stk -> zlen stk <= d.
Proof.
  revert d. induction stk as [|[[p c] e] stk IH]; intros d; cbn [stack_ok]; [done|].
  intros [He H]. apply IH in H. rewrite zlen_cons. lia.
Qed.

Lemma push_spec stk f : zlen stk < 50 -> push stk f = Ret (f :: stk).
Proof.
  intros H. unfold push. destruct (Nat.ltb_spec (length stk) 50); [done|]. unfold zlen in H. lia.
Qed.

Lemma in_seg_apart p c segs a b k :
  in_seg segs a b -> Forall (apart p c) segs -> (a <= k <= b) -> p <= k < p + c -> False.
Proof.
  intros Hin Hap Hk Hp. induction Hin as [[[q d] e] segs Hq|f segs _ IH];
    inversion_clear Hap; [|auto]. unfold apart in *. lia.
Qed.

(** The elements of the top segment are rearranged and its pairs settled, or
    left to smaller segments. *)
Lemma pending_refine m m' lo hi p c e segs segs' :
  pending m lo hi ((p, c, e) :: segs) -> Forall (apart p c) segs -> lo <= p -> p + c <= hi ->
  shuffled p (p + c) m m' ->
  (forall a b x y, p <= a -> a < b -> b < p + c -> at_ m' a x -> at_ m' b y ->
     le x y \/ in_seg segs' a b) ->
  pending m' lo hi (segs' ++ segs).
Proof.
  intros HP Hap Hlo Hhi Hsh Hnew a b x y Ha Hab Hb Hx Hy.
  assert (forall a' b', (p <= a' < p + c \/ p <= b' < p + c) -> a' < b' -> in_seg segs a' b' -> False)
    as Hno.
  { intros a' b' [H|H] Hlt Hin; [apply (in_seg_apart p c segs a' b' a')|
      apply (in_seg_apart p c segs a' b' b')]; (done || lia). }
  destruct (decide (p <= a < p + c)) as [Hpa|Hpa], (decide (p <= b < p + c)) as [Hpb|Hpb].
  - destruct (Hnew a b x y) as [H|H]; try done; try lia; [by left|right].
    apply Exists_app. by left.
  - destruct (shuffled_inside _ _ _ _ a x Hsh Hpa Hx) as (a' & Ha' & Hx').
    rewrite (shuffled_outside _ _ _ _ b y Hsh) in Hy by lia. left.
    destruct (HP a' b x y) as [H|H]; try done; try lia. inversion_clear H as [? ? H1|? ? H1]; [lia|].
    exfalso. apply (Hno a' b); (done || lia).
  - destruct (shuffled_inside _ _ _ _ b y Hsh Hpb Hy) as (b' & Hb' & Hy').
    rewrite (shuffled_outside _ _ _ _ a x Hsh) in Hx by lia. left.
    destruct (HP a b' x y) as [H|H]; try done; try lia. inversion_clear H as [? ? H1|? ? H1]; [lia|].
    exfalso. apply (Hno a b'); (done || lia).
  - rewrite (shuffled_outside _ _ _ _ a x Hsh) in Hx by lia.
    rewrite (shuffled_outside _ _ _ _ b y Hsh) in Hy by lia.
    destruct (HP a b x y) as [H|H]; try done; [by left|].
    inversion_clear H as [? ? H1|? ? H1]; cycle 1.
    { right. apply Exists_app. by right. }
    lia.
Qed.

Lemma apart_sub p c p' c' segs :
  Forall (apart p c) segs -> p <= p' -> 0 <= c' -> p' + c' <= p + c -> Forall (apart p' c') segs.
Proof.
  intros H Hp Hc Hpc. eapply Forall_impl; [|exact H]. intros [[q d] e]. unfold apart. lia.
Qed.

Section Segments.
Context (m0 : list A) (lo hi : Z) (Hlo : 0 <= lo) (Hhi : hi <= zlen m0).

Definition sort_state m (segs : list frame) : Prop :=
  shuffled lo hi m0 m /\ segs_ok lo hi segs /\ (consistent -> pending m lo hi segs).

Lemma sort_state_bounds m p c e segs :
  sort_state m ((p, c, e) :: segs) -> 0 <= p /\ 0 <= c /\ p + c <= zlen m.
Proof. intros (Hsh & (? & ? & ? & _) & _). rewrite (shuffled_zlen _ _ _ _ Hsh). lia. Qed.

(** The top segment is sorted; what is left of it, if anything, is empty or
    still sorted. *)
Lemma sort_state_sorted m m' p c e segs :
  sort_state m ((p, c, e) :: segs) -> shuffled p (p + c) m m' ->
  (consistent -> sorted_on m' p (p + c)) ->
  sort_state m' segs /\ forall c' e', 0 <= c' <= c -> sort_state m' ((p, c', e') :: segs).
Proof.
  intros (Hsh & (Hp & Hc & Hpc & Hap & Hok) & HP) Hsh' Hs.
  assert (shuffled lo hi m0 m') as Hsh2.
  { eapply shuffled_trans; [exact Hsh|]. eapply shuffled_mono; [exact Hsh'|lia|lia]. }
  assert (consistent -> pending m' lo hi segs) as HP'.
  { intros Hcons. apply (pending_refine m m' lo hi p c e segs []); try done; [by apply HP|].
    intros a b x y Ha Hab Hb Hx Hy. left. by apply (Hs Hcons a b). }
  split; [done|]. intros c' e' Hc'. split; [done|]. split.
  - cbn [segs_ok]. split_and!; try done; try lia. eapply apart_sub; [exact Hap|lia..].
  - intros Hcons a b x y Ha Hab Hb Hx Hy.
    destruct (HP' Hcons a b x y) as [H|H]; try done; [by left|right]. by right.
Qed.

(** The top segment is partitioned; the first of the two parts named becomes
    the top segment. *)
Lemma sort_state_split m m' p c e segs l g e1 e2 :
  sort_state m ((p, c, e) :: segs) -> shuffled p (p + c) m m' -> 0 <= l < g -> g <= c ->
  (consistent -> exists v, partitioned v m' p c l g) ->
  sort_state m' ((p + g, c - g, e1) :: (p, l, e2) :: segs) /\
  sort_state m' ((p, l, e1) :: (p + g, c - g, e2) :: segs).
Proof.
  intros (Hsh & (Hp & Hc & Hpc & Hap & Hok) & HP) Hsh' Hlg Hgc Hpart.
  assert (shuffled lo hi m0 m') as Hsh2.
  { eapply shuffled_trans; [exact Hsh|]. eapply shuffled_mono; [exact Hsh'|lia|lia]. }
  assert (Forall (apart p l) segs) as Hap1 by (eapply apart_sub; [exact Hap|lia..]).
  assert (Forall (apart (p + g) (c - g)) segs) as Hap2 by (eapply apart_sub; [exact Hap|lia..]).
  assert (consistent -> forall e1 e2 segs', segs' = [(p + g, c - g, e1); (p, l, e2)] \/
      segs' = [(p, l, e1); (p + g, c - g, e2)] -> pending m' lo hi (segs' ++ segs)) as HP'.
  { intros Hcons f1 f2 segs' Hsegs.
    apply (pending_refine m m' lo hi p c e segs segs'); try done; [by apply HP|].
    assert (forall a b, (p <= a /\ b < p + l) \/ (p + g <= a /\ b < p + c) -> in_seg segs' a b) as Hin.
    { intros a b Hab. unfold in_seg. destruct Hsegs as [->| ->]; rewrite !Exists_cons;
        (destruct Hab; [|]); first [left; lia | right; left; lia]. }
    destruct (Hpart Hcons) as [v [D1 D2 D3]]. destruct Hcons as [Hc1 Htr].
    intros a b x y Ha Hab Hb Hx Hy.
    destruct (Z.lt_ge_cases b (p + l)); [right; apply Hin; lia|].
    destruct (Z.le_gt_cases (p + g) a); [right; apply Hin; lia|]. left. apply (Htr x v).
    - destruct (Z.lt_ge_cases a (p + l)); [apply (D1 a)|apply (D2 a)]; (done || lia).
    - destruct (Z.lt_ge_cases b (p + g)); [apply (D2 b)|apply (D3 b)]; (done || lia). }
  split; (split; [done|split]).
  - cbn [segs_ok]. split_and!; try done; try lia. constructor; [cbn; lia|done].
  - intros Hcons. apply (HP' Hcons e1 e2 [(p + g, c - g, e1); (p, l, e2)]). by left.
  - cbn [segs_ok]. split_and!; try done; try lia. constructor; [cbn; lia|done].
  - intros Hcons. apply (HP' Hcons e1 e2 [(p, l, e1); (p + g, c - g, e2)]). by right.
Qed.
End Segments.

Lemma segment_loop m0 lo hi fuel s m stk ptr c e :
  0 <= lo -> hi <= zlen m0 -> sort_state m0 lo hi m ((ptr, c, e) :: stk) ->
  stack_ok e stk -> 0 <= e <= 50 -> (Z.to_nat c < fuel)%nat ->
  post (iter fuel (segment_step cmp) (s, m, stk, ptr, c, e)) (fun '(s', m', stk', ptr', c') =>
    sort_state m0 lo hi m' ((ptr', c', e) :: stk') /\ stack_ok 51 stk' /\
    weight stk' + c' <= weight stk + c).
Proof.
  intros Hlo Hhi HS Hstk He Hf.
  apply (post_iter (fun '(s, m, stk', ptr, c', d) =>
      sort_state m0 lo hi m ((ptr, c', e) :: stk') /\ stack_ok (d + 1) stk' /\ zlen stk' <= d <= 50 /\
      weight stk' + c' <= weight stk + c)
    (fun '(s, m, stk, ptr, c, d) => Z.to_nat c)); [|split_and!|lia].
  - clear m HS Hf ptr Hstk s. intros [[[[[s m] stk'] ptr] c'] d] (HS & Hstk & Hd & Hw).
    pose proof (sort_state_bounds m0 lo hi Hlo Hhi _ _ _ _ _ HS) as (Hp & Hc & Hpc).
    unfold segment_step. destruct (Z.ltb_spec 6 c') as [H6|H6]; cycle 1.
    { apply post_ret. split; [done|]. split; [eapply stack_ok_mono; [exact Hstk|lia]|lia]. }
    destruct (Z.ltb_spec 50 (d + 1)) as [H50|H50].
    + apply post_bind. eapply post_mono; [by apply heapsortx_spec|].
      intros [s1 m1] [Hsh1 Hs1]. cbn in Hsh1, Hs1. apply post_ret. split.
      * by apply (sort_state_sorted m0 lo hi m m1 ptr c' e stk' HS Hsh1 Hs1).
      * split; [eapply stack_ok_mono; [exact Hstk|lia]|lia].
    + apply post_bind. eapply post_mono; [by apply partition_spec; [|lia|]|].
      intros [[[s1 m1] l] g] (Hsh1 & Hlg & Hg & Hpart).
      pose proof (sort_state_split m0 lo hi m m1 ptr c' e stk' l g e (d + 1) HS Hsh1 Hlg Hg Hpart)
        as [HS1 HS2].
      destruct (Z.ltb_spec (c' - g) l); rewrite push_spec by lia; cbn [obind]; apply post_ret;
        (split; [|lia]); (split; [done|]); cbn [stack_ok weight]; rewrite zlen_cons;
        (split; [split; [lia|eapply stack_ok_mono; [exact Hstk|lia]]|lia]).
  - done.
  - eapply stack_ok_mono; [exact Hstk|lia].
  - by apply stack_ok_length.
  - lia.
  - done.
Qed.

Lemma weight_nonneg m0 lo hi m stk : sort_state m0 lo hi m stk -> 0 <= weight stk.
Proof.
  intros (_ & Hok & _). induction stk as [|[[p c] e] stk IH]; cbn [weight segs_ok] in *; [lia|].
  destruct Hok as (_ & ? & _ & _ & Hok). specialize (IH Hok). lia.
Qed.

Lemma rqsort_sorts s m base n :
  0 <= base -> 0 <= n -> base + n <= zlen m ->
  post (rqsort cmp s m base n) (sorts base (base + n) m (fun m' => sorted_on m' base (base + n))).
Proof.
  intros Hb Hn Hlen. unfold rqsort. destruct (Z.ltb_spec n 2) as [H2|H2].
  { apply post_ret. split; [apply shuffled_refl|]. intros _ a b x y. lia. }
  cbn [push length Nat.ltb Nat.leb obind].
  apply (post_iter (fun '(s, m', stk) => sort_state m base (base + n) m' stk /\ stack_ok 51 stk)
    (fun '(s, m', stk) => Z.to_nat (weight stk))); [|split|cbn [weight]; lia].
  - intros [[s1 m1] stk] [HS Hstk]. destruct stk as [|[[ptr c] e] stk]; cbn [rqsort_step].
    + apply post_ret. destruct HS as (Hsh & _ & HP). split; [done|]. intros Hc a b x y Ha Hab Hbn Hx Hy.
      destruct (HP Hc a b x y) as [H|H]; try done. inversion H.
    + destruct Hstk as [He Hstk]. pose proof (stack_ok_length _ _ Hstk) as Hl.
      pose proof (zlen_nonneg stk). apply post_bind.
      pose proof (sort_state_bounds m base (base + n) Hb Hlen _ _ _ _ _ HS) as (Hp & Hc & Hpc).
      eapply post_mono; [apply (segment_loop m base (base + n) _ s1 m1 stk ptr c e); try done; lia|].
      intros [[[[s2 m2] stk2] ptr2] c2] (HS2 & Hstk2 & Hw2).
      pose proof (sort_state_bounds m base (base + n) Hb Hlen _ _ _ _ _ HS2) as (Hp2 & Hc2 & Hpc2).
      apply post_bind. eapply post_mono; [by apply insertion_sort_spec|].
      intros [s3 m3] [Hsh3 Hs3]. cbn in Hsh3, Hs3. apply post_ret.
      destruct (sort_state_sorted m base (base + n) m2 m3 ptr2 c2 e stk2 HS2 Hsh3 Hs3) as [HS3 _].
      split; [done|]. pose proof (weight_nonneg _ _ _ _ _ HS3). cbn [weight]. lia.
  - split; [apply shuffled_refl|]. split.
    + cbn [segs_ok]. split_and!; (done || lia).
    + intros Hc a b x y Ha Hab Hbn Hx Hy. right. left. lia.
  - cbn [stack_ok]. lia.
Qed.
End Order.

(** ** Properties *)

(** C29: [rqsort] is safe for every comparison function, consistent or not and
    with any state: it returns, compares and exchanges only elements of the
    array, its stack of 50 entries never overflows, and the array it leaves is a
    permutation, unchanged outside the range sorted. *)
Theorem rqsort_permutes {S A : Type} (cmp : S -> A -> A -> S * Z) s m base n :
  0 <= base -> 0 <= n -> base + n <= zlen m ->
  post (rqsort cmp s m base n) (fun '(s', m') => m' ≡ₚ m /\
    forall k x, (k < base \/ base + n <= k) -> at_ m' k x <-> at_ m k x).
Proof.
  intros Hb Hn Hlen.
  eapply post_mono; [by apply (rqsort_sorts cmp (fun _ _ => True) s m base n)|].
  intros [s' m'] [Hsh _]. cbn in Hsh. split; [by eapply shuffled_Permutation|].
  intros k x Hk. by eapply shuffled_outside.
Qed.

Lemma rqsort_permutes_witness :
  rqsort (fun s (_ _ : Z) => (s + 1, -1)) 0 [9; 3; 1; 2; 5; 4; 8; 7; 6; 0] 1 8
  = Ret (22, [9; 4; 5; 2; 1; 3; 8; 7; 6; 0]) /\
  post (rqsort (fun s (_ _ : Z) => (s + 1, -1)) 0 [9; 3; 1; 2; 5; 4; 8; 7; 6; 0] 1 8)
    (fun '(s', m') => m' ≡ₚ [9; 3; 1; 2; 5; 4; 8; 7; 6; 0] /\
      forall k x, (k < 1 \/ 1 + 8 <= k) ->
        at_ m' k x <-> at_ [9; 3; 1; 2; 5; 4; 8; 7; 6; 0] k x).
Proof.
  split; [vm_compute; reflexivity|].
  apply (rqsort_permutes (fun s (_ _ : Z) => (s + 1, -1)) 0 [9; 3; 1; 2; 5; 4; 8; 7; 6; 0] 1 8);
    vm_compute; discriminate.
Defined.

(** C23: for a comparison function that decides a total preorder, [rqsort] leaves
    the range in order: quicksort with its partition into three parts, the
    heapsort fallback at depth 50 and the insertion sort of small segments
    together sort. *)
Theorem rqsort_ordered {S A : Type} (cmp : S -> A -> A -> S * Z) (le : A -> A -> Prop) s m base n :
  0 <= base -> 0 <= n -> base + n <= zlen m ->
  (forall s x y, ((cmp s x y).2 <= 0 <-> le x y) /\ (0 <= (cmp s x y).2 <-> le y x)) ->
  (forall x y z, le x y -> le y z -> le x z) ->
  post (rqsort cmp s m base n) (fun '(s', m') =>
    forall a b x y, base <= a -> a < b -> b < base + n -> at_ m' a x -> at_ m' b y -> le x y).
Proof.
  intros Hb Hn Hlen Hc Htr.
  eapply post_mono; [by apply (rqsort_sorts cmp le s m base n)|].
  intros [s' m'] [_ Hs]. by apply Hs.
Qed.

Lemma rqsort_ordered_witness :
  rqsort (fun s x y => (s, x - y)) tt [9; 3; 1; 2; 5; 4; 8; 7; 6; 0] 0 10
  = Ret (tt, [0; 1; 2; 3; 4; 5; 6; 7; 8; 9]) /\
  post (rqsort (fun s x y => (s, x - y)) tt [9; 3; 1; 2; 5; 4; 8; 7; 6; 0] 0 10) (fun '(s', m') =>
    forall a b x y, 0 <= a -> a < b -> b < 0 + 10 -> at_ m' a x -> at_ m' b y -> x <= y).
Proof.
  split; [vm_compute; reflexivity|].
  apply (rqsort_ordered (fun s x y => (s, x - y)) Z.le tt [9; 3; 1; 2; 5; 4; 8; 7; 6; 0] 0 10);
    try (vm_compute; discriminate); intros; cbn; lia.
Defined.
