(* ===== verification/Exchange.v ===== *)
(** The exchange functions of the sort of [cutils.c], on bytes.

    [m] is the memory of the array and [addr] the address of its first byte; an
    access of a machine word at an address that is not a multiple of its size is
    undefined and faults. *)
From Stdlib Require Import ZArith Lia Bool List.
From stdpp Require Import base tactics list numbers.
From S2P Require Import Prelude Rqsort.

(** A load and a store of a word of [w] bytes at [p]. *)
Definition load (addr w : Z) (m : list Z) (p : Z) : outcome (list Z) :=
  if (addr + p) mod w =? 0 then rd_slice m p w else Err OutOfBounds.

Definition store (addr w : Z) (m : list Z) (p : Z) (v : list Z) : outcome (list Z) :=
  if (addr + p) mod w =? 0 then wr_slice m p v else Err OutOfBounds.

(** [t = *ap; *ap = *bp; *bp = t]. *)
Definition exchange_word (addr w : Z) (m : list Z) (a b : Z) : outcome (list Z) :=
  let* t := load addr w m a in
  let* v := load addr w m b in
  let* m := store addr w m a v in
  store addr w m b t.

Definition exchange_int128 (addr : Z) (m : list Z) (a b : Z) : outcome (list Z) :=
  let* t := load addr 8 m a in
  let* u := load addr 8 m (a + 8) in
  let* v := load addr 8 m b in
  let* m := store addr 8 m a v in
  let* v := load addr 8 m (b + 8) in
  let* m := store addr 8 m (a + 8) v in
  let* m := store addr 8 m b t in
  store addr 8 m (b + 8) u.

(** [for (size /= w; size-- != 0;)], the pointers advancing by [w]. *)
Definition exchange_words (exch : list Z -> Z -> Z -> outcome (list Z)) (w : Z) (m : list Z)
    (a b size : Z) : outcome (list Z) :=
  iter (S (Z.to_nat size)) (fun '(n, a, b, m) =>
    if n =? 0 then Ret (inr m)
    else let* m := exch m a b in Ret (inl (n - 1, a + w, b + w, m))) (size / w, a, b, m).

Inductive exchange_f :=
  | exchange_bytes | exchange_one_byte
  | exchange_int16s | exchange_one_int16
  | exchange_int32s | exchange_one_int32
  | exchange_int64s | exchange_one_int64
  | exchange_int128s | exchange_one_int128.

(** The call [f(a, b, size)]. *)
Definition exchange (f : exchange_f) (addr : Z) (m : list Z) (a b size : Z) : outcome (list Z) :=
  match f with
  | exchange_bytes => exchange_words (exchange_word addr 1) 1 m a b size
  | exchange_one_byte => exchange_word addr 1 m a b
  | exchange_int16s => exchange_words (exchange_word addr 2) 2 m a b size
  | exchange_one_int16 => exchange_word addr 2 m a b
  | exchange_int32s => exchange_words (exchange_word addr 4) 4 m a b size
  | exchange_one_int32 => exchange_word addr 4 m a b
  | exchange_int64s => exchange_words (exchange_word addr 8) 8 m a b size
  | exchange_one_int64 => exchange_word addr 8 m a b
  | exchange_int128s => exchange_words (exchange_int128 addr) 16 m a b size
  | exchange_one_int128 => exchange_int128 addr m a b
  end.

Definition exchange_func (base size : Z) : exchange_f :=
  let k := Z.land (Z.lor base size) 15 in
  if k =? 0 then if size =? 16 then exchange_one_int128 else exchange_int128s
  else if k =? 8 then if size =? 8 then exchange_one_int64 else exchange_int64s
  else if (k =? 4) || (k =? 12) then
    if size =? 4 then exchange_one_int32 else exchange_int32s
  else if (k =? 2) || (k =? 6) || (k =? 10) || (k =? 14) then
    if size =? 2 then exchange_one_int16 else exchange_int16s
  else if size =? 1 then exchange_one_byte else exchange_bytes.

(** * Lemmas *)

(** The cells of [m'] are those of [m] with the blocks of [n] bytes at [a] and
    [b] exchanged. *)
Definition exchanged (m m' : list Z) (a b n : Z) : Prop :=
  zlen m' = zlen m /\ forall k x, at_ m' k x <-> at_ m (blk a b n k) x.

(** Blocks that are the same or do not overlap. *)
Definition separate (a b n : Z) : Prop := a = b \/ a + n <= b \/ b + n <= a.

Definition in_block (m : list Z) (a n : Z) : Prop := 0 <= a /\ a + n <= zlen m.

Lemma rd_slice_exists {A : Type} (m : list A) p n :
  0 <= p -> 0 <= n -> p + n <= zlen m -> exists t, rd_slice m p n = Ret t.
Proof. intros. rewrite rd_slice_in by done. eauto. Qed.

Lemma load_ok addr w m p :
  (addr + p) mod w = 0 -> 0 <= w -> in_block m p w ->
  exists t, load addr w m p = Ret t /\ zlen t = w /\
    forall i x, at_ t i x <-> 0 <= i < w /\ at_ m (p + i) x.
Proof.
  intros Hal Hw [Hp Hl]. unfold load. rewrite Hal. cbn [Z.eqb].
  destruct (rd_slice_exists m p w Hp Hw Hl) as [t Ht]. exists t. split; [done|].
  by apply at_rd_slice.
Qed.

Lemma store_ok addr w m p v :
  (addr + p) mod w = 0 -> zlen v = w -> in_block m p w ->
  exists m', store addr w m p v = Ret m' /\ zlen m' = zlen m /\
    forall i x, at_ m' i x <->
      if (p <=? i) && (i <? p + w) then at_ v (i - p) x else at_ m i x.
Proof.
  intros Hal Hv [Hp Hl]. unfold store. rewrite Hal. cbn [Z.eqb].
  destruct (wr_slice_exists m p v) as [m' Hm']; [done|lia|]. exists m'. split; [done|].
  rewrite <- Hv. by apply at_wr_slice.
Qed.

Ltac cell_cases :=
  repeat match goal with
  | |- context [(?a <=? ?k) && (?k <? ?b)] =>
      destruct (Z.leb_spec a k), (Z.ltb_spec k b); cbn [andb]
  end.

Lemma exchange_word_ok addr w m a b :
  (addr + a) mod w = 0 -> (addr + b) mod w = 0 -> 0 < w ->
  in_block m a w -> in_block m b w -> separate a b w ->
  exists m', exchange_word addr w m a b = Ret m' /\ exchanged m m' a b w.
Proof.
  intros Ha Hb Hw Hia Hib Hsep. unfold exchange_word.
  destruct (load_ok addr w m a Ha ltac:(lia) Hia) as (t & -> & Ht & Hat). cbn [obind].
  destruct (load_ok addr w m b Hb ltac:(lia) Hib) as (v & -> & Hv & Hav). cbn [obind].
  destruct (store_ok addr w m a v Ha Hv Hia) as (m1 & -> & Hz1 & H1). cbn [obind].
  destruct (store_ok addr w m1 b t Hb Ht) as (m2 & -> & Hz2 & H2);
    [unfold in_block in *; lia|]. exists m2. split; [done|]. split; [lia|]. intros k x.
  rewrite H2. pose proof (blk_cases a b w k) as B. unfold separate in Hsep.
  cell_cases; rewrite ?Hat, ?H1; cell_cases; rewrite ?Hav; try lia;
    match goal with
    | |- _ /\ at_ _ ?p _ <-> at_ _ ?q _ => replace q with p by lia
    | |- at_ _ ?p _ <-> at_ _ ?q _ => replace q with p by lia
    end; intuition lia.
Qed.

Lemma exchange_int128_ok addr m a b :
  (addr + a) mod 16 = 0 -> (addr + b) mod 16 = 0 ->
  in_block m a 16 -> in_block m b 16 -> separate a b 16 ->
  exists m', exchange_int128 addr m a b = Ret m' /\ exchanged m m' a b 16.
Proof.
  intros Ha Hb Hia Hib Hsep. unfold exchange_int128, in_block in *.
  assert ((addr + a) mod 8 = 0) as Ha8 by zlia.
  assert ((addr + (a + 8)) mod 8 = 0) as Ha8' by zlia.
  assert ((addr + b) mod 8 = 0) as Hb8 by zlia.
  assert ((addr + (b + 8)) mod 8 = 0) as Hb8' by zlia. clear Ha Hb.
  destruct (load_ok addr 8 m a Ha8) as (t & -> & Ht & Hat); [lia|unfold in_block; lia|]. cbn [obind].
  destruct (load_ok addr 8 m (a + 8) Ha8') as (u & -> & Hu & Hau); [lia|unfold in_block; lia|]. cbn [obind].
  destruct (load_ok addr 8 m b Hb8) as (v & -> & Hv & Hav); [lia|unfold in_block; lia|]. cbn [obind].
  destruct (store_ok addr 8 m a v Ha8 Hv) as (m1 & -> & Hz1 & H1); [unfold in_block; lia|]. cbn [obind].
  destruct (load_ok addr 8 m1 (b + 8) Hb8') as (v' & -> & Hv' & Hav'); [lia|unfold in_block; lia|].
  cbn [obind].
  destruct (store_ok addr 8 m1 (a + 8) v' Ha8' Hv') as (m2 & -> & Hz2 & H2); [unfold in_block; lia|].
  cbn [obind].
  destruct (store_ok addr 8 m2 b t Hb8 Ht) as (m3 & -> & Hz3 & H3); [unfold in_block; lia|]. cbn [obind].
  destruct (store_ok addr 8 m3 (b + 8) u Hb8' Hu) as (m4 & -> & Hz4 & H4); [unfold in_block; lia|].
  exists m4. split; [done|]. split; [lia|]. intros k x. rewrite H4.
  pose proof (blk_cases a b 16 k) as B. unfold separate in Hsep.
  assert (forall p q, p = q -> at_ m p x <-> at_ m q x) as Heq by (by intros p q ->).
  cell_cases; rewrite ?Hau, ?H3; cell_cases; rewrite ?Hat, ?H2; cell_cases;
    rewrite ?Hav', ?H1; cell_cases; rewrite ?Hav; try lia;
    match goal with
    | |- _ /\ _ /\ at_ _ ?p _ <-> at_ _ ?q _ => rewrite (Heq q p) by lia
    | |- _ /\ at_ _ ?p _ <-> at_ _ ?q _ => rewrite (Heq q p) by lia
    | |- at_ _ ?p _ <-> at_ _ ?q _ => rewrite (Heq q p) by lia
    end; intuition lia.
Qed.

Lemma exchanged_trans m m1 m2 a b n w :
  0 <= n -> 0 <= w -> a + n + w <= b \/ b + n + w <= a \/ a = b ->
  exchanged m m1 a b n -> exchanged m1 m2 (a + n) (b + n) w -> exchanged m m2 a b (n + w).
Proof.
  intros Hn Hw Hsep [Hz1 H1] [Hz2 H2]. split; [lia|]. intros k x. rewrite H2, H1.
  replace (blk a b n (blk (a + n) (b + n) w k)) with (blk a b (n + w) k); [done|].
  pose proof (blk_cases (a + n) (b + n) w k) as B1. set (k1 := blk _ _ w k) in *.
  pose proof (blk_cases a b n k1). pose proof (blk_cases a b (n + w) k). lia.
Qed.

Lemma exchanged_0 m a b : exchanged m m a b 0.
Proof.
  split; [done|]. intros k x. replace (blk a b 0 k) with k; [done|].
  pose proof (blk_cases a b 0 k). lia.
Qed.

(** A loop over the words of two blocks exchanges the blocks. *)
Lemma exchange_words_ok exch addr w m a b size :
  0 < w -> size mod w = 0 -> 0 <= size ->
  (addr + a) mod w = 0 -> (addr + b) mod w = 0 ->
  in_block m a size -> in_block m b size -> separate a b size ->
  (forall m a b, (addr + a) mod w = 0 -> (addr + b) mod w = 0 ->
     in_block m a w -> in_block m b w -> separate a b w ->
     exists m', exch m a b = Ret m' /\ exchanged m m' a b w) ->
  exists m', exchange_words exch w m a b size = Ret m' /\ exchanged m m' a b size.
Proof.
  intros Hw Hmod Hsize Ha Hb Hia Hib Hsep Hex. unfold exchange_words.
  apply Z.div_exact in Hmod; [|lia]. set (q := size / w) in *.
  assert (0 <= q) as Hq by (apply Z.div_pos; lia).
  cut (post (iter (S (Z.to_nat size)) (fun '(n, a, b, m) =>
    if n =? 0 then Ret (inr m)
    else let* m := exch m a b in Ret (inl (n - 1, a + w, b + w, m))) (q, a, b, m))
    (fun m' => exchanged m m' a b size)).
  { intros H. apply post_inv in H as (m' & -> & H). by exists m'. }
  apply (post_iter (fun '(n, a', b', m') => 0 <= n <= q /\ a' = a + (q - n) * w /\
      b' = b + (q - n) * w /\ exchanged m m' a b ((q - n) * w)) (fun '(n, _, _, _) => Z.to_nat n)).
  - intros [[[n a'] b'] m'] (Hn & -> & -> & Hx). destruct (Z.eqb_spec n 0) as [->|Hne].
    + apply post_ret. rewrite Z.sub_0_r, Z.mul_comm in Hx. by rewrite Hmod.
    + pose proof Hx as [Hz _]. set (d := (q - n) * w) in *.
      assert (0 <= d /\ d + w <= size) as Hd by (unfold d; nia).
      assert ((q - (n - 1)) * w = d + w) as Hd' by (unfold d; lia).
      destruct (Hex m' (a + d) (b + d)) as (m2 & -> & H2).
      * unfold d. rewrite Z.add_assoc, Z.mod_add by lia. done.
      * unfold d. rewrite Z.add_assoc, Z.mod_add by lia. done.
      * unfold in_block in *. lia.
      * unfold in_block in *. lia.
      * unfold separate in *. lia.
      * cbn [obind]. apply post_ret. rewrite Hd'. split; [|lia].
        split; [lia|]. split; [lia|]. split; [lia|].
        eapply exchanged_trans; [lia|lia| |exact Hx|exact H2]. unfold separate in Hsep. lia.
  - rewrite Z.sub_diag, Z.mul_0_l, !Z.add_0_r. split_and!; try lia. apply exchanged_0.
  - nia.
Qed.

(** The word size of an exchange function. *)
Definition width (f : exchange_f) : Z :=
  match f with
  | exchange_bytes | exchange_one_byte => 1
  | exchange_int16s | exchange_one_int16 => 2
  | exchange_int32s | exchange_one_int32 => 4
  | exchange_int64s | exchange_one_int64 => 8
  | exchange_int128s | exchange_one_int128 => 16
  end.

Definition one_word (f : exchange_f) : bool :=
  match f with
  | exchange_one_byte | exchange_one_int16 | exchange_one_int32 | exchange_one_int64
  | exchange_one_int128 => true
  | _ => false
  end.

Lemma exchange_ok f addr m a b size :
  0 <= size -> size mod width f = 0 -> (one_word f = true -> size = width f) ->
  (addr + a) mod width f = 0 -> (addr + b) mod width f = 0 ->
  in_block m a size -> in_block m b size -> separate a b size ->
  exists m', exchange f addr m a b size = Ret m' /\ exchanged m m' a b size.
Proof.
  intros Hs Hm H1 Ha Hb Hia Hib Hsep.
  destruct f; cbn [exchange width one_word] in *;
    try rewrite (H1 eq_refl) in *;
    first [ apply exchange_word_ok; (done || lia)
          | apply exchange_int128_ok; done
          | eapply exchange_words_ok; try done; intros;
            first [ apply exchange_word_ok; (done || lia) | by apply exchange_int128_ok ] ].
Qed.

(** The low bits of the address and of the size determine the word size. *)
Lemma low_bits base size :
  0 <= base -> 0 <= size ->
  let k := Z.land (Z.lor base size) 15 in
  0 <= k < 16 /\ Z.lor (base mod 16) (size mod 16) = k.
Proof.
  intros Hb Hs. cbn zeta. rewrite (land_mask _ 4) by done. change (2 ^ 4) with 16.
  split; [by apply Z.mod_pos_bound|].
  change 16 with (2 ^ 4). rewrite <- !Z.land_ones by done. by rewrite Z.land_lor_distr_l.
Qed.

Definition width_of (k : Z) : Z :=
  if k =? 0 then 16 else if k =? 8 then 8 else if (k =? 4) || (k =? 12) then 4
  else if (k =? 2) || (k =? 6) || (k =? 10) || (k =? 14) then 2 else 1.

Lemma width_of_divides :
  forallb (fun x => forallb (fun y => (x mod width_of (Z.lor x y) =? 0) &&
    (y mod width_of (Z.lor x y) =? 0)) (seqZ 0 16)) (seqZ 0 16) = true.
Proof. vm_compute. reflexivity. Qed.

Lemma exchange_func_width base size :
  0 <= base -> 0 <= size ->
  base mod width (exchange_func base size) = 0 /\
  size mod width (exchange_func base size) = 0 /\
  (one_word (exchange_func base size) = true -> size = width (exchange_func base size)).
Proof.
  intros Hb Hs. destruct (low_bits base size Hb Hs) as [Hk Hor].
  assert (width (exchange_func base size) = width_of (Z.land (Z.lor base size) 15)) as Hw.
  { unfold exchange_func, width_of. repeat (match goal with |- context [if ?b then _ else _] =>
      lazymatch b with context [if _ then _ else _] => fail | _ => destruct b end end; try done). }
  pose proof width_of_divides as Hd. rewrite forallb_forall in Hd.
  specialize (Hd (base mod 16)). rewrite <- list_elem_of_In, elem_of_seqZ in Hd.
  specialize (Hd ltac:(pose proof (Z.mod_pos_bound base 16); lia)). rewrite forallb_forall in Hd.
  specialize (Hd (size mod 16)). rewrite <- list_elem_of_In, elem_of_seqZ in Hd.
  specialize (Hd ltac:(pose proof (Z.mod_pos_bound size 16); lia)). rewrite Hor in Hd.
  apply andb_true_iff in Hd as [Hd1 Hd2]. apply Z.eqb_eq in Hd1, Hd2.
  assert (forall x, (x mod 16) mod width_of (Z.land (Z.lor base size) 15) = 0 ->
    x mod width_of (Z.land (Z.lor base size) 15) = 0) as Hmm.
  { intros x. unfold width_of. repeat (match goal with |- context [if ?b then _ else _] =>
      destruct b end; try zlia). }
  rewrite Hw. split; [by apply Hmm|]. split; [by apply Hmm|]. rewrite <- Hw. clear.
  unfold exchange_func. repeat (match goal with |- context [if (size =? ?n) then _ else _] =>
      destruct (Z.eqb_spec size n) | |- context [if ?b then _ else _] =>
      lazymatch b with context [if _ then _ else _] => fail | _ => destruct b end end;
      cbn [one_word width]; try done).
Qed.

Lemma width_mod f x y : x mod 16 = y mod 16 -> x mod width f = 0 -> y mod width f = 0.
Proof. destruct f; cbn [width]; intros; zlia. Qed.

Lemma lor_128_mod x : 0 <= x -> Z.lor x 128 mod 16 = x mod 16.
Proof.
  intros Hx. change 16 with (2 ^ 4). rewrite <- !Z.land_ones by done.
  rewrite Z.land_lor_distr_l. change (Z.land 128 (Z.ones 4)) with 0. by rewrite Z.lor_0_r.
Qed.

Lemma lor_128_ge x : 0 <= x -> 128 <= Z.lor x 128.
Proof.
  intros Hx. destruct (Z.le_gt_cases 128 (Z.lor x 128)) as [|Hlt]; [done|].
  assert (Z.testbit (Z.lor x 128) 7 = true) as Hb by (by rewrite Z.lor_spec, orb_true_r).
  assert (0 <= Z.lor x 128) by (apply Z.lor_nonneg; lia).
  rewrite <- (Z.mod_small (Z.lor x 128) (2 ^ 7)), Z.mod_pow2_bits_high in Hb by lia. done.
Qed.

(** ** Properties *)

(** The exchange function chosen from the address of the array and the size
    of its elements, or that size with bit 7 set for the exchange of several
    elements, exchanges exactly the elements at two positions that are equal or
    do not overlap: whatever word size it uses, every access is inside the array
    and aligned, and no other byte changes. *)
Theorem exchange_func_exchanges addr sz m i j n (block : bool) :
  0 <= addr -> 1 <= sz -> 0 <= n -> (block = false -> n = 1) ->
  in_block m (i * sz) (n * sz) -> in_block m (j * sz) (n * sz) ->
  separate (i * sz) (j * sz) (n * sz) ->
  let f := exchange_func addr (if block then Z.lor sz 128 else sz) in
  post (exchange f addr m (i * sz) (j * sz) (n * sz)) (fun m' => zlen m' = zlen m /\
    forall k x, at_ m' k x <-> at_ m (blk (i * sz) (j * sz) (n * sz) k) x).
Proof.
  intros Haddr Hsz Hn Hbl Hi Hj Hsep f.
  assert (addr mod width f = 0 /\ sz mod width f = 0 /\ (one_word f = true -> n * sz = width f))
    as (Ha & Hs & H1).
  { subst f. destruct block.
    - pose proof (lor_128_ge sz ltac:(lia)) as H128.
      destruct (exchange_func_width addr (Z.lor sz 128)) as (Ha & Hs & H1); [lia|lia|].
      split; [done|]. split; [|intros H; apply H1 in H; destruct (exchange_func _ _); cbn in H; lia].
      eapply width_mod; [by apply lor_128_mod; lia|done].
    - rewrite (Hbl eq_refl), Z.mul_1_l. apply exchange_func_width; lia. }
  assert (0 < width f) as Hw by (by destruct f).
  assert (forall k, (k * sz) mod width f = 0) as Hmul.
  { intros k. apply Z.div_exact in Hs; [|lia]. rewrite Hs, (Z.mul_comm (width f)), Z.mul_assoc.
    apply Z.mod_mul. lia. }
  assert (forall k, (addr + k * sz) mod width f = 0) as Hal.
  { intros k. rewrite Z.add_mod, Ha, Hmul by lia. apply Z.mod_0_l. lia. }
  destruct (exchange_ok f addr m (i * sz) (j * sz) (n * sz)) as (m' & -> & H); try done; lia.
Qed.

Lemma exchange_func_exchanges_witness :
  exchange_func 4096 (Z.lor 4 128) = exchange_int32s /\
  exchange exchange_int32s 4096 [1; 2; 3; 4; 5; 6; 7; 8] 0 4 4 = Ret [5; 6; 7; 8; 1; 2; 3; 4] /\
  post (exchange (exchange_func 4096 (Z.lor 4 128)) 4096 [1; 2; 3; 4; 5; 6; 7; 8] (0 * 4) (1 * 4) (1 * 4))
    (fun m' => zlen m' = zlen [1; 2; 3; 4; 5; 6; 7; 8] /\
      forall k x, at_ m' k x <-> at_ [1; 2; 3; 4; 5; 6; 7; 8] (blk (0 * 4) (1 * 4) (1 * 4) k) x).
Proof.
  split; [reflexivity|]. split; [reflexivity|].
  apply (exchange_func_exchanges 4096 4 [1; 2; 3; 4; 5; 6; 7; 8] 0 1 1 true);
    vm_compute; intuition discriminate.
Defined.
