(* ===== verification/CharRange.v ===== *)
(** Character ranges: the sets of code points of [libunicode.c].

    A range is a block of points; the points up to [cr_len], taken in pairs, are
    the intervals [start, end[ of the set.  The functions that allocate take the
    allocator's state and return it with the range and the C result, 0 or -1.
    The lengths and indexes of type [int] are not bounded in the model: a set has
    at most two points per code point. *)
From Stdlib Require Import ZArith Lia Bool List Sorting.Sorted.
From stdpp Require Import base tactics list numbers.
From S2P Require Import Prelude Alloc.

Record CharRange := mkCR {
  cr_len : Z;
  cr_size : Z;
  cr_points : list Z
}.

Inductive CharRangeOpEnum := CR_OP_UNION | CR_OP_INTER | CR_OP_XOR.

Section CharRange.
Context `{AL : Allocator}.

Definition cr_init : CharRange := mkCR 0 0 [].

(** [cr_free]: the block is gone. *)
Definition cr_free (cr : CharRange) : unit := tt.

Definition cr_realloc (h : heap) (cr : CharRange) (size : Z) : heap * CharRange * Z :=
  if cr_size cr <? size then
    let new_size := Z.max size (cr_size cr * 3 / 2) in
    match realloc 4 u32 h (cr_points cr) new_size with
    | (h, None) => (h, cr, -1)
    | (h, Some new_buf) => (h, mkCR (cr_len cr) new_size new_buf, 0)
    end
  else (h, cr, 0).

Definition cr_copy (h : heap) (cr cr1 : CharRange) : outcome (heap * CharRange * Z) :=
  let '(h, cr, r) := cr_realloc h cr (cr_len cr1) in
  if negb (r =? 0) then Ret (h, cr, -1)
  else
    let* d := rd_slice (cr_points cr1) 0 (cr_len cr1) in
    let* pts := wr_slice (cr_points cr) 0 d in
    Ret (h, mkCR (cr_len cr1) (cr_size cr) pts, 0).

Definition cr_add_point (h : heap) (cr : CharRange) (v : Z) : outcome (heap * CharRange * Z) :=
  let '(h, cr, r) :=
    if cr_size cr <=? cr_len cr then cr_realloc h cr (cr_len cr + 1) else (h, cr, 0) in
  if negb (r =? 0) then Ret (h, cr, -1)
  else
    let* pts := wr (cr_points cr) (cr_len cr) v in
    Ret (h, mkCR (cr_len cr + 1) (cr_size cr) pts, 0).

Definition cr_add_interval (h : heap) (cr : CharRange) (c1 c2 : Z)
    : outcome (heap * CharRange * Z) :=
  let '(h, cr, r) :=
    if cr_size cr <? cr_len cr + 2 then cr_realloc h cr (cr_len cr + 2) else (h, cr, 0) in
  if negb (r =? 0) then Ret (h, cr, -1)
  else
    let* pts := wr (cr_points cr) (cr_len cr) c1 in
    let* pts := wr pts (cr_len cr + 1) c2 in
    Ret (h, mkCR (cr_len cr + 2) (cr_size cr) pts, 0).

(** [while ((j + 3) < len && pt[j + 1] == pt[j + 2]) j += 2]. *)
Definition cr_compress_run (pt : list Z) (len i : Z) : outcome Z :=
  iter (S (Z.to_nat len)) (fun j =>
    if j + 3 <? len then
      let* x := rd pt (j + 1) in
      let* y := rd pt (j + 2) in
      if x =? y then Ret (inl (j + 2)) else Ret (inr j)
    else Ret (inr j)) i.

Definition cr_compress_step (len : Z) '(i, k, pt) : outcome (Z * Z * list Z + Z * list Z) :=
  if i + 1 <? len then
    let* x := rd pt i in
    let* y := rd pt (i + 1) in
    if x =? y then Ret (inl (i + 2, k, pt))
    else
      let* j := cr_compress_run pt len i in
      let* pt := wr pt k x in
      let* e := rd pt (j + 1) in
      let* pt := wr pt (k + 1) e in
      Ret (inl (j + 2, k + 2, pt))
  else Ret (inr (k, pt)).

Definition cr_compress (cr : CharRange) : outcome CharRange :=
  let len := cr_len cr in
  let* (k, pt) := iter (S (Z.to_nat len)) (cr_compress_step len) (0, 0, cr_points cr) in
  Ret (mkCR k (cr_size cr) pt).

(** The next point of the two sequences in increasing order, and the new
    indexes; [None] at the end of both. *)
Definition cr_op_next (a_pt : list Z) (a_len : Z) (b_pt : list Z) (b_len a_idx b_idx : Z)
    : outcome (option (Z * Z * Z)) :=
  if (a_idx <? a_len) && (b_idx <? b_len) then
    let* a := rd a_pt a_idx in
    let* b := rd b_pt b_idx in
    if a <? b then Ret (Some (a, a_idx + 1, b_idx))
    else if a =? b then Ret (Some (a, a_idx + 1, b_idx + 1))
    else Ret (Some (b, a_idx, b_idx + 1))
  else if a_idx <? a_len then
    let* a := rd a_pt a_idx in Ret (Some (a, a_idx + 1, b_idx))
  else if b_idx <? b_len then
    let* b := rd b_pt b_idx in Ret (Some (b, a_idx, b_idx + 1))
  else Ret None.

Definition cr_op_is_in (op : CharRangeOpEnum) (a_idx b_idx : Z) : Z :=
  match op with
  | CR_OP_UNION => Z.lor (Z.land a_idx 1) (Z.land b_idx 1)
  | CR_OP_INTER => Z.land (Z.land a_idx 1) (Z.land b_idx 1)
  | CR_OP_XOR => Z.lxor (Z.land a_idx 1) (Z.land b_idx 1)
  end.

Definition cr_op_step (a_pt : list Z) (a_len : Z) (b_pt : list Z) (b_len : Z)
    (op : CharRangeOpEnum) '(h, cr, a_idx, b_idx)
    : outcome (heap * CharRange * Z * Z + heap * CharRange * Z) :=
  let* nxt := cr_op_next a_pt a_len b_pt b_len a_idx b_idx in
  match nxt with
  | None => Ret (inr (h, cr, 0))
  | Some (v, a_idx, b_idx) =>
      if negb (cr_op_is_in op a_idx b_idx =? Z.land (cr_len cr) 1) then
        let* (h, cr, r) := cr_add_point h cr v in
        if negb (r =? 0) then Ret (inr (h, cr, -1)) else Ret (inl (h, cr, a_idx, b_idx))
      else Ret (inl (h, cr, a_idx, b_idx))
  end.

Definition cr_op (h : heap) (cr : CharRange) (a_pt : list Z) (a_len : Z) (b_pt : list Z)
    (b_len : Z) (op : CharRangeOpEnum) : outcome (heap * CharRange * Z) :=
  let* (h, cr, r) :=
    iter (S (Z.to_nat a_len + Z.to_nat b_len)) (cr_op_step a_pt a_len b_pt b_len op)
      (h, cr, 0, 0) in
  if negb (r =? 0) then Ret (h, cr, -1)
  else let* cr := cr_compress cr in Ret (h, cr, 0).

Definition cr_union1 (h : heap) (cr : CharRange) (b_pt : list Z) (b_len : Z)
    : outcome (heap * CharRange * Z) :=
  let a := cr in
  let cr := mkCR 0 0 [] in
  cr_op h cr (cr_points a) (cr_len a) b_pt b_len CR_OP_UNION.

Definition cr_union_interval (h : heap) (cr : CharRange) (c1 c2 : Z)
    : outcome (heap * CharRange * Z) :=
  cr_union1 h cr [c1; u32 (c2 + 1)] 2.

Definition cr_invert (h : heap) (cr : CharRange) : outcome (heap * CharRange * Z) :=
  let len := cr_len cr in
  let '(h, cr, r) := cr_realloc h cr (len + 2) in
  if negb (r =? 0) then Ret (h, cr, -1)
  else
    let* d := rd_slice (cr_points cr) 0 len in
    let* pts := wr_slice (cr_points cr) 1 d in
    let* pts := wr pts 0 0 in
    let* pts := wr pts (len + 1) UINT32_MAX in
    let* cr := cr_compress (mkCR (len + 2) (cr_size cr) pts) in
    Ret (h, cr, 0).
End CharRange.

(** * Specification *)

(** The points of a range. *)
Definition cr_list (cr : CharRange) : list Z := take (Z.to_nat (cr_len cr)) (cr_points cr).

Definition cr_wf (cr : CharRange) : Prop :=
  0 <= cr_len cr <= cr_size cr /\ zlen (cr_points cr) = cr_size cr.

(** Whether [c] is in the set whose boundary points are [ps], [st] telling
    whether the points before [ps] have entered it. *)
Fixpoint inside (st : bool) (ps : list Z) (c : Z) : bool :=
  match ps with
  | [] => st
  | p :: ps => inside (xorb (p <=? c) st) ps c
  end.

Definition cr_mem (cr : CharRange) (c : Z) : bool := inside false (cr_list cr) c.

(** A list of intervals in order, possibly empty or adjacent ones. *)
Definition intervals (ps : list Z) : Prop := StronglySorted Z.le ps /\ Nat.Even (length ps).

(** The canonical form: the intervals are not empty and not adjacent. *)
Definition canonical (ps : list Z) : Prop := StronglySorted Z.lt ps /\ Nat.Even (length ps).

Definition op_bool (op : CharRangeOpEnum) (a b : bool) : bool :=
  match op with
  | CR_OP_UNION => a || b
  | CR_OP_INTER => a && b
  | CR_OP_XOR => xorb a b
  end.

(** The list [cr_compress] leaves, [st] being the interval under construction. *)
Fixpoint compress (st : option (Z * Z)) (ps : list Z) : list Z :=
  match ps with
  | a :: b :: ps =>
      match st with
      | None => if a =? b then compress None ps else compress (Some (a, b)) ps
      | Some (x, y) =>
          if y =? a then compress (Some (x, b)) ps
          else x :: y :: (if a =? b then compress None ps else compress (Some (a, b)) ps)
      end
  | _ => match st with None => [] | Some (x, y) => [x; y] end
  end.

(** * Lemmas *)

(** ** Membership *)

Lemma inside_xorb st ps c : inside st ps c = xorb st (inside false ps c).
Proof.
  revert st. induction ps as [|p ps IH]; intros st; cbn [inside]; [by destruct st|].
  rewrite IH. rewrite (IH (xorb _ false)). by destruct (p <=? c), st, (inside false ps c).
Qed.

Lemma inside_app st ps qs c : inside st (ps ++ qs) c = inside (inside st ps c) qs c.
Proof. revert st. induction ps as [|p ps IH]; intros st; [done|]. cbn [app inside]. apply IH. Qed.

Lemma inside_gt st ps c : Forall (fun p => c < p) ps -> inside st ps c = st.
Proof.
  intros H. revert st. induction H as [|p ps Hp _ IH]; intros st; [done|]. cbn [inside].
  replace (p <=? c) with false by lia. apply IH.
Qed.

Lemma inside_le st ps c :
  Forall (fun p => p <= c) ps -> inside st ps c = xorb st (Nat.odd (length ps)).
Proof.
  intros H. revert st. induction H as [|p ps Hp _ IH]; intros st; [by destruct st|].
  cbn [inside length]. rewrite IH, Nat.odd_succ, <- Nat.negb_odd.
  replace (p <=? c) with true by lia. by destruct st, (Nat.odd (length ps)).
Qed.

(** ** Compression *)

Lemma compress_inside ps c :
  Nat.Even (length ps) ->
  inside false (compress None ps) c = inside false ps c /\
  forall x y, inside false (compress (Some (x, y)) ps) c = inside false (x :: y :: ps) c.
Proof.
  induction ps as [| |a b ps IH] using pairs_ind; intros He.
  - done.
  - by destruct (even_not_1 He).
  - cbn [length] in He. rewrite even_SS in He. specialize (IH He) as [IHn IHs].
    assert (inside false (if a =? b then compress None ps else compress (Some (a, b)) ps) c
            = inside false (a :: b :: ps) c) as Hab.
    { destruct (Z.eqb_spec a b) as [->|_]; [|apply IHs]. rewrite IHn. cbn [inside].
      by destruct (b <=? c). }
    split; [exact Hab|]. intros x y. cbn [compress]. destruct (Z.eqb_spec y a) as [->|_].
    + rewrite IHs. cbn [inside]. by destruct (x <=? c), (a <=? c), (b <=? c).
    + assert (forall l, inside false (x :: y :: l) c
        = xorb (inside false [x; y] c) (inside false l c)) as Hxy by (intros l; apply (inside_xorb _ l)).
      rewrite (Hxy (a :: b :: ps)), <- Hab. apply Hxy.
Qed.

Lemma compress_Forall P ps :
  Forall P ps ->
  Forall P (compress None ps) /\ forall x y, P x -> P y -> Forall P (compress (Some (x, y)) ps).
Proof.
  induction ps as [|a|a b ps IH] using pairs_ind; intros H.
  - split; [done|]. intros. by repeat constructor.
  - split; [constructor|]. intros. by repeat constructor.
  - inversion_clear H as [|? ? Ha H']. inversion_clear H' as [|? ? Hb H].
    specialize (IH H) as [IHn IHs]. split.
    + cbn [compress]. destruct (a =? b); auto.
    + intros x y Hx Hy. cbn [compress]. destruct (y =? a); [auto|].
      repeat constructor; [done..|]. destruct (a =? b); auto.
Qed.

Lemma compress_even ps :
  Nat.Even (length (compress None ps)) /\ forall p, Nat.Even (length (compress (Some p) ps)).
Proof.
  assert (Nat.Even 0) as H0 by (by exists 0%nat). assert (Nat.Even 2) as H2 by (by exists 1%nat).
  induction ps as [|a|a b ps [IHn IHs]] using pairs_ind.
  - split; [done|]. by intros [x y].
  - split; [done|]. by intros [x y].
  - cbn [compress]. split; [destruct (a =? b); auto|]. intros [x y]. destruct (y =? a); [auto|].
    cbn [length]. apply even_SS. destruct (a =? b); auto.
Qed.

Lemma sorted_lt_cons x l : Forall (Z.lt x) l -> StronglySorted Z.lt l -> StronglySorted Z.lt (x :: l).
Proof. intros. by constructor. Qed.

Lemma compress_sorted ps :
  StronglySorted Z.le ps ->
  StronglySorted Z.lt (compress None ps) /\
  forall x y, x < y -> Forall (Z.le y) ps -> StronglySorted Z.lt (compress (Some (x, y)) ps).
Proof.
  assert (forall x y, x < y -> StronglySorted Z.lt [x; y]) as H2 by (intros; by repeat constructor).
  induction ps as [|a|a b ps IH] using pairs_ind; intros H.
  - split; [constructor|]. intros. by apply H2.
  - split; [constructor|]. intros. by apply H2.
  - inversion_clear H as [|? ? H' Ha]. inversion_clear H' as [|? ? Hps Hb].
    inversion_clear Ha as [|? ? Hab Ha']. specialize (IH Hps) as [IHn IHs].
    assert (StronglySorted Z.lt (if a =? b then compress None ps else compress (Some (a, b)) ps))
      as Hr by (destruct (Z.eqb_spec a b); [done|apply IHs; [lia|done]]).
    split; [exact Hr|]. intros x y Hxy Hy. inversion_clear Hy as [|? ? Hya Hy'].
    inversion_clear Hy' as [|? ? Hyb Hyps]. cbn [compress]. destruct (Z.eqb_spec y a) as [->|Hne].
    + by apply IHs; [lia|].
    + assert (Forall (Z.lt y) (if a =? b then compress None ps else compress (Some (a, b)) ps)) as Hg.
      { assert (Forall (Z.lt y) ps) as Hg by (eapply Forall_impl; [|exact Ha']; cbn beta in *; lia).
        destruct (compress_Forall _ _ Hg) as [Hgn Hgs]. destruct (a =? b); [done|].
        apply Hgs; lia. }
      apply sorted_lt_cons; [|by apply sorted_lt_cons]. constructor; [done|].
      eapply Forall_impl; [|exact Hg]. cbn beta. lia.
Qed.

Lemma compress_canonical ps : intervals ps -> canonical (compress None ps).
Proof. intros [Hs _]. split; [by apply compress_sorted|apply compress_even]. Qed.

(** The loops of [cr_compress] on the points [ps] from index [i]. *)
Lemma cr_compress_run_eq pt len j y ps :
  block_at pt (j + 1) (y :: ps) -> len = j + 2 + zlen ps -> Nat.Even (length ps) -> 0 <= j ->
  exists j' e ps', cr_compress_run pt len j = Ret j' /\ block_at pt (j' + 1) (e :: ps') /\
    len = j' + 2 + zlen ps' /\ Nat.Even (length ps') /\ j <= j' /\
    forall x, compress (Some (x, y)) ps = x :: e :: compress None ps'.
Proof.
  unfold cr_compress_run. intros Hb Hlen He Hj.
  assert (length ps < S (Z.to_nat len))%nat as Hf by (unfold zlen in *; lia).
  revert Hf. generalize (S (Z.to_nat len)) as fuel. revert j y Hb Hlen He Hj.
  induction ps as [|a|a b ps IH] using pairs_ind; intros j y Hb Hlen He Hj fuel Hf;
    (destruct fuel as [|fuel]; [lia|]); cbn [iter].
  - change (zlen []) with 0 in Hlen. decide_ifs lia. cbn [obind]. by exists j, y, [].
  - by destruct even_not_1.
  - cbn [length] in He, Hf. rewrite even_SS in He. rewrite !zlen_cons in Hlen.
    pose proof (zlen_nonneg ps). decide_ifs lia.
    destruct Hb as (Hy & Ha & Hb & Hps).
    rewrite (rd_at _ _ _ Hy). cbn [obind].
    rewrite (rd_at pt (j + 2) a) by (by replace (j + 2) with (j + 1 + 1) by lia). cbn [obind].
    destruct (Z.eqb_spec y a) as [->|Hne]; cbn [obind].
    + destruct (IH (j + 2) b) with (fuel := fuel) as (j' & e & ps' & HI & Hb' & Hl' & He' & Hj' & Hc);
        [|lia|done|lia|lia|].
      { cbn [block_at]. replace (j + 2 + 1) with (j + 1 + 1 + 1) by lia. done. }
      exists j', e, ps'. split; [exact HI|]. do 4 (split; [done || lia|]). intros x.
      cbn [compress]. rewrite Z.eqb_refl. apply Hc.
    + exists j, y, (a :: b :: ps). split; [done|]. split; [done|]. rewrite !zlen_cons.
      split; [lia|]. split; [by cbn [length]; apply even_SS|]. split; [lia|]. intros x.
      cbn [compress]. by replace (y =? a) with false by lia.
Qed.

Lemma cr_compress_loop fuel len i pt out ps :
  block_at pt i ps -> len = i + zlen ps -> Nat.Even (length ps) -> len <= zlen pt ->
  block_at pt 0 out -> zlen out <= i -> (length ps < fuel)%nat ->
  exists pt', iter fuel (cr_compress_step len) (i, zlen out, pt)
      = Ret (zlen (out ++ compress None ps), pt') /\
    zlen pt' = zlen pt /\ block_at pt' 0 (out ++ compress None ps).
Proof.
  revert len i pt out ps. induction fuel as [|fuel IH];
    intros len i pt out ps Hb Hlen He Hpt Hout Hi Hf; [lia|]. cbn [iter].
  pose proof (zlen_nonneg out). destruct ps as [|a [|b ps]].
  - change (zlen []) with 0 in Hlen. unfold cr_compress_step. decide_ifs lia. cbn [obind compress].
    rewrite app_nil_r. by exists pt.
  - by destruct even_not_1.
  - pose proof Hb as Hbs. destruct Hb as (Ha & Hb & Hps). cbn [length] in He, Hf.
    rewrite even_SS in He. rewrite !zlen_cons in Hlen. pose proof (zlen_nonneg ps).
    unfold cr_compress_step at 1. decide_ifs lia. rewrite (rd_at _ _ _ Ha), (rd_at _ _ _ Hb).
    cbn [obind compress]. destruct (Z.eqb_spec a b) as [->|Hne]; cbn [obind].
    + apply IH; [|lia|done|done|done|lia|lia]. by replace (i + 2) with (i + 1 + 1) by lia.
    + destruct (cr_compress_run_eq pt len i b ps) as (j & e & ps' & -> & [Hbe Hb'] & Hl' & He' & Hj & Hc);
        [done|lia|done|lia|].
      cbn [obind]. rewrite Hc. pose proof (zlen_nonneg ps'). rewrite wr_in by lia. cbn [obind].
      assert (at_ (<[Z.to_nat (zlen out):=a]> pt) (j + 1) e) as Hbe'
        by (apply at_insert_ne; [lia..|done]).
      rewrite (rd_at _ _ _ Hbe'). cbn [obind]. rewrite wr_in by (rewrite zlen_insert; lia).
      cbn [obind]. set (pt2 := <[Z.to_nat (zlen out + 1):=e]> _).
      replace (zlen out + 2) with (zlen (out ++ [a; e])) by (rewrite zlen_app, !zlen_cons; done).
      destruct (IH len (j + 2) pt2 (out ++ [a; e]) ps') as (pt' & HI & Hz & Hr).
      * unfold pt2. replace (j + 2) with (j + 1 + 1) by lia.
        apply block_at_insert_ne; [apply block_at_insert_ne|..]; (done || lia).
      * lia.
      * done.
      * unfold pt2. rewrite !zlen_insert. done.
      * change [a; e] with ([a] ++ [e]). rewrite app_assoc. unfold pt2.
        replace (zlen out + 1) with (0 + zlen (out ++ [a])) by (by rewrite zlen_app).
        apply block_at_snoc; [|lia|rewrite zlen_app, zlen_insert; change (zlen [a]) with 1; lia].
        apply (block_at_snoc pt 0 out a); [done|lia|lia].
      * rewrite zlen_app, !zlen_cons. change (zlen []) with 0. lia.
      * unfold zlen in *. lia.
      * exists pt'. rewrite <- app_assoc in *. split; [exact HI|]. split; [|done].
        rewrite Hz. unfold pt2. by rewrite !zlen_insert.
Qed.

Lemma zlen_cr_list cr : cr_wf cr -> zlen (cr_list cr) = cr_len cr.
Proof. intros [Hl Hz]. unfold cr_list. apply zlen_take. lia. Qed.

Lemma cr_list_block cr : cr_wf cr -> block_at (cr_points cr) 0 (cr_list cr).
Proof. intros [Hl Hz]. apply block_at_take. lia. Qed.

Lemma zlen_compress_le ps : Nat.Even (length ps) -> zlen (compress None ps) <= zlen ps.
Proof.
  cut (zlen (compress None ps) <= zlen ps /\ forall p, zlen (compress (Some p) ps) <= 2 + zlen ps);
    [tauto|].
  induction ps as [|a|a b ps [IHn IHs]] using pairs_ind.
  - split; [done|]. by intros [x y].
  - split; [done|]. by intros [x y].
  - cbn [compress]. rewrite !zlen_cons. assert (zlen (compress None ps) <= 2 + zlen ps) by lia.
    split; [destruct (a =? b); [lia|specialize (IHs (a, b)); lia]|].
    intros [x y]. destruct (y =? a); [specialize (IHs (x, b)); lia|]. rewrite !zlen_cons.
    destruct (a =? b); [lia|specialize (IHs (a, b)); lia].
Qed.

Lemma cr_compress_eq cr :
  cr_wf cr -> Nat.Even (length (cr_list cr)) ->
  exists cr', cr_compress cr = Ret cr' /\ cr_wf cr' /\
    cr_list cr' = compress None (cr_list cr).
Proof.
  intros Hwf He. pose proof Hwf as [Hl Hz]. pose proof (zlen_cr_list cr Hwf) as Hlen.
  destruct (cr_compress_loop (S (Z.to_nat (cr_len cr))) (cr_len cr) 0 (cr_points cr) [] (cr_list cr))
    as (pt & HI & Hz' & Hb); [by apply cr_list_block|lia|done|lia|done|done|unfold zlen in *; lia|].
  unfold cr_compress. change (zlen []) with 0 in HI. rewrite HI. cbn [obind app].
  eexists. split; [done|]. cbn [app] in Hb.
  pose proof (zlen_compress_le _ He). pose proof (zlen_nonneg (compress None (cr_list cr))).
  split; [unfold cr_wf; cbn; lia|]. unfold cr_list at 1. cbn. apply take_block_at; [done|lia].
Qed.

(** ** Allocation and appending *)

Section Alloc.
Context `{AL : Allocator}.

(** The result of an operation: a well-formed range that satisfies [Q] when
    the C result is 0, the other result being -1. *)
Definition cr_result (Q : list Z -> Prop) (x : heap * CharRange * Z) : Prop :=
  let '(_, cr, r) := x in cr_wf cr /\ (r = 0 /\ Q (cr_list cr) \/ r = -1).

Lemma cr_result_mono (P Q : list Z -> Prop) m :
  post m (cr_result P) -> (forall l, P l -> Q l) -> post m (cr_result Q).
Proof.
  intros H HPQ. eapply post_mono; [exact H|]. intros [[h cr] r] [Hwf [[-> HP]| ->]];
    (split; [done|]); [left; auto|by right].
Qed.

Lemma cr_realloc_spec h cr n :
  cr_wf cr -> 0 <= n ->
  let '(h', cr', r) := cr_realloc h cr n in
  cr_wf cr' /\ cr_list cr' = cr_list cr /\ cr_len cr' = cr_len cr /\
  (r = 0 /\ n <= cr_size cr' \/ r = -1).
Proof.
  intros [Hl Hz] Hn. unfold cr_realloc.
  destruct (Z.ltb_spec (cr_size cr) n) as [Hlt|Hge]; [|repeat split; (lia || auto)].
  destruct (realloc _ _ _ _ _) as [h' [b|]] eqn:E; [|repeat split; (lia || auto)].
  apply realloc_Some in E as (Hzb & _ & Ht); [|lia]. unfold cr_wf, cr_list. cbn.
  split; [lia|]. split; [|split; [done|left; lia]].
  apply (f_equal (take (Z.to_nat (cr_len cr)))) in Ht. rewrite !take_take in Ht.
  rewrite !Nat.min_l in Ht by lia. done.
Qed.

(** Reserving room, when there is none. *)
Lemma cr_grow_spec (b : bool) h cr n :
  cr_wf cr -> 0 <= n -> (b = false -> n <= cr_size cr) ->
  let '(h', cr', r) := if b then cr_realloc h cr n else (h, cr, 0) in
  cr_wf cr' /\ cr_list cr' = cr_list cr /\ cr_len cr' = cr_len cr /\
  (r = 0 /\ n <= cr_size cr' \/ r = -1).
Proof.
  intros Hwf Hn Hb. destruct b; [by apply cr_realloc_spec|]. by repeat split; try apply Hwf; auto.
Qed.

Lemma cr_list_eq cr pts ps :
  zlen pts = cr_size cr -> zlen ps <= cr_size cr -> block_at pts 0 ps ->
  cr_wf (mkCR (zlen ps) (cr_size cr) pts) /\
  cr_list (mkCR (zlen ps) (cr_size cr) pts) = ps.
Proof.
  intros Hz Hl Hb. unfold cr_wf, cr_list. cbn. pose proof (zlen_nonneg ps).
  split; [lia|]. apply take_block_at; [done|lia].
Qed.

Lemma cr_add_point_spec h cr v :
  cr_wf cr ->
  post (cr_add_point h cr v) (cr_result (fun l => l = cr_list cr ++ [v])).
Proof.
  intros Hwf. unfold cr_add_point. pose proof Hwf as [Hl0 _].
  pose proof (cr_grow_spec (cr_size cr <=? cr_len cr) h cr (cr_len cr + 1) Hwf
    ltac:(lia) ltac:(lia)) as H.
  destruct (if _ <=? _ then _ else _) as [[h1 cr1] r1].
  destruct H as (Hwf1 & Hc & Hl & [[-> Hn]| ->]); [|by split; auto]. cbn [Z.eqb negb].
  pose proof Hwf1 as [Hl1 Hz1]. rewrite wr_in by lia. cbn [obind post cr_result].
  pose proof (zlen_cr_list cr1 Hwf1) as Hlen. rewrite Hc in Hlen.
  replace (cr_len cr1 + 1) with (zlen (cr_list cr ++ [v])) by (rewrite zlen_app, ?zlen_1, ?zlen_2; lia).
  destruct (cr_list_eq cr1 (<[Z.to_nat (cr_len cr1):=v]> (cr_points cr1)) (cr_list cr ++ [v]))
    as [? ?]; [by rewrite zlen_insert|rewrite zlen_app; rewrite zlen_1; lia| |auto].
  rewrite <- Hlen. apply (block_at_snoc _ 0); [|lia|lia].
  rewrite <- Hc. by apply cr_list_block.
Qed.

Lemma cr_add_interval_spec h cr c1 c2 :
  cr_wf cr ->
  post (cr_add_interval h cr c1 c2) (cr_result (fun l => l = cr_list cr ++ [c1; c2])).
Proof.
  intros Hwf. unfold cr_add_interval. pose proof Hwf as [Hl0 _].
  pose proof (cr_grow_spec (cr_size cr <? cr_len cr + 2) h cr (cr_len cr + 2) Hwf
    ltac:(lia) ltac:(lia)) as H.
  destruct (if _ <? _ then _ else _) as [[h1 cr1] r1].
  destruct H as (Hwf1 & Hc & Hl & [[-> Hn]| ->]); [|by split; auto]. cbn [Z.eqb negb].
  pose proof Hwf1 as [Hl1 Hz1]. rewrite wr_in by lia. cbn [obind].
  rewrite wr_in by (rewrite zlen_insert; lia). cbn [obind post cr_result].
  pose proof (zlen_cr_list cr1 Hwf1) as Hlen. rewrite Hc in Hlen.
  replace (cr_len cr1 + 2) with (zlen (cr_list cr ++ [c1; c2])) by (rewrite zlen_app, ?zlen_1, ?zlen_2; lia).
  set (pts := <[_:=c2]> _).
  destruct (cr_list_eq cr1 pts (cr_list cr ++ [c1; c2])) as [? ?];
    [by unfold pts; rewrite !zlen_insert|rewrite zlen_app; rewrite zlen_2; lia| |auto].
  change [c1; c2] with ([c1] ++ [c2]). rewrite app_assoc. unfold pts.
  replace (cr_len cr1 + 1) with (0 + zlen (cr_list cr ++ [c1]))
    by (rewrite zlen_app; rewrite zlen_1; lia).
  rewrite <- Hlen.
  apply block_at_snoc; [|lia|rewrite zlen_app, zlen_insert; rewrite zlen_1; lia].
  apply (block_at_snoc _ 0); [|lia|lia]. rewrite <- Hc. by apply cr_list_block.
Qed.
End Alloc.

(** ** The boolean operations *)

Lemma land_1 x : Z.land x 1 = b2z (Z.odd x).
Proof.
  rewrite (land_mask x 1) by done. change (2 ^ 1) with 2. rewrite Zmod_odd.
  by destruct (Z.odd x).
Qed.

Lemma odd_zlen {A : Type} (l : list A) : Z.odd (zlen l) = Nat.odd (length l).
Proof.
  unfold zlen. induction l as [|x l IH]; [done|]. cbn [length].
  rewrite Nat2Z.inj_succ, Z.odd_succ, Nat.odd_succ, <- Z.negb_odd, <- Nat.negb_odd. by rewrite IH.
Qed.

Lemma cr_op_is_in_eq op a b : cr_op_is_in op a b = b2z (op_bool op (Z.odd a) (Z.odd b)).
Proof.
  unfold cr_op_is_in. rewrite !land_1. by destruct op, (Z.odd a), (Z.odd b).
Qed.

(** The point taken from a sequence, if it is taken. *)
Definition taken (t : bool) (v : Z) : list Z := if t then [v] else [].

Lemma inside_taken l t v c :
  inside false (l ++ taken t v) c = xorb (inside false l c) (t && (v <=? c)).
Proof.
  rewrite inside_app. destruct t; cbn [taken inside]; [|by rewrite xorb_false_r].
  by rewrite xorb_comm.
Qed.

Lemma odd_taken l t v :
  Nat.odd (length (l ++ taken t v)) = xorb (Nat.odd (length l)) t.
Proof.
  rewrite length_app. destruct t; cbn [length taken]; [|by rewrite Nat.add_0_r, xorb_false_r].
  rewrite Nat.add_1_r, Nat.odd_succ, <- Nat.negb_odd. by destruct (Nat.odd _).
Qed.

(** All the elements of [l] are at most all the elements of [k]. *)
Definition below (l k : list Z) : Prop := Forall (fun x => Forall (Z.le x) k) l.

Lemma below_app l1 l2 k : below (l1 ++ l2) k <-> below l1 k /\ below l2 k.
Proof. apply Forall_app. Qed.

Lemma below_taken t v k : Forall (Z.le v) k -> below (taken t v) k.
Proof. intros H. destruct t; [by constructor|constructor]. Qed.

Lemma below_sub l k k' : below l k -> (forall x, In x k' -> In x k) -> below l k'.
Proof.
  intros H Hs. eapply Forall_impl; [|exact H]. cbn beta. intros x Hx.
  rewrite Forall_forall in Hx |- *. intros y Hy. by apply Hx, Hs.
Qed.

Lemma sorted_le_app l k :
  StronglySorted Z.le l -> below l k -> StronglySorted Z.le k -> StronglySorted Z.le (l ++ k).
Proof.
  induction 1 as [|x l _ IH Hx]; intros Hb Hk; [done|]. inversion_clear Hb. cbn [app].
  constructor; [auto|]. by apply Forall_app.
Qed.

Lemma sorted_le_snoc l t v :
  StronglySorted Z.le l -> Forall (fun x => x <= v) l -> StronglySorted Z.le (l ++ taken t v).
Proof.
  intros Hl Hv. apply sorted_le_app; [done| |destruct t; repeat constructor].
  eapply Forall_impl; [|exact Hv]. cbn beta. intros x Hx. destruct t; repeat constructor. done.
Qed.

Lemma sorted_le_suffix l k : StronglySorted Z.le (l ++ k) -> StronglySorted Z.le k.
Proof. induction l; cbn [app]; [done|]. intros H. inversion_clear H. auto. Qed.

Section Op.
Context `{AL : Allocator} (op : CharRangeOpEnum).
Context (a_pt b_pt a b : list Z).
Hypothesis (Ha : block_at a_pt 0 a) (Hb : block_at b_pt 0 b).
Hypothesis (Sa : StronglySorted Z.le a) (Sb : StronglySorted Z.le b).

(** One step takes the least point of what is left. *)
Lemma cr_op_next_spec a1 a2 b1 b2 :
  a = a1 ++ a2 -> b = b1 ++ b2 ->
  (a2 = [] /\ b2 = [] /\
   cr_op_next a_pt (zlen a) b_pt (zlen b) (zlen a1) (zlen b1) = Ret None) \/
  exists v ta tb a2' b2', a2 = taken ta v ++ a2' /\ b2 = taken tb v ++ b2' /\ ta || tb = true /\
    Forall (Z.le v) (a2' ++ b2') /\
    cr_op_next a_pt (zlen a) b_pt (zlen b) (zlen a1) (zlen b1)
    = Ret (Some (v, zlen (a1 ++ taken ta v), zlen (b1 ++ taken tb v))).
Proof.
  intros Ea Eb. rewrite Ea in Ha, Sa. rewrite Eb in Hb, Sb.
  apply block_at_app in Ha as [_ Ha2]. apply block_at_app in Hb as [_ Hb2].
  apply sorted_le_suffix in Sa. apply sorted_le_suffix in Sb.
  assert (forall x y (l : list Z), x <= y -> Forall (Z.le y) l -> Forall (Z.le x) l) as Htr.
  { intros x y l Hxy. apply Forall_impl. lia. }
  unfold cr_op_next. rewrite Ea, Eb, !zlen_app.
  pose proof (zlen_nonneg a2). pose proof (zlen_nonneg b2).
  destruct a2 as [|x a2], b2 as [|y b2];
    rewrite ?zlen_cons in *;
    repeat match goal with
    | H : block_at _ _ (_ :: _) |- _ => destruct H as [? ?]
    | H : StronglySorted _ (_ :: _) |- _ => inversion_clear H
    end;
    [left; change (zlen []) with 0; by decide_ifs lia|right; change (zlen []) with 0..|right].
  - pose proof (zlen_nonneg b2). exists y, false, true, [], b2. split_and!; try done.
    decide_ifs lia. rd_known. rewrite !zlen_app; cbn [taken]; by rewrite ?zlen_1, ?zlen_nil, ?Z.add_0_r.
  - pose proof (zlen_nonneg a2). exists x, true, false, a2, []. split_and!; try done; [by rewrite app_nil_r|].
    decide_ifs lia. rd_known. rewrite !zlen_app; cbn [taken]; by rewrite ?zlen_1, ?zlen_nil, ?Z.add_0_r.
  - pose proof (zlen_nonneg a2). pose proof (zlen_nonneg b2).
    decide_ifs lia. rd_known. destruct (Z.ltb_spec x y); [|destruct (Z.eqb_spec x y) as [->|]].
    + exists x, true, false, a2, (y :: b2). split_and!; try done.
      * apply Forall_app. split; [done|]. constructor; [lia|]. apply (Htr x y); [lia|done].
      * rewrite !zlen_app; cbn [taken]; by rewrite ?zlen_1, ?zlen_nil, ?Z.add_0_r.
    + exists y, true, true, a2, b2. split_and!; try done; [by apply Forall_app|].
      rewrite !zlen_app; cbn [taken]; by rewrite ?zlen_1.
    + exists y, false, true, (x :: a2), b2. split_and!; try done.
      * apply Forall_app. split; [|done]. constructor; [lia|]. apply (Htr y x); [lia|done].
      * rewrite !zlen_app; cbn [taken]; by rewrite ?zlen_1, ?zlen_nil, ?Z.add_0_r.
Qed.

(** What holds of the output when [a1] and [b1] have been read. *)
Record op_inv (a1 a2 b1 b2 out : list Z) : Prop := {
  oi_a : a = a1 ++ a2;
  oi_b : b = b1 ++ b2;
  oi_below : below (a1 ++ b1 ++ out) (a2 ++ b2);
  oi_sorted : StronglySorted Z.le out;
  oi_odd : Nat.odd (length out) = op_bool op (Nat.odd (length a1)) (Nat.odd (length b1));
  oi_inside : forall c, inside false out c = op_bool op (inside false a1 c) (inside false b1 c)
}.

Lemma op_inv_step a1 b1 out v ta tb a2 b2 (e : bool) :
  op_inv a1 (taken ta v ++ a2) b1 (taken tb v ++ b2) out ->
  ta || tb = true -> Forall (Z.le v) (a2 ++ b2) ->
  e = negb (eqb (op_bool op (Nat.odd (length (a1 ++ taken ta v)))
                            (Nat.odd (length (b1 ++ taken tb v))))
                (Nat.odd (length out))) ->
  op_inv (a1 ++ taken ta v) a2 (b1 ++ taken tb v) b2 (out ++ taken e v).
Proof.
  intros [Ea Eb Hbl Hs Ho Hi] Ht Hv He.
  assert (Forall (fun x => x <= v) (a1 ++ b1 ++ out)) as Hle.
  { eapply Forall_impl; [|exact Hbl]. cbn beta. intros x Hx. rewrite Forall_forall in Hx.
    apply Hx. rewrite !in_app_iff. destruct ta; [left; left; by left|].
    destruct tb; [right; left; by left|done]. }
  apply Forall_app in Hle as [Hla Hle]. apply Forall_app in Hle as [Hlb Hlo].
  split.
  - by rewrite <- app_assoc.
  - by rewrite <- app_assoc.
  - apply below_sub with (k' := a2 ++ b2) in Hbl; [|intros x; rewrite !in_app_iff; tauto].
    rewrite !below_app in *. repeat split; try tauto; by apply below_taken.
  - by apply sorted_le_snoc.
  - rewrite (odd_taken out), He. by destruct (op_bool op (Nat.odd (length (a1 ++ _))) _), (Nat.odd (length out)).
  - intros c. rewrite !inside_taken, Hi. destruct (Z.leb_spec v c) as [Hc|Hc].
    + assert (forall l, Forall (fun x => x <= v) l -> inside false l c = Nat.odd (length l)) as Hp.
      { intros l Hl. rewrite inside_le; [done|]. eapply Forall_impl; [|exact Hl]. cbn beta. lia. }
      rewrite !Hp, !andb_true_r by done. rewrite !odd_taken, Ho in He. rewrite He.
      
      by destruct (op_bool op (xorb _ _) (xorb _ _)),
        (op_bool op (Nat.odd (length a1)) (Nat.odd (length b1))).
    + by rewrite !andb_false_r, !xorb_false_r.
Qed.

Definition op_state '(h, cr, ai, bi) : Prop :=
  exists a1 a2 b1 b2, ai = zlen a1 /\ bi = zlen b1 /\ cr_wf cr /\
    op_inv a1 a2 b1 b2 (cr_list cr) /\ (h : heap) = h.

(** The set computed and its form. *)
Definition op_done (l : list Z) : Prop :=
  StronglySorted Z.le l /\
  Nat.odd (length l) = op_bool op (Nat.odd (length a)) (Nat.odd (length b)) /\
  forall c, inside false l c = op_bool op (inside false a c) (inside false b c).

Lemma cr_op_step_spec s :
  op_state s ->
  post (cr_op_step a_pt (zlen a) b_pt (zlen b) op s) (fun r =>
    match r with
    | inl s' => op_state s' /\
        (Z.to_nat (zlen a + zlen b - s'.1.2 - s'.2) < Z.to_nat (zlen a + zlen b - s.1.2 - s.2))%nat
    | inr x => cr_result op_done x
    end).
Proof.
  destruct s as [[[h cr] ai] bi]. intros (a1 & a2 & b1 & b2 & -> & -> & Hwf & HI & _).
  pose proof HI as [Ea Eb _ _ _ _]. unfold cr_op_step. cbn [fst snd].
  destruct (cr_op_next_spec a1 a2 b1 b2 Ea Eb)
    as [(-> & -> & ->)|(v & ta & tb & a2' & b2' & -> & -> & Ht & Hv & ->)]; cbn [obind].
  - apply post_ret. split; [done|]. left. split; [done|].
    destruct HI as [_ _ _ Hs Ho Hi]. rewrite app_nil_r in Ea, Eb. unfold op_done. by rewrite Ea, Eb.
  - set (st := negb (cr_op_is_in _ _ _ =? _)). pose proof (op_inv_step a1 b1 _ v ta tb a2' b2' st HI Ht Hv) as Hst.
    specialize (Hst ltac:(unfold st;
      rewrite <- (zlen_cr_list cr Hwf), cr_op_is_in_eq, land_1, !odd_zlen;
      by destruct (op_bool _ _ _), (Nat.odd (length (cr_list cr))))).
    assert (forall s', s'.1.2 = zlen (a1 ++ taken ta v) -> s'.2 = zlen (b1 ++ taken tb v) ->
      (Z.to_nat (zlen a + zlen b - s'.1.2 - (s' : heap * CharRange * Z * Z).2)
       < Z.to_nat (zlen a + zlen b - zlen a1 - zlen b1))%nat) as Hm.
    { intros s' -> ->. rewrite Ea, Eb, !zlen_app. pose proof (zlen_nonneg a2').
      pose proof (zlen_nonneg b2'). destruct ta, tb; cbn [taken] in *; try done;
        rewrite ?zlen_1, ?zlen_nil; lia. }
    destruct st; cbn [taken] in Hst.
    + apply post_bind. eapply post_mono; [by apply cr_add_point_spec|].
      intros [[h1 cr1] r1] [Hwf1 [[-> Hl]| ->]]; cbn [Z.eqb negb].
      * apply post_ret. split; [|by apply Hm]. rewrite <- Hl in Hst. by eexists _, _, _, _.
      * apply post_ret. split; [done|by right].
    + apply post_ret. split; [|by apply Hm]. rewrite app_nil_r in Hst. by eexists _, _, _, _.
Qed.

Lemma cr_op_result h cr :
  cr_wf cr -> cr_len cr = 0 -> Nat.Even (length a) -> Nat.Even (length b) ->
  post (cr_op h cr a_pt (zlen a) b_pt (zlen b) op) (cr_result (fun l =>
    canonical l /\ forall c, inside false l c = op_bool op (inside false a c) (inside false b c))).
Proof.
  intros Hwf Hlen Hea Heb. unfold cr_op. apply post_bind.
  eapply post_mono.
  - apply (post_iter op_state (fun s => Z.to_nat (zlen a + zlen b - s.1.2 - s.2))
      (cr_result op_done)); [apply cr_op_step_spec| |].
    + exists [], a, [], b. change (zlen []) with 0. split_and!; try done.
      assert (cr_list cr = []) as -> by (unfold cr_list; by rewrite Hlen).
      split; try done; [constructor|constructor|by destruct op|by intros c; destruct op].
    + cbn [fst snd]. pose proof (zlen_nonneg a). pose proof (zlen_nonneg b). lia.
  - intros [[h1 cr1] r1] [Hwf1 [[-> (Hs & Ho & Hi)]| ->]]; cbn [Z.eqb negb].
    + assert (Nat.Even (length (cr_list cr1))) as He.
      { apply Nat.even_spec. rewrite <- Nat.negb_odd, Ho, <- !Nat.negb_even.
        apply Nat.even_spec in Hea, Heb. rewrite Hea, Heb. by destruct op. }
      destruct (cr_compress_eq cr1 Hwf1 He) as (cr2 & -> & Hwf2 & Hl). cbn [obind].
      apply post_ret. split; [done|]. left. split; [done|]. rewrite Hl.
      split; [by apply compress_canonical|]. intros c. rewrite <- Hi. by apply compress_inside.
    + apply post_ret. split; [done|by right].
Qed.
End Op.

(** ** The canonical form *)

Lemma sorted_inside_unique l k st :
  StronglySorted Z.lt l -> StronglySorted Z.lt k ->
  (forall c, inside st l c = inside st k c) -> l = k.
Proof.
  intros Hl. revert k st. induction Hl as [|a l Hl IH Ha]; intros k st Hk H.
  - destruct Hk as [|b k Hk Hb]; [done|]. specialize (H b). cbn [inside] in H.
    rewrite Z.leb_refl, inside_gt in H by done. by destruct st.
  - destruct Hk as [|b k Hk Hb].
    + specialize (H a). cbn [inside] in H. rewrite Z.leb_refl, inside_gt in H by done.
      by destruct st.
    + assert (forall x y l', x < y -> Forall (Z.lt y) l' -> Forall (fun p => x < p) l') as Htr.
      { intros x y l' Hxy. apply Forall_impl. lia. }
      destruct (Z.lt_trichotomy a b) as [Hab|[->|Hab]].
      * specialize (H a). cbn [inside] in H. rewrite Z.leb_refl, inside_gt in H by done.
        replace (b <=? a) with false in H by lia. rewrite inside_gt in H by (by apply (Htr a b)).
        by destruct st.
      * f_equal. apply (IH _ (negb st) Hk). intros c. specialize (H c). cbn [inside] in H.
        destruct (Z.leb_spec b c) as [Hc|Hc]; [exact H|].
        by rewrite !inside_gt by (by apply (Htr c b)).
      * specialize (H b). cbn [inside] in H. rewrite Z.leb_refl, (inside_gt _ k) in H by done.
        replace (a <=? b) with false in H by lia. rewrite inside_gt in H by (by apply (Htr b a)).
        by destruct st.
Qed.

(** Two canonical ranges with the same members are the same list of points. *)
Lemma canonical_unique l k :
  canonical l -> canonical k -> (forall c, inside false l c = inside false k c) -> l = k.
Proof. intros [Hl _] [Hk _]. by apply sorted_inside_unique. Qed.

Lemma canonical_intervals l : canonical l -> intervals l.
Proof.
  intros [Hs He]. split; [|done]. clear He. induction Hs as [|x l _ IH Hx]; constructor; [done|].
  eapply Forall_impl; [|exact Hx]. cbn beta. lia.
Qed.

Lemma inside_above l c : Forall (fun p => p <= c) l -> Nat.Even (length l) -> inside false l c = false.
Proof.
  intros Hl He. rewrite inside_le by done. apply Nat.even_spec in He.
  rewrite <- Nat.negb_even, He. done.
Qed.

Section Ops.
Context `{AL : Allocator}.

Lemma cr_copy_spec h cr cr1 :
  cr_wf cr -> cr_wf cr1 -> post (cr_copy h cr cr1) (cr_result (fun l => l = cr_list cr1)).
Proof.
  intros Hwf Hwf1. unfold cr_copy. pose proof Hwf1 as [Hl1 Hz1].
  pose proof (cr_realloc_spec h cr (cr_len cr1) Hwf ltac:(lia)) as H.
  destruct (cr_realloc _ _ _) as [[h2 cr2] r2].
  destruct H as ([Hl2 Hz2] & Hc & Hl & [[-> Hn]| ->]); [|by split; auto]. cbn [Z.eqb negb].
  pose proof (zlen_cr_list cr1 Hwf1) as Hlen. rewrite <- Hlen.
  rewrite (rd_slice_block_at _ 0 (cr_list cr1)) by (try apply cr_list_block; done || lia).
  cbn [obind].
  destruct (wr_slice_exists (cr_points cr2) 0 (cr_list cr1)) as [m Hm]; [lia|lia|].
  rewrite Hm. cbn [obind]. apply wr_slice_block in Hm as [Hb Hz].
  destruct (cr_list_eq cr2 m (cr_list cr1)) as [Hw Hc']; [lia|lia|done|]. by split; auto.
Qed.

(** The points shifted by one, between 0 and [UINT32_MAX]. *)
Lemma invert_points m l :
  zlen l + 2 <= zlen m -> block_at m 0 l ->
  exists m', (let* d := rd_slice m 0 (zlen l) in
              let* m := wr_slice m 1 d in
              let* m := wr m 0 0 in
              wr m (zlen l + 1) UINT32_MAX) = Ret m' /\
    zlen m' = zlen m /\ block_at m' 0 (0 :: l ++ [UINT32_MAX]).
Proof.
  intros Hlen Hb. pose proof (zlen_nonneg l).
  rewrite rd_slice_block_at by (done || lia). cbn [obind].
  destruct (wr_slice_exists m 1 l) as [m1 Hm1]; [lia|lia|]. rewrite Hm1. cbn [obind].
  apply wr_slice_block in Hm1 as [Hb1 Hz1]. rewrite wr_in by lia. cbn [obind].
  rewrite wr_in by (rewrite zlen_insert; lia). eexists. split; [done|].
  split; [by rewrite !zlen_insert|]. change (0 :: l ++ [UINT32_MAX]) with ((0 :: l) ++ [UINT32_MAX]).
  replace (zlen l + 1) with (0 + zlen (0 :: l)) by (rewrite zlen_cons; lia).
  apply block_at_snoc; [|lia|rewrite zlen_cons, zlen_insert; lia].
  split; [apply at_insert_eq; lia|]. apply block_at_insert_ne; [done|lia..].
Qed.

Lemma invert_intervals l :
  intervals l -> Forall (fun p => 0 <= p <= UINT32_MAX) l -> intervals (0 :: l ++ [UINT32_MAX]).
Proof.
  intros [Hs He] Hf. split.
  - constructor.
    + apply sorted_le_app; [done| |by repeat constructor].
      eapply Forall_impl; [|exact Hf]. cbn beta. intros. constructor; [lia|done].
    + apply Forall_app. split; [|constructor; [done|constructor]].
      eapply Forall_impl; [|exact Hf]. cbn beta. lia.
  - cbn [length]. rewrite length_app, Nat.add_1_r. by apply even_SS.
Qed.

Lemma inside_invert l c :
  0 <= c -> inside false (0 :: l ++ [UINT32_MAX]) c
  = if c <? UINT32_MAX then negb (inside false l c) else inside false l c.
Proof.
  intros Hc. cbn [inside]. replace (0 <=? c) with true by lia. rewrite inside_app.
  cbn [inside]. rewrite inside_xorb.
  destruct (Z.ltb_spec c UINT32_MAX); [replace (UINT32_MAX <=? c) with false by lia
    |replace (UINT32_MAX <=? c) with true by lia]; by destruct (inside false l c).
Qed.

Lemma cr_invert_result h cr :
  cr_wf cr -> intervals (cr_list cr) -> Forall (fun p => 0 <= p <= UINT32_MAX) (cr_list cr) ->
  post (cr_invert h cr) (cr_result (fun l => canonical l /\
    Forall (fun p => 0 <= p <= UINT32_MAX) l /\
    forall c, inside false l c
      = (0 <=? c) && (c <? UINT32_MAX) && negb (inside false (cr_list cr) c))).
Proof.
  intros Hwf Hi Hf. unfold cr_invert. pose proof Hwf as [Hl0 _].
  pose proof (cr_realloc_spec h cr (cr_len cr + 2) Hwf ltac:(lia)) as H.
  destruct (cr_realloc _ _ _) as [[h1 cr1] r1].
  destruct H as (Hwf1 & Hc & Hl & [[-> Hn]| ->]); [|by split; auto]. cbn [Z.eqb negb].
  pose proof (zlen_cr_list cr Hwf) as Hlen. pose proof Hwf1 as [Hl1 Hz1].
  destruct (invert_points (cr_points cr1) (cr_list cr)) as (m' & Hm' & Hz' & Hb');
    [lia|rewrite <- Hc; by apply cr_list_block|].
  rewrite Hlen in Hm'. destruct (rd_slice _ _ _) as [d|]; [|done]. cbn [obind] in *.
  destruct (wr_slice _ _ _) as [m1|]; [|done]. cbn [obind] in *.
  destruct (wr m1 0 0) as [m2|]; [|done]. cbn [obind] in *. rewrite Hm'. cbn [obind].
  assert (cr_len cr + 2 = zlen (0 :: cr_list cr ++ [UINT32_MAX])) as ->
    by (rewrite zlen_cons, zlen_app, zlen_1; lia).
  destruct (cr_list_eq cr1 m' (0 :: cr_list cr ++ [UINT32_MAX])) as [Hw Hc'];
    [lia|rewrite zlen_cons, zlen_app, zlen_1; lia|done|].
  pose proof (invert_intervals _ Hi Hf) as Hii.
  assert (Forall (fun p => 0 <= p <= UINT32_MAX) (0 :: cr_list cr ++ [UINT32_MAX])) as Hfi.
  { constructor; [done|]. apply Forall_app. split; [done|]. by repeat constructor. }
  destruct (cr_compress_eq _ Hw ltac:(rewrite Hc'; apply Hii)) as (cr2 & -> & Hwf2 & Hl2).
  rewrite Hc' in Hl2. cbn [obind]. apply post_ret. split; [done|]. left. split; [done|].
  rewrite Hl2. split; [by apply compress_canonical|].
  split; [by apply compress_Forall|]. intros c.
  destruct (compress_inside _ c (proj2 Hii)) as [-> _]. destruct (Z.leb_spec 0 c) as [H0|H0].
  - rewrite inside_invert by done. destruct (Z.ltb_spec c UINT32_MAX); [done|]. cbn [andb].
    apply inside_above; [|apply Hi]. eapply Forall_impl; [|exact Hf]. cbn beta. lia.
  - cbn [andb]. apply inside_gt. eapply Forall_impl; [|exact Hfi]. cbn beta. lia.
Qed.

Lemma cr_union1_result h cr b_pt b :
  cr_wf cr -> intervals (cr_list cr) -> block_at b_pt 0 b -> intervals b ->
  post (cr_union1 h cr b_pt (zlen b)) (cr_result (fun l => canonical l /\
    forall c, inside false l c = inside false (cr_list cr) c || inside false b c)).
Proof.
  intros Hwf [Hs He] Hb [Hsb Heb]. unfold cr_union1. rewrite <- (zlen_cr_list cr Hwf).
  by apply (cr_op_result CR_OP_UNION); [apply cr_list_block|..].
Qed.
End Ops.

(** ** Properties *)

(** C27: [cr_op] computes the union, intersection or exclusive or of two sets of
    code points given as ordered interval lists: it reads only the two lists,
    and unless an allocation fails (result -1) it leaves the set in canonical
    form, with the members the boolean operation gives. *)
Theorem cr_op_spec `{AL : Allocator} op h cr a_pt b_pt a b :
  cr_wf cr -> cr_len cr = 0 -> block_at a_pt 0 a -> block_at b_pt 0 b ->
  intervals a -> intervals b ->
  post (cr_op h cr a_pt (zlen a) b_pt (zlen b) op) (fun '(h', cr', r) => cr_wf cr' /\
    (r = 0 /\ canonical (cr_list cr') /\
       (forall c, cr_mem cr' c = op_bool op (inside false a c) (inside false b c)) \/
     r = -1)).
Proof.
  intros Hwf Hl Ha Hb [Hsa Hea] [Hsb Heb].
  eapply post_mono; [by apply (cr_op_result op a_pt b_pt a b)|].
  intros [[h' cr'] r] [Hwf' [(-> & Hc & Hi)| ->]]; (split; [done|]); [left; auto|by right].
Qed.

Lemma cr_op_spec_witness :
  cr_op (AL := alloc_always) tt cr_init [1; 4; 8; 9] 4 [3; 8; 9; 12] 4 CR_OP_UNION
  = Ret (tt, mkCR 2 2 [1; 12], 0) /\
  post (cr_op (AL := alloc_limit) 4 cr_init [1; 4; 8; 9] (zlen [1; 4; 8; 9]) [3; 8] (zlen [3; 8])
          CR_OP_XOR)
    (fun '(h', cr', r) => cr_wf cr' /\
      (r = 0 /\ canonical (cr_list cr') /\
         (forall c, cr_mem cr' c
            = op_bool CR_OP_XOR (inside false [1; 4; 8; 9] c) (inside false [3; 8] c)) \/
       r = -1)).
Proof.
  split; [reflexivity|].
  apply (cr_op_spec (AL := alloc_limit) CR_OP_XOR 4 cr_init [1; 4; 8; 9] [3; 8] [1; 4; 8; 9] [3; 8]);
    try (vm_compute; intuition discriminate).
  - split; [repeat constructor; discriminate|by exists 2%nat].
  - split; [repeat constructor; discriminate|by exists 1%nat].
Defined.

(** [cr_invert] computes the complement below [UINT32_MAX]; inverting twice
    gives back the very same list of points, when no allocation fails. *)
Theorem cr_invert_involutive `{AL : Allocator} h cr :
  cr_wf cr -> canonical (cr_list cr) -> Forall (fun p => 0 <= p <= UINT32_MAX) (cr_list cr) ->
  post (cr_invert h cr) (fun '(h1, cr1, r1) => r1 = 0 ->
    (forall c, cr_mem cr1 c = (0 <=? c) && (c <? UINT32_MAX) && negb (cr_mem cr c)) /\
    post (cr_invert h1 cr1) (fun '(h2, cr2, r2) => r2 = 0 -> cr_list cr2 = cr_list cr)).
Proof.
  intros Hwf Hc Hf. pose proof (canonical_intervals _ Hc) as Hi.
  eapply post_mono; [by apply cr_invert_result|].
  intros [[h1 cr1] r1] [Hwf1 Hr1] ->. destruct Hr1 as [(_ & Hc1 & Hf1 & Hm1)|]; [|done].
  split; [exact Hm1|].
  eapply post_mono; [by apply cr_invert_result; [|apply canonical_intervals|]|].
  intros [[h2 cr2] r2] [Hwf2 Hr2] ->. destruct Hr2 as [(_ & Hc2 & Hf2 & Hm2)|]; [|done].
  apply canonical_unique; [done..|]. intros c. rewrite Hm2, Hm1.
  destruct (Z.leb_spec 0 c) as [H0|H0]; cbn [andb].
  - destruct (Z.ltb_spec c UINT32_MAX) as [H1|H1]; cbn [andb]; [by rewrite negb_involutive|].
    symmetry. apply inside_above; [|apply Hi]. eapply Forall_impl; [|exact Hf]. cbn beta. lia.
  - symmetry. apply inside_gt. eapply Forall_impl; [|exact Hf]. cbn beta. lia.
Qed.

Lemma cr_invert_involutive_witness :
  cr_invert (AL := alloc_always) tt (mkCR 2 2 [48; 58])
  = Ret (tt, mkCR 4 4 [0; 48; 58; UINT32_MAX], 0) /\
  post (cr_invert (AL := alloc_always) tt (mkCR 2 2 [48; 58])) (fun '(h1, cr1, r1) => r1 = 0 ->
    (forall c, cr_mem cr1 c
       = (0 <=? c) && (c <? UINT32_MAX) && negb (cr_mem (mkCR 2 2 [48; 58]) c)) /\
    post (cr_invert h1 cr1) (fun '(h2, cr2, r2) => r2 = 0 -> cr_list cr2 = [48; 58])).
Proof.
  split; [reflexivity|].
  apply (cr_invert_involutive (AL := alloc_always) tt (mkCR 2 2 [48; 58])).
  - vm_compute. intuition discriminate.
  - split; [repeat constructor|by exists 1%nat].
  - repeat constructor; discriminate.
Defined.

(** [cr_union_interval] adds exactly the code points from [c1] to [c2] to a
    set and leaves it in canonical form, when no allocation fails. *)
Theorem cr_union_interval_spec `{AL : Allocator} h cr c1 c2 :
  cr_wf cr -> intervals (cr_list cr) -> 0 <= c1 <= c2 -> c2 < UINT32_MAX ->
  post (cr_union_interval h cr c1 c2) (fun '(h', cr', r) => cr_wf cr' /\
    (r = 0 /\ canonical (cr_list cr') /\
       (forall c, cr_mem cr' c = cr_mem cr c || ((c1 <=? c) && (c <=? c2))) \/
     r = -1)).
Proof.
  intros Hwf Hi Hc12 Hmax. unfold cr_union_interval.
  rewrite u32_id by (unfold in_u32, UINT32_MAX in *; lia).
  eapply post_mono; [apply (cr_union1_result h cr _ [c1; c2 + 1] Hwf Hi)|].
  - cbn [block_at]. split; [by split|]. split; [by split|done].
  - split; [|by exists 1%nat]. constructor; [by repeat constructor|]. constructor; [lia|done].
  - intros [[h' cr'] r] [Hwf' [(-> & Hc & Hm)| ->]]; (split; [done|]); [left|by right].
    split; [done|]. split; [done|]. intros c. unfold cr_mem. rewrite Hm. f_equal. cbn [inside].
    destruct (Z.leb_spec c1 c), (Z.leb_spec (c2 + 1) c), (Z.leb_spec c c2); (done || lia).
Qed.

Lemma cr_union_interval_spec_witness :
  cr_union_interval (AL := alloc_always) tt (mkCR 2 2 [48; 58]) 58 64
  = Ret (tt, mkCR 2 2 [48; 65], 0) /\
  post (cr_union_interval (AL := alloc_always) tt (mkCR 2 2 [48; 58]) 58 64)
    (fun '(h', cr', r) => cr_wf cr' /\
      (r = 0 /\ canonical (cr_list cr') /\
         (forall c, cr_mem cr' c = cr_mem (mkCR 2 2 [48; 58]) c || ((58 <=? c) && (c <=? 64))) \/
       r = -1)).
Proof.
  split; [reflexivity|].
  apply (cr_union_interval_spec (AL := alloc_always) tt (mkCR 2 2 [48; 58]) 58 64);
    try (vm_compute; intuition discriminate).
  split; [repeat constructor; discriminate|by exists 1%nat].
Defined.
