(* ===== verification/UnicodeTables.v ===== *)
(** The tables of [libunicode-table.h], with the names of the source. *)
From Stdlib Require Import ZArith List String.
From stdpp Require Import base list numbers strings.
From S2P Require Import Prelude.

(** A table of names: each name and its terminator, and the terminator of the
    table itself. *)
Definition c_names (names : list string) : list Z :=
  concat (map (fun n => bytes_of_string n ++ [0]) names) ++ [0].

Definition case_conv_table1 : list Z :=
  [2136624; 3185152; 5931379; 6297392; 7079728; 7307699; 7345920; 8128256; 8356096; 8400960;
   9961923; 9994640; 10028608; 10260544; 10781108; 10825280; 12321072; 12355136; 12550512;
   12583168; 12615984; 12649536; 12779824; 12812864; 12878384; 12943936; 13041968; 13074736;
   13107504; 13140544; 13205808; 13238576; 13271296; 13304112; 13336880; 13369920; 13435136;
   13467905; 13500720; 13533488; 13566208; 13599024; 13633088; 13828400; 13861440; 13926704;
   14025280; 14090544; 14123584; 14189104; 14255168; 14385456; 14418496; 14549568; 14647552;
   14811984; 14910288; 15008592; 15110208; 15630592; 15667776; 16253364; 16286544; 16384576;
   16449840; 16482608; 16525376; 17826096; 17896000; 18678065; 18711104; 18776368; 18809137;
   18842113; 18907712; 18972976; 19005744; 19038512; 19073600; 19398913; 19431681; 19464449;
   19497216; 19529984; 19595776; 19693824; 19759360; 19792129; 19923200; 19955969; 20021504;
   20054273; 20087041; 20119809; 20185344; 20218112; 20250881; 20283649; 20316417; 20414720;
   20480257; 20513024; 20611328; 20873473; 20971776; 21037313; 21070080; 21201153; 21233920;
   21266688; 21299712; 21364992; 21561600; 21922049; 21954817; 27427187; 28836928; 29033024;
   29197056; 29327664; 29557040; 29623088; 29753648; 29819440; 29884880; 29921584; 30509360;
   30802176; 30835456; 30933459; 30970112; 31523187; 31557888; 31850752; 31883776; 31949104;
   31981939; 32014707; 32145779; 32178547; 32211200; 32249920; 33030515; 33063283; 33095936;
   33128704; 33161632; 33194355; 33260096; 33325360; 33358400; 33456944; 33558576; 34086960;
   35135488; 36179968; 36708928; 38090304; 39846192; 39882304; 40337664; 40394816; 43558448;
   45131264; 46367157; 139470385; 140738865; 140935473; 141044480; 142508800; 164646929;
   167249424; 167511584; 239075700; 239108468; 239141236; 239174004; 239206772; 239239540;
   239272308; 239305088; 239337856; 239370816; 239610672; 241074992; 247234817; 247365889;
   247922945; 251690560; 255793216; 256573877; 256606646; 256639414; 256672182; 256704951;
   256737664; 256835888; 256925760; 260048896; 260311088; 260572672; 260834864; 261097472;
   261359664; 261621760; 261883952; 262145536; 262407728; 262668720; 262701312; 262734291;
   262766848; 262799827; 262832384; 262865363; 262897920; 262963504; 263029040; 263094576;
   263160112; 263194624; 263456816; 263717376; 263783424; 263913985; 263979521; 264045057;
   264110593; 264243383; 264505447; 264767672; 265029736; 265291960; 265554024; 265814528;
   265879993; 265912753; 265945529; 266011057; 266043863; 266076720; 266142256; 266207585;
   266273139; 266404281; 266437042; 266469818; 266535346; 266568152; 266601520; 266731874;
   266863105; 266928592; 266961360; 267059632; 267092432; 267125296; 267190832; 267387393;
   267452883; 267485651; 267518394; 267550977; 267583920; 267616723; 267649585; 267715120;
   267780401; 267977146; 268009906; 268042683; 268108210; 268141017; 268173872; 268239408;
   268304738; 278069664; 278200736; 278233504; 278462769; 279380225; 279973937; 280498177;
   281117248; 307960369; 308812289; 369111089; 370683905; 372245056; 372310320; 372343088;
   372375856; 372408576; 372441344; 372475456; 372670768; 372703536; 372736304; 372769072;
   372834880; 372933184; 373228080; 373318720; 376800320; 377029184; 377497088; 378765568;
   378962176; 1394617920; 1396710464; 1402015296; 1402551872; 1404863552; 1404993840; 1405028928;
   1405452864; 1405518128; 1405617216; 1405747457; 1405817920; 1406468400; 1406501168;
   1406533936; 1406566704; 1406599472; 1406665008; 1406697776; 1406730544; 1406763313;
   1406799936; 1407320369; 1407353136; 1407385904; 1407419456; 1407549744; 1407582784;
   1407713856; 1407911488; 1408106800; 1408926272; 1437171969; 1438142496; 2105541042;
   2105573810; 2105606578; 2105639386; 2105672154; 2105704883; 2105737651; 2106163643;
   2106196411; 2106229179; 2106261948; 2106294715; 2140183089; 2141231617; 2181048369;
   2182359041; 2186814513; 2188125185; 2193099569; 2193493809; 2194016049; 2194276913;
   2194377473; 2194771713; 2195293953; 2195554817; 2252354353; 2254451457; 2259162673;
   2260211201; 2354061361; 2355109889; 3072335921; 3073384449; 4102038065; 4103152129].

Definition case_conv_table2 : list Z :=
  [1; 0; 156; 6; 7; 77; 3; 4; 16; 0; 143; 11; 0; 0; 17; 0; 8; 0; 83; 75; 82; 0; 83; 0; 84; 0; 59;
   85; 86; 0; 88; 90; 64; 95; 94; 0; 71; 82; 99; 101; 67; 102; 0; 104; 0; 106; 0; 108; 0; 110; 0;
   112; 0; 0; 65; 0; 0; 0; 0; 26; 0; 147; 0; 0; 32; 54; 0; 40; 0; 36; 0; 36; 37; 45; 0; 19; 109;
   111; 0; 41; 39; 42; 20; 22; 24; 27; 28; 65; 30; 66; 31; 78; 60; 64; 34; 33; 68; 33; 67; 38;
   40; 39; 41; 35; 43; 75; 45; 70; 47; 76; 49; 77; 51; 71; 69; 153; 0; 0; 151; 145; 127; 128;
   133; 134; 18; 130; 132; 120; 121; 18; 125; 163; 126; 122; 123; 140; 146; 152; 166; 160; 135;
   0; 154; 161; 149; 119; 51; 149; 0; 144; 0; 118; 155; 154; 153; 152; 0; 0; 160; 0; 158; 0; 163;
   162; 21; 49; 50; 51; 183; 184; 85; 172; 171; 18; 20; 30; 33; 34; 34; 42; 52; 53; 0; 168; 169;
   57; 34; 76; 0; 0; 151; 1; 90; 218; 29; 54; 5; 0; 199; 198; 201; 200; 203; 202; 205; 204; 207;
   206; 196; 216; 69; 217; 66; 218; 70; 219; 209; 211; 213; 215; 221; 220; 241; 249; 1; 17; 10;
   18; 128; 159; 0; 33; 128; 163; 240; 0; 192; 64; 198; 96; 234; 222; 230; 153; 192; 0; 0; 6; 96;
   223; 41; 0; 21; 18; 6; 22; 251; 224; 9; 21; 18; 132; 11; 198; 22; 2; 226; 6; 192; 64; 0; 70;
   96; 225; 227; 109; 55; 56; 57; 24; 23; 26; 25; 0; 29; 28; 31; 30; 0; 97; 186; 103; 69; 72; 0;
   80; 100; 79; 81; 0; 0; 73; 0; 0; 0; 165; 166; 167; 0; 0; 0; 0; 0; 185; 0; 0; 92; 0; 74; 0; 93;
   87; 89; 98; 96; 114; 107; 113; 84; 0; 62; 105; 187; 0; 91; 0; 0; 0; 37; 0; 72; 170; 138; 139;
   140; 171; 172; 88; 88; 175; 148; 176; 111; 178; 99; 98; 101; 100; 103; 102; 108; 109; 110;
   111; 104; 105; 106; 107; 113; 112; 115; 114; 117; 116; 119; 118; 121; 120].

Definition case_conv_ext : list Z :=
  [921; 776; 769; 933; 787; 768; 834; 913; 919; 937; 70; 73; 76; 83; 105; 775; 700; 78; 74; 780;
   1333; 1362; 72; 817; 84; 87; 778; 89; 65; 702; 7944; 8064; 7976; 8080; 8040; 8096; 8122; 902;
   8115; 8138; 905; 8131; 929; 8186; 911; 8179; 1348; 1350; 1339; 1358; 1341; 952; 1122; 42570;
   7776; 969; 107; 229].

Definition unicode_prop_Cased1_table : list Z :=
  [64; 169; 128; 142; 128; 252; 128; 211; 128; 155; 129; 141; 2; 128; 225; 128; 145; 133; 154; 1;
   0; 1; 17; 3; 4; 8; 1; 8; 48; 8; 1; 21; 32; 0; 57; 153; 49; 157; 132; 64; 148; 128; 214; 130;
   166; 128; 65; 98; 128; 166; 128; 75; 114; 128; 76; 2; 248; 2; 128; 143; 128; 176; 64; 219; 8;
   128; 65; 208; 128; 140; 128; 143; 140; 228; 3; 1; 137; 0; 20; 40; 16; 17; 2; 1; 24; 11; 36;
   75; 38; 1; 1; 134; 229; 128; 96; 121; 182; 129; 64; 145; 129; 189; 136; 148; 5; 128; 152; 128;
   162; 0; 128; 155; 18; 130; 67; 52; 162; 6; 128; 141; 96; 92; 21; 1; 16; 169; 128; 136; 96;
   204; 68; 212; 128; 198; 1; 8; 9; 11; 128; 139; 0; 6; 128; 192; 3; 15; 6; 128; 155; 3; 4; 0;
   22; 128; 65; 83; 129; 152; 128; 152; 128; 158; 128; 152; 128; 158; 128; 152; 128; 158; 128;
   152; 128; 158; 128; 152; 7; 71; 51; 137; 128; 147; 45; 65; 4; 189; 80; 193; 153; 133; 153;
   133; 153].

Definition unicode_prop_Cased1_index : list Z :=
  [185; 2; 128; 160; 30; 64; 158; 166; 64; 187; 7; 1; 219; 214; 1; 138; 241; 1].

Definition unicode_prop_Case_Ignorable_table : list Z :=
  [166; 5; 128; 138; 128; 162; 0; 128; 198; 3; 0; 3; 1; 129; 65; 246; 64; 191; 25; 24; 136; 8;
   128; 64; 250; 134; 64; 206; 4; 128; 176; 172; 0; 1; 1; 0; 171; 128; 138; 133; 137; 138; 0;
   162; 128; 137; 148; 143; 128; 228; 56; 137; 3; 160; 0; 128; 157; 154; 218; 138; 185; 138; 24;
   8; 151; 151; 170; 130; 171; 6; 12; 136; 168; 185; 182; 0; 3; 59; 2; 134; 137; 129; 140; 128;
   142; 128; 185; 3; 31; 128; 147; 129; 153; 1; 129; 184; 3; 11; 9; 18; 128; 157; 10; 128; 138;
   129; 184; 3; 32; 11; 128; 147; 129; 149; 40; 128; 185; 1; 0; 31; 6; 129; 138; 129; 157; 128;
   188; 128; 139; 128; 177; 2; 128; 182; 0; 20; 16; 30; 129; 138; 129; 156; 128; 185; 1; 5; 4;
   129; 147; 129; 155; 129; 184; 11; 31; 128; 147; 129; 156; 128; 199; 6; 16; 128; 217; 1; 134;
   138; 136; 225; 1; 136; 136; 0; 134; 200; 129; 154; 0; 0; 128; 182; 141; 4; 1; 132; 138; 128;
   163; 136; 128; 229; 24; 40; 9; 129; 152; 11; 130; 143; 131; 140; 1; 13; 128; 142; 128; 221;
   128; 66; 95; 130; 67; 177; 130; 156; 129; 157; 129; 157; 129; 191; 8; 55; 1; 138; 16; 32; 172;
   132; 178; 128; 192; 129; 161; 128; 245; 19; 129; 136; 5; 130; 64; 218; 9; 128; 185; 0; 48; 0;
   1; 61; 137; 8; 166; 7; 158; 176; 131; 175; 0; 32; 4; 128; 167; 136; 139; 129; 159; 25; 8; 130;
   183; 0; 10; 0; 130; 185; 57; 129; 191; 133; 209; 16; 140; 6; 24; 40; 17; 177; 190; 140; 128;
   161; 228; 65; 188; 0; 130; 138; 130; 140; 130; 140; 130; 140; 129; 139; 39; 129; 137; 1; 1;
   132; 176; 32; 137; 0; 140; 128; 143; 140; 178; 160; 75; 138; 129; 240; 130; 252; 128; 142;
   128; 223; 159; 174; 128; 65; 212; 128; 163; 26; 36; 128; 220; 133; 220; 130; 96; 111; 21; 128;
   68; 225; 133; 65; 13; 128; 225; 24; 137; 0; 155; 131; 207; 129; 141; 161; 205; 128; 150; 130;
   230; 18; 15; 2; 3; 128; 152; 12; 128; 64; 150; 129; 153; 145; 140; 128; 165; 135; 152; 138;
   173; 130; 175; 1; 25; 129; 144; 128; 148; 129; 193; 41; 9; 129; 139; 7; 128; 162; 128; 138;
   128; 178; 0; 17; 12; 8; 128; 154; 128; 141; 12; 8; 128; 227; 132; 136; 130; 248; 1; 3; 128;
   96; 79; 47; 128; 64; 146; 144; 66; 60; 143; 16; 139; 143; 161; 1; 128; 64; 168; 6; 5; 128;
   138; 128; 162; 0; 128; 174; 128; 172; 129; 194; 128; 148; 130; 66; 0; 128; 64; 225; 128; 64;
   148; 132; 68; 4; 40; 169; 128; 136; 66; 69; 16; 12; 131; 167; 19; 128; 64; 164; 129; 66; 60;
   131; 165; 128; 153; 32; 128; 65; 58; 129; 206; 131; 197; 138; 176; 131; 250; 128; 181; 142;
   168; 1; 129; 137; 130; 176; 25; 9; 3; 128; 137; 128; 177; 130; 163; 32; 135; 189; 128; 139;
   129; 179; 136; 137; 25; 128; 222; 17; 0; 13; 1; 128; 64; 156; 2; 135; 148; 129; 184; 10; 128;
   164; 50; 132; 197; 133; 140; 0; 0; 128; 141; 129; 212; 57; 16; 128; 150; 128; 211; 40; 3; 8;
   129; 64; 237; 29; 8; 129; 154; 129; 212; 57; 0; 129; 233; 0; 1; 40; 128; 228; 0; 1; 24; 132;
   65; 2; 136; 1; 64; 255; 8; 3; 128; 64; 143; 25; 11; 128; 159; 137; 167; 41; 31; 128; 136; 41;
   130; 173; 140; 1; 65; 149; 48; 40; 128; 209; 149; 14; 1; 1; 249; 42; 0; 8; 48; 128; 199; 10;
   0; 128; 65; 90; 129; 138; 129; 179; 36; 0; 128; 150; 128; 84; 212; 144; 133; 142; 96; 44; 199;
   139; 18; 73; 191; 132; 186; 134; 136; 131; 65; 251; 130; 167; 129; 65; 225; 128; 190; 144;
   191; 8; 129; 96; 64; 10; 24; 48; 129; 76; 157; 8; 131; 82; 91; 173; 129; 150; 66; 31; 130;
   136; 143; 14; 157; 131; 64; 147; 130; 71; 186; 182; 131; 177; 56; 141; 128; 149; 32; 142; 69;
   79; 48; 144; 14; 1; 4; 132; 189; 160; 128; 64; 159; 141; 65; 111; 128; 188; 131; 65; 250; 132;
   64; 253; 129; 66; 223; 134; 236; 135; 74; 174; 132; 108; 12; 0; 128; 157; 223; 255; 64; 239].

Definition unicode_prop_Case_Ignorable_index : list Z :=
  [190; 5; 0; 254; 7; 0; 82; 10; 160; 193; 11; 0; 130; 13; 0; 63; 16; 128; 212; 23; 64; 207; 26;
   32; 245; 28; 0; 128; 32; 0; 22; 160; 0; 198; 168; 0; 194; 170; 96; 86; 254; 32; 177; 7; 1; 2;
   16; 1; 66; 18; 65; 196; 20; 33; 225; 25; 129; 72; 29; 1; 68; 107; 1; 131; 209; 33; 62; 225; 1;
   240; 1; 14].

Definition unicode_prop_ID_Start_table : list Z :=
  [192; 153; 133; 153; 174; 128; 137; 3; 4; 150; 128; 158; 128; 65; 201; 131; 139; 141; 38; 0;
   128; 64; 128; 32; 9; 24; 5; 0; 16; 0; 147; 128; 210; 128; 64; 138; 135; 64; 165; 128; 165; 8;
   133; 168; 198; 154; 27; 172; 170; 162; 8; 226; 0; 142; 14; 129; 137; 17; 128; 143; 0; 157;
   156; 216; 138; 128; 151; 160; 136; 11; 4; 149; 24; 136; 2; 128; 150; 152; 134; 138; 132; 151;
   5; 144; 169; 185; 181; 16; 145; 6; 137; 142; 143; 31; 9; 129; 149; 6; 0; 19; 16; 143; 128;
   140; 8; 130; 141; 129; 137; 7; 43; 9; 149; 6; 1; 1; 1; 158; 24; 128; 146; 130; 143; 136; 2;
   128; 149; 6; 1; 4; 16; 145; 128; 142; 129; 150; 128; 138; 57; 9; 149; 6; 1; 4; 16; 157; 8;
   130; 142; 128; 144; 0; 42; 16; 26; 8; 0; 10; 10; 18; 139; 149; 128; 179; 56; 16; 150; 128;
   143; 16; 153; 17; 1; 129; 157; 3; 56; 16; 150; 128; 137; 4; 16; 158; 8; 129; 142; 129; 144;
   136; 2; 128; 168; 8; 143; 4; 23; 130; 151; 44; 145; 130; 151; 128; 136; 0; 14; 185; 175; 1;
   139; 134; 185; 8; 0; 32; 151; 0; 128; 137; 1; 136; 1; 32; 128; 148; 131; 159; 128; 190; 56;
   163; 154; 132; 242; 170; 147; 128; 143; 43; 26; 2; 14; 19; 140; 139; 128; 144; 165; 0; 32;
   129; 170; 128; 65; 76; 3; 14; 0; 3; 129; 168; 3; 129; 160; 3; 14; 0; 3; 129; 142; 128; 184; 3;
   129; 194; 164; 143; 143; 213; 13; 130; 66; 107; 129; 144; 128; 153; 132; 202; 130; 138; 134;
   145; 140; 146; 141; 145; 141; 140; 2; 142; 179; 162; 3; 128; 194; 216; 134; 168; 0; 132; 197;
   137; 158; 176; 157; 12; 138; 171; 131; 153; 181; 150; 136; 180; 209; 128; 220; 174; 144; 135;
   181; 157; 140; 129; 137; 171; 153; 163; 168; 130; 137; 163; 129; 138; 132; 170; 10; 168; 24;
   40; 10; 4; 64; 191; 191; 65; 21; 13; 129; 165; 13; 15; 0; 0; 0; 128; 158; 129; 180; 6; 0; 18;
   6; 19; 13; 131; 140; 34; 6; 243; 128; 140; 128; 143; 140; 228; 3; 1; 137; 0; 13; 40; 0; 0;
   128; 143; 11; 36; 24; 144; 168; 74; 118; 64; 228; 43; 17; 139; 165; 0; 32; 129; 183; 48; 143;
   150; 136; 48; 48; 48; 48; 48; 48; 48; 134; 66; 37; 130; 152; 136; 52; 12; 131; 213; 28; 128;
   217; 3; 132; 170; 128; 221; 144; 159; 175; 143; 65; 255; 89; 191; 191; 96; 86; 140; 194; 173;
   129; 65; 12; 130; 143; 137; 129; 147; 174; 143; 158; 129; 207; 166; 136; 129; 230; 129; 194;
   9; 0; 7; 148; 143; 2; 3; 128; 150; 156; 179; 141; 177; 189; 42; 0; 129; 138; 155; 137; 150;
   152; 156; 134; 174; 155; 128; 143; 32; 137; 137; 32; 168; 150; 16; 135; 147; 150; 16; 130;
   177; 0; 17; 12; 8; 0; 151; 17; 138; 50; 139; 41; 41; 133; 136; 48; 48; 170; 128; 141; 133;
   242; 156; 96; 43; 163; 139; 150; 131; 176; 96; 33; 3; 65; 109; 129; 233; 165; 134; 139; 36; 0;
   137; 128; 140; 4; 0; 1; 1; 128; 235; 160; 65; 106; 145; 191; 129; 181; 167; 139; 243; 32; 64;
   134; 163; 153; 133; 153; 138; 216; 21; 13; 13; 10; 162; 139; 128; 153; 128; 146; 1; 128; 142;
   129; 141; 161; 250; 196; 180; 65; 10; 156; 130; 176; 174; 159; 140; 157; 132; 165; 137; 157;
   129; 163; 31; 4; 169; 64; 157; 145; 163; 131; 163; 131; 167; 135; 179; 139; 138; 128; 142; 6;
   1; 128; 138; 128; 142; 6; 1; 130; 179; 139; 65; 54; 136; 149; 137; 135; 151; 40; 169; 128;
   136; 196; 41; 0; 171; 1; 16; 129; 150; 137; 150; 136; 158; 192; 146; 1; 137; 149; 137; 153;
   197; 183; 41; 191; 128; 142; 24; 16; 156; 169; 156; 130; 156; 162; 56; 155; 154; 181; 137;
   149; 137; 146; 140; 145; 237; 200; 182; 178; 140; 178; 140; 163; 165; 155; 136; 150; 64; 249;
   169; 41; 143; 130; 186; 156; 137; 7; 149; 169; 145; 173; 148; 154; 150; 139; 180; 184; 9; 128;
   140; 172; 159; 152; 153; 163; 156; 1; 7; 162; 16; 139; 175; 141; 131; 148; 0; 128; 162; 145;
   128; 152; 146; 129; 190; 48; 0; 24; 142; 128; 137; 134; 174; 165; 57; 9; 149; 6; 1; 4; 16;
   145; 128; 139; 132; 157; 137; 0; 8; 128; 165; 0; 152; 0; 128; 171; 180; 145; 131; 147; 130;
   157; 175; 147; 8; 128; 64; 183; 174; 168; 131; 163; 175; 147; 128; 186; 170; 140; 128; 198;
   154; 164; 134; 64; 184; 171; 243; 191; 158; 57; 1; 56; 8; 151; 142; 0; 128; 221; 57; 166; 143;
   0; 128; 155; 128; 137; 167; 48; 148; 128; 138; 173; 146; 128; 145; 200; 64; 198; 160; 158;
   136; 128; 164; 144; 128; 176; 157; 239; 48; 8; 165; 148; 128; 152; 40; 8; 159; 141; 128; 65;
   70; 146; 142; 0; 140; 128; 161; 251; 128; 206; 67; 153; 229; 238; 144; 64; 195; 74; 75; 224;
   142; 68; 47; 144; 133; 152; 79; 154; 132; 66; 70; 90; 184; 157; 70; 225; 66; 56; 134; 158;
   144; 206; 144; 157; 145; 175; 143; 131; 158; 148; 132; 146; 65; 175; 172; 64; 210; 191; 255;
   202; 32; 193; 140; 191; 8; 128; 155; 87; 247; 135; 68; 213; 168; 137; 96; 34; 230; 24; 48; 8;
   65; 34; 142; 128; 156; 17; 128; 141; 31; 65; 139; 73; 3; 234; 132; 140; 130; 136; 134; 137;
   87; 101; 212; 128; 198; 1; 8; 9; 11; 128; 139; 0; 6; 128; 192; 3; 15; 6; 128; 155; 3; 4; 0;
   22; 128; 65; 83; 129; 152; 128; 152; 128; 158; 128; 152; 128; 158; 128; 152; 128; 158; 128;
   152; 128; 158; 128; 152; 7; 71; 51; 158; 45; 65; 4; 189; 64; 145; 172; 137; 134; 143; 128; 65;
   64; 157; 145; 171; 65; 227; 155; 64; 227; 157; 8; 65; 238; 48; 24; 8; 142; 128; 64; 196; 186;
   195; 48; 68; 179; 24; 154; 1; 0; 8; 128; 137; 3; 0; 0; 40; 24; 0; 0; 2; 1; 0; 8; 0; 0; 0; 0;
   1; 0; 11; 6; 3; 3; 0; 128; 137; 128; 144; 34; 4; 128; 144; 81; 67; 96; 166; 223; 159; 80; 57;
   133; 64; 221; 129; 86; 129; 141; 93; 48; 142; 66; 109; 73; 161; 66; 29; 69; 225; 83; 74; 132;
   80; 95].

Definition unicode_prop_ID_Start_index : list Z :=
  [246; 3; 32; 166; 7; 0; 169; 9; 32; 177; 10; 0; 186; 11; 32; 59; 13; 32; 199; 14; 32; 73; 18;
   0; 155; 22; 0; 172; 25; 0; 192; 29; 128; 128; 32; 32; 112; 45; 0; 0; 50; 0; 221; 167; 0; 76;
   170; 32; 199; 215; 32; 252; 253; 32; 157; 2; 33; 150; 5; 1; 159; 8; 1; 73; 12; 33; 118; 16;
   33; 169; 18; 1; 176; 20; 1; 66; 25; 65; 144; 28; 1; 241; 47; 33; 144; 107; 33; 51; 177; 33; 6;
   213; 1; 195; 215; 1; 255; 231; 33; 99; 238; 1; 94; 238; 66; 176; 35; 3].

Definition unicode_prop_ID_Continue1_table : list Z :=
  [175; 137; 164; 128; 214; 128; 66; 71; 239; 150; 128; 64; 250; 132; 65; 8; 172; 0; 1; 1; 0;
   199; 138; 175; 158; 40; 228; 49; 41; 8; 25; 137; 150; 128; 157; 154; 218; 138; 142; 137; 160;
   136; 136; 128; 151; 24; 136; 2; 4; 170; 130; 186; 136; 169; 151; 128; 160; 181; 16; 145; 6;
   137; 9; 137; 144; 130; 183; 0; 49; 9; 130; 136; 128; 137; 9; 137; 141; 1; 130; 183; 0; 35; 9;
   18; 128; 147; 139; 16; 138; 130; 183; 0; 56; 16; 130; 147; 9; 137; 137; 40; 130; 183; 0; 49;
   9; 22; 130; 137; 9; 137; 145; 128; 186; 34; 16; 131; 136; 128; 141; 137; 143; 132; 182; 0; 48;
   16; 30; 129; 138; 9; 137; 144; 130; 183; 0; 48; 16; 30; 129; 138; 9; 137; 16; 139; 131; 182;
   8; 48; 16; 131; 136; 128; 137; 9; 137; 144; 130; 197; 3; 40; 0; 61; 137; 9; 188; 1; 134; 139;
   56; 137; 214; 1; 136; 138; 48; 137; 189; 13; 137; 138; 0; 0; 3; 129; 176; 147; 1; 132; 138;
   128; 163; 136; 128; 227; 147; 128; 137; 139; 27; 16; 17; 50; 131; 140; 139; 128; 142; 66; 190;
   130; 136; 136; 67; 159; 131; 155; 130; 156; 129; 157; 129; 191; 159; 136; 1; 137; 160; 16;
   138; 64; 142; 128; 245; 139; 131; 139; 137; 137; 255; 138; 187; 132; 184; 137; 128; 156; 129;
   138; 133; 137; 149; 141; 128; 143; 176; 132; 174; 144; 138; 137; 144; 136; 139; 130; 157; 140;
   129; 137; 171; 141; 175; 147; 135; 137; 133; 137; 245; 16; 148; 24; 40; 10; 64; 197; 191; 66;
   11; 129; 176; 129; 146; 128; 250; 140; 24; 130; 139; 75; 253; 130; 64; 140; 128; 223; 159; 66;
   41; 133; 232; 129; 223; 128; 96; 117; 35; 137; 196; 3; 137; 159; 129; 207; 129; 65; 15; 2; 3;
   128; 150; 35; 128; 210; 129; 177; 145; 137; 137; 133; 145; 140; 138; 155; 135; 152; 140; 171;
   131; 174; 141; 142; 137; 138; 128; 137; 137; 174; 141; 139; 7; 9; 137; 160; 130; 177; 0; 17;
   12; 8; 128; 168; 36; 129; 64; 235; 56; 9; 137; 96; 79; 35; 128; 66; 224; 143; 143; 143; 17;
   151; 130; 64; 191; 137; 164; 128; 164; 128; 66; 150; 128; 64; 225; 128; 64; 148; 132; 65; 36;
   137; 69; 86; 16; 12; 131; 167; 19; 128; 64; 164; 129; 66; 60; 31; 137; 133; 137; 158; 132; 65;
   60; 129; 206; 131; 197; 138; 176; 131; 249; 130; 180; 142; 158; 138; 9; 137; 131; 172; 138;
   48; 172; 137; 42; 163; 141; 128; 137; 33; 171; 128; 139; 130; 175; 141; 59; 128; 139; 209;
   139; 40; 8; 64; 156; 139; 132; 137; 43; 182; 8; 49; 9; 130; 136; 128; 137; 9; 50; 132; 194;
   136; 0; 8; 3; 4; 0; 141; 129; 209; 145; 136; 137; 24; 208; 147; 139; 137; 64; 212; 49; 136;
   154; 129; 209; 144; 142; 137; 208; 140; 135; 137; 133; 147; 184; 142; 131; 137; 64; 241; 142;
   64; 164; 137; 197; 40; 9; 24; 0; 129; 139; 137; 246; 49; 50; 128; 155; 137; 167; 48; 31; 128;
   136; 138; 173; 143; 65; 85; 137; 180; 56; 135; 143; 137; 183; 149; 128; 141; 249; 42; 0; 8;
   48; 7; 137; 175; 32; 8; 39; 137; 65; 72; 131; 136; 8; 128; 175; 50; 132; 140; 138; 84; 228; 5;
   142; 96; 44; 199; 155; 73; 37; 137; 213; 137; 165; 132; 186; 134; 152; 137; 66; 21; 137; 65;
   212; 0; 182; 51; 208; 128; 138; 129; 96; 76; 170; 129; 80; 80; 137; 66; 5; 173; 129; 150; 66;
   29; 34; 47; 57; 134; 157; 131; 64; 147; 130; 69; 136; 177; 65; 255; 182; 131; 177; 56; 141;
   128; 149; 32; 142; 69; 79; 48; 144; 14; 1; 4; 227; 128; 64; 159; 134; 136; 137; 65; 99; 128;
   188; 141; 65; 241; 141; 64; 243; 8; 137; 66; 212; 134; 236; 52; 137; 82; 149; 137; 108; 5; 5;
   64; 239].

Definition unicode_prop_ID_Continue1_index : list Z :=
  [250; 6; 0; 112; 9; 0; 240; 10; 64; 87; 12; 0; 240; 13; 96; 199; 15; 32; 234; 23; 64; 5; 27; 0;
   14; 32; 0; 160; 166; 32; 230; 169; 32; 16; 254; 0; 64; 10; 1; 195; 16; 1; 78; 19; 1; 65; 22;
   1; 11; 26; 1; 170; 29; 1; 122; 109; 33; 69; 210; 33; 175; 226; 1; 240; 1; 14].

Definition unicode_prop_White_Space_table : list Z :=
  [136; 132; 145; 128; 227; 128; 153; 128; 85; 222; 128; 73; 126; 138; 156; 12; 128; 174; 128;
   79; 159; 128].

Definition unicode_prop_White_Space_index : list Z :=
  [1; 48; 0].

Definition unicode_cc_table : list Z :=
  [178; 207; 212; 0; 232; 3; 220; 0; 232; 0; 216; 4; 220; 1; 202; 3; 220; 1; 202; 10; 220; 4; 1;
   3; 220; 199; 0; 240; 192; 2; 220; 194; 1; 220; 128; 194; 3; 220; 192; 0; 232; 1; 220; 192; 65;
   233; 0; 234; 65; 233; 0; 234; 0; 233; 204; 176; 226; 196; 176; 216; 0; 220; 195; 0; 220; 194;
   0; 222; 0; 220; 197; 5; 220; 193; 0; 220; 193; 0; 222; 0; 228; 192; 73; 10; 67; 19; 128; 0;
   23; 128; 65; 24; 128; 192; 0; 220; 128; 0; 18; 176; 23; 199; 66; 30; 175; 71; 27; 193; 1; 220;
   196; 0; 220; 193; 0; 220; 143; 0; 35; 176; 52; 198; 129; 195; 0; 220; 192; 129; 193; 128; 0;
   220; 193; 0; 220; 162; 0; 36; 157; 192; 0; 220; 193; 0; 220; 193; 2; 220; 192; 1; 220; 192; 0;
   220; 194; 0; 220; 192; 0; 220; 192; 0; 220; 192; 0; 220; 193; 176; 111; 198; 0; 220; 192; 136;
   0; 220; 151; 195; 128; 200; 128; 194; 128; 196; 170; 2; 220; 176; 10; 193; 2; 220; 195; 169;
   196; 4; 220; 205; 128; 0; 220; 193; 0; 220; 193; 0; 220; 194; 2; 220; 66; 27; 194; 0; 220;
   193; 1; 220; 196; 176; 11; 0; 7; 143; 0; 9; 130; 192; 0; 220; 193; 176; 54; 0; 7; 143; 0; 9;
   175; 192; 176; 12; 0; 7; 143; 0; 9; 176; 61; 0; 7; 143; 0; 9; 176; 61; 0; 7; 143; 0; 9; 176;
   78; 0; 9; 176; 61; 0; 7; 143; 0; 9; 134; 0; 84; 0; 91; 176; 52; 0; 7; 143; 0; 9; 176; 60; 1;
   9; 143; 0; 9; 176; 75; 0; 9; 176; 60; 1; 103; 0; 9; 140; 3; 107; 176; 59; 1; 118; 0; 9; 140;
   3; 122; 176; 27; 1; 220; 154; 0; 220; 128; 0; 220; 128; 0; 216; 176; 6; 65; 129; 128; 0; 132;
   132; 3; 130; 129; 0; 130; 128; 193; 0; 9; 128; 193; 176; 13; 0; 220; 176; 63; 0; 7; 128; 1; 9;
   176; 33; 0; 220; 178; 158; 194; 179; 131; 1; 9; 157; 0; 9; 176; 108; 0; 9; 137; 192; 176; 154;
   0; 228; 176; 94; 0; 222; 192; 0; 220; 176; 170; 192; 0; 220; 176; 22; 0; 9; 147; 199; 129; 0;
   220; 175; 196; 5; 220; 193; 0; 220; 128; 1; 220; 193; 1; 220; 196; 0; 220; 195; 176; 52; 0; 7;
   142; 0; 9; 165; 192; 0; 220; 198; 176; 5; 1; 9; 176; 9; 0; 7; 138; 1; 9; 176; 18; 0; 7; 176;
   103; 194; 65; 0; 4; 220; 193; 3; 220; 192; 65; 0; 5; 1; 131; 0; 220; 133; 192; 130; 193; 176;
   149; 193; 0; 220; 198; 0; 220; 193; 0; 234; 0; 214; 0; 220; 0; 202; 228; 0; 232; 1; 228; 0;
   220; 0; 218; 192; 0; 233; 0; 220; 192; 0; 220; 178; 159; 193; 1; 1; 195; 2; 1; 193; 131; 192;
   130; 1; 1; 192; 0; 220; 192; 1; 1; 3; 220; 192; 184; 3; 205; 194; 176; 92; 0; 9; 176; 47; 223;
   177; 249; 0; 218; 0; 228; 0; 232; 0; 222; 1; 224; 176; 56; 1; 8; 184; 109; 163; 192; 131; 201;
   159; 193; 176; 31; 193; 176; 227; 0; 9; 164; 0; 9; 176; 102; 0; 9; 154; 209; 176; 8; 2; 220;
   164; 0; 9; 176; 46; 0; 7; 139; 0; 9; 176; 190; 192; 128; 193; 0; 220; 129; 193; 132; 193; 128;
   192; 176; 3; 0; 9; 176; 197; 0; 9; 184; 70; 255; 0; 26; 178; 208; 198; 6; 220; 193; 179; 156;
   0; 220; 176; 177; 0; 220; 176; 100; 196; 182; 97; 0; 220; 128; 192; 167; 192; 0; 1; 0; 220;
   131; 0; 9; 176; 116; 192; 0; 220; 178; 12; 195; 176; 16; 196; 177; 12; 193; 176; 31; 2; 220;
   176; 21; 1; 220; 194; 0; 220; 192; 3; 220; 176; 0; 192; 0; 220; 192; 0; 220; 176; 143; 0; 9;
   168; 0; 9; 141; 0; 9; 176; 8; 0; 9; 0; 7; 176; 20; 194; 175; 1; 9; 176; 13; 0; 7; 176; 27; 0;
   9; 136; 0; 7; 176; 57; 0; 9; 0; 7; 176; 129; 0; 7; 0; 9; 176; 31; 1; 7; 143; 0; 9; 151; 198;
   130; 196; 176; 40; 2; 9; 176; 64; 0; 9; 130; 0; 7; 150; 192; 176; 50; 0; 9; 0; 7; 176; 202; 0;
   9; 0; 7; 176; 77; 0; 9; 176; 69; 0; 9; 0; 7; 176; 66; 0; 9; 176; 220; 0; 9; 0; 7; 176; 209; 1;
   9; 131; 0; 7; 176; 107; 0; 9; 176; 34; 0; 9; 145; 0; 9; 176; 32; 0; 9; 177; 116; 0; 9; 176;
   209; 0; 7; 128; 1; 9; 176; 32; 0; 9; 177; 120; 1; 9; 184; 57; 187; 0; 9; 184; 1; 143; 4; 1;
   176; 10; 198; 180; 136; 1; 6; 184; 68; 123; 0; 1; 184; 12; 149; 1; 216; 2; 1; 130; 0; 226; 4;
   216; 135; 7; 220; 129; 196; 1; 220; 157; 195; 176; 99; 194; 184; 5; 138; 198; 128; 208; 129;
   198; 128; 193; 128; 196; 176; 51; 192; 176; 111; 198; 177; 70; 192; 176; 12; 195; 177; 203; 1;
   232; 0; 220; 192; 176; 205; 192; 0; 220; 178; 175; 6; 220; 176; 60; 197; 0; 7].

Definition unicode_cc_index : list Z :=
  [77; 3; 0; 151; 5; 32; 198; 5; 0; 231; 6; 0; 69; 7; 0; 156; 8; 0; 77; 9; 0; 60; 11; 0; 61; 13;
   0; 54; 15; 0; 56; 16; 32; 58; 25; 0; 203; 26; 32; 211; 28; 0; 207; 29; 0; 226; 32; 0; 46; 48;
   32; 43; 169; 32; 237; 171; 0; 57; 10; 1; 76; 15; 1; 53; 17; 33; 102; 19; 1; 64; 22; 1; 71; 26;
   1; 240; 106; 33; 138; 209; 1; 236; 228; 33; 75; 233; 1].

Definition unicode_decomp_table1 : list Z :=
  [2621569; 2752663; 2785409; 2867351; 2916629; 2949271; 2965633; 3014807; 3031317; 3080601;
   3153942; 4196418; 4491842; 4850754; 4980886; 5013783; 5046850; 5129026; 5226799; 5292866;
   5390527; 5440322; 5572930; 5900354; 6160534; 6177602; 6275201; 6816066; 7061826; 7405957;
   7455511; 7555140; 7832388; 7963458; 8061630; 8143255; 8192322; 8258628; 8392258; 8880450;
   9013060; 11273347; 11928343; 12059267; 13632020; 13697174; 14483584; 14581911; 14647424;
   14745751; 14762302; 14794880; 14812350; 15369134; 15893166; 15991213; 16040238; 16072963;
   16515843; 16662657; 16777790; 16892094; 16974270; 17187006; 17711294; 18088510; 18202814;
   18284990; 18710852; 19939652; 20185668; 20283716; 20349764; 20480836; 20612676; 20840772;
   23183493; 25723566; 27083311; 28311940; 28622980; 38420612; 38551684; 38600836; 39191598;
   41074990; 41353504; 41402500; 42778756; 42827908; 43401646; 43483268; 47317124; 47366446;
   47644960; 48562308; 49447342; 51511428; 53477508; 53592354; 53641518; 55738798; 58097796;
   58130862; 59555973; 61653125; 62325039; 63111297; 64012420; 64176260; 64258180; 64340100;
   64422020; 64635012; 64798852; 64831790; 64864389; 64880772; 64897157; 65028228; 65323140;
   65486980; 65568900; 65650820; 65732740; 65945732; 67731588; 71237761; 113345668; 113541252;
   114213252; 114295072; 114344068; 122356611; 122471455; 122623875; 123601025; 124179075;
   125836612; 126781762; 127080516; 127864130; 128287254; 128352389; 128368830; 128453956;
   128884804; 130023714; 130057028; 130154786; 130188100; 130285858; 130318916; 130416930;
   130449988; 130552126; 131105348; 131203362; 131236420; 131334434; 131367748; 131484734;
   131874944; 131891390; 131907712; 131924158; 131940480; 131956926; 131973248; 131989694;
   132006016; 132022462; 132038784; 132055230; 132071552; 132122656; 132384800; 132646944;
   132908478; 133087360; 133103806; 133120151; 133136512; 133153047; 133186622; 133316736;
   133333182; 133349504; 133366718; 133480576; 133530286; 133611648; 133645118; 133742720;
   133759918; 133873792; 133890366; 133923074; 133989310; 134103168; 134119614; 134135936;
   134152382; 134168704; 134185111; 134218014; 134251669; 134496385; 134594711; 134807681;
   134824087; 134840473; 134987905; 135053445; 135069873; 135102597; 135119025; 135201175;
   135381399; 135643315; 135774337; 136054165; 136233089; 136249877; 136316191; 136480131;
   136659989; 136970391; 138412313; 138444929; 138461375; 138494233; 138526849; 138559679;
   138577197; 138756225; 138772631; 138822293; 138936471; 138952857; 138969239; 139001985;
   139034752; 139067521; 139100418; 139134101; 139280927; 139346049; 139378841; 139395715;
   139543189; 139723033; 139755675; 139773465; 139968663; 139985025; 140001431; 140017817;
   140034199; 140050561; 140066967; 140083353; 140099739; 140116119; 140132481; 140148887;
   140165273; 140182165; 140263575; 140279961; 140296343; 140312705; 140329111; 140345497;
   140361883; 140378263; 140394625; 140411031; 140427417; 140444181; 140656793; 140935486;
   141263038; 141771198; 142672062; 142753982; 142803134; 143196606; 143327365; 143343793;
   143376517; 143392945; 143671486; 143720638; 143770046; 144179646; 144392894; 144507204;
   144572740; 144703812; 144769348; 144834884; 145424958; 146276932; 146440736; 147472670;
   152568991; 152716579; 152879255; 152896677; 153044267; 153206939; 153224353; 153371941;
   153534617; 153554213; 153980191; 154406175; 154828929; 176357555; 178061465; 178077847;
   178094233; 179765438; 186581269; 190562433; 195543169; 196919425; 197133485; 197280941;
   197428397; 197587843; 199263533; 199433475; 200378413; 201326721; 202211971; 202574724;
   202982020; 203161890; 203211042; 203260194; 203309346; 203358498; 203751556; 203866403;
   203915396; 203931781; 204147588; 204554884; 204734754; 204783906; 204833058; 204882210;
   204931362; 205324420; 205373984; 205488260; 205504645; 206326317; 206652703; 206817951;
   207164845; 207914755; 209717057; 209944713; 209961257; 209994153; 210043017; 210059561;
   210092713; 210174089; 210190479; 210206861; 210244161; 210829827; 211026073; 211043491;
   211190563; 211289901; 211518639; 211665569; 211746997; 211763379; 211779717; 211818627;
   212615715; 212682019; 212844695; 212862113; 213008805; 213057687; 213074073; 213090455;
   213106841; 213129133; 213893253; 213909939; 213958833; 213975219; 213991729; 214024373;
   214040755; 214057393; 214106419; 214139185; 214171781; 214188209; 214204723; 214237317;
   214253749; 214270135; 214286517; 214302897; 214319413; 214352051; 214368689; 214417587;
   214433973; 214450355; 214466993; 214516271; 214581553; 214614197; 214630577; 214646963;
   214663349; 214679729; 214696239; 214728885; 214745267; 214761653; 214778033; 214794421;
   214810757; 214827697; 214909107; 214925489; 214941829; 214958513; 215007411; 215024049;
   215072949; 215089331; 215105669; 215122101; 215138437; 215154995; 215187889; 215236787;
   215253125; 215269553; 215285939; 215302277; 215318709; 215335089; 215352609; 215516453;
   215679653; 215761049; 215777559; 215810201; 215826839; 215875879; 215908997; 215990409;
   216007743; 216137881; 216154267; 216171455; 216285721; 216351237; 216417087; 216514865;
   216547461; 216564145; 216612997; 216629511; 216662153; 216678551; 216695321; 216760477;
   216776845; 216795199; 217055493; 217088155; 217104791; 217153691; 217170073; 217187607;
   217350297; 217366807; 217399577; 217432215; 217448603; 217464985; 217481751; 217547033;
   217580705; 217728293; 217892133; 218054949; 218087577; 698810627; 702283905; 704414101;
   704512259; 718733827; 718946433; 1044386946; 1045069698; 1047150466; 1049272578; 1050345744;
   1050423170; 1051968912; 1052770711; 1052819737; 1052852543; 1053082287; 1053245828;
   1053295789; 1053442177; 1053459204; 1053557664; 1053688480; 1053786244; 1053819168;
   1053868320; 1053918382; 1054064773; 1054093613; 1056230317; 1056606511; 1056899629;
   1056976687; 1058505381; 1058586801; 1058604975; 1058865071; 1060929957; 1060988079;
   1062477873; 1063557937; 1065091377; 1065124787; 1065238705; 1065255101; 1065271483;
   1065287859; 1065616643; 1066140077; 1066189589; 1066288685; 1066519555; 1066911381;
   1067188655; 1067253893; 1067287855; 1067465389; 1069368367; 1069575967; 1071104287;
   1071144877; 1072169089; 1072189215; 1072726815; 1072857887; 1072988959; 1073119647;
   1073219459; 1098006674; 1098449042; 1105218947; 1105661841; 1143374226; 1143652498;
   1145798930; 1154662674; 1155580306; 1155760274; 1155809426; 1156661778; 1160692242;
   1164869906; 1179517074; 1481131026; 1532625298; 1932889375; 1933313311; 1951892370;
   1953415954; 1962937631; 1963363615; 1963789599; 1964213151; 1964345631; 1964641567;
   1965067551; 1965494293; 1966031775; 1966163359; 1966345503; 1966771487; 1967195029;
   1967342623; 1967489951; 1967623455; 1968048021; 1968341919; 1968475423; 1968901407;
   1969327391; 1969753375; 1970179359; 1970605343; 1971031327; 1971457311; 1971883295;
   1972309279; 1972735263; 1973161247; 1973587231; 1974010115; 1974077599; 1974354049;
   1974371231; 1974485121; 1974504607; 1974911105; 1974928173; 1975027871; 1975304321;
   1975321503; 1975435393; 1975454879; 1975861377; 1975878445; 1975978143; 1976254593;
   1976271775; 1976385665; 1976405151; 1976811649; 1976828717; 1976928415; 1977204865;
   1977222047; 1977335937; 1977355423; 1977761921; 1977778989; 1977878687; 1978155137;
   1978172319; 1978286209; 1978305695; 1978712193; 1978729517; 1978893599; 1979057439;
   1979221279; 1979385119; 1979548959; 2014053535; 2014200223; 2014250399; 2014429699;
   2014498989; 2015035651; 2071986733; 2072071597; 2072527363; 2072625281; 2072659245;
   2072839171; 2073067649; 2073156611; 2074084653; 2074265773; 2074625155; 2074790061;
   2084569239; 2084586785; 2084834597; 2085257351; 2085273877; 2085306647; 2085358879;
   2085782039; 2085847193; 2085863575; 2086306199; 2086928535; 2088763695; 2088796289;
   2089031171; 2089813185; 2090074371; 2130445599; 3187671468; 3187724560; 3188279212;
   3188537616; 3190392620; 3190620716; 3190699920; 3192520592; 3194600464].

Definition unicode_decomp_table2 : list Z :=
  [32; 0; 97; 2; 4; 6; 956; 8; 10; 12; 21; 149; 165; 185; 193; 195; 199; 203; 209; 215; 221; 224;
   230; 248; 264; 266; 115; 272; 274; 276; 288; 300; 324; 333; 339; 354; 360; 362; 374; 402; 404;
   425; 443; 455; 465; 469; 697; 471; 59; 473; 475; 183; 481; 508; 524; 536; 541; 547; 551; 931;
   563; 575; 578; 587; 590; 593; 605; 608; 617; 620; 623; 629; 632; 641; 650; 668; 671; 675; 687;
   697; 709; 713; 717; 721; 725; 743; 749; 753; 757; 761; 765; 773; 777; 781; 787; 791; 795; 803;
   807; 811; 815; 821; 829; 833; 841; 845; 849; 3851; 855; 859; 863; 867; 871; 875; 879; 883;
   889; 893; 897; 901; 905; 909; 913; 917; 921; 925; 929; 4316; 933; 969; 973; 985; 989; 993;
   1007; 1009; 1085; 1103; 1177; 1264; 1282; 1354; 1380; 1388; 1392; 1395; 1434; 1530; 1534;
   1543; 1547; 1556; 1560; 1566; 1570; 1576; 1678; 1684; 1688; 1694; 1698; 1707; 940; 1779; 941;
   1782; 942; 1785; 943; 1788; 972; 1791; 973; 1794; 974; 1797; 1801; 1805; 1809; 902; 1842;
   1845; 953; 1847; 1851; 904; 1875; 905; 1878; 912; 1899; 906; 1911; 944; 1929; 910; 1945; 1951;
   1955; 908; 1976; 911; 1979; 180; 1982; 1984; 1986; 8208; 1995; 46; 1997; 1999; 32; 2002; 2006;
   2011; 2015; 2020; 2026; 2032; 32; 2038; 8722; 2049; 2053; 2055; 2077; 2085; 2087; 67; 2093;
   2096; 400; 2102; 2105; 78; 2117; 2119; 2124; 2126; 2129; 90; 937; 90; 2131; 2135; 2144; 105;
   2146; 2149; 2159; 2164; 2170; 2174; 2210; 73; 2212; 2214; 2217; 86; 2219; 2221; 2224; 2228;
   88; 2230; 2232; 2235; 2240; 2242; 2245; 118; 2247; 2249; 2252; 2256; 120; 2258; 2260; 2263;
   2267; 2270; 2276; 2279; 2288; 2291; 2294; 2297; 2306; 2310; 2315; 2319; 2324; 2327; 2330;
   2339; 2348; 2363; 2366; 2369; 2372; 2375; 2378; 2390; 2396; 2400; 2402; 2404; 2408; 2410;
   2416; 2424; 2428; 2432; 2438; 2441; 2447; 2449; 48; 2451; 2457; 2460; 2462; 2465; 2468; 11617;
   27597; 40863; 2470; 2481; 2492; 2503; 2709; 2721; 2837; 32; 2855; 2865; 2957; 2977; 2981;
   2985; 2989; 2993; 2997; 3001; 3005; 3009; 3013; 3105; 3125; 3129; 3133; 3137; 3141; 3145;
   3149; 3153; 3157; 3161; 3183; 3185; 3187; 3232; 3260; 3292; 3300; 3308; 3316; 3324; 3332;
   3340; 3348; 3362; 3374; 3450; 3458; 3461; 3465; 3469; 3485; 3505; 3509; 3516; 3522; 3526;
   3624; 3628; 3632; 3634; 3638; 3644; 3646; 3649; 3651; 3654; 3703; 3707; 3721; 3726; 3732;
   3740; 3747; 3753; 3764; 3774; 3782; 3786; 3791; 3801; 3805; 3812; 3820; 3827; 3832; 3844;
   3850; 3861; 3867; 3874; 3880; 3891; 3901; 3909; 3916; 3921; 3927; 3934; 3939; 3945; 3952;
   3958; 3965; 3970; 3977; 3981; 3998; 4004; 4009; 4013; 4024; 4030; 4041; 4048; 4054; 4058;
   4065; 4069; 4079; 4090; 4096; 4100; 4105; 4111; 4115; 4122; 4127; 4131; 4137; 4143; 4146;
   4150; 4153; 4159; 4165; 4185; 4193; 4217; 4220; 4224; 4245; 4257; 4273; 4291; 4299; 4303;
   4314; 4318; 4330; 4338; 4340; 4352; 4357; 4369; 4417; 4425; 4429; 4435; 4439; 4442; 4462;
   4465; 4469; 4475; 4477; 4481; 4484; 4492; 4498; 4502; 4508; 4514; 4520; 4523; 42863; 4527;
   4530; 4534; 653; 4542; 4624; 4878; 5132; 5264; 5269; 5459; 5484; 5490; 5496; 5502; 5514; 5526;
   43; 5537; 5561; 5565; 5569; 5573; 5577; 5581; 5601; 5605; 5705; 5730; 5768; 5774; 5964; 5970;
   5975; 6007; 6263; 6269; 6417; 6611; 6775; 6783; 6813; 6818; 6838; 6848; 6854; 6874; 6879;
   6885; 6899; 6947; 6960; 6968; 6972; 6994; 7113; 7131; 7133; 7135; 12644; 7200; 7202; 7204;
   7206; 7208; 7210; 7240; 7245; 7250; 7304; 7374; 7388; 7393; 7402; 7411; 7425; 7430; 7435;
   7453; 7471; 7480; 7485; 7521; 7535; 7537; 7539; 7571; 7598; 7600; 7602; 7604; 7606; 7608;
   7610; 7612; 7644; 7646; 7648; 7650; 7652; 7659; 7661; 7663; 7665; 7680; 7682; 7684; 7686;
   7688; 7690; 7692; 7694; 7696; 7698; 7700; 7702; 7704; 7706; 7708; 7712; 1012; 7714; 8711;
   7716; 8706; 7718; 7726; 1012; 7728; 8711; 7730; 8706; 7732; 7740; 1012; 7742; 8711; 7744;
   8706; 7746; 7754; 1012; 7756; 8711; 7758; 8706; 7760; 7768; 1012; 7770; 8711; 7772; 8706;
   7774; 7784; 7786; 7788; 7790; 7792; 7794; 7796; 7798; 7800; 7808; 7843; 7847; 7853; 7882;
   1581; 7890; 7902; 1580; 7918; 8030; 8042; 8061; 8079; 8098; 8100; 8104; 8110; 8116; 8118;
   8122; 8124; 8132; 8135; 8137; 8143; 8145; 12469; 8151; 8239; 8261; 8265; 8267; 8272; 8349;
   8366; 8623; 8639; 8645; 8895; 9181].

Definition unicode_decomp_data : list Z :=
  [32; 136; 32; 132; 50; 51; 32; 129; 32; 167; 49; 111; 49; 208; 52; 49; 208; 50; 51; 208; 52;
   65; 128; 65; 129; 65; 130; 65; 131; 65; 136; 65; 138; 0; 0; 67; 167; 69; 128; 69; 129; 69;
   130; 69; 136; 73; 128; 73; 129; 73; 130; 73; 136; 0; 0; 78; 131; 79; 128; 79; 129; 79; 130;
   79; 131; 79; 136; 0; 0; 0; 0; 85; 128; 85; 129; 85; 130; 85; 136; 89; 129; 0; 0; 0; 0; 97;
   128; 97; 129; 97; 130; 97; 131; 97; 136; 97; 138; 0; 0; 99; 167; 101; 128; 101; 129; 101; 130;
   101; 136; 105; 128; 105; 129; 105; 130; 105; 136; 0; 0; 110; 131; 111; 128; 111; 129; 111;
   130; 111; 131; 111; 136; 0; 0; 0; 0; 117; 128; 117; 129; 117; 130; 117; 136; 121; 129; 0; 0;
   121; 136; 65; 132; 65; 134; 65; 168; 67; 129; 67; 130; 67; 135; 67; 140; 68; 140; 69; 132; 69;
   134; 69; 135; 69; 168; 69; 140; 71; 130; 71; 134; 71; 135; 71; 167; 72; 130; 73; 131; 73; 132;
   73; 134; 73; 168; 73; 135; 73; 74; 105; 106; 74; 130; 75; 167; 76; 129; 76; 167; 76; 140; 76;
   0; 0; 107; 32; 107; 78; 129; 78; 167; 78; 140; 188; 2; 110; 79; 132; 79; 134; 79; 139; 82;
   129; 82; 167; 82; 140; 83; 129; 83; 130; 83; 167; 83; 140; 84; 167; 84; 140; 85; 131; 85; 132;
   85; 134; 85; 138; 85; 139; 85; 168; 87; 130; 89; 130; 89; 136; 90; 129; 90; 135; 90; 140; 79;
   155; 85; 155; 68; 0; 125; 1; 68; 0; 126; 1; 100; 0; 126; 1; 76; 74; 76; 106; 108; 106; 78; 74;
   78; 106; 110; 106; 65; 0; 140; 73; 0; 140; 79; 0; 140; 85; 0; 140; 220; 0; 132; 220; 0; 129;
   220; 0; 140; 220; 0; 128; 196; 0; 132; 38; 2; 132; 198; 0; 132; 71; 140; 75; 140; 79; 168;
   234; 1; 132; 235; 1; 132; 183; 1; 140; 146; 2; 140; 106; 0; 140; 68; 90; 68; 122; 100; 122;
   71; 129; 78; 0; 128; 197; 0; 129; 198; 0; 129; 216; 0; 129; 65; 143; 65; 145; 69; 143; 69;
   145; 73; 143; 73; 145; 79; 143; 79; 145; 82; 143; 82; 145; 85; 143; 85; 145; 83; 166; 84; 166;
   72; 140; 65; 0; 135; 69; 0; 167; 214; 0; 132; 213; 0; 132; 79; 0; 135; 46; 2; 132; 89; 0; 132;
   104; 0; 102; 2; 106; 0; 114; 0; 121; 2; 123; 2; 129; 2; 119; 0; 121; 0; 32; 134; 32; 135; 32;
   138; 32; 168; 32; 131; 32; 139; 99; 2; 108; 0; 115; 0; 120; 0; 149; 2; 128; 129; 0; 147; 136;
   129; 32; 197; 32; 129; 168; 0; 129; 145; 3; 129; 149; 3; 129; 151; 3; 129; 153; 3; 129; 0; 0;
   0; 159; 3; 129; 0; 0; 0; 165; 3; 129; 169; 3; 129; 202; 3; 129; 1; 3; 152; 7; 164; 7; 176; 0;
   180; 0; 182; 0; 184; 0; 202; 0; 1; 3; 184; 7; 196; 7; 190; 0; 196; 0; 200; 0; 165; 3; 13; 19;
   0; 1; 3; 209; 0; 209; 7; 198; 3; 192; 3; 186; 3; 193; 3; 194; 3; 0; 0; 152; 3; 181; 3; 21; 4;
   128; 21; 4; 136; 0; 0; 0; 19; 4; 129; 6; 4; 136; 26; 4; 129; 24; 4; 128; 35; 4; 134; 24; 4;
   134; 56; 4; 134; 53; 4; 128; 53; 4; 136; 0; 0; 0; 51; 4; 129; 86; 4; 136; 58; 4; 129; 56; 4;
   128; 67; 4; 134; 116; 4; 143; 22; 4; 134; 16; 4; 134; 16; 4; 136; 21; 4; 134; 216; 4; 136; 22;
   4; 136; 23; 4; 136; 24; 4; 132; 24; 4; 136; 30; 4; 136; 232; 4; 136; 45; 4; 136; 35; 4; 132;
   35; 4; 136; 35; 4; 139; 39; 4; 136; 43; 4; 136; 101; 5; 130; 5; 39; 6; 0; 44; 0; 45; 33; 45;
   0; 46; 35; 45; 39; 6; 0; 77; 33; 77; 160; 77; 35; 77; 213; 6; 84; 6; 0; 0; 0; 0; 193; 6; 84;
   6; 210; 6; 84; 6; 40; 9; 60; 9; 48; 9; 60; 9; 51; 9; 60; 9; 21; 9; 0; 39; 1; 39; 2; 39; 7; 39;
   12; 39; 13; 39; 22; 39; 26; 39; 190; 9; 9; 0; 9; 25; 161; 9; 188; 9; 175; 9; 188; 9; 50; 10;
   60; 10; 56; 10; 60; 10; 22; 10; 0; 38; 1; 38; 6; 38; 43; 10; 60; 10; 71; 11; 86; 11; 62; 11;
   9; 0; 9; 25; 33; 11; 60; 11; 146; 11; 215; 11; 190; 11; 8; 0; 9; 0; 8; 25; 70; 12; 86; 12;
   191; 12; 213; 12; 198; 12; 213; 12; 194; 12; 4; 0; 8; 19; 62; 13; 8; 0; 9; 0; 8; 25; 217; 13;
   202; 13; 202; 13; 15; 5; 18; 0; 15; 21; 77; 14; 50; 14; 205; 14; 178; 14; 153; 14; 18; 0; 18;
   8; 66; 15; 183; 15; 76; 15; 183; 15; 81; 15; 183; 15; 86; 15; 183; 15; 91; 15; 183; 15; 64;
   15; 181; 15; 113; 15; 114; 15; 113; 15; 0; 3; 65; 15; 178; 15; 129; 15; 179; 15; 128; 15; 179;
   15; 129; 15; 113; 15; 128; 15; 146; 15; 183; 15; 156; 15; 183; 15; 161; 15; 183; 15; 166; 15;
   183; 15; 171; 15; 183; 15; 144; 15; 181; 15; 37; 16; 46; 16; 5; 27; 53; 27; 0; 0; 0; 0; 7; 27;
   53; 27; 0; 0; 0; 0; 9; 27; 53; 27; 0; 0; 0; 0; 11; 27; 53; 27; 0; 0; 0; 0; 13; 27; 53; 27; 17;
   27; 53; 27; 58; 27; 53; 27; 0; 0; 0; 0; 60; 27; 53; 27; 62; 27; 53; 27; 66; 27; 53; 27; 65; 0;
   198; 0; 66; 0; 0; 0; 68; 0; 69; 0; 142; 1; 71; 0; 79; 0; 34; 2; 80; 0; 82; 0; 84; 0; 85; 0;
   87; 0; 97; 0; 80; 2; 81; 2; 2; 29; 98; 0; 100; 0; 101; 0; 89; 2; 91; 2; 92; 2; 103; 0; 0; 0;
   107; 0; 109; 0; 75; 1; 111; 0; 84; 2; 22; 29; 23; 29; 112; 0; 116; 0; 117; 0; 29; 29; 111; 2;
   118; 0; 37; 29; 178; 3; 179; 3; 180; 3; 198; 3; 199; 3; 105; 0; 114; 0; 117; 0; 118; 0; 178;
   3; 179; 3; 193; 3; 198; 3; 199; 3; 82; 2; 99; 0; 85; 2; 240; 0; 92; 2; 102; 0; 95; 2; 97; 2;
   101; 2; 104; 2; 105; 2; 106; 2; 123; 29; 157; 2; 109; 2; 133; 29; 159; 2; 113; 2; 112; 2; 114;
   2; 115; 2; 116; 2; 117; 2; 120; 2; 130; 2; 131; 2; 171; 1; 137; 2; 138; 2; 28; 29; 139; 2;
   140; 2; 122; 0; 144; 2; 145; 2; 146; 2; 184; 3; 65; 0; 165; 66; 0; 135; 66; 0; 163; 66; 0;
   177; 199; 0; 129; 68; 0; 135; 68; 0; 163; 68; 0; 177; 68; 0; 167; 68; 0; 173; 18; 1; 128; 18;
   1; 129; 69; 0; 173; 69; 0; 176; 40; 2; 134; 70; 0; 135; 71; 0; 132; 72; 0; 135; 72; 0; 163;
   72; 0; 136; 72; 0; 167; 72; 0; 174; 73; 0; 176; 207; 0; 129; 75; 0; 129; 75; 0; 163; 75; 0;
   177; 76; 0; 163; 54; 30; 132; 76; 177; 76; 173; 77; 129; 77; 135; 77; 163; 78; 135; 78; 163;
   78; 177; 78; 173; 213; 0; 129; 213; 0; 136; 76; 1; 128; 76; 1; 129; 80; 0; 129; 80; 0; 135;
   82; 0; 135; 82; 0; 163; 90; 30; 132; 82; 0; 177; 83; 0; 135; 83; 0; 163; 90; 1; 135; 96; 1;
   135; 98; 30; 135; 84; 0; 135; 84; 0; 163; 84; 0; 177; 84; 0; 173; 85; 0; 164; 85; 0; 176; 85;
   0; 173; 104; 1; 129; 106; 1; 136; 86; 131; 86; 163; 87; 128; 87; 129; 87; 136; 87; 135; 87;
   163; 88; 135; 88; 136; 89; 135; 90; 130; 90; 163; 90; 177; 104; 177; 116; 136; 119; 138; 121;
   138; 97; 0; 190; 2; 127; 1; 135; 65; 0; 163; 65; 0; 137; 194; 0; 129; 194; 0; 128; 194; 0;
   137; 194; 0; 131; 160; 30; 130; 2; 1; 129; 2; 1; 128; 2; 1; 137; 2; 1; 131; 160; 30; 134; 69;
   0; 163; 69; 0; 137; 69; 0; 131; 202; 0; 129; 202; 0; 128; 202; 0; 137; 202; 0; 131; 184; 30;
   130; 73; 0; 137; 73; 0; 163; 79; 0; 163; 79; 0; 137; 212; 0; 129; 212; 0; 128; 212; 0; 137;
   212; 0; 131; 204; 30; 130; 160; 1; 129; 160; 1; 128; 160; 1; 137; 160; 1; 131; 160; 1; 163;
   85; 0; 163; 85; 0; 137; 175; 1; 129; 175; 1; 128; 175; 1; 137; 175; 1; 131; 175; 1; 163; 89;
   0; 128; 89; 0; 163; 89; 0; 137; 89; 0; 131; 177; 3; 19; 3; 0; 31; 128; 0; 31; 129; 0; 31; 194;
   145; 3; 19; 3; 8; 31; 128; 8; 31; 129; 8; 31; 194; 181; 3; 19; 3; 16; 31; 128; 16; 31; 129;
   149; 3; 19; 3; 24; 31; 128; 24; 31; 129; 183; 3; 147; 183; 3; 148; 32; 31; 128; 33; 31; 128;
   32; 31; 129; 33; 31; 129; 32; 31; 194; 33; 31; 194; 151; 3; 147; 151; 3; 148; 40; 31; 128; 41;
   31; 128; 40; 31; 129; 41; 31; 129; 40; 31; 194; 41; 31; 194; 185; 3; 147; 185; 3; 148; 48; 31;
   128; 49; 31; 128; 48; 31; 129; 49; 31; 129; 48; 31; 194; 49; 31; 194; 153; 3; 147; 153; 3;
   148; 56; 31; 128; 57; 31; 128; 56; 31; 129; 57; 31; 129; 56; 31; 194; 57; 31; 194; 191; 3;
   147; 191; 3; 148; 64; 31; 128; 64; 31; 129; 159; 3; 19; 3; 72; 31; 128; 72; 31; 129; 197; 3;
   19; 3; 80; 31; 128; 80; 31; 129; 80; 31; 194; 165; 3; 148; 0; 0; 0; 89; 31; 128; 0; 0; 0; 89;
   31; 129; 0; 0; 0; 89; 31; 194; 201; 3; 147; 201; 3; 148; 96; 31; 128; 97; 31; 128; 96; 31;
   129; 97; 31; 129; 96; 31; 194; 97; 31; 194; 169; 3; 147; 169; 3; 148; 104; 31; 128; 105; 31;
   128; 104; 31; 129; 105; 31; 129; 104; 31; 194; 105; 31; 194; 177; 3; 128; 181; 3; 128; 183; 3;
   128; 185; 3; 128; 191; 3; 128; 197; 3; 128; 201; 3; 128; 0; 31; 69; 3; 32; 31; 69; 3; 96; 31;
   69; 3; 177; 3; 134; 177; 3; 132; 112; 31; 197; 177; 3; 197; 172; 3; 197; 0; 0; 0; 177; 3; 194;
   182; 31; 197; 145; 3; 134; 145; 3; 132; 145; 3; 128; 145; 3; 197; 32; 147; 32; 147; 32; 194;
   168; 0; 194; 116; 31; 197; 183; 3; 197; 174; 3; 197; 0; 0; 0; 183; 3; 194; 198; 31; 197; 149;
   3; 128; 151; 3; 128; 151; 3; 197; 191; 31; 128; 191; 31; 129; 191; 31; 194; 185; 3; 134; 185;
   3; 132; 202; 3; 128; 0; 3; 185; 66; 202; 66; 153; 6; 153; 4; 153; 0; 254; 31; 128; 254; 31;
   129; 254; 31; 194; 197; 3; 134; 197; 3; 132; 203; 3; 128; 0; 3; 193; 19; 193; 20; 197; 66;
   203; 66; 165; 6; 165; 4; 165; 0; 161; 3; 148; 168; 0; 128; 133; 3; 96; 0; 124; 31; 197; 201;
   3; 197; 206; 3; 197; 0; 0; 0; 201; 3; 194; 246; 31; 197; 159; 3; 128; 169; 3; 128; 169; 3;
   197; 32; 148; 2; 32; 32; 32; 32; 32; 32; 32; 32; 32; 32; 32; 179; 46; 46; 46; 46; 46; 50; 32;
   50; 32; 50; 32; 0; 0; 0; 53; 32; 53; 32; 53; 32; 0; 0; 0; 33; 33; 0; 0; 32; 133; 63; 63; 63;
   33; 33; 63; 50; 32; 0; 0; 0; 0; 48; 105; 0; 0; 52; 53; 54; 55; 56; 57; 43; 61; 40; 41; 110;
   48; 0; 43; 0; 18; 34; 61; 0; 40; 0; 41; 0; 0; 0; 97; 0; 101; 0; 111; 0; 120; 0; 89; 2; 104;
   107; 108; 109; 110; 112; 115; 116; 82; 115; 97; 47; 99; 97; 47; 115; 176; 0; 67; 99; 47; 111;
   99; 47; 117; 176; 0; 70; 72; 0; 31; 0; 0; 0; 32; 223; 1; 1; 4; 36; 78; 111; 80; 81; 82; 82;
   82; 83; 77; 84; 69; 76; 84; 77; 75; 0; 197; 0; 66; 67; 0; 101; 69; 70; 0; 77; 111; 208; 5; 70;
   65; 88; 192; 3; 179; 3; 147; 3; 160; 3; 17; 34; 68; 100; 101; 105; 106; 49; 208; 55; 49; 208;
   57; 49; 208; 49; 48; 49; 208; 51; 50; 208; 51; 49; 208; 53; 50; 208; 53; 51; 208; 53; 52; 208;
   53; 49; 208; 54; 53; 208; 54; 49; 208; 56; 51; 208; 56; 53; 208; 56; 55; 208; 56; 49; 208; 73;
   73; 73; 73; 73; 73; 86; 86; 73; 86; 73; 73; 86; 73; 73; 73; 73; 88; 88; 73; 88; 73; 73; 76;
   67; 68; 77; 105; 105; 105; 105; 105; 105; 105; 118; 118; 105; 118; 105; 105; 118; 105; 105;
   105; 105; 120; 120; 105; 120; 105; 105; 108; 99; 100; 109; 48; 208; 51; 144; 33; 184; 146; 33;
   184; 148; 33; 184; 208; 33; 184; 212; 33; 184; 210; 33; 184; 3; 34; 184; 8; 34; 184; 11; 34;
   184; 35; 34; 184; 0; 0; 0; 37; 34; 184; 43; 34; 43; 34; 43; 34; 0; 0; 0; 46; 34; 46; 34; 46;
   34; 0; 0; 0; 60; 34; 184; 67; 34; 184; 69; 34; 184; 0; 0; 0; 72; 34; 184; 61; 0; 184; 0; 0; 0;
   97; 34; 184; 77; 34; 184; 60; 0; 184; 62; 0; 184; 100; 34; 184; 101; 34; 184; 114; 34; 184;
   118; 34; 184; 122; 34; 184; 130; 34; 184; 134; 34; 184; 162; 34; 184; 168; 34; 184; 169; 34;
   184; 171; 34; 184; 124; 34; 184; 145; 34; 184; 178; 34; 56; 3; 8; 48; 49; 0; 49; 0; 48; 0; 50;
   48; 40; 0; 49; 0; 41; 0; 40; 0; 49; 0; 48; 0; 41; 0; 40; 50; 48; 41; 49; 0; 46; 0; 49; 0; 48;
   0; 46; 0; 50; 48; 46; 40; 0; 97; 0; 41; 0; 65; 0; 97; 0; 43; 34; 0; 0; 0; 0; 58; 58; 61; 61;
   61; 61; 61; 61; 221; 42; 184; 106; 86; 0; 78; 0; 40; 54; 63; 89; 133; 140; 160; 186; 63; 81;
   0; 38; 44; 67; 87; 108; 161; 182; 193; 155; 82; 0; 94; 122; 127; 157; 166; 193; 206; 231; 182;
   83; 200; 83; 227; 83; 215; 86; 31; 87; 235; 88; 2; 89; 10; 89; 21; 89; 39; 89; 115; 89; 80;
   91; 128; 91; 248; 91; 15; 92; 34; 92; 56; 92; 110; 92; 113; 92; 219; 93; 229; 93; 241; 93;
   254; 93; 114; 94; 122; 94; 127; 94; 244; 94; 254; 94; 11; 95; 19; 95; 80; 95; 97; 95; 115; 95;
   195; 95; 8; 98; 54; 98; 75; 98; 47; 101; 52; 101; 135; 101; 151; 101; 164; 101; 185; 101; 224;
   101; 229; 101; 240; 102; 8; 103; 40; 103; 32; 107; 98; 107; 121; 107; 179; 107; 203; 107; 212;
   107; 219; 107; 15; 108; 20; 108; 52; 108; 107; 112; 42; 114; 54; 114; 59; 114; 63; 114; 71;
   114; 89; 114; 91; 114; 172; 114; 132; 115; 137; 115; 220; 116; 230; 116; 24; 117; 31; 117; 40;
   117; 48; 117; 139; 117; 146; 117; 118; 118; 125; 118; 174; 118; 191; 118; 238; 118; 219; 119;
   226; 119; 243; 119; 58; 121; 184; 121; 190; 121; 116; 122; 203; 122; 249; 122; 115; 124; 248;
   124; 54; 127; 81; 127; 138; 127; 189; 127; 1; 128; 12; 128; 18; 128; 51; 128; 127; 128; 137;
   128; 227; 129; 0; 7; 16; 25; 41; 56; 60; 139; 143; 149; 77; 134; 107; 134; 64; 136; 76; 136;
   99; 136; 126; 137; 139; 137; 210; 137; 0; 138; 55; 140; 70; 140; 85; 140; 120; 140; 157; 140;
   100; 141; 112; 141; 179; 141; 171; 142; 202; 142; 155; 143; 176; 143; 181; 143; 145; 144; 73;
   145; 198; 145; 204; 145; 209; 145; 119; 149; 128; 149; 28; 150; 182; 150; 185; 150; 232; 150;
   81; 151; 94; 151; 98; 151; 105; 151; 203; 151; 237; 151; 243; 151; 1; 152; 168; 152; 219; 152;
   223; 152; 150; 153; 153; 153; 172; 153; 168; 154; 216; 154; 223; 154; 37; 155; 47; 155; 50;
   155; 60; 155; 90; 155; 229; 156; 117; 158; 127; 158; 165; 158; 0; 22; 30; 40; 44; 84; 88; 105;
   110; 123; 150; 165; 173; 232; 247; 251; 18; 48; 0; 0; 65; 83; 68; 83; 69; 83; 75; 48; 153; 48;
   0; 0; 0; 0; 77; 48; 153; 48; 0; 0; 0; 0; 79; 48; 153; 48; 0; 0; 0; 0; 81; 48; 153; 48; 0; 0;
   0; 0; 83; 48; 153; 48; 0; 0; 0; 0; 85; 48; 153; 48; 0; 0; 0; 0; 87; 48; 153; 48; 0; 0; 0; 0;
   89; 48; 153; 48; 0; 0; 0; 0; 91; 48; 153; 48; 0; 0; 0; 0; 93; 48; 153; 48; 0; 0; 0; 0; 95; 48;
   153; 48; 0; 0; 0; 0; 97; 48; 153; 48; 100; 48; 153; 48; 0; 0; 0; 0; 102; 48; 153; 48; 0; 0; 0;
   0; 104; 48; 153; 48; 111; 48; 153; 48; 114; 48; 153; 48; 117; 48; 153; 48; 120; 48; 153; 48;
   123; 48; 153; 48; 70; 48; 153; 48; 32; 0; 153; 48; 157; 48; 153; 48; 136; 48; 138; 48; 171;
   48; 153; 48; 0; 0; 0; 0; 173; 48; 153; 48; 0; 0; 0; 0; 175; 48; 153; 48; 0; 0; 0; 0; 177; 48;
   153; 48; 0; 0; 0; 0; 179; 48; 153; 48; 0; 0; 0; 0; 181; 48; 153; 48; 0; 0; 0; 0; 183; 48; 153;
   48; 0; 0; 0; 0; 185; 48; 153; 48; 0; 0; 0; 0; 187; 48; 153; 48; 0; 0; 0; 0; 189; 48; 153; 48;
   0; 0; 0; 0; 191; 48; 153; 48; 0; 0; 0; 0; 193; 48; 153; 48; 196; 48; 153; 48; 0; 0; 0; 0; 198;
   48; 153; 48; 0; 0; 0; 0; 200; 48; 153; 48; 207; 48; 153; 48; 210; 48; 153; 48; 213; 48; 153;
   48; 216; 48; 153; 48; 219; 48; 153; 48; 166; 48; 153; 48; 239; 48; 153; 48; 253; 48; 153; 48;
   179; 48; 200; 48; 0; 17; 0; 1; 170; 2; 172; 173; 3; 4; 5; 176; 177; 178; 179; 180; 181; 26; 6;
   7; 8; 33; 9; 17; 97; 17; 20; 17; 76; 0; 1; 179; 180; 184; 186; 191; 195; 197; 8; 201; 203; 9;
   10; 12; 14; 15; 19; 21; 23; 24; 25; 26; 27; 30; 34; 44; 51; 56; 221; 222; 67; 68; 69; 112;
   113; 116; 125; 126; 128; 138; 141; 0; 78; 140; 78; 9; 78; 219; 86; 10; 78; 45; 78; 11; 78; 50;
   117; 89; 78; 25; 78; 1; 78; 41; 89; 48; 87; 186; 78; 40; 0; 41; 0; 0; 17; 2; 17; 3; 17; 5; 17;
   6; 17; 7; 17; 9; 17; 11; 17; 12; 17; 14; 17; 15; 17; 16; 17; 17; 17; 18; 17; 40; 0; 0; 17; 97;
   17; 41; 0; 40; 0; 2; 17; 97; 17; 41; 0; 40; 0; 5; 17; 97; 17; 41; 0; 40; 0; 9; 17; 97; 17; 41;
   0; 40; 0; 11; 17; 97; 17; 41; 0; 40; 0; 14; 17; 97; 17; 41; 0; 40; 0; 12; 17; 110; 17; 41; 0;
   40; 0; 11; 17; 105; 17; 12; 17; 101; 17; 171; 17; 41; 0; 40; 0; 11; 17; 105; 17; 18; 17; 110;
   17; 41; 0; 40; 0; 41; 0; 0; 78; 140; 78; 9; 78; 219; 86; 148; 78; 109; 81; 3; 78; 107; 81; 93;
   78; 65; 83; 8; 103; 107; 112; 52; 108; 40; 103; 209; 145; 31; 87; 229; 101; 42; 104; 9; 103;
   62; 121; 13; 84; 121; 114; 161; 140; 93; 121; 180; 82; 227; 78; 124; 84; 102; 91; 227; 118; 1;
   79; 199; 140; 84; 83; 109; 121; 17; 79; 234; 129; 243; 129; 79; 85; 124; 94; 135; 101; 143;
   123; 80; 84; 69; 50; 0; 49; 0; 51; 0; 48; 0; 0; 17; 0; 2; 3; 5; 6; 7; 9; 11; 12; 14; 15; 16;
   17; 18; 0; 17; 0; 97; 2; 97; 3; 97; 5; 97; 6; 97; 7; 97; 9; 97; 11; 97; 12; 97; 14; 17; 97;
   17; 0; 17; 14; 97; 183; 0; 105; 11; 17; 1; 99; 0; 105; 11; 17; 110; 17; 0; 78; 140; 78; 9; 78;
   219; 86; 148; 78; 109; 81; 3; 78; 107; 81; 93; 78; 65; 83; 8; 103; 107; 112; 52; 108; 40; 103;
   209; 145; 31; 87; 229; 101; 42; 104; 9; 103; 62; 121; 13; 84; 121; 114; 161; 140; 93; 121;
   180; 82; 216; 121; 55; 117; 115; 89; 105; 144; 42; 81; 112; 83; 232; 108; 5; 152; 17; 79; 153;
   81; 99; 107; 10; 78; 45; 78; 11; 78; 230; 93; 243; 83; 59; 83; 151; 91; 102; 91; 227; 118; 1;
   79; 199; 140; 84; 83; 28; 89; 51; 0; 54; 0; 52; 0; 48; 0; 53; 48; 49; 0; 8; 103; 49; 0; 48; 0;
   8; 103; 72; 103; 101; 114; 103; 101; 86; 76; 84; 68; 162; 48; 0; 2; 4; 6; 8; 9; 11; 13; 15;
   17; 19; 21; 23; 25; 27; 29; 31; 34; 36; 38; 40; 41; 42; 43; 44; 45; 48; 51; 54; 57; 60; 61;
   62; 63; 64; 66; 68; 70; 71; 72; 73; 74; 75; 77; 78; 79; 80; 228; 78; 140; 84; 161; 48; 1; 48;
   91; 39; 1; 74; 52; 0; 1; 82; 57; 1; 162; 48; 0; 90; 73; 164; 48; 0; 39; 79; 12; 164; 48; 0;
   79; 29; 2; 5; 79; 168; 48; 0; 17; 7; 84; 33; 168; 48; 0; 84; 3; 84; 164; 48; 6; 79; 21; 6; 88;
   60; 7; 0; 70; 171; 48; 0; 62; 24; 29; 0; 66; 63; 81; 172; 48; 0; 65; 71; 0; 71; 50; 174; 48;
   172; 48; 174; 48; 0; 29; 78; 173; 48; 0; 56; 61; 79; 1; 62; 19; 79; 173; 48; 237; 48; 173; 48;
   0; 64; 3; 60; 51; 173; 48; 0; 64; 52; 79; 27; 62; 173; 48; 0; 64; 66; 22; 27; 176; 48; 0; 57;
   48; 164; 48; 12; 69; 60; 36; 79; 11; 71; 24; 0; 73; 175; 48; 0; 62; 77; 30; 177; 48; 0; 75; 8;
   2; 58; 25; 2; 75; 44; 164; 48; 17; 0; 11; 71; 181; 48; 0; 62; 12; 71; 43; 176; 48; 7; 58; 67;
   0; 185; 48; 2; 58; 8; 2; 58; 15; 7; 67; 0; 183; 48; 16; 0; 18; 52; 17; 60; 19; 23; 164; 48;
   42; 31; 36; 43; 0; 32; 187; 48; 22; 65; 0; 56; 13; 196; 48; 13; 56; 0; 208; 48; 0; 44; 28; 27;
   162; 48; 50; 0; 23; 38; 73; 175; 48; 37; 0; 60; 179; 48; 33; 0; 32; 56; 161; 48; 52; 0; 72;
   34; 40; 163; 48; 50; 0; 89; 37; 167; 48; 47; 28; 16; 0; 68; 213; 48; 0; 20; 30; 175; 48; 41;
   0; 16; 77; 60; 218; 48; 189; 48; 184; 48; 34; 19; 26; 32; 51; 12; 34; 59; 1; 34; 68; 0; 33;
   68; 7; 164; 48; 57; 0; 79; 36; 200; 48; 20; 35; 0; 219; 48; 243; 48; 201; 48; 20; 42; 0; 18;
   51; 34; 18; 51; 42; 164; 48; 58; 0; 11; 73; 164; 48; 58; 0; 71; 58; 31; 43; 58; 71; 11; 183;
   48; 39; 60; 0; 48; 60; 175; 48; 48; 0; 62; 68; 223; 48; 234; 48; 208; 48; 15; 26; 0; 44; 27;
   225; 48; 172; 48; 172; 48; 53; 0; 28; 71; 53; 80; 28; 63; 162; 48; 66; 90; 39; 66; 90; 73; 68;
   0; 81; 195; 48; 39; 0; 5; 40; 234; 48; 233; 48; 212; 48; 23; 0; 40; 214; 48; 21; 38; 0; 21;
   236; 48; 224; 48; 178; 48; 58; 65; 22; 0; 65; 195; 48; 44; 0; 5; 48; 0; 185; 112; 49; 0; 48;
   0; 185; 112; 50; 0; 48; 0; 185; 112; 104; 80; 97; 100; 97; 65; 85; 98; 97; 114; 111; 86; 112;
   99; 100; 109; 100; 0; 109; 0; 178; 0; 73; 0; 85; 0; 115; 94; 16; 98; 45; 102; 140; 84; 39; 89;
   99; 107; 14; 102; 187; 108; 42; 104; 15; 95; 26; 79; 62; 121; 112; 0; 65; 110; 0; 65; 188; 3;
   65; 109; 0; 65; 107; 0; 65; 75; 0; 66; 77; 0; 66; 71; 0; 66; 99; 97; 108; 107; 99; 97; 108;
   112; 0; 70; 110; 0; 70; 188; 3; 70; 188; 3; 103; 109; 0; 103; 107; 0; 103; 72; 0; 122; 107;
   72; 122; 77; 72; 122; 71; 72; 122; 84; 72; 122; 188; 3; 19; 33; 109; 0; 19; 33; 100; 0; 19;
   33; 107; 0; 19; 33; 102; 0; 109; 110; 0; 109; 188; 3; 109; 109; 0; 109; 99; 0; 109; 107; 0;
   109; 99; 0; 10; 10; 79; 0; 10; 79; 109; 0; 178; 0; 99; 0; 8; 10; 79; 10; 10; 80; 0; 10; 80;
   109; 0; 179; 0; 107; 0; 109; 0; 179; 0; 109; 0; 21; 34; 115; 0; 109; 0; 21; 34; 115; 0; 178;
   0; 80; 97; 107; 80; 97; 77; 80; 97; 71; 80; 97; 114; 97; 100; 114; 97; 100; 209; 115; 114; 0;
   97; 0; 100; 0; 21; 34; 115; 0; 178; 0; 112; 0; 115; 110; 0; 115; 188; 3; 115; 109; 0; 115;
   112; 0; 86; 110; 0; 86; 188; 3; 86; 109; 0; 86; 107; 0; 86; 77; 0; 86; 112; 0; 87; 110; 0; 87;
   188; 3; 87; 109; 0; 87; 107; 0; 87; 77; 0; 87; 107; 0; 169; 3; 77; 0; 169; 3; 97; 46; 109; 46;
   66; 113; 99; 99; 99; 100; 67; 209; 107; 103; 67; 111; 46; 100; 66; 71; 121; 104; 97; 72; 80;
   105; 110; 75; 75; 75; 77; 107; 116; 108; 109; 108; 110; 108; 111; 103; 108; 120; 109; 98; 109;
   105; 108; 109; 111; 108; 80; 72; 112; 46; 109; 46; 80; 80; 77; 80; 82; 115; 114; 83; 118; 87;
   98; 86; 209; 109; 65; 209; 109; 49; 0; 229; 101; 49; 0; 48; 0; 229; 101; 50; 0; 48; 0; 229;
   101; 51; 0; 48; 0; 229; 101; 103; 97; 108; 74; 4; 76; 4; 67; 70; 81; 38; 1; 83; 1; 39; 167;
   55; 171; 107; 2; 82; 171; 72; 140; 244; 102; 202; 142; 200; 140; 209; 110; 50; 78; 229; 83;
   156; 159; 156; 159; 81; 89; 209; 145; 135; 85; 72; 89; 246; 97; 105; 118; 133; 127; 63; 134;
   186; 135; 248; 136; 143; 144; 2; 106; 27; 109; 217; 112; 222; 115; 61; 132; 106; 145; 241;
   153; 130; 78; 117; 83; 4; 107; 27; 114; 45; 134; 30; 158; 80; 93; 235; 111; 205; 133; 100;
   137; 201; 98; 216; 129; 31; 136; 202; 94; 23; 103; 106; 109; 252; 114; 206; 144; 134; 79; 183;
   81; 222; 82; 196; 100; 211; 106; 16; 114; 231; 118; 1; 128; 6; 134; 92; 134; 239; 141; 50;
   151; 111; 155; 250; 157; 140; 120; 127; 121; 160; 125; 201; 131; 4; 147; 127; 158; 214; 138;
   223; 88; 4; 95; 96; 124; 126; 128; 98; 114; 202; 120; 194; 140; 247; 150; 216; 88; 98; 92; 19;
   106; 218; 109; 15; 111; 47; 125; 55; 126; 75; 150; 210; 82; 139; 128; 220; 81; 204; 81; 28;
   122; 190; 125; 241; 131; 117; 150; 128; 139; 207; 98; 2; 106; 254; 138; 57; 78; 231; 91; 18;
   96; 135; 115; 112; 117; 23; 83; 251; 120; 191; 79; 169; 95; 13; 78; 204; 108; 120; 101; 34;
   125; 195; 83; 94; 88; 1; 119; 73; 132; 170; 138; 186; 107; 176; 143; 136; 108; 254; 98; 229;
   130; 160; 99; 101; 117; 174; 78; 105; 81; 201; 81; 129; 104; 231; 124; 111; 130; 210; 138;
   207; 145; 245; 82; 66; 84; 115; 89; 236; 94; 197; 101; 254; 111; 42; 121; 173; 149; 106; 154;
   151; 158; 206; 158; 155; 82; 198; 102; 119; 107; 98; 143; 116; 94; 144; 97; 0; 98; 154; 100;
   35; 111; 73; 113; 137; 116; 202; 121; 244; 125; 111; 128; 38; 143; 238; 132; 35; 144; 74; 147;
   23; 82; 163; 82; 189; 84; 200; 112; 194; 136; 170; 138; 201; 94; 245; 95; 123; 99; 174; 107;
   62; 124; 117; 115; 228; 78; 249; 86; 231; 91; 186; 93; 28; 96; 178; 115; 105; 116; 154; 127;
   70; 128; 52; 146; 246; 150; 72; 151; 24; 152; 139; 79; 174; 121; 180; 145; 184; 150; 225; 96;
   134; 78; 218; 80; 238; 91; 63; 92; 153; 101; 2; 106; 206; 113; 66; 118; 252; 132; 124; 144;
   141; 159; 136; 102; 46; 150; 137; 82; 123; 103; 243; 103; 65; 109; 156; 110; 9; 116; 89; 117;
   107; 120; 16; 125; 94; 152; 109; 81; 46; 98; 120; 150; 43; 80; 25; 93; 234; 109; 42; 143; 139;
   95; 68; 97; 23; 104; 135; 115; 134; 150; 41; 82; 15; 84; 101; 92; 19; 102; 78; 103; 168; 104;
   229; 108; 6; 116; 226; 117; 121; 127; 207; 136; 225; 136; 204; 145; 226; 150; 63; 83; 186;
   110; 29; 84; 208; 113; 152; 116; 250; 133; 163; 150; 87; 156; 159; 158; 151; 103; 203; 109;
   232; 129; 203; 122; 32; 123; 146; 124; 192; 114; 153; 112; 88; 139; 192; 78; 54; 131; 58; 82;
   7; 82; 166; 94; 211; 98; 214; 124; 133; 91; 30; 109; 180; 102; 59; 143; 76; 136; 77; 150; 139;
   137; 211; 94; 64; 81; 192; 85; 0; 0; 0; 0; 90; 88; 0; 0; 116; 102; 0; 0; 0; 0; 222; 81; 42;
   115; 202; 118; 60; 121; 94; 121; 101; 121; 143; 121; 86; 151; 190; 124; 189; 127; 0; 0; 18;
   134; 0; 0; 248; 138; 0; 0; 0; 0; 56; 144; 253; 144; 239; 152; 252; 152; 40; 153; 180; 157;
   222; 144; 183; 150; 174; 79; 231; 80; 77; 81; 201; 82; 228; 82; 81; 83; 157; 85; 6; 86; 104;
   86; 64; 88; 168; 88; 100; 92; 110; 92; 148; 96; 104; 97; 142; 97; 242; 97; 79; 101; 226; 101;
   145; 102; 133; 104; 119; 109; 26; 110; 34; 111; 110; 113; 43; 114; 34; 116; 145; 120; 62; 121;
   73; 121; 72; 121; 80; 121; 86; 121; 93; 121; 141; 121; 142; 121; 64; 122; 129; 122; 192; 123;
   244; 125; 9; 126; 65; 126; 114; 127; 5; 128; 237; 129; 121; 130; 121; 130; 87; 132; 16; 137;
   150; 137; 1; 139; 57; 139; 211; 140; 8; 141; 182; 143; 56; 144; 227; 150; 255; 151; 59; 152;
   117; 96; 238; 66; 24; 130; 2; 38; 78; 181; 81; 104; 81; 128; 79; 69; 81; 128; 81; 199; 82;
   250; 82; 157; 85; 85; 85; 153; 85; 226; 85; 90; 88; 179; 88; 68; 89; 84; 89; 98; 90; 40; 91;
   210; 94; 217; 94; 105; 95; 173; 95; 216; 96; 78; 97; 8; 97; 142; 97; 96; 97; 242; 97; 52; 98;
   196; 99; 28; 100; 82; 100; 86; 101; 116; 102; 23; 103; 27; 103; 86; 103; 121; 107; 186; 107;
   65; 109; 219; 110; 203; 110; 34; 111; 30; 112; 110; 113; 167; 119; 53; 114; 175; 114; 42; 115;
   113; 116; 6; 117; 59; 117; 29; 118; 31; 118; 202; 118; 219; 118; 244; 118; 74; 119; 64; 119;
   204; 120; 177; 122; 192; 123; 123; 124; 91; 125; 244; 125; 62; 127; 5; 128; 82; 131; 239; 131;
   121; 135; 65; 137; 134; 137; 150; 137; 191; 138; 248; 138; 203; 138; 1; 139; 254; 138; 237;
   138; 57; 139; 138; 139; 8; 141; 56; 143; 114; 144; 153; 145; 118; 146; 124; 150; 227; 150; 86;
   151; 219; 151; 255; 151; 11; 152; 59; 152; 18; 155; 156; 159; 74; 40; 68; 40; 213; 51; 157;
   59; 24; 64; 57; 64; 73; 82; 208; 92; 211; 126; 67; 159; 142; 159; 42; 160; 2; 102; 102; 102;
   105; 102; 108; 102; 102; 105; 102; 102; 108; 127; 1; 116; 115; 0; 116; 101; 5; 15; 17; 15; 0;
   15; 6; 25; 17; 15; 8; 217; 5; 180; 5; 0; 0; 0; 0; 242; 5; 183; 5; 208; 5; 18; 0; 3; 4; 11; 12;
   13; 24; 26; 233; 5; 193; 5; 233; 5; 194; 5; 73; 251; 193; 5; 73; 251; 194; 5; 208; 5; 183; 5;
   208; 5; 184; 5; 208; 5; 188; 5; 216; 5; 188; 5; 222; 5; 188; 5; 224; 5; 188; 5; 227; 5; 188;
   5; 185; 5; 45; 3; 46; 3; 47; 3; 48; 3; 49; 3; 28; 0; 24; 6; 34; 6; 43; 6; 208; 5; 220; 5; 113;
   6; 0; 0; 10; 10; 10; 10; 13; 13; 13; 13; 15; 15; 15; 15; 9; 9; 9; 9; 14; 14; 14; 14; 8; 8; 8;
   8; 51; 51; 51; 51; 53; 53; 53; 53; 19; 19; 19; 19; 18; 18; 18; 18; 21; 21; 21; 21; 22; 22; 22;
   22; 28; 28; 27; 27; 29; 29; 23; 23; 39; 39; 32; 32; 56; 56; 56; 56; 62; 62; 62; 62; 66; 66;
   66; 66; 64; 64; 64; 64; 73; 73; 74; 74; 74; 74; 79; 79; 80; 80; 80; 80; 77; 77; 77; 77; 97;
   97; 98; 98; 73; 6; 100; 100; 100; 100; 126; 126; 125; 125; 127; 127; 46; 130; 130; 124; 124;
   128; 128; 135; 135; 135; 135; 0; 0; 38; 6; 0; 1; 0; 1; 0; 175; 0; 175; 0; 34; 0; 34; 0; 161;
   0; 161; 0; 160; 0; 160; 0; 162; 0; 162; 0; 170; 0; 170; 0; 170; 0; 35; 0; 35; 0; 35; 204; 6;
   0; 0; 0; 0; 38; 6; 0; 6; 0; 7; 0; 31; 0; 35; 0; 36; 2; 6; 2; 7; 2; 8; 2; 31; 2; 35; 2; 36; 4;
   6; 4; 7; 4; 8; 4; 31; 4; 35; 4; 36; 5; 6; 5; 31; 5; 35; 5; 36; 6; 7; 6; 31; 7; 6; 7; 31; 8; 6;
   8; 7; 8; 31; 13; 6; 13; 7; 13; 8; 13; 31; 15; 7; 15; 31; 16; 6; 16; 7; 16; 8; 16; 31; 17; 7;
   17; 31; 18; 31; 19; 6; 19; 31; 20; 6; 20; 31; 27; 6; 27; 7; 27; 8; 27; 31; 27; 35; 27; 36; 28;
   7; 28; 31; 28; 35; 28; 36; 29; 1; 29; 6; 29; 7; 29; 8; 29; 30; 29; 31; 29; 35; 29; 36; 30; 6;
   30; 7; 30; 8; 30; 31; 30; 35; 30; 36; 31; 6; 31; 7; 31; 8; 31; 31; 31; 35; 31; 36; 32; 6; 32;
   7; 32; 8; 32; 31; 32; 35; 32; 36; 33; 6; 33; 31; 33; 35; 33; 36; 36; 6; 36; 7; 36; 8; 36; 31;
   36; 35; 36; 36; 10; 74; 11; 74; 35; 74; 32; 0; 76; 6; 81; 6; 81; 6; 255; 0; 31; 38; 6; 0; 11;
   0; 12; 0; 31; 0; 32; 0; 35; 0; 36; 2; 11; 2; 12; 2; 31; 2; 32; 2; 35; 2; 36; 4; 11; 4; 12; 4;
   31; 38; 6; 4; 32; 4; 35; 4; 36; 5; 11; 5; 12; 5; 31; 5; 32; 5; 35; 5; 36; 27; 35; 27; 36; 28;
   35; 28; 36; 29; 1; 29; 30; 29; 31; 29; 35; 29; 36; 30; 31; 30; 35; 30; 36; 31; 1; 31; 31; 32;
   11; 32; 12; 32; 31; 32; 32; 32; 35; 32; 36; 35; 74; 36; 11; 36; 12; 36; 31; 36; 32; 36; 35;
   36; 36; 0; 6; 0; 7; 0; 8; 0; 31; 0; 33; 2; 6; 2; 7; 2; 8; 2; 31; 2; 33; 4; 6; 4; 7; 4; 8; 4;
   31; 4; 33; 5; 31; 6; 7; 6; 31; 7; 6; 7; 31; 8; 6; 8; 31; 13; 6; 13; 7; 13; 8; 13; 31; 15; 7;
   15; 8; 15; 31; 16; 6; 16; 7; 16; 8; 16; 31; 17; 7; 18; 31; 19; 6; 19; 31; 20; 6; 20; 31; 27;
   6; 27; 7; 27; 8; 27; 31; 28; 7; 28; 31; 29; 6; 29; 7; 29; 8; 29; 30; 29; 31; 30; 6; 30; 7; 30;
   8; 30; 31; 30; 33; 31; 6; 31; 7; 31; 8; 31; 31; 32; 6; 32; 7; 32; 8; 32; 31; 32; 33; 33; 6;
   33; 31; 33; 74; 36; 6; 36; 7; 36; 8; 36; 31; 36; 33; 0; 31; 0; 33; 2; 31; 2; 33; 4; 31; 4; 33;
   5; 31; 5; 33; 13; 31; 13; 33; 14; 31; 14; 33; 29; 30; 29; 31; 30; 31; 32; 31; 32; 33; 36; 31;
   36; 33; 64; 6; 78; 6; 81; 6; 39; 6; 16; 34; 16; 35; 18; 34; 18; 35; 19; 34; 19; 35; 12; 34;
   12; 35; 13; 34; 13; 35; 6; 34; 6; 35; 5; 34; 5; 35; 7; 34; 7; 35; 14; 34; 14; 35; 15; 34; 15;
   35; 13; 5; 13; 6; 13; 7; 13; 30; 13; 10; 12; 10; 14; 10; 15; 10; 16; 34; 16; 35; 18; 34; 18;
   35; 19; 34; 19; 35; 12; 34; 12; 35; 13; 34; 13; 35; 6; 34; 6; 35; 5; 34; 5; 35; 7; 34; 7; 35;
   14; 34; 14; 35; 15; 34; 15; 35; 13; 5; 13; 6; 13; 7; 13; 30; 13; 10; 12; 10; 14; 10; 15; 10;
   13; 5; 13; 6; 13; 7; 13; 30; 12; 32; 13; 32; 16; 30; 12; 5; 12; 6; 12; 7; 13; 5; 13; 6; 13; 7;
   16; 30; 17; 30; 0; 36; 0; 36; 42; 6; 0; 2; 27; 0; 3; 2; 0; 3; 2; 0; 3; 27; 0; 4; 27; 0; 27; 2;
   0; 27; 3; 0; 27; 4; 2; 27; 3; 2; 27; 3; 3; 27; 32; 3; 27; 31; 9; 3; 2; 9; 2; 3; 9; 2; 31; 9;
   27; 3; 9; 27; 3; 9; 27; 2; 9; 27; 27; 9; 27; 27; 11; 3; 3; 11; 3; 3; 11; 27; 27; 10; 3; 27;
   10; 3; 27; 10; 2; 32; 10; 27; 4; 10; 27; 4; 10; 27; 27; 10; 27; 27; 12; 3; 31; 12; 4; 27; 12;
   4; 27; 13; 27; 3; 13; 27; 3; 13; 27; 27; 13; 27; 32; 15; 2; 27; 15; 27; 27; 15; 27; 27; 15;
   27; 31; 16; 27; 27; 16; 27; 32; 16; 27; 31; 23; 4; 27; 23; 4; 27; 24; 27; 3; 24; 27; 27; 26;
   3; 27; 26; 3; 32; 26; 3; 31; 26; 2; 2; 26; 2; 2; 26; 4; 27; 26; 4; 27; 26; 27; 3; 26; 27; 3;
   27; 3; 2; 27; 3; 27; 27; 3; 32; 27; 2; 3; 27; 2; 27; 27; 4; 2; 27; 4; 27; 40; 6; 29; 4; 6; 31;
   29; 4; 31; 29; 29; 30; 5; 29; 30; 5; 33; 30; 4; 29; 30; 4; 29; 30; 4; 33; 30; 29; 34; 30; 29;
   33; 34; 29; 29; 34; 29; 29; 0; 6; 34; 2; 4; 34; 2; 4; 33; 2; 6; 34; 2; 6; 33; 2; 29; 34; 2;
   29; 33; 4; 29; 34; 4; 5; 33; 4; 29; 33; 11; 6; 33; 13; 5; 34; 12; 5; 34; 14; 5; 34; 28; 4; 34;
   28; 29; 34; 34; 5; 34; 34; 4; 34; 34; 29; 34; 29; 29; 34; 26; 29; 34; 30; 5; 34; 26; 29; 5;
   28; 5; 29; 17; 29; 34; 27; 29; 34; 30; 4; 5; 29; 6; 34; 28; 4; 29; 27; 29; 29; 28; 4; 29; 30;
   4; 5; 4; 5; 34; 5; 4; 34; 29; 4; 34; 25; 29; 34; 0; 5; 34; 27; 29; 29; 17; 4; 29; 13; 29; 29;
   11; 6; 34; 30; 4; 34; 53; 6; 0; 15; 157; 13; 15; 157; 39; 6; 0; 29; 29; 32; 0; 28; 1; 10; 30;
   6; 30; 8; 14; 29; 18; 30; 10; 12; 33; 29; 18; 29; 35; 32; 33; 12; 29; 30; 53; 6; 0; 15; 20;
   39; 6; 14; 29; 34; 255; 0; 29; 29; 32; 255; 18; 29; 35; 32; 255; 33; 12; 29; 30; 39; 6; 5; 29;
   255; 5; 29; 0; 29; 32; 39; 6; 10; 165; 0; 29; 44; 0; 1; 48; 2; 48; 58; 0; 59; 0; 33; 0; 63; 0;
   22; 48; 23; 48; 38; 32; 19; 32; 18; 1; 0; 95; 95; 40; 41; 123; 125; 8; 48; 12; 13; 8; 9; 2; 3;
   0; 1; 4; 5; 6; 7; 91; 0; 93; 0; 62; 32; 62; 32; 62; 32; 62; 32; 95; 0; 95; 0; 95; 0; 44; 0; 1;
   48; 46; 0; 0; 0; 59; 0; 58; 0; 63; 0; 33; 0; 20; 32; 40; 0; 41; 0; 123; 0; 125; 0; 20; 48; 21;
   48; 35; 38; 42; 43; 45; 60; 62; 61; 0; 92; 36; 37; 64; 64; 6; 255; 11; 0; 11; 255; 12; 32; 0;
   77; 6; 64; 6; 255; 14; 0; 14; 255; 15; 0; 15; 255; 16; 0; 16; 255; 17; 0; 17; 255; 18; 0; 18;
   33; 6; 0; 1; 1; 2; 2; 3; 3; 4; 4; 5; 5; 5; 5; 6; 6; 7; 7; 7; 7; 8; 8; 9; 9; 9; 9; 10; 10; 10;
   10; 11; 11; 11; 11; 12; 12; 12; 12; 13; 13; 13; 13; 14; 14; 15; 15; 16; 16; 17; 17; 18; 18;
   18; 18; 19; 19; 19; 19; 20; 20; 20; 20; 21; 21; 21; 21; 22; 22; 22; 22; 23; 23; 23; 23; 24;
   24; 24; 24; 25; 25; 25; 25; 32; 32; 32; 32; 33; 33; 33; 33; 34; 34; 34; 34; 35; 35; 35; 35;
   36; 36; 36; 36; 37; 37; 37; 37; 38; 38; 38; 38; 39; 39; 40; 40; 41; 41; 41; 41; 34; 6; 34; 0;
   34; 0; 34; 1; 34; 1; 34; 3; 34; 3; 34; 5; 34; 5; 33; 0; 133; 41; 1; 48; 1; 11; 12; 0; 250;
   241; 160; 162; 164; 166; 168; 226; 228; 230; 194; 251; 161; 163; 165; 167; 169; 170; 172; 174;
   176; 178; 180; 182; 184; 186; 188; 190; 192; 195; 197; 199; 201; 202; 203; 204; 205; 206; 209;
   212; 215; 218; 221; 222; 223; 224; 225; 227; 229; 231; 232; 233; 234; 235; 236; 238; 242; 152;
   153; 49; 49; 79; 49; 85; 49; 91; 49; 97; 49; 162; 0; 163; 0; 172; 0; 175; 0; 166; 0; 165; 0;
   169; 32; 0; 0; 2; 37; 144; 33; 145; 33; 146; 33; 147; 33; 160; 37; 203; 37; 210; 5; 7; 3; 1;
   218; 5; 7; 3; 1; 208; 2; 209; 2; 230; 0; 153; 2; 83; 2; 0; 0; 163; 2; 102; 171; 165; 2; 164;
   2; 86; 2; 87; 2; 145; 29; 88; 2; 94; 2; 169; 2; 100; 2; 98; 2; 96; 2; 155; 2; 39; 1; 156; 2;
   103; 2; 132; 2; 170; 2; 171; 2; 108; 2; 4; 223; 142; 167; 110; 2; 5; 223; 142; 2; 6; 223; 248;
   0; 118; 2; 119; 2; 113; 0; 122; 2; 8; 223; 125; 2; 126; 2; 128; 2; 168; 2; 166; 2; 103; 171;
   167; 2; 136; 2; 113; 44; 0; 0; 143; 2; 161; 2; 162; 2; 152; 2; 192; 1; 193; 1; 194; 1; 10;
   223; 30; 223; 65; 4; 64; 0; 0; 0; 0; 20; 153; 16; 186; 16; 0; 0; 0; 0; 155; 16; 186; 16; 5; 5;
   165; 16; 186; 16; 5; 49; 17; 39; 17; 50; 17; 39; 17; 85; 71; 19; 62; 19; 71; 19; 87; 19; 85;
   130; 19; 201; 19; 0; 0; 0; 0; 132; 19; 187; 19; 5; 5; 139; 19; 194; 19; 5; 144; 19; 201; 19;
   5; 194; 19; 194; 19; 0; 0; 0; 0; 194; 19; 184; 19; 194; 19; 201; 19; 5; 85; 185; 20; 186; 20;
   185; 20; 176; 20; 0; 0; 0; 0; 185; 20; 189; 20; 85; 80; 184; 21; 175; 21; 185; 21; 175; 21;
   85; 53; 25; 48; 25; 5; 30; 97; 30; 97; 30; 97; 41; 97; 30; 97; 31; 97; 41; 97; 31; 97; 30; 97;
   32; 97; 33; 97; 31; 97; 34; 97; 31; 97; 33; 97; 32; 97; 85; 85; 85; 85; 103; 109; 103; 109;
   99; 109; 103; 109; 105; 109; 103; 109; 85; 5; 65; 0; 48; 0; 87; 209; 101; 209; 88; 209; 101;
   209; 95; 209; 110; 209; 95; 209; 111; 209; 95; 209; 112; 209; 95; 209; 113; 209; 95; 209; 114;
   209; 85; 85; 85; 5; 185; 209; 101; 209; 186; 209; 101; 209; 187; 209; 110; 209; 188; 209; 110;
   209; 187; 209; 111; 209; 188; 209; 111; 209; 85; 85; 85; 65; 0; 97; 0; 65; 0; 97; 0; 105; 0;
   65; 0; 97; 0; 65; 0; 67; 68; 0; 0; 71; 0; 0; 74; 75; 0; 0; 78; 79; 80; 81; 0; 83; 84; 85; 86;
   87; 88; 89; 90; 97; 98; 99; 100; 0; 102; 104; 0; 112; 0; 65; 0; 97; 0; 65; 66; 0; 68; 69; 70;
   71; 74; 0; 83; 0; 97; 0; 65; 66; 0; 68; 69; 70; 71; 0; 73; 74; 75; 76; 77; 0; 79; 83; 0; 97;
   0; 65; 0; 97; 0; 65; 0; 97; 0; 65; 0; 97; 0; 65; 0; 97; 0; 65; 0; 97; 0; 65; 0; 97; 0; 49; 1;
   55; 2; 145; 3; 163; 3; 177; 3; 209; 3; 36; 0; 31; 4; 32; 5; 145; 3; 163; 3; 177; 3; 209; 3;
   36; 0; 31; 4; 32; 5; 145; 3; 163; 3; 177; 3; 209; 3; 36; 0; 31; 4; 32; 5; 145; 3; 163; 3; 177;
   3; 209; 3; 36; 0; 31; 4; 32; 5; 145; 3; 163; 3; 177; 3; 209; 3; 36; 0; 31; 4; 32; 5; 11; 12;
   48; 0; 48; 0; 48; 0; 48; 0; 48; 0; 48; 4; 58; 4; 62; 4; 75; 4; 77; 4; 78; 4; 137; 166; 48; 4;
   169; 38; 40; 185; 127; 159; 0; 1; 2; 3; 4; 5; 6; 7; 8; 10; 11; 14; 15; 17; 19; 20; 21; 22; 23;
   24; 26; 27; 97; 38; 37; 47; 123; 81; 166; 177; 4; 39; 6; 0; 1; 5; 8; 42; 6; 30; 8; 3; 13; 32;
   25; 26; 27; 28; 9; 15; 23; 11; 24; 7; 10; 0; 1; 4; 6; 12; 14; 16; 68; 144; 119; 69; 40; 6; 44;
   6; 0; 0; 71; 6; 51; 6; 23; 16; 17; 18; 19; 0; 6; 14; 2; 15; 52; 6; 42; 6; 43; 6; 46; 6; 0; 0;
   54; 6; 0; 0; 58; 6; 45; 6; 0; 0; 74; 6; 0; 0; 68; 6; 0; 0; 70; 6; 51; 6; 57; 6; 0; 0; 53; 6;
   66; 6; 0; 0; 52; 6; 0; 0; 0; 0; 46; 6; 0; 0; 54; 6; 0; 0; 58; 6; 0; 0; 186; 6; 0; 0; 111; 6;
   0; 0; 40; 6; 44; 6; 0; 0; 71; 6; 0; 0; 0; 0; 45; 6; 55; 6; 74; 6; 67; 6; 0; 0; 69; 6; 70; 6;
   51; 6; 57; 6; 65; 6; 53; 6; 66; 6; 0; 0; 52; 6; 42; 6; 43; 6; 46; 6; 0; 0; 54; 6; 56; 6; 58;
   6; 110; 6; 0; 0; 161; 6; 39; 6; 0; 1; 5; 8; 32; 33; 11; 6; 16; 35; 42; 6; 26; 27; 28; 9; 15;
   23; 11; 24; 7; 10; 0; 1; 4; 6; 12; 14; 16; 40; 6; 44; 6; 47; 6; 0; 0; 72; 6; 50; 6; 45; 6; 55;
   6; 74; 6; 42; 6; 26; 27; 28; 9; 15; 23; 11; 24; 7; 10; 0; 1; 4; 6; 12; 14; 16; 48; 46; 48; 0;
   44; 0; 40; 0; 65; 0; 41; 0; 20; 48; 83; 0; 21; 48; 67; 82; 67; 68; 87; 90; 65; 0; 72; 86; 77;
   86; 83; 68; 83; 83; 80; 80; 86; 87; 67; 77; 67; 77; 68; 77; 82; 68; 74; 75; 48; 48; 0; 104;
   104; 75; 98; 87; 91; 204; 83; 199; 48; 140; 78; 26; 89; 227; 137; 41; 89; 164; 78; 32; 102;
   33; 113; 153; 101; 77; 82; 140; 95; 141; 81; 176; 101; 29; 82; 66; 125; 31; 117; 169; 140;
   240; 88; 57; 84; 20; 111; 149; 98; 85; 99; 0; 78; 9; 78; 74; 144; 230; 93; 45; 78; 243; 83; 7;
   99; 112; 141; 83; 98; 129; 121; 122; 122; 8; 84; 128; 110; 9; 103; 8; 103; 51; 117; 114; 82;
   182; 85; 77; 145; 20; 48; 21; 48; 44; 103; 9; 78; 140; 78; 137; 91; 185; 112; 83; 98; 215;
   118; 221; 82; 87; 101; 151; 95; 239; 83; 48; 0; 56; 78; 5; 0; 9; 34; 1; 96; 79; 174; 79; 187;
   79; 2; 80; 122; 80; 153; 80; 231; 80; 207; 80; 158; 52; 58; 6; 77; 81; 84; 81; 100; 81; 119;
   81; 28; 5; 185; 52; 103; 81; 141; 81; 75; 5; 151; 81; 164; 81; 204; 78; 172; 81; 181; 81; 223;
   145; 245; 81; 3; 82; 223; 52; 59; 82; 70; 82; 114; 82; 119; 82; 21; 53; 2; 0; 32; 128; 128; 0;
   8; 0; 0; 199; 82; 0; 2; 29; 51; 62; 63; 80; 130; 138; 147; 172; 182; 184; 184; 184; 44; 10;
   112; 112; 202; 83; 223; 83; 99; 11; 235; 83; 241; 83; 6; 84; 158; 84; 56; 84; 72; 84; 104; 84;
   162; 84; 246; 84; 16; 85; 83; 85; 99; 85; 132; 85; 132; 85; 153; 85; 171; 85; 179; 85; 194;
   85; 22; 87; 6; 86; 23; 87; 81; 86; 116; 86; 7; 82; 238; 88; 206; 87; 244; 87; 13; 88; 139; 87;
   50; 88; 49; 88; 172; 88; 228; 20; 242; 88; 247; 88; 6; 89; 26; 89; 34; 89; 98; 89; 168; 22;
   234; 22; 236; 89; 27; 90; 39; 90; 216; 89; 102; 90; 238; 54; 252; 54; 8; 91; 62; 91; 62; 91;
   200; 25; 195; 91; 216; 91; 231; 91; 243; 91; 24; 27; 255; 91; 6; 92; 83; 95; 34; 92; 129; 55;
   96; 92; 110; 92; 192; 92; 141; 92; 228; 29; 67; 93; 230; 29; 110; 93; 107; 93; 124; 93; 225;
   93; 226; 93; 47; 56; 253; 93; 40; 94; 61; 94; 105; 94; 98; 56; 131; 33; 124; 56; 176; 94; 179;
   94; 182; 94; 202; 94; 146; 163; 254; 94; 49; 35; 49; 35; 1; 130; 34; 95; 34; 95; 199; 56; 184;
   50; 218; 97; 98; 95; 107; 95; 227; 56; 154; 95; 205; 95; 215; 95; 249; 95; 129; 96; 58; 57;
   28; 57; 148; 96; 212; 38; 199; 96; 2; 2; 0; 0; 0; 0; 0; 0; 0; 8; 0; 10; 0; 0; 2; 8; 0; 128; 8;
   0; 0; 8; 128; 40; 128; 2; 0; 0; 2; 72; 97; 0; 4; 6; 4; 50; 70; 106; 92; 103; 150; 170; 174;
   200; 211; 93; 98; 0; 84; 119; 243; 12; 43; 61; 99; 252; 98; 104; 99; 131; 99; 228; 99; 241;
   43; 34; 100; 197; 99; 169; 99; 46; 58; 105; 100; 126; 100; 157; 100; 119; 100; 108; 58; 79;
   101; 108; 101; 10; 48; 227; 101; 248; 102; 73; 102; 25; 59; 145; 102; 8; 59; 228; 58; 146; 81;
   149; 81; 0; 103; 156; 102; 173; 128; 217; 67; 23; 103; 27; 103; 33; 103; 94; 103; 83; 103;
   195; 51; 73; 59; 250; 103; 133; 103; 82; 104; 133; 104; 109; 52; 142; 104; 31; 104; 20; 105;
   157; 59; 66; 105; 163; 105; 234; 105; 168; 106; 163; 54; 219; 106; 24; 60; 33; 107; 167; 56;
   84; 107; 78; 60; 114; 107; 159; 107; 186; 107; 187; 107; 141; 58; 11; 29; 250; 58; 78; 108;
   188; 60; 191; 108; 205; 108; 103; 108; 22; 109; 62; 109; 119; 109; 65; 109; 105; 109; 120;
   109; 133; 109; 30; 61; 52; 109; 47; 110; 110; 110; 51; 61; 203; 110; 199; 110; 209; 62; 249;
   109; 110; 111; 94; 63; 142; 63; 198; 111; 57; 112; 30; 112; 27; 112; 150; 61; 74; 112; 125;
   112; 119; 112; 173; 112; 37; 5; 69; 113; 99; 66; 156; 113; 171; 67; 40; 114; 53; 114; 80; 114;
   8; 70; 128; 114; 149; 114; 53; 71; 2; 32; 0; 0; 32; 0; 0; 0; 0; 8; 128; 0; 0; 2; 2; 128; 138;
   0; 0; 32; 0; 8; 10; 0; 128; 136; 128; 32; 20; 72; 122; 115; 139; 115; 172; 62; 165; 115; 184;
   62; 184; 62; 71; 116; 92; 116; 113; 116; 133; 116; 202; 116; 27; 63; 36; 117; 54; 76; 62; 117;
   146; 76; 112; 117; 159; 33; 16; 118; 161; 79; 184; 79; 68; 80; 252; 63; 8; 64; 244; 118; 243;
   80; 242; 80; 25; 81; 51; 81; 30; 119; 31; 119; 31; 119; 74; 119; 57; 64; 139; 119; 70; 64;
   150; 64; 29; 84; 78; 120; 140; 120; 204; 120; 227; 64; 38; 86; 86; 121; 154; 86; 197; 86; 143;
   121; 235; 121; 47; 65; 64; 122; 74; 122; 79; 122; 124; 89; 167; 90; 167; 90; 238; 122; 2; 66;
   171; 91; 198; 123; 201; 123; 39; 66; 128; 92; 210; 124; 160; 66; 232; 124; 227; 124; 0; 125;
   134; 95; 99; 125; 1; 67; 199; 125; 2; 126; 69; 126; 52; 67; 40; 98; 71; 98; 89; 67; 217; 98;
   122; 127; 62; 99; 149; 127; 250; 127; 5; 128; 218; 100; 35; 101; 96; 128; 168; 101; 112; 128;
   95; 51; 213; 67; 178; 128; 3; 129; 11; 68; 62; 129; 181; 90; 167; 103; 181; 103; 147; 51; 156;
   51; 1; 130; 4; 130; 158; 143; 107; 68; 145; 130; 139; 130; 157; 130; 179; 82; 177; 130; 179;
   130; 189; 130; 230; 130; 60; 107; 229; 130; 29; 131; 99; 131; 173; 131; 35; 131; 189; 131;
   231; 131; 87; 132; 83; 131; 202; 131; 204; 131; 220; 131; 54; 108; 107; 109; 2; 0; 0; 32; 34;
   42; 160; 10; 0; 32; 128; 40; 0; 168; 32; 32; 0; 2; 128; 34; 2; 138; 8; 0; 170; 0; 0; 0; 2; 0;
   0; 40; 213; 108; 43; 69; 241; 132; 243; 132; 22; 133; 202; 115; 100; 133; 44; 111; 93; 69; 97;
   69; 177; 111; 210; 112; 107; 69; 80; 134; 92; 134; 103; 134; 105; 134; 169; 134; 136; 134; 14;
   135; 226; 134; 121; 135; 40; 135; 107; 135; 134; 135; 215; 69; 225; 135; 1; 136; 249; 69; 96;
   136; 99; 136; 103; 118; 215; 136; 222; 136; 53; 70; 250; 136; 187; 52; 174; 120; 102; 121;
   190; 70; 199; 70; 160; 138; 237; 138; 138; 139; 85; 140; 168; 124; 171; 140; 193; 140; 27;
   141; 119; 141; 47; 127; 4; 8; 203; 141; 188; 141; 240; 141; 222; 8; 212; 142; 56; 143; 210;
   133; 237; 133; 148; 144; 241; 144; 17; 145; 46; 135; 27; 145; 56; 146; 215; 146; 216; 146;
   124; 146; 249; 147; 21; 148; 250; 139; 139; 149; 149; 73; 183; 149; 119; 141; 230; 73; 195;
   150; 178; 93; 35; 151; 69; 145; 26; 146; 110; 74; 118; 74; 224; 151; 10; 148; 178; 74; 150;
   148; 11; 152; 11; 152; 41; 152; 182; 149; 226; 152; 51; 75; 41; 153; 167; 153; 194; 153; 254;
   153; 206; 75; 48; 155; 18; 155; 64; 156; 253; 156; 206; 76; 237; 76; 103; 157; 206; 160; 248;
   76; 5; 161; 14; 162; 145; 162; 187; 158; 86; 77; 249; 158; 254; 158; 5; 159; 15; 159; 22; 159;
   59; 159; 0; 166; 2; 136; 160; 0; 0; 0; 0; 128; 0; 40; 0; 8; 160; 128; 160; 128; 0; 128; 128;
   0; 10; 136; 128; 0; 128; 0; 32; 42; 0; 128].

Definition unicode_comp_table : list Z :=
  [18945; 18880; 18946; 640; 641; 642; 643; 704; 706; 2560; 644; 9282; 645; 1984; 2432; 2434;
   9280; 8832; 708; 8834; 8836; 8838; 710; 712; 714; 716; 647; 8842; 718; 8844; 8848; 8850; 8846;
   648; 649; 650; 9346; 768; 770; 772; 651; 9344; 776; 2436; 2438; 9304; 2562; 774; 8856; 8858;
   8862; 2304; 778; 8864; 780; 782; 2112; 784; 786; 8866; 8870; 2496; 8868; 8872; 8874; 652; 653;
   654; 832; 834; 836; 896; 655; 9358; 1986; 2440; 2442; 9360; 838; 8876; 1024; 8880; 2114; 8882;
   1026; 8884; 1088; 1092; 8886; 1090; 8898; 8896; 8900; 8902; 8904; 2368; 1216; 657; 8906; 1220;
   8908; 1218; 8912; 8910; 658; 659; 660; 661; 1344; 1346; 2568; 662; 9364; 1348; 1988; 2444;
   2446; 1728; 9362; 2116; 8968; 8970; 1408; 8972; 1412; 2448; 2450; 8974; 1410; 8978; 1414;
   1416; 8980; 1420; 8982; 2456; 1418; 8990; 1424; 8992; 2458; 1422; 8996; 8994; 665; 666; 667;
   1472; 1474; 1476; 668; 9388; 1478; 1480; 1990; 2452; 2454; 1792; 9386; 8998; 1482; 9002; 9000;
   9024; 9026; 9028; 9030; 1484; 9034; 9032; 9036; 9038; 9040; 9400; 669; 1486; 9406; 2572; 9042;
   1536; 9404; 9402; 1600; 9044; 1602; 1604; 9046; 9048; 672; 673; 674; 675; 705; 707; 2561; 676;
   9283; 677; 1985; 2433; 2435; 9281; 8833; 709; 8835; 8837; 8839; 711; 713; 715; 717; 679; 8843;
   719; 8845; 8849; 8851; 8847; 680; 681; 682; 9347; 769; 771; 773; 683; 9345; 777; 2437; 2439;
   9305; 2563; 775; 8857; 8859; 8863; 2305; 779; 8865; 781; 783; 2113; 785; 787; 8867; 8871;
   2497; 8869; 8873; 8875; 9088; 684; 685; 686; 833; 835; 837; 687; 9359; 1987; 2441; 2443; 9361;
   839; 8877; 1025; 2180; 8881; 2115; 8883; 1027; 8885; 1089; 1093; 8887; 1091; 8899; 8897; 8901;
   8903; 8905; 2369; 1217; 689; 8907; 1221; 8909; 1219; 8913; 8911; 690; 691; 692; 693; 1345;
   1347; 2569; 694; 9365; 1349; 1989; 2445; 2447; 1729; 9363; 2117; 8969; 8971; 1409; 8973; 1413;
   2449; 2451; 8975; 1411; 8979; 1415; 1417; 8981; 1421; 8983; 2457; 1419; 8991; 9089; 1425;
   8993; 2459; 1423; 8997; 8995; 697; 698; 699; 1473; 1475; 1477; 700; 9389; 1479; 1481; 1991;
   2453; 2455; 1793; 9387; 8999; 1483; 9003; 9001; 9025; 9027; 9029; 9031; 1485; 9035; 9033;
   9090; 9037; 9039; 9041; 9401; 701; 1487; 9407; 2573; 9043; 703; 9405; 9091; 9403; 1601; 9045;
   1603; 1605; 9047; 9049; 12545; 3200; 11776; 9286; 9284; 9290; 9288; 2048; 2370; 2372; 2052;
   8840; 9350; 9348; 9354; 9352; 8878; 9368; 9366; 9372; 9370; 8960; 2566; 8962; 2564; 2374;
   1998; 1994; 1992; 1996; 9287; 9285; 9291; 9289; 2049; 2371; 2373; 2053; 8841; 9351; 9349;
   9355; 9353; 8879; 9369; 9367; 9373; 9371; 8961; 2567; 8963; 2565; 2375; 1999; 1995; 1993;
   1997; 9296; 9294; 9300; 9298; 9297; 9295; 9301; 9299; 8852; 8854; 8853; 8855; 8964; 8966;
   8965; 8967; 8984; 8985; 8986; 8987; 9004; 9005; 9006; 9007; 9216; 9378; 9376; 9382; 9380;
   9384; 9379; 9377; 9383; 9381; 9385; 9392; 9390; 9396; 9394; 9398; 9393; 9391; 9397; 9395;
   9399; 2178; 2176; 2177; 2050; 2051; 8860; 8861; 2570; 2571; 2179; 2880; 11402; 3201; 11401;
   11400; 9536; 9537; 11520; 11783; 3328; 9792; 9793; 11904; 3329; 9928; 9929; 12032; 12164;
   3330; 12163; 12162; 3392; 9944; 9945; 12678; 3332; 10048; 10049; 12544; 12422; 3334; 12421;
   12420; 3393; 10304; 12800; 3335; 10319; 10320; 12928; 11396; 11779; 10327; 3394; 11393; 11392;
   9408; 9409; 11398; 11395; 10432; 3395; 9664; 9665; 10560; 3396; 9920; 9921; 11781; 11778;
   10688; 3397; 12037; 12036; 3456; 9936; 9937; 12160; 10816; 3458; 9952; 9953; 12416; 12417;
   10944; 3459; 12292; 12291; 3457; 10176; 10177; 12418; 11072; 3460; 10311; 10312; 12676; 12673;
   12038; 3336; 12161; 12293; 3398; 12419; 12674; 3584; 3585; 3904; 4480; 4482; 3843; 3840; 4544;
   3841; 4416; 4610; 4612; 3969; 4672; 4032; 4674; 3968; 4676; 4740; 3970; 4742; 4744; 4746;
   4800; 4738; 4481; 4483; 4163; 4160; 4545; 4161; 4417; 4611; 4613; 4289; 4673; 4096; 4675;
   4288; 4677; 4741; 4290; 4743; 4745; 4747; 4801; 4739; 4224; 4352; 4353; 4608; 4609; 4736;
   4737; 4928; 4929; 4931; 4930; 4932; 5058; 5120; 5056; 5184; 5248; 5312; 5440; 5441; 5952;
   5888; 5953; 6080; 6144; 6146; 6145; 6208; 6272; 6400; 6336; 6337; 6401; 6464; 6466; 6465;
   6528; 6592; 6594; 6593; 7296; 7360; 7616; 8064; 8192; 8194; 8196; 8198; 8200; 8256; 8320;
   8322; 8384; 8385; 8448; 8888; 8889; 8976; 8977; 8988; 8989; 9292; 9302; 9293; 9303; 9356;
   9357; 9374; 9375; 9472; 9474; 9476; 11200; 9473; 9475; 9477; 11201; 11202; 11203; 11204;
   11205; 11206; 11207; 9600; 9602; 9604; 11208; 9601; 9603; 9605; 11209; 11210; 11211; 11212;
   11213; 11214; 11215; 9728; 9730; 9729; 9731; 9856; 9858; 9857; 9859; 9922; 9924; 9926; 11264;
   9923; 9925; 9927; 11265; 11266; 11267; 11268; 11269; 11270; 11271; 9930; 9932; 9934; 11272;
   9931; 9933; 9935; 11273; 11274; 11275; 11276; 11277; 11278; 11279; 9938; 9940; 9942; 9939;
   9941; 9943; 9946; 9948; 9950; 9947; 9949; 9951; 9984; 9986; 9985; 9987; 10112; 10114; 10113;
   10115; 10240; 10242; 10244; 10241; 10243; 10245; 10306; 10308; 10310; 10313; 10315; 10317;
   11328; 10314; 10316; 10318; 11329; 11330; 11331; 11332; 11333; 11334; 11335; 10321; 10323;
   10325; 11336; 10322; 10324; 10326; 11337; 11338; 11339; 11340; 11341; 11342; 11343; 11394;
   11777; 12672; 11399; 12033; 12034; 12035; 11782; 12677; 12288; 12289; 12290; 17984; 17985;
   18048; 18112; 18114; 18113; 18176; 18240; 18304; 18368; 18370; 18688; 18752; 18816; 18818;
   18944; 18882; 18947; 18948; 19008; 19009; 19072; 19073; 19136; 19137; 19392; 19393; 19200;
   19201; 19264; 19265; 19394; 19395; 19328; 19329; 19330; 19331; 19456; 19457; 19458; 19459;
   22016; 21568; 21570; 21572; 21574; 21576; 21578; 21580; 21582; 21584; 21586; 21588; 21590;
   21632; 21634; 21636; 21696; 21697; 21760; 21761; 21824; 21825; 21888; 21889; 21952; 21953;
   22144; 22720; 22272; 22274; 22276; 22278; 22280; 22282; 22284; 22286; 22288; 22290; 22292;
   22294; 22336; 22338; 22340; 22400; 22401; 22464; 22465; 22528; 22529; 22592; 22593; 22656;
   22657; 22784; 22785; 22786; 22787; 22848; 36544; 36608; 36800; 36802; 36864; 36928; 36929;
   36992; 36993; 37056; 37058; 37120; 37184; 37250; 37248; 37251; 37313; 37312; 37315; 37376;
   37377; 37440; 37504; 37506; 37508; 37505; 37509; 37511; 37510; 37507; 37569; 37568; 37570].

(** [UnicodeGCEnum]. *)
Definition UNICODE_GC_Cn : Z := 0.
Definition UNICODE_GC_Lu : Z := 1.
Definition UNICODE_GC_Ll : Z := 2.
Definition UNICODE_GC_Lt : Z := 3.
Definition UNICODE_GC_Lm : Z := 4.
Definition UNICODE_GC_Lo : Z := 5.
Definition UNICODE_GC_Mn : Z := 6.
Definition UNICODE_GC_Mc : Z := 7.
Definition UNICODE_GC_Me : Z := 8.
Definition UNICODE_GC_Nd : Z := 9.
Definition UNICODE_GC_Nl : Z := 10.
Definition UNICODE_GC_No : Z := 11.
Definition UNICODE_GC_Sm : Z := 12.
Definition UNICODE_GC_Sc : Z := 13.
Definition UNICODE_GC_Sk : Z := 14.
Definition UNICODE_GC_So : Z := 15.
Definition UNICODE_GC_Pc : Z := 16.
Definition UNICODE_GC_Pd : Z := 17.
Definition UNICODE_GC_Ps : Z := 18.
Definition UNICODE_GC_Pe : Z := 19.
Definition UNICODE_GC_Pi : Z := 20.
Definition UNICODE_GC_Pf : Z := 21.
Definition UNICODE_GC_Po : Z := 22.
Definition UNICODE_GC_Zs : Z := 23.
Definition UNICODE_GC_Zl : Z := 24.
Definition UNICODE_GC_Zp : Z := 25.
Definition UNICODE_GC_Cc : Z := 26.
Definition UNICODE_GC_Cf : Z := 27.
Definition UNICODE_GC_Cs : Z := 28.
Definition UNICODE_GC_Co : Z := 29.
Definition UNICODE_GC_LC : Z := 30.
Definition UNICODE_GC_L : Z := 31.
Definition UNICODE_GC_M : Z := 32.
Definition UNICODE_GC_N : Z := 33.
Definition UNICODE_GC_S : Z := 34.
Definition UNICODE_GC_P : Z := 35.
Definition UNICODE_GC_Z : Z := 36.
Definition UNICODE_GC_C : Z := 37.
Definition UNICODE_GC_COUNT : Z := 38.

Definition unicode_gc_name_table : list Z := c_names [
  "Cn,Unassigned";
  "Lu,Uppercase_Letter";
  "Ll,Lowercase_Letter";
  "Lt,Titlecase_Letter";
  "Lm,Modifier_Letter";
  "Lo,Other_Letter";
  "Mn,Nonspacing_Mark";
  "Mc,Spacing_Mark";
  "Me,Enclosing_Mark";
  "Nd,Decimal_Number,digit";
  "Nl,Letter_Number";
  "No,Other_Number";
  "Sm,Math_Symbol";
  "Sc,Currency_Symbol";
  "Sk,Modifier_Symbol";
  "So,Other_Symbol";
  "Pc,Connector_Punctuation";
  "Pd,Dash_Punctuation";
  "Ps,Open_Punctuation";
  "Pe,Close_Punctuation";
  "Pi,Initial_Punctuation";
  "Pf,Final_Punctuation";
  "Po,Other_Punctuation";
  "Zs,Space_Separator";
  "Zl,Line_Separator";
  "Zp,Paragraph_Separator";
  "Cc,Control,cntrl";
  "Cf,Format";
  "Cs,Surrogate";
  "Co,Private_Use";
  "LC,Cased_Letter";
  "L,Letter";
  "M,Mark,Combining_Mark";
  "N,Number";
  "S,Symbol";
  "P,Punctuation,punct";
  "Z,Separator";
  "C,Other"].

Definition unicode_gc_table : list Z :=
  [250; 24; 23; 86; 13; 86; 18; 19; 22; 12; 22; 17; 54; 233; 2; 54; 76; 54; 225; 18; 18; 22; 19;
   14; 16; 14; 226; 18; 18; 12; 19; 12; 250; 25; 23; 22; 109; 15; 22; 14; 15; 5; 20; 12; 27; 15;
   14; 15; 12; 43; 14; 2; 54; 14; 11; 5; 21; 75; 22; 225; 15; 12; 193; 226; 16; 12; 226; 0; 255;
   48; 2; 255; 8; 2; 255; 39; 191; 34; 33; 2; 95; 95; 33; 34; 97; 2; 33; 2; 65; 66; 33; 2; 33; 2;
   159; 127; 2; 95; 95; 33; 2; 95; 63; 2; 5; 63; 34; 101; 1; 3; 2; 1; 3; 2; 1; 3; 2; 255; 8; 2;
   255; 10; 2; 1; 3; 2; 95; 33; 2; 255; 50; 162; 33; 2; 33; 34; 95; 65; 2; 255; 0; 226; 60; 5;
   226; 19; 228; 10; 110; 228; 4; 238; 6; 132; 206; 4; 14; 4; 238; 9; 230; 104; 127; 4; 14; 63;
   32; 4; 66; 22; 1; 96; 46; 1; 22; 65; 0; 1; 0; 33; 2; 225; 9; 0; 225; 1; 226; 27; 63; 2; 65;
   66; 255; 16; 98; 63; 12; 95; 63; 2; 225; 43; 226; 40; 255; 26; 15; 134; 40; 255; 47; 255; 6;
   2; 255; 88; 0; 225; 30; 32; 4; 182; 226; 33; 22; 17; 32; 47; 13; 0; 230; 37; 17; 6; 22; 38;
   22; 38; 22; 6; 224; 0; 229; 19; 96; 101; 54; 224; 3; 187; 76; 54; 13; 54; 47; 230; 3; 22; 27;
   86; 229; 24; 4; 229; 2; 230; 13; 233; 2; 118; 37; 6; 229; 91; 22; 5; 198; 27; 15; 166; 36; 38;
   15; 102; 37; 233; 2; 69; 47; 5; 246; 6; 0; 27; 5; 6; 229; 22; 230; 19; 32; 229; 81; 230; 3; 5;
   224; 6; 233; 2; 229; 25; 230; 1; 36; 15; 86; 4; 32; 6; 45; 229; 14; 102; 4; 230; 1; 4; 70; 4;
   134; 32; 246; 7; 0; 229; 17; 70; 32; 22; 0; 229; 3; 128; 229; 16; 14; 165; 0; 59; 128; 230; 1;
   229; 33; 4; 230; 16; 27; 230; 24; 7; 229; 46; 6; 7; 6; 5; 71; 230; 0; 103; 6; 39; 5; 198; 229;
   2; 38; 54; 233; 2; 22; 4; 229; 7; 6; 39; 0; 229; 0; 32; 37; 32; 229; 14; 0; 197; 0; 5; 64;
   101; 32; 6; 5; 71; 102; 32; 39; 32; 39; 6; 5; 224; 0; 7; 96; 37; 0; 69; 38; 32; 233; 2; 37;
   45; 171; 15; 13; 5; 22; 6; 32; 38; 7; 0; 165; 96; 37; 32; 229; 14; 0; 197; 0; 37; 0; 37; 0;
   37; 32; 6; 0; 71; 38; 96; 38; 32; 70; 64; 6; 192; 101; 0; 5; 192; 233; 2; 38; 69; 6; 22; 224;
   2; 38; 7; 0; 229; 1; 0; 69; 0; 229; 14; 0; 197; 0; 37; 0; 133; 32; 6; 5; 71; 134; 0; 38; 7; 0;
   39; 6; 32; 5; 224; 7; 37; 38; 32; 233; 2; 22; 13; 192; 5; 166; 0; 6; 39; 0; 229; 0; 32; 37;
   32; 229; 14; 0; 197; 0; 37; 0; 133; 32; 6; 5; 7; 6; 7; 102; 32; 39; 32; 39; 6; 192; 38; 7; 96;
   37; 0; 69; 38; 32; 233; 2; 15; 5; 171; 224; 2; 6; 5; 0; 165; 64; 69; 0; 101; 64; 37; 0; 5; 0;
   37; 64; 37; 64; 69; 64; 229; 4; 96; 39; 6; 39; 64; 71; 0; 71; 6; 32; 5; 160; 7; 224; 6; 233;
   2; 75; 175; 13; 15; 128; 6; 71; 6; 229; 0; 0; 69; 0; 229; 15; 0; 229; 8; 32; 6; 5; 70; 103; 0;
   70; 0; 102; 192; 38; 0; 69; 32; 5; 32; 37; 38; 32; 233; 2; 192; 22; 203; 15; 5; 6; 39; 22;
   229; 0; 0; 69; 0; 229; 15; 0; 229; 2; 0; 133; 32; 6; 5; 7; 6; 135; 0; 6; 39; 0; 39; 38; 192;
   39; 160; 37; 0; 37; 38; 32; 233; 2; 0; 37; 7; 224; 4; 38; 39; 229; 1; 0; 69; 0; 229; 33; 38;
   5; 71; 102; 0; 71; 0; 71; 6; 5; 15; 96; 69; 7; 203; 69; 38; 32; 233; 2; 235; 1; 15; 165; 0; 6;
   39; 0; 229; 10; 64; 229; 16; 0; 229; 1; 0; 5; 32; 197; 64; 6; 96; 71; 70; 0; 6; 0; 231; 0;
   160; 233; 2; 32; 39; 22; 224; 4; 229; 40; 6; 37; 198; 96; 13; 165; 4; 230; 0; 22; 233; 2; 54;
   224; 29; 37; 0; 5; 0; 133; 0; 229; 16; 0; 5; 0; 229; 2; 6; 37; 230; 1; 5; 32; 133; 0; 4; 0;
   198; 0; 233; 2; 32; 101; 224; 24; 5; 79; 246; 7; 15; 22; 79; 38; 175; 233; 2; 235; 2; 15; 6;
   15; 6; 15; 6; 18; 19; 18; 19; 39; 229; 0; 0; 229; 28; 96; 230; 6; 7; 134; 22; 38; 133; 230; 3;
   0; 230; 28; 0; 239; 0; 6; 175; 0; 47; 150; 111; 54; 224; 29; 229; 35; 39; 102; 7; 166; 7; 38;
   39; 38; 5; 233; 2; 182; 165; 39; 38; 101; 70; 5; 71; 37; 199; 69; 102; 229; 5; 6; 39; 38; 167;
   6; 5; 7; 233; 2; 71; 6; 47; 225; 30; 0; 1; 128; 1; 32; 226; 35; 22; 4; 66; 229; 128; 193; 0;
   101; 32; 197; 0; 5; 0; 101; 32; 229; 33; 0; 101; 32; 229; 25; 0; 101; 32; 197; 0; 5; 0; 101;
   32; 229; 7; 0; 229; 49; 0; 101; 32; 229; 59; 32; 70; 246; 1; 235; 12; 64; 229; 8; 239; 2; 160;
   225; 78; 32; 162; 32; 17; 229; 129; 228; 15; 22; 229; 9; 23; 229; 18; 18; 19; 64; 229; 67; 86;
   74; 229; 0; 192; 229; 10; 70; 7; 224; 1; 229; 11; 38; 7; 54; 224; 1; 229; 10; 38; 224; 4; 229;
   5; 0; 69; 0; 38; 224; 4; 229; 44; 38; 7; 198; 231; 0; 6; 39; 230; 3; 86; 4; 86; 13; 5; 6; 32;
   233; 2; 160; 235; 2; 160; 182; 17; 118; 70; 27; 6; 233; 2; 160; 229; 27; 4; 229; 45; 192; 133;
   38; 229; 26; 6; 5; 128; 229; 62; 224; 2; 229; 23; 0; 70; 103; 38; 71; 96; 39; 6; 167; 70; 96;
   15; 64; 54; 233; 2; 229; 22; 32; 133; 224; 3; 229; 36; 96; 229; 18; 160; 233; 2; 11; 64; 239;
   26; 229; 15; 38; 39; 6; 32; 54; 229; 45; 7; 6; 7; 198; 0; 6; 7; 6; 39; 230; 0; 167; 230; 2;
   32; 6; 233; 2; 160; 233; 2; 160; 214; 4; 182; 32; 230; 6; 8; 230; 8; 224; 41; 102; 7; 229; 39;
   6; 7; 134; 7; 6; 135; 6; 39; 229; 0; 0; 54; 233; 2; 214; 239; 2; 230; 1; 239; 1; 86; 38; 7;
   229; 22; 7; 102; 39; 38; 7; 70; 37; 233; 2; 229; 36; 6; 7; 38; 71; 6; 7; 70; 39; 224; 0; 118;
   229; 28; 231; 0; 230; 0; 39; 38; 64; 150; 233; 2; 64; 69; 233; 2; 229; 22; 164; 54; 226; 1;
   63; 128; 225; 35; 32; 65; 246; 0; 224; 0; 70; 22; 230; 5; 7; 198; 101; 6; 165; 6; 37; 7; 38;
   5; 128; 226; 36; 228; 55; 226; 5; 4; 226; 26; 228; 29; 230; 56; 255; 128; 14; 226; 0; 255; 90;
   226; 0; 225; 0; 162; 32; 161; 32; 226; 0; 225; 0; 226; 0; 225; 0; 162; 32; 161; 32; 226; 0; 0;
   1; 0; 1; 0; 1; 0; 63; 194; 225; 0; 226; 6; 32; 226; 0; 227; 0; 226; 0; 227; 0; 226; 0; 227; 0;
   130; 0; 34; 97; 3; 14; 2; 78; 66; 0; 34; 97; 3; 78; 98; 32; 34; 97; 0; 78; 226; 0; 129; 78;
   32; 66; 0; 34; 97; 3; 46; 0; 247; 3; 155; 177; 54; 20; 21; 18; 52; 21; 18; 20; 246; 0; 24; 25;
   155; 23; 246; 1; 20; 21; 118; 48; 86; 12; 18; 19; 246; 3; 12; 22; 16; 246; 2; 23; 155; 0; 251;
   2; 11; 4; 32; 171; 76; 18; 19; 4; 235; 2; 76; 18; 19; 0; 228; 5; 64; 237; 25; 224; 7; 230; 5;
   104; 6; 72; 230; 4; 224; 7; 47; 1; 111; 1; 47; 2; 65; 34; 65; 2; 15; 1; 47; 12; 129; 175; 1;
   15; 1; 15; 1; 15; 97; 15; 2; 97; 2; 101; 2; 47; 34; 33; 140; 63; 66; 15; 12; 47; 2; 15; 235;
   8; 234; 27; 63; 106; 11; 47; 96; 140; 143; 44; 111; 12; 47; 12; 47; 12; 207; 12; 239; 23; 44;
   47; 12; 15; 12; 239; 23; 236; 128; 132; 239; 0; 18; 19; 18; 19; 239; 12; 44; 207; 18; 19; 239;
   73; 12; 239; 22; 236; 17; 239; 32; 172; 239; 64; 224; 14; 239; 3; 224; 13; 235; 52; 239; 70;
   235; 14; 239; 128; 47; 12; 239; 1; 12; 239; 46; 236; 0; 239; 103; 12; 239; 128; 112; 18; 19;
   18; 19; 18; 19; 18; 19; 18; 19; 18; 19; 18; 19; 235; 22; 239; 36; 140; 18; 19; 236; 23; 18;
   19; 18; 19; 18; 19; 18; 19; 18; 19; 236; 8; 239; 128; 120; 236; 123; 18; 19; 18; 19; 18; 19;
   18; 19; 18; 19; 18; 19; 18; 19; 18; 19; 18; 19; 18; 19; 18; 19; 236; 55; 18; 19; 18; 19; 236;
   24; 18; 19; 236; 128; 122; 239; 40; 236; 13; 47; 172; 239; 31; 32; 239; 24; 0; 239; 97; 225;
   40; 226; 40; 95; 33; 34; 223; 65; 2; 63; 2; 63; 130; 36; 65; 2; 255; 90; 2; 175; 127; 70; 63;
   128; 118; 11; 54; 226; 30; 0; 2; 128; 2; 32; 229; 48; 192; 4; 22; 224; 6; 6; 229; 15; 224; 1;
   197; 0; 197; 0; 197; 0; 197; 0; 197; 0; 197; 0; 197; 0; 197; 0; 230; 24; 54; 20; 21; 20; 21;
   86; 20; 21; 22; 20; 21; 246; 1; 17; 54; 17; 22; 20; 21; 54; 20; 21; 18; 19; 18; 19; 18; 19;
   18; 19; 150; 4; 246; 2; 49; 118; 17; 22; 18; 246; 5; 47; 86; 18; 19; 18; 19; 18; 19; 18; 19;
   17; 224; 26; 239; 18; 0; 239; 81; 224; 4; 239; 128; 78; 224; 18; 239; 8; 23; 86; 15; 4; 5; 10;
   18; 19; 18; 19; 18; 19; 18; 19; 18; 19; 47; 18; 19; 18; 19; 18; 19; 18; 19; 17; 18; 51; 15;
   234; 1; 102; 39; 17; 132; 47; 74; 4; 5; 22; 47; 0; 229; 78; 32; 38; 46; 36; 5; 17; 229; 82;
   22; 68; 5; 128; 229; 35; 0; 229; 86; 0; 47; 107; 239; 2; 229; 24; 239; 30; 224; 1; 15; 229; 8;
   239; 23; 0; 235; 2; 239; 22; 235; 0; 15; 235; 7; 239; 24; 235; 2; 239; 31; 235; 7; 239; 128;
   184; 229; 153; 56; 239; 56; 229; 192; 17; 141; 4; 229; 131; 239; 64; 239; 47; 224; 1; 229; 32;
   164; 54; 229; 128; 132; 4; 86; 229; 8; 233; 2; 37; 224; 12; 255; 38; 5; 6; 72; 22; 230; 2; 22;
   4; 255; 20; 36; 38; 229; 62; 234; 2; 38; 182; 224; 0; 238; 15; 228; 1; 46; 255; 6; 34; 255;
   54; 4; 226; 0; 159; 255; 2; 4; 46; 127; 5; 127; 34; 255; 13; 97; 2; 129; 2; 255; 7; 65; 2; 95;
   63; 32; 63; 0; 2; 0; 2; 223; 224; 13; 68; 63; 5; 36; 2; 197; 6; 69; 6; 101; 6; 229; 15; 39;
   38; 7; 111; 6; 64; 171; 47; 13; 15; 160; 229; 44; 118; 224; 0; 39; 229; 42; 231; 8; 38; 224;
   0; 54; 233; 2; 160; 230; 10; 165; 86; 5; 22; 37; 6; 233; 2; 229; 20; 230; 0; 54; 229; 15; 230;
   3; 39; 224; 3; 22; 229; 21; 64; 70; 7; 229; 39; 6; 39; 102; 39; 38; 71; 246; 5; 0; 4; 233; 2;
   96; 54; 133; 6; 4; 229; 1; 233; 2; 133; 0; 229; 33; 166; 39; 38; 39; 38; 224; 1; 69; 6; 229;
   0; 6; 7; 32; 233; 2; 32; 118; 229; 8; 4; 165; 79; 5; 7; 6; 7; 229; 42; 6; 5; 70; 37; 38; 133;
   38; 5; 6; 5; 224; 16; 37; 4; 54; 229; 3; 7; 38; 39; 54; 5; 36; 7; 6; 224; 2; 165; 32; 165; 32;
   165; 224; 1; 197; 0; 197; 0; 226; 35; 14; 100; 226; 1; 4; 46; 96; 226; 72; 229; 27; 39; 6; 39;
   6; 39; 22; 7; 6; 32; 233; 2; 160; 229; 171; 28; 224; 4; 229; 15; 96; 229; 41; 96; 252; 135;
   120; 253; 152; 120; 229; 128; 230; 32; 229; 98; 224; 30; 194; 224; 4; 130; 128; 5; 6; 229; 2;
   12; 229; 5; 0; 133; 0; 5; 0; 37; 0; 37; 0; 229; 100; 238; 9; 224; 8; 229; 128; 227; 19; 18;
   239; 8; 229; 56; 32; 229; 46; 192; 15; 224; 24; 229; 4; 13; 79; 230; 8; 214; 18; 19; 22; 160;
   230; 8; 22; 49; 48; 18; 19; 18; 19; 18; 19; 18; 19; 18; 19; 18; 19; 18; 19; 18; 19; 54; 18;
   19; 118; 80; 86; 0; 118; 17; 18; 19; 18; 19; 18; 19; 86; 12; 17; 76; 0; 22; 13; 54; 96; 133;
   0; 229; 127; 32; 27; 0; 86; 13; 86; 18; 19; 22; 12; 22; 17; 54; 233; 2; 54; 76; 54; 225; 18;
   18; 22; 19; 14; 16; 14; 226; 18; 18; 12; 19; 12; 18; 19; 22; 18; 19; 54; 229; 2; 4; 229; 37;
   36; 229; 23; 64; 165; 32; 165; 32; 165; 32; 69; 64; 45; 12; 14; 15; 45; 0; 15; 108; 47; 224;
   2; 91; 47; 32; 229; 4; 0; 229; 18; 0; 229; 11; 0; 37; 0; 229; 7; 32; 229; 6; 224; 26; 229;
   115; 128; 86; 96; 235; 37; 64; 239; 1; 234; 45; 107; 239; 9; 43; 79; 0; 239; 5; 64; 15; 224;
   39; 239; 37; 6; 224; 122; 229; 21; 64; 229; 41; 224; 7; 6; 235; 19; 96; 229; 24; 107; 224; 1;
   229; 12; 10; 229; 0; 10; 128; 229; 30; 134; 128; 229; 22; 0; 22; 229; 28; 96; 229; 0; 22; 138;
   224; 34; 225; 32; 226; 32; 229; 70; 32; 233; 2; 160; 225; 28; 96; 226; 28; 96; 229; 32; 224;
   0; 229; 44; 224; 3; 22; 225; 3; 0; 225; 7; 0; 193; 0; 33; 0; 226; 3; 0; 226; 7; 0; 194; 0; 34;
   64; 229; 44; 224; 4; 229; 128; 175; 224; 1; 229; 14; 224; 2; 229; 0; 224; 16; 164; 0; 228; 34;
   0; 228; 1; 224; 61; 165; 32; 5; 0; 229; 36; 0; 37; 64; 5; 32; 229; 15; 0; 22; 235; 0; 229; 15;
   47; 203; 229; 23; 224; 0; 235; 1; 224; 40; 229; 11; 0; 37; 128; 139; 229; 14; 171; 64; 22;
   229; 18; 128; 22; 224; 56; 229; 48; 96; 43; 37; 235; 8; 32; 235; 38; 5; 70; 0; 38; 128; 102;
   101; 0; 69; 0; 229; 21; 32; 70; 96; 6; 235; 1; 192; 246; 1; 192; 229; 21; 43; 22; 229; 21; 75;
   224; 24; 229; 0; 15; 229; 20; 38; 96; 139; 214; 224; 1; 229; 46; 64; 214; 229; 14; 32; 235; 0;
   229; 11; 128; 235; 0; 229; 10; 192; 118; 224; 4; 203; 224; 72; 229; 65; 224; 47; 225; 43; 224;
   5; 226; 43; 192; 171; 229; 28; 102; 224; 0; 233; 2; 160; 233; 2; 101; 4; 5; 225; 14; 64; 134;
   17; 4; 226; 14; 224; 0; 44; 224; 128; 72; 235; 23; 0; 229; 34; 0; 38; 17; 32; 37; 224; 8; 69;
   224; 47; 102; 229; 21; 235; 2; 5; 224; 0; 229; 14; 230; 3; 107; 150; 224; 14; 229; 10; 102;
   118; 224; 30; 229; 13; 203; 224; 12; 229; 15; 224; 1; 7; 6; 7; 229; 45; 230; 7; 214; 96; 235;
   12; 233; 2; 6; 37; 38; 5; 224; 1; 70; 7; 229; 37; 71; 102; 39; 38; 54; 27; 118; 6; 224; 2; 27;
   32; 229; 17; 192; 233; 2; 160; 70; 229; 28; 134; 7; 230; 0; 0; 233; 2; 118; 5; 39; 5; 224; 0;
   229; 27; 6; 54; 5; 224; 1; 38; 7; 229; 40; 71; 230; 1; 39; 101; 118; 102; 22; 7; 6; 233; 2; 5;
   22; 5; 86; 0; 235; 12; 224; 3; 229; 10; 0; 229; 17; 71; 70; 39; 6; 7; 38; 182; 6; 37; 6; 224;
   54; 197; 0; 5; 0; 101; 0; 229; 7; 0; 229; 2; 22; 160; 229; 39; 6; 71; 230; 0; 128; 233; 2;
   160; 38; 39; 0; 229; 0; 32; 37; 32; 229; 14; 0; 197; 0; 37; 0; 133; 0; 38; 5; 39; 6; 103; 32;
   39; 32; 71; 32; 5; 160; 7; 128; 133; 39; 32; 198; 64; 134; 224; 3; 229; 2; 0; 5; 32; 5; 0;
   229; 30; 0; 5; 71; 166; 0; 7; 32; 7; 0; 103; 0; 39; 6; 7; 6; 5; 6; 5; 54; 0; 54; 224; 0; 38;
   224; 21; 229; 45; 71; 230; 0; 39; 70; 7; 6; 101; 150; 233; 2; 54; 0; 22; 6; 69; 224; 22; 229;
   40; 71; 166; 7; 6; 103; 38; 7; 38; 37; 22; 5; 224; 0; 233; 2; 224; 128; 30; 229; 39; 71; 102;
   32; 103; 38; 7; 38; 246; 15; 101; 38; 224; 26; 229; 40; 71; 230; 0; 39; 6; 7; 38; 86; 5; 224;
   3; 233; 2; 160; 246; 5; 224; 11; 229; 35; 6; 7; 6; 39; 166; 7; 6; 5; 22; 160; 233; 2; 160;
   233; 12; 224; 20; 229; 19; 32; 6; 7; 6; 39; 102; 7; 134; 96; 233; 2; 43; 86; 15; 197; 224;
   128; 49; 229; 36; 71; 230; 1; 7; 38; 22; 224; 92; 225; 24; 226; 24; 233; 2; 235; 1; 224; 4;
   229; 0; 32; 5; 32; 229; 0; 0; 37; 0; 229; 16; 167; 0; 39; 32; 38; 7; 6; 5; 7; 5; 7; 6; 86;
   224; 1; 233; 2; 224; 62; 229; 0; 32; 229; 31; 71; 102; 32; 38; 103; 6; 5; 22; 5; 7; 224; 19;
   5; 230; 2; 229; 32; 166; 7; 5; 102; 246; 0; 6; 224; 0; 5; 166; 39; 70; 229; 38; 230; 5; 7; 38;
   86; 5; 150; 224; 5; 229; 65; 192; 246; 2; 224; 128; 46; 229; 25; 22; 224; 6; 233; 2; 160; 229;
   1; 0; 229; 29; 7; 198; 0; 166; 7; 6; 5; 150; 224; 2; 233; 2; 235; 11; 64; 54; 229; 22; 32;
   230; 14; 0; 7; 198; 7; 38; 7; 38; 224; 65; 197; 0; 37; 0; 229; 30; 166; 64; 6; 0; 38; 0; 198;
   5; 6; 224; 0; 233; 2; 160; 165; 0; 37; 0; 229; 24; 135; 0; 38; 0; 39; 6; 7; 6; 5; 192; 233; 2;
   224; 128; 174; 229; 11; 38; 39; 54; 192; 38; 5; 7; 229; 5; 0; 229; 26; 39; 134; 64; 39; 6; 7;
   6; 246; 5; 233; 2; 6; 224; 77; 5; 224; 7; 235; 13; 239; 0; 109; 239; 9; 224; 5; 22; 229; 131;
   18; 224; 94; 234; 103; 0; 150; 224; 3; 229; 128; 60; 224; 137; 196; 229; 89; 54; 224; 5; 229;
   131; 168; 251; 8; 6; 165; 230; 7; 224; 2; 229; 143; 19; 128; 229; 129; 191; 224; 154; 49; 229;
   22; 230; 4; 71; 70; 233; 2; 224; 134; 62; 229; 129; 177; 192; 229; 23; 0; 233; 2; 96; 54; 229;
   71; 0; 233; 2; 160; 229; 22; 32; 134; 22; 224; 2; 229; 40; 198; 150; 111; 100; 22; 15; 224; 2;
   233; 2; 0; 203; 0; 229; 13; 128; 229; 11; 224; 129; 40; 68; 229; 32; 36; 86; 233; 2; 224; 128;
   62; 225; 24; 226; 24; 235; 15; 118; 224; 93; 229; 67; 96; 6; 5; 231; 47; 192; 102; 228; 5;
   224; 56; 36; 22; 4; 6; 224; 3; 39; 224; 6; 229; 151; 112; 224; 0; 229; 132; 78; 224; 33; 229;
   2; 224; 162; 95; 100; 0; 196; 0; 36; 0; 229; 128; 155; 224; 7; 5; 224; 21; 69; 32; 5; 224; 6;
   101; 224; 0; 229; 129; 4; 224; 136; 124; 229; 99; 128; 229; 5; 64; 229; 1; 192; 229; 2; 32;
   15; 38; 22; 123; 224; 142; 212; 239; 128; 104; 233; 2; 160; 239; 129; 44; 224; 68; 230; 38;
   32; 230; 15; 224; 1; 239; 108; 224; 52; 239; 128; 110; 224; 2; 239; 31; 32; 239; 52; 39; 70;
   79; 167; 251; 0; 230; 0; 47; 198; 239; 22; 102; 239; 53; 224; 13; 239; 58; 70; 15; 224; 114;
   235; 12; 224; 4; 235; 12; 224; 4; 239; 79; 224; 1; 235; 17; 224; 127; 225; 18; 226; 18; 225;
   18; 194; 0; 226; 10; 225; 18; 226; 18; 1; 0; 33; 32; 1; 32; 33; 32; 97; 0; 225; 0; 98; 0; 2;
   0; 194; 0; 226; 3; 225; 18; 226; 18; 33; 0; 97; 32; 225; 0; 0; 193; 0; 226; 18; 33; 0; 97; 0;
   129; 0; 1; 64; 193; 0; 226; 18; 225; 18; 226; 18; 225; 18; 226; 18; 225; 18; 226; 18; 225; 18;
   226; 18; 225; 18; 226; 18; 225; 18; 226; 20; 32; 225; 17; 12; 226; 17; 12; 162; 225; 17; 12;
   226; 17; 12; 162; 225; 17; 12; 226; 17; 12; 162; 225; 17; 12; 226; 17; 12; 162; 225; 17; 12;
   226; 17; 12; 162; 63; 32; 233; 42; 239; 129; 120; 230; 47; 111; 230; 42; 239; 0; 6; 239; 6; 6;
   47; 150; 224; 7; 134; 0; 230; 7; 224; 131; 200; 226; 2; 5; 226; 12; 160; 162; 224; 128; 77;
   198; 0; 230; 9; 32; 198; 0; 38; 0; 134; 128; 228; 54; 224; 25; 6; 224; 104; 229; 37; 64; 198;
   196; 32; 233; 2; 96; 5; 15; 224; 128; 184; 229; 22; 6; 224; 9; 229; 36; 102; 233; 2; 128; 13;
   224; 129; 72; 229; 19; 4; 102; 233; 2; 224; 128; 78; 229; 22; 38; 5; 233; 2; 96; 22; 224; 129;
   88; 197; 0; 101; 0; 37; 0; 229; 7; 0; 229; 128; 61; 32; 235; 1; 198; 224; 33; 225; 26; 226;
   26; 198; 4; 96; 233; 2; 96; 54; 224; 130; 137; 235; 51; 15; 75; 13; 107; 224; 68; 235; 37; 15;
   235; 7; 224; 128; 58; 101; 0; 229; 19; 0; 37; 0; 5; 32; 5; 0; 229; 2; 0; 101; 0; 5; 0; 5; 160;
   5; 96; 5; 0; 5; 0; 5; 0; 69; 0; 37; 0; 5; 32; 5; 0; 5; 0; 5; 0; 5; 0; 5; 0; 37; 0; 5; 32; 101;
   0; 197; 0; 101; 0; 101; 0; 5; 0; 229; 2; 0; 229; 9; 128; 69; 0; 133; 0; 229; 9; 224; 44; 44;
   224; 128; 134; 239; 36; 96; 239; 92; 224; 4; 239; 7; 32; 239; 7; 0; 239; 7; 0; 239; 29; 224;
   2; 235; 5; 239; 128; 25; 224; 48; 239; 21; 224; 5; 239; 36; 96; 239; 1; 192; 47; 224; 6; 175;
   224; 128; 18; 239; 128; 115; 142; 239; 130; 80; 96; 239; 9; 64; 239; 5; 64; 239; 111; 96; 239;
   87; 160; 239; 4; 96; 15; 224; 7; 239; 4; 96; 239; 48; 224; 0; 239; 2; 160; 239; 32; 224; 0;
   239; 22; 32; 239; 4; 96; 47; 224; 54; 239; 128; 204; 224; 4; 239; 6; 32; 239; 5; 64; 239; 2;
   128; 239; 48; 192; 239; 7; 32; 239; 3; 160; 239; 1; 192; 239; 128; 11; 0; 239; 84; 233; 2;
   224; 131; 126; 229; 192; 102; 88; 224; 24; 229; 143; 178; 160; 229; 128; 86; 32; 229; 149;
   250; 224; 6; 229; 156; 169; 224; 7; 229; 129; 230; 224; 137; 26; 229; 129; 150; 224; 133; 90;
   229; 146; 195; 128; 229; 143; 216; 224; 202; 155; 201; 27; 224; 22; 251; 88; 224; 120; 230;
   128; 104; 224; 192; 189; 136; 253; 192; 191; 118; 32; 253; 192; 191; 118; 32].

(** [UnicodeScriptEnum]. *)
Definition UNICODE_SCRIPT_Unknown : Z := 0.
Definition UNICODE_SCRIPT_Adlam : Z := 1.
Definition UNICODE_SCRIPT_Ahom : Z := 2.
Definition UNICODE_SCRIPT_Anatolian_Hieroglyphs : Z := 3.
Definition UNICODE_SCRIPT_Arabic : Z := 4.
Definition UNICODE_SCRIPT_Armenian : Z := 5.
Definition UNICODE_SCRIPT_Avestan : Z := 6.
Definition UNICODE_SCRIPT_Balinese : Z := 7.
Definition UNICODE_SCRIPT_Bamum : Z := 8.
Definition UNICODE_SCRIPT_Bassa_Vah : Z := 9.
Definition UNICODE_SCRIPT_Batak : Z := 10.
Definition UNICODE_SCRIPT_Bengali : Z := 11.
Definition UNICODE_SCRIPT_Bhaiksuki : Z := 12.
Definition UNICODE_SCRIPT_Bopomofo : Z := 13.
Definition UNICODE_SCRIPT_Brahmi : Z := 14.
Definition UNICODE_SCRIPT_Braille : Z := 15.
Definition UNICODE_SCRIPT_Buginese : Z := 16.
Definition UNICODE_SCRIPT_Buhid : Z := 17.
Definition UNICODE_SCRIPT_Canadian_Aboriginal : Z := 18.
Definition UNICODE_SCRIPT_Carian : Z := 19.
Definition UNICODE_SCRIPT_Caucasian_Albanian : Z := 20.
Definition UNICODE_SCRIPT_Chakma : Z := 21.
Definition UNICODE_SCRIPT_Cham : Z := 22.
Definition UNICODE_SCRIPT_Cherokee : Z := 23.
Definition UNICODE_SCRIPT_Chorasmian : Z := 24.
Definition UNICODE_SCRIPT_Common : Z := 25.
Definition UNICODE_SCRIPT_Coptic : Z := 26.
Definition UNICODE_SCRIPT_Cuneiform : Z := 27.
Definition UNICODE_SCRIPT_Cypriot : Z := 28.
Definition UNICODE_SCRIPT_Cyrillic : Z := 29.
Definition UNICODE_SCRIPT_Cypro_Minoan : Z := 30.
Definition UNICODE_SCRIPT_Deseret : Z := 31.
Definition UNICODE_SCRIPT_Devanagari : Z := 32.
Definition UNICODE_SCRIPT_Dives_Akuru : Z := 33.
Definition UNICODE_SCRIPT_Dogra : Z := 34.
Definition UNICODE_SCRIPT_Duployan : Z := 35.
Definition UNICODE_SCRIPT_Egyptian_Hieroglyphs : Z := 36.
Definition UNICODE_SCRIPT_Elbasan : Z := 37.
Definition UNICODE_SCRIPT_Elymaic : Z := 38.
Definition UNICODE_SCRIPT_Ethiopic : Z := 39.
Definition UNICODE_SCRIPT_Georgian : Z := 40.
Definition UNICODE_SCRIPT_Glagolitic : Z := 41.
Definition UNICODE_SCRIPT_Gothic : Z := 42.
Definition UNICODE_SCRIPT_Garay : Z := 43.
Definition UNICODE_SCRIPT_Grantha : Z := 44.
Definition UNICODE_SCRIPT_Greek : Z := 45.
Definition UNICODE_SCRIPT_Gujarati : Z := 46.
Definition UNICODE_SCRIPT_Gunjala_Gondi : Z := 47.
Definition UNICODE_SCRIPT_Gurmukhi : Z := 48.
Definition UNICODE_SCRIPT_Gurung_Khema : Z := 49.
Definition UNICODE_SCRIPT_Han : Z := 50.
Definition UNICODE_SCRIPT_Hangul : Z := 51.
Definition UNICODE_SCRIPT_Hanifi_Rohingya : Z := 52.
Definition UNICODE_SCRIPT_Hanunoo : Z := 53.
Definition UNICODE_SCRIPT_Hatran : Z := 54.
Definition UNICODE_SCRIPT_Hebrew : Z := 55.
Definition UNICODE_SCRIPT_Hiragana : Z := 56.
Definition UNICODE_SCRIPT_Imperial_Aramaic : Z := 57.
Definition UNICODE_SCRIPT_Inherited : Z := 58.
Definition UNICODE_SCRIPT_Inscriptional_Pahlavi : Z := 59.
Definition UNICODE_SCRIPT_Inscriptional_Parthian : Z := 60.
Definition UNICODE_SCRIPT_Javanese : Z := 61.
Definition UNICODE_SCRIPT_Kaithi : Z := 62.
Definition UNICODE_SCRIPT_Kannada : Z := 63.
Definition UNICODE_SCRIPT_Katakana : Z := 64.
Definition UNICODE_SCRIPT_Kawi : Z := 65.
Definition UNICODE_SCRIPT_Kayah_Li : Z := 66.
Definition UNICODE_SCRIPT_Kharoshthi : Z := 67.
Definition UNICODE_SCRIPT_Khmer : Z := 68.
Definition UNICODE_SCRIPT_Khojki : Z := 69.
Definition UNICODE_SCRIPT_Khitan_Small_Script : Z := 70.
Definition UNICODE_SCRIPT_Khudawadi : Z := 71.
Definition UNICODE_SCRIPT_Kirat_Rai : Z := 72.
Definition UNICODE_SCRIPT_Lao : Z := 73.
Definition UNICODE_SCRIPT_Latin : Z := 74.
Definition UNICODE_SCRIPT_Lepcha : Z := 75.
Definition UNICODE_SCRIPT_Limbu : Z := 76.
Definition UNICODE_SCRIPT_Linear_A : Z := 77.
Definition UNICODE_SCRIPT_Linear_B : Z := 78.
Definition UNICODE_SCRIPT_Lisu : Z := 79.
Definition UNICODE_SCRIPT_Lycian : Z := 80.
Definition UNICODE_SCRIPT_Lydian : Z := 81.
Definition UNICODE_SCRIPT_Makasar : Z := 82.
Definition UNICODE_SCRIPT_Mahajani : Z := 83.
Definition UNICODE_SCRIPT_Malayalam : Z := 84.
Definition UNICODE_SCRIPT_Mandaic : Z := 85.
Definition UNICODE_SCRIPT_Manichaean : Z := 86.
Definition UNICODE_SCRIPT_Marchen : Z := 87.
Definition UNICODE_SCRIPT_Masaram_Gondi : Z := 88.
Definition UNICODE_SCRIPT_Medefaidrin : Z := 89.
Definition UNICODE_SCRIPT_Meetei_Mayek : Z := 90.
Definition UNICODE_SCRIPT_Mende_Kikakui : Z := 91.
Definition UNICODE_SCRIPT_Meroitic_Cursive : Z := 92.
Definition UNICODE_SCRIPT_Meroitic_Hieroglyphs : Z := 93.
Definition UNICODE_SCRIPT_Miao : Z := 94.
Definition UNICODE_SCRIPT_Modi : Z := 95.
Definition UNICODE_SCRIPT_Mongolian : Z := 96.
Definition UNICODE_SCRIPT_Mro : Z := 97.
Definition UNICODE_SCRIPT_Multani : Z := 98.
Definition UNICODE_SCRIPT_Myanmar : Z := 99.
Definition UNICODE_SCRIPT_Nabataean : Z := 100.
Definition UNICODE_SCRIPT_Nag_Mundari : Z := 101.
Definition UNICODE_SCRIPT_Nandinagari : Z := 102.
Definition UNICODE_SCRIPT_New_Tai_Lue : Z := 103.
Definition UNICODE_SCRIPT_Newa : Z := 104.
Definition UNICODE_SCRIPT_Nko : Z := 105.
Definition UNICODE_SCRIPT_Nushu : Z := 106.
Definition UNICODE_SCRIPT_Nyiakeng_Puachue_Hmong : Z := 107.
Definition UNICODE_SCRIPT_Ogham : Z := 108.
Definition UNICODE_SCRIPT_Ol_Chiki : Z := 109.
Definition UNICODE_SCRIPT_Ol_Onal : Z := 110.
Definition UNICODE_SCRIPT_Old_Hungarian : Z := 111.
Definition UNICODE_SCRIPT_Old_Italic : Z := 112.
Definition UNICODE_SCRIPT_Old_North_Arabian : Z := 113.
Definition UNICODE_SCRIPT_Old_Permic : Z := 114.
Definition UNICODE_SCRIPT_Old_Persian : Z := 115.
Definition UNICODE_SCRIPT_Old_Sogdian : Z := 116.
Definition UNICODE_SCRIPT_Old_South_Arabian : Z := 117.
Definition UNICODE_SCRIPT_Old_Turkic : Z := 118.
Definition UNICODE_SCRIPT_Old_Uyghur : Z := 119.
Definition UNICODE_SCRIPT_Oriya : Z := 120.
Definition UNICODE_SCRIPT_Osage : Z := 121.
Definition UNICODE_SCRIPT_Osmanya : Z := 122.
Definition UNICODE_SCRIPT_Pahawh_Hmong : Z := 123.
Definition UNICODE_SCRIPT_Palmyrene : Z := 124.
Definition UNICODE_SCRIPT_Pau_Cin_Hau : Z := 125.
Definition UNICODE_SCRIPT_Phags_Pa : Z := 126.
Definition UNICODE_SCRIPT_Phoenician : Z := 127.
Definition UNICODE_SCRIPT_Psalter_Pahlavi : Z := 128.
Definition UNICODE_SCRIPT_Rejang : Z := 129.
Definition UNICODE_SCRIPT_Runic : Z := 130.
Definition UNICODE_SCRIPT_Samaritan : Z := 131.
Definition UNICODE_SCRIPT_Saurashtra : Z := 132.
Definition UNICODE_SCRIPT_Sharada : Z := 133.
Definition UNICODE_SCRIPT_Shavian : Z := 134.
Definition UNICODE_SCRIPT_Siddham : Z := 135.
Definition UNICODE_SCRIPT_SignWriting : Z := 136.
Definition UNICODE_SCRIPT_Sinhala : Z := 137.
Definition UNICODE_SCRIPT_Sogdian : Z := 138.
Definition UNICODE_SCRIPT_Sora_Sompeng : Z := 139.
Definition UNICODE_SCRIPT_Soyombo : Z := 140.
Definition UNICODE_SCRIPT_Sundanese : Z := 141.
Definition UNICODE_SCRIPT_Sunuwar : Z := 142.
Definition UNICODE_SCRIPT_Syloti_Nagri : Z := 143.
Definition UNICODE_SCRIPT_Syriac : Z := 144.
Definition UNICODE_SCRIPT_Tagalog : Z := 145.
Definition UNICODE_SCRIPT_Tagbanwa : Z := 146.
Definition UNICODE_SCRIPT_Tai_Le : Z := 147.
Definition UNICODE_SCRIPT_Tai_Tham : Z := 148.
Definition UNICODE_SCRIPT_Tai_Viet : Z := 149.
Definition UNICODE_SCRIPT_Takri : Z := 150.
Definition UNICODE_SCRIPT_Tamil : Z := 151.
Definition UNICODE_SCRIPT_Tangut : Z := 152.
Definition UNICODE_SCRIPT_Telugu : Z := 153.
Definition UNICODE_SCRIPT_Thaana : Z := 154.
Definition UNICODE_SCRIPT_Thai : Z := 155.
Definition UNICODE_SCRIPT_Tibetan : Z := 156.
Definition UNICODE_SCRIPT_Tifinagh : Z := 157.
Definition UNICODE_SCRIPT_Tirhuta : Z := 158.
Definition UNICODE_SCRIPT_Tangsa : Z := 159.
Definition UNICODE_SCRIPT_Todhri : Z := 160.
Definition UNICODE_SCRIPT_Toto : Z := 161.
Definition UNICODE_SCRIPT_Tulu_Tigalari : Z := 162.
Definition UNICODE_SCRIPT_Ugaritic : Z := 163.
Definition UNICODE_SCRIPT_Vai : Z := 164.
Definition UNICODE_SCRIPT_Vithkuqi : Z := 165.
Definition UNICODE_SCRIPT_Wancho : Z := 166.
Definition UNICODE_SCRIPT_Warang_Citi : Z := 167.
Definition UNICODE_SCRIPT_Yezidi : Z := 168.
Definition UNICODE_SCRIPT_Yi : Z := 169.
Definition UNICODE_SCRIPT_Zanabazar_Square : Z := 170.
Definition UNICODE_SCRIPT_COUNT : Z := 171.

Definition unicode_script_name_table : list Z := c_names [
  "Adlam,Adlm";
  "Ahom,Ahom";
  "Anatolian_Hieroglyphs,Hluw";
  "Arabic,Arab";
  "Armenian,Armn";
  "Avestan,Avst";
  "Balinese,Bali";
  "Bamum,Bamu";
  "Bassa_Vah,Bass";
  "Batak,Batk";
  "Bengali,Beng";
  "Bhaiksuki,Bhks";
  "Bopomofo,Bopo";
  "Brahmi,Brah";
  "Braille,Brai";
  "Buginese,Bugi";
  "Buhid,Buhd";
  "Canadian_Aboriginal,Cans";
  "Carian,Cari";
  "Caucasian_Albanian,Aghb";
  "Chakma,Cakm";
  "Cham,Cham";
  "Cherokee,Cher";
  "Chorasmian,Chrs";
  "Common,Zyyy";
  "Coptic,Copt,Qaac";
  "Cuneiform,Xsux";
  "Cypriot,Cprt";
  "Cyrillic,Cyrl";
  "Cypro_Minoan,Cpmn";
  "Deseret,Dsrt";
  "Devanagari,Deva";
  "Dives_Akuru,Diak";
  "Dogra,Dogr";
  "Duployan,Dupl";
  "Egyptian_Hieroglyphs,Egyp";
  "Elbasan,Elba";
  "Elymaic,Elym";
  "Ethiopic,Ethi";
  "Georgian,Geor";
  "Glagolitic,Glag";
  "Gothic,Goth";
  "Garay,Gara";
  "Grantha,Gran";
  "Greek,Grek";
  "Gujarati,Gujr";
  "Gunjala_Gondi,Gong";
  "Gurmukhi,Guru";
  "Gurung_Khema,Gukh";
  "Han,Hani";
  "Hangul,Hang";
  "Hanifi_Rohingya,Rohg";
  "Hanunoo,Hano";
  "Hatran,Hatr";
  "Hebrew,Hebr";
  "Hiragana,Hira";
  "Imperial_Aramaic,Armi";
  "Inherited,Zinh,Qaai";
  "Inscriptional_Pahlavi,Phli";
  "Inscriptional_Parthian,Prti";
  "Javanese,Java";
  "Kaithi,Kthi";
  "Kannada,Knda";
  "Katakana,Kana";
  "Kawi,Kawi";
  "Kayah_Li,Kali";
  "Kharoshthi,Khar";
  "Khmer,Khmr";
  "Khojki,Khoj";
  "Khitan_Small_Script,Kits";
  "Khudawadi,Sind";
  "Kirat_Rai,Krai";
  "Lao,Laoo";
  "Latin,Latn";
  "Lepcha,Lepc";
  "Limbu,Limb";
  "Linear_A,Lina";
  "Linear_B,Linb";
  "Lisu,Lisu";
  "Lycian,Lyci";
  "Lydian,Lydi";
  "Makasar,Maka";
  "Mahajani,Mahj";
  "Malayalam,Mlym";
  "Mandaic,Mand";
  "Manichaean,Mani";
  "Marchen,Marc";
  "Masaram_Gondi,Gonm";
  "Medefaidrin,Medf";
  "Meetei_Mayek,Mtei";
  "Mende_Kikakui,Mend";
  "Meroitic_Cursive,Merc";
  "Meroitic_Hieroglyphs,Mero";
  "Miao,Plrd";
  "Modi,Modi";
  "Mongolian,Mong";
  "Mro,Mroo";
  "Multani,Mult";
  "Myanmar,Mymr";
  "Nabataean,Nbat";
  "Nag_Mundari,Nagm";
  "Nandinagari,Nand";
  "New_Tai_Lue,Talu";
  "Newa,Newa";
  "Nko,Nkoo";
  "Nushu,Nshu";
  "Nyiakeng_Puachue_Hmong,Hmnp";
  "Ogham,Ogam";
  "Ol_Chiki,Olck";
  "Ol_Onal,Onao";
  "Old_Hungarian,Hung";
  "Old_Italic,Ital";
  "Old_North_Arabian,Narb";
  "Old_Permic,Perm";
  "Old_Persian,Xpeo";
  "Old_Sogdian,Sogo";
  "Old_South_Arabian,Sarb";
  "Old_Turkic,Orkh";
  "Old_Uyghur,Ougr";
  "Oriya,Orya";
  "Osage,Osge";
  "Osmanya,Osma";
  "Pahawh_Hmong,Hmng";
  "Palmyrene,Palm";
  "Pau_Cin_Hau,Pauc";
  "Phags_Pa,Phag";
  "Phoenician,Phnx";
  "Psalter_Pahlavi,Phlp";
  "Rejang,Rjng";
  "Runic,Runr";
  "Samaritan,Samr";
  "Saurashtra,Saur";
  "Sharada,Shrd";
  "Shavian,Shaw";
  "Siddham,Sidd";
  "SignWriting,Sgnw";
  "Sinhala,Sinh";
  "Sogdian,Sogd";
  "Sora_Sompeng,Sora";
  "Soyombo,Soyo";
  "Sundanese,Sund";
  "Sunuwar,Sunu";
  "Syloti_Nagri,Sylo";
  "Syriac,Syrc";
  "Tagalog,Tglg";
  "Tagbanwa,Tagb";
  "Tai_Le,Tale";
  "Tai_Tham,Lana";
  "Tai_Viet,Tavt";
  "Takri,Takr";
  "Tamil,Taml";
  "Tangut,Tang";
  "Telugu,Telu";
  "Thaana,Thaa";
  "Thai,Thai";
  "Tibetan,Tibt";
  "Tifinagh,Tfng";
  "Tirhuta,Tirh";
  "Tangsa,Tnsa";
  "Todhri,Todr";
  "Toto,Toto";
  "Tulu_Tigalari,Tutg";
  "Ugaritic,Ugar";
  "Vai,Vaii";
  "Vithkuqi,Vith";
  "Wancho,Wcho";
  "Warang_Citi,Wara";
  "Yezidi,Yezi";
  "Yi,Yiii";
  "Zanabazar_Square,Zanb"].

Definition unicode_script_table : list Z :=
  [192; 25; 153; 74; 133; 25; 153; 74; 174; 25; 128; 74; 142; 25; 128; 74; 132; 25; 150; 74; 128;
   25; 158; 74; 128; 25; 225; 96; 74; 166; 25; 132; 74; 132; 25; 129; 13; 147; 25; 224; 15; 58;
   131; 45; 128; 25; 130; 45; 1; 131; 45; 128; 25; 128; 45; 3; 128; 45; 128; 25; 128; 45; 128;
   25; 130; 45; 0; 128; 45; 0; 147; 45; 0; 190; 45; 141; 26; 143; 45; 224; 36; 29; 129; 58; 224;
   72; 29; 0; 165; 5; 1; 177; 5; 1; 130; 5; 0; 182; 55; 7; 154; 55; 3; 133; 55; 10; 132; 4; 128;
   25; 133; 4; 128; 25; 141; 4; 128; 25; 130; 4; 128; 25; 159; 4; 128; 25; 137; 4; 138; 58; 153;
   4; 128; 58; 224; 11; 4; 128; 25; 161; 4; 141; 144; 0; 187; 144; 1; 130; 144; 175; 4; 177; 154;
   13; 186; 105; 1; 130; 105; 173; 131; 1; 142; 131; 0; 155; 85; 1; 128; 85; 0; 138; 144; 4; 158;
   4; 0; 129; 4; 4; 202; 4; 128; 25; 156; 4; 208; 32; 131; 58; 142; 32; 129; 25; 153; 32; 131;
   11; 0; 135; 11; 1; 129; 11; 1; 149; 11; 0; 134; 11; 0; 128; 11; 2; 131; 11; 1; 136; 11; 1;
   129; 11; 1; 131; 11; 7; 128; 11; 3; 129; 11; 0; 132; 11; 1; 152; 11; 1; 130; 48; 0; 133; 48;
   3; 129; 48; 1; 149; 48; 0; 134; 48; 0; 129; 48; 0; 129; 48; 0; 129; 48; 1; 128; 48; 0; 132;
   48; 3; 129; 48; 1; 130; 48; 2; 128; 48; 6; 131; 48; 0; 128; 48; 6; 144; 48; 9; 130; 46; 0;
   136; 46; 0; 130; 46; 0; 149; 46; 0; 134; 46; 0; 129; 46; 0; 132; 46; 1; 137; 46; 0; 130; 46;
   0; 130; 46; 1; 128; 46; 14; 131; 46; 1; 139; 46; 6; 134; 46; 0; 130; 120; 0; 135; 120; 1; 129;
   120; 1; 149; 120; 0; 134; 120; 0; 129; 120; 0; 132; 120; 1; 136; 120; 1; 129; 120; 1; 130;
   120; 6; 130; 120; 3; 129; 120; 0; 132; 120; 1; 145; 120; 9; 129; 151; 0; 133; 151; 2; 130;
   151; 0; 131; 151; 2; 129; 151; 0; 128; 151; 0; 129; 151; 2; 129; 151; 2; 130; 151; 2; 139;
   151; 3; 132; 151; 2; 130; 151; 0; 131; 151; 1; 128; 151; 5; 128; 151; 13; 148; 151; 4; 140;
   153; 0; 130; 153; 0; 150; 153; 0; 143; 153; 1; 136; 153; 0; 130; 153; 0; 131; 153; 6; 129;
   153; 0; 130; 153; 1; 128; 153; 1; 131; 153; 1; 137; 153; 6; 136; 153; 140; 63; 0; 130; 63; 0;
   150; 63; 0; 137; 63; 0; 132; 63; 1; 136; 63; 0; 130; 63; 0; 131; 63; 6; 129; 63; 5; 129; 63;
   0; 131; 63; 1; 137; 63; 0; 130; 63; 11; 140; 84; 0; 130; 84; 0; 178; 84; 0; 130; 84; 0; 133;
   84; 3; 143; 84; 1; 153; 84; 0; 130; 137; 0; 145; 137; 2; 151; 137; 0; 136; 137; 0; 128; 137;
   1; 134; 137; 2; 128; 137; 3; 133; 137; 0; 128; 137; 0; 135; 137; 5; 137; 137; 1; 130; 137; 11;
   185; 155; 3; 128; 25; 155; 155; 36; 129; 73; 0; 128; 73; 0; 132; 73; 0; 151; 73; 0; 128; 73;
   0; 150; 73; 1; 132; 73; 0; 128; 73; 0; 134; 73; 0; 137; 73; 1; 131; 73; 31; 199; 156; 0; 163;
   156; 3; 166; 156; 0; 163; 156; 0; 142; 156; 0; 134; 156; 131; 25; 129; 156; 36; 224; 63; 99;
   165; 40; 0; 128; 40; 4; 128; 40; 1; 170; 40; 128; 25; 131; 40; 224; 159; 51; 200; 39; 0; 131;
   39; 1; 134; 39; 0; 128; 39; 0; 131; 39; 1; 168; 39; 0; 131; 39; 1; 160; 39; 0; 131; 39; 1;
   134; 39; 0; 128; 39; 0; 131; 39; 1; 142; 39; 0; 184; 39; 0; 131; 39; 1; 194; 39; 1; 159; 39;
   2; 153; 39; 5; 213; 23; 1; 133; 23; 1; 226; 31; 18; 156; 108; 2; 202; 130; 130; 25; 138; 130;
   6; 149; 145; 8; 128; 145; 148; 53; 129; 25; 8; 147; 17; 11; 140; 146; 0; 130; 146; 0; 129;
   146; 11; 221; 68; 1; 137; 68; 5; 137; 68; 5; 129; 96; 129; 25; 128; 96; 128; 25; 147; 96; 5;
   216; 96; 6; 170; 96; 4; 197; 18; 9; 158; 76; 0; 139; 76; 3; 139; 76; 3; 128; 76; 2; 139; 76;
   157; 147; 1; 132; 147; 10; 171; 103; 3; 153; 103; 5; 138; 103; 2; 129; 103; 159; 68; 155; 16;
   1; 129; 16; 190; 148; 0; 156; 148; 1; 138; 148; 5; 137; 148; 5; 141; 148; 1; 158; 58; 48; 204;
   7; 0; 177; 7; 191; 141; 179; 10; 7; 131; 10; 183; 75; 2; 142; 75; 2; 130; 75; 175; 109; 138;
   29; 4; 170; 40; 1; 130; 40; 135; 141; 7; 130; 58; 128; 25; 140; 58; 128; 25; 134; 58; 131; 25;
   128; 58; 133; 25; 128; 58; 130; 25; 129; 58; 128; 25; 4; 165; 74; 132; 45; 128; 29; 176; 74;
   132; 45; 131; 74; 132; 45; 140; 74; 128; 29; 197; 74; 128; 45; 191; 58; 224; 159; 74; 149; 45;
   1; 133; 45; 1; 165; 45; 1; 133; 45; 1; 135; 45; 0; 128; 45; 0; 128; 45; 0; 128; 45; 0; 158;
   45; 1; 180; 45; 0; 142; 45; 0; 141; 45; 1; 133; 45; 0; 146; 45; 1; 130; 45; 0; 136; 45; 0;
   139; 25; 129; 58; 214; 25; 0; 138; 25; 128; 74; 1; 138; 25; 128; 74; 142; 25; 0; 140; 74; 2;
   160; 25; 14; 160; 58; 14; 165; 25; 128; 45; 130; 25; 129; 74; 133; 25; 128; 74; 154; 25; 128;
   74; 144; 25; 168; 74; 130; 25; 3; 226; 57; 25; 21; 138; 25; 20; 227; 63; 25; 224; 159; 15;
   226; 19; 25; 1; 159; 25; 0; 224; 8; 25; 223; 41; 159; 74; 224; 19; 26; 4; 134; 26; 165; 40; 0;
   128; 40; 4; 128; 40; 1; 183; 157; 6; 129; 157; 13; 128; 157; 150; 39; 8; 134; 39; 0; 134; 39;
   0; 134; 39; 0; 134; 39; 0; 134; 39; 0; 134; 39; 0; 134; 39; 0; 134; 39; 0; 159; 29; 221; 25;
   33; 153; 50; 0; 216; 50; 11; 224; 117; 50; 25; 148; 25; 128; 50; 128; 25; 128; 50; 152; 25;
   136; 50; 131; 58; 129; 51; 135; 25; 131; 50; 131; 25; 0; 213; 56; 1; 129; 58; 129; 25; 130;
   56; 128; 25; 217; 64; 129; 25; 130; 64; 4; 170; 13; 0; 221; 51; 0; 143; 25; 159; 13; 165; 25;
   8; 128; 25; 143; 64; 158; 51; 0; 191; 25; 158; 51; 208; 25; 174; 64; 128; 25; 215; 64; 224;
   71; 25; 240; 9; 95; 50; 191; 25; 240; 65; 159; 50; 228; 44; 169; 2; 182; 169; 8; 175; 79; 224;
   203; 164; 19; 223; 29; 215; 8; 7; 161; 25; 224; 5; 74; 130; 25; 194; 74; 1; 129; 74; 0; 128;
   74; 0; 135; 74; 20; 141; 74; 172; 143; 2; 137; 25; 5; 183; 126; 7; 197; 132; 7; 139; 132; 5;
   159; 32; 173; 66; 128; 25; 128; 66; 163; 129; 10; 128; 129; 156; 51; 2; 205; 61; 0; 128; 25;
   137; 61; 3; 129; 61; 158; 99; 0; 182; 22; 8; 141; 22; 1; 137; 22; 1; 131; 22; 159; 99; 194;
   149; 23; 132; 149; 150; 90; 9; 133; 39; 1; 133; 39; 1; 133; 39; 8; 134; 39; 0; 134; 39; 0;
   170; 74; 128; 25; 136; 74; 128; 45; 131; 74; 129; 25; 3; 207; 23; 173; 90; 1; 137; 90; 5; 240;
   27; 67; 51; 11; 150; 51; 3; 176; 51; 112; 16; 163; 225; 13; 50; 1; 224; 9; 50; 37; 134; 74;
   11; 132; 5; 4; 153; 55; 0; 132; 55; 0; 128; 55; 0; 129; 55; 0; 129; 55; 0; 137; 55; 224; 18;
   4; 15; 225; 10; 4; 129; 25; 207; 4; 1; 181; 4; 6; 128; 4; 31; 143; 4; 143; 58; 137; 25; 5;
   141; 58; 129; 29; 162; 25; 0; 146; 25; 0; 131; 25; 3; 132; 4; 0; 224; 38; 4; 1; 128; 25; 0;
   159; 25; 153; 74; 133; 25; 153; 74; 138; 25; 137; 64; 128; 25; 172; 64; 129; 25; 158; 51; 2;
   133; 51; 1; 133; 51; 1; 133; 51; 1; 130; 51; 2; 134; 25; 0; 134; 25; 9; 132; 25; 1; 139; 78;
   0; 153; 78; 0; 146; 78; 0; 129; 78; 0; 142; 78; 1; 141; 78; 33; 224; 26; 78; 4; 130; 25; 3;
   172; 25; 2; 136; 25; 206; 45; 0; 140; 25; 2; 128; 45; 46; 172; 25; 128; 58; 96; 33; 156; 80;
   2; 176; 19; 14; 128; 58; 154; 25; 3; 163; 112; 8; 130; 112; 154; 42; 4; 170; 114; 4; 157; 163;
   0; 128; 163; 163; 115; 3; 141; 115; 41; 207; 31; 175; 134; 157; 122; 1; 137; 122; 5; 163; 121;
   3; 163; 121; 3; 167; 37; 7; 179; 20; 10; 128; 20; 138; 165; 0; 142; 165; 0; 134; 165; 0; 129;
   165; 0; 138; 165; 0; 142; 165; 0; 134; 165; 0; 129; 165; 2; 179; 160; 11; 224; 214; 77; 8;
   149; 77; 9; 135; 77; 23; 133; 74; 0; 169; 74; 0; 136; 74; 68; 133; 28; 1; 128; 28; 0; 171; 28;
   0; 129; 28; 2; 128; 28; 1; 128; 28; 149; 57; 0; 136; 57; 159; 124; 158; 100; 7; 136; 100; 47;
   146; 54; 0; 129; 54; 4; 132; 54; 155; 127; 2; 128; 127; 153; 81; 4; 128; 81; 63; 159; 93; 151;
   92; 3; 147; 92; 1; 173; 92; 131; 67; 0; 129; 67; 4; 135; 67; 0; 130; 67; 0; 156; 67; 1; 130;
   67; 3; 137; 67; 6; 136; 67; 6; 159; 117; 159; 113; 31; 166; 86; 3; 139; 86; 8; 181; 6; 2; 134;
   6; 149; 60; 1; 135; 60; 146; 59; 4; 135; 59; 145; 128; 6; 131; 128; 11; 134; 128; 79; 200;
   118; 54; 178; 111; 12; 178; 111; 6; 133; 111; 167; 52; 7; 137; 52; 5; 165; 43; 2; 156; 43; 7;
   129; 43; 96; 111; 158; 4; 0; 169; 168; 0; 130; 168; 1; 129; 168; 15; 130; 4; 54; 131; 4; 167;
   116; 7; 169; 138; 21; 153; 119; 37; 155; 24; 19; 150; 38; 8; 205; 14; 3; 163; 14; 8; 128; 14;
   194; 62; 9; 128; 62; 1; 152; 139; 6; 137; 139; 5; 180; 21; 0; 145; 21; 7; 166; 83; 8; 223;
   133; 0; 147; 137; 10; 145; 69; 0; 174; 69; 61; 134; 98; 0; 128; 98; 0; 131; 98; 0; 142; 98; 0;
   138; 98; 5; 186; 71; 4; 137; 71; 5; 131; 44; 0; 135; 44; 1; 129; 44; 1; 149; 44; 0; 134; 44;
   0; 129; 44; 0; 132; 44; 0; 128; 58; 136; 44; 1; 129; 44; 1; 130; 44; 1; 128; 44; 5; 128; 44;
   4; 134; 44; 1; 134; 44; 2; 132; 44; 10; 137; 162; 0; 128; 162; 1; 128; 162; 0; 165; 162; 0;
   137; 162; 0; 128; 162; 1; 128; 162; 0; 131; 162; 0; 137; 162; 0; 129; 162; 7; 129; 162; 28;
   219; 104; 0; 132; 104; 29; 199; 158; 7; 137; 158; 96; 69; 181; 135; 1; 165; 135; 33; 196; 95;
   10; 137; 95; 5; 140; 96; 18; 185; 150; 5; 137; 150; 5; 147; 99; 27; 154; 2; 1; 142; 2; 3; 150;
   2; 96; 88; 187; 34; 96; 3; 210; 167; 11; 128; 167; 134; 33; 1; 128; 33; 1; 135; 33; 0; 129;
   33; 0; 157; 33; 0; 129; 33; 1; 139; 33; 8; 137; 33; 69; 135; 102; 1; 173; 102; 1; 138; 102;
   26; 199; 170; 7; 210; 140; 12; 143; 18; 184; 125; 6; 137; 32; 96; 85; 161; 142; 13; 137; 142;
   5; 136; 12; 0; 172; 12; 0; 141; 12; 9; 156; 12; 2; 159; 87; 1; 149; 87; 0; 141; 87; 72; 134;
   88; 0; 129; 88; 0; 171; 88; 2; 128; 88; 0; 129; 88; 0; 136; 88; 7; 137; 88; 5; 133; 47; 0;
   129; 47; 0; 164; 47; 0; 129; 47; 0; 133; 47; 6; 137; 47; 96; 213; 152; 82; 6; 144; 65; 0; 168;
   65; 2; 156; 65; 84; 128; 79; 14; 177; 151; 12; 128; 151; 227; 57; 27; 96; 5; 224; 14; 27; 0;
   132; 27; 10; 224; 99; 27; 105; 235; 224; 2; 30; 12; 227; 245; 36; 9; 239; 58; 36; 4; 225; 230;
   3; 112; 10; 88; 185; 49; 102; 101; 225; 216; 8; 6; 158; 97; 0; 137; 97; 3; 129; 97; 206; 159;
   0; 137; 159; 5; 157; 9; 1; 133; 9; 9; 197; 123; 9; 137; 123; 0; 134; 123; 0; 148; 123; 4; 146;
   123; 97; 79; 185; 72; 96; 101; 218; 89; 96; 4; 202; 94; 3; 184; 94; 6; 144; 94; 63; 128; 152;
   128; 106; 129; 50; 128; 70; 10; 129; 50; 13; 240; 7; 151; 152; 7; 226; 159; 152; 225; 117; 70;
   40; 128; 70; 136; 152; 112; 18; 134; 131; 64; 0; 134; 64; 0; 129; 64; 0; 128; 64; 224; 190;
   56; 130; 64; 14; 128; 56; 28; 130; 56; 1; 128; 64; 13; 131; 64; 7; 225; 43; 106; 104; 163;
   224; 10; 35; 4; 140; 35; 2; 136; 35; 6; 137; 35; 1; 131; 35; 131; 25; 110; 251; 224; 153; 25;
   5; 225; 83; 25; 75; 173; 58; 1; 150; 58; 8; 224; 19; 25; 59; 224; 149; 25; 9; 166; 25; 1; 189;
   25; 130; 58; 144; 25; 135; 58; 129; 25; 134; 58; 157; 25; 131; 58; 188; 25; 20; 197; 45; 96;
   25; 147; 25; 11; 147; 25; 11; 214; 25; 8; 152; 25; 96; 38; 212; 25; 0; 198; 25; 0; 129; 25; 1;
   128; 25; 1; 129; 25; 1; 131; 25; 0; 139; 25; 0; 128; 25; 0; 134; 25; 0; 192; 25; 0; 131; 25;
   1; 135; 25; 0; 134; 25; 0; 155; 25; 0; 131; 25; 0; 132; 25; 0; 128; 25; 2; 134; 25; 0; 224;
   243; 25; 1; 224; 195; 25; 1; 177; 25; 226; 43; 136; 14; 132; 136; 0; 142; 136; 99; 239; 158;
   74; 5; 133; 74; 96; 116; 134; 41; 0; 144; 41; 1; 134; 41; 0; 129; 41; 0; 132; 41; 4; 189; 29;
   32; 128; 29; 96; 15; 172; 107; 2; 141; 107; 1; 137; 107; 3; 129; 107; 96; 223; 158; 161; 16;
   185; 166; 4; 128; 166; 97; 111; 169; 101; 96; 117; 170; 110; 3; 128; 110; 97; 127; 134; 39; 0;
   131; 39; 0; 129; 39; 0; 142; 39; 0; 224; 100; 91; 1; 143; 91; 40; 203; 1; 3; 137; 1; 3; 129;
   1; 98; 176; 195; 25; 75; 188; 25; 96; 97; 131; 4; 0; 154; 4; 0; 129; 4; 0; 128; 4; 1; 128; 4;
   0; 137; 4; 0; 131; 4; 0; 128; 4; 0; 128; 4; 5; 128; 4; 3; 128; 4; 0; 128; 4; 0; 128; 4; 0;
   130; 4; 0; 129; 4; 0; 128; 4; 1; 128; 4; 0; 128; 4; 0; 128; 4; 0; 128; 4; 0; 128; 4; 0; 129;
   4; 0; 128; 4; 1; 131; 4; 0; 134; 4; 0; 131; 4; 0; 131; 4; 0; 128; 4; 0; 137; 4; 0; 144; 4; 4;
   130; 4; 0; 132; 4; 0; 144; 4; 51; 129; 4; 96; 173; 171; 25; 3; 224; 3; 25; 11; 142; 25; 1;
   142; 25; 0; 142; 25; 0; 164; 25; 9; 224; 77; 25; 55; 153; 25; 128; 56; 129; 25; 12; 171; 25;
   3; 136; 25; 6; 129; 25; 13; 133; 25; 96; 57; 227; 119; 25; 3; 144; 25; 2; 140; 25; 2; 224; 22;
   25; 3; 222; 25; 5; 139; 25; 3; 128; 25; 14; 139; 25; 3; 183; 25; 7; 137; 25; 5; 167; 25; 7;
   157; 25; 1; 139; 25; 3; 129; 25; 61; 224; 243; 25; 11; 141; 25; 1; 140; 25; 2; 137; 25; 4;
   183; 25; 6; 142; 25; 1; 138; 25; 5; 136; 25; 6; 224; 50; 25; 0; 224; 5; 25; 99; 165; 240; 150;
   127; 50; 31; 239; 217; 50; 5; 224; 125; 50; 1; 240; 6; 33; 50; 13; 240; 12; 208; 50; 14; 226;
   13; 50; 105; 65; 225; 189; 50; 101; 129; 240; 2; 234; 50; 4; 239; 255; 50; 122; 203; 240; 128;
   25; 29; 223; 25; 96; 31; 224; 143; 58].

Definition unicode_script_ext_table : list Z :=
  [128; 54; 0; 0; 16; 6; 19; 26; 35; 37; 40; 41; 47; 42; 45; 50; 74; 81; 83; 114; 134; 129; 131;
   0; 0; 7; 11; 29; 32; 74; 79; 155; 161; 9; 0; 0; 2; 13; 74; 0; 0; 2; 2; 13; 74; 0; 0; 0; 2; 74;
   79; 8; 0; 0; 2; 74; 155; 0; 0; 0; 2; 13; 74; 37; 0; 0; 8; 23; 26; 29; 45; 74; 114; 142; 147;
   0; 8; 23; 29; 45; 74; 121; 142; 147; 160; 0; 4; 23; 29; 74; 157; 0; 5; 41; 74; 142; 144; 155;
   0; 11; 20; 23; 26; 29; 42; 45; 74; 121; 144; 157; 160; 0; 6; 26; 37; 41; 42; 64; 74; 0; 4; 29;
   45; 74; 114; 0; 9; 26; 35; 55; 74; 114; 144; 147; 157; 160; 0; 10; 5; 29; 35; 42; 45; 55; 74;
   114; 144; 147; 0; 2; 74; 157; 0; 3; 35; 74; 144; 0; 4; 23; 29; 74; 121; 0; 3; 23; 74; 147; 0;
   2; 74; 142; 0; 2; 39; 74; 0; 0; 0; 2; 74; 142; 0; 3; 29; 74; 160; 0; 0; 0; 4; 45; 74; 114;
   160; 11; 0; 0; 2; 74; 144; 1; 0; 0; 5; 23; 35; 64; 74; 144; 0; 4; 23; 35; 74; 144; 0; 2; 74;
   144; 6; 0; 0; 3; 74; 142; 144; 0; 2; 74; 144; 0; 0; 0; 3; 23; 74; 144; 0; 6; 20; 23; 42; 74;
   142; 155; 15; 0; 0; 1; 45; 1; 0; 0; 1; 45; 17; 0; 0; 2; 74; 121; 4; 0; 0; 3; 20; 74; 160; 3;
   0; 12; 1; 74; 3; 0; 1; 2; 26; 45; 128; 140; 0; 0; 2; 29; 114; 0; 2; 29; 41; 1; 2; 29; 74; 0;
   2; 29; 41; 128; 128; 0; 0; 3; 5; 40; 41; 128; 1; 0; 0; 7; 4; 43; 105; 52; 144; 154; 168; 13;
   0; 0; 7; 4; 43; 105; 52; 144; 154; 168; 0; 3; 4; 144; 154; 1; 0; 0; 8; 1; 4; 43; 105; 52; 144;
   154; 168; 31; 0; 0; 9; 1; 4; 85; 86; 119; 128; 52; 138; 144; 9; 0; 10; 2; 4; 144; 9; 0; 9; 3;
   4; 154; 168; 5; 0; 0; 2; 4; 144; 98; 0; 0; 2; 4; 52; 129; 251; 0; 0; 13; 11; 32; 44; 46; 48;
   63; 74; 84; 120; 133; 151; 153; 158; 0; 12; 11; 32; 44; 46; 48; 63; 74; 84; 120; 151; 153;
   158; 16; 0; 0; 21; 11; 32; 34; 47; 88; 44; 46; 48; 63; 83; 84; 102; 110; 120; 71; 137; 143;
   150; 151; 153; 158; 0; 23; 11; 32; 34; 47; 88; 44; 46; 49; 48; 63; 76; 83; 84; 102; 110; 120;
   71; 137; 143; 150; 151; 153; 158; 9; 4; 32; 34; 62; 83; 117; 0; 9; 3; 11; 21; 143; 117; 0; 9;
   2; 48; 98; 117; 0; 9; 2; 46; 69; 128; 117; 0; 13; 2; 44; 151; 128; 113; 0; 9; 3; 63; 102; 162;
   130; 207; 0; 9; 3; 21; 99; 147; 128; 48; 0; 0; 3; 40; 41; 74; 133; 110; 0; 2; 1; 130; 70; 0;
   1; 4; 17; 53; 146; 145; 128; 74; 0; 1; 2; 96; 126; 0; 0; 0; 2; 96; 126; 132; 73; 0; 0; 4; 11;
   32; 44; 63; 0; 1; 32; 0; 4; 11; 32; 44; 63; 0; 3; 32; 44; 63; 0; 1; 32; 1; 2; 11; 32; 0; 2;
   32; 133; 0; 2; 11; 32; 0; 2; 32; 133; 0; 6; 32; 63; 84; 120; 151; 153; 0; 1; 32; 1; 2; 32;
   133; 1; 1; 32; 0; 2; 32; 133; 0; 2; 11; 32; 6; 1; 32; 0; 2; 32; 102; 0; 2; 11; 32; 1; 1; 32;
   0; 2; 11; 32; 3; 1; 32; 0; 11; 11; 32; 44; 63; 84; 102; 120; 137; 153; 158; 162; 0; 2; 32; 44;
   0; 4; 32; 44; 63; 162; 1; 2; 11; 32; 0; 1; 11; 1; 2; 32; 44; 0; 1; 102; 128; 68; 0; 1; 1; 45;
   53; 0; 0; 3; 29; 74; 144; 0; 0; 0; 1; 144; 129; 179; 0; 0; 3; 74; 96; 126; 30; 0; 0; 2; 1; 4;
   9; 0; 0; 6; 19; 40; 41; 111; 80; 118; 1; 0; 0; 4; 19; 45; 111; 93; 128; 17; 0; 0; 3; 32; 44;
   74; 140; 165; 0; 0; 2; 26; 74; 23; 0; 0; 2; 6; 118; 0; 7; 6; 19; 40; 111; 62; 81; 131; 9; 0;
   0; 1; 35; 3; 0; 0; 3; 1; 4; 111; 0; 0; 0; 2; 29; 41; 129; 43; 0; 15; 2; 50; 152; 0; 0; 0; 7;
   13; 51; 50; 56; 64; 96; 169; 0; 8; 13; 51; 50; 56; 64; 96; 126; 169; 0; 5; 13; 51; 50; 56; 64;
   1; 0; 0; 1; 50; 0; 0; 1; 8; 13; 51; 50; 56; 64; 96; 156; 169; 1; 9; 13; 51; 50; 56; 64; 79;
   96; 156; 169; 5; 6; 13; 51; 50; 56; 64; 169; 0; 0; 0; 5; 13; 51; 50; 56; 64; 7; 6; 13; 51; 50;
   56; 64; 169; 3; 5; 13; 51; 50; 56; 64; 9; 0; 3; 2; 13; 50; 1; 0; 0; 5; 13; 51; 50; 56; 64; 4;
   2; 56; 64; 0; 0; 0; 5; 13; 51; 50; 56; 64; 3; 0; 1; 3; 50; 56; 64; 1; 1; 50; 88; 0; 3; 2; 56;
   64; 2; 0; 0; 2; 56; 64; 89; 0; 0; 6; 13; 51; 50; 56; 64; 169; 0; 2; 56; 64; 128; 18; 0; 15; 1;
   50; 31; 0; 37; 1; 50; 8; 0; 0; 2; 50; 152; 47; 0; 39; 1; 50; 55; 0; 48; 1; 50; 14; 0; 11; 1;
   50; 50; 0; 0; 1; 50; 87; 0; 24; 1; 50; 9; 0; 4; 1; 50; 95; 0; 30; 1; 50; 192; 49; 239; 0; 0;
   2; 29; 41; 128; 15; 0; 7; 2; 50; 74; 128; 167; 0; 2; 16; 32; 34; 46; 48; 69; 63; 62; 83; 84;
   95; 102; 133; 71; 150; 158; 162; 2; 15; 32; 34; 46; 48; 69; 63; 62; 83; 95; 102; 133; 71; 150;
   158; 162; 1; 11; 32; 34; 46; 48; 69; 62; 83; 95; 71; 150; 158; 0; 12; 32; 34; 46; 48; 69; 62;
   83; 95; 133; 71; 150; 158; 0; 11; 32; 34; 46; 48; 69; 62; 83; 95; 71; 150; 158; 128; 54; 0; 0;
   3; 11; 32; 162; 0; 0; 0; 2; 32; 151; 57; 0; 0; 3; 66; 74; 99; 128; 31; 0; 0; 2; 16; 61; 192;
   18; 237; 0; 1; 2; 4; 105; 128; 49; 0; 0; 2; 4; 154; 9; 0; 0; 2; 4; 154; 70; 0; 1; 5; 13; 51;
   50; 56; 64; 128; 153; 0; 4; 6; 13; 51; 50; 56; 64; 169; 9; 0; 0; 2; 56; 64; 44; 0; 1; 2; 56;
   64; 128; 223; 0; 1; 3; 30; 28; 78; 0; 2; 28; 78; 3; 0; 44; 3; 28; 77; 78; 2; 0; 8; 2; 28; 78;
   129; 31; 0; 27; 2; 4; 26; 135; 117; 0; 0; 2; 86; 119; 135; 141; 0; 0; 2; 44; 151; 0; 0; 0; 2;
   44; 151; 54; 0; 1; 2; 44; 151; 140; 18; 0; 1; 2; 44; 151; 0; 0; 0; 2; 44; 151; 192; 92; 75; 0;
   3; 1; 35; 150; 59; 0; 17; 1; 50; 158; 93; 0; 1; 1; 50; 206; 205; 45; 0].

Definition unicode_prop_Hyphen_table : list Z :=
  [172; 128; 254; 128; 68; 219; 128; 82; 122; 128; 72; 8; 129; 78; 4; 128; 66; 226; 128; 96; 205;
   102; 128; 64; 168; 128; 214; 128].

Definition unicode_prop_Other_Math_table : list Z :=
  [221; 128; 67; 112; 17; 128; 153; 9; 129; 92; 31; 128; 154; 130; 138; 128; 159; 131; 151; 129;
   141; 129; 192; 140; 24; 17; 28; 145; 3; 1; 137; 0; 20; 40; 17; 9; 2; 5; 19; 36; 202; 33; 24;
   8; 8; 0; 33; 11; 11; 145; 9; 0; 6; 0; 41; 65; 33; 131; 64; 167; 8; 128; 151; 128; 144; 128;
   65; 188; 129; 139; 136; 36; 33; 9; 20; 141; 0; 1; 133; 151; 129; 184; 0; 128; 156; 131; 136;
   129; 65; 85; 129; 158; 137; 65; 146; 149; 190; 131; 159; 129; 96; 212; 98; 0; 3; 128; 64; 210;
   0; 128; 96; 212; 192; 212; 128; 198; 1; 8; 9; 11; 128; 139; 0; 6; 128; 192; 3; 15; 6; 128;
   155; 3; 4; 0; 22; 128; 65; 83; 129; 152; 128; 152; 128; 158; 128; 152; 128; 158; 128; 152;
   128; 158; 128; 152; 128; 158; 128; 152; 7; 129; 177; 85; 255; 24; 154; 1; 0; 8; 128; 137; 3;
   0; 0; 40; 24; 0; 0; 2; 1; 0; 8; 0; 0; 0; 0; 1; 0; 11; 6; 3; 3; 0; 128; 137; 128; 144; 34; 4;
   128; 144].

Definition unicode_prop_Other_Alphabetic_table : list Z :=
  [67; 68; 128; 156; 140; 66; 63; 141; 0; 1; 1; 0; 199; 138; 175; 140; 6; 143; 128; 228; 51; 25;
   11; 128; 162; 128; 157; 143; 229; 138; 228; 10; 136; 2; 3; 233; 128; 187; 139; 22; 133; 147;
   181; 9; 142; 1; 34; 137; 129; 156; 130; 185; 49; 9; 129; 137; 128; 137; 129; 156; 130; 185;
   35; 9; 11; 128; 157; 10; 128; 138; 130; 185; 56; 16; 129; 148; 129; 149; 19; 130; 185; 49; 9;
   129; 136; 129; 137; 129; 157; 128; 186; 34; 16; 130; 137; 128; 167; 132; 184; 48; 16; 23; 129;
   138; 129; 156; 130; 185; 48; 16; 23; 129; 138; 129; 142; 128; 139; 131; 185; 48; 16; 130; 137;
   128; 137; 129; 156; 130; 202; 40; 0; 135; 145; 129; 188; 1; 134; 145; 128; 226; 1; 40; 129;
   143; 128; 64; 162; 146; 136; 138; 128; 163; 237; 139; 0; 11; 150; 27; 16; 17; 50; 131; 140;
   139; 0; 137; 131; 70; 115; 129; 157; 129; 157; 129; 157; 129; 193; 146; 64; 187; 129; 161;
   128; 245; 139; 131; 136; 64; 221; 132; 184; 137; 129; 147; 201; 129; 138; 130; 176; 132; 175;
   142; 187; 130; 157; 136; 9; 184; 138; 177; 146; 65; 155; 161; 70; 192; 179; 72; 245; 159; 96;
   120; 115; 135; 161; 129; 65; 97; 7; 128; 150; 132; 215; 129; 177; 143; 0; 184; 128; 165; 132;
   155; 139; 172; 131; 175; 139; 164; 128; 194; 141; 139; 7; 129; 172; 130; 177; 0; 17; 12; 128;
   171; 36; 128; 64; 236; 135; 96; 79; 50; 128; 72; 86; 132; 70; 133; 16; 12; 131; 67; 19; 131;
   192; 128; 65; 64; 129; 206; 128; 65; 2; 130; 180; 141; 172; 129; 138; 130; 172; 136; 136; 128;
   188; 130; 163; 139; 145; 129; 184; 130; 175; 140; 141; 129; 219; 136; 8; 40; 8; 64; 156; 137;
   150; 131; 185; 49; 9; 129; 137; 128; 137; 129; 211; 136; 0; 8; 3; 1; 230; 140; 2; 233; 145;
   64; 236; 49; 134; 156; 129; 209; 142; 0; 233; 138; 230; 141; 65; 0; 140; 64; 246; 40; 9; 10;
   0; 128; 64; 141; 49; 43; 128; 155; 137; 169; 32; 131; 145; 138; 173; 141; 65; 150; 56; 134;
   210; 149; 128; 141; 249; 42; 0; 8; 16; 2; 128; 193; 32; 8; 131; 65; 91; 131; 136; 8; 128; 175;
   50; 130; 96; 65; 220; 144; 78; 31; 0; 182; 51; 220; 129; 96; 76; 171; 128; 96; 35; 96; 48;
   144; 14; 1; 4; 227; 128; 72; 182; 128; 71; 231; 153; 133; 153; 133; 153].

Definition unicode_prop_Other_Lowercase_table : list Z :=
  [64; 169; 128; 142; 128; 65; 244; 136; 49; 157; 132; 223; 128; 179; 128; 77; 128; 128; 76; 46;
   190; 140; 128; 161; 164; 66; 176; 128; 140; 128; 143; 140; 64; 210; 143; 67; 79; 153; 71; 145;
   129; 96; 122; 29; 129; 64; 209; 128; 64; 128; 18; 129; 67; 97; 131; 136; 128; 96; 92; 21; 1;
   16; 169; 128; 136; 96; 216; 116; 189].

Definition unicode_prop_Other_Uppercase_table : list Z :=
  [96; 33; 95; 143; 67; 69; 153; 97; 204; 95; 153; 133; 153; 133; 153].

Definition unicode_prop_Other_Grapheme_Extend_table : list Z :=
  [73; 189; 128; 151; 128; 65; 101; 128; 151; 128; 229; 128; 151; 128; 64; 231; 0; 3; 8; 129;
   136; 129; 230; 128; 151; 128; 246; 128; 142; 128; 73; 52; 128; 157; 128; 67; 255; 4; 0; 4;
   129; 228; 128; 198; 129; 68; 23; 128; 80; 32; 129; 96; 121; 34; 128; 235; 128; 96; 85; 220;
   129; 82; 31; 128; 243; 128; 65; 7; 128; 141; 128; 136; 128; 223; 128; 136; 1; 0; 20; 128; 64;
   223; 128; 139; 128; 64; 240; 128; 65; 5; 128; 66; 120; 128; 139; 128; 70; 2; 128; 96; 80; 173;
   129; 96; 97; 114; 13; 133; 108; 46; 172; 223].

Definition unicode_prop_Other_Default_Ignorable_Code_Point_table : list Z :=
  [67; 78; 128; 78; 14; 129; 70; 82; 129; 72; 174; 128; 80; 253; 128; 96; 206; 58; 128; 206; 136;
   109; 0; 6; 0; 157; 223; 255; 64; 239; 78; 15].

Definition unicode_prop_Other_ID_Start_table : list Z :=
  [88; 132; 129; 72; 144; 128; 148; 128; 79; 107; 129].

Definition unicode_prop_Other_ID_Continue_table : list Z :=
  [64; 182; 128; 66; 206; 128; 79; 224; 136; 70; 103; 128; 70; 48; 129; 80; 236; 128; 96; 206;
   104; 128].

Definition unicode_prop_Prepended_Concatenation_Mark_table : list Z :=
  [69; 255; 133; 64; 214; 128; 176; 128; 65; 127; 129; 207; 128; 97; 7; 217; 128; 142; 128].

Definition unicode_prop_XID_Start1_table : list Z :=
  [67; 121; 128; 74; 183; 128; 254; 128; 96; 33; 230; 129; 96; 203; 192; 133; 65; 149; 129; 243;
   0; 0; 0; 0; 0; 0; 0; 128; 65; 30; 129].

Definition unicode_prop_XID_Continue1_table : list Z :=
  [67; 121; 128; 96; 45; 31; 129; 96; 203; 192; 133; 65; 149; 129; 243; 0; 0; 0; 0; 0; 0; 0; 128].

Definition unicode_prop_Changes_When_Titlecased1_table : list Z :=
  [65; 195; 8; 8; 129; 164; 129; 78; 220; 170; 10; 78; 135; 63; 63; 135; 139; 128; 142; 128; 174;
   128].

Definition unicode_prop_Changes_When_Casefolded1_table : list Z :=
  [65; 239; 128; 65; 158; 128; 158; 128; 90; 228; 131; 64; 181; 0; 0; 0; 128; 222; 6; 6; 128;
   138; 9; 129; 137; 16; 129; 141; 128].

Definition unicode_prop_Changes_When_NFKC_Casefolded1_table : list Z :=
  [64; 159; 6; 0; 1; 0; 1; 18; 16; 130; 243; 128; 139; 128; 64; 132; 1; 1; 128; 162; 1; 128; 64;
   187; 136; 158; 41; 132; 218; 8; 129; 137; 128; 163; 4; 2; 4; 8; 7; 128; 158; 128; 160; 130;
   156; 128; 66; 40; 128; 215; 131; 66; 222; 135; 251; 8; 128; 210; 1; 128; 161; 17; 128; 64;
   252; 129; 66; 212; 128; 254; 128; 167; 129; 173; 128; 181; 128; 136; 3; 3; 3; 128; 139; 128;
   136; 0; 38; 128; 144; 128; 136; 3; 3; 3; 128; 139; 128; 65; 65; 128; 225; 129; 70; 82; 129;
   212; 132; 69; 27; 16; 138; 128; 145; 128; 155; 140; 128; 161; 164; 64; 213; 131; 64; 181; 0;
   0; 0; 128; 153; 0; 0; 0; 0; 0; 0; 128; 183; 5; 0; 19; 5; 17; 2; 12; 17; 0; 0; 12; 21; 5; 8;
   143; 0; 32; 139; 18; 42; 8; 11; 0; 7; 130; 140; 6; 146; 129; 154; 128; 140; 138; 128; 214; 24;
   16; 138; 1; 12; 10; 0; 16; 17; 2; 6; 5; 28; 133; 143; 143; 143; 136; 128; 64; 161; 8; 129; 64;
   247; 129; 65; 52; 213; 153; 154; 69; 32; 128; 230; 130; 228; 128; 65; 158; 129; 64; 240; 128;
   65; 46; 128; 210; 128; 139; 64; 213; 169; 128; 180; 0; 130; 223; 9; 128; 222; 128; 176; 221;
   130; 141; 223; 158; 128; 167; 135; 174; 128; 65; 127; 96; 114; 155; 129; 64; 209; 128; 64;
   128; 18; 129; 67; 97; 131; 136; 128; 96; 77; 149; 65; 13; 8; 0; 129; 137; 0; 0; 9; 130; 195;
   129; 233; 194; 0; 151; 4; 0; 1; 1; 128; 235; 160; 65; 106; 145; 191; 129; 181; 167; 140; 130;
   153; 149; 148; 129; 139; 128; 146; 3; 26; 0; 128; 64; 134; 8; 128; 159; 153; 64; 131; 21; 13;
   13; 10; 22; 6; 128; 136; 71; 135; 32; 169; 128; 136; 96; 180; 228; 131; 80; 49; 163; 68; 99;
   134; 141; 135; 191; 133; 66; 62; 212; 128; 198; 1; 8; 9; 11; 128; 139; 0; 6; 128; 192; 3; 15;
   6; 128; 155; 3; 4; 0; 22; 128; 65; 83; 129; 65; 35; 129; 177; 72; 47; 189; 77; 145; 24; 154;
   1; 0; 8; 128; 137; 3; 0; 0; 40; 24; 0; 0; 2; 1; 0; 8; 0; 0; 0; 0; 1; 0; 11; 6; 3; 3; 0; 128;
   137; 128; 144; 34; 4; 128; 144; 66; 67; 138; 132; 158; 128; 159; 153; 130; 162; 128; 238; 130;
   140; 171; 131; 136; 49; 73; 157; 137; 96; 252; 5; 66; 29; 107; 5; 225; 79; 255].

Definition unicode_prop_ASCII_Hex_Digit_table : list Z :=
  [175; 137; 53; 153; 133].

Definition unicode_prop_Bidi_Control_table : list Z :=
  [70; 27; 128; 89; 240; 129; 153; 132; 182; 131].

Definition unicode_prop_Dash_table : list Z :=
  [172; 128; 69; 91; 128; 178; 128; 78; 64; 128; 68; 4; 128; 72; 8; 133; 188; 128; 166; 128; 142;
   128; 65; 133; 128; 76; 3; 1; 128; 158; 11; 128; 155; 128; 65; 189; 128; 146; 128; 238; 128;
   96; 205; 143; 129; 164; 128; 137; 128; 64; 168; 128; 78; 95; 128; 65; 61; 128].

Definition unicode_prop_Deprecated_table : list Z :=
  [65; 72; 128; 69; 40; 128; 73; 2; 0; 128; 72; 40; 129; 72; 196; 133; 66; 184; 129; 109; 220;
   213; 128].

Definition unicode_prop_Diacritic_table : list Z :=
  [221; 0; 128; 198; 5; 3; 1; 129; 65; 246; 64; 158; 7; 37; 144; 11; 128; 136; 129; 64; 252; 132;
   64; 208; 128; 182; 144; 128; 154; 0; 1; 0; 64; 133; 59; 129; 64; 133; 11; 10; 130; 194; 154;
   218; 138; 185; 138; 161; 129; 253; 135; 168; 137; 143; 155; 188; 128; 143; 2; 131; 155; 128;
   201; 128; 143; 128; 237; 128; 143; 128; 237; 128; 143; 128; 174; 130; 187; 128; 143; 6; 128;
   246; 128; 237; 128; 143; 128; 237; 128; 143; 128; 236; 129; 143; 128; 251; 128; 238; 128; 139;
   40; 128; 234; 128; 140; 132; 202; 129; 154; 0; 0; 3; 129; 193; 16; 129; 189; 128; 239; 0; 129;
   167; 11; 132; 152; 48; 128; 137; 129; 66; 192; 130; 67; 179; 129; 157; 128; 64; 147; 138; 136;
   128; 65; 90; 130; 65; 35; 128; 147; 57; 128; 175; 142; 129; 138; 231; 128; 142; 128; 165; 136;
   181; 129; 185; 128; 138; 129; 193; 129; 191; 133; 209; 152; 24; 40; 10; 177; 190; 216; 139;
   164; 138; 65; 188; 0; 130; 138; 130; 140; 130; 140; 130; 140; 129; 76; 239; 130; 65; 60; 128;
   65; 249; 133; 232; 131; 222; 128; 96; 117; 113; 128; 139; 8; 128; 155; 129; 209; 129; 141;
   161; 229; 130; 236; 129; 139; 128; 164; 128; 64; 150; 128; 154; 145; 184; 131; 163; 128; 222;
   128; 139; 128; 163; 128; 64; 148; 130; 192; 131; 178; 128; 227; 132; 136; 130; 255; 129; 96;
   79; 47; 128; 67; 0; 143; 65; 13; 0; 128; 174; 128; 172; 129; 194; 128; 66; 251; 128; 68; 158;
   40; 169; 128; 136; 66; 124; 19; 128; 64; 164; 129; 66; 58; 133; 165; 128; 153; 132; 65; 142;
   130; 197; 138; 176; 131; 64; 191; 128; 168; 128; 199; 129; 247; 129; 189; 128; 203; 128; 136;
   130; 231; 129; 64; 177; 129; 207; 129; 143; 128; 151; 50; 132; 216; 16; 129; 140; 129; 222; 2;
   128; 250; 129; 64; 250; 129; 253; 128; 245; 129; 242; 128; 65; 12; 129; 65; 1; 11; 128; 64;
   155; 128; 210; 128; 145; 128; 208; 128; 65; 164; 128; 65; 1; 0; 129; 208; 128; 65; 168; 129;
   150; 128; 84; 235; 142; 96; 44; 216; 128; 73; 191; 132; 186; 134; 66; 51; 129; 66; 33; 144;
   207; 129; 96; 63; 253; 24; 48; 129; 95; 0; 173; 129; 150; 66; 31; 18; 47; 57; 134; 157; 131;
   78; 129; 189; 64; 193; 134; 65; 118; 128; 188; 131; 66; 253; 129; 66; 223; 134; 236; 16; 130].

Definition unicode_prop_Extender_table : list Z :=
  [64; 182; 128; 66; 23; 129; 67; 109; 128; 65; 184; 128; 66; 117; 128; 64; 136; 128; 216; 128;
   66; 239; 128; 254; 128; 73; 66; 128; 183; 128; 66; 98; 128; 65; 141; 128; 195; 128; 83; 136;
   128; 170; 132; 230; 129; 220; 130; 96; 111; 21; 128; 69; 245; 128; 67; 193; 128; 149; 128; 64;
   136; 128; 235; 128; 148; 129; 96; 84; 122; 128; 72; 15; 129; 69; 202; 128; 154; 3; 128; 68;
   198; 128; 65; 36; 128; 243; 129; 65; 241; 130; 68; 206; 128; 96; 80; 168; 129; 68; 155; 8;
   128; 96; 113; 87; 129; 68; 176; 128; 67; 83; 130].

Definition unicode_prop_Hex_Digit_table : list Z :=
  [175; 137; 53; 153; 133; 96; 254; 168; 137; 53; 153; 133].

Definition unicode_prop_IDS_Unary_Operator_table : list Z :=
  [96; 47; 253; 129].

Definition unicode_prop_IDS_Binary_Operator_table : list Z :=
  [96; 47; 239; 9; 137; 65; 240; 128].

Definition unicode_prop_IDS_Trinary_Operator_table : list Z :=
  [96; 47; 241; 129].

Definition unicode_prop_Ideographic_table : list Z :=
  [96; 48; 5; 129; 152; 136; 141; 130; 67; 196; 89; 191; 191; 96; 81; 255; 96; 88; 255; 65; 109;
   129; 233; 96; 117; 9; 128; 154; 87; 247; 135; 68; 213; 168; 137; 96; 36; 102; 65; 139; 96; 77;
   3; 96; 166; 223; 159; 80; 57; 133; 64; 221; 129; 86; 129; 141; 93; 48; 142; 66; 109; 73; 161;
   66; 29; 69; 225; 83; 74; 132; 80; 95].

Definition unicode_prop_Join_Control_table : list Z :=
  [96; 32; 11; 129].

Definition unicode_prop_Logical_Order_Exception_table : list Z :=
  [78; 63; 132; 250; 132; 74; 239; 17; 128; 96; 144; 249; 9; 0; 129].

Definition unicode_prop_Modifier_Combining_Mark_table : list Z :=
  [70; 83; 9; 128; 64; 130; 5; 2; 129; 65; 224; 8; 18; 128; 158; 128].

Definition unicode_prop_Noncharacter_Code_Point_table : list Z :=
  [96; 253; 207; 159; 66; 13; 129; 96; 255; 253; 129; 96; 255; 253; 129; 96; 255; 253; 129; 96;
   255; 253; 129; 96; 255; 253; 129; 96; 255; 253; 129; 96; 255; 253; 129; 96; 255; 253; 129; 96;
   255; 253; 129; 96; 255; 253; 129; 96; 255; 253; 129; 96; 255; 253; 129; 96; 255; 253; 129; 96;
   255; 253; 129; 96; 255; 253; 129; 96; 255; 253; 129].

Definition unicode_prop_Pattern_Syntax_table : list Z :=
  [160; 142; 137; 134; 153; 24; 128; 153; 131; 161; 48; 0; 8; 0; 11; 3; 2; 128; 150; 128; 158;
   128; 95; 23; 151; 135; 142; 129; 146; 128; 137; 65; 48; 66; 207; 64; 159; 66; 117; 157; 68;
   107; 65; 255; 255; 65; 128; 19; 152; 142; 128; 96; 205; 12; 129; 65; 4; 129].

Definition unicode_prop_Pattern_White_Space_table : list Z :=
  [136; 132; 145; 128; 227; 128; 95; 135; 129; 151; 129].

Definition unicode_prop_Quotation_Mark_table : list Z :=
  [161; 3; 128; 64; 130; 128; 142; 128; 95; 91; 135; 152; 129; 78; 6; 128; 65; 200; 131; 140;
   130; 96; 206; 32; 131; 64; 188; 3; 128; 217; 129].

Definition unicode_prop_Radical_table : list Z :=
  [96; 46; 127; 153; 128; 216; 139; 64; 213].

Definition unicode_prop_Regional_Indicator_table : list Z :=
  [97; 241; 229; 153].

Definition unicode_prop_Sentence_Terminal_table : list Z :=
  [160; 128; 139; 128; 143; 128; 69; 72; 128; 64; 146; 130; 64; 179; 128; 170; 130; 64; 245; 128;
   188; 0; 2; 129; 65; 36; 129; 70; 227; 129; 67; 21; 3; 129; 67; 4; 128; 64; 197; 129; 64; 156;
   129; 172; 4; 128; 65; 57; 129; 65; 97; 131; 64; 161; 129; 137; 9; 129; 156; 130; 64; 186; 129;
   192; 129; 67; 163; 128; 150; 129; 136; 130; 76; 174; 130; 65; 49; 128; 140; 128; 149; 129; 65;
   172; 128; 96; 116; 251; 128; 65; 13; 129; 64; 226; 2; 128; 65; 125; 129; 213; 129; 222; 128;
   64; 151; 129; 64; 146; 130; 64; 143; 129; 64; 248; 128; 96; 82; 37; 1; 129; 186; 2; 129; 64;
   168; 128; 139; 128; 143; 128; 192; 128; 74; 243; 129; 68; 252; 132; 171; 131; 64; 188; 129;
   244; 131; 254; 130; 64; 128; 13; 128; 143; 129; 215; 8; 129; 235; 128; 65; 41; 129; 244; 129;
   65; 116; 12; 142; 232; 129; 64; 248; 130; 66; 4; 0; 128; 64; 250; 129; 214; 129; 65; 163; 129;
   66; 179; 129; 201; 129; 96; 75; 40; 129; 64; 132; 128; 192; 129; 138; 128; 66; 40; 129; 65;
   39; 128; 96; 78; 5; 128; 93; 231; 128].

Definition unicode_prop_Soft_Dotted_table : list Z :=
  [232; 129; 64; 195; 128; 65; 24; 128; 157; 128; 179; 128; 147; 128; 65; 63; 128; 225; 0; 128;
   89; 8; 128; 178; 128; 140; 2; 128; 64; 131; 128; 64; 156; 128; 65; 164; 128; 64; 213; 129; 75;
   49; 128; 97; 167; 164; 129; 177; 129; 177; 129; 177; 129; 177; 129; 177; 129; 177; 129; 177;
   129; 177; 129; 177; 129; 177; 129; 177; 129; 177; 129; 72; 133; 128; 65; 48; 129; 153; 128].

Definition unicode_prop_Terminal_Punctuation_table : list Z :=
  [160; 128; 137; 0; 128; 138; 10; 128; 67; 61; 7; 128; 66; 0; 128; 184; 128; 199; 128; 141; 0;
   130; 64; 179; 128; 170; 138; 0; 64; 234; 129; 181; 40; 135; 158; 128; 65; 4; 129; 68; 243;
   129; 64; 171; 3; 133; 65; 54; 129; 67; 20; 135; 67; 4; 128; 251; 130; 198; 129; 64; 156; 18;
   128; 166; 25; 129; 65; 57; 129; 65; 97; 131; 64; 161; 129; 137; 8; 130; 156; 130; 64; 186;
   132; 189; 129; 67; 163; 128; 150; 129; 136; 130; 76; 174; 130; 65; 49; 128; 140; 3; 128; 137;
   0; 10; 129; 65; 171; 129; 96; 116; 250; 129; 65; 12; 130; 64; 226; 132; 65; 125; 129; 213;
   129; 222; 128; 64; 150; 130; 64; 146; 130; 254; 128; 143; 129; 64; 248; 128; 96; 82; 37; 1;
   129; 184; 16; 131; 64; 168; 128; 137; 0; 128; 138; 10; 128; 192; 1; 128; 68; 57; 128; 175;
   128; 68; 133; 128; 64; 198; 128; 65; 53; 129; 64; 151; 133; 195; 133; 216; 131; 67; 183; 132;
   171; 131; 64; 188; 134; 239; 131; 254; 130; 64; 128; 13; 128; 143; 129; 215; 132; 235; 128;
   65; 41; 129; 244; 130; 139; 129; 65; 101; 26; 142; 232; 129; 64; 248; 130; 66; 4; 0; 128; 64;
   250; 129; 214; 11; 129; 65; 157; 130; 172; 128; 66; 132; 129; 201; 129; 69; 42; 132; 96; 69;
   248; 129; 64; 132; 128; 192; 130; 137; 128; 66; 40; 129; 65; 38; 129; 96; 78; 5; 128; 93; 230;
   131].

Definition unicode_prop_Unified_Ideograph_table : list Z :=
  [96; 51; 255; 89; 191; 191; 96; 81; 255; 96; 90; 13; 8; 0; 129; 137; 0; 0; 9; 130; 97; 5; 213;
   96; 166; 223; 159; 80; 57; 133; 64; 221; 129; 86; 129; 141; 93; 48; 142; 66; 109; 81; 161; 83;
   74; 132; 80; 95].

Definition unicode_prop_Variation_Selector_table : list Z :=
  [88; 10; 16; 128; 96; 229; 239; 143; 109; 2; 239; 64; 239].

Definition unicode_prop_Bidi_Mirrored_table : list Z :=
  [167; 129; 145; 0; 128; 155; 0; 128; 156; 0; 128; 172; 128; 142; 128; 78; 125; 131; 71; 92;
   129; 73; 155; 129; 137; 129; 181; 129; 141; 129; 64; 176; 128; 64; 191; 26; 42; 2; 10; 24; 24;
   0; 3; 136; 32; 128; 145; 35; 136; 8; 0; 56; 159; 11; 32; 136; 9; 146; 33; 136; 33; 11; 151;
   129; 143; 59; 147; 14; 129; 68; 60; 141; 201; 1; 24; 8; 20; 28; 18; 141; 65; 146; 149; 13;
   128; 141; 56; 53; 16; 28; 1; 12; 24; 2; 9; 137; 41; 129; 139; 146; 3; 8; 0; 8; 3; 33; 42; 151;
   129; 138; 11; 24; 9; 11; 170; 15; 128; 167; 32; 0; 20; 34; 24; 20; 0; 64; 255; 128; 66; 2; 26;
   8; 129; 141; 9; 137; 170; 135; 65; 170; 137; 15; 96; 206; 60; 44; 129; 64; 161; 129; 145; 0;
   128; 155; 0; 128; 156; 0; 0; 8; 129; 96; 215; 118; 128; 184; 128; 184; 128; 184; 128; 184; 128].

Definition unicode_prop_Emoji_table : list Z :=
  [162; 5; 4; 137; 238; 3; 128; 95; 140; 128; 139; 128; 64; 215; 128; 149; 128; 217; 133; 142;
   129; 65; 110; 129; 139; 128; 64; 165; 128; 152; 138; 26; 64; 198; 128; 64; 230; 129; 137; 128;
   136; 128; 185; 24; 132; 136; 1; 1; 9; 3; 1; 0; 9; 2; 2; 15; 20; 0; 4; 139; 138; 9; 0; 8; 128;
   145; 1; 129; 145; 40; 0; 10; 12; 1; 11; 129; 138; 12; 9; 4; 8; 0; 129; 147; 12; 40; 25; 3; 1;
   1; 40; 1; 0; 0; 5; 2; 5; 128; 137; 129; 142; 1; 3; 0; 3; 16; 128; 138; 129; 175; 130; 136;
   128; 141; 128; 141; 128; 65; 115; 129; 65; 206; 130; 146; 129; 178; 3; 128; 68; 217; 128; 139;
   128; 66; 88; 0; 128; 97; 189; 105; 128; 64; 201; 128; 64; 159; 129; 139; 129; 141; 1; 137;
   202; 153; 1; 150; 128; 147; 1; 136; 148; 129; 64; 173; 161; 129; 239; 9; 2; 129; 210; 10; 128;
   65; 6; 128; 190; 138; 40; 151; 49; 15; 139; 1; 25; 3; 129; 140; 9; 7; 129; 136; 4; 130; 139;
   23; 17; 0; 3; 5; 2; 5; 213; 175; 197; 39; 10; 131; 137; 16; 1; 16; 129; 137; 64; 226; 139; 24;
   65; 26; 174; 128; 137; 128; 64; 184; 239; 140; 130; 137; 132; 183; 134; 142; 129; 138; 133; 136].

Definition unicode_prop_Emoji_Component_table : list Z :=
  [162; 5; 4; 137; 95; 210; 128; 64; 212; 128; 96; 221; 42; 128; 96; 243; 213; 153; 65; 250; 132;
   69; 175; 131; 108; 6; 107; 223].

Definition unicode_prop_Emoji_Modifier_table : list Z :=
  [97; 243; 250; 132].

Definition unicode_prop_Emoji_Modifier_Base_table : list Z :=
  [96; 38; 28; 128; 64; 218; 128; 143; 131; 97; 204; 118; 128; 187; 17; 1; 130; 244; 9; 138; 148;
   146; 16; 26; 2; 48; 0; 151; 128; 64; 200; 11; 128; 148; 3; 129; 64; 173; 18; 132; 210; 128;
   143; 130; 136; 128; 138; 128; 66; 62; 1; 7; 61; 128; 136; 137; 10; 183; 128; 188; 8; 8; 128;
   144; 16; 140; 64; 228; 130; 169; 136].

Definition unicode_prop_Emoji_Presentation_table : list Z :=
  [96; 35; 25; 129; 64; 204; 26; 1; 128; 66; 8; 129; 148; 129; 177; 139; 170; 128; 146; 128; 140;
   7; 129; 144; 12; 15; 4; 128; 148; 6; 8; 3; 1; 6; 3; 129; 155; 128; 162; 0; 3; 16; 128; 188;
   130; 151; 128; 141; 128; 67; 90; 129; 178; 3; 128; 97; 196; 173; 128; 64; 201; 128; 64; 189;
   1; 137; 202; 153; 0; 151; 128; 147; 1; 32; 130; 148; 129; 64; 173; 160; 139; 136; 128; 197;
   128; 149; 139; 170; 28; 139; 144; 16; 130; 198; 0; 128; 64; 186; 129; 190; 140; 24; 151; 145;
   128; 153; 129; 140; 128; 213; 212; 175; 197; 40; 18; 10; 27; 138; 14; 136; 64; 226; 139; 24;
   65; 26; 174; 128; 137; 128; 64; 184; 239; 140; 130; 137; 132; 183; 134; 142; 129; 138; 133; 136].

Definition unicode_prop_Extended_Pictographic_table : list Z :=
  [64; 168; 3; 128; 95; 140; 128; 139; 128; 64; 215; 128; 149; 128; 217; 133; 142; 129; 65; 110;
   129; 139; 128; 222; 128; 197; 128; 152; 138; 26; 64; 198; 128; 64; 230; 129; 137; 128; 136;
   128; 185; 24; 40; 139; 128; 241; 137; 245; 129; 138; 0; 0; 40; 16; 40; 137; 129; 142; 1; 3; 0;
   3; 16; 128; 138; 132; 172; 130; 136; 128; 141; 128; 141; 128; 65; 115; 129; 65; 206; 130; 146;
   129; 178; 3; 128; 68; 217; 128; 139; 128; 66; 88; 0; 128; 97; 189; 101; 64; 255; 140; 130;
   158; 128; 187; 133; 139; 129; 141; 1; 137; 145; 184; 154; 142; 137; 128; 147; 1; 136; 3; 136;
   65; 177; 132; 65; 61; 135; 65; 9; 175; 255; 243; 139; 212; 170; 139; 131; 183; 135; 137; 133;
   167; 135; 157; 209; 139; 174; 128; 137; 128; 65; 184; 64; 255; 67; 253].

Definition unicode_prop_Default_Ignorable_Code_Point_table : list Z :=
  [64; 172; 128; 66; 160; 128; 66; 203; 128; 75; 65; 129; 70; 82; 129; 212; 132; 71; 250; 132;
   153; 132; 176; 143; 80; 243; 128; 96; 204; 154; 143; 64; 238; 128; 64; 159; 128; 206; 136; 96;
   188; 166; 131; 84; 206; 135; 108; 46; 132; 79; 255].

(** [UnicodePropertyEnum]. *)
Definition UNICODE_PROP_Hyphen : Z := 0.
Definition UNICODE_PROP_Other_Math : Z := 1.
Definition UNICODE_PROP_Other_Alphabetic : Z := 2.
Definition UNICODE_PROP_Other_Lowercase : Z := 3.
Definition UNICODE_PROP_Other_Uppercase : Z := 4.
Definition UNICODE_PROP_Other_Grapheme_Extend : Z := 5.
Definition UNICODE_PROP_Other_Default_Ignorable_Code_Point : Z := 6.
Definition UNICODE_PROP_Other_ID_Start : Z := 7.
Definition UNICODE_PROP_Other_ID_Continue : Z := 8.
Definition UNICODE_PROP_Prepended_Concatenation_Mark : Z := 9.
Definition UNICODE_PROP_ID_Continue1 : Z := 10.
Definition UNICODE_PROP_XID_Start1 : Z := 11.
Definition UNICODE_PROP_XID_Continue1 : Z := 12.
Definition UNICODE_PROP_Changes_When_Titlecased1 : Z := 13.
Definition UNICODE_PROP_Changes_When_Casefolded1 : Z := 14.
Definition UNICODE_PROP_Changes_When_NFKC_Casefolded1 : Z := 15.
Definition UNICODE_PROP_ASCII_Hex_Digit : Z := 16.
Definition UNICODE_PROP_Bidi_Control : Z := 17.
Definition UNICODE_PROP_Dash : Z := 18.
Definition UNICODE_PROP_Deprecated : Z := 19.
Definition UNICODE_PROP_Diacritic : Z := 20.
Definition UNICODE_PROP_Extender : Z := 21.
Definition UNICODE_PROP_Hex_Digit : Z := 22.
Definition UNICODE_PROP_IDS_Unary_Operator : Z := 23.
Definition UNICODE_PROP_IDS_Binary_Operator : Z := 24.
Definition UNICODE_PROP_IDS_Trinary_Operator : Z := 25.
Definition UNICODE_PROP_Ideographic : Z := 26.
Definition UNICODE_PROP_Join_Control : Z := 27.
Definition UNICODE_PROP_Logical_Order_Exception : Z := 28.
Definition UNICODE_PROP_Modifier_Combining_Mark : Z := 29.
Definition UNICODE_PROP_Noncharacter_Code_Point : Z := 30.
Definition UNICODE_PROP_Pattern_Syntax : Z := 31.
Definition UNICODE_PROP_Pattern_White_Space : Z := 32.
Definition UNICODE_PROP_Quotation_Mark : Z := 33.
Definition UNICODE_PROP_Radical : Z := 34.
Definition UNICODE_PROP_Regional_Indicator : Z := 35.
Definition UNICODE_PROP_Sentence_Terminal : Z := 36.
Definition UNICODE_PROP_Soft_Dotted : Z := 37.
Definition UNICODE_PROP_Terminal_Punctuation : Z := 38.
Definition UNICODE_PROP_Unified_Ideograph : Z := 39.
Definition UNICODE_PROP_Variation_Selector : Z := 40.
Definition UNICODE_PROP_White_Space : Z := 41.
Definition UNICODE_PROP_Bidi_Mirrored : Z := 42.
Definition UNICODE_PROP_Emoji : Z := 43.
Definition UNICODE_PROP_Emoji_Component : Z := 44.
Definition UNICODE_PROP_Emoji_Modifier : Z := 45.
Definition UNICODE_PROP_Emoji_Modifier_Base : Z := 46.
Definition UNICODE_PROP_Emoji_Presentation : Z := 47.
Definition UNICODE_PROP_Extended_Pictographic : Z := 48.
Definition UNICODE_PROP_Default_Ignorable_Code_Point : Z := 49.
Definition UNICODE_PROP_ID_Start : Z := 50.
Definition UNICODE_PROP_Case_Ignorable : Z := 51.
Definition UNICODE_PROP_ASCII : Z := 52.
Definition UNICODE_PROP_Alphabetic : Z := 53.
Definition UNICODE_PROP_Any : Z := 54.
Definition UNICODE_PROP_Assigned : Z := 55.
Definition UNICODE_PROP_Cased : Z := 56.
Definition UNICODE_PROP_Changes_When_Casefolded : Z := 57.
Definition UNICODE_PROP_Changes_When_Casemapped : Z := 58.
Definition UNICODE_PROP_Changes_When_Lowercased : Z := 59.
Definition UNICODE_PROP_Changes_When_NFKC_Casefolded : Z := 60.
Definition UNICODE_PROP_Changes_When_Titlecased : Z := 61.
Definition UNICODE_PROP_Changes_When_Uppercased : Z := 62.
Definition UNICODE_PROP_Grapheme_Base : Z := 63.
Definition UNICODE_PROP_Grapheme_Extend : Z := 64.
Definition UNICODE_PROP_ID_Continue : Z := 65.
Definition UNICODE_PROP_ID_Compat_Math_Start : Z := 66.
Definition UNICODE_PROP_ID_Compat_Math_Continue : Z := 67.
Definition UNICODE_PROP_Lowercase : Z := 68.
Definition UNICODE_PROP_Math : Z := 69.
Definition UNICODE_PROP_Uppercase : Z := 70.
Definition UNICODE_PROP_XID_Continue : Z := 71.
Definition UNICODE_PROP_XID_Start : Z := 72.
Definition UNICODE_PROP_Cased1 : Z := 73.
Definition UNICODE_PROP_InCB : Z := 74.
Definition UNICODE_PROP_COUNT : Z := 75.

Definition unicode_prop_name_table : list Z := c_names [
  "ASCII_Hex_Digit,AHex";
  "Bidi_Control,Bidi_C";
  "Dash";
  "Deprecated,Dep";
  "Diacritic,Dia";
  "Extender,Ext";
  "Hex_Digit,Hex";
  "IDS_Unary_Operator,IDSU";
  "IDS_Binary_Operator,IDSB";
  "IDS_Trinary_Operator,IDST";
  "Ideographic,Ideo";
  "Join_Control,Join_C";
  "Logical_Order_Exception,LOE";
  "Modifier_Combining_Mark,MCM";
  "Noncharacter_Code_Point,NChar";
  "Pattern_Syntax,Pat_Syn";
  "Pattern_White_Space,Pat_WS";
  "Quotation_Mark,QMark";
  "Radical";
  "Regional_Indicator,RI";
  "Sentence_Terminal,STerm";
  "Soft_Dotted,SD";
  "Terminal_Punctuation,Term";
  "Unified_Ideograph,UIdeo";
  "Variation_Selector,VS";
  "White_Space,space";
  "Bidi_Mirrored,Bidi_M";
  "Emoji";
  "Emoji_Component,EComp";
  "Emoji_Modifier,EMod";
  "Emoji_Modifier_Base,EBase";
  "Emoji_Presentation,EPres";
  "Extended_Pictographic,ExtPict";
  "Default_Ignorable_Code_Point,DI";
  "ID_Start,IDS";
  "Case_Ignorable,CI";
  "ASCII";
  "Alphabetic,Alpha";
  "Any";
  "Assigned";
  "Cased";
  "Changes_When_Casefolded,CWCF";
  "Changes_When_Casemapped,CWCM";
  "Changes_When_Lowercased,CWL";
  "Changes_When_NFKC_Casefolded,CWKCF";
  "Changes_When_Titlecased,CWT";
  "Changes_When_Uppercased,CWU";
  "Grapheme_Base,Gr_Base";
  "Grapheme_Extend,Gr_Ext";
  "ID_Continue,IDC";
  "ID_Compat_Math_Start";
  "ID_Compat_Math_Continue";
  "Lowercase,Lower";
  "Math";
  "Uppercase,Upper";
  "XID_Continue,XIDC";
  "XID_Start,XIDS"].

Definition unicode_prop_table : list (list Z) :=
  [unicode_prop_Hyphen_table; unicode_prop_Other_Math_table; unicode_prop_Other_Alphabetic_table;
   unicode_prop_Other_Lowercase_table; unicode_prop_Other_Uppercase_table;
   unicode_prop_Other_Grapheme_Extend_table;
   unicode_prop_Other_Default_Ignorable_Code_Point_table; unicode_prop_Other_ID_Start_table;
   unicode_prop_Other_ID_Continue_table; unicode_prop_Prepended_Concatenation_Mark_table;
   unicode_prop_ID_Continue1_table; unicode_prop_XID_Start1_table;
   unicode_prop_XID_Continue1_table; unicode_prop_Changes_When_Titlecased1_table;
   unicode_prop_Changes_When_Casefolded1_table; unicode_prop_Changes_When_NFKC_Casefolded1_table;
   unicode_prop_ASCII_Hex_Digit_table; unicode_prop_Bidi_Control_table; unicode_prop_Dash_table;
   unicode_prop_Deprecated_table; unicode_prop_Diacritic_table; unicode_prop_Extender_table;
   unicode_prop_Hex_Digit_table; unicode_prop_IDS_Unary_Operator_table;
   unicode_prop_IDS_Binary_Operator_table; unicode_prop_IDS_Trinary_Operator_table;
   unicode_prop_Ideographic_table; unicode_prop_Join_Control_table;
   unicode_prop_Logical_Order_Exception_table; unicode_prop_Modifier_Combining_Mark_table;
   unicode_prop_Noncharacter_Code_Point_table; unicode_prop_Pattern_Syntax_table;
   unicode_prop_Pattern_White_Space_table; unicode_prop_Quotation_Mark_table;
   unicode_prop_Radical_table; unicode_prop_Regional_Indicator_table;
   unicode_prop_Sentence_Terminal_table; unicode_prop_Soft_Dotted_table;
   unicode_prop_Terminal_Punctuation_table; unicode_prop_Unified_Ideograph_table;
   unicode_prop_Variation_Selector_table; unicode_prop_White_Space_table;
   unicode_prop_Bidi_Mirrored_table; unicode_prop_Emoji_table;
   unicode_prop_Emoji_Component_table; unicode_prop_Emoji_Modifier_table;
   unicode_prop_Emoji_Modifier_Base_table; unicode_prop_Emoji_Presentation_table;
   unicode_prop_Extended_Pictographic_table; unicode_prop_Default_Ignorable_Code_Point_table;
   unicode_prop_ID_Start_table; unicode_prop_Case_Ignorable_table].

Definition unicode_prop_len_table : list Z :=
  [zlen unicode_prop_Hyphen_table; zlen unicode_prop_Other_Math_table;
   zlen unicode_prop_Other_Alphabetic_table; zlen unicode_prop_Other_Lowercase_table;
   zlen unicode_prop_Other_Uppercase_table; zlen unicode_prop_Other_Grapheme_Extend_table;
   zlen unicode_prop_Other_Default_Ignorable_Code_Point_table;
   zlen unicode_prop_Other_ID_Start_table; zlen unicode_prop_Other_ID_Continue_table;
   zlen unicode_prop_Prepended_Concatenation_Mark_table; zlen unicode_prop_ID_Continue1_table;
   zlen unicode_prop_XID_Start1_table; zlen unicode_prop_XID_Continue1_table;
   zlen unicode_prop_Changes_When_Titlecased1_table;
   zlen unicode_prop_Changes_When_Casefolded1_table;
   zlen unicode_prop_Changes_When_NFKC_Casefolded1_table;
   zlen unicode_prop_ASCII_Hex_Digit_table; zlen unicode_prop_Bidi_Control_table;
   zlen unicode_prop_Dash_table; zlen unicode_prop_Deprecated_table;
   zlen unicode_prop_Diacritic_table; zlen unicode_prop_Extender_table;
   zlen unicode_prop_Hex_Digit_table; zlen unicode_prop_IDS_Unary_Operator_table;
   zlen unicode_prop_IDS_Binary_Operator_table; zlen unicode_prop_IDS_Trinary_Operator_table;
   zlen unicode_prop_Ideographic_table; zlen unicode_prop_Join_Control_table;
   zlen unicode_prop_Logical_Order_Exception_table;
   zlen unicode_prop_Modifier_Combining_Mark_table;
   zlen unicode_prop_Noncharacter_Code_Point_table; zlen unicode_prop_Pattern_Syntax_table;
   zlen unicode_prop_Pattern_White_Space_table; zlen unicode_prop_Quotation_Mark_table;
   zlen unicode_prop_Radical_table; zlen unicode_prop_Regional_Indicator_table;
   zlen unicode_prop_Sentence_Terminal_table; zlen unicode_prop_Soft_Dotted_table;
   zlen unicode_prop_Terminal_Punctuation_table; zlen unicode_prop_Unified_Ideograph_table;
   zlen unicode_prop_Variation_Selector_table; zlen unicode_prop_White_Space_table;
   zlen unicode_prop_Bidi_Mirrored_table; zlen unicode_prop_Emoji_table;
   zlen unicode_prop_Emoji_Component_table; zlen unicode_prop_Emoji_Modifier_table;
   zlen unicode_prop_Emoji_Modifier_Base_table; zlen unicode_prop_Emoji_Presentation_table;
   zlen unicode_prop_Extended_Pictographic_table;
   zlen unicode_prop_Default_Ignorable_Code_Point_table; zlen unicode_prop_ID_Start_table;
   zlen unicode_prop_Case_Ignorable_table].
