(* ===== verification/CaseConv.v ===== *)
(** Case conversion, case folding and the run-length property tables of
    [libunicode.c]. *)
From Stdlib Require Import ZArith Lia Bool List.
From stdpp Require Import base tactics list numbers.
From S2P Require Import Prelude UnicodeTables.

(** The run types of [case_conv_table1], a 4-bit tag. *)
Definition RUN_TYPE_U : Z := 0.
Definition RUN_TYPE_L : Z := 1.
Definition RUN_TYPE_UF : Z := 2.
Definition RUN_TYPE_LF : Z := 3.
Definition RUN_TYPE_UL : Z := 4.
Definition RUN_TYPE_LSU : Z := 5.
Definition RUN_TYPE_U2L_399_EXT2 : Z := 6.
Definition RUN_TYPE_UF_D20 : Z := 7.
Definition RUN_TYPE_UF_D1_EXT : Z := 8.
Definition RUN_TYPE_U_EXT : Z := 9.
Definition RUN_TYPE_LF_EXT : Z := 10.
Definition RUN_TYPE_UF_EXT2 : Z := 11.
Definition RUN_TYPE_LF_EXT2 : Z := 12.
Definition RUN_TYPE_UF_EXT3 : Z := 13.

(** The fields of an entry: first code point, length of the run, run type. *)
Definition entry_code (v : Z) : Z := Z.shiftr v (32 - 17).
Definition entry_len (v : Z) : Z := Z.land (Z.shiftr v (32 - 17 - 7)) 0x7f.
Definition entry_type (v : Z) : Z := Z.land (Z.shiftr v (32 - 17 - 7 - 4)) 0xf.

(** The multi-character results after the lower casing of case folding. *)
Definition conv_all (conv1 : Z -> outcome Z) (res : list Z) : outcome (list Z) :=
  fold_right (fun c k => let* c := conv1 c in let* r := k in Ret (c :: r)) (Ret []) res.

(** [lre_case_conv_entry]: the characters stored in [res]; [conv1] is
    [lre_case_conv1(_, 1)]. *)
Definition lre_case_conv_entry (conv1 : Z -> outcome Z) (c conv_type idx v : Z)
    : outcome (list Z) :=
  let is_lower := b2z (negb (conv_type =? 0)) in
  let type := entry_type v in
  let* t2 := rd case_conv_table2 idx in
  let data := Z.lor (Z.shiftl (Z.land v 0xf) 8) t2 in
  let code := entry_code v in
  let ext i := rd case_conv_ext i in
  if type <=? RUN_TYPE_LF then
    if (conv_type =? Z.land type 1) || ((RUN_TYPE_UF <=? type) && (conv_type =? 2)) then
      let* t1 := rd case_conv_table1 data in
      Ret [u32 (c - code + entry_code t1)]
    else Ret [c]
  else if type =? RUN_TYPE_UL then
    let a := u32 (c - code) in
    if negb (Z.land a 1 =? 1 - is_lower) then Ret [c]
    else Ret [u32 (Z.lxor a 1 + code)]
  else if type =? RUN_TYPE_LSU then
    let a := u32 (c - code) in
    if a =? 1 then Ret [u32 (c + (2 * is_lower - 1))]
    else if a =? (1 - is_lower) * 2 then Ret [u32 (c + (2 * is_lower - 1) * 2)]
    else Ret [c]
  else if type =? RUN_TYPE_U2L_399_EXT2 then
    if is_lower =? 0 then
      let* e := ext (Z.shiftr data 6) in Ret [u32 (c - code + e); 0x399]
    else
      let* e := ext (Z.land data 0x3f) in Ret [u32 (c - code + e)]
  else if type =? RUN_TYPE_UF_D20 then
    if conv_type =? 1 then Ret [c]
    else Ret [data + b2z (conv_type =? 2) * 0x20]
  else if type =? RUN_TYPE_UF_D1_EXT then
    if conv_type =? 1 then Ret [c]
    else let* e := ext data in Ret [e + b2z (conv_type =? 2)]
  else if (type =? RUN_TYPE_U_EXT) || (type =? RUN_TYPE_LF_EXT) then
    if negb (is_lower =? type - RUN_TYPE_U_EXT) then Ret [c]
    else let* e := ext data in Ret [e]
  else if type =? RUN_TYPE_LF_EXT2 then
    if is_lower =? 0 then Ret [c]
    else
      let* e := ext (Z.shiftr data 6) in
      let* e1 := ext (Z.land data 0x3f) in
      Ret [u32 (c - code + e); e1]
  else if type =? RUN_TYPE_UF_EXT2 then
    if conv_type =? 1 then Ret [c]
    else
      let* e := ext (Z.shiftr data 6) in
      let* e1 := ext (Z.land data 0x3f) in
      let res := [u32 (c - code + e); e1] in
      if conv_type =? 2 then conv_all conv1 res else Ret res
  else
    if conv_type =? 1 then Ret [c]
    else
      let* e := ext (Z.shiftr data 8) in
      let* e1 := ext (Z.land (Z.shiftr data 4) 0xf) in
      let* e2 := ext (Z.land data 0xf) in
      let res := [e; e1; e2] in
      if conv_type =? 2 then conv_all conv1 res else Ret res.

(** The binary search in [case_conv_table1] for the run of [c]: its index and
    entry. *)
Definition case_conv_find (c : Z) : outcome (option (Z * Z)) :=
  iter 400 (fun '(idx_min, idx_max) =>
    if idx_min <=? idx_max then
      let idx := (idx_max + idx_min) / 2 in
      let* v := rd case_conv_table1 idx in
      let code := entry_code v in
      let len := entry_len v in
      if c <? code then Ret (inl (idx_min, idx - 1))
      else if code + len <=? c then Ret (inl (idx + 1, idx_max))
      else Ret (inr (Some (idx, v)))
    else Ret (inr None)) (0, zlen case_conv_table1 - 1).

Definition in_AZ (c : Z) : bool := (65 <=? c) && (c <=? 90).
Definition in_az (c : Z) : bool := (97 <=? c) && (c <=? 122).

(** [lre_case_conv]; [fuel] bounds the calls of [lre_case_conv1] from an entry
    of the table, which are one deep. *)
Fixpoint lre_case_conv_rec (fuel : nat) (c conv_type : Z) : outcome (list Z) :=
  if c <? 128 then
    if negb (conv_type =? 0) then
      if in_AZ c then Ret [c - 65 + 97] else Ret [c]
    else
      if in_az c then Ret [c - 97 + 65] else Ret [c]
  else
    let* r := case_conv_find c in
    match r with
    | Some (idx, v) =>
        lre_case_conv_entry (fun c =>
          match fuel with
          | O => Err OutOfFuel
          | S fuel => let* res := lre_case_conv_rec fuel c 1 in rd res 0
          end) c conv_type idx v
    | None => Ret [c]
    end.

Definition lre_case_conv (c conv_type : Z) : outcome (list Z) := lre_case_conv_rec 1 c conv_type.

Definition lre_case_conv1 (c conv_type : Z) : outcome Z :=
  let* res := lre_case_conv c conv_type in rd res 0.

Definition lre_case_folding_entry (c idx v : Z) (is_unicode : bool) : outcome Z :=
  if is_unicode then
    let* res := lre_case_conv_entry (fun c => lre_case_conv1 c 1) c 2 idx v in
    if zlen res =? 1 then rd res 0
    else if c =? 0xfb06 then Ret 0xfb05
    else if c =? 0x01fd3 then Ret 0x390
    else if c =? 0x01fe3 then Ret 0x3b0
    else Ret c
  else if c <? 128 then
    if in_az c then Ret (c - 97 + 65) else Ret c
  else
    let* res := lre_case_conv_entry (fun c => lre_case_conv1 c 1) c 0 idx v in
    let* r0 := rd res 0 in
    if (zlen res =? 1) && (128 <=? r0) then Ret r0 else Ret c.

Definition lre_canonicalize (c : Z) (is_unicode : bool) : outcome Z :=
  if c <? 128 then
    if is_unicode then
      if in_AZ c then Ret (c - 65 + 97) else Ret c
    else
      if in_az c then Ret (c - 97 + 65) else Ret c
  else
    let* r := case_conv_find c in
    match r with
    | Some (idx, v) => lre_case_folding_entry c idx v is_unicode
    | None => Ret c
    end.

(** * Property tables *)

Definition get_le24 (m : list Z) (p : Z) : outcome Z :=
  let* a := rd m p in
  let* b := rd m (p + 1) in
  let* c := rd m (p + 2) in
  Ret (Z.lor (Z.lor a (Z.shiftl b 8)) (Z.shiftl c 16)).

Definition UNICODE_INDEX_BLOCK_LEN : Z := 32.

(** The returned offset and [*pcode]. *)
Definition get_index_pos (c : Z) (index_table : list Z) (index_table_len : Z)
    : outcome (Z * Z) :=
  let* v := get_le24 index_table 0 in
  let code := Z.land v (Z.shiftl 1 21 - 1) in
  if c <? code then Ret (0, 0)
  else
    let idx_max := index_table_len - 1 in
    let* code := get_le24 index_table (idx_max * 3) in
    if code <=? c then Ret (-1, 0)
    else
      let* idx_min := iter (S (Z.to_nat index_table_len)) (fun '(idx_min, idx_max) =>
        if 1 <? idx_max - idx_min then
          let idx := (idx_max + idx_min) / 2 in
          let* v := get_le24 index_table (idx * 3) in
          let code := Z.land v (Z.shiftl 1 21 - 1) in
          if c <? code then Ret (inl (idx_min, idx)) else Ret (inl (idx, idx_max))
        else Ret (inr idx_min)) (0, idx_max) in
      let* v := get_le24 index_table (idx_min * 3) in
      Ret ((idx_min + 1) * UNICODE_INDEX_BLOCK_LEN + Z.shiftr v 21,
           Z.land v (Z.shiftl 1 21 - 1)).

(** The end of the run that the byte [b] read before [p] starts at [code]
    (for [b >= 64]), and the position after it. *)
Definition table_run (table : list Z) (p code b : Z) : outcome (Z * Z) :=
  if 0x80 <=? b then Ret (code + (b - 0x80 + 1), p)
  else if b <? 0x60 then
    let* b1 := rd table p in
    Ret (code + (Z.lor (Z.shiftl (b - 0x40) 8) b1 + 1), p + 1)
  else
    let* b1 := rd table p in
    let* b2 := rd table (p + 1) in
    Ret (code + (Z.lor (Z.lor (Z.shiftl (b - 0x60) 16) (Z.shiftl b1 8)) b2 + 1), p + 2).

Definition lre_is_in_table_step (c : Z) (table : list Z) '(p, code, bit)
    : outcome (Z * Z * bool + bool) :=
  let* b := rd table p in
  let p := p + 1 in
  if b <? 64 then
    let code := code + (Z.shiftr b 3 + 1) in
    if c <? code then Ret (inr bit)
    else
      let bit := negb bit in
      let code := code + (Z.land b 7 + 1) in
      if c <? code then Ret (inr bit) else Ret (inl (p, code, negb bit))
  else
    let* (code, p) := table_run table p code b in
    if c <? code then Ret (inr bit) else Ret (inl (p, code, negb bit)).

Definition lre_is_in_table (c : Z) (table index_table : list Z) (index_table_len : Z)
    : outcome bool :=
  let* (pos, code) := get_index_pos c index_table index_table_len in
  if pos <? 0 then Ret false
  else iter (S (length table)) (lre_is_in_table_step c table) (pos, code, false).

Definition lre_is_cased (c : Z) : outcome bool :=
  let* r := case_conv_find c in
  match r with
  | Some _ => Ret true
  | None => lre_is_in_table c unicode_prop_Cased1_table unicode_prop_Cased1_index
              (zlen unicode_prop_Cased1_index / 3)
  end.

Definition lre_is_case_ignorable (c : Z) : outcome bool :=
  lre_is_in_table c unicode_prop_Case_Ignorable_table unicode_prop_Case_Ignorable_index
    (zlen unicode_prop_Case_Ignorable_index / 3).

Definition lre_is_id_start (c : Z) : outcome bool :=
  lre_is_in_table c unicode_prop_ID_Start_table unicode_prop_ID_Start_index
    (zlen unicode_prop_ID_Start_index / 3).

Definition lre_is_id_continue (c : Z) : outcome bool :=
  let* b := lre_is_id_start c in
  if b then Ret true
  else lre_is_in_table c unicode_prop_ID_Continue1_table unicode_prop_ID_Continue1_index
         (zlen unicode_prop_ID_Continue1_index / 3).

Definition lre_is_white_space (c : Z) : outcome bool :=
  lre_is_in_table c unicode_prop_White_Space_table unicode_prop_White_Space_index
    (zlen unicode_prop_White_Space_index / 3).

(** * Specification *)

(** [c] is in the run of the entry [v] of the conversion table. *)
Definition in_run (v c : Z) : Prop := entry_code v <= c < entry_code v + entry_len v.

(** Consecutive entries do not overlap and are in order. *)
Fixpoint runs_ordered (vs : list Z) : bool :=
  match vs with
  | v :: (w :: _) as vs => (entry_code v + entry_len v <=? entry_code w) && runs_ordered vs
  | _ => true
  end.

(** The code points of the runs of a table. *)
Definition run_points (vs : list Z) : list Z :=
  concat (map (fun v => seqZ (entry_code v) (entry_len v)) vs).

(** * Lemmas *)

Lemma entry_len_nonneg v : 0 <= entry_len v.
Proof. unfold entry_len. rewrite (land_mask _ 7) by done. apply Z.mod_pos_bound. done. Qed.

Lemma runs_ordered_at vs i j v w :
  runs_ordered vs = true -> at_ vs i v -> at_ vs j w -> i < j ->
  entry_code v + entry_len v <= entry_code w.
Proof.
  intros Ho [Hi Hv] [Hj Hw] Hij. remember (Z.to_nat i) as n eqn:En.
  remember (Z.to_nat j) as m eqn:Em. assert (n < m)%nat as Hnm by lia. clear En Em Hi Hj Hij.
  revert n m v w Hv Hw Hnm. induction vs as [|x vs IH]; intros n m v w Hv Hw Hnm; [done|].
  destruct m as [|m]; [lia|]. cbn [lookup list_lookup] in Hw.
  destruct vs as [|y vs]; [done|].
  cbn [runs_ordered] in Ho. apply andb_true_iff in Ho as [Hxy Ho]. apply Z.leb_le in Hxy.
  destruct n as [|n]; [|apply (IH Ho n m); (done || lia)]. injection Hv as ->.
  destruct m as [|m]; [by injection Hw as ->|].
  pose proof (IH Ho 0%nat (S m) y w eq_refl Hw ltac:(lia)). pose proof (entry_len_nonneg y). lia.
Qed.

Lemma case_conv_table1_ordered : runs_ordered case_conv_table1 = true.
Proof. vm_cast_no_check (eq_refl true). Qed.

Lemma zlen_case_conv_table1 : zlen case_conv_table1 = 378.
Proof. vm_cast_no_check (eq_refl 378). Qed.

(** The binary search finds the run of [c] when there is one. *)
Lemma case_conv_find_post c :
  post (case_conv_find c) (fun r => match r with
    | Some (idx, v) => at_ case_conv_table1 idx v /\ in_run v c
    | None => forall i v, at_ case_conv_table1 i v -> ~ in_run v c
    end).
Proof.
  unfold case_conv_find. rewrite zlen_case_conv_table1.
  apply (post_iter (fun '(lo, hi) => 0 <= lo /\ lo - 1 <= hi < 378 /\
      forall i v, at_ case_conv_table1 i v ->
        (i < lo -> entry_code v + entry_len v <= c) /\ (hi < i -> c < entry_code v))
    (fun '(lo, hi) => Z.to_nat (hi - lo + 1))).
  - intros [lo hi] (Hlo & Hhi & Hinv). destruct (Z.leb_spec lo hi) as [Hle|Hgt].
    + cbn zeta. set (idx := (hi + lo) / 2).
      assert (lo <= idx <= hi) as Hidx by (unfold idx; zlia).
      apply post_bind, post_rd; [rewrite zlen_case_conv_table1; lia|]. intros v Hv.
      pose proof (entry_len_nonneg v).
      assert (forall i w, at_ case_conv_table1 i w -> i < idx ->
        entry_code w + entry_len w <= entry_code v) as Hbefore
        by (intros i w Hw Hi; exact (runs_ordered_at _ i idx w v case_conv_table1_ordered Hw Hv Hi)).
      assert (forall i w, at_ case_conv_table1 i w -> idx < i ->
        entry_code v + entry_len v <= entry_code w) as Hafter
        by (intros i w Hw Hi; exact (runs_ordered_at _ idx i v w case_conv_table1_ordered Hv Hw Hi)).
      assert (forall w, at_ case_conv_table1 idx w -> w = v) as Hsame
        by (intros w Hw; exact (at_det _ _ _ _ Hw Hv)).
      destruct (Z.ltb_spec c (entry_code v)) as [Hc|Hc];
        [|destruct (Z.leb_spec (entry_code v + entry_len v) c) as [Hc'|Hc']].
      * split; [|lia]. split; [done|]. split; [lia|]. intros i w Hw. split; [by apply Hinv|].
        intros Hi. destruct (Z.eq_dec i idx) as [->|Hne]; [by rewrite (Hsame w Hw)|].
        specialize (Hafter i w Hw). lia.
      * split; [|lia]. split; [lia|]. split; [lia|]. intros i w Hw. split; [|by apply Hinv].
        intros Hi. destruct (Z.eq_dec i idx) as [->|Hne]; [by rewrite (Hsame w Hw)|].
        specialize (Hbefore i w Hw). pose proof (entry_len_nonneg v). lia.
      * done.
    + apply post_ret. intros i v Hv. unfold in_run. destruct (Hinv i v Hv).
      destruct (Z.lt_ge_cases i lo); lia.
  - split; [lia|]. split; [lia|]. intros i v Hv. apply at_lt in Hv.
    rewrite zlen_case_conv_table1 in Hv. lia.
  - lia.
Qed.

Lemma case_conv_find_total c : exists r, case_conv_find c = Ret r.
Proof. destruct (post_inv _ _ (case_conv_find_post c)) as (r & -> & _). by exists r. Qed.

(** A code point outside all the runs is not found. *)
Lemma case_conv_find_None c :
  ~ In c (run_points case_conv_table1) -> case_conv_find c = Ret None.
Proof.
  intros Hc. destruct (post_inv _ _ (case_conv_find_post c)) as ([[idx v]|] & -> & H); [|done].
  exfalso. apply Hc. destruct H as [[Hi Hv] Hr]. unfold run_points. apply in_concat.
  exists (seqZ (entry_code v) (entry_len v)). split.
  - apply (in_map (fun v => seqZ (entry_code v) (entry_len v))). apply list_elem_of_In. by eapply list_elem_of_lookup_2.
  - apply list_elem_of_In, elem_of_seqZ. exact Hr.
Qed.

(** A property of all code points is checked on the runs and on ASCII. *)
Lemma by_cases (P : Z -> Prop) :
  (forall c, 0 <= c < 128 -> P c) ->
  (forall c, 128 <= c -> case_conv_find c = Ret None -> P c) ->
  Forall P (List.filter (fun c => 128 <=? c) (run_points case_conv_table1)) ->
  forall c, 0 <= c -> P c.
Proof.
  intros Hlow Hnone Hruns c Hc. destruct (Z.lt_ge_cases c 128); [by apply Hlow|].
  destruct (in_dec Z.eq_dec c (run_points case_conv_table1)) as [Hin|Hin].
  - rewrite List.Forall_forall in Hruns. apply Hruns. apply filter_In. split; [done|]. lia.
  - apply Hnone; [done|]. by apply case_conv_find_None.
Qed.

Lemma forallb_Forall {A : Type} (f : A -> bool) (P : A -> Prop) l :
  (forall x, f x = true -> P x) -> forallb f l = true -> Forall P l.
Proof.
  intros Hf. induction l as [|x l IH]; cbn [forallb]; [constructor|].
  intros H. apply andb_true_iff in H as [? ?]. constructor; auto.
Qed.

(** The checks made on every code point of the runs. *)
Definition canonicalize_ok (u : bool) (c : Z) : bool :=
  match lre_canonicalize c u with
  | Ret d =>
      match lre_canonicalize d u with
      | Ret e => (e =? d) && (0 <=? d) && (d <? 0x110000)
      | Err _ => false
      end
  | Err _ => false
  end.

Definition case_conv_ok (c : Z) : bool :=
  forallb (fun ct =>
    match lre_case_conv c ct with
    | Ret l => (1 <=? zlen l) && (zlen l <=? 3) && forallb (fun d => (0 <=? d) && (d <? 0x110000)) l
    | Err _ => false
    end) [0; 1; 2].

Definition runs_checked : list Z :=
  List.filter (fun c => 128 <=? c) (run_points case_conv_table1).

Lemma canonicalize_checked :
  forallb (canonicalize_ok true) (seqZ 0 128 ++ runs_checked) &&
  forallb (canonicalize_ok false) (seqZ 0 128 ++ runs_checked) = true.
Proof. vm_cast_no_check (eq_refl true). Qed.

Lemma case_conv_checked : forallb case_conv_ok (seqZ 0 128 ++ runs_checked) = true.
Proof. vm_cast_no_check (eq_refl true). Qed.

Lemma checked_all (f : Z -> bool) :
  forallb f (seqZ 0 128 ++ runs_checked) = true ->
  (forall c, 0 <= c < 128 -> f c = true) /\ Forall (fun c => f c = true) runs_checked.
Proof.
  rewrite forallb_app. intros H. apply andb_true_iff in H as [H1 H2]. split.
  - intros c Hc. rewrite forallb_forall in H1. apply H1, list_elem_of_In, elem_of_seqZ. lia.
  - by apply (forallb_Forall f (fun c => f c = true)).
Qed.

Lemma canonicalize_ok_all u c : 0 <= c < 0x110000 -> canonicalize_ok u c = true.
Proof.
  intros [H0 H1]. revert c H0 H1. apply (by_cases (fun c => c < 0x110000 -> canonicalize_ok u c = true)).
  - intros c Hc _. pose proof canonicalize_checked as Hk. apply andb_true_iff in Hk as [Ht Hf].
    destruct u; [by apply (checked_all _ Ht)|by apply (checked_all _ Hf)].
  - intros c Hc Hn Hlt. unfold canonicalize_ok.
    assert (lre_canonicalize c u = Ret c) as E
      by (unfold lre_canonicalize; replace (c <? 128) with false by lia; by rewrite Hn).
    rewrite E, E. lia.
  - pose proof canonicalize_checked as Hk. apply andb_true_iff in Hk as [Ht Hf].
    destruct u; [apply checked_all in Ht as [_ H]|apply checked_all in Hf as [_ H]];
      (eapply Forall_impl; [|exact H]); cbn beta; auto.
Qed.

Lemma case_conv_ok_all c : 0 <= c < 0x110000 -> case_conv_ok c = true.
Proof.
  intros [H0 H1]. revert c H0 H1. apply (by_cases (fun c => c < 0x110000 -> case_conv_ok c = true)).
  - intros c Hc _. by apply (checked_all _ case_conv_checked).
  - intros c Hc Hn Hlt. unfold case_conv_ok. cbn [forallb].
    assert (forall ct, lre_case_conv c ct = Ret [c]) as E.
    { intros ct. unfold lre_case_conv. cbn [lre_case_conv_rec].
      replace (c <? 128) with false by lia. by rewrite Hn. }
    rewrite !E. cbn [forallb]. change (zlen [c]) with 1. lia.
  - eapply Forall_impl; [|apply (checked_all _ case_conv_checked)]. cbn beta. auto.
Qed.

(** ** Properties *)

(** The binary search of the case conversion functions finds the run of the
    table that contains a code point, for every code point, and reports that
    there is none only when no entry of the table contains it. *)
Theorem case_conv_find_correct c :
  (exists idx v, case_conv_find c = Ret (Some (idx, v)) /\
     at_ case_conv_table1 idx v /\ in_run v c) \/
  (case_conv_find c = Ret None /\ forall idx v, at_ case_conv_table1 idx v -> ~ in_run v c).
Proof.
  destruct (post_inv _ _ (case_conv_find_post c)) as ([[idx v]|] & -> & H); [left|right]; eauto.
Qed.

(** The JS regexp canonicalization is total on code points, stays in the
    code point range and is idempotent, in both the Unicode and the legacy
    mode: folding a folded character changes nothing. *)
Theorem lre_canonicalize_idempotent u c :
  0 <= c < 0x110000 ->
  exists d, lre_canonicalize c u = Ret d /\ 0 <= d < 0x110000 /\ lre_canonicalize d u = Ret d.
Proof.
  intros Hc. pose proof (canonicalize_ok_all u c Hc) as H. unfold canonicalize_ok in H.
  destruct (lre_canonicalize c u) as [d|]; [|done]. exists d.
  destruct (lre_canonicalize d u) as [e|]; [|done]. bool_to_prop. split; [done|].
  split; [lia|]. by f_equal.
Qed.

Lemma lre_canonicalize_idempotent_witness :
  lre_canonicalize 0x2126 true = Ret 0x3c9 /\
  exists d, lre_canonicalize 0x2126 true = Ret d /\ 0 <= d < 0x110000 /\
    lre_canonicalize d true = Ret d.
Proof.
  split; [vm_compute; reflexivity|]. apply (lre_canonicalize_idempotent true 0x2126). lia.
Defined.

(** The three case conversions store between one and three characters, the
    length of the callers' arrays, all of them code points, and read only inside
    the conversion tables. *)
Theorem lre_case_conv_bounds c conv_type :
  0 <= c < 0x110000 -> 0 <= conv_type <= 2 ->
  post (lre_case_conv c conv_type) (fun res =>
    1 <= zlen res <= 3 /\ Forall (fun d => 0 <= d < 0x110000) res).
Proof.
  intros Hc Hct. pose proof (case_conv_ok_all c Hc) as H. unfold case_conv_ok in H.
  rewrite forallb_forall in H. specialize (H conv_type ltac:(cbn; lia)).
  cbn beta in H. destruct (lre_case_conv c conv_type) as [l|]; [|discriminate].
  bool_to_prop. split; [lia|].
  eapply forallb_Forall; [|eassumption]. intros x Hx. cbn beta in Hx. bool_to_prop. lia.
Qed.

Lemma lre_case_conv_bounds_witness :
  lre_case_conv 0xfb03 0 = Ret [70; 70; 73] /\
  post (lre_case_conv 0xfb03 0) (fun res =>
    1 <= zlen res <= 3 /\ Forall (fun d => 0 <= d < 0x110000) res).
Proof. split; [vm_compute; reflexivity|]. apply (lre_case_conv_bounds 0xfb03 0); lia. Defined.
