(* ===== verification/UnicodeSets.v ===== *)
(** The sets of code points of [libunicode.c]: general categories, scripts,
    properties, and the canonicalization of a set for case-insensitive
    regular expressions.

    The functions decode the run-length tables of [libunicode-table.h] and add
    the intervals they find to a range, so that they return the allocator's
    state, the range and the C result: 0, -1 when an allocation failed and -2
    for an unknown name. *)
From Stdlib Require Import ZArith Lia Bool List.
From stdpp Require Import base tactics list numbers.
From S2P Require Import Prelude Alloc CString CharRange Rqsort UnicodeTables CaseConv.

(** The C library's [strchr(m + p, ch) - m], if it is not null. *)
Definition strchr (m : list Z) (p ch : Z) : outcome (option Z) :=
  iter (S (length m)) (fun q =>
    let* c := rd m q in
    if c =? ch then Ret (inr (Some q))
    else if c =? 0 then Ret (inr None) else Ret (inl (q + 1))) p.

(** One alternative name of an entry: [inr] is the [return pos], [inl] the new
    [p] and whether the entry has another name. *)
Definition unicode_find_alias (name_table name : list Z) (name_len p : Z)
    : outcome (Z * bool + unit) :=
  let* r := strchr name_table p 44 in
  let* len := match r with
              | None => strlen name_table p
              | Some r => Ret (r - p)
              end in
  let* found := if len =? name_len then memcmp_eq name_table p name 0 name_len else Ret false in
  if found : bool then Ret (inr tt)
  else Ret (inl (p + (len + 1), match r with None => false | Some _ => true end)).

Definition unicode_find_name (name_table name : list Z) : outcome Z :=
  let* name_len := strlen name 0 in
  iter (S (length name_table)) (fun '(p, pos) =>
    let* c := rd name_table p in
    if c =? 0 then Ret (inr (-1))
    else
      let* r := iter (S (length name_table)) (fun p =>
        let* a := unicode_find_alias name_table name name_len p in
        match a with
        | inr _ => Ret (inr None)
        | inl (p, true) => Ret (inl p)
        | inl (p, false) => Ret (inr (Some p))
        end) p in
      match r with
      | None => Ret (inr pos)
      | Some p => Ret (inl (p, pos + 1))
      end) (0, 0).

(** A number in one, two or three bytes: those below [t1], those below [t2] and
    the others, [b] being the first byte, read before [p]. *)
Definition get_run (m : list Z) (p b t1 t2 : Z) : outcome (Z * Z) :=
  if b <? t1 then Ret (b, p)
  else if b <? t2 then
    let* b1 := rd m p in
    Ret (Z.lor (Z.shiftl (b - t1) 8) b1 + t1, p + 1)
  else
    let* b1 := rd m p in
    let* b2 := rd m (p + 1) in
    Ret (Z.lor (Z.lor (Z.shiftl (b - t2) 16) (Z.shiftl b1 8)) b2 + t1 + Z.shiftl (t2 - t1) 8, p + 2).

Section UnicodeSets.
Context `{AL : Allocator}.

(** The two loops of [unicode_script]; the last component of the result is
    true after [goto fail]. *)
Definition unicode_script_step (script_idx : Z) '(h, cr, p, c)
    : outcome (heap * CharRange * Z * Z + heap * CharRange * bool) :=
  if p <? zlen unicode_script_table then
    let* b := rd unicode_script_table p in
    let p := p + 1 in
    let type := Z.shiftr b 7 in
    let* (n, p) := get_run unicode_script_table p (Z.land b 0x7f) 96 112 in
    let* (v, p) := if type =? 0 then Ret (0, p)
                   else let* v := rd unicode_script_table p in Ret (v, p + 1) in
    let c1 := c + n + 1 in
    if v =? script_idx then
      let* (h, cr, r) := cr_add_interval h cr c c1 in
      if negb (r =? 0) then Ret (inr (h, cr, true)) else Ret (inl (h, cr, p, c1))
    else Ret (inl (h, cr, p, c1))
  else Ret (inr (h, cr, false)).

Definition unicode_script_ext_step (script_idx : Z) (is_common : bool) '(h, cr, p, c)
    : outcome (heap * CharRange * Z * Z + heap * CharRange * bool) :=
  if p <? zlen unicode_script_ext_table then
    let* b := rd unicode_script_ext_table p in
    let* (n, p) := get_run unicode_script_ext_table (p + 1) b 128 192 in
    let c1 := c + n + 1 in
    let* v_len := rd unicode_script_ext_table p in
    let p := p + 1 in
    let* add :=
      if is_common then Ret (negb (v_len =? 0))
      else
        let* vs := rd_slice unicode_script_ext_table p v_len in
        Ret (existsb (fun v => v =? script_idx) vs) in
    if add : bool then
      let* (h, cr, r) := cr_add_interval h cr c c1 in
      if negb (r =? 0) then Ret (inr (h, cr, true)) else Ret (inl (h, cr, p + v_len, c1))
    else Ret (inl (h, cr, p + v_len, c1))
  else Ret (inr (h, cr, false)).

(** The statements after the label [fail], the last of which is [goto fail]. *)
Definition unicode_script_fail (fuel : nat) : outcome (heap * CharRange * Z) :=
  iter fuel (fun _ : unit => Ret (inl tt)) tt.

(** [fuel] only bounds the loop after the label [fail]. *)
Definition unicode_script (fuel : nat) (h : heap) (cr : CharRange) (script_name : list Z)
    (is_ext : bool) : outcome (heap * CharRange * Z) :=
  let* script_idx := unicode_find_name unicode_script_name_table script_name in
  if script_idx <? 0 then Ret (h, cr, -2)
  else
    let script_idx := script_idx + (UNICODE_SCRIPT_Unknown + 1) in
    let is_common := (script_idx =? UNICODE_SCRIPT_Common)
                     || (script_idx =? UNICODE_SCRIPT_Inherited) in
    let* (h, cr1, failed) :=
      iter (S (length unicode_script_table)) (unicode_script_step script_idx)
        (h, if is_ext then cr_init else cr, 0, 0) in
    if failed : bool then unicode_script_fail fuel
    else if negb is_ext then Ret (h, cr1, 0)
    else
      let* (h, cr2, failed) :=
        iter (S (length unicode_script_ext_table)) (unicode_script_ext_step script_idx is_common)
          (h, cr_init, 0, 0) in
      if failed : bool then unicode_script_fail fuel
      else if is_common then
        let* (h, cr2, r) := cr_invert h cr2 in
        if negb (r =? 0) then unicode_script_fail fuel
        else
          let* (h, cr, r) := cr_op h cr (cr_points cr1) (cr_len cr1) (cr_points cr2) (cr_len cr2)
                               CR_OP_INTER in
          if negb (r =? 0) then unicode_script_fail fuel else Ret (h, cr, 0)
      else
        let* (h, cr, r) := cr_op h cr (cr_points cr1) (cr_len cr1) (cr_points cr2) (cr_len cr2)
                             CR_OP_UNION in
        if negb (r =? 0) then unicode_script_fail fuel else Ret (h, cr, 0).

(** [M(id)]. *)
Definition M (id : Z) : Z := Z.shiftl 1 id.
Definition Ms (ids : list Z) : Z := fold_right (fun id m => Z.lor (M id) m) 0 ids.

(** [for(; c0 < c; c0 += 2) cr_add_interval(cr, c0, c0 + 1)]. *)
Definition add_alternate (h : heap) (cr : CharRange) (c0 c : Z) : outcome (heap * CharRange * Z) :=
  iter (S (Z.to_nat (c - c0))) (fun '(h, cr, c0) =>
    if c0 <? c then
      let* (h, cr, r) := cr_add_interval h cr c0 (c0 + 1) in
      if negb (r =? 0) then Ret (inr (h, cr, -1)) else Ret (inl (h, cr, c0 + 2))
    else Ret (inr (h, cr, 0))) (h, cr, c0).

Definition unicode_general_category1_step (gc_mask : Z) '(h, cr, p, c)
    : outcome (heap * CharRange * Z * Z + heap * CharRange * Z) :=
  if p <? zlen unicode_gc_table then
    let* b := rd unicode_gc_table p in
    let p := p + 1 in
    let n := Z.shiftr b 5 in
    let v := Z.land b 0x1f in
    let* (n, p) :=
      if n =? 7 then
        let* n := rd unicode_gc_table p in
        let* (n, p) := get_run unicode_gc_table (p + 1) n 128 192 in
        Ret (n + 7, p)
      else Ret (n, p) in
    let c0 := c in
    let c := c + (n + 1) in
    let* (h, cr, r) :=
      if v =? 31 then
        let b := Z.land gc_mask (Ms [UNICODE_GC_Lu; UNICODE_GC_Ll]) in
        if negb (b =? 0) then
          if b =? Ms [UNICODE_GC_Lu; UNICODE_GC_Ll] then cr_add_interval h cr c0 c
          else add_alternate h cr (c0 + b2z (negb (Z.land gc_mask (M UNICODE_GC_Ll) =? 0))) c
        else Ret (h, cr, 0)
      else if negb (Z.land (Z.shiftr gc_mask v) 1 =? 0) then cr_add_interval h cr c0 c
      else Ret (h, cr, 0) in
    if negb (r =? 0) then Ret (inr (h, cr, -1)) else Ret (inl (h, cr, p, c))
  else Ret (inr (h, cr, 0)).

Definition unicode_general_category1 (h : heap) (cr : CharRange) (gc_mask : Z)
    : outcome (heap * CharRange * Z) :=
  iter (S (length unicode_gc_table)) (unicode_general_category1_step gc_mask) (h, cr, 0, 0).

Definition unicode_prop1_step (table : list Z) (len : Z) '(h, cr, p, c, bit)
    : outcome (heap * CharRange * Z * Z * bool + heap * CharRange * Z) :=
  if p <? len then
    let c0 := c in
    let* b := rd table p in
    let p := p + 1 in
    let* (h, cr, r, p, c0, c, bit) :=
      if b <? 64 then
        let c := c + (Z.shiftr b 3 + 1) in
        let* (h, cr, r) := if bit : bool then cr_add_interval h cr c0 c else Ret (h, cr, 0) in
        Ret (h, cr, r, p, c, c + (Z.land b 7 + 1), negb bit)
      else
        let* (c, p) := table_run table p c b in
        Ret (h, cr, 0, p, c0, c, bit) in
    if negb (r =? 0) then Ret (inr (h, cr, -1))
    else
      let* (h, cr, r) := if bit : bool then cr_add_interval h cr c0 c else Ret (h, cr, 0) in
      if negb (r =? 0) then Ret (inr (h, cr, -1)) else Ret (inl (h, cr, p, c, negb bit))
  else Ret (inr (h, cr, 0)).

Definition unicode_prop1 (h : heap) (cr : CharRange) (prop_idx : Z)
    : outcome (heap * CharRange * Z) :=
  let* table := rd unicode_prop_table prop_idx in
  let* len := rd unicode_prop_len_table prop_idx in
  iter (S (length table)) (unicode_prop1_step table len) (h, cr, 0, 0, false).

Definition CASE_U : Z := Z.shiftl 1 0.
Definition CASE_L : Z := Z.shiftl 1 1.
Definition CASE_F : Z := Z.shiftl 1 2.

(** [tab_run_mask]. *)
Definition tab_run_mask : list Z :=
  [Ms [RUN_TYPE_U; RUN_TYPE_UF; RUN_TYPE_UL; RUN_TYPE_LSU; RUN_TYPE_U2L_399_EXT2; RUN_TYPE_UF_D20;
       RUN_TYPE_UF_D1_EXT; RUN_TYPE_U_EXT; RUN_TYPE_UF_EXT2; RUN_TYPE_UF_EXT3];
   Ms [RUN_TYPE_L; RUN_TYPE_LF; RUN_TYPE_UL; RUN_TYPE_LSU; RUN_TYPE_U2L_399_EXT2; RUN_TYPE_LF_EXT;
       RUN_TYPE_LF_EXT2];
   Ms [RUN_TYPE_UF; RUN_TYPE_LF; RUN_TYPE_UL; RUN_TYPE_LSU; RUN_TYPE_U2L_399_EXT2; RUN_TYPE_LF_EXT;
       RUN_TYPE_LF_EXT2; RUN_TYPE_UF_D20; RUN_TYPE_UF_D1_EXT; RUN_TYPE_LF_EXT; RUN_TYPE_UF_EXT2;
       RUN_TYPE_UF_EXT3]].

Definition has (mask bits : Z) : bool := negb (Z.land mask bits =? 0).

(** The intervals added in a sequence that stops at the first failure. *)
Fixpoint add_intervals (h : heap) (cr : CharRange) (l : list (Z * Z))
    : outcome (heap * CharRange * Z) :=
  match l with
  | [] => Ret (h, cr, 0)
  | (c1, c2) :: l =>
      let* (h, cr, r) := cr_add_interval h cr c1 c2 in
      if negb (r =? 0) then Ret (h, cr, -1) else add_intervals h cr l
  end.

(** The intervals of one entry of the table. *)
Definition case1_entry (h : heap) (cr : CharRange) (case_mask v : Z)
    : outcome (heap * CharRange * Z) :=
  let type := entry_type v in
  let code := entry_code v in
  let len := entry_len v in
  let def_case := cr_add_interval h cr code (code + len) in
  let both := has case_mask CASE_U && has case_mask (Z.lor CASE_L CASE_F) in
  if type =? RUN_TYPE_UL then
    if both then def_case
    else
      let code := code + b2z (has case_mask CASE_U) in
      iter (S (Z.to_nat len)) (fun '(h, cr, i) =>
        if i <? len then
          let* (h, cr, r) := cr_add_interval h cr (code + i) (code + i + 1) in
          if negb (r =? 0) then Ret (inr (h, cr, -1)) else Ret (inl (h, cr, i + 2))
        else Ret (inr (h, cr, 0))) (h, cr, 0)
  else if type =? RUN_TYPE_LSU then
    if both then def_case
    else
      add_intervals h cr
        ((if negb (has case_mask CASE_U) then [(code, code + 1)] else [])
         ++ [(code + 1, code + 2)]
         ++ (if has case_mask CASE_U then [(code + 2, code + 3)] else []))
  else def_case.

Definition unicode_case1 (h : heap) (cr : CharRange) (case_mask : Z)
    : outcome (heap * CharRange * Z) :=
  if case_mask =? 0 then Ret (h, cr, 0)
  else
    let mask := fold_left (fun mask '(i, m) =>
      if negb (Z.land (Z.shiftr case_mask i) 1 =? 0) then Z.lor mask m else mask)
      (combine [0; 1; 2] tab_run_mask) 0 in
    iter (S (length case_conv_table1)) (fun '(h, cr, idx) =>
      if idx <? zlen case_conv_table1 then
        let* v := rd case_conv_table1 idx in
        let* (h, cr, r) :=
          if negb (Z.land (Z.shiftr mask (entry_type v)) 1 =? 0)
          then case1_entry h cr case_mask v else Ret (h, cr, 0) in
        if negb (r =? 0) then Ret (inr (h, cr, -1)) else Ret (inl (h, cr, idx + 1))
      else Ret (inr (h, cr, 0))) (h, cr, 0).

(** The intervals of a block of points, the elements that [rqsort] moves. *)
Fixpoint to_pairs (l : list Z) : list (Z * Z) :=
  match l with
  | a :: b :: l => (a, b) :: to_pairs l
  | _ => []
  end.

Definition of_pairs (l : list (Z * Z)) : list Z := concat (map (fun '(a, b) => [a; b]) l).

Definition point_cmp (s : unit) (p1 p2 : Z * Z) : unit * Z :=
  (s, b2z (p2.1 <? p1.1) - b2z (p1.1 <? p2.1)).

(** The loop that extends [end] over the intervals that overlap it. *)
Definition overlap_step (pts : list Z) (len : Z) '(i, e) : outcome (Z * Z + Z * Z) :=
  if i <? len then
    let* start1 := rd pts i in
    let* end1 := rd pts (i + 1) in
    if e <? start1 then Ret (inr (i, e))
    else if end1 <=? e then Ret (inl (i + 2, e))
    else Ret (inl (i + 2, end1))
  else Ret (inr (i, e)).

Definition remove_overlap_step (len : Z) '(i, j, pts) : outcome (Z * Z * list Z + Z * list Z) :=
  if i <? len then
    let* start := rd pts i in
    let* e := rd pts (i + 1) in
    let* (i, e) := iter (S (Z.to_nat len)) (overlap_step pts len) (i + 2, e) in
    let* pts := wr pts j start in
    let* pts := wr pts (j + 1) e in
    Ret (inl (i, j + 2, pts))
  else Ret (inr (j, pts)).

Definition cr_sort_and_remove_overlap (cr : CharRange) : outcome CharRange :=
  let len := cr_len cr in
  let* d := rd_slice (cr_points cr) 0 (len / 2 * 2) in
  let* (_, l) := rqsort point_cmp tt (to_pairs d) 0 (len / 2) in
  let* pts := wr_slice (cr_points cr) 0 (of_pairs l) in
  let* (j, pts) := iter (S (Z.to_nat len)) (remove_overlap_step len) (0, 0, pts) in
  Ret (mkCR j (cr_size cr) pts).

(** The search of the table entry of [c], from the one reached so far. *)
Definition case_next_entry (c idx v : Z) : outcome (Z * Z) :=
  iter (S (length case_conv_table1)) (fun '(idx, v) =>
    if (entry_code v <=? c) && (c <? entry_code v + entry_len v) then Ret (inr (idx, v))
    else
      let idx := idx + 1 in
      let* _ := c_assert (idx <? zlen case_conv_table1) in
      let* v := rd case_conv_table1 idx in
      Ret (inl (idx, v))) (idx, v).

(** The code points of one interval, folded and appended to the result; the
    C result of [cr_add_interval] is not tested. *)
Definition fold_interval (is_unicode : bool) (start e : Z) (h : heap) (res : CharRange)
    (idx v d_start d_end : Z) : outcome (heap * CharRange * Z * Z * Z * Z) :=
  iter (S (Z.to_nat (e - start))) (fun '(h, res, idx, v, d_start, d_end, c) =>
    if c <? e then
      let* (idx, v) := case_next_entry c idx v in
      let* d := lre_case_folding_entry c idx v is_unicode in
      if d_start =? UINT32_MAX then Ret (inl (h, res, idx, v, d, d + 1, c + 1))
      else if d_end =? d then Ret (inl (h, res, idx, v, d_start, d_end + 1, c + 1))
      else
        let* (h, res, _) := cr_add_interval h res d_start d_end in
        Ret (inl (h, res, idx, v, d, d + 1, c + 1))
    else Ret (inr (h, res, idx, v, d_start, d_end)))
    (h, res, idx, v, d_start, d_end, start).

Definition cr_regexp_canonicalize (h : heap) (cr : CharRange) (is_unicode : bool)
    : outcome (heap * CharRange * Z) :=
  let* (h, cr_mask, r) := unicode_case1 h cr_init (if is_unicode then CASE_F else CASE_U) in
  if negb (r =? 0) then Ret (h, cr, -1) else
  let* (h, cr_inter, r) := cr_op h cr_init (cr_points cr_mask) (cr_len cr_mask)
                             (cr_points cr) (cr_len cr) CR_OP_INTER in
  if negb (r =? 0) then Ret (h, cr, -1) else
  let* (h, cr_mask, r) := cr_invert h cr_mask in
  if negb (r =? 0) then Ret (h, cr, -1) else
  let* (h, cr_sub, r) := cr_op h cr_init (cr_points cr_mask) (cr_len cr_mask)
                           (cr_points cr) (cr_len cr) CR_OP_INTER in
  if negb (r =? 0) then Ret (h, cr, -1) else
  let* v := rd case_conv_table1 0 in
  let* (h, cr_result, d_start, d_end) :=
    iter (S (Z.to_nat (cr_len cr_inter))) (fun '(h, res, idx, v, d_start, d_end, i) =>
      if i <? cr_len cr_inter then
        let* start := rd (cr_points cr_inter) i in
        let* e := rd (cr_points cr_inter) (i + 1) in
        let* (h, res, idx, v, d_start, d_end) :=
          fold_interval is_unicode start e h res idx v d_start d_end in
        Ret (inl (h, res, idx, v, d_start, d_end, i + 2))
      else Ret (inr (h, res, d_start, d_end)))
      (h, cr_init, 0, v, UINT32_MAX, UINT32_MAX, 0) in
  let* (h, cr_result, r) :=
    if negb (d_start =? UINT32_MAX) then cr_add_interval h cr_result d_start d_end
    else Ret (h, cr_result, 0) in
  if negb (r =? 0) then Ret (h, cr, -1) else
  let* cr_result := cr_sort_and_remove_overlap cr_result in
  let cr := mkCR 0 (cr_size cr) (cr_points cr) in
  let* (h, cr, r) := cr_op h cr (cr_points cr_result) (cr_len cr_result)
                       (cr_points cr_sub) (cr_len cr_sub) CR_OP_UNION in
  if negb (r =? 0) then Ret (h, cr, -1) else Ret (h, cr, 0).
End UnicodeSets.

(** The operations that [unicode_prop_ops] reads from its variable arguments,
    the last one being [POP_END]. *)
Inductive prop_op :=
  | POP_GC (a : Z)
  | POP_PROP (a : Z)
  | POP_CASE (a : Z)
  | POP_UNION
  | POP_INTER
  | POP_XOR
  | POP_INVERT.

Definition POP_STACK_LEN_MAX : nat := 4.

Section Properties.
Context `{AL : Allocator}.

(** A new range on the stack (last range first), filled by [f]. *)
Definition pop_push (h : heap) (stack : list CharRange)
    (f : heap -> CharRange -> outcome (heap * CharRange * Z))
    : outcome (heap * list CharRange * bool) :=
  let* _ := c_assert (length stack <? POP_STACK_LEN_MAX)%nat in
  let* (h, cr, r) := f h cr_init in
  Ret (h, cr :: stack, r =? 0).

Definition pop_binary (h : heap) (stack : list CharRange) (op : CharRangeOpEnum)
    : outcome (heap * list CharRange * bool) :=
  let* _ := c_assert (2 <=? length stack)%nat in
  let* _ := c_assert (length stack <? POP_STACK_LEN_MAX)%nat in
  match stack with
  | cr2 :: cr1 :: stack =>
      let* (h, cr3, r) := cr_op h cr_init (cr_points cr1) (cr_len cr1)
                            (cr_points cr2) (cr_len cr2) op in
      if negb (r =? 0) then Ret (h, cr3 :: cr2 :: cr1 :: stack, false)
      else Ret (h, cr3 :: stack, true)
  | _ => Err AssertFail
  end.

(** One operation: the new stack, and whether it succeeded. *)
Definition prop_op_step (h : heap) (stack : list CharRange) (op : prop_op)
    : outcome (heap * list CharRange * bool) :=
  match op with
  | POP_GC a => pop_push h stack (fun h cr => unicode_general_category1 h cr a)
  | POP_PROP a => pop_push h stack (fun h cr => unicode_prop1 h cr a)
  | POP_CASE a => pop_push h stack (fun h cr => unicode_case1 h cr a)
  | POP_UNION => pop_binary h stack CR_OP_UNION
  | POP_INTER => pop_binary h stack CR_OP_INTER
  | POP_XOR => pop_binary h stack CR_OP_XOR
  | POP_INVERT =>
      let* _ := c_assert (1 <=? length stack)%nat in
      match stack with
      | cr :: stack =>
          let* (h, cr, r) := cr_invert h cr in Ret (h, cr :: stack, r =? 0)
      | [] => Err AssertFail
      end
  end.

Fixpoint prop_ops_run (h : heap) (stack : list CharRange) (ops : list prop_op)
    : outcome (heap * list CharRange * bool) :=
  match ops with
  | [] => Ret (h, stack, true)
  | op :: ops =>
      let* (h, stack, ok) := prop_op_step h stack op in
      if ok : bool then prop_ops_run h stack ops else Ret (h, stack, false)
  end.

Definition unicode_prop_ops (h : heap) (cr : CharRange) (ops : list prop_op)
    : outcome (heap * CharRange * Z) :=
  let* (h, stack, ok) := prop_ops_run h [] ops in
  if negb ok then Ret (h, cr, -1)
  else
    let* _ := c_assert (length stack =? 1)%nat in
    match stack with
    | s :: _ => cr_copy h cr s
    | [] => Err AssertFail
    end.

Definition unicode_gc_mask_table : list Z :=
  [Ms [UNICODE_GC_Lu; UNICODE_GC_Ll; UNICODE_GC_Lt];
   Ms [UNICODE_GC_Lu; UNICODE_GC_Ll; UNICODE_GC_Lt; UNICODE_GC_Lm; UNICODE_GC_Lo];
   Ms [UNICODE_GC_Mn; UNICODE_GC_Mc; UNICODE_GC_Me];
   Ms [UNICODE_GC_Nd; UNICODE_GC_Nl; UNICODE_GC_No];
   Ms [UNICODE_GC_Sm; UNICODE_GC_Sc; UNICODE_GC_Sk; UNICODE_GC_So];
   Ms [UNICODE_GC_Pc; UNICODE_GC_Pd; UNICODE_GC_Ps; UNICODE_GC_Pe; UNICODE_GC_Pi; UNICODE_GC_Pf;
       UNICODE_GC_Po];
   Ms [UNICODE_GC_Zs; UNICODE_GC_Zl; UNICODE_GC_Zp];
   Ms [UNICODE_GC_Cc; UNICODE_GC_Cf; UNICODE_GC_Cs; UNICODE_GC_Co; UNICODE_GC_Cn]].

Definition unicode_general_category (h : heap) (cr : CharRange) (gc_name : list Z)
    : outcome (heap * CharRange * Z) :=
  let* gc_idx := unicode_find_name unicode_gc_name_table gc_name in
  if gc_idx <? 0 then Ret (h, cr, -2)
  else
    let* gc_mask :=
      if gc_idx <=? UNICODE_GC_Co then Ret (u32 (Z.shiftl 1 gc_idx))
      else rd unicode_gc_mask_table (gc_idx - UNICODE_GC_LC) in
    unicode_general_category1 h cr gc_mask.

Definition gc_letters : list Z :=
  [UNICODE_GC_Lu; UNICODE_GC_Ll; UNICODE_GC_Lt; UNICODE_GC_Lm; UNICODE_GC_Lo; UNICODE_GC_Nl].

(** The operations of the properties that [unicode_prop] computes with
    [unicode_prop_ops]. *)
Definition prop_ops_of (prop_idx : Z) : option (list prop_op) :=
  if prop_idx =? UNICODE_PROP_Assigned then
    Some [POP_GC (M UNICODE_GC_Cn); POP_INVERT]
  else if prop_idx =? UNICODE_PROP_Math then
    Some [POP_GC (M UNICODE_GC_Sm); POP_PROP UNICODE_PROP_Other_Math; POP_UNION]
  else if prop_idx =? UNICODE_PROP_Lowercase then
    Some [POP_GC (M UNICODE_GC_Ll); POP_PROP UNICODE_PROP_Other_Lowercase; POP_UNION]
  else if prop_idx =? UNICODE_PROP_Uppercase then
    Some [POP_GC (M UNICODE_GC_Lu); POP_PROP UNICODE_PROP_Other_Uppercase; POP_UNION]
  else if prop_idx =? UNICODE_PROP_Cased then
    Some [POP_GC (Ms [UNICODE_GC_Lu; UNICODE_GC_Ll; UNICODE_GC_Lt]);
          POP_PROP UNICODE_PROP_Other_Uppercase; POP_UNION;
          POP_PROP UNICODE_PROP_Other_Lowercase; POP_UNION]
  else if prop_idx =? UNICODE_PROP_Alphabetic then
    Some [POP_GC (Ms gc_letters);
          POP_PROP UNICODE_PROP_Other_Uppercase; POP_UNION;
          POP_PROP UNICODE_PROP_Other_Lowercase; POP_UNION;
          POP_PROP UNICODE_PROP_Other_Alphabetic; POP_UNION]
  else if prop_idx =? UNICODE_PROP_Grapheme_Base then
    Some [POP_GC (Ms [UNICODE_GC_Cc; UNICODE_GC_Cf; UNICODE_GC_Cs; UNICODE_GC_Co; UNICODE_GC_Cn;
                      UNICODE_GC_Zl; UNICODE_GC_Zp; UNICODE_GC_Me; UNICODE_GC_Mn]);
          POP_PROP UNICODE_PROP_Other_Grapheme_Extend; POP_UNION; POP_INVERT]
  else if prop_idx =? UNICODE_PROP_Grapheme_Extend then
    Some [POP_GC (Ms [UNICODE_GC_Me; UNICODE_GC_Mn]);
          POP_PROP UNICODE_PROP_Other_Grapheme_Extend; POP_UNION]
  else if prop_idx =? UNICODE_PROP_XID_Start then
    Some [POP_GC (Ms gc_letters);
          POP_PROP UNICODE_PROP_Other_ID_Start; POP_UNION;
          POP_PROP UNICODE_PROP_Pattern_Syntax;
          POP_PROP UNICODE_PROP_Pattern_White_Space; POP_UNION;
          POP_PROP UNICODE_PROP_XID_Start1; POP_UNION; POP_INVERT; POP_INTER]
  else if prop_idx =? UNICODE_PROP_XID_Continue then
    Some [POP_GC (Ms (gc_letters ++ [UNICODE_GC_Mn; UNICODE_GC_Mc; UNICODE_GC_Nd; UNICODE_GC_Pc]));
          POP_PROP UNICODE_PROP_Other_ID_Start; POP_UNION;
          POP_PROP UNICODE_PROP_Other_ID_Continue; POP_UNION;
          POP_PROP UNICODE_PROP_Pattern_Syntax;
          POP_PROP UNICODE_PROP_Pattern_White_Space; POP_UNION;
          POP_PROP UNICODE_PROP_XID_Continue1; POP_UNION; POP_INVERT; POP_INTER]
  else if prop_idx =? UNICODE_PROP_Changes_When_Titlecased then
    Some [POP_CASE CASE_U; POP_PROP UNICODE_PROP_Changes_When_Titlecased1; POP_XOR]
  else if prop_idx =? UNICODE_PROP_Changes_When_Casefolded then
    Some [POP_CASE CASE_F; POP_PROP UNICODE_PROP_Changes_When_Casefolded1; POP_XOR]
  else if prop_idx =? UNICODE_PROP_Changes_When_NFKC_Casefolded then
    Some [POP_CASE CASE_F; POP_PROP UNICODE_PROP_Changes_When_NFKC_Casefolded1; POP_XOR]
  else if prop_idx =? UNICODE_PROP_ID_Continue then
    Some [POP_PROP UNICODE_PROP_ID_Start; POP_PROP UNICODE_PROP_ID_Continue1; POP_XOR]
  else None.

Definition unicode_prop (h : heap) (cr : CharRange) (prop_name : list Z)
    : outcome (heap * CharRange * Z) :=
  let* prop_idx := unicode_find_name unicode_prop_name_table prop_name in
  if prop_idx <? 0 then Ret (h, cr, -2)
  else
    let prop_idx := prop_idx + UNICODE_PROP_ASCII_Hex_Digit in
    match prop_ops_of prop_idx with
    | Some ops => unicode_prop_ops h cr ops
    | None =>
        if prop_idx =? UNICODE_PROP_ASCII then cr_add_interval h cr 0x00 (0x7f + 1)
        else if prop_idx =? UNICODE_PROP_Any then cr_add_interval h cr 0x00000 (0x10ffff + 1)
        else if prop_idx =? UNICODE_PROP_Changes_When_Uppercased then unicode_case1 h cr CASE_U
        else if prop_idx =? UNICODE_PROP_Changes_When_Lowercased then unicode_case1 h cr CASE_L
        else if prop_idx =? UNICODE_PROP_Changes_When_Casemapped then
          unicode_case1 h cr (Z.lor (Z.lor CASE_U CASE_L) CASE_F)
        else if zlen unicode_prop_table <=? prop_idx then Ret (h, cr, -2)
        else unicode_prop1 h cr prop_idx
    end.
End Properties.
