(* ===== verification/UnicodeIndex.v ===== *)
(** The two decoders of the run-length property tables.

    [lre_is_in_table] finds a position in the middle of a table with an index and
    decodes from there; [unicode_prop1] decodes the whole table into a set.  Both
    are related to one list of runs, and so to each other. *)
From Stdlib Require Import ZArith Lia Bool List Sorting.Sorted.
From stdpp Require Import base tactics list numbers strings.
From S2P Require Import Prelude Alloc CharRange UnicodeTables CaseConv UnicodeSets.

(** * The runs of a table *)

(** The runs of one entry, each with its end and whether its code points are
    members, and the state of a decoder after the entry. *)
Definition table_entry (table : list Z) '(p, code, bit)
    : outcome (list (Z * bool) * (Z * Z * bool)) :=
  let* b := rd table p in
  if b <? 64 then
    let c1 := code + (Z.shiftr b 3 + 1) in
    let c2 := c1 + (Z.land b 7 + 1) in
    Ret ([(c1, bit); (c2, negb bit)], (p + 1, c2, bit))
  else
    let* (c1, p) := table_run table (p + 1) code b in
    Ret ([(c1, bit)], (p, c1, negb bit)).

Fixpoint walk (fuel : nat) (table : list Z) (s : Z * Z * bool)
    : outcome (list (Z * Z * bool * list (Z * bool))) :=
  match fuel with
  | O => Err OutOfFuel
  | S fuel =>
      if s.1.1 <? zlen table then
        let* (runs, s') := table_entry table s in
        let* w := walk fuel table s' in
        Ret ((s, runs) :: w)
      else Ret []
  end.

Definition runs_of (w : list (Z * Z * bool * list (Z * bool))) : list (Z * bool) :=
  concat (map snd w).

(** The run of [c]. *)
Fixpoint find_run (runs : list (Z * bool)) (c : Z) : option bool :=
  match runs with
  | [] => None
  | (e, b) :: runs => if c <? e then Some b else find_run runs c
  end.

(** The boundary points of the runs of members. *)
Fixpoint points_of (start : Z) (runs : list (Z * bool)) : list Z :=
  match runs with
  | [] => []
  | (e, b) :: runs => (if b then [start; e] else []) ++ points_of e runs
  end.

(** ** The decidable conditions on a table and its index *)

Fixpoint increasing (start : Z) (l : list Z) : bool :=
  match l with
  | [] => true
  | x :: l => (start <? x) && increasing x l
  end.

(** A decoder of the whole table comes to [pos] with [code] between runs. *)
Fixpoint reaches (w : list (Z * Z * bool * list (Z * bool))) (pos code : Z) : bool :=
  match w with
  | [] => false
  | ((p, c, bit), runs) :: w =>
      ((p =? pos) && (c =? code) && negb bit)
      || (forallb (fun '(e, _) => e <=? code) runs && reaches w pos code)
  end.

Definition index_entry (index : list Z) (i : Z) : outcome (Z * Z) :=
  let* v := get_le24 index (i * 3) in
  Ret ((i + 1) * UNICODE_INDEX_BLOCK_LEN + Z.shiftr v 21, Z.land v (Z.shiftl 1 21 - 1)).

Definition index_ok (w : list (Z * Z * bool * list (Z * bool))) (index : list Z) (i : Z) : bool :=
  match index_entry index i with
  | Ret (pos, code) => (0 <=? pos) && reaches w pos code
  | Err _ => false
  end.

Definition indexed_ok (table index : list Z) : bool :=
  let len := zlen index / 3 in
  match walk (S (length table)) table (0, 0, false), get_le24 index ((len - 1) * 3) with
  | Ret w, Ret last =>
      (1 <=? len) &&
      match index_entry index 0 with
      | Ret (_, c) => (c <=? last) && ((2 <=? len) || (last <=? c))
      | Err _ => false
      end && (zlen index =? len * 3) &&
      forallb (index_ok w index) (seqZ 0 (len - 1)) &&
      (0 <? last) && (fst (List.last (runs_of w) (0, false)) =? last) &&
      increasing 0 (map fst (runs_of w)) && increasing (-1) (points_of 0 (runs_of w)) &&
      (length w <=? length table)%nat
  | _, _ => false
  end.

(** * Lemmas *)

Lemma lre_is_in_table_step_eq c table s :
  lre_is_in_table_step c table s =
  let* (runs, s') := table_entry table s in
  Ret (match find_run runs c with Some b => inr b | None => inl s' end).
Proof.
  destruct s as [[p code] bit]. unfold lre_is_in_table_step, table_entry.
  destruct (rd table p) as [b|e]; [|done]. cbn [obind]. destruct (b <? 64).
  - cbn [obind find_run]. destruct (_ <? _); [done|]. destruct (_ <? _); [done|]. by rewrite negb_involutive.
  - destruct (table_run _ _ _ _) as [[c1 p1]|e]; [|done]. cbn [obind find_run]. by destruct (_ <? _).
Qed.

Lemma find_run_app l k c :
  find_run (l ++ k) c = match find_run l c with Some b => Some b | None => find_run k c end.
Proof. induction l as [|[e b] l IH]; cbn; [done|]. by destruct (_ <? _). Qed.

Lemma find_run_None l c : find_run l c = None <-> Forall (fun '(e, _) => e <= c) l.
Proof.
  induction l as [|[e b] l IH]; cbn [find_run].
  - split; [intros _; constructor|done].
  - rewrite Forall_cons_iff, <- IH. destruct (Z.ltb_spec c e); split; try done.
    + intros [? _]. lia.
    + intros [_ ?]. done.
Qed.

(** Scanning from a state of the decoder gives the run of [c]. *)
Lemma scan_walk c table fuel fuel' s w b :
  walk fuel table s = Ret w -> find_run (runs_of w) c = Some b -> (length w <= fuel')%nat ->
  iter fuel' (lre_is_in_table_step c table) s = Ret b.
Proof.
  revert fuel' s w. induction fuel as [|fuel IH]; intros fuel' s w Hw Hb Hl; [done|].
  cbn [walk] in Hw. destruct (s.1.1 <? zlen table); [|injection Hw as <-; done].
  destruct (table_entry table s) as [[runs s']|] eqn:E; [|done]. cbn [obind] in Hw.
  destruct (walk fuel table s') as [w'|] eqn:Ew; [|done]. injection Hw as <-.
  unfold runs_of in Hb. cbn [map concat snd] in Hb. rewrite find_run_app in Hb.
  destruct fuel' as [|fuel']; [cbn in Hl; lia|]. cbn [iter].
  rewrite lre_is_in_table_step_eq, E. cbn [obind].
  destruct (find_run runs c) as [b'|]; [congruence|]. apply (IH fuel' s' w'); [done|done|].
  cbn [length] in Hl. lia.
Qed.

Lemma scan_reaches c table fuel fuel' s w pos code b :
  walk fuel table s = Ret w -> reaches w pos code = true -> code <= c ->
  find_run (runs_of w) c = Some b -> (length w <= fuel')%nat ->
  iter fuel' (lre_is_in_table_step c table) (pos, code, false) = Ret b.
Proof.
  revert s w. induction fuel as [|fuel IH]; intros s w Hw Hr Hc Hb Hl; [done|].
  pose proof Hw as Hw0. cbn [walk] in Hw.
  destruct (s.1.1 <? zlen table); [|injection Hw as <-; done].
  destruct (table_entry table s) as [[runs s']|] eqn:E; [|done]. cbn [obind] in Hw.
  destruct (walk fuel table s') as [w'|] eqn:Ew; [|done]. injection Hw as <-.
  destruct s as [[p c0] bit]. cbn [reaches] in Hr. apply orb_true_iff in Hr as [Hr|Hr].
  - apply andb_true_iff in Hr as [Hr Hbit]. apply andb_true_iff in Hr as [Hp Hc0].
    apply Z.eqb_eq in Hp as ->. apply Z.eqb_eq in Hc0 as ->. destruct bit; [done|].
    by eapply scan_walk.
  - apply andb_true_iff in Hr as [Hr1 Hr2]. apply (IH s' w'); [done|done|done| |cbn [length] in Hl; lia].
    unfold runs_of in Hb. cbn [map concat snd] in Hb. rewrite find_run_app in Hb.
    rewrite (proj2 (find_run_None runs c)) in Hb; [done|]. apply List.Forall_forall.
    intros [e b'] Hin. pose proof (proj1 (forallb_forall _ _) Hr1 _ Hin) as He. cbn in He. lia.
Qed.

(** ** The index *)

Lemma get_le24_in m p : 0 <= p -> p + 2 < zlen m -> exists v, get_le24 m p = Ret v.
Proof.
  intros. unfold get_le24.
  destruct (at_exists m p) as [x Hx]; [lia|]. destruct (at_exists m (p + 1)) as [y Hy]; [lia|].
  destruct (at_exists m (p + 2)) as [z Hz]; [lia|].
  rewrite (rd_at _ _ _ Hx), (rd_at _ _ _ Hy), (rd_at _ _ _ Hz). by eexists.
Qed.

Lemma get_index_pos_spec c index len last :
  1 <= len -> zlen index = len * 3 -> 0 <= c ->
  get_le24 index ((len - 1) * 3) = Ret last ->
  (forall pos code, index_entry index 0 = Ret (pos, code) ->
     code <= last /\ (2 <= len \/ last <= code)) ->
  post (get_index_pos c index len) (fun '(pos, code) =>
    (pos = -1 /\ last <= c) \/
    (c < last /\ (pos = 0 /\ code = 0)) \/
    (c < last /\ code <= c /\ exists i, 0 <= i < len - 1 /\ index_entry index i = Ret (pos, code))).
Proof.
  intros Hlen Hz Hc Hlast Hfirst. unfold get_index_pos.
  destruct (get_le24_in index 0 ltac:(lia) ltac:(lia)) as [v0 E0]. rewrite E0. cbn [obind].
  unfold index_entry in Hfirst. rewrite Z.mul_0_l, E0 in Hfirst. specialize (Hfirst _ _ eq_refl).
  destruct (Z.ltb_spec c (Z.land v0 (Z.shiftl 1 21 - 1))) as [H0|H0].
  { cbn [post]. right. left. split; [lia|done]. }
  rewrite Hlast. cbn [obind]. destruct (Z.leb_spec last c) as [H1|H1]; [by left|].
  apply post_bind. eapply post_mono with (P := fun i => 0 <= i < len - 1 /\
    exists v, get_le24 index (i * 3) = Ret v /\ Z.land v (Z.shiftl 1 21 - 1) <= c).
  - apply (post_iter (fun '(lo, hi) => 0 <= lo < hi /\ hi <= len - 1 /\
             exists v, get_le24 index (lo * 3) = Ret v /\ Z.land v (Z.shiftl 1 21 - 1) <= c)
             (fun '(lo, hi) => Z.to_nat (hi - lo))).
    + intros [lo hi] (Hlo & Hhi & Hv). destruct (Z.ltb_spec 1 (hi - lo)).
      * assert (lo < (hi + lo) / 2 < hi) by zlia.
        destruct (get_le24_in index ((hi + lo) / 2 * 3) ltac:(lia) ltac:(lia)) as [v Ev].
        rewrite Ev. cbn [obind]. destruct (Z.ltb_spec c (Z.land v (Z.shiftl 1 21 - 1))); cbn [post].
        -- split; [|lia]. split; [lia|]. split; [lia|done].
        -- split; [|lia]. split; [lia|]. split; [lia|]. by exists v.
      * cbn [post]. split; [lia|done].
    + destruct Hfirst as [_ [?|?]]; [|lia]. split; [lia|]. split; [lia|]. exists v0. by rewrite Z.mul_0_l.
    + lia.
  - intros i (Hi & v & Ev & Hv). rewrite Ev. cbn [obind post]. right. right.
    split; [done|]. split; [done|]. exists i. split; [lia|]. unfold index_entry. by rewrite Ev.
Qed.

(** ** The set of members *)

Lemma increasing_spec start l : increasing start l = true -> StronglySorted Z.lt l /\ Forall (Z.lt start) l.
Proof.
  revert start. induction l as [|x l IH]; intros start H; [by split; constructor|].
  cbn [increasing] in H. apply andb_true_iff in H as [Hx H]. apply Z.ltb_lt in Hx.
  destruct (IH x H) as [Hs Hf]. split; [by constructor|]. constructor; [done|].
  eapply Forall_impl; [exact Hf|]. lia.
Qed.

Lemma points_of_ge start runs :
  increasing start (map fst runs) = true -> Forall (fun p => start <= p) (points_of start runs).
Proof.
  revert start. induction runs as [|[e b] runs IH]; intros start H; [constructor|].
  cbn [map fst increasing points_of] in *. apply andb_true_iff in H as [He H]. apply Z.ltb_lt in He.
  apply Forall_app. split.
  - destruct b; [|constructor]. repeat constructor; lia.
  - eapply Forall_impl; [by apply IH|]. cbn beta. lia.
Qed.

Lemma points_of_even start runs : Nat.Even (length (points_of start runs)).
Proof.
  revert start. induction runs as [|[e b] runs IH]; intros start; [by exists 0%nat|].
  cbn [points_of]. rewrite length_app. destruct b; cbn [length Nat.add]; [|done].
  by apply (proj2 (even_SS _)).
Qed.

(** Membership in the set is the kind of the run. *)
Lemma inside_points start runs c :
  increasing start (map fst runs) = true -> start <= c ->
  inside false (points_of start runs) c = default false (find_run runs c).
Proof.
  revert start. induction runs as [|[e b] runs IH]; intros start H Hc; [done|].
  cbn [map fst increasing points_of find_run] in *. apply andb_true_iff in H as [He H].
  apply Z.ltb_lt in He. rewrite inside_app. pose proof (points_of_ge e runs H) as Hge.
  destruct (Z.ltb_spec c e) as [Hlt|Hle].
  - rewrite inside_gt by (eapply Forall_impl; [exact Hge|]; cbn beta; lia).
    destruct b; [|done]. cbn [inside]. replace (start <=? c) with true by lia.
    by replace (e <=? c) with false by lia.
  - rewrite <- (IH e H Hle). f_equal. destruct b; [|done]. cbn [inside].
    replace (start <=? c) with true by lia. by replace (e <=? c) with true by lia.
Qed.

Section Prop1.
Context `{AL : Allocator}.

(** Adding an interval when it is one of members. *)
Lemma add_if_spec h cr (b : bool) c1 c2 :
  cr_wf cr ->
  post (if b then cr_add_interval h cr c1 c2 else Ret (h, cr, 0))
    (cr_result (fun l => l = cr_list cr ++ (if b then [c1; c2] else []))).
Proof.
  intros Hwf. destruct b; [by apply cr_add_interval_spec|]. apply post_ret.
  split; [done|]. left. by rewrite app_nil_r.
Qed.

(** One step adds the members among the runs of an entry. *)
Lemma unicode_prop1_step_spec h cr table p c bit runs s' :
  cr_wf cr -> p < zlen table -> table_entry table (p, c, bit) = Ret (runs, s') ->
  post (unicode_prop1_step table (zlen table) (h, cr, p, c, bit)) (fun r => match r with
    | inl (h, cr', p', c', bit') =>
        s' = (p', c', bit') /\ cr_wf cr' /\ cr_list cr' = cr_list cr ++ points_of c runs
    | inr (h, cr', r) => cr_wf cr' /\ r = -1
    end).
Proof.
  intros Hwf Hp He. unfold unicode_prop1_step. replace (p <? zlen table) with true by lia.
  cbn zeta. unfold table_entry in He. destruct (rd table p) as [b|]; [|done]. cbn [obind] in *.
  destruct (b <? 64).
  - injection He as <- <-. rewrite !obind_assoc. apply post_bind.
    eapply post_mono; [by apply add_if_spec|]. intros [[h1 cr1] r1] (Hwf1 & [[-> Hl1]| ->]); cbn [obind Z.eqb negb].
    2:{ apply post_ret. auto. }
    apply post_bind. eapply post_mono; [by apply add_if_spec|].
    intros [[h2 cr2] r2] (Hwf2 & [[-> Hl2]| ->]); cbn [obind Z.eqb negb]; apply post_ret; [|auto].
    rewrite negb_involutive. split; [done|]. split; [done|]. rewrite Hl2, Hl1, <- app_assoc.
    cbn [points_of]. by rewrite app_nil_r.
  - destruct (table_run _ _ _ _) as [[c1 p1]|]; [|done]. cbn [obind] in *. injection He as <- <-.
    cbn [Z.eqb negb]. apply post_bind. eapply post_mono; [by apply add_if_spec|].
    intros [[h2 cr2] r2] (Hwf2 & [[-> Hl2]| ->]); cbn [obind Z.eqb negb]; apply post_ret; [|auto].
    split; [done|]. split; [done|]. rewrite Hl2. cbn [points_of]. by rewrite app_nil_r.
Qed.

Lemma points_of_end start l k e b :
  points_of start ((l ++ [(e, b)]) ++ k) = points_of start (l ++ [(e, b)]) ++ points_of e k.
Proof.
  revert start. induction l as [|[e' b'] l IH]; intros start; cbn [app points_of].
  - by rewrite app_nil_r.
  - by rewrite IH, app_assoc.
Qed.

Lemma table_entry_end table p c bit runs p' c' bit' :
  table_entry table (p, c, bit) = Ret (runs, (p', c', bit')) -> exists l b, runs = l ++ [(c', b)].
Proof.
  unfold table_entry. destruct (rd table p) as [b|]; [|done]. cbn [obind]. destruct (b <? 64).
  - intros [= <- _ <- _]. by exists [(c + (Z.shiftr b 3 + 1), bit)], (negb bit).
  - destruct (table_run _ _ _ _) as [[c1 p1]|]; [|done]. intros [= <- _ <- _]. by exists [], bit.
Qed.

Lemma prop1_walk table fuel fuel' h cr p c bit w :
  walk fuel table (p, c, bit) = Ret w -> cr_wf cr -> (length w < fuel')%nat ->
  post (iter fuel' (unicode_prop1_step table (zlen table)) (h, cr, p, c, bit))
    (cr_result (fun l => l = cr_list cr ++ points_of c (runs_of w))).
Proof.
  revert fuel' h cr p c bit w.
  induction fuel as [|fuel IH]; intros fuel' h cr p c bit w Hw Hwf Hl; [done|].
  destruct fuel' as [|fuel']; [lia|]. cbn [walk fst] in Hw. cbn [iter].
  destruct (Z.ltb_spec p (zlen table)) as [Hp|Hp].
  - destruct (table_entry table (p, c, bit)) as [[runs s']|] eqn:E; [|done]. cbn [obind] in Hw.
    destruct (walk fuel table s') as [w'|] eqn:Ew; [|done]. injection Hw as <-.
    apply post_bind. eapply post_mono; [by eapply unicode_prop1_step_spec|].
    intros [[[[[h1 cr1] p1] c1] b1]|[[h1 cr1] r1]]; [|intros [? ->]; apply post_ret; by split; auto].
    intros (-> & Hwf1 & Hl1). cbn [length] in Hl.
    eapply cr_result_mono; [by apply (IH fuel' h1 cr1 p1 c1 b1 w' Ew Hwf1 ltac:(lia))|].
    intros l ->. rewrite Hl1, <- app_assoc. f_equal. unfold runs_of. cbn [map snd concat].
    destruct (table_entry_end _ _ _ _ _ _ _ _ E) as (l' & b' & ->). by rewrite points_of_end.
  - injection Hw as <-. unfold unicode_prop1_step. replace (p <? zlen table) with false by lia.
    cbn [obind post cr_result]. split; [done|]. left. by rewrite app_nil_r.
Qed.
End Prop1.

(** ** The decoder with an index *)

Lemma last_end w last :
  increasing 0 (map fst (runs_of w)) = true -> fst (List.last (runs_of w) (0, false)) = last -> 0 < last ->
  forall c, find_run (runs_of w) c = None <-> last <= c.
Proof.
  generalize (runs_of w). intros l Hi Hl H0 c. rewrite find_run_None.
  destruct l as [|[e b] l] using rev_ind; [cbn in Hl; lia|]. clear IHl.
  rewrite List.last_last in Hl. cbn [fst] in Hl. subst e. rewrite Forall_app.
  split; [intros [_ H]; by apply Forall_cons_iff in H as [H _]|]. intros Hc.
  split; [|by repeat constructor]. rewrite map_app in Hi. apply increasing_spec in Hi as [Hs _].
  clear H0. induction l as [|[e' b'] l IH]; [constructor|]. cbn [map fst app] in Hs.
  apply StronglySorted_inv in Hs as [Hs He]. constructor; [|by apply IH].
  apply Forall_app in He as [_ He]. apply Forall_cons_iff in He as [He _]. cbn in He. lia.
Qed.

Record indexed (table index : list Z) (w : list (Z * Z * bool * list (Z * bool))) (last : Z) : Prop := {
  ix_walk : walk (S (length table)) table (0, 0, false) = Ret w;
  ix_last : get_le24 index ((zlen index / 3 - 1) * 3) = Ret last;
  ix_len : 1 <= zlen index / 3;
  ix_zlen : zlen index = zlen index / 3 * 3;
  ix_first : forall pos code, index_entry index 0 = Ret (pos, code) ->
    code <= last /\ (2 <= zlen index / 3 \/ last <= code);
  ix_entries : forall i pos code, 0 <= i < zlen index / 3 - 1 -> index_entry index i = Ret (pos, code) ->
    0 <= pos /\ reaches w pos code = true;
  ix_end : forall c, find_run (runs_of w) c = None <-> last <= c;
  ix_increasing : increasing 0 (map fst (runs_of w)) = true;
  ix_canonical : canonical (points_of 0 (runs_of w));
  ix_length : (length w <= length table)%nat
}.

Lemma indexed_ok_spec table index :
  indexed_ok table index = true -> exists w last, indexed table index w last.
Proof.
  unfold indexed_ok. cbv zeta. destruct (walk _ table _) as [w|] eqn:Ew; [|done].
  destruct (get_le24 index _) as [last|] eqn:El; [|done]. intros H. rewrite !andb_true_iff in H.
  destruct H as [[[[[[[[Hlen Hfirst] Hz] Hix] Hpos] Hend] Hinc] Hcan] Hl].
  apply Z.leb_le in Hlen. apply Z.eqb_eq in Hz, Hend. apply Z.ltb_lt in Hpos. apply Nat.leb_le in Hl.
  exists w, last. constructor; try done.
  - intros pos code E. rewrite E in Hfirst. apply andb_true_iff in Hfirst as [? Hf].
    apply orb_true_iff in Hf. lia.
  - intros i pos code Hi E. pose proof (proj1 (forallb_forall _ _) Hix i) as Ho.
    unfold index_ok in Ho. rewrite E in Ho.
    specialize (Ho ltac:(apply list_elem_of_In, elem_of_seqZ; lia)).
    apply andb_true_iff in Ho as [Hp Hr]. split; [lia|done].
  - by apply last_end.
  - apply increasing_spec in Hcan as [Hs _]. split; [done|]. apply points_of_even.
Qed.

Lemma lre_is_in_table_runs table index w last c :
  indexed table index w last -> 0 <= c ->
  lre_is_in_table c table index (zlen index / 3) = Ret (default false (find_run (runs_of w) c)).
Proof.
  intros [Hw Hlast Hlen Hz Hfirst Hix Hend Hinc _ Hl] Hc. unfold lre_is_in_table.
  pose proof (get_index_pos_spec c index (zlen index / 3) last Hlen Hz Hc Hlast Hfirst) as H.
  apply post_inv in H as ([pos code] & -> & H). cbn [obind].
  destruct H as [[-> Hc']|[[Hc' [-> ->]]|(Hc' & Hcode & i & Hi & E)]].
  - replace (-1 <? 0) with true by done. by rewrite (proj2 (Hend c) Hc').
  - replace (0 <? 0) with false by done. destruct (find_run (runs_of w) c) as [b|] eqn:Er.
    + eapply scan_walk; [exact Hw|done|lia].
    + apply Hend in Er. lia.
  - destruct (Hix i pos code Hi E) as [Hp Hr]. replace (pos <? 0) with false by lia.
    destruct (find_run (runs_of w) c) as [b|] eqn:Er.
    + eapply scan_reaches; [exact Hw|done|done|done|lia].
    + apply Hend in Er. lia.
Qed.

(** ** The tables of the program *)

Definition indexed_properties : list (Z * (list Z * list Z)) :=
  [(UNICODE_PROP_Case_Ignorable, (unicode_prop_Case_Ignorable_table, unicode_prop_Case_Ignorable_index));
   (UNICODE_PROP_ID_Start, (unicode_prop_ID_Start_table, unicode_prop_ID_Start_index));
   (UNICODE_PROP_ID_Continue1, (unicode_prop_ID_Continue1_table, unicode_prop_ID_Continue1_index));
   (UNICODE_PROP_White_Space, (unicode_prop_White_Space_table, unicode_prop_White_Space_index))].

Definition property_ok '(prop_idx, (table, index)) : bool :=
  indexed_ok table index &&
  match rd unicode_prop_table prop_idx, rd unicode_prop_len_table prop_idx with
  | Ret t, Ret len => bool_decide (t = table) && (len =? zlen table)
  | _, _ => false
  end.

Lemma properties_ok : forallb property_ok indexed_properties = true.
Proof. vm_cast_no_check (eq_refl true). Qed.

(** C33: The two decoders of the property tables agree.  For every property of
    [unicode_prop_table] that has an index (Case_Ignorable, ID_Start, ID_Continue1, White_Space),
    [unicode_prop1] started on an empty set, for every allocator, either reports
    a failed allocation or builds a canonical set; and [lre_is_in_table], which
    finds its place in the table with the index and decodes a part of it, never
    faults and answers for every code point whether it is in that set. *)
Theorem lre_is_in_table_unicode_prop1 `{AL : Allocator} h prop_idx table index :
  In (prop_idx, (table, index)) indexed_properties ->
  post (unicode_prop1 h cr_init prop_idx) (fun '(_, cr, r) =>
    cr_wf cr /\
    (r = -1 \/
     r = 0 /\ canonical (cr_list cr) /\
     forall c, 0 <= c ->
       lre_is_in_table c table index (zlen index / 3) = Ret (inside false (cr_list cr) c))).
Proof.
  intros Hin. pose proof (proj1 (forallb_forall _ _) properties_ok _ Hin) as Hok.
  unfold property_ok in Hok. apply andb_true_iff in Hok as [Hok Ht]. unfold unicode_prop1.
  destruct (rd unicode_prop_table prop_idx) as [t|]; [|done].
  destruct (rd unicode_prop_len_table prop_idx) as [len|]; [|done]. cbn [obind].
  apply andb_true_iff in Ht as [Ht Hlen]. apply bool_decide_eq_true in Ht as ->. apply Z.eqb_eq in Hlen as ->.
  apply indexed_ok_spec in Hok as (w & last & Hix).
  eapply post_mono; [apply (prop1_walk table _ _ _ _ _ _ _ w (ix_walk _ _ _ _ Hix))|].
  - split; [done|reflexivity].
  - pose proof (ix_length _ _ _ _ Hix). lia.
  - intros [[h' cr] r] (Hwf & [[-> Hl]| ->]); (split; [done|]); [right|by left].
    change (cr_list cr_init) with (@nil Z) in Hl. cbn [app] in Hl. rewrite Hl.
    split; [done|]. split; [apply Hix|]. intros c Hc.
    rewrite (lre_is_in_table_runs _ _ _ _ _ Hix Hc). f_equal. symmetry.
    apply inside_points; [apply Hix|done].
Qed.

Lemma lre_is_in_table_unicode_prop1_witness :
  In (UNICODE_PROP_White_Space, (unicode_prop_White_Space_table, unicode_prop_White_Space_index))
    indexed_properties /\
  post (unicode_prop1 (AL := alloc_always) tt cr_init UNICODE_PROP_White_Space) (fun '(_, cr, r) =>
    cr_wf cr /\
    (r = -1 \/
     r = 0 /\ canonical (cr_list cr) /\
     forall c, 0 <= c ->
       lre_is_in_table c unicode_prop_White_Space_table unicode_prop_White_Space_index
         (zlen unicode_prop_White_Space_index / 3) = Ret (inside false (cr_list cr) c))).
Proof.
  assert (In (UNICODE_PROP_White_Space, (unicode_prop_White_Space_table, unicode_prop_White_Space_index))
    indexed_properties) as H by (do 3 right; left; reflexivity).
  split; [exact H|]. apply (lre_is_in_table_unicode_prop1 (AL := alloc_always) tt _ _ _ H).
Defined.
