(* ===== verification/UnicodeNames.v ===== *)
(** The search of a name in a table of names with aliases.

    [unicode_find_name] compares a name with each of the comma-separated names of
    each entry, reading the table in place; it is shown to compute a search in
    the list of entries. *)
From Stdlib Require Import ZArith Lia Bool List String.
From stdpp Require Import base tactics list numbers strings.
From S2P Require Import Prelude Alloc CString UnicodeTables UnicodeSets.

(** The names of an entry. *)
Fixpoint aliases (s : list Z) : list (list Z) :=
  match s with
  | [] => [[]]
  | c :: s =>
      if c =? 44 then [] :: aliases s
      else match aliases s with
           | t :: ts => (c :: t) :: ts
           | [] => [[c]]
           end
  end.

(** The position of the first entry that has the name. *)
Fixpoint find_entry (entries : list (list Z)) (name : list Z) (pos : Z) : Z :=
  match entries with
  | [] => -1
  | e :: entries =>
      if bool_decide (name ∈ aliases e) then pos else find_entry entries name (pos + 1)
  end.

(** A string that can be an entry: not empty, no terminator inside. *)
Definition entry_ok (e : list Z) : bool :=
  match e with [] => false | _ => forallb (fun c => negb (c =? 0)) e end.

(** The first name and what follows the comma. *)
Fixpoint first_alias (s : list Z) : list Z * option (list Z) :=
  match s with
  | [] => ([], None)
  | c :: s =>
      if c =? 44 then ([], Some s)
      else let '(t, r) := first_alias s in (c :: t, r)
  end.

Lemma aliases_first s :
  aliases s = let '(t, r) := first_alias s in
              t :: match r with Some s' => aliases s' | None => [] end.
Proof.
  induction s as [|c s IH]; [done|]. cbn [aliases first_alias]. destruct (c =? 44); [done|].
  destruct (first_alias s) as [t r]. by rewrite IH.
Qed.

Lemma first_alias_app s :
  let '(t, r) := first_alias s in
  s = t ++ match r with Some s' => 44 :: s' | None => [] end /\ Forall (fun c => c <> 44) t.
Proof.
  induction s as [|c s IH]; [by split; [|constructor]|]. cbn [first_alias].
  destruct (Z.eqb_spec c 44) as [->|Hc]; [by split; [|constructor]|].
  destruct (first_alias s) as [t r]. destruct IH as [-> Ht]. split; [done|by constructor].
Qed.

(** [strchr] at a string. *)
Lemma strchr_eq m p s t r :
  cstr_at m p s -> first_alias s = (t, r) ->
  strchr m p 44 = Ret (match r with Some _ => Some (p + zlen t) | None => None end).
Proof.
  intros Hs. unfold strchr. pose proof (cstr_at_bounds _ _ _ Hs) as Hb.
  assert (length s < S (length m))%nat as Hf by (unfold zlen in Hb; lia). revert Hf. clear Hb.
  generalize (S (length m)) as fuel. revert p t r Hs.
  induction s as [|c s IH]; intros p t r Hs fuel Hf E; (destruct fuel as [|fuel]; [cbn in Hf; lia|]);
    cbn [iter].
  - apply cstr_at_nil in Hs. rewrite (rd_at _ _ _ Hs). by injection E as <- <-.
  - apply cstr_at_cons in Hs as (Hc & H0 & Hs). rewrite (rd_at _ _ _ Hc). cbn [obind first_alias] in *.
    destruct (Z.eqb_spec c 44) as [->|Hn].
    + injection E as <- <-. cbn [obind]. do 2 f_equal. change (zlen []) with 0. lia.
    + destruct (first_alias s) as [t' r'] eqn:E'. injection E as <- <-. decide_ifs lia. cbn [obind].
      rewrite (IH (p + 1) t' r' Hs fuel ltac:(cbn [length] in Hf; lia) eq_refl). rewrite zlen_cons.
      destruct r'; [do 2 f_equal; lia|done].
Qed.

Section Find.
Variables (table name nm : list Z).
Hypothesis name_at : cstr_at name 0 nm.

Lemma unicode_find_alias_eq p s t r :
  cstr_at table p s -> first_alias s = (t, r) ->
  unicode_find_alias table name (zlen nm) p =
    Ret (if bool_decide (nm = t) then inr tt
         else inl (p + (zlen t + 1), match r with Some _ => true | None => false end)).
Proof using name_at.
  intros Hs E. unfold unicode_find_alias. rewrite (strchr_eq _ _ _ _ _ Hs E). cbn [obind].
  pose proof (first_alias_app s) as Hsp. rewrite E in Hsp. destruct Hsp as [Hsp _].
  assert (match match r with Some _ => Some (p + zlen t) | None => None end with
          | Some r => Ret (r - p) | None => strlen table p end = Ret (zlen t)) as ->.
  { destruct r; [f_equal; lia|]. rewrite app_nil_r in Hsp. subst s. by apply strlen_eq. }
  cbn [obind]. assert (block_at table p t) as Hb.
  { destruct Hs as [Hs _]. rewrite Hsp, <- app_assoc in Hs. by apply block_at_app in Hs as [Hs _]. }
  pose proof (cstr_at_bounds _ _ _ Hs) as Hbs. rewrite Hsp, zlen_app in Hbs.
  pose proof (cstr_at_bounds _ _ _ name_at) as Hbn. pose proof (zlen_nonneg t).
  destruct (Z.eqb_spec (zlen t) (zlen nm)) as [Hl|Hl].
  - unfold memcmp_eq. rewrite <- Hl at 1.
    pose proof (zlen_nonneg (match r with Some s' => 44 :: s' | None => [] end)).
    rewrite rd_slice_block_at by (done || lia). cbn [obind].
    destruct name_at as [Hn _]. apply block_at_app in Hn as [Hn _].
    rewrite rd_slice_block_at by (done || lia). cbn [obind].
    destruct (bool_decide_reflect (t = nm)), (bool_decide_reflect (nm = t)); try congruence; by destruct r.
  - destruct (bool_decide_reflect (nm = t)) as [->|]; [done|]. cbn [obind]. by destruct r.
Qed.

(** The loop over the names of an entry. *)
Lemma find_aliases fuel p s :
  cstr_at table p s -> (length s < fuel)%nat ->
  iter fuel (fun p =>
    let* a := unicode_find_alias table name (zlen nm) p in
    match a with
    | inr _ => Ret (inr None)
    | inl (p, true) => Ret (inl p)
    | inl (p, false) => Ret (inr (Some p))
    end) p =
  Ret (if bool_decide (nm ∈ aliases s) then None else Some (p + zlen s + 1)).
Proof using name_at.
  revert p s. induction fuel as [|fuel IH]; intros p s Hs Hf; [lia|]. cbn [iter].
  pose proof (aliases_first s) as Ha. pose proof (first_alias_app s) as Hsp.
  destruct (first_alias s) as [t r] eqn:E. destruct Hsp as [Hsp _].
  rewrite (unicode_find_alias_eq p s t r Hs E), Ha. cbn [obind].
  destruct (bool_decide_reflect (nm = t)) as [Ht|Ht].
  { cbn [obind]. rewrite bool_decide_true; [done|]. rewrite Ht. apply list_elem_of_here. }
  rewrite (bool_decide_ext _ (nm ∈ match r with Some s' => aliases s' | None => [] end)).
  2:{ rewrite elem_of_cons. split; [by intros [?|?]|by right]. }
  destruct r as [s'|]; cbn [obind].
  - subst s. rewrite length_app in Hf. cbn [length] in Hf. rewrite (IH (p + (zlen t + 1)) s').
    + case_bool_decide; [done|]. do 2 f_equal. rewrite zlen_app, zlen_cons. lia.
    + replace (zlen t + 1) with (zlen (t ++ [44])) by (by rewrite zlen_app, zlen_1).
      apply cstr_at_drop. by rewrite <- app_assoc.
    + lia.
  - rewrite bool_decide_false by apply not_elem_of_nil. rewrite app_nil_r in Hsp. subst s.
    do 2 f_equal. lia.
Qed.
End Find.

(** ** The search *)

Lemma entry_ok_spec e : entry_ok e = true -> e <> [] /\ Forall (fun c => c <> 0) e.
Proof.
  destruct e as [|c e]; [done|]. unfold entry_ok. intros H. split; [done|].
  apply List.Forall_forall. intros x Hx. pose proof (proj1 (forallb_forall _ _) H x Hx). cbn beta in *. lia.
Qed.

(** The loop over the entries from position [p]. *)
Lemma find_entries table name nm entries fuel p pos :
  cstr_at name 0 nm -> forallb entry_ok entries = true ->
  block_at table p (concat (map (fun e => e ++ [0]) entries) ++ [0]) -> (length entries < fuel)%nat ->
  iter fuel (fun '(p, pos) =>
    let* c := rd table p in
    if c =? 0 then Ret (inr (-1))
    else
      let* r := iter (S (length table)) (fun p =>
        let* a := unicode_find_alias table name (zlen nm) p in
        match a with
        | inr _ => Ret (inr None)
        | inl (p, true) => Ret (inl p)
        | inl (p, false) => Ret (inr (Some p))
        end) p in
      match r with
      | None => Ret (inr pos)
      | Some p => Ret (inl (p, pos + 1))
      end) (p, pos) = Ret (find_entry entries nm pos).
Proof.
  intros Hn. revert entries p pos. induction fuel as [|fuel IH]; intros entries p pos He Hb Hf; [lia|].
  rewrite iter_S. destruct entries as [|e entries].
  { destruct Hb as [Hz _]. by rewrite (rd_at _ _ _ Hz). }
  cbn [forallb map concat length find_entry] in *. apply andb_true_iff in He as [He Hes].
  apply entry_ok_spec in He as [Hne Hnz]. rewrite <- app_assoc, block_at_app in Hb.
  destruct Hb as [Hb Hr]. assert (cstr_at table p e) as Hs by (by split).
  assert (exists c, rd table p = Ret c /\ c <> 0) as (c & Ec & Hc).
  { destruct e as [|c e]; [done|]. apply cstr_at_cons in Hs as (Hc & H0 & _).
    exists c. split; [by apply rd_at|done]. }
  rewrite Ec. cbn [obind]. decide_ifs lia. pose proof (cstr_at_bounds _ _ _ Hs).
  rewrite (find_aliases _ _ _ Hn _ _ _ Hs) by (unfold zlen in *; lia). cbn [obind].
  destruct (bool_decide (nm ∈ aliases e)); [done|]. cbn [obind]. apply IH; [done| |lia].
  rewrite zlen_app, zlen_1 in Hr. by replace (p + zlen e + 1) with (p + (zlen e + 1)) by lia.
Qed.

(** The tables of the program have entries of this form. *)
Lemma name_tables_ok :
  Forall (fun names => exists l, names = c_names l /\ forallb entry_ok (map bytes_of_string l) = true)
    [unicode_gc_name_table; unicode_script_name_table; unicode_prop_name_table].
Proof.
  repeat constructor; eexists; (split; [reflexivity|vm_cast_no_check (eq_refl true)]).
Qed.

(** [unicode_find_name] searches the list of entries that the table encodes.
    For every table of non-empty entries and every name of any length, stored
    anywhere with its terminator, the search reads neither table nor name out of
    bounds, ends, and returns the position of the first entry one of whose
    comma-separated names is equal to the name, or -1 when there is none; a
    prefix of a name, or a name with a comma in it, is not found. *)
Theorem unicode_find_name_spec names name nm :
  forallb entry_ok (map bytes_of_string names) = true -> cstr_at name 0 nm ->
  unicode_find_name (c_names names) name = Ret (find_entry (map bytes_of_string names) nm 0).
Proof.
  intros Hok Hn. unfold unicode_find_name. rewrite (strlen_eq _ _ _ Hn). cbn [obind].
  assert (c_names names = concat (map (fun e => e ++ [0]) (map bytes_of_string names)) ++ [0]) as E
    by (unfold c_names; by rewrite map_map).
  apply find_entries; [done|done| |].
  - rewrite <- E. pose proof (block_at_mid [] (c_names names) []) as H. by rewrite app_nil_r in H.
  - rewrite E. clear E Hok. generalize (map bytes_of_string names). intros l.
    rewrite length_app. cbn [length]. 
    cut (length l <= length (concat (map (fun e => e ++ [0%Z]) l)))%nat; [lia|].
    induction l as [|e l IH]; [done|]. cbn [map concat length]. rewrite !length_app. cbn [length]. lia.
Qed.

Lemma unicode_find_name_spec_witness :
  forallb entry_ok (map bytes_of_string ["Cn,Unassigned"; "Lu,Uppercase_Letter"]) = true /\
  unicode_find_name (c_names ["Cn,Unassigned"; "Lu,Uppercase_Letter"]) (bytes_of_string "Lu" ++ [0]) =
    Ret (find_entry (map bytes_of_string ["Cn,Unassigned"; "Lu,Uppercase_Letter"])
           (bytes_of_string "Lu") 0).
Proof.
  split; [vm_compute; reflexivity|].
  apply (unicode_find_name_spec _ _ (bytes_of_string "Lu")); [vm_compute; reflexivity|].
  split; [by repeat split|].
  vm_compute. repeat (constructor; [discriminate|]). constructor.
Defined.
