(* ===== verification/Normalize.v ===== *)
(** Unicode normalization in [libunicode.c]: decompositions, compositions,
    combining classes, the canonical ordering and [unicode_normalize]. *)
From Stdlib Require Import ZArith Lia Bool List.
From stdpp Require Import base tactics list numbers strings.
From S2P Require Import Prelude Alloc DynBuf UnicodeTables CaseConv.

Definition UNICODE_DECOMP_LEN_MAX : nat := 18.

(** [DecompTypeEnum]; a type is a 6-bit field of [unicode_decomp_table1]. *)
Definition DECOMP_TYPE_C1 : Z := 0.
Definition DECOMP_TYPE_L1 : Z := 1.
Definition DECOMP_TYPE_L7 : Z := 7.
Definition DECOMP_TYPE_LL1 : Z := 8.
Definition DECOMP_TYPE_LL2 : Z := 9.
Definition DECOMP_TYPE_S1 : Z := 10.
Definition DECOMP_TYPE_S5 : Z := 14.
Definition DECOMP_TYPE_I1 : Z := 15.
Definition DECOMP_TYPE_I2_0 : Z := 16.
Definition DECOMP_TYPE_I4_2 : Z := 21.
Definition DECOMP_TYPE_B1 : Z := 22.
Definition DECOMP_TYPE_B8 : Z := 29.
Definition DECOMP_TYPE_B18 : Z := 30.
Definition DECOMP_TYPE_LS2 : Z := 31.
Definition DECOMP_TYPE_PAT3 : Z := 32.
Definition DECOMP_TYPE_S2_UL : Z := 33.
Definition DECOMP_TYPE_LS2_UL : Z := 34.

Definition unicode_get_short_code (c : Z) : outcome Z :=
  if c <? 0x80 then Ret c
  else if c <? 0x80 + 0x50 then Ret (c - 0x80 + 0x300)
  else rd [0x2044; 0x2215] (c - 0x80 - 0x50).

Definition unicode_get_lower_simple (c : Z) : Z :=
  if (c <? 0x100) || ((0x410 <=? c) && (c <=? 0x42f)) then u32 (c + 0x20) else u32 (c + 1).

(** [unicode_get16(d + i)]; a pointer into a table is the rest of the table. *)
Definition unicode_get16 (d : list Z) (i : Z) : outcome Z :=
  let* a := rd d i in
  let* b := rd d (i + 1) in
  Ret (Z.lor a (Z.shiftl b 8)).

Definition advance (d : list Z) (n : Z) : list Z := drop (Z.to_nat n) d.

(** A loop that stores [get i] in [res[i]] for the [n] values from [i] on.  The
    value 0 may be stored like any other, or end the function after it is stored
    or instead of being stored; the result tells whether all were stored. *)
Inductive on_zero := ZeroStored | ZeroStoredEnds | ZeroEnds.

Fixpoint fill (mode : on_zero) (get : Z -> outcome Z) (res : list Z) (i : Z) (n : nat)
    : outcome (list Z * bool) :=
  match n with
  | O => Ret (res, true)
  | S n =>
      let* v := get i in
      match mode, v =? 0 with
      | ZeroEnds, true => Ret (res, false)
      | ZeroStoredEnds, true => let* res := wr res i v in Ret (res, false)
      | _, _ => let* res := wr res i v in fill mode get res (i + 1) n
      end
  end.

(** The loop and the [return l] after it. *)
Definition fill_return (mode : on_zero) (get : Z -> outcome Z) (res : list Z) (l : Z)
    : outcome (list Z * Z) :=
  let* (res, all) := fill mode get res 0 (Z.to_nat l) in
  Ret (res, if all : bool then l else 0).

Definition decomp_type_i (d res : list Z) (k l p : Z) : outcome (list Z * Z) :=
  fill_return ZeroStored (fun i =>
    let* c1 := unicode_get16 d (2 * i) in
    Ret (if i =? p then u32 (c1 + k) else c1)) res l.

Definition decomp_type_b (d res : list Z) (k l : Z) : outcome (list Z * Z) :=
  let* c_min := unicode_get16 d 0 in
  let d := advance d (2 + k * l) in
  fill_return ZeroStored (fun i =>
    let* c1 := rd d i in
    Ret (if c1 =? 0xff then 0x20 else c1 + c_min)) res l.

(** The body of [unicode_decomp_entry] for character [k] of an entry with value
    [t2] in [unicode_decomp_table2] and data [d]: the array [res] and the length. *)
Definition decomp_chars (d : list Z) (t2 : Z) (res : list Z) (k len type : Z) : outcome (list Z * Z) :=
  if type =? DECOMP_TYPE_C1 then let* res := wr res 0 t2 in Ret (res, 1)
  else if (DECOMP_TYPE_L1 <=? type) && (type <=? DECOMP_TYPE_L7) then
    let l := type - DECOMP_TYPE_L1 + 1 in
    let d := advance d (k * l * 2) in
    fill_return ZeroStoredEnds (fun i => unicode_get16 d (2 * i)) res l
  else if (DECOMP_TYPE_LL1 <=? type) && (type <=? DECOMP_TYPE_LL2) then
    let l := type - DECOMP_TYPE_LL1 + 1 in
    let p := len * l * 2 in
    fill_return ZeroEnds (fun i =>
      let k := k * l + i in
      let* lo := unicode_get16 d (2 * k) in
      let* hi := rd d (p + k / 4) in
      Ret (Z.lor lo (Z.shiftl (Z.land (Z.shiftr hi (k mod 4 * 2)) 3) 16))) res l
  else if (DECOMP_TYPE_S1 <=? type) && (type <=? DECOMP_TYPE_S5) then
    let l := type - DECOMP_TYPE_S1 + 1 in
    let d := advance d (k * l) in
    fill_return ZeroStoredEnds (fun i => let* b := rd d i in unicode_get_short_code b) res l
  else if type =? DECOMP_TYPE_I1 then decomp_type_i d res k 1 0
  else if (DECOMP_TYPE_I2_0 <=? type) && (type <=? DECOMP_TYPE_I4_2) then
    let l := 2 + Z.shiftr (type - DECOMP_TYPE_I2_0) 1 in
    let p := Z.land (type - DECOMP_TYPE_I2_0) 1 + b2z (2 <? l) in
    decomp_type_i d res k l p
  else if type =? DECOMP_TYPE_B18 then decomp_type_b d res k 18
  else if (DECOMP_TYPE_B1 <=? type) && (type <=? DECOMP_TYPE_B8) then
    decomp_type_b d res k (type - DECOMP_TYPE_B1 + 1)
  else if type =? DECOMP_TYPE_LS2 then
    let d := advance d (k * 3) in
    let* v := unicode_get16 d 0 in
    let* res := wr res 0 v in
    if v =? 0 then Ret (res, 0)
    else
      let* b := rd d 2 in
      let* v := unicode_get_short_code b in
      let* res := wr res 1 v in
      Ret (res, 2)
  else if type =? DECOMP_TYPE_PAT3 then
    let* v := unicode_get16 d 0 in
    let* res := wr res 0 v in
    let* v := unicode_get16 d 2 in
    let* res := wr res 2 v in
    let d := advance d (4 + k * 2) in
    let* v := unicode_get16 d 0 in
    let* res := wr res 1 v in
    Ret (res, 3)
  else if (type =? DECOMP_TYPE_S2_UL) || (type =? DECOMP_TYPE_LS2_UL) then
    let* (c, d) :=
      if type =? DECOMP_TYPE_S2_UL then
        let d := advance d (Z.land k 0xfffffffe) in
        let* b := rd d 0 in
        let* c := unicode_get_short_code b in
        Ret (c, advance d 1)
      else
        let d := advance d (Z.shiftr k 1 * 3) in
        let* c := unicode_get16 d 0 in
        Ret (c, advance d 2) in
    let c := if Z.land k 1 =? 0 then c else unicode_get_lower_simple c in
    let* res := wr res 0 c in
    let* b := rd d 0 in
    let* v := unicode_get_short_code b in
    let* res := wr res 1 v in
    Ret (res, 2)
  else Ret (res, 0).

Definition unicode_decomp_entry (res : list Z) (c idx code len type : Z) : outcome (list Z * Z) :=
  let* t2 := rd unicode_decomp_table2 idx in
  decomp_chars (advance unicode_decomp_data t2) t2 res (u32 (c - code)) len type.

(** The fields of an entry of [unicode_decomp_table1]. *)
Definition decomp_code (v : Z) : Z := Z.shiftr v (32 - 18).
Definition decomp_len (v : Z) : Z := Z.land (Z.shiftr v (32 - 18 - 7)) 0x7f.
Definition decomp_type (v : Z) : Z := Z.land (Z.shiftr v (32 - 18 - 7 - 6)) 0x3f.

(** The binary search of [unicode_decomp_char]. *)
Definition decomp_find (c : Z) : outcome (option (Z * Z)) :=
  iter (S (length unicode_decomp_table1)) (fun '(idx_min, idx_max) =>
    if idx_min <=? idx_max then
      let idx := (idx_max + idx_min) / 2 in
      let* v := rd unicode_decomp_table1 idx in
      if c <? decomp_code v then Ret (inl (idx_min, idx - 1))
      else if decomp_code v + decomp_len v <=? c then Ret (inl (idx + 1, idx_max))
      else Ret (inr (Some (idx, v)))
    else Ret (inr None)) (0, zlen unicode_decomp_table1 - 1).

Definition unicode_decomp_char (res : list Z) (c : Z) (is_compat1 : bool) : outcome (list Z * Z) :=
  let* r := decomp_find c in
  match r with
  | Some (idx, v) =>
      if b2z is_compat1 <? Z.land v 1 then Ret (res, 0)
      else unicode_decomp_entry res c idx (decomp_code v) (decomp_len v) (decomp_type v)
  | None => Ret (res, 0)
  end.

(** [unicode_compose_pair]; [pair] is the array of the same name, which is not
    initialized. *)
Definition unicode_compose_pair (pair : list Z) (c0 c1 : Z) : outcome Z :=
  iter (S (length unicode_comp_table)) (fun '(idx_min, idx_max, pair) =>
    if idx_min <=? idx_max then
      let idx := (idx_max + idx_min) / 2 in
      let* idx1 := rd unicode_comp_table idx in
      let d_idx := Z.shiftr idx1 6 in
      let d_offset := Z.land idx1 0x3f in
      let* v := rd unicode_decomp_table1 d_idx in
      let ch := decomp_code v + d_offset in
      let* (pair, _) := unicode_decomp_entry pair ch d_idx (decomp_code v) (decomp_len v) (decomp_type v) in
      let* p0 := rd pair 0 in
      let d := i32 (c0 - p0) in
      let* d := if d =? 0 then let* p1 := rd pair 1 in Ret (i32 (c1 - p1)) else Ret d in
      if d <? 0 then Ret (inl (idx_min, idx - 1, pair))
      else if 0 <? d then Ret (inl (idx + 1, idx_max, pair))
      else Ret (inr ch)
    else Ret (inr 0)) (0, zlen unicode_comp_table - 1, pair).

(** * Combining classes *)

(** One entry of [unicode_cc_table] at [p], for [c] from [code] on: the class,
    or the next [code] and [p]. *)
Definition cc_step (c : Z) '(p, code) : outcome (Z * Z + Z) :=
  let* b := rd unicode_cc_table p in
  let p := p + 1 in
  let type := Z.shiftr b 6 in
  let n := Z.land b 0x3f in
  let* (n, p) :=
    if n <? 48 then Ret (n, p)
    else if n <? 56 then
      let* b1 := rd unicode_cc_table p in
      Ret (Z.lor (Z.shiftl (n - 48) 8) b1 + 48, p + 1)
    else
      let* b1 := rd unicode_cc_table p in
      let* b2 := rd unicode_cc_table (p + 1) in
      Ret (Z.lor (Z.lor (Z.shiftl (n - 56) 8) (Z.shiftl b1 8)) b2 + (48 + Z.shiftl 1 11), p + 2) in
  let p := if type <=? 1 then p + 1 else p in
  let c1 := code + n + 1 in
  if c <? c1 then
    let* cc :=
      if type =? 0 then rd unicode_cc_table (p - 1)
      else if type =? 1 then let* b := rd unicode_cc_table (p - 1) in Ret (b + c - code)
      else if type =? 2 then Ret 0
      else Ret 230 in
    Ret (inr cc)
  else Ret (inl (p, c1)).

Definition unicode_get_cc (c : Z) : outcome Z :=
  let* (pos, code) := get_index_pos c unicode_cc_index (zlen unicode_cc_index / 3) in
  if pos <? 0 then Ret 0
  else iter (S (length unicode_cc_table)) (cc_step c) (pos, code).

(** The loop over [k]: it moves characters of higher classes up. *)
Definition sort_cc_shift (start cc1 : Z) '(k, buf) : outcome (Z * list Z + Z * list Z) :=
  if start <=? k then
    let* b := rd buf k in
    let* cc := unicode_get_cc b in
    if cc <=? cc1 then Ret (inr (k, buf))
    else
      let* b := rd buf k in
      let* buf := wr buf (k + 1) b in
      Ret (inl (k - 1, buf))
  else Ret (inr (k, buf)).

(** The loop over [j]: it inserts the characters after [start] in order. *)
Definition sort_cc_run (start len : Z) '(j, buf) : outcome (Z * list Z + Z * list Z) :=
  if j <? len then
    let* ch1 := rd buf j in
    let* cc1 := unicode_get_cc ch1 in
    if cc1 =? 0 then Ret (inr (j, buf))
    else
      let* (k, buf) := iter (S (length buf)) (sort_cc_shift start cc1) (j - 1, buf) in
      let* buf := wr buf (k + 1) ch1 in
      Ret (inl (j + 1, buf))
  else Ret (inr (j, buf)).

Definition sort_cc_step (len : Z) '(i, buf) : outcome (Z * list Z + list Z) :=
  if i <? len then
    let* b := rd buf i in
    let* cc := unicode_get_cc b in
    if negb (cc =? 0) then
      let* (j, buf) := iter (S (length buf)) (sort_cc_run i len) (i + 1, buf) in
      Ret (inl (j + 1, buf))
    else Ret (inl (i + 1, buf))
  else Ret (inr buf).

Definition sort_cc (buf : list Z) (len : Z) : outcome (list Z) :=
  iter (S (length buf)) (sort_cc_step len) (0, buf).

(** * Normal forms *)

Definition compose_pair (pair : list Z) (c0 c1 : Z) : outcome Z :=
  if (0x1100 <=? c0) && (c0 <? 0x1100 + 19) && (0x1161 <=? c1) && (c1 <? 0x1161 + 21) then
    Ret (0xac00 + (c0 - 0x1100) * 588 + (c1 - 0x1161) * 28)
  else if (0xac00 <=? c0) && (c0 <? 0xac00 + 11172) && ((c0 - 0xac00) mod 28 =? 0)
          && (0x11a7 <=? c1) && (c1 <? 0x11a7 + 28) then
    Ret (c0 + c1 - 0x11a7)
  else unicode_compose_pair pair c0 c1.

Inductive UnicodeNormalizationEnum := UNICODE_NFC | UNICODE_NFD | UNICODE_NFKC | UNICODE_NFKD.

Definition norm_code (n : UnicodeNormalizationEnum) : Z :=
  match n with UNICODE_NFC => 0 | UNICODE_NFD => 1 | UNICODE_NFKC => 2 | UNICODE_NFKD => 3 end.

#[export] Instance UnicodeNormalizationEnum_eq_dec : EqDecision UnicodeNormalizationEnum.
Proof. solve_decision. Defined.

(** The search of the starter of the composition loop from [starter_pos] down:
    [None] is [goto next]. *)
Definition find_starter (buf : list Z) '(starter_pos, last_cc) : outcome (Z * Z + option Z) :=
  if 0 <=? starter_pos then
    let* b := rd buf starter_pos in
    let* cc := unicode_get_cc b in
    if cc =? 0 then Ret (inr (Some starter_pos))
    else if last_cc <=? cc then Ret (inr None)
    else Ret (inl (starter_pos - 1, 256))
  else Ret (inr (Some starter_pos)).

Section Normalize.
Context `{AL : Allocator}.

(** The contents of the arrays that are not initialized. *)
Variable uninit : nat -> Z.
Definition uninit_array (n : nat) : list Z := map uninit (seq 0 n).

(** One character of [to_nfd_rec], with the recursive call. *)
Definition to_nfd_char (rec : heap -> DynBuf -> list Z -> outcome (heap * DynBuf)) (is_compat : bool)
    '(h, dbuf) (c : Z) : outcome (heap * DynBuf) :=
  if (0xac00 <=? c) && (c <? 0xd7a4) then
    let c := c - 0xac00 in
    let* (h, dbuf, _) := dbuf_put_u32 h dbuf (0x1100 + c / 588) in
    let* (h, dbuf, _) := dbuf_put_u32 h dbuf (0x1161 + c mod 588 / 28) in
    let v := c mod 28 in
    if negb (v =? 0) then let* (h, dbuf, _) := dbuf_put_u32 h dbuf (0x11a7 + v) in Ret (h, dbuf)
    else Ret (h, dbuf)
  else
    let* (res, l) := unicode_decomp_char (uninit_array UNICODE_DECOMP_LEN_MAX) c is_compat in
    if negb (l =? 0) then rec h dbuf (take (Z.to_nat l) res)
    else let* (h, dbuf, _) := dbuf_put_u32 h dbuf c in Ret (h, dbuf).

(** [to_nfd_rec], recursing on the depth of the calls. *)
Fixpoint to_nfd_rec (depth : nat) (is_compat : bool) (h : heap) (dbuf : DynBuf) (src : list Z)
    : outcome (heap * DynBuf) :=
  match depth with
  | O => Err OutOfFuel
  | S depth => ofold (to_nfd_char (to_nfd_rec depth is_compat) is_compat) (h, dbuf) src
  end.

(** The cells of a block of bytes read as [int]s. *)
Fixpoint int_cells (m : list Z) (p : Z) (n : nat) : outcome (list Z) :=
  match n with
  | O => Ret []
  | S n => let* v := get_u32 m p in let* l := int_cells m (p + 4) n in Ret (v :: l)
  end.

Definition compose_step (buf_len : Z) '(i, out_len, buf) : outcome (Z * Z * list Z + Z * list Z) :=
  if i <? buf_len then
    let next :=
      let* b := rd buf i in
      let* buf := wr buf out_len b in
      Ret (inl (i + 1, out_len + 1, buf)) in
    let* b := rd buf i in
    let* last_cc := unicode_get_cc b in
    let* r := iter (S (length buf)) (find_starter buf) (out_len - 1, last_cc) in
    match r with
    | None => next
    | Some starter_pos =>
        if 0 <=? starter_pos then
          let* s := rd buf starter_pos in
          let* b := rd buf i in
          let* p := compose_pair (uninit_array 2) s b in
          if negb (p =? 0) then
            let* buf := wr buf starter_pos p in
            Ret (inl (i + 1, out_len, buf))
          else next
        else next
    end
  else Ret (inr (out_len, buf)).

(** [unicode_normalize]: [*pdst] (as a block of [int]s) and the result. *)
Definition unicode_normalize (depth : nat) (h : heap) (src : list Z) (n_type : UnicodeNormalizationEnum)
    : outcome (heap * option (list Z) * Z) :=
  let src_len := zlen src in
  let is_compat := negb (Z.shiftr (norm_code n_type) 1 =? 0) in
  let '(h, dbuf, r) := dbuf_realloc h dbuf_init (4 * src_len) in
  if negb (r =? 0) then Ret (h, None, -1)
  else if bool_decide (n_type = UNICODE_NFC) && forallb (fun c => c <? 0x100) src then
    let* b := wr_slice (buf dbuf) 0 (concat (map (le_bytes 4) src)) in
    let* dst := int_cells b 0 (length src) in
    Ret (h, Some dst, src_len)
  else
    let* (h, dbuf) := to_nfd_rec depth is_compat h dbuf src in
    if dbuf_error dbuf then Ret (h, None, -1)
    else
      let buf_len := i32 (size dbuf / 4) in
      let* b := int_cells (buf dbuf) 0 (Z.to_nat buf_len) in
      let* b := sort_cc b buf_len in
      if (buf_len <=? 1) || negb (Z.land (norm_code n_type) 1 =? 0) then Ret (h, Some b, buf_len)
      else
        let* (out_len, b) := iter (S (Z.to_nat buf_len)) (compose_step buf_len) (1, 1, b) in
        Ret (h, Some b, out_len).
End Normalize.
