(* ===== verification/CombiningClass.v ===== *)
(** Combining classes.

    [unicode_get_cc] finds a place in [unicode_cc_table] with an index and
    decodes the runs from there; it gives the class that the runs of the whole
    table give. *)
From Stdlib Require Import ZArith Lia Bool List.
From stdpp Require Import base tactics list numbers strings.
From S2P Require Import Prelude UnicodeTables CaseConv UnicodeIndex Normalize.

(** A run: its end, its start, its type and the class stored with it. *)
Definition cc_run : Type := Z * (Z * Z * Z).

Definition run_class '(code, type, base) (c : Z) : Z :=
  if type =? 0 then base else if type =? 1 then base + c - code else if type =? 2 then 0 else 230.

(** The run that starts at [code] and position [p], and what follows it. *)
Definition cc_entry '(p, code) : outcome (cc_run * (Z * Z)) :=
  let* b := rd unicode_cc_table p in
  let p := p + 1 in
  let type := Z.shiftr b 6 in
  let n := Z.land b 0x3f in
  let* (n, p) :=
    if n <? 48 then Ret (n, p)
    else if n <? 56 then
      let* b1 := rd unicode_cc_table p in
      Ret (Z.lor (Z.shiftl (n - 48) 8) b1 + 48, p + 1)
    else
      let* b1 := rd unicode_cc_table p in
      let* b2 := rd unicode_cc_table (p + 1) in
      Ret (Z.lor (Z.lor (Z.shiftl (n - 56) 8) (Z.shiftl b1 8)) b2 + (48 + Z.shiftl 1 11), p + 2) in
  let c1 := code + n + 1 in
  if type <=? 1 then
    let* base := rd unicode_cc_table p in Ret ((c1, (code, type, base)), (p + 1, c1))
  else Ret ((c1, (code, type, 0)), (p, c1)).

Fixpoint cc_walk (fuel : nat) (s : Z * Z) : outcome (list (Z * Z * cc_run)) :=
  match fuel with
  | O => Err OutOfFuel
  | S fuel =>
      if s.1 <? zlen unicode_cc_table then
        let* (run, s') := cc_entry s in
        let* w := cc_walk fuel s' in
        Ret ((s, run) :: w)
      else Ret []
  end.

Fixpoint find_class (runs : list cc_run) (c : Z) : option Z :=
  match runs with
  | [] => None
  | (e, r) :: runs => if c <? e then Some (run_class r c) else find_class runs c
  end.

Fixpoint cc_reaches (w : list (Z * Z * cc_run)) (pos code : Z) : bool :=
  match w with
  | [] => false
  | (p, c, (e, _)) :: w =>
      ((p =? pos) && (c =? code)) || ((e <=? code) && cc_reaches w pos code)
  end.

(** The class of the last run that ends at or below [c] does not matter: the
    runs are in order and their classes are bytes. *)
Fixpoint cc_runs_ok (start : Z) (runs : list cc_run) : bool :=
  match runs with
  | [] => true
  | (e, (code, type, base)) :: runs =>
      (start =? code) && (code <? e) && (0 <=? type) && (0 <=? base) &&
      (base + (if type =? 1 then e - 1 - code else 0) <? 256) && cc_runs_ok e runs
  end.

(** The class of the code points after the last run is 0. *)
Definition runs_walked (w : outcome (list (Z * Z * cc_run))) : list cc_run :=
  match w with Ret w => map snd w | Err _ => [] end.

Definition cc_runs : list cc_run :=
  Eval vm_compute in runs_walked (cc_walk (S (length unicode_cc_table)) (0, 0)).

Definition combining_class (c : Z) : Z := default 0 (find_class cc_runs c).

Definition cc_walk_ok (walked : outcome (list (Z * Z * cc_run))) (index : list Z) : bool :=
  let len := zlen index / 3 in
  match walked, get_le24 index ((len - 1) * 3) with
  | Ret w, Ret last =>
      (2 <=? len) && (zlen index =? len * 3) &&
      match index_entry index 0 with Ret (_, code) => code <=? last | Err _ => false end &&
      forallb (fun i => match index_entry index i with
                        | Ret (pos, code) => (0 <=? pos) && cc_reaches w pos code
                        | Err _ => false
                        end) (seqZ 0 (len - 1)) &&
      (fst (List.last (map snd w) (0, (0, 0, 0))) =? last) && (0 <? last) &&
      cc_runs_ok 0 (map snd w) && (length w <=? length unicode_cc_table)%nat
  | _, _ => false
  end.

Lemma cc_table_ok :
  cc_walk_ok (cc_walk (S (length unicode_cc_table)) (0, 0)) unicode_cc_index = true.
Proof. vm_cast_no_check (eq_refl true). Qed.

Lemma cc_runs_eq : runs_walked (cc_walk (S (length unicode_cc_table)) (0, 0)) = cc_runs.
Proof. vm_cast_no_check (eq_refl cc_runs). Qed.

(** * Lemmas *)

Lemma cc_step_entry c s e r s' :
  cc_entry s = Ret ((e, r), s') ->
  cc_step c s = Ret (if c <? e then inr (run_class r c) else inl s').
Proof.
  destruct s as [p code]. unfold cc_entry, cc_step. destruct (rd unicode_cc_table p) as [b|]; [|done].
  cbn [obind]. cbv zeta. generalize (p + 1). intros q.
  match goal with |- context [obind (if Z.land b 63 <? 48 then _ else _) _] =>
    destruct (if Z.land b 63 <? 48 then _ else _) as [[n q1]|] end; [|done]. cbn [obind].
  destruct (Z.shiftr b 6 <=? 1) eqn:Et.
  - destruct (rd unicode_cc_table q1) as [base|] eqn:Eb; [|done]. cbn [obind]. intros [= <- <- <-].
    destruct (c <? _); [|done]. replace (q1 + 1 - 1) with q1 by lia. rewrite Eb. cbn [obind run_class].
    destruct (Z.eqb_spec (Z.shiftr b 6) 0); [done|]. destruct (Z.eqb_spec (Z.shiftr b 6) 1); [done|].
    destruct (Z.shiftr b 6 =? 2); done.
  - intros [= <- <- <-]. destruct (c <? _); [|done]. cbn [run_class].
    destruct (Z.eqb_spec (Z.shiftr b 6) 0) as [E|]; [rewrite E in Et; done|].
    destruct (Z.eqb_spec (Z.shiftr b 6) 1) as [E|]; [rewrite E in Et; done|].
    destruct (Z.shiftr b 6 =? 2); done.
Qed.

Lemma cc_scan c fuel fuel' s w cc :
  cc_walk fuel s = Ret w -> find_class (map snd w) c = Some cc -> (length w <= fuel')%nat ->
  iter fuel' (cc_step c) s = Ret cc.
Proof.
  revert fuel' s w. induction fuel as [|fuel IH]; intros fuel' s w Hw Hc Hl; [done|].
  cbn [cc_walk] in Hw. destruct (s.1 <? _); [|by injection Hw as <-].
  destruct (cc_entry s) as [[[e r] s']|] eqn:E; [|done]. cbn [obind] in Hw.
  destruct (cc_walk fuel s') as [w'|] eqn:Ew; [|done]. injection Hw as <-.
  destruct fuel' as [|fuel']; [cbn in Hl; lia|]. cbn [iter map snd find_class length] in *.
  rewrite (cc_step_entry c s e r s' E). cbn [obind].
  destruct (c <? e); [congruence|]. apply (IH fuel' s' w'); [done|done|lia].
Qed.

Lemma cc_scan_reaches c fuel fuel' s w pos code cc :
  cc_walk fuel s = Ret w -> cc_reaches w pos code = true -> code <= c ->
  find_class (map snd w) c = Some cc -> (length w <= fuel')%nat ->
  iter fuel' (cc_step c) (pos, code) = Ret cc.
Proof.
  revert s w. induction fuel as [|fuel IH]; intros s w Hw Hr Hc Hb Hl; [done|].
  pose proof Hw as Hw0. cbn [cc_walk] in Hw.
  destruct (s.1 <? _); [|by injection Hw as <-].
  destruct (cc_entry s) as [[[e r] s']|] eqn:E; [|done]. cbn [obind] in Hw.
  destruct (cc_walk fuel s') as [w'|] eqn:Ew; [|done]. injection Hw as <-.
  destruct s as [p c0]. cbn [cc_reaches] in Hr. apply orb_true_iff in Hr as [Hr|Hr].
  - apply andb_true_iff in Hr as [Hp Hc0]. apply Z.eqb_eq in Hp as ->. apply Z.eqb_eq in Hc0 as ->.
    by eapply cc_scan.
  - apply andb_true_iff in Hr as [Hr1 Hr2]. cbn [map snd find_class length] in *.
    revert Hb. replace (c <? e) with false by lia. intros Hb. apply (IH s' w'); [done..|lia].
Qed.

Lemma cc_runs_end start runs c :
  cc_runs_ok start runs = true -> 0 < fst (List.last runs (0, (0, 0, 0))) ->
  find_class runs c = None <-> fst (List.last runs (0, (0, 0, 0))) <= c.
Proof.
  revert start. induction runs as [|[e [[code type] base]] runs IH]; intros start H Hl; [cbn in Hl; lia|].
  cbn [cc_runs_ok] in H. rewrite !andb_true_iff in H. destruct H as [[[[[_ He] _] _] _] H].
  cbn [find_class]. destruct runs as [|r runs].
  - cbn. destruct (Z.ltb_spec c e); split; (done || lia).
  - assert (e < fst (List.last (r :: runs) (0, (0, 0, 0)))) as Hlast.
    { clear -H. revert e r H. induction runs as [|r' runs IH]; intros e [e1 [[c1 t1] b1]] H.
      - cbn in *. rewrite !andb_true_iff in H. lia.
      - cbn [cc_runs_ok] in H. rewrite !andb_true_iff in H. destruct H as [[[[[Hs He] _] _] _] H].
        specialize (IH e1 r' H). cbn [List.last] in *. lia. }
    change (List.last ((e, (code, type, base)) :: r :: runs) (0, (0, 0, 0)))
      with (List.last (r :: runs) (0, (0, 0, 0))) in *.
    destruct (Z.ltb_spec c e); [split; [done|lia]|]. apply (IH e H Hl).
Qed.

Lemma cc_runs_bound start runs c cc :
  cc_runs_ok start runs = true -> start <= c -> find_class runs c = Some cc -> 0 <= cc < 256.
Proof.
  revert start. induction runs as [|[e [[code type] base]] runs IH]; intros start H Hc E; [done|].
  cbn [cc_runs_ok] in H. rewrite !andb_true_iff in H. destruct H as [[[[[Hs He] Ht] Hb] Hm] H].
  cbn [find_class] in E. destruct (Z.ltb_spec c e) as [Hlt|Hle].
  - injection E as <-. unfold run_class. destruct (type =? 1); destruct (type =? 0), (type =? 2); lia.
  - by apply (IH e H).
Qed.

Lemma get_cc_class c :
  0 <= c -> unicode_get_cc c = Ret (combining_class c) /\ 0 <= combining_class c < 256.
Proof.
  intros Hc. pose proof cc_table_ok as H. unfold combining_class. rewrite <- cc_runs_eq.
  destruct (cc_walk _ _) as [w|] eqn:Ew; [|done]. unfold cc_walk_ok in H. cbn [runs_walked].
  destruct (get_le24 _ _) as [last|] eqn:El; [|done]. rewrite !andb_true_iff in H.
  destruct H as [[[[[[[H1 H2] H3] H4] H5] H6] H7] H8]. apply Z.eqb_eq in H5. apply Nat.leb_le in H8.
  pose proof (cc_runs_end _ _ c H7 ltac:(lia)) as Hend. rewrite H5 in Hend.
  split.
  2:{ destruct (find_class (map snd w) c) as [cc|] eqn:E; [|cbn; lia]. by eapply cc_runs_bound. }
  pose proof (get_index_pos_spec c unicode_cc_index (zlen unicode_cc_index / 3) last
    ltac:(lia) ltac:(lia) Hc El) as H.
  unfold unicode_get_cc. apply post_inv in H as ([pos code] & -> & H).
  2:{ intros pos code E. rewrite E in H3. lia. }
  cbn [obind]. destruct H as [[-> Hc']|[[Hc' [-> ->]]|(Hc' & Hcode & i & Hi & E)]].
  - by rewrite (proj2 Hend Hc').
  - replace (0 <? 0) with false by done. destruct (find_class (map snd w) c) as [cc|] eqn:Er.
    + eapply cc_scan; [exact Ew|done|lia].
    + pose proof (proj1 Hend eq_refl). lia.
  - pose proof (proj1 (forallb_forall _ _) H4 i) as Ho. cbv beta in Ho. rewrite E in Ho.
    specialize (Ho ltac:(apply list_elem_of_In, elem_of_seqZ; lia)). apply andb_true_iff in Ho as [Hp Hr].
    replace (pos <? 0) with false by lia. destruct (find_class (map snd w) c) as [cc|] eqn:Er.
    + eapply cc_scan_reaches; [exact Ew|done|done|done|lia].
    + pose proof (proj1 Hend eq_refl). lia.
Qed.

(** The code points from [lo] to [hi] lie in one run of starters. *)
Fixpoint starters_on (runs : list cc_run) (lo hi : Z) : bool :=
  match runs with
  | [] => true
  | (e, (_, type, _)) :: runs =>
      if lo <? e then (hi <? e) && (type =? 2) else starters_on runs lo hi
  end.

Lemma starters_on_spec runs lo hi c :
  starters_on runs lo hi = true -> lo <= c <= hi -> default 0 (find_class runs c) = 0.
Proof.
  intros H Hc. induction runs as [|[e [[code type] base]] runs IH]; [done|].
  cbn [starters_on find_class] in *. destruct (Z.ltb_spec lo e).
  - apply andb_true_iff in H as [He Ht]. replace (c <? e) with true by lia. apply Z.eqb_eq in Ht as ->. done.
  - replace (c <? e) with false by lia. by apply IH.
Qed.

(** The Hangul syllables are starters. *)
Lemma hangul_class c : 0xac00 <= c < 0xd7a4 -> combining_class c = 0.
Proof.
  intros Hc. apply (starters_on_spec _ 0xac00 0xd7a3); [vm_cast_no_check (eq_refl true)|lia].
Qed.

(** C31: The index of the table of combining classes is right: for every code
    point [unicode_get_cc], which starts to decode in the middle of the table,
    reads nothing out of bounds, ends, and returns the class, a byte, that the
    runs of the table decoded from its start give. *)
Theorem unicode_get_cc_spec c :
  0 <= c -> unicode_get_cc c = Ret (combining_class c) /\ 0 <= combining_class c < 256.
Proof. apply get_cc_class. Qed.

Lemma unicode_get_cc_spec_witness :
  0 <= 0x345 /\ unicode_get_cc 0x345 = Ret (combining_class 0x345) /\ 0 <= combining_class 0x345 < 256.
Proof. split; [discriminate|]. apply (unicode_get_cc_spec 0x345). discriminate. Defined.

(** The class of a code point is not to be computed by unfolding. *)
#[global] Opaque combining_class.
