(* ===== verification/CanonOrder.v ===== *)
(** The canonical ordering of combining characters.

    [sort_cc] sorts each run of characters that are not starters by insertion, in
    place.  It computes [canonical_order], which is the stable sort of each run:
    a permutation that is in order and keeps the order of equal classes. *)
From Stdlib Require Import ZArith Lia Bool List Sorting.Sorted.
From stdpp Require Import base tactics list numbers strings.
From S2P Require Import Prelude Normalize CombiningClass.

(** * The specification *)

Abbreviation cc := combining_class.

(** Insertion in a run that is stored last character first. *)
Fixpoint insert_rev (x : Z) (r : list Z) : list Z :=
  match r with
  | [] => [x]
  | y :: r' => if cc y <=? cc x then x :: r else y :: insert_rev x r'
  end.

(** The ordering of [l] after the run [acc]. *)
Fixpoint order (acc l : list Z) : list Z :=
  match l with
  | [] => rev acc
  | x :: l => if cc x =? 0 then rev acc ++ x :: order [] l else order (insert_rev x acc) l
  end.

Definition canonical_order (l : list Z) : list Z := order [] l.

(** No character stands after one of a higher class, unless it is a starter. *)
Fixpoint in_order (l : list Z) : Prop :=
  match l with
  | x :: (y :: _) as l => (cc y = 0 \/ cc x <= cc y) /\ in_order l
  | _ => True
  end.

(** * The loops of [sort_cc] *)

Abbreviation code_points := (Forall (fun c => 0 <= c)).

Lemma get_cc c : 0 <= c -> unicode_get_cc c = Ret (cc c).
Proof. intros H. by apply get_cc_class. Qed.

Lemma rd_mid {A : Type} (l : list A) x k : rd (l ++ x :: k) (zlen l) = Ret x.
Proof. by rewrite rd_app_mid. Qed.

Lemma sort_cc_shift_spec x pre post rA B g fuel :
  code_points rA -> (length rA < fuel)%nat ->
  exists r1 B' g',
    iter fuel (sort_cc_shift (zlen pre) (cc x))
      (zlen pre + zlen rA - 1, pre ++ rev rA ++ g :: B ++ post) =
    Ret (zlen pre + zlen r1 - 1, pre ++ rev r1 ++ g' :: B' ++ post) /\
    rev r1 ++ x :: B' = rev (insert_rev x rA) ++ B.
Proof.
  revert B g fuel. induction rA as [|y rA IH]; intros B g fuel Hp Hf;
    (destruct fuel as [|fuel]; [cbn in Hf; lia|]); rewrite iter_S; unfold sort_cc_shift at 1.
  - exists [], B, g. change (zlen []) with 0. replace (zlen pre <=? _) with false by lia. done.
  - apply Forall_cons_iff in Hp as [Hy Hp]. rewrite zlen_cons. pose proof (zlen_nonneg rA).
    replace (zlen pre <=? _) with true by lia. cbn [rev]. cbn [length] in Hf.
    assert (rd (pre ++ (rev rA ++ [y]) ++ g :: B ++ post) (zlen pre + (1 + zlen rA) - 1) = Ret y) as E.
    { replace (pre ++ (rev rA ++ [y]) ++ g :: B ++ post)
        with ((pre ++ rev rA) ++ y :: g :: B ++ post) by (rewrite <- !app_assoc; reflexivity).
      rewrite rd_app_mid; [done|]. rewrite zlen_app, zlen_rev. lia. }
    rewrite E. cbn [obind]. rewrite (get_cc y Hy). cbn [obind insert_rev].
    destruct (cc y <=? cc x).
    + exists (y :: rA), B, g. cbn [obind rev]. rewrite zlen_cons. split; [done|].
      rewrite <- !app_assoc. reflexivity.
    + replace (pre ++ (rev rA ++ [y]) ++ g :: B ++ post)
        with ((pre ++ rev rA ++ [y]) ++ g :: B ++ post) by (rewrite <- !app_assoc; reflexivity).
      rewrite wr_app by (rewrite !zlen_app, zlen_rev, zlen_1; lia). cbn [obind].
      destruct (IH (y :: B) y fuel Hp ltac:(lia)) as (r1 & B' & g' & Hi & He).
      exists r1, B', g'. split.
      * rewrite <- Hi. f_equal. f_equal; [lia|]. rewrite <- !app_assoc. reflexivity.
      * rewrite He. cbn [rev]. rewrite <- app_assoc. reflexivity.
Qed.

Lemma insert_rev_perm x r : Permutation (insert_rev x r) (x :: r).
Proof.
  induction r as [|y r IH]; [done|]. cbn [insert_rev]. destruct (_ <=? _); [done|].
  rewrite IH. apply perm_swap.
Qed.

Lemma length_insert_rev x r : length (insert_rev x r) = S (length r).
Proof. by rewrite insert_rev_perm. Qed.

Lemma Forall_insert_rev (P : Z -> Prop) x r : P x -> Forall P r -> Forall P (insert_rev x r).
Proof. intros Hx Hr. rewrite insert_rev_perm. by constructor. Qed.

Lemma zlen_insert_rev x r : zlen (insert_rev x r) = 1 + zlen r.
Proof. unfold zlen. rewrite length_insert_rev. lia. Qed.

(** Where the ordering of a run stops. *)
Definition run_end (rest : list Z) : Prop := match rest with [] => True | x :: _ => cc x = 0 end.
Definition order_rest (rest : list Z) : list Z :=
  match rest with [] => [] | x :: r => x :: order [] r end.

Lemma sort_cc_run_spec pre rA rest len fuel :
  code_points rA -> code_points rest -> len = zlen (pre ++ rev rA ++ rest) -> (length rest < fuel)%nat ->
  exists rA' rest',
    iter fuel (sort_cc_run (zlen pre) len) (zlen pre + zlen rA, pre ++ rev rA ++ rest) =
    Ret (zlen pre + zlen rA', pre ++ rev rA' ++ rest') /\
    run_end rest' /\ order rA rest = rev rA' ++ order_rest rest' /\ code_points rA' /\ code_points rest' /\
    (length rA + length rest = length rA' + length rest')%nat /\ (length rest' <= length rest)%nat.
Proof.
  revert rA fuel. induction rest as [|x post IH]; intros rA fuel HA Hr Hlen Hf;
    (destruct fuel as [|fuel]; [cbn in Hf; lia|]); rewrite iter_S; unfold sort_cc_run at 1;
    rewrite !zlen_app, zlen_rev, ?zlen_nil, ?zlen_cons in Hlen; subst len.
  - replace (zlen pre + zlen rA <? _) with false by lia. exists rA, []. cbn [obind order order_rest].
    rewrite !app_nil_r. repeat (split; [done|]). lia.
  - pose proof (zlen_nonneg post). replace (zlen pre + zlen rA <? _) with true by lia.
    apply Forall_cons_iff in Hr as [Hx Hr].
    assert (rd (pre ++ rev rA ++ x :: post) (zlen pre + zlen rA) = Ret x) as E.
    { rewrite app_assoc. apply rd_app_mid. by rewrite zlen_app, zlen_rev. }
    rewrite E. cbn [obind]. rewrite (get_cc x Hx). cbn [obind order].
    destruct (Z.eqb_spec (cc x) 0) as [H0|H0].
    { exists rA, (x :: post). split; [done|]. split; [done|]. split; [done|]. split; [done|].
      split; [by constructor|]. split; [done|lia]. }
    destruct (sort_cc_shift_spec x pre post rA [] x (S (length (pre ++ rev rA ++ x :: post))) HA)
      as (r1 & B' & g' & Hi & He).
    { rewrite !length_app, length_rev. lia. }
    cbn [app] in Hi. rewrite Hi. cbn [obind].
    replace (pre ++ rev r1 ++ g' :: B' ++ post) with ((pre ++ rev r1) ++ g' :: B' ++ post)
      by (by rewrite <- app_assoc).
    rewrite wr_app by (rewrite zlen_app, zlen_rev; lia). cbn [obind].
    rewrite app_nil_r in He.
    replace ((pre ++ rev r1) ++ x :: B' ++ post) with (pre ++ rev (insert_rev x rA) ++ post)
      by (rewrite <- He, <- !app_assoc; reflexivity).
    cbn [length] in Hf.
    destruct (IH (insert_rev x rA) fuel) as (rA' & rest' & Hi' & Hend & Ho & HA' & Hr' & Hl & Hl').
    + by apply Forall_insert_rev.
    + done.
    + rewrite !zlen_app, zlen_rev, zlen_insert_rev. lia.
    + lia.
    + exists rA', rest'. rewrite zlen_insert_rev in Hi'.
      replace (zlen pre + zlen rA + 1) with (zlen pre + (1 + zlen rA)) by lia.
      rewrite Hi'.
      rewrite length_insert_rev in Hl. cbn [length]. split; [done|]. split; [done|]. split; [done|].
      split; [done|]. split; [done|]. lia.
Qed.

Lemma sort_cc_loop len done rest fuel :
  code_points rest -> len = zlen (done ++ rest) -> (length rest < fuel)%nat ->
  iter fuel (sort_cc_step len) (zlen done, done ++ rest) = Ret (done ++ order [] rest).
Proof.
  intros Hr -> Hf. revert fuel done Hr Hf. remember (length rest) as n eqn:En. revert rest En.
  induction (lt_wf n) as [n _ IH]. intros rest -> fuel done Hr Hf.
  destruct fuel as [|fuel]; [lia|]. rewrite iter_S. unfold sort_cc_step at 1. rewrite zlen_app.
  destruct rest as [|x post].
  { rewrite zlen_nil. replace (zlen done <? _) with false by lia. done. }
  rewrite zlen_cons. pose proof (zlen_nonneg post). replace (zlen done <? _) with true by lia.
  apply Forall_cons_iff in Hr as [Hx Hr]. rewrite rd_mid. cbn [obind]. rewrite (get_cc x Hx). cbn [obind order].
  cbn [length] in *. destruct (Z.eqb_spec (cc x) 0) as [H0|H0]; cbn [negb obind rev app].
  - specialize (IH (length post) ltac:(lia) post eq_refl fuel (done ++ [x]) Hr ltac:(lia)).
    rewrite <- !app_assoc in IH. cbn [app] in IH.
    rewrite (zlen_app done [x]), zlen_1, zlen_app, zlen_cons in IH. exact IH.
  - destruct (sort_cc_run_spec done [x] post (zlen done + (1 + zlen post)) (S (length (done ++ x :: post))))
      as (rA' & rest' & Hi & Hend & Ho & HA' & Hr' & Hl & Hl').
    + by repeat constructor.
    + done.
    + rewrite !zlen_app. change (zlen (rev [x])) with 1. lia.
    + rewrite length_app. cbn [length]. lia.
    + change (rev [x]) with [x] in Hi. cbn [app] in Hi. rewrite zlen_1 in Hi. rewrite Hi. cbn [obind].
      cbn [insert_rev]. rewrite Ho. destruct rest' as [|y r'].
      * destruct fuel as [|fuel]; [lia|]. rewrite iter_S. unfold sort_cc_step at 1.
        cbn [length order_rest] in *. assert (zlen rA' = 1 + zlen post) by (unfold zlen; lia).
        replace (zlen done + zlen rA' + 1 <? _) with false by lia. done.
      * cbn [length order_rest] in *. apply Forall_cons_iff in Hr' as [_ Hr'].
        specialize (IH (length r') ltac:(lia) r' eq_refl fuel (done ++ rev rA' ++ [y]) Hr' ltac:(lia)).
        rewrite <- !app_assoc in IH. cbn [app] in IH. rewrite !zlen_app, zlen_rev, zlen_cons, zlen_1 in IH.
        assert (1 + zlen post = zlen rA' + (1 + zlen r')) as E by (unfold zlen; cbn [length]; lia).
        rewrite E, <- IH. f_equal. f_equal; lia.
Qed.

(** * The specification is the stable sort of the runs *)

Lemma sort_cc_eq l : code_points l -> sort_cc l (zlen l) = Ret (canonical_order l).
Proof.
  intros Hl. unfold sort_cc. apply (sort_cc_loop (zlen l) [] l); [done|done|lia].
Qed.

Lemma order_perm acc l : Permutation (order acc l) (rev acc ++ l).
Proof.
  revert acc. induction l as [|x l IH]; intros acc; cbn [order]; [by rewrite app_nil_r|].
  destruct (cc x =? 0).
  - by rewrite (IH []).
  - rewrite IH, <- !Permutation_rev, insert_rev_perm. cbn [app]. by rewrite Permutation_middle.
Qed.

Lemma in_order_app l x k :
  in_order l -> in_order (x :: k) -> (cc x = 0 \/ forall d, cc (List.last l d) <= cc x) \/ l = [] ->
  in_order (l ++ x :: k).
Proof.
  intros Hl Hk Hx. induction l as [|y l IH]; [done|]. destruct l as [|z l].
  - split; [|done]. destruct Hx as [[?|Hx]|?]; [by left|right; apply (Hx 0)|done].
  - destruct Hl as [Hyz Hl]. split; [done|]. apply IH; [done|].
    destruct Hx as [[?|Hx]|?]; [by left; left|left; right; apply Hx|done].
Qed.

Definition sorted_run (acc : list Z) : Prop := StronglySorted (fun a b => cc b <= cc a) acc.

Lemma sorted_run_in_order acc : sorted_run acc -> in_order (rev acc).
Proof.
  induction 1 as [|x acc Hs IH Hx]; [done|]. cbn [rev]. apply in_order_app; [done|done|].
  destruct acc as [|y acc]; [by right|]. apply Forall_cons_iff in Hx as [Hx _].
  left. right. intros d. cbn [rev]. by rewrite List.last_last.
Qed.

Lemma insert_rev_sorted x r : sorted_run r -> sorted_run (insert_rev x r).
Proof.
  induction 1 as [|y r Hs IH Hy]; cbn [insert_rev]; [by repeat constructor|].
  destruct (Z.leb_spec (cc y) (cc x)) as [H|H].
  - constructor; [by constructor|]. constructor; [done|]. eapply Forall_impl; [exact Hy|]. cbn beta. lia.
  - constructor; [done|]. apply Forall_insert_rev; [lia|done].
Qed.

Lemma order_code_points acc l : code_points acc -> code_points l -> code_points (order acc l).
Proof.
  intros Ha Hl. rewrite order_perm. apply Forall_app. split; [|done]. by rewrite <- Permutation_rev.
Qed.

Lemma cc_nonneg c : 0 <= c -> 0 <= cc c.
Proof. intros H. apply get_cc_class in H. lia. Qed.

Lemma order_in_order acc l : sorted_run acc -> code_points l -> in_order (order acc l).
Proof.
  revert acc. induction l as [|x l IH]; intros acc Ha Hl; cbn [order]; [by apply sorted_run_in_order|].
  apply Forall_cons_iff in Hl as [Hx Hl].
  destruct (Z.eqb_spec (cc x) 0) as [H0|H0]; [|by apply IH; [apply insert_rev_sorted|]].
  apply in_order_app; [by apply sorted_run_in_order| |by left; left].
  pose proof (IH [] ltac:(constructor) Hl) as Ho.
  pose proof (order_code_points [] l ltac:(constructor) Hl) as Hc.
  destruct (order [] l) as [|y k]; [done|]. apply Forall_cons_iff in Hc as [Hy _].
  split; [|done]. right. rewrite H0. by apply cc_nonneg.
Qed.

Abbreviation of_class k := (List.filter (fun c => cc c =? k)).

Lemma insert_rev_stable k x r :
  of_class k (rev (insert_rev x r)) = of_class k (rev r) ++ of_class k [x].
Proof.
  induction r as [|y r IH]; [done|]. cbn [insert_rev].
  destruct (Z.leb_spec (cc y) (cc x)) as [H|H]; cbn [rev]; rewrite !List.filter_app; [done|].
  rewrite IH, <- !app_assoc. f_equal. cbn [List.filter].
  destruct (Z.eqb_spec (cc x) k), (Z.eqb_spec (cc y) k); try done. lia.
Qed.

Lemma order_stable k acc l : of_class k (order acc l) = of_class k (rev acc ++ l).
Proof.
  revert acc. induction l as [|x l IH]; intros acc; cbn [order]; [by rewrite app_nil_r|].
  destruct (cc x =? 0).
  - rewrite !List.filter_app. f_equal. cbn [List.filter]. by rewrite (IH []).
  - rewrite IH, !List.filter_app, insert_rev_stable, <- app_assoc. f_equal.
    cbn [List.filter]. by destruct (cc x =? k).
Qed.

(** The characters before a starter are ordered by themselves. *)
Lemma order_split acc l1 x l2 :
  cc x = 0 -> order acc (l1 ++ x :: l2) = order acc l1 ++ x :: order [] l2.
Proof.
  intros Hx. revert acc. induction l1 as [|y l1 IH]; intros acc; cbn [app order].
  - by rewrite Hx.
  - destruct (cc y =? 0); [|by apply IH]. by rewrite (IH []), <- app_assoc.
Qed.

(** Ordering changes nothing when the characters are in order. *)
Lemma order_id acc l :
  Forall (fun c => cc c <> 0) acc -> in_order (rev acc ++ l) -> order acc l = rev acc ++ l.
Proof.
  revert acc. induction l as [|x l IH]; intros acc Ha Ho; cbn [order]; [by rewrite app_nil_r|].
  assert (forall k j, in_order (k ++ j) -> in_order j) as Hsub.
  { induction k as [|z k IHk]; intros j H; [done|]. apply IHk. cbn [app in_order] in H.
    destruct (k ++ j); [done|apply H]. }
  destruct (Z.eqb_spec (cc x) 0) as [H0|H0].
  - rewrite (IH []); [done|done|]. exact (Hsub (rev acc ++ [x]) l ltac:(by rewrite <- app_assoc)).
  - assert (insert_rev x acc = x :: acc) as ->.
    { destruct acc as [|y acc]; [done|]. cbn [insert_rev]. cbn [rev] in Ho. rewrite <- app_assoc in Ho.
      apply Hsub in Ho as [[Hc|Hc] _]; [done|]. by replace (cc y <=? cc x) with true by lia. }
    rewrite IH; [cbn [rev]; by rewrite <- app_assoc|by constructor|]. cbn [rev]. by rewrite <- app_assoc.
Qed.

Lemma canonical_order_id l : in_order l -> canonical_order l = l.
Proof. intros H. apply (order_id [] l); [constructor|done]. Qed.

Lemma canonical_order_in_order l : code_points l -> in_order (canonical_order l).
Proof. apply order_in_order. constructor. Qed.

Lemma canonical_order_perm l : Permutation (canonical_order l) l.
Proof. apply (order_perm [] l). Qed.

(** C39: [sort_cc] is the canonical ordering of Unicode.  On every buffer of code
    points it ends without leaving the buffer, and the buffer then holds a
    permutation of the characters in which no character follows one of a higher
    class unless it is a starter; characters of the same class keep their order;
    the characters before and after a starter stay before and after it; and a
    buffer that was in order is left as it was. *)
Theorem sort_cc_canonical l :
  code_points l ->
  post (sort_cc l (zlen l)) (fun l' =>
    Permutation l' l /\ in_order l' /\
    (forall k, List.filter (fun c => combining_class c =? k) l' =
               List.filter (fun c => combining_class c =? k) l) /\
    (forall l1 x l2, l = l1 ++ x :: l2 -> combining_class x = 0 ->
       exists l1' l2', l' = l1' ++ x :: l2' /\ Permutation l1' l1 /\ Permutation l2' l2) /\
    (in_order l -> l' = l)).
Proof.
  intros Hl. rewrite (sort_cc_eq l Hl). apply post_ret. split; [apply canonical_order_perm|].
  split; [by apply canonical_order_in_order|]. split; [intros k; apply (order_stable k [] l)|].
  split; [|apply canonical_order_id]. intros l1 x l2 -> Hx. unfold canonical_order.
  rewrite (order_split [] l1 x l2 Hx). eexists _, _. split; [done|].
  split; [apply (order_perm [] l1)|apply (order_perm [] l2)].
Qed.

Lemma sort_cc_canonical_witness :
  Forall (fun c => 0 <= c) [0x61; 0x307; 0x345; 0x323; 0x62] /\
  post (sort_cc [0x61; 0x307; 0x345; 0x323; 0x62] (zlen [0x61; 0x307; 0x345; 0x323; 0x62])) (fun l' =>
    Permutation l' [0x61; 0x307; 0x345; 0x323; 0x62] /\ in_order l' /\
    (forall k, List.filter (fun c => combining_class c =? k) l' =
               List.filter (fun c => combining_class c =? k) [0x61; 0x307; 0x345; 0x323; 0x62]) /\
    (forall l1 x l2, [0x61; 0x307; 0x345; 0x323; 0x62] = l1 ++ x :: l2 -> combining_class x = 0 ->
       exists l1' l2', l' = l1' ++ x :: l2' /\ Permutation l1' l1 /\ Permutation l2' l2) /\
    (in_order [0x61; 0x307; 0x345; 0x323; 0x62] -> l' = [0x61; 0x307; 0x345; 0x323; 0x62])).
Proof.
  assert (Forall (fun c => 0 <= c) [0x61; 0x307; 0x345; 0x323; 0x62]) as H
    by (repeat (constructor; [discriminate|]); constructor).
  split; [exact H|]. exact (sort_cc_canonical _ H).
Defined.
