(* ===== verification/DecompTables.v ===== *)
(** The decomposition tables.

    The decoder of an entry does not depend on the contents of the array it
    fills; the decompositions of all code points, computed once from the tables
    with a search tree, are bounded, end, and have no further decomposition. *)
From Stdlib Require Import ZArith Lia Bool List.
From stdpp Require Import base tactics list numbers strings.
From S2P Require Import Prelude UnicodeTables CaseConv Normalize CombiningClass.

(** * Uninitialized arrays *)

(** Two runs of a decoder agree on the length and on the characters. *)
Definition agree (m1 m2 : outcome (list Z * Z)) : Prop :=
  match m1, m2 with
  | Ret (r1, l1), Ret (r2, l2) =>
      l1 = l2 /\ length r1 = length r2 /\ take (Z.to_nat l1) r1 = take (Z.to_nat l1) r2
  | Err e1, Err e2 => e1 = e2
  | _, _ => False
  end.

Definition same_to (n : nat) (r1 r2 : list Z) : Prop := length r1 = length r2 /\ take n r1 = take n r2.

Lemma same_to_0 r1 r2 : length r1 = length r2 -> same_to 0 r1 r2.
Proof. by split. Qed.

Lemma take_insert_S {A : Type} (r : list A) i (v : A) :
  (i < length r)%nat -> take (S i) (<[i := v]> r) = take i r ++ [v].
Proof.
  revert r. induction i as [|i IH]; intros [|x r] Hi; cbn in *; try lia; [done|].
  f_equal. apply (IH r). lia.
Qed.

(** A write just after the part that is the same. *)
Lemma agree_wr i v r1 r2 (k : list Z -> outcome (list Z * Z)) :
  0 <= i -> same_to (Z.to_nat i) r1 r2 ->
  (forall r1 r2, same_to (Z.to_nat (i + 1)) r1 r2 -> agree (k r1) (k r2)) ->
  agree (obind (wr r1 i v) k) (obind (wr r2 i v) k).
Proof.
  intros Hi [Hl Ht] Hk. destruct (Z.lt_ge_cases i (zlen r1)) as [Hlt|Hge].
  - rewrite !wr_in by (unfold zlen in *; lia). cbn [obind]. apply Hk. split; [by rewrite !length_insert|].
    replace (Z.to_nat (i + 1)) with (S (Z.to_nat i)) by lia. unfold zlen in Hlt.
    rewrite !take_insert_S by lia. by rewrite Ht.
  - unfold wr. unfold zlen in *. rewrite <- Hl.
    by replace ((i <? 0) || (Z.of_nat (length r1) <=? i)) with true by lia.
Qed.

Lemma agree_ret l r1 r2 : same_to (Z.to_nat l) r1 r2 -> agree (Ret (r1, l)) (Ret (r2, l)).
Proof. intros [??]. by split. Qed.

Lemma same_to_le n m r1 r2 : (n <= m)%nat -> same_to m r1 r2 -> same_to n r1 r2.
Proof.
  intros Hnm [Hl Ht]. split; [done|]. rewrite <- (Nat.min_l n m), <- !take_take by lia. by rewrite Ht.
Qed.

Lemma agree_fill mode get l n i r1 r2 :
  0 <= i -> i + Z.of_nat n = l -> same_to (Z.to_nat i) r1 r2 ->
  agree (let* (res, all) := fill mode get r1 i n in Ret (res, if all : bool then l else 0))
        (let* (res, all) := fill mode get r2 i n in Ret (res, if all : bool then l else 0)).
Proof.
  revert i r1 r2. induction n as [|n IH]; intros i r1 r2 Hi Hl Hs.
  - cbn [fill obind]. apply agree_ret. by replace l with i by lia.
  - cbn [fill]. destruct (get i) as [v|]; [|done]. cbn [obind].
    assert (forall r1 r2, same_to (Z.to_nat i) r1 r2 ->
      agree (let* (res, all) := (let* res := wr r1 i v in fill mode get res (i + 1) n) in
             Ret (res, if all : bool then l else 0))
            (let* (res, all) := (let* res := wr r2 i v in fill mode get res (i + 1) n) in
             Ret (res, if all : bool then l else 0))) as Hgo.
    { intros. rewrite !obind_assoc. apply agree_wr; [done|done|]. intros. apply IH; [lia|lia|done]. }
    destruct mode, (v =? 0). all: try (by apply Hgo). all: cbn [obind].
    + rewrite !obind_assoc. apply agree_wr; [done|done|]. intros r1' r2' H. cbn [obind].
      apply agree_ret. eapply same_to_le; [|exact H]. cbn. lia.
    + apply agree_ret. eapply same_to_le; [|exact Hs]. cbn. lia.
Qed.

Lemma agree_fill_return mode get l r1 r2 :
  0 <= l -> length r1 = length r2 -> agree (fill_return mode get r1 l) (fill_return mode get r2 l).
Proof. intros Hl Hr. apply agree_fill; [done|lia|by apply same_to_0]. Qed.

Lemma agree_bind {A : Type} (m : outcome A) k1 k2 :
  (forall a, agree (k1 a) (k2 a)) -> agree (obind m k1) (obind m k2).
Proof. intros H. destruct m; [apply H|reflexivity]. Qed.

Ltac agree_step :=
  match goal with
  | |- agree (fill_return _ _ _ _) _ => apply agree_fill_return; [lia|done]
  | |- agree (obind (wr _ _ _) _) _ => apply agree_wr; [lia|done|intros]
  | H : same_to _ ?r1 ?r2 |- agree (Ret (?r1, _)) (Ret (?r2, _)) =>
      apply agree_ret; eapply same_to_le; [|exact H]; lia
  | |- agree (let '(_, _) := ?p in _) _ => destruct p
  | |- agree (if ?b then _ else _) _ => destruct b eqn:?
  | |- agree (obind _ _) (obind _ _) => apply agree_bind; intros
  end.

Lemma agree_pat3 v0 v1 v2 r1 r2 :
  length r1 = length r2 ->
  agree (let* res := wr r1 0 v0 in let* res := wr res 2 v2 in let* res := wr res 1 v1 in Ret (res, 3))
        (let* res := wr r2 0 v0 in let* res := wr res 2 v2 in let* res := wr res 1 v1 in Ret (res, 3)).
Proof.
  intros Hl. destruct r1 as [|a1 [|b1 [|c1 r1]]], r2 as [|a2 [|b2 [|c2 r2]]]; try done.
  rewrite !wr_in by (rewrite ?zlen_insert, !zlen_cons; pose proof (zlen_nonneg r1); pose proof (zlen_nonneg r2); lia).
  cbn [obind]. rewrite !wr_in by (rewrite ?zlen_insert, !zlen_cons; pose proof (zlen_nonneg r1); pose proof (zlen_nonneg r2); lia).
  cbn [obind]. rewrite !wr_in by (rewrite ?zlen_insert, !zlen_cons; pose proof (zlen_nonneg r1); pose proof (zlen_nonneg r2); lia).
  split; [done|]. rewrite !length_insert. by split.
Qed.

Lemma decomp_chars_agree d t2 k len type r1 r2 :
  length r1 = length r2 -> agree (decomp_chars d t2 r1 k len type) (decomp_chars d t2 r2 k len type).
Proof.
  intros Hl. unfold decomp_chars, decomp_type_i, decomp_type_b. pose proof (same_to_0 _ _ Hl).
  unfold DECOMP_TYPE_L1, DECOMP_TYPE_L7, DECOMP_TYPE_LL1, DECOMP_TYPE_LL2, DECOMP_TYPE_S1, DECOMP_TYPE_S5,
    DECOMP_TYPE_I2_0, DECOMP_TYPE_I4_2, DECOMP_TYPE_B1, DECOMP_TYPE_B8.
  destruct (type =? DECOMP_TYPE_PAT3) eqn:Ep.
  { apply Z.eqb_eq in Ep as ->. cbn [Z.eqb Z.leb Z.compare Pos.compare Pos.compare_cont andb DECOMP_TYPE_C1 DECOMP_TYPE_PAT3 DECOMP_TYPE_I1 DECOMP_TYPE_B18 DECOMP_TYPE_LS2 Pos.eqb].
    destruct (unicode_get16 d 0) as [v0|]; [|done]. cbn [obind].
    destruct (unicode_get16 d 2) as [v2|]; cbn [obind].
    2:{ apply agree_wr; [lia|done|done]. }
    destruct (unicode_get16 _ 0) as [v1|]; cbn [obind]; [by apply agree_pat3|].
    apply agree_wr; [lia|done|]. intros q1 q2 [Hq _]. unfold wr, zlen. rewrite <- Hq.
    by destruct (_ || _). }
  repeat agree_step; try done; try lia.
  apply agree_fill_return; [|done]. rewrite Z.shiftr_div_pow2 by done. change (2 ^ 1) with 2. zlia.
Qed.

(** * A search tree of the entries *)

(** An entry: its position, its word in [unicode_decomp_table1], its value in
    [unicode_decomp_table2] and its data. *)
Record decomp_elem := { de_idx : Z; de_v : Z; de_t2 : Z; de_data : list Z }.

Inductive dtree := DLeaf | DNode (l : dtree) (e : decomp_elem) (r : dtree).

Fixpoint dlookup (t : dtree) (c : Z) : option decomp_elem :=
  match t with
  | DLeaf => None
  | DNode l e r =>
      let v := de_v e in
      if c <? decomp_code v then dlookup l c
      else if decomp_code v + decomp_len v <=? c then dlookup r c
      else Some e
  end.

Fixpoint delems (t : dtree) : list decomp_elem :=
  match t with DLeaf => [] | DNode l e r => delems l ++ e :: delems r end.

(** The runs of the tree lie between [lo] and [hi] and are in order. *)
Fixpoint dtree_ok (lo hi : Z) (t : dtree) : bool :=
  match t with
  | DLeaf => lo <=? hi
  | DNode l e r =>
      let v := de_v e in
      dtree_ok lo (decomp_code v) l && dtree_ok (decomp_code v + decomp_len v) hi r
  end.

(** The tree of the first [n] elements of a list, and the rest. *)
Fixpoint dbuild (depth : nat) (n : nat) (l : list decomp_elem) : dtree * list decomp_elem :=
  match depth, n with
  | S depth, S _ =>
      let m := Nat.div2 n in
      let '(t1, l) := dbuild depth m l in
      match l with
      | [] => (t1, [])
      | e :: l => let '(t2, l) := dbuild depth (n - 1 - m) l in (DNode t1 e t2, l)
      end
  | _, _ => (DLeaf, l)
  end.

Fixpoint mk_elems (idx : Z) (t1 t2 : list Z) : list decomp_elem :=
  match t1, t2 with
  | v :: t1, w :: t2 =>
      {| de_idx := idx; de_v := v; de_t2 := w; de_data := advance unicode_decomp_data w |}
        :: mk_elems (idx + 1) t1 t2
  | _, _ => []
  end.

Definition decomp_elems : list decomp_elem := mk_elems 0 unicode_decomp_table1 unicode_decomp_table2.

(** ** Search *)

Lemma decomp_len_nonneg v : 0 <= decomp_len v.
Proof. unfold decomp_len. rewrite (land_mask _ 7) by done. by apply Z.mod_pos_bound. Qed.

Lemma dtree_ok_le lo hi t : dtree_ok lo hi t = true -> lo <= hi.
Proof.
  revert lo hi. induction t as [|l IHl e r IHr]; intros lo hi H; cbn [dtree_ok] in H; [lia|].
  apply andb_true_iff in H as [H1 H2]. specialize (IHl _ _ H1). specialize (IHr _ _ H2).
  pose proof (decomp_len_nonneg (de_v e)). lia.
Qed.

Lemma dtree_ok_bounds lo hi t e :
  dtree_ok lo hi t = true -> In e (delems t) ->
  lo <= decomp_code (de_v e) /\ decomp_code (de_v e) + decomp_len (de_v e) <= hi.
Proof.
  revert lo hi. induction t as [|l IHl e' r IHr]; intros lo hi H Hin; [done|].
  cbn [dtree_ok delems] in *. apply andb_true_iff in H as [H1 H2].
  pose proof (dtree_ok_le _ _ _ H1). pose proof (dtree_ok_le _ _ _ H2).
  pose proof (decomp_len_nonneg (de_v e')).
  apply in_app_or in Hin as [Hin|[->|Hin]].
  - specialize (IHl _ _ H1 Hin). lia.
  - lia.
  - specialize (IHr _ _ H2 Hin). lia.
Qed.

Definition in_decomp_run (v c : Z) : Prop := decomp_code v <= c < decomp_code v + decomp_len v.

Lemma dlookup_spec lo hi t c :
  dtree_ok lo hi t = true ->
  match dlookup t c with
  | Some e => In e (delems t) /\ in_decomp_run (de_v e) c
  | None => forall e, In e (delems t) -> ~ in_decomp_run (de_v e) c
  end.
Proof.
  revert lo hi. induction t as [|l IHl e r IHr]; intros lo hi H; [intros e []|].
  cbn [dtree_ok dlookup delems] in *. apply andb_true_iff in H as [H1 H2].
  specialize (IHl _ _ H1). specialize (IHr _ _ H2). unfold in_decomp_run in *.
  destruct (Z.ltb_spec c (decomp_code (de_v e))) as [Hlt|Hge];
    [|destruct (Z.leb_spec (decomp_code (de_v e) + decomp_len (de_v e)) c) as [Hgt|Hle]].
  - destruct (dlookup l c) as [e'|]; [split; [apply in_or_app; left|]; apply IHl|].
    intros e' Hin. apply in_app_or in Hin as [Hin|[->|Hin]]; [by apply (IHl e')|lia|].
    pose proof (dtree_ok_bounds _ _ _ _ H2 Hin). pose proof (decomp_len_nonneg (de_v e)). lia.
  - destruct (dlookup r c) as [e'|].
    + split; [apply in_or_app; right; right|]; apply IHr.
    + intros e' Hin. apply in_app_or in Hin as [Hin|[->|Hin]]; [|lia|by apply (IHr e')].
      pose proof (dtree_ok_bounds _ _ _ _ H1 Hin). pose proof (decomp_len_nonneg (de_v e)). lia.
  - split; [apply in_or_app; right; by left|lia].
Qed.

Lemma mk_elems_at t1 t2 idx e :
  In e (mk_elems idx t1 t2) ->
  exists i, idx <= i /\ de_idx e = i /\ at_ t1 (i - idx) (de_v e) /\ at_ t2 (i - idx) (de_t2 e) /\
    de_data e = advance unicode_decomp_data (de_t2 e).
Proof.
  revert t2 idx. induction t1 as [|v t1 IH]; intros [|w t2] idx Hin; try done.
  destruct Hin as [<-|Hin].
  - exists idx. rewrite Z.sub_diag. by repeat split.
  - apply IH in Hin as (i & Hi & Hx & [H1 H1'] & [H2 H2'] & Hd). exists i. split; [lia|]. split; [done|].
    assert (Z.to_nat (i - idx) = S (Z.to_nat (i - (idx + 1)))) as E by lia.
    split; [|split; [|done]]; (split; [lia|]); rewrite E; done.
Qed.

Lemma mk_elems_In t1 t2 idx i v :
  length t1 = length t2 -> at_ t1 i v ->
  exists e, In e (mk_elems idx t1 t2) /\ de_idx e = idx + i /\ de_v e = v.
Proof.
  revert t2 idx i. induction t1 as [|v' t1 IH]; intros [|w t2] idx i Hl [Hi Hv]; try done.
  destruct (Z.eq_dec i 0) as [->|H0].
  - injection Hv as ->. eexists. split; [by left|]. cbn. split; [lia|done].
  - assert (Z.to_nat i = S (Z.to_nat (i - 1))) as E by lia. rewrite E in Hv.
    destruct (IH t2 (idx + 1) (i - 1) ltac:(cbn in Hl; lia) ltac:(split; [lia|exact Hv])) as (e & He & Hx & Hd).
    exists e. split; [by right|]. split; [lia|done].
Qed.

Lemma dbuild_elems depth n l : let '(t, l') := dbuild depth n l in delems t ++ l' = l.
Proof.
  revert n l. induction depth as [|depth IH]; intros n l; [done|]. destruct n as [|n]; [done|].
  cbn [dbuild]. specialize (IH (Nat.div2 (S n)) l) as H1.
  destruct (dbuild depth (Nat.div2 (S n)) l) as [t1 l1]. destruct l1 as [|e l1]; [done|].
  specialize (IH (S n - 1 - Nat.div2 (S n))%nat l1) as H2.
  destruct (dbuild depth _ l1) as [t2 l2]. cbn [delems]. by rewrite <- H1, <- H2, <- app_assoc.
Qed.

(** * The decompositions *)

Definition is_hangul (c : Z) : bool := (0xac00 <=? c) && (c <? 0xd7a4).

Definition hangul_jamo (c : Z) : list Z :=
  let s := c - 0xac00 in
  [0x1100 + s / 588; 0x1161 + s mod 588 / 28] ++ (if s mod 28 =? 0 then [] else [0x11a7 + s mod 28]).

Definition elem_chars (e : decomp_elem) (res : list Z) (k : Z) : outcome (list Z * Z) :=
  decomp_chars (de_data e) (de_t2 e) res k (decomp_len (de_v e)) (decomp_type (de_v e)).

(** The decomposition of one code point, the empty list when it has none. *)
Definition tree_decomp (T : dtree) (compat : bool) (c : Z) : outcome (list Z) :=
  match dlookup T c with
  | Some e =>
      if b2z compat <? Z.land (de_v e) 1 then Ret []
      else
        let* (res, l) := elem_chars e (replicate UNICODE_DECOMP_LEN_MAX 0) (c - decomp_code (de_v e)) in
        Ret (take (Z.to_nat l) res)
  | None => Ret []
  end.

(** The decomposition to the end. *)
Fixpoint full (T : dtree) (compat : bool) (depth : nat) (c : Z) : outcome (list Z) :=
  match depth with
  | O => Err OutOfFuel
  | S depth =>
      if is_hangul c then Ret (hangul_jamo c)
      else
        let* l := tree_decomp T compat c in
        match l with
        | [] => Ret [c]
        | _ => ofold (fun acc x => let* y := full T compat depth x in Ret (acc ++ y)) [] l
        end
  end.

Definition is_leaf (T : dtree) (compat : bool) (c : Z) : bool :=
  negb (is_hangul c) && (0 <=? c) && (c <? 0x110000) &&
  match tree_decomp T compat c with Ret [] => true | _ => false end.

Definition full_ok (T : dtree) (compat : bool) (c : Z) : bool :=
  match full T compat 6 c with
  | Ret l =>
      forallb (fun x => is_leaf T compat x && (negb (x =? 0x11a7) || (c =? 0x11a7))) l &&
      (length l <=? 18)%nat
  | Err _ => false
  end.

Definition elem_ok (T : dtree) (e : decomp_elem) : bool :=
  forallb (fun k =>
    match elem_chars e (replicate UNICODE_DECOMP_LEN_MAX 0) k with
    | Ret (res, l) => (0 <=? l) && (l <=? 18) && (length res =? 18)%nat
    | Err _ => false
    end &&
    full_ok T false (decomp_code (de_v e) + k) && full_ok T true (decomp_code (de_v e) + k))
    (seqZ 0 (decomp_len (de_v e))).

(** The vowels and consonants of the Hangul syllables. *)
Definition jamo_ok (T : dtree) : bool :=
  forallb (fun c => is_leaf T false c && is_leaf T true c) (seqZ 0x1100 0x100).

Definition decomp_tree : dtree := fst (dbuild 12 709 decomp_elems).

Definition decomp_table_ok (T : dtree) : bool :=
  dtree_ok 0 0x40000 T && (length (delems T) =? length unicode_decomp_table1)%nat &&
  forallb (elem_ok T) (delems T) && jamo_ok T.

Lemma decomp_tree_ok : decomp_table_ok decomp_tree = true.
Proof. vm_cast_no_check (eq_refl true). Qed.

(** ** The compositions *)

(** The pair and the character of an element of [unicode_comp_table]. *)
Definition comp_elem (T : dtree) (idx1 : Z) : option (Z * Z * Z) :=
  match rd unicode_decomp_table1 (Z.shiftr idx1 6) with
  | Ret v =>
      let off := Z.land idx1 0x3f in
      let ch := decomp_code v + off in
      match dlookup T ch with
      | Some e =>
          match elem_chars e [0; 0] off, tree_decomp T false ch with
          | Ret ([p0; p1], l), Ret [q0; q1] =>
              if (de_idx e =? Z.shiftr idx1 6) && (l =? 2) && (p0 =? q0) && (p1 =? q1) &&
                 ((combining_class ch =? 0) || negb (combining_class p0 =? 0)) && (0 <? ch) && (ch <? 0x110000) && negb (is_hangul ch) &&
                 (0 <=? p0) && (p0 <? 0x110000) && (0 <=? p1) && (p1 <? 0x110000)
              then Some (p0, p1, ch) else None
          | _, _ => None
          end
      | None => None
      end
  | Err _ => None
  end.

Definition pair_lt '(p0, p1) '(q0, q1) : bool := (p0 <? q0) || ((p0 =? q0) && (p1 <? q1)).

Fixpoint pairs_increasing (l : list (Z * Z * Z)) : bool :=
  match l with
  | (p, _) :: ((q, _) :: _) as l => pair_lt p q && pairs_increasing l
  | _ => true
  end.

Fixpoint comp_list (T : dtree) (table : list Z) : option (list (Z * Z * Z)) :=
  match table with
  | [] => Some []
  | idx1 :: table =>
      match comp_elem T idx1, comp_list T table with
      | Some x, Some l => Some (x :: l)
      | _, _ => None
      end
  end.

Definition comp_ok (T : dtree) : bool :=
  match comp_list T unicode_comp_table with Some l => pairs_increasing l | None => false end.

Lemma decomp_tree_comp_ok : comp_ok decomp_tree = true.
Proof. vm_cast_no_check (eq_refl true). Qed.
