(* ===== verification/Decomp.v ===== *)
(** The decomposition of a code point: the binary search of the source finds the
    entry that the search tree finds, and everything that the check of the
    tables says holds of the functions of the source. *)
From Stdlib Require Import ZArith Lia Bool List.
From stdpp Require Import base tactics list numbers strings.
From S2P Require Import Prelude UnicodeTables CaseConv Normalize CombiningClass DecompTables.

(** ** The binary search of the source *)

Fixpoint decomp_runs_ordered (vs : list Z) : bool :=
  match vs with
  | v :: (w :: _) as vs => (decomp_code v + decomp_len v <=? decomp_code w) && decomp_runs_ordered vs
  | _ => true
  end.

Lemma decomp_table1_ordered : decomp_runs_ordered unicode_decomp_table1 = true.
Proof. vm_cast_no_check (eq_refl true). Qed.

Lemma zlen_decomp_table1 : zlen unicode_decomp_table1 = 709.
Proof. vm_cast_no_check (eq_refl 709). Qed.

Lemma decomp_runs_at vs i j v w :
  decomp_runs_ordered vs = true -> at_ vs i v -> at_ vs j w -> i < j ->
  decomp_code v + decomp_len v <= decomp_code w.
Proof.
  intros Ho [Hi Hv] [Hj Hw] Hij. remember (Z.to_nat i) as n eqn:En.
  remember (Z.to_nat j) as m eqn:Em. assert (n < m)%nat as Hnm by lia. clear En Em Hi Hj Hij i j.
  revert n m v w Hv Hw Hnm. induction vs as [|x vs IH]; intros n m v w Hv Hw Hnm; [done|].
  destruct m as [|m]; [lia|]. cbn [lookup list_lookup] in Hw. destruct vs as [|y vs]; [done|].
  cbn [decomp_runs_ordered] in Ho. apply andb_true_iff in Ho as [Hxy Ho]. apply Z.leb_le in Hxy.
  destruct n as [|n]; [|apply (IH Ho n m); (done || lia)]. injection Hv as ->.
  destruct m as [|m]; [by injection Hw as ->|].
  pose proof (IH Ho 0%nat (S m) y w eq_refl Hw ltac:(lia)). pose proof (decomp_len_nonneg y). lia.
Qed.

Lemma decomp_find_post c :
  post (decomp_find c) (fun r => match r with
    | Some (idx, v) => at_ unicode_decomp_table1 idx v /\ in_decomp_run v c
    | None => forall i v, at_ unicode_decomp_table1 i v -> ~ in_decomp_run v c
    end).
Proof.
  unfold decomp_find. rewrite zlen_decomp_table1.
  apply (post_iter (fun '(lo, hi) => 0 <= lo /\ lo - 1 <= hi < 709 /\
      forall i v, at_ unicode_decomp_table1 i v ->
        (i < lo -> decomp_code v + decomp_len v <= c) /\ (hi < i -> c < decomp_code v))
    (fun '(lo, hi) => Z.to_nat (hi - lo + 1))).
  - intros [lo hi] (Hlo & Hhi & Hinv). destruct (Z.leb_spec lo hi) as [Hle|Hgt].
    2:{ apply post_ret. intros i v Hv. unfold in_decomp_run. destruct (Hinv i v Hv).
        destruct (Z.lt_ge_cases i lo); lia. }
    cbn zeta. set (idx := (hi + lo) / 2). assert (lo <= idx <= hi) as Hidx by (unfold idx; zlia).
    apply post_bind, post_rd; [rewrite zlen_decomp_table1; lia|]. intros v Hv.
    assert (forall i w, at_ unicode_decomp_table1 i w ->
      (i < idx -> decomp_code w + decomp_len w <= decomp_code v) /\
      (idx < i -> decomp_code v + decomp_len v <= decomp_code w) /\ (i = idx -> w = v)) as Hord.
    { intros i w Hw. split; [|split].
      - intros Hi. exact (decomp_runs_at _ i idx w v decomp_table1_ordered Hw Hv Hi).
      - intros Hi. exact (decomp_runs_at _ idx i v w decomp_table1_ordered Hv Hw Hi).
      - intros ->. exact (at_det _ _ _ _ Hw Hv). }
    destruct (Z.ltb_spec c (decomp_code v)) as [Hc|Hc];
      [|destruct (Z.leb_spec (decomp_code v + decomp_len v) c) as [Hc'|Hc']]; [..|done].
    + split; [|lia]. split; [done|]. split; [lia|]. intros i w Hw. split; [by apply Hinv|].
      intros Hi. destruct (Hord i w Hw) as (_ & H2 & H3). pose proof (decomp_len_nonneg v).
      destruct (Z.eq_dec i idx) as [Ei|Ei]; [by rewrite (H3 Ei)|]. specialize (H2 ltac:(lia)). lia.
    + split; [|lia]. split; [lia|]. split; [lia|]. intros i w Hw. split; [|by apply Hinv].
      intros Hi. destruct (Hord i w Hw) as (H1 & _ & H3). pose proof (decomp_len_nonneg v).
      destruct (Z.eq_dec i idx) as [Ei|Ei]; [by rewrite (H3 Ei)|]. specialize (H1 ltac:(lia)). lia.
  - split; [lia|]. split; [lia|]. intros i v Hv. apply at_lt in Hv. rewrite zlen_decomp_table1 in Hv. lia.
  - replace (length unicode_decomp_table1) with 709%nat; [lia|].
    pose proof zlen_decomp_table1 as H. unfold zlen in H. lia.
Qed.

(** * What is known of the tree *)

Record tree_spec (T : dtree) : Prop := {
  ts_lookup c : match dlookup T c with
    | Some e => in_decomp_run (de_v e) c /\ at_ unicode_decomp_table1 (de_idx e) (de_v e) /\
        at_ unicode_decomp_table2 (de_idx e) (de_t2 e) /\
        de_data e = advance unicode_decomp_data (de_t2 e)
    | None => forall i v, at_ unicode_decomp_table1 i v -> ~ in_decomp_run v c
    end;
  ts_chars c e : dlookup T c = Some e ->
    exists res l, elem_chars e (replicate UNICODE_DECOMP_LEN_MAX 0) (c - decomp_code (de_v e)) = Ret (res, l) /\
      0 <= l <= 18 /\ length res = 18%nat;
  ts_full compat c : 0 <= c < 0x110000 -> full_ok T compat c = true;
  ts_jamo compat c : 0x1100 <= c < 0x1200 -> is_leaf T compat c = true;
  ts_comp : comp_ok T = true
}.

Lemma length_mk_elems idx t1 t2 :
  (length (mk_elems idx t1 t2) <= length t1)%nat /\
  (length (mk_elems idx t1 t2) = length t1 -> (length t1 <= length t2)%nat).
Proof.
  revert idx t2. induction t1 as [|v t1 IH]; intros idx [|w t2]; cbn [mk_elems length]; try lia.
  specialize (IH (idx + 1) t2). lia.
Qed.

Lemma mk_elems_trunc t1 t2 idx :
  (length t1 <= length t2)%nat -> mk_elems idx t1 t2 = mk_elems idx t1 (take (length t1) t2).
Proof.
  revert idx t2. induction t1 as [|v t1 IH]; intros idx [|w t2] Hl; cbn in *; try lia; [done..|].
  f_equal. apply IH. lia.
Qed.

Lemma dbuild_all depth n l T :
  T = fst (dbuild depth n l) -> (length l <= length (delems T))%nat -> delems T = l.
Proof.
  pose proof (dbuild_elems depth n l) as Hb. destruct (dbuild depth n l) as [T' l']. intros -> Hl.
  cbn [fst] in *. assert (length l' = 0%nat) as H0; [|destruct l'; [by rewrite app_nil_r in Hb|done]].
  apply (f_equal length) in Hb. rewrite length_app in Hb. lia.
Qed.

Lemma decomp_table_ok_length T :
  decomp_table_ok T = true -> length (delems T) = length unicode_decomp_table1.
Proof. unfold decomp_table_ok. rewrite !andb_true_iff. intros [[[_ H] _] _]. by apply Nat.eqb_eq. Qed.

Lemma decomp_tree_elems : delems decomp_tree = decomp_elems.
Proof.
  apply (dbuild_all 12 709); [reflexivity|]. rewrite (decomp_table_ok_length _ decomp_tree_ok).
  apply length_mk_elems.
Qed.

Lemma tree_spec_exists : exists T, tree_spec T.
Proof.
  pose proof decomp_tree_ok as H. pose proof decomp_tree_elems as He.
  pose proof decomp_tree_comp_ok as Hcomp.
  exists decomp_tree. revert H He Hcomp. generalize decomp_tree. intros T H He Hcomp.
  unfold decomp_table_ok in H. rewrite !andb_true_iff in H. destruct H as [[[Hok Hl] Hall] Hj].
  apply Nat.eqb_eq in Hl. pose proof (fun e => proj1 (forallb_forall _ _) Hall e) as Hel. clear Hall.
  assert (forall c e, dlookup T c = Some e ->
    In (c - decomp_code (de_v e)) (seqZ 0 (decomp_len (de_v e))) /\ In e (delems T)) as Hin.
  { intros c e E. pose proof (dlookup_spec _ _ T c Hok) as Hs. rewrite E in Hs. destruct Hs as [Hi Hr].
    unfold in_decomp_run in Hr. split; [|done]. apply list_elem_of_In, elem_of_seqZ. lia. }
  constructor.
  - intros c. pose proof (dlookup_spec _ _ T c Hok) as Hs. destruct (dlookup T c) as [e|].
    + destruct Hs as [Hi Hr]. split; [done|]. rewrite He in Hi. apply mk_elems_at in Hi as (i & _ & Hx & H1 & H2 & Hd).
      rewrite Z.sub_0_r, <- Hx in H1, H2. done.
    + intros i v Hv Hr. unfold decomp_elems in He. pose proof (length_mk_elems 0 unicode_decomp_table1 unicode_decomp_table2) as [_ Hle].
      rewrite <- He in Hle. specialize (Hle Hl). rewrite mk_elems_trunc in He by done.
      destruct (mk_elems_In unicode_decomp_table1 (take (length unicode_decomp_table1) unicode_decomp_table2) 0 i v)
        as (e & Hin' & _ & Ev); [by rewrite length_take_le|done|].
      rewrite <- He in Hin'. apply (Hs e Hin'). by rewrite Ev.
  - intros c e E. destruct (Hin c e E) as [Hk Hi]. specialize (Hel e Hi). unfold elem_ok in Hel.
    pose proof (proj1 (forallb_forall _ _) Hel _ Hk) as Ho. cbv beta in Ho.
    destruct (elem_chars _ _ _) as [[res l]|]; [|done]. rewrite !andb_true_iff in Ho.
    destruct Ho as [[[[H1 H2] H3] _] _]. apply Nat.eqb_eq in H3. exists res, l. split; [done|]. lia.
  - intros compat c Hc. destruct (dlookup T c) as [e|] eqn:E.
    + destruct (Hin c e E) as [Hk Hi]. specialize (Hel e Hi). unfold elem_ok in Hel.
      pose proof (proj1 (forallb_forall _ _) Hel _ Hk) as Ho. cbv beta in Ho. rewrite !andb_true_iff in Ho.
      destruct Ho as [[_ Hf] Ht]. replace (decomp_code (de_v e) + (c - decomp_code (de_v e))) with c in * by lia.
      by destruct compat.
    + assert (forall x, 0x1100 <= x < 0x1200 -> is_leaf T compat x = true) as Hjamo.
      { intros x Hx. pose proof (proj1 (forallb_forall _ _) Hj x) as Hx'. cbv beta in Hx'.
        rewrite andb_true_iff in Hx'. destruct Hx' as [H0 H1]; [apply list_elem_of_In, elem_of_seqZ; lia|].
        by destruct compat. }
      unfold full_ok. cbn [full]. destruct (is_hangul c) eqn:Eh.
      * unfold hangul_jamo. unfold is_hangul in Eh. rewrite forallb_app. cbn [forallb app length].
        assert (forall x, 0x1100 <= x < 0x11a7 \/ 0x11a7 < x < 0x1200 ->
          is_leaf T compat x && (negb (x =? 0x11a7) || (c =? 0x11a7)) = true) as Hj'
          by (intros x Hx; rewrite Hjamo by lia; by replace (x =? 0x11a7) with false by lia).
        rewrite !Hj' by zlia. destruct (Z.eqb_spec ((c - 44032) mod 28) 0); [done|].
        cbn [forallb length]. by rewrite Hj' by zlia.
      * unfold tree_decomp. rewrite E. cbn [obind forallb length]. unfold is_leaf. rewrite Eh.
        unfold tree_decomp. rewrite E. replace (0 <=? c) with true by lia.
        replace (c <? 0x110000) with true by lia. by destruct (c =? 0x11a7).
  - intros compat x Hx. pose proof (proj1 (forallb_forall _ _) Hj x) as Hx'. cbv beta in Hx'.
    rewrite andb_true_iff in Hx'. destruct Hx' as [H0 H1]; [apply list_elem_of_In, elem_of_seqZ; lia|].
    by destruct compat.
  - done.
Qed.

Section Spec.
Variable T : dtree.
Hypothesis T_spec : tree_spec T.

(** The runs of the table do not overlap. *)
Lemma decomp_run_unique i j v w c :
  at_ unicode_decomp_table1 i v -> at_ unicode_decomp_table1 j w ->
  in_decomp_run v c -> in_decomp_run w c -> i = j.
Proof using.
  unfold in_decomp_run. intros Hv Hw Hc Hc'. destruct (Z.lt_trichotomy i j) as [H|[H|H]]; [|done|].
  - pose proof (decomp_runs_at _ _ _ _ _ decomp_table1_ordered Hv Hw H). lia.
  - pose proof (decomp_runs_at _ _ _ _ _ decomp_table1_ordered Hw Hv H). lia.
Qed.

(** The function of the source gives the decomposition of the tree. *)
Lemma unicode_decomp_char_spec res c compat :
  length res = 18%nat ->
  exists l res', tree_decomp T compat c = Ret l /\ (length l <= 18)%nat /\
    unicode_decomp_char res c compat = Ret (res', zlen l) /\ take (length l) res' = l.
Proof using T_spec.
  intros Hres. unfold unicode_decomp_char, tree_decomp. pose proof (ts_lookup T T_spec c) as Hl.
  pose proof (decomp_find_post c) as Hf. apply post_inv in Hf as (r & -> & Hr). cbn [obind].
  destruct r as [[idx v]|], (dlookup T c) as [e|] eqn:E.
  - destruct Hr as [Hv Hc], Hl as (Hc' & Hv' & Ht2 & Hd).
    assert (idx = de_idx e) as -> by (by eapply decomp_run_unique).
    assert (v = de_v e) as -> by (by eapply at_det).
    destruct (_ <? _); [exists [], res; split; [done|split; [cbn; lia|done]]|].
    destruct (ts_chars T T_spec c e E) as (res0 & l & E0 & Hl & Hlen). unfold elem_chars in *.
    unfold unicode_decomp_entry. rewrite (rd_at _ _ _ Ht2). cbn [obind]. rewrite <- Hd.
    unfold in_decomp_run in Hc. assert (decomp_len (de_v e) < 128).
    { unfold decomp_len. rewrite (land_mask _ 7) by done. by apply Z.mod_pos_bound. }
    rewrite u32_id by (unfold in_u32; lia).
    pose proof (decomp_chars_agree (de_data e) (de_t2 e) (c - decomp_code (de_v e)) (decomp_len (de_v e))
      (decomp_type (de_v e)) (replicate UNICODE_DECOMP_LEN_MAX 0) res ltac:(by rewrite length_replicate)) as Ha.
    rewrite E0 in *. cbn [obind]. unfold agree in Ha.
    destruct (decomp_chars _ _ res _ _ _) as [[res' l']|]; [|done]. destruct Ha as (<- & Hl' & Ht).
    exists (take (Z.to_nat l) res0), res'. rewrite length_take, Hlen. replace (Z.to_nat l `min` 18)%nat with (Z.to_nat l) by lia.
    split; [done|]. split; [lia|]. split; [|done]. do 2 f_equal. unfold zlen. rewrite length_take, Hlen. lia.
  - exfalso. destruct Hr as [Hv Hc]. by apply (Hl idx v).
  - exfalso. destruct Hl as (Hc' & Hv' & _). by apply (Hr (de_idx e) (de_v e)).
  - exists [], res. split; [done|]. split; [cbn; lia|done].
Qed.

(** ** The decomposition to the end *)

Abbreviation code_point := (fun c => 0 <= c < 0x110000).

Lemma full_total compat c :
  0 <= c < 0x110000 ->
  exists l, full T compat 6 c = Ret l /\ (length l <= 18)%nat /\ Forall (fun x => is_leaf T compat x = true) l.
Proof using T_spec.
  intros Hc. pose proof (ts_full T T_spec compat c Hc) as H. unfold full_ok in H.
  destruct (full T compat 6 c) as [l|]; [|done]. apply andb_true_iff in H as [H Hl].
  exists l. split; [done|]. split; [by apply Nat.leb_le|]. apply List.Forall_forall. intros x Hx.
  pose proof (proj1 (forallb_forall _ _) H x Hx) as Ho. cbv beta in Ho. by apply andb_true_iff in Ho as [? _].
Qed.

(** U+11A7, which is not a final consonant, comes from itself only. *)
Lemma full_filler compat c l :
  0 <= c < 0x110000 -> c <> 0x11a7 -> full T compat 6 c = Ret l -> ~ In 0x11a7 l.
Proof using T_spec.
  intros Hc Hne E Hin. pose proof (ts_full T T_spec compat c Hc) as H. unfold full_ok in H. rewrite E in H.
  apply andb_true_iff in H as [H _]. pose proof (proj1 (forallb_forall _ _) H _ Hin) as Ho. cbv beta in Ho.
  apply andb_true_iff in Ho as [_ Ho]. replace (c =? 0x11a7) with false in Ho by lia. done.
Qed.

Lemma ofold_full compat depth l acc L :
  ofold (fun acc x => let* y := full T compat depth x in Ret (acc ++ y)) acc l = Ret L ->
  exists ls, Forall2 (fun x y => full T compat depth x = Ret y) l ls /\ L = acc ++ concat ls.
Proof using.
  revert acc. induction l as [|x l IH]; intros acc H; cbn [ofold] in H.
  - injection H as <-. exists []. split; [constructor|by rewrite app_nil_r].
  - destruct (full T compat depth x) as [y|] eqn:E; [|done]. cbn [obind] in H.
    apply IH in H as (ls & Hls & ->). exists (y :: ls). split; [by constructor|]. by rewrite <- app_assoc.
Qed.

Lemma ofold_full_Ret compat depth l ls acc :
  Forall2 (fun x y => full T compat depth x = Ret y) l ls ->
  ofold (fun acc x => let* y := full T compat depth x in Ret (acc ++ y)) acc l = Ret (acc ++ concat ls).
Proof using.
  intros H. revert acc. induction H as [|x y l ls Hx _ IH]; intros acc; cbn [ofold concat].
  - by rewrite app_nil_r.
  - rewrite Hx. cbn [obind]. by rewrite IH, <- app_assoc.
Qed.

(** More depth changes nothing. *)
Lemma full_mono compat d1 d2 c l :
  (d1 <= d2)%nat -> full T compat d1 c = Ret l -> full T compat d2 c = Ret l.
Proof using.
  revert d2 c l. induction d1 as [|d1 IH]; intros d2 c l Hd H; [done|]. destruct d2 as [|d2]; [lia|].
  cbn [full] in *. destruct (is_hangul c); [done|].
  destruct (tree_decomp T compat c) as [[|x k]|]; [done| |done]. cbn [obind] in *.
  apply ofold_full in H as (ls & Hls & ->). apply ofold_full_Ret.
  eapply Forall2_impl; [exact Hls|]. intros a b Hab. apply (IH d2); [lia|done].
Qed.

(** A character that cannot be decomposed. *)
Lemma full_leaf compat c d : is_leaf T compat c = true -> full T compat (S d) c = Ret [c].
Proof using.
  unfold is_leaf. rewrite !andb_true_iff. intros [[[H1 _] _] H2]. cbn [full].
  destruct (is_hangul c); [done|]. by destruct (tree_decomp T compat c) as [[|? ?]|].
Qed.

Lemma is_leaf_range compat c : is_leaf T compat c = true -> 0 <= c < 0x110000.
Proof using. unfold is_leaf. rewrite !andb_true_iff. lia. Qed.

(** The full decomposition as a function. *)
Definition nfd (compat : bool) (c : Z) : list Z :=
  match full T compat 6 c with Ret l => l | Err _ => [] end.

Definition nfd_all (compat : bool) (l : list Z) : list Z := concat (map (nfd compat) l).

Lemma nfd_eq compat c d :
  0 <= c < 0x110000 -> (6 <= d)%nat -> full T compat d c = Ret (nfd compat c).
Proof using T_spec.
  intros Hc Hd. destruct (full_total compat c Hc) as (l & E & _). unfold nfd. rewrite E. by eapply full_mono.
Qed.

Lemma nfd_leaves compat c :
  0 <= c < 0x110000 -> Forall (fun x => is_leaf T compat x = true) (nfd compat c) /\ (length (nfd compat c) <= 18)%nat.
Proof using T_spec.
  intros Hc. destruct (full_total compat c Hc) as (l & E & Hl & Hf). unfold nfd. by rewrite E.
Qed.

Lemma nfd_leaf compat c : is_leaf T compat c = true -> nfd compat c = [c].
Proof using. intros H. unfold nfd. by rewrite full_leaf. Qed.

Lemma nfd_all_leaf compat l : Forall (fun x => is_leaf T compat x = true) l -> nfd_all compat l = l.
Proof using.
  unfold nfd_all. induction 1 as [|x l Hx _ IH]; [done|]. cbn [map concat]. by rewrite (nfd_leaf _ _ Hx), IH.
Qed.

Lemma nfd_all_app compat l k : nfd_all compat (l ++ k) = nfd_all compat l ++ nfd_all compat k.
Proof using. unfold nfd_all. by rewrite map_app, concat_app. Qed.

Lemma nfd_all_leaves compat l :
  Forall code_point l ->
  Forall (fun x => is_leaf T compat x = true) (nfd_all compat l) /\
  zlen (nfd_all compat l) <= 18 * zlen l.
Proof using T_spec.
  unfold nfd_all. induction 1 as [|x l Hx _ IH]; cbn [map concat]; [by split|].
  destruct (nfd_leaves compat x Hx) as [H1 H2]. destruct IH as [IH1 IH2].
  split; [by apply Forall_app|]. rewrite zlen_app, zlen_cons. unfold zlen in *. lia.
Qed.
End Spec.
