(* ===== verification/Composition.v ===== *)
(** Composition of pairs.

    The binary search of [unicode_compose_pair] decodes an entry of the
    decomposition tables at each step; it finds the character whose
    decomposition is the pair exactly when there is one.  Composition, of Hangul
    syllables too, keeps the full decomposition. *)
From Stdlib Require Import ZArith Lia Bool List.
From stdpp Require Import base tactics list numbers strings.
From S2P Require Import Prelude UnicodeTables CaseConv Normalize CombiningClass DecompTables Decomp.

Section Compose.
Variable T : dtree.
Hypothesis T_spec : tree_spec T.

(** * The elements of the table *)

Lemma comp_list_at table l :
  comp_list T table = Some l ->
  zlen l = zlen table /\
  forall i idx1, at_ table i idx1 -> exists x, at_ l i x /\ comp_elem T idx1 = Some x.
Proof using.
  revert l. induction table as [|idx1 table IH]; intros l H; cbn [comp_list] in H.
  - injection H as <-. split; [done|]. intros i idx1 [_ Hi]. done.
  - destruct (comp_elem T idx1) as [x|] eqn:E; [|done]. destruct (comp_list T table) as [k|]; [|done].
    injection H as <-. destruct (IH k eq_refl) as [Hz Hat]. rewrite !zlen_cons. split; [lia|].
    intros i j [Hi Hj]. destruct (Z.eq_dec i 0) as [->|H0].
    + injection Hj as <-. exists x. by split.
    + assert (Z.to_nat i = S (Z.to_nat (i - 1))) as En by lia. rewrite En in Hj.
      destruct (Hat (i - 1) j) as (y & [Hy1 Hy2] & Ey); [split; [lia|exact Hj]|].
      exists y. split; [|done]. split; [done|]. by rewrite En.
Qed.

Lemma pair_lt_trans p q r : pair_lt p q = true -> pair_lt q r = true -> pair_lt p r = true.
Proof using. destruct p as [p0 p1], q as [q0 q1], r as [r0 r1]. unfold pair_lt. lia. Qed.

Lemma pairs_increasing_at l i j p q c d :
  pairs_increasing l = true -> at_ l i (p, c) -> at_ l j (q, d) -> i < j -> pair_lt p q = true.
Proof using.
  intros Ho [Hi Hp] [Hj Hq] Hij. remember (Z.to_nat i) as n eqn:En. remember (Z.to_nat j) as m eqn:Em.
  assert (n < m)%nat as Hnm by lia. clear En Em Hi Hj Hij i j. revert n m p c Hp Hq Hnm.
  induction l as [|[x xc] l IH]; intros n m p c Hp Hq Hnm; [done|].
  destruct m as [|m]; [lia|]. cbn [lookup list_lookup] in Hq. destruct l as [|[y yc] l]; [done|].
  cbn [pairs_increasing] in Ho. apply andb_true_iff in Ho as [Hxy Ho].
  destruct n as [|n]; [|apply (IH Ho n m p c); (done || lia)]. injection Hp as -> ->.
  destruct m as [|m]; [by injection Hq as -> ->|].
  pose proof (IH Ho 0%nat (S m) y yc eq_refl Hq ltac:(lia)). by eapply pair_lt_trans.
Qed.

(** What the check of an element says of the tables. *)
Record composite (p0 p1 ch : Z) : Prop := {
  co_range : 0 < ch < 0x110000;
  co_hangul : is_hangul ch = false;
  co_first : 0 <= p0 < 0x110000;
  co_second : 0 <= p1 < 0x110000;
  co_class : combining_class p0 = 0 -> combining_class ch = 0;
  co_decomp : tree_decomp T false ch = Ret [p0; p1]
}.

Lemma comp_elem_spec idx1 p0 p1 ch arr :
  comp_elem T idx1 = Some (p0, p1, ch) -> length arr = 2%nat ->
  composite p0 p1 ch /\
  exists v, at_ unicode_decomp_table1 (Z.shiftr idx1 6) v /\ ch = decomp_code v + Z.land idx1 0x3f /\
    unicode_decomp_entry arr ch (Z.shiftr idx1 6) (decomp_code v) (decomp_len v) (decomp_type v)
      = Ret ([p0; p1], 2).
Proof using T_spec.
  unfold comp_elem. intros H Hlen. destruct (rd unicode_decomp_table1 _) as [v|] eqn:Ev; [|done].
  apply rd_Ret in Ev. set (off := Z.land idx1 0x3f) in *. set (c := decomp_code v + off) in *.
  pose proof (ts_lookup T T_spec c) as Hl. destruct (dlookup T c) as [e|]; [|done].
  destruct (elem_chars e [0; 0] off) as [[[|a [|b [|]]] l]|] eqn:Ee; try done.
  destruct (tree_decomp T false c) as [[|q0 [|q1 [|]]]|] eqn:Et; try done.
  match type of H with (if ?b then _ else _) = _ => destruct b eqn:Eb end; [|done].
  injection H as <- <- <-. rewrite !andb_true_iff in Eb.
  destruct Eb as [[[[[[[[[[[Hidx H2] Hp] Hq] Hc] H0] H1] Hh] ?] ?] ?] ?].
  apply Z.eqb_eq in Hidx, Hp, Hq. subst q0 q1. apply Z.eqb_eq in H2 as ->.
  apply orb_true_iff in Hc. split.
  { constructor; [lia|by apply negb_true_iff|lia|lia| |exact Et]. intros Hz. destruct Hc as [Hc|Hc]; [lia|].
    rewrite Hz in Hc. done. }
  exists v. split; [done|]. split; [done|]. destruct Hl as (Hrun & Hat & Ht2 & Hd).
  rewrite Hidx in Hat, Ht2. assert (de_v e = v) as <- by (by eapply at_det).
  unfold unicode_decomp_entry. rewrite (rd_at _ _ _ Ht2). cbn [obind]. rewrite <- Hd.
  assert (0 <= off < 64) as Hoff by (unfold off; rewrite (land_mask _ 6) by done; by apply Z.mod_pos_bound).
  replace (u32 (c - decomp_code (de_v e))) with off by (rewrite u32_id; unfold in_u32, c; lia).
  unfold elem_chars in Ee.
  pose proof (decomp_chars_agree (de_data e) (de_t2 e) off (decomp_len (de_v e)) (decomp_type (de_v e)) [0; 0] arr
    ltac:(by rewrite Hlen)) as Ha. rewrite Ee in Ha. unfold agree in Ha.
  destruct (decomp_chars _ _ arr _ _ _) as [[r l]|]; [|done]. destruct Ha as (<- & Hr & Ht).
  change (Z.to_nat 2) with 2%nat in Ht. do 2 f_equal. rewrite (take_ge r) in Ht by (cbn in Hr; lia). by rewrite <- Ht.
Qed.

(** * The search *)

Lemma i32_diff_small a b : 0 <= a < 0x110000 -> 0 <= b < 0x110000 -> i32 (a - b) = a - b.
Proof using.
  intros. unfold i32, u32. destruct (Z.le_gt_cases 0 (a - b)).
  - rewrite Z.mod_small by lia. by decide_ifs lia.
  - replace ((a - b) mod 4294967296) with (a - b + 4294967296).
    + decide_ifs lia; lia.
    + apply (Z.mod_unique _ _ (-1)); lia.
Qed.

Lemma comp_list_exists : exists l,
  comp_list T unicode_comp_table = Some l /\ pairs_increasing l = true.
Proof using T_spec.
  pose proof (ts_comp T T_spec) as H. unfold comp_ok in H.
  destruct (comp_list T unicode_comp_table) as [l|]; [by exists l|done].
Qed.

Lemma zlen_comp_table : zlen unicode_comp_table = 965.
Proof using. vm_cast_no_check (eq_refl 965). Qed.

(** The table has the pair. *)
Definition has_pair (c0 c1 ch : Z) : Prop :=
  exists i idx1, at_ unicode_comp_table i idx1 /\ comp_elem T idx1 = Some (c0, c1, ch).

Lemma unicode_compose_pair_post arr c0 c1 :
  length arr = 2%nat -> 0 <= c0 < 0x110000 -> 0 <= c1 < 0x110000 ->
  post (unicode_compose_pair arr c0 c1) (fun ch =>
    has_pair c0 c1 ch \/ (ch = 0 /\ forall ch', ~ has_pair c0 c1 ch')).
Proof using T_spec.
  intros Hlen H0 H1. destruct comp_list_exists as (l & El & Hinc).
  destruct (comp_list_at _ _ El) as [Hz Hat]. rewrite zlen_comp_table in Hz.
  unfold unicode_compose_pair. rewrite zlen_comp_table.
  apply (post_iter (fun '(lo, hi, arr) => 0 <= lo /\ lo - 1 <= hi < 965 /\ length arr = 2%nat /\
      forall i p ch, at_ l i (p, ch) ->
        (i < lo -> pair_lt p (c0, c1) = true) /\ (hi < i -> pair_lt (c0, c1) p = true))
    (fun '(lo, hi, _) => Z.to_nat (hi - lo + 1))).
  - intros [[lo hi] pr] (Hlo & Hhi & Hp & Hinv). destruct (Z.leb_spec lo hi) as [Hle|Hgt].
    2:{ apply post_ret. right. split; [done|]. intros ch' (i & idx1 & Hi & Ei).
        destruct (Hat i idx1 Hi) as (x & Hx & Ex). rewrite Ei in Ex. injection Ex as <-.
        destruct (Hinv _ _ _ Hx) as [Ha Hb]. unfold pair_lt in Ha, Hb.
        destruct (Z.lt_ge_cases i lo) as [Hc|Hc]; [specialize (Ha Hc)|specialize (Hb ltac:(lia))]; lia. }
    cbn zeta. set (idx := (hi + lo) / 2). assert (lo <= idx <= hi) as Hidx by (unfold idx; zlia).
    apply post_bind, post_rd; [rewrite zlen_comp_table; lia|]. intros idx1 Hidx1.
    destruct (Hat idx idx1 Hidx1) as ([[p0 p1] ch] & Hx & Ex).
    destruct (comp_elem_spec idx1 p0 p1 ch pr Ex Hp) as (Hco & v & Hv & Ech & Ed).
    rewrite (rd_at _ _ _ Hv). cbn [obind]. rewrite <- Ech, Ed. cbn [obind].
    change (rd [p0; p1] 0) with (Ret p0). change (rd [p0; p1] 1) with (Ret p1). cbn [obind].
    pose proof (co_first _ _ _ Hco). pose proof (co_second _ _ _ Hco).
    rewrite !i32_diff_small by done. assert (forall i p' ch', at_ l i (p', ch') ->
      (i < idx -> pair_lt p' (p0, p1) = true) /\ (idx < i -> pair_lt (p0, p1) p' = true) /\ (i = idx -> p' = (p0, p1))) as Hord.
    { intros i p' ch' Hi. split; [|split].
      - intros Hlt. by eapply pairs_increasing_at.
      - intros Hlt. by eapply pairs_increasing_at.
      - intros ->. by pose proof (at_det _ _ _ _ Hi Hx) as [= -> _]. }
    set (d := if c0 - p0 =? 0 then Ret (c1 - p1) else Ret (c0 - p0)).
    assert (exists z, d = Ret z /\ (z < 0 <-> pair_lt (c0, c1) (p0, p1) = true) /\ (0 < z <-> pair_lt (p0, p1) (c0, c1) = true))
      as (z & -> & Hneg & Hpos).
    { unfold d, pair_lt. destruct (Z.eqb_spec (c0 - p0) 0); eexists; (split; [done|]); split; lia. }
    cbn [obind]. destruct (Z.ltb_spec z 0) as [Hzn|Hzn]; [|destruct (Z.ltb_spec 0 z) as [Hzp|Hzp]].
    + apply Hneg in Hzn. split; [|lia]. split; [done|]. split; [lia|]. split; [done|]. intros i p' ch' Hi.
      split; [by eapply Hinv|]. intros Hlt. destruct (Hord _ _ _ Hi) as (_ & Hgt & Heq).
      destruct (Z.eq_dec i idx) as [Ei|Ei]; [by rewrite (Heq Ei)|].
      eapply pair_lt_trans; [exact Hzn|]. apply Hgt. lia.
    + apply Hpos in Hzp. split; [|lia]. split; [lia|]. split; [lia|]. split; [done|]. intros i p' ch' Hi.
      split; [|by eapply Hinv]. intros Hlt. destruct (Hord _ _ _ Hi) as (Hl & _ & Heq).
      destruct (Z.eq_dec i idx) as [Ei|Ei]; [by rewrite (Heq Ei)|].
      eapply pair_lt_trans; [apply Hl; lia|exact Hzp].
    + left. exists idx, idx1. split; [done|]. rewrite Ex. do 3 f_equal; unfold pair_lt in *; lia.
  - split; [lia|]. split; [lia|]. split; [done|]. intros i p ch Hi. apply at_lt in Hi. lia.
  - pose proof zlen_comp_table as H. unfold zlen in H. lia.
Qed.

(** * Composition keeps the decomposition *)

Lemma tree_decomp_compat ch x l : tree_decomp T false ch = Ret (x :: l) -> tree_decomp T true ch = Ret (x :: l).
Proof using.
  unfold tree_decomp. destruct (dlookup T ch) as [e|]; [|done].
  destruct (Z.ltb_spec (b2z false) (Z.land (de_v e) 1)) as [|H]; [done|]. intros E.
  cbn [b2z] in *. by replace (1 <? Z.land (de_v e) 1) with false by lia.
Qed.

Lemma full_S compat depth c :
  full T compat (S depth) c =
  if is_hangul c then Ret (hangul_jamo c)
  else
    let* l := tree_decomp T compat c in
    match l with
    | [] => Ret [c]
    | _ => ofold (fun acc x => let* y := full T compat depth x in Ret (acc ++ y)) [] l
    end.
Proof using. done. Qed.

Lemma nfd_composite p0 p1 ch compat :
  composite p0 p1 ch -> nfd T compat ch = nfd T compat p0 ++ nfd T compat p1.
Proof using T_spec.
  intros [Hr Hh Hp0 Hp1 _ Hd]. assert (tree_decomp T compat ch = Ret [p0; p1]) as E
    by (destruct compat; [by apply tree_decomp_compat|done]).
  pose proof (nfd_eq T T_spec compat ch 7 ltac:(lia) ltac:(lia)) as H. rewrite full_S in H.
  rewrite Hh, E in H. cbn [obind] in H.
  rewrite (ofold_full_Ret T compat 6 [p0; p1] [nfd T compat p0; nfd T compat p1] []) in H.
  - injection H as H. cbn [app concat] in H. by rewrite app_nil_r in H.
  - repeat constructor; apply nfd_eq; (done || lia).
Qed.

Lemma nfd_hangul compat c : 0xac00 <= c < 0xd7a4 -> nfd T compat c = hangul_jamo c.
Proof using.
  intros Hc. unfold nfd. rewrite full_S. unfold is_hangul. by replace ((0xac00 <=? c) && (c <? 0xd7a4)) with true by lia.
Qed.

Lemma nfd_jamo compat c : 0x1100 <= c < 0x1200 -> nfd T compat c = [c].
Proof using T_spec. intros Hc. apply nfd_leaf. by apply (ts_jamo T T_spec). Qed.

(** U+11A7 is left out: the source takes it for a final consonant. *)
Lemma compose_pair_post arr c0 c1 :
  length arr = 2%nat -> 0 <= c0 < 0x110000 -> 0 <= c1 < 0x110000 -> c1 <> 0x11a7 -> combining_class c0 = 0 ->
  post (compose_pair arr c0 c1) (fun p =>
    p = 0 \/ (0 < p < 0x110000 /\ combining_class p = 0 /\
              forall compat, nfd T compat p = nfd T compat c0 ++ nfd T compat c1)).
Proof using T_spec.
  intros Hlen H0 H1 Hne Hc. unfold compose_pair.
  match goal with |- context [if ?b then _ else _] => destruct b eqn:E1 end.
  { apply post_ret. right. split; [lia|]. split; [apply hangul_class; lia|]. intros compat.
    rewrite nfd_hangul, !nfd_jamo by lia. unfold hangul_jamo.
    set (s := _ - 0xac00). assert (s mod 28 = 0 /\ s / 588 = c0 - 0x1100 /\ s mod 588 / 28 = c1 - 0x1161) as (-> & -> & ->)
      by (unfold s; zlia). cbn [Z.eqb app]. f_equal; [lia|]. f_equal. lia. }
  match goal with |- context [if ?b then _ else _] => destruct b eqn:E2 end.
  { apply post_ret. right. rewrite !andb_true_iff in E2. destruct E2 as [[[[Ha Hb] Hm] Hd] He].
    assert (c0 + c1 - 0x11a7 < 0xd7a4) by zlia.
    split; [lia|]. split; [apply hangul_class; lia|]. intros compat.
    rewrite !nfd_hangul, nfd_jamo by lia. unfold hangul_jamo.
    set (s := c0 + c1 - 0x11a7 - 0xac00). set (r := c0 - 0xac00) in *.
    assert (s mod 28 = c1 - 0x11a7 /\ s / 588 = r / 588 /\ s mod 588 / 28 = r mod 588 / 28 /\ r mod 28 = 0) as (-> & -> & -> & ->)
      by (unfold s, r in *; zlia). cbn [Z.eqb app]. replace (c1 - 0x11a7 =? 0) with false by lia.
    cbn [app]. do 2 f_equal. f_equal. lia. }
  eapply post_mono; [by apply unicode_compose_pair_post|]. intros p [(i & idx1 & _ & E)|[-> _]]; [right|by left].
  destruct (comp_elem_spec idx1 c0 c1 p arr E Hlen) as [Hco _]. split; [apply Hco|].
  split; [by apply Hco|]. intros compat. by apply nfd_composite.
Qed.
End Compose.

(** C32: Composition inverts decomposition.  For two code points the binary search
    of [unicode_compose_pair], which decodes an entry of the decomposition
    tables into an array of two cells at each step, reads and writes in bounds
    and ends.  A character it returns decomposes canonically, by
    [unicode_decomp_char], into exactly the two code points; it returns 0 only
    when no element of the composition table decodes to them. *)
Theorem unicode_compose_pair_inverts arr c0 c1 :
  length arr = 2%nat -> 0 <= c0 < 0x110000 -> 0 <= c1 < 0x110000 ->
  post (unicode_compose_pair arr c0 c1) (fun ch =>
    (ch <> 0 /\ forall res, length res = 18%nat ->
       exists res', unicode_decomp_char res ch false = Ret (res', 2) /\ take 2 res' = [c0; c1]) \/
    (ch = 0 /\ forall i idx1 v, at_ unicode_comp_table i idx1 ->
       at_ unicode_decomp_table1 (Z.shiftr idx1 6) v ->
       unicode_decomp_entry arr (decomp_code v + Z.land idx1 0x3f) (Z.shiftr idx1 6) (decomp_code v)
         (decomp_len v) (decomp_type v) <> Ret ([c0; c1], 2))).
Proof.
  intros Hlen H0 H1. destruct tree_spec_exists as [T HT].
  eapply post_mono; [by apply (unicode_compose_pair_post T HT)|].
  intros ch [(i & idx1 & Hi & E)|[-> Hno]]; [left|right].
  - destruct (comp_elem_spec T HT idx1 c0 c1 ch arr E Hlen) as [Hco _]. split; [apply co_range in Hco; lia|].
    intros res Hres. destruct (unicode_decomp_char_spec T HT res ch false Hres) as (l & res' & El & _ & Ed & Ht).
    rewrite (co_decomp _ _ _ _ Hco) in El. injection El as <-. by exists res'.
  - split; [done|]. intros i idx1 v Hi Hv Ed. destruct (comp_list_exists T HT) as (l & El & _).
    destruct (comp_list_at T _ _ El) as [_ Hat]. destruct (Hat i idx1 Hi) as ([[p0 p1] ch] & _ & Ex).
    destruct (comp_elem_spec T HT idx1 p0 p1 ch arr Ex Hlen) as (_ & v' & Hv' & -> & Ed').
    assert (v' = v) as -> by (by eapply at_det). rewrite Ed in Ed'. injection Ed' as <- <-.
    apply (Hno (decomp_code v + Z.land idx1 0x3f)). by exists i, idx1.
Qed.

Lemma unicode_compose_pair_inverts_witness :
  length [7; 7] = 2%nat /\ 0 <= 0x41 < 0x110000 /\ 0 <= 0x300 < 0x110000 /\
  post (unicode_compose_pair [7; 7] 0x41 0x300) (fun ch =>
    (ch <> 0 /\ forall res, length res = 18%nat ->
       exists res', unicode_decomp_char res ch false = Ret (res', 2) /\ take 2 res' = [0x41; 0x300]) \/
    (ch = 0 /\ forall i idx1 v, at_ unicode_comp_table i idx1 ->
       at_ unicode_decomp_table1 (Z.shiftr idx1 6) v ->
       unicode_decomp_entry [7; 7] (decomp_code v + Z.land idx1 0x3f) (Z.shiftr idx1 6) (decomp_code v)
         (decomp_len v) (decomp_type v) <> Ret ([0x41; 0x300], 2))).
Proof.
  split; [reflexivity|]. split; [lia|]. split; [lia|].
  apply (unicode_compose_pair_inverts [7; 7] 0x41 0x300); [reflexivity|lia|lia].
Defined.
