(* ===== verification/NormForms.v ===== *)
(** Normal forms.

    [unicode_normalize] in its decomposing forms computes the full decomposition
    in canonical order; in its composing forms the result has the same full
    decomposition as the text. *)
From Stdlib Require Import ZArith Lia Bool List.
From stdpp Require Import base tactics list numbers strings.
From S2P Require Import Prelude Alloc DynBuf UnicodeTables CaseConv Normalize CombiningClass.
From S2P Require Import CanonOrder DecompTables Decomp Composition.

(** * The buffer of the decomposition *)

(** The bytes of an array of [int]s. *)
Definition ints (l : list Z) : list Z := concat (map (le_bytes 4) l).

Lemma ints_app l k : ints (l ++ k) = ints l ++ ints k.
Proof. unfold ints. by rewrite map_app, concat_app. Qed.

Lemma zlen_ints l : zlen (ints l) = 4 * zlen l.
Proof.
  unfold ints. induction l as [|x l IH]; [done|]. cbn [map concat].
  rewrite zlen_app, zlen_le_bytes, IH, zlen_cons. lia.
Qed.

(** [data] was appended, unless an allocation failed before or now: the allocator
    refused a request, or the buffer is larger than any block can be. *)
Definition extended `{AL : Allocator} (s s' : DynBuf) (data : list Z) : Prop :=
  dbuf_wf s' /\ (error s = true -> error s' = true) /\
  (error s' = false -> contents s' = contents s ++ data) /\
  (error s' = true -> error s = true \/ can_refuse \/ 2 ^ 63 <= zlen (contents s) + zlen data).

Lemma extended_refl `{AL : Allocator} s : dbuf_wf s -> extended s s [].
Proof. intros H. split; [done|]. split; [done|]. rewrite app_nil_r. split; [done|]. by left. Qed.

Lemma extended_trans `{AL : Allocator} s1 s2 s3 c1 c2 :
  extended s1 s2 c1 -> extended s2 s3 c2 -> extended s1 s3 (c1 ++ c2).
Proof.
  intros (W1 & M1 & C1 & E1) (W2 & M2 & C2 & E2). split; [done|]. split; [auto|].
  pose proof (zlen_nonneg c1). pose proof (zlen_nonneg c2). rewrite zlen_app. destruct (error s2) eqn:Es2.
  - split; [intros He; by rewrite M2 in He|]. intros _. destruct E1 as [?|[?|?]]; auto. right; right. lia.
  - rewrite C1 in * by done. rewrite zlen_app in E2. split; [intros He; by rewrite C2, app_assoc|].
    intros He. destruct (E2 He) as [?|[?|?]]; [done|auto|]. right; right. lia.
Qed.

Abbreviation code_point := (fun c => 0 <= c < 0x110000).

Section Decompose.
Context `{AL : Allocator}.

Lemma dbuf_put_u32_extended h s v :
  dbuf_wf s -> post (dbuf_put_u32 h s v) (fun '(_, s', _) => extended s s' (ints [v])).
Proof.
  intros Hwf. unfold dbuf_put_u32. change (u32 v) with (v mod 2 ^ (8 * Z.of_nat 4)). rewrite le_bytes_mod.
  eapply post_mono; [apply dbuf_put_fails; [done|by rewrite zlen_le_bytes]|].
  intros [[h' s'] r] Hc. unfold ints. cbn [map concat]. rewrite app_nil_r.
  destruct Hc as [[Hw [(_ & Hc & He)|(? & _)]]|[[Hw [(? & _)|(_ & Hc & He)]] Hf]]; try done.
  - split; [done|]. split; [congruence|]. split; [congruence|]. intros; left; congruence.
  - split; [done|]. split; [congruence|]. split; [congruence|auto].
Qed.

Variable uninit : nat -> Z.
Variable T : dtree.
Hypothesis T_spec : tree_spec T.

Definition rec_ok (compat : bool) (rec : heap -> DynBuf -> list Z -> outcome (heap * DynBuf)) (depth : nat) : Prop :=
  forall h s src ys, dbuf_wf s -> src <> [] \/ (0 < depth)%nat ->
    Forall2 (fun c y => full T compat depth c = Ret y) src ys ->
    post (rec h s src) (fun '(_, s') => extended s s' (ints (concat ys))).

Lemma to_nfd_char_spec compat rec depth h s c y :
  rec_ok compat rec depth -> dbuf_wf s -> full T compat (S depth) c = Ret y ->
  post (to_nfd_char uninit rec compat (h, s) c) (fun '(_, s') => extended s s' (ints y)).
Proof using T_spec.
  intros Hrec Hwf Hy. unfold to_nfd_char. cbn [full] in Hy. unfold is_hangul in Hy.
  destruct ((0xac00 <=? c) && (c <? 0xd7a4)).
  - injection Hy as <-. unfold hangul_jamo. set (v := c - 0xac00). cbn zeta.
    apply post_bind. eapply post_mono; [by apply dbuf_put_u32_extended|]. intros [[h1 s1] r1] H1.
    apply post_bind. eapply post_mono; [apply dbuf_put_u32_extended, H1|]. intros [[h2 s2] r2] H2.
    pose proof (extended_trans _ _ _ _ _ H1 H2) as H12.
    destruct (v mod 28 =? 0); cbn [negb].
    + apply post_ret. rewrite app_nil_r. exact H12.
    + apply post_bind. eapply post_mono; [apply dbuf_put_u32_extended, H2|]. intros [[h3 s3] r3] H3.
      apply post_ret. exact (extended_trans _ _ _ _ _ H12 H3).
  - destruct (unicode_decomp_char_spec T T_spec (uninit_array uninit UNICODE_DECOMP_LEN_MAX) c compat)
      as (l & res' & Hl & _ & -> & Ht); [unfold uninit_array; by rewrite length_map, length_seq|].
    cbn [obind]. rewrite Hl in Hy. cbn [obind] in Hy. destruct l as [|x l].
    + injection Hy as <-. change (zlen []) with 0. cbn [Z.eqb negb].
      apply post_bind. eapply post_mono; [by apply dbuf_put_u32_extended|]. intros [[h1 s1] r1] H1. by apply post_ret.
    + rewrite zlen_cons. pose proof (zlen_nonneg l). replace (1 + zlen l =? 0) with false by lia. cbn [negb].
      replace (Z.to_nat (1 + zlen l)) with (length (x :: l)) by (unfold zlen; cbn [length]; lia).
      rewrite Ht. apply ofold_full in Hy as (ls & Hls & ->). apply (Hrec h s (x :: l) ls Hwf ltac:(by left) Hls).
Qed.

Lemma to_nfd_fold compat rec depth src ys h s :
  rec_ok compat rec depth -> dbuf_wf s -> Forall2 (fun c y => full T compat (S depth) c = Ret y) src ys ->
  post (ofold (to_nfd_char uninit rec compat) (h, s) src) (fun '(_, s') => extended s s' (ints (concat ys))).
Proof using T_spec.
  intros Hrec Hwf Hy. revert h s Hwf. induction Hy as [|c y src ys Hc _ IH]; intros h s Hwf; cbn [ofold concat].
  - apply post_ret. by apply extended_refl.
  - apply post_bind. eapply post_mono; [by apply (to_nfd_char_spec compat rec depth h s c y)|].
    intros [h1 s1] H1. eapply post_mono; [apply IH, H1|]. intros [h2 s2] H2.
    rewrite ints_app. by eapply extended_trans.
Qed.

Lemma to_nfd_rec_spec compat depth : rec_ok compat (to_nfd_rec uninit depth compat) depth.
Proof using T_spec.
  induction depth as [|depth IH]; intros h s src ys Hwf Hd Hy.
  - destruct Hy as [|c y src ys Hc _]; [|done]. destruct Hd; [done|lia].
  - by apply (to_nfd_fold compat _ depth).
Qed.

(** ** Reading the buffer as [int]s *)

Lemma int_cells_at m p l rest :
  0 <= p -> block_at m p (ints l ++ rest) -> Forall in_u32 l -> int_cells m p (length l) = Ret l.
Proof using.
  intros Hp Hb Hl. revert p Hp Hb. induction Hl as [|x l Hx _ IH]; intros p Hp Hb; [done|].
  unfold ints in Hb. cbn [map concat] in Hb. rewrite <- !app_assoc, block_at_app, zlen_le_bytes in Hb.
  destruct Hb as [Hb Hr]. cbn [length int_cells]. unfold get_u32.
  pose proof (block_at_le _ _ _ Hb ltac:(done)) as [_ Hz].
  change (rd_slice m p 4) with (rd_slice m p (Z.of_nat 4)).
  rewrite <- (zlen_le_bytes 4 x), rd_slice_block_at by done. cbn [obind]. rewrite le_val_le_bytes.
  rewrite zlen_le_bytes in *. change (p + 4) with (p + Z.of_nat 4). rewrite (IH (p + Z.of_nat 4) ltac:(lia) Hr). cbn [obind]. f_equal. f_equal. unfold in_u32 in Hx.
  apply Z.mod_small. done.
Qed.

Lemma contents_ints s l rest :
  dbuf_wf s -> contents s = ints l ++ rest -> Forall in_u32 l -> int_cells (buf s) 0 (length l) = Ret l.
Proof using.
  intros (H1 & H2 & H3) Hc Hl. eapply (int_cells_at _ 0 l rest); [done| |done]. rewrite <- Hc. unfold contents.
  apply block_at_take. lia.
Qed.

(** ** The decomposing forms *)

Definition compat_of (n : UnicodeNormalizationEnum) : bool :=
  match n with UNICODE_NFC | UNICODE_NFD => false | UNICODE_NFKC | UNICODE_NFKD => true end.

Lemma full_nfd compat src depth :
  Forall code_point src -> (6 <= depth)%nat ->
  Forall2 (fun c y => full T compat depth c = Ret y) src (map (nfd T compat) src).
Proof using T_spec.
  intros Hs Hd. induction Hs as [|c src Hc _ IH]; cbn [map]; constructor; [|done]. by apply nfd_eq.
Qed.

Lemma leaves_u32 compat l : Forall (fun x => is_leaf T compat x = true) l -> Forall in_u32 l.
Proof using.
  intros H. eapply Forall_impl; [exact H|]. cbn beta. intros x Hx. apply is_leaf_range in Hx. unfold in_u32. lia.
Qed.

Lemma code_points_nonneg l : Forall code_point l -> Forall (fun c => 0 <= c) l.
Proof using. intros H. eapply Forall_impl; [exact H|]. cbn beta. lia. Qed.

Lemma leaves_code_points compat l : Forall (fun x => is_leaf T compat x = true) l -> Forall code_point l.
Proof using. intros H. eapply Forall_impl; [exact H|]. cbn beta. intros x Hx. by apply is_leaf_range in Hx. Qed.

Lemma dbuf_init_wf : dbuf_wf dbuf_init.
Proof using. repeat split; cbn; lia. Qed.

Lemma dbuf_realloc_init h n :
  0 <= n < 2 ^ 63 ->
  let '(_, s, r) := dbuf_realloc h dbuf_init n in
  dbuf_wf s /\ contents s = [] /\ (r = 0 /\ error s = false /\ n <= allocated_size s \/ r = -1 /\ can_refuse).
Proof using.
  intros Hn. unfold dbuf_realloc. cbn [allocated_size dbuf_init error buf size].
  destruct (Z.ltb_spec 0 n) as [Hlt|Hge].
  2:{ split; [apply dbuf_init_wf|]. split; [done|]. left. cbn. lia. }
  replace (u64 (0 * 3) / 2) with 0 by done. replace (n <? 0) with false by lia.
  destruct (realloc 1 u8 h [] n) as [h' [b|]] eqn:E.
  - apply realloc_Some in E as (Hz & _ & _); [|lia]. split; [repeat split; cbn; lia|]. split; [done|]. left. cbn. lia.
  - split; [apply dbuf_init_wf|]. split; [done|]. right. split; [done|]. unfold realloc in E. rewrite Z.mul_1_r, (proj2 (Z.ltb_lt _ _)) in E by lia.
    destruct (heap_alloc h n) as [h1 [fresh|]] eqn:Eh; [done|]. exists n, h. unfold refuses. by rewrite Eh.
Qed.

(** The first part of [unicode_normalize]: decomposition and ordering. *)
Lemma nfd_part compat depth h s src :
  Forall code_point src -> 72 * zlen src < 2 ^ 31 -> (6 <= depth)%nat -> dbuf_wf s -> contents s = [] -> error s = false ->
  let D := nfd_all T compat src in
  post (to_nfd_rec uninit depth compat h s src) (fun '(_, s') =>
    dbuf_wf s' /\ (error s' = true -> can_refuse) /\
    (error s' = false ->
     i32 (size s' / 4) = zlen D /\ int_cells (buf s') 0 (length D) = Ret D /\
     sort_cc D (zlen D) = Ret (canonical_order D))).
Proof using T_spec.
  intros Hsrc Hlen Hd Hwf Hc He0 D.
  eapply post_mono; [apply (to_nfd_rec_spec compat depth h s src _ Hwf ltac:(right; lia) (full_nfd _ _ _ Hsrc Hd))|].
  intros [h' s'] (Hwf' & _ & Hc' & Hf). split; [done|].
  destruct (nfd_all_leaves T T_spec compat src Hsrc) as [Hl Hz]. fold D in Hl, Hz. split.
  { intros He. destruct (Hf He) as [?|[?|Hbig]]; [congruence|done|]. exfalso.
    change (concat (map (nfd T compat) src)) with D in Hbig. rewrite Hc, zlen_nil, zlen_ints in Hbig. lia. }
  intros He. specialize (Hc' He). rewrite Hc in Hc'. cbn [app] in Hc'.
  change (concat (map (nfd T compat) src)) with D in Hc'.
  assert (size s' = 4 * zlen D) as Hsz.
  { rewrite <- zlen_ints, <- Hc'. by rewrite zlen_contents. }
  split; [|split].
  - rewrite Hsz, Z.mul_comm, Z.div_mul by done. unfold i32, u32. pose proof (zlen_nonneg D).
    rewrite Z.mod_small by lia. by decide_ifs lia.
  - apply (contents_ints s' D []); [done|by rewrite app_nil_r|by eapply leaves_u32].
  - apply sort_cc_eq, code_points_nonneg. by eapply leaves_code_points.
Qed.

Lemma normalize_nfd_post n depth h src :
  (n = UNICODE_NFD \/ n = UNICODE_NFKD) -> Forall code_point src -> 72 * zlen src < 2 ^ 31 -> (6 <= depth)%nat ->
  post (unicode_normalize uninit depth h src n) (fun '(_, dst, r) =>
    (dst = None /\ r = -1 /\ can_refuse) \/
    (dst = Some (canonical_order (nfd_all T (compat_of n) src)) /\
     r = zlen (canonical_order (nfd_all T (compat_of n) src)))).
Proof using T_spec.
  intros Hn Hsrc Hlen Hd. unfold unicode_normalize. pose proof (zlen_nonneg src).
  pose proof (dbuf_realloc_init h (4 * zlen src) ltac:(lia)) as Hr.
  destruct (dbuf_realloc h dbuf_init (4 * zlen src)) as [[h1 s1] r1]. destruct Hr as (Hwf & Hc & Hr).
  destruct Hr as [(-> & He & _)|[-> Hf]]; [|cbn; by left]. cbn [Z.eqb negb].
  rewrite bool_decide_false by (destruct Hn as [->| ->]; done). cbn [andb].
  replace (negb (Z.shiftr (norm_code n) 1 =? 0)) with (compat_of n) by (by destruct Hn as [->| ->]).
  apply post_bind. eapply post_mono; [by apply nfd_part|]. intros [h2 s2] (Hwf2 & Hf2 & H2). unfold dbuf_error.
  destruct (error s2); [apply post_ret; left; auto|]. destruct (H2 eq_refl) as (Hsz & Hi & Hs).
  set (D := nfd_all T (compat_of n) src) in *. rewrite Hsz.
  replace (Z.to_nat (zlen D)) with (length D) by (unfold zlen; lia). rewrite Hi. cbn [obind]. rewrite Hs. cbn [obind].
  replace (negb (Z.land (norm_code n) 1 =? 0)) with true by (by destruct Hn as [->| ->]).
  rewrite orb_true_r. apply post_ret. right. split; [done|]. unfold zlen. by rewrite canonical_order_perm.
Qed.

(** ** The composition loop *)

(** Insertions of characters of different classes commute. *)
Lemma insert_rev_comm x y r :
  combining_class y < combining_class x ->
  insert_rev y (insert_rev x r) = insert_rev x (insert_rev y r).
Proof using.
  intros Hyx. induction r as [|z r IH]; cbn [insert_rev].
  - replace (combining_class x <=? combining_class y) with false by lia.
    by replace (combining_class y <=? combining_class x) with true by lia.
  - destruct (Z.leb_spec (combining_class z) (combining_class x));
      destruct (Z.leb_spec (combining_class z) (combining_class y)); cbn [insert_rev];
      repeat match goal with |- context [?a <=? ?b] =>
        first [replace (a <=? b) with true by lia|replace (a <=? b) with false by lia] end; cbn [insert_rev];
      repeat match goal with |- context [?a <=? ?b] =>
        first [replace (a <=? b) with true by lia|replace (a <=? b) with false by lia] end; try done; try lia.
    by rewrite IH.
Qed.

Lemma order_prefix a x y : (forall acc, order acc x = order acc y) -> forall acc, order acc (a ++ x) = order acc (a ++ y).
Proof using.
  intros H. induction a as [|z a IH]; intros acc; [apply H|]. cbn [app order].
  destruct (_ =? 0); [by rewrite (IH [])|apply IH].
Qed.

(** A character moves before characters of lower classes. *)
Lemma order_move c m r acc :
  Forall (fun x => combining_class x <> 0 /\ combining_class x < combining_class c) m ->
  Forall (fun x => 0 <= x) m ->
  order acc (c :: m ++ r) = order acc (m ++ c :: r).
Proof using.
  intros Hm Hp. revert acc. induction m as [|x m IH]; intros acc; [done|].
  apply Forall_cons_iff in Hm as [[Hx Hlt] Hm]. apply Forall_cons_iff in Hp as [Hx0 Hp].
  specialize (IH Hm Hp). apply cc_nonneg in Hx0. cbn [app order] in *.
  replace (combining_class c =? 0) with false in * by lia. replace (combining_class x =? 0) with false by lia.
  rewrite <- IH. by rewrite insert_rev_comm.
Qed.

(** The part of the loop that is written, [o], and the part that is left, [r]:
    together they have the decomposition of the text, [e]. *)
Record compose_inv (compat : bool) (e o r : list Z) : Prop := {
  ci_same : canonical_order (nfd_all T compat (o ++ r)) = e;
  ci_order : in_order (o ++ r);
  ci_points : Forall code_point o;
  ci_marks : Forall (fun x => combining_class x <> 0 -> is_leaf T compat x = true) o;
  ci_rest : Forall (fun x => is_leaf T compat x = true /\ x <> 0x11a7) r
}.

Lemma in_order_suffix l k : in_order (l ++ k) -> in_order k.
Proof using.
  induction l as [|x l IH]; intros H; [done|]. apply IH. cbn [app in_order] in H.
  destruct (l ++ k); [done|apply H].
Qed.

(** Classes do not decrease in a run of marks in order. *)
Lemma in_order_marks m c r :
  in_order (m ++ c :: r) -> Forall (fun x => combining_class x <> 0) m -> combining_class c <> 0 ->
  Forall (fun x => combining_class x <= combining_class c) m.
Proof using.
  induction m as [|x m IH]; intros Ho Hm Hc; [constructor|]. apply Forall_cons_iff in Hm as [Hx Hm].
  assert (in_order (m ++ c :: r)) as Ho' by (eapply (in_order_suffix [x]); exact Ho).
  specialize (IH Ho' Hm Hc). constructor; [|done]. cbn [app in_order] in Ho.
  destruct m as [|y m]; cbn [app] in Ho; destruct Ho as [[H|H] _]; [done|done| |].
  - by apply Forall_cons_iff in Hm as [Hy _].
  - apply Forall_cons_iff in IH as [Hy _]. lia.
Qed.

Lemma in_order_prefix l k : in_order (l ++ k) -> in_order l.
Proof using.
  induction l as [|x l IH]; intros H; [done|]. destruct l as [|y l]; [done|].
  destruct H as [Hxy H]. split; [done|]. by apply IH.
Qed.

Lemma in_order_head s p k : in_order (s :: k) -> combining_class s = combining_class p -> in_order (p :: k).
Proof using. intros H E. destruct k as [|x k]; [done|]. cbn [in_order] in *. by rewrite <- E. Qed.

Lemma in_order_snoc l s p : in_order (l ++ [s]) -> combining_class p = 0 -> in_order (l ++ [p]).
Proof using.
  intros H Hp. apply in_order_app; [by eapply in_order_prefix|done|]. left. by left.
Qed.

Lemma in_order_join l x k : in_order (l ++ [x]) -> in_order (x :: k) -> in_order (l ++ x :: k).
Proof using.
  intros Hl Hk. induction l as [|y l IH]; [done|]. destruct l as [|z l].
  - destruct Hl as [Hyx _]. by split.
  - destruct Hl as [Hyz Hl]. split; [done|]. by apply IH.
Qed.

(** Removing a character after marks of lower classes, and replacing the starter before them. *)
Lemma in_order_compose o1 s m c r p :
  in_order (o1 ++ s :: m ++ c :: r) -> combining_class s = 0 -> combining_class p = 0 ->
  Forall (fun x => 0 <= x) r ->
  (m = [] \/ forall d, combining_class (List.last m d) < combining_class c) ->
  in_order (o1 ++ p :: m ++ r).
Proof using.
  intros Ho Hs Hp Hr Hm. apply in_order_join.
  - apply (in_order_snoc _ s); [|done]. eapply (in_order_prefix _ (m ++ c :: r)). by rewrite <- app_assoc.
  - apply in_order_suffix in Ho. change (s :: m ++ c :: r) with ((s :: m) ++ c :: r) in Ho.
    pose proof (in_order_suffix _ _ Ho) as Hcr. apply in_order_prefix in Ho.
    apply (in_order_head s p) in Ho; [|congruence]. destruct r as [|y r]; [by rewrite app_nil_r|].
    change (p :: m ++ y :: r) with ((p :: m) ++ y :: r). apply Forall_cons_iff in Hr as [Hy _].
    destruct Hcr as [Hcy Hcr]. apply in_order_app; [done|done|]. left.
    destruct (Z.eq_dec (combining_class y) 0) as [Hy0|Hy0]; [by left|right]. intros d.
    destruct Hm as [->|Hm]; [cbn; rewrite Hp; by apply cc_nonneg|].
    destruct m as [|z m]; [cbn; rewrite Hp; by apply cc_nonneg|].
    specialize (Hm d). change (List.last (p :: z :: m) d) with (List.last (z :: m) d). lia.
Qed.

(** What the search of a starter finds. *)
Definition starter_found (o : list Z) (last_cc : Z) (r : option Z) : Prop :=
  match r with
  | None => True
  | Some p =>
      p = -1 \/
      exists o1 s m, o = o1 ++ s :: m /\ p = zlen o1 /\ combining_class s = 0 /\
        Forall (fun x => combining_class x <> 0) m /\
        (m = [] \/ forall d, combining_class (List.last m d) < last_cc)
  end.

Lemma find_starter_loop o m rest lc last_cc fuel :
  Forall (fun x => 0 <= x) o -> Forall (fun x => combining_class x <> 0) m ->
  (m = [] /\ lc = last_cc \/ lc = 256 /\ forall d, combining_class (List.last m d) < last_cc) ->
  (length o < fuel)%nat ->
  post (iter fuel (find_starter (o ++ m ++ rest)) (zlen o - 1, lc)) (starter_found (o ++ m) last_cc).
Proof using.
  revert m lc fuel. induction o as [|s o IH] using rev_ind; intros m lc fuel Ho Hm Hlc Hf;
    (destruct fuel as [|fuel]; [lia|]); rewrite iter_S; unfold find_starter at 1.
  - change (zlen [] - 1) with (-1). cbn [Z.leb Z.compare obind]. apply post_ret. by left.
  - apply Forall_app in Ho as [Ho Hs]. apply Forall_cons_iff in Hs as [Hs _].
    rewrite zlen_app, zlen_1. replace (zlen o + 1 - 1) with (zlen o) by lia.
    pose proof (zlen_nonneg o). replace (0 <=? zlen o) with true by lia.
    rewrite <- (app_assoc o). cbn [app]. rewrite rd_mid. cbn [obind]. rewrite (get_cc s Hs). cbn [obind].
    destruct (Z.eqb_spec (combining_class s) 0) as [H0|H0].
    { cbn [obind]. apply post_ret. right. exists o, s, m. rewrite <- app_assoc. split; [done|]. split; [done|].
      split; [done|]. split; [done|]. destruct Hlc as [[-> _]|[_ Hlc]]; [by left|by right]. }
    destruct (Z.leb_spec lc (combining_class s)) as [Hle|Hgt]; [by apply post_ret|]. cbn [obind].
    rewrite length_app in Hf. cbn [length] in Hf.
    specialize (IH (s :: m) 256 fuel Ho ltac:(by constructor)). cbn [app] in IH.
    rewrite <- (app_assoc o [s] m). cbn [app]. apply IH; [|lia]. right. split; [done|]. intros d.
    destruct Hlc as [[-> ->]|[-> Hlc]]; [exact Hgt|]. destruct m as [|y m]; [|apply (Hlc d)].
    specialize (Hlc s). cbn in *. lia.
Qed.

Lemma uninit_pair : length (uninit_array uninit 2) = 2%nat.
Proof using. unfold uninit_array. by rewrite length_map, length_seq. Qed.

(** The character at [i] goes to the end of the output. *)
Lemma compose_next (o g r : list Z) c :
  exists g', wr (o ++ g ++ c :: r) (zlen o) c = Ret ((o ++ [c]) ++ g' ++ r) /\ zlen g' = zlen g.
Proof using.
  destruct g as [|y g]; cbn [app].
  - exists []. rewrite wr_app by done. split; [by rewrite <- app_assoc|done].
  - exists (g ++ [c]). rewrite wr_app by done. rewrite zlen_app, !zlen_cons, zlen_nil. split; [|lia].
    by rewrite <- !app_assoc.
Qed.

Lemma compose_inv_next compat e o c r : compose_inv compat e o (c :: r) -> compose_inv compat e (o ++ [c]) r.
Proof using.
  intros [H1 H2 H3 H4 H5]. apply Forall_cons_iff in H5 as [[Hl _] H5].
  constructor; try (rewrite <- app_assoc; done); [| |done]; apply Forall_app; (split; [done|]);
    (constructor; [|constructor]); [by apply is_leaf_range in Hl|done].
Qed.

Lemma marks_below m c r :
  in_order (m ++ c :: r) -> Forall (fun x => combining_class x <> 0) m ->
  (m = [] \/ forall d, combining_class (List.last m d) < combining_class c) ->
  Forall (fun x => combining_class x <> 0 /\ combining_class x < combining_class c) m.
Proof using.
  intros Ho Hm Hlast. destruct m as [|z m _] using rev_ind; [constructor|].
  destruct Hlast as [Hl|Hl]; [by destruct m|]. specialize (Hl 0). rewrite List.last_last in Hl.
  apply Forall_app in Hm as [Hm Hz]. apply Forall_cons_iff in Hz as [Hz _]. rewrite <- app_assoc in Ho.
  pose proof (in_order_marks m z (c :: r) Ho Hm Hz) as Hle. apply Forall_app.
  split; [|by repeat constructor]. rewrite List.Forall_forall in *. intros x Hx.
  specialize (Hle x Hx). cbv beta in Hle. split; [by apply Hm|lia].
Qed.

Lemma compose_inv_compose compat e o1 s m c r p :
  compose_inv compat e (o1 ++ s :: m) (c :: r) -> combining_class s = 0 -> combining_class p = 0 ->
  0 < p < 0x110000 -> nfd T compat p = nfd T compat s ++ nfd T compat c ->
  Forall (fun x => combining_class x <> 0) m ->
  (m = [] \/ forall d, combining_class (List.last m d) < combining_class c) ->
  compose_inv compat e (o1 ++ p :: m) r.
Proof using.
  intros [H1 H2 H3 H4 H5] Hs Hp Hpr Hn Hm Hlast.
  apply Forall_cons_iff in H5 as [[Hc _] H5].
  apply Forall_app in H3 as [H3 H3']. apply Forall_cons_iff in H3' as [_ H3'].
  apply Forall_app in H4 as [H4 H4']. apply Forall_cons_iff in H4' as [_ H4'].
  assert (Forall (fun x => is_leaf T compat x = true) m) as Hml.
  { rewrite List.Forall_forall in *. intros x Hx. apply H4'; [done|by apply Hm]. }
  rewrite <- app_assoc in H1, H2. cbn [app] in H1, H2.
  constructor; [|rewrite <- app_assoc; cbn [app]; eapply in_order_compose; [exact H2|done..| |done]| | |done].
  - rewrite <- H1, <- app_assoc. unfold canonical_order. cbn [app]. rewrite !nfd_all_app.
    apply order_prefix. intros acc. unfold nfd_all. cbn [map concat]. rewrite !map_app, !concat_app. cbn [map concat].
    rewrite Hn, (nfd_leaf T compat c Hc), <- !app_assoc. apply order_prefix. clear acc. intros acc.
    change (concat (map (nfd T compat) m)) with (nfd_all T compat m). rewrite (nfd_all_leaf T compat m Hml). cbn [app].
    apply order_move.
    + apply (marks_below m c r); [|done|done]. apply in_order_suffix in H2.
      by apply (in_order_suffix [s]).
    + apply code_points_nonneg. by eapply leaves_code_points.
  - eapply Forall_impl; [exact H5|]. cbn beta. intros x [Hx _]. apply is_leaf_range in Hx. lia.
  - apply Forall_app. split; [done|]. by constructor; [lia|].
  - apply Forall_app. split; [done|]. constructor; [|done]. by rewrite Hp.
Qed.

Lemma compose_loop compat e o g r fuel :
  compose_inv compat e o r -> o <> [] -> (length r < fuel)%nat ->
  post (iter fuel (compose_step uninit (zlen o + zlen g + zlen r)) (zlen o + zlen g, zlen o, o ++ g ++ r))
    (fun '(out_len, b) => exists o' g', b = o' ++ g' /\ out_len = zlen o' /\ compose_inv compat e o' []).
Proof using T_spec.
  revert o g fuel. induction r as [|c r IH]; intros o g fuel Hinv Hne Hf;
    (destruct fuel as [|fuel]; [cbn in Hf; lia|]); rewrite iter_S; unfold compose_step at 1.
  - rewrite zlen_nil. replace (zlen o + zlen g <? _) with false by lia. cbn [obind]. apply post_ret.
    exists o, g. by rewrite app_nil_r.
  - rewrite zlen_cons. pose proof (zlen_nonneg r). replace (zlen o + zlen g <? _) with true by lia.
    cbn [length] in Hf. pose proof (Forall_inv (ci_rest _ _ _ _ Hinv)) as [Hcl Hcf].
    pose proof (is_leaf_range T compat c Hcl) as Hc.
    assert (rd (o ++ g ++ c :: r) (zlen o + zlen g) = Ret c) as Erd
      by (rewrite app_assoc; apply rd_app_mid; by rewrite zlen_app).
    destruct (compose_next o g r c) as (gn & Enext & Hgn).
    rewrite Erd. cbn [obind]. rewrite Enext. cbn [obind]. rewrite (get_cc c) by lia. cbn [obind].
    pose proof (find_starter_loop o [] (g ++ c :: r) (combining_class c) (combining_class c)
      (S (length (o ++ g ++ c :: r))) (code_points_nonneg _ (ci_points _ _ _ _ Hinv)) ltac:(constructor)
      ltac:(by left) ltac:(rewrite length_app; lia)) as Hfind.
    cbn [app] in Hfind. apply post_inv in Hfind as (p & -> & Hp). cbn [obind]. rewrite app_nil_r in Hp.
    assert (post (iter fuel (compose_step uninit (zlen o + zlen g + (1 + zlen r)))
        (zlen o + zlen g + 1, zlen o + 1, (o ++ [c]) ++ gn ++ r))
      (fun '(out_len, b) => exists o' g', b = o' ++ g' /\ out_len = zlen o' /\ compose_inv compat e o' [])) as Hgo.
    { specialize (IH (o ++ [c]) gn fuel (compose_inv_next _ _ _ _ _ Hinv) ltac:(by destruct o) ltac:(lia)).
      rewrite zlen_app, zlen_1, Hgn in IH.
      replace (zlen o + 1 + zlen g + zlen r) with (zlen o + zlen g + (1 + zlen r)) in IH by lia.
      by replace (zlen o + 1 + zlen g) with (zlen o + zlen g + 1) in IH by lia. }
    destruct p as [p|]; [|exact Hgo]. destruct (Z.leb_spec 0 p) as [Hp0|Hp0]; [|exact Hgo].
    destruct Hp as [->|(o1 & s & m & -> & -> & Hs & Hm & Hlast)]; [lia|].
    rewrite <- (app_assoc o1). cbn [app]. rewrite rd_mid. cbn [obind].
    pose proof (ci_points _ _ _ _ Hinv) as Hpts. apply Forall_app in Hpts as [_ Hpts].
    pose proof (Forall_inv Hpts) as Hsr. cbv beta in Hsr. cbv beta in Hc.
    pose proof (compose_pair_post T T_spec (uninit_array uninit 2) s c uninit_pair Hsr Hc Hcf Hs) as Hcomp.
    apply post_inv in Hcomp as (q & -> & Hq). cbn [obind].
    destruct (Z.eqb_spec q 0) as [->|Hq0]; cbn [negb]; [exact Hgo|].
    destruct Hq as [?|(Hqr & Hqc & Hqn)]; [done|]. rewrite wr_app by done. cbn [obind].
    specialize (IH (o1 ++ q :: m) (g ++ [c]) fuel
      (compose_inv_compose _ _ _ _ _ _ _ _ Hinv Hs Hqc Hqr (Hqn compat) Hm Hlast) ltac:(by destruct o1) ltac:(lia)).
    rewrite !zlen_app, zlen_cons, zlen_1 in *.
    replace (zlen o1 + (1 + zlen m) + (zlen g + 1) + zlen r) with (zlen o1 + (1 + zlen m) + zlen g + (1 + zlen r)) in IH by lia.
    replace (zlen o1 + (1 + zlen m) + (zlen g + 1)) with (zlen o1 + (1 + zlen m) + zlen g + 1) in IH by lia.
    rewrite <- !app_assoc in IH. exact IH.
Qed.

Lemma nfd_all_filler compat src :
  Forall code_point src -> ~ In 0x11a7 src -> ~ In 0x11a7 (nfd_all T compat src).
Proof using T_spec.
  intros Hs Hn Hin. unfold nfd_all in Hin. apply in_concat in Hin as (l & Hl & Hin).
  apply in_map_iff in Hl as (c & <- & Hc). rewrite List.Forall_forall in Hs. specialize (Hs c Hc). cbv beta in Hs.
  pose proof (nfd_eq T T_spec compat c 6 Hs ltac:(lia)) as E. apply (full_filler T T_spec compat c _ Hs) in E; [done|].
  by intros ->.
Qed.

(** The decomposed text starts the loop. *)
Lemma compose_inv_start compat src x e :
  Forall code_point src -> ~ In 0x11a7 src ->
  canonical_order (nfd_all T compat src) = x :: e ->
  compose_inv compat (x :: e) [x] e.
Proof using T_spec.
  intros Hs Hn He. destruct (nfd_all_leaves T T_spec compat src Hs) as [Hl _].
  pose proof (nfd_all_filler compat src Hs Hn) as Hf.
  pose proof (canonical_order_in_order _ (code_points_nonneg _ (leaves_code_points _ _ Hl))) as Ho.
  assert (Forall (fun y => is_leaf T compat y = true /\ y <> 0x11a7) (x :: e)) as Hle.
  { rewrite <- He, canonical_order_perm. rewrite List.Forall_forall in *. intros y Hy.
    split; [by apply Hl|]. by intros ->. }
  rewrite He in Ho. apply Forall_cons_iff in Hle as [[Hx Hxf] Hle]. constructor.
  - cbn [app]. rewrite nfd_all_leaf; [by apply canonical_order_id|]. constructor; [done|].
    eapply Forall_impl; [exact Hle|]. cbn beta. tauto.
  - exact Ho.
  - constructor; [by apply is_leaf_range in Hx|constructor].
  - by repeat constructor.
  - done.
Qed.

Definition normalized (compat : bool) (src : list Z) (x : heap * option (list Z) * Z) : Prop :=
  let '(_, dst, r) := x in
  (dst = None /\ r = -1 /\ can_refuse) \/
  exists b, dst = Some b /\ 0 <= r <= zlen b /\
    let out := take (Z.to_nat r) b in
    Forall code_point out /\
    canonical_order (nfd_all T compat out) = canonical_order (nfd_all T compat src).

Lemma latin1_post h1 s1 src :
  Forall code_point src -> dbuf_wf s1 -> 4 * zlen src <= allocated_size s1 ->
  post (let* b := wr_slice (buf s1) 0 (concat (map (le_bytes 4) src)) in
        let* dst := int_cells b 0 (length src) in
        Ret (h1, Some dst, zlen src)) (normalized false src).
Proof using.
  intros Hs (H1 & H2 & H3) Ha. change (concat (map (le_bytes 4) src)) with (ints src).
  pose proof (zlen_nonneg src). rewrite wr_slice_in by (rewrite ?zlen_ints; lia). cbn [obind].
  change (Z.to_nat 0) with 0%nat. cbn [take app].
  rewrite (int_cells_at _ 0 src []); [|done| |].
  - cbn [obind]. apply post_ret. right. exists src. split; [done|]. split; [lia|]. cbn zeta.
    rewrite take_ge by (unfold zlen; lia). by split.
  - rewrite app_nil_r. apply (block_at_mid [] (ints src)).
  - eapply Forall_impl; [exact Hs|]. unfold in_u32. cbn beta. lia.
Qed.

Lemma normalize_nfc_post n depth h src :
  (n = UNICODE_NFC \/ n = UNICODE_NFKC) -> Forall code_point src -> ~ In 0x11a7 src ->
  72 * zlen src < 2 ^ 31 -> (6 <= depth)%nat ->
  post (unicode_normalize uninit depth h src n) (normalized (compat_of n) src).
Proof using T_spec.
  intros Hn Hsrc Hf Hlen Hd. unfold unicode_normalize. pose proof (zlen_nonneg src).
  pose proof (dbuf_realloc_init h (4 * zlen src) ltac:(lia)) as Hr.
  destruct (dbuf_realloc h dbuf_init (4 * zlen src)) as [[h1 s1] r1]. destruct Hr as (Hwf & Hc & Hr).
  destruct Hr as [(-> & He & Ha)|[-> Hf1]]; [|cbn; by left]. cbn [Z.eqb negb].
  destruct (bool_decide (n = UNICODE_NFC) && _) eqn:El.
  { apply andb_true_iff in El as [El _]. apply bool_decide_eq_true in El as ->. by apply latin1_post. }
  clear El. replace (negb (Z.shiftr (norm_code n) 1 =? 0)) with (compat_of n) by (by destruct Hn as [->| ->]).
  apply post_bind. eapply post_mono; [by apply nfd_part|]. intros [h2 s2] (Hwf2 & Hf2 & H2). unfold dbuf_error.
  destruct (error s2); [apply post_ret; left; auto|]. destruct (H2 eq_refl) as (Hsz & Hi & Hs).
  set (D := nfd_all T (compat_of n) src) in *. rewrite Hsz.
  replace (Z.to_nat (zlen D)) with (length D) by (unfold zlen; lia). rewrite Hi. cbn [obind]. rewrite Hs. cbn [obind].
  replace (negb (Z.land (norm_code n) 1 =? 0)) with false by (by destruct Hn as [->| ->]). rewrite orb_false_r.
  assert (zlen (canonical_order D) = zlen D) as HzE by (unfold zlen; by rewrite canonical_order_perm).
  assert (forall x e, canonical_order D = x :: e -> compose_inv (compat_of n) (x :: e) [x] e) as Hstart
    by (intros; by apply (compose_inv_start _ src)).
  rewrite <- HzE. replace (length D) with (length (canonical_order D)) by (unfold zlen in HzE; lia).
  unfold normalized. fold D. destruct (canonical_order D) as [|x e] eqn:Ee.
  - cbn [Z.leb]. apply post_ret. right. exists []. split; [done|]. split; [done|]. by split.
  - specialize (Hstart x e eq_refl). rewrite zlen_cons. pose proof (zlen_nonneg e). cbn [length].
    destruct (Z.leb_spec (1 + zlen e) 1) as [H1|H1].
    + apply post_ret. right. exists (x :: e). split; [done|]. split; [rewrite zlen_cons; lia|].
      assert (e = []) as -> by (destruct e; [done|rewrite zlen_cons in *; pose proof (zlen_nonneg e); lia]).
      cbn zeta. destruct Hstart as [Hsame _ Hp _ _]. by split.
    + apply post_bind. eapply post_mono.
      * pose proof (compose_loop (compat_of n) (x :: e) [x] [] e (S (S (length e))) Hstart ltac:(done) ltac:(lia)) as Hl.
        rewrite zlen_nil, zlen_1, Z.add_0_r in Hl. exact Hl.
      * intros [out_len b] (o' & g' & -> & -> & Hinv). apply post_ret. right. eexists. split; [done|].
        pose proof (zlen_nonneg o'). pose proof (zlen_nonneg g'). split; [rewrite zlen_app; lia|]. cbn zeta.
        replace (Z.to_nat (zlen o')) with (length o') by (unfold zlen; lia). rewrite take_app_length.
        destruct Hinv as [Hsame _ Hp _ _]. rewrite app_nil_r in Hsame. by split.
Qed.
End Decompose.

(** * The specification *)

(** [l] is the decomposition of one step, the empty list when there is none. *)
Definition decomposition (compat : bool) (c : Z) (l : list Z) : Prop :=
  exists res, unicode_decomp_char (replicate UNICODE_DECOMP_LEN_MAX 0) c compat = Ret (res, zlen l) /\
    take (length l) res = l.

(** The full decomposition of a code point. *)
Inductive decomposes (compat : bool) : Z -> list Z -> Prop :=
  | decomposes_hangul c : is_hangul c = true -> decomposes compat c (hangul_jamo c)
  | decomposes_none c : is_hangul c = false -> decomposition compat c [] -> decomposes compat c [c]
  | decomposes_step c x l ls :
      is_hangul c = false -> decomposition compat c (x :: l) ->
      Forall2 (decomposes compat) (x :: l) ls -> decomposes compat c (concat ls).

Lemma full_decomposes T (HT : tree_spec T) compat d c l : full T compat d c = Ret l -> decomposes compat c l.
Proof.
  revert c l. induction d as [|d IH]; intros c l E; [done|]. rewrite full_S in E.
  destruct (is_hangul c) eqn:Eh; [injection E as <-; by constructor|].
  destruct (unicode_decomp_char_spec T HT (replicate UNICODE_DECOMP_LEN_MAX 0) c compat)
    as (k & res & Ek & _ & Ed & Ht); [by rewrite length_replicate|]. rewrite Ek in E. cbn [obind] in E.
  assert (decomposition compat c k) as Hk by (by exists res). destruct k as [|x k].
  - injection E as <-. by apply decomposes_none.
  - apply ofold_full in E as (ls & Hls & ->). cbn [app]. eapply decomposes_step; [done|exact Hk|].
    eapply Forall2_impl; [exact Hls|]. apply IH.
Qed.

Lemma nfd_all_decomposes T (HT : tree_spec T) compat src :
  Forall (fun c => 0 <= c < 0x110000) src ->
  exists ls, Forall2 (decomposes compat) src ls /\ nfd_all T compat src = concat ls.
Proof.
  intros Hs. exists (map (nfd T compat) src). split; [|done].
  induction Hs as [|c src Hc _ IH]; cbn [map]; constructor; [|done].
  apply (full_decomposes T HT compat 6). by apply nfd_eq.
Qed.

(** C26: [unicode_normalize] with NFD or NFKD on a list of code points, under any
    allocator and any contents of its local arrays, reads and writes in bounds
    and ends within a recursion of depth six.  It returns -1 and a null result
    only with an allocator that refuses requests, and otherwise the full
    decompositions of the characters, one after the other, in canonical order. *)
Theorem unicode_normalize_decomposes `{AL : Allocator} uninit n depth h src :
  n = UNICODE_NFD \/ n = UNICODE_NFKD ->
  Forall code_point src -> 72 * zlen src < 2 ^ 31 -> (6 <= depth)%nat ->
  post (unicode_normalize uninit depth h src n) (fun '(_, dst, r) =>
    (dst = None /\ r = -1 /\ can_refuse) \/
    exists ls, Forall2 (decomposes (compat_of n)) src ls /\
      dst = Some (canonical_order (concat ls)) /\ r = zlen (concat ls)).
Proof.
  intros Hn Hs Hl Hd. destruct tree_spec_exists as [T HT].
  eapply post_mono; [by apply (normalize_nfd_post uninit T HT)|]. intros [[h' dst] r] [?|[-> ->]]; [by left|right].
  destruct (nfd_all_decomposes T HT (compat_of n) src Hs) as (ls & Hls & ->). exists ls. split_and!; [done..|].
  unfold zlen. by rewrite canonical_order_perm.
Qed.

Lemma unicode_normalize_decomposes_witness :
  (* e with acute, dot below *)
  unicode_normalize (AL := alloc_always) (fun _ => 0) 6 tt [0xe9; 0x323] UNICODE_NFD
    = Ret (tt, Some [0x65; 0x323; 0x301], 3) /\
  post (unicode_normalize (AL := alloc_always) (fun _ => 0) 6 tt [0xe9; 0x323] UNICODE_NFD) (fun '(_, dst, r) =>
    (dst = None /\ r = -1 /\ @can_refuse alloc_always) \/
    exists ls, Forall2 (decomposes false) [0xe9; 0x323] ls /\
      dst = Some (canonical_order (concat ls)) /\ r = zlen (concat ls)).
Proof.
  split; [vm_compute; reflexivity|].
  apply (unicode_normalize_decomposes (AL := alloc_always) (fun _ => 0) UNICODE_NFD 6 tt [0xe9; 0x323]).
  - left. reflexivity.
  - repeat constructor; lia.
  - vm_compute. reflexivity.
  - repeat constructor.
Defined.

(** C40: A text that [unicode_normalize] has put in NFD or NFKD is left unchanged
    by a second call, whatever the allocator and the local arrays then hold:
    the call returns the same text or, with an allocator that refuses requests,
    reports that an allocation failed. *)
Theorem unicode_normalize_idempotent `{AL : Allocator} uninit n depth h src :
  n = UNICODE_NFD \/ n = UNICODE_NFKD ->
  Forall code_point src -> 72 * zlen src < 2 ^ 31 -> (6 <= depth)%nat ->
  post (unicode_normalize uninit depth h src n) (fun '(_, dst, _) =>
    forall d, dst = Some d -> 72 * zlen d < 2 ^ 31 ->
    forall uninit2 depth2 h2, (6 <= depth2)%nat ->
    post (unicode_normalize uninit2 depth2 h2 d n) (fun '(_, dst2, r2) =>
      (dst2 = None /\ r2 = -1 /\ can_refuse) \/ (dst2 = Some d /\ r2 = zlen d))).
Proof.
  intros Hn Hs Hl Hd. destruct tree_spec_exists as [T HT].
  eapply post_mono; [by apply (normalize_nfd_post uninit T HT)|]. intros [[h' dst] r] Hr d Hdst Hld uninit2 depth2 h2 Hd2.
  destruct Hr as [[-> _]|[E _]]; [done|]. rewrite Hdst in E. injection E as ->.
  destruct (nfd_all_leaves T HT (compat_of n) src Hs) as [Hlv _].
  set (D := nfd_all T (compat_of n) src) in *.
  assert (Forall (fun x => is_leaf T (compat_of n) x = true) (canonical_order D)) as Hlv'
    by by rewrite canonical_order_perm.
  pose proof (leaves_code_points T (compat_of n) _ Hlv') as Hcp.
  eapply post_mono; [by apply (normalize_nfd_post uninit2 T HT)|]. intros [[h3 dst2] r2].
  rewrite (nfd_all_leaf T _ _ Hlv'), canonical_order_id.
  - done.
  - apply canonical_order_in_order, code_points_nonneg. by apply (leaves_code_points T (compat_of n)).
Qed.

Lemma unicode_normalize_idempotent_witness :
  unicode_normalize (AL := alloc_always) (fun _ => 0) 6 tt [0x1e69] UNICODE_NFKD
    = Ret (tt, Some [0x73; 0x323; 0x307], 3) /\
  post (unicode_normalize (AL := alloc_always) (fun _ => 0) 6 tt [0x1e69] UNICODE_NFKD) (fun '(_, dst, _) =>
    forall d, dst = Some d -> 72 * zlen d < 2 ^ 31 ->
    forall uninit2 depth2 h2, (6 <= depth2)%nat ->
    post (unicode_normalize (AL := alloc_always) uninit2 depth2 h2 d UNICODE_NFKD) (fun '(_, dst2, r2) =>
      (dst2 = None /\ r2 = -1 /\ @can_refuse alloc_always) \/ (dst2 = Some d /\ r2 = zlen d))).
Proof.
  split; [vm_compute; reflexivity|].
  apply (unicode_normalize_idempotent (AL := alloc_always) (fun _ => 0) UNICODE_NFKD 6 tt [0x1e69]).
  - right. reflexivity.
  - repeat constructor; lia.
  - vm_compute. reflexivity.
  - repeat constructor.
Defined.

(** C5: [unicode_normalize] with NFC or NFKC, on a list of code points other than
    U+11A7, under any allocator, reads and writes in bounds and ends; it
    fails only with an allocator that refuses requests, and otherwise its result
    is a list of code points equivalent to the source, canonically for NFC and by
    compatibility for NFKC: the full decompositions of the two, canonical or
    compatible, in canonical order, are the same. *)
Theorem unicode_normalize_equivalent `{AL : Allocator} uninit n depth h src :
  n = UNICODE_NFC \/ n = UNICODE_NFKC ->
  Forall code_point src -> ~ In 0x11a7 src -> 72 * zlen src < 2 ^ 31 -> (6 <= depth)%nat ->
  post (unicode_normalize uninit depth h src n) (fun '(_, dst, r) =>
    (dst = None /\ r = -1 /\ can_refuse) \/
    exists b, dst = Some b /\ 0 <= r <= zlen b /\
      let out := take (Z.to_nat r) b in
      Forall code_point out /\
      exists ls ks, Forall2 (decomposes (compat_of n)) src ls /\ Forall2 (decomposes (compat_of n)) out ks /\
        canonical_order (concat ks) = canonical_order (concat ls)).
Proof.
  intros Hn Hs Hf Hl Hd. destruct tree_spec_exists as [T HT].
  eapply post_mono; [by apply (normalize_nfc_post uninit T HT)|].
  intros [[h' dst] r] [?|(b & -> & Hr & Hout & E)]; [by left|right].
  exists b. split; [done|]. split; [done|]. cbn zeta. split; [done|].
  destruct (nfd_all_decomposes T HT (compat_of n) src Hs) as (ls & Hls & Els).
  destruct (nfd_all_decomposes T HT (compat_of n) _ Hout) as (ks & Hks & Eks).
  exists ls, ks. split; [done|]. split; [done|]. by rewrite <- Els, <- Eks.
Qed.

Lemma unicode_normalize_equivalent_witness :
  unicode_normalize (AL := alloc_always) (fun _ => 0) 6 tt [0x73; 0x307; 0x323] UNICODE_NFC
    = Ret (tt, Some [0x1e69; 0x323; 0x307], 1) /\
  post (unicode_normalize (AL := alloc_always) (fun _ => 0) 6 tt [0x73; 0x307; 0x323] UNICODE_NFC) (fun '(_, dst, r) =>
    (dst = None /\ r = -1 /\ @can_refuse alloc_always) \/
    exists b, dst = Some b /\ 0 <= r <= zlen b /\
      let out := take (Z.to_nat r) b in
      Forall code_point out /\
      exists ls ks, Forall2 (decomposes false) [0x73; 0x307; 0x323] ls /\ Forall2 (decomposes false) out ks /\
        canonical_order (concat ks) = canonical_order (concat ls)).
Proof.
  split; [vm_compute; reflexivity|].
  apply (unicode_normalize_equivalent (AL := alloc_always) (fun _ => 0) UNICODE_NFC 6 tt [0x73; 0x307; 0x323]).
  - left. reflexivity.
  - repeat constructor; lia.
  - cbn. lia.
  - vm_compute. reflexivity.
  - repeat constructor.
Defined.

(** U+11A7, which is not a trailing consonant, disappears after an LV syllable:
    [compose_pair] takes it for the trailing consonant of index 0. *)
Example compose_pair_drops_11a7 :
  unicode_normalize (AL := alloc_always) (fun _ => 0) 6 tt [0xac00; 0x11a7] UNICODE_NFC
  = Ret (tt, Some [0xac00; 0x1161; 0x11a7], 1).
Proof. vm_compute. reflexivity. Qed.
