(* ===== verification/Regexp.v ===== *)
(** The parts of [libregexp.c] that the compiler and the matcher of regular
    expressions share: the opcodes, the header of a compiled expression, the
    flags, the byte swap of a compiled expression, and the classes of characters
    of [libregexp.h]. *)
From Stdlib Require Import ZArith Lia Bool List.
From stdpp Require Import base tactics list numbers option.
From S2P Require Import Prelude Alloc CaseConv.

(** * Opcodes *)

Inductive REOPCodeEnum :=
  | REOP_invalid
  | REOP_char8
  | REOP_char16
  | REOP_char32
  | REOP_dot
  | REOP_any
  | REOP_line_start
  | REOP_line_end
  | REOP_goto
  | REOP_split_goto_first
  | REOP_split_next_first
  | REOP_match
  | REOP_save_start
  | REOP_save_end
  | REOP_save_reset
  | REOP_loop
  | REOP_push_i32
  | REOP_drop
  | REOP_word_boundary
  | REOP_not_word_boundary
  | REOP_back_reference
  | REOP_backward_back_reference
  | REOP_range
  | REOP_range32
  | REOP_lookahead
  | REOP_negative_lookahead
  | REOP_push_char_pos
  | REOP_check_advance
  | REOP_prev
  | REOP_simple_greedy_quant.

#[export] Instance REOPCodeEnum_eq_dec : EqDecision REOPCodeEnum.
Proof. solve_decision. Defined.

(** The opcodes of [libregexp-opcode.h] in order, with their sizes. *)
Definition reopcode_list : list (REOPCodeEnum * Z) :=
  [(REOP_invalid, 1); (REOP_char8, 2); (REOP_char16, 3); (REOP_char32, 5); (REOP_dot, 1);
   (REOP_any, 1); (REOP_line_start, 1); (REOP_line_end, 1); (REOP_goto, 5);
   (REOP_split_goto_first, 5); (REOP_split_next_first, 5); (REOP_match, 1); (REOP_save_start, 2);
   (REOP_save_end, 2); (REOP_save_reset, 3); (REOP_loop, 5); (REOP_push_i32, 5); (REOP_drop, 1);
   (REOP_word_boundary, 1); (REOP_not_word_boundary, 1); (REOP_back_reference, 2);
   (REOP_backward_back_reference, 2); (REOP_range, 3); (REOP_range32, 3); (REOP_lookahead, 5);
   (REOP_negative_lookahead, 5); (REOP_push_char_pos, 1); (REOP_check_advance, 1);
   (REOP_prev, 1); (REOP_simple_greedy_quant, 17)].

Definition REOP_COUNT : Z := 30.

(** The value of an enumeration constant, and the constant of a byte. *)
Definition reop_code (op : REOPCodeEnum) : Z :=
  match op with
  | REOP_invalid => 0 | REOP_char8 => 1 | REOP_char16 => 2 | REOP_char32 => 3
  | REOP_dot => 4 | REOP_any => 5 | REOP_line_start => 6 | REOP_line_end => 7
  | REOP_goto => 8 | REOP_split_goto_first => 9 | REOP_split_next_first => 10
  | REOP_match => 11 | REOP_save_start => 12 | REOP_save_end => 13 | REOP_save_reset => 14
  | REOP_loop => 15 | REOP_push_i32 => 16 | REOP_drop => 17 | REOP_word_boundary => 18
  | REOP_not_word_boundary => 19 | REOP_back_reference => 20
  | REOP_backward_back_reference => 21 | REOP_range => 22 | REOP_range32 => 23
  | REOP_lookahead => 24 | REOP_negative_lookahead => 25 | REOP_push_char_pos => 26
  | REOP_check_advance => 27 | REOP_prev => 28 | REOP_simple_greedy_quant => 29
  end.
Coercion reop_code : REOPCodeEnum >-> Z.

Definition reop_of (opcode : Z) : option REOPCodeEnum :=
  if opcode <? 0 then None else fst <$> reopcode_list !! Z.to_nat opcode.

Definition reopcode_info : list Z := map snd reopcode_list.

(** [reopcode_info[opcode].size]. *)
Definition reop_size (opcode : Z) : outcome Z := rd reopcode_info opcode.

(** * Constants *)

Definition CAPTURE_COUNT_MAX : Z := 255.
Definition STACK_SIZE_MAX : Z := 255.
Definition CP_LS : Z := 0x2028.
Definition CP_PS : Z := 0x2029.
Definition TMP_BUF_SIZE : Z := 128.

Definition RE_HEADER_FLAGS : Z := 0.
Definition RE_HEADER_CAPTURE_COUNT : Z := 2.
Definition RE_HEADER_STACK_SIZE : Z := 3.
Definition RE_HEADER_BYTECODE_LEN : Z := 4.
Definition RE_HEADER_LEN : Z := 8.

Definition LRE_FLAG_GLOBAL : Z := Z.shiftl 1 0.
Definition LRE_FLAG_IGNORECASE : Z := Z.shiftl 1 1.
Definition LRE_FLAG_MULTILINE : Z := Z.shiftl 1 2.
Definition LRE_FLAG_DOTALL : Z := Z.shiftl 1 3.
Definition LRE_FLAG_UNICODE : Z := Z.shiftl 1 4.
Definition LRE_FLAG_STICKY : Z := Z.shiftl 1 5.
Definition LRE_FLAG_INDICES : Z := Z.shiftl 1 6.
Definition LRE_FLAG_NAMED_GROUPS : Z := Z.shiftl 1 7.
Definition LRE_FLAG_UNICODE_SETS : Z := Z.shiftl 1 8.

(** [(flags & mask) != 0]. *)
Definition flag_set (flags mask : Z) : bool := negb (Z.land flags mask =? 0).

(** * Classes of characters *)

Definition lre_is_digit (c : Z) : bool := (48 <=? c) && (c <=? 57).

(** The ranges without their leading count. *)
Definition char_range_d : list Z := [0x0030; 0x0039 + 1].
Definition char_range_s : list Z :=
  [0x0009; 0x000D + 1; 0x0020; 0x0020 + 1; 0x00A0; 0x00A0 + 1; 0x1680; 0x1680 + 1;
   0x2000; 0x200A + 1; 0x2028; 0x2029 + 1; 0x202F; 0x202F + 1; 0x205F; 0x205F + 1;
   0x3000; 0x3000 + 1; 0xFEFF; 0xFEFF + 1].
Definition char_range_w : list Z :=
  [0x0030; 0x0039 + 1; 0x0041; 0x005A + 1; 0x005F; 0x005F + 1; 0x0061; 0x007A + 1].

Inductive CharRangeEnum :=
  | CHAR_RANGE_d | CHAR_RANGE_D | CHAR_RANGE_s | CHAR_RANGE_S | CHAR_RANGE_w | CHAR_RANGE_W.

(** [char_range_table[c >> 1]] and [c & 1]. *)
Definition char_range_table (c : CharRangeEnum) : list Z :=
  match c with
  | CHAR_RANGE_d | CHAR_RANGE_D => char_range_d
  | CHAR_RANGE_s | CHAR_RANGE_S => char_range_s
  | CHAR_RANGE_w | CHAR_RANGE_W => char_range_w
  end.
Definition char_range_invert (c : CharRangeEnum) : bool :=
  match c with
  | CHAR_RANGE_D | CHAR_RANGE_S | CHAR_RANGE_W => true
  | _ => false
  end.

Definition lre_is_space (c : Z) : outcome bool :=
  let n := zlen char_range_s / 2 in
  iter (S (Z.to_nat n)) (fun i =>
    if i <? n then
      let* low := rd char_range_s (2 * i) in
      if c <? low then Ret (inr false)
      else
        let* high := rd char_range_s (2 * i + 1) in
        if c <? high then Ret (inr true) else Ret (inl (i + 1))
    else Ret (inr false)) 0.

Definition lre_id_start_table_ascii : list Z := [0x00000000; 0x00000010; 0x87FFFFFE; 0x07FFFFFE].
Definition lre_id_continue_table_ascii : list Z := [0x00000000; 0x03FF0010; 0x87FFFFFE; 0x07FFFFFE].

(** [(table[c >> 5] >> (c & 31)) & 1]. *)
Definition ascii_bit (table : list Z) (c : Z) : outcome bool :=
  let* w := rd table (Z.shiftr c 5) in
  Ret (Z.land (Z.shiftr w (Z.land c 31)) 1 =? 1).

Definition lre_js_is_ident_first (c : Z) : outcome bool :=
  if u32 c <? 128 then ascii_bit lre_id_start_table_ascii c else lre_is_id_start c.

Definition lre_js_is_ident_next (c : Z) : outcome bool :=
  if u32 c <? 128 then ascii_bit lre_id_continue_table_ascii c
  else
    let* b := lre_is_id_continue c in
    Ret (b || (c =? 0x200C) || (c =? 0x200D)).

(** The character classes of the matcher. *)
Definition is_line_terminator (c : Z) : bool :=
  (c =? 10) || (c =? 13) || (c =? CP_LS) || (c =? CP_PS).

Definition is_word_char (c : Z) : bool :=
  ((48 <=? c) && (c <=? 57)) || ((97 <=? c) && (c <=? 122)) || ((65 <=? c) && (c <=? 90)) ||
  (c =? 95).

(** * Compiled expressions *)

Definition lre_get_capture_count (bc_buf : list Z) : outcome Z := rd bc_buf RE_HEADER_CAPTURE_COUNT.

Definition lre_get_flags (bc_buf : list Z) : outcome Z := get_u16 bc_buf RE_HEADER_FLAGS.

(** The offset of the names in [bc_buf], [None] for a null result. *)
Definition lre_get_groupnames (bc_buf : list Z) : outcome (option Z) :=
  let* flags := lre_get_flags bc_buf in
  if Z.land flags LRE_FLAG_NAMED_GROUPS =? 0 then Ret None
  else
    let* re_bytecode_len := get_u32 bc_buf RE_HEADER_BYTECODE_LEN in
    Ret (Some (RE_HEADER_LEN + re_bytecode_len)).

Definition bswap16 (x : Z) : Z := u16 (Z.lor (Z.shiftr x 8) (Z.shiftl x 8)).
Definition bswap32 (v : Z) : Z :=
  Z.lor (Z.lor (Z.lor (Z.shiftr (Z.land v 0xff000000) 24) (Z.shiftr (Z.land v 0x00ff0000) 8))
               (Z.shiftl (Z.land v 0x0000ff00) 8))
        (Z.shiftl (Z.land v 0x000000ff) 24).

Definition inplace_bswap16 (m : list Z) (p : Z) : outcome (list Z) :=
  let* v := get_u16 m p in put_u16 m p (bswap16 v).
Definition inplace_bswap32 (m : list Z) (p : Z) : outcome (list Z) :=
  let* v := get_u32 m p in put_u32 m p (bswap32 v).

(** [for (; n < r; n += w) swap(&p[n])]: the last [n] and the memory. *)
Definition swap_words (swap : list Z -> Z -> outcome (list Z)) (w : Z) (m : list Z) (p n r : Z)
    : outcome (Z * list Z) :=
  iter (S (Z.to_nat (r - n))) (fun '(n, m) =>
    if n <? r then let* m := swap m (p + n) in Ret (inl (n + w, m))
    else Ret (inr (n, m))) (n, m).

(** One instruction of [lre_byte_swap] at [p]: its length and the memory. *)
Definition swap_instr (m : list Z) (p : Z) (is_byte_swapped : bool) : outcome (Z * list Z) :=
  let* op := rd m p in
  let* n := reop_size op in
  if (n =? 1) || (n =? 2) then Ret (n, m)
  else if n =? 3 then
    if op =? REOP_save_reset then Ret (n, m)
    else if op =? REOP_range32 then
      let* nw := get_u16 m (p + 1) in
      let n := if is_byte_swapped then bswap16 n else n in
      let* (n, m) := swap_words inplace_bswap32 4 m p n (3 + 8 * nw) in
      let* m := inplace_bswap16 m (p + 1) in
      Ret (n, m)
    else if op =? REOP_range then
      let* nw := get_u16 m (p + 1) in
      let n := if is_byte_swapped then bswap16 n else n in
      let* (n, m) := swap_words inplace_bswap16 2 m p n (3 + 4 * nw) in
      let* m := inplace_bswap16 m (p + 1) in
      Ret (n, m)
    else
      let* m := inplace_bswap16 m (p + 1) in
      Ret (n, m)
  else if n =? 5 then
    let* m := inplace_bswap32 m (p + 1) in
    Ret (n, m)
  else if n =? 17 then
    let* _ := c_assert (op =? REOP_simple_greedy_quant) in
    let* m := inplace_bswap32 m (p + 1) in
    let* m := inplace_bswap32 m (p + 5) in
    let* m := inplace_bswap32 m (p + 9) in
    let* m := inplace_bswap32 m (p + 13) in
    Ret (n, m)
  else Err AssertFail.

Definition lre_byte_swap (buf : list Z) (len : Z) (is_byte_swapped : bool) : outcome (list Z) :=
  if len <? RE_HEADER_LEN then Err AssertFail
  else
    let* buf := inplace_bswap16 buf RE_HEADER_FLAGS in
    let* n := get_u32 buf RE_HEADER_BYTECODE_LEN in
    let* buf := inplace_bswap32 buf RE_HEADER_BYTECODE_LEN in
    let n := if is_byte_swapped then bswap32 n else n in
    if len - RE_HEADER_LEN <? n then Err AssertFail
    else
      let pe := RE_HEADER_LEN + n in
      iter (S (Z.to_nat n)) (fun '(p, buf) =>
        if p <? pe then
          let* (n, buf) := swap_instr buf p is_byte_swapped in
          Ret (inl (p + n, buf))
        else Ret (inr buf)) (RE_HEADER_LEN, buf).
