(* ===== verification/ReState.v ===== *)
(** The state of the regular expression compiler of [libregexp.c], the
    operations that emit byte code, and the parsing of digits, escapes and
    group names, which need no more than the pattern.

    A parsing function takes and returns the whole [REParseState].  Its result
    [None] stands for the C result -1, after which every caller returns too;
    the faults of [outcome] are those of the C code. *)
From Stdlib Require Import ZArith Lia Bool List String.
From stdpp Require Import base tactics list numbers strings.
From S2P Require Import Prelude Alloc Utf8 CString DynBuf CharRange CaseConv Regexp.

(** [if (dbuf_realloc(s, s->size + len)) return -1; memmove; s->size += len]. *)
Definition dbuf_insert `{AL : Allocator} (h : heap) (s : DynBuf) (pos len : Z)
    : outcome (heap * DynBuf * Z) :=
  let '(h, s, r) := dbuf_realloc h s (u64 (size s + len)) in
  if negb (r =? 0) then Ret (h, s, -1)
  else
    let* d := rd_slice (buf s) pos (size s - pos) in
    let* b := wr_slice (buf s) (pos + len) d in
    Ret (h, mkDynBuf b (size s + len) (allocated_size s) (error s), 0).

Section State.
Context `{AL : Allocator}.

(** [s->u] is the bytes of the union of [error_msg] and [tmp_buf]; [pattern] is
    the memory of the pattern, with its terminator, so that [buf_start] is 0 and
    the pointers into the pattern are offsets. *)
Record REParseState := mkREParseState {
  s_heap : heap;
  byte_code : DynBuf;
  pattern : list Z;
  buf_ptr : Z;
  buf_end : Z;
  re_flags : Z;
  is_unicode : bool;
  unicode_sets : bool;
  ignore_case : bool;
  dotall : bool;
  capture_count : Z;
  total_capture_count : Z;
  has_named_captures : Z;
  group_names : DynBuf;
  s_u : list Z
}.

Definition set_byte_code (h : heap) (b : DynBuf) (s : REParseState) : REParseState :=
  mkREParseState h b (pattern s) (buf_ptr s) (buf_end s) (re_flags s) (is_unicode s)
    (unicode_sets s) (ignore_case s) (dotall s) (capture_count s) (total_capture_count s)
    (has_named_captures s) (group_names s) (s_u s).
Definition set_heap (h : heap) (s : REParseState) : REParseState := set_byte_code h (byte_code s) s.
Definition set_buf_ptr (p : Z) (s : REParseState) : REParseState :=
  mkREParseState (s_heap s) (byte_code s) (pattern s) p (buf_end s) (re_flags s) (is_unicode s)
    (unicode_sets s) (ignore_case s) (dotall s) (capture_count s) (total_capture_count s)
    (has_named_captures s) (group_names s) (s_u s).
Definition set_captures (count total named : Z) (s : REParseState) : REParseState :=
  mkREParseState (s_heap s) (byte_code s) (pattern s) (buf_ptr s) (buf_end s) (re_flags s)
    (is_unicode s) (unicode_sets s) (ignore_case s) (dotall s) count total named (group_names s)
    (s_u s).
Definition set_group_names (h : heap) (g : DynBuf) (s : REParseState) : REParseState :=
  mkREParseState h (byte_code s) (pattern s) (buf_ptr s) (buf_end s) (re_flags s)
    (is_unicode s) (unicode_sets s) (ignore_case s) (dotall s) (capture_count s)
    (total_capture_count s) (has_named_captures s) g (s_u s).
Definition set_u (u : list Z) (s : REParseState) : REParseState :=
  mkREParseState (s_heap s) (byte_code s) (pattern s) (buf_ptr s) (buf_end s) (re_flags s)
    (is_unicode s) (unicode_sets s) (ignore_case s) (dotall s) (capture_count s)
    (total_capture_count s) (has_named_captures s) (group_names s) u.

(** * The monad of the parser *)

Definition parser (A : Type) : Type := REParseState -> outcome (option A * REParseState).

Definition pret {A : Type} (a : A) : parser A := fun s => Ret (Some a, s).
Definition pbind {A B : Type} (m : parser A) (k : A -> parser B) : parser B := fun s =>
  let* (r, s) := m s in
  match r with
  | Some a => k a s
  | None => Ret (None, s)
  end.

(** [return -1]. *)
Definition pfail {A : Type} : parser A := fun s => Ret (None, s).
Definition plift {A : Type} (m : outcome A) : parser A := fun s => let* a := m in Ret (Some a, s).
Definition pget : parser REParseState := fun s => Ret (Some s, s).
Definition pmodify (f : REParseState -> REParseState) : parser unit := fun s => Ret (Some tt, f s).

(** A call whose C result 0, -1, or other is looked at: it never ends the caller. *)
Definition ptry {A : Type} (m : parser A) : parser (option A) := fun s =>
  let* (r, s) := m s in Ret (Some r, s).

Fixpoint piter {S R : Type} (fuel : nat) (body : S -> parser (S + R)) (x : S) : parser R :=
  match fuel with
  | O => fun _ => Err OutOfFuel
  | Datatypes.S fuel => pbind (body x) (fun r =>
      match r with
      | inl x => piter fuel body x
      | inr r => pret r
      end)
  end.
End State.

Arguments parser {AL} A : simpl never.

Declare Scope parser_scope.
Delimit Scope parser_scope with parser.
Notation "'let!' x ':=' m 'in' k" := (pbind m (fun x => k))
  (at level 10, x pattern, m at level 200, k at level 200) : parser_scope.
#[global] Open Scope parser_scope.

Section Emit.
Context `{AL : Allocator}.

(** [*p] for a pointer into the pattern. *)
Definition chr (p : Z) : parser Z := let! s := pget in plift (rd (pattern s) p).

(** Fuel for the loops over the pattern. *)
Definition pattern_fuel (s : REParseState) : nat := S (List.length (pattern s)).

(** A call of a function of [cutils.c] on [&s->byte_code]. *)
Definition on_byte_code (f : heap -> DynBuf -> outcome (heap * DynBuf * Z)) : parser Z := fun s =>
  let* (h, b, r) := f (s_heap s) (byte_code s) in
  Ret (Some r, set_byte_code h b s).

Definition on_group_names (f : heap -> DynBuf -> outcome (heap * DynBuf * Z)) : parser Z := fun s =>
  let* (h, g, r) := f (s_heap s) (group_names s) in
  Ret (Some r, set_group_names h g s).

(** A call of a function on a local range [cr]. *)
Definition on_range (f : heap -> outcome (heap * CharRange * Z)) : parser (CharRange * Z) := fun s =>
  let* (h, cr, r) := f (s_heap s) in
  Ret (Some (cr, r), set_heap h s).

(** [(int)s->byte_code.size]. *)
Definition bc_size : parser Z := let! s := pget in pret (i32 (size (byte_code s))).

(** [s->byte_code.buf[pos] = v] and [put_u32(s->byte_code.buf + pos, v)]. *)
Definition bc_store (f : list Z -> outcome (list Z)) : parser unit := fun s =>
  let b := byte_code s in
  let* m := f (buf b) in
  Ret (Some tt, set_byte_code (s_heap s) (mkDynBuf m (size b) (allocated_size b) (error b)) s).
Definition bc_set (pos v : Z) : parser unit := bc_store (fun m => wr m pos (u8 v)).
Definition bc_put_u32 (pos v : Z) : parser unit := bc_store (fun m => put_u32 m pos (u32 v)).

(** [dbuf_error(&s->byte_code)]. *)
Definition bc_error : parser bool := let! s := pget in pret (dbuf_error (byte_code s)).

Definition re_emit_op (op : Z) : parser unit :=
  let! _ := on_byte_code (fun h b => dbuf_putc h b op) in pret tt.

Definition re_emit_op_u32 (op val : Z) : parser Z :=
  let! _ := on_byte_code (fun h b => dbuf_putc h b op) in
  let! pos := bc_size in
  let! _ := on_byte_code (fun h b => dbuf_put_u32 h b val) in
  pret pos.

Definition re_emit_goto (op val : Z) : parser Z :=
  let! _ := on_byte_code (fun h b => dbuf_putc h b op) in
  let! pos := bc_size in
  let! _ := on_byte_code (fun h b => dbuf_put_u32 h b (val - (pos + 4))) in
  pret pos.

Definition re_emit_op_u8 (op val : Z) : parser unit :=
  let! _ := on_byte_code (fun h b => dbuf_putc h b op) in
  let! _ := on_byte_code (fun h b => dbuf_putc h b val) in
  pret tt.

Definition re_emit_op_u16 (op val : Z) : parser unit :=
  let! _ := on_byte_code (fun h b => dbuf_putc h b op) in
  let! _ := on_byte_code (fun h b => dbuf_put_u16 h b val) in
  pret tt.

(** * Errors *)

(** [vsnprintf(s->u.error_msg, sizeof(s->u.error_msg), fmt, ap)] for the
    formatted text [msg]. *)
Definition re_parse_error_text {A : Type} (msg : list Z) : parser A := fun s =>
  let* u := vsnprintf (s_u s) 0 TMP_BUF_SIZE msg in
  Ret (None, set_u u s).

Definition re_parse_error {A : Type} (msg : string) : parser A :=
  re_parse_error_text (bytes_of_string msg).

Definition re_parse_out_of_memory {A : Type} : parser A := re_parse_error "out of memory".

Definition re_parse_expect (p c : Z) : parser Z :=
  let! d := chr p in
  if negb (d =? c) then re_parse_error_text (bytes_of_string "expecting '" ++ [c; 39])
  else pret (p + 1).
End Emit.

(** * Digits, escapes and names *)

(** [parse_digits(&p, allow_overflow)]: the result and the new [p]. *)
Definition parse_digits (m : list Z) (pp : Z) (allow_overflow : bool) : outcome (Z * Z) :=
  iter (S (List.length m)) (fun '(p, v) =>
    let* c := rd m p in
    if (c <? 48) || (57 <? c) then Ret (inr (v, p))
    else
      let v := u64 (v * 10 + c - 48) in
      if INT32_MAX <=? v then
        if allow_overflow then Ret (inl (p + 1, INT32_MAX)) else Ret (inr (-1, pp))
      else Ret (inl (p + 1, v))) (pp, 0).

Definition from_hex (c : Z) : Z :=
  if (48 <=? c) && (c <=? 57) then c - 48
  else if (65 <=? c) && (c <=? 70) then c - 65 + 10
  else if (97 <=? c) && (c <=? 102) then c - 97 + 10
  else -1.

(** [for(i = 0; i < n; i++)] of hexadecimal digits at [p]: the value, or [None]
    at a character that is not one. *)
Definition hex_digits (m : list Z) (p n : Z) : outcome (option Z) :=
  iter (S (Z.to_nat n)) (fun '(i, c) =>
    if i <? n then
      let* d := rd m (p + i) in
      let h := from_hex d in
      if h <? 0 then Ret (inr None) else Ret (inl (i + 1, Z.lor (u32 (Z.shiftl c 4)) h))
    else Ret (inr (Some c))) (0, 0).

(** The loop over the digits of [\u{...}]: the code point and the offset of the
    brace that ends it. *)
Definition hex_braced (m : list Z) (p : Z) : outcome (option (Z * Z)) :=
  iter (S (List.length m)) (fun '(p, c) =>
    let* d := rd m p in
    let p := p + 1 in
    let h := from_hex d in
    if h <? 0 then Ret (inr None)
    else
      let c := Z.lor (u32 (Z.shiftl c 4)) h in
      if 0x10FFFF <? c then Ret (inr None)
      else
        let* d := rd m p in
        if d =? 125 then Ret (inr (Some (c, p))) else Ret (inl (p, c))) (p, 0).

(** [\x] and [\u], [p] after the letter: the result and the new offset. *)
Definition escape_hex (m : list Z) (p c allow_utf16 : Z) : outcome (option (Z * Z)) :=
  let* d := rd m p in
  if (d =? 123) && negb (allow_utf16 =? 0) then
    let* r := hex_braced m (p + 1) in
    match r with
    | None => Ret None
    | Some (c, p) => Ret (Some (c, p + 1))
    end
  else
    let n := if c =? 120 then 2 else 4 in
    let* r := hex_digits m p n in
    match r with
    | None => Ret None
    | Some c =>
        let p := p + n in
        let* is_pair :=
          if is_hi_surrogate c && (allow_utf16 =? 2) then
            let* d := rd m p in
            if d =? 92 then let* d := rd m (p + 1) in Ret (d =? 117) else Ret false
          else Ret false in
        if is_pair : bool then
          let* r := hex_digits m (p + 2) 4 in
          match r with
          | Some c1 =>
              if is_lo_surrogate c1 then Ret (Some (from_surrogate c c1, p + 6))
              else Ret (Some (c, p))
          | None => Ret (Some (c, p))
          end
        else Ret (Some (c, p))
    end.

(** [\0] to [\7], [p] after the digit [c]. *)
Definition escape_octal (m : list Z) (p c allow_utf16 : Z) : outcome (option (Z * Z)) :=
  let c := c - 48 in
  if allow_utf16 =? 2 then
    if negb (c =? 0) then Ret None
    else let* d := rd m p in if lre_is_digit d then Ret None else Ret (Some (c, p))
  else
    let* d := rd m p in
    let v := u32 (d - 48) in
    if 7 <? v then Ret (Some (c, p))
    else
      let c := Z.lor (Z.shiftl c 3) v in
      let p := p + 1 in
      if 32 <=? c then Ret (Some (c, p))
      else
        let* d := rd m p in
        let v := u32 (d - 48) in
        if 7 <? v then Ret (Some (c, p))
        else Ret (Some (Z.lor (Z.shiftl c 3) v, p + 1)).

(** [lre_parse_escape(&p, allow_utf16)]: the result and the new [p]. *)
Definition lre_parse_escape (m : list Z) (pp allow_utf16 : Z) : outcome (Z * Z) :=
  let* c := rd m pp in
  let p := pp + 1 in
  let* r :=
    if c =? 98 then Ret (inl (8, p))
    else if c =? 102 then Ret (inl (12, p))
    else if c =? 110 then Ret (inl (10, p))
    else if c =? 114 then Ret (inl (13, p))
    else if c =? 116 then Ret (inl (9, p))
    else if c =? 118 then Ret (inl (11, p))
    else if (c =? 120) || (c =? 117) then
      let* r := escape_hex m p c allow_utf16 in
      Ret (match r with Some x => inl x | None => inr (-1) end)
    else if (48 <=? c) && (c <=? 55) then
      let* r := escape_octal m p c allow_utf16 in
      Ret (match r with Some x => inl x | None => inr (-1) end)
    else Ret (inr (-2)) in
  match r with
  | inl (c, p) => Ret (c, p)
  | inr e => Ret (e, pp)
  end.

Definition UTF8_CHAR_LEN_MAX : Z := 4.

(** One character of a group name: [inr tt] is the [>], [None] an error. *)
Definition group_name_char (m : list Z) (p : Z) : outcome (option (Z * Z + Z)) :=
  let* c := rd m p in
  let p := p + 1 in
  if c =? 92 then
    let* d := rd m p in
    if negb (d =? 117) then Ret None
    else
      let* (c, p) := lre_parse_escape m p 2 in
      if c <? 0 then Ret None else Ret (Some (inl (c, p)))
  else if c =? 62 then Ret (Some (inr p))
  else if 0x80 <=? c then
    let* (c, p_next) := utf8_decode m (p - 1) in
    if p_next =? p then Ret None
    else
      let p := p_next in
      if is_hi_surrogate c then
        let* (d, p_next) := utf8_decode m p in
        if is_lo_surrogate d then Ret (Some (inl (from_surrogate c d, p_next)))
        else Ret (Some (inl (c, p)))
      else Ret (Some (inl (c, p)))
  else Ret (Some (inl (c, p))).

(** [re_parse_group_name(buf, buf_size, &p)], [m] being the pattern and [nm] the
    memory of [buf]: the new [nm], and the new [p] or [None] for -1. *)
Definition re_parse_group_name (m : list Z) (nm : list Z) (buf_size pp : Z)
    : outcome (list Z * option Z) :=
  iter (S (List.length m)) (fun '(p, q, nm) =>
    let* r := group_name_char m p in
    match r with
    | None => Ret (inr (nm, None))
    | Some (inr p) =>
        if q =? 0 then Ret (inr (nm, None))
        else let* nm := wr nm q 0 in Ret (inr (nm, Some p))
    | Some (inl (c, p)) =>
        let* ok := if q =? 0 then lre_js_is_ident_first c else lre_js_is_ident_next c in
        if negb ok then Ret (inr (nm, None))
        else if buf_size <? q + UTF8_CHAR_LEN_MAX + 1 then Ret (inr (nm, None))
        else
          let bs := if c <? 0x80 then [c] else utf8_encode c in
          let* nm := wr_slice nm q bs in
          Ret (inl (p, q + zlen bs, nm))
    end) (pp, 0, nm).

(** [strcmp(a, b) == 0]. *)
Definition strcmp_eq (a b : list Z) : outcome bool :=
  let* n := strlen a 0 in
  let* k := strlen b 0 in
  if n =? k then memcmp_eq a 0 b 0 n else Ret false.
