(* ===== verification/ReClass.v ===== *)
(** Atoms and classes of characters in the regular expression compiler of
    [libregexp.c]: the character escapes, the Unicode property escapes, the
    classes in brackets and the byte code of a range of characters. *)
From Stdlib Require Import ZArith Lia Bool List String.
From stdpp Require Import base tactics list numbers strings.
From S2P Require Import Prelude Alloc Utf8 CString DynBuf CharRange CaseConv UnicodeSets Regexp ReState.

Section Class.
Context `{AL : Allocator}.

(** The loop of [cr_init_char_range] over the points of a predefined class. *)
Fixpoint cr_add_points (h : heap) (cr : CharRange) (pts : list Z)
    : outcome (heap * CharRange * Z) :=
  match pts with
  | [] => Ret (h, cr, 0)
  | pt :: pts =>
      let* (h, cr, r) := cr_add_point h cr pt in
      if negb (r =? 0) then Ret (h, cr, -1) else cr_add_points h cr pts
  end.

Definition cr_init_char_range (c : CharRangeEnum) : parser CharRange :=
  let! (cr, r) := on_range (fun h =>
    let* (h, cr, r) := cr_add_points h cr_init (char_range_table c) in
    if negb (r =? 0) then Ret (h, cr, -1)
    else if char_range_invert c then cr_invert h cr else Ret (h, cr, 0)) in
  if negb (r =? 0) then pfail else pret cr.

(** * Unicode properties *)

Definition is_unicode_char (c : Z) : bool :=
  ((48 <=? c) && (c <=? 57)) || ((65 <=? c) && (c <=? 90)) || ((97 <=? c) && (c <=? 122)) ||
  (c =? 95).

(** [while (is_unicode_char( *p))] into a buffer of 64 characters: the characters
    copied and the new [p], or [None] when the buffer is full. *)
Definition property_word (p : Z) : parser (option (list Z * Z)) :=
  let! s := pget in
  piter (pattern_fuel s) (fun '(w, p) =>
    let! c := chr p in
    if is_unicode_char c then
      if 63 <=? zlen w then pret (inr None) else pret (inl (w ++ [c], p + 1))
    else pret (inr (Some (w, p)))) ([], p).

(** The results of the functions of [UnicodeSets.v] on an empty range: the range,
    or the error message [unknown] for -2. *)
Definition property_range (unknown : string) (f : heap -> outcome (heap * CharRange * Z))
    : parser CharRange :=
  let! (cr, ret) := on_range f in
  if ret =? 0 then pret cr
  else if ret =? -2 then re_parse_error unknown
  else re_parse_out_of_memory.

Definition name_is (name : list Z) (str : string) : bool :=
  bool_decide (name = bytes_of_string str).

(** The set of a property escape.  [unicode_script] is given fuel for one
    iteration of its error loop, which never ends. *)
Definition property_set (name value : list Z) : parser CharRange :=
  let script is_ext :=
    property_range "unknown unicode script"
      (fun h => unicode_script 1 h cr_init (value ++ [0]) is_ext) in
  if name_is name "Script" || name_is name "sc" then script false
  else if name_is name "Script_Extensions" || name_is name "scx" then script true
  else if name_is name "General_Category" || name_is name "gc" then
    property_range "unknown unicode general category"
      (fun h => unicode_general_category h cr_init (value ++ [0]))
  else if bool_decide (value = []) then
    let! (cr, ret) := on_range (fun h => unicode_general_category h cr_init (name ++ [0])) in
    if ret =? -1 then re_parse_out_of_memory
    else if ret <? 0 then
      property_range "unknown unicode property name"
        (fun h => unicode_prop h cr (name ++ [0]))
    else pret cr
  else re_parse_error "unknown unicode property name".

Definition parse_unicode_property (pp : Z) (is_inv : bool) : parser (CharRange * Z) :=
  let! c := chr pp in
  if negb (c =? 123) then re_parse_error "expecting '{' after \p"
  else
    let! w := property_word (pp + 1) in
    match w with
    | None => re_parse_error "unknown unicode property name"
    | Some (name, p) =>
        let! c := chr p in
        let! w := if c =? 61 then property_word (p + 1) else pret (Some ([], p)) in
        match w with
        | None => re_parse_error "unknown unicode property value"
        | Some (value, p) =>
            let! c := chr p in
            if negb (c =? 125) then re_parse_error "expecting '}'"
            else
              let! cr := property_set name value in
              let! cr :=
                if is_inv then
                  let! (cr, r) := on_range (fun h => cr_invert h cr) in
                  if negb (r =? 0) then pfail else pret cr
                else pret cr in
              pret (cr, p + 1)
        end
    end.

(** * Atoms *)

(** The result of [get_class_atom]: a character, or the set of a class escape
    (the value [CLASS_RANGE_BASE] and the range [cr]). *)
Inductive class_atom :=
  | AChar (c : Z)
  | AClass (cr : CharRange).

(** The labels [default] and [normal_char] at [p], where the character is [c]. *)
Definition normal_char (p c : Z) : parser (class_atom * Z) :=
  let p := p + 1 in
  if 0x80 <=? c then
    let! s := pget in
    let! (c, p_next) := plift (utf8_decode (pattern s) (p - 1)) in
    if p_next =? p then re_parse_error "invalid UTF-8 sequence"
    else if (0xFFFF <? c) && negb (is_unicode s) then re_parse_error "malformed unicode char"
    else pret (AChar c, p_next)
  else pret (AChar c, p).

Definition syntax_characters : list Z := bytes_of_string "^$\.*+?()[]{}|/".

(** The escapes that [lre_parse_escape] reads; [p] is at the letter [c]. *)
Definition escape_atom (p c : Z) (inclass : bool) : parser (class_atom * Z) :=
  let! s := pget in
  let! (ret, p) := plift (lre_parse_escape (pattern s) p (b2z (is_unicode s) * 2)) in
  if 0 <=? ret then pret (AChar ret, p)
  else
    let! d := chr p in
    if (ret =? -2) && negb (d =? 0) && bool_decide (d ∈ syntax_characters) then normal_char p c
    else if is_unicode s then
      if (ret =? -2) && (d =? 45) && inclass then normal_char p c
      else re_parse_error "invalid escape sequence in regular expression"
    else normal_char p c.

Definition class_escape (c : Z) : option CharRangeEnum :=
  if c =? 100 then Some CHAR_RANGE_d
  else if c =? 68 then Some CHAR_RANGE_D
  else if c =? 115 then Some CHAR_RANGE_s
  else if c =? 83 then Some CHAR_RANGE_S
  else if c =? 119 then Some CHAR_RANGE_w
  else if c =? 87 then Some CHAR_RANGE_W
  else None.

(** [\c], [p] after the letter. *)
Definition control_atom (p : Z) (inclass : bool) : parser (class_atom * Z) :=
  let! s := pget in
  let! c := chr p in
  if ((97 <=? c) && (c <=? 122)) || ((65 <=? c) && (c <=? 90)) ||
     ((((48 <=? c) && (c <=? 57)) || (c =? 95)) && inclass && negb (is_unicode s))
  then pret (AChar (Z.land c 0x1f), p + 1)
  else if is_unicode s then re_parse_error "invalid escape sequence in regular expression"
  else pret (AChar 92, p - 1).

(** [get_class_atom(s, cr, &p, inclass)]: the atom and the new [p]. *)
Definition get_class_atom (pp : Z) (inclass : bool) : parser (class_atom * Z) :=
  let! s := pget in
  let! c := chr pp in
  if c =? 92 then
    let p := pp + 1 in
    if buf_end s <=? p then re_parse_error "unexpected end"
    else
      let! c := chr p in
      let p := p + 1 in
      match class_escape c with
      | Some class =>
          let! cr := cr_init_char_range class in
          pret (AClass cr, p)
      | None =>
          if c =? 99 then control_atom p inclass
          else if ((c =? 112) || (c =? 80)) && is_unicode s then
            let! (cr, p) := parse_unicode_property p (c =? 80) in
            pret (AClass cr, p)
          else escape_atom (p - 1) c inclass
      end
  else if (c =? 0) && (buf_end s <=? pp) then re_parse_error "unexpected end"
  else normal_char pp c.

(** * The byte code of a range *)

(** The pairs of [cr->points] emitted by a function of the two points. *)
Fixpoint emit_pairs (emit : Z -> Z -> parser unit) (pts : list Z) : parser unit :=
  match pts with
  | c1 :: c2 :: pts => let! _ := emit c1 c2 in emit_pairs emit pts
  | _ => pret tt
  end.

Definition emit_u16 (v : Z) : parser unit :=
  let! _ := on_byte_code (fun h b => dbuf_put_u16 h b v) in pret tt.
Definition emit_u32 (v : Z) : parser unit :=
  let! _ := on_byte_code (fun h b => dbuf_put_u32 h b v) in pret tt.

Definition emit_pair16 (c1 c2 : Z) : parser unit :=
  let! _ := emit_u16 c1 in
  let high := u32 (c2 - 1) in
  emit_u16 (if high =? UINT32_MAX - 1 then 0xffff else high).

Definition emit_pair32 (c1 c2 : Z) : parser unit :=
  let! _ := emit_u32 c1 in emit_u32 (u32 (c2 - 1)).

Definition re_emit_range (cr : CharRange) : parser unit :=
  let len := u32 (cr_len cr) / 2 in
  if 65535 <=? len then re_parse_error "too many ranges"
  else if len =? 0 then let! _ := re_emit_op_u32 REOP_char32 (-1) in pret tt
  else
    let! high := plift (rd (cr_points cr) (cr_len cr - 1)) in
    let! high := if high =? UINT32_MAX then plift (rd (cr_points cr) (cr_len cr - 2)) else pret high in
    let! pts := plift (rd_slice (cr_points cr) 0 (cr_len cr)) in
    if high <=? 0xffff then
      let! _ := re_emit_op_u16 REOP_range len in emit_pairs emit_pair16 pts
    else
      let! _ := re_emit_op_u16 REOP_range32 len in emit_pairs emit_pair32 pts.

(** * Classes in brackets *)

(** The characters that may not stand alone before a bracket in a class of the
    [v] flag, in three strings for one, two and three of them. *)
Definition verboten : list Z :=
  bytes_of_string "()[{}/-|" ++ [0] ++
  bytes_of_string "&&!!##$$%%**++,,..::;;<<==>>??@@``~~" ++ [0] ++
  bytes_of_string "^^^_^^" ++ [0].

(** The test at the beginning of a class: whether it is invalid. *)
Definition class_verboten (m : list Z) (p : Z) : outcome bool :=
  iter (S (List.length verboten)) (fun '(s, n) =>
    let* same := memcmp_eq verboten s m p n in
    let* closed := if same : bool then let* c := rd m (p + n) in Ret (c =? 93) else Ret false in
    if closed : bool then Ret (inr true)
    else
      let s := s + n in
      let* c := rd verboten s in
      let '(s, n) := if c =? 0 then (s + 1, n + 1) else (s, n) in
      if n <? 4 then Ret (inl (s, n)) else Ret (inr false)) (0, 1).

Definition cr_or_memory_error (f : heap -> outcome (heap * CharRange * Z)) : parser CharRange :=
  let! (cr, r) := on_range f in
  if negb (r =? 0) then re_parse_out_of_memory else pret cr.

(** The label [class_atom]: the atom joins the class. *)
Definition add_class_atom (cr : CharRange) (a : class_atom) : parser CharRange :=
  match a with
  | AClass cr1 => cr_or_memory_error (fun h => cr_union1 h cr (cr_points cr1) (cr_len cr1))
  | AChar c1 => cr_or_memory_error (fun h => cr_union_interval h cr c1 c1)
  end.

(** [*p == c0 && (p[1] == c1) == eq]. *)
Definition chr_followed (p c0 c1 : Z) (eq : bool) : parser bool :=
  let! c := chr p in
  if c =? c0 then let! d := chr (p + 1) in pret (Bool.eqb (d =? c1) eq) else pret false.

(** The body of the loop over the atoms of a class. *)
Definition class_step '(cr, p) : parser (CharRange * Z + CharRange * Z) :=
  let! s := pget in
  let! c := chr p in
  if c =? 93 then pret (inr (cr, p))
  else
    let! (c1, p) := get_class_atom p true in
    let! last_dash := chr_followed p 45 93 true in
    if last_dash && unicode_sets s then re_parse_error "invalid class range"
    else
      let! dash := chr_followed p 45 93 false in
      if dash : bool then
        match c1 with
        | AClass _ =>
            if is_unicode s then re_parse_error "invalid class range"
            else let! cr := add_class_atom cr c1 in pret (inl (cr, p))
        | AChar lo =>
            let! (c2, p0) := get_class_atom (p + 1) true in
            match c2 with
            | AClass _ =>
                if is_unicode s then re_parse_error "invalid class range"
                else let! cr := add_class_atom cr c1 in pret (inl (cr, p))
            | AChar hi =>
                if hi <? lo then re_parse_error "invalid class range"
                else
                  let! cr := cr_or_memory_error (fun h => cr_union_interval h cr lo hi) in
                  pret (inl (cr, p0))
            end
        end
      else let! cr := add_class_atom cr c1 in pret (inl (cr, p)).

(** [re_parse_char_class(s, &p)]: the new [p]. *)
Definition re_parse_char_class (pp : Z) : parser Z :=
  let! s := pget in
  let p := pp + 1 in
  let! invalid := if unicode_sets s then plift (class_verboten (pattern s) p) else pret false in
  if invalid : bool then re_parse_error "invalid class range"
  else
    let! c := chr p in
    let invert := c =? 94 in
    let p := if invert then p + 1 else p in
    let! (cr, p) := piter (pattern_fuel s) class_step (cr_init, p) in
    let! cr :=
      if ignore_case s then
        cr_or_memory_error (fun h => cr_regexp_canonicalize h cr (is_unicode s))
      else pret cr in
    let! cr := if invert then cr_or_memory_error (fun h => cr_invert h cr) else pret cr in
    let! _ := re_emit_range cr in
    pret (p + 1).
End Class.
