(* ===== verification/ReQuant.v ===== *)
(** The analyses of byte code and of the pattern that the regular expression
    compiler of [libregexp.c] makes: the length and effect of instructions, the
    captures of the pattern, the size of the matcher's stack. *)
From Stdlib Require Import ZArith Lia Bool List String.
From stdpp Require Import base tactics list numbers strings.
From S2P Require Import Prelude Alloc Utf8 CString DynBuf CharRange Regexp ReState.

(** * Scans of byte code *)

(** The length of the instruction [opcode] at [pos], its ranges included. *)
Definition instr_len (m : list Z) (pos opcode : Z) : outcome Z :=
  let* len := reop_size opcode in
  match reop_of opcode with
  | Some REOP_range => let* val := get_u16 m (pos + 1) in Ret (len + val * 4)
  | Some REOP_range32 => let* val := get_u16 m (pos + 1) in Ret (len + val * 8)
  | _ => Ret len
  end.

(** [re_need_check_advance(m + start, len)]. *)
Definition re_need_check_advance (m : list Z) (start bc_buf_len : Z) : outcome bool :=
  iter (S (Z.to_nat bc_buf_len)) (fun '(pos, ret) =>
    if pos <? bc_buf_len then
      let* opcode := rd m (start + pos) in
      let* len := instr_len m (start + pos) opcode in
      match reop_of opcode with
      | Some (REOP_range | REOP_range32 | REOP_char32 | REOP_char16 | REOP_char8 | REOP_dot
             | REOP_any) => Ret (inl (pos + len, false))
      | Some (REOP_line_start | REOP_line_end | REOP_push_i32 | REOP_push_char_pos | REOP_drop
             | REOP_word_boundary | REOP_not_word_boundary | REOP_prev) =>
          Ret (inl (pos + len, ret))
      | Some (REOP_save_start | REOP_save_end | REOP_save_reset | REOP_back_reference
             | REOP_backward_back_reference) => Ret (inl (pos + len, ret))
      | _ => Ret (inr true)
      end
    else Ret (inr ret)) (0, true).

(** [re_is_simple_quantifier(m + start, len)]. *)
Definition re_is_simple_quantifier (m : list Z) (start bc_buf_len : Z) : outcome Z :=
  iter (S (Z.to_nat bc_buf_len)) (fun '(pos, count) =>
    if pos <? bc_buf_len then
      let* opcode := rd m (start + pos) in
      let* len := instr_len m (start + pos) opcode in
      match reop_of opcode with
      | Some (REOP_range | REOP_range32 | REOP_char32 | REOP_char16 | REOP_char8 | REOP_dot
             | REOP_any) => Ret (inl (pos + len, count + 1))
      | Some (REOP_line_start | REOP_line_end | REOP_word_boundary | REOP_not_word_boundary) =>
          Ret (inl (pos + len, count))
      | _ => Ret (inr (-1))
      end
    else Ret (inr count)) (0, 0).

(** The size of the stack after an instruction and the maximum so far, or the
    result -1. *)
Definition stack_effect (op : REOPCodeEnum) (stack_size stack_size_max : Z)
    : outcome (option (Z * Z)) :=
  match op with
  | REOP_push_i32 | REOP_push_char_pos =>
      let stack_size := stack_size + 1 in
      if stack_size_max <? stack_size then
        if STACK_SIZE_MAX <? stack_size then Ret None
        else Ret (Some (stack_size, stack_size))
      else Ret (Some (stack_size, stack_size_max))
  | REOP_drop | REOP_check_advance =>
      let* _ := c_assert (0 <? stack_size) in
      Ret (Some (stack_size - 1, stack_size_max))
  | _ => Ret (Some (stack_size, stack_size_max))
  end.

Definition lre_compute_stack_size (m : list Z) (bc_buf_len : Z) : outcome Z :=
  let bc_buf_len := bc_buf_len - RE_HEADER_LEN in
  iter (S (Z.to_nat bc_buf_len)) (fun '(pos, stack_size, stack_size_max) =>
    if pos <? bc_buf_len then
      let p := RE_HEADER_LEN + pos in
      let* opcode := rd m p in
      let* len := reop_size opcode in
      let* _ := c_assert (opcode <? REOP_COUNT) in
      let* _ := c_assert (pos + len <=? bc_buf_len) in
      match reop_of opcode with
      | None => Err AssertFail
      | Some op =>
          let* e := stack_effect op stack_size stack_size_max in
          match e with
          | None => Ret (inr (-1))
          | Some (stack_size, stack_size_max) =>
              let* len := instr_len m p opcode in
              Ret (inl (pos + len, stack_size, stack_size_max))
          end
      end
    else Ret (inr stack_size_max)) (0, 0, 0).

Section Captures.
Context `{AL : Allocator}.

(** * Captures of the pattern *)

(** What the scan of [re_parse_captures] does at one character: go on from the
    next position with a capture index and the named-capture flag, or stop with
    a result. *)
Inductive capture_step :=
  | CapNext (p capture_index named : Z)
  | CapDone (ret named : Z).

(** [capture_index++; if (capture_index >= CAPTURE_COUNT_MAX) goto done]. *)
Definition count_capture (has_name : bool) (p capture_index named : Z) : capture_step :=
  let capture_index := capture_index + 1 in
  if CAPTURE_COUNT_MAX <=? capture_index
  then CapDone (if has_name then -1 else capture_index) named
  else CapNext p capture_index named.

(** The parenthesis at [p]. *)
Definition capture_paren (m : list Z) (capture_name : option (list Z)) (p capture_index named : Z)
    : outcome capture_step :=
  let has_name := match capture_name with Some _ => true | None => false end in
  let* c1 := rd m (p + 1) in
  if negb (c1 =? 63) then Ret (count_capture has_name p capture_index named)
  else
    let* c2 := rd m (p + 2) in
    let* c3 := if c2 =? 60 then rd m (p + 3) else Ret 61 in
    if (c3 =? 61) || (c3 =? 33) then Ret (CapNext p capture_index named)
    else
      match capture_name with
      | None => Ret (count_capture has_name p capture_index 1)
      | Some capture_name =>
          let p := p + 3 in
          let* (name, r) :=
            re_parse_group_name m (replicate (Z.to_nat TMP_BUF_SIZE) 0) TMP_BUF_SIZE p in
          match r with
          | Some p =>
              let* same := strcmp_eq name capture_name in
              if same : bool then Ret (CapDone capture_index 1)
              else Ret (count_capture has_name p capture_index 1)
          | None => Ret (count_capture has_name p capture_index 1)
          end
      end.

(** The loop over the class in brackets at [p]. *)
Definition capture_class (m : list Z) (buf_end p : Z) : outcome Z :=
  let* c := rd m p in
  iter (S (List.length m)) (fun p =>
    if p <? buf_end then
      let* c := rd m p in
      if c =? 93 then Ret (inr p)
      else if c =? 92 then Ret (inl (p + 1 + 1)) else Ret (inl (p + 1))
    else Ret (inr p)) (p + (1 + b2z (c =? 93))).

(** [re_parse_captures]: the result and [*phas_named_captures]. *)
Definition re_parse_captures (m : list Z) (buf_end : Z) (capture_name : option (list Z))
    : outcome (Z * Z) :=
  iter (S (List.length m)) (fun '(p, capture_index, named) =>
    if p <? buf_end then
      let* c := rd m p in
      let* r :=
        if c =? 40 then capture_paren m capture_name p capture_index named
        else if c =? 92 then Ret (CapNext (p + 1) capture_index named)
        else if c =? 91 then
          let* p := capture_class m buf_end p in Ret (CapNext p capture_index named)
        else Ret (CapNext p capture_index named) in
      match r with
      | CapNext p capture_index named => Ret (inl (p + 1, capture_index, named))
      | CapDone ret named => Ret (inr (ret, named))
      end
    else
      Ret (inr (match capture_name with Some _ => -1 | None => capture_index end, named)))
    (0, 1, 0).

Definition re_count_captures : parser Z :=
  let! s := pget in
  if total_capture_count s <? 0 then
    let! (n, named) := plift (re_parse_captures (pattern s) (buf_end s) None) in
    let! _ := pmodify (set_captures (capture_count s) n named) in
    pret n
  else pret (total_capture_count s).

Definition re_has_named_captures : parser bool :=
  let! s := pget in
  let! _ := if has_named_captures s <? 0 then re_count_captures else pret 0 in
  let! s := pget in
  pret (negb (has_named_captures s =? 0)).

(** [find_group_name(s, name)] on the block of [s->group_names]; the test of a
    null block is that of an empty one. *)
Definition find_group_name (g : DynBuf) (name : list Z) : outcome Z :=
  if bool_decide (buf g = []) then Ret (-1)
  else
    let* name_len := strlen name 0 in
    iter (S (List.length (buf g))) (fun '(p, capture_index) =>
      if p <? size g then
        let* len := strlen (buf g) p in
        let* same := if len =? name_len then memcmp_eq name 0 (buf g) p name_len else Ret false in
        if same : bool then Ret (inr capture_index)
        else Ret (inl (p + (len + 1), capture_index + 1))
      else Ret (inr (-1))) (0, 1).
End Captures.
