(* ===== verification/ReCompile.v ===== *)
(** The regular expression compiler of [libregexp.c]: terms and quantifiers,
    alternatives, disjunctions, and [lre_compile].

    The functions [re_parse_term], [re_parse_alternative] and
    [re_parse_disjunction] are mutually recursive.  The first two are given the
    last one as an argument, and [re_parse_disjunction] recurses on the depth of
    calls at which [lre_check_stack_overflow], a function of the embedder,
    answers that the C stack is exhausted. *)
From Stdlib Require Import ZArith Lia Bool List String.
From stdpp Require Import base tactics list numbers strings.
From S2P Require Import Prelude Alloc Utf8 CString DynBuf CharRange CaseConv UnicodeSets Regexp.
From S2P Require Import ReState ReClass ReQuant.

Section Compile.
Context `{AL : Allocator}.

(** * Terms *)

(** Where the [switch] of [re_parse_term] goes: to the quantifier with the
    pointer and the values of [last_atom_start] and [last_capture_count], to the
    labels [parse_class_atom], [normal_char] (with a character) and
    [emit_back_reference] (with a capture), or, for [nothing to repeat] and the
    like, out of the function. *)
Inductive term_next :=
  | TQuantifier (p last_atom_start last_capture_count : Z)
  | TClassAtom (p : Z)
  | TNormalChar (p c : Z)
  | TBackReference (p c : Z).

(** The term has no atom to repeat. *)
Definition no_atom (p : Z) : parser term_next := pret (TQuantifier p (-1) 0).

Definition emit_prev (is_backward_dir : bool) : parser unit :=
  if is_backward_dir then re_emit_op REOP_prev else pret tt.

Definition parse_dot (p : Z) (is_backward_dir : bool) : parser term_next :=
  let! last_atom_start := bc_size in
  let! s := pget in
  let! _ := emit_prev is_backward_dir in
  let! _ := re_emit_op (if dotall s then REOP_any else REOP_dot) in
  let! _ := emit_prev is_backward_dir in
  pret (TQuantifier (p + 1) last_atom_start (capture_count s)).

(** The brace of a term. *)
Definition parse_brace (p : Z) : parser term_next :=
  let! s := pget in
  if is_unicode s then re_parse_error "syntax error"
  else
    let! d := chr (p + 1) in
    if negb (lre_is_digit d) then pret (TClassAtom p)
    else
      let! (_, p1) := plift (parse_digits (pattern s) (p + 1) true) in
      let! d := chr p1 in
      let! p1 :=
        if d =? 44 then
          let! d := chr (p1 + 1) in
          if lre_is_digit d then
            let! (_, p1) := plift (parse_digits (pattern s) (p1 + 1) true) in pret p1
          else pret (p1 + 1)
        else pret p1 in
      let! d := chr p1 in
      if negb (d =? 125) then pret (TClassAtom p) else re_parse_error "nothing to repeat".

(** ** Groups *)

Section Groups.
Variable re_parse_disjunction : bool -> parser unit.

Definition disjunction_at (p : Z) (is_backward_dir : bool) : parser Z :=
  let! _ := pmodify (set_buf_ptr p) in
  let! _ := re_parse_disjunction is_backward_dir in
  let! s := pget in
  pret (buf_ptr s).

(** [(?:...)] *)
Definition parse_group (p : Z) (is_backward_dir : bool) : parser term_next :=
  let! last_atom_start := bc_size in
  let! s := pget in
  let! p := disjunction_at (p + 3) is_backward_dir in
  let! p := re_parse_expect p 41 in
  pret (TQuantifier p last_atom_start (capture_count s)).

(** The label [lookahead], [p] after the introducer. *)
Definition parse_lookahead (p : Z) (is_neg is_backward_lookahead : bool) : parser term_next :=
  let! s := pget in
  let! start := bc_size in
  let '(last_atom_start, last_capture_count) :=
    if negb (is_unicode s) && negb is_backward_lookahead then (start, capture_count s)
    else (-1, 0) in
  let! pos := re_emit_op_u32 (REOP_lookahead + b2z is_neg) 0 in
  let! p := disjunction_at p is_backward_lookahead in
  let! p := re_parse_expect p 41 in
  let! _ := re_emit_op REOP_match in
  let! e := bc_error in
  if e : bool then pfail
  else
    let! s := pget in
    let! _ := bc_put_u32 pos (size (byte_code s) - (pos + 4)) in
    pret (TQuantifier p last_atom_start last_capture_count).

(** The label [parse_capture]. *)
Definition parse_capture (p : Z) (is_backward_dir : bool) : parser term_next :=
  let! s := pget in
  if CAPTURE_COUNT_MAX <=? capture_count s then re_parse_error "too many captures"
  else
    let! last_atom_start := bc_size in
    let capture_index := capture_count s in
    let! _ := pmodify (fun s => set_captures (capture_count s + 1) (total_capture_count s)
                                  (has_named_captures s) s) in
    let! _ := re_emit_op_u8 (REOP_save_start + b2z is_backward_dir) capture_index in
    let! p := disjunction_at p is_backward_dir in
    let! _ := re_emit_op_u8 (REOP_save_start + 1 - b2z is_backward_dir) capture_index in
    let! p := re_parse_expect p 41 in
    pret (TQuantifier p last_atom_start capture_index).

(** [re_parse_group_name(s->u.tmp_buf, sizeof(s->u.tmp_buf), &p)]. *)
Definition parse_name_at (p : Z) : parser (option Z) :=
  let! s := pget in
  let! (u, r) := plift (re_parse_group_name (pattern s) (s_u s) TMP_BUF_SIZE p) in
  let! _ := pmodify (set_u u) in
  pret r.

(** [(?<name>...)], [p] after the [<]. *)
Definition parse_named_group (p : Z) (is_backward_dir : bool) : parser term_next :=
  let! r := parse_name_at p in
  match r with
  | None => re_parse_error "invalid group name"
  | Some p =>
      let! s := pget in
      let! i := plift (find_group_name (group_names s) (s_u s)) in
      if 0 <? i then re_parse_error "duplicate group name"
      else
        let! len := plift (strlen (s_u s) 0) in
        let! name := plift (rd_slice (s_u s) 0 (len + 1)) in
        let! _ := on_group_names (fun h g => dbuf_put h g name) in
        let! _ := pmodify (fun s => set_captures (capture_count s) (total_capture_count s) 1 s) in
        parse_capture p is_backward_dir
  end.

Definition parse_paren (p : Z) (is_backward_dir : bool) : parser term_next :=
  let! c1 := chr (p + 1) in
  if c1 =? 63 then
    let! c2 := chr (p + 2) in
    if c2 =? 58 then parse_group p is_backward_dir
    else if (c2 =? 61) || (c2 =? 33) then parse_lookahead (p + 3) (c2 =? 33) false
    else if c2 =? 60 then
      let! c3 := chr (p + 3) in
      if (c3 =? 61) || (c3 =? 33) then parse_lookahead (p + 4) (c3 =? 33) true
      else parse_named_group (p + 3) is_backward_dir
    else re_parse_error "invalid group"
  else
    let! _ := on_group_names (fun h g => dbuf_putc h g 0) in
    parse_capture (p + 1) is_backward_dir.

(** ** Escapes *)

(** [if (s->is_unicode || re_has_named_captures(s)) return re_parse_error(s, msg);
    else goto parse_class_atom]. *)
Definition named_reference_error (msg : string) (p : Z) : parser term_next :=
  let! s := pget in
  let! strict := if is_unicode s then pret true else re_has_named_captures in
  if strict : bool then re_parse_error msg else pret (TClassAtom p).

(** [\k<name>], [p] at the backslash. *)
Definition parse_named_reference (p : Z) : parser term_next :=
  let! c := chr (p + 2) in
  if negb (c =? 60) then named_reference_error "expecting group name" p
  else
    let! r := parse_name_at (p + 3) in
    match r with
    | None => named_reference_error "invalid group name" p
    | Some p1 =>
        let! s := pget in
        let! c := plift (find_group_name (group_names s) (s_u s)) in
        if c <? 0 then
          let! (c, _) := plift (re_parse_captures (pattern s) (buf_end s) (Some (s_u s))) in
          if c <? 0 then named_reference_error "group name not defined" p
          else pret (TBackReference p1 c)
        else pret (TBackReference p1 c)
    end.

(** An octal digit at [p] appended to [c]. *)
Definition octal_digit (p c : Z) : parser (option (Z * Z)) :=
  let! d := chr p in
  if (48 <=? d) && (d <=? 55) then pret (Some (p + 1, Z.shiftl c 3 + d - 48)) else pret None.

(** [\0], [p] after the digit. *)
Definition parse_escape_0 (p : Z) : parser term_next :=
  let! s := pget in
  if is_unicode s then
    let! d := chr p in
    if lre_is_digit d then re_parse_error "invalid decimal escape in regular expression"
    else pret (TNormalChar p 0)
  else
    let! r := octal_digit p 0 in
    match r with
    | None => pret (TNormalChar p 0)
    | Some (p, c) =>
        let! r := octal_digit p c in
        match r with
        | None => pret (TNormalChar p c)
        | Some (p, c) => pret (TNormalChar p c)
        end
    end.

(** The legacy octal sequence at [p], which starts with a digit from 1 to 9. *)
Definition parse_legacy_octal (p : Z) : parser term_next :=
  let! d := chr p in
  if d <=? 55 then
    let '(p, c) := if d <=? 51 then (p + 1, d - 48) else (p, 0) in
    let! r := octal_digit p c in
    match r with
    | None => pret (TNormalChar p c)
    | Some (p, c) =>
        let! r := octal_digit p c in
        match r with
        | None => pret (TNormalChar p c)
        | Some (p, c) => pret (TNormalChar p c)
        end
    end
  else pret (TNormalChar (p + 1) d).

(** A decimal escape, [p] at its first digit. *)
Definition parse_decimal_escape (p : Z) : parser term_next :=
  let! s := pget in
  let! (c, p1) := plift (parse_digits (pattern s) p false) in
  let! out_of_range :=
    if c <? 0 then pret true
    else if capture_count s <=? c then let! n := re_count_captures in pret (n <=? c)
    else pret false in
  if out_of_range : bool then
    if negb (is_unicode s) then parse_legacy_octal p
    else re_parse_error "back reference out of range in regular expression"
  else pret (TBackReference p1 c).

Definition parse_escape (p : Z) : parser term_next :=
  let! c := chr (p + 1) in
  if (c =? 98) || (c =? 66) then
    let! _ := re_emit_op (REOP_word_boundary + b2z (negb (c =? 98))) in
    no_atom (p + 2)
  else if c =? 107 then parse_named_reference p
  else if c =? 48 then parse_escape_0 (p + 2)
  else if (49 <=? c) && (c <=? 57) then parse_decimal_escape (p + 1)
  else pret (TClassAtom p).

(** The class in brackets at [p]. *)
Definition parse_class (p : Z) (is_backward_dir : bool) : parser term_next :=
  let! last_atom_start := bc_size in
  let! s := pget in
  let! _ := emit_prev is_backward_dir in
  let! p := re_parse_char_class p in
  let! _ := emit_prev is_backward_dir in
  pret (TQuantifier p last_atom_start (capture_count s)).

(** The [switch] on the first character of the term. *)
Definition term_head (p : Z) (is_backward_dir : bool) : parser term_next :=
  let! s := pget in
  let! c := chr p in
  if c =? 94 then let! _ := re_emit_op REOP_line_start in no_atom (p + 1)
  else if c =? 36 then let! _ := re_emit_op REOP_line_end in no_atom (p + 1)
  else if c =? 46 then parse_dot p is_backward_dir
  else if c =? 123 then parse_brace p
  else if (c =? 42) || (c =? 43) || (c =? 63) then re_parse_error "nothing to repeat"
  else if c =? 40 then parse_paren p is_backward_dir
  else if c =? 92 then parse_escape p
  else if c =? 91 then parse_class p is_backward_dir
  else if ((c =? 93) || (c =? 125)) && is_unicode s then re_parse_error "syntax error"
  else pret (TClassAtom p).

(** The code of a character. *)
Definition emit_char (c : Z) : parser unit :=
  let! s := pget in
  let! c := if ignore_case s then plift (lre_canonicalize c (is_unicode s)) else pret c in
  if c <=? 0x7f then re_emit_op_u8 REOP_char8 c
  else if c <=? 0xffff then re_emit_op_u16 REOP_char16 c
  else let! _ := re_emit_op_u32 REOP_char32 c in pret tt.

(** The label [normal_char]. *)
Definition emit_atom (p : Z) (a : class_atom) (is_backward_dir : bool) : parser term_next :=
  let! last_atom_start := bc_size in
  let! s := pget in
  let! _ := emit_prev is_backward_dir in
  let! _ := match a with
            | AClass cr => re_emit_range cr
            | AChar c => emit_char c
            end in
  let! _ := emit_prev is_backward_dir in
  pret (TQuantifier p last_atom_start (capture_count s)).

(** The term up to its quantifier: the pointer, [last_atom_start] and
    [last_capture_count]. *)
Definition parse_atom (p : Z) (is_backward_dir : bool) : parser (Z * Z * Z) :=
  let! t := term_head p is_backward_dir in
  let! t :=
    match t with
    | TQuantifier _ _ _ => pret t
    | TClassAtom p =>
        let! (a, p) := get_class_atom p false in
        emit_atom p a is_backward_dir
    | TNormalChar p c => emit_atom p (AChar c) is_backward_dir
    | TBackReference p c =>
        let! last_atom_start := bc_size in
        let! s := pget in
        let! _ := re_emit_op_u8 (REOP_back_reference + b2z is_backward_dir) c in
        pret (TQuantifier p last_atom_start (capture_count s))
    end in
  match t with
  | TQuantifier p start count => pret (p, start, count)
  | _ => pfail
  end.
End Groups.

(** * Quantifiers *)

(** [{min,max}] at [p]: [None] is a [break]. *)
Definition parse_counts (p : Z) : parser (option (Z * Z * Z)) :=
  let! s := pget in
  let! d := chr (p + 1) in
  if negb (lre_is_digit d) then
    if is_unicode s then re_parse_error "invalid repetition count" else pret None
  else
    let! (quant_min, p1) := plift (parse_digits (pattern s) (p + 1) true) in
    let! d := chr p1 in
    let! (quant_max, p1) :=
      if d =? 44 then
        let! d := chr (p1 + 1) in
        if lre_is_digit d then
          let! (quant_max, p2) := plift (parse_digits (pattern s) (p1 + 1) true) in
          if quant_max <? quant_min then re_parse_error "invalid repetition count"
          else pret (quant_max, p2)
        else pret (INT32_MAX, p1 + 1)
      else pret (quant_min, p1) in
    let! d := chr p1 in
    if negb (d =? 125) && negb (is_unicode s) then pret None
    else
      let! p1 := re_parse_expect p1 125 in
      pret (Some (p1, quant_min, quant_max)).

(** The quantifier at [p]: the new [p], the counts and whether it is greedy. *)
Definition parse_quantifier (p : Z) : parser (option (Z * Z * Z * bool)) :=
  let! c := chr p in
  let! q :=
    if c =? 42 then pret (Some (p + 1, 0, INT32_MAX))
    else if c =? 43 then pret (Some (p + 1, 1, INT32_MAX))
    else if c =? 63 then pret (Some (p + 1, 0, 1))
    else if c =? 123 then parse_counts p
    else pret None in
  match q with
  | None => pret None
  | Some (p, quant_min, quant_max) =>
      let! c := chr p in
      if c =? 63 then pret (Some (p + 1, quant_min, quant_max, false))
      else pret (Some (p, quant_min, quant_max, true))
  end.

Definition insert_or_memory_error (pos len : Z) : parser unit :=
  let! r := on_byte_code (fun h b => dbuf_insert h b pos len) in
  if negb (r =? 0) then re_parse_out_of_memory else pret tt.

(** The optimization for simple quantifiers: whether it applied. *)
Definition emit_simple_quantifier (last_atom_start quant_min quant_max : Z) : parser bool :=
  let! e := bc_error in
  if e : bool then re_parse_out_of_memory
  else
    let! s := pget in
    let! len := plift (re_is_simple_quantifier (buf (byte_code s)) last_atom_start
                         (i32 (size (byte_code s) - last_atom_start))) in
    if 0 <? len then
      let! _ := re_emit_op REOP_match in
      let! _ := insert_or_memory_error last_atom_start 17 in
      let pos := last_atom_start in
      let! _ := bc_set pos REOP_simple_greedy_quant in
      let! s := pget in
      let! _ := bc_put_u32 (pos + 1) (size (byte_code s) - last_atom_start - 17) in
      let! _ := bc_put_u32 (pos + 5) quant_min in
      let! _ := bc_put_u32 (pos + 9) quant_max in
      let! _ := bc_put_u32 (pos + 13) len in
      pret true
    else pret false.

Definition emit_when (b : bool) (op : Z) : parser unit :=
  if b then re_emit_op op else pret tt.

(** The code of a quantifier whose minimum is 0; [len] is the length of the atom
    at [start]. *)
Definition emit_quantifier_0 (start len last_capture_count quant_max : Z)
    (greedy add_zero_advance_check : bool) : parser unit :=
  let check := b2z add_zero_advance_check in
  let! s := pget in
  let! start :=
    if negb (last_capture_count =? capture_count s) then
      let! _ := insert_or_memory_error start 3 in
      let! _ := bc_set start REOP_save_reset in
      let! _ := bc_set (start + 1) last_capture_count in
      let! _ := bc_set (start + 2) (capture_count s - 1) in
      pret (start + 3)
    else pret start in
  if quant_max =? 0 then
    pmodify (fun s =>
      let b := byte_code s in
      set_byte_code (s_heap s) (mkDynBuf (buf b) (u64 start) (allocated_size b) (error b)) s)
  else if (quant_max =? 1) || (quant_max =? INT32_MAX) then
    let has_goto := quant_max =? INT32_MAX in
    let! _ := insert_or_memory_error start (5 + check) in
    let! _ := bc_set start (REOP_split_goto_first + b2z greedy) in
    let! _ := bc_put_u32 (start + 1) (len + 5 * b2z has_goto + check * 2) in
    let! _ :=
      if add_zero_advance_check then
        let! _ := bc_set (start + 1 + 4) REOP_push_char_pos in
        re_emit_op REOP_check_advance
      else pret tt in
    if has_goto then let! _ := re_emit_goto REOP_goto start in pret tt else pret tt
  else
    let! _ := insert_or_memory_error start (10 + check) in
    let! _ := bc_set start REOP_push_i32 in
    let! _ := bc_put_u32 (start + 1) quant_max in
    let! _ := bc_set (start + 5) (REOP_split_goto_first + b2z greedy) in
    let! _ := bc_put_u32 (start + 6) (len + 5 + check * 2) in
    let! _ :=
      if add_zero_advance_check then
        let! _ := bc_set (start + 10) REOP_push_char_pos in
        re_emit_op REOP_check_advance
      else pret tt in
    let! _ := re_emit_goto REOP_loop (start + 5) in
    re_emit_op REOP_drop.

(** The copy of the atom at [start] after a split, and the jump back. *)
Definition emit_copy (start len : Z) (greedy add_zero_advance_check : bool) (back : Z)
    : parser unit :=
  let! pos := bc_size in
  let! _ := re_emit_op_u32 (REOP_split_goto_first + b2z greedy)
              (len + 5 + b2z add_zero_advance_check * 2) in
  let! _ := emit_when add_zero_advance_check REOP_push_char_pos in
  let! _ := on_byte_code (fun h b => dbuf_put_self h b start len) in
  let! _ := emit_when add_zero_advance_check REOP_check_advance in
  let! _ := re_emit_goto back pos in
  pret tt.

(** The code of a quantifier whose minimum is positive. *)
Definition emit_quantifier_1 (start len quant_min quant_max : Z)
    (greedy add_zero_advance_check : bool) : parser unit :=
  if (quant_min =? 1) && (quant_max =? INT32_MAX) && negb add_zero_advance_check then
    let! _ := re_emit_goto (REOP_split_next_first - b2z greedy) start in pret tt
  else
    let! start :=
      if quant_min =? 1 then pret start
      else
        let! _ := insert_or_memory_error start 5 in
        let! _ := bc_set start REOP_push_i32 in
        let! _ := bc_put_u32 (start + 1) quant_min in
        let! _ := re_emit_goto REOP_loop (start + 5) in
        let! _ := re_emit_op REOP_drop in
        pret (start + 5) in
    if quant_max =? INT32_MAX then
      emit_copy start len greedy add_zero_advance_check REOP_goto
    else if quant_min <? quant_max then
      let! _ := re_emit_op_u32 REOP_push_i32 (quant_max - quant_min) in
      let! _ := emit_copy start len greedy add_zero_advance_check REOP_loop in
      re_emit_op REOP_drop
    else pret tt.

(** The label [quantifier] for the atom at [last_atom_start]. *)
Definition emit_quantifier (last_atom_start last_capture_count quant_min quant_max : Z)
    (greedy : bool) : parser unit :=
  let! simple :=
    if greedy then
      let! simple :=
        if 0 <? quant_max then emit_simple_quantifier last_atom_start quant_min quant_max
        else pret false in
      if simple : bool then pret true
      else
        let! e := bc_error in
        if e : bool then re_parse_out_of_memory else pret false
    else pret false in
  if simple : bool then pret tt
  else
    let! s := pget in
    let len := i32 (size (byte_code s) - last_atom_start) in
    let! add_zero_advance_check :=
      plift (re_need_check_advance (buf (byte_code s)) last_atom_start len) in
    if quant_min =? 0 then
      emit_quantifier_0 last_atom_start len last_capture_count quant_max greedy
        add_zero_advance_check
    else
      emit_quantifier_1 last_atom_start len quant_min quant_max greedy add_zero_advance_check.

Definition re_parse_term (re_parse_disjunction : bool -> parser unit) (is_backward_dir : bool)
    : parser unit :=
  let! s := pget in
  let! (p, last_atom_start, last_capture_count) :=
    parse_atom re_parse_disjunction (buf_ptr s) is_backward_dir in
  let! p :=
    if 0 <=? last_atom_start then
      let! q := parse_quantifier p in
      match q with
      | None => pret p
      | Some (p, quant_min, quant_max, greedy) =>
          let! _ := emit_quantifier last_atom_start last_capture_count quant_min quant_max greedy in
          pret p
      end
    else pret p in
  pmodify (set_buf_ptr p).

(** * Alternatives and disjunctions *)

(** The term that ends the byte code is moved to [start]. *)
Definition move_term_front (start term_start : Z) : parser unit :=
  let! s := pget in
  let e := size (byte_code s) in
  let term_size := u64 (e - term_start) in
  let! r := on_byte_code (fun h b =>
    let '(h, b, r) := dbuf_realloc h b (u64 (e + term_size)) in Ret (h, b, r)) in
  if negb (r =? 0) then pfail
  else
    bc_store (fun m =>
      let* d := rd_slice m start (e - start) in
      let* m := wr_slice m (start + term_size) d in
      let* d := rd_slice m e term_size in
      wr_slice m start d).

Definition re_parse_alternative (re_parse_disjunction : bool -> parser unit)
    (is_backward_dir : bool) : parser unit :=
  let! s := pget in
  let start := size (byte_code s) in
  piter (pattern_fuel s) (fun _ =>
    let! s := pget in
    let p := buf_ptr s in
    if buf_end s <=? p then pret (inr tt)
    else
      let! c := chr p in
      if (c =? 124) || (c =? 41) then pret (inr tt)
      else
        let term_start := size (byte_code s) in
        let! _ := re_parse_term re_parse_disjunction is_backward_dir in
        let! _ := if is_backward_dir then move_term_front start term_start else pret tt in
        pret (inl tt)) tt.

(** The body of [while ( *s->buf_ptr == '|')]. *)
Definition disjunction_step (re_parse_disjunction : bool -> parser unit) (start : Z)
    (is_backward_dir : bool) : parser (unit + unit) :=
  let! s := pget in
  let! c := chr (buf_ptr s) in
  if c =? 124 then
    let! _ := pmodify (set_buf_ptr (buf_ptr s + 1)) in
    let len := i32 (size (byte_code s) - start) in
    let! _ := insert_or_memory_error start 5 in
    let! _ := bc_set start REOP_split_next_first in
    let! _ := bc_put_u32 (start + 1) (len + 5) in
    let! pos := re_emit_op_u32 REOP_goto 0 in
    let! _ := re_parse_alternative re_parse_disjunction is_backward_dir in
    let! s := pget in
    let! _ := bc_put_u32 pos (size (byte_code s) - (pos + 4)) in
    pret (inl tt)
  else pret (inr tt).

Fixpoint re_parse_disjunction (depth : nat) (is_backward_dir : bool) : parser unit :=
  match depth with
  | O => re_parse_error "stack overflow"
  | S depth =>
      let! start := bc_size in
      let! _ := re_parse_alternative (re_parse_disjunction depth) is_backward_dir in
      let! s := pget in
      piter (pattern_fuel s) (fun _ =>
        disjunction_step (re_parse_disjunction depth) start is_backward_dir) tt
  end.

(** * [lre_compile] *)

(** The header and the code before the pattern's. *)
Definition emit_prologue (flags : Z) : parser unit :=
  let! _ := on_byte_code (fun h b => dbuf_put_u16 h b flags) in
  let! _ := on_byte_code (fun h b => dbuf_putc h b 0) in
  let! _ := on_byte_code (fun h b => dbuf_putc h b 0) in
  let! _ := on_byte_code (fun h b => dbuf_put_u32 h b 0) in
  let! _ :=
    if negb (flag_set flags LRE_FLAG_STICKY) then
      let! _ := re_emit_op_u32 REOP_split_goto_first (1 + 5) in
      let! _ := re_emit_op REOP_any in
      let! _ := re_emit_op_u32 REOP_goto (-(5 + 1 + 5)) in
      pret tt
    else pret tt in
  re_emit_op_u8 REOP_save_start 0.

(** The code after the pattern's, and the header completed. *)
Definition emit_epilogue : parser unit :=
  let! _ := re_emit_op_u8 REOP_save_end 0 in
  let! _ := re_emit_op REOP_match in
  let! s := pget in
  let! c := chr (buf_ptr s) in
  if negb (c =? 0) then re_parse_error "extraneous characters at the end"
  else
    let! e := bc_error in
    if e : bool then re_parse_out_of_memory
    else
      let! s := pget in
      let! stack_size := plift (lre_compute_stack_size (buf (byte_code s)) (size (byte_code s))) in
      if stack_size <? 0 then re_parse_error "too many imbricated quantifiers"
      else
        let! _ := bc_set RE_HEADER_CAPTURE_COUNT (capture_count s) in
        let! _ := bc_set RE_HEADER_STACK_SIZE stack_size in
        let! _ := bc_put_u32 RE_HEADER_BYTECODE_LEN (size (byte_code s) - RE_HEADER_LEN) in
        if capture_count s - 1 <? size (group_names s) then
          let g := group_names s in
          let! names := plift (rd_slice (buf g) 0 (size g)) in
          let! _ := on_byte_code (fun h b => dbuf_put h b names) in
          bc_store (fun m =>
            let* f := lre_get_flags m in
            put_u16 m RE_HEADER_FLAGS (u16 (Z.lor LRE_FLAG_NAMED_GROUPS f)))
        else pret tt.

Definition re_init (h : heap) (pat : list Z) (buf_len flags : Z) : REParseState :=
  mkREParseState h dbuf_init pat 0 buf_len flags (flag_set flags LRE_FLAG_UNICODE)
    (flag_set flags LRE_FLAG_UNICODE_SETS) (flag_set flags LRE_FLAG_IGNORECASE)
    (flag_set flags LRE_FLAG_DOTALL) 1 (-1) (-1) dbuf_init
    (replicate (Z.to_nat TMP_BUF_SIZE) 0).

(** [lre_compile(&len, error_msg, error_msg_size, pat, buf_len, flags, opaque)],
    with [depth] calls of [re_parse_disjunction] allowed on the C stack: the
    state of the allocator, the memory of [error_msg], and the block returned
    with its length, [None] for a null result. *)
Definition lre_compile (depth : nat) (h : heap) (error_msg : list Z) (error_msg_size : Z)
    (pat : list Z) (buf_len flags : Z) : outcome (heap * list Z * option (list Z * Z)) :=
  let* (r, s) := (let! _ := emit_prologue flags in
                  let! _ := re_parse_disjunction depth false in
                  emit_epilogue) (re_init h pat buf_len flags) in
  match r with
  | None =>
      let* error_msg := js__pstrcpy error_msg 0 error_msg_size (s_u s) 0 in
      Ret (s_heap s, error_msg, None)
  | Some _ =>
      let* error_msg := wr error_msg 0 0 in
      Ret (s_heap s, error_msg, Some (buf (byte_code s), size (byte_code s)))
  end.
End Compile.
