(* ===== verification/ReExec.v ===== *)
(** The backtracking matcher of [libregexp.c].

    The subject [cbuf] is a list of units, bytes for [cbuf_type] 0 and 16-bit
    words for 1 and 2, and the pointers into it are unit indexes: [cbuf] itself
    is 0, the byte offset [n] is [n / unit_size], and no pointer into it is null.  A pointer pushed
    on the stack of the matcher is its index, too.  The memory [bc] is the
    compiled expression, [pc] an offset in it. *)
From Stdlib Require Import ZArith Lia Bool List.
From stdpp Require Import base tactics list numbers.
From S2P Require Import Prelude Alloc Utf8 CaseConv Regexp.

(** * Characters of the subject *)

(** The bytes of a unit: the macros below read bytes for [cbuf_type] 0 and 16-bit
    words for any other. *)
Definition unit_size (cbuf_type : Z) : Z := if cbuf_type =? 0 then 1 else 2.

(** [GET_CHAR(c, cptr, cbuf_end, cbuf_type)]: the character and the new [cptr]. *)
Definition GET_CHAR (cbuf : list Z) (cptr cbuf_end cbuf_type : Z) : outcome (Z * Z) :=
  if cbuf_type =? 0 then let* c := rd cbuf cptr in Ret (c, cptr + 1)
  else
    let* c := rd cbuf cptr in
    let p := cptr + 1 in
    if is_hi_surrogate c && (cbuf_type =? 2) && (p <? cbuf_end) then
      let* d := rd cbuf p in
      if is_lo_surrogate d then Ret (from_surrogate c d, p + 1) else Ret (c, p)
    else Ret (c, p).

Definition PEEK_CHAR (cbuf : list Z) (cptr cbuf_end cbuf_type : Z) : outcome Z :=
  let* (c, _) := GET_CHAR cbuf cptr cbuf_end cbuf_type in Ret c.

(** [GET_PREV_CHAR(c, cptr, cbuf_start, cbuf_type)]. *)
Definition GET_PREV_CHAR (cbuf : list Z) (cptr cbuf_start cbuf_type : Z) : outcome (Z * Z) :=
  let p := cptr - 1 in
  let* c := rd cbuf p in
  if cbuf_type =? 0 then Ret (c, p)
  else if is_lo_surrogate c && (cbuf_type =? 2) && (cbuf_start <? p) then
    let* d := rd cbuf (p - 1) in
    if is_hi_surrogate d then Ret (from_surrogate d c, p - 1) else Ret (c, p)
  else Ret (c, p).

Definition PEEK_PREV_CHAR (cbuf : list Z) (cptr cbuf_start cbuf_type : Z) : outcome Z :=
  let* (c, _) := GET_PREV_CHAR cbuf cptr cbuf_start cbuf_type in Ret c.

(** [PREV_CHAR] reads nothing for 8-bit characters. *)
Definition PREV_CHAR (cbuf : list Z) (cptr cbuf_start cbuf_type : Z) : outcome Z :=
  if cbuf_type =? 0 then Ret (cptr - 1)
  else let* (_, p) := GET_PREV_CHAR cbuf cptr cbuf_start cbuf_type in Ret p.

(** * State *)

Inductive REExecStateEnum :=
  | RE_EXEC_STATE_SPLIT
  | RE_EXEC_STATE_LOOKAHEAD
  | RE_EXEC_STATE_NEGATIVE_LOOKAHEAD
  | RE_EXEC_STATE_GREEDY_QUANT.

(** A saved state: [rs_captures] and [rs_stack] are the two parts of [buf]. *)
Record REExecState := mkREExecState {
  rs_type : REExecStateEnum;
  rs_stack_len : Z;
  rs_count : Z;
  rs_cptr : Z;
  rs_pc : Z;
  rs_captures : list (option Z);
  rs_stack : list Z
}.

(** The fields of [REExecContext] that [lre_exec] sets once. *)
Record REExecContext := mkREExecContext {
  bc : list Z;
  cbuf : list Z;
  cbuf_end : Z;
  cbuf_type : Z;
  capture_count : Z;
  stack_size_max : Z;
  multi_line : bool;
  ignore_case : bool;
  is_unicode : bool;
  state_size : Z
}.

(** What the calls of [lre_exec_backtrack] share: the allocator's state, the
    arrays [capture] and [stack] and the saved states, the last one first. *)
Record ExecState {AL : Allocator} := mkExecState {
  x_heap : heap;
  x_capture : list (option Z);
  x_stack : list Z;
  state_stack : list REExecState;
  state_stack_size : Z
}.
Arguments ExecState : clear implicits.
Arguments mkExecState {AL}.

(** The result of [lre_exec_backtrack]: -1, 0, and otherwise the final [cptr],
    returned as 1 unless [no_recurse]. *)
Inductive exec_result :=
  | ExecError
  | ExecNoMatch
  | ExecMatch (cptr : Z).

Section Exec.
Context `{AL : Allocator}.
Variable s : REExecContext.

(** What an instruction does: go on, go to [no_match], or return. *)
Inductive exec_next :=
  | Next (g : ExecState AL) (stack_len pc cptr : Z)
  | NoMatch (g : ExecState AL)
  | Return (g : ExecState AL) (r : exec_result).

Definition set_capture (g : ExecState AL) (c : list (option Z)) : ExecState AL :=
  mkExecState (x_heap g) c (x_stack g) (state_stack g) (state_stack_size g).
Definition set_stack (g : ExecState AL) (st : list Z) : ExecState AL :=
  mkExecState (x_heap g) (x_capture g) st (state_stack g) (state_stack_size g).
Definition set_states (g : ExecState AL) (l : list REExecState) : ExecState AL :=
  mkExecState (x_heap g) (x_capture g) (x_stack g) l (state_stack_size g).

(** The stack of saved states when it is full: grown by half, the failure of
    [lre_realloc] being reported. *)
Definition grow_states (g : ExecState AL) : ExecState AL * bool :=
  if state_stack_size g <? zlen (state_stack g) + 1 then
    let new_size := u64 (state_stack_size g * 3) / 2 in
    let new_size := if new_size <? 8 then 8 else new_size in
    let '(h, ok) := alloc (x_heap g) (u64 (new_size * state_size s)) in
    (mkExecState h (x_capture g) (x_stack g) (state_stack g)
       (if ok : bool then new_size else state_stack_size g), negb ok)
  else (g, false).

(** [push_state]: the new state, and whether it failed. *)
Definition push_state (g : ExecState AL) (stack_len pc cptr : Z) (type : REExecStateEnum)
    (count : Z) : outcome (ExecState AL * bool) :=
  let '(g, failed) := grow_states g in
  if failed : bool then Ret (g, true)
  else
    let* captures := rd_slice (x_capture g) 0 (2 * capture_count s) in
    let* stack := rd_slice (x_stack g) 0 stack_len in
    let rs := mkREExecState type (u8 stack_len) count cptr pc captures stack in
    Ret (set_states g (rs :: state_stack g), false).

(** [memcpy(capture, rs->buf, ...)]. *)
Definition restore_captures (g : ExecState AL) (rs : REExecState) : outcome (ExecState AL) :=
  let* captures := wr_slice (x_capture g) 0 (rs_captures rs) in
  Ret (set_capture g captures).

(** [memcpy(stack, rs->buf + 2 * s->capture_count, ...)]. *)
Definition restore_stack (g : ExecState AL) (rs : REExecState) : outcome (ExecState AL) :=
  let* stack := wr_slice (x_stack g) 0 (rs_stack rs) in
  Ret (set_stack g stack).

(** The label [pop_state1]. *)
Definition pop_state1 (g : ExecState AL) (rs : REExecState) (rest : list REExecState)
    : outcome exec_next :=
  let* g := restore_stack g rs in
  Ret (Next (set_states g rest) (rs_stack_len rs) (rs_pc rs) (rs_cptr rs)).

(** The label [pop_state]. *)
Definition pop_state (g : ExecState AL) (rs : REExecState) (rest : list REExecState)
    : outcome exec_next :=
  let* g := restore_captures g rs in
  pop_state1 g rs rest.

(** [for(i = 0; i < char_count; i++) PREV_CHAR]. *)
Definition prev_chars (cptr char_count : Z) : outcome Z :=
  iter (S (Z.to_nat char_count)) (fun '(i, cptr) =>
    if i <? char_count then
      let* cptr := PREV_CHAR (cbuf s) cptr 0 (cbuf_type s) in Ret (inl (i + 1, cptr))
    else Ret (inr cptr)) (0, cptr).

(** A saved [RE_EXEC_STATE_GREEDY_QUANT] on top of [rest]: one match less. *)
Definition pop_greedy (g : ExecState AL) (rs : REExecState) (rest : list REExecState)
    : outcome exec_next :=
  let* g := restore_captures g rs in
  let* g := restore_stack g rs in
  let* char_count := get_u32 (bc s) (rs_pc rs + 12) in
  let* cptr := prev_chars (rs_cptr rs) char_count in
  let* next := get_u32 (bc s) (rs_pc rs) in
  let count := u64 (rs_count rs - 1) in
  let rs' := mkREExecState (rs_type rs) (rs_stack_len rs) count cptr (rs_pc rs) (rs_captures rs)
               (rs_stack rs) in
  Ret (Next (set_states g (if count =? 0 then rest else rs' :: rest))
         (rs_stack_len rs) (rs_pc rs + 16 + i32 next) cptr).

(** The label [recurse] with the result [ret] at [cptr]: the saved states are
    popped down to one that goes on. *)
Fixpoint recurse (g : ExecState AL) (ret : bool) (cptr : Z) (states : list REExecState)
    : outcome exec_next :=
  match states with
  | [] => Ret (Return (set_states g []) (if ret then ExecMatch cptr else ExecNoMatch))
  | rs :: rest =>
      match rs_type rs with
      | RE_EXEC_STATE_SPLIT =>
          if negb ret then pop_state g rs rest else recurse g ret cptr rest
      | RE_EXEC_STATE_GREEDY_QUANT =>
          if negb ret then pop_greedy g rs rest else recurse g ret cptr rest
      | RE_EXEC_STATE_LOOKAHEAD =>
          if ret then pop_state1 g rs rest else recurse g false cptr rest
      | RE_EXEC_STATE_NEGATIVE_LOOKAHEAD =>
          if negb ret then pop_state g rs rest else recurse g false cptr rest
      end
  end.

(** * Instructions *)

Definition canonicalize (c : Z) : outcome Z :=
  if ignore_case s then lre_canonicalize c (is_unicode s) else Ret c.

(** The character at [cptr], canonicalized, and the new [cptr]. *)
Definition get_canonical (cptr : Z) : outcome (Z * Z) :=
  let* (c, cptr) := GET_CHAR (cbuf s) cptr (cbuf_end s) (cbuf_type s) in
  let* c := canonicalize c in
  Ret (c, cptr).

(** The label [test_char]. *)
Definition test_char (g : ExecState AL) (stack_len pc cptr val : Z) : outcome exec_next :=
  if cbuf_end s <=? cptr then Ret (NoMatch g)
  else
    let* (c, cptr) := get_canonical cptr in
    if negb (val =? c) then Ret (NoMatch g) else Ret (Next g stack_len pc cptr).

(** [push_state] and [if (ret < 0) return -1]. *)
Definition push_and_go (g : ExecState AL) (stack_len pc1 cptr : Z) (type : REExecStateEnum)
    (count pc : Z) : outcome exec_next :=
  let* (g, failed) := push_state g stack_len pc1 cptr type count in
  if failed : bool then Ret (Return g ExecError) else Ret (Next g stack_len pc cptr).

Definition exec_line_start (g : ExecState AL) (stack_len pc cptr : Z) : outcome exec_next :=
  if cptr =? 0 then Ret (Next g stack_len pc cptr)
  else if negb (multi_line s) then Ret (NoMatch g)
  else
    let* c := PEEK_PREV_CHAR (cbuf s) cptr 0 (cbuf_type s) in
    if negb (is_line_terminator c) then Ret (NoMatch g) else Ret (Next g stack_len pc cptr).

Definition exec_line_end (g : ExecState AL) (stack_len pc cptr : Z) : outcome exec_next :=
  if cptr =? cbuf_end s then Ret (Next g stack_len pc cptr)
  else if negb (multi_line s) then Ret (NoMatch g)
  else
    let* c := PEEK_CHAR (cbuf s) cptr (cbuf_end s) (cbuf_type s) in
    if negb (is_line_terminator c) then Ret (NoMatch g) else Ret (Next g stack_len pc cptr).

(** [REOP_dot] and [REOP_any]. *)
Definition exec_any (g : ExecState AL) (stack_len pc cptr : Z) (dot : bool) : outcome exec_next :=
  if cptr =? cbuf_end s then Ret (NoMatch g)
  else
    let* (c, cptr) := GET_CHAR (cbuf s) cptr (cbuf_end s) (cbuf_type s) in
    if dot && is_line_terminator c then Ret (NoMatch g) else Ret (Next g stack_len pc cptr).

(** [while (val <= val2)] of [REOP_save_reset]. *)
Definition reset_captures (capture : list (option Z)) (val val2 : Z) : outcome (list (option Z)) :=
  iter (S (S (Z.to_nat val2))) (fun '(val, capture) =>
    if val <=? val2 then
      let* capture := wr capture (2 * val) None in
      let* capture := wr capture (2 * val + 1) None in
      Ret (inl (val + 1, capture))
    else Ret (inr capture)) (val, capture).

Definition exec_loop (g : ExecState AL) (stack_len pc cptr val : Z) : outcome exec_next :=
  let* n := rd (x_stack g) (stack_len - 1) in
  let n := u64 (n - 1) in
  let* st := wr (x_stack g) (stack_len - 1) n in
  Ret (Next (set_stack g st) stack_len (if negb (n =? 0) then pc + i32 val else pc) cptr).

(** [is_word] of the character before [cptr] and of the one at [cptr]. *)
Definition word_before (cptr : Z) : outcome bool :=
  if cptr =? 0 then Ret false
  else let* c := PEEK_PREV_CHAR (cbuf s) cptr 0 (cbuf_type s) in Ret (is_word_char c).
Definition word_at (cptr : Z) : outcome bool :=
  if cbuf_end s <=? cptr then Ret false
  else let* c := PEEK_CHAR (cbuf s) cptr (cbuf_end s) (cbuf_type s) in Ret (is_word_char c).

Definition exec_word_boundary (g : ExecState AL) (stack_len pc cptr : Z) (not_boundary : bool)
    : outcome exec_next :=
  let* v1 := word_before cptr in
  let* v2 := word_at cptr in
  if xorb (xorb v1 v2) (negb not_boundary) then Ret (NoMatch g)
  else Ret (Next g stack_len pc cptr).

(** The comparison of the subject with a capture, forward: the new [cptr], or
    [None] for [no_match]. *)
Definition match_forward (cptr cptr1 cptr1_end : Z) : outcome (option Z) :=
  iter (S (S (length (cbuf s)))) (fun '(cptr1, cptr) =>
    if cptr1 <? cptr1_end then
      if cbuf_end s <=? cptr then Ret (inr None)
      else
        let* (c1, cptr1) := GET_CHAR (cbuf s) cptr1 cptr1_end (cbuf_type s) in
        let* (c2, cptr) := GET_CHAR (cbuf s) cptr (cbuf_end s) (cbuf_type s) in
        let* c1 := canonicalize c1 in
        let* c2 := canonicalize c2 in
        if negb (c1 =? c2) then Ret (inr None) else Ret (inl (cptr1, cptr))
    else Ret (inr (Some cptr))) (cptr1, cptr).

Definition match_backward (cptr cptr1 cptr1_start : Z) : outcome (option Z) :=
  iter (S (S (length (cbuf s)))) (fun '(cptr1, cptr) =>
    if cptr1_start <? cptr1 then
      if cptr =? 0 then Ret (inr None)
      else
        let* (c1, cptr1) := GET_PREV_CHAR (cbuf s) cptr1 cptr1_start (cbuf_type s) in
        let* (c2, cptr) := GET_PREV_CHAR (cbuf s) cptr 0 (cbuf_type s) in
        let* c1 := canonicalize c1 in
        let* c2 := canonicalize c2 in
        if negb (c1 =? c2) then Ret (inr None) else Ret (inl (cptr1, cptr))
    else Ret (inr (Some cptr))) (cptr1, cptr).

Definition exec_back_reference (g : ExecState AL) (stack_len pc cptr : Z) (backward : bool)
    : outcome exec_next :=
  let* val := rd (bc s) pc in
  let pc := pc + 1 in
  if capture_count s <=? val then Ret (NoMatch g)
  else
    let* cstart := rd (x_capture g) (2 * val) in
    let* cend := rd (x_capture g) (2 * val + 1) in
    match cstart, cend with
    | Some cptr1_start, Some cptr1_end =>
        let* r := if backward then match_backward cptr cptr1_end cptr1_start
                  else match_forward cptr cptr1_start cptr1_end in
        match r with
        | None => Ret (NoMatch g)
        | Some cptr => Ret (Next g stack_len pc cptr)
        end
    | _, _ => Ret (Next g stack_len pc cptr)
    end.

(** The binary search of [REOP_range] and [REOP_range32] in the [n] pairs at
    [pc]; [get] reads a word of [w] bytes. *)
Definition range_search (get : list Z -> Z -> outcome Z) (w : Z) (pc n c : Z) : outcome bool :=
  iter (S (S (Z.to_nat n))) (fun '(idx_min, idx_max) =>
    if idx_min <=? idx_max then
      let idx := u32 (idx_min + idx_max) / 2 in
      let* low := get (bc s) (pc + idx * (2 * w)) in
      let* high := get (bc s) (pc + idx * (2 * w) + w) in
      if c <? low then Ret (inl (idx_min, u32 (idx - 1)))
      else if high <? c then Ret (inl (idx + 1, idx_max))
      else Ret (inr true)
    else Ret (inr false)) (0, u32 (n - 1)).

(** Whether the character [c] is in the [n] pairs at [pc]. *)
Definition range_match (wide : bool) (pc n c : Z) : outcome bool :=
  let get := if wide then get_u32 else get_u16 in
  let w := if wide then 4 else 2 in
  let* low := get (bc s) pc in
  if c <? low then Ret false
  else
    let* high := get (bc s) (pc + u32 (n - 1) * (2 * w) + w) in
    if negb wide && (0xffff <=? c) && (high =? 0xffff) then Ret true
    else if high <? c then Ret false
    else range_search get w pc n c.

Definition exec_range (g : ExecState AL) (stack_len pc cptr : Z) (wide : bool) : outcome exec_next :=
  let* n := get_u16 (bc s) pc in
  let pc := pc + 2 in
  if cbuf_end s <=? cptr then Ret (NoMatch g)
  else
    let* (c, cptr) := get_canonical cptr in
    let* m := range_match wide pc n c in
    if m : bool then Ret (Next g stack_len (pc + (if wide then 8 else 4) * n) cptr)
    else Ret (NoMatch g).

(** The loop of [REOP_simple_greedy_quant] with the call [run] of
    [lre_exec_backtrack]: the number of matches and the last [cptr], or [None]
    for the result -1. *)
Definition greedy_step (run : ExecState AL -> Z -> outcome (ExecState AL * exec_result))
    (quant_max : Z) '(g, cptr, q)
    : outcome (ExecState AL * Z * Z + ExecState AL * option (Z * Z)) :=
  let* (g, res) := run g cptr in
  match res with
  | ExecError => Ret (inr (g, None))
  | ExecNoMatch => Ret (inr (g, Some (cptr, q)))
  | ExecMatch cptr =>
      let q := q + 1 in
      if (quant_max <=? q) && negb (quant_max =? INT32_MAX) then Ret (inr (g, Some (cptr, q)))
      else Ret (inl (g, cptr, q))
  end.

Definition exec_greedy_quant (fuel : nat)
    (rec : ExecState AL -> Z -> Z -> Z -> outcome (ExecState AL * exec_result))
    (g : ExecState AL) (stack_len pc cptr : Z) : outcome exec_next :=
  let* next_pos := get_u32 (bc s) pc in
  let* quant_min := get_u32 (bc s) (pc + 4) in
  let* quant_max := get_u32 (bc s) (pc + 8) in
  let pc1 := pc + 16 in
  let pc := pc1 + i32 next_pos in
  let* (g, r) := iter fuel (greedy_step (fun g cptr => rec g stack_len pc1 cptr) quant_max)
                   (g, cptr, 0) in
  match r with
  | None => Ret (Return g ExecError)
  | Some (cptr, q) =>
      if q <? quant_min then Ret (NoMatch g)
      else if quant_min <? q then
        push_and_go g stack_len (pc1 - 16) cptr RE_EXEC_STATE_GREEDY_QUANT (q - quant_min) pc
      else Ret (Next g stack_len pc cptr)
  end.

(** The [switch] on the opcode before [pc], [REOP_match] apart; [rec] is the
    recursive call with [no_recurse]. *)
Definition exec_instr (fuel : nat)
    (rec : ExecState AL -> Z -> Z -> Z -> outcome (ExecState AL * exec_result))
    (g : ExecState AL) (stack_len pc cptr : Z) (op : REOPCodeEnum) : outcome exec_next :=
  match op with
  | REOP_match => Err AssertFail
  | REOP_char32 => let* val := get_u32 (bc s) pc in test_char g stack_len (pc + 4) cptr val
  | REOP_char16 => let* val := get_u16 (bc s) pc in test_char g stack_len (pc + 2) cptr val
  | REOP_char8 => let* val := get_u8 (bc s) pc in test_char g stack_len (pc + 1) cptr val
  | REOP_split_goto_first =>
      let* val := get_u32 (bc s) pc in
      let pc := pc + 4 in
      push_and_go g stack_len pc cptr RE_EXEC_STATE_SPLIT 0 (pc + i32 val)
  | REOP_split_next_first =>
      let* val := get_u32 (bc s) pc in
      let pc := pc + 4 in
      push_and_go g stack_len (pc + i32 val) cptr RE_EXEC_STATE_SPLIT 0 pc
  | REOP_lookahead =>
      let* val := get_u32 (bc s) pc in
      let pc := pc + 4 in
      push_and_go g stack_len (pc + i32 val) cptr RE_EXEC_STATE_LOOKAHEAD 0 pc
  | REOP_negative_lookahead =>
      let* val := get_u32 (bc s) pc in
      let pc := pc + 4 in
      push_and_go g stack_len (pc + i32 val) cptr RE_EXEC_STATE_NEGATIVE_LOOKAHEAD 0 pc
  | REOP_goto =>
      let* val := get_u32 (bc s) pc in Ret (Next g stack_len (pc + (4 + i32 val)) cptr)
  | REOP_line_start => exec_line_start g stack_len pc cptr
  | REOP_line_end => exec_line_end g stack_len pc cptr
  | REOP_dot => exec_any g stack_len pc cptr true
  | REOP_any => exec_any g stack_len pc cptr false
  | REOP_save_start | REOP_save_end =>
      let* val := rd (bc s) pc in
      let* _ := c_assert (val <? capture_count s) in
      let* capture := wr (x_capture g) (2 * val + op - REOP_save_start) (Some cptr) in
      Ret (Next (set_capture g capture) stack_len (pc + 1) cptr)
  | REOP_save_reset =>
      let* val := rd (bc s) pc in
      let* val2 := rd (bc s) (pc + 1) in
      let* _ := c_assert (val2 <? capture_count s) in
      let* capture := reset_captures (x_capture g) val val2 in
      Ret (Next (set_capture g capture) stack_len (pc + 2) cptr)
  | REOP_push_i32 =>
      let* val := get_u32 (bc s) pc in
      let* st := wr (x_stack g) stack_len val in
      Ret (Next (set_stack g st) (stack_len + 1) (pc + 4) cptr)
  | REOP_drop => Ret (Next g (stack_len - 1) pc cptr)
  | REOP_loop => let* val := get_u32 (bc s) pc in exec_loop g stack_len (pc + 4) cptr val
  | REOP_push_char_pos =>
      let* st := wr (x_stack g) stack_len cptr in
      Ret (Next (set_stack g st) (stack_len + 1) pc cptr)
  | REOP_check_advance =>
      let* v := rd (x_stack g) (stack_len - 1) in
      if v =? cptr then Ret (NoMatch g) else Ret (Next g (stack_len - 1) pc cptr)
  | REOP_word_boundary => exec_word_boundary g stack_len pc cptr false
  | REOP_not_word_boundary => exec_word_boundary g stack_len pc cptr true
  | REOP_back_reference => exec_back_reference g stack_len pc cptr false
  | REOP_backward_back_reference => exec_back_reference g stack_len pc cptr true
  | REOP_range => exec_range g stack_len pc cptr false
  | REOP_range32 => exec_range g stack_len pc cptr true
  | REOP_prev =>
      if cptr =? 0 then Ret (NoMatch g)
      else
        let* cptr := PREV_CHAR (cbuf s) cptr 0 (cbuf_type s) in
        Ret (Next g stack_len pc cptr)
  | REOP_simple_greedy_quant => exec_greedy_quant fuel rec g stack_len pc cptr
  | REOP_invalid => Err AssertFail
  end.

(** One iteration of the loop of [lre_exec_backtrack]. *)
Definition exec_step (fuel : nat)
    (rec : ExecState AL -> Z -> Z -> Z -> outcome (ExecState AL * exec_result))
    (no_recurse : bool) '(g, stack_len, pc, cptr)
    : outcome (ExecState AL * Z * Z * Z + ExecState AL * exec_result) :=
  let* opcode := rd (bc s) pc in
  let pc := pc + 1 in
  let* r :=
    match reop_of opcode with
    | None => Err AssertFail
    | Some REOP_match =>
        if no_recurse then Ret (Return g (ExecMatch cptr))
        else recurse g true cptr (state_stack g)
    | Some op => exec_instr fuel rec g stack_len pc cptr op
    end in
  let* r :=
    match r with
    | NoMatch g =>
        if no_recurse then Ret (Return g ExecNoMatch) else recurse g false cptr (state_stack g)
    | r => Ret r
    end in
  match r with
  | Next g stack_len pc cptr => Ret (inl (g, stack_len, pc, cptr))
  | Return g res => Ret (inr (g, res))
  | NoMatch g => Ret (inr (g, ExecNoMatch))
  end.

(** [lre_exec_backtrack], with fuel for the steps of each of its loops; the
    depth bounds the recursive calls. *)
Fixpoint lre_exec_backtrack (depth fuel : nat) (no_recurse : bool) (g : ExecState AL)
    (stack_len pc cptr : Z) : outcome (ExecState AL * exec_result) :=
  match depth with
  | O => Err OutOfFuel
  | S depth =>
      iter fuel (exec_step fuel (lre_exec_backtrack depth fuel true) no_recurse)
        (g, stack_len, pc, cptr)
  end.
End Exec.

Section LreExec.
Context `{AL : Allocator}.

(** [lre_exec(capture, bc_buf, cbuf, cindex, clen, cbuf_type, opaque)]: the
    allocator's state, the captures and the C result.  [stack_buf] is the
    uninitialized array of [alloca]. *)
Definition lre_exec (fuel : nat) (h : heap) (capture : list (option Z)) (stack_buf : nat -> Z)
    (bc_buf cbuf : list Z) (cindex clen cbuf_type : Z) : outcome (heap * list (option Z) * Z) :=
  let* re_flags := lre_get_flags bc_buf in
  let* count := rd bc_buf RE_HEADER_CAPTURE_COUNT in
  let* stack_max := rd bc_buf RE_HEADER_STACK_SIZE in
  let uni := flag_set re_flags LRE_FLAG_UNICODE in
  let* cbuf_end := c_shl clen cbuf_type in
  let unit := unit_size cbuf_type in
  let* start := c_shl cindex cbuf_type in
  let cbuf_type := if (cbuf_type =? 1) && uni then 2 else cbuf_type in
  let s := mkREExecContext bc_buf cbuf (cbuf_end / unit) cbuf_type count stack_max
             (flag_set re_flags LRE_FLAG_MULTILINE) (flag_set re_flags LRE_FLAG_IGNORECASE) uni
             (32 + count * 8 * 2 + stack_max * 8) in
  let* capture := wr_slice capture 0 (replicate (Z.to_nat (count * 2)) None) in
  let g := mkExecState h capture (map stack_buf (seq 0 (Z.to_nat stack_max))) [] 0 in
  let* (g, r) := lre_exec_backtrack s fuel fuel false g 0 RE_HEADER_LEN (start / unit) in
  Ret (x_heap g, x_capture g,
       match r with ExecError => -1 | ExecNoMatch => 0 | ExecMatch _ => 1 end).
End LreExec.
