(* ===== verification/ReChars.v ===== *)
(** The characters of the subject of a match.

    In the UTF-16 mode ([cbuf_type] 2) a position between the two halves of a
    surrogate pair is not the boundary of a character.  The macros of the matcher
    keep to the boundaries, and going back over a character undoes going
    forward over it. *)
From Stdlib Require Import ZArith Lia Bool List.
From stdpp Require Import base tactics list numbers.
From S2P Require Import Prelude Alloc Utf8 CaseConv Regexp ReExec.

Section Chars.
Variables (cbuf : list Z) (cbuf_type : Z).

(** A boundary between characters. *)
Definition bnd (p : Z) : Prop :=
  0 <= p <= zlen cbuf /\
  (cbuf_type = 2 -> forall a b, at_ cbuf (p - 1) a -> at_ cbuf p b ->
     is_hi_surrogate a = true -> is_lo_surrogate b = true -> False).

(** [p] is [n] characters after [p0]. *)
Inductive fwd (p0 : Z) : nat -> Z -> Prop :=
  | fwd_0 : bnd p0 -> fwd p0 0 p0
  | fwd_S n p c p' :
      fwd p0 n p -> p < zlen cbuf -> GET_CHAR cbuf p (zlen cbuf) cbuf_type = Ret (c, p') ->
      fwd p0 (S n) p'.

Definition bnd_b (p : Z) : bool :=
  (0 <=? p) && (p <=? zlen cbuf) &&
  negb ((cbuf_type =? 2) &&
        match rd cbuf (p - 1), rd cbuf p with
        | Ret a, Ret b => is_hi_surrogate a && is_lo_surrogate b
        | _, _ => false
        end).

Lemma bnd_b_bnd p : bnd_b p = true -> bnd p.
Proof.
  unfold bnd_b. intros H. bool_to_prop. split; [lia|]. intros -> a b Ha Hb Hhi Hlo.
  rewrite (rd_at _ _ _ Ha), (rd_at _ _ _ Hb), Hhi, Hlo in *. by destruct H0.
Qed.

Hypothesis units : Forall in_u16 cbuf.

Lemma unit_range p c : at_ cbuf p c -> 0 <= c < 65536.
Proof. intros H. exact (at_Forall _ _ _ _ units H). Qed.

Lemma hi_not_lo c : is_hi_surrogate c = true -> is_lo_surrogate c = true -> False.
Proof.
  intros H1 H2. destruct (surrogate_ranges c) as [Hh Hl].
  apply Hh in H1. apply Hl in H2. lia.
Qed.

Lemma from_surrogate_range a b :
  is_hi_surrogate a = true -> is_lo_surrogate b = true -> 0 <= from_surrogate a b < 0x110000.
Proof.
  intros H1 H2. destruct (surrogate_ranges a) as [Hh _]. destruct (surrogate_ranges b) as [_ Hl].
  apply Hh in H1. apply Hl in H2. rewrite from_surrogate_eq by lia. lia.
Qed.

(** A position after a unit that is not the first half of a pair, and one before
    a unit that is not the second half. *)
Lemma bnd_after p c : 0 <= p -> at_ cbuf p c -> (cbuf_type = 2 -> is_hi_surrogate c = false) -> bnd (p + 1).
Proof.
  intros Hp Hc Hh. pose proof (at_lt _ _ _ Hc). split; [lia|]. intros Ht a b Ha _ Hhi _.
  replace (p + 1 - 1) with p in Ha by lia. rewrite (at_det _ _ _ _ Ha Hc), Hh in Hhi; done.
Qed.

Lemma bnd_before p c : at_ cbuf p c -> (cbuf_type = 2 -> is_lo_surrogate c = false) -> bnd p.
Proof.
  intros Hc Hh. pose proof (at_lt _ _ _ Hc). split; [lia|]. intros Ht a b _ Hb _ Hlo.
  rewrite (at_det _ _ _ _ Hb Hc), Hh in Hlo; done.
Qed.

Lemma GET_CHAR_fwd p e :
  bnd p -> bnd e -> p < e ->
  exists c p', GET_CHAR cbuf p e cbuf_type = Ret (c, p') /\ bnd p' /\ p < p' <= e /\
    GET_PREV_CHAR cbuf p' 0 cbuf_type = Ret (c, p) /\ 0 <= c < 0x110000.
Proof.
  intros Hp He Hlt. destruct Hp as [Hp Hmid]. destruct (at_exists cbuf p) as [c Hc]; [destruct He; lia|].
  assert (single : bnd (p + 1) -> exists c' p', Ret (c, p + 1) = Ret (c', p') /\ bnd p' /\
    p < p' <= e /\ GET_PREV_CHAR cbuf p' 0 cbuf_type = Ret (c', p) /\ 0 <= c' < 0x110000).
  { intros Hb. exists c, (p + 1). split_and!; [done|done|lia|lia| |apply unit_range in Hc; lia..].
    unfold GET_PREV_CHAR. replace (p + 1 - 1) with p by lia. rewrite (rd_at _ _ _ Hc). cbn [obind].
    destruct (Z.eqb_spec cbuf_type 0); [done|].
    destruct (is_lo_surrogate c && _ && _) eqn:E; [|done]. bool_to_prop.
    destruct (at_exists cbuf (p - 1)) as [d Hd]; [destruct He; lia|].
    rewrite (rd_at _ _ _ Hd). cbn [obind]. destruct (is_hi_surrogate d) eqn:Eh; [|done].
    exfalso. by eapply Hmid. }
  unfold GET_CHAR. rewrite (rd_at _ _ _ Hc). cbn [obind].
  destruct (Z.eqb_spec cbuf_type 0); [apply single, (bnd_after _ c); (lia || done)|].
  destruct (is_hi_surrogate c && (cbuf_type =? 2)) eqn:Eh; cbn [andb].
  2:{ apply single, (bnd_after _ c); [lia|done|]. intros ->. by rewrite andb_true_r in Eh. }
  bool_to_prop. destruct (Z.ltb_spec (p + 1) e).
  2:{ apply single. by replace (p + 1) with e by lia. }
  destruct (at_exists cbuf (p + 1)) as [d Hd]; [destruct He; lia|].
  rewrite (rd_at _ _ _ Hd). cbn [obind]. destruct (is_lo_surrogate d) eqn:El.
  2:{ apply single, (bnd_before _ d); [done|]. by rewrite El. }
  exists (from_surrogate c d), (p + 1 + 1).
  split_and!; [done| |lia|lia| |apply from_surrogate_range; done..].
  - apply (bnd_after _ d); [lia|done|]. intros _. destruct (is_hi_surrogate d) eqn:E; [|done].
    exfalso. by apply (hi_not_lo d).
  - unfold GET_PREV_CHAR. replace (p + 1 + 1 - 1) with (p + 1) by lia.
    rewrite (rd_at _ _ _ Hd). cbn [obind]. decide_ifs lia.
    rewrite El. decide_ifs lia. cbn [andb]. replace (p + 1 - 1) with p by lia.
    rewrite (rd_at _ _ _ Hc). cbn [obind]. by decide_ifs ltac:(done).
Qed.

Lemma GET_PREV_CHAR_bnd p st :
  bnd p -> bnd st -> st < p ->
  exists c p', GET_PREV_CHAR cbuf p st cbuf_type = Ret (c, p') /\ bnd p' /\ st <= p' < p /\
    0 <= c < 0x110000.
Proof.
  intros [Hp Hmid] Hst Hlt. destruct (at_exists cbuf (p - 1)) as [c Hc]; [destruct Hst; lia|].
  assert (single : bnd (p - 1) -> exists c' p', Ret (c, p - 1) = Ret (c', p') /\ bnd p' /\
    st <= p' < p /\ 0 <= c' < 0x110000).
  { intros Hb. exists c, (p - 1). split_and!; try (done || lia); apply unit_range in Hc; lia. }
  unfold GET_PREV_CHAR. rewrite (rd_at _ _ _ Hc). cbn [obind].
  destruct (Z.eqb_spec cbuf_type 0); [apply single, (bnd_before _ c); (lia || done)|].
  destruct (is_lo_surrogate c && (cbuf_type =? 2)) eqn:El; cbn [andb].
  2:{ apply single, (bnd_before _ c); [done|]. intros ->. by rewrite andb_true_r in El. }
  bool_to_prop. destruct (Z.ltb_spec st (p - 1)).
  2:{ apply single. by replace (p - 1) with st by lia. }
  destruct (at_exists cbuf (p - 1 - 1)) as [d Hd]; [destruct Hst; lia|].
  rewrite (rd_at _ _ _ Hd). cbn [obind]. destruct (is_hi_surrogate d) eqn:Eh.
  - exists (from_surrogate d c), (p - 1 - 1).
    split_and!; [done| |lia|lia|apply from_surrogate_range; done..].
    apply (bnd_before _ d); [done|]. intros _. destruct (is_lo_surrogate d) eqn:E; [|done].
    exfalso. by apply (hi_not_lo d).
  - apply single. replace (p - 1) with (p - 1 - 1 + 1) by lia.
    apply (bnd_after _ d); [destruct Hst; lia|done|]. by rewrite Eh.
Qed.

Lemma bnd_end : bnd (zlen cbuf).
Proof. split; [pose proof (zlen_nonneg cbuf); lia|]. intros _ a b _ Hb. apply at_lt in Hb. lia. Qed.

Lemma bnd_start : bnd 0.
Proof. split; [pose proof (zlen_nonneg cbuf); lia|]. intros _ a b Ha _. apply at_lt in Ha. lia. Qed.

Lemma PREV_CHAR_bnd p :
  bnd p -> 0 < p -> exists p', PREV_CHAR cbuf p 0 cbuf_type = Ret p' /\ bnd p'.
Proof.
  intros Hb Hp. destruct (GET_PREV_CHAR_bnd p 0 Hb bnd_start Hp) as (c & p' & E & Hb' & _).
  unfold PREV_CHAR. destruct (Z.eqb_spec cbuf_type 0) as [E0|].
  - exists (p - 1). split; [done|]. split; [destruct Hb; lia|]. intros ?. lia.
  - rewrite E. cbn [obind]. eauto.
Qed.

(** ** Characters counted forward *)

Lemma fwd_bnd p0 n p : fwd p0 n p -> bnd p0 /\ bnd p /\ p0 + Z.of_nat n <= p.
Proof.
  induction 1 as [|n p c p' Hf IH Hlt E]; [split_and!; (done || lia)|].
  destruct IH as (H0 & Hp & Hle).
  destruct (GET_CHAR_fwd p (zlen cbuf) Hp bnd_end Hlt) as (c' & p1 & E' & Hb & Hlt' & _).
  rewrite E in E'. injection E' as -> ->. split_and!; (done || lia).
Qed.

Lemma fwd_prev p0 n p :
  fwd p0 (S n) p -> exists p', PREV_CHAR cbuf p 0 cbuf_type = Ret p' /\ fwd p0 n p'.
Proof.
  intros H. inversion H as [|n' p1 c p' Hf Hlt E]; subst. exists p1. split; [|done].
  destruct (fwd_bnd _ _ _ Hf) as (_ & Hp & _).
  destruct (GET_CHAR_fwd p1 (zlen cbuf) Hp bnd_end Hlt) as (c' & p2 & E' & _ & _ & Hprev & _).
  rewrite E in E'. injection E' as -> ->. unfold PREV_CHAR.
  destruct (Z.eqb_spec cbuf_type 0) as [E0|]; [|by rewrite Hprev].
  unfold GET_CHAR in E. rewrite E0 in E. cbn [Z.eqb] in E. inv_ret. f_equal. lia.
Qed.

Lemma fwd_trans p0 n p k q : fwd p0 n p -> fwd p k q -> fwd p0 (n + k) q.
Proof.
  intros H. induction 1 as [|k q c q' Hf IH Hlt E]; [by rewrite Nat.add_0_r|].
  rewrite Nat.add_succ_r. econstructor; eauto.
Qed.
End Chars.
