(* ===== verification/ReRange.v ===== *)
(** The instructions that match a character against a range.

    The matcher finds the character by binary search in the pairs of bounds that
    the compiler stored in the byte code.  Here the search is shown to decide
    membership, and the byte code of a set of characters to match exactly its
    members. *)
From Stdlib Require Import ZArith Lia Bool List Sorting.Sorted.
From stdpp Require Import base tactics list numbers.
From S2P Require Import Prelude Alloc Regexp ReExec.

(** * The binary search *)

(** The pairs of bounds are the values of [lo] and [hi], and are in order. *)
Definition ordered_pairs (lo hi : Z -> Z) (n : Z) : Prop :=
  (forall i, 0 <= i < n -> lo i <= hi i) /\ (forall i j, 0 <= i < j /\ j < n -> hi i < lo j).

Definition in_pairs (lo hi : Z -> Z) (n c : Z) : Prop := exists i, 0 <= i < n /\ lo i <= c <= hi i.

Section Search.
Variable s : REExecContext.

(** [n] pairs of words of [w] bytes at [pc]. *)
Definition pairs_at (get : list Z -> Z -> outcome Z) (w pc n : Z) (lo hi : Z -> Z) : Prop :=
  forall i, 0 <= i < n ->
    get (bc s) (pc + i * (2 * w)) = Ret (lo i) /\ get (bc s) (pc + i * (2 * w) + w) = Ret (hi i).

Lemma range_search_spec get w pc n c lo hi :
  pairs_at get w pc n lo hi -> 1 <= n < 65536 -> lo 0 <= c ->
  post (range_search s get w pc n c) (fun b =>
    (b = true -> in_pairs lo hi n c) /\
    (ordered_pairs lo hi n -> b = false -> ~ in_pairs lo hi n c)).
Proof.
  intros Hp Hn Hlo. unfold range_search.
  apply (post_iter (fun '(imin, imax) => 0 <= imin <= n /\ 0 <= imax < n /\
             (ordered_pairs lo hi n -> (forall i, 0 <= i < imin -> hi i < c) /\
                                       (forall i, imax < i < n -> c < lo i)))
           (fun '(imin, imax) => Z.to_nat (imax + 1 - imin))).
  - intros [imin imax] (H1 & H2 & H3). step; bool_to_prop.
    + set (idx := u32 (imin + imax) / 2).
      assert (imin <= idx <= imax) by (unfold idx; zlia).
      destruct (Hp idx ltac:(lia)) as [-> ->]. cbn [obind].
      destruct (Z.ltb_spec c (lo idx)) as [Hlt|Hge].
      * assert (idx <> 0) by (intros E0; rewrite E0 in Hlt; lia).
        rewrite u32_id by zlia. cbn. split; [|lia]. split_and!; try lia. intros Ho.
        destruct (H3 Ho) as [Ha Hb]. split; [done|]. intros i Hi.
        destruct (Z.eq_dec i idx) as [->|]; [done|]. destruct Ho as [Ho1 Ho2].
        specialize (Ho1 idx ltac:(lia)). specialize (Ho2 idx i ltac:(lia)). lia.
      * destruct (Z.ltb_spec (hi idx) c) as [Hgt|Hle].
        -- cbn. split; [|lia]. split_and!; try lia. intros Ho. destruct (H3 Ho) as [Ha Hb].
           split; [|done]. intros i Hi. destruct (Z.eq_dec i idx) as [->|]; [done|].
           destruct Ho as [Ho1 Ho2]. specialize (Ho1 idx ltac:(lia)).
           specialize (Ho2 i idx ltac:(lia)). lia.
        -- cbn. split; [|done]. intros _. exists idx. lia.
    + cbn. split; [done|]. intros Ho _ (i & Hi & Hc). destruct (H3 Ho) as [Ha Hb].
      destruct (Z.le_gt_cases imin i); [specialize (Hb i ltac:(lia))|specialize (Ha i ltac:(lia))]; lia.
  - rewrite u32_id by zlia. split_and!; try lia. intros _. split; intros; lia.
  - rewrite u32_id by zlia. lia.
Qed.

(** ** The whole test *)

Definition get_word (wide : bool) : list Z -> Z -> outcome Z := if wide then get_u32 else get_u16.
Definition word_len (wide : bool) : Z := if wide then 4 else 2.

(** In 16-bit pairs a last bound 0xffff means infinity. *)
Definition matches_pairs (wide : bool) (lo hi : Z -> Z) (n c : Z) : Prop :=
  in_pairs lo hi n c \/ (wide = false /\ 0xffff <= c /\ hi (n - 1) = 0xffff /\ lo 0 <= c).

Lemma range_match_spec wide pc n c lo hi :
  pairs_at (get_word wide) (word_len wide) pc n lo hi -> 1 <= n < 65536 ->
  post (range_match s wide pc n c) (fun b =>
    (b = true -> matches_pairs wide lo hi n c) /\
    (ordered_pairs lo hi n -> b = false -> ~ matches_pairs wide lo hi n c)).
Proof.
  intros Hp Hn. unfold range_match. change (if wide then get_u32 else get_u16) with (get_word wide).
  change (if wide then 4 else 2) with (word_len wide).
  destruct (Hp 0 ltac:(lia)) as [H0 _]. rewrite Z.mul_0_l, Z.add_0_r in H0. rewrite H0. cbn [obind].
  destruct (Z.ltb_spec c (lo 0)) as [Hlt|Hge].
  { cbn. split; [done|]. intros [Ho1 Ho2] _ [(i & Hi & Hc)|H]; [|lia].
    destruct (Z.eq_dec i 0) as [->|]; [lia|]. specialize (Ho1 0 ltac:(lia)).
    specialize (Ho2 0 i ltac:(lia)). lia. }
  rewrite u32_id by zlia. destruct (Hp (n - 1) ltac:(lia)) as [_ ->]. cbn [obind].
  destruct (negb wide && (65535 <=? c) && (hi (n - 1) =? 65535)) eqn:E.
  { cbn. bool_to_prop. split; [|done]. intros _. right. destruct wide; [done|]. lia. }
  assert (~ (wide = false /\ 65535 <= c /\ hi (n - 1) = 65535 /\ lo 0 <= c)) as Hinf.
  { intros (-> & ? & Hh & _). rewrite Hh in E. cbn [negb andb] in E. revert E. decide_ifs lia.
    replace (65535 <=? c) with true by lia. done. }
  destruct (Z.ltb_spec (hi (n - 1)) c) as [Hgt|Hle].
  { cbn. split; [done|]. intros [Ho1 Ho2] _ [(i & Hi & Hc)|H]; [|done].
    destruct (Z.eq_dec i (n - 1)) as [->|]; [lia|]. specialize (Ho1 (n - 1) ltac:(lia)).
    specialize (Ho2 i (n - 1) ltac:(lia)). lia. }
  eapply post_mono; [by apply range_search_spec|]. intros b [Ht Hf]. split.
  - intros Hb. left. auto.
  - intros Ho Hb [H|H]; [by apply Hf|done].
Qed.
End Search.
