(* ===== verification/ReEmit.v ===== *)
(** The byte code that parsing functions emit.

    A function that only appends to the byte code changes no other field of the
    state; when an allocation fails it sets the error flag of the buffer, which
    stays set, and nothing is known of the code after that. *)
From Stdlib Require Import ZArith Lia Bool List String.
From stdpp Require Import base tactics list numbers strings.
From S2P Require Import Prelude Alloc DynBuf CharRange UnicodeSets Regexp ReState ReClass.

Section Emits.
Context `{AL : Allocator}.

Definition emitted (st st' : REParseState) (code : list Z) : Prop :=
  st' = set_byte_code (s_heap st') (byte_code st') st /\ dbuf_wf (byte_code st') /\
  (error (byte_code st) = true -> error (byte_code st') = true) /\
  (error (byte_code st') = false -> contents (byte_code st') = contents (byte_code st) ++ code).

(** [m] succeeds from [st], emitting [code]. *)
Definition emits {A : Type} (st : REParseState) (m : parser A) (code : list Z) : Prop :=
  dbuf_wf (byte_code st) -> post (m st) (fun '(r, st') => emitted st st' code /\ is_Some r).

Lemma emitted_refl st : dbuf_wf (byte_code st) -> emitted st st [].
Proof. intros H. split; [by destruct st|]. split; [done|]. split; [done|]. by rewrite app_nil_r. Qed.

Lemma emitted_trans st1 st2 st3 c1 c2 :
  emitted st1 st2 c1 -> emitted st2 st3 c2 -> emitted st1 st3 (c1 ++ c2).
Proof.
  intros (E1 & W1 & M1 & C1) (E2 & W2 & M2 & C2). split.
  { rewrite E2, E1. by destruct st1. }
  split; [done|]. split; [auto|]. intros He. rewrite C2 by done.
  rewrite C1; [by rewrite app_assoc|]. destruct (error (byte_code st2)); [|done].
  by rewrite M2 in He.
Qed.

(** The fields other than the byte code are those of the start. *)
Lemma emitted_frame st st' code :
  emitted st st' code ->
  pattern st' = pattern st /\ buf_ptr st' = buf_ptr st /\ buf_end st' = buf_end st /\
  is_unicode st' = is_unicode st /\ ignore_case st' = ignore_case st /\
  capture_count st' = capture_count st /\ group_names st' = group_names st /\ s_u st' = s_u st.
Proof. intros (-> & _). by destruct st. Qed.

Lemma emits_ret {A : Type} st (a : A) : emits st (pret a) [].
Proof. intros H. apply post_ret. split; [by apply emitted_refl|done]. Qed.

Lemma emits_bind {A B : Type} st (m : parser A) (k : A -> parser B) c1 c2 :
  emits st m c1 -> (forall a st', emitted st st' c1 -> emits st' (k a) c2) ->
  emits st (pbind m k) (c1 ++ c2).
Proof.
  intros Hm Hk Hwf. unfold pbind. apply post_bind. eapply post_mono; [by apply Hm|].
  intros [r st1] [H1 [a ->]]. eapply post_mono; [apply (Hk a st1 H1), H1|].
  intros [r2 st2] [H2 Hr]. split; [by eapply emitted_trans|done].
Qed.

(** Binds whose first part emits nothing and whose value is known. *)
Lemma emits_lift {A B : Type} st (m : outcome A) a (k : A -> parser B) c :
  m = Ret a -> emits st (k a) c -> emits st (pbind (plift m) k) c.
Proof. intros -> H. exact H. Qed.

Lemma emits_get {B : Type} st (k : REParseState -> parser B) c :
  emits st (k st) c -> emits st (pbind pget k) c.
Proof. intros H. exact H. Qed.

Lemma emits_size {B : Type} st (k : Z -> parser B) c :
  emits st (k (i32 (size (byte_code st)))) c -> emits st (pbind bc_size k) c.
Proof. intros H. exact H. Qed.

Lemma emits_code {A : Type} st (m : parser A) c1 c2 : c1 = c2 -> emits st m c1 -> emits st m c2.
Proof. by intros ->. Qed.

Lemma emits_put st data :
  zlen data < 2 ^ 63 -> emits st (on_byte_code (fun h b => dbuf_put h b data)) data.
Proof.
  intros Hd Hwf. unfold on_byte_code. apply post_bind.
  eapply post_mono; [by apply dbuf_put_appends|]. intros [[h b] r] (Hwf' & Hc). cbn.
  split; [|done]. split; [by destruct st|]. cbn. split; [done|].
  destruct Hc as [(_ & Hc & He)|(_ & Hc & He)].
  - split; [congruence|]. by intros _.
  - split; [done|]. intros H. congruence.
Qed.

Lemma emits_op st op : emits st (re_emit_op op) [u8 op].
Proof.
  unfold re_emit_op. apply (emits_bind _ _ _ [u8 op] []); [by apply emits_put|].
  intros. apply emits_ret.
Qed.

Lemma emits_op_u8 st op val : emits st (re_emit_op_u8 op val) [u8 op; u8 val].
Proof.
  unfold re_emit_op_u8. apply (emits_bind _ _ _ [u8 op] [u8 val]); [by apply emits_put|].
  intros. apply (emits_bind _ _ _ [u8 val] []); [by apply emits_put|]. intros. apply emits_ret.
Qed.

Lemma emits_op_u16 st op val : emits st (re_emit_op_u16 op val) (u8 op :: le_bytes 2 (u16 val)).
Proof.
  unfold re_emit_op_u16. apply (emits_bind _ _ _ [u8 op] _); [by apply emits_put|].
  intros. rewrite <- (app_nil_r (le_bytes _ _)).
  apply emits_bind; [by apply emits_put|]. intros. apply emits_ret.
Qed.

Lemma emits_op_u32 st op val : emits st (re_emit_op_u32 op val) (u8 op :: le_bytes 4 (u32 val)).
Proof.
  unfold re_emit_op_u32. apply (emits_bind _ _ _ [u8 op] _); [by apply emits_put|].
  intros. apply emits_size. rewrite <- (app_nil_r (le_bytes _ _)).
  apply emits_bind; [by apply emits_put|]. intros. apply emits_ret.
Qed.

(** ** The code of a range *)

(** The pairs that [re_emit_range] stores for an interval [c1, c2[. *)
Definition pair16 '(c1, c2) : Z * Z := (c1, if c2 =? UINT32_MAX then 0xffff else c2 - 1).
Definition pair32 '(c1, c2) : Z * Z := (c1, c2 - 1).

Definition pairs_code (w : nat) (P : list (Z * Z)) : list Z :=
  concat (map (fun '(a, b) => le_bytes w a ++ le_bytes w b) P).

(** The last finite point of the list. *)
Definition range_high (pts : list Z) : Z :=
  let high := List.last pts 0 in
  if high =? UINT32_MAX then List.last (removelast pts) 0 else high.

Definition range_code (pts : list Z) : list Z :=
  let n := zlen pts / 2 in
  if n =? 0 then u8 REOP_char32 :: le_bytes 4 (u32 (-1))
  else if range_high pts <=? 0xffff then
    u8 REOP_range :: le_bytes 2 (u16 n) ++ pairs_code 2 (map pair16 (to_pairs pts))
  else u8 REOP_range32 :: le_bytes 2 (u16 n) ++ pairs_code 4 (map pair32 (to_pairs pts)).

Lemma emits_u16 st v : emits st (emit_u16 v) (le_bytes 2 v).
Proof.
  unfold emit_u16. rewrite <- (app_nil_r (le_bytes _ _)). apply emits_bind.
  - unfold dbuf_put_u16. change (u16 v) with (v mod 2 ^ (8 * Z.of_nat 2)). rewrite le_bytes_mod.
    by apply emits_put.
  - intros. apply emits_ret.
Qed.

Lemma emits_u32 st v : emits st (emit_u32 v) (le_bytes 4 v).
Proof.
  unfold emit_u32. rewrite <- (app_nil_r (le_bytes _ _)). apply emits_bind.
  - unfold dbuf_put_u32. change (u32 v) with (v mod 2 ^ (8 * Z.of_nat 4)). rewrite le_bytes_mod.
    by apply emits_put.
  - intros. apply emits_ret.
Qed.

Lemma emits_pair16 st c1 c2 :
  1 <= c2 < 2 ^ 32 ->
  emits st (emit_pair16 c1 c2) (le_bytes 2 (fst (pair16 (c1, c2))) ++ le_bytes 2 (snd (pair16 (c1, c2)))).
Proof.
  intros Hc. unfold emit_pair16. apply emits_bind; [apply emits_u16|]. intros. cbn [pair16 snd].
  rewrite u32_id by (unfold in_u32; lia).
  replace (c2 - 1 =? UINT32_MAX - 1) with (c2 =? UINT32_MAX); [apply emits_u16|].
  unfold UINT32_MAX. destruct (Z.eqb_spec c2 4294967295); lia.
Qed.

Lemma emits_pair32 st c1 c2 :
  1 <= c2 < 2 ^ 32 ->
  emits st (emit_pair32 c1 c2) (le_bytes 4 (fst (pair32 (c1, c2))) ++ le_bytes 4 (snd (pair32 (c1, c2)))).
Proof.
  intros Hc. unfold emit_pair32. apply emits_bind; [apply emits_u32|]. intros. cbn [pair32 snd].
  rewrite u32_id by (unfold in_u32; lia). apply emits_u32.
Qed.

Lemma emits_pairs st emit (pair : Z * Z -> Z * Z) w pts :
  (forall st c1 c2, 1 <= c2 < 2 ^ 32 ->
     emits st (emit c1 c2) (le_bytes w (fst (pair (c1, c2))) ++ le_bytes w (snd (pair (c1, c2))))) ->
  Forall (fun '(c1, c2) => 1 <= c2 < 2 ^ 32) (to_pairs pts) ->
  emits st (emit_pairs emit pts) (pairs_code w (map pair (to_pairs pts))).
Proof.
  intros He. revert st. induction pts as [|x|c1 c2 pts IH] using pairs_ind; intros st Hp;
    try apply emits_ret.
  cbn [to_pairs] in Hp. apply Forall_cons_iff in Hp as [Hc Hp].
  cbn [emit_pairs to_pairs map]. unfold pairs_code. cbn [map concat].
  apply emits_bind; [|intros; by apply IH].
  destruct (pair (c1, c2)) as [a b] eqn:E. pose proof (He st c1 c2 Hc) as H. by rewrite E in H.
Qed.
End Emits.
