(* ===== verification/ReRangeCode.v ===== *)
(** The code of a set of characters matches its members: the compiler's
    [re_emit_range] against the matcher's range instructions. *)
From Stdlib Require Import ZArith Lia Bool List String Sorting.Sorted.
From stdpp Require Import base tactics list numbers strings.
From S2P Require Import Prelude Alloc DynBuf CharRange UnicodeSets Regexp ReState ReClass.
From S2P Require Import ReExec ReRange ReEmit.

Section Emit.
Context `{AL : Allocator}.

Lemma last_rd (l : list Z) : l <> [] -> rd l (zlen l - 1) = Ret (List.last l 0).
Proof.
  intros Hl. destruct l as [|x l] using rev_ind; [done|]. clear IHl.
  rewrite zlen_app. change (zlen [x]) with 1. rewrite List.last_last.
  by rewrite rd_app_mid by lia.
Qed.

(** The value [high] that [re_emit_range] looks at. *)
Lemma range_high_rd (l : list Z) :
  Nat.Even (length l) -> l <> [] ->
  (let* high := rd l (zlen l - 1) in
   if high =? UINT32_MAX then rd l (zlen l - 2) else Ret high) = Ret (range_high l).
Proof.
  intros He Hl. rewrite last_rd by done. cbn [obind]. unfold range_high.
  destruct (_ =? UINT32_MAX); [|done].
  destruct l as [|x l] using rev_ind; [done|]. clear IHl. rewrite removelast_last.
  destruct l as [|y l] using rev_ind; [by apply even_not_1 in He|]. clear IHl.
  rewrite List.last_last, !zlen_app. change (zlen [x]) with 1. change (zlen [y]) with 1.
  rewrite <- app_assoc. cbn [app]. by rewrite rd_app_mid by lia.
Qed.

Lemma canonical_pairs pts :
  canonical pts -> Forall (fun p => 0 <= p < 2 ^ 32) pts ->
  Forall (fun '(c1, c2) => 0 <= c1 < c2 /\ c2 < 2 ^ 32) (to_pairs pts).
Proof.
  intros [Hs _]. revert Hs. induction pts as [|x|a b pts IH] using pairs_ind; intros Hs Hp;
    try constructor.
  - apply StronglySorted_inv in Hs as [_ Ha]. apply Forall_cons_iff in Ha as [Ha _].
    do 2 apply Forall_cons_iff in Hp as [? Hp]. lia.
  - do 2 apply StronglySorted_inv in Hs as [Hs _]. do 2 apply Forall_cons_iff in Hp as [_ Hp]. auto.
Qed.

Lemma rd_cr_list cr i : cr_wf cr -> i < cr_len cr -> rd (cr_points cr) i = rd (cr_list cr) i.
Proof.
  intros [Hl Hz] Hi. unfold rd, cr_list. destruct (Z.ltb_spec i 0); [done|].
  by rewrite lookup_take_lt by lia.
Qed.

Lemma cr_list_slice cr : cr_wf cr -> rd_slice (cr_points cr) 0 (cr_len cr) = Ret (cr_list cr).
Proof. intros [Hl Hz]. rewrite rd_slice_in by lia. by rewrite drop_0. Qed.

(** [re_emit_range] on a set emits its code. *)
Lemma emits_range st cr :
  cr_wf cr -> canonical (cr_list cr) -> Forall (fun p => 0 <= p < 2 ^ 32) (cr_list cr) ->
  zlen (cr_list cr) < 2 * 65535 ->
  emits st (re_emit_range cr) (range_code (cr_list cr)).
Proof.
  intros Hwf Hcan Hpts Hlen. pose proof (zlen_cr_list cr Hwf) as Hz. pose proof (zlen_nonneg (cr_list cr)).
  unfold re_emit_range, range_code. rewrite u32_id by (unfold in_u32; lia). rewrite <- Hz.
  replace (65535 <=? zlen (cr_list cr) / 2) with false by (symmetry; apply Z.leb_gt; zlia).
  destruct (Z.eqb_spec (zlen (cr_list cr) / 2) 0) as [H0|H0].
  { rewrite <- (app_nil_r (_ :: _)). apply emits_bind; [apply emits_op_u32|]. intros. apply emits_ret. }
  assert (cr_list cr <> []) as Hne by (intros E; rewrite E in H0; done).
  pose proof (range_high_rd (cr_list cr) (proj2 Hcan) Hne) as Hh. rewrite last_rd in Hh by done.
  cbn [obind] in Hh.
  eapply emits_lift; [rewrite rd_cr_list by (done || lia); by apply last_rd|].
  assert (forall (k : Z -> parser unit) c, emits st (k (range_high (cr_list cr))) c -> emits st (pbind
    (if List.last (cr_list cr) 0 =? UINT32_MAX
     then plift (rd (cr_points cr) (zlen (cr_list cr) - 2)) else pret (List.last (cr_list cr) 0)) k) c) as Hk.
  { intros k c Hk. revert Hh. destruct (_ =? UINT32_MAX); intros Hh.
    - eapply emits_lift; [|exact Hk]. rewrite rd_cr_list by (done || lia). done.
    - injection Hh as Hh. by rewrite Hh. }
  apply Hk. clear Hk. eapply emits_lift; [rewrite Hz; by apply cr_list_slice|].
  pose proof (canonical_pairs _ Hcan Hpts) as Hp.
  assert (Forall (fun '(_, c2) => 1 <= c2 < 2 ^ 32) (to_pairs (cr_list cr))) as Hp1.
  { eapply Forall_impl; [exact Hp|]. intros [c1 c2]. lia. }
  destruct (_ <=? 65535).
  - apply (emits_bind _ _ _ (_ :: _)); [apply emits_op_u16|]. intros. by apply emits_pairs; [apply emits_pair16|].
  - apply (emits_bind _ _ _ (_ :: _)); [apply emits_op_u16|]. intros. by apply emits_pairs; [apply emits_pair32|].
Qed.
End Emit.

(** * The pairs in memory *)

Lemma get_word_block (wide : bool) m p v :
  block_at m p (le_bytes (Z.to_nat (word_len wide)) v) ->
  get_word wide m p = Ret (v mod 2 ^ (8 * word_len wide)).
Proof.
  intros Hb. destruct wide; cbn [word_len get_word] in *.
  - unfold get_u32. pose proof (block_at_le _ _ _ Hb ltac:(done)) as [??].
    rewrite zlen_le_bytes in *. change (rd_slice m p 4) with (rd_slice m p (Z.of_nat 4)).
    rewrite <- (zlen_le_bytes 4 v), rd_slice_block_at by (rewrite ?zlen_le_bytes; (done || lia)).
    cbn [obind]. by rewrite le_val_le_bytes.
  - unfold get_u16. pose proof (block_at_le _ _ _ Hb ltac:(done)) as [??].
    rewrite zlen_le_bytes in *. change (rd_slice m p 2) with (rd_slice m p (Z.of_nat 2)).
    rewrite <- (zlen_le_bytes 2 v), rd_slice_block_at by (rewrite ?zlen_le_bytes; (done || lia)).
    cbn [obind]. by rewrite le_val_le_bytes.
Qed.

(** The bounds of pair [i]. *)
Definition lo_of (P : list (Z * Z)) (i : Z) : Z := fst (nth (Z.to_nat i) P (0, 0)).
Definition hi_of (P : list (Z * Z)) (i : Z) : Z := snd (nth (Z.to_nat i) P (0, 0)).

Lemma pairs_code_at s (wide : bool) pc P :
  let w := Z.to_nat (word_len wide) in
  0 <= pc -> block_at (bc s) pc (pairs_code w P) ->
  Forall (fun '(a, b) => 0 <= a < 2 ^ (8 * word_len wide) /\ 0 <= b < 2 ^ (8 * word_len wide)) P ->
  pairs_at s (get_word wide) (word_len wide) pc (zlen P) (lo_of P) (hi_of P).
Proof.
  intros w Hpc. assert (Z.of_nat w = word_len wide) as Hw by (unfold w; by destruct wide).
  revert pc Hpc. induction P as [|[a b] P IH]; intros pc Hpc Hb Hr i Hi.
  { change (zlen []) with 0 in Hi. lia. }
  apply Forall_cons_iff in Hr as [[Ha Hb'] Hr]. unfold pairs_code in Hb. cbn [map concat] in Hb.
  rewrite !block_at_app, zlen_app, !zlen_le_bytes, !Hw in Hb.
  destruct Hb as [[Hba Hbb] Hrest]. rewrite zlen_cons in Hi.
  destruct (Z.eq_dec i 0) as [->|Hi0].
  - rewrite Z.mul_0_l, Z.add_0_r. unfold lo_of, hi_of. cbn [Z.to_nat nth fst snd].
    rewrite (get_word_block _ _ _ _ Hba), (get_word_block _ _ _ _ Hbb). split; f_equal; by apply Z.mod_small.
  - destruct (IH (pc + (word_len wide + word_len wide)) ltac:(lia) Hrest Hr (i - 1) ltac:(lia)) as [H1 H2].
    replace (pc + (word_len wide + word_len wide) + (i - 1) * (2 * word_len wide))
      with (pc + i * (2 * word_len wide)) in * by lia.
    unfold lo_of, hi_of in *. replace (Z.to_nat i) with (S (Z.to_nat (i - 1))) by lia. done.
Qed.

Lemma in_pairs_list P c :
  in_pairs (lo_of P) (hi_of P) (zlen P) c <-> Exists (fun '(a, b) => a <= c <= b) P.
Proof.
  unfold in_pairs, lo_of, hi_of. rewrite Exists_exists. split.
  - intros (i & Hi & Hc). destruct (nth (Z.to_nat i) P (0, 0)) as [a b] eqn:E.
    exists (a, b). split; [|done]. apply list_elem_of_In. rewrite <- E. apply nth_In. unfold zlen in Hi. lia.
  - intros ([a b] & Hin & Hc). apply list_elem_of_In, (In_nth _ _ (0, 0)) in Hin as (n & Hn & E).
    exists (Z.of_nat n). unfold zlen. split; [lia|]. by rewrite Nat2Z.id, E.
Qed.

Definition pairs_sorted (P : list (Z * Z)) : Prop :=
  StronglySorted (fun x y => snd x < fst y) P /\ Forall (fun x => fst x <= snd x) P.

Lemma pairs_sorted_ordered P : pairs_sorted P -> ordered_pairs (lo_of P) (hi_of P) (zlen P).
Proof.
  intros [Hs Hf]. unfold lo_of, hi_of, zlen. split.
  - intros i Hi. rewrite List.Forall_forall in Hf. apply (Hf (nth _ P _)), nth_In. lia.
  - induction Hs as [|x P _ IH Hx]; intros i j Hij; [cbn in Hij; lia|].
    apply Forall_cons_iff in Hf as [_ Hf]. cbn [length] in Hij.
    replace (Z.to_nat j) with (S (Z.to_nat (j - 1))) by lia. cbn [nth].
    destruct (Z.eq_dec i 0) as [->|]; cbn [Z.to_nat].
    + rewrite List.Forall_forall in Hx. apply Hx, nth_In. lia.
    + replace (Z.to_nat i) with (S (Z.to_nat (i - 1))) by lia. cbn [nth]. apply IH; [done|lia].
Qed.

(** * Members of a set and pairs of its code *)

Definition covers (c : Z) (x : Z * Z) : Prop := fst x <= c < snd x.

Lemma inside_pairs pts c :
  canonical pts -> inside false pts c = true <-> Exists (covers c) (to_pairs pts).
Proof.
  intros [Hs He]. revert Hs He. induction pts as [|x|a b pts IH] using pairs_ind; intros Hs He.
  - cbn. rewrite Exists_nil. done.
  - by apply even_not_1 in He.
  - cbn [to_pairs inside]. rewrite Exists_cons.
    pose proof Hs as Hs'. apply StronglySorted_inv in Hs' as [Hs1 Ha].
    apply StronglySorted_inv in Hs1 as [Hs1 Hb]. apply Forall_cons_iff in Ha as [Hab Ha].
    rewrite <- IH by (done || by apply (proj1 (even_SS _))). unfold covers at 1. cbn [fst snd].
    destruct (Z.leb_spec a c), (Z.leb_spec b c); cbn [xorb]; try (split; [auto|intros [?|?]; [lia|done]]).
    + split; [left; lia|]. intros _. rewrite inside_gt; [done|].
      eapply Forall_impl; [exact Hb|]. cbn beta. lia.
    + lia.
Qed.

Lemma to_pairs_nil (pts : list Z) : Nat.Even (length pts) -> zlen pts / 2 = 0 -> pts = [].
Proof.
  intros He H0. destruct pts as [|x [|y pts]]; [done|by apply even_not_1 in He|].
  rewrite !zlen_cons in H0. pose proof (zlen_nonneg pts). exfalso. zlia.
Qed.

Lemma zlen_to_pairs pts : Nat.Even (length pts) -> zlen (to_pairs pts) = zlen pts / 2.
Proof.
  induction pts as [|x|a b pts IH] using pairs_ind; intros He; [done|by apply even_not_1 in He|].
  cbn [to_pairs]. rewrite !zlen_cons, IH by (by apply (proj1 (even_SS _))).
  replace (1 + (1 + zlen pts)) with (zlen pts + 1 * 2) by lia. rewrite Z.div_add by lia. lia.
Qed.

(** The pairs are in order. *)
Lemma to_pairs_sorted pts :
  canonical pts -> StronglySorted (fun x y => snd x < fst y) (to_pairs pts).
Proof.
  intros [Hs He]. revert Hs He. induction pts as [|x|a b pts IH] using pairs_ind; intros Hs He;
    cbn [to_pairs]; try constructor.
  - apply IH; [by do 2 apply StronglySorted_inv in Hs as [Hs _]|by apply (proj1 (even_SS _))].
  - apply StronglySorted_inv in Hs as [Hs _]. apply StronglySorted_inv in Hs as [Hs Hb].
    apply (proj1 (even_SS _)) in He. clear IH. revert He Hb Hs.
    induction pts as [|x|x y pts IH] using pairs_ind; intros He Hb Hs; cbn [to_pairs]; constructor.
    + by apply Forall_cons_iff in Hb as [? _].
    + apply IH; [by apply (proj1 (even_SS _))|by do 2 apply Forall_cons_iff in Hb as [_ Hb]|].
      by do 2 apply StronglySorted_inv in Hs as [Hs _].
Qed.

(** The points of a set whose code has 16-bit pairs. *)
Lemma narrow_pairs pts :
  canonical pts -> range_high pts <= 0xffff ->
  Forall (fun '(c1, c2) => c1 <= 0xffff /\ (c2 <= 0xffff \/ c2 = UINT32_MAX)) (to_pairs pts).
Proof.
  intros [Hs He]. revert Hs He. induction pts as [|x|a b pts IH] using pairs_ind; intros Hs He Hh;
    cbn [to_pairs]; try constructor.
  - pose proof (StronglySorted_inv Hs) as [Hs1 Ha]. apply Forall_cons_iff in Ha as [Hab Ha].
    pose proof (StronglySorted_inv Hs1) as [Hs2 Hb]. apply (proj1 (even_SS _)) in He.
    destruct pts as [|x [|y pts]]; [|by apply even_not_1 in He|].
    + unfold range_high in Hh. cbn [List.last removelast] in Hh.
      destruct (Z.eqb_spec b UINT32_MAX); lia.
    + assert (range_high (a :: b :: x :: y :: pts) = range_high (x :: y :: pts)) as E by done.
      rewrite E in Hh. specialize (IH Hs2 He Hh). cbn [to_pairs] in IH.
      apply Forall_cons_iff in IH as [[Hx _] _]. apply Forall_cons_iff in Hb as [Hbx _]. lia.
  - pose proof (StronglySorted_inv Hs) as [Hs1 _]. pose proof (StronglySorted_inv Hs1) as [Hs2 _].
    apply (proj1 (even_SS _)) in He. destruct pts as [|x [|y pts]]; [constructor|by apply even_not_1 in He|].
    apply IH; done.
Qed.

Lemma pairs_sorted_map (f : Z * Z -> Z * Z) Q :
  StronglySorted (fun x y => snd x < fst y) Q ->
  Forall (fun x => fst (f x) = fst x /\ fst x <= snd (f x) /\ snd (f x) < snd x) Q ->
  pairs_sorted (map f Q).
Proof.
  intros Hs Hf. split.
  - induction Hs as [|x Q _ IH Hx]; cbn [map]; [constructor|].
    apply Forall_cons_iff in Hf as [Hfx Hf]. constructor; [by apply IH|].
    rewrite Forall_map. rewrite List.Forall_forall in *. intros y Hy. cbn.
    specialize (Hx y Hy). specialize (Hf y Hy). lia.
  - rewrite Forall_map. eapply Forall_impl; [exact Hf|]. cbn. lia.
Qed.

Definition narrow (Q : list (Z * Z)) : Prop :=
  Forall (fun '(c1, c2) => 0 <= c1 < c2 /\ c1 <= 0xffff /\ (c2 <= 0xffff \/ c2 = UINT32_MAX)) Q.

Lemma narrow_range Q :
  narrow Q ->
  Forall (fun '(x, y) => 0 <= x < 2 ^ (8 * word_len false) /\ 0 <= y < 2 ^ (8 * word_len false))
    (map pair16 Q).
Proof.
  intros Hn. rewrite Forall_map. eapply Forall_impl; [exact Hn|]. intros [x y].
  change (2 ^ (8 * word_len false)) with 65536. cbn.
  destruct (Z.eqb_spec y UINT32_MAX); lia.
Qed.

Lemma narrow_sorted Q :
  narrow Q -> StronglySorted (fun x y => snd x < fst y) Q -> pairs_sorted (map pair16 Q).
Proof.
  intros Hn Hs. apply pairs_sorted_map; [done|]. eapply Forall_impl; [exact Hn|]. intros [x y].
  cbn. destruct (Z.eqb_spec y UINT32_MAX); unfold UINT32_MAX in *; lia.
Qed.

(** The pair that goes to the end of the code points can only be the last one. *)
Lemma narrow_last Q x y Q' :
  narrow (Q ++ (x, y) :: Q') -> StronglySorted (fun x y => snd x < fst y) (Q ++ (x, y) :: Q') ->
  y = UINT32_MAX -> Q' = [].
Proof.
  intros Hn Hs ->. destruct Q' as [|[x' y'] Q']; [done|]. exfalso.
  induction Q as [|z Q IH]; cbn [app] in *.
  - apply StronglySorted_inv in Hs as [_ Hs]. apply Forall_cons_iff in Hs as [Hs _].
    do 2 apply Forall_cons_iff in Hn as [? Hn]. cbn [fst snd] in Hs. unfold UINT32_MAX in *. lia.
  - apply IH; [by apply StronglySorted_inv in Hs as [Hs _]|by apply Forall_cons_iff in Hn as [_ Hn]].
Qed.

Lemma narrow_lo Q : narrow Q -> lo_of (map pair16 Q) 0 <= 0xffff.
Proof.
  intros Hn. destruct Q as [|[x y] Q]; [done|]. apply Forall_cons_iff in Hn as [? _].
  change (x <= 0xffff). lia.
Qed.

Lemma matches_narrow Q c :
  narrow Q -> StronglySorted (fun x y => snd x < fst y) Q -> Q <> [] -> 0 <= c < 0x110000 ->
  matches_pairs false (lo_of (map pair16 Q)) (hi_of (map pair16 Q)) (zlen (map pair16 Q)) c <->
  Exists (covers c) Q.
Proof.
  intros Hn Hs Hne Hc. unfold matches_pairs. rewrite in_pairs_list, Exists_map, !Exists_exists.
  pose proof (narrow_lo Q Hn) as Hlo0. pose proof Hn as Hn'. unfold narrow in Hn'.
  rewrite List.Forall_forall in Hn'.
  assert (forall l z, hi_of (map pair16 (l ++ [z])) (zlen (map pair16 (l ++ [z])) - 1) = snd (pair16 z)) as Hlast.
  { intros l z. unfold hi_of, zlen. rewrite map_app, length_app. cbn [map length].
    rewrite app_nth2 by lia. by replace (Z.to_nat _ - _)%nat with 0%nat by lia. }
  split.
  - intros [([a b] & Hin & Hab)|(_ & Hge & Hhi & Hlo)].
    + exists (a, b). split; [done|]. apply list_elem_of_In in Hin. specialize (Hn' _ Hin). cbn in *.
      unfold covers, UINT32_MAX in *. cbn. destruct (Z.eqb_spec b 4294967295); lia.
    + destruct Q as [|[x y] Q] using rev_ind; [done|]. clear IHQ. rewrite Hlast in Hhi.
      exists (x, y). split; [apply list_elem_of_In, in_or_app; right; by left|].
      specialize (Hn' (x, y) ltac:(apply in_or_app; right; by left)). cbn in *.
      unfold covers, UINT32_MAX in *. cbn. destruct (Z.eqb_spec y 4294967295); lia.
  - intros ([a b] & Hin & Hab). pose proof Hin as Hin'. apply list_elem_of_In in Hin'.
    specialize (Hn' _ Hin'). unfold covers in Hab. cbn in Hab, Hn'.
    destruct (Z.eqb_spec b UINT32_MAX) as [Eb|Eb].
    2:{ left. exists (a, b). split; [done|]. cbn. destruct (Z.eqb_spec b UINT32_MAX); lia. }
    destruct (Z.le_gt_cases c 0xffff).
    { left. exists (a, b). split; [done|]. cbn. destruct (Z.eqb_spec b UINT32_MAX); lia. }
    right. apply list_elem_of_split in Hin as (l1 & l2 & ->).
    rewrite (narrow_last _ _ _ _ Hn Hs Eb) in *. rewrite Hlast. subst b.
    split; [done|]. split; [lia|]. split; [done|]. lia.
Qed.

(** * The property *)

(** The instruction at [pc]. *)
Definition exec_at `{AL : Allocator} (s : REExecContext) fuel rec (g : ExecState AL) (d pc cptr : Z)
    : outcome (exec_next (AL := AL)) :=
  let* opcode := rd (bc s) pc in
  match reop_of opcode with
  | Some op => exec_instr s fuel rec g d (pc + 1) cptr op
  | None => Err AssertFail
  end.

Section Exec.
Context `{AL : Allocator} (s : REExecContext).
Variables (fuel : nat) (rec : ExecState AL -> Z -> Z -> Z -> outcome (ExecState AL * exec_result)).
Variables (g : ExecState AL) (d pc cptr c cptr' : Z).
Hypothesis here : cptr < cbuf_end s.
Hypothesis char : get_canonical s cptr = Ret (c, cptr').
Hypothesis code_point : 0 <= c < 0x110000.

(** The outcome of an instruction that matches one character. *)
Definition one_char (b : bool) (len : Z) : outcome (exec_next (AL := AL)) :=
  Ret (if b then Next g d (pc + len) cptr' else NoMatch g).

Lemma exec_range_pairs (wide b : bool) n lo hi :
  0 <= pc -> at_ (bc s) pc (if wide then REOP_range32 else REOP_range) ->
  get_u16 (bc s) (pc + 1) = Ret n -> 1 <= n < 65536 ->
  pairs_at s (get_word wide) (word_len wide) (pc + 3) n lo hi -> ordered_pairs lo hi n ->
  (matches_pairs wide lo hi n c <-> b = true) ->
  exec_at s fuel rec g d pc cptr = one_char b (3 + n * (2 * word_len wide)).
Proof using here char.
  intros Hpc Hop En Hn Hp Ho Hb. unfold exec_at. rewrite (rd_at _ _ _ Hop). cbn [obind].
  pose proof (range_match_spec s wide (pc + 3) n c lo hi Hp Hn) as H.
  apply post_inv in H as (b' & Em & Ht & Hf).
  assert (b' = b) as ->.
  { destruct b, b'; try done; [|by symmetry; apply Hb; auto]. exfalso. apply (Hf Ho eq_refl). by apply Hb. }
  assert (exec_range s g d (pc + 1) cptr wide = one_char b (3 + n * (2 * word_len wide))) as E.
  { unfold exec_range. rewrite En. cbn [obind]. decide_ifs lia. rewrite char. cbn [obind].
    replace (pc + 1 + 2) with (pc + 3) by lia. rewrite Em. cbn [obind]. unfold one_char.
    destruct b; [|done]. do 2 f_equal. destruct wide; cbn [word_len]; lia. }
  destruct wide; exact E.
Qed.

Lemma block_cons (m : list Z) p x bs : block_at m p (x :: bs) -> at_ m p x /\ block_at m (p + 1) bs.
Proof. done. Qed.

(** The range instruction of the pairs [P] of a set of [n] intervals. *)
Lemma exec_pairs_code (wide b : bool) n P rest :
  0 <= pc -> zlen P = n -> 1 <= n < 65536 ->
  Forall (fun '(x, y) => 0 <= x < 2 ^ (8 * word_len wide) /\ 0 <= y < 2 ^ (8 * word_len wide)) P ->
  pairs_sorted P ->
  (matches_pairs wide (lo_of P) (hi_of P) n c <-> b = true) ->
  rest = le_bytes 2 (u16 n) ++ pairs_code (Z.to_nat (word_len wide)) P ->
  block_at (bc s) pc (u8 (if wide then REOP_range32 else REOP_range) :: rest) ->
  exec_at s fuel rec g d pc cptr = one_char b (3 + n * (2 * word_len wide)).
Proof using here char.
  intros Hpc <- Hn Hr Hs Hb -> Hblk. apply block_cons in Hblk as [Hop Hblk].
  apply block_at_app in Hblk as [Hbn Hblk]. rewrite zlen_le_bytes in Hblk.
  eapply exec_range_pairs; [done| | |exact Hn| |by apply pairs_sorted_ordered|done].
  - by destruct wide.
  - pose proof (get_word_block false (bc s) (pc + 1) (u16 (zlen P)) Hbn) as E. cbn [get_word] in E.
    rewrite E. f_equal. unfold u16. change (2 ^ (8 * word_len false)) with 65536. rewrite !Z.mod_small; rewrite ?Z.mod_small; lia.
  - apply pairs_code_at; [lia| |done]. by replace (pc + 1 + Z.of_nat 2) with (pc + 3) in Hblk by lia.
Qed.

Lemma pairs_code_length w P : zlen (pairs_code w P) = zlen P * (2 * Z.of_nat w).
Proof.
  unfold pairs_code. induction P as [|[x y] P IH]; [done|]. cbn [map concat].
  rewrite !zlen_app, !zlen_le_bytes, IH, zlen_cons. lia.
Qed.

Lemma matches_wide Q :
  matches_pairs true (lo_of (map pair32 Q)) (hi_of (map pair32 Q)) (zlen (map pair32 Q)) c <->
  Exists (covers c) Q.
Proof using.
  unfold matches_pairs. rewrite in_pairs_list, Exists_map. split.
  - intros [H|[[=] _]]. eapply Exists_impl; [exact H|]. intros [x y]. unfold covers. cbn. lia.
  - intros H. left. eapply Exists_impl; [exact H|]. intros [x y]. unfold covers. cbn. lia.
Qed.


(** The code of a set matches its members. *)
Lemma exec_range_code pts :
  canonical pts -> Forall (fun p => 0 <= p < 2 ^ 32) pts -> zlen pts < 2 * 65535 ->
  0 <= pc -> block_at (bc s) pc (range_code pts) ->
  exec_at s fuel rec g d pc cptr = one_char (inside false pts c) (zlen (range_code pts)).
Proof using here char code_point.
  intros Hcan Hpts Hlen Hpc. unfold range_code. pose proof (zlen_nonneg pts).
  destruct (Z.eqb_spec (zlen pts / 2) 0) as [H0|H0].
  { apply to_pairs_nil in H0 as ->; [|apply Hcan]. intros Hb. apply block_cons in Hb as [Hop Hb].
    unfold exec_at. rewrite (rd_at _ _ _ Hop). cbn [obind]. unfold one_char.
    change (reop_of (u8 REOP_char32)) with (Some REOP_char32). cbn [exec_instr inside].
    pose proof (get_word_block true (bc s) (pc + 1) (u32 (-1)) Hb) as E. cbn [get_word] in E.
    rewrite E. cbn [obind]. unfold test_char. decide_ifs lia. rewrite char. cbn [obind].
    change (u32 (-1) mod 2 ^ (8 * word_len true)) with 4294967295. by decide_ifs lia. }
  assert (1 <= zlen pts / 2 < 65536) as Hn by zlia.
  pose proof (canonical_pairs _ Hcan Hpts) as Hp. pose proof (to_pairs_sorted _ Hcan) as Hs.
  pose proof (zlen_to_pairs pts (proj2 Hcan)) as Hz. pose proof (inside_pairs pts c Hcan) as Hin.
  assert (to_pairs pts <> []) as Hne by (intros E; rewrite E in Hz; change (zlen []) with 0 in Hz; lia).
  destruct (Z.leb_spec (range_high pts) 65535) as [Hh|Hh]; intros Hb.
  - pose proof (narrow_pairs _ Hcan Hh) as Hnar.
    assert (narrow (to_pairs pts)) as Hnq.
    { unfold narrow. rewrite List.Forall_forall in *. intros [x y] Hi.
      specialize (Hp _ Hi). specialize (Hnar _ Hi). cbn in *. lia. }
    etrans; [eapply (exec_pairs_code false (inside false pts c) (zlen pts / 2)
                      (map pair16 (to_pairs pts))); [done|by rewrite zlen_map|done| | | |done|exact Hb]|].
    + by apply narrow_range.
    + by apply narrow_sorted.
    + rewrite Hin, <- Hz, <- (zlen_map pair16). by apply matches_narrow.
    + f_equal. rewrite zlen_cons, zlen_app, zlen_le_bytes, pairs_code_length, zlen_map, Hz.
      cbn [word_len]. lia.
  - etrans; [eapply (exec_pairs_code true (inside false pts c) (zlen pts / 2)
                      (map pair32 (to_pairs pts))); [done|by rewrite zlen_map|done| | | |done|exact Hb]|].
    + rewrite Forall_map. eapply Forall_impl; [exact Hp|]. intros [x y]. cbn. lia.
    + apply pairs_sorted_map; [done|]. eapply Forall_impl; [exact Hp|]. intros [x y]. cbn. lia.
    + rewrite Hin, <- Hz, <- (zlen_map pair32). apply matches_wide.
    + f_equal. rewrite zlen_cons, zlen_app, zlen_le_bytes, pairs_code_length, zlen_map, Hz.
      cbn [word_len]. lia.
Qed.
End Exec.

(** C4: What [re_emit_range] emits for a set of characters matches exactly the
    members of the set.  On a state whose byte code buffer is well formed, for
    every allocator, the call returns (no fault) without reporting an error; it
    changes nothing but the byte code; and unless an allocation failed, in which
    case the error flag of the buffer is set, it appended some code [code].
    Wherever that code lies in the byte code of a matcher, at a position where
    the character [c] can be read, the instruction there consumes the character
    and goes on behind the code when [c] is in the set, and fails otherwise.
    The three forms of the code (the empty set, 16-bit pairs with their
    representation of an open last interval, 32-bit pairs) and the binary search
    of the matcher are all inside this statement. *)
Theorem re_emit_range_matches `{AL : Allocator} (st : REParseState) (cr : CharRange) :
  dbuf_wf (byte_code st) -> cr_wf cr -> canonical (cr_list cr) ->
  Forall (fun p => 0 <= p < 2 ^ 32) (cr_list cr) -> zlen (cr_list cr) < 2 * 65535 ->
  exists h b code,
    re_emit_range cr st = Ret (Some tt, set_byte_code h b st) /\ dbuf_wf b /\
    (error b = false -> contents b = contents (byte_code st) ++ code) /\
    forall s fuel rec g d pc cptr c cptr',
      0 <= pc -> block_at (bc s) pc code -> cptr < cbuf_end s ->
      get_canonical s cptr = Ret (c, cptr') -> 0 <= c < 0x110000 ->
      exec_at s fuel rec g d pc cptr =
        Ret (if inside false (cr_list cr) c then Next g d (pc + zlen code) cptr' else NoMatch g).
Proof.
  intros Hwf Hcr Hcan Hpts Hlen.
  pose proof (emits_range st cr Hcr Hcan Hpts Hlen Hwf) as H.
  apply post_inv in H as ([r st'] & E & (Est & Hwf' & _ & Hc) & [[] ->]).
  exists (s_heap st'), (byte_code st'), (range_code (cr_list cr)). rewrite <- Est.
  split; [done|]. split; [done|]. split; [done|]. intros.
  by eapply exec_range_code.
Qed.

(** A parser at the start of its pattern. *)
Definition initial_state : REParseState (AL := alloc_always) :=
  mkREParseState (AL := alloc_always) tt (mkDynBuf [] 0 0 false) [0] 0 0 0 false false false false 1 0 (-1)
    (mkDynBuf [] 0 0 false) [].

(** The digits and the letters up to the end of the code points. *)
Definition example_range : CharRange := mkCR 4 4 [0x30; 0x3a; 0x61; UINT32_MAX].

Lemma re_emit_range_matches_witness :
  zlen (cr_list example_range) = 4 /\
  exists h b code,
    re_emit_range example_range initial_state =
      Ret (Some tt, set_byte_code h b initial_state) /\ dbuf_wf b /\
    (error b = false -> contents b = [] ++ code) /\
    forall s fuel rec (g : ExecState alloc_always) d pc cptr c cptr',
      0 <= pc -> block_at (bc s) pc code -> cptr < cbuf_end s ->
      get_canonical s cptr = Ret (c, cptr') -> 0 <= c < 0x110000 ->
      exec_at (AL := alloc_always) s fuel rec g d pc cptr =
        Ret (if inside false (cr_list example_range) c then Next g d (pc + zlen code) cptr' else NoMatch g).
Proof.
  split; [reflexivity|].
  apply (re_emit_range_matches initial_state example_range).
  - repeat split; cbn; lia.
  - repeat split; cbn; lia.
  - split; [|exists 2%nat; reflexivity]. repeat constructor.
  - repeat (apply Forall_cons; split; [cbn; unfold UINT32_MAX; lia|]); apply Forall_nil; done.
  - vm_compute. reflexivity.
Defined.
