(* ===== verification/ReVerify.v ===== *)
(** Memory safety of the matcher on verified byte code.

    [bc_valid] is a decidable check of a compiled expression: every instruction
    lies in the code, jumps lead to instructions, the depth of the matcher's
    stack is the same on every way to an instruction and within the size the
    header announces, captures are within the number it announces, and the body
    of a simple quantifier only consumes characters.  The matcher, started on a
    boundary of the subject with any allocator, runs such code without an
    access out of bounds and without a failed assertion. *)
From Stdlib Require Import ZArith Lia Bool List String.
From stdpp Require Import base tactics list numbers strings.
From S2P Require Import Prelude Alloc Utf8 CaseConv Regexp ReQuant.
From S2P Require Import ReCompile ReExec ReChars ReRange.

(** * The check *)

(** What is known of the instruction at an offset: its opcode and the depth of
    the stack before it. *)
Definition code_map := Z -> option (REOPCodeEnum * Z).

Definition at_depth (M : code_map) (pc d : Z) : bool :=
  match M pc with Some (_, d') => d' =? d | None => false end.

Definition reads {A : Type} (m : outcome A) (k : A -> bool) : bool :=
  match m with Ret a => k a | Err _ => false end.

Section Check.
Variables (bc : list Z) (count stack_max : Z) (M : code_map).

(** The instructions at [pos] match [k] characters and end with [REOP_match]. *)
Fixpoint body_ok (fuel : nat) (pos k : Z) : bool :=
  match fuel with
  | O => false
  | S fuel =>
      reads (rd bc pos) (fun opcode =>
        match reop_of opcode with
        | Some REOP_match => k =? 0
        | Some REOP_char8 => (pos + 2 <=? zlen bc) && body_ok fuel (pos + 2) (k - 1)
        | Some REOP_char16 => (pos + 3 <=? zlen bc) && body_ok fuel (pos + 3) (k - 1)
        | Some REOP_char32 => (pos + 5 <=? zlen bc) && body_ok fuel (pos + 5) (k - 1)
        | Some (REOP_dot | REOP_any) => body_ok fuel (pos + 1) (k - 1)
        | Some REOP_range =>
            reads (get_u16 bc (pos + 1)) (fun n =>
              (1 <=? n) && (n <? 65536) && (pos + 3 + 4 * n <=? zlen bc) &&
              body_ok fuel (pos + 3 + 4 * n) (k - 1))
        | Some REOP_range32 =>
            reads (get_u16 bc (pos + 1)) (fun n =>
              (1 <=? n) && (n <? 65536) && (pos + 3 + 8 * n <=? zlen bc) &&
              body_ok fuel (pos + 3 + 8 * n) (k - 1))
        | Some (REOP_line_start | REOP_line_end | REOP_word_boundary | REOP_not_word_boundary) =>
            body_ok fuel (pos + 1) k
        | _ => false
        end)
  end.

Definition jump_ok (pos d : Z) : bool :=
  reads (get_u32 bc (pos + 1)) (fun v => at_depth M (pos + 5 + i32 v) d).

Definition instr_ok (pos d : Z) (op : REOPCodeEnum) : bool :=
  match op with
  | REOP_invalid => false
  | REOP_match => true
  | REOP_char8 => (pos + 2 <=? zlen bc) && at_depth M (pos + 2) d
  | REOP_char16 => (pos + 3 <=? zlen bc) && at_depth M (pos + 3) d
  | REOP_char32 => (pos + 5 <=? zlen bc) && at_depth M (pos + 5) d
  | REOP_dot | REOP_any | REOP_line_start | REOP_line_end | REOP_word_boundary
  | REOP_not_word_boundary | REOP_prev => at_depth M (pos + 1) d
  | REOP_goto => jump_ok pos d
  | REOP_split_goto_first | REOP_split_next_first | REOP_lookahead | REOP_negative_lookahead =>
      jump_ok pos d && at_depth M (pos + 5) d
  | REOP_save_start | REOP_save_end =>
      reads (rd bc (pos + 1)) (fun v => (0 <=? v) && (v <? count)) && at_depth M (pos + 2) d
  | REOP_save_reset =>
      reads (rd bc (pos + 1)) (fun v => 0 <=? v) &&
      reads (rd bc (pos + 2)) (fun v => (0 <=? v) && (v <? count)) && at_depth M (pos + 3) d
  | REOP_push_i32 => (pos + 5 <=? zlen bc) && (d <? stack_max) && at_depth M (pos + 5) (d + 1)
  | REOP_push_char_pos => (d <? stack_max) && at_depth M (pos + 1) (d + 1)
  | REOP_drop | REOP_check_advance => (0 <? d) && at_depth M (pos + 1) (d - 1)
  | REOP_loop => (0 <? d) && jump_ok pos d && at_depth M (pos + 5) d
  | REOP_back_reference | REOP_backward_back_reference =>
      reads (rd bc (pos + 1)) (fun v => 0 <=? v) && at_depth M (pos + 2) d
  | REOP_range =>
      reads (get_u16 bc (pos + 1)) (fun n =>
        (1 <=? n) && (n <? 65536) && (pos + 3 + 4 * n <=? zlen bc) && at_depth M (pos + 3 + 4 * n) d)
  | REOP_range32 =>
      reads (get_u16 bc (pos + 1)) (fun n =>
        (1 <=? n) && (n <? 65536) && (pos + 3 + 8 * n <=? zlen bc) && at_depth M (pos + 3 + 8 * n) d)
  | REOP_simple_greedy_quant =>
      (pos + 17 <=? zlen bc) &&
      reads (get_u32 bc (pos + 1)) (fun next => at_depth M (pos + 17 + i32 next) d) &&
      reads (get_u32 bc (pos + 5)) (fun quant_min => 0 <=? quant_min) &&
      reads (get_u32 bc (pos + 13)) (fun char_count =>
        (0 <? char_count) && body_ok (length bc) (pos + 17) char_count)
  end.

(** The map describes the code. *)
Definition map_ok : Prop := forall pc op d,
  M pc = Some (op, d) ->
  rd bc pc = Ret (reop_code op) /\ 0 <= pc /\ 0 <= d <= stack_max /\ instr_ok pc d op = true.
End Check.

(** ** The map of a compiled expression *)

(** The instructions from [pos] on with the depth before each, as
    [lre_compute_stack_size] counts it. *)
Fixpoint scan (fuel : nat) (bc : list Z) (pos end_ d : Z) : list (Z * (REOPCodeEnum * Z)) :=
  match fuel with
  | O => []
  | S fuel =>
      if pos <? end_ then
        match rd bc pos with
        | Err _ => []
        | Ret opcode =>
            match reop_of opcode, instr_len bc pos opcode with
            | Some op, Ret len =>
                let d' := match op with
                          | REOP_push_i32 | REOP_push_char_pos => d + 1
                          | REOP_drop | REOP_check_advance => d - 1
                          | _ => d
                          end in
                (pos, (op, d)) :: scan fuel bc (pos + len) end_ d'
            | _, _ => []
            end
        end
      else []
  end.

Definition find (l : list (Z * (REOPCodeEnum * Z))) : code_map := fun pc =>
  match List.find (fun e => fst e =? pc) l with Some (_, e) => Some e | None => None end.

Definition entry_ok (bc : list Z) (count stack_max : Z) (M : code_map)
    (e : Z * (REOPCodeEnum * Z)) : bool :=
  let '(pc, (op, d)) := e in
  reads (rd bc pc) (fun opcode => opcode =? reop_code op) &&
  (0 <=? d) && (d <=? stack_max) && instr_ok bc count stack_max M pc d op.

Definition bc_valid (bc : list Z) : bool :=
  reads (lre_get_flags bc) (fun _ =>
  reads (rd bc RE_HEADER_CAPTURE_COUNT) (fun count =>
  reads (rd bc RE_HEADER_STACK_SIZE) (fun stack_max =>
  reads (get_u32 bc RE_HEADER_BYTECODE_LEN) (fun len =>
    let l := scan (length bc) bc RE_HEADER_LEN (RE_HEADER_LEN + len) 0 in
    (0 <=? count) && (count <? 256) && (0 <=? stack_max) && (stack_max <? 256) &&
    at_depth (find l) RE_HEADER_LEN 0 &&
    forallb (entry_ok bc count stack_max (find l)) l)))).

(** * Lemmas on the check *)

Lemma reads_true {A : Type} (m : outcome A) k : reads m k = true -> exists a, m = Ret a /\ k a = true.
Proof. destruct m; [eauto|done]. Qed.

Lemma reop_of_code op : reop_of (reop_code op) = Some op.
Proof. by destruct op. Qed.

Lemma find_In l pc e : find l pc = Some e -> In (pc, e) l.
Proof.
  unfold find. destruct (List.find _ l) as [[p e']|] eqn:E; [|done]. intros [= ->].
  apply find_some in E as [Hin Hp]. cbn [fst] in Hp. apply Z.eqb_eq in Hp as ->. done.
Qed.

Lemma bc_valid_map bc :
  bc_valid bc = true ->
  exists flags count stack_max M,
    lre_get_flags bc = Ret flags /\ rd bc RE_HEADER_CAPTURE_COUNT = Ret count /\
    rd bc RE_HEADER_STACK_SIZE = Ret stack_max /\ 0 <= count < 256 /\ 0 <= stack_max < 256 /\
    at_depth M RE_HEADER_LEN 0 = true /\ map_ok bc count stack_max M.
Proof.
  unfold bc_valid. intros H.
  apply reads_true in H as (flags & Ef & H). apply reads_true in H as (count & Ec & H).
  apply reads_true in H as (stack_max & Es & H). apply reads_true in H as (len & El & H).
  cbv zeta in H. set (l := scan _ _ _ _ _) in *. apply andb_true_iff in H as [H Hall].
  apply andb_true_iff in H as [H Hd]. bool_to_prop.
  exists flags, count, stack_max, (find l). split_and!; try (done || lia).
  intros pc op d HM. apply find_In in HM. rewrite forallb_forall in Hall.
  specialize (Hall _ HM). unfold entry_ok in Hall. apply andb_true_iff in Hall as [Hall Hi].
  apply andb_true_iff in Hall as [Hall Hd2]. apply andb_true_iff in Hall as [Hr Hd1].
  apply reads_true in Hr as (opcode & Er & Ho). bool_to_prop. subst opcode.
  pose proof (at_lt _ _ _ (rd_Ret _ _ _ Er)). split_and!; (done || lia).
Qed.

(** * The invariant of the matcher *)

Section Safety.
Context `{AL : Allocator} (s : REExecContext) (M : code_map).

Hypothesis end_eq : cbuf_end s = zlen (cbuf s).
Hypothesis end_max : zlen (cbuf s) < 2 ^ 31.
Hypothesis units : Forall in_u16 (cbuf s).
Hypothesis counts : 0 <= capture_count s < 256 /\ 0 <= stack_size_max s < 256.
Hypothesis mapped : map_ok (bc s) (capture_count s) (stack_size_max s) M.

Abbreviation boundary := (bnd (cbuf s) (cbuf_type s)).
Abbreviation forward := (fwd (cbuf s) (cbuf_type s)).

(** The captures are null or boundaries. *)
Definition caps_ok (l : list (option Z)) : Prop :=
  2 * capture_count s <= zlen l /\
  forall i p, 0 <= i < 2 * capture_count s -> at_ l i (Some p) -> boundary p.

(** A saved greedy quantifier can give back [rs_count] times its characters. *)
Definition greedy_ok (rs : REExecState) : Prop :=
  exists char_count p0 n,
    M (rs_pc rs - 1) = Some (REOP_simple_greedy_quant, rs_stack_len rs) /\
    get_u32 (bc s) (rs_pc rs + 12) = Ret char_count /\ 0 < char_count /\
    1 <= rs_count rs < 2 ^ 64 /\
    forward p0 (n + Z.to_nat (rs_count rs * char_count)) (rs_cptr rs).

Definition rs_ok (rs : REExecState) : Prop :=
  caps_ok (rs_captures rs) /\ zlen (rs_captures rs) = 2 * capture_count s /\
  zlen (rs_stack rs) = rs_stack_len rs /\ 0 <= rs_stack_len rs <= stack_size_max s /\
  match rs_type rs with
  | RE_EXEC_STATE_GREEDY_QUANT => greedy_ok rs
  | _ => at_depth M (rs_pc rs) (rs_stack_len rs) = true /\ boundary (rs_cptr rs)
  end.

Definition g_ok (g : ExecState AL) : Prop :=
  caps_ok (x_capture g) /\ zlen (x_stack g) = stack_size_max s /\ Forall rs_ok (state_stack g).

Definition point_ok (g : ExecState AL) (d pc cptr : Z) : Prop :=
  g_ok g /\ at_depth M pc d = true /\ boundary cptr.

Definition result_ok (r : exec_result) : Prop :=
  match r with ExecMatch p => boundary p | _ => True end.

Definition next_ok (r : exec_next) : Prop :=
  match r with
  | Next g d pc cptr => point_ok g d pc cptr
  | NoMatch g => g_ok g
  | Return g r => g_ok g /\ result_ok r
  end.

(** ** Depths *)

Lemma at_depth_inv pc d :
  at_depth M pc d = true ->
  exists op, M pc = Some (op, d) /\ rd (bc s) pc = Ret (reop_code op) /\ 0 <= pc /\
    0 <= d <= stack_size_max s /\
    instr_ok (bc s) (capture_count s) (stack_size_max s) M pc d op = true.
Proof using mapped.
  unfold at_depth. destruct (M pc) as [[op d']|] eqn:E; [|done]. intros H. bool_to_prop. subst d'.
  exists op. destruct (mapped _ _ _ E) as (? & ? & ? & ?). auto.
Qed.

(** ** Captures and saved states *)

Lemma caps_ok_wr l i p :
  caps_ok l -> 0 <= i < zlen l -> match p with Some p => boundary p | None => True end ->
  post (wr l i p) caps_ok.
Proof using Type.
  intros [Hl Hc] Hi Hp. apply post_wr; [done|]. split; [by rewrite zlen_insert|].
  intros j q Hj Hq. destruct (Z.eq_dec i j) as [->|Hne].
  - pose proof (at_det _ _ _ _ Hq (at_insert_eq l j p Hi)). by subst p.
  - rewrite at_insert_ne in Hq by lia. eauto.
Qed.

Lemma restore_captures_ok g rs :
  g_ok g -> rs_ok rs -> post (restore_captures g rs) (fun g' =>
    g_ok g' /\ state_stack g' = state_stack g).
Proof using Type.
  intros (Hc & Hs & Hf) (Hrc & Hrl & _). unfold restore_captures.
  destruct (wr_slice_exists (x_capture g) 0 (rs_captures rs)) as [l Hl]; [lia|destruct Hc; lia|].
  rewrite Hl. cbn. split; [|done]. split_and!; [|done|done]. cbn.
  apply at_wr_slice in Hl as [Hz Hl]. split; [rewrite Hz; apply Hc|].
  intros i p Hi Hp. apply Hl in Hp. revert Hp. decide_ifs lia.
  rewrite Z.sub_0_r. intros Hp. exact (proj2 Hrc i p Hi Hp).
Qed.

Lemma restore_stack_ok g rs :
  g_ok g -> rs_ok rs -> post (restore_stack g rs) (fun g' =>
    g_ok g' /\ state_stack g' = state_stack g).
Proof using Type.
  intros (Hc & Hs & Hf) (_ & _ & Hrs & Hd & _). unfold restore_stack.
  destruct (wr_slice_exists (x_stack g) 0 (rs_stack rs)) as [l Hl]; [lia|lia|].
  rewrite Hl. cbn. apply wr_slice_block in Hl as [_ Hz]. split; [|done].
  split_and!; [done|cbn; by rewrite Hz|done].
Qed.

Lemma g_ok_states g states : g_ok g -> Forall rs_ok states -> g_ok (set_states g states).
Proof using Type. by intros (? & ? & ?) ?. Qed.

Lemma pop_state1_ok g rs rest :
  g_ok g -> rs_ok rs -> Forall rs_ok rest -> rs_type rs <> RE_EXEC_STATE_GREEDY_QUANT ->
  safely (pop_state1 g rs rest) next_ok.
Proof using Type.
  intros Hg Hrs Hrest Ht. unfold pop_state1.
  eapply safely_bind; [apply post_safely, restore_stack_ok; done|].
  intros g' [Hg' _]. apply safely_ret. split; [by apply g_ok_states|].
  destruct Hrs as (_ & _ & _ & _ & Hk). by destruct (rs_type rs).
Qed.

Lemma pop_state_ok g rs rest :
  g_ok g -> rs_ok rs -> Forall rs_ok rest -> rs_type rs <> RE_EXEC_STATE_GREEDY_QUANT ->
  safely (pop_state g rs rest) next_ok.
Proof using Type.
  intros Hg Hrs Hrest Ht. unfold pop_state.
  eapply safely_bind; [apply post_safely, restore_captures_ok; done|].
  intros g' [Hg' _]. by apply pop_state1_ok.
Qed.

(** Going back over characters gone over before. *)
Lemma prev_chars_ok p0 n k p :
  0 <= k -> forward p0 (n + Z.to_nat k) p -> post (prev_chars s p k) (forward p0 n).
Proof using end_eq units.
  intros Hk Hp. unfold prev_chars.
  apply (post_iter (fun '(i, p) => 0 <= i <= k /\ forward p0 (n + Z.to_nat (k - i)) p)
           (fun '(i, _) => Z.to_nat (k - i))); [| |lia].
  2:{ split; [lia|]. by rewrite Z.sub_0_r. }
  intros [i q] [Hi Hq]. step.
  - bool_to_prop. replace (n + Z.to_nat (k - i))%nat with (S (n + Z.to_nat (k - (i + 1)))) in Hq by lia.
    destruct (fwd_prev _ _ units _ _ _ Hq) as (q' & E' & Hq'). rewrite E'. cbn. split; [|lia].
    split; [lia|done].
  - bool_to_prop. cbn. by replace (n + Z.to_nat (k - i))%nat with n in Hq by lia.
Qed.

Lemma greedy_instr pc d :
  M pc = Some (REOP_simple_greedy_quant, d) ->
  exists next quant_min char_count,
    get_u32 (bc s) (pc + 1) = Ret next /\ at_depth M (pc + 17 + i32 next) d = true /\
    get_u32 (bc s) (pc + 5) = Ret quant_min /\ 0 <= quant_min /\
    get_u32 (bc s) (pc + 13) = Ret char_count /\ 0 < char_count /\
    body_ok (bc s) (length (bc s)) (pc + 17) char_count = true /\
    0 <= pc /\ pc + 17 <= zlen (bc s) /\ 0 <= d <= stack_size_max s.
Proof using mapped.
  intros HM. destruct (mapped _ _ _ HM) as (_ & Hpc & Hd & Hi). cbn in Hi.
  apply andb_true_iff in Hi as [Hi H3]. apply andb_true_iff in Hi as [Hi H2].
  apply andb_true_iff in Hi as [H0 H1].
  apply reads_true in H1 as (next & E1 & H1). apply reads_true in H2 as (qmin & E2 & H2).
  apply reads_true in H3 as (cc & E3 & H3). apply andb_true_iff in H3 as [H3 Hb]. bool_to_prop.
  exists next, qmin, cc. split_and!; (done || lia).
Qed.

Lemma pop_greedy_ok g rs rest :
  g_ok g -> rs_ok rs -> Forall rs_ok rest -> rs_type rs = RE_EXEC_STATE_GREEDY_QUANT ->
  safely (pop_greedy s g rs rest) next_ok.
Proof using end_eq units mapped.
  intros Hg Hrs Hrest Ht. unfold pop_greedy.
  eapply safely_bind; [apply post_safely, restore_captures_ok; done|]. intros g1 [Hg1 _].
  eapply safely_bind; [apply post_safely, restore_stack_ok; done|]. intros g2 [Hg2 _].
  pose proof Hrs as (Hrc & Hrl & Hst & Hd & Hk). rewrite Ht in Hk.
  destruct Hk as (cc & p0 & n & HM & Ecc & Hcc & Hcount & Hf).
  rewrite Ecc. cbn [obind].
  replace (rs_count rs * cc) with ((rs_count rs - 1) * cc + cc) in Hf by lia.
  rewrite Z2Nat.inj_add, Nat.add_assoc in Hf by nia.
  eapply safely_bind; [apply post_safely, prev_chars_ok; [lia|exact Hf]|]. intros p Hp.
  destruct (greedy_instr _ _ HM) as (next & qmin & cc' & En & Hat & _).
  replace (rs_pc rs - 1 + 1) with (rs_pc rs) in En by lia. rewrite En. cbn [obind safely next_ok].
  replace (rs_pc rs - 1 + 17 + i32 next) with (rs_pc rs + 16 + i32 next) in Hat by lia.
  split; [|split; [done|]].
  - apply g_ok_states; [done|]. rewrite u64_id by zlia.
    destruct (Z.eqb_spec (rs_count rs - 1) 0); [done|]. constructor; [|done].
    split_and!; try (cbn; (done || lia)). cbn [rs_type]. rewrite Ht.
    exists cc, p0, n. cbn. split_and!; (done || lia).
  - by destruct (fwd_bnd _ _ units _ _ _ Hp) as (_ & ? & _).
Qed.

Lemma recurse_ok g ret p states :
  g_ok g -> boundary p -> Forall rs_ok states -> safely (recurse s g ret p states) next_ok.
Proof using end_eq units mapped.
  intros Hg Hp. revert ret. induction states as [|rs rest IH]; intros ret Hs; cbn [recurse].
  - apply safely_ret. split; [by apply g_ok_states|]. by destruct ret.
  - apply Forall_cons_iff in Hs as [Hrs Hrest].
    destruct (rs_type rs) eqn:Et; destruct ret; cbn [negb]; auto;
      first [ apply pop_state_ok | apply pop_state1_ok | apply pop_greedy_ok ]; auto; congruence.
Qed.

(** ** Pushing states *)

Lemma grow_states_ok g g' b : g_ok g -> grow_states s g = (g', b) -> g_ok g' /\ state_stack g' = state_stack g.
Proof using Type.
  intros Hg. unfold grow_states. destruct (_ <? _); [|by intros [= <- <-]].
  destruct (alloc _ _) as [h ok]. intros [= <- <-]. done.
Qed.

Lemma push_state_ok g d pc cptr type count :
  g_ok g -> 0 <= d <= stack_size_max s ->
  match type with
  | RE_EXEC_STATE_GREEDY_QUANT =>
      forall captures stack, greedy_ok (mkREExecState type d count cptr pc captures stack)
  | _ => at_depth M pc d = true /\ boundary cptr
  end ->
  post (push_state s g d pc cptr type count) (fun '(g', _) => g_ok g').
Proof using counts.
  intros Hg Hd Hk. unfold push_state. destruct (grow_states s g) as [g1 failed] eqn:E.
  destruct (grow_states_ok _ _ _ Hg E) as [(Hc & Hs & Hf) _].
  destruct failed; [by apply post_ret|]. destruct Hc as [Hl Hc].
  rewrite (rd_slice_in (x_capture g1)) by lia. cbn [obind].
  rewrite (rd_slice_in (x_stack g1)) by lia. cbn [obind post]. rewrite !drop_0.
  apply g_ok_states; [done|]. constructor; [|done].
  split_and!; cbn [rs_captures rs_stack rs_stack_len rs_type rs_pc rs_cptr]; rewrite ?u8_id by (unfold in_u8; lia);
    try lia.
  - split; [rewrite zlen_take; lia|]. intros i p Hi [Hi0 Hp]. apply (Hc i p Hi). split; [lia|].
    by apply lookup_take_Some in Hp as [Hp _].
  - rewrite zlen_take; lia.
  - rewrite zlen_take; lia.
  - by destruct type.
Qed.

Lemma push_and_go_ok g d pc1 cptr type count pc :
  point_ok g d pc cptr -> 0 <= d <= stack_size_max s ->
  match type with
  | RE_EXEC_STATE_GREEDY_QUANT =>
      forall captures stack, greedy_ok (mkREExecState type d count cptr pc1 captures stack)
  | _ => at_depth M pc1 d = true /\ boundary cptr
  end ->
  safely (push_and_go s g d pc1 cptr type count pc) next_ok.
Proof using counts.
  intros (Hg & Hpc & Hb) Hd Hk. unfold push_and_go.
  eapply safely_bind; [apply post_safely, push_state_ok; done|].
  intros [g' failed] Hg'. destruct failed; apply safely_ret; [by split|by split_and!].
Qed.

(** ** Characters *)

Lemma canonicalize_total c : 0 <= c < 0x110000 -> exists d, canonicalize s c = Ret d.
Proof using Type.
  intros Hc. unfold canonicalize. destruct (ignore_case s); [|eauto].
  pose proof (canonicalize_ok_all (is_unicode s) c Hc) as H. unfold canonicalize_ok in H.
  destruct (lre_canonicalize c _); [eauto|done].
Qed.

(** A character read forward: the next position is one character further. *)
Lemma GET_CHAR_ok p :
  boundary p -> p < cbuf_end s ->
  exists c p', GET_CHAR (cbuf s) p (cbuf_end s) (cbuf_type s) = Ret (c, p') /\
    0 <= c < 0x110000 /\ forward p 1 p'.
Proof using end_eq units.
  intros Hp Hlt. rewrite end_eq in *.
  destruct (GET_CHAR_fwd _ _ units p (zlen (cbuf s)) Hp (bnd_end _ _) Hlt)
    as (c & p' & E & Hb & _ & _ & Hr).
  exists c, p'. split; [done|]. split; [done|]. eapply fwd_S; [by apply fwd_0|done|exact E].
Qed.

Lemma get_canonical_ok p :
  boundary p -> p < cbuf_end s -> exists c p', get_canonical s p = Ret (c, p') /\ forward p 1 p'.
Proof using end_eq units.
  intros Hp Hlt. destruct (GET_CHAR_ok p Hp Hlt) as (c & p' & E & Hr & Hf).
  destruct (canonicalize_total c Hr) as [d Hd]. exists d, p'. split; [|done].
  unfold get_canonical. rewrite E. cbn [obind]. by rewrite Hd.
Qed.

Lemma PEEK_CHAR_ok p :
  boundary p -> p < cbuf_end s -> exists c, PEEK_CHAR (cbuf s) p (cbuf_end s) (cbuf_type s) = Ret c.
Proof using end_eq units.
  intros Hp Hlt. destruct (GET_CHAR_ok p Hp Hlt) as (c & p' & E & _).
  unfold PEEK_CHAR. rewrite E. cbn. eauto.
Qed.

Lemma PEEK_PREV_CHAR_ok p :
  boundary p -> p <> 0 -> exists c, PEEK_PREV_CHAR (cbuf s) p 0 (cbuf_type s) = Ret c.
Proof using units.
  intros Hp H0. assert (0 < p) by (destruct Hp; lia).
  destruct (GET_PREV_CHAR_bnd _ _ units p 0 Hp (bnd_start _ _)) as (c & p' & E & _); [done|].
  unfold PEEK_PREV_CHAR. rewrite E. cbn. eauto.
Qed.

(** What an instruction that only looks at the subject does: the match fails or
    goes on at [pc'], [k] characters further, the rest of the state unchanged. *)
Definition char_step (g : ExecState AL) (d pc' cptr : Z) (k : nat) (r : exec_next) : Prop :=
  r = NoMatch g \/ exists cptr', r = Next g d pc' cptr' /\ forward cptr k cptr'.

Lemma test_char_ok g d pc cptr val :
  boundary cptr -> post (test_char s g d pc cptr val) (char_step g d pc cptr 1).
Proof using end_eq units.
  intros Hb. unfold test_char. step; [by left|]. bool_to_prop.
  destruct (get_canonical_ok cptr Hb) as (c & p' & E' & Hf); [lia|].
  rewrite E'. cbn [obind]. destruct (negb _); [by left|]. right. eauto.
Qed.

Lemma exec_any_ok g d pc cptr dot :
  boundary cptr -> post (exec_any s g d pc cptr dot) (char_step g d pc cptr 1).
Proof using end_eq units.
  intros Hb. unfold exec_any. step; [by left|]. bool_to_prop.
  destruct (GET_CHAR_ok cptr Hb) as (c & p' & E' & _ & Hf); [destruct Hb; lia|].
  rewrite E'. cbn [obind]. destruct (_ && _); [by left|]. right. eauto.
Qed.

Lemma exec_line_start_ok g d pc cptr :
  boundary cptr -> post (exec_line_start s g d pc cptr) (char_step g d pc cptr 0).
Proof using units.
  intros Hb. unfold exec_line_start. step; [right; eexists; split; [done|by apply fwd_0]|].
  step; [by left|]. bool_to_prop. destruct (PEEK_PREV_CHAR_ok cptr Hb) as (c & E'); [lia|].
  rewrite E'. cbn [obind]. destruct (negb _); [by left|]. right; eexists; split; [done|by apply fwd_0].
Qed.

Lemma exec_line_end_ok g d pc cptr :
  boundary cptr -> post (exec_line_end s g d pc cptr) (char_step g d pc cptr 0).
Proof using end_eq units.
  intros Hb. unfold exec_line_end. step; [right; eexists; split; [done|by apply fwd_0]|].
  step; [by left|]. bool_to_prop. destruct (PEEK_CHAR_ok cptr Hb) as (c & E'); [destruct Hb; lia|].
  rewrite E'. cbn [obind]. destruct (negb _); [by left|]. right; eexists; split; [done|by apply fwd_0].
Qed.

Lemma exec_word_boundary_ok g d pc cptr b :
  boundary cptr -> post (exec_word_boundary s g d pc cptr b) (char_step g d pc cptr 0).
Proof using end_eq units.
  intros Hb. unfold exec_word_boundary, word_before, word_at.
  apply post_bind. apply (post_mono _ (fun _ => True)).
  { step; [done|]. bool_to_prop. destruct (PEEK_PREV_CHAR_ok cptr Hb) as (c & E'); [lia|].
    by rewrite E'. }
  intros v1 _. apply post_bind. apply (post_mono _ (fun _ => True)).
  { step; [done|]. bool_to_prop. destruct (PEEK_CHAR_ok cptr Hb) as (c & E'); [lia|]. by rewrite E'. }
  intros v2 _. step; [by left|]. right; eexists; split; [done|by apply fwd_0].
Qed.

(** ** Ranges *)

(** The [n] pairs at [pc] are in the byte code. *)
Lemma pairs_in (wide : bool) pc n :
  0 <= pc -> pc + n * (2 * word_len wide) <= zlen (bc s) ->
  exists lo hi, pairs_at s (get_word wide) (word_len wide) pc n lo hi.
Proof using Type.
  intros Hpc Hl. assert (0 < word_len wide) by (by destruct wide).
  assert (forall p, 0 <= p -> p + word_len wide <= zlen (bc s) ->
    get_word wide (bc s) p = Ret (le_val (take (Z.to_nat (word_len wide)) (drop (Z.to_nat p) (bc s))))) as Hg.
  { intros p Hp Hle. destruct wide; cbn [get_word word_len] in *; unfold get_u32, get_u16;
      rewrite rd_slice_in by lia; done. }
  eexists (fun i => _), (fun i => _). intros i Hi. split; apply Hg; nia.
Qed.

Lemma range_match_total (wide : bool) pc n c :
  0 <= pc -> 1 <= n < 65536 -> pc + n * (2 * word_len wide) <= zlen (bc s) ->
  exists b, range_match s wide pc n c = Ret b.
Proof using Type.
  intros Hpc Hn Hl. destruct (pairs_in wide pc n Hpc Hl) as (lo & hi & Hp).
  pose proof (range_match_spec s wide pc n c lo hi Hp Hn) as H.
  apply post_inv in H as (b & -> & _). eauto.
Qed.

Lemma exec_range_ok g d pc cptr wide n :
  boundary cptr -> get_u16 (bc s) pc = Ret n -> 0 <= pc -> 1 <= n < 65536 ->
  pc + 2 + n * (2 * word_len wide) <= zlen (bc s) ->
  post (exec_range s g d pc cptr wide) (char_step g d (pc + 2 + n * (2 * word_len wide)) cptr 1).
Proof using end_eq units.
  intros Hb En Hpc Hn Hl. unfold exec_range. rewrite En. cbn [obind]. step; [by left|].
  bool_to_prop. destruct (get_canonical_ok cptr Hb) as (c & p' & E' & Hf); [lia|].
  rewrite E'. cbn [obind].
  destruct (range_match_total wide (pc + 2) n c) as [b ->]; [lia|done|done|]. cbn [obind].
  destruct b; [|by left]. right. exists p'. split; [|done]. cbn [post]. f_equal.
  destruct wide; cbn [word_len]; lia.
Qed.

(** ** Back references *)

Lemma GET_CHAR_to p e :
  boundary p -> boundary e -> p < e ->
  exists c p' d, GET_CHAR (cbuf s) p e (cbuf_type s) = Ret (c, p') /\ boundary p' /\
    canonicalize s c = Ret d.
Proof using units.
  intros Hp He Hlt. destruct (GET_CHAR_fwd _ _ units p e Hp He Hlt) as (c & p' & E & Hb & _ & _ & Hr).
  destruct (canonicalize_total c Hr) as [d Hd]. eauto 8.
Qed.

Lemma GET_PREV_CHAR_to p st :
  boundary p -> boundary st -> st < p ->
  exists c p' d, GET_PREV_CHAR (cbuf s) p st (cbuf_type s) = Ret (c, p') /\ boundary p' /\
    canonicalize s c = Ret d.
Proof using units.
  intros Hp He Hlt. destruct (GET_PREV_CHAR_bnd _ _ units p st Hp He Hlt) as (c & p' & E & Hb & _ & Hr).
  destruct (canonicalize_total c Hr) as [d Hd]. eauto 8.
Qed.

Definition ref_result (r : option Z) : Prop := match r with Some p => boundary p | None => True end.

Lemma match_forward_ok cptr p1 e1 :
  boundary cptr -> boundary p1 -> boundary e1 -> safely (match_forward s cptr p1 e1) ref_result.
Proof using end_eq units.
  intros Hb Hp1 He1. unfold match_forward.
  apply (safely_iter (fun '(p1, p) => boundary p1 /\ boundary p)); [|done].
  intros [q1 q] [Hq1 Hq]. destruct (Z.ltb_spec q1 e1); [|done].
  destruct (Z.leb_spec (cbuf_end s) q); [done|].
  destruct (GET_CHAR_to q1 e1 Hq1 He1) as (c1 & q1' & d1 & -> & Hq1' & Hd1); [done|]. cbn [obind].
  assert (boundary (cbuf_end s)) as Hend by (rewrite end_eq; apply bnd_end).
  destruct (GET_CHAR_to q (cbuf_end s) Hq Hend) as (c2 & q' & d2 & -> & Hq' & Hd2); [done|].
  cbn [obind]. rewrite Hd1. cbn [obind]. rewrite Hd2. cbn [obind]. by destruct (negb _).
Qed.

Lemma match_backward_ok cptr p1 st1 :
  boundary cptr -> boundary p1 -> boundary st1 -> safely (match_backward s cptr p1 st1) ref_result.
Proof using units.
  intros Hb Hp1 He1. unfold match_backward.
  apply (safely_iter (fun '(p1, p) => boundary p1 /\ boundary p)); [|done].
  intros [q1 q] [Hq1 Hq]. destruct (Z.ltb_spec st1 q1); [|done].
  destruct (Z.eqb_spec q 0); [done|].
  destruct (GET_PREV_CHAR_to q1 st1 Hq1 He1) as (c1 & q1' & d1 & -> & Hq1' & Hd1); [done|]. cbn [obind].
  destruct (GET_PREV_CHAR_to q 0 Hq (bnd_start _ _)) as (c2 & q' & d2 & -> & Hq' & Hd2).
  { destruct Hq; lia. }
  cbn [obind]. rewrite Hd1. cbn [obind]. rewrite Hd2. cbn [obind]. by destruct (negb _).
Qed.

Lemma exec_back_reference_ok g d pc cptr backward v :
  g_ok g -> boundary cptr -> rd (bc s) pc = Ret v -> 0 <= v -> at_depth M (pc + 1) d = true ->
  safely (exec_back_reference s g d pc cptr backward) next_ok.
Proof using end_eq units.
  intros Hg Hb Ev Hv Hd. unfold exec_back_reference. rewrite Ev. cbn [obind].
  destruct (Z.leb_spec (capture_count s) v); [done|].
  pose proof Hg as ([Hl Hc] & _).
  destruct (at_exists (x_capture g) (2 * v)) as [cs Hcs]; [lia|].
  destruct (at_exists (x_capture g) (2 * v + 1)) as [ce Hce]; [lia|].
  rewrite (rd_at _ _ _ Hcs), (rd_at _ _ _ Hce). cbn [obind].
  assert (point_ok g d (pc + 1) cptr) by (by split_and!).
  destruct cs as [cs|]; [|done]. destruct ce as [ce|]; [|done].
  apply Hc in Hcs; [|lia]. apply Hc in Hce; [|lia].
  eapply (safely_bind _ _ ref_result).
  { destruct backward; [by apply match_backward_ok|by apply match_forward_ok]. }
  intros [p|] Hp; cbn; [by split_and!|done].
Qed.

(** ** Simple quantifiers *)

(** A result of the body of a simple quantifier. *)
Definition body_result (g : ExecState AL) (cptr k : Z) '(g', r) : Prop :=
  g' = g /\
  match r with
  | ExecMatch p => exists n, forward cptr n p /\ k = Z.of_nat n
  | ExecNoMatch => True
  | ExecError => False
  end.

(** What one instruction of a body does. *)
Definition body_next (g : ExecState AL) (fuel : nat) (cptr k : Z)
    (r : ExecState AL * Z * Z * Z + ExecState AL * exec_result) : Prop :=
  match r with
  | inl (g', _, pos', cptr') =>
      g' = g /\ 0 <= pos' /\
      exists n, forward cptr n cptr' /\ body_ok (bc s) fuel pos' (k - Z.of_nat n) = true
  | inr (g', ExecMatch p) => g' = g /\ p = cptr /\ k = 0
  | inr (g', ExecNoMatch) => g' = g
  | inr (_, ExecError) => False
  end.

Lemma body_char_step g fuel d pos' cptr k n (m : outcome exec_next) :
  post m (char_step g d pos' cptr n) -> 0 <= pos' ->
  body_ok (bc s) fuel pos' (k - Z.of_nat n) = true ->
  post (let* r := m in
        let* r := match r with NoMatch g => Ret (Return g ExecNoMatch) | r => Ret r end in
        match r with
        | Next g stack_len pc cptr => Ret (inl (g, stack_len, pc, cptr))
        | Return g res => Ret (inr (g, res))
        | NoMatch g => Ret (inr (g, ExecNoMatch))
        end) (body_next g fuel cptr k).
Proof using Type.
  intros Hm Hpos Hb. apply post_bind. eapply post_mono; [exact Hm|].
  intros r [->|(cptr' & -> & Hf)]; cbn; [done|]. eauto 6.
Qed.

Lemma body_step fuel_b fuel rec g d pos cptr k :
  body_ok (bc s) (S fuel_b) pos k = true -> 0 <= pos -> boundary cptr ->
  post (exec_step s fuel rec true (g, d, pos, cptr)) (body_next g fuel_b cptr k).
Proof using end_eq units.
  intros Hb Hpos Hc. cbn [body_ok] in Hb. apply reads_true in Hb as (opcode & Eo & Hb).
  unfold exec_step. rewrite Eo. cbn [obind].
  assert (forall p, 0 <= p -> p + 2 <= zlen (bc s) -> exists v, get_u16 (bc s) p = Ret v) as H16.
  { intros p ??. unfold get_u16. rewrite rd_slice_in by lia. cbn. eauto. }
  assert (forall p, 0 <= p -> p + 4 <= zlen (bc s) -> exists v, get_u32 (bc s) p = Ret v) as H32.
  { intros p ??. unfold get_u32. rewrite rd_slice_in by lia. cbn. eauto. }
  assert (forall k' p, k' = k -> body_ok (bc s) fuel_b p k' = true ->
    body_ok (bc s) fuel_b p (k - Z.of_nat 0) = true) as Hk0.
  { intros k' p -> ?. by rewrite Z.sub_0_r. }
  destruct (reop_of opcode) as [op|]; [|done].
  destruct op; try discriminate Hb.
  - apply andb_true_iff in Hb as [Hl Hb]. bool_to_prop. cbn [exec_instr].
    destruct (at_exists (bc s) (pos + 1)) as [v Hv]; [lia|]. unfold get_u8. rewrite (rd_at _ _ _ Hv).
    cbn [obind]. eapply body_char_step; [by apply test_char_ok|lia|].
    by replace (pos + 1 + 1) with (pos + 2) by lia.
  - apply andb_true_iff in Hb as [Hl Hb]. bool_to_prop. cbn [exec_instr].
    destruct (H16 (pos + 1)) as [v ->]; [lia..|]. cbn [obind].
    eapply body_char_step; [by apply test_char_ok|lia|].
    by replace (pos + 1 + 2) with (pos + 3) by lia.
  - apply andb_true_iff in Hb as [Hl Hb]. bool_to_prop. cbn [exec_instr].
    destruct (H32 (pos + 1)) as [v ->]; [lia..|]. cbn [obind].
    eapply body_char_step; [by apply test_char_ok|lia|].
    by replace (pos + 1 + 4) with (pos + 5) by lia.
  - eapply body_char_step; [by apply exec_any_ok|lia|done].
  - eapply body_char_step; [by apply exec_any_ok|lia|done].
  - eapply body_char_step; [by apply exec_line_start_ok|lia|eauto].
  - eapply body_char_step; [by apply exec_line_end_ok|lia|eauto].
  - cbn. bool_to_prop. done.
  - eapply body_char_step; [by apply exec_word_boundary_ok|lia|eauto].
  - eapply body_char_step; [by apply exec_word_boundary_ok|lia|eauto].
  - apply reads_true in Hb as (n & En & Hb). do 3 (apply andb_true_iff in Hb as [Hb ?]).
    bool_to_prop. eapply body_char_step; [eapply exec_range_ok; (done || cbn [word_len]; lia)|cbn [word_len]; lia|].
    cbn [word_len]. by replace (pos + 1 + 2 + n * (2 * 2)) with (pos + 3 + 4 * n) by lia.
  - apply reads_true in Hb as (n & En & Hb). do 3 (apply andb_true_iff in Hb as [Hb ?]).
    bool_to_prop. eapply body_char_step; [eapply exec_range_ok; (done || cbn [word_len]; lia)|cbn [word_len]; lia|].
    cbn [word_len]. by replace (pos + 1 + 2 + n * (2 * 4)) with (pos + 3 + 8 * n) by lia.
Qed.

Lemma body_run fuel fuel' rec fuel_b g d pos cptr k :
  body_ok (bc s) fuel_b pos k = true -> 0 <= pos -> boundary cptr ->
  safely (iter fuel (exec_step s fuel' rec true) (g, d, pos, cptr)) (body_result g cptr k).
Proof using end_eq units.
  revert fuel_b d pos cptr k. induction fuel as [|fuel IH]; intros fuel_b d pos cptr k Hb Hpos Hc; [done|].
  destruct fuel_b as [|fuel_b]; [done|]. cbn [iter].
  eapply safely_bind; [apply post_safely, body_step; done|].
  intros [[[[g' d'] pos'] cptr']|[g' r]]; cbn [body_next].
  - intros (-> & Hpos' & n & Hf & Hb').
    eapply safely_mono; [eapply IH; [exact Hb'|done|]|].
    { by destruct (fwd_bnd _ _ units _ _ _ Hf) as (_ & ? & _). }
    intros [g' r] [-> Hr]. split; [done|]. destruct r as [| |p]; try done.
    destruct Hr as (n' & Hf' & Hk). exists (n + n')%nat. split; [|lia].
    by apply (fwd_trans _ _ _ _ cptr').
  - destruct r as [| |p]; [done|by intros ->|]. intros (-> & -> & ->). split; [done|].
    exists 0%nat. split; [by apply fwd_0|done].
Qed.

Definition rec_ok (rec : ExecState AL -> Z -> Z -> Z -> outcome (ExecState AL * exec_result)) : Prop :=
  forall fuel_b g d pos cptr k,
    body_ok (bc s) fuel_b pos k = true -> 0 <= pos -> boundary cptr ->
    safely (rec g d pos cptr) (body_result g cptr k).

Lemma backtrack_rec_ok depth fuel : rec_ok (lre_exec_backtrack s depth fuel true).
Proof using end_eq units.
  intros fuel_b g d pos cptr k Hb Hpos Hc. destruct depth as [|depth]; [done|].
  by apply (body_run _ _ _ fuel_b).
Qed.

(** The loop of matches of the body. *)
Lemma greedy_loop_ok fuel rec g d pos cptr cc quant_max :
  rec_ok rec -> body_ok (bc s) (length (bc s)) pos cc = true -> 0 <= pos -> 0 < cc ->
  boundary cptr ->
  safely (iter fuel (greedy_step (fun g cptr => rec g d pos cptr) quant_max) (g, cptr, 0))
    (fun '(g', r) => g' = g /\
       match r with
       | Some (p, q) => 0 <= q /\ forward cptr (Z.to_nat (q * cc)) p
       | None => False
       end).
Proof using units.
  intros Hrec Hbody Hpos Hcc Hc.
  apply (safely_iter (fun '(g', p, q) => g' = g /\ 0 <= q /\ forward cptr (Z.to_nat (q * cc)) p)).
  2:{ split_and!; [done|done|]. by apply fwd_0. }
  intros [[g' p] q] (-> & Hq & Hf). unfold greedy_step.
  assert (boundary p) as Hp by (by destruct (fwd_bnd _ _ units _ _ _ Hf) as (_ & ? & _)).
  eapply safely_bind; [by apply (Hrec _ _ _ _ _ _ Hbody)|]. intros [g' r] [-> Hr].
  destruct r as [| |p']; [done| |].
  - cbn. by split_and!.
  - destruct Hr as (n & Hf' & ->).
    assert (0 <= q + 1 /\ forward cptr (Z.to_nat ((q + 1) * Z.of_nat n)) p') as Hnext.
    { split; [lia|].
      replace (Z.to_nat ((q + 1) * Z.of_nat n)) with (Z.to_nat (q * Z.of_nat n) + n)%nat by nia.
      by apply (fwd_trans _ _ _ _ p). }
    by destruct ((quant_max <=? q + 1) && _); (split; [done|exact Hnext]).
Qed.

Lemma exec_greedy_quant_ok fuel rec g d pos cptr :
  rec_ok rec -> M pos = Some (REOP_simple_greedy_quant, d) -> g_ok g -> boundary cptr ->
  safely (exec_greedy_quant s fuel rec g d (pos + 1) cptr) next_ok.
Proof using end_eq end_max units counts mapped.
  intros Hrec HM Hg Hc. unfold exec_greedy_quant.
  destruct (greedy_instr _ _ HM) as (next & qmin & cc & En & Hat & Eq & Hq & Ecc & Hcc & Hbody & Hpos & Hl & Hd).
  rewrite En. cbn [obind]. replace (pos + 1 + 4) with (pos + 5) by lia. rewrite Eq. cbn [obind].
  assert (exists v, get_u32 (bc s) (pos + 1 + 8) = Ret v) as [qmax ->].
  { unfold get_u32. rewrite rd_slice_in by lia. cbn. eauto. }
  cbn [obind]. replace (pos + 1 + 16) with (pos + 17) by lia.
  eapply safely_bind; [apply (greedy_loop_ok _ _ _ _ _ _ cc); (done || lia)|].
  intros [g' [[p q]|]] [-> Hr]; [|done]. destruct Hr as [Hq0 Hf].
  destruct (fwd_bnd _ _ units _ _ _ Hf) as (_ & Hp & Hle).
  assert (point_ok g d (pos + 17 + i32 next) p) by done.
  destruct (Z.ltb_spec q qmin); [done|]. destruct (Z.ltb_spec qmin q); [|done].
  apply push_and_go_ok; [done|done|]. intros captures stack.
  assert (q <= q * cc) by nia. pose proof (proj1 Hp). pose proof (proj1 Hc).
  exists cc, cptr, (Z.to_nat (qmin * cc)). cbn [rs_pc rs_stack_len rs_count rs_cptr].
  replace (pos + 17 - 16 - 1) with pos by lia. replace (pos + 17 - 16 + 12) with (pos + 13) by lia.
  split_and!; try (done || lia).
  replace (Z.to_nat (qmin * cc) + Z.to_nat ((q - qmin) * cc))%nat with (Z.to_nat (q * cc)) by nia.
  done.
Qed.

(** ** Instructions *)

Lemma char_step_next_ok g d pc cptr k r :
  g_ok g -> at_depth M pc d = true -> char_step g d pc cptr k r -> next_ok r.
Proof using units.
  intros Hg Hd [->|(p & -> & Hf)]; [done|].
  destruct (fwd_bnd _ _ units _ _ _ Hf) as (_ & ? & _). by split_and!.
Qed.

Lemma char_instr_ok g d pc cptr k m :
  g_ok g -> at_depth M pc d = true -> post m (char_step g d pc cptr k) -> safely m next_ok.
Proof using units.
  intros Hg Hd Hm. eapply post_safely, post_mono; [exact Hm|]. intros r. by apply char_step_next_ok.
Qed.

Lemma get_u32_in pc : 0 <= pc -> pc + 4 <= zlen (bc s) -> exists v, get_u32 (bc s) pc = Ret v.
Proof using Type. intros. unfold get_u32. rewrite rd_slice_in by lia. cbn. eauto. Qed.

Lemma reset_captures_ok l v v2 :
  caps_ok l -> 0 <= v -> 0 <= v2 < capture_count s -> post (reset_captures l v v2) caps_ok.
Proof using Type.
  intros Hl Hv Hv2. unfold reset_captures.
  apply (post_iter (fun '(v, l) => 0 <= v /\ caps_ok l) (fun '(v, _) => Z.to_nat (v2 + 1 - v)));
    [|done|lia].
  intros [i k] [Hi Hk]. step; bool_to_prop; [|done].
  apply post_bind. eapply post_mono; [apply caps_ok_wr; [done|destruct Hk; lia|done]|]. intros k1 Hk1.
  apply post_bind. eapply post_mono; [apply caps_ok_wr; [done|destruct Hk1; lia|done]|]. intros k2 Hk2.
  cbn. split; [|lia]. split; [lia|done].
Qed.

Lemma g_ok_capture g l : g_ok g -> caps_ok l -> g_ok (set_capture g l).
Proof using Type. by intros (? & ? & ?) ?. Qed.

Lemma g_ok_stack g l : g_ok g -> zlen l = zlen (x_stack g) -> g_ok (set_stack g l).
Proof using Type. intros (? & ? & ?) ?. split_and!; [done|cbn; lia|done]. Qed.

(** A store on the matcher's stack. *)
Lemma stack_store_ok g i v (k : list Z -> outcome exec_next) :
  g_ok g -> 0 <= i < stack_size_max s ->
  (forall l, g_ok (set_stack g l) -> safely (k l) next_ok) ->
  safely (obind (wr (x_stack g) i v) k) next_ok.
Proof using Type.
  intros Hg Hi Hk. pose proof Hg as (_ & Hz & _). rewrite wr_in by lia. cbn [obind].
  apply Hk, g_ok_stack; [done|]. by rewrite zlen_insert.
Qed.

Lemma jump_inv pos d :
  jump_ok (bc s) M pos d = true ->
  exists v, get_u32 (bc s) (pos + 1) = Ret v /\ at_depth M (pos + 1 + 4 + i32 v) d = true.
Proof using Type.
  intros H. apply reads_true in H as (v & E & H). exists v. split; [done|].
  by replace (pos + 1 + 4 + i32 v) with (pos + 5 + i32 v) by lia.
Qed.

Ltac split_andb H :=
  repeat match type of H with
  | _ && _ = true => let H' := fresh "H" in apply andb_true_iff in H as [H H']; try split_andb H'
  end.

Lemma exec_split_ok g d pos cptr (goto_first : bool) :
  g_ok g -> boundary cptr -> 0 <= d <= stack_size_max s ->
  jump_ok (bc s) M pos d = true -> at_depth M (pos + 5) d = true ->
  safely (let* val := get_u32 (bc s) (pos + 1) in
          let pc := pos + 1 + 4 in
          let '(pc1, pc) := if goto_first then (pc, pc + i32 val) else (pc + i32 val, pc) in
          push_and_go s g d pc1 cptr RE_EXEC_STATE_SPLIT 0 pc) next_ok.
Proof using counts.
  intros Hg Hc Hd Hj Hn. apply jump_inv in Hj as (v & -> & Hj). cbn [obind].
  replace (pos + 5) with (pos + 1 + 4) in Hn by lia.
  destruct goto_first; (apply push_and_go_ok; [by split_and!|lia|by split]).
Qed.

Lemma exec_lookahead_ok g d pos cptr type :
  g_ok g -> boundary cptr -> 0 <= d <= stack_size_max s -> type <> RE_EXEC_STATE_GREEDY_QUANT ->
  jump_ok (bc s) M pos d = true -> at_depth M (pos + 5) d = true ->
  safely (let* val := get_u32 (bc s) (pos + 1) in
          let pc := pos + 1 + 4 in
          push_and_go s g d (pc + i32 val) cptr type 0 pc) next_ok.
Proof using counts.
  intros Hg Hc Hd Ht Hj Hn. apply jump_inv in Hj as (v & -> & Hj). cbn [obind].
  replace (pos + 5) with (pos + 1 + 4) in Hn by lia.
  apply push_and_go_ok; [by split_and!|lia|]. by destruct type.
Qed.

Lemma exec_save_ok g d pos cptr (e : bool) :
  g_ok g -> boundary cptr ->
  reads (rd (bc s) (pos + 1)) (fun v => (0 <=? v) && (v <? capture_count s)) = true ->
  at_depth M (pos + 2) d = true ->
  let op := if e then REOP_save_end else REOP_save_start in
  safely (let* val := rd (bc s) (pos + 1) in
          let* _ := c_assert (val <? capture_count s) in
          let* capture := wr (x_capture g) (2 * val + op - REOP_save_start) (Some cptr) in
          Ret (Next (set_capture g capture) d (pos + 1 + 1) cptr)) next_ok.
Proof using Type.
  intros Hg Hc Hv Hn. cbv zeta. apply reads_true in Hv as (v & -> & Hv). bool_to_prop. cbn [obind].
  replace (v <? capture_count s) with true by lia. cbn [c_assert obind].
  pose proof Hg as (Hcap & _). pose proof (proj1 Hcap).
  eapply safely_bind; [apply post_safely, caps_ok_wr; [done|destruct e; cbn; lia|done]|].
  intros l Hl. split; [by apply g_ok_capture|]. split; [|done].
  by replace (pos + 1 + 1) with (pos + 2) by lia.
Qed.

Lemma exec_save_reset_ok g d pos cptr :
  g_ok g -> boundary cptr ->
  reads (rd (bc s) (pos + 1)) (fun v => 0 <=? v) = true ->
  reads (rd (bc s) (pos + 2)) (fun v => (0 <=? v) && (v <? capture_count s)) = true ->
  at_depth M (pos + 3) d = true ->
  safely (let* val := rd (bc s) (pos + 1) in
          let* val2 := rd (bc s) (pos + 1 + 1) in
          let* _ := c_assert (val2 <? capture_count s) in
          let* capture := reset_captures (x_capture g) val val2 in
          Ret (Next (set_capture g capture) d (pos + 1 + 2) cptr)) next_ok.
Proof using Type.
  intros Hg Hc Hv Hv2 Hn. apply reads_true in Hv as (v & -> & Hv). cbn [obind].
  replace (pos + 1 + 1) with (pos + 2) by lia. apply reads_true in Hv2 as (v2 & -> & Hv2). bool_to_prop.
  cbn [obind]. replace (v2 <? capture_count s) with true by lia. cbn [c_assert obind].
  pose proof Hg as (Hcap & _).
  eapply safely_bind; [apply post_safely, reset_captures_ok; done|].
  intros l Hl. split; [by apply g_ok_capture|]. split; [|done].
  by replace (pos + 1 + 2) with (pos + 3) by lia.
Qed.

Lemma exec_loop_ok g d pos cptr :
  g_ok g -> boundary cptr -> 0 < d <= stack_size_max s ->
  jump_ok (bc s) M pos d = true -> at_depth M (pos + 5) d = true ->
  safely (let* val := get_u32 (bc s) (pos + 1) in exec_loop g d (pos + 1 + 4) cptr val) next_ok.
Proof using Type.
  intros Hg Hc Hd Hj Hn. apply jump_inv in Hj as (v & -> & Hj). cbn [obind]. unfold exec_loop.
  pose proof Hg as (_ & Hz & _). destruct (at_exists (x_stack g) (d - 1)) as [x Hx]; [lia|].
  rewrite (rd_at _ _ _ Hx). cbn [obind]. apply stack_store_ok; [done|lia|]. intros l Hl.
  replace (pos + 5) with (pos + 1 + 4) in Hn by lia.
  apply safely_ret. split; [done|]. split; [|done]. by destruct (negb _).
Qed.

Lemma exec_prev_ok g d pc cptr :
  g_ok g -> boundary cptr -> at_depth M pc d = true ->
  safely (if cptr =? 0 then Ret (NoMatch g)
          else let* cptr := PREV_CHAR (cbuf s) cptr 0 (cbuf_type s) in Ret (Next g d pc cptr)) next_ok.
Proof using units.
  intros Hg Hc Hd. destruct (Z.eqb_spec cptr 0); [done|].
  destruct (PREV_CHAR_bnd _ _ units cptr Hc) as (p & -> & Hp); [destruct Hc; lia|]. by split_and!.
Qed.

Lemma exec_instr_ok fuel rec g d pos cptr op :
  rec_ok rec -> g_ok g -> boundary cptr -> M pos = Some (op, d) -> op <> REOP_match ->
  safely (exec_instr s fuel rec g d (pos + 1) cptr op) next_ok.
Proof using end_eq end_max units counts mapped.
  intros Hrec Hg Hc HM Hnm. destruct (mapped _ _ _ HM) as (Eo & Hpos & Hd & Hi).
  assert (forall k, pos + 1 + k = pos + (1 + k)) as Hk by lia.
  destruct op; cbn [instr_ok] in Hi; try done; cbn [exec_instr].
  - split_andb Hi. bool_to_prop. destruct (at_exists (bc s) (pos + 1)) as [v Hv]; [lia|].
    unfold get_u8. rewrite (rd_at _ _ _ Hv). cbn [obind]. rewrite Hk.
    eapply char_instr_ok; [done| |by apply test_char_ok]. done.
  - split_andb Hi. bool_to_prop. unfold get_u16. rewrite rd_slice_in by lia. cbn [obind]. rewrite Hk.
    eapply char_instr_ok; [done| |by apply test_char_ok]. done.
  - split_andb Hi. bool_to_prop. destruct (get_u32_in (pos + 1)) as [v ->]; [lia..|]. cbn [obind].
    rewrite Hk. eapply char_instr_ok; [done| |by apply test_char_ok]. done.
  - eapply char_instr_ok; [done|exact Hi|by apply exec_any_ok].
  - eapply char_instr_ok; [done|exact Hi|by apply exec_any_ok].
  - eapply char_instr_ok; [done|exact Hi|by apply exec_line_start_ok].
  - eapply char_instr_ok; [done|exact Hi|by apply exec_line_end_ok].
  - apply jump_inv in Hi as (v & -> & Hj). cbn. split; [done|]. split; [|done].
    by replace (pos + 1 + (4 + i32 v)) with (pos + 1 + 4 + i32 v) by lia.
  - split_andb Hi. by apply (exec_split_ok g d pos cptr true).
  - split_andb Hi. by apply (exec_split_ok g d pos cptr false).
  - split_andb Hi. by apply (exec_save_ok g d pos cptr false).
  - split_andb Hi. by apply (exec_save_ok g d pos cptr true).
  - split_andb Hi. by apply exec_save_reset_ok.
  - split_andb Hi. bool_to_prop. apply exec_loop_ok; (done || lia).
  - split_andb Hi. bool_to_prop. destruct (get_u32_in (pos + 1)) as [v ->]; [lia..|]. cbn [obind].
    apply stack_store_ok; [done|lia|]. intros l Hl. apply safely_ret. split; [done|].
    split; [by rewrite Hk|done].
  - split_andb Hi. bool_to_prop. by split_and!.
  - eapply char_instr_ok; [done|exact Hi|by apply exec_word_boundary_ok].
  - eapply char_instr_ok; [done|exact Hi|by apply exec_word_boundary_ok].
  - split_andb Hi. apply reads_true in Hi as (v & Ev & Hv). bool_to_prop.
    eapply exec_back_reference_ok; try done. by rewrite Hk.
  - split_andb Hi. apply reads_true in Hi as (v & Ev & Hv). bool_to_prop.
    eapply exec_back_reference_ok; try done. by rewrite Hk.
  - apply reads_true in Hi as (n & En & Hi). split_andb Hi. bool_to_prop.
    eapply char_instr_ok; [done| |apply (exec_range_ok _ _ _ _ _ n); (done || cbn [word_len]; lia)].
    cbn [word_len]. by replace (pos + 1 + 2 + n * (2 * 2)) with (pos + 3 + 4 * n) by lia.
  - apply reads_true in Hi as (n & En & Hi). split_andb Hi. bool_to_prop.
    eapply char_instr_ok; [done| |apply (exec_range_ok _ _ _ _ _ n); (done || cbn [word_len]; lia)].
    cbn [word_len]. by replace (pos + 1 + 2 + n * (2 * 4)) with (pos + 3 + 8 * n) by lia.
  - split_andb Hi. by apply exec_lookahead_ok.
  - split_andb Hi. by apply exec_lookahead_ok.
  - split_andb Hi. bool_to_prop. apply stack_store_ok; [done|lia|]. intros l Hl. by apply safely_ret.
  - split_andb Hi. bool_to_prop. pose proof Hg as (_ & Hz & _).
    destruct (at_exists (x_stack g) (d - 1)) as [x Hx]; [lia|]. rewrite (rd_at _ _ _ Hx). cbn [obind].
    by destruct (x =? cptr).
  - by apply exec_prev_ok.
  - by apply exec_greedy_quant_ok.
Qed.

(** ** The whole matcher *)

Lemma exec_step_ok fuel rec g d pos cptr :
  rec_ok rec -> point_ok g d pos cptr ->
  safely (exec_step s fuel rec false (g, d, pos, cptr)) (fun r =>
    match r with
    | inl (g, d, pos, cptr) => point_ok g d pos cptr
    | inr (g, r) => g_ok g /\ result_ok r
    end).
Proof using end_eq end_max units counts mapped.
  intros Hrec (Hg & Hd & Hc). apply at_depth_inv in Hd as (op & HM & Eo & _).
  unfold exec_step. rewrite Eo. cbn [obind]. rewrite reop_of_code.
  eapply (safely_bind _ _ next_ok).
  { assert (Forall rs_ok (state_stack g)) by apply Hg.
    destruct (decide (op = REOP_match)) as [->|Hne]; [by apply recurse_ok|].
    pose proof (exec_instr_ok fuel rec g d pos cptr op Hrec Hg Hc HM Hne) as Hi. by destruct op. }
  intros r Hr. eapply (safely_bind _ _ next_ok).
  { destruct r as [g' d' pc' p'|g'|g' r]; [done| |done].
    apply recurse_ok; [done|done|apply Hr]. }
  intros [g' d' pc' p'|g'|g' r']; cbn; auto.
Qed.

Lemma backtrack_ok depth fuel g d pos cptr :
  point_ok g d pos cptr ->
  safely (lre_exec_backtrack s depth fuel false g d pos cptr) (fun '(g, r) => g_ok g /\ result_ok r).
Proof using end_eq end_max units counts mapped.
  intros Hp. destruct depth as [|depth]; [done|]. cbn [lre_exec_backtrack].
  apply (safely_iter (fun '(g, d, pos, cptr) => point_ok g d pos cptr)); [|done].
  intros [[[g' d'] pos'] cptr'] Hp'.
  eapply safely_mono; [apply exec_step_ok; [apply backtrack_rec_ok|done]|].
  intros [[[[g1 d1] pos1] cptr1]|[g1 r1]]; auto.
Qed.
End Safety.

(** * The property *)

(** The unit of [cbuf_type] 1 is read as UTF-16 by a unicode expression. *)
Definition match_type (bc_buf : list Z) (cbuf_type : Z) : Z :=
  match lre_get_flags bc_buf with
  | Ret flags => if (cbuf_type =? 1) && flag_set flags LRE_FLAG_UNICODE then 2 else cbuf_type
  | Err _ => cbuf_type
  end.

(** The byte offsets of the end and of the start are those of the units. *)
Lemma subject_bounds (cbuf : list Z) cindex cbuf_type :
  cbuf_type = 0 \/ cbuf_type = 1 -> 0 <= cindex <= zlen cbuf -> zlen cbuf * 2 ^ cbuf_type < 2 ^ 31 ->
  c_shl (zlen cbuf) cbuf_type = Ret (zlen cbuf * 2 ^ cbuf_type) /\ c_shl cindex cbuf_type = Ret (cindex * 2 ^ cbuf_type) /\
  zlen cbuf * 2 ^ cbuf_type / unit_size cbuf_type = zlen cbuf /\ cindex * 2 ^ cbuf_type / unit_size cbuf_type = cindex /\
  zlen cbuf < 2 ^ 31.
Proof.
  intros Ht Hi Hmax. destruct Ht as [->| ->]; cbn [unit_size Z.eqb] in *; change (2 ^ 0) with 1 in *; change (2 ^ 1) with 2 in *;
    (split; [apply c_shl_in; lia|]; split; [apply c_shl_in; lia|]; unfold unit_size; cbn [Z.eqb]; rewrite ?Z.div_mul by lia; rewrite ?Z.mul_1_r, ?Z.div_1_r; lia).
Qed.

(** C1: on byte code that passes [bc_valid], with any allocator, any array of at
    least [2 * capture_count] captures and any subject of 8-bit or 16-bit units
    whose size in bytes is an [int], started between two characters, [lre_exec]
    never accesses memory out of bounds and never fails an assertion, however
    long it runs; when it returns, its result is -1, 0 or 1 and every capture is
    null or a position of the subject between two characters. *)
Theorem lre_exec_safe `{AL : Allocator} fuel (h : heap) capture stack_buf bc_buf cbuf cindex
    cbuf_type count :
  bc_valid bc_buf = true ->
  lre_get_capture_count bc_buf = Ret count -> 2 * count <= zlen capture ->
  cbuf_type = 0 \/ cbuf_type = 1 -> Forall in_u16 cbuf -> zlen cbuf * 2 ^ cbuf_type < 2 ^ 31 ->
  bnd cbuf (match_type bc_buf cbuf_type) cindex ->
  safely (lre_exec fuel h capture stack_buf bc_buf cbuf cindex (zlen cbuf) cbuf_type)
    (fun '(_, capture', r) =>
       (r = -1 \/ r = 0 \/ r = 1) /\
       forall i p, 0 <= i < 2 * count -> at_ capture' i (Some p) ->
         bnd cbuf (match_type bc_buf cbuf_type) p).
Proof.
  intros Hv Hcount Hcap Htype Hu Hmax Hb.
  destruct (bc_valid_map _ Hv) as (flags & count' & stack_max & M & Ef & Ec & Es & Hc & Hs & Hd & HM).
  unfold match_type in *. rewrite Ef in *. unfold lre_get_capture_count in Hcount.
  rewrite Ec in Hcount. injection Hcount as ->. unfold lre_exec. rewrite Ef, Ec, Es. cbn [obind].
  destruct (subject_bounds cbuf cindex cbuf_type Htype (proj1 Hb) Hmax) as (-> & -> & E1 & E2 & Hz31). cbn [obind]. rewrite E1, E2.
  destruct (wr_slice_exists capture 0 (replicate (Z.to_nat (count * 2)) None)) as [l Hl];
    [lia|rewrite zlen_replicate; lia|].
  rewrite Hl. cbn [obind]. set (s := mkREExecContext _ _ _ _ _ _ _ _ _ _).
  set (g := mkExecState _ _ _ _ _).
  eapply safely_bind; [apply (backtrack_ok s M); try done; cbn|].
  - cbn [cbuf_end capture_count] in *. split; [|by split]. split; [|split; [|done]].
    + apply at_wr_slice in Hl as [Hz Hl]. split; [cbn; rewrite Hz; lia|].
      intros i p Hi Hp. assert (0 <= i < 2 * count) by exact Hi.
      apply Hl in Hp. revert Hp. rewrite zlen_replicate.
      rewrite (proj2 (Z.leb_le 0 i)), (proj2 (Z.ltb_lt i _)) by lia. cbn [andb].
     
      intros [_ Hp]. by apply lookup_replicate in Hp as [? _].
    + cbn. unfold zlen. rewrite length_map, length_seq. lia.
  - intros [g' r] [[[_ Hcaps] _] Hr]. cbn in Hcaps. split; [destruct r; auto|exact Hcaps].
Qed.

(** The code that [lre_compile] returns for a pattern, if it returns any. *)
Definition compiled (pat : string) (flags : Z) : list Z :=
  match lre_compile (AL := alloc_always) 100 tt (replicate 64 0) 64 (bytes_of_string pat ++ [0])
          (zlen (bytes_of_string pat)) flags with
  | Ret (_, _, Some (b, n)) => take (Z.to_nat n) b
  | _ => []
  end.

Definition example_code : list Z :=
  Eval vm_compute in compiled "(?<=(\d+))(?:a+|b[^c]{2,3})*?\1$" LRE_FLAG_UNICODE.

Lemma lre_exec_safe_witness :
  bc_valid example_code = true /\
  safely (lre_exec (AL := alloc_always) 1000 tt (replicate 6 None) (fun _ => 0) example_code
            [0x34; 0x61; 0xD83D; 0xDE00; 0x34] 2 5 1)
    (fun '(_, capture', r) =>
       (r = -1 \/ r = 0 \/ r = 1) /\
       forall i p, 0 <= i < 2 * 2 -> at_ capture' i (Some p) ->
         bnd [0x34; 0x61; 0xD83D; 0xDE00; 0x34] 2 p).
Proof.
  split; [vm_compute; reflexivity|].
  apply (lre_exec_safe (AL := alloc_always) 1000 tt (replicate 6 None) (fun _ => 0) example_code
           [0x34; 0x61; 0xD83D; 0xDE00; 0x34] 2 1 2).
  - vm_compute. reflexivity.
  - vm_compute. reflexivity.
  - vm_compute. discriminate.
  - by right.
  - repeat (apply Forall_cons; split; [unfold in_u16; lia|]); apply Forall_nil; done.
  - vm_compute. reflexivity.
  - apply bnd_b_bnd. vm_compute. reflexivity.
Defined.
