(* ===== verification/ReCases.v ===== *)
(** The regexp compiler and matcher on concrete inputs, and the behaviours of
    the source that differ from what it means to do. *)
From Stdlib Require Import ZArith Lia Bool List.
From stdpp Require Import base tactics list numbers strings.
From S2P Require Import Prelude Alloc DynBuf CharRange UnicodeTables UnicodeSets Regexp ReState ReCompile.
From S2P Require Import ReExec ReVerify.

(** The result of [lre_compile] on a pattern: the code, or the message left in
    the buffer of the caller. *)
Definition compile_result (pat : string) (flags : Z) : outcome (list Z + list Z) :=
  let pat := bytes_of_string pat in
  let* (_, msg, r) := lre_compile (AL := alloc_always) 100 tt (replicate 64 0) 64 (pat ++ [0]) (zlen pat) flags in
  match r with
  | Some (b, n) => Ret (inl (take (Z.to_nat n) b))
  | None => Ret (inr msg)
  end.

(** The message starts with [text] and a terminator. *)
Definition has_error (r : outcome (list Z + list Z)) (text : string) : bool :=
  match r with
  | Ret (inr msg) => bool_decide (take (S (length (bytes_of_string text))) msg = bytes_of_string text ++ [0])
  | _ => false
  end.

(** The result and the captures of a match of [code] from [cindex]. *)
Definition exec_result (code input : list Z) (cindex cbuf_type : Z) : outcome (list (option Z) * Z) :=
  let* count := lre_get_capture_count code in
  let* (_, capture, r) := lre_exec (AL := alloc_always) 1000 tt (replicate (2 * Z.to_nat count) None) (fun _ => 0)
                            code input cindex (zlen input) cbuf_type in
  Ret (capture, r).

(** [\k<b>] before the groups: [re_parse_captures] skips the character after a
    name that is not the wanted one, so the inner group is not counted. *)
Example re_parse_captures_skips_group :
  has_error (compile_result "\k<b>(?<a>(?<b>x))" 0) "group name not defined" = true /\
  has_error (compile_result "\k<b>(?<a>x(?<b>x))" 0) "group name not defined" = false.
Proof. vm_compute. auto. Qed.

(** [lre_byte_swap] back to the order of the machine: a range instruction reads
    the number of its pairs in the wrong order and leaves the code. *)
Example lre_byte_swap_range :
  (let* b := lre_byte_swap (compiled "[ac]" 0) (zlen (compiled "[ac]" 0)) false in
   lre_byte_swap b (zlen b) true) = Err OutOfBounds /\
  (let* b := lre_byte_swap (compiled "a|b" 0) (zlen (compiled "a|b" 0)) false in
   lre_byte_swap b (zlen b) true) = Ret (compiled "a|b" 0).
Proof. vm_compute. auto. Qed.

(** With the [v] flag the three characters after a class are compared at once,
    past the terminator of the pattern. *)
Example re_parse_char_class_past_end : compile_result "[]" LRE_FLAG_UNICODE_SETS = Err OutOfBounds.
Proof. vm_compute. reflexivity. Qed.

(** When the buffer of the code cannot grow for the [goto] of an alternative,
    [re_parse_disjunction] still patches its operand, outside the buffer. *)
Example re_parse_disjunction_no_memory :
  lre_compile (AL := alloc_limit) 100 27 (replicate 64 0) 64 (bytes_of_string "|b" ++ [0]) 2 0 = Err OutOfBounds.
Proof. vm_compute. reflexivity. Qed.

(** A match and a mismatch, captures included. *)
Example exec_backreference :
  exec_result (compiled "(a+)b\1$" 0) (bytes_of_string "xaabaa") 0 0
    = Ret ([Some 1; Some 6; Some 1; Some 3], 1) /\
  exec_result (compiled "(a+)b\1$" 0) (bytes_of_string "xaabaax") 0 0
    = Ret ([None; None; None; None], 0).
Proof. vm_compute. auto. Qed.

(** The statements after the label [fail] of [unicode_script] end in a jump to
    the label: they run for ever. *)
Lemma unicode_script_fail_loops `{AL : Allocator} fuel : unicode_script_fail fuel = Err OutOfFuel.
Proof. unfold unicode_script_fail. induction fuel as [|fuel IH]; [done|]. by rewrite iter_S. Qed.

(** A failed allocation takes [unicode_script] there: no number of steps is
    enough for it to return. *)
Example unicode_script_no_memory fuel :
  unicode_script (AL := alloc_budget) fuel 0%nat cr_init (bytes_of_string "Latin" ++ [0]) false = Err OutOfFuel.
Proof.
  assert (forall o : outcome (nat * CharRange * bool), o = Ret (0%nat, cr_init, true) ->
    (let* (h, cr1, failed) := o in
     if failed : bool then unicode_script_fail (AL := alloc_budget) fuel else Ret (h, cr1, 0)) = Err OutOfFuel) as Hgo.
  { intros o ->. apply unicode_script_fail_loops. }
  etransitivity; [|apply (Hgo (iter 200 (unicode_script_step (AL := alloc_budget) UNICODE_SCRIPT_Latin) (0%nat, cr_init, 0, 0)))].
  - reflexivity.
  - vm_compute. reflexivity.
Qed.

(** When the names of the groups do not fit in memory [lre_compile] still
    succeeds: the flag of the named groups is set and the names are missing, so
    [lre_get_groupnames] points at the end of the block. *)
Example lre_compile_loses_group_names :
  lre_compile (AL := alloc_limit) 100 50 (replicate 64 0) 64 (bytes_of_string "(?<abcdefghijklmnopqrstuvwxyz>x)" ++ [0]) 32 0
  = Ret (50, replicate 64 0,
         Some ([128; 0; 2; 0; 22; 0; 0; 0; 9; 6; 0; 0; 0; 5; 8; 245; 255; 255; 255; 12; 0; 12; 1; 1; 120; 13; 1; 13;
                0; 11] ++ replicate 10 0, 30)).
Proof. vm_compute. reflexivity. Qed.
