(* ===== verification/Limb.v ===== *)
(** The natural numbers of [libbf.c]: arrays of 64-bit limbs.

    A pointer with a length is the list of the limbs it designates, the lowest
    first; the caller cuts it out of its block with [rd_slice] and writes the
    result back with [wr_slice], which check the bounds.  A routine whose
    destination may be one of its operands reads each limb before it writes it,
    so it is a function from operands to results.  Each routine is specified by
    the [value]s of its lists. *)
From Stdlib Require Import ZArith Lia Bool List.
From stdpp Require Import base tactics list numbers.
From S2P Require Import Prelude IntFmt.

Definition LIMB_LOG2_BITS : Z := 6.
Definition LIMB_BITS : Z := Z.shiftl 1 LIMB_LOG2_BITS.

(** [dlimb_t] has 128 bits, [slimb_t] is the signed type. *)
Definition u128 (z : Z) : Z := z mod 2 ^ 128.
Definition i64 (z : Z) : Z := let v := u64 z in if v <? 9223372036854775808 then v else v - 18446744073709551616.

(** * The routines *)

Definition clz (a : Z) : Z := if a =? 0 then LIMB_BITS else clz64 a.

Fixpoint mp_add (op1 op2 : list Z) (k : Z) : list Z * Z :=
  match op1, op2 with
  | v :: op1, w :: op2 =>
      let a := u64 (v + w) in
      let k1 := b2z (a <? v) in
      let a := u64 (a + k) in
      let k := Z.lor (b2z (a <? k)) k1 in
      let '(res, k) := mp_add op1 op2 k in (a :: res, k)
  | _, _ => ([], k)
  end.

Fixpoint mp_add_ui (tab : list Z) (k : Z) : list Z * Z :=
  match tab with
  | t :: tab' =>
      if k =? 0 then (tab, k)
      else
        let a := u64 (t + k) in
        let k := b2z (a <? k) in
        let '(res, k) := mp_add_ui tab' k in (a :: res, k)
  | [] => ([], k)
  end.

(** The limbs that the loops of [mp_sub] and [mp_neg] write, and the borrow they
    return. *)
Fixpoint mp_sub_limbs (op1 op2 : list Z) (k : Z) : list Z * Z :=
  match op1, op2 with
  | v :: op1, w :: op2 =>
      let a := u64 (v - w) in
      let k1 := b2z (v <? a) in
      let v := u64 (a - k) in
      let k := Z.lor (b2z (a <? v)) k1 in
      let '(res, k) := mp_sub_limbs op1 op2 k in (v :: res, k)
  | _, _ => ([], k)
  end.

Fixpoint mp_neg_limbs (op2 : list Z) (k : Z) : list Z * Z :=
  match op2 with
  | w :: op2 =>
      let v := 0 in
      let a := u64 (v - w) in
      let k1 := b2z (v <? a) in
      let v := u64 (a - k) in
      let k := Z.lor (b2z (a <? v)) k1 in
      let '(res, k) := mp_neg_limbs op2 k in (v :: res, k)
  | [] => ([], k)
  end.

(** The counter of these two loops is an [int], which goes up to the number of
    limbs; in the other routines it has the width of a limb. *)
Definition mp_sub (op1 op2 : list Z) (k : Z) : outcome (list Z * Z) :=
  let* _ := c_int (zlen op1) in
  Ret (mp_sub_limbs op1 op2 k).

Definition mp_neg (op2 : list Z) (k : Z) : outcome (list Z * Z) :=
  let* _ := c_int (zlen op2) in
  Ret (mp_neg_limbs op2 k).

Fixpoint mp_sub_ui (tab : list Z) (k : Z) : list Z * Z :=
  match tab with
  | v :: tab =>
      let a := u64 (v - k) in
      let k := b2z (v <? a) in
      if k =? 0 then (a :: tab, k)
      else let '(res, k) := mp_sub_ui tab k in (a :: res, k)
  | [] => ([], k)
  end.

(** The loop of [mp_shr] goes down from the highest limb: the limb shifted into
    one is the next one before the shift. *)
Fixpoint mp_shr_limbs (tab : list Z) (shift high : Z) : list Z :=
  match tab with
  | a :: tab =>
      let l := hd high tab in
      Z.lor (Z.shiftr a shift) (u64 (Z.shiftl l (LIMB_BITS - shift))) :: mp_shr_limbs tab shift high
  | [] => []
  end.

Definition mp_shr (tab : list Z) (shift high : Z) : outcome (list Z * Z) :=
  let* _ := c_assert ((1 <=? shift) && (shift <? LIMB_BITS)) in
  let l := hd high tab in
  Ret (mp_shr_limbs tab shift high, Z.land l (u64 (u64 (Z.shiftl 1 shift) - 1))).

Fixpoint mp_mul1 (taba : list Z) (b l : Z) : list Z * Z :=
  match taba with
  | a :: taba =>
      let t := u128 (a * b + l) in
      let '(tabr, l) := mp_mul1 taba b (Z.shiftr t LIMB_BITS) in (u64 t :: tabr, l)
  | [] => ([], l)
  end.

(** The loops of [mp_add_mul1] and [mp_sub_mul1], from the word [l] on. *)
Fixpoint mp_add_mul1_from (tabr taba : list Z) (b l : Z) : list Z * Z :=
  match tabr, taba with
  | r :: tabr, a :: taba =>
      let t := u128 (a * b + l + r) in
      let '(res, l) := mp_add_mul1_from tabr taba b (Z.shiftr t LIMB_BITS) in (u64 t :: res, l)
  | _, _ => ([], l)
  end.
Definition mp_add_mul1 (tabr taba : list Z) (b : Z) : list Z * Z := mp_add_mul1_from tabr taba b 0.

Fixpoint mp_sub_mul1_from (tabr taba : list Z) (b l : Z) : list Z * Z :=
  match tabr, taba with
  | r :: tabr, a :: taba =>
      let t := u128 (r - a * b - l) in
      let '(res, l) := mp_sub_mul1_from tabr taba b (u64 (- Z.shiftr t LIMB_BITS)) in (u64 t :: res, l)
  | _, _ => ([], l)
  end.
Definition mp_sub_mul1 (tabr taba : list Z) (b : Z) : list Z * Z := mp_sub_mul1_from tabr taba b 0.

(** The body of the loop of [mp_mul_basecase]. *)
Definition mp_mul_row (op1 op2 result : list Z) (i : Z) : outcome (list Z) :=
  let op1_size := zlen op1 in
  let* b := rd op2 i in
  let* t := rd_slice result i op1_size in
  let '(t, r) := mp_add_mul1 t op1 b in
  let* result := wr_slice result i t in
  wr result (i + op1_size) r.

Definition mp_mul_basecase (result op1 op2 : list Z) : outcome (list Z) :=
  let op1_size := zlen op1 in
  let* b := rd op2 0 in
  let '(t, l) := mp_mul1 op1 b 0 in
  let* result := wr_slice result 0 t in
  let* result := wr result op1_size l in
  ofold (mp_mul_row op1 op2) result (seqZ 1 (zlen op2 - 1)).

Fixpoint mp_scan_nz (tab : list Z) : Z :=
  match tab with
  | a :: tab => if negb (a =? 0) then 1 else mp_scan_nz tab
  | [] => 0
  end.

(** The loop goes down from the highest limb: [mp_cmp_down] takes the limbs in
    that order. *)
Fixpoint mp_cmp_down (taba tabb : list Z) : Z :=
  match taba, tabb with
  | a :: taba, b :: tabb =>
      if negb (a =? b) then if a <? b then -1 else 1 else mp_cmp_down taba tabb
  | _, _ => 0
  end.
Definition mp_cmp (taba tabb : list Z) : Z := mp_cmp_down (rev taba) (rev tabb).

Example mp_mul_basecase_example :
  mp_mul_basecase [9; 9; 9; 9] [18446744073709551615; 18446744073709551615] [18446744073709551615; 18446744073709551615]
    = Ret [1; 0; 18446744073709551614; 18446744073709551615].
Proof. vm_compute. reflexivity. Qed.

(** * Values *)

(** The base of the limbs. *)
Definition LB : Z := 2 ^ 64.

Fixpoint value (l : list Z) : Z :=
  match l with
  | [] => 0
  | x :: l => x + LB * value l
  end.

(** [LB ^ n] for lists of [n] limbs. *)
Definition base_pow {A : Type} (l : list A) : Z := LB ^ zlen l.

Abbreviation limbs := (Forall in_u64).

(** Linear arithmetic on lengths and indices alone: hypotheses on values and
    powers of the base are dropped first. *)
Ltac drop_values :=
  repeat match goal with
  | H : context [value _] |- _ => clear H
  | H : context [LB] |- _ => clear H
  | H : context [Forall in_u64 _] |- _ => clear H
  end.
Ltac idx := drop_values; lia.

Lemma LB_val : LB = 18446744073709551616.
Proof. reflexivity. Qed.

Lemma LB_pos : 0 < LB.
Proof. reflexivity. Qed.

Lemma u64_LB z : u64 z = z mod LB.
Proof. reflexivity. Qed.

Lemma u128_LB z : u128 z = z mod (LB * LB).
Proof. reflexivity. Qed.

Lemma in_u64_LB z : in_u64 z <-> 0 <= z < LB.
Proof. reflexivity. Qed.

(** The ranges of the limbs in the context, with the base named. *)
Ltac u64_ranges := repeat match goal with H : in_u64 ?x |- _ => change (0 <= x < LB) in H end.

Lemma u64_range z : in_u64 (u64 z).
Proof. apply Z.mod_pos_bound. done. Qed.

Lemma i64_id z : in_i64 z -> i64 z = z.
Proof.
  unfold in_i64, i64. intros Hz. destruct (Z.ltb_spec (u64 z) 9223372036854775808); zlia.
Qed.

Lemma base_pow_nil {A : Type} : base_pow (@nil A) = 1.
Proof. reflexivity. Qed.

Lemma base_pow_cons {A : Type} (x : A) l : base_pow (x :: l) = LB * base_pow l.
Proof. unfold base_pow. rewrite zlen_cons, Z.pow_add_r by (pose proof (zlen_nonneg l); lia). done. Qed.

Lemma base_pow_app {A : Type} (l k : list A) : base_pow (l ++ k) = base_pow l * base_pow k.
Proof. unfold base_pow. rewrite zlen_app. apply Z.pow_add_r; apply zlen_nonneg. Qed.

Lemma base_pow_pos {A : Type} (l : list A) : 0 < base_pow l.
Proof. apply Z.pow_pos_nonneg; [done|apply zlen_nonneg]. Qed.

Lemma base_pow_length {A B : Type} (l : list A) (k : list B) : length l = length k -> base_pow l = base_pow k.
Proof. unfold base_pow, zlen. by intros ->. Qed.

Lemma value_app l k : value (l ++ k) = value l + base_pow l * value k.
Proof.
  induction l as [|x l IH]; cbn [value app]; [rewrite base_pow_nil; lia|]. rewrite IH, base_pow_cons. ring.
Qed.

Lemma value_bound l : limbs l -> 0 <= value l < base_pow l.
Proof.
  induction 1 as [|x l Hx Hl IH]; cbn [value]; [rewrite base_pow_nil; lia|]. rewrite base_pow_cons.
  u64_ranges. pose proof LB_pos.
  assert (LB * value l <= LB * (base_pow l - 1)) by (apply Z.mul_le_mono_nonneg_l; lia).
  assert (0 <= LB * value l) by (apply Z.mul_nonneg_nonneg; lia). lia.
Qed.

Lemma value_snoc l x : value (l ++ [x]) = value l + base_pow l * x.
Proof. rewrite value_app. cbn [value]. ring. Qed.

Lemma value_inj l k : length l = length k -> limbs l -> limbs k -> value l = value k -> l = k.
Proof.
  revert k. induction l as [|x l IH]; intros [|y k] Hlen Hl Hk; try done. cbn [value].
  inversion_clear Hl as [|? ? Hx Hl']. inversion_clear Hk as [|? ? Hy Hk']. intros E.
  u64_ranges.
  assert (x = y) as ->.
  { assert ((x + LB * value l) mod LB = (y + LB * value k) mod LB) as Em by (by rewrite E).
    rewrite !(Z.mul_comm LB), !Z.mod_add, !Z.mod_small in Em by (done || lia). done. }
  f_equal. apply IH; [by injection Hlen|done|done|]. pose proof LB_pos. nia.
Qed.

Lemma value_replicate_0 n : value (replicate n 0) = 0.
Proof. induction n; cbn [replicate value]; lia. Qed.

Lemma limbs_replicate_0 n : limbs (replicate n 0).
Proof. apply Forall_replicate. done. Qed.

(** A routine that returns the limbs [res] and the word [k] computes [v]. *)
Definition computes (n : nat) (v : Z) (r : list Z * Z) : Prop :=
  limbs r.1 /\ length r.1 = n /\ value r.1 + LB ^ Z.of_nat n * r.2 = v.

Lemma computes_nil k : computes 0 k ([], k).
Proof. split; [constructor|]. split; [done|]. cbn. lia. Qed.

(** One limb [a] of the sum [x = a + LB * k]. *)
Lemma computes_cons n a k x v r :
  in_u64 a -> x = a + LB * k -> computes n (v + k) r ->
  computes (S n) (x + LB * v) (let '(res, k) := r in (a :: res, k)).
Proof.
  destruct r as [res k']. intros Ha Hx (Hl & Hn & Hv). cbn [fst snd] in *.
  split; [by constructor|]. split; [cbn; lia|]. cbn [fst snd value].
  rewrite Nat2Z.inj_succ, Z.pow_succ_r by lia. nia.
Qed.

(** The carry of an addition and the borrow of a subtraction. *)
Lemma u64_add_carry v w : in_u64 v -> in_u64 w -> v + w = u64 (v + w) + LB * b2z (u64 (v + w) <? v).
Proof.
  rewrite !in_u64_LB, u64_LB, LB_val. intros. destruct (Z.ltb_spec ((v + w) mod 18446744073709551616) v); unfold b2z;
    Z.to_euclidean_division_equations; lia.
Qed.

Lemma u64_sub_borrow v w : in_u64 v -> in_u64 w -> v - w = u64 (v - w) - LB * b2z (v <? u64 (v - w)).
Proof.
  rewrite !in_u64_LB, u64_LB, LB_val. intros. destruct (Z.ltb_spec v ((v - w) mod 18446744073709551616)); unfold b2z;
    Z.to_euclidean_division_equations; lia.
Qed.

Lemma in_u64_b2z b : in_u64 (b2z b).
Proof. destruct b; done. Qed.

Lemma lor_b2z a b : Z.lor (b2z a) (b2z b) = b2z (a || b).
Proof. by destruct a, b. Qed.

(** The two carries of a limb cannot both be set. *)
Lemma carry_lor v w k :
  in_u64 v -> in_u64 w -> 0 <= k <= 1 ->
  let a := u64 (v + w) in let k1 := b2z (a <? v) in let a' := u64 (a + k) in
  let k' := Z.lor (b2z (a' <? k)) k1 in
  v + w + k = a' + LB * k' /\ 0 <= k' <= 1.
Proof.
  intros Hv Hw Hk. cbv zeta. pose proof (u64_add_carry v w Hv Hw) as E1.
  assert (in_u64 k) as Hk' by (red; lia). pose proof (u64_add_carry k (u64 (v + w)) Hk' (u64_range _)) as E2.
  rewrite (Z.add_comm k) in E2. pose proof (u64_range (u64 (v + w) + k)). u64_ranges. rewrite LB_val in *.
  rewrite lor_b2z. destruct (u64 (v + w) <? v), (u64 (u64 (v + w) + k) <? k); cbn [b2z orb] in *; lia.
Qed.

Lemma borrow_lor v w k :
  in_u64 v -> in_u64 w -> 0 <= k <= 1 ->
  let a := u64 (v - w) in let k1 := b2z (v <? a) in let v' := u64 (a - k) in
  let k' := Z.lor (b2z (a <? v')) k1 in
  v - w - k = v' - LB * k' /\ 0 <= k' <= 1.
Proof.
  intros Hv Hw Hk. cbv zeta. pose proof (u64_sub_borrow v w Hv Hw) as E1.
  assert (in_u64 k) as Hk' by (red; lia). pose proof (u64_sub_borrow (u64 (v - w)) k (u64_range _) Hk') as E2.
  pose proof (u64_range (u64 (v - w) - k)). u64_ranges. rewrite LB_val in *.
  rewrite lor_b2z. destruct (v <? u64 (v - w)), (u64 (v - w) <? u64 (u64 (v - w) - k)); cbn [b2z orb] in *; lia.
Qed.

Lemma b2z_range b : 0 <= b2z b <= 1.
Proof. destruct b; cbn; lia. Qed.

(** * Addition and subtraction *)

Lemma mp_add_spec op1 op2 k :
  limbs op1 -> limbs op2 -> length op1 = length op2 -> 0 <= k <= 1 ->
  computes (length op1) (value op1 + value op2 + k) (mp_add op1 op2 k) /\ 0 <= (mp_add op1 op2 k).2 <= 1.
Proof.
  intros H1. revert op2 k. induction H1 as [|v op1 Hv H1 IH]; intros [|w op2] k H2 Hlen Hk; try done.
  { split; [apply computes_nil|done]. }
  inversion_clear H2 as [|? ? Hw H2']. cbn [mp_add]. destruct (carry_lor v w k Hv Hw Hk) as [E Hk'].
  cbv zeta in *. revert E Hk'. generalize (Z.lor (b2z (u64 (u64 (v + w) + k) <? k)) (b2z (u64 (v + w) <? v))).
  intros k' E Hk'. destruct (IH op2 k' H2' (eq_add_S _ _ Hlen) Hk') as [Hc Hr]. split.
  - cbn [length value]. replace (v + LB * value op1 + (w + LB * value op2) + k) with ((v + w + k) + LB * (value op1 + value op2)) by ring.
    apply (computes_cons _ _ k'); [apply u64_range|done|done].
  - by destruct (mp_add op1 op2 k').
Qed.

Lemma mp_add_ui_spec tab k :
  limbs tab -> in_u64 k -> computes (length tab) (value tab + k) (mp_add_ui tab k) /\ in_u64 (mp_add_ui tab k).2.
Proof.
  intros Ht. revert k. induction Ht as [|t tab Hx Ht IH]; intros k Hk; cbn [mp_add_ui].
  { split; [apply computes_nil|done]. }
  destruct (Z.eqb_spec k 0) as [->|Hnz].
  - split; [|done]. split; [by constructor|]. split; [done|]. cbn [fst snd]. lia.
  - pose proof (u64_add_carry k t Hk Hx) as E. rewrite (Z.add_comm k t) in E.
    set (k' := b2z (u64 (t + k) <? k)) in *. assert (in_u64 k') as Hk' by apply in_u64_b2z.
    destruct (IH k' Hk') as [Hc Hr]. split; [|by destruct (mp_add_ui tab k')].
    cbn [length value]. replace (t + LB * value tab + k) with ((t + k) + LB * value tab) by ring.
    apply (computes_cons _ _ k'); [apply u64_range|done|done].
Qed.

(** A routine that returns the limbs [res] and the borrow [k] computes [v]. *)
Definition borrows (n : nat) (v : Z) (r : list Z * Z) : Prop := computes n v (r.1, - r.2).

Lemma borrows_cons n a k x v r :
  in_u64 a -> x = a - LB * k -> borrows n (v - k) r ->
  borrows (S n) (x + LB * v) (let '(res, k) := r in (a :: res, k)).
Proof.
  destruct r as [res k']. intros Ha Hx H. apply (computes_cons n a (- k) x v (res, - k')); [done|lia|exact H].
Qed.

Lemma borrows_nil k v : v = - k -> borrows 0 v ([], k).
Proof. intros ->. apply (computes_nil (- k)). Qed.

Lemma mp_sub_spec op1 op2 k :
  limbs op1 -> limbs op2 -> length op1 = length op2 -> 0 <= k <= 1 ->
  borrows (length op1) (value op1 - value op2 - k) (mp_sub_limbs op1 op2 k) /\ 0 <= (mp_sub_limbs op1 op2 k).2 <= 1.
Proof.
  intros H1. revert op2 k. induction H1 as [|v op1 Hv H1 IH]; intros [|w op2] k H2 Hlen Hk; try done.
  { split; [apply borrows_nil; cbn; lia|done]. }
  inversion_clear H2 as [|? ? Hw H2']. cbn [mp_sub_limbs]. destruct (borrow_lor v w k Hv Hw Hk) as [E Hk'].
  cbv zeta in *. revert E Hk'. generalize (Z.lor (b2z (u64 (v - w) <? u64 (u64 (v - w) - k))) (b2z (v <? u64 (v - w)))).
  intros k' E Hk'. destruct (IH op2 k' H2' (eq_add_S _ _ Hlen) Hk') as [Hc Hr]. split.
  - cbn [length value]. replace (v + LB * value op1 - (w + LB * value op2) - k) with ((v - w - k) + LB * (value op1 - value op2)) by ring.
    apply (borrows_cons _ _ k'); [apply u64_range|done|done].
  - by destruct (mp_sub_limbs op1 op2 k').
Qed.

Lemma mp_neg_sub op2 k : mp_neg_limbs op2 k = mp_sub_limbs (replicate (length op2) 0) op2 k.
Proof. revert k. induction op2 as [|w op2 IH]; intros k; [done|]. cbn [mp_neg_limbs mp_sub_limbs replicate length]. by rewrite IH. Qed.

Lemma mp_neg_spec op2 k :
  limbs op2 -> 0 <= k <= 1 ->
  borrows (length op2) (- value op2 - k) (mp_neg_limbs op2 k) /\ 0 <= (mp_neg_limbs op2 k).2 <= 1.
Proof.
  intros H2 Hk. rewrite mp_neg_sub.
  destruct (mp_sub_spec (replicate (length op2) 0) op2 k) as [Hc Hr]; auto using limbs_replicate_0, length_replicate.
  split; [|done]. rewrite length_replicate, value_replicate_0 in Hc. replace (- value op2 - k) with (0 - value op2 - k) by ring. done.
Qed.

Lemma mp_sub_in op1 op2 k : zlen op1 < 2 ^ 31 -> mp_sub op1 op2 k = Ret (mp_sub_limbs op1 op2 k).
Proof. intros H. unfold mp_sub. pose proof (zlen_nonneg op1). by rewrite c_int_in by (unfold in_i32; lia). Qed.

Lemma mp_neg_in op2 k : zlen op2 < 2 ^ 31 -> mp_neg op2 k = Ret (mp_neg_limbs op2 k).
Proof. intros H. unfold mp_neg. pose proof (zlen_nonneg op2). by rewrite c_int_in by (unfold in_i32; lia). Qed.

Lemma mp_sub_ui_spec tab k :
  limbs tab -> in_u64 k -> borrows (length tab) (value tab - k) (mp_sub_ui tab k) /\ in_u64 (mp_sub_ui tab k).2.
Proof.
  intros Ht. revert k. induction Ht as [|v tab Hx Ht IH]; intros k Hk; cbn [mp_sub_ui].
  { split; [apply borrows_nil; cbn; lia|done]. }
  pose proof (u64_sub_borrow v k Hx Hk) as E. set (k' := b2z (v <? u64 (v - k))) in *.
  assert (in_u64 k') as Hk' by apply in_u64_b2z.
  cbn [length value]. replace (v + LB * value tab - k) with ((v - k) + LB * value tab) by ring.
  destruct (Z.eqb_spec k' 0) as [Hz|Hnz].
  - split; [|done]. apply (borrows_cons _ _ 0 _ _ (tab, k')); [apply u64_range|rewrite Hz in E; lia|].
    unfold borrows, computes. cbn [fst snd]. rewrite Hz. split_and!; [done|done|lia].
  - destruct (IH k' Hk') as [Hc Hr]. split; [|by destruct (mp_sub_ui tab k')].
    apply (borrows_cons _ _ k'); [apply u64_range|done|done].
Qed.

(** * Shifts, multiplication, comparison *)

Lemma shiftr_LB t : Z.shiftr t LIMB_BITS = t / LB.
Proof. by rewrite Z.shiftr_div_pow2. Qed.

(** The low and high words of a 128-bit product with carries. *)
Lemma split_u128 t :
  0 <= t < LB * LB -> t = u64 (u128 t) + LB * Z.shiftr (u128 t) LIMB_BITS /\ in_u64 (Z.shiftr (u128 t) LIMB_BITS).
Proof.
  intros Ht. rewrite u128_LB, Z.mod_small, shiftr_LB, u64_LB by done. split.
  - pose proof (Z.div_mod t LB) as E. specialize (E ltac:(done)). lia.
  - change (0 <= t / LB < LB). split; [apply Z.div_pos; [lia|done]|]. apply Z.div_lt_upper_bound; [done|lia].
Qed.

Lemma mul_carry_bound a b l r :
  in_u64 a -> in_u64 b -> in_u64 l -> in_u64 r -> 0 <= a * b + l + r < LB * LB.
Proof.
  intros. u64_ranges. pose proof LB_pos.
  assert (0 <= a * b <= (LB - 1) * (LB - 1)) by (split; [apply Z.mul_nonneg_nonneg|apply Z.mul_le_mono_nonneg]; lia). nia.
Qed.

Lemma mp_mul1_spec taba b l :
  limbs taba -> in_u64 b -> in_u64 l ->
  computes (length taba) (value taba * b + l) (mp_mul1 taba b l) /\ in_u64 (mp_mul1 taba b l).2.
Proof.
  intros Ht Hb. revert l. induction Ht as [|a taba Ha Ht IH]; intros l Hl; cbn [mp_mul1].
  { split; [apply computes_nil|done]. }
  destruct (split_u128 (a * b + l)) as [E Hk].
  { pose proof (mul_carry_bound a b l 0 Ha Hb Hl). rewrite Z.add_0_r in *. by apply H. }
  destruct (IH _ Hk) as [Hc Hr]. split; [|by destruct (mp_mul1 taba b _)].
  cbn [length value]. replace ((a + LB * value taba) * b + l) with ((a * b + l) + LB * (value taba * b)) by ring.
  apply (computes_cons _ _ (Z.shiftr (u128 (a * b + l)) LIMB_BITS)); [apply u64_range|done|done].
Qed.

Lemma mp_add_mul1_from_spec tabr taba b l :
  limbs tabr -> limbs taba -> length tabr = length taba -> in_u64 b -> in_u64 l ->
  computes (length tabr) (value tabr + value taba * b + l) (mp_add_mul1_from tabr taba b l) /\
  in_u64 (mp_add_mul1_from tabr taba b l).2.
Proof.
  intros Hr Ha Hlen Hb. revert taba l Ha Hlen. induction Hr as [|r tabr Hr Hrs IH]; intros [|a taba] l Has Hlen Hl; try done.
  { split; [apply computes_nil|done]. }
  inversion_clear Has as [|? ? Ha Has']. cbn [mp_add_mul1_from].
  destruct (split_u128 (a * b + l + r)) as [E Hk]; [by apply mul_carry_bound|].
  destruct (IH taba _ Has' (eq_add_S _ _ Hlen) Hk) as [Hc Hrr]. split; [|by destruct (mp_add_mul1_from tabr taba b _)].
  cbn [length value].
  replace (r + LB * value tabr + (a + LB * value taba) * b + l) with ((a * b + l + r) + LB * (value tabr + value taba * b)) by ring.
  apply (computes_cons _ _ (Z.shiftr (u128 (a * b + l + r)) LIMB_BITS)); [apply u64_range|done|done].
Qed.

Lemma mp_add_mul1_spec tabr taba b :
  limbs tabr -> limbs taba -> length tabr = length taba -> in_u64 b ->
  computes (length tabr) (value tabr + value taba * b) (mp_add_mul1 tabr taba b) /\ in_u64 (mp_add_mul1 tabr taba b).2.
Proof. intros. rewrite <- (Z.add_0_r (_ + _)). by apply mp_add_mul1_from_spec. Qed.

(** The word that [mp_sub_mul1] carries: minus the high word of a 128-bit
    difference. *)
Lemma split_u128_neg t :
  LB - LB * LB <= t < LB ->
  t = u64 (u128 t) - LB * u64 (- Z.shiftr (u128 t) LIMB_BITS).
Proof.
  intros Ht. rewrite shiftr_LB, u128_LB, !u64_LB. pose proof LB_pos as HB.
  rewrite (Z.rem_mul_r t LB LB) by lia. rewrite (Z.mul_comm LB (_ mod _)), Z.mod_add, Z.div_add by lia.
  rewrite Z.mod_mod, (Z.div_small (t mod LB)) by (lia || (apply Z.mod_pos_bound; lia)). rewrite Z.add_0_l.
  assert ((- ((t / LB) mod LB)) mod LB = - (t / LB)) as ->.
  { transitivity ((- (t / LB)) mod LB).
    - rewrite <- (Z.sub_0_l ((t / LB) mod LB)), Zminus_mod_idemp_r. by rewrite Z.sub_0_l.
    - assert (t / LB < 1) by (apply Z.div_lt_upper_bound; lia).
      assert (1 - LB <= t / LB) by (apply Z.div_le_lower_bound; [lia|nia]). apply Z.mod_small. lia. }
  pose proof (Z.div_mod t LB). lia.
Qed.

Lemma mp_sub_mul1_from_spec tabr taba b l :
  limbs tabr -> limbs taba -> length tabr = length taba -> in_u64 b -> in_u64 l ->
  borrows (length tabr) (value tabr - value taba * b - l) (mp_sub_mul1_from tabr taba b l) /\
  in_u64 (mp_sub_mul1_from tabr taba b l).2.
Proof.
  intros Hr Ha Hlen Hb. revert taba l Ha Hlen. induction Hr as [|r tabr Hr Hrs IH]; intros [|a taba] l Has Hlen Hl; try done.
  { split; [apply borrows_nil; cbn; lia|done]. }
  inversion_clear Has as [|? ? Ha Has']. cbn [mp_sub_mul1_from].
  pose proof (split_u128_neg (r - a * b - l)) as E.
  destruct (IH taba _ Has' (eq_add_S _ _ Hlen) (u64_range (- Z.shiftr (u128 (r - a * b - l)) LIMB_BITS))) as [Hc Hrr].
  split; [|by destruct (mp_sub_mul1_from tabr taba b _)]. cbn [length value].
  replace (r + LB * value tabr - (a + LB * value taba) * b - l) with ((r - a * b - l) + LB * (value tabr - value taba * b)) by ring.
  apply (borrows_cons _ _ (u64 (- Z.shiftr (u128 (r - a * b - l)) LIMB_BITS))); [apply u64_range| |done].
  apply E. u64_ranges. pose proof LB_pos.
  assert (0 <= a * b <= (LB - 1) * (LB - 1)) by (split; [apply Z.mul_nonneg_nonneg|apply Z.mul_le_mono_nonneg]; lia). nia.
Qed.

Lemma mp_sub_mul1_spec tabr taba b :
  limbs tabr -> limbs taba -> length tabr = length taba -> in_u64 b ->
  borrows (length tabr) (value tabr - value taba * b) (mp_sub_mul1 tabr taba b) /\ in_u64 (mp_sub_mul1 tabr taba b).2.
Proof. intros. rewrite <- (Z.sub_0_r (_ - _)). by apply mp_sub_mul1_from_spec. Qed.

(** ** Shift *)

Lemma mp_shr_limb a l s :
  in_u64 a -> in_u64 l -> 1 <= s < 64 ->
  Z.lor (Z.shiftr a s) (u64 (Z.shiftl l (LIMB_BITS - s))) = a / 2 ^ s + 2 ^ (64 - s) * (l mod 2 ^ s).
Proof.
  intros Ha Hl Hs. u64_ranges. change LIMB_BITS with 64. rewrite Z.shiftr_div_pow2, Z.shiftl_mul_pow2, u64_LB by lia.
  assert (LB = 2 ^ s * 2 ^ (64 - s)) as HB by (rewrite <- Z.pow_add_r by lia; unfold LB; f_equal; lia). rewrite HB in *.
  rewrite Z.mul_mod_distr_r by lia. rewrite lor_low_high; [lia|lia|].
  split; [apply Z.div_pos; lia|]. apply Z.div_lt_upper_bound; lia.
Qed.

(** The value of the limbs shifted, from the lowest. *)
Lemma mp_shr_limbs_spec tab s high :
  limbs tab -> in_u64 high -> 1 <= s < 64 ->
  limbs (mp_shr_limbs tab s high) /\ length (mp_shr_limbs tab s high) = length tab /\
  2 ^ s * value (mp_shr_limbs tab s high) + hd high tab mod 2 ^ s = value tab + base_pow tab * (high mod 2 ^ s).
Proof.
  intros Ht Hh Hs. induction Ht as [|a tab Ha Ht IH]; cbn [mp_shr_limbs hd].
  { split_and!; [constructor|done|rewrite base_pow_nil; cbn [value]; lia]. }
  destruct IH as (Hl & Hn & Hv).
  assert (in_u64 (hd high tab)) as Hhd by (destruct Ht; done).
  rewrite mp_shr_limb by done. pose proof (Z.mod_pos_bound (hd high tab) (2 ^ s) ltac:(lia)).
  assert (LB = 2 ^ s * 2 ^ (64 - s)) as HB by (rewrite <- Z.pow_add_r by lia; unfold LB; f_equal; lia).
  assert (0 <= a / 2 ^ s < 2 ^ (64 - s)).
  { u64_ranges. split; [apply Z.div_pos; lia|]. apply Z.div_lt_upper_bound; [lia|]. rewrite <- HB. lia. }
  split_and!.
  - constructor; [|done]. change (0 <= a / 2 ^ s + 2 ^ (64 - s) * (hd high tab mod 2 ^ s) < LB). rewrite HB.
    split; [apply Z.add_nonneg_nonneg; [lia|apply Z.mul_nonneg_nonneg; lia]|].
    assert (2 ^ (64 - s) * (hd high tab mod 2 ^ s) <= 2 ^ (64 - s) * (2 ^ s - 1)) by (apply Z.mul_le_mono_nonneg_l; lia). lia.
  - cbn [length]. by rewrite Hn.
  - cbn [value]. rewrite base_pow_cons. pose proof (Z.div_mod a (2 ^ s) ltac:(lia)) as Ea.
    transitivity (2 ^ s * (a / 2 ^ s) + a mod 2 ^ s + LB * (2 ^ s * value (mp_shr_limbs tab s high) + hd high tab mod 2 ^ s)).
    + rewrite HB. ring.
    + rewrite Hv, <- Ea. ring.
Qed.

Lemma mp_shr_spec tab s high :
  limbs tab -> in_u64 high -> 1 <= s < 64 ->
  post (mp_shr tab s high) (fun '(res, r) =>
    limbs res /\ length res = length tab /\ 0 <= r < 2 ^ s /\
    2 ^ s * value res + r = value tab + base_pow tab * (high mod 2 ^ s)).
Proof.
  intros Ht Hh Hs. unfold mp_shr. rewrite (proj2 (andb_true_iff _ _)) by (change LIMB_BITS with 64; lia).
  cbn [c_assert obind post]. destruct (mp_shr_limbs_spec tab s high Ht Hh Hs) as (Hl & Hn & Hv).
  assert (u64 (u64 (Z.shiftl 1 s) - 1) = 2 ^ s - 1) as ->.
  { rewrite Z.shiftl_mul_pow2, Z.mul_1_l by lia. assert (0 < 2 ^ s < 2 ^ 64) by (split; [lia|apply Z.pow_lt_mono_r; lia]).
    rewrite (u64_id (2 ^ s)), u64_id by (red; lia). done. }
  rewrite (land_mask _ s) by lia. pose proof (Z.mod_pos_bound (hd high tab) (2 ^ s) ltac:(lia)). split_and!; done || lia.
Qed.

(** ** The product *)

Lemma limbs_take n l : limbs l -> limbs (take n l).
Proof. apply Forall_take. Qed.
Lemma limbs_drop n l : limbs l -> limbs (drop n l).
Proof. apply Forall_drop. Qed.
Lemma limbs_app l k : limbs l -> limbs k -> limbs (l ++ k).
Proof. intros. by apply Forall_app. Qed.
Lemma limbs_slice l i n s : limbs l -> rd_slice l i n = Ret s -> limbs s.
Proof. intros Hl E. unfold rd_slice in E. inv_ret. by apply limbs_take, limbs_drop. Qed.

Create HintDb limbs.
#[export] Hint Resolve limbs_take limbs_drop limbs_app limbs_replicate_0 u64_range in_u64_b2z : limbs.

(** A block in three parts, the middle one of [n] limbs at [i]. *)
Lemma block_split (l : list Z) i n :
  0 <= i -> 0 <= n -> i + n <= zlen l ->
  exists p s q, l = p ++ s ++ q /\ zlen p = i /\ zlen s = n.
Proof.
  intros Hi Hn Hl. exists (take (Z.to_nat i) l), (take (Z.to_nat n) (drop (Z.to_nat i) l)), (drop (Z.to_nat n) (drop (Z.to_nat i) l)).
  split_and!; [by rewrite !take_drop| |].
  - apply zlen_take. lia.
  - apply zlen_take. rewrite zlen_drop; lia.
Qed.

Lemma rd_slice_mid {A : Type} (p s q : list A) : rd_slice (p ++ s ++ q) (zlen p) (zlen s) = Ret s.
Proof.
  pose proof (zlen_nonneg p). pose proof (zlen_nonneg s). pose proof (zlen_nonneg q).
  rewrite rd_slice_in by (rewrite ?zlen_app; lia). f_equal. unfold zlen. rewrite !Nat2Z.id.
  by rewrite drop_app_length, take_app_length.
Qed.

Lemma wr_slice_part {A : Type} (p s q t : list A) :
  zlen t = zlen s -> wr_slice (p ++ s ++ q) (zlen p) t = Ret (p ++ t ++ q).
Proof.
  intros Hn. pose proof (zlen_nonneg q). rewrite wr_slice_app by (rewrite zlen_app; lia).
  assert (length t = length s) as -> by (unfold zlen in Hn; lia). by rewrite drop_app_length.
Qed.

(** Linear arithmetic on the lengths of lists. *)
Ltac zlen_lia :=
  drop_values; unfold zlen in *; repeat (rewrite length_app in * ); cbn [length app] in *; lia.

(** [for(i = from; i < from + n; i++)] and [for(i = n - 1; i >= 0; i--)]. *)
Lemma post_for {S : Type} (f : S -> Z -> outcome S) (P : Z -> S -> Prop) from n :
  0 <= n -> (forall i s, from <= i < from + n -> P i s -> post (f s i) (P (i + 1))) ->
  forall s, P from s -> post (ofold f s (seqZ from n)) (P (from + n)).
Proof.
  intros Hn. revert from. pattern n. apply natlike_ind; [| |exact Hn]; clear n Hn.
  - intros from _ s Hs. cbn [seqZ ofold post]. by rewrite Z.add_0_r.
  - intros n Hn IH from Hstep s Hs. rewrite seqZ_cons, Z.pred_succ by lia. cbn [ofold]. apply post_bind.
    eapply post_mono; [apply Hstep; [lia|done]|]. intros s' Hs'.
    replace (from + Z.succ n) with (Z.succ from + n) by lia. apply IH; [|by rewrite <- Z.add_1_r].
    intros i s0 Hi. apply Hstep. lia.
Qed.

Definition down (n : Z) : list Z := rev (seqZ 0 n).

Lemma down_succ n : 0 <= n -> down (n + 1) = n :: down n.
Proof. intros Hn. unfold down. rewrite seqZ_app by lia. by rewrite rev_app_distr. Qed.

Lemma post_down {S : Type} (f : S -> Z -> outcome S) (P : Z -> S -> Prop) n :
  0 <= n -> (forall i s, 0 <= i < n -> P (i + 1) s -> post (f s i) (P i)) ->
  forall s, P n s -> post (ofold f s (down n)) (P 0).
Proof.
  intros Hn. pattern n. apply natlike_ind; [| |exact Hn]; clear n Hn.
  - intros _ s Hs. exact Hs.
  - intros n Hn IH Hstep s Hs. rewrite <- Z.add_1_r in *. rewrite down_succ by done. cbn [ofold]. apply post_bind.
    eapply post_mono; [apply Hstep; [lia|done]|]. intros s' Hs'. apply IH; [|done]. intros i s0 Hi. apply Hstep. lia.
Qed.

(** The first limbs of a block, after a row has been written at [i]. *)
Definition product_prefix (op1 op2 result : list Z) (size i : Z) : Prop :=
  exists p q, result = p ++ q /\ zlen p = i + zlen op1 /\ zlen result = size /\ limbs result /\
    value p = value op1 * value (take (Z.to_nat i) op2).

Lemma value_take_S op2 i b :
  at_ op2 i b -> value (take (Z.to_nat (i + 1)) op2) = value (take (Z.to_nat i) op2) + LB ^ i * b.
Proof.
  intros [Hi Hb]. replace (Z.to_nat (i + 1)) with (S (Z.to_nat i)) by lia.
  rewrite (take_S_r _ _ b Hb), value_snoc. do 2 f_equal. unfold base_pow. f_equal.
  apply zlen_take. apply lookup_lt_Some in Hb. unfold zlen. lia.
Qed.

Lemma mp_mul_row_spec op1 op2 size result i :
  limbs op1 -> limbs op2 -> 0 <= i < zlen op2 -> zlen op1 + zlen op2 = size ->
  product_prefix op1 op2 result size i -> post (mp_mul_row op1 op2 result i) (fun r => product_prefix op1 op2 r size (i + 1)).
Proof.
  intros H1 H2 Hi Hsize (p & q & -> & Hp & Hz & Hl & Hv). unfold mp_mul_row. apply post_bind, post_rd; [done|]. intros b Hb.
  assert (in_u64 b) as Hb64 by exact (at_Forall _ _ _ _ H2 Hb).
  rewrite zlen_app in Hz. apply Forall_app in Hl as [Hlp Hlq]. pose proof (zlen_nonneg op1).
  destruct q as [|x q]; [rewrite zlen_nil in Hz; lia|]. inversion_clear Hlq as [|? ? Hx Hlq'].
  destruct (block_split p i (zlen op1)) as (p1 & s & q1 & -> & Hi1 & Hs); [lia|lia|lia|].
  assert (q1 = []) as -> by (rewrite !zlen_app, Hi1, Hs in Hp; destruct q1; [done|rewrite zlen_cons in Hp; pose proof (zlen_nonneg q1); lia]).
  rewrite app_nil_r in *. rewrite <- !app_assoc. subst i.
  assert (rd_slice (p1 ++ s ++ x :: q) (zlen p1) (zlen op1) = Ret s) as -> by (rewrite <- Hs; apply rd_slice_mid). cbn [obind].
  apply Forall_app in Hlp as [Hlp1 Hls].
  assert (length s = length op1) as Hlen by (unfold zlen in Hs; lia).
  destruct (mp_add_mul1_spec s op1 b Hls H1 Hlen Hb64) as [(Hlt & Hnt & Hvt) Hr].
  destruct (mp_add_mul1 s op1 b) as [t r]. cbn [fst snd] in *.
  rewrite wr_slice_part by (unfold zlen; lia). cbn [obind].
  rewrite app_assoc, wr_app by (rewrite zlen_app; unfold zlen; lia). cbn [post].
  exists ((p1 ++ t) ++ [r]), q. rewrite <- !app_assoc. cbn [app]. split_and!; [done| | | |].
  - rewrite !zlen_app. change (zlen [r]) with 1. unfold zlen in *. lia.
  - rewrite <- Hz, !zlen_app, !zlen_cons. unfold zlen in *. lia.
  - auto with limbs.
  - rewrite !value_app in *. cbn [value]. rewrite (value_take_S _ _ _ Hb). unfold base_pow in *.
    rewrite Hlen in Hvt. fold (zlen op1) in Hvt. assert (zlen t = zlen op1) as -> by (unfold zlen; lia).
    transitivity (value p1 + LB ^ zlen p1 * (value t + LB ^ zlen op1 * r)); [ring|]. rewrite Hvt. 
    transitivity (value p1 + LB ^ zlen p1 * value s + LB ^ zlen p1 * (value op1 * b)); [ring|]. rewrite Hv. ring.
Qed.

(** The schoolbook product fills its block with the product of the values. *)
Lemma mp_mul_basecase_spec result op1 op2 :
  limbs result -> limbs op1 -> limbs op2 -> 0 < zlen op2 -> zlen result = zlen op1 + zlen op2 ->
  post (mp_mul_basecase result op1 op2) (fun r =>
    limbs r /\ zlen r = zlen op1 + zlen op2 /\ value r = value op1 * value op2).
Proof.
  intros Hl H1 H2 Hn Hsize. unfold mp_mul_basecase. apply post_bind, post_rd; [lia|]. intros b Hb.
  assert (in_u64 b) as Hb64 by exact (at_Forall _ _ _ _ H2 Hb). pose proof (zlen_nonneg op1).
  destruct (mp_mul1_spec op1 b 0 H1 Hb64 ltac:(done)) as [(Hlt & Hnt & Hvt) Hr].
  destruct (mp_mul1 op1 b 0) as [t l]. cbn [fst snd] in *.
  destruct (block_split result (zlen op1) 1) as (p & s & q & -> & Hp & Hs); [lia|lia|lia|].
  destruct s as [|x [|]]; [done| |rewrite !zlen_cons in Hs; pose proof (zlen_nonneg l0); lia].
  apply Forall_app in Hl as [Hlp Hlq]. apply Forall_app in Hlq as [_ Hlq].
  pose proof (wr_slice_part [] p ([x] ++ q) t) as Ew. cbn [app] in Ew. change (zlen []) with 0 in Ew.
  cbn [app]. rewrite Ew by (unfold zlen in *; lia). cbn [obind]. rewrite wr_app by (unfold zlen in *; lia). cbn [obind].
  assert (zlen (take 1 op2) = 1) as _ by (apply (zlen_take op2 1); lia).
  eapply post_mono; [apply (post_for _ (fun i r => product_prefix op1 op2 r (zlen op1 + zlen op2) i) 1 (zlen op2 - 1)); [lia| |]|].
  - intros i r Hi Hinv. apply mp_mul_row_spec; [done|done|lia|done|done].
  - exists (t ++ [l]), q. rewrite <- !app_assoc. cbn [app]. split_and!; [done| | | |].
    + rewrite zlen_app. change (zlen [l]) with 1. unfold zlen in *. lia.
    + zlen_lia.
    + apply limbs_app; [done|by constructor].
    + destruct op2 as [|y op2]; [done|]. destruct Hb as [_ [= ->]]. change (take (Z.to_nat 1) (b :: op2)) with [b].
      rewrite value_snoc. cbn [value]. unfold base_pow, zlen. rewrite Hnt. rewrite Z.add_0_r in Hvt. rewrite Hvt. ring.
  - replace (1 + (zlen op2 - 1)) with (zlen op2) by lia. intros r (p' & q' & -> & Hp' & Hz' & Hl' & Hv').
    assert (q' = []) as -> by (rewrite zlen_app in Hz'; destruct q'; [done|rewrite zlen_cons in Hz'; pose proof (zlen_nonneg q'); lia]).
    rewrite app_nil_r in *. split_and!; [done|lia|]. rewrite Hv'. unfold zlen. by rewrite Nat2Z.id, firstn_all.
Qed.

(** ** Tests and comparison *)

Lemma mp_scan_nz_spec tab : limbs tab -> mp_scan_nz tab = b2z (negb (value tab =? 0)).
Proof.
  induction 1 as [|a tab Ha Ht IH]; [done|]. cbn [mp_scan_nz value]. pose proof (value_bound tab Ht). u64_ranges.
  pose proof LB_pos. destruct (Z.eqb_spec a 0) as [->|Hz]; cbn [negb].
  - rewrite IH. f_equal. f_equal. apply eq_true_iff_eq. rewrite !Z.eqb_eq. nia.
  - destruct (Z.eqb_spec (a + LB * value tab) 0); [nia|done].
Qed.

Lemma value_snoc_compare l k x y :
  limbs l -> limbs k -> length l = length k -> x <> y -> (value (l ++ [x]) ?= value (k ++ [y])) = (x ?= y).
Proof.
  intros Hl Hk Hlen Hxy. rewrite !value_snoc, (base_pow_length k l) by done.
  pose proof (value_bound l Hl). pose proof (value_bound k Hk) as Hb. rewrite (base_pow_length k l) in Hb by done.
  destruct (Z.compare_spec x y); [done|apply Z.compare_lt_iff|apply Z.compare_gt_iff]; nia.
Qed.

Definition sign_of (c : comparison) : Z := match c with Lt => -1 | Eq => 0 | Gt => 1 end.

Lemma mp_cmp_spec taba tabb :
  limbs taba -> limbs tabb -> length taba = length tabb -> mp_cmp taba tabb = sign_of (value taba ?= value tabb).
Proof.
  revert tabb. induction taba as [|x taba IH] using rev_ind; intros tabb Ha Hb Hlen.
  - destruct tabb; done.
  - destruct tabb as [|y tabb _] using rev_ind; [rewrite length_app in Hlen; cbn in Hlen; lia|].
    rewrite !length_app in Hlen. cbn in Hlen. apply Forall_app in Ha as [Ha Hx], Hb as [Hb Hy].
    unfold mp_cmp in *. rewrite !rev_app_distr. cbn [rev app mp_cmp_down].
    destruct (Z.eqb_spec x y) as [->|Hne]; cbn [negb].
    + rewrite IH by (done || lia). rewrite !value_snoc, (base_pow_length tabb taba) by lia.
      rewrite !(Z.add_comm _ (_ * _)), Zcompare_plus_compat. done.
    + rewrite value_snoc_compare by (done || lia). unfold Z.ltb. destruct (Z.compare_spec x y); done.
Qed.

(** ** Parts of a number *)

Lemma value_take_drop n l : value l = value (take n l) + base_pow (take n l) * value (drop n l).
Proof. rewrite <- value_app. by rewrite take_drop. Qed.

Lemma value_drop_div n l : 0 <= n -> limbs l -> value (drop (Z.to_nat n) l) = value l / LB ^ n.
Proof.
  intros Hn Hl. destruct (Z.le_gt_cases n (zlen l)) as [Hle|Hgt].
  - rewrite (value_take_drop (Z.to_nat n) l). pose proof (value_bound _ (limbs_take (Z.to_nat n) l Hl)) as Hb.
    unfold base_pow in *. rewrite zlen_take in * by lia. rewrite (Z.mul_comm (LB ^ n)), Z.div_add, Z.div_small by lia. done.
  - rewrite drop_ge by (unfold zlen in *; lia). cbn [value]. symmetry. apply Z.div_small.
    pose proof (value_bound l Hl). unfold base_pow in *. assert (LB ^ zlen l <= LB ^ n) by (apply Z.pow_le_mono_r; [done|lia]). lia.
Qed.

Lemma value_take_mod n l : 0 <= n -> limbs l -> value (take (Z.to_nat n) l) = value l mod LB ^ n.
Proof.
  intros Hn Hl. destruct (Z.le_gt_cases n (zlen l)) as [Hle|Hgt].
  - rewrite (value_take_drop (Z.to_nat n) l). pose proof (value_bound _ (limbs_take (Z.to_nat n) l Hl)) as Hb.
    unfold base_pow in *. rewrite zlen_take in * by lia. rewrite (Z.mul_comm (LB ^ n)), Z.mod_add, Z.mod_small by lia. done.
  - rewrite take_ge by (unfold zlen in *; lia). symmetry. apply Z.mod_small.
    pose proof (value_bound l Hl). unfold base_pow in *. assert (LB ^ zlen l <= LB ^ n) by (apply Z.pow_le_mono_r; [done|lia]). lia.
Qed.

Lemma post_slice l i n (Q : list Z -> Prop) :
  limbs l -> 0 <= i -> 0 <= n -> i + n <= zlen l ->
  (forall s, limbs s -> zlen s = n -> value s = value l / LB ^ i mod LB ^ n -> Q s) -> post (rd_slice l i n) Q.
Proof.
  intros Hl Hi Hn Hle HQ. rewrite rd_slice_in by done. cbn [post]. apply HQ.
  - auto with limbs.
  - apply zlen_take. rewrite zlen_drop; lia.
  - rewrite value_take_mod, value_drop_div by auto with limbs. done.
Qed.

Lemma LB_pow_pos n : 0 <= n -> 0 < LB ^ n.
Proof. intros. by apply Z.pow_pos_nonneg. Qed.

Lemma LB_pow_le m n : 0 <= m <= n -> LB ^ m <= LB ^ n.
Proof. intros. apply Z.pow_le_mono_r; [done|lia]. Qed.

(** The subtraction of a number from the low part of a block, with the borrow
    taken from the high part. *)
Lemma sub_in_block t0 t1 a r0 c :
  limbs t0 -> limbs t1 -> limbs a -> length t0 = length a -> value a <= value (t0 ++ t1) -> (r0, c) = mp_sub_limbs t0 a 0 ->
  limbs (r0 ++ (mp_sub_ui t1 c).1) /\ length r0 = length t0 /\ length (mp_sub_ui t1 c).1 = length t1 /\
  value (r0 ++ (mp_sub_ui t1 c).1) = value (t0 ++ t1) - value a.
Proof.
  intros H0 H1 Ha Hn Hle E. destruct (mp_sub_spec t0 a 0 H0 Ha Hn ltac:(lia)) as [(Hl & Hln & Hv) Hc].
  rewrite <- E in *. cbn [fst snd] in *. assert (in_u64 c) as Hc64 by (red; lia).
  destruct (mp_sub_ui_spec t1 c H1 Hc64) as [(Hl1 & Hln1 & Hv1) Hk].
  destruct (mp_sub_ui t1 c) as [r1 k]. cbn [fst snd] in *. split_and!; [by apply limbs_app|done|done|].
  pose proof (value_bound _ (limbs_app _ _ Hl Hl1)) as Hb. pose proof (value_bound _ (limbs_app _ _ H0 H1)) as Hb'.
  rewrite (base_pow_length (r0 ++ r1) (t0 ++ t1)) in Hb by (rewrite !length_app; lia).
  assert (value (r0 ++ r1) = value (t0 ++ t1) - value a + base_pow (t0 ++ t1) * k) as Ev.
  { rewrite !value_app, base_pow_app, (base_pow_length r0 t0) by done.
    change (LB ^ Z.of_nat (length t0)) with (base_pow t0) in Hv. change (LB ^ Z.of_nat (length t1)) with (base_pow t1) in Hv1.
    assert (value r0 = value t0 - value a + base_pow t0 * c) as -> by lia.
    assert (value r1 = value t1 - c + base_pow t1 * k) as -> by lia. ring. }
  u64_ranges. pose proof (value_bound a Ha). pose proof (base_pow_pos (t0 ++ t1)).
  assert (k = 0) as -> by nia. lia.
Qed.

(** A result that fits its limbs has no carry. *)
Lemma computes_exact n v r : computes n v r -> 0 <= v < LB ^ Z.of_nat n -> value r.1 = v /\ r.2 = 0.
Proof.
  intros (Hl & Hn & Hv) Hb. pose proof (value_bound _ Hl) as Hr. unfold base_pow, zlen in Hr. rewrite Hn in Hr.
  pose proof (LB_pow_pos (Z.of_nat n) ltac:(lia)). assert (r.2 = 0) as E by nia. rewrite E in Hv. lia.
Qed.

Lemma borrows_exact n v r : borrows n v r -> 0 <= v < LB ^ Z.of_nat n -> value r.1 = v /\ r.2 = 0.
Proof. intros H Hb. destruct (computes_exact _ _ _ H Hb) as [E1 E2]. cbn [fst snd] in *. lia. Qed.

Lemma mp_sub_ui_exact l k :
  limbs l -> in_u64 k -> k <= value l ->
  limbs (mp_sub_ui l k).1 /\ zlen (mp_sub_ui l k).1 = zlen l /\ value (mp_sub_ui l k).1 = value l - k.
Proof.
  intros Hl Hk Hle. destruct (mp_sub_ui_spec l k Hl Hk) as [H _]. pose proof H as (H1 & H2 & _). cbn [fst] in *.
  u64_ranges. pose proof (value_bound l Hl) as Hb. destruct (borrows_exact _ _ _ H) as [E _]; [fold (zlen l); fold (base_pow l); lia|].
  unfold zlen. by rewrite H2.
Qed.

Lemma mp_add_ui_exact l k :
  limbs l -> in_u64 k -> value l + k < base_pow l ->
  limbs (mp_add_ui l k).1 /\ zlen (mp_add_ui l k).1 = zlen l /\ value (mp_add_ui l k).1 = value l + k /\ (mp_add_ui l k).2 = 0.
Proof.
  intros Hl Hk Hle. destruct (mp_add_ui_spec l k Hl Hk) as [H _]. pose proof H as (H1 & H2 & _).
  u64_ranges. pose proof (value_bound l Hl) as Hb. destruct (computes_exact _ _ _ H) as [E1 E2]; [fold (zlen l); fold (base_pow l); lia|].
  unfold zlen. by rewrite H2.
Qed.

Lemma mp_add_exact a b :
  limbs a -> limbs b -> length a = length b -> value a + value b < base_pow a ->
  limbs (mp_add a b 0).1 /\ zlen (mp_add a b 0).1 = zlen a /\ value (mp_add a b 0).1 = value a + value b /\ (mp_add a b 0).2 = 0.
Proof.
  intros Ha Hb Hn Hlt. destruct (mp_add_spec a b 0 Ha Hb Hn ltac:(lia)) as [H _]. rewrite Z.add_0_r in H. pose proof H as (H1 & H2 & _).
  pose proof (value_bound a Ha). pose proof (value_bound b Hb).
  destruct (computes_exact _ _ _ H) as [E1 E2]; [fold (zlen a); fold (base_pow a); lia|]. unfold zlen. by rewrite H2.
Qed.

Lemma mp_sub_exact a b :
  limbs a -> limbs b -> length a = length b -> value b <= value a ->
  limbs (mp_sub_limbs a b 0).1 /\ zlen (mp_sub_limbs a b 0).1 = zlen a /\ value (mp_sub_limbs a b 0).1 = value a - value b /\ (mp_sub_limbs a b 0).2 = 0.
Proof.
  intros Ha Hb Hn Hlt. destruct (mp_sub_spec a b 0 Ha Hb Hn ltac:(lia)) as [H _]. rewrite Z.sub_0_r in H. pose proof H as (H1 & H2 & _).
  pose proof (value_bound a Ha). pose proof (value_bound b Hb). cbn [fst] in *.
  destruct (borrows_exact _ _ _ H) as [E1 E2]; [fold (zlen a); fold (base_pow a); lia|]. unfold zlen. by rewrite H2.
Qed.

Lemma zlen_length {A B : Type} (a : list A) (b : list B) : zlen a = zlen b -> length a = length b.
Proof. unfold zlen. lia. Qed.
