(* ===== verification/MpMul.v ===== *)
(** Natural numbers of [libbf.c]: allocation, and the choice of a multiplication.

    A function that allocates takes the state of the allocator and ends with a
    result or, after the label [fail], with none: [alloc_m].  The product of two
    large numbers is the business of [fft_mul], of which the class [FftMul] states
    what [mp_mul] relies on. *)
From Stdlib Require Import ZArith Lia Bool List.
From stdpp Require Import base tactics list numbers.
From S2P Require Import Prelude Alloc Limb.

(** * Functions that allocate *)

Section Monad.
Context `{AL : Allocator}.

Definition alloc_m (A : Type) : Type := heap -> outcome (heap * option A).

Definition mret {A : Type} (a : A) : alloc_m A := fun h => Ret (h, Some a).
Definition mfail {A : Type} : alloc_m A := fun h => Ret (h, None).
Definition lift {A : Type} (m : outcome A) : alloc_m A := fun h => let* a := m in Ret (h, Some a).
Definition mbind {A B : Type} (m : alloc_m A) (k : A -> alloc_m B) : alloc_m B := fun h =>
  let* (h, r) := m h in
  match r with Some a => k a h | None => Ret (h, None) end.

(** [bf_malloc(s, n * sizeof(limb_t))], with the answer. *)
Definition bf_malloc_opt (n : Z) : alloc_m (option (list Z)) := fun h =>
  let '(h, r) := realloc 8 u64 h [] n in Ret (h, Some r).

(** The same, with a jump to [fail] when the answer is a null pointer. *)
Definition bf_malloc (n : Z) : alloc_m (list Z) :=
  mbind (bf_malloc_opt n) (fun r => match r with Some tab => mret tab | None => mfail end).

(** Two requests, tested together. *)
Definition bf_malloc2 (n1 n2 : Z) : alloc_m (list Z * list Z) :=
  mbind (bf_malloc_opt n1) (fun r1 =>
  mbind (bf_malloc_opt n2) (fun r2 =>
  match r1, r2 with Some tab1, Some tab2 => mret (tab1, tab2) | _, _ => mfail end)).

(** [m] returns without a fault; its result satisfies [Q], and there is one unless
    the allocator refuses some request. *)
Definition mpost {A : Type} (m : alloc_m A) (Q : A -> Prop) : Prop :=
  forall h, post (m h) (fun '(_, r) => match r with Some a => Q a | None => can_refuse end).

Lemma mpost_ret {A : Type} (a : A) (Q : A -> Prop) : Q a -> mpost (mret a) Q.
Proof. by intros H h. Qed.

Lemma mpost_fail {A : Type} (Q : A -> Prop) : can_refuse -> mpost mfail Q.
Proof. by intros H h. Qed.

Lemma mpost_lift {A : Type} (m : outcome A) (Q : A -> Prop) : post m Q -> mpost (lift m) Q.
Proof. intros H h. unfold lift. apply post_bind. by destruct m. Qed.

Lemma mpost_bind {A B : Type} (m : alloc_m A) (k : A -> alloc_m B) (Q : B -> Prop) :
  mpost m (fun a => mpost (k a) Q) -> mpost (mbind m k) Q.
Proof.
  intros H h. unfold mbind. apply post_bind. eapply post_mono; [exact (H h)|]. intros [h' [a|]] Ha; [exact (Ha h')|done].
Qed.

Lemma mpost_mono {A : Type} (m : alloc_m A) (P Q : A -> Prop) : mpost m P -> (forall a, P a -> Q a) -> mpost m Q.
Proof. intros H HPQ h. eapply post_mono; [exact (H h)|]. intros [h' [a|]]; auto. Qed.

Lemma limbs_resize fresh n : limbs (resize u64 fresh [] n).
Proof.
  unfold resize. rewrite take_nil. cbn [app]. unfold fresh_cells. apply List.Forall_forall. intros x Hx.
  apply in_map_iff in Hx as (i & <- & _). apply u64_range.
Qed.

Lemma mpost_malloc_opt n :
  0 <= n < 2 ^ 60 ->
  mpost (bf_malloc_opt n) (fun r => match r with Some tab => limbs tab /\ zlen tab = n | None => can_refuse end).
Proof.
  intros Hn h. unfold bf_malloc_opt, realloc. destruct (heap_alloc h (n * 8)) as [h' [fresh|]] eqn:E.
  2: { cbn. exists (n * 8), h. unfold refuses. by rewrite E. }
  rewrite (proj2 (Z.ltb_lt (n * 8) (2 ^ 63))) by lia. cbn [post]. split; [apply limbs_resize|].
  unfold resize, fresh_cells, zlen. rewrite take_nil. cbn [app length]. rewrite length_map, length_seq. lia.
Qed.

Lemma mpost_malloc n (Q : list Z -> Prop) :
  0 <= n < 2 ^ 60 -> (forall tab, limbs tab -> zlen tab = n -> Q tab) -> mpost (bf_malloc n) Q.
Proof.
  intros Hn HQ. apply mpost_bind. eapply mpost_mono; [by apply mpost_malloc_opt|].
  intros [tab|]; [|apply mpost_fail]. intros [Hl Hz]. apply mpost_ret. auto.
Qed.

Lemma mpost_malloc2 n1 n2 (Q : list Z * list Z -> Prop) :
  0 <= n1 < 2 ^ 60 -> 0 <= n2 < 2 ^ 60 ->
  (forall t1 t2, limbs t1 -> zlen t1 = n1 -> limbs t2 -> zlen t2 = n2 -> Q (t1, t2)) -> mpost (bf_malloc2 n1 n2) Q.
Proof.
  intros Hn1 Hn2 HQ. apply mpost_bind. eapply mpost_mono; [by apply mpost_malloc_opt|]. intros r1 H1.
  apply mpost_bind. eapply mpost_mono; [by apply mpost_malloc_opt|]. intros r2 H2.
  destruct r1 as [t1|], r2 as [t2|]; try by apply mpost_fail. apply mpost_ret. destruct H1, H2. auto.
Qed.
End Monad.

Arguments alloc_m {AL} A.

Notation "'let?' x ':=' m 'in' k" := (mbind m (fun x => k))
  (at level 10, x pattern, m at level 200, k at level 200) : c_scope.

(** One step of symbolic execution under [mpost]. *)
Ltac mstep :=
  lazymatch goal with
  | |- mpost (mbind (lift _) _) _ => apply mpost_bind, mpost_lift
  | |- mpost (mbind _ _) _ => apply mpost_bind
  | |- mpost (mret _) _ => apply mpost_ret
  | |- mpost (lift _) _ => apply mpost_lift
  end.

(** * The product *)

(** What [mp_mul] relies on: [fft_mul] with [FFT_MUL_R_NORESIZE] fills the block
    with the product of two numbers that can be in memory, or reports that memory
    is short.  The number theoretic transform that implements it is not modelled,
    and keeps to this only while its own tables can be allocated: [ntt_conv]
    ignores a failure of its recursive call. *)
Class FftMul `{AL : Allocator} := mkFftMul {
  fft_mul : list Z -> list Z -> alloc_m (list Z);
  fft_mul_spec : forall op1 op2,
    limbs op1 -> limbs op2 -> 0 < zlen op1 -> 0 < zlen op2 -> zlen op1 + zlen op2 < 2 ^ 60 ->
    mpost (fft_mul op1 op2) (fun r => limbs r /\ zlen r = zlen op1 + zlen op2 /\ value r = value op1 * value op2)
}.

Definition FFT_MUL_THRESHOLD : Z := 100.

Section Mul.
Context `{FM : FftMul}.

(** [result] is the block the product is written to. *)
Definition mp_mul (result op1 op2 : list Z) : alloc_m (list Z) :=
  if FFT_MUL_THRESHOLD <=? Z.min (zlen op1) (zlen op2) then fft_mul op1 op2
  else lift (mp_mul_basecase result op1 op2).

Lemma mp_mul_spec result op1 op2 :
  limbs result -> limbs op1 -> limbs op2 -> 0 < zlen op1 -> 0 < zlen op2 -> zlen result = zlen op1 + zlen op2 ->
  zlen result < 2 ^ 60 ->
  mpost (mp_mul result op1 op2) (fun r => limbs r /\ zlen r = zlen op1 + zlen op2 /\ value r = value op1 * value op2).
Proof.
  intros. unfold mp_mul. destruct (_ <=? _); [apply fft_mul_spec; done || lia|]. mstep. by apply mp_mul_basecase_spec.
Qed.
End Mul.
