(* ===== verification/MpDiv.v ===== *)
(** Division of natural numbers in [libbf.c]: the division of two limbs by one
    with a precomputed inverse, the division by one limb, the schoolbook division
    [mp_divnorm], the reciprocal by Newton's iteration and the division that uses
    it. *)
From Stdlib Require Import ZArith Lia Bool List.
From stdpp Require Import base tactics list numbers.
From S2P Require Import Prelude Alloc Limb MpMul.

(** * The routines *)

Definition DIVNORM_LARGE_THRESHOLD : Z := 50.
Definition UDIV1NORM_THRESHOLD : Z := 3.

Definition udiv1norm_init (d : Z) : Z :=
  let a1 := u64 (- d - 1) in
  let a0 := u64 (-1) in
  u64 (Z.lor (u128 (Z.shiftl a1 LIMB_BITS)) a0 / d).

Definition udiv1norm (a1 a0 d d_inv : Z) : Z * Z :=
  let n1m := u64 (Z.shiftr (i64 a0) (LIMB_BITS - 1)) in
  let n_adj := u64 (a0 + Z.land n1m d) in
  let a := u128 (d_inv * u64 (a1 - n1m) + n_adj) in
  let q := u64 (Z.shiftr a LIMB_BITS + a1) in
  let a := Z.lor (u128 (Z.shiftl a1 LIMB_BITS)) a0 in
  let a := u128 (a - q * d - d) in
  let ah := u64 (Z.shiftr a LIMB_BITS) in
  let q := u64 (q + 1 + ah) in
  let r := u64 (a + Z.land ah d) in
  (q, r).

(** The loop of [mp_div1norm], which goes down from the highest limb, with the
    division of two limbs by one as a parameter. *)
Fixpoint mp_div1_loop (div : Z -> Z -> Z * Z) (taba : list Z) (r : Z) : list Z * Z :=
  match taba with
  | a :: taba =>
      let '(tabr, r) := mp_div1_loop div taba r in
      let '(q, r) := div r a in (q :: tabr, r)
  | [] => ([], r)
  end.

Definition div_words (b r a : Z) : Z * Z :=
  let a1 := Z.lor (u128 (Z.shiftl r LIMB_BITS)) a in (u64 (a1 / b), u64 (a1 mod b)).

Definition mp_div1norm (taba : list Z) (b r : Z) : list Z * Z :=
  if UDIV1NORM_THRESHOLD <=? zlen taba then
    let b_inv := udiv1norm_init b in
    mp_div1_loop (fun r a => udiv1norm r a b b_inv) taba r
  else mp_div1_loop (div_words b) taba r.

(** The correction of a quotient that is too large: [(q, w, v)] are the
    quotient, the low limbs and the high limb. *)
Definition divnorm_correct (tabb : list Z) '(q, w, v) : outcome ((Z * list Z * Z) + (Z * list Z * Z)) :=
  let q := u64 (q - 1) in
  let '(w, c) := mp_add w tabb 0 in
  if negb (c =? 0) then
    let v := u64 (v + 1) in
    if v =? 0 then Ret (inr (q, w, v)) else Ret (inl (q, w, v))
  else Ret (inl (q, w, v)).

(** The estimate of one limb of the quotient. *)
Definition divnorm_estimate (b1 b1_inv a1 a0 : Z) : Z :=
  if b1 <=? a1 then u64 (-1)
  else if negb (b1_inv =? 0) then (udiv1norm a1 a0 b1 b1_inv).1
  else let al := Z.lor (u128 (Z.shiftl a1 LIMB_BITS)) a0 in u64 (al / b1).

(** One limb of the quotient from its estimate [q]: subtract the product from the
    low limbs [w] and the high limb [v] of the window, then correct. *)
Definition divnorm_window (tabb : list Z) (q : Z) (w : list Z) (v : Z) : outcome (Z * list Z * Z) :=
  let '(w, r) := mp_sub_mul1 w tabb q in
  let a := u64 (v - r) in
  let c := v <? a in
  if c then iter 4 (divnorm_correct tabb) (q, w, a) else Ret (q, w, a).

(** The body of the main loop of [mp_divnorm]. *)
Definition divnorm_step (tabb : list Z) (b1 b1_inv : Z) '(tabq, taba) (i : Z) : outcome (list Z * list Z) :=
  let nb := zlen tabb in
  let* a1 := rd taba (i + nb) in
  let* a0 := rd taba (i + nb - 1) in
  let q := divnorm_estimate b1 b1_inv a1 a0 in
  let* w := rd_slice taba i nb in
  let* (q, w, v) := divnorm_window tabb q w a1 in
  let* taba := wr_slice taba i w in
  let* taba := wr taba (i + nb) v in
  let* tabq := wr tabq i q in
  Ret (tabq, taba).

(** [mp_divnorm] below the threshold of [mp_divnorm_large]. *)
Definition mp_divnorm_base (tabq taba tabb : list Z) : outcome (list Z * list Z) :=
  let na := zlen taba in
  let nb := zlen tabb in
  let n := na - nb in
  let* b1 := rd tabb (nb - 1) in
  let b1_inv := if UDIV1NORM_THRESHOLD <=? n then udiv1norm_init b1 else 0 in
  let* w := rd_slice taba n nb in
  let q := if mp_cmp w tabb <? 0 then 0 else 1 in
  let* tabq := wr tabq n q in
  let* taba := if negb (q =? 0) then let* (w, _) := mp_sub w tabb 0 in wr_slice taba n w else Ret taba in
  ofold (divnorm_step tabb b1 b1_inv) (tabq, taba) (down n).

Section Div.
Context `{FM : FftMul}.

(** [mp_divnorm], with the function it calls for large operands. *)
Definition mp_divnorm_with (large : list Z -> list Z -> list Z -> alloc_m (list Z * list Z))
    (tabq taba tabb : list Z) : alloc_m (list Z * list Z) :=
  let na := zlen taba in
  let nb := zlen tabb in
  if nb =? 1 then
    let? b1 := lift (rd tabb (nb - 1)) in
    let '(tabr, r) := mp_div1norm taba b1 0 in
    let? tabq := lift (wr_slice tabq 0 tabr) in
    let? taba := lift (wr taba 0 r) in
    mret (tabq, taba)
  else if DIVNORM_LARGE_THRESHOLD <=? Z.min (na - nb) nb then large tabq taba tabb
  else lift (mp_divnorm_base tabq taba tabb).

(** [mp_recip] divides numbers of at most five limbs: [mp_divnorm] does not call
    [mp_divnorm_large] on them. *)
Definition mp_divnorm_few : list Z -> list Z -> list Z -> alloc_m (list Z * list Z) :=
  mp_divnorm_with (fun _ _ _ => lift (Err AssertFail)).

(** [n <= 2]. *)
Definition mp_recip_base (taba : list Z) : alloc_m (list Z) :=
  let n := zlen taba in
  let? (tabu, tabt) := bf_malloc2 (2 * n + 1) (n + 2) in
  let? tabu := lift (wr_slice tabu 0 (replicate (Z.to_nat (2 * n)) 0)) in
  let? tabu := lift (wr tabu (2 * n) 1) in
  let? (tabt, tabu) := mp_divnorm_few tabt tabu taba in
  let? tabr := lift (rd_slice tabt 0 (n + 1)) in
  let? r := lift (rd_slice tabu 0 n) in
  mret (if mp_scan_nz r =? 0 then (mp_sub_ui tabr 1).1 else tabr).

(** The loop that reduces the product [tabt] of [n + h + 1] limbs below
    [LB ^ (n + h)]. *)
Definition recip_reduce (taba : list Z) (h : Z) '(tabxh, tabt) : outcome ((list Z * list Z) + (list Z * list Z)) :=
  let n := zlen taba in
  let* t := rd tabt (n + h) in
  if negb (t =? 0) then
    let tabxh := (mp_sub_ui tabxh 1).1 in
    let* t := rd_slice tabt 0 n in
    let* (t, c) := mp_sub t taba 0 in
    let* tabt := wr_slice tabt 0 t in
    let* t := rd_slice tabt n (h + 1) in
    let* tabt := wr_slice tabt n (mp_sub_ui t c).1 in
    Ret (inl (tabxh, tabt))
  else Ret (inr (tabxh, tabt)).

(** The end of [mp_recip]: the complement of [tabt], its product by [tabxh], and
    the result, the block [tabr] of [n + 1] limbs: its low limbs are those of the
    product, the others [tabxh]. *)
Definition recip_finish (n l h : Z) (tabu tabxh tabt : list Z) : alloc_m (list Z) :=
  let? (tabt, _) := lift (mp_neg tabt 0) in
  let? t := lift (rd tabt (n + h)) in
  let? tabt := lift (wr tabt (n + h) (u64 (t + 1))) in
  let? t := lift (rd_slice tabt l (n + h + 1 - l)) in
  let? tabu := mp_mul tabu t tabxh in
  let k := 2 * h - l in
  let? low := lift (rd_slice tabu k l) in
  let? u := lift (rd_slice tabu (2 * h) h) in
  let? xl := lift (rd_slice tabxh 0 h) in
  let? tabxh := lift (wr_slice tabxh 0 (mp_add xl u 0).1) in
  mret (low ++ tabxh).

Fixpoint mp_recip (depth : nat) (taba : list Z) : alloc_m (list Z) :=
  match depth with
  | O => lift (Err OutOfFuel)
  | S depth =>
      let n := zlen taba in
      if n <=? 2 then mp_recip_base taba
      else
        let l := (n - 1) / 2 in
        let h := n - l in
        let? (tabt, tabu) := bf_malloc2 (n + h + 1) (n + 2 * h - l + 2) in
        let? ah := lift (rd_slice taba l h) in
        let? tabxh := mp_recip depth ah in
        let? tabt := mp_mul tabt taba tabxh in
        let? (tabxh, tabt) := lift (iter 6 (recip_reduce taba h) (tabxh, tabt)) in
        recip_finish n l h tabu tabxh tabt
  end.

(** The last loop of [mp_divnorm_large]. *)
Definition divnorm_increment (tabb : list Z) '(tabq, taba) : outcome ((list Z * list Z) + (list Z * list Z)) :=
  let nb := zlen tabb in
  let* v := rd taba nb in
  let* w := rd_slice taba 0 nb in
  if (v =? 0) && (mp_cmp w tabb <? 0) then Ret (inr (tabq, taba))
  else
    let* (w, c) := mp_sub w tabb 0 in
    let* taba := wr_slice taba 0 w in
    let* taba := wr taba nb (u64 (v - c)) in
    Ret (inl ((mp_add_ui tabq 1).1, taba)).

(** The reciprocal of the divisor on [n] limbs: of the divisor extended with zeros,
    or of its upper limbs plus one. *)
Definition large_inverse (tabb : list Z) (n : Z) : alloc_m (list Z) :=
  let nb := zlen tabb in
  if nb <=? n then mp_recip (Z.to_nat n) (replicate (Z.to_nat (n - nb)) 0 ++ tabb)
  else
    let? b := lift (rd_slice tabb (nb - n) n) in
    let '(t, c) := mp_add_ui b 1 in
    if negb (c =? 0) then mret (replicate (Z.to_nat n) 0 ++ [1])
    else mp_recip (Z.to_nat n) t.

Definition mp_divnorm_large (tabq taba tabb : list Z) : alloc_m (list Z * list Z) :=
  let na := zlen taba in
  let nb := zlen tabb in
  let nq := na - nb in
  let? _ := lift (c_assert (1 <=? nq)) in
  let n := if nq <? nb then nq + 1 else nq in
  let? (tabb_inv, tabt) := bf_malloc2 (n + 1) (2 * (n + 1)) in
  let? tabb_inv := large_inverse tabb n in
  let? a := lift (rd_slice taba (na - (n + 1)) (n + 1)) in
  let? tabt := mp_mul tabt tabb_inv a in
  let? tabq := lift (rd_slice tabt (2 * (n + 1) - (nq + 1)) (nq + 1)) in
  let? tabt := bf_malloc (na + 1) in
  let? tabt := mp_mul tabt tabq tabb in
  let? a := lift (rd_slice taba 0 (nb + 1)) in
  let? t := lift (rd_slice tabt 0 (nb + 1)) in
  let? (r, _) := lift (mp_sub a t 0) in
  let? taba := lift (wr_slice taba 0 r) in
  lift (iter 10 (divnorm_increment tabb) (tabq, taba)).

Definition mp_divnorm : list Z -> list Z -> list Z -> alloc_m (list Z * list Z) := mp_divnorm_with mp_divnorm_large.
End Div.

(** * The division of two limbs by one *)

Definition normalized (d : Z) : Prop := LB <= 2 * d < 2 * LB.

Lemma word_concat hi lo : 0 <= hi < LB -> 0 <= lo < LB -> Z.lor (u128 (Z.shiftl hi LIMB_BITS)) lo = hi * LB + lo.
Proof.
  intros Hh Hl. rewrite Z.shiftl_mul_pow2 by done. change (2 ^ LIMB_BITS) with LB.
  rewrite u128_LB, Z.mod_small by nia. rewrite Z.lor_comm.
  change LB with (2 ^ 64). rewrite lor_low_high by (done || lia). change (2 ^ 64) with LB. lia.
Qed.

Lemma udiv1norm_init_spec d : normalized d -> udiv1norm_init d = (LB * LB - 1) / d - LB.
Proof.
  intros Hd. unfold normalized in Hd. unfold udiv1norm_init. pose proof LB_pos.
  assert (u64 (- d - 1) = LB - d - 1) as ->.
  { rewrite u64_LB. replace (- d - 1) with (LB - d - 1 + (-1) * LB) by ring. rewrite Z.mod_add by lia. apply Z.mod_small. lia. }
  change (u64 (-1)) with (LB - 1). rewrite word_concat by lia.
  replace ((LB - d - 1) * LB + (LB - 1)) with (LB * LB - 1 + (- LB) * d) by ring. rewrite Z.div_add by lia.
  rewrite u64_LB. apply Z.mod_small.
  assert (LB <= (LB * LB - 1) / d) by (apply Z.div_le_lower_bound; nia).
  assert ((LB * LB - 1) / d < 2 * LB) by (apply Z.div_lt_upper_bound; nia). lia.
Qed.

(** The top bit of a limb, spread over a word by the arithmetic shift. *)
Lemma sign_mask a : in_u64 a -> u64 (Z.shiftr (i64 a) (LIMB_BITS - 1)) = if LB <=? 2 * a then LB - 1 else 0.
Proof.
  intros Ha. unfold i64. rewrite (u64_id a Ha). u64_ranges. change (LIMB_BITS - 1) with 63. rewrite Z.shiftr_div_pow2 by done.
  rewrite LB_val in *. destruct (Z.ltb_spec a 9223372036854775808), (Z.leb_spec 18446744073709551616 (2 * a)); try lia.
  - rewrite Z.div_small by lia. done.
  - assert ((a - 18446744073709551616) / 2 ^ 63 = -1) as -> by (change (2 ^ 63) with 9223372036854775808; zlia). done.
Qed.

Lemma land_ones_u64 d : in_u64 d -> Z.land (LB - 1) d = d.
Proof. intros Hd. rewrite Z.land_comm, (land_mask d 64) by done. by apply u64_id. Qed.

(** The estimate is the quotient or one less. *)
Lemma udiv1norm_estimate d a1 a0 b e m t f :
  normalized d -> 0 <= a1 < d -> 0 <= a0 < LB -> 0 <= b <= 1 -> (b = 1 -> LB <= 2 * a0) -> (b = 0 -> 2 * a0 < LB) ->
  LB * LB - 1 = (LB + m) * d + e -> 0 <= e < d ->
  m * (a1 + b) + (a0 + b * d - b * LB) = LB * f + t -> 0 <= t < LB ->
  0 <= a1 * LB + a0 - (a1 + f) * d < 2 * d.
Proof.
  intros [Hd1 Hd2] Ha1 Ha0 Hb Hb1 Hb0 Hm He Hf Ht. pose proof LB_pos as HB. set (B := LB) in *.
  assert (B * (a1 * B + a0 - (a1 + f) * d)
    = a0 * (B - d) + (a1 + b) * (1 + e) - b * (B - d) * (B - d) + d * t) as E.
  { assert (m * d = B * B - 1 - e - B * d) as Em by lia. 
    assert (d * (B * f + t) = (m * d) * (a1 + b) + d * (a0 + b * d - b * B)) as Ef by (rewrite <- Hf; ring).
    rewrite Em in Ef. lia || (assert (b * b = b) by nia; nia). }
  assert (0 <= (a1 + b) * (1 + e) <= d * d) by (split; [apply Z.mul_nonneg_nonneg|apply Z.mul_le_mono_nonneg]; lia).
  assert (0 <= d * t <= d * (B - 1)) by (split; [apply Z.mul_nonneg_nonneg|apply Z.mul_le_mono_nonneg_l]; lia).
  assert (0 <= a0 * (B - d) - b * (B - d) * (B - d) <= d * (B - d)) as Hmid.
  { assert (b = 0 \/ b = 1) as [-> | ->] by lia.
    - specialize (Hb0 eq_refl). replace (a0 * (B - d) - 0 * (B - d) * (B - d)) with (a0 * (B - d)) by ring.
      split; [apply Z.mul_nonneg_nonneg|apply Z.mul_le_mono_nonneg_r]; lia.
    - specialize (Hb1 eq_refl). replace (a0 * (B - d) - 1 * (B - d) * (B - d)) with ((a0 - (B - d)) * (B - d)) by ring.
      split; [apply Z.mul_nonneg_nonneg|apply Z.mul_le_mono_nonneg_r]; lia. }
  split; [|apply Z.mul_lt_mono_pos_l with B; lia].
  apply Z.mul_nonneg_cancel_l with B; lia.
Qed.

Lemma udiv1norm_spec a1 a0 d :
  normalized d -> 0 <= a1 < d -> in_u64 a0 ->
  udiv1norm a1 a0 d (udiv1norm_init d) = ((a1 * LB + a0) / d, (a1 * LB + a0) mod d).
Proof.
  intros Hd Ha1 Ha0. pose proof LB_pos as HB. pose proof Hd as [Hd1 Hd2]. rewrite udiv1norm_init_spec by done.
  unfold udiv1norm. cbv zeta. rewrite (sign_mask a0 Ha0). u64_ranges.
  set (b := b2z (LB <=? 2 * a0)). assert (0 <= b <= 1) as Hb by apply b2z_range.
  pose proof (Z.div_mod (LB * LB - 1) d ltac:(lia)) as Em. pose proof (Z.mod_pos_bound (LB * LB - 1) d ltac:(lia)) as He.
  set (m := (LB * LB - 1) / d - LB) in *. set (e := (LB * LB - 1) mod d) in *.
  assert (0 <= m < LB) as Hm.
  { assert (LB <= (LB * LB - 1) / d) by (apply Z.div_le_lower_bound; nia).
    assert ((LB * LB - 1) / d < 2 * LB) by (apply Z.div_lt_upper_bound; nia). lia. }
  assert (u64 (a1 - (if LB <=? 2 * a0 then LB - 1 else 0)) = a1 + b) as ->.
  { unfold b, b2z. rewrite u64_LB. destruct (LB <=? 2 * a0).
    - replace (a1 - (LB - 1)) with (a1 + 1 + (-1) * LB) by ring. rewrite Z.mod_add by lia. apply Z.mod_small. lia.
    - rewrite Z.sub_0_r, Z.add_0_r. apply Z.mod_small. lia. }
  assert (u64 (a0 + Z.land (if LB <=? 2 * a0 then LB - 1 else 0) d) = a0 + b * d - b * LB) as ->.
  { unfold b, b2z. rewrite u64_LB. destruct (Z.leb_spec LB (2 * a0)).
    - rewrite land_ones_u64 by (red; rewrite LB_val in *; lia).
      replace (a0 + d) with (a0 + 1 * d - 1 * LB + 1 * LB) by ring. rewrite Z.mod_add by lia. apply Z.mod_small. lia.
    - rewrite Z.land_0_l. rewrite Z.mod_small; lia. }
  set (s := m * (a1 + b) + (a0 + b * d - b * LB)).
  assert (0 <= a0 + b * d - b * LB < LB) as Hadj.
  { unfold b, b2z. destruct (Z.leb_spec LB (2 * a0)); lia. }
  assert (0 <= m * (a1 + b) <= (LB - 1) * (LB - 1)) by (split; [apply Z.mul_nonneg_nonneg|apply Z.mul_le_mono_nonneg]; lia).
  rewrite (u128_LB s), (Z.mod_small s), shiftr_LB by (unfold s; lia).
  destruct (udiv1norm_estimate d a1 a0 b e m (s mod LB) (s / LB)) as [Hlo Hhi]; try done.
  { unfold b, b2z. destruct (Z.leb_spec LB (2 * a0)); lia. }
  { unfold b, b2z. destruct (Z.leb_spec LB (2 * a0)); lia. }
  { lia. }
  { fold s. rewrite (Z.div_mod s LB) at 1 by lia. ring. }
  { apply Z.mod_pos_bound. lia. }
  assert (0 <= s / LB) by (apply Z.div_pos; lia).
  rewrite (Z.add_comm (s / LB) a1). set (q := a1 + s / LB) in *. set (N := a1 * LB + a0) in *.
  assert (a1 * LB <= (d - 1) * LB) by (apply Z.mul_le_mono_nonneg_r; lia). assert (N < d * LB) by (unfold N; lia).
  assert (0 <= q < LB) as Hq by (split; [lia|]; apply Z.mul_lt_mono_pos_r with d; lia).
  rewrite (u64_LB q), (Z.mod_small q) by done. rewrite word_concat by lia. fold N.
  assert (LB < LB * LB) as HBB by reflexivity. set (x := N - q * d - d). assert (- d <= x < d) as Hx by lia.
  assert (u64 (Z.shiftr (u128 x) LIMB_BITS) = if x <? 0 then LB - 1 else 0) as ->.
  { rewrite shiftr_LB, u128_LB. destruct (Z.ltb_spec x 0).
    - replace x with (x + LB * LB + (-1) * (LB * LB)) by ring. rewrite Z.mod_add, Z.mod_small by lia.
      rewrite u64_LB, Z.div_add by lia. rewrite <- (Z.div_unique x LB (-1) (x + LB)) by lia.
      apply Z.mod_small. lia.
    - rewrite Z.mod_small, Z.div_small by lia. done. }
  assert (N = (if x <? 0 then q else q + 1) * d + (if x <? 0 then x + d else x)) as EN by (destruct (x <? 0); lia).
  assert (0 <= (if x <? 0 then x + d else x) < d) as Hr by (destruct (Z.ltb_spec x 0); lia).
  rewrite <- (Z.div_unique_pos N d (if x <? 0 then q else q + 1) (if x <? 0 then x + d else x)) by lia.
  rewrite <- (Z.mod_unique_pos N d (if x <? 0 then q else q + 1) (if x <? 0 then x + d else x)) by lia.
  assert (u64 (u128 x + Z.land (if x <? 0 then LB - 1 else 0) d) = if x <? 0 then x + d else x) as ->.
  { rewrite u64_LB, u128_LB. rewrite <- Zplus_mod_idemp_l, (Z.rem_mul_r x LB LB) by lia.
    rewrite (Z.mul_comm LB (_ mod _)), Z.mod_add, Z.mod_mod, Zplus_mod_idemp_l by lia.
    destruct (Z.ltb_spec x 0).
    - rewrite land_ones_u64 by (red; rewrite LB_val in *; lia). apply Z.mod_small. lia.
    - rewrite Z.land_0_l, Z.add_0_r. apply Z.mod_small. lia. }
  f_equal. rewrite u64_LB. destruct (Z.ltb_spec x 0).
  - replace (q + 1 + (LB - 1)) with (q + 1 * LB) by ring. rewrite Z.mod_add by lia. by apply Z.mod_small.
  - rewrite Z.add_0_r. apply Z.mod_small. split; [lia|]. apply Z.mul_lt_mono_pos_r with d; lia.
Qed.

Lemma div_words_spec b r a :
  normalized b -> 0 <= r < b -> in_u64 a -> div_words b r a = ((r * LB + a) / b, (r * LB + a) mod b).
Proof.
  intros [Hb1 Hb2] Hr Ha. u64_ranges. unfold div_words. rewrite word_concat by lia. pose proof LB_pos.
  assert (r * LB <= (b - 1) * LB) by (apply Z.mul_le_mono_nonneg_r; lia). f_equal; rewrite u64_LB; apply Z.mod_small.
  - assert (0 <= r * LB) by (apply Z.mul_nonneg_nonneg; lia). split; [apply Z.div_pos; lia|]. apply Z.div_lt_upper_bound; lia.
  - pose proof (Z.mod_pos_bound (r * LB + a) b). lia.
Qed.

(** * The division by one limb *)

Lemma mp_div1_loop_spec div b taba r :
  normalized b -> (forall r a, 0 <= r < b -> in_u64 a -> div r a = ((r * LB + a) / b, (r * LB + a) mod b)) ->
  limbs taba -> 0 <= r < b ->
  let '(q, r') := mp_div1_loop div taba r in
  limbs q /\ length q = length taba /\ 0 <= r' < b /\ value taba + base_pow taba * r = value q * b + r'.
Proof.
  intros [Hb1 Hb2] Hdiv Ht Hr. induction Ht as [|a taba Ha Ht IH]; cbn [mp_div1_loop].
  { rewrite base_pow_nil. cbn [value]. split_and!; try done; try lia. }
  destruct (mp_div1_loop div taba r) as [q r1]. destruct IH as (Hq & Hn & Hr1 & Hv). rewrite (Hdiv r1 a Hr1 Ha).
  pose proof (Z.div_mod (r1 * LB + a) b ltac:(lia)) as E. pose proof (Z.mod_pos_bound (r1 * LB + a) b ltac:(lia)) as Hm.
  u64_ranges. pose proof LB_pos. split_and!; [|cbn [length]; lia|lia|lia|].
  - constructor; [|done]. change (0 <= (r1 * LB + a) / b < LB).
    assert (0 <= r1 * LB <= (b - 1) * LB) by (split; [apply Z.mul_nonneg_nonneg|apply Z.mul_le_mono_nonneg_r]; lia).
    split; [apply Z.div_pos; lia|]. apply Z.div_lt_upper_bound; lia.
  - cbn [value]. rewrite base_pow_cons.
    transitivity (a + LB * (value taba + base_pow taba * r)); [ring|]. rewrite Hv.
    transitivity (LB * value q * b + (r1 * LB + a)); [ring|]. rewrite E at 1. ring.
Qed.

Lemma mp_div1norm_spec taba b r :
  normalized b -> limbs taba -> 0 <= r < b ->
  let '(q, r') := mp_div1norm taba b r in
  limbs q /\ length q = length taba /\ 0 <= r' < b /\ value taba + base_pow taba * r = value q * b + r'.
Proof.
  intros Hb Ht Hr. unfold mp_div1norm. destruct (_ <=? _); apply mp_div1_loop_spec; try done.
  - intros. by apply udiv1norm_spec.
  - intros. by apply div_words_spec.
Qed.

(** * The schoolbook division *)

Section Window.
Variables (tabb bl : list Z) (b1 : Z).
Hypothesis Eb : tabb = bl ++ [b1].
Hypothesis Hlb : limbs tabb.
Hypothesis Hn1 : normalized b1.

Let nb := length tabb.
Let b := value tabb.
Let P := base_pow bl.

Lemma P_pos : 0 < P.
Proof using. apply base_pow_pos. Qed.

Lemma b_bounds : P * b1 <= b < P * (b1 + 1).
Proof using Eb Hlb.
  clear Hn1. unfold b. rewrite Eb, value_snoc. rewrite Eb in Hlb. apply Forall_app in Hlb as [Hl _].
  pose proof (value_bound bl Hl) as H. fold P in H |- *. lia.
Qed.

Lemma base_pow_tabb : LB ^ Z.of_nat nb = LB * P.
Proof using Eb. unfold nb, P. change (LB ^ Z.of_nat (length tabb)) with (base_pow tabb). rewrite Eb, base_pow_app. change (base_pow [b1]) with LB. ring. Qed.

Lemma b_bound : LB * P <= 2 * b < 2 * (LB * P).
Proof using Eb Hlb Hn1. pose proof b_bounds. pose proof P_pos. destruct Hn1. split; nia. Qed.

(** The estimate from the two highest limbs [a1], [a0] of the window
    [W = l + P * (a0 + LB * a1)] is at most two above its quotient. *)
Lemma divnorm_estimate_spec a1 a0 l inv :
  in_u64 a1 -> in_u64 a0 -> 0 <= l < P -> inv = udiv1norm_init b1 \/ inv = 0 ->
  let W := l + P * (a0 + LB * a1) in
  W < LB * b ->
  let q := divnorm_estimate b1 inv a1 a0 in in_u64 q /\ - (2 * b) <= W - q * b < b.
Proof using Eb Hlb Hn1.
  intros Ha1 Ha0 Hl Hinv W HW. cbv zeta. pose proof P_pos as HP. pose proof b_bounds as Hb. pose proof b_bound as Hb'.
  pose proof Hn1 as [Hb1 Hb2]. u64_ranges. pose proof LB_pos. unfold divnorm_estimate.
  assert (a1 <= b1) as Hle.
  { assert (P * (LB * a1) < P * (LB * (b1 + 1))) by (unfold W in HW; nia). nia. }
  destruct (Z.leb_spec b1 a1) as [Hge|Hlt].
  - change (u64 (-1)) with (LB - 1). assert (a1 = b1) as -> by lia. split; [change (0 <= LB - 1 < LB); lia|].
    split; [|lia]. assert (P * LB * b1 <= W) by (unfold W; nia). nia.
  - set (N := a1 * LB + a0).
    assert ((if negb (inv =? 0) then (udiv1norm a1 a0 b1 inv).1
             else u64 (Z.lor (u128 (Z.shiftl a1 LIMB_BITS)) a0 / b1)) = N / b1) as ->.
    { destruct (Z.eqb_spec inv 0) as [->|Hz]; cbn [negb].
      - pose proof (div_words_spec b1 a1 a0 Hn1) as E. unfold div_words in E.
        assert ((u64 (Z.lor (u128 (Z.shiftl a1 LIMB_BITS)) a0 / b1), u64 (Z.lor (u128 (Z.shiftl a1 LIMB_BITS)) a0 mod b1))
          = (N / b1, N mod b1)) as [= -> _]; [|done]. apply E; [lia|done].
      - destruct Hinv as [->|]; [|done]. by rewrite udiv1norm_spec by (done || lia). }
    assert (a1 * LB <= (b1 - 1) * LB) by (apply Z.mul_le_mono_nonneg_r; lia).
    pose proof (Z.div_mod N b1 ltac:(lia)) as EN. pose proof (Z.mod_pos_bound N b1 ltac:(lia)) as HN.
    assert (0 <= N) by (unfold N; nia). assert (0 <= N / b1) by (apply Z.div_pos; lia).
    assert (N / b1 < LB) by (apply Z.div_lt_upper_bound; unfold N; lia).
    set (q := N / b1) in *. split; [change (0 <= q < LB); lia|].
    assert (W = l + P * N) as EW by (unfold W, N; ring).
    assert (q * (P * b1) <= q * b <= q * (P * (b1 + 1))) by (split; apply Z.mul_le_mono_nonneg_l; lia).
    assert (P * (q * b1) <= P * N) by (apply Z.mul_le_mono_nonneg_l; lia).
    assert (P * N <= P * (q * b1 + b1 - 1)) by (apply Z.mul_le_mono_nonneg_l; lia).
    assert (P * q <= P * LB) by (apply Z.mul_le_mono_nonneg_l; lia). lia.
Qed.

(** The correction ends with the quotient of the window [W]. *)
Lemma divnorm_correct_spec W k : forall q w v,
  0 <= W -> limbs w -> length w = nb -> in_u64 q -> in_u64 v ->
  value w + LB ^ Z.of_nat nb * (v - LB) = W - q * b -> - (Z.of_nat k * b) <= W - q * b < 0 ->
  post (iter (S k) (divnorm_correct tabb) (q, w, v)) (fun '(q, w, v) =>
    v = 0 /\ limbs w /\ length w = nb /\ in_u64 q /\ W - q * b = value w /\ value w < b).
Proof using Eb Hlb Hn1.
  pose proof b_bound as Hb'. pose proof P_pos as HP. pose proof base_pow_tabb as EB.
  induction k as [|k IH]; intros q w v HW Hlw Hnw Hq Hv E HD; [lia|]. rewrite iter_S. unfold divnorm_correct at 1.
  destruct (mp_add_spec w tabb 0 Hlw Hlb Hnw ltac:(lia)) as [(Hl & Hn & Hval) Hc].
  destruct (mp_add w tabb 0) as [w' c]. cbn [fst snd] in *. rewrite Hnw in *. fold b in Hval. rewrite Z.add_0_r in Hval.
  u64_ranges. pose proof (value_bound w' Hl) as Hw'. rewrite (base_pow_length w' tabb) in Hw' by (unfold nb in *; lia).
  assert (base_pow tabb = LB * P) as EBP by exact EB. rewrite EBP in Hw'. rewrite EB in *.
  assert (1 <= q) as Hq1 by nia. assert (u64 (q - 1) = q - 1) as -> by (apply u64_id; change (0 <= q - 1 < LB); lia).
  assert (W - (q - 1) * b = value w' + LB * P * (v + c - LB)) as E' by lia.
  assert (c = 0 \/ c = 1) as [-> | ->] by lia; cbn [Z.eqb negb obind].
  - apply IH; try done; [change (0 <= q - 1 < LB); lia|rewrite Z.add_0_r in E'; lia|].
    assert (LB * P * (v - LB) <= LB * P * (-1)) by (apply Z.mul_le_mono_nonneg_l; nia). lia.
  - destruct (Z.eq_dec v (LB - 1)) as [->|Hne].
    + replace (LB - 1 + 1) with LB by ring. change (u64 LB) with 0. cbn [Z.eqb obind post].
      replace (LB - 1 + 1 - LB) with 0 in E' by ring. split_and!; try done; [change (0 <= q - 1 < LB); lia|lia|lia].
    + assert (u64 (v + 1) = v + 1) as -> by (apply u64_id; change (0 <= v + 1 < LB); lia).
      rewrite (proj2 (Z.eqb_neq _ _)) by lia. cbn [obind].
      assert (value w' + LB * P * (v + 1 - LB) = W - (q - 1) * b) by lia.
      apply IH; try done; [change (0 <= q - 1 < LB); lia|change (0 <= v + 1 < LB); lia|].
      assert (LB * P * (v + 1 - LB) <= LB * P * (-1)) by (apply Z.mul_le_mono_nonneg_l; nia). lia.
Qed.

Lemma divnorm_window_spec q w v :
  limbs w -> length w = nb -> in_u64 q -> in_u64 v ->
  let W := value w + LB ^ Z.of_nat nb * v in
  - (2 * b) <= W - q * b < b ->
  post (divnorm_window tabb q w v) (fun '(q, w, v) =>
    v = 0 /\ limbs w /\ length w = nb /\ in_u64 q /\ W - q * b = value w /\ value w < b).
Proof using Eb Hlb Hn1.
  intros Hlw Hnw Hq Hv W HD. pose proof b_bound as Hb'. pose proof P_pos as HP. pose proof base_pow_tabb as EB.
  unfold divnorm_window. destruct (mp_sub_mul1_spec w tabb q Hlw Hlb Hnw Hq) as [(Hl & Hn & Hval) Hr].
  destruct (mp_sub_mul1 w tabb q) as [w' r]. cbn [fst snd] in *. rewrite Hnw in *. fold b in Hval.
  pose proof (u64_sub_borrow v r Hv Hr) as E. pose proof (u64_range (v - r)) as Ha. set (a := u64 (v - r)) in *.
  pose proof (value_bound w Hlw) as Hw0. pose proof (value_bound w' Hl) as Hw'.
  rewrite (base_pow_length w' tabb) in Hw' by (unfold nb in *; lia). assert (base_pow tabb = LB * P) as EBP by exact EB.
  rewrite EBP in Hw'. unfold W in *. rewrite EB in *.
  assert (value w + LB * P * v - q * b = value w' + LB * P * (v - r)) as ED by lia.
  destruct (v <? a); cbn [b2z] in E; rewrite E in ED.
  - u64_ranges. assert (0 <= LB * P * v) by (apply Z.mul_nonneg_nonneg; lia).
    eapply post_mono; [apply (divnorm_correct_spec (value w + LB * P * v) 3 q w' a)|]; try done; [lia|rewrite ?EB; lia|].
    assert (LB * P * (a - LB) <= LB * P * (-1)) by (apply Z.mul_le_mono_nonneg_l; nia).
    rewrite ED in *. replace (a - LB * 1) with (a - LB) in * by ring. change (Z.of_nat 3) with 3. lia.
  - cbn [post]. u64_ranges. assert (a = 0) as ->; [|split_and!; try done; lia].
    destruct (Z.eq_dec a 0); [done|]. assert (LB * P * 1 <= LB * P * a) by (apply Z.mul_le_mono_nonneg_l; nia). lia.
Qed.
End Window.

(** The state before the limb [i] of the quotient is determined: the window [w] is
    a remainder, the limbs below are not touched. *)
Definition divnorm_inv (a : Z) (tabb : list Z) (na i : Z) '(tabq, taba) : Prop :=
  exists low w hi ql qh,
    taba = low ++ w ++ hi /\ tabq = ql ++ qh /\ zlen low = i /\ zlen ql = i /\ length w = length tabb /\
    zlen taba = na /\ zlen tabq = na - zlen tabb + 1 /\ limbs taba /\ limbs tabq /\
    value w < value tabb /\ a = value low + LB ^ i * (value w + value qh * value tabb).

Lemma snoc_cases {A : Type} (l : list A) : 0 < zlen l -> exists k x, l = k ++ [x].
Proof. destruct l as [|x l _] using rev_ind; [done|eauto]. Qed.

Lemma rd_at_mid (p q : list Z) x i : i = zlen p -> rd (p ++ x :: q) i = Ret x.
Proof. intros ->. by apply rd_app_mid. Qed.

Lemma divnorm_step_spec a tabb bl b1 inv na i s :
  tabb = bl ++ [b1] -> limbs tabb -> normalized b1 -> inv = udiv1norm_init b1 \/ inv = 0 ->
  0 <= i -> i + zlen tabb < na ->
  divnorm_inv a tabb na (i + 1) s -> post (divnorm_step tabb b1 inv s i) (divnorm_inv a tabb na i).
Proof.
  intros Eb Hlb Hn1 Hinv Hi Hna. destruct s as [tabq taba].
  intros (low & w & hi & ql & qh & Ea & Eq & Hlow & Hql & Hw & Hza & Hzq & Hla & Hlq & Hlt & Ev).
  assert (0 < zlen tabb) as Hnb by (rewrite Eb; zlen_lia).
  destruct (snoc_cases low) as (low' & x & ->); [lia|]. destruct (snoc_cases ql) as (ql' & y & ->); [lia|].
  destruct (snoc_cases w) as (w' & a1 & ->); [unfold zlen in *; lia|].
  destruct (snoc_cases (x :: w')) as (z & a0 & Ez); [zlen_lia|].
  assert (zlen low' = i /\ zlen ql' = i /\ length (x :: w') = length tabb) as (Hlow' & Hql' & Hw') by (split_and!; zlen_lia).
  assert (taba = low' ++ (x :: w') ++ a1 :: hi) as -> by (rewrite Ea, <- !app_assoc; done).
  assert (tabq = ql' ++ y :: qh) as -> by (rewrite Eq, <- !app_assoc; done). clear Ea Eq.
  pose proof Hla as Hla'. apply Forall_app in Hla as [Hll Hla]. apply Forall_app in Hla as [Hlw Hla].
  inversion_clear Hla as [|? ? Ha1 Hlh]. pose proof (limbs_app _ _ Hlw (Forall_cons_2 _ _ _ Ha1 (Forall_nil_2 _))) as _.
  assert (in_u64 a0) as Ha0 by (rewrite Ez in Hlw; apply Forall_app in Hlw as [_ Hx]; by inversion Hx).
  assert (value (w' ++ [a1]) = value w' + base_pow w' * a1) as Evw by apply value_snoc.
  assert (limbs w' /\ in_u64 x) as [Hlw' Hx] by (inversion Hlw; done).
  assert (limbs z) as Hlz by (rewrite Ez in Hlw; by apply Forall_app in Hlw as [Hz _]).
  assert (base_pow z = base_pow w' /\ base_pow z = base_pow bl) as [Ez1 Ez2].
  { assert (length (x :: w') = S (length z)) as E1 by (rewrite Ez, length_app; cbn; lia).
    split; apply base_pow_length; rewrite Eb, length_app in *; cbn [length] in *; lia. }
  assert (value (x :: w') + LB ^ Z.of_nat (length tabb) * a1 = x + LB * value (w' ++ [a1])) as EW.
  { rewrite <- Hw'. change (LB ^ Z.of_nat (length (x :: w'))) with (base_pow (x :: w')). rewrite base_pow_cons, Evw. cbn [value]. ring. }
  unfold divnorm_step. rewrite app_assoc, rd_at_mid by (unfold zlen in *; rewrite length_app; lia). cbn [obind].
  rewrite <- app_assoc, Ez, <- app_assoc, app_assoc. cbn [app].
  rewrite rd_at_mid by (unfold zlen in *; rewrite Ez, !length_app in *; cbn [length] in *; lia). cbn [obind].
  replace ((low' ++ z) ++ a0 :: a1 :: hi) with (low' ++ (x :: w') ++ a1 :: hi) by (rewrite Ez, <- !app_assoc; done).
  assert (rd_slice (low' ++ (x :: w') ++ a1 :: hi) i (zlen tabb) = Ret (x :: w')) as ->.
  { assert (zlen tabb = zlen (x :: w')) as -> by (unfold zlen; lia). rewrite <- Hlow'. apply rd_slice_mid. }
  cbn [obind]. pose proof (value_bound z Hlz) as Hzb. pose proof LB_pos. u64_ranges.
  destruct (divnorm_estimate_spec tabb bl b1 Eb Hlb Hn1 a1 a0 (value z) inv) as [Hq HD]; try done.
  { by rewrite Ez2 in Hzb. }
  { replace (value z + base_pow bl * (a0 + LB * a1)) with (x + LB * value (w' ++ [a1])); [nia|].
    rewrite <- EW, Ez, value_snoc, Ez2, (base_pow_tabb tabb bl b1 Eb). ring. }
  apply post_bind. eapply post_mono; [apply (divnorm_window_spec tabb bl b1 Eb Hlb Hn1 _ (x :: w') a1 Hlw Hw' Hq Ha1)|].
  { rewrite Ez, value_snoc, Ez2, (base_pow_tabb tabb bl b1 Eb). lia. }
  intros [[q r] v] (-> & Hlr & Hnr & Hq64 & Er & Hrb).
  rewrite <- Hlow', wr_slice_part by (unfold zlen; lia). cbn [obind].
  rewrite app_assoc, wr_app by (unfold zlen in *; rewrite length_app; lia). cbn [obind].
  rewrite wr_app by lia. cbn [obind post]. rewrite Hlow'.
  exists low', r, (0 :: hi), ql', (q :: qh). rewrite <- app_assoc. cbn [app]. split_and!; try done.
  - zlen_lia.
  - zlen_lia.
  - apply limbs_app; [done|]. apply limbs_app; [done|]. by constructor.
  - apply Forall_app in Hlq as [Hl1 Hl2]. inversion_clear Hl2. apply limbs_app; [done|]. by constructor.
  - rewrite Ev, value_snoc. unfold base_pow. rewrite Hlow'. cbn [value]. rewrite EW in Er.
    rewrite Z.pow_add_r, Z.pow_1_r by lia.
    transitivity (value low' + LB ^ i * ((x + LB * value (w' ++ [a1])) + LB * value qh * value tabb)); [ring|].
    replace (x + LB * value (w' ++ [a1])) with (q * value tabb + value r) by lia. ring.
Qed.

(** The first limb of the quotient is 0 or 1. *)
Lemma divnorm_first w tabb (q : Z) :
  limbs w -> limbs tabb -> length w = length tabb -> value w < 2 * value tabb ->
  q = (if mp_cmp w tabb <? 0 then 0 else 1) ->
  let w' := if negb (q =? 0) then (mp_sub_limbs w tabb 0).1 else w in
  limbs w' /\ length w' = length w /\ value w = value w' + q * value tabb /\ value w' < value tabb /\ 0 <= q <= 1.
Proof.
  intros Hw Hb Hn Hv ->. cbv zeta. rewrite (mp_cmp_spec w tabb) by done.
  destruct (Z.compare_spec (value w) (value tabb)) as [E|E|E]; cbn [sign_of Z.ltb Z.compare negb Z.eqb].
  2: split_and!; done || lia.
  all: destruct (mp_sub_spec w tabb 0 Hw Hb Hn ltac:(lia)) as [(Hl & Hln & Hval) Hc];
    destruct (mp_sub_limbs w tabb 0) as [r c]; cbn [fst snd] in *; pose proof (value_bound r Hl);
    pose proof (base_pow_pos r) as Hp; rewrite <- Hln in Hval; change (LB ^ Z.of_nat (length r)) with (base_pow r) in Hval;
    (assert (c = 0 \/ c = 1) as [-> | ->] by lia); split_and!; try done; lia.
Qed.

(** The schoolbook division of [taba] by [tabb] leaves the quotient in [tabq] and
    the remainder in the low limbs of [taba]. *)
Definition is_division (a : Z) (tabb : list Z) (na : Z) '(tabq, taba) : Prop :=
  let nb := zlen tabb in
  limbs tabq /\ zlen tabq = na - nb + 1 /\ limbs taba /\ zlen taba = na /\
  a = value tabq * value tabb + value (take (Z.to_nat nb) taba) /\ value (take (Z.to_nat nb) taba) < value tabb.

Definition normalized_limbs (tabb : list Z) : Prop := limbs tabb /\ exists bl b1, tabb = bl ++ [b1] /\ normalized b1.

Lemma normalized_bound tabb : normalized_limbs tabb -> base_pow tabb <= 2 * value tabb < 2 * base_pow tabb.
Proof.
  intros (Hl & bl & b1 & -> & Hn). pose proof (value_bound _ Hl). split; [|lia].
  apply Forall_app in Hl as [Hl _]. rewrite value_snoc, base_pow_app. change (base_pow [b1]) with LB.
  pose proof (value_bound bl Hl). pose proof (base_pow_pos bl). destruct Hn as [Hn1 Hn2].
  assert (base_pow bl * LB <= base_pow bl * (2 * b1)) by (apply Z.mul_le_mono_nonneg_l; lia). lia.
Qed.

(** The highest bit of a number that is at least half of the power of its length. *)
Lemma normalized_of_value t : limbs t -> 0 < zlen t -> base_pow t <= 2 * value t -> normalized_limbs t.
Proof.
  intros Hl Hz Hn. split; [done|]. destruct (snoc_cases t) as (bl & b1 & ->); [done|]. exists bl, b1. split; [done|].
  pose proof Hl as Hl2. apply Forall_app in Hl2 as [Hbl Hb1]. inversion_clear Hb1 as [|? ? Hb _]. u64_ranges. pose proof (value_bound bl Hbl) as Hbb.
  rewrite value_snoc, base_pow_app in Hn. change (base_pow [b1]) with LB in Hn. split; [|lia]. pose proof (base_pow_pos bl) as Hp.
  assert (LB < 2 * (b1 + 1)); [|change LB with (2 * 2 ^ 63) in *; lia]. apply Z.mul_lt_mono_pos_l with (base_pow bl); lia.
Qed.

Lemma normalized_limbs_pos tabb : normalized_limbs tabb -> 0 < zlen tabb.
Proof. intros (_ & bl & b1 & -> & _). pose proof (zlen_nonneg bl). zlen_lia. Qed.

Lemma mp_divnorm_base_spec tabq taba tabb :
  limbs tabq -> limbs taba -> normalized_limbs tabb -> zlen tabb <= zlen taba -> zlen tabq = zlen taba - zlen tabb + 1 ->
  zlen taba <= 2 ^ 30 -> post (mp_divnorm_base tabq taba tabb) (is_division (value taba) tabb (zlen taba)).
Proof.
  intros Hlq Hla Hnb Hle Hzq Hmax. pose proof (normalized_bound tabb Hnb) as Hbb. pose proof (normalized_limbs_pos tabb Hnb) as Hpos.
  destruct Hnb as (Hlb & bl & b1 & Eb & Hn1).
  unfold mp_divnorm_base. set (nb := zlen tabb) in *. set (n := zlen taba - nb).
  assert (rd tabb (nb - 1) = Ret b1) as ->. { unfold nb. rewrite Eb. apply rd_at_mid. rewrite zlen_app. change (zlen [b1]) with 1. lia. } cbn [obind].
  destruct (block_split taba n nb) as (low & w & hi & Ea & Hlow & Hw); [lia|lia|lia|].
  assert (hi = []) as ->.
  { assert (zlen taba = n + nb) as Hna by (unfold n; lia). rewrite Ea, !zlen_app in Hna. destruct hi; [done|zlen_lia]. } rewrite app_nil_r in Ea.
  assert (rd_slice taba n nb = Ret w) as ->.
  { rewrite Ea, <- Hlow, <- Hw. rewrite <- (app_nil_r w) at 1. apply rd_slice_mid. }
  cbn [obind]. destruct (snoc_cases tabq) as (ql & y & Eq); [lia|]. rewrite Eq.
  assert (zlen ql = n) as Hql by (rewrite Eq in Hzq; unfold n; zlen_lia). rewrite wr_app by lia. cbn [obind].
  rewrite Ea in Hla. apply Forall_app in Hla as [Hll Hlw]. rewrite Eq in Hlq. apply Forall_app in Hlq as [Hlq _].
  assert (length w = length tabb) as Hwn by (unfold zlen, nb in *; unfold zlen in *; lia).
  pose proof (value_bound w Hlw) as Hwb. rewrite (base_pow_length w tabb Hwn) in Hwb.
  destruct (divnorm_first w tabb _ Hlw Hlb Hwn ltac:(lia) eq_refl) as (Hlw' & Hwn' & Ew & Hlt & Hq).
  set (q := if mp_cmp w tabb <? 0 then 0 else 1) in *. set (w' := if negb (q =? 0) then _ else _) in *.
  assert ((if negb (q =? 0) then let* (w, _) := mp_sub w tabb 0 in wr_slice taba n w else Ret taba) = Ret (low ++ w')) as ->.
  { rewrite mp_sub_in by lia. unfold w' in *. destruct (mp_sub_limbs w tabb 0) as [w1 k1] eqn:Esub. cbn [obind fst] in *. rewrite Ea. destruct (negb (q =? 0)); [|done]. rewrite <- Hlow.
    rewrite <- (app_nil_r w) at 1. rewrite wr_slice_part by (unfold zlen; lia). by rewrite app_nil_r. }
  cbn [obind]. set (inv := if UDIV1NORM_THRESHOLD <=? n then udiv1norm_init b1 else 0).
  assert (inv = udiv1norm_init b1 \/ inv = 0) as Hinv by (unfold inv; destruct (_ <=? _); auto).
  eapply post_mono; [apply (post_down _ (divnorm_inv (value taba) tabb (zlen taba)) n)|].
  - unfold n. lia.
  - intros i s Hi. apply (divnorm_step_spec _ _ bl); try done; [lia|]. unfold n, nb in *. lia.
  - exists low, w', [], ql, [q]. rewrite app_nil_r. split_and!; try done.
    + rewrite Hwn'. done.
    + rewrite Ea. zlen_lia.
    + rewrite zlen_app, Hql. change (zlen [q]) with 1. unfold n, nb. done.
    + by apply limbs_app.
    + apply limbs_app; [done|]. constructor; [|done]. red. lia.
    + rewrite Ea, value_app. unfold base_pow. rewrite Hlow, Ew. cbn [value]. ring.
  - intros [tabq' taba'] (low' & r & hi & ql' & qh & -> & -> & Hlow' & Hql' & Hr & Hz1 & Hz2 & Hl1 & Hl2 & Hlt' & Ev).
    destruct low'; [|zlen_lia]. destruct ql'; [|zlen_lia]. cbn [app value] in *. unfold is_division.
    assert (Z.to_nat (zlen tabb) = length r) as -> by (unfold zlen; lia). rewrite take_app_length.
    split_and!; try done. rewrite Z.pow_0_r in Ev. lia.
Qed.

(** * The division with a large divisor *)

Section DivSpec.
Context `{FM : FftMul}.

(** Total correctness of a division routine on the operands that [P] selects. *)
Definition divides (div : list Z -> list Z -> list Z -> alloc_m (list Z * list Z)) (P : Z -> Z -> Prop) : Prop :=
  forall tabq taba tabb, limbs tabq -> limbs taba -> normalized_limbs tabb -> zlen tabb <= zlen taba ->
    zlen tabq = zlen taba - zlen tabb + 1 -> P (zlen taba) (zlen tabb) ->
    mpost (div tabq taba tabb) (is_division (value taba) tabb (zlen taba)).

Lemma mp_divnorm_one tabq taba b1 :
  limbs taba -> normalized b1 -> 1 <= zlen taba -> zlen tabq = zlen taba ->
  mpost (let '(tabr, r) := mp_div1norm taba b1 0 in
         let? tabq := lift (wr_slice tabq 0 tabr) in
         let? taba := lift (wr taba 0 r) in
         mret (tabq, taba)) (is_division (value taba) [b1] (zlen taba)).
Proof using.
  intros Hla Hn1 Hna Hzq. pose proof (mp_div1norm_spec taba b1 0 Hn1 Hla ltac:(destruct Hn1; lia)) as H.
  destruct (mp_div1norm taba b1 0) as [tabr r]. destruct H as (Hlr & Hnr & Hr & Hv).
  assert (zlen tabr = zlen tabq) as Hzr by (unfold zlen in *; lia).
  pose proof (wr_slice_part [] tabq [] tabr Hzr) as E. cbn [app] in E. rewrite !app_nil_r in E. change (zlen []) with 0 in E.
  mstep. rewrite E. cbn [post]. destruct taba as [|x taba]; [done|]. mstep.
  change (x :: taba) with ([] ++ x :: taba). rewrite wr_app by done. cbn [post app]. mstep. unfold is_division.
  change (zlen [b1]) with 1. change (take (Z.to_nat 1) (r :: taba)) with [r]. cbn [value] in *.
  inversion_clear Hla as [|? ? Hx Hla']. destruct Hn1 as [Hn1 Hn2]. split_and!; try done; try lia.
  constructor; [|done]. change (0 <= r < LB). lia.
Qed.

Lemma mp_divnorm_with_spec large (P : Z -> Z -> Prop) :
  (forall na nb, P na nb -> na <= 2 ^ 30) ->
  divides large (fun na nb => P na nb /\ DIVNORM_LARGE_THRESHOLD <= Z.min (na - nb) nb) ->
  divides (mp_divnorm_with large) P.
Proof using.
  intros Hmax Hlarge tabq taba tabb Hlq Hla Hnb Hle Hzq HP. pose proof (normalized_limbs_pos tabb Hnb). unfold mp_divnorm_with.
  destruct (Z.eqb_spec (zlen tabb) 1) as [E1|Hne].
  - destruct Hnb as (Hlb & bl & b1 & -> & Hn1). assert (bl = []) as -> by (destruct bl; [done|zlen_lia]). cbn [app] in *.
    mstep. change (rd [b1] (zlen [b1] - 1)) with (Ret b1). cbn [post]. apply mp_divnorm_one; try done; lia.
  - destruct (Z.leb_spec DIVNORM_LARGE_THRESHOLD (Z.min (zlen taba - zlen tabb) (zlen tabb))).
    + by apply Hlarge.
    + mstep. apply mp_divnorm_base_spec; try done. by apply (Hmax _ (zlen tabb)).
Qed.

Lemma mp_divnorm_few_spec : divides mp_divnorm_few (fun na nb => na <= 2 ^ 30 /\ Z.min (na - nb) nb < DIVNORM_LARGE_THRESHOLD).
Proof using.
  apply mp_divnorm_with_spec; [by intros ? ? [? ?]|]. intros tabq taba tabb ? ? ? ? ? [? ?]. lia.
Qed.

(** ** The reciprocal *)

(** [x] is the reciprocal of [a], of [n] limbs, up to two units below. *)
Definition is_recip (a n : Z) (tabr : list Z) : Prop :=
  limbs tabr /\ zlen tabr = n + 1 /\ LB ^ n <= value tabr < 2 * LB ^ n /\
  a * value tabr < LB ^ (2 * n) < a * (value tabr + 2).

(** Bounds that every value between the exact reciprocal less two and the exact
    reciprocal satisfies. *)
Lemma recip_range a B x : 0 < B -> B <= 2 * a -> a < B -> a * x < B * B -> B * B < a * (x + 2) -> B <= x < 2 * B.
Proof using.
  intros HB Ha1 Ha2 Hx1 Hx2. split.
  - destruct (Z.le_gt_cases B x) as [|Hlt]; [done|].
    assert (a * (x + 2) <= a * (B + 1)) by (apply Z.mul_le_mono_nonneg_l; lia).
    assert (a * (B + 1) <= (B - 1) * (B + 1)) by (apply Z.mul_le_mono_nonneg_r; lia). lia.
  - destruct (Z.lt_ge_cases x (2 * B)) as [|Hge]; [done|].
    assert (a * (2 * B) <= a * x) by (apply Z.mul_le_mono_nonneg_l; lia).
    assert (B * B <= 2 * a * B) by (apply Z.mul_le_mono_nonneg_r; lia). lia.
Qed.

Lemma is_recip_intro taba tabr :
  normalized_limbs taba -> limbs tabr -> zlen tabr = zlen taba + 1 ->
  value taba * value tabr < LB ^ (2 * zlen taba) < value taba * (value tabr + 2) ->
  is_recip (value taba) (zlen taba) tabr.
Proof using.
  intros Hn Hl Hz [H1 H2]. pose proof (normalized_bound taba Hn) as [Hb1 Hb2]. unfold base_pow in *.
  pose proof (value_bound taba (proj1 Hn)) as Hb. unfold base_pow in Hb. pose proof (zlen_nonneg taba).
  assert (LB ^ (2 * zlen taba) = LB ^ zlen taba * LB ^ zlen taba) as E by (rewrite <- Z.pow_add_r by lia; f_equal; lia).
  pose proof (LB_pow_pos (zlen taba) ltac:(lia)).
  split; [done|]. split; [done|]. split; [|done]. rewrite E in *. apply (recip_range (value taba)); lia.
Qed.
End DivSpec.
