(* ===== verification/MpRecip.v ===== *)
(** Correctness of the division of large numbers in [libbf.c].

    [mp_recip] computes the reciprocal of a number by Newton's iteration: from the
    reciprocal of the upper half of its limbs, one step gives that of all.
    [mp_divnorm_large] multiplies by it and corrects.  Both end within the fuel
    that their loops have, and the division is exact. *)
From Stdlib Require Import ZArith Lia Bool List.
From stdpp Require Import base tactics list numbers.
From S2P Require Import Prelude Alloc Limb MpMul MpDiv.

(** * Newton's step *)

(** [x] is a reciprocal of the upper part of [a], reduced until [a * x] is below
    [N * H]; [L], [H], [N = L * H] and [K = H * H / L] are powers of the base. *)
Section Newton.
Variables L H N K a x : Z.
Hypothesis HL : 0 < L.
Hypothesis HH : LB * L <= H.
Hypothesis EK : K * L = H * H.

Lemma newton_K_pos : 0 < K.
Proof using HL HH EK. clear - HL HH EK. pose proof LB_pos. nia. Qed.

Hypothesis EN : N = L * H.
Hypothesis Ha : N <= 2 * a < 2 * N.
Hypothesis Hx : H <= x < 2 * H.

Let D : Z := N * H - a * x.
Hypothesis HD : 0 < D < 2 * a.

Let U : Z := D / L * x.
Let x' : Z := x * L + U / K.

Lemma newton_upper : a * x' < N * N.
Proof using All.
  pose proof newton_K_pos as HK. pose proof LB_pos. assert (0 < H) as HH0 by nia.
  assert (D / L * L <= D) as HDm by (rewrite Z.mul_comm; apply Z.mul_div_le; lia).
  assert (U / K * K <= U) as HU by (rewrite Z.mul_comm; apply Z.mul_div_le; lia).
  assert (a * x = N * H - D) as ET by (unfold D; ring).
  assert (H * H * (a * x') <= N * N * (H * H) - D * D) as E.
  { rewrite <- EK at 1. replace (K * L * (a * x')) with (a * L * (x * L * K + U / K * K)) by (unfold x'; ring).
    transitivity (a * L * (x * L * K + U)); [apply Z.mul_le_mono_nonneg_l; nia|].
    replace (a * L * (x * L * K + U)) with (a * x * (K * L * L + D / L * L)) by (unfold U; ring). rewrite EK, ET.
    transitivity ((N * H - D) * (H * H * L + D)); [apply Z.mul_le_mono_nonneg_l; nia|]. rewrite EN. lia. }
  apply Z.mul_lt_mono_pos_l with (H * H); nia.
Qed.

Lemma newton_lower : N * N < a * (x' + 2).
Proof using All.
  pose proof newton_K_pos as HK. pose proof LB_pos. assert (0 < H) as HH0 by nia.
  assert (D - L < D / L * L) as HDm.
  { pose proof (Z.div_mod D L ltac:(lia)). pose proof (Z.mod_pos_bound D L HL). lia. }
  assert (U - K < U / K * K) as HU.
  { pose proof (Z.div_mod U K ltac:(lia)). pose proof (Z.mod_pos_bound U K HK). lia. }
  assert (a * x = N * H - D) as ET by (unfold D; ring). assert (0 < a * x) as HT by nia.
  assert (N * N * (H * H) - D * D - L * (N * H) - a * (H * H) <= H * H * (a * x')) as E.
  { rewrite <- EK at 3. replace (K * L * (a * x')) with (a * L * (x * L * K + U / K * K)) by (unfold x'; ring).
    transitivity (a * L * (x * L * K + (U - K))); [|apply Z.mul_le_mono_nonneg_l; nia].
    replace (a * L * (x * L * K + (U - K))) with (a * x * (K * L * L + D / L * L) - a * (K * L)) by (unfold U; ring). rewrite EK, ET.
    assert ((N * H - D) * (H * H * L + (D - L)) <= (N * H - D) * (H * H * L + D / L * L)) as E2 by (apply Z.mul_le_mono_nonneg_l; [clear - ET HT; lia|clear - HDm; lia]).
    assert (N * N * (H * H) - D * D - L * (N * H) + L * D = (N * H - D) * (H * H * L + (D - L))) as E3 by (rewrite EN; ring).
    assert (0 <= L * D) as HLD by (apply Z.mul_nonneg_nonneg; apply Z.lt_le_incl; [exact HL|apply HD]).
    clear - E2 E3 HLD. lia. }
  assert (D * D + L * (N * H) < a * (H * H)) as Hlt.
  { assert (D * D < 2 * a * (2 * N)) by (apply Z.mul_lt_mono_nonneg; lia).
    assert (L * (N * H) = N * N) as -> by (rewrite EN; ring).
    assert (N * N <= 2 * a * N) by (apply Z.mul_le_mono_nonneg_r; lia).
    assert (a * (6 * L * H) <= a * (H * H)).
    { apply Z.mul_le_mono_nonneg_l; [lia|]. apply Z.mul_le_mono_nonneg_r; [lia|]. rewrite LB_val in *. lia. }
    assert (a * N = a * L * H) as EaN by (rewrite EN; ring). lia. }
  apply Z.mul_lt_mono_pos_l with (H * H); [nia|]. clear - E Hlt. lia.
Qed.
End Newton.

(** * The reciprocal *)

Lemma LB_pow_add m n : 0 <= m -> 0 <= n -> LB ^ (m + n) = LB ^ m * LB ^ n.
Proof. apply Z.pow_add_r. Qed.

(** A block is cut at [n]. *)
Lemma cut_at (l : list Z) n :
  limbs l -> 0 <= n <= zlen l ->
  exists p q, l = p ++ q /\ zlen p = n /\ limbs p /\ limbs q /\ base_pow p = LB ^ n.
Proof.
  intros Hl Hn. exists (take (Z.to_nat n) l), (drop (Z.to_nat n) l). rewrite take_drop.
  assert (zlen (take (Z.to_nat n) l) = n) as E by (apply zlen_take; lia). unfold base_pow. rewrite E. split_and!; auto with limbs.
Qed.

Lemma rd_slice_prefix {A : Type} (p q : list A) n : n = zlen p -> rd_slice (p ++ q) 0 n = Ret p.
Proof. intros ->. exact (rd_slice_mid [] p q). Qed.

Lemma rd_slice_suffix {A : Type} (p q : list A) i n : i = zlen p -> n = zlen q -> rd_slice (p ++ q) i n = Ret q.
Proof. intros -> ->. pose proof (rd_slice_mid p q []) as E. by rewrite app_nil_r in E. Qed.

Lemma wr_slice_prefix {A : Type} (p q t : list A) : zlen t = zlen p -> wr_slice (p ++ q) 0 t = Ret (t ++ q).
Proof. intros H. exact (wr_slice_part [] p q t H). Qed.

Lemma wr_slice_suffix {A : Type} (p q t : list A) i : i = zlen p -> zlen t = zlen q -> wr_slice (p ++ q) i t = Ret (p ++ t).
Proof. intros -> H. pose proof (wr_slice_part p q [] t H) as E. by rewrite !app_nil_r in E. Qed.

(** The highest limb of a block of [n + 1] is not zero exactly when the value is
    at least [LB ^ n]. *)
Lemma top_limb l n :
  limbs l -> zlen l = n + 1 -> 0 <= n -> post (rd l n) (fun t => in_u64 t /\ (t = 0 <-> value l < LB ^ n)).
Proof.
  intros Hl Hz Hn. destruct (snoc_cases l) as (k & x & ->); [lia|]. apply Forall_app in Hl as [Hk Hx].
  inversion_clear Hx as [|? ? Hx' _]. assert (zlen k = n) as Ek by zlen_lia. rewrite rd_at_mid by lia. cbn [post].
  split; [done|]. rewrite value_snoc. pose proof (value_bound k Hk) as Hb. unfold base_pow in *. rewrite Ek in *. u64_ranges.
  split; [intros ->; lia|]. intros. destruct (Z.eq_dec x 0); [done|]. nia.
Qed.

(** The loop that brings the product below [LB ^ (n + h)]. *)
Lemma recip_reduce_spec taba h k : let n := zlen taba in let a := value taba in forall tabxh tabt,
  normalized_limbs taba -> n < 2 ^ 31 -> 0 < h ->
  limbs tabxh -> limbs tabt -> zlen tabxh = h + 1 -> zlen tabt = n + h + 1 ->
  value tabt = a * value tabxh -> LB ^ h <= value tabxh -> value tabt < LB ^ (n + h) + Z.of_nat k * a ->
  post (iter (S k) (recip_reduce taba h) (tabxh, tabt)) (fun '(x, t) =>
    limbs x /\ limbs t /\ zlen x = h + 1 /\ zlen t = n + h + 1 /\ value t = a * value x /\
    LB ^ h <= value x <= value tabxh /\ value t < LB ^ (n + h) /\ (value x = value tabxh \/ LB ^ (n + h) <= value t + a)).
Proof.
  intros n a. pose proof (zlen_nonneg taba) as Hn0. fold n in Hn0.
  assert (n = zlen taba) as En by done. assert (a = value taba) as Ea by done. clearbody n a.
  induction k as [|k IH]; intros tabxh tabt Hn Hmax Hh Hlx Hlt Hzx Hzt Ht Hx Hb; rewrite iter_S; unfold recip_reduce at 1.
  all: rewrite <- En; apply post_bind, post_bind;
    (eapply post_mono; [exact (top_limb tabt (n + h) Hlt Hzt ltac:(lia))|]); intros top [_ Htop].
  { rewrite (proj2 Htop) by lia. cbn [Z.eqb negb post]. split_and!; try done; auto; lia. }
  destruct (Z.eqb_spec top 0) as [E|E]; cbn [negb].
  { cbn [post]. split_and!; try done; auto; tauto. }
  assert (LB ^ (n + h) <= value tabt) as Hge by (destruct (Z.lt_ge_cases (value tabt) (LB ^ (n + h))); tauto).
  pose proof (value_bound taba (proj1 Hn)) as Hab. pose proof (normalized_bound taba Hn) as Hnb. unfold base_pow in Hab, Hnb.
  rewrite <- En, <- ?Ea in Hab, Hnb. rewrite LB_pow_add in Hge by lia. pose proof (LB_pow_pos h ltac:(lia)) as Hhp.
  assert (LB ^ h < value tabxh) as Hx1.
  { apply Z.mul_lt_mono_pos_l with a; [lia|]. rewrite Ht in Hge. eapply Z.lt_le_trans; [|exact Hge]. apply Z.mul_lt_mono_pos_r; lia. }
  destruct (mp_sub_ui_exact tabxh 1 Hlx ltac:(done) ltac:(lia)) as (Hl1 & Hz1 & Hv1).
  destruct (cut_at tabt n Hlt ltac:(lia)) as (t0 & t1 & -> & Hz0 & Hl0 & Hlt1 & _).
  rewrite zlen_app in Hzt. rewrite rd_slice_prefix by done. cbn [obind].
  assert (a <= value (t0 ++ t1)) as Hle.
  { rewrite Ht. rewrite <- (Z.mul_1_r a) at 1. apply Z.mul_le_mono_nonneg_l; lia. }
  rewrite mp_sub_in by lia. destruct (mp_sub_limbs t0 taba 0) as [r0 c] eqn:Es. cbn [obind].
  destruct (sub_in_block t0 t1 taba r0 c Hl0 Hlt1 (proj1 Hn) ltac:(apply zlen_length; lia) ltac:(lia) (eq_sym Es)) as (Hlr & Hnr & Hns & Hvr).
  rewrite wr_slice_prefix by (unfold zlen in *; lia). cbn [obind].
  rewrite rd_slice_suffix by (unfold zlen in *; lia). cbn [obind].
  rewrite wr_slice_suffix by (unfold zlen in *; lia). cbn [obind post].
  eapply post_mono; [apply IH; try done|].
  - lia.
  - rewrite zlen_app. unfold zlen in *. lia.
  - rewrite Hvr, Hv1, Ht, Ea. ring.
  - lia.
  - rewrite Hvr. lia.
  - intros [x t] (? & ? & ? & ? & Hvt & ? & ? & Hor). split_and!; try done; [lia|lia|].
    right. destruct Hor as [Ex|?]; [|done]. rewrite LB_pow_add, Hvt, Ex, Hv1 by lia. rewrite Ht in Hge. lia.
Qed.

Section Recip.
Context `{FM : FftMul}.

Lemma mp_recip_base_spec taba :
  normalized_limbs taba -> zlen taba <= 2 -> mpost (mp_recip_base taba) (is_recip (value taba) (zlen taba)).
Proof using.
  intros Hn Hle. pose proof (normalized_limbs_pos taba Hn) as Hpos. pose proof (normalized_bound taba Hn) as Hb. unfold base_pow in Hb.
  set (n := zlen taba) in *. pose proof (LB_pow_pos n ltac:(lia)) as HB.
  unfold mp_recip_base. fold n. mstep. apply mpost_malloc2; [lia|lia|]. intros tabu tabt Hlu Hzu Hlt Hzt.
  destruct (snoc_cases tabu) as (u & y & ->); [lia|]. assert (zlen u = 2 * n) as Hu by zlen_lia.
  mstep. rewrite wr_slice_prefix by (rewrite zlen_replicate; lia). cbn [post]. mstep.
  rewrite wr_app by (rewrite zlen_replicate; lia). cbn [post]. mstep.
  set (one := replicate (Z.to_nat (2 * n)) 0 ++ [1]).
  assert (zlen one = 2 * n + 1) as Hone by (unfold one; rewrite zlen_app, zlen_replicate; change (zlen [1]) with 1; lia).
  assert (value one = LB ^ (2 * n)) as Vone.
  { unfold one. rewrite value_snoc, value_replicate_0. unfold base_pow. rewrite zlen_replicate, Z2Nat.id by lia. ring. }
  assert (limbs one) as Lone by (apply limbs_app; [auto with limbs|by constructor]).
  assert (LB ^ (2 * n) = LB ^ n * LB ^ n) as E2 by (rewrite <- LB_pow_add by lia; f_equal; lia).
  assert (LB ^ (n + 1) = LB ^ n * LB) as E1 by (rewrite LB_pow_add by lia; f_equal).
  eapply mpost_mono; [apply mp_divnorm_few_spec; fold n; try done; rewrite ?Hone; unfold DIVNORM_LARGE_THRESHOLD; lia|].
  intros [q r] (Hlq & Hzq & Hlr & Hzr & Hval & Hrem). fold n in Hzq, Hval, Hrem. rewrite Hone in Hzq, Hzr. rewrite Vone, E2 in Hval.
  set (rv := value (take (Z.to_nat n) r)) in *. pose proof (value_bound _ (limbs_take (Z.to_nat n) r Hlr)) as Hr0. fold rv in Hr0.
  pose proof (value_bound q Hlq) as Hq0.
  assert (value q <= 2 * LB ^ n) as Hq.
  { apply Z.mul_le_mono_pos_r with (value taba); [lia|]. nia. }
  mstep. apply post_slice; [done|lia|lia|lia|]. intros tabr Hlt' Hzt' Vt. rewrite Z.pow_0_r, Z.div_1_r in Vt.
  rewrite Z.mod_small in Vt by (rewrite E1, LB_val in *; lia).
  mstep. rewrite rd_slice_in by lia. cbn [post]. mstep. change (Z.to_nat 0) with 0%nat. rewrite drop_0, mp_scan_nz_spec by auto with limbs.
  fold rv. destruct (Z.eqb_spec rv 0) as [E0|E0]; cbn [negb b2z Z.eqb]; apply is_recip_intro; try done; fold n; rewrite ?E2.
  - destruct (mp_sub_ui_spec tabr 1 Hlt' ltac:(done)) as [(? & ? & ?) ?]. done.
  - destruct (mp_sub_ui_spec tabr 1 Hlt' ltac:(done)) as [(? & Hn1 & ?) ?]. cbn [fst] in *. unfold zlen in *. lia.
  - assert (0 < value q) by nia. destruct (mp_sub_ui_exact tabr 1 Hlt' ltac:(done) ltac:(lia)) as (_ & _ & ->). rewrite Vt. nia.
  - rewrite Vt. nia.
Qed.

Lemma mpost_lift3 {A B C D E : Type} (m : outcome (A * E)) (f : A -> outcome B) (g : A -> B -> outcome C) (k : C -> alloc_m D) (Q : D -> Prop) :
  post (let* (a, _) := m in let* b := f a in g a b) (fun c => mpost (k c) Q) ->
  mpost (let? (a, _) := lift m in let? b := lift (f a) in let? c := lift (g a b) in k c) Q.
Proof using.
  intros H h. unfold mbind, lift. destruct m as [[a e]|]; [|done]. cbn [obind] in *. destruct (f a) as [b|]; [|done]. cbn [obind] in *.
  destruct (g a b); [exact (H h)|done].
Qed.

(** The negation of [tabt], with the highest limb incremented, is
    [LB ^ (n + h)] less its value. *)
Lemma recip_complement tabt m :
  limbs tabt -> zlen tabt = m + 1 -> 0 <= m -> m + 1 < 2 ^ 31 -> 0 < value tabt < LB ^ m ->
  post (let* (tabt, _) := mp_neg tabt 0 in let* t := rd tabt m in wr tabt m (u64 (t + 1))) (fun r =>
    limbs r /\ zlen r = m + 1 /\ value r = LB ^ m - value tabt).
Proof using.
  intros Hl Hz Hm Hmax Hv. rewrite mp_neg_in by lia. destruct (mp_neg_spec tabt 0 Hl ltac:(lia)) as [(Hlr & Hnr & Hvr) Hk].
  destruct (mp_neg_limbs tabt 0) as [r k]. cbn [obind fst snd] in *. assert (zlen r = m + 1) as Hzr by (unfold zlen in *; lia).
  destruct (snoc_cases r) as (p & x & ->); [lia|]. assert (zlen p = m) as Hp by zlen_lia.
  apply Forall_app in Hlr as [Hlp Hx]. inversion_clear Hx as [|? ? Hx' _]. rewrite rd_at_mid by done. cbn [obind].
  rewrite wr_app by done. cbn [post]. rewrite value_snoc in *. unfold base_pow in *. rewrite Hp in *.
  pose proof (value_bound p Hlp) as Hb. unfold base_pow in Hb. rewrite Hp in Hb. u64_ranges.
  change (LB ^ Z.of_nat (length tabt)) with (LB ^ zlen tabt) in Hvr. rewrite Hz, LB_pow_add, Z.pow_1_r in Hvr by lia.
  assert (x - LB * k = -1) as Ex by nia. assert (k = 1) as -> by (rewrite LB_val in *; lia). assert (x = LB - 1) as -> by lia.
  replace (LB - 1 + 1) with LB by ring. change (u64 LB) with 0. split_and!; [|zlen_lia|lia].
  apply limbs_app; [done|]. by constructor.
Qed.

(** The last part of the step: the block of the result from the parts of the
    product [tabu] and the reciprocal [tabxh] of the upper half. *)
Lemma recip_assemble tabxh tabu h l :
  limbs tabxh -> limbs tabu -> zlen tabxh = h + 1 -> 0 <= l -> l < h -> 3 * h <= zlen tabu ->
  LB ^ h <= value tabxh -> value tabu < LB ^ (3 * h) -> value tabxh + value tabu / LB ^ (2 * h) < 2 * LB ^ h ->
  mpost (let k := 2 * h - l in
         let? low := lift (rd_slice tabu k l) in
         let? u := lift (rd_slice tabu (2 * h) h) in
         let? xl := lift (rd_slice tabxh 0 h) in
         let? tabxh := lift (wr_slice tabxh 0 (mp_add xl u 0).1) in
         mret (low ++ tabxh))
    (fun r => limbs r /\ zlen r = h + l + 1 /\ value r = value tabxh * LB ^ l + value tabu / LB ^ (2 * h - l)).
Proof using.
  intros Hlx Hlu Hzx Hl Hlh Hzu Hx Hu Hlt. cbv zeta. mstep. apply post_slice; [done|idx|idx|idx|]. intros low Hll Hzl Hvl.
  mstep. apply post_slice; [done|idx|idx|idx|]. intros u Hlu' Hzu' Hvu.
  destruct (snoc_cases tabxh) as (xl & x & ->); [idx|]. assert (zlen xl = h) as Hzxl by zlen_lia.
  apply Forall_app in Hlx as [Hlxl Hx']. inversion_clear Hx' as [|? ? Hx'' _].
  mstep. rewrite rd_slice_prefix by done. cbn [post]. mstep.
  rewrite value_snoc in *. unfold base_pow in *. rewrite Hzxl in *. pose proof (value_bound xl Hlxl) as Hb. unfold base_pow in Hb. rewrite Hzxl in Hb.
  pose proof (LB_pow_pos h ltac:(lia)) as HH. pose proof (value_bound tabu Hlu) as Hub.
  assert (value tabu / LB ^ (2 * h) < LB ^ h) as Hq.
  { apply Z.div_lt_upper_bound; [apply LB_pow_pos; idx|]. rewrite <- LB_pow_add by idx. by replace (2 * h + h) with (3 * h) by idx. }
  assert (0 <= value tabu / LB ^ (2 * h)) by (apply Z.div_pos; [apply Hub|apply LB_pow_pos; idx]).
  rewrite (Z.mod_small (value tabu / LB ^ (2 * h))) in Hvu by lia.
  assert (x = 1) as -> by (clear - Hx Hlt Hb HH H; nia).
  destruct (mp_add_exact xl u Hlxl Hlu' ltac:(apply zlen_length; idx)) as (Hla & Hza & Hva & _).
  { unfold base_pow. rewrite Hzxl. lia. }
  rewrite wr_slice_prefix by idx. cbn [post]. mstep. split_and!.
  - apply limbs_app; [done|]. apply limbs_app; [done|]. by constructor.
  - zlen_lia.
  - rewrite value_app, value_snoc. unfold base_pow. rewrite Hzl, Hza, Hzxl, Hvl, Hva, Hvu.
    assert (value tabu / LB ^ (2 * h) = value tabu / LB ^ (2 * h - l) / LB ^ l) as E.
    { rewrite Z.div_div, <- LB_pow_add by (idx || (apply Z.pow_nonzero; [done|idx]) || (apply LB_pow_pos; idx)).
      do 2 f_equal. idx. }
    rewrite E. pose proof (Z.div_mod (value tabu / LB ^ (2 * h - l)) (LB ^ l)) as Ed.
    specialize (Ed ltac:(apply Z.pow_nonzero; [done|idx])). clear - Ed. lia.
Qed.

(** The sizes of one step of [mp_recip]. *)
Lemma recip_sizes n :
  2 < n -> let l := (n - 1) / 2 in let h := n - l in 0 < l /\ l < h /\ h < n /\ n + 1 <= 2 * h <= n + 2.
Proof using. intros Hn. cbv zeta. Z.to_euclidean_division_equations. lia. Qed.

(** The product of the operand by the reciprocal [x] of its upper part [ah]. *)
Lemma recip_product_bound a ah al x L H :
  0 < L -> 0 < H -> a = al + L * ah -> 0 <= al < L -> L * H <= 2 * a -> ah * x < H * H -> H * H < ah * (x + 2) -> H <= x < 2 * H ->
  a * x < L * H * H + 4 * a /\ (L * H * H < a * x + 2 * a).
Proof using.
  intros HL HH -> Hal Ha2 H1 H2 Hx. split.
  - assert (al * x <= L * (2 * H)) by (apply Z.mul_le_mono_nonneg; lia).
    assert (L * (ah * x) <= L * (H * H - 1)) by (apply Z.mul_le_mono_nonneg_l; lia). lia.
  - assert (L * (H * H + 1) <= L * (ah * (x + 2))) by (apply Z.mul_le_mono_nonneg_l; lia).
    assert (0 <= al * (x + 2)) by (apply Z.mul_nonneg_nonneg; lia). lia.
Qed.

(** One step of Newton's iteration on the limbs, from the reduced product of the
    operand by [x]. *)
Lemma recip_finish_spec l h a tabu x t :
  0 < l -> l < h -> l + h + h + 1 < 2 ^ 31 -> limbs tabu -> zlen tabu = l + h + 2 * h - l + 2 -> limbs x -> limbs t -> zlen x = h + 1 -> zlen t = l + h + h + 1 ->
  LB ^ h <= value x < 2 * LB ^ h -> LB ^ l * LB ^ h <= 2 * a < 2 * (LB ^ l * LB ^ h) -> value t = a * value x ->
  0 < LB ^ l * LB ^ h * LB ^ h - value t < 2 * a ->
  mpost (recip_finish (l + h) l h tabu x t) (fun r => limbs r /\ zlen r = l + h + 1 /\
    a * value r < LB ^ (l + h) * LB ^ (l + h) < a * (value r + 2)).
Proof using.
  intros Hl Hlh Hmax Hlu Hzu Hlx Hlt Hzx Hzt Hx Ha Hvt HD.
  pose proof (LB_pow_pos l ltac:(idx)) as HL. pose proof (LB_pow_pos h ltac:(idx)) as HH.
  assert (LB * LB ^ l <= LB ^ h) as HLH by (rewrite <- Z.pow_succ_r by idx; apply LB_pow_le; idx).
  assert (LB ^ (2 * h - l) * LB ^ l = LB ^ h * LB ^ h) as EK by (rewrite <- !LB_pow_add by idx; f_equal; idx).
  assert (LB ^ (l + h + h) = LB ^ l * LB ^ h * LB ^ h) as EN by (by rewrite !LB_pow_add by idx).
  assert (LB ^ (l + h + h + 1 - l) = LB ^ h * LB ^ h * LB) as EM by (replace (l + h + h + 1 - l) with (h + h + 1) by idx; by rewrite !LB_pow_add, Z.pow_1_r by idx).
  remember (LB ^ l) as L eqn:EL. remember (LB ^ h) as H eqn:EH. remember (LB ^ (2 * h - l)) as K eqn:EKK.
  assert (1 <= H * H) as HHH by (clear - HH; nia).
  unfold recip_finish. cbv zeta. apply mpost_lift3.
  eapply post_mono; [apply (recip_complement t (l + h + h) Hlt Hzt); [idx|done|]|].
  { rewrite EN. split; [rewrite Hvt; apply Z.mul_pos_pos; clear - Hx HH Ha HL; nia|clear - HD; lia]. }
  intros d (Hld & Hzd & Hvd). rewrite EN in Hvd. mstep. apply post_slice; [done|idx|idx|idx|]. intros dm Hldm Hzdm Hvdm.
  rewrite <- EL, Hvd, EM in Hvdm. remember (L * H * H - value t) as D eqn:ED.
  assert (0 <= D / L < 2 * H) as Hdm.
  { split; [apply Z.div_pos; clear - HD HL; lia|apply Z.div_lt_upper_bound; clear - HD HL Ha; lia]. }
  rewrite Z.mod_small in Hvdm by (clear - Hdm HH; rewrite LB_val; nia).
  mstep. eapply mpost_mono; [apply mp_mul_spec; try done; idx|]. intros u (Hlu' & Hzu' & Hvu). rewrite Hvdm in Hvu.
  rewrite Hvt in ED.
  pose proof (newton_upper L H (L * H) K a (value x) HL HLH EK eq_refl Ha Hx) as Hup. rewrite <- ED, <- Hvu in Hup. specialize (Hup HD).
  pose proof (newton_lower L H (L * H) K a (value x) HL HLH EK eq_refl Ha Hx) as Hlo. rewrite <- ED, <- Hvu in Hlo. specialize (Hlo HD).
  assert (0 < L * H) as HLH0 by (apply Z.mul_pos_pos; done).
  assert (L * H <= 2 * a /\ a < L * H) as [Ha1 Ha2] by (clear - Ha; lia).
  pose proof (recip_range a (L * H) (value x * L + value u / K) HLH0 Ha1 Ha2 Hup Hlo) as [_ Hr].
  assert (LB ^ (2 * h) = K * L /\ LB ^ (3 * h) = H * H * H) as [E2h E3h].
  { rewrite EK, EH, <- !LB_pow_add by idx. split; f_equal; idx. }
  assert (value u < H * H * H) as Hu3.
  { rewrite Hvu. assert (4 <= H) by (clear - HLH HL; rewrite LB_val in *; lia).
    assert (D / L * value x <= 2 * H * (2 * H)) by (apply Z.mul_le_mono_nonneg; clear - Hdm Hx; lia).
    assert (4 * (H * H) < H * (H * H)) by (apply Z.mul_lt_mono_pos_r; clear - Hx H0 H1 HHH HLH HL; rewrite LB_val in *; lia). clear - H1 H2. lia. }
  pose proof (newton_K_pos L H K HL HLH EK) as HK.
  assert (value x + value u / LB ^ (2 * h) < 2 * H) as Hsum.
  { rewrite E2h, <- Z.div_div by (clear - HK HL; lia). apply Z.mul_lt_mono_pos_r with L; [done|].
    pose proof (Z.mul_div_le (value u / K) L HL) as Hd. clear - Hr Hd. lia. }
  eapply mpost_mono; [apply (recip_assemble x u h l); try done; rewrite <- ?EH, ?E3h; first [idx|apply Hx|done]|].
  cbn beta. intros r (Hlr & Hzr & Hvr). rewrite <- EL, <- EKK in Hvr. split; [done|]. split; [idx|].
  rewrite Hvr, LB_pow_add, <- EL, <- EH by idx. done.
Qed.
Lemma mp_recip_spec depth : forall taba,
  normalized_limbs taba -> zlen taba <= 2 ^ 30 -> zlen taba <= Z.of_nat depth -> mpost (mp_recip depth taba) (is_recip (value taba) (zlen taba)).
Proof using.
  induction depth as [|depth IH]; intros taba Hn Hmax Hd; pose proof (normalized_limbs_pos taba Hn) as Hpos; [lia|].
  cbn [mp_recip]. destruct (Z.leb_spec (zlen taba) 2) as [Hle|Hgt]; [by apply mp_recip_base_spec|].
  pose proof (recip_sizes (zlen taba) Hgt) as (Hl & Hlh & Hhn & H2h). set (l := (zlen taba - 1) / 2) in *.
  set (h := zlen taba - l) in *. assert (zlen taba = l + h) as En by (unfold h; lia). clearbody l h.
  pose proof (normalized_bound taba Hn) as Hab. pose proof (LB_pow_pos l ltac:(idx)) as HL. pose proof (LB_pow_pos h ltac:(idx)) as HH.
  pose proof (LB_pow_add l h ltac:(idx) ltac:(idx)) as EN. unfold base_pow in Hab. rewrite En, EN in Hab. rewrite En.
  mstep. apply mpost_malloc2; [idx|idx|]. intros tabt tabu Hlt Hzt Hlu Hzu.
  destruct (cut_at taba l (proj1 Hn) ltac:(idx)) as (al & ah & Eal & Hzal & Hlal & Hlah & Eb).
  assert (zlen ah = h) as Hzah by (rewrite Eal, zlen_app in En; lia).
  assert (normalized_limbs ah) as Hnah.
  { split; [done|]. destruct Hn as (_ & bl & b1 & E & Hb1). destruct (snoc_cases ah) as (k & y & ->); [lia|].
    rewrite E, app_assoc in Eal. apply app_inj_tail in Eal as [_ <-]. eauto. }
  mstep. assert (rd_slice taba l h = Ret ah) as -> by (rewrite Eal; apply rd_slice_suffix; idx). cbn [post].
  mstep. eapply mpost_mono; [apply IH; [done|idx|idx]|]. intros tabxh (Hlx & Hzx & Hxr & Hx1 & Hx2). rewrite Hzah in *.
  assert (LB ^ (2 * h) = LB ^ h * LB ^ h) as E2h by (rewrite <- LB_pow_add by idx; f_equal; idx). rewrite E2h in *.
  assert (value taba = value al + LB ^ l * value ah) as Eav by (rewrite Eal, value_app, Eb; done).
  pose proof (value_bound al Hlal) as Halb. rewrite Eb in Halb.
  destruct (recip_product_bound (value taba) (value ah) (value al) (value tabxh) (LB ^ l) (LB ^ h)) as [Hp1 Hp2]; try done; [lia|].
  mstep. eapply mpost_mono; [apply mp_mul_spec; try done; try apply Hn; idx|]. clear tabt Hlt Hzt. intros tabt (Hlt & Hzt & Hvt).
  mstep. eapply post_mono; [apply (recip_reduce_spec taba h 5 tabxh tabt Hn)|]; try done; try idx; [apply Hxr|..].
  { rewrite En, !LB_pow_add by idx. change (Z.of_nat 5) with 5. rewrite Hvt. clear - Hp1 Hab HL HH. lia. }
  rewrite En. clear tabt Hlt Hzt Hvt. intros [x t] (Hlx' & Hlt & Hzx' & Hzt & Hvt & Hxr' & Htb & Hor). rewrite !LB_pow_add in Htb, Hor by idx.
  pose proof (value_bound taba (proj1 Hn)) as Hab2. unfold base_pow in Hab2. rewrite En, EN in Hab2.
  eapply mpost_mono; [apply (recip_finish_spec l h (value taba)); try done; try idx; [clear - Hxr Hxr'; lia|]|].
  { rewrite Hvt in *. split; [clear - Htb; lia|]. destruct Hor as [E|E]; [rewrite E; clear - Hp2; lia|clear - E Hab HL HH; lia]. }
  cbn beta. intros r (Hlr & Hzr & Hr). rewrite <- En in *. apply is_recip_intro; [done|done|done|].
  replace (2 * zlen taba) with (zlen taba + zlen taba) by idx. rewrite LB_pow_add by idx. exact Hr.
Qed.
End Recip.

(** * The division by the reciprocal *)

(** The quotient [q] taken from the product of the reciprocal [inv] by the upper
    limbs of [a]: [E] and [F] are the powers of the base by which [a] and the
    product are cut. *)
Lemma quotient_estimate a b inv E F W :
  0 < E -> 0 < F -> E * F = W -> 0 <= a < W -> 0 < b -> E <= b -> 0 < inv -> b * inv <= W < b * (inv + 7) ->
  let q := inv * (a / E) / F in 0 <= a - q * b < 9 * b.
Proof.
  intros HE HF <- Ha Hb HEb Hinv [Hi1 Hi2] q.
  pose proof (Z.mul_div_le a E HE) as Ha1. pose proof (Z.mul_succ_div_gt a E HE) as Ha2. 
  assert (0 <= a / E) as Ha0 by (apply Z.div_pos; lia). remember (a / E) as A eqn:EA. clear EA.
  pose proof (Z.mul_div_le (inv * A) F HF) as Hq1. pose proof (Z.mul_succ_div_gt (inv * A) F HF) as Hq2. fold q in Hq1, Hq2.
  assert (0 <= q) as Hq0 by (apply Z.div_pos; [apply Z.mul_nonneg_nonneg|]; lia). clearbody q. split.
  - assert (E * (F * q) <= E * (inv * A)) as H1 by (apply Z.mul_le_mono_nonneg_l; lia).
    assert (inv * (E * A) <= inv * a) as H2 by (apply Z.mul_le_mono_nonneg_l; lia).
    assert (b * (E * (F * q)) <= b * (inv * a)) as H3 by (apply Z.mul_le_mono_nonneg_l; lia).
    assert (b * inv * a <= E * F * a) as H4 by (apply Z.mul_le_mono_nonneg_r; lia).
    assert (0 < E * F) as HW by (apply Z.mul_pos_pos; done).
    assert (E * F * (q * b) <= E * F * a) as H5 by (clear - H3 H4; lia). apply Z.mul_le_mono_pos_l in H5; lia.
  - assert (E * (inv * A) < E * (F * Z.succ q)) as H1 by (apply Z.mul_lt_mono_pos_l; lia).
    assert (inv * a < inv * (E * Z.succ A)) as H2 by (apply Z.mul_lt_mono_pos_l; lia).
    assert (b * (inv * a) < b * (E * (F * Z.succ q) + inv * E)) as H3 by (apply Z.mul_lt_mono_pos_l; [lia|]; clear - H1 H2; lia).
    assert (a * (E * F) <= a * (b * (inv + 7))) as H4 by (apply Z.mul_le_mono_nonneg_l; lia).
    assert (E * (b * inv) <= b * (E * F)) as H5 by (apply Z.mul_le_mono_nonneg; lia).
    assert (7 * (a * b) <= 7 * (E * F * b)) as H6 by (clear - Ha Hb; nia).
    assert (0 < E * F) as HW by (apply Z.mul_pos_pos; done).
    apply (Z.mul_lt_mono_pos_l (E * F)); [done|]. clear - H3 H4 H5 H6. lia.
Qed.

(** The bounds of the reciprocal [inv] of the divisor [b], cut or extended to the
    limbs of the quotient: [N] is the power of the base of the reciprocal, [S] of
    the limbs that are cut. *)
Lemma inverse_cut b t inv N S :
  0 < S -> 0 < N -> N * S <= 2 * b -> 2 * S <= b -> t = b / S + 1 -> 0 < inv < 2 * N -> t * inv <= N * N < t * (inv + 2) ->
  b * inv <= N * N * S < b * (inv + 7).
Proof.
  intros HS HN Hb1 Hb2 -> Hi [H1 H2].
  pose proof (Z.mul_div_le b S HS) as Hd1. pose proof (Z.mul_succ_div_gt b S HS) as Hd2. remember (b / S) as d eqn:Ed. clear Ed. split.
  - assert (b * inv <= S * Z.succ d * inv) as H3 by (apply Z.mul_le_mono_nonneg_r; lia).
    assert (S * ((d + 1) * inv) <= S * (N * N)) as H4 by (apply Z.mul_le_mono_nonneg_l; lia). clear - H3 H4. lia.
  - assert (S * (N * N) < S * ((d + 1) * (inv + 2))) as H3 by (apply Z.mul_lt_mono_pos_l; lia).
    assert (S * d * (inv + 2) <= b * (inv + 2)) as H4 by (apply Z.mul_le_mono_nonneg_r; lia).
    assert (S * inv <= S * (2 * N)) as H5 by (apply Z.mul_le_mono_nonneg_l; lia). clear - H3 H4 H5 Hb1 Hb2. lia.
Qed.

(** The loop that completes the quotient. *)
Lemma divnorm_increment_spec tabb a nq na k : forall tabq w v hi,
  limbs tabb -> zlen tabb < 2 ^ 31 -> 0 < zlen tabb -> limbs tabq -> limbs w -> in_u64 v -> limbs hi -> zlen tabq = nq + 1 -> zlen w = zlen tabb ->
  zlen (w ++ v :: hi) = na -> 0 <= nq -> a < LB ^ nq * LB * value tabb -> 0 < value tabb ->
  a = value tabq * value tabb + (value w + base_pow tabb * v) -> value w + base_pow tabb * v < Z.of_nat (S k) * value tabb ->
  post (iter (S k) (divnorm_increment tabb) (tabq, w ++ v :: hi)) (fun '(q, r) =>
    limbs q /\ zlen q = nq + 1 /\ limbs r /\ zlen r = na /\
    a = value q * value tabb + value (take (Z.to_nat (zlen tabb)) r) /\ value (take (Z.to_nat (zlen tabb)) r) < value tabb).
Proof.
  induction k as [|k IH]; intros tabq w v hi Hlb Hmax Hnb Hlq Hlw Hv Hlh Hzq Hzw Hna Hnq Ha Hb Ea Hlt; rewrite iter_S; unfold divnorm_increment at 1.
  all: rewrite rd_at_mid by idx; cbn [obind]; rewrite rd_slice_prefix by idx; cbn [obind];
    rewrite mp_cmp_spec by (done || apply zlen_length; idx); pose proof (value_bound w Hlw) as Hwb;
    assert (base_pow w = base_pow tabb) as EBw by (apply base_pow_length, zlen_length; idx); rewrite EBw in Hwb;
    pose proof (value_bound tabb Hlb) as Hbb; pose proof (base_pow_pos tabb) as HB; u64_ranges.
  { assert (v = 0) as -> by (clear - Hlt Hv Hwb Hbb HB; nia). rewrite Z.mul_0_r, Z.add_0_r in *.
    assert ((value w ?= value tabb) = Lt) as -> by (apply Z.compare_lt_iff; lia). cbn [sign_of Z.ltb Z.compare Z.eqb andb obind post].
    rewrite take_app_le, take_ge by (unfold zlen in *; lia). split_and!; try done; [|clear - Hlt; lia].
    apply limbs_app; [done|]. constructor; [done|done]. }
  destruct ((v =? 0) && (sign_of (value w ?= value tabb) <? 0)) eqn:Et; cbn [obind].
  { apply andb_true_iff in Et as [Ev Ec]. apply Z.eqb_eq in Ev as ->. rewrite Z.mul_0_r, Z.add_0_r in *. cbn [post].
    assert (value w < value tabb) by (destruct (Z.compare_spec (value w) (value tabb)); [done|done|done]).
    rewrite take_app_le, take_ge by (unfold zlen in *; lia). split_and!; try done.
    apply limbs_app; [done|]. constructor; [done|done]. }
  assert (0 < v \/ value tabb <= value w) as Hor.
  { destruct (Z.eqb_spec v 0) as [->|]; [|left; lia]. right. cbn [andb] in Et.
    destruct (Z.compare_spec (value w) (value tabb)); [lia|done|lia]. }
  destruct (mp_sub_spec w tabb 0 Hlw Hlb ltac:(apply zlen_length; idx) ltac:(lia)) as [(Hl & Hn & Hval) Hc].
  rewrite mp_sub_in by lia. destruct (mp_sub_limbs w tabb 0) as [w' c]. cbn [obind fst snd] in *. change (LB ^ Z.of_nat (length w)) with (base_pow w) in Hval. rewrite EBw in Hval.
  pose proof (value_bound w' Hl) as Hwb'. rewrite (base_pow_length w' w Hn), EBw in Hwb'.
  assert (c <= v) as Hcv by (clear - Hor Hval Hc Hwb' HB Hv; nia).
  rewrite wr_slice_prefix by (unfold zlen; lia). cbn [obind]. rewrite wr_app by (unfold zlen in *; lia). cbn [obind].
  assert (u64 (v - c) = v - c) as -> by (apply u64_id; change (0 <= v - c < LB); clear - Hcv Hv Hc; lia).
  pose proof (value_bound tabq Hlq) as Hqb. unfold base_pow in Hqb. rewrite Hzq in Hqb.
  assert (base_pow tabq = LB ^ nq * LB) as EBq by (unfold base_pow; rewrite Hzq, Z.pow_add_r, Z.pow_1_r by idx; done).
  destruct (mp_add_ui_exact tabq 1 Hlq ltac:(done)) as (Hlq' & Hzq' & Hvq' & _).
  { rewrite EBq. apply (Z.mul_lt_mono_pos_r (value tabb)); [done|]. assert (value tabb <= value w + base_pow tabb * v).
    { destruct Hor; [|clear - H Hv HB; nia]. clear - H Hbb Hwb HB; nia. } clear - Ea H Ha. lia. }
  apply IH; try done; try idx.
  - change (0 <= v - c < LB). clear - Hcv Hv Hc. lia.
  - unfold zlen in *. lia.
  - rewrite <- Hna. unfold zlen. rewrite !length_app. cbn [length]. lia.
  - rewrite Hvq'. clear - Ea Hval. lia.
  - clear - Hlt Hval. lia.
Qed.

(** The low limbs of a difference. *)
Lemma borrows_mod n v r : borrows n v r -> value r.1 = v mod LB ^ Z.of_nat n.
Proof.
  intros (Hl & Hn & Hv). cbn [fst snd] in *. pose proof (value_bound _ Hl) as Hb. unfold base_pow, zlen in Hb. rewrite Hn in Hb.
  replace v with (value r.1 + (- r.2) * LB ^ Z.of_nat n) by lia.
  rewrite Z.mod_add by (apply Z.pow_nonzero; [done|lia]). symmetry. by apply Z.mod_small.
Qed.

Section Large.
Context `{FM : FftMul}.

Lemma normalized_app p tabb : limbs p -> normalized_limbs tabb -> normalized_limbs (p ++ tabb).
Proof using.
  intros Hp (Hl & bl & b1 & -> & Hn). split; [by apply limbs_app|]. exists (p ++ bl), b1. by rewrite app_assoc.
Qed.

Lemma normalized_intro l : limbs l -> 0 < zlen l -> base_pow l <= 2 * value l -> normalized_limbs l.
Proof using.
  intros Hl Hz Hv. split; [done|]. destruct (snoc_cases l Hz) as (bl & b1 & ->). exists bl, b1. split; [done|].
  apply Forall_app in Hl as [Hlb Hb]. inversion_clear Hb as [|? ? Hb1 _]. rewrite value_snoc, base_pow_app in Hv.
  change (base_pow [b1]) with LB in Hv. pose proof (value_bound bl Hlb) as Hbb. pose proof (base_pow_pos bl) as HP. u64_ranges.
  split; [|lia]. assert (LB = 2 ^ 63 * 2) as -> by done. 
  destruct (Z.le_gt_cases (2 ^ 63 * 2) (2 * b1)) as [|Hlt]; [done|].
  assert (base_pow bl * (2 * b1) <= base_pow bl * (2 ^ 63 * 2 - 2)) by (apply Z.mul_le_mono_nonneg_l; lia).
  assert (LB = 2 ^ 63 * 2) as E by done. rewrite E in Hv. lia.
Qed.

Lemma large_inverse_spec tabb n :
  normalized_limbs tabb -> 0 < n <= 2 ^ 30 ->
  mpost (large_inverse tabb n) (fun inv => limbs inv /\ zlen inv = n + 1 /\ 0 < value inv /\
    value tabb * value inv <= LB ^ (n + zlen tabb) < value tabb * (value inv + 7)).
Proof using.
  intros Hn [Hpos Hmax]. pose proof (normalized_limbs_pos tabb Hn) as Hnb. pose proof (normalized_bound tabb Hn) as Hb.
  pose proof (proj1 Hn) as Hl. unfold large_inverse. pose proof (LB_pow_pos n ltac:(idx)) as HN.
  assert (LB ^ (2 * n) = LB ^ n * LB ^ n) as E2 by (rewrite <- LB_pow_add by idx; f_equal; idx).
  destruct (Z.leb_spec (zlen tabb) n) as [Hle|Hgt].
  - set (p := replicate (Z.to_nat (n - zlen tabb)) 0). assert (limbs p) as Hlp by apply limbs_replicate_0.
    assert (zlen p = n - zlen tabb) as Hzp by (unfold p; rewrite zlen_replicate; idx).
    assert (value p = 0) as Hvp by apply value_replicate_0. clearbody p.
    assert (zlen (p ++ tabb) = n) as Hzt by (rewrite zlen_app; idx).
    eapply mpost_mono; [apply mp_recip_spec; [by apply normalized_app|by rewrite Hzt|rewrite Hzt; idx]|].
    rewrite Hzt. intros inv (Hli & Hzi & Hr & H1 & H2). split; [done|]. split; [done|]. split; [clear - Hr HN; lia|].
    rewrite value_app, Hvp, Z.add_0_l, E2 in *. unfold base_pow in H1, H2. rewrite Hzp in H1, H2.
    assert (LB ^ n = LB ^ (n - zlen tabb) * LB ^ zlen tabb) as En by (rewrite <- LB_pow_add by idx; f_equal; idx).
    rewrite LB_pow_add by idx. pose proof (LB_pow_pos (n - zlen tabb) ltac:(idx)) as HS.
    remember (LB ^ (n - zlen tabb)) as S. rewrite En in H1 at 1. rewrite En in H2 at 1.
    pose proof (LB_pow_pos (zlen tabb) ltac:(idx)) as HB'. pose proof (value_bound tabb Hl) as Hvb.
    remember (LB ^ zlen tabb) as B. clear - H1 H2 HS HN Hvb. split; [apply (Z.mul_le_mono_pos_l _ _ S HS)|apply (Z.mul_lt_mono_pos_l S _ _ HS)]; lia.
  - mstep. apply post_slice; [done|idx|idx|idx|]. intros b Hlb Hzb Hvb.
    assert (LB ^ zlen tabb = LB ^ n * LB ^ (zlen tabb - n)) as ENS by (rewrite <- LB_pow_add by idx; f_equal; idx).
    pose proof (LB_pow_pos (zlen tabb - n) ltac:(idx)) as HS. pose proof (value_bound tabb Hl) as Hvt.
    assert (4 * LB ^ (zlen tabb - n) <= LB ^ (zlen tabb - n) * LB ^ n) as H2S.
    { rewrite Z.mul_comm. apply Z.mul_le_mono_nonneg_l; [clear - HS; lia|]. transitivity LB; [done|].
      rewrite <- (Z.pow_1_r LB) at 1. apply LB_pow_le. idx. }
    rewrite LB_pow_add by idx. unfold base_pow in Hb, Hvt. rewrite ENS in *.
    remember (LB ^ (zlen tabb - n)) as S eqn:ES. clear ES. remember (value tabb) as v eqn:Ev. clear Ev.
    assert (v / S < LB ^ n) as Hd by (apply Z.div_lt_upper_bound; [done|]; clear - Hvt; lia).
    assert (0 <= v / S) as Hd0 by (apply Z.div_pos; [apply Hvt|done]). rewrite Z.mod_small in Hvb by done.
    assert (LB ^ n < 2 * (v / S + 1)) as Hd2.
    { apply (Z.mul_lt_mono_pos_r S); [done|]. pose proof (Z.mul_succ_div_gt v S HS) as H3.
      clear - H3 Hb. lia. }
    assert (base_pow b = LB ^ n) as Ebp by (unfold base_pow; by rewrite Hzb).
    destruct (mp_add_ui_spec b 1 Hlb ltac:(done)) as [(Hlt & Hnt & Hsum) Hc]. destruct (mp_add_ui b 1) as [t c]. cbn [fst snd] in *.
    change (LB ^ Z.of_nat (length b)) with (base_pow b) in Hsum. rewrite Ebp, Hvb in Hsum.
    pose proof (value_bound t Hlt) as Htb. assert (zlen t = n) as Hzt by (unfold zlen in *; idx).
    assert (base_pow t = LB ^ n) as Ebt by (unfold base_pow; by rewrite Hzt). rewrite Ebt in Htb. u64_ranges.
    assert (n = zlen b) as Enb by idx. remember (LB ^ n) as N eqn:EN.
    assert (0 < N) as HN0 by done. 
    assert (forall inv, 0 < inv < 2 * N -> (v / S + 1) * inv <= N * N < (v / S + 1) * (inv + 2) ->
      v * inv <= N * (N * S) < v * (inv + 7)) as Hcut.
    { intros inv Hi H3. rewrite Z.mul_assoc. apply (inverse_cut v (v / S + 1) inv N S HS HN0); try done; clear - Hb H2S; lia. }
    destruct (Z.eqb_spec c 0) as [->|Hcn]; cbn [negb].
    + assert (value t = v / S + 1) as Evt by (clear - Hsum; lia).
      assert (normalized_limbs t) as Hnt'.
      { apply normalized_intro; [done|idx|]. rewrite Ebt, Evt. clear - Hd2. lia. }
      eapply mpost_mono; [apply mp_recip_spec; [done|by rewrite Hzt|rewrite Hzt; clear - Hpos; lia]|].
      rewrite Hzt, Evt. intros inv (Hli & Hzi & Hr & H1 & H2). rewrite E2 in H1, H2. rewrite <- EN in Hr. split; [done|]. split; [done|].
      split; [clear - Hr HN0; lia|]. apply Hcut; clear - Hr HN0 H1 H2; lia.
    + assert (v / S + 1 = N) as EdN by (clear - Hsum Htb Hd Hcn Hc HN0; nia).
      mstep. assert (value (replicate (Z.to_nat n) 0 ++ [1]) = N) as Evi.
      { rewrite value_snoc, value_replicate_0. unfold base_pow. rewrite zlen_replicate, Z2Nat.id, EN by idx. ring. }
      rewrite Evi. split; [apply limbs_app; [apply limbs_replicate_0|by constructor]|].
      split; [rewrite zlen_app, zlen_replicate; change (zlen [1]) with 1; idx|]. split; [done|].
      apply Hcut; rewrite ?EdN; clear - HN0; lia.
Qed.

(** The sizes of [mp_divnorm_large]. *)
Lemma large_sizes na nb :
  1 <= na - nb -> 2 <= nb ->
  let nq := na - nb in let n := if nq <? nb then nq + 1 else nq in
  0 < n /\ nq <= n <= nq + 1 /\ 0 <= na - (n + 1) /\ na - (n + 1) < nb /\ na <= n + nb /\ 0 <= 2 * n + 1 - nq /\
  na - (n + 1) + (2 * n + 1 - nq) = n + nb.
Proof using. intros H1 H2. cbv zeta. destruct (Z.ltb_spec (na - nb) nb); lia. Qed.

(** The remainder, computed on [nb + 1] limbs. *)
Lemma large_remainder a t taba tabt nb :
  limbs taba -> limbs tabt -> limbs a -> limbs t -> 0 <= nb -> zlen a = nb + 1 -> zlen t = nb + 1 ->
  value a = value taba mod LB ^ (nb + 1) -> value t = value tabt mod LB ^ (nb + 1) ->
  0 <= value taba - value tabt < LB ^ (nb + 1) ->
  limbs (mp_sub_limbs a t 0).1 /\ zlen (mp_sub_limbs a t 0).1 = nb + 1 /\ value (mp_sub_limbs a t 0).1 = value taba - value tabt.
Proof using.
  intros Hla Hlt Hl1 Hl2 Hnb Hz1 Hz2 Hv1 Hv2 Hr.
  destruct (mp_sub_spec a t 0 Hl1 Hl2 ltac:(apply zlen_length; idx) ltac:(lia)) as [H _]. pose proof H as (Hl & Hn & _).
  cbn [fst] in *. split; [done|]. split; [unfold zlen in *; lia|]. rewrite (borrows_mod _ _ _ H).
  change (LB ^ Z.of_nat (length a)) with (LB ^ zlen a). rewrite Hz1, Hv1, Hv2, Z.sub_0_r, <- Zminus_mod. by apply Z.mod_small.
Qed.

Lemma mp_divnorm_large_spec : divides mp_divnorm_large (fun na nb => na <= 2 ^ 30 /\ 1 <= na - nb /\ 2 <= nb).
Proof using.
  intros tabq taba tabb Hlq Hla Hnb Hle Hzq (Hmax & Hnq & Hnb2). pose proof (normalized_bound tabb Hnb) as Hbb.
  pose proof (proj1 Hnb) as Hlb. pose proof (value_bound taba Hla) as Hab. unfold base_pow in Hab.
  pose proof (large_sizes (zlen taba) (zlen tabb) Hnq Hnb2) as Hs. unfold mp_divnorm_large. cbv zeta in *.
  set (n := if zlen taba - zlen tabb <? zlen tabb then zlen taba - zlen tabb + 1 else zlen taba - zlen tabb) in *.
  clearbody n. destruct Hs as (Hn & Hn1 & He & He2 & Hna & HF & HEF). set (nq := zlen taba - zlen tabb) in *.
  assert (zlen taba = nq + zlen tabb) as Ena by (unfold nq; idx). clearbody nq.
  mstep. apply post_assert; [idx|]. mstep. apply mpost_malloc2; [idx|idx|]. intros tabi tabt _ _ Hlt Hzt.
  mstep. eapply mpost_mono; [apply large_inverse_spec; [done|idx]|]. intros inv (Hli & Hzi & Hi0 & Hi). clear tabi.
  mstep. apply post_slice; [done|idx|idx|idx|]. intros a Hlat Hzat Hvat.
  assert (value taba / LB ^ (zlen taba - (n + 1)) < LB ^ (n + 1)) as Ha2.
  { apply Z.div_lt_upper_bound; [apply LB_pow_pos; idx|]. rewrite <- LB_pow_add by idx.
    replace (zlen taba - (n + 1) + (n + 1)) with (zlen taba) by idx. apply Hab. }
  rewrite Z.mod_small in Hvat by (split; [apply Z.div_pos; [apply Hab|apply LB_pow_pos; idx]|done]).
  mstep. eapply mpost_mono; [apply mp_mul_spec; try done; idx|]. clear tabt Hlt Hzt. intros tabt (Hlt & Hzt & Hvt).
  mstep. apply post_slice; [done|idx|idx|idx|]. intros q Hlq1 Hzq1 Hvq1.
  replace (2 * (n + 1) - (nq + 1)) with (2 * n + 1 - nq) in Hvq1 by idx. rewrite Hvt, Hvat in Hvq1.
  assert (LB ^ zlen taba <= LB ^ (n + zlen tabb)) as HW by (apply LB_pow_le; idx).
  assert (LB ^ (zlen taba - (n + 1)) <= value tabb) as HEb.
  { assert (LB ^ (zlen taba - (n + 1)) * LB <= base_pow tabb).
    { rewrite <- (Z.pow_1_r LB) at 2. rewrite <- LB_pow_add by idx. apply LB_pow_le. idx. }
    pose proof (LB_pow_pos (zlen taba - (n + 1)) ltac:(idx)). rewrite LB_val in H at 2. clear - H H0 Hbb. lia. }
  assert (0 < value tabb) as Hb0 by (pose proof (base_pow_pos tabb) as HB; clear - HB Hbb; lia).
  pose proof (quotient_estimate (value taba) (value tabb) (value inv) (LB ^ (zlen taba - (n + 1))) (LB ^ (2 * n + 1 - nq)) (LB ^ (n + zlen tabb))
    ltac:(apply LB_pow_pos; idx) ltac:(apply LB_pow_pos; idx)) as HQ.
  rewrite <- LB_pow_add in HQ by idx. rewrite HEF in HQ. specialize (HQ eq_refl ltac:(clear - Hab HW; lia) Hb0 HEb Hi0 Hi). cbv zeta in HQ.
  remember (value inv * (value taba / LB ^ (zlen taba - (n + 1))) / LB ^ (2 * n + 1 - nq)) as Q eqn:EQ.
  assert (0 <= Q) as HQ0.
  { rewrite EQ. apply Z.div_pos; [|apply LB_pow_pos; idx]. apply Z.mul_nonneg_nonneg; [clear - Hi0; lia|].
    apply Z.div_pos; [apply Hab|apply LB_pow_pos; idx]. }
  assert (LB ^ zlen taba = LB ^ nq * base_pow tabb) as EA by (unfold base_pow; rewrite <- LB_pow_add by idx; f_equal; idx).
  pose proof (LB_pow_pos nq ltac:(idx)) as HP. assert (LB ^ (nq + 1) = LB ^ nq * LB) as ENq by (rewrite LB_pow_add, Z.pow_1_r by idx; done).
  assert (value taba < LB ^ nq * (2 * value tabb)) as HA2.
  { rewrite EA in Hab. assert (LB ^ nq * base_pow tabb <= LB ^ nq * (2 * value tabb)) as HA3 by (apply Z.mul_le_mono_nonneg_l; [clear - HP; lia|apply Hbb]).
    clear - HA3 Hab. lia. }
  assert (Q < 2 * LB ^ nq) as HQ2 by (apply (Z.mul_lt_mono_pos_r (value tabb)); [done|]; clear - HQ HA2; lia).
  clear EQ Hvat Hvt Ha2 HEF HEb HW Hi Hi0. 
  assert (LB ^ nq * 2 <= LB ^ nq * LB) as HP2 by (apply Z.mul_le_mono_nonneg_l; [clear - HP; lia|done]).
  rewrite Z.mod_small in Hvq1 by (rewrite ENq; clear - HQ0 HQ2 HP2; lia).
  mstep. apply mpost_malloc; [idx|]. clear tabt Hlt Hzt. intros tabt Hlt Hzt.
  mstep. eapply mpost_mono; [apply mp_mul_spec; try done; idx|]. clear tabt Hlt Hzt. intros tabt (Hlt & Hzt & Hvt). rewrite Hvq1 in Hvt.
  mstep. apply post_slice; [done|idx|idx|idx|]. intros al Hlal Hzal Hval. rewrite Z.pow_0_r, Z.div_1_r in Hval.
  mstep. apply post_slice; [done|idx|idx|idx|]. intros tl Hltl Hztl Hvtl. rewrite Z.pow_0_r, Z.div_1_r in Hvtl.
  assert (LB ^ (zlen tabb + 1) = base_pow tabb * LB) as EB1 by (rewrite LB_pow_add, Z.pow_1_r by idx; done).
  pose proof (value_bound tabb Hlb) as Hvb.
  destruct (large_remainder al tl taba tabt (zlen tabb)) as (Hlr & Hzr & Hvr); try done; try idx.
  { rewrite EB1, Hvt, LB_val. clear - HQ Hvb. lia. }
  mstep. rewrite mp_sub_in by (rewrite Hzal; idx). destruct (mp_sub_limbs al tl 0) as [r k]. cbn [post fst] in *. rewrite Hvt in Hvr.
  destruct (cut_at taba (zlen tabb + 1) Hla ltac:(idx)) as (lo & hi & Ecut & Hzlo & _ & Hlhi & _).
  mstep. rewrite Ecut at 1. rewrite wr_slice_prefix by idx. cbn [post].
  destruct (snoc_cases r) as (w & v & ->); [idx|]. apply Forall_app in Hlr as [Hlw Hv]. inversion_clear Hv as [|? ? Hv' _].
  rewrite <- app_assoc. cbn [app]. assert (zlen w = zlen tabb) as Hzw by zlen_lia.
  assert (base_pow w = base_pow tabb) as EBw by (apply base_pow_length, zlen_length; idx). rewrite value_snoc, EBw in Hvr.
  mstep. eapply post_mono; [apply (divnorm_increment_spec tabb (value taba) nq (zlen taba) 9); try done; try idx|].
  - rewrite Ecut, !zlen_app, zlen_cons in *. idx.
  - assert (LB ^ nq * 2 * value tabb <= LB ^ nq * LB * value tabb) as H3 by (apply Z.mul_le_mono_nonneg_r; [clear - Hb0; lia|done]).
    clear - HA2 H3. lia.
  - rewrite Hvq1, Hvr. clear. lia.
  - rewrite Hvr. change (Z.of_nat 10) with 10. clear - HQ Hb0. lia.
  - intros [q' r'] (? & ? & ? & ? & ? & ?). unfold is_division. split_and!; try done. idx.
Qed.

(** [mp_divnorm] divides a number of at most [2 ^ 30] limbs: for any allocator and
    multiplication of large numbers it returns the quotient and the remainder,
    unless memory is short. *)
Lemma mp_divnorm_divides : divides mp_divnorm (fun na _ => na <= 2 ^ 30).
Proof using.
  apply mp_divnorm_with_spec; [done|]. intros tabq taba tabb ? ? ? ? ? [? HT]. unfold DIVNORM_LARGE_THRESHOLD in HT.
  apply mp_divnorm_large_spec; try done. lia.
Qed.
End Large.
