(* ===== verification/MpSqrt.v ===== *)
(** Square roots of natural numbers in [libbf.c]: the square root with remainder of
    one limb, of two limbs, and the algorithm of Zimmermann ("Karatsuba Square
    Root") on any even number of limbs. *)
From Stdlib Require Import ZArith Lia Bool List.
From stdpp Require Import base tactics list numbers.
From S2P Require Import Prelude Alloc Limb MpMul MpDiv MpRecip.

(** * The routines *)

Definition sqrt_table : list Z :=
  [128; 128; 129; 130; 131; 132; 133; 134; 135; 136; 137; 138; 139; 140; 141; 142; 143; 144; 144; 145; 146; 147; 148; 149;
   150; 150; 151; 152; 153; 154; 155; 155; 156; 157; 158; 159; 160; 160; 161; 162; 163; 163; 164; 165; 166; 167; 167; 168;
   169; 170; 170; 171; 172; 173; 173; 174; 175; 176; 176; 177; 178; 178; 179; 180; 181; 181; 182; 183; 183; 184; 185; 185;
   186; 187; 187; 188; 189; 189; 190; 191; 192; 192; 193; 193; 194; 195; 195; 196; 197; 197; 198; 199; 199; 200; 201; 201;
   202; 203; 203; 204; 204; 205; 206; 206; 207; 208; 208; 209; 209; 210; 211; 211; 212; 212; 213; 214; 214; 215; 215; 216;
   217; 217; 218; 218; 219; 219; 220; 221; 221; 222; 222; 223; 224; 224; 225; 225; 226; 226; 227; 227; 228; 229; 229; 230;
   230; 231; 231; 232; 232; 233; 234; 234; 235; 235; 236; 236; 237; 237; 238; 238; 239; 240; 240; 241; 241; 242; 242; 243;
   243; 244; 244; 245; 245; 246; 246; 247; 247; 248; 248; 249; 249; 250; 250; 251; 251; 252; 252; 253; 253; 254; 254; 255].

(** One iteration: [l] more bits of the root, from the digits [d1] and [d0] of the number. *)
Definition sqrtrem1_step (s1 r1 l d1 d0 : Z) : Z * Z :=
  let num := Z.lor (u64 (Z.shiftl r1 l)) d1 in
  let q := num / u64 (2 * s1) in
  let u := num mod u64 (2 * s1) in
  let s := u64 (u64 (Z.shiftl s1 l) + q) in
  let r := Z.lor (u64 (Z.shiftl u l)) d0 in
  let r := u64 (r - u64 (q * q)) in
  if i64 r <? 0 then let s := u64 (s - 1) in (s, u64 (r + u64 (2 * s + 1))) else (s, r).

(** The root and the remainder of a limb that is at least [2 ^ 62]. *)
Definition mp_sqrtrem1 (a : Z) : outcome (Z * Z) :=
  let* s1 := rd sqrt_table (u64 (Z.shiftr a (LIMB_BITS - 8) - 64)) in
  let r1 := u64 (Z.shiftr a (LIMB_BITS - 16) - u64 (s1 * s1)) in
  let '(s1, r1) := if u64 (2 * s1) <? r1 then (u64 (s1 + 1), u64 (r1 - u64 (2 * s1 + 1))) else (s1, r1) in
  let '(s1, r1) := sqrtrem1_step s1 r1 8 (Z.land (Z.shiftr a (LIMB_BITS - 32 + 8)) 0xff) (Z.land (Z.shiftr a (LIMB_BITS - 32)) 0xff) in
  Ret (sqrtrem1_step s1 r1 16 (Z.land (Z.shiftr a (LIMB_BITS - 64 + 16)) 0xffff) (Z.land (Z.shiftr a (LIMB_BITS - 64)) 0xffff)).

Definition bf_isqrt (a : Z) : outcome Z :=
  if a =? 0 then Ret 0
  else
    let k := Z.land (clz a) (Z.lnot 1) in
    let* (s, _) := mp_sqrtrem1 (u64 (Z.shiftl a k)) in
    Ret (Z.shiftr s (Z.shiftr k 1)).

(** The root of two limbs goes to [tabs], the low limb of the remainder to [taba]; its high limb is returned. *)
Definition mp_sqrtrem2 (tabs taba : list Z) : outcome (list Z * list Z * Z) :=
  let* a0 := rd taba 0 in
  let* a1 := rd taba 1 in
  let* (s1, r1) := mp_sqrtrem1 a1 in
  let l := LIMB_BITS / 2 in
  let num := Z.lor (u128 (Z.shiftl r1 l)) (Z.shiftr a0 l) in
  let q := u64 (num / u64 (2 * s1)) in
  let u := u64 (num mod u64 (2 * s1)) in
  let s := u64 (u64 (Z.shiftl s1 l) + q) in
  let r := Z.lor (u128 (Z.shiftl u l)) (Z.land a0 (u64 (u64 (Z.shiftl 1 l) - 1))) in
  let r := u128 (if negb (Z.shiftr q l =? 0) then r - Z.shiftl 1 LIMB_BITS else r - u64 (q * q)) in
  let '(s, r) :=
    if i64 (Z.shiftr r LIMB_BITS) <? 0 then let s := u64 (s - 1) in (s, u128 (r + u128 (u128 (2 * s) + 1))) else (s, r) in
  let* tabs := wr tabs 0 s in
  let* taba := wr taba 0 (u64 r) in
  Ret (tabs, taba, u64 (Z.shiftr r LIMB_BITS)).

Section Sqrt.
Context `{FM : FftMul}.

(** The remainder of the high half, with its highest limb [qh], and [l] more limbs are divided by the high half of the
    root: the quotient without its highest digit [qh] goes to [tmp], the remainder to the limb [l] of [taba]. *)
Definition sqrtrem_divide (l h qh : Z) (sh taba tmp : list Z) : alloc_m (list Z * list Z) :=
  let? taba := lift
    (if negb (qh =? 0) then
       let* r := rd_slice taba (2 * l) h in
       let* (r, _) := mp_sub r sh 0 in wr_slice taba (2 * l) r
     else Ret taba) in
  let? num := lift (rd_slice taba l (l + h)) in
  let? q := lift (rd_slice tmp 0 (l + 1)) in
  let? (q, num) := mp_divnorm q num sh in
  let? tmp := lift (wr_slice tmp 0 q) in
  let? taba := lift (wr_slice taba l num) in
  mret (taba, tmp).

(** The quotient by twice the high half of the root: [tmp] holds the quotient by the high half, without its highest
    digit [qh], and [taba] the remainder from its limb [l] on.  The low half of the root is the quotient, with the
    digit that is returned; the other result is the highest limb of the new remainder. *)
Definition sqrtrem_quotient (l h qh : Z) (tabs taba tmp : list Z) : outcome (list Z * list Z * Z * Z) :=
  let* t := rd tmp l in
  let qh := u64 (qh + t) in
  let* q := rd_slice tmp 0 l in
  let* (q, ql) := mp_shr q 1 (Z.land qh 1) in
  let* tabs := wr_slice tabs 0 q in
  let qh := Z.shiftr qh 1 in
  let* sh := rd_slice tabs l h in
  let* (taba, rh) :=
    if negb (ql =? 0) then
      let* u := rd_slice taba l h in
      let '(u, rh) := mp_add u sh 0 in
      let* taba := wr_slice taba l u in Ret (taba, rh)
    else Ret (taba, 0) in
  let* tabs := wr_slice tabs l (mp_add_ui sh qh).1 in
  Ret (tabs, taba, qh, rh).

(** The square of the quotient is subtracted: when its highest digit is set, it is [LB ^ l].  The borrow is returned. *)
Definition sqrtrem_square (l h qh : Z) (tabs taba : list Z) : alloc_m (list Z * Z) :=
  let n := l + h in
  let? (taba, c) :=
    if negb (qh =? 0) then mret (taba, qh)
    else
      let? p := lift (rd_slice taba n (2 * l)) in
      let? q := lift (rd_slice tabs 0 l) in
      let? p := mp_mul p q q in
      let? taba := lift (wr_slice taba n p) in
      let? r := lift (rd_slice taba 0 (2 * l)) in
      let? (r, c) := lift (mp_sub r p 0) in
      let? taba := lift (wr_slice taba 0 r) in mret (taba, c) in
  let? r := lift (rd_slice taba (2 * l) (n - 2 * l)) in
  let '(r, b) := mp_sub_ui r c in
  let? taba := lift (wr_slice taba (2 * l) r) in
  mret (taba, b).

(** A negative remainder: the root is decreased. *)
Definition sqrtrem_correct (n rh : Z) (tabs taba : list Z) : outcome (list Z * list Z * Z) :=
  if i64 rh <? 0 then
    let tabs := (mp_sub_ui tabs 1).1 in
    let* r := rd_slice taba 0 n in
    let '(r, c) := mp_add_mul1 r tabs 2 in
    let rh := u64 (rh + c) in
    let '(r, c) := mp_add_ui r 1 in
    let rh := u64 (rh + c) in
    let* taba := wr_slice taba 0 r in
    Ret (tabs, taba, rh)
  else Ret (tabs, taba, rh).

Definition sqrtrem_finish (l h qh : Z) (tabs taba tmp : list Z) : alloc_m (list Z * list Z * Z) :=
  let? (tabs, taba, qh, rh) := lift (sqrtrem_quotient l h qh tabs taba tmp) in
  let? (taba, b) := sqrtrem_square l h qh tabs taba in
  lift (sqrtrem_correct (l + h) (u64 (rh - b)) tabs taba).

(** The root of the [2 * n] limbs of [taba] goes to the [n] limbs of [tabs], the remainder to the low limbs of
    [taba] and to the result, which is its highest limb. *)
Fixpoint mp_sqrtrem_rec (depth : nat) (tabs taba tmp : list Z) : alloc_m (list Z * list Z * list Z * Z) :=
  match depth with
  | O => lift (Err OutOfFuel)
  | S depth =>
      let n := zlen tabs in
      if n =? 1 then
        let? (tabs, taba, rh) := lift (mp_sqrtrem2 tabs taba) in mret (tabs, taba, tmp, rh)
      else
        let l := n / 2 in
        let h := n - l in
        let? sh := lift (rd_slice tabs l h) in
        let? ah := lift (rd_slice taba (2 * l) (2 * h)) in
        let? (sh, ah, tmp, qh) := mp_sqrtrem_rec depth sh ah tmp in
        let? tabs := lift (wr_slice tabs l sh) in
        let? taba := lift (wr_slice taba (2 * l) ah) in
        let? (taba, tmp) := sqrtrem_divide l h qh sh taba tmp in
        let? (tabs, taba, rh) := sqrtrem_finish l h qh tabs taba tmp in
        mret (tabs, taba, tmp, rh)
  end.

(** The temporary block is in the frame of the function when it is small. *)
Definition mp_sqrtrem (tabs taba : list Z) : alloc_m (list Z * list Z) :=
  let n := zlen tabs in
  let n2 := n / 2 + 1 in
  let? tmp := if n2 <=? 8 then mret (replicate 8 0) else bf_malloc n2 in
  let? (tabs, taba, _, rh) := mp_sqrtrem_rec (Z.to_nat n) tabs taba tmp in
  let? taba := lift (wr taba n rh) in
  mret (tabs, taba).
End Sqrt.

Example mp_sqrtrem1_example : mp_sqrtrem1 (2 ^ 64 - 1) = Ret (2 ^ 32 - 1, 2 ^ 33 - 2).
Proof. vm_compute. reflexivity. Qed.

Example bf_isqrt_example : map bf_isqrt [0; 1; 15; 16; 17; 10 ^ 19; 2 ^ 64 - 1] = map Ret [0; 1; 3; 4; 4; 3162277660; 2 ^ 32 - 1].
Proof. vm_compute. reflexivity. Qed.

Example mp_sqrtrem2_example : mp_sqrtrem2 [0] [2 ^ 64 - 1; 2 ^ 64 - 1] = Ret ([2 ^ 64 - 1], [2 ^ 64 - 2; 2 ^ 64 - 1], 1).
Proof. vm_compute. reflexivity. Qed.

(** * The step of the algorithm *)

(** [s] is the integer square root of [a], and [r] the remainder. *)
Definition is_sqrt (a s r : Z) : Prop := a = s * s + r /\ 0 <= r <= 2 * s.

Lemma is_sqrt_spec a s r : is_sqrt a s r -> s = Z.sqrt a /\ r = a - Z.sqrt a * Z.sqrt a.
Proof. intros [E Hr]. assert (Z.sqrt a = s) as ->; [|lia]. apply Z.sqrt_unique. lia. Qed.

Lemma is_sqrt_root a s r : is_sqrt a s r -> 0 <= s /\ s * s <= a < (s + 1) * (s + 1).
Proof. intros [E Hr]. lia. Qed.

(** Given the root [s1] of [x], the root of [x] with two more digits in base [B], up to the correction by one. *)
Lemma sqrt_step x s1 r1 B d1 d0 :
  is_sqrt x s1 r1 -> 0 <= d1 < B -> 0 <= d0 < B -> B <= 2 * s1 ->
  let num := r1 * B + d1 in let q := num / (2 * s1) in let u := num mod (2 * s1) in
  let s := s1 * B + q in let r := u * B + d0 - q * q in
  0 <= q <= B /\ 0 <= u < 2 * s1 /\ - (B * B) <= r <= 2 * s /\
  is_sqrt (x * (B * B) + d1 * B + d0) (if r <? 0 then s - 1 else s) (if r <? 0 then r + 2 * (s - 1) + 1 else r).
Proof.
  intros [Ex Hr1] H1 H0 HB num q u s r. assert (0 <= num) as Hnum by (unfold num; nia).
  pose proof (Z.div_mod num (2 * s1) ltac:(lia)) as E. pose proof (Z.mod_pos_bound num (2 * s1) ltac:(lia)) as Hu. fold q u in E, Hu.
  assert (0 <= q) as Hq0 by (apply Z.div_pos; lia).
  assert (q <= B) as HqB. { destruct (Z.le_gt_cases q B) as [|Hgt]; [done|exfalso]. assert (num <= 2 * s1 * B + B - 1) by (unfold num; nia). nia. }
  assert (x * (B * B) + d1 * B + d0 = s * s + r) as Ea by (unfold s, r; rewrite Ex; unfold num in E; nia).
  assert (u * B <= 2 * s1 * B - B) as HuB by nia. assert (0 <= u * B) as HuB0 by nia.
  assert (r <= 2 * s) as Hr. { unfold r, s. nia. }
  assert (q * q <= B * B) as Hqq by (apply Z.mul_le_mono_nonneg; lia).
  assert ((q - 1) * (q - 1) <= 2 * s1 * B) as Hq1.
  { destruct (Z.eq_dec q 0) as [->|]; [clear - HB H1; nia|]. apply Z.le_trans with (B * B); [apply Z.mul_le_mono_nonneg; lia|apply Z.mul_le_mono_nonneg_r; lia]. }
  assert (0 <= r + 2 * s - 1) as Hr2 by (unfold r, s; lia).
  split; [lia|]. split; [lia|]. split; [unfold r at 1; lia|].
  - rewrite Ea. destruct (Z.ltb_spec r 0); unfold is_sqrt; nia.
Qed.

(** The root of a number of an even number of digits, the highest of which is large enough. *)
Lemma sqrt_normalized a s r B : is_sqrt a s r -> 0 < B -> (2 * B) * (2 * B) <= 4 * a -> a < (2 * B) * (2 * B) -> B <= s < 2 * B.
Proof.
  intros H HB H1 H2. destruct (is_sqrt_root a s r H) as [Hs [Hl Hu]]. split.
  - destruct (Z.le_gt_cases B s) as [|Hlt]; [done|exfalso]. assert ((s + 1) * (s + 1) <= B * B) by (apply Z.mul_le_mono_nonneg; lia). lia.
  - destruct (Z.lt_ge_cases s (2 * B)) as [|Hge]; [done|exfalso]. assert (2 * B * (2 * B) <= s * s) by (apply Z.mul_le_mono_nonneg; lia). lia.
Qed.

(** * One limb *)

Lemma lor_digits l x d : 0 <= l -> 0 <= d < 2 ^ l -> 0 <= x -> Z.lor (x * 2 ^ l) d = x * 2 ^ l + d.
Proof. intros Hl Hd Hx. rewrite Z.lor_comm, (lor_low_high l) by done. lia. Qed.

Lemma i64_u64 z : i64 (u64 z) = i64 z.
Proof. unfold i64, u64. by rewrite Z.mod_mod by done. Qed.

Lemma sqrtrem1_step_spec x s1 r1 l d1 d0 :
  0 < l <= 16 -> let B := 2 ^ l in
  is_sqrt x s1 r1 -> 0 <= d1 < B -> 0 <= d0 < B -> s1 < B <= 2 * s1 ->
  let '(s, r) := sqrtrem1_step s1 r1 l d1 d0 in is_sqrt (x * (B * B) + d1 * B + d0) s r.
Proof.
  intros Hl B Hx H1 H0 HB. pose proof Hx as [_ Hr1]. assert (2 <= B <= 65536) as HBr.
  { unfold B. split; [change 2 with (2 ^ 1) at 1|change 65536 with (2 ^ 16)]; apply Z.pow_le_mono_r; lia. }
  destruct (sqrt_step x s1 r1 B d1 d0 Hx H1 H0 ltac:(lia)) as (Hq & Hu & Hr & H). cbv zeta in *.
  assert (forall y d, 0 <= d < B -> 0 <= y -> Z.lor (y * B) d = y * B + d) as Hlor by (intros; apply lor_digits; done || lia).
  unfold sqrtrem1_step. assert (0 <= r1 * B <= 131072 * 65536) as Hrb by (split; [apply Z.mul_nonneg_nonneg|apply Z.mul_le_mono_nonneg]; lia). rewrite (Z.shiftl_mul_pow2 r1) by lia. fold B.
  rewrite (u64_id (r1 * B)) by (unfold in_u64; lia). rewrite Hlor by lia. rewrite (u64_id (2 * s1)) by (unfold in_u64; lia).
  set (q := (r1 * B + d1) / (2 * s1)) in *. set (u := (r1 * B + d1) mod (2 * s1)) in *.
  assert (0 <= s1 * B <= 65536 * 65536) as Hsb by (split; [apply Z.mul_nonneg_nonneg|apply Z.mul_le_mono_nonneg]; lia).
  assert (0 <= u * B <= 131072 * 65536) as Hub by (split; [apply Z.mul_nonneg_nonneg|apply Z.mul_le_mono_nonneg]; lia).
  assert (0 <= q * q <= 65536 * 65536) as Hqq by (split; [apply Z.mul_nonneg_nonneg|apply Z.mul_le_mono_nonneg]; lia).
  rewrite (Z.shiftl_mul_pow2 s1), (Z.shiftl_mul_pow2 u) by lia. fold B. rewrite (u64_id (s1 * B)), (u64_id (u * B)), (u64_id (q * q)) by (unfold in_u64; lia).
  rewrite (u64_id (s1 * B + q)) by (unfold in_u64; lia). rewrite Hlor by lia.
  set (s := s1 * B + q) in *. set (r := u * B + d0 - q * q) in *.
  assert (i64 (u64 r) = r) as ->. { rewrite i64_u64. apply i64_id. unfold in_i64, r. lia. }
  destruct (Z.ltb_spec r 0) as [Hneg|Hpos].
  - assert (0 < s) by (unfold s; lia). rewrite (u64_id (s - 1)) by (unfold in_u64, s; lia). rewrite (u64_id (2 * (s - 1) + 1)) by (unfold in_u64, s; lia).
    assert (u64 (u64 r + (2 * (s - 1) + 1)) = r + 2 * (s - 1) + 1) as ->; [|exact H].
    unfold u64. rewrite Z.add_mod_idemp_l by done. rewrite Z.mod_small; [lia|]. destruct H as [_ H]. unfold s in *. lia.
  - rewrite u64_id by (unfold in_u64, r; lia). exact H.
Qed.

(** The table gives the root of 16 bits from the first eight, or one less. *)
Definition sqrt_table_ok (i : Z) : bool :=
  match rd sqrt_table i with
  | Ret t => (128 <=? t) && (t <=? 255) && (t * t <=? (i + 64) * 256) && ((i + 64) * 256 + 255 <? (t + 2) * (t + 2))
  | _ => false
  end.

Lemma sqrt_table_spec i :
  0 <= i < 192 -> exists t, rd sqrt_table i = Ret t /\ 128 <= t <= 255 /\ t * t <= (i + 64) * 256 /\ (i + 64) * 256 + 255 < (t + 2) * (t + 2).
Proof.
  intros Hi. assert (forallb sqrt_table_ok (seqZ 0 192) = true) as H by (by vm_compute).
  assert (sqrt_table_ok i = true) as Hok by (apply (proj1 (List.forallb_forall _ _) H), list_elem_of_In, elem_of_seqZ; lia). unfold sqrt_table_ok in Hok.
  destruct (rd sqrt_table i) as [t|]; [|done]. exists t. rewrite !andb_true_iff, !Z.leb_le, Z.ltb_lt in Hok. split; [done|lia].
Qed.

(** The digits of a limb. *)
Lemma digit_at a k l : 0 <= k -> 0 < l -> 0 <= a ->
  Z.land (Z.shiftr a k) (2 ^ l - 1) = (a / 2 ^ k) mod 2 ^ l /\ a / 2 ^ k = a / 2 ^ (k + l) * 2 ^ l + (a / 2 ^ k) mod 2 ^ l.
Proof.
  intros Hk Hl Ha. rewrite Z.shiftr_div_pow2, (land_mask _ l) by lia. split; [done|].
  rewrite Z.pow_add_r, <- Z.div_div by lia. pose proof (Z.div_mod (a / 2 ^ k) (2 ^ l) ltac:(lia)). lia.
Qed.

Lemma mp_sqrtrem1_spec a : 2 ^ 62 <= a < 2 ^ 64 -> exists s r, mp_sqrtrem1 a = Ret (s, r) /\ is_sqrt a s r /\ 2 ^ 31 <= s < 2 ^ 32.
Proof.
  intros Ha. unfold mp_sqrtrem1. change LIMB_BITS with 64. change 0xff with (2 ^ 8 - 1). change 0xffff with (2 ^ 16 - 1).
  change (64 - 8) with 56. change (64 - 16) with 48. change (64 - 32 + 8) with 40. change (64 - 32) with 32. change (64 - 64 + 16) with 16. change (64 - 64) with 0.
  rewrite (Z.shiftr_div_pow2 a 56), (Z.shiftr_div_pow2 a 48) by lia.
  assert (64 <= a / 2 ^ 56 < 256 /\ a / 2 ^ 48 = a / 2 ^ 56 * 256 + (a / 2 ^ 48) mod 256) as [H1 E1].
  { split; [split; [apply Z.div_le_lower_bound; lia|apply Z.div_lt_upper_bound; lia]|]. exact (proj2 (digit_at a 48 8 ltac:(lia) ltac:(lia) ltac:(lia))). }
  pose proof (Z.mod_pos_bound (a / 2 ^ 48) 256 ltac:(lia)) as H2. set (i := a / 2 ^ 56) in *. set (x := a / 2 ^ 48) in *.
  rewrite (u64_id (i - 64)) by (unfold in_u64; lia). destruct (sqrt_table_spec (i - 64)) as (t & -> & Ht1 & Ht2 & Ht3); [lia|]. cbn [obind].
  rewrite (u64_id (t * t)), (u64_id (2 * t)), (u64_id (t + 1)), (u64_id (2 * t + 1)) by (unfold in_u64; nia). rewrite (u64_id (x - t * t)) by (unfold in_u64; lia).
  assert (exists s1 r1, (if 2 * t <? x - t * t then (t + 1, u64 (x - t * t - (2 * t + 1))) else (t, x - t * t)) = (s1, r1) /\ is_sqrt x s1 r1) as (s1 & r1 & -> & R1).
  { destruct (Z.ltb_spec (2 * t) (x - t * t)); do 2 eexists; (split; [reflexivity|]); [rewrite u64_id by (unfold in_u64; lia)|]; split; lia. }
  pose proof (sqrt_normalized x s1 r1 128 R1 ltac:(lia) ltac:(lia) ltac:(lia)) as N1.
  destruct (digit_at a 40 8) as [D1 F1]; [lia..|]. destruct (digit_at a 32 8) as [D2 F2]; [lia..|]. rewrite D1, D2.
  pose proof (sqrtrem1_step_spec x s1 r1 8 ((a / 2 ^ 40) mod 2 ^ 8) ((a / 2 ^ 32) mod 2 ^ 8) ltac:(lia) R1 ltac:(apply Z.mod_pos_bound; lia) ltac:(apply Z.mod_pos_bound; lia) ltac:(lia)) as R2.
  destruct (sqrtrem1_step s1 r1 8 _ _) as [s2 r2]. replace (x * (2 ^ 8 * 2 ^ 8) + _ * 2 ^ 8 + _) with (a / 2 ^ 32) in R2 by (change (40 + 8) with 48 in F1; change (32 + 8) with 40 in F2; fold x in F1; clear - F1 F2; lia).
  assert (2 ^ 30 <= a / 2 ^ 32 < 2 ^ 32) as H3 by (split; [apply Z.div_le_lower_bound; lia|apply Z.div_lt_upper_bound; lia]).
  pose proof (sqrt_normalized _ s2 r2 (2 ^ 15) R2 ltac:(lia) ltac:(lia) ltac:(lia)) as N2.
  destruct (digit_at a 16 16) as [D3 F3]; [lia..|]. destruct (digit_at a 0 16) as [D4 F4]; [lia..|]. rewrite D3, D4.
  pose proof (sqrtrem1_step_spec _ s2 r2 16 ((a / 2 ^ 16) mod 2 ^ 16) ((a / 2 ^ 0) mod 2 ^ 16) ltac:(lia) R2 ltac:(apply Z.mod_pos_bound; lia) ltac:(apply Z.mod_pos_bound; lia) ltac:(lia)) as R3.
  destruct (sqrtrem1_step s2 r2 16 _ _) as [s r]. change (2 ^ 0) with 1 in *. rewrite !Z.div_1_r in *. change (0 + 16) with 16 in F4. change (16 + 16) with 32 in F3.
  replace (a / 2 ^ 32 * (2 ^ 16 * 2 ^ 16) + _ * 2 ^ 16 + _) with a in R3 by (clear - F3 F4; lia).
  exists s, r. split; [done|]. split; [done|]. apply (sqrt_normalized a s r (2 ^ 31)); [done|lia..].
Qed.

(** * Two limbs *)

(** A signed difference in 128 bits: the sign is that of the high word. *)
Lemma u128_sign R : - 2 ^ 64 <= R < 2 ^ 100 -> (i64 (Z.shiftr (u128 R) LIMB_BITS) <? 0) = (R <? 0).
Proof.
  intros HR. rewrite shiftr_LB. unfold u128, LB. destruct (Z.ltb_spec R 0) as [Hneg|Hpos].
  - assert (R mod 2 ^ 128 = R + 2 ^ 128) as -> by (symmetry; apply Z.mod_unique with (-1); lia).
    assert ((R + 2 ^ 128) / 2 ^ 64 = 2 ^ 64 - 1) as -> by (symmetry; apply Z.div_unique with (R + 2 ^ 64); lia). done.
  - rewrite Z.mod_small by lia. assert (0 <= R / 2 ^ 64 < 2 ^ 36) by (split; [apply Z.div_pos; lia|apply Z.div_lt_upper_bound; lia]).
    rewrite i64_id by (unfold in_i64; lia). apply Z.ltb_ge. lia.
Qed.

Lemma u128_id z : 0 <= z < 2 ^ 128 -> u128 z = z.
Proof. intros. by apply Z.mod_small. Qed.

Lemma mp_sqrtrem2_spec y a0 a1 :
  in_u64 a0 -> 2 ^ 62 <= a1 < 2 ^ 64 ->
  exists s r0 rh, mp_sqrtrem2 [y] [a0; a1] = Ret ([s], [r0; a1], rh) /\ is_sqrt (a0 + LB * a1) s (r0 + LB * rh) /\ in_u64 s /\ in_u64 r0 /\ 0 <= rh <= 1.
Proof.
  intros Ha0 Ha1. unfold in_u64 in Ha0. unfold mp_sqrtrem2. change (rd [a0; a1] 0) with (Ret a0). change (rd [a0; a1] 1) with (Ret a1). cbn [obind].
  destruct (mp_sqrtrem1_spec a1 Ha1) as (s1 & r1 & -> & R1 & N1). cbn [obind]. cbv zeta. change (LIMB_BITS / 2) with 32. pose proof R1 as [_ Hr1].
  change (u64 (u64 (Z.shiftl 1 32) - 1)) with (2 ^ 32 - 1). change (Z.shiftl 1 LIMB_BITS) with (2 ^ 64).
  rewrite (Z.shiftr_div_pow2 a0 32), (land_mask a0 32) by lia. set (B := 2 ^ 32). pose proof (Z.mod_pos_bound a0 B ltac:(lia)) as Hd0.
  assert (0 <= a0 / B < B) as Hd1 by (unfold B; split; [apply Z.div_pos; lia|apply Z.div_lt_upper_bound; lia]). pose proof (Z.div_mod a0 B ltac:(lia)) as Ea0.
  set (d1 := a0 / B) in *. set (d0 := a0 mod B) in *. assert (B = 4294967296) as EB by done. change (2 ^ 32) with B in N1. change (2 ^ 31) with 2147483648 in N1.
  destruct (sqrt_step a1 s1 r1 B d1 d0 R1 Hd1 Hd0 ltac:(lia)) as (Hq & Hu & Hr & H). cbv zeta in *.
  assert (a1 * (B * B) + d1 * B + d0 = a0 + LB * a1) as EA by (unfold LB; change (2 ^ 64) with (B * B); lia). rewrite EA in H.
  assert (forall y d, 0 <= d < B -> 0 <= y -> Z.lor (y * B) d = y * B + d) as Hlor by (intros; by apply (lor_digits 32)).
  rewrite (Z.shiftl_mul_pow2 r1), (Z.shiftl_mul_pow2 s1), (Z.shiftl_mul_pow2 (u64 _)) by lia. fold B. rewrite (u64_id (2 * s1)), (u64_id (s1 * B)) by (unfold in_u64; lia).
  rewrite (u128_id (r1 * B)) by lia. rewrite Hlor by lia. set (q := (r1 * B + d1) / (2 * s1)) in *. set (u := (r1 * B + d1) mod (2 * s1)) in *.
  rewrite (u64_id q), (u64_id u) by (unfold in_u64; lia). rewrite (u128_id (u * B)) by lia. rewrite Hlor by lia.
  assert (0 <= q * q <= B * B) as Hqq by (split; [apply Z.mul_nonneg_nonneg|apply Z.mul_le_mono_nonneg]; lia).
  set (S := s1 * B + q) in *. set (R := u * B + d0 - q * q) in *.
  assert ((if negb (Z.shiftr q 32 =? 0) then u * B + d0 - 2 ^ 64 else u * B + d0 - u64 (q * q)) = R) as ->.
  { rewrite Z.shiftr_div_pow2 by lia. fold B. destruct (Z.eq_dec q B) as [->|Hne].
    - rewrite Z.div_same by lia. change (2 ^ 64) with (B * B). reflexivity.
    - rewrite Z.div_small by lia. cbn [negb Z.eqb]. assert (q * q <= (B - 1) * (B - 1)) by (apply Z.mul_le_mono_nonneg; lia). rewrite u64_id by (unfold in_u64; lia). reflexivity. }
  rewrite u128_sign by lia. destruct (is_sqrt_root _ _ _ H) as (H0 & Hlow & _). pose proof H as [HE HR].
  assert ((if R <? 0 then S - 1 else S) < 2 ^ 64) as HS.
  { destruct (Z.lt_ge_cases (if R <? 0 then S - 1 else S) (2 ^ 64)) as [|Hge]; [done|exfalso].
    assert (2 ^ 64 * 2 ^ 64 <= (if R <? 0 then S - 1 else S) * (if R <? 0 then S - 1 else S)) by (apply Z.mul_le_mono_nonneg; lia). unfold LB in Hlow. lia. }
  assert (forall s r, 0 <= s < 2 ^ 64 -> 0 <= r <= 2 * s -> is_sqrt (a0 + LB * a1) s r -> exists s0 r0 rh,
    (let* tabs := wr [y] 0 s in let* taba := wr [a0; a1] 0 (u64 r) in Ret (tabs, taba, u64 (Z.shiftr r LIMB_BITS))) = Ret ([s0], [r0; a1], rh) /\
    is_sqrt (a0 + LB * a1) s0 (r0 + LB * rh) /\ in_u64 s0 /\ in_u64 r0 /\ 0 <= rh <= 1) as Hend.
  { intros s r Hs Hr0 Hsq. assert (0 <= r / LB <= 1) as Hh by (unfold LB; split; [apply Z.div_pos; lia|apply Z.lt_succ_r, Z.div_lt_upper_bound; lia]).
    rewrite shiftr_LB, (u64_id (r / LB)) by (unfold in_u64; lia). exists s, (u64 r), (r / LB). split; [reflexivity|]. rewrite u64_LB.
    replace (r mod LB + LB * (r / LB)) with r by (pose proof (Z.div_mod r LB ltac:(done)); lia). split; [done|]. split; [unfold in_u64; lia|]. split; [|done].
    apply in_u64_LB, Z.mod_pos_bound. done. }
  destruct (Z.ltb_spec R 0) as [Hneg|Hpos].
  - assert (u64 (u64 S - 1) = S - 1) as ->. { unfold u64. rewrite Zminus_mod_idemp_l. apply Z.mod_small. lia. }
    assert (u128 (u128 R + u128 (u128 (2 * (S - 1)) + 1)) = R + 2 * (S - 1) + 1) as ->.
    { rewrite (u128_id (2 * (S - 1))), (u128_id (2 * (S - 1) + 1)) by lia. unfold u128. rewrite Z.add_mod_idemp_l by done. rewrite Z.mod_small; lia. }
    apply Hend; done || lia.
  - rewrite (u64_id S), (u128_id R) by (unfold in_u64; lia). apply Hend; done || lia.
Qed.

(** * Any number of limbs *)

(** The quotient and the remainder of a division by [2 * s]. *)
Lemma double_quotient num s :
  0 < s -> num / (2 * s) = num / s / 2 /\ num mod (2 * s) = num mod s + s * ((num / s) mod 2).
Proof. intros Hs. rewrite (Z.mul_comm 2). split; [by rewrite Z.div_div by lia|apply Z.rem_mul_r; lia]. Qed.

Lemma wr_slice_at {A : Type} (p s q t : list A) i : zlen p = i -> zlen t = zlen s -> wr_slice (p ++ s ++ q) i t = Ret (p ++ t ++ q).
Proof. intros <-. apply wr_slice_part. Qed.

Lemma rd_slice_at {A : Type} (p s q : list A) i n : zlen p = i -> zlen s = n -> rd_slice (p ++ s ++ q) i n = Ret s.
Proof. intros <- <-. apply rd_slice_mid. Qed.

Lemma wr_slice_first {A : Type} (s q t : list A) : zlen t = zlen s -> wr_slice (s ++ q) 0 t = Ret (t ++ q).
Proof. apply (wr_slice_part []). Qed.

Lemma rd_slice_first {A : Type} (s q : list A) n : zlen s = n -> rd_slice (s ++ q) 0 n = Ret s.
Proof. intros <-. apply (rd_slice_mid []). Qed.

Lemma rd_slice_last {A : Type} (p s : list A) i n : zlen p = i -> zlen s = n -> rd_slice (p ++ s) i n = Ret s.
Proof. intros <- <-. pose proof (rd_slice_mid p s []) as E. by rewrite app_nil_r in E. Qed.

Lemma wr_slice_last {A : Type} (p s t : list A) i : zlen p = i -> zlen t = zlen s -> wr_slice (p ++ s) i t = Ret (p ++ t).
Proof. intros <- Ht. pose proof (wr_slice_part p s [] t Ht) as E. by rewrite !app_nil_r in E. Qed.

Lemma block_halves (l : list Z) i : 0 <= i <= zlen l -> exists p s, l = p ++ s /\ zlen p = i /\ zlen s = zlen l - i.
Proof.
  intros Hi. destruct (block_split l i (zlen l - i)) as (p & s & q & E & Hp & Hs); [lia..|]. exists p, s.
  assert (q = []) as ->; [|by rewrite app_nil_r in E]. apply (f_equal zlen) in E. rewrite !zlen_app in E. destruct q; [done|]. rewrite zlen_cons in E. pose proof (zlen_nonneg q). lia.
Qed.

Lemma sqrtrem_quotient_spec l h qh g0 sh a0 u g qt t tmp' Q :
  0 < l <= h -> zlen g0 = l -> zlen sh = h -> limbs sh -> zlen a0 = l -> zlen u = h -> limbs u -> zlen qt = l -> limbs qt -> in_u64 t ->
  0 <= qh -> Q = (qh + t) * LB ^ l + value qt -> Q < 3 * LB ^ l ->
  post (sqrtrem_quotient l h qh (g0 ++ sh) (a0 ++ u ++ g) (qt ++ [t] ++ tmp')) (fun '(tabs, taba, qh', rh) =>
    exists ql sh' u', tabs = ql ++ sh' /\ taba = a0 ++ u' ++ g /\ zlen ql = l /\ limbs ql /\ zlen sh' = h /\ limbs sh' /\ zlen u' = h /\ limbs u' /\
      0 <= qh' <= 1 /\ value ql + LB ^ l * qh' = Q / 2 /\ value sh' = (value sh + qh') mod LB ^ h /\
      0 <= rh <= 1 /\ value u' + LB ^ h * rh = value u + value sh * (Q mod 2)).
Proof.
  intros Hlh Zg Zs Ls Za Zu Lu Zq Lq Ht Hqh EQ HQ. pose proof (value_bound qt Lq) as Hqb. unfold base_pow in Hqb. rewrite Zq in Hqb.
  assert (0 < LB ^ l) as HB by (apply LB_pow_pos; lia). unfold in_u64 in Ht. assert (0 <= qh + t <= 2) as Hsum by nia.
  unfold sqrtrem_quotient. assert (rd (qt ++ [t] ++ tmp') l = Ret t) as -> by (by apply rd_app_mid). cbn [obind].
  rewrite (u64_id (qh + t)) by (unfold in_u64; lia). rewrite (rd_slice_first qt) by done. cbn [obind].
  assert (Z.land (qh + t) 1 = (qh + t) mod 2) as -> by (apply (land_mask (qh + t) 1); lia).
  pose proof (Z.mod_pos_bound (qh + t) 2 ltac:(lia)) as Hm. pose proof (Z.div_mod (qh + t) 2 ltac:(lia)) as Em.
  apply post_bind. eapply post_mono; [apply (mp_shr_spec qt 1); [done|unfold in_u64; lia|lia]|]. intros [ql r] (Lql & Hlen & Hr & Er).
  assert (zlen ql = l) as Zql by (unfold zlen in *; lia). rewrite Z.mod_mod, Z.pow_1_r in * by lia. unfold base_pow in Er. rewrite Zq in Er.
  assert (value ql + LB ^ l * ((qh + t) / 2) = Q / 2 /\ r = Q mod 2) as [EQ2 Er2].
  { assert (Q = 2 * (value ql + LB ^ l * ((qh + t) / 2)) + r) as E by lia. split; [apply Z.div_unique with r|apply Z.mod_unique with (value ql + LB ^ l * ((qh + t) / 2))]; (left; lia) || lia. }
  rewrite wr_slice_first by lia. cbn [obind]. rewrite Z.shiftr_div_pow2, Z.pow_1_r by lia. rewrite (rd_slice_last ql sh) by done. cbn [obind].
  set (qh' := (qh + t) / 2) in *. apply post_bind.
  apply post_mono with (fun '(taba, rh) => exists u', taba = a0 ++ u' ++ g /\ zlen u' = h /\ limbs u' /\ 0 <= rh <= 1 /\ value u' + LB ^ h * rh = value u + value sh * r).
  - destruct (Z.eqb_spec r 0) as [->|Hr0]; cbn [negb]; [apply post_ret; exists u; split_and!; done || lia|].
    rewrite (rd_slice_at a0 u g) by done. cbn [obind]. destruct (mp_add_spec u sh 0 Lu Ls ltac:(unfold zlen in *; lia) ltac:(lia)) as [(L1 & N1 & V1) R1].
    destruct (mp_add u sh 0) as [u' rh]. cbn [fst snd] in *. rewrite wr_slice_at by (unfold zlen in *; lia). apply post_ret. exists u'.
    change (Z.of_nat (length u)) with (zlen u) in V1. rewrite Zu in V1. assert (r = 1) as -> by lia. split_and!; try done; unfold zlen in *; lia.
  - intros [taba rh] (u' & -> & Zu' & Lu' & Hrh & Vu'). rewrite (wr_slice_last ql sh) by (done || (destruct (mp_add_ui_spec sh qh' Ls ltac:(unfold in_u64; lia)) as [(_ & N & _) _]; unfold zlen; lia)).
    destruct (mp_add_ui_spec sh qh' Ls ltac:(unfold in_u64; lia)) as [(L2 & N2 & V2) _]. apply post_ret. exists ql, (mp_add_ui sh qh').1, u'.
    assert (zlen (mp_add_ui sh qh').1 = h) as Z2 by (unfold zlen in *; lia). change (Z.of_nat (length sh)) with (zlen sh) in V2. rewrite Zs in V2.
    split_and!; try done; try lia. apply Z.mod_unique with (mp_add_ui sh qh').2; [left|lia].
    pose proof (value_bound _ L2) as Hb. unfold base_pow in Hb. by rewrite Z2 in Hb.
Qed.

(** A borrow [c] from the low limbs of a block is taken from the high ones. *)
Lemma borrow_high lo hi r c w :
  limbs lo -> limbs hi -> limbs r -> zlen r = zlen lo -> 0 <= c <= 1 -> value r - base_pow lo * c = value lo - w -> w <= base_pow lo ->
  let '(h, b) := mp_sub_ui hi c in
  limbs h /\ zlen h = zlen hi /\ 0 <= b <= 1 /\ value (r ++ h) - base_pow (lo ++ hi) * b = value (lo ++ hi) - w.
Proof.
  intros Llo Lhi Lr Hz Hc E Hw. destruct (mp_sub_ui_spec hi c Lhi ltac:(unfold in_u64; lia)) as [(L & N & V) Hb]. destruct (mp_sub_ui hi c) as [h b]. cbn [fst snd] in *.
  change (LB ^ Z.of_nat (length hi)) with (base_pow hi) in V. unfold in_u64 in Hb. assert (base_pow r = base_pow lo) as Er by (unfold base_pow; by rewrite Hz).
  assert (value (r ++ h) - base_pow (lo ++ hi) * b = value (lo ++ hi) - w) as Ev.
  { rewrite !value_app, base_pow_app, Er. replace (value h) with (value hi - c + base_pow hi * b) by lia. lia. }
  split; [done|]. split; [unfold zlen; by rewrite N|]. split; [|done].
  pose proof (value_bound (r ++ h) (limbs_app _ _ Lr L)) as B1. pose proof (value_bound (lo ++ hi) (limbs_app _ _ Llo Lhi)) as B2.
  assert (base_pow (r ++ h) = base_pow (lo ++ hi)) as E2 by (unfold base_pow; rewrite !zlen_app, Hz; unfold zlen; by rewrite N).
  rewrite E2 in B1. assert (base_pow lo <= base_pow (lo ++ hi)) as B3 by (rewrite base_pow_app; pose proof (base_pow_pos lo); pose proof (base_pow_pos hi); nia). nia.
Qed.

Section SqrtRec.
Context `{FM : FftMul}.

Lemma sqrtrem_square_spec l h qh ql sh R g :
  0 < l <= h -> l + h <= 2 ^ 30 -> zlen ql = l -> limbs ql -> zlen R = l + h -> limbs R -> zlen g = l + h -> limbs g ->
  0 <= qh <= 1 -> value ql + LB ^ l * qh <= LB ^ l ->
  mpost (sqrtrem_square l h qh (ql ++ sh) (R ++ g)) (fun '(taba, b) =>
    exists r g', taba = r ++ g' /\ zlen r = l + h /\ limbs r /\ zlen g' = l + h /\ limbs g' /\ 0 <= b <= 1 /\
      value r - LB ^ (l + h) * b = value R - (value ql + LB ^ l * qh) * (value ql + LB ^ l * qh)).
Proof.
  intros Hlh Hmax Zq Lq ZR LR Zg Lg Hqh Hq. destruct (block_halves R (2 * l) ltac:(lia)) as (lo & hi & -> & Zlo & _). rewrite zlen_app in ZR. apply Forall_app in LR as [Llo Lhi].
  assert (base_pow lo = LB ^ l * LB ^ l) as Elo by (unfold base_pow; rewrite Zlo, <- Z.pow_add_r by lia; f_equal; lia).
  assert (base_pow (lo ++ hi) = LB ^ (l + h)) as Eb by (unfold base_pow; rewrite zlen_app; f_equal; lia).
  pose proof (value_bound ql Lq) as Hqb. unfold base_pow in Hqb. rewrite Zq in Hqb.
  set (q := value ql + LB ^ l * qh) in *. assert (0 <= q <= LB ^ l) as Hq0 by nia.
  unfold sqrtrem_square. apply mpost_bind. apply mpost_mono with (fun '(taba, c) => exists r g', taba = r ++ hi ++ g' /\ limbs r /\ zlen r = zlen lo /\
    zlen g' = l + h /\ limbs g' /\ 0 <= c <= 1 /\ value r - base_pow lo * c = value lo - q * q).
  - destruct (Z.eqb_spec qh 0) as [->|Hne]; cbn [negb].
    + destruct (block_halves g (2 * l) ltac:(lia)) as (gp & gq & -> & Zgp & _).
      rewrite zlen_app in Zg. apply Forall_app in Lg as [Lgp Lgq]. rewrite (rd_slice_at (lo ++ hi) gp gq) by (rewrite ?zlen_app; lia). mstep. apply post_ret.
      rewrite (rd_slice_first ql) by done. mstep. apply post_ret. mstep. eapply mpost_mono; [apply (mp_mul_spec gp ql ql); done || lia|]. intros p (Lp & Zp & Vp).
      rewrite (wr_slice_at (lo ++ hi) gp gq p) by (rewrite ?zlen_app; lia). mstep. apply post_ret. rewrite <- app_assoc. rewrite (rd_slice_first lo) by done. mstep. apply post_ret.
      destruct (mp_sub_spec lo p 0 Llo Lp ltac:(unfold zlen in *; lia) ltac:(lia)) as [(L & N & V) Hc]. mstep. rewrite mp_sub_in by lia.
      destruct (mp_sub_limbs lo p 0) as [r c]. cbn [post fst snd] in *.
      change (LB ^ Z.of_nat (length lo)) with (base_pow lo) in V. rewrite (wr_slice_first lo) by (unfold zlen; by rewrite N). mstep. apply post_ret. apply mpost_ret. exists r, (p ++ gq).
      split; [done|]. split; [done|]. split; [unfold zlen; by rewrite N|]. split; [rewrite zlen_app; lia|]. split; [by apply limbs_app|]. split; [done|]. rewrite Vp in V. unfold q. lia.
    + apply mpost_ret. exists lo, g. rewrite <- app_assoc. assert (qh = 1) as -> by lia. assert (q = LB ^ l) as -> by lia. rewrite Elo. split_and!; done || lia.
  - intros [taba c] (r & g' & -> & Lr & Zr & Zg' & Lg' & Hc & E). rewrite (rd_slice_at r hi g') by lia. mstep. apply post_ret.
    pose proof (borrow_high lo hi r c (q * q) Llo Lhi Lr Zr Hc E ltac:(rewrite Elo; apply Z.mul_le_mono_nonneg; lia)) as H. destruct (mp_sub_ui hi c) as [h' b].
    destruct H as (Lh & Zh & Hb & Ev). rewrite (wr_slice_at r hi g' h') by lia. mstep. apply post_ret. apply mpost_ret. exists (r ++ h'), g'. rewrite <- app_assoc, zlen_app. rewrite Eb in Ev.
    split_and!; try done; try lia. by apply limbs_app.
Qed.

Lemma is_sqrt_below a s r P : is_sqrt a s r -> a < P * P -> 0 < P -> s < P.
Proof.
  intros H Ha HP. destruct (is_sqrt_root a s r H) as (Hs & Hl & _). destruct (Z.lt_ge_cases s P) as [|Hge]; [done|exfalso].
  assert (P * P <= s * s) by (apply Z.mul_le_mono_nonneg; lia). lia.
Qed.

Lemma sqrtrem_correct_spec n rh tabs r g s R A :
  limbs tabs -> zlen tabs = n -> limbs r -> zlen r = n -> value tabs = s mod LB ^ n -> -1 <= rh <= 1 -> R = value r + LB ^ n * rh ->
  is_sqrt A (if R <? 0 then s - 1 else s) (if R <? 0 then R + 2 * (s - 1) + 1 else R) -> A < LB ^ n * LB ^ n ->
  post (sqrtrem_correct n (u64 rh) tabs (r ++ g)) (fun '(tabs', taba, rh') =>
    exists r', taba = r' ++ g /\ limbs r' /\ zlen r' = n /\ limbs tabs' /\ zlen tabs' = n /\ 0 <= rh' <= 1 /\ is_sqrt A (value tabs') (value r' + LB ^ n * rh')).
Proof.
  intros Lt Zt Lr Zr Vt Hrh ER H HA. set (P := LB ^ n) in *. assert (0 < P) as HP by (apply LB_pow_pos; pose proof (zlen_nonneg r); lia).
  pose proof (value_bound r Lr) as Hr. unfold base_pow in Hr. rewrite Zr in Hr. fold P in Hr. pose proof (is_sqrt_below _ _ _ P H HA HP) as HsP. destruct (is_sqrt_root _ _ _ H) as [Hs0 _].
  unfold sqrtrem_correct. rewrite i64_u64, i64_id by (unfold in_i64; lia). destruct (Z.ltb_spec R 0) as [Hneg|Hpos].
  - assert (rh = -1) as -> by nia. cbn [Z.ltb Z.compare]. destruct (mp_sub_ui_spec tabs 1 Lt ltac:(by unfold in_u64)) as [(L1 & N1 & V1) _].
    destruct (mp_sub_ui tabs 1) as [tabs' k]. cbn [fst snd] in *. change (Z.of_nat (length tabs)) with (zlen tabs) in V1. rewrite Zt in V1. fold P in V1.
    assert (zlen tabs' = n) as Zt' by (unfold zlen in *; lia). pose proof (value_bound tabs' L1) as Hb. unfold base_pow in Hb. rewrite Zt' in Hb. fold P in Hb.
    assert (value tabs' = s - 1) as Ev.
    { pose proof (Z.div_mod s P ltac:(lia)) as E. assert (value tabs' = s - 1 + P * (k - s / P)) as E2 by lia. assert (k - s / P = 0) as E3 by nia. rewrite E3 in E2. lia. }
    rewrite (rd_slice_first r) by done. cbn [obind]. destruct (mp_add_mul1_spec r tabs' 2 Lr L1 ltac:(unfold zlen in *; lia) ltac:(by unfold in_u64)) as [(L2 & N2 & V2) H2].
    destruct (mp_add_mul1 r tabs' 2) as [r2 c2]. cbn [fst snd] in *. destruct (mp_add_ui_spec r2 1 L2 ltac:(by unfold in_u64)) as [(L3 & N3 & V3) H3].
    destruct (mp_add_ui r2 1) as [r3 c3]. cbn [fst snd] in *. change (Z.of_nat (length r)) with (zlen r) in V2. rewrite Zr in V2. fold P in V2.
    rewrite N2 in V3. change (Z.of_nat (length r)) with (zlen r) in V3. rewrite Zr in V3. fold P in V3. rewrite (wr_slice_first r) by (unfold zlen; lia). cbn [obind]. apply post_ret.
    assert (zlen r3 = n) as Z3 by (unfold zlen in *; lia). pose proof (value_bound r3 L3) as Hb3. unfold base_pow in Hb3. rewrite Z3 in Hb3. fold P in Hb3.
    assert (value r3 + P * (-1 + c2 + c3) = R + 2 * (s - 1) + 1) as E by lia. destruct H as [HE Hrem]. rewrite <- E in *.
    assert (0 <= -1 + c2 + c3 <= 1) as Hc by nia. exists r3.
    assert (u64 (u64 (u64 (-1) + c2) + c3) = -1 + c2 + c3) as ->. { unfold u64. rewrite (Z.add_mod_idemp_l (-1)), Z.add_mod_idemp_l by done. apply Z.mod_small. lia. }
    rewrite Ev. split_and!; try done; lia.
  - assert (0 <= rh) as Hrh0 by nia. rewrite (proj2 (Z.ltb_ge rh 0)) by done. rewrite u64_id by (unfold in_u64; lia). apply post_ret. exists r.
    rewrite Vt, Z.mod_small by lia. rewrite <- ER. split_and!; done || lia.
Qed.

(** A step of the recursion, after the division. *)
Lemma sqrtrem_finish_spec l h qh g0 sh a0 u g qt tmp' x r1 d1 :
  0 < l <= h -> l + h <= 2 ^ 30 -> zlen g0 = l -> zlen sh = h -> limbs sh -> zlen a0 = l -> limbs a0 -> zlen u = h -> limbs u -> zlen g = l + h -> limbs g -> zlen qt = l + 1 -> limbs qt ->
  0 <= qh -> is_sqrt x (value sh) r1 -> 0 <= d1 < LB ^ l -> LB ^ l <= 2 * value sh -> x < LB ^ h * LB ^ h ->
  qh * LB ^ l + value qt = (r1 * LB ^ l + d1) / value sh -> value u = (r1 * LB ^ l + d1) mod value sh ->
  mpost (sqrtrem_finish l h qh (g0 ++ sh) (a0 ++ u ++ g) (qt ++ tmp')) (fun '(tabs, taba, rh) =>
    exists r g', taba = r ++ g' /\ zlen r = l + h /\ limbs r /\ zlen g' = l + h /\ limbs g' /\ limbs tabs /\ zlen tabs = l + h /\ 0 <= rh <= 1 /\
      is_sqrt (x * (LB ^ l * LB ^ l) + d1 * LB ^ l + value a0) (value tabs) (value r + LB ^ (l + h) * rh)).
Proof.
  intros Hlh Hmax Zg0 Zs Ls Za La Zu Lu Zg Lg Zq Lq Hqh Hx Hd1 HB HxP EQ Eu. set (B := LB ^ l) in *. set (s1 := value sh) in *.
  assert (0 < B) as HBp by (apply LB_pow_pos; lia). pose proof (value_bound a0 La) as Hd0. unfold base_pow in Hd0. rewrite Za in Hd0. fold B in Hd0.
  destruct (sqrt_step x s1 r1 B d1 (value a0) Hx Hd1 Hd0 HB) as (Hq & _ & HR & H). cbv zeta in *.
  destruct (double_quotient (r1 * B + d1) s1 ltac:(lia)) as [D1 D2]. rewrite <- EQ in D1, D2. rewrite <- Eu in D2.
  set (q := (r1 * B + d1) / (2 * s1)) in *. set (u2 := (r1 * B + d1) mod (2 * s1)) in *. set (Q := qh * B + value qt) in *.
  destruct (snoc_cases qt) as (qt' & t & ->); [lia|]. rewrite zlen_app in Zq. change (zlen [t]) with 1 in Zq. apply Forall_app in Lq as [Lq' Lt]. inversion_clear Lt as [|? ? Ht _].
  assert (zlen qt' = l) as Zq' by lia. assert (Q = (qh + t) * B + value qt') as EQ'. { unfold Q. rewrite value_snoc. unfold base_pow. rewrite Zq'. fold B. lia. }
  assert (Q < 3 * B) as HQ3. { pose proof (Z.div_mod Q 2 ltac:(lia)). pose proof (Z.mod_pos_bound Q 2 ltac:(lia)). assert (2 <= B) by (unfold B; apply Z.le_trans with (LB ^ 1); [done|apply LB_pow_le; lia]). lia. }
  unfold sqrtrem_finish. rewrite <- app_assoc. mstep.
  eapply post_mono; [apply (sqrtrem_quotient_spec l h qh g0 sh a0 u g qt' t tmp' Q); done || lia|]. intros [[[tabs taba] qh'] rh] (ql & sh' & u' & -> & -> & Zql & Lql & Zsh' & Lsh' & Zu' & Lu' & Hqh' & Eq & Esh & Hrh & Eu').
  fold B in Eq. rewrite <- D1 in Eq. fold s1 in Eu', Esh. rewrite <- D2 in Eu'. mstep. rewrite app_assoc.
  eapply mpost_mono; [apply (sqrtrem_square_spec l h qh' ql sh' (a0 ++ u') g); try done; [rewrite zlen_app; lia|by apply limbs_app|fold B; lia]|].
  intros [taba b] (r & g' & -> & Zr & Lr & Zg' & Lg' & Hb & Er). fold B in Er. rewrite Eq in Er. mstep. set (P := LB ^ (l + h)) in *.
  assert (P = B * LB ^ h) as EP by (unfold P, B; rewrite <- Z.pow_add_r by lia; done). rewrite value_app in Er. unfold base_pow in Er. rewrite Za in Er. fold B in Er.
  eapply post_mono; [apply (sqrtrem_correct_spec (l + h) (rh - b) (ql ++ sh') r g' (s1 * B + q) (u2 * B + value a0 - q * q) (x * (B * B) + d1 * B + value a0)); fold P|].
  - by apply limbs_app.
  - rewrite zlen_app. lia.
  - done.
  - done.
  - rewrite value_app. unfold base_pow. rewrite Zql. fold B. rewrite Esh, EP. replace (s1 * B + q) with (value ql + B * (s1 + qh')) by lia.
    pose proof (LB_pow_pos h ltac:(lia)) as HLh. rewrite Z.rem_mul_r by lia. pose proof (value_bound ql Lql) as Hb'. unfold base_pow in Hb'. rewrite Zql in Hb'. fold B in Hb'.
    rewrite (Z.mul_comm B (s1 + qh')). rewrite Z.mod_add by lia. rewrite Z.div_add by lia. rewrite (Z.mod_small (value ql) B Hb'), (Z.div_small (value ql) B Hb'), Z.add_0_l. done.
  - lia.
  - rewrite <- Eu'. rewrite EP in *. lia.
  - exact H.
  - rewrite EP. assert (x * (B * B) + d1 * B + value a0 < (x + 1) * (B * B)) by nia. assert ((x + 1) * (B * B) <= (LB ^ h * LB ^ h) * (B * B)) by (apply Z.mul_le_mono_nonneg_r; lia). lia.
  - intros [[tabs taba] rh'] (r' & -> & Lr' & Zr' & Lt' & Zt' & Hrh' & Hend). exists r', g'. split_and!; done || lia.
Qed.
(** What the recursion gives. *)
Definition sqrtrem_post (a : Z) (n ntmp : Z) '(tabs, taba, tmp, rh) : Prop :=
  limbs tabs /\ zlen tabs = n /\ limbs taba /\ zlen taba = 2 * n /\ limbs tmp /\ zlen tmp = ntmp /\ 0 <= rh <= 1 /\
  is_sqrt a (value tabs) (value (take (Z.to_nat n) taba) + LB ^ n * rh).

Lemma sqrtrem_one depth tabs taba tmp :
  zlen tabs = 1 -> limbs taba -> zlen taba = 2 -> limbs tmp -> LB * LB <= 4 * value taba ->
  mpost (mp_sqrtrem_rec (S depth) tabs taba tmp) (sqrtrem_post (value taba) 1 (zlen tmp)).
Proof.
  intros Zs La Za Lt Htop. destruct tabs as [|y [|z tabs]]; [done| |rewrite !zlen_cons in Zs; pose proof (zlen_nonneg tabs); lia].
  destruct taba as [|a0 [|a1 [|a2 taba]]]; [done|done| |rewrite !zlen_cons in Za; pose proof (zlen_nonneg taba); lia].
  inversion_clear La as [|? ? H0 La']. inversion_clear La' as [|? ? H1 _]. cbn [value] in *. rewrite Z.mul_0_r, Z.add_0_r in *. unfold in_u64 in H0, H1. unfold LB in Htop.
  destruct (mp_sqrtrem2_spec y a0 a1 H0) as (s & r0 & rh & E & Hs & Us & Ur & Hrh); [lia|]. cbn [mp_sqrtrem_rec]. change (zlen [y] =? 1) with true. cbv iota. rewrite E. mstep. apply post_ret. apply mpost_ret.
  assert (limbs [s] /\ limbs [r0; a1]) as [L1 L2] by (split; repeat (constructor; [assumption|]); constructor).
  split_and!; try done; try lia. change (take (Z.to_nat 1) [r0; a1]) with [r0]. replace (value [s]) with s by (cbn [value]; lia). by replace (value [r0] + LB ^ 1 * rh) with (r0 + LB * rh) by (cbn [value]; lia).
Qed.

(** The root of the high limbs, and its remainder less the root when it has a limb more. *)
Lemma high_remainder sh rl qh x h :
  limbs sh -> limbs rl -> zlen sh = h -> zlen rl = h -> 0 <= qh <= 1 -> is_sqrt x (value sh) (value rl + LB ^ h * qh) ->
  let rl' := if negb (qh =? 0) then (mp_sub_limbs rl sh 0).1 else rl in
  limbs rl' /\ zlen rl' = h /\ value rl' = value rl + LB ^ h * qh - qh * value sh.
Proof.
  intros Ls Lr Zs Zr Hqh [_ Hrem]. pose proof (value_bound sh Ls) as Hb. pose proof (value_bound rl Lr) as Hbr. unfold base_pow in Hb, Hbr. rewrite Zs in Hb. rewrite Zr in Hbr.
  destruct (Z.eqb_spec qh 0) as [->|Hne]; cbn [negb]; [split_and!; done || lia|]. assert (qh = 1) as -> by lia.
  destruct (mp_sub_spec rl sh 0 Lr Ls ltac:(unfold zlen in *; lia) ltac:(lia)) as [(L & N & V) Hc]. destruct (mp_sub_limbs rl sh 0) as [rl' c]. cbn [fst snd] in *.
  change (Z.of_nat (length rl)) with (zlen rl) in V. rewrite Zr in V. assert (zlen rl' = h) as Zl by (unfold zlen in *; lia). pose proof (value_bound rl' L) as Hbl. unfold base_pow in Hbl. rewrite Zl in Hbl.
  split; [done|]. split; [done|]. assert (c = 1) as -> by nia. lia.
Qed.
Lemma sqrtrem_divide_spec l h qh sh a0 a1 rl rg tmp x :
  0 < l <= h -> l + h <= 2 ^ 30 -> zlen a0 = l -> limbs a1 -> zlen a1 = l -> limbs sh -> zlen sh = h -> LB ^ h <= 2 * value sh -> limbs rl -> zlen rl = h -> limbs rg -> zlen rg = h ->
  limbs tmp -> l + 1 <= zlen tmp -> 0 <= qh <= 1 -> is_sqrt x (value sh) (value rl + LB ^ h * qh) ->
  let num := (value rl + LB ^ h * qh) * LB ^ l + value a1 in
  mpost (sqrtrem_divide l h qh sh (a0 ++ a1 ++ rl ++ rg) tmp) (fun '(taba, tmp') =>
    exists u g qt rest, taba = a0 ++ u ++ g /\ zlen u = h /\ limbs u /\ zlen g = l + h /\ limbs g /\ tmp' = qt ++ rest /\ zlen qt = l + 1 /\ limbs qt /\
      limbs rest /\ zlen tmp' = zlen tmp /\ qh * LB ^ l + value qt = num / value sh /\ value u = num mod value sh).
Proof.
  intros Hlh Hmax Za0 La1 Za1 Ls Zs Hn Lr Zr Lrg Zrg Lt Zt Hqh Hx num. destruct (high_remainder sh rl qh x h Ls Lr Zs Zr Hqh Hx) as (Lr' & Zr' & Vr').
  unfold sqrtrem_divide. apply mpost_bind. apply mpost_mono with (fun taba => taba = a0 ++ a1 ++ (if negb (qh =? 0) then (mp_sub_limbs rl sh 0).1 else rl) ++ rg).
  { mstep. destruct (negb (qh =? 0)); [|by apply post_ret]. rewrite !app_assoc, <- (app_assoc _ rl rg). rewrite (rd_slice_at (a0 ++ a1) rl rg) by (rewrite ?zlen_app; lia). cbn [obind].
    rewrite mp_sub_in by lia. destruct (mp_sub_limbs rl sh 0) as [r c]. cbn [obind fst] in *.
    rewrite (wr_slice_at (a0 ++ a1) rl rg) by (rewrite ?zlen_app; lia). apply post_ret. by rewrite !app_assoc. }
  intros taba ->. cbv zeta in Lr', Zr', Vr'. set (rl' := if negb (qh =? 0) then _ else rl) in *. clearbody rl'.
  rewrite (app_assoc a1 rl' rg), (rd_slice_at a0 (a1 ++ rl') rg) by (rewrite ?zlen_app; lia). mstep. apply post_ret.
  destruct (block_halves tmp (l + 1)) as (q0 & rest & -> & Zq0 & Zrest); [lia|]. apply Forall_app in Lt as [Lq0 Lrest]. rewrite (rd_slice_first q0) by done. mstep. apply post_ret. mstep.
  eapply mpost_mono; [apply (mp_divnorm_divides q0 (a1 ++ rl') sh); try done; [by apply limbs_app|apply normalized_of_value; [done|lia|unfold base_pow; by rewrite Zs]|rewrite zlen_app; lia..]|].
  intros [qt t] (Lqt & Zqt & Ltt & Ztt & Ediv & Hlt). rewrite zlen_app in Zqt, Ztt. rewrite Zs in *. rewrite value_app in Ediv. unfold base_pow in Ediv. rewrite Za1 in Ediv.
  rewrite (wr_slice_first q0) by lia. mstep. apply post_ret. rewrite (wr_slice_at a0 (a1 ++ rl') rg t) by (rewrite ?zlen_app; lia). mstep. apply post_ret. apply mpost_ret.
  destruct (block_halves t h) as (u & gt & -> & Zu & Zgt); [lia|]. apply Forall_app in Ltt as [Lu Lgt]. assert (take (Z.to_nat h) (u ++ gt) = u) as Etk by (rewrite <- Zu; unfold zlen; by rewrite Nat2Z.id, take_app_length).
  rewrite Etk in *. exists u, (gt ++ rg), qt, rest. rewrite !zlen_app. pose proof (value_bound u Lu).
  assert (num = value sh * (qh * LB ^ l + value qt) + value u) as En by (unfold num; lia).
  assert (qh * LB ^ l + value qt = num / value sh /\ value u = num mod value sh) as [E1 E2].
  { split; [apply Z.div_unique with (value u)|apply Z.mod_unique with (qh * LB ^ l + value qt)]; (left; lia) || lia. }
  split_and!; try done; try lia; [by rewrite <- app_assoc|by apply limbs_app].
Qed.

(** The high half of a number whose highest bits are not both zero. *)
Lemma high_half B H v0 v1 x :
  0 < B -> 0 <= v0 < B -> 0 <= v1 < B -> (B * (4 * H)) * (B * (4 * H)) <= 4 * (v0 + B * (v1 + B * x)) -> (4 * H) * (4 * H) <= 4 * x.
Proof. intros HB H0 H1 Hle. assert (v0 + B * v1 < B * B) by nia. assert (B * B * (4 * H * H) < B * B * (x + 1)) as Hlt by lia. apply Z.mul_lt_mono_pos_l in Hlt; nia. Qed.

Lemma mp_sqrtrem_rec_spec depth tabs taba tmp :
  (Z.to_nat (zlen tabs) <= depth)%nat -> 0 < zlen tabs <= 2 ^ 30 -> limbs taba -> zlen taba = 2 * zlen tabs -> limbs tmp -> zlen tabs / 2 + 1 <= zlen tmp ->
  LB ^ zlen tabs * LB ^ zlen tabs <= 4 * value taba ->
  mpost (mp_sqrtrem_rec depth tabs taba tmp) (sqrtrem_post (value taba) (zlen tabs) (zlen tmp)).
Proof.
  revert tabs taba tmp. induction depth as [|depth IH]; intros tabs taba tmp Hd [Hn Hmax] La Za Lt Zt Htop; [lia|].
  destruct (Z.eq_dec (zlen tabs) 1) as [E1|Hn1]; [rewrite E1 in *; apply sqrtrem_one; done || lia|].
  cbn [mp_sqrtrem_rec]. rewrite (proj2 (Z.eqb_neq _ 1)) by done. cbv zeta. set (n := zlen tabs) in *. set (l := n / 2) in *. set (h := n - l) in *.
  pose proof (Z.div_mod n 2 ltac:(lia)) as En2. pose proof (Z.mod_pos_bound n 2 ltac:(lia)) as Hn2. fold l in En2.
  assert (0 < l <= h /\ n = l + h /\ h < n) as (Hlh & En & Hhn) by (unfold h; lia). assert (h / 2 <= l) as Hhl by (apply Z.div_le_upper_bound; lia).
  destruct (block_halves tabs l ltac:(lia)) as (g0 & sh0 & Es & Zg0 & Zsh0). fold n in Zsh0. fold h in Zsh0.
  destruct (block_split taba l l ltac:(lia) ltac:(lia) ltac:(lia)) as (a0 & a1 & ah & Ea & Za0 & Za1). rewrite Ea in La, Htop, Za |- *. rewrite !zlen_app in Za.
  apply Forall_app in La as [La0 La']. apply Forall_app in La' as [La1 Lah]. rewrite Es. rewrite !value_app in *. unfold base_pow in *. rewrite Za0, Za1 in *. set (B := LB ^ l) in *.
  pose proof (value_bound a0 La0) as H0. pose proof (value_bound a1 La1) as H1. pose proof (value_bound ah Lah) as Hx. unfold base_pow in H0, H1, Hx. rewrite Za0 in H0. rewrite Za1 in H1. fold B in H0, H1.
  assert (zlen ah = 2 * h) as Zah by lia. rewrite Zah in Hx. assert (exists H, LB ^ h = 4 * H /\ LB ^ n = B * (4 * H)) as (H & EH & EP).
  { exists (2 ^ 62 * LB ^ (h - 1)). assert (LB ^ h = 4 * (2 ^ 62 * LB ^ (h - 1))) as E by (replace h with (1 + (h - 1)) at 1 by lia; rewrite Z.pow_add_r, Z.pow_1_r by lia; unfold LB; lia).
    split; [done|]. rewrite <- E, En. unfold B. by rewrite Z.pow_add_r by lia. }
  assert (LB ^ (2 * h) = LB ^ h * LB ^ h) as E2h by (rewrite <- Z.pow_add_r by lia; f_equal; lia). rewrite EP in Htop. pose proof (high_half B H _ _ _ ltac:(lia) H0 H1 Htop) as Hah. rewrite <- EH in Hah.
  rewrite (rd_slice_last g0 sh0) by done. mstep. apply post_ret. rewrite app_assoc, (rd_slice_last (a0 ++ a1) ah) by (rewrite ?zlen_app; lia). mstep. apply post_ret. mstep.
  eapply mpost_mono; [apply (IH sh0 ah tmp); rewrite ?Zsh0; done || lia|]. rewrite Zsh0. intros [[[sh ah'] tmp1] qh] (Lsh & Zsh & Lah' & Zah' & Lt1 & Zt1 & Hqh & Hroot).
  rewrite (wr_slice_last g0 sh0 sh) by lia. mstep. apply post_ret. rewrite (wr_slice_last (a0 ++ a1) ah ah') by (rewrite ?zlen_app; lia). mstep. apply post_ret.
  destruct (block_halves ah' h) as (rl & rg & -> & Zrl & Zrg); [lia|]. apply Forall_app in Lah' as [Lrl Lrg].
  assert (take (Z.to_nat h) (rl ++ rg) = rl) as Etk by (rewrite <- Zrl; unfold zlen; by rewrite Nat2Z.id, take_app_length). rewrite Etk in Hroot.
  pose proof (LB_pow_pos h ltac:(lia)) as HLh.
  destruct (sqrt_normalized _ _ _ (2 * H) Hroot ltac:(lia) ltac:(replace (2 * (2 * H)) with (LB ^ h) by lia; exact Hah) ltac:(replace (2 * (2 * H)) with (LB ^ h) by lia; lia)) as [Hs1 _].
  rewrite <- app_assoc. mstep. eapply mpost_mono; [apply (sqrtrem_divide_spec l h qh sh a0 a1 rl rg tmp1 (value ah)); done || lia|].
  intros [taba2 tmp2] (u & g & qt & rest & -> & Zu & Lu & Zg & Lg & -> & Zqt & Lqt & Lrest & Zt2 & EQ & Eu). mstep. fold B in EQ, Eu.
  assert (B <= 2 * value sh) as HB2 by (apply Z.le_trans with (LB ^ h); [apply LB_pow_le; lia|lia]).
  eapply mpost_mono; [apply (sqrtrem_finish_spec l h qh g0 sh a0 u g qt rest (value ah) (value rl + LB ^ h * qh) (value a1)); done || lia|].
  intros [[tabs2 taba3] rh] (r & g' & -> & Zr & Lr & Zg' & Lg' & Ltb & Ztb & Hrh & Hend). apply mpost_ret. fold B in Hend. rewrite <- En in *.
  replace (value ah * (B * B) + value a1 * B + value a0) with (value a0 + B * (value a1 + B * value ah)) in Hend by lia.
  assert (take (Z.to_nat n) (r ++ g') = r) as Etk2 by (rewrite <- Zr; unfold zlen; by rewrite Nat2Z.id, take_app_length).
  unfold sqrtrem_post. rewrite Etk2, !zlen_app in *. split_and!; try done; try lia; by apply limbs_app.
Qed.

(** [mp_sqrtrem] computes the square root, of at most [2 ^ 30] limbs, and the remainder of a number whose two highest bits are not both zero. *)
Lemma mp_sqrtrem_spec tabs taba :
  0 < zlen tabs <= 2 ^ 30 -> limbs taba -> zlen taba = 2 * zlen tabs -> LB ^ zlen tabs * LB ^ zlen tabs <= 4 * value taba ->
  mpost (mp_sqrtrem tabs taba) (fun '(tabs', taba') =>
    limbs tabs' /\ zlen tabs' = zlen tabs /\ limbs taba' /\ zlen taba' = 2 * zlen tabs /\
    is_sqrt (value taba) (value tabs') (value (take (Z.to_nat (zlen tabs + 1)) taba'))).
Proof.
  intros [Hn Hmax] La Za Htop. unfold mp_sqrtrem. set (n := zlen tabs) in *. assert (0 <= n / 2 <= n) by (split; [apply Z.div_pos|apply Z.div_le_upper_bound]; lia). mstep.
  apply mpost_mono with (fun tmp => limbs tmp /\ n / 2 + 1 <= zlen tmp).
  { destruct (Z.leb_spec (n / 2 + 1) 8); [apply mpost_ret; split; [apply limbs_replicate_0|rewrite zlen_replicate; lia]|].
    apply mpost_malloc; [lia|]. intros tmp Hl Hz. split; [done|lia]. }
  intros tmp [Lt Zt]. mstep. eapply mpost_mono; [apply mp_sqrtrem_rec_spec; done || lia|]. fold n.
  intros [[[tabs' taba'] tmp'] rh] (Ltb & Ztb & Lta & Zta & _ & _ & Hrh & Hroot).
  destruct (block_halves taba' n) as (r & g & -> & Zr & Zg); [lia|]. destruct g as [|y g]; [change (zlen (@nil Z)) with 0 in Zg; lia|].
  assert (take (Z.to_nat n) (r ++ y :: g) = r) as Etk by (rewrite <- Zr; unfold zlen; by rewrite Nat2Z.id, take_app_length). rewrite Etk in Hroot.
  mstep. rewrite wr_app by done. apply post_ret. apply mpost_ret. apply Forall_app in Lta as [Lr Lg]. inversion_clear Lg as [|? ? _ Lg'].
  assert (take (Z.to_nat (n + 1)) (r ++ rh :: g) = r ++ [rh]) as ->.
  { replace (Z.to_nat (n + 1)) with (length r + 1)%nat by (unfold zlen in Zr; lia). rewrite take_app_add. done. }
  rewrite value_snoc. unfold base_pow. rewrite Zr. split; [done|]. split; [done|]. split; [apply limbs_app; [done|]; constructor; [unfold in_u64; lia|done]|].
  split; [rewrite zlen_app, zlen_cons in *; lia|done].
Qed.
End SqrtRec.
