(* ===== verification/Bf.v ===== *)
(** The floating point numbers of [libbf.c]: representation, rounding, comparison
    and the four operations.

    A number is a sign, an exponent and the limbs of its mantissa, the highest bit
    set: [(-1) ^ sign * value tab * 2 ^ (expn - 64 * len)].  Zero, infinity and NaN
    have no limbs.  A number passed by reference is an argument and a result; a
    function whose result may be one of its operands has an argument that says so. *)
From Stdlib Require Import ZArith Lia Bool List.
From stdpp Require Import base tactics list numbers.
From S2P Require Import Prelude Alloc Limb MpMul MpDiv.

(** * Constants *)

Definition BF_RAW_EXP_MIN : Z := - 2 ^ 63.
Definition BF_RAW_EXP_MAX : Z := 2 ^ 63 - 1.
Definition BF_EXP_ZERO : Z := BF_RAW_EXP_MIN.
Definition BF_EXP_INF : Z := BF_RAW_EXP_MAX - 1.
Definition BF_EXP_NAN : Z := BF_RAW_EXP_MAX.
Definition BF_EXP_BITS_MAX : Z := LIMB_BITS - 3.
Definition BF_EXT_EXP_BITS_MAX : Z := BF_EXP_BITS_MAX + 1.
Definition BF_PREC_MAX : Z := Z.shiftl 1 (LIMB_BITS - 2) - 2.
Definition BF_PREC_INF : Z := BF_PREC_MAX + 1.

Definition BF_RNDN : Z := 0.
Definition BF_RNDZ : Z := 1.
Definition BF_RNDD : Z := 2.
Definition BF_RNDU : Z := 3.
Definition BF_RNDNA : Z := 4.
Definition BF_RNDA : Z := 5.
Definition BF_RNDF : Z := 6.
Definition BF_DIVREM_EUCLIDIAN : Z := BF_RNDF.

Definition BF_FLAG_SUBNORMAL : Z := Z.shiftl 1 3.
Definition BF_FLAG_RADPNT_PREC : Z := Z.shiftl 1 4.
Definition BF_RND_MASK : Z := 0x7.
Definition BF_EXP_BITS_SHIFT : Z := 5.
Definition BF_EXP_BITS_MASK : Z := 0x3f.
Definition BF_FLAG_EXT_EXP : Z := Z.shiftl BF_EXP_BITS_MASK BF_EXP_BITS_SHIFT.

Definition BF_ST_INVALID_OP : Z := Z.shiftl 1 0.
Definition BF_ST_DIVIDE_ZERO : Z := Z.shiftl 1 1.
Definition BF_ST_OVERFLOW : Z := Z.shiftl 1 2.
Definition BF_ST_UNDERFLOW : Z := Z.shiftl 1 3.
Definition BF_ST_INEXACT : Z := Z.shiftl 1 4.
Definition BF_ST_MEM_ERROR : Z := Z.shiftl 1 5.

Definition bf_get_exp_bits (flags : Z) : Z :=
  let e := Z.land (Z.shiftr flags BF_EXP_BITS_SHIFT) BF_EXP_BITS_MASK in
  if e =? BF_EXP_BITS_MASK then BF_EXP_BITS_MAX + 1 else BF_EXP_BITS_MAX - e.
Definition bf_set_exp_bits (n : Z) : Z :=
  Z.shiftl (Z.land (BF_EXP_BITS_MAX - n) BF_EXP_BITS_MASK) BF_EXP_BITS_SHIFT.

Definition rnd_mode_of (flags : Z) : Z := Z.land flags BF_RND_MASK.
Definition has_flag (flags f : Z) : bool := negb (Z.land flags f =? 0).

(** * Numbers *)

Record bf_t : Type := mkBf { sign : Z; expn : Z; tab : list Z }.
Definition len (r : bf_t) : Z := zlen (tab r).

Definition set_sign (r : bf_t) (s : Z) : bf_t := mkBf s (expn r) (tab r).
Definition set_expn (r : bf_t) (e : Z) : bf_t := mkBf (sign r) e (tab r).
Definition set_tab (r : bf_t) (t : list Z) : bf_t := mkBf (sign r) (expn r) t.

Definition bf_init : bf_t := mkBf 0 BF_EXP_ZERO [].
Definition bf_neg (r : bf_t) : bf_t := set_sign r (Z.lxor (sign r) 1).
Definition bf_is_finite (a : bf_t) : bool := expn a <? BF_EXP_INF.
Definition bf_is_nan (a : bf_t) : bool := expn a =? BF_EXP_NAN.
Definition bf_is_zero (a : bf_t) : bool := expn a =? BF_EXP_ZERO.

(** ** Functions that allocate and return a status *)

Section Heap.
Context `{AL : Allocator}.

Definition heap_m (A : Type) : Type := heap -> outcome (heap * A).
Definition hret {A : Type} (a : A) : heap_m A := fun h => Ret (h, a).
Definition hlift {A : Type} (m : outcome A) : heap_m A := fun h => let* a := m in Ret (h, a).
Definition hbind {A B : Type} (m : heap_m A) (k : A -> heap_m B) : heap_m B := fun h =>
  let* (h, a) := m h in k a h.

(** [m] returns without a fault a value that satisfies [Q]. *)
Definition hpost {A : Type} (m : heap_m A) (Q : A -> Prop) : Prop := forall h, post (m h) (fun '(_, a) => Q a).

Lemma hpost_ret {A : Type} (a : A) (Q : A -> Prop) : Q a -> hpost (hret a) Q.
Proof. by intros H h. Qed.

Lemma hpost_lift {A : Type} (m : outcome A) (Q : A -> Prop) : post m Q -> hpost (hlift m) Q.
Proof. intros H h. unfold hlift. apply post_bind. by destruct m. Qed.

Lemma hpost_bind {A B : Type} (m : heap_m A) (k : A -> heap_m B) (Q : B -> Prop) :
  hpost m (fun a => hpost (k a) Q) -> hpost (hbind m k) Q.
Proof. intros H h. unfold hbind. apply post_bind. eapply post_mono; [exact (H h)|]. intros [h' a] Ha. exact (Ha h'). Qed.

(** The same, from the state [h] of the allocator. *)
Definition hpost_from {A : Type} (h : heap) (m : heap_m A) (Q : A -> Prop) : Prop := post (m h) (fun '(_, a) => Q a).

Lemma hpost_from_bind {A B : Type} (h : heap) (m : heap_m A) (k : A -> heap_m B) (Q : B -> Prop) :
  hpost_from h m (fun a => hpost (k a) Q) -> hpost_from h (hbind m k) Q.
Proof. intros H. unfold hpost_from, hbind. apply post_bind. eapply post_mono; [exact H|]. intros [h' a] Ha. exact (Ha h'). Qed.

Lemma hpost_from_lift {A B : Type} (h : heap) (m : outcome A) (k : A -> heap_m B) (Q : B -> Prop) :
  post m (fun a => hpost_from h (k a) Q) -> hpost_from h (hbind (hlift m) k) Q.
Proof. intros H. unfold hpost_from, hbind, hlift. by destruct m as [a|]. Qed.

Lemma hpost_from_mono {A : Type} (h : heap) (m : heap_m A) (P Q : A -> Prop) :
  hpost_from h m P -> (forall a, P a -> Q a) -> hpost_from h m Q.
Proof. intros H HPQ. eapply post_mono; [exact H|]. intros [h' a]; auto. Qed.

Lemma hpost_mono {A : Type} (m : heap_m A) (P Q : A -> Prop) : hpost m P -> (forall a, P a -> Q a) -> hpost m Q.
Proof. intros H HPQ h. eapply post_mono; [exact (H h)|]. intros [h' a]; auto. Qed.

(** The result of a function that allocates, or none after [goto fail]. *)
Lemma hpost_alloc {A : Type} (m : alloc_m A) (Q : A -> Prop) :
  mpost m Q -> hpost (m : heap_m (option A)) (fun r => match r with Some a => Q a | None => can_refuse end).
Proof. intros H h. eapply post_mono; [exact (H h)|]. by intros [h' r]. Qed.
End Heap.

Arguments heap_m {AL} A.

Notation "'let!' x ':=' m 'in' k" := (hbind m (fun x => k))
  (at level 10, x pattern, m at level 200, k at level 200) : c_scope.

(** One step of symbolic execution under [hpost]. *)
Ltac hstep :=
  lazymatch goal with
  | |- hpost (hbind (hlift _) _) _ => apply hpost_bind, hpost_lift
  | |- hpost (hbind (hret _) _) _ => apply hpost_bind, hpost_ret
  | |- hpost (hbind _ _) _ => apply hpost_bind
  | |- hpost (hret _) _ => apply hpost_ret
  | |- hpost (hlift _) _ => apply hpost_lift
  end.

(** The answer of the allocator to a request to make a block smaller, of [n]
    bytes.  Many calls of [bf_resize] rely on such a request to be granted: they
    carry the comment "cannot fail". *)
Class Shrinker `{AL : Allocator} := shrink : heap -> Z -> heap * bool.
Class ShrinkGranted `{SH : Shrinker} := shrink_granted : forall h n, (shrink h n).2 = true.

Section Bf.
Context `{SH : Shrinker}.

(** [bf_resize], and whether it succeeds; a failing call leaves the number. *)
Definition bf_resize (r : bf_t) (n : Z) : heap_m (bf_t * bool) := fun h =>
  if negb (n =? len r) then
    if n =? 0 then Ret (h, (set_tab r [], true))
    else if n <? len r then
      let '(h, ok) := shrink h (n * 8) in
      Ret (h, if ok then (set_tab r (take (Z.to_nat n) (tab r)), true) else (r, false))
    else
      let '(h, t) := realloc 8 u64 h (tab r) n in
      Ret (h, match t with Some t => (set_tab r t, true) | None => (r, false) end)
  else Ret (h, (r, true)).

(** A call whose result is not tested. *)
Definition bf_resize_ (r : bf_t) (n : Z) : heap_m bf_t := let! (r, _) := bf_resize r n in hret r.

Definition bf_set_nan (r : bf_t) : heap_m bf_t :=
  let! r := bf_resize_ r 0 in hret (mkBf 0 BF_EXP_NAN (tab r)).
Definition bf_set_zero (r : bf_t) (is_neg : Z) : heap_m bf_t :=
  let! r := bf_resize_ r 0 in hret (mkBf is_neg BF_EXP_ZERO (tab r)).
Definition bf_set_inf (r : bf_t) (is_neg : Z) : heap_m bf_t :=
  let! r := bf_resize_ r 0 in hret (mkBf is_neg BF_EXP_INF (tab r)).

(** The label [fail]. *)
Definition bf_mem_error (r : bf_t) : heap_m (bf_t * Z) := let! r := bf_set_nan r in hret (r, BF_ST_MEM_ERROR).

Definition bf_set_ui (r : bf_t) (a : Z) : heap_m (bf_t * Z) :=
  let r := set_sign r 0 in
  if a =? 0 then
    let! r := bf_resize_ (set_expn r BF_EXP_ZERO) 0 in hret (r, 0)
  else
    let! (r, ok) := bf_resize r 1 in
    if negb ok then bf_mem_error r
    else
      let shift := clz a in
      let! t := hlift (wr (tab r) 0 (u64 (Z.shiftl a shift))) in
      hret (mkBf (sign r) (LIMB_BITS - shift) t, 0).

Definition bf_set_si (r : bf_t) (a : Z) : heap_m (bf_t * Z) :=
  if a <? 0 then let! (r, ret) := bf_set_ui r (u64 (- a)) in hret (set_sign r 1, ret)
  else bf_set_ui r (u64 a).

(** [same] says that [r] is [a]. *)
Definition bf_set (same : bool) (r a : bf_t) : heap_m (bf_t * Z) :=
  if same then hret (r, 0)
  else
    let! (r, ok) := bf_resize r (len a) in
    if negb ok then bf_mem_error r
    else
      let! t := hlift (if 0 <? len a then wr_slice (tab r) 0 (tab a) else Ret (tab r)) in
      hret (mkBf (sign a) (expn a) t, 0).

(** ** Bits *)

Definition get_limbz (a : bf_t) (idx : Z) : outcome Z :=
  if len a <=? u64 idx then Ret 0 else rd (tab a) (u64 idx).

(** The index is a [limb_t]: a negative position is outside the limbs. *)
Definition get_bits (t : list Z) (pos : Z) : outcome Z :=
  let i := u64 (Z.shiftr pos LIMB_LOG2_BITS) in
  let p := Z.land pos (LIMB_BITS - 1) in
  let* a0 := if i <? zlen t then rd t i else Ret 0 in
  if p =? 0 then Ret a0
  else
    let i := u64 (i + 1) in
    let* a1 := if i <? zlen t then rd t i else Ret 0 in
    Ret (Z.lor (Z.shiftr a0 p) (u64 (Z.shiftl a1 (LIMB_BITS - p)))).

Definition get_bit (t : list Z) (l pos : Z) : outcome Z :=
  let i := Z.shiftr pos LIMB_LOG2_BITS in
  if (i <? 0) || (l <=? i) then Ret 0
  else
    let* v := rd t i in
    Ret (Z.land (Z.shiftr v (Z.land pos (LIMB_BITS - 1))) 1).

Definition limb_mask (start last : Z) : Z :=
  let n := last - start + 1 in
  if n =? LIMB_BITS then u64 (-1) else u64 (Z.shiftl (u64 (u64 (Z.shiftl 1 n) - 1)) start).

Definition scan_bit_nz (r : bf_t) (bit_pos : Z) : outcome Z :=
  let pos := Z.shiftr bit_pos LIMB_LOG2_BITS in
  if pos <? 0 then Ret 0
  else
    let* t := rd (tab r) pos in
    let v := Z.land t (limb_mask 0 (Z.land bit_pos (LIMB_BITS - 1))) in
    if negb (v =? 0) then Ret 1
    else
      let* low := rd_slice (tab r) 0 pos in
      Ret (mp_scan_nz (rev low)).

(** * Rounding *)

(** The addend, and the status. *)
Definition bf_get_rnd_add (ret : Z) (r : bf_t) (l prec rnd_mode : Z) : outcome (Z * Z) :=
  let* bit0 := if rnd_mode =? BF_RNDF then Ret 1
               else scan_bit_nz r (i64 (l * LIMB_BITS - 1 - Z.max 0 (prec + 1))) in
  let* bit1 := get_bit (tab r) l (i64 (l * LIMB_BITS - 1 - prec)) in
  let inexact := b2z (negb (Z.lor bit1 bit0 =? 0)) in
  let* add_one :=
    if rnd_mode =? BF_RNDZ then Ret 0
    else if rnd_mode =? BF_RNDN then
      if negb (bit1 =? 0) then
        if negb (bit0 =? 0) then Ret 1
        else get_bit (tab r) l (i64 (l * LIMB_BITS - 1 - (prec - 1)))
      else Ret 0
    else if (rnd_mode =? BF_RNDD) || (rnd_mode =? BF_RNDU) then
      Ret (if sign r =? b2z (rnd_mode =? BF_RNDD) then inexact else 0)
    else if rnd_mode =? BF_RNDA then Ret inexact
    else if (rnd_mode =? BF_RNDNA) || (rnd_mode =? BF_RNDF) then Ret bit1
    else Err AssertFail in
  Ret (add_one, if negb (inexact =? 0) then Z.lor ret BF_ST_INEXACT else ret).

Definition bf_set_overflow (r : bf_t) (sgn prec flags : Z) : heap_m (bf_t * Z) :=
  let rnd_mode := rnd_mode_of flags in
  let st := Z.lor BF_ST_OVERFLOW BF_ST_INEXACT in
  if (prec =? BF_PREC_INF) || (rnd_mode =? BF_RNDN) || (rnd_mode =? BF_RNDNA) || (rnd_mode =? BF_RNDA) ||
     ((rnd_mode =? BF_RNDD) && (sgn =? 1)) || ((rnd_mode =? BF_RNDU) && (sgn =? 0)) then
    let! r := bf_set_inf r sgn in hret (r, st)
  else
    let l := u64 (prec + LIMB_BITS - 1) / LIMB_BITS in
    let! (r, ok) := bf_resize r l in
    if negb ok then bf_mem_error r
    else
      let! t := hlift (wr (tab r) 0 (limb_mask (Z.land (u64 (- prec)) (LIMB_BITS - 1)) (LIMB_BITS - 1))) in
      let! t := hlift (wr_slice t 1 (replicate (Z.to_nat (l - 1)) (u64 (-1)))) in
      let e_max := Z.shiftl 1 (bf_get_exp_bits flags - 1) in
      hret (mkBf sgn e_max t, st).

(** The addition of one at a bit of the limbs, with the carry out. *)
Fixpoint round_carry (t : list Z) (carry : Z) : list Z * Z :=
  match t with
  | x :: t' =>
      let v := u64 (x + carry) in
      let carry := b2z (v <? carry) in
      if carry =? 0 then (v :: t', 0) else let '(t', c) := round_carry t' carry in (v :: t', c)
  | [] => ([], carry)
  end.

(** The limbs from the first that is not zero. *)
Fixpoint skip_zeros (t : list Z) : outcome (list Z) :=
  match t with
  | x :: t' => if x =? 0 then skip_zeros t' else Ret t
  | [] => Err OutOfBounds
  end.

(** The end of [__bf_round]: keep the bits from [bit_pos] on, remove the zeros. *)
Definition round_keep (r : bf_t) (l bit_pos ret : Z) : heap_m (bf_t * Z) :=
  let i := Z.shiftr bit_pos LIMB_LOG2_BITS in
  let! (t, i) := hlift
    (if 0 <=? i then
       let shift := Z.land bit_pos (LIMB_BITS - 1) in
       if negb (shift =? 0) then
         let* x := rd (tab r) i in
         let* t := wr (tab r) i (Z.land x (limb_mask shift (LIMB_BITS - 1))) in
         Ret (t, i)
       else Ret (tab r, i)
     else Ret (tab r, 0)) in
  let! up := hlift (rd_slice t i (l - i)) in
  let! up := hlift (skip_zeros up) in
  let l' := zlen up in
  let! t := hlift (if l' <? l then wr_slice t 0 up else Ret t) in
  let! r := bf_resize_ (set_tab r t) l' in
  hret (r, ret).

(** The addition of one to the digit at [bit_pos]. *)
Definition round_add (r : bf_t) (l bit_pos : Z) : outcome bf_t :=
  let pos := Z.shiftr bit_pos LIMB_LOG2_BITS in
  let* up := rd_slice (tab r) pos (l - pos) in
  let '(up, carry) := round_carry up (u64 (Z.shiftl 1 (Z.land bit_pos (LIMB_BITS - 1)))) in
  let '(up, e) := if negb (carry =? 0) then (mp_shr_limbs up 1 1, i64 (expn r + 1)) else (up, expn r) in
  let* t := wr_slice (tab r) pos up in
  Ret (mkBf (sign r) e t).

(** The precision in bits, from the format. *)
Definition round_prec (r : bf_t) (prec1 flags e_min : Z) : outcome Z :=
  if has_flag flags BF_FLAG_RADPNT_PREC then
    Ret (if negb (prec1 =? BF_PREC_INF) then i64 (expn r + prec1) else prec1)
  else if (expn r <? e_min) && has_flag flags BF_FLAG_SUBNORMAL then
    let* _ := c_assert (negb (prec1 =? BF_PREC_INF)) in
    Ret (i64 (prec1 - (e_min - expn r)))
  else Ret prec1.

Definition round_underflow (r : bf_t) (ret : Z) : heap_m (bf_t * Z) :=
  let! r := bf_set_zero r (sign r) in hret (r, Z.lor ret (Z.lor BF_ST_UNDERFLOW BF_ST_INEXACT)).

Definition __bf_round (r : bf_t) (prec1 flags l ret : Z) : heap_m (bf_t * Z) :=
  let e_range := Z.shiftl 1 (bf_get_exp_bits flags - 1) in
  let e_min := - e_range + 3 in
  let e_max := e_range in
  let! prec := hlift (round_prec r prec1 flags e_min) in
  let! (add_one, ret) := hlift (bf_get_rnd_add ret r l prec (rnd_mode_of flags)) in
  if prec <=? 0 then
    if negb (add_one =? 0) then
      let! r := bf_resize_ r 1 in
      let! t := hlift (wr (tab r) 0 (Z.shiftl 1 (LIMB_BITS - 1))) in
      hret (mkBf (sign r) (i64 (expn r + (1 - prec))) t, Z.lor ret (Z.lor BF_ST_UNDERFLOW BF_ST_INEXACT))
    else round_underflow r ret
  else
    let bit_pos := i64 (l * LIMB_BITS - 1 - (prec - 1)) in
    let! r := hlift (if negb (add_one =? 0) then round_add r l bit_pos else Ret r) in
    if (expn r <? e_min) && negb (has_flag flags BF_FLAG_SUBNORMAL) then round_underflow r ret
    else
      let ret := if (expn r <? e_min) && has_flag ret BF_ST_INEXACT then Z.lor ret BF_ST_UNDERFLOW else ret in
      if e_max <? expn r then bf_set_overflow r (sign r) prec1 flags
      else round_keep r l bit_pos ret.

(** The loop that shifts the limbs to the left. *)
Fixpoint shl_limbs (t : list Z) (shift v : Z) : list Z :=
  match t with
  | a :: t => Z.lor (u64 (Z.shiftl a shift)) (Z.shiftr v (LIMB_BITS - shift)) :: shl_limbs t shift a
  | [] => []
  end.

(** The number of limbs without the zeros at the top. *)
Fixpoint top_len (rt : list Z) : Z :=
  match rt with
  | x :: rt' => if x =? 0 then top_len rt' else zlen rt
  | [] => 0
  end.

Definition bf_normalize_and_round (r : bf_t) (prec1 flags : Z) : heap_m (bf_t * Z) :=
  let l := top_len (rev (tab r)) in
  if l =? 0 then
    let! r := bf_resize_ (set_expn r BF_EXP_ZERO) 0 in hret (r, 0)
  else
    let r := set_expn r (i64 (expn r - (len r - l) * LIMB_BITS)) in
    let! v := hlift (rd (tab r) (l - 1)) in
    let shift := clz v in
    let! r := hlift
      (if negb (shift =? 0) then
         let* t := rd_slice (tab r) 0 l in
         let* t := wr_slice (tab r) 0 (shl_limbs t shift 0) in
         Ret (mkBf (sign r) (i64 (expn r - shift)) t)
       else Ret r) in
    __bf_round r prec1 flags l 0.

Definition bf_round (r : bf_t) (prec flags : Z) : heap_m (bf_t * Z) :=
  if len r =? 0 then hret (r, 0) else __bf_round r prec flags (len r) 0.

(** Rounding to an integer. *)
Definition bf_rint (r : bf_t) (rnd_mode : Z) : heap_m (bf_t * Z) :=
  bf_round r 0 (Z.lor rnd_mode BF_FLAG_RADPNT_PREC).

End Bf.
