(* ===== verification/BfRound.v ===== *)
(** Rounding of the floating point numbers of [libbf.c].

    [bf_round_spec] is the result of rounding a positive ratio [n / d * 2 ^ e] to a
    precision in a format: the number and the status.  [__bf_round] computes it
    from the limbs, for every mode, precision and format, subnormal numbers and
    overflow included. *)
From Stdlib Require Import ZArith Lia Bool List.
From stdpp Require Import base tactics list numbers.
From S2P Require Import Prelude IntFmt Alloc Limb MpMul MpDiv Bf.

(** * The specification *)

(** Whether the quotient [q] of [n / d], of remainder [r], is rounded up. *)
Definition rounds_up (mode sgn q r d : Z) : bool :=
  if mode =? BF_RNDZ then false
  else if mode =? BF_RNDN then (d <? 2 * r) || ((2 * r =? d) && Z.odd q)
  else if mode =? BF_RNDD then (sgn =? 1) && (0 <? r)
  else if mode =? BF_RNDU then (sgn =? 0) && (0 <? r)
  else if mode =? BF_RNDA then 0 <? r
  else d <=? 2 * r.

Definition round_ratio (mode sgn n d : Z) : Z := n / d + b2z (rounds_up mode sgn (n / d) (n mod d) d).

(** [n / d], of unit [2 ^ e], in units of [2 ^ k]. *)
Definition scaled (n d e k : Z) : Z * Z := (n * 2 ^ Z.max 0 (e - k), d * 2 ^ Z.max 0 (k - e)).

(** The exponent [E] of [n / d * 2 ^ e]: it is in [2 ^ (E - 1), 2 ^ E). *)
Definition ratio_exponent (n d e : Z) : Z :=
  let k := Z.log2 n - Z.log2 d in
  e + (if d * 2 ^ Z.max 0 k <=? n * 2 ^ Z.max 0 (- k) then k + 1 else k).

Inductive bf_value : Type :=
  | V_nan
  | V_inf (sgn : Z)
  | V_zero (sgn : Z)
  | V_num (sgn m e : Z).

Definition overflow_spec (sgn prec1 flags : Z) : bf_value * Z :=
  let mode := rnd_mode_of flags in
  let st := Z.lor BF_ST_OVERFLOW BF_ST_INEXACT in
  if (prec1 =? BF_PREC_INF) || (mode =? BF_RNDN) || (mode =? BF_RNDNA) || (mode =? BF_RNDA) ||
     ((mode =? BF_RNDD) && (sgn =? 1)) || ((mode =? BF_RNDU) && (sgn =? 0)) then (V_inf sgn, st)
  else (V_num sgn (2 ^ prec1 - 1) (Z.shiftl 1 (bf_get_exp_bits flags - 1) - prec1), st).

(** The precision in bits of a number of exponent [E]. *)
Definition prec_spec (E prec1 flags e_min : Z) : Z :=
  if has_flag flags BF_FLAG_RADPNT_PREC then if negb (prec1 =? BF_PREC_INF) then E + prec1 else prec1
  else if (E <? e_min) && has_flag flags BF_FLAG_SUBNORMAL then prec1 - (e_min - E)
  else prec1.

Definition bf_round_spec (sgn n d e prec1 flags : Z) : bf_value * Z :=
  let mode := rnd_mode_of flags in
  let e_max := Z.shiftl 1 (bf_get_exp_bits flags - 1) in
  let e_min := - e_max + 3 in
  let E := ratio_exponent n d e in
  let prec := prec_spec E prec1 flags e_min in
  let k := E - prec in
  let exact := (d =? 1) && (k <=? e) in
  let '(n', d') := scaled n d e k in
  let '(m, em) := if exact then (n, e) else (round_ratio mode sgn n' d', k) in
  let inexact := (mode =? BF_RNDF) || negb exact && negb (n' mod d' =? 0) in
  let st := if inexact then BF_ST_INEXACT else 0 in
  let under := Z.lor st (Z.lor BF_ST_UNDERFLOW BF_ST_INEXACT) in
  if prec <=? 0 then
    if m =? 0 then (V_zero sgn, under) else (V_num sgn m em, under)
  else
    let E' := if negb exact && (m =? 2 ^ prec) then E + 1 else E in
    if (E' <? e_min) && negb (has_flag flags BF_FLAG_SUBNORMAL) then (V_zero sgn, under)
    else
      let st := if (E' <? e_min) && has_flag st BF_ST_INEXACT then Z.lor st BF_ST_UNDERFLOW else st in
      if e_max <? E' then overflow_spec sgn prec1 flags
      else (V_num sgn m em, st).

(** Two ways to write a number with a power of two. *)
Definition same_number (m1 e1 m2 e2 : Z) : Prop :=
  m1 * 2 ^ (e1 - Z.min e1 e2) = m2 * 2 ^ (e2 - Z.min e1 e2).

Lemma same_number_le m1 e1 m2 e2 : e1 <= e2 -> m1 = m2 * 2 ^ (e2 - e1) -> same_number m1 e1 m2 e2.
Proof. intros He ->. unfold same_number. rewrite Z.min_l by done. rewrite Z.sub_diag. lia. Qed.

Lemma same_number_ge m1 e1 m2 e2 : e2 <= e1 -> m1 * 2 ^ (e1 - e2) = m2 -> same_number m1 e1 m2 e2.
Proof. intros He <-. unfold same_number. rewrite Z.min_r by done. rewrite Z.sub_diag. lia. Qed.

(** A number written with [s] more bits. *)
Lemma same_number_scale v e s m1 e1 m2 e2 :
  e = e1 + s /\ 0 <= s -> same_number m1 e1 m2 e2 -> v * 2 ^ s = m1 -> same_number v e m2 e2.
Proof.
  intros [-> Hs] H <-. unfold same_number in *. set (d := Z.min e1 e2) in *.
  assert (d <= Z.min (e1 + s) e2) as Hd by lia. set (d' := Z.min (e1 + s) e2) in *.
  apply Z.mul_cancel_r with (2 ^ (d' - d)); [lia|]. rewrite <- !Z.mul_assoc, <- !Z.pow_add_r by lia.
  rewrite <- Z.mul_assoc, <- Z.pow_add_r in H by lia.
  replace (e1 + s - d' + (d' - d)) with (s + (e1 - d)) by lia. by replace (e2 - d' + (d' - d)) with (e2 - d) by lia.
Qed.

(** A finite number other than zero. *)
Definition bf_normal (r : bf_t) : Prop :=
  limbs (tab r) /\ 0 < len r /\ LB ^ len r <= 2 * value (tab r) /\ (exists x t, tab r = x :: t /\ x <> 0).

Definition represents (r : bf_t) (v : bf_value) : Prop :=
  match v with
  | V_nan => r = mkBf 0 BF_EXP_NAN []
  | V_inf s => r = mkBf s BF_EXP_INF []
  | V_zero s => r = mkBf s BF_EXP_ZERO []
  | V_num s m e => bf_normal r /\ sign r = s /\ same_number (value (tab r)) (expn r - LIMB_BITS * len r) m e
  end.

(** The result of an operation, or an error when memory is short, which can be only if [short] holds. *)
Definition result_in (short : Prop) (spec : bf_value * Z) '(r, st) : Prop :=
  (short /\ st = BF_ST_MEM_ERROR /\ represents r V_nan) \/ (represents r spec.1 /\ st = spec.2).

(** The same, when the allocator refuses some request. *)
Definition result_is `{AL : Allocator} (spec : bf_value * Z) (res : bf_t * Z) : Prop := result_in can_refuse spec res.

Lemma result_in_is `{AL : Allocator} short spec res : (short -> can_refuse) -> result_in short spec res -> result_is spec res.
Proof. destruct res as [r st]. intros Hs [(H & Hr)|H]; [left; auto|by right]. Qed.

(** * Bits of a mantissa *)

Lemma LB_pow2 n : 0 <= n -> LB ^ n = 2 ^ (64 * n).
Proof. intros Hn. unfold LB. by rewrite <- Z.pow_mul_r by lia. Qed.

(** A mantissa around a limb: what is below, and the limb. *)
Lemma value_split t i x :
  limbs t -> at_ t i x ->
  value t = value (take (Z.to_nat i) t) + 2 ^ (64 * i) * (x + 2 ^ 64 * value (drop (Z.to_nat (i + 1)) t)) /\
  0 <= value (take (Z.to_nat i) t) < 2 ^ (64 * i).
Proof.
  intros Hl Hx. pose proof (at_lt _ _ _ Hx) as Hi. destruct Hx as [_ Hx].
  assert (zlen (take (Z.to_nat i) t) = i) as Hz by (apply zlen_take; lia).
  pose proof (value_bound _ (limbs_take (Z.to_nat i) t Hl)) as Hb. unfold base_pow in Hb. rewrite Hz, LB_pow2 in Hb by lia.
  split; [|done]. rewrite <- (take_drop_middle _ _ _ Hx) at 1. rewrite value_app. cbn [value]. unfold base_pow.
  rewrite Hz, LB_pow2 by lia. replace (S (Z.to_nat i)) with (Z.to_nat (i + 1)) by lia. reflexivity.
Qed.

(** The bit at [pos] is in the limb [pos / 64]. *)
Lemma value_testbit t i x p :
  limbs t -> at_ t i x -> 0 <= p < 64 -> Z.testbit (value t) (64 * i + p) = Z.testbit x p.
Proof.
  intros Hl Hx Hp. destruct (value_split t i x Hl Hx) as [-> Hb].
  pose proof (at_lt _ _ _ Hx) as Hi. assert (in_u64 x) as Hx64 by exact (at_Forall _ _ _ _ Hl Hx). u64_ranges.
  rewrite Z.add_comm with (n := 64 * i). rewrite <- Z.div_pow2_bits by lia. rewrite (Z.mul_comm (2 ^ (64 * i))), Z.div_add by lia.
  rewrite Z.div_small by lia. rewrite Z.add_0_l, (Z.mul_comm (2 ^ 64)).
  rewrite <- (Z.mod_pow2_bits_low _ 64 p) by lia. rewrite Z.mod_add by lia. by rewrite Z.mod_small.
Qed.

(** Positions are written with a limb and a bit. *)
Lemma pos_split pos : pos = 64 * Z.shiftr pos LIMB_LOG2_BITS + Z.land pos (LIMB_BITS - 1) /\ 0 <= Z.land pos (LIMB_BITS - 1) < 64.
Proof.
  change (LIMB_BITS - 1) with 63. rewrite (land_mask pos 6) by done. rewrite Z.shiftr_div_pow2 by done.
  change (2 ^ LIMB_LOG2_BITS) with 64. change (2 ^ 6) with 64. pose proof (Z.div_mod pos 64 ltac:(lia)).
  pose proof (Z.mod_pos_bound pos 64 ltac:(lia)). lia.
Qed.

Lemma land_1_testbit v p : 0 <= p -> Z.land (Z.shiftr v p) 1 = b2z (Z.testbit v p).
Proof.
  intros Hp. rewrite (land_mask _ 1) by done. rewrite Z.shiftr_div_pow2 by done. change (2 ^ 1) with 2.
  rewrite <- Z.testbit_spec' by done. by destruct (Z.testbit v p).
Qed.

(** The mantissa made of the [l] low limbs. *)
Definition mant (t : list Z) (l : Z) : Z := value (take (Z.to_nat l) t).

Lemma mant_bound t l : limbs t -> 0 <= l <= zlen t -> 0 <= mant t l < 2 ^ (64 * l).
Proof.
  intros Hl Hle. pose proof (value_bound _ (limbs_take (Z.to_nat l) t Hl)) as Hb. unfold base_pow in Hb.
  by rewrite zlen_take, LB_pow2 in Hb by lia.
Qed.

Lemma at_take {A : Type} (t : list A) l i x : 0 <= i < l -> at_ t i x -> at_ (take (Z.to_nat l) t) i x.
Proof. intros Hi [? Hx]. split; [done|]. rewrite lookup_take_lt by lia. done. Qed.

Lemma testbit_high m n p : 0 <= m < 2 ^ n -> n <= p -> 0 <= n -> Z.testbit m p = false.
Proof. intros Hm Hp Hn. rewrite <- (Z.mod_small _ _ Hm). by apply Z.mod_pow2_bits_high. Qed.

Lemma get_bit_spec t l pos :
  limbs t -> 0 <= l <= zlen t -> get_bit t l pos = Ret (b2z (Z.testbit (mant t l) pos)).
Proof.
  intros Hl Hle. pose proof (mant_bound t l Hl Hle) as Hb. unfold get_bit.
  destruct (pos_split pos) as [E Hp]. remember (Z.shiftr pos LIMB_LOG2_BITS) as i eqn:Ei.
  remember (Z.land pos (LIMB_BITS - 1)) as p eqn:Ep.
  destruct (Z.ltb_spec i 0); cbn [orb]; [by rewrite Z.testbit_neg_r by lia|].
  destruct (Z.leb_spec l i); [by rewrite (testbit_high _ _ _ Hb) by lia|].
  destruct (at_exists t i) as [x Hx]; [lia|]. rewrite (rd_at _ _ _ Hx). cbn [obind]. rewrite land_1_testbit by lia.
  rewrite E. unfold mant. rewrite (value_testbit _ i x p); auto with limbs. apply at_take; [lia|done].
Qed.

Lemma limb_mask_low n x : 0 <= n < 64 -> in_u64 x -> Z.land x (limb_mask 0 n) = x mod 2 ^ (n + 1).
Proof.
  intros Hn Hx. unfold limb_mask. rewrite Z.sub_0_r. change LIMB_BITS with 64.
  destruct (Z.eqb_spec (n + 1) 64) as [->|Hne].
  - change (u64 (-1)) with (2 ^ 64 - 1). by rewrite (land_mask _ 64).
  - rewrite Z.shiftl_0_r. rewrite Z.shiftl_mul_pow2, Z.mul_1_l by lia.
    assert (0 < 2 ^ (n + 1) <= 2 ^ 63) as Hp by (split; [|apply Z.pow_le_mono_r]; lia).
    set (v := 2 ^ (n + 1)) in *. change (2 ^ 63) with 9223372036854775808 in Hp.
    rewrite (u64_id v) by (unfold in_u64; lia). rewrite !(u64_id (v - 1)) by (unfold in_u64; lia). apply land_mask; [lia|done].
Qed.

Lemma mod_split a x n p : 0 <= n -> 0 <= p -> 0 <= a < 2 ^ n -> (a + 2 ^ n * x) mod 2 ^ (n + p) = a + 2 ^ n * (x mod 2 ^ p).
Proof.
  intros Hn Hp Ha. rewrite Z.pow_add_r by done. set (N := 2 ^ n) in *. assert (0 < 2 ^ p) as HP by lia. set (P := 2 ^ p) in *.
  pose proof (Z.mod_pos_bound x P HP). pose proof (Z.div_mod x P ltac:(lia)) as E.
  symmetry. apply Z.mod_unique with (x / P); [left|].
  - assert (N * (x mod P) <= N * (P - 1)) by (apply Z.mul_le_mono_nonneg_l; lia). assert (0 <= N * (x mod P)) by nia. lia.
  - rewrite E at 1. ring.
Qed.

Lemma value_zero t : limbs t -> value t = 0 <-> Forall (eq 0) t.
Proof.
  induction 1 as [|x t Hx Ht IH]; [done|]. cbn [value]. pose proof (value_bound t Ht). u64_ranges. pose proof LB_pos.
  rewrite Forall_cons_iff. split; [intros; split; [|apply IH]; nia|intros [<- Hz]; apply IH in Hz; lia].
Qed.

(** The bits from [pos] down. *)
Lemma scan_bit_nz_spec r pos :
  limbs (tab r) -> pos < 64 * len r ->
  scan_bit_nz r pos = Ret (b2z (negb (value (tab r) mod 2 ^ Z.max 0 (pos + 1) =? 0))).
Proof.
  intros Hl Hpos. unfold scan_bit_nz, len in *. destruct (pos_split pos) as [E Hp].
  remember (Z.shiftr pos LIMB_LOG2_BITS) as i eqn:Ei. remember (Z.land pos (LIMB_BITS - 1)) as p eqn:Ep.
  destruct (Z.ltb_spec i 0); [rewrite Z.max_l, Z.pow_0_r, Z.mod_1_r by lia; done|].
  destruct (at_exists (tab r) i) as [x Hx]; [lia|]. rewrite (rd_at _ _ _ Hx). cbn [obind].
  assert (in_u64 x) as Hx64 by exact (at_Forall _ _ _ _ Hl Hx). rewrite limb_mask_low by done.
  rewrite Z.max_r by lia. destruct (value_split _ i x Hl Hx) as [-> Hb]. replace (pos + 1) with (64 * i + (p + 1)) by lia.
  rewrite mod_split by lia. replace ((x + 2 ^ 64 * _) mod 2 ^ (p + 1)) with (x mod 2 ^ (p + 1)).
  2: { replace 64 with ((63 - p) + (p + 1)) by lia. rewrite (Z.pow_add_r _ (63 - p)) by lia.
       rewrite (Z.mul_comm (2 ^ (63 - p))), <- Z.mul_assoc, Z.mul_comm with (n := 2 ^ (p + 1)). by rewrite Z.mod_add by lia. }
  pose proof (Z.mod_pos_bound x (2 ^ (p + 1)) ltac:(lia)). assert (0 < 2 ^ (64 * i)) by lia.
  destruct (Z.eqb_spec (x mod 2 ^ (p + 1)) 0) as [->|Hnz]; cbn [negb].
  - rewrite rd_slice_in by lia. cbn [obind]. change (Z.to_nat 0) with 0%nat. rewrite drop_0.
    rewrite mp_scan_nz_spec by (apply List.Forall_rev; auto with limbs). do 3 f_equal. rewrite Z.mul_0_r, Z.add_0_r.
    remember (take (Z.to_nat i) (tab r)) as w eqn:Ew. assert (limbs w) as Hw by (subst; auto with limbs).
    apply eq_true_iff_eq. rewrite !Z.eqb_eq, !value_zero; [|done|by apply List.Forall_rev].
    split; intros Hz; [rewrite <- (rev_involutive w)|]; by apply List.Forall_rev.
  - destruct (Z.eqb_spec (value (take (Z.to_nat i) (tab r)) + 2 ^ (64 * i) * (x mod 2 ^ (p + 1))) 0); [nia|done].
Qed.

(** * The decision to round up *)

(** Positions and precisions that the signed arithmetic of the code can hold. *)
Definition prec_range (prec : Z) : Prop := - 2 ^ 62 - 2 ^ 61 <= prec <= 2 ^ 62 + 2 ^ 61.

Ltac i64_simpl := rewrite ?i64_id by (unfold in_i64, prec_range in *; change LIMB_BITS with 64 in *; lia).

Lemma mant_mod t l e : limbs t -> 0 <= l <= zlen t -> 0 <= e <= 64 * l -> value t mod 2 ^ e = mant t l mod 2 ^ e.
Proof.
  intros Hl Hle He. unfold mant. rewrite <- (take_drop (Z.to_nat l) t) at 1. rewrite value_app. unfold base_pow.
  rewrite zlen_take, LB_pow2 by lia. replace (64 * l) with ((64 * l - e) + e) by lia. rewrite Z.pow_add_r by lia.
  rewrite (Z.mul_comm (2 ^ (64 * l - e))), <- Z.mul_assoc, (Z.mul_comm (2 ^ e)). by rewrite Z.mod_add by lia.
Qed.

(** The half bit and the bits under it. *)
Lemma mod_halves M K : 0 < K -> M mod 2 ^ K = 2 ^ (K - 1) * b2z (Z.testbit M (K - 1)) + M mod 2 ^ (K - 1).
Proof.
  intros HK. assert (0 < 2 ^ (K - 1)) as Hp by lia. pose proof (Z.testbit_spec' M (K - 1) ltac:(lia)) as E.
  change (Z.b2z) with b2z in E. rewrite E. set (h := 2 ^ (K - 1)) in *.
  assert (2 ^ K = h * 2) as -> by (unfold h; rewrite Z.mul_comm, <- Z.pow_succ_r by lia; f_equal; lia).
  rewrite Z.rem_mul_r by lia. lia.
Qed.

Definition mode_ok (mode : Z) : Prop := 0 <= mode <= 6.

(** What is added to the mantissa [M] without its [K] low bits. *)
Definition add_one_of (mode sgn M K : Z) : bool :=
  (0 <? K) && rounds_up mode sgn (M / 2 ^ K) (M mod 2 ^ K) (2 ^ K).
Definition inexact_of (mode M K : Z) : bool := (mode =? BF_RNDF) || ((0 <? K) && negb (M mod 2 ^ K =? 0)).

(** The two bits that [bf_get_rnd_add] looks at: the half bit, and the or of those under it. *)
Lemma rnd_bits r l prec :
  limbs (tab r) -> 0 < l <= len r -> 2 ^ (64 * l - 1) <= mant (tab r) l -> 64 * l <= 2 ^ 60 -> prec_range prec ->
  let M := mant (tab r) l in let K := 64 * l - prec in
  scan_bit_nz r (i64 (l * LIMB_BITS - 1 - Z.max 0 (prec + 1))) = Ret (b2z ((0 <? K) && negb (M mod 2 ^ (K - 1) =? 0))) /\
  get_bit (tab r) l (i64 (l * LIMB_BITS - 1 - prec)) = Ret (b2z (Z.testbit M (K - 1))) /\
  get_bit (tab r) l (i64 (l * LIMB_BITS - 1 - (prec - 1))) = Ret (b2z (Z.testbit M K)).
Proof.
  intros Hl Hle HM Hb Hprec M K. unfold len in Hle. unfold prec_range in Hprec. pose proof (mant_bound (tab r) l Hl ltac:(lia)) as Hub. fold M in HM, Hub.
  i64_simpl. rewrite !get_bit_spec, scan_bit_nz_spec by (unfold len; change LIMB_BITS with 64; done || lia). change LIMB_BITS with 64.
  split; [|split; do 3 f_equal; lia]. do 2 f_equal.
  rewrite (mant_mod _ l) by (done || lia). fold M. destruct (Z.ltb_spec 0 K) as [HK|HK]; cbn [andb].
  - destruct (Z.le_gt_cases (-1) prec).
    + do 4 f_equal. lia.
    + rewrite !Z.mod_small by (split; [lia|]; eapply Z.lt_le_trans; [apply Hub|apply Z.pow_le_mono_r; lia]). done.
  - rewrite Z.max_l, Z.pow_0_r, Z.mod_1_r by lia. done.
Qed.

(** [rounds_up] from the half bit and the bits under it. *)
Lemma rounds_up_bits mode sgn q h b1 r0 :
  0 <= r0 < h ->
  rounds_up mode sgn q (h * b2z b1 + r0) (2 * h) =
    let nz := negb (r0 =? 0) in
    if mode =? BF_RNDZ then false
    else if mode =? BF_RNDN then b1 && (nz || Z.odd q)
    else if mode =? BF_RNDD then (sgn =? 1) && (b1 || nz)
    else if mode =? BF_RNDU then (sgn =? 0) && (b1 || nz)
    else if mode =? BF_RNDA then b1 || nz
    else b1.
Proof.
  intros Hr. unfold rounds_up.
  assert ((2 * h <? 2 * (h * b2z b1 + r0)) = b1 && negb (r0 =? 0)) as -> by (destruct b1; unfold b2z; lia).
  assert ((2 * (h * b2z b1 + r0) =? 2 * h) = b1 && (r0 =? 0)) as -> by (destruct b1; unfold b2z; lia).
  assert ((2 * h <=? 2 * (h * b2z b1 + r0)) = b1) as -> by (destruct b1; unfold b2z; lia).
  assert ((0 <? h * b2z b1 + r0) = b1 || negb (r0 =? 0)) as -> by (destruct b1; unfold b2z; lia).
  by destruct b1, (r0 =? 0), (Z.odd q).
Qed.

Lemma sum_nonzero h b1 r0 : 0 <= r0 < h -> negb (h * b2z b1 + r0 =? 0) = b1 || negb (r0 =? 0).
Proof. intros Hr. destruct b1; unfold b2z; lia. Qed.

Lemma b2z_nonzero b : negb (b2z b =? 0) = b.
Proof. by destruct b. Qed.

(** A case for every mode. *)
Ltac case_mode mode :=
  destruct mode as [|m|m]; [|repeat (destruct m as [m|m|]; try (exfalso; unfold mode_ok in *; lia))|];
  unfold mode_ok in *; try lia.

Lemma bf_get_rnd_add_spec ret r l prec mode :
  limbs (tab r) -> 0 < l <= len r -> 2 ^ (64 * l - 1) <= mant (tab r) l -> 64 * l <= 2 ^ 60 -> prec_range prec -> mode_ok mode ->
  let M := mant (tab r) l in let K := 64 * l - prec in
  bf_get_rnd_add ret r l prec mode =
    Ret (b2z (add_one_of mode (sign r) M K), if inexact_of mode M K then Z.lor ret BF_ST_INEXACT else ret).
Proof.
  intros Hl Hle HM Hb Hprec Hmode M K.
  destruct (rnd_bits r l prec Hl Hle HM Hb Hprec) as (E0 & E1 & E2). fold M K in E0, E1, E2.
  unfold bf_get_rnd_add. rewrite E0, E1, E2. clear E0 E1 E2. cbn [obind]. unfold add_one_of, inexact_of.
  assert (Z.testbit M K = (0 <=? K) && Z.odd (M / 2 ^ K)) as ->.
  { destruct (Z.leb_spec 0 K); [|by rewrite Z.testbit_neg_r by lia]. by rewrite Z.testbit_odd, Z.shiftr_div_pow2 by lia. }
  destruct (Z.ltb_spec 0 K) as [HK|HK]; cbn [andb].
  - replace (0 <=? K) with true by (symmetry; apply Z.leb_le; lia). cbn [andb]. rewrite (mod_halves M K HK).
    pose proof (Z.mod_pos_bound M (2 ^ (K - 1)) ltac:(lia)) as H0.
    replace (2 ^ K) with (2 * 2 ^ (K - 1)) by (rewrite <- Z.pow_succ_r by lia; f_equal; lia).
    remember (M / (2 * 2 ^ (K - 1))) as q eqn:Eq. remember (2 ^ (K - 1)) as h eqn:Eh. remember (M mod h) as r0 eqn:Er. remember (Z.testbit M (K - 1)) as b1 eqn:Eb1.
    clear - H0 Hmode. rewrite (rounds_up_bits mode (sign r) _ h b1 r0 H0). rewrite (sum_nonzero h b1 r0 H0).
    case_mode mode; cbn [Z.eqb Pos.eqb BF_RNDF BF_RNDZ BF_RNDN BF_RNDD BF_RNDU BF_RNDNA BF_RNDA orb obind b2z];
      destruct (r0 =? 0), b1, (Z.odd q); repeat case_match; (reflexivity || discriminate).
  - rewrite (Z.testbit_neg_r _ (K - 1)) by lia. case_mode mode; repeat case_match; (reflexivity || discriminate).
Qed.

(** * The bits that are kept *)

Lemma limb_mask_high s x : 0 <= s < 64 -> in_u64 x -> Z.land x (limb_mask s (LIMB_BITS - 1)) = x / 2 ^ s * 2 ^ s.
Proof.
  intros Hs Hx. assert (limb_mask s (LIMB_BITS - 1) = Z.shiftl (Z.ones (64 - s)) s) as ->.
  { unfold limb_mask. change LIMB_BITS with 64. replace (64 - 1 - s + 1) with (64 - s) by lia.
    destruct (Z.eqb_spec (64 - s) 64) as [E|E]; [replace s with 0 by lia; reflexivity|].
    rewrite (Z.shiftl_mul_pow2 1), Z.mul_1_l by lia. rewrite Z.ones_equiv, Z.shiftl_mul_pow2 by lia.
    assert (0 < 2 ^ (64 - s) <= 2 ^ 63) as Hp by (split; [|apply Z.pow_le_mono_r]; lia). change (2 ^ 63) with 9223372036854775808 in Hp.
    assert (2 ^ (64 - s) * 2 ^ s = 2 ^ 64) as Hm by (rewrite <- Z.pow_add_r by lia; f_equal; lia). change (2 ^ 64) with 18446744073709551616 in Hm.
    rewrite <- Z.sub_1_r, Z.shiftl_mul_pow2 by lia.
    remember (2 ^ (64 - s)) as a eqn:Ea. rewrite !(u64_id a), (u64_id (a - 1)) by (unfold in_u64; lia).
    assert (0 < 2 ^ s) by lia. clear Ea. generalize dependent (2 ^ s). intros b Hm Hb. clear - Hp Hm Hb. rewrite u64_id by (unfold in_u64; nia). reflexivity. }
  rewrite <- Z.shiftl_mul_pow2, <- Z.shiftr_div_pow2 by lia. apply Z.bits_inj'. intros n Hn.
  rewrite Z.land_spec, !Z.shiftl_spec by lia. destruct (Z.ltb_spec n s).
  { by rewrite !(Z.testbit_neg_r _ (n - s)), andb_false_r by lia. }
  rewrite Z.shiftr_spec by lia. replace (n - s + s) with n by lia. destruct (Z.ltb_spec n 64).
  - by rewrite Z.ones_spec_low, andb_true_r by lia.
  - unfold in_u64 in Hx. by rewrite (testbit_high x 64 n) by (done || lia).
Qed.

Lemma skip_zeros_spec t :
  value t <> 0 -> post (skip_zeros t) (fun u => exists n x w, t = replicate n 0 ++ u /\ u = x :: w /\ x <> 0).
Proof.
  induction t as [|x t IH]; [done|]. intros Hv. cbn [skip_zeros]. destruct (Z.eqb_spec x 0) as [->|Hx].
  - eapply post_mono; [apply IH; cbn [value] in Hv; lia|]. intros u (n & y & w & -> & -> & Hy). by exists (S n), y, w.
  - apply post_ret. by exists 0%nat, x, t.
Qed.

(** A slice of a mantissa is a quotient. *)
Lemma slice_value t l i s :
  limbs t -> 0 <= i <= l -> l <= zlen t -> rd_slice t i (l - i) = Ret s ->
  limbs s /\ zlen s = l - i /\ value s = mant t l / 2 ^ (64 * i) /\
  mant t l = value (take (Z.to_nat i) t) + 2 ^ (64 * i) * value s.
Proof.
  intros Hl Hi Hle Hs. split; [by eapply limbs_slice|]. pose proof (proj1 (at_rd_slice _ _ _ _ Hs)) as Hz. split; [done|].
  rewrite rd_slice_in in Hs by lia. injection Hs as Hs.
  assert (mant t l = value (take (Z.to_nat i) t) + 2 ^ (64 * i) * value s) as E.
  { unfold mant. replace (take (Z.to_nat l) t) with (take (Z.to_nat i) t ++ s).
    - rewrite value_app. unfold base_pow. by rewrite zlen_take, LB_pow2 by lia.
    - subst s. replace (Z.to_nat l) with (Z.to_nat i + Z.to_nat (l - i))%nat by lia. rewrite take_drop_commute.
      rewrite <- (take_drop (Z.to_nat i) (take (Z.to_nat i + _) t)) at 2. rewrite take_take. do 2 f_equal. lia. }
  split; [|done]. pose proof (mant_bound t i Hl ltac:(lia)) as Hb. unfold mant in Hb. rewrite E, Z.add_comm, Z.mul_comm.
  by rewrite Z.div_add_l, Z.div_small, Z.add_0_r by lia.
Qed.


(** Clearing the low bits of a limb. *)
Lemma mask_mant t l i p x :
  limbs t -> 0 <= i < l -> l <= zlen t -> 0 <= p < 64 -> at_ t i x -> in_u64 (x / 2 ^ p * 2 ^ p) ->
  mant (<[Z.to_nat i := x / 2 ^ p * 2 ^ p]> t) l / 2 ^ (64 * i) * 2 ^ (64 * i) = mant t l / 2 ^ (64 * i + p) * 2 ^ (64 * i + p).
Proof.
  intros Hl Hi Hle Hp Hx Hx'. set (x' := x / 2 ^ p * 2 ^ p) in *.
  unfold mant. rewrite take_insert_lt by lia. assert (limbs (take (Z.to_nat l) t)) as Hlt by auto with limbs.
  assert (zlen (take (Z.to_nat l) t) = l) as Hz by (apply zlen_take; lia).
  assert (at_ (take (Z.to_nat l) t) i x) as Hxt by (by apply at_take). remember (take (Z.to_nat l) t) as u eqn:Eu. clear t Hl Hle Hx Eu.
  destruct (value_split u i x Hlt Hxt) as [E Hb].
  destruct (value_split (<[Z.to_nat i:=x']> u) i x') as [E' Hb']; [by apply Forall_insert|apply at_insert_eq; lia|].
  rewrite take_insert_ge in E', Hb' by lia. rewrite drop_insert_lt in E' by lia.
  remember (value (drop (Z.to_nat (i + 1)) u)) as B eqn:EB. remember (value (take (Z.to_nat i) u)) as a eqn:Ea.
  rewrite E, E'. rewrite Z.pow_add_r, <- Z.div_div by lia. rewrite !(Z.add_comm a), !(Z.mul_comm (2 ^ (64 * i))).
  rewrite !Z.div_add_l, !(Z.div_small a), !Z.add_0_r by lia. rewrite Z.mul_assoc. f_equal.
  unfold x'. replace (2 ^ 64) with (2 ^ (64 - p) * 2 ^ p) by (rewrite <- Z.pow_add_r by lia; f_equal; lia).
  replace (x + 2 ^ (64 - p) * 2 ^ p * B) with (x + 2 ^ (64 - p) * B * 2 ^ p) by ring. rewrite Z.div_add by lia. ring.
Qed.

Section Round.
Context `{SHG : ShrinkGranted}.

Lemma bf_resize_shrink r n :
  0 <= n <= len r -> hpost (bf_resize_ r n) (fun r' => r' = set_tab r (take (Z.to_nat n) (tab r))).
Proof.
  intros Hn. unfold bf_resize_, len in *. intros h. unfold hbind, bf_resize, len. destruct (Z.eqb_spec n (zlen (tab r))) as [->|Hne]; cbn [negb].
  - cbn. unfold zlen. rewrite Nat2Z.id, take_ge by done. by destruct r.
  - destruct (Z.eqb_spec n 0) as [->|Hz]; [done|]. destruct (Z.ltb_spec n (zlen (tab r))); [|lia].
    pose proof (shrink_granted h (n * 8)). destruct (shrink h (n * 8)) as [h' ok]. cbn in *. by subst.
Qed.

(** [M] without its [K] low bits. *)
Definition keep_bits (M K : Z) : Z := if K <=? 0 then M else M / 2 ^ K * 2 ^ K.

(** The mask on the limb that holds the last bit. *)
Lemma round_mask_spec t l K :
  limbs t -> 0 < l <= zlen t -> K < 64 * l ->
  post (let i := Z.shiftr K LIMB_LOG2_BITS in
        if 0 <=? i then
          let shift := Z.land K (LIMB_BITS - 1) in
          if negb (shift =? 0) then
            let* x := rd t i in
            let* t := wr t i (Z.land x (limb_mask shift (LIMB_BITS - 1))) in
            Ret (t, i)
          else Ret (t, i)
        else Ret (t, 0))
    (fun '(t', i) => limbs t' /\ zlen t' = zlen t /\ 0 <= i < l /\ mant t' l / 2 ^ (64 * i) * 2 ^ (64 * i) = keep_bits (mant t l) K).
Proof.
  intros Hl Hle HK. destruct (pos_split K) as [E Hp]. cbv zeta. remember (Z.shiftr K LIMB_LOG2_BITS) as i eqn:Ei.
  remember (Z.land K (LIMB_BITS - 1)) as p eqn:Ep. unfold keep_bits.
  destruct (Z.leb_spec 0 i) as [Hi|Hi]; [destruct (Z.eqb_spec p 0) as [Hp0|Hp0]; cbn [negb]|].
  - apply post_ret. repeat (split; [done || lia|]). rewrite E, Hp0, Z.add_0_r. destruct (Z.leb_spec (64 * i) 0); [|done].
    replace i with 0 by lia. by rewrite Z.mul_0_r, Z.pow_0_r, Z.div_1_r, Z.mul_1_r.
  - step. apply post_rd; [lia|]. intros x Hx. step. assert (in_u64 x) as Hx64 by exact (at_Forall _ _ _ _ Hl Hx).
    rewrite limb_mask_high by (done || lia). set (x' := x / 2 ^ p * 2 ^ p).
    assert (in_u64 x') as Hx'. { unfold in_u64, x' in *. pose proof (Z.div_mod x (2 ^ p) ltac:(lia)). pose proof (Z.mod_pos_bound x (2 ^ p) ltac:(lia)). pose proof (Z.div_pos x (2 ^ p) ltac:(lia) ltac:(lia)). nia. }
    apply post_wr; [lia|]. apply post_ret. split; [by apply Forall_insert|]. split; [apply zlen_insert|]. split; [lia|].
    destruct (Z.leb_spec K 0); [lia|]. rewrite E. apply (mask_mant t l i p x); try done; lia.
  - apply post_ret. repeat (split; [done || lia|]). rewrite Z.mul_0_r, Z.pow_0_r, Z.div_1_r, Z.mul_1_r. destruct (Z.leb_spec K 0); [done|lia].
Qed.

(** The kept limbs are moved to the bottom, without the zeros. *)
Lemma round_trim_spec (r : bf_t) t l i KP (ret : Z) :
  limbs t -> 0 <= i < l -> l <= zlen t -> mant t l / 2 ^ (64 * i) * 2 ^ (64 * i) = KP -> 2 ^ (64 * l - 1) <= KP ->
  hpost (let! up := hlift (rd_slice t i (l - i)) in
         let! up := hlift (skip_zeros up) in
         let l' := zlen up in
         let! t := hlift (if l' <? l then wr_slice t 0 up else Ret t) in
         let! r := bf_resize_ (set_tab r t) l' in hret (r, ret))
    (fun '(r', st) => st = ret /\ sign r' = sign r /\ expn r' = expn r /\ bf_normal r' /\ len r' <= l /\
       value (tab r') * 2 ^ (64 * (l - len r')) = KP).
Proof.
  intros Hl Hi Hle HKP HM. assert (0 < 2 ^ (64 * l - 1)) as Hpos by lia.
  apply hpost_bind, hpost_lift. rewrite rd_slice_in by lia. apply post_ret.
  destruct (slice_value t l i _ Hl ltac:(lia) Hle (rd_slice_in t i (l - i) ltac:(lia) ltac:(lia) ltac:(lia))) as (Hu & Hz & Hv & _).
  remember (take (Z.to_nat (l - i)) (drop (Z.to_nat i) t)) as u eqn:Eu. rewrite <- Hv in HKP. clear Hv.
  apply hpost_bind, hpost_lift. eapply post_mono; [apply skip_zeros_spec; intros H0; rewrite H0 in HKP; lia|].
  intros up (n & x & w & -> & Eup & Hx). apply Forall_app in Hu as [_ Hu].
  rewrite value_app, value_replicate_0, Z.add_0_l in HKP. unfold base_pow in HKP. rewrite zlen_app, zlen_replicate in Hz.
  rewrite zlen_replicate, LB_pow2 in HKP by lia. assert (0 < zlen up) as Hz0 by (subst up; rewrite zlen_cons; pose proof (zlen_nonneg w); lia).
  assert (value up * 2 ^ (64 * (l - zlen up)) = KP) as Hval.
  { rewrite <- HKP. replace (64 * (l - zlen up)) with (64 * Z.of_nat n + 64 * i) by lia. rewrite Z.pow_add_r by lia. ring. }
  assert (LB ^ zlen up <= 2 * value up) as Hnorm.
  { rewrite LB_pow2 by lia. apply Z.mul_le_mono_pos_r with (2 ^ (64 * (l - zlen up))); [lia|]. rewrite <- Z.pow_add_r by lia.
    rewrite <- Z.mul_assoc, Hval. replace (64 * zlen up + 64 * (l - zlen up)) with (Z.succ (64 * l - 1)) by lia. rewrite Z.pow_succ_r by lia. lia. }
  apply hpost_bind, hpost_lift. eapply post_mono with (P := fun t' => exists q, t' = up ++ q).
  { destruct (Z.ltb_spec (zlen up) l); [rewrite wr_slice_in by lia; by eexists|].
    assert (n = 0%nat) as -> by lia. exists (drop (Z.to_nat l) t). replace i with 0 in Eu by lia. change (Z.to_nat 0) with 0%nat in Eu.
    rewrite drop_0, Z.sub_0_r in Eu. cbn [replicate app] in Eu. by rewrite Eu, take_drop. }
  intros t' [q ->]. apply hpost_bind. eapply hpost_mono; [apply bf_resize_shrink; unfold len; cbn [tab set_tab]; rewrite zlen_app; pose proof (zlen_nonneg q); lia|].
  intros r' ->. apply hpost_ret. unfold len. cbn [tab set_tab sign expn].
  assert (take (Z.to_nat (zlen up)) (up ++ q) = up) as -> by (unfold zlen; by rewrite Nat2Z.id, take_app_length).
  repeat (split; [done || lia|]). split; [|split; [lia|done]]. split; [done|]. unfold len. cbn [tab]. repeat (split; [done || lia|]). by exists x, w.
Qed.

Lemma round_keep_spec r l K ret :
  limbs (tab r) -> 0 < l <= len r -> K < 64 * l -> 2 ^ (64 * l - 1) <= mant (tab r) l ->
  hpost (round_keep r l K ret) (fun '(r', st) => st = ret /\ sign r' = sign r /\ expn r' = expn r /\ bf_normal r' /\ len r' <= l /\
    value (tab r') * 2 ^ (64 * (l - len r')) = keep_bits (mant (tab r) l) K).
Proof.
  intros Hl Hle HK HM. unfold round_keep. apply hpost_bind, hpost_lift. eapply post_mono; [exact (round_mask_spec _ l K Hl Hle HK)|].
  intros [t i] (Hl' & Hz & Hi & HKP). unfold len in Hle. apply (round_trim_spec r t l i _ ret Hl' Hi); [lia|done|].
  unfold keep_bits. destruct (Z.leb_spec K 0); [done|]. transitivity (2 ^ (64 * l - 1) / 2 ^ K * 2 ^ K).
  - replace (64 * l - 1) with ((64 * l - 1 - K) + K) by lia. rewrite Z.pow_add_r by lia. rewrite Z.div_mul by lia. lia.
  - apply Z.mul_le_mono_nonneg_r; [lia|]. by apply Z.div_le_mono; [lia|].
Qed.
End Round.

(** * The addition of one *)

Lemma round_carry_spec t c :
  limbs t -> in_u64 c -> computes (length t) (value t + c) (round_carry t c) /\ (t <> [] -> 0 <= (round_carry t c).2 <= 1).
Proof.
  intros Ht. revert c. induction Ht as [|x t Hx Ht IH]; intros c Hc; cbn [round_carry].
  { split; [apply computes_nil|done]. }
  pose proof (u64_add_carry c x Hc Hx) as E. rewrite (Z.add_comm c) in E. set (v := u64 (x + c)) in *.
  assert (in_u64 v) as Hv by apply u64_range. cbn [value length].
  replace (x + LB * value t + c) with ((x + c) + LB * value t) by lia.
  destruct (v <? c); cbn [b2z Z.eqb].
  - destruct (IH 1 ltac:(done)) as [IH1 IH2]. split; [|].
    + apply (computes_cons (length t) v 1 (x + c) (value t)); [done|exact E|done].
    + intros _. destruct t as [|y t]; [cbn; lia|]. specialize (IH2 ltac:(done)). by destruct (round_carry (y :: t) 1).
  - split; [|cbn; lia]. split; [by constructor|]. split; [done|]. cbn [fst snd value b2z] in *. lia.
Qed.

(** The limbs from [i] to [l] are replaced. *)
Lemma wr_top t l i w :
  limbs t -> limbs w -> 0 <= i <= l -> l <= zlen t -> zlen w = l - i ->
  post (wr_slice t i w) (fun t' => limbs t' /\ zlen t' = zlen t /\ mant t' l = value (take (Z.to_nat i) t) + 2 ^ (64 * i) * value w).
Proof.
  intros Hl Hw Hi Hle Hz. rewrite wr_slice_in by lia. replace (i + zlen w) with l by lia. apply post_ret.
  assert (zlen (take (Z.to_nat i) t) = i) as Hzi by (apply zlen_take; lia).
  split; [auto with limbs|]. rewrite !zlen_app, Hzi, zlen_drop by lia. split; [lia|]. unfold mant. rewrite app_assoc.
  replace (Z.to_nat l) with (length (take (Z.to_nat i) t ++ w)) at 1 by (rewrite length_app; unfold zlen in *; lia).
  rewrite take_app_length, value_app. unfold base_pow. by rewrite Hzi, LB_pow2 by lia.
Qed.

Lemma round_add_spec r l K :
  limbs (tab r) -> 0 < l <= len r -> 0 < K < 64 * l -> 2 ^ (64 * l - 1) <= mant (tab r) l ->
  post (round_add r l K) (fun r' =>
    sign r' = sign r /\ len r' = len r /\ limbs (tab r') /\
    let M := mant (tab r) l in
    if M + 2 ^ K <? 2 ^ (64 * l) then expn r' = expn r /\ mant (tab r') l = M + 2 ^ K
    else expn r' = i64 (expn r + 1) /\ 2 ^ (64 * l - 1) <= mant (tab r') l < 2 ^ (64 * l - 1) + 2 ^ K).
Proof.
  intros Hl Hle HK HM. unfold round_add, len in *. destruct (pos_split K) as [E Hp]. remember (Z.shiftr K LIMB_LOG2_BITS) as i eqn:Ei.
  remember (Z.land K (LIMB_BITS - 1)) as p eqn:Ep. step. rewrite rd_slice_in by lia. step.
  destruct (slice_value (tab r) l i _ Hl ltac:(lia) ltac:(lia) (rd_slice_in (tab r) i (l - i) ltac:(lia) ltac:(lia) ltac:(lia))) as (Hu & Hz & _ & HMv).
  remember (take (Z.to_nat (l - i)) (drop (Z.to_nat i) (tab r))) as u eqn:Eu. remember (mant (tab r) l) as M eqn:EM.
  assert (0 < 2 ^ p < LB) as Hpp by (unfold LB; split; [lia|apply Z.pow_lt_mono_r; lia]).
  rewrite Z.shiftl_mul_pow2, Z.mul_1_l by lia. rewrite u64_id by (unfold in_u64; change LB with 18446744073709551616 in Hpp; lia).
  destruct (round_carry_spec u (2 ^ p) Hu) as [(Hu' & Hn & Hv) Hc]; [change (0 <= 2 ^ p < LB); lia|].
  specialize (Hc ltac:(intros ->; change (zlen []) with 0 in Hz; lia)).
  destruct (round_carry u (2 ^ p)) as [u' c]. cbn [fst snd] in *. replace (length u) with (Z.to_nat (l - i)) in * by (unfold zlen in Hz; lia).
  assert (zlen u' = l - i) as Hz' by (unfold zlen; lia). rewrite Z2Nat.id, LB_pow2 in Hv by lia.
  pose proof (mant_bound (tab r) i Hl ltac:(lia)) as Hlow. unfold mant in Hlow. remember (value (take (Z.to_nat i) (tab r))) as L eqn:EL.
  assert (2 ^ K = 2 ^ (64 * i) * 2 ^ p) as HK2 by (rewrite <- Z.pow_add_r by lia; f_equal; lia).
  assert (2 ^ (64 * l) = 2 ^ (64 * i) * 2 ^ (64 * (l - i))) as Hl2 by (rewrite <- Z.pow_add_r by lia; f_equal; lia).
  pose proof (value_bound u' Hu') as Hb'. unfold base_pow in Hb'. rewrite Hz', LB_pow2 in Hb' by lia.
  assert (c = 0 \/ c = 1) as [-> | ->] by lia; cbn [Z.eqb negb].
  - step. eapply post_mono; [apply (wr_top (tab r) l i u' Hl Hu'); lia|]. intros t' (Hl' & Hzt & Hm). apply post_ret.
    unfold len. cbn [sign expn tab]. repeat (split; [done|]). rewrite Hm, <- EL, HMv, HK2, Hl2.
    replace (L + 2 ^ (64 * i) * value u + 2 ^ (64 * i) * 2 ^ p) with (L + 2 ^ (64 * i) * value u') by lia.
    destruct (Z.ltb_spec (L + 2 ^ (64 * i) * value u') (2 ^ (64 * i) * 2 ^ (64 * (l - i)))); [done|exfalso]. clear - Hlow Hb' H. nia.
  - destruct (mp_shr_limbs_spec u' 1 1 Hu' ltac:(done) ltac:(lia)) as (Hus & Hns & Hvs). step.
    remember (mp_shr_limbs u' 1 1) as w eqn:Ew. unfold base_pow in Hvs. rewrite Hz', LB_pow2 in Hvs by lia.
    eapply post_mono; [apply (wr_top (tab r) l i w Hl Hus); try lia; unfold zlen in *; lia|]. intros t' (Hl' & Hzt & Hm). apply post_ret.
    unfold len. cbn [sign expn tab]. repeat (split; [done|]). rewrite Hm, <- EL, HMv, HK2, Hl2.
    assert (2 ^ (64 * l - 1) * 2 = 2 ^ (64 * i) * 2 ^ (64 * (l - i))) as Hh by (rewrite <- Hl2; replace (64 * l) with (Z.succ (64 * l - 1)) at 2 by lia; rewrite Z.pow_succ_r by lia; lia).
    pose proof (Z.mod_pos_bound (hd 1 u') (2 ^ 1) ltac:(done)) as Hhd. change (1 mod 2 ^ 1) with 1 in Hvs. change (2 ^ 1) with 2 in *.
    pose proof (value_bound u Hu) as Hub. unfold base_pow in Hub. rewrite Hz, LB_pow2 in Hub by lia.
    remember (2 ^ (64 * i)) as I eqn:EI. remember (2 ^ (64 * (l - i))) as J eqn:EJ. remember (2 ^ p) as P eqn:EP.
    replace (L + I * value u + I * P) with (L + I * value u' + I * J) by (clear - Hv; nia).
    assert (0 <= I * value u') by (apply Z.mul_nonneg_nonneg; lia). destruct (Z.ltb_spec (L + I * value u' + I * J) (I * J)); [lia|]. split; [done|].
    assert (J = 2 * (J / 2)) as HJ by (rewrite EJ; replace (64 * (l - i)) with (Z.succ (64 * (l - i) - 1)) by lia; rewrite Z.pow_succ_r, Z.mul_comm, Z.div_mul by lia; lia).
    assert (value u' < P) as Hlt by lia. assert (0 <= value u') as Hv0 by lia. clear - Hh Hvs Hhd Hlow Hlt Hv0 HJ. 
    assert (hd 1 u' mod 2 <= value u') as Hr by lia. remember (hd 1 u' mod 2) as b eqn:Eb. clear Eb HJ.
    assert (value w * 2 = value u' + J - b) as Hw by lia. assert (I * (value w * 2) = I * value u' + I * J - I * b) as Hw' by (rewrite Hw; ring).
    assert (I * b <= I * value u') by (apply Z.mul_le_mono_nonneg_l; lia). assert (I * value u' <= I * (P - 1)) by (apply Z.mul_le_mono_nonneg_l; lia).
    assert (0 <= I * b) by (apply Z.mul_nonneg_nonneg; lia). assert (I * 1 <= I * P) by (apply Z.mul_le_mono_nonneg_l; lia). lia.
Qed.
