(* ===== verification/BfRatio.v ===== *)
(** The specification of rounding does not depend on how a number is written.

    [bf_round_spec] is given the number as a ratio and a power of two: it is the
    same for two ways to write one number, and for a quotient whose last bit says
    that there is a remainder. *)
From Stdlib Require Import ZArith Lia Bool List Setoid Morphisms.
From stdpp Require Import base tactics list numbers.
From S2P Require Import Prelude IntFmt Alloc Limb MpMul MpDiv Bf BfRound.

(** * Equality of results *)

Lemma same_number_iff d m1 e1 m2 e2 :
  d <= e1 -> d <= e2 -> same_number m1 e1 m2 e2 <-> m1 * 2 ^ (e1 - d) = m2 * 2 ^ (e2 - d).
Proof.
  intros H1 H2. unfold same_number. set (c := Z.min e1 e2). assert (d <= c) as Hc by lia.
  replace (e1 - d) with ((e1 - c) + (c - d)) by lia. replace (e2 - d) with ((e2 - c) + (c - d)) by lia.
  rewrite !Z.pow_add_r, !Z.mul_assoc by lia. symmetry. apply Z.mul_cancel_r. lia.
Qed.

#[export] Instance same_number_equiv : Equivalence (fun p q : Z * Z => same_number p.1 p.2 q.1 q.2).
Proof.
  split.
  - intros [m e]. done.
  - intros [m1 e1] [m2 e2]. cbn. rewrite !(same_number_iff (Z.min e1 e2)) by lia. done.
  - intros [m1 e1] [m2 e2] [m3 e3]. cbn. rewrite !(same_number_iff (Z.min e1 (Z.min e2 e3))) by lia. congruence.
Qed.

Definition value_equiv (a b : bf_value) : Prop :=
  match a, b with
  | V_num s m e, V_num s' m' e' => s = s' /\ same_number m e m' e'
  | _, _ => a = b
  end.

#[export] Instance value_equiv_equiv : Equivalence value_equiv.
Proof.
  split.
  - by intros [].
  - intros [| | |s1 m1 e1] [| | |s2 m2 e2]; cbn; try congruence. intros [-> H]. split; [done|]. apply (same_number_equiv.(Equivalence_Symmetric) (_, _) (_, _) H).
  - intros [| | |s1 m1 e1] [| | |s2 m2 e2] [| | |s3 m3 e3]; cbn; try congruence. intros [-> H1] [-> H2]. split; [done|].
    apply (same_number_equiv.(Equivalence_Transitive) (_, _) (_, _) (_, _) H1 H2).
Qed.

Definition spec_equiv (a b : bf_value * Z) : Prop := value_equiv a.1 b.1 /\ a.2 = b.2.

#[export] Instance spec_equiv_equiv : Equivalence spec_equiv.
Proof.
  split.
  - intros []. by split.
  - intros [] [] [H1 H2]. by split; symmetry.
  - intros [] [] [] [H1 H2] [H3 H4]. split; etrans; eassumption.
Qed.

#[export] Instance represents_proper r : Proper (value_equiv ==> iff) (represents r).
Proof.
  intros [] [] H; cbn in *; try (injection H as <-); try done. destruct H as [<- H]. split; intros (? & ? & Hr).
  - do 2 (split; [done|]). apply (same_number_equiv.(Equivalence_Transitive) (_, _) (_, _) (_, _) Hr H).
  - do 2 (split; [done|]). apply (same_number_equiv.(Equivalence_Transitive) (_, _) (_, _) (_, _) Hr).
    apply (same_number_equiv.(Equivalence_Symmetric) (_, _) (_, _) H).
Qed.

Lemma result_is_equiv `{AL : Allocator} spec1 spec2 x : spec_equiv spec1 spec2 -> result_is spec1 x -> result_is spec2 x.
Proof. destruct x as [r st]. intros [H1 H2] [Hm|[Hr ->]]; [by left|right]. by rewrite <- H1. Qed.

Lemma result_in_equiv short spec1 spec2 x : spec_equiv spec1 spec2 -> result_in short spec1 x -> result_in short spec2 x.
Proof. destruct x as [r st]. intros [Hv Hs] [H|[Hr ->]]; [by left|right]. split; [by rewrite <- Hv|done]. Qed.

(** * Ratios *)

(** Two ways to write one number. *)
Definition ratio_eq (n1 d1 e1 n2 d2 e2 : Z) : Prop := same_number (n1 * d2) e1 (n2 * d1) e2.

Lemma div_proportional n1 d1 n2 d2 :
  0 < d1 -> 0 < d2 -> n1 * d2 = n2 * d1 -> n1 / d1 = n2 / d2 /\ (n1 mod d1) * d2 = (n2 mod d2) * d1.
Proof.
  intros H1 H2 E.
  assert (n1 / d1 = n2 / d2) as Eq.
  { rewrite <- (Z.div_mul_cancel_r n1 d1 d2) by lia. rewrite E. rewrite Z.mul_comm with (n := d1). apply Z.div_mul_cancel_r; lia. }
  split; [done|]. rewrite !Zmod_eq_full by lia. rewrite Eq. lia.
Qed.

Lemma rounds_up_proportional mode sgn q r1 d1 r2 d2 :
  0 < d1 -> 0 < d2 -> 0 <= r1 -> r1 * d2 = r2 * d1 -> rounds_up mode sgn q r1 d1 = rounds_up mode sgn q r2 d2.
Proof.
  intros H1 H2 Hr E. unfold rounds_up.
  assert ((d1 <? 2 * r1) = (d2 <? 2 * r2)) as -> by (apply eq_true_iff_eq; rewrite !Z.ltb_lt; nia).
  assert ((2 * r1 =? d1) = (2 * r2 =? d2)) as -> by (apply eq_true_iff_eq; rewrite !Z.eqb_eq; nia).
  assert ((0 <? r1) = (0 <? r2)) as -> by (apply eq_true_iff_eq; rewrite !Z.ltb_lt; nia).
  assert ((d1 <=? 2 * r1) = (d2 <=? 2 * r2)) as -> by (apply eq_true_iff_eq; rewrite !Z.leb_le; nia).
  done.
Qed.

(** [2 ^ E <= n / d * 2 ^ e]. *)
Definition pow_le (E n d e : Z) : Prop := d * 2 ^ (E - Z.min E e) <= n * 2 ^ (e - Z.min E e).

Lemma pow_le_iff m E n d e : m <= E -> m <= e -> pow_le E n d e <-> d * 2 ^ (E - m) <= n * 2 ^ (e - m).
Proof.
  intros H1 H2. unfold pow_le. set (c := Z.min E e). assert (m <= c) as Hc by lia.
  replace (E - m) with ((E - c) + (c - m)) by lia. replace (e - m) with ((e - c) + (c - m)) by lia.
  rewrite !Z.pow_add_r, !Z.mul_assoc by lia. apply Z.mul_le_mono_pos_r. lia.
Qed.

Lemma pow_le_mono E E' n d e : 0 < d -> E' <= E -> pow_le E n d e -> pow_le E' n d e.
Proof.
  intros Hd HE. rewrite !(pow_le_iff (Z.min E' e)) by lia. set (m := Z.min E' e).
  assert (2 ^ (E' - m) <= 2 ^ (E - m)) by (apply Z.pow_le_mono_r; lia). nia.
Qed.

Lemma pow_le_ratio E n1 d1 e1 n2 d2 e2 :
  0 < d1 -> 0 < d2 -> ratio_eq n1 d1 e1 n2 d2 e2 -> pow_le E n1 d1 e1 <-> pow_le E n2 d2 e2.
Proof.
  intros H1 H2. set (m := Z.min E (Z.min e1 e2)). unfold ratio_eq. rewrite (same_number_iff m), !(pow_le_iff m) by lia. intros HE.
  rewrite (Z.mul_le_mono_pos_r _ _ d2) by done. rewrite (Z.mul_le_mono_pos_r (d2 * _) _ d1) by done.
  replace (n1 * 2 ^ (e1 - m) * d2) with (n1 * d2 * 2 ^ (e1 - m)) by ring. rewrite HE. replace (d2 * 2 ^ (E - m) * d1) with (d1 * 2 ^ (E - m) * d2) by ring. by replace (n2 * 2 ^ (e2 - m) * d1) with (n2 * d1 * 2 ^ (e2 - m)) by ring.
Qed.

(** The exponent is characterised by two inequalities. *)
Lemma ratio_exponent_spec n d e :
  0 < n -> 0 < d -> pow_le (ratio_exponent n d e - 1) n d e /\ ~ pow_le (ratio_exponent n d e) n d e.
Proof.
  intros Hn Hd. unfold ratio_exponent. pose proof (Z.log2_spec n Hn) as Ln. pose proof (Z.log2_spec d Hd) as Ld.
  pose proof (Z.log2_nonneg n) as Ha. pose proof (Z.log2_nonneg d) as Hb. remember (Z.log2 n) as a eqn:Ea. remember (Z.log2 d) as b eqn:Eb.
  set (j := a - b). cbv zeta. assert (pow_le (e + j) n d e <-> d * 2 ^ Z.max 0 j <= n * 2 ^ Z.max 0 (- j)) as Hj.
  { unfold pow_le. replace (e + j - Z.min (e + j) e) with (Z.max 0 j) by lia. by replace (e - Z.min (e + j) e) with (Z.max 0 (- j)) by lia. }
  assert (~ pow_le (e + (j + 1)) n d e) as Hhigh.
  { rewrite (pow_le_iff (e - b)) by lia. replace (e + (j + 1) - (e - b)) with (Z.succ a) by lia. replace (e - (e - b)) with b by lia.
    assert (0 < 2 ^ b) by lia. assert (0 < 2 ^ Z.succ a) by lia. nia. }
  assert (pow_le (e + j - 1) n d e) as Hlow.
  { rewrite (pow_le_iff (e - Z.succ b)) by lia. replace (e + j - 1 - (e - Z.succ b)) with a by lia. replace (e - (e - Z.succ b)) with (Z.succ b) by lia.
    assert (0 < 2 ^ a) by lia. assert (0 < 2 ^ Z.succ b) by lia. nia. }
  destruct (Z.leb_spec (d * 2 ^ Z.max 0 j) (n * 2 ^ Z.max 0 (- j))) as [Hle|Hgt]; split.
  - replace (e + (j + 1) - 1) with (e + j) by lia. by apply Hj.
  - done.
  - done.
  - rewrite Hj. lia.
Qed.

Lemma ratio_exponent_unique E n d e :
  0 < n -> 0 < d -> pow_le (E - 1) n d e -> ~ pow_le E n d e -> ratio_exponent n d e = E.
Proof.
  intros Hn Hd H1 H2. destruct (ratio_exponent_spec n d e Hn Hd) as [H3 H4]. set (E' := ratio_exponent n d e) in *.
  destruct (Z.lt_trichotomy E' E) as [Hlt|[?|Hlt]]; [exfalso|done|exfalso].
  - apply H4. by apply (pow_le_mono (E - 1)); [|lia|].
  - apply H2. by apply (pow_le_mono (E' - 1)); [|lia|].
Qed.

Lemma ratio_exponent_eq n1 d1 e1 n2 d2 e2 :
  0 < n1 -> 0 < d1 -> 0 < n2 -> 0 < d2 -> ratio_eq n1 d1 e1 n2 d2 e2 -> ratio_exponent n1 d1 e1 = ratio_exponent n2 d2 e2.
Proof.
  intros Hn1 Hd1 Hn2 Hd2 HE. destruct (ratio_exponent_spec n2 d2 e2 Hn2 Hd2) as [H3 H4].
  apply ratio_exponent_unique; [done|done|..]; by rewrite (pow_le_ratio _ _ _ _ n2 d2 e2).
Qed.

Lemma ratio_exponent_int n e : 0 < n -> ratio_exponent n 1 e = e + Z.log2 n + 1.
Proof.
  intros Hn. unfold ratio_exponent. change (Z.log2 1) with 0. rewrite Z.sub_0_r. pose proof (Z.log2_nonneg n).
  rewrite Z.max_r, Z.max_l, Z.pow_0_r, Z.mul_1_l, Z.mul_1_r by lia. pose proof (Z.log2_spec n Hn).
  destruct (Z.leb_spec (2 ^ Z.log2 n) n); lia.
Qed.

(** * The specification without its shortcut *)

(** The ratio [n / d * 2 ^ e] rounded in units of [2 ^ k], and whether this is inexact. *)
Definition round_at (mode sgn n d e k : Z) : Z * bool :=
  let '(n', d') := scaled n d e k in (round_ratio mode sgn n' d', negb (n' mod d' =? 0)).

(** [bf_round_spec] for a rounded value [m] in units of [2 ^ (E - prec)]. *)
Definition finish_spec (sgn prec1 flags E : Z) (r : Z * bool) : bf_value * Z :=
  let mode := rnd_mode_of flags in
  let e_max := Z.shiftl 1 (bf_get_exp_bits flags - 1) in
  let e_min := - e_max + 3 in
  let prec := prec_spec E prec1 flags e_min in
  let '(m, inex) := r in
  let inexact := (mode =? BF_RNDF) || inex in
  let st := if inexact then BF_ST_INEXACT else 0 in
  let under := Z.lor st (Z.lor BF_ST_UNDERFLOW BF_ST_INEXACT) in
  if prec <=? 0 then
    if m =? 0 then (V_zero sgn, under) else (V_num sgn m (E - prec), under)
  else
    let E' := if m =? 2 ^ prec then E + 1 else E in
    if (E' <? e_min) && negb (has_flag flags BF_FLAG_SUBNORMAL) then (V_zero sgn, under)
    else
      let st := if (E' <? e_min) && has_flag st BF_ST_INEXACT then Z.lor st BF_ST_UNDERFLOW else st in
      if e_max <? E' then overflow_spec sgn prec1 flags
      else (V_num sgn m (E - prec), st).

Definition spec_prec (E prec1 flags : Z) : Z := prec_spec E prec1 flags (- Z.shiftl 1 (bf_get_exp_bits flags - 1) + 3).

Lemma bf_round_spec_finish sgn n d e prec1 flags :
  0 < n -> 0 < d ->
  let E := ratio_exponent n d e in
  spec_equiv (bf_round_spec sgn n d e prec1 flags)
    (finish_spec sgn prec1 flags E (round_at (rnd_mode_of flags) sgn n d e (E - spec_prec E prec1 flags))).
Proof.
  intros Hn Hd E. unfold bf_round_spec, finish_spec, round_at, spec_prec. cbv zeta. fold E.
  set (e_max := Z.shiftl 1 (bf_get_exp_bits flags - 1)). set (prec := prec_spec E prec1 flags (- e_max + 3)).
  destruct (scaled n d e (E - prec)) as [n' d'] eqn:Esc. destruct ((d =? 1) && (E - prec <=? e)) eqn:Hex; cbn [negb andb]; [|reflexivity].
  apply andb_true_iff in Hex as [Hd1 Hk]. apply Z.eqb_eq in Hd1. apply Z.leb_le in Hk. subst d. unfold scaled in Esc.
  rewrite Z.max_r, Z.max_l, Z.pow_0_r, Z.mul_1_r in Esc by lia. injection Esc as <- <-.
  set (n' := n * 2 ^ (e - (E - prec))). rewrite Z.mod_1_r. cbn [Z.eqb negb]. rewrite orb_false_r.
  assert (round_ratio (rnd_mode_of flags) sgn n' 1 = n') as ->.
  { unfold round_ratio, rounds_up. rewrite Z.mod_1_r, Z.div_1_r. change (2 * 0) with 0. cbn. rewrite !andb_false_r. clear. repeat case_match; try lia; by rewrite Z.add_0_r. }
  assert (E = e + Z.log2 n + 1) as HE by (by apply ratio_exponent_int). pose proof (Z.log2_nonneg n). pose proof (Z.log2_spec n Hn) as Hlog.
  replace (prec <=? 0) with false by (symmetry; apply Z.leb_gt; lia).
  assert (n' < 2 ^ prec) as Hlt.
  { unfold n'. replace prec with (Z.succ (Z.log2 n) + (e - (E - prec))) at 2 by lia. rewrite Z.pow_add_r by lia. apply Z.mul_lt_mono_pos_r; lia. }
  destruct (Z.eqb_spec n' (2 ^ prec)); [lia|]. repeat case_match; try reflexivity; (split; [split; [done|]|done]); apply same_number_ge; done.
Qed.

Lemma round_at_ratio mode sgn n1 d1 e1 n2 d2 e2 k :
  0 <= n1 -> 0 < d1 -> 0 < d2 -> ratio_eq n1 d1 e1 n2 d2 e2 -> round_at mode sgn n1 d1 e1 k = round_at mode sgn n2 d2 e2 k.
Proof.
  intros Hn Hd1 Hd2 HE. unfold round_at, scaled, round_ratio.
  set (n1' := n1 * 2 ^ Z.max 0 (e1 - k)). set (d1' := d1 * 2 ^ Z.max 0 (k - e1)).
  set (n2' := n2 * 2 ^ Z.max 0 (e2 - k)). set (d2' := d2 * 2 ^ Z.max 0 (k - e2)).
  assert (0 < d1' /\ 0 < d2') as [H1 H2] by (unfold d1', d2'; split; apply Z.mul_pos_pos; lia).
  assert (n1' * d2' = n2' * d1') as E.
  { unfold ratio_eq in HE. set (m := Z.min k (Z.min e1 e2)). rewrite (same_number_iff m) in HE by lia.
    apply Z.mul_cancel_r with (2 ^ (k - m)); [lia|]. unfold n1', d1', n2', d2'.
    replace (n1 * 2 ^ Z.max 0 (e1 - k) * (d2 * 2 ^ Z.max 0 (k - e2)) * 2 ^ (k - m))
      with (n1 * d2 * (2 ^ Z.max 0 (e1 - k) * 2 ^ Z.max 0 (k - e2) * 2 ^ (k - m))) by ring.
    replace (n2 * 2 ^ Z.max 0 (e2 - k) * (d1 * 2 ^ Z.max 0 (k - e1)) * 2 ^ (k - m))
      with (n2 * d1 * (2 ^ Z.max 0 (e2 - k) * 2 ^ Z.max 0 (k - e1) * 2 ^ (k - m))) by ring.
    rewrite <- !Z.pow_add_r by lia. 
    replace (Z.max 0 (e1 - k) + Z.max 0 (k - e2) + (k - m)) with ((e1 - m) + (Z.max 0 (k - e1) + Z.max 0 (k - e2))) by lia.
    replace (Z.max 0 (e2 - k) + Z.max 0 (k - e1) + (k - m)) with ((e2 - m) + (Z.max 0 (k - e1) + Z.max 0 (k - e2))) by lia.
    rewrite !(Z.pow_add_r 2 (_ - m)), !Z.mul_assoc by lia. by f_equal. }
  destruct (div_proportional n1' d1' n2' d2' H1 H2 E) as [Eq Er]. rewrite Eq.
  rewrite (rounds_up_proportional _ _ _ _ d1' (n2' mod d2') d2'); [|done|done|by apply Z.mod_pos_bound|done].
  f_equal. f_equal. apply eq_true_iff_eq. rewrite !Z.eqb_eq. nia.
Qed.

(** Two ways to write a number are rounded to one result. *)
Lemma bf_round_spec_ratio sgn n1 d1 e1 n2 d2 e2 prec1 flags :
  0 < n1 -> 0 < d1 -> 0 < n2 -> 0 < d2 -> ratio_eq n1 d1 e1 n2 d2 e2 ->
  spec_equiv (bf_round_spec sgn n1 d1 e1 prec1 flags) (bf_round_spec sgn n2 d2 e2 prec1 flags).
Proof.
  intros Hn1 Hd1 Hn2 Hd2 HE. rewrite !bf_round_spec_finish by done. rewrite (ratio_exponent_eq n1 d1 e1 n2 d2 e2) by done.
  by rewrite (round_at_ratio _ _ n1 d1 e1 n2 d2 e2) by (done || lia).
Qed.

(** * Quotients with a sticky bit *)

(** The quotient of [n] by [d], odd when there is a remainder. *)
Definition sticky (n d : Z) : Z := if n mod d =? 0 then n / d else Z.lor (n / d) 1.

Lemma lor_1 q : 0 <= q -> Z.lor q 1 = 2 * (q / 2) + 1.
Proof.
  intros Hq. pose proof (Z.div_mod q 2 ltac:(lia)) as E. apply Z.bits_inj'. intros i Hi. rewrite Z.lor_spec.
  destruct (Z.eq_dec i 0) as [->|Hne].
  - rewrite Z.testbit_odd_0. by rewrite orb_true_r.
  - replace i with (Z.succ (i - 1)) by lia. rewrite Z.testbit_odd_succ by lia. rewrite <- (Z.div2_div q), Z.div2_spec, Z.shiftr_spec by lia.
    replace (i - 1 + 1) with (Z.succ (i - 1)) by lia. rewrite (Z.bits_above_log2 1); [by rewrite orb_false_r|lia|]. change (Z.log2 1) with 0. lia.
Qed.

Lemma sticky_spec n d :
  0 < d -> 0 <= n -> let q := n / d in
  q <= sticky n d <= q + 1 /\ (n mod d = 0 -> sticky n d = q) /\ (n mod d <> 0 -> sticky n d mod 2 = 1).
Proof.
  intros Hd Hn q. unfold sticky. fold q. assert (0 <= q) by (apply Z.div_pos; lia).
  destruct (Z.eqb_spec (n mod d) 0); [split; [lia|done]|]. rewrite lor_1 by done.
  split; [|split; [done|]]; Z.to_euclidean_division_equations; lia.
Qed.

Lemma ratio_exponent_sticky n d e :
  0 < d -> d <= n -> ratio_exponent (sticky n d) 1 e = ratio_exponent n d e.
Proof.
  intros Hd Hn. destruct (sticky_spec n d Hd ltac:(lia)) as (Hq & _ & _). cbv zeta in Hq.
  assert (1 <= n / d) as Hq1 by (apply Z.div_le_lower_bound; lia). rewrite ratio_exponent_int by lia.
  assert (Z.log2 (sticky n d) = Z.log2 (n / d)) as ->.
  { unfold sticky. case_match; [done|]. rewrite Z.log2_lor by lia. pose proof (Z.log2_nonneg (n / d)). change (Z.log2 1) with 0. lia. }
  pose proof (Z.log2_nonneg (n / d)) as Hl. pose proof (Z.log2_spec (n / d) ltac:(lia)) as [L1 L2].
  pose proof (Z.div_mod n d ltac:(lia)) as E. pose proof (Z.mod_pos_bound n d Hd) as Hr. symmetry. apply ratio_exponent_unique; [lia|done|..].
  - rewrite (pow_le_iff e) by lia. rewrite Z.sub_diag. replace (e + Z.log2 (n / d) + 1 - 1 - e) with (Z.log2 (n / d)) by lia. nia.
  - rewrite (pow_le_iff e) by lia. rewrite Z.sub_diag. replace (e + Z.log2 (n / d) + 1 - e) with (Z.succ (Z.log2 (n / d))) by lia. nia.
Qed.

Lemma rounds_up_sticky mode sgn q d R rr R' g :
  0 < d -> 0 < g -> 0 <= R -> 0 <= rr < d -> R <= R' <= R + 1 -> (rr = 0 -> R' = R) -> (rr <> 0 -> R' mod 2 = 1) ->
  rounds_up mode sgn q (R * d + rr) (d * (4 * g)) = rounds_up mode sgn q R' (4 * g) /\ (R * d + rr = 0 <-> R' = 0).
Proof.
  intros Hd Hg HR Hrr HR' H0 H1. destruct (Z.eq_dec rr 0) as [->|Hnz].
  - rewrite (H0 eq_refl), Z.add_0_r. split; [|nia]. apply rounds_up_proportional; try done; try nia.
  - specialize (H1 Hnz). clear H0. assert (exists j, R' = 2 * j + 1) as [j ->] by (exists (R' / 2); Z.to_euclidean_division_equations; lia).
    split; [|nia]. unfold rounds_up.
    assert ((d * (4 * g) <? 2 * (R * d + rr)) = (4 * g <? 2 * (2 * j + 1))) as -> by (apply eq_true_iff_eq; rewrite !Z.ltb_lt; nia).
    assert ((2 * (R * d + rr) =? d * (4 * g)) = (2 * (2 * j + 1) =? 4 * g)) as ->.
    { transitivity false; [apply Z.eqb_neq|symmetry; apply Z.eqb_neq; lia]. intros E. assert (rr = (2 * g - R) * d) as Er by lia.
      clear - Er Hnz Hrr Hd. assert (2 * g - R <= 0 \/ 1 <= 2 * g - R) as [?|?] by lia; nia. }
    assert ((0 <? R * d + rr) = (0 <? 2 * j + 1)) as -> by (apply eq_true_iff_eq; rewrite !Z.ltb_lt; nia).
    assert ((d * (4 * g) <=? 2 * (R * d + rr)) = (4 * g <=? 2 * (2 * j + 1))) as -> by (apply eq_true_iff_eq; rewrite !Z.leb_le; nia).
    done.
Qed.

Lemma round_at_sticky mode sgn n d e k :
  0 < d -> 0 <= n -> 2 <= k - e -> round_at mode sgn (sticky n d) 1 e k = round_at mode sgn n d e k.
Proof.
  intros Hd Hn Hk. destruct (sticky_spec n d Hd Hn) as (Hq & H0 & H1). cbv zeta in *. unfold round_at, scaled, round_ratio.
  rewrite Z.max_l, Z.max_r, Z.pow_0_r, !Z.mul_1_r, Z.mul_1_l by lia. 
  assert (0 <= n / d) as Hq0 by (apply Z.div_pos; lia). set (Q := n / d) in *. set (S := sticky n d) in *.
  assert (0 < 2 ^ (k - e - 2)) as Hg by lia. assert (2 ^ (k - e) = 4 * 2 ^ (k - e - 2)) as Ep.
  { change 4 with (2 ^ 2) at 1. rewrite <- Z.pow_add_r by lia. f_equal. lia. }
  rewrite Ep. set (g := 2 ^ (k - e - 2)) in *. clearbody g. clear Ep.
  assert (n mod (d * (4 * g)) = Q mod (4 * g) * d + n mod d) as ->. { rewrite Z.rem_mul_r by lia. fold Q. ring. }
  assert (n / (d * (4 * g)) = Q / (4 * g)) as ->. { unfold Q. by rewrite Z.div_div by lia. }
  pose proof (Z.mod_pos_bound n d Hd) as Hr. remember (n mod d) as rr eqn:Err. clear Err.
  pose proof (Z.div_mod Q (4 * g) ltac:(lia)) as EQ. pose proof (Z.mod_pos_bound Q (4 * g) ltac:(lia)) as HQ.
  assert (S / (4 * g) = Q / (4 * g) /\ S mod (4 * g) = Q mod (4 * g) + (S - Q)) as [-> ->].
  { assert (Q mod (4 * g) + (S - Q) < 4 * g) as Hlt.
    { destruct (Z.eq_dec rr 0); [rewrite H0 by done; lia|]. specialize (H1 ltac:(done)).
      assert (S - Q = 1 -> Q mod (4 * g) mod 2 = 0); [|].
      - intros E1. assert (Q mod 2 = 0) as E2 by (Z.to_euclidean_division_equations; lia). rewrite <- E2.
        replace (4 * g) with (2 * (2 * g)) by ring. rewrite Z.rem_mul_r by lia. rewrite (Z.mul_comm 2 (_ mod _)), Z.mod_add by lia. by rewrite Z.mod_mod.
      - destruct (Z.eq_dec (S - Q) 1) as [E1|]; [|lia]. specialize (H ltac:(done)). clear - H HQ E1. Z.to_euclidean_division_equations. lia. }
    split; [symmetry; apply Z.div_unique with (Q mod (4 * g) + (S - Q))|symmetry; apply Z.mod_unique with (Q / (4 * g))]; [left; lia|lia|left; lia|lia]. }
  destruct (rounds_up_sticky mode sgn (Q / (4 * g)) d (Q mod (4 * g)) rr (Q mod (4 * g) + (S - Q)) g) as [E1 E2]; try done; try lia.
  { intros Hnz. specialize (H1 Hnz). replace (Q mod (4 * g) + (S - Q)) with (S + (- (2 * (Q / (4 * g)) * g)) * 2) by lia. by rewrite Z.mod_add. }
  rewrite E1. f_equal. f_equal. apply eq_true_iff_eq. rewrite !Z.eqb_eq. by rewrite E2.
Qed.

(** A quotient with its sticky bit is rounded like the ratio, when two more bits are computed. *)
Lemma bf_round_spec_sticky sgn n d e prec1 flags :
  0 < d -> d <= n -> spec_prec (ratio_exponent n d e) prec1 flags + 2 <= ratio_exponent n d e - e ->
  spec_equiv (bf_round_spec sgn (sticky n d) 1 e prec1 flags) (bf_round_spec sgn n d e prec1 flags).
Proof.
  intros Hd Hn Hk. destruct (sticky_spec n d Hd ltac:(lia)) as (Hq & _ & _). cbv zeta in Hq.
  assert (1 <= n / d) as Hq1 by (apply Z.div_le_lower_bound; lia).
  rewrite !bf_round_spec_finish by lia. rewrite ratio_exponent_sticky by done. by rewrite round_at_sticky by lia.
Qed.
