(* ===== verification/BfRoundOk.v ===== *)
(** The rounding of [libbf.c] computes [bf_round_spec].

    [__bf_round] is proved first, on a mantissa whose highest bit is set, then
    [bf_normalize_and_round] on any limbs, and [bf_round] and [bf_rint] on the
    numbers of the library. *)
From Stdlib Require Import ZArith Lia Bool List.
From stdpp Require Import base tactics list numbers.
From S2P Require Import Prelude IntFmt Alloc Limb MpMul MpDiv Bf BfRound BfRatio.

Section Round.
Context `{SHG : ShrinkGranted}.

(** * Allocation of the result *)

Lemma limbs_resize_any fresh t n : limbs t -> limbs (resize u64 fresh t n).
Proof.
  intros Ht. unfold resize, fresh_cells. apply Forall_app. split; [auto with limbs|].
  apply Forall_map, Forall_forall. intros i _. apply u64_range.
Qed.

Lemma bf_resize_from h r n :
  limbs (tab r) -> 0 <= n -> hpost_from h (bf_resize r n) (fun '(r', ok) =>
    if ok : bool then sign r' = sign r /\ expn r' = expn r /\ limbs (tab r') /\ len r' = n /\
      take (Z.to_nat (Z.min n (len r))) (tab r') = take (Z.to_nat n) (tab r)
    else r' = r /\ len r < n /\ (n * 8 < 2 ^ 63 -> refuses h (n * 8))).
Proof.
  intros Hl Hn. unfold hpost_from, bf_resize, len. pose proof (zlen_nonneg (tab r)). destruct (Z.eqb_spec n (zlen (tab r))) as [->|Hne]; cbn [negb].
  { cbn. rewrite Z.min_id. done. }
  destruct (Z.eqb_spec n 0) as [->|Hz]; [cbn; by rewrite Z.min_l by lia|].
  destruct (Z.ltb_spec n (zlen (tab r))).
  - pose proof (shrink_granted h (n * 8)). destruct (shrink h (n * 8)) as [h' ok]. cbn in *. subst ok. cbn [tab set_tab sign expn].
    rewrite Z.min_l, zlen_take, take_take, Nat.min_id by lia. auto with limbs.
  - destruct (realloc 8 u64 h (tab r) n) as [h' [t|]] eqn:E.
    2: { split; [done|]. split; [lia|]. intros Hmax. unfold realloc, refuses in *. rewrite (proj2 (Z.ltb_lt _ _) Hmax) in E. by destruct (heap_alloc h (n * 8)) as [? [fresh|]]. }
    destruct (realloc_Some _ _ _ _ _ _ _ E Hn) as (Hz' & _ & Ht). cbn. repeat (split; [done|]).
    unfold realloc in E. destruct (heap_alloc h (n * 8)) as [? [fresh|]]; [|done]. destruct (n * 8 <? 2 ^ 63); [|done].
    injection E as _ <-. split; [by apply limbs_resize_any|done].
Qed.

Lemma bf_resize_spec r n :
  limbs (tab r) -> 0 <= n -> hpost (bf_resize r n) (fun '(r', ok) =>
    if ok : bool then sign r' = sign r /\ expn r' = expn r /\ limbs (tab r') /\ len r' = n /\
      take (Z.to_nat (Z.min n (len r))) (tab r') = take (Z.to_nat n) (tab r)
    else r' = r /\ len r < n /\ (n < 2 ^ 60 -> can_refuse)).
Proof.
  intros Hl Hn h. eapply post_mono; [exact (bf_resize_from h r n Hl Hn)|]. intros [h' [r' [|]]]; [done|].
  intros (? & ? & H). split; [done|]. split; [done|]. intros Hlt. exists (n * 8), h. apply H. lia.
Qed.

Lemma bf_resize_0 r : hpost (bf_resize_ r 0) (fun r' => r' = set_tab r []).
Proof. apply bf_resize_shrink. unfold len. pose proof (zlen_nonneg (tab r)). lia. Qed.

Lemma bf_set_zero_spec r s : hpost (bf_set_zero r s) (fun r' => represents r' (V_zero s)).
Proof. apply hpost_bind. eapply hpost_mono; [apply bf_resize_0|]. intros r' ->. by apply hpost_ret. Qed.

Lemma bf_set_inf_spec r s : hpost (bf_set_inf r s) (fun r' => represents r' (V_inf s)).
Proof. apply hpost_bind. eapply hpost_mono; [apply bf_resize_0|]. intros r' ->. by apply hpost_ret. Qed.

Lemma bf_set_nan_spec r : hpost (bf_set_nan r) (fun r' => represents r' V_nan).
Proof. apply hpost_bind. eapply hpost_mono; [apply bf_resize_0|]. intros r' ->. by apply hpost_ret. Qed.

Lemma bf_mem_error_spec r spec : can_refuse -> hpost (bf_mem_error r) (result_is spec).
Proof. intros Hs. apply hpost_bind. eapply hpost_mono; [apply bf_set_nan_spec|]. intros r' Hr. apply hpost_ret. by left. Qed.

Lemma round_underflow_spec short r ret spec :
  spec = (V_zero (sign r), Z.lor ret (Z.lor BF_ST_UNDERFLOW BF_ST_INEXACT)) -> hpost (round_underflow r ret) (result_in short spec).
Proof. intros ->. apply hpost_bind. eapply hpost_mono; [apply bf_set_zero_spec|]. intros r' Hr. apply hpost_ret. by right. Qed.

(** * Results of a rounding *)

(** A finite value without digits: the greatest number of a precision of no bits. *)
Definition no_digits (v : bf_value) : bool := match v with V_num _ 0 _ => true | _ => false end.

(** Memory can be short for the greatest number of the format only, when it has more limbs than the [n] limbs of the
    number that is rounded and the allocator may refuse them. *)
Definition mem_short (n prec : Z) (spec : bf_value * Z) : Prop :=
  prec <> BF_PREC_INF /\ 64 * n < prec /\ may_refuse ((prec + 63) / 64 * 8) /\ spec.2 = Z.lor BF_ST_OVERFLOW BF_ST_INEXACT.

Lemma mem_short_refuse n prec spec : mem_short n prec spec -> can_refuse.
Proof. intros (_ & _ & H & _). by eexists. Qed.

(** [m] gives the result [spec], from a number of [n] limbs; when it is the greatest number of no bits, the code writes
    the first limb of an empty table. *)
Definition rounds_to (n prec : Z) (spec : bf_value * Z) (m : heap_m (bf_t * Z)) : Prop :=
  if no_digits spec.1 then forall h, m h = Err OutOfBounds else hpost m (result_in (mem_short n prec spec) spec).

Lemma rounds_bind {A : Type} n prec spec (m : heap_m A) (k : A -> heap_m (bf_t * Z)) (P : A -> Prop) :
  hpost m P -> (forall a, P a -> rounds_to n prec spec (k a)) -> rounds_to n prec spec (hbind m k).
Proof.
  intros Hm Hk. unfold rounds_to in *. destruct (no_digits spec.1).
  - intros h. specialize (Hm h). unfold hbind. destruct (m h) as [[h' a]|]; [exact (Hk a Hm h')|done].
  - apply hpost_bind. by eapply hpost_mono.
Qed.

Lemma rounds_lift {A : Type} n prec spec (m : outcome A) (k : A -> heap_m (bf_t * Z)) :
  post m (fun a => rounds_to n prec spec (k a)) -> rounds_to n prec spec (hbind (hlift m) k).
Proof. intros H. eapply rounds_bind; [apply hpost_lift, H|]. by intros a Ha. Qed.

Lemma rounds_ok n prec spec m : no_digits spec.1 = false -> (forall short, hpost m (result_in short spec)) -> rounds_to n prec spec m.
Proof. intros Hd Hm. unfold rounds_to. rewrite Hd. apply Hm. Qed.

Lemma rounds_equiv n prec spec spec' m : spec_equiv spec spec' -> rounds_to n prec spec m -> rounds_to n prec spec' m.
Proof.
  intros E. pose proof E as [Hv Hs]. assert (no_digits spec.1 = no_digits spec'.1) as Hd.
  { destruct spec.1 as [| | |s1 m1 e1], spec'.1 as [| | |s2 m2 e2]; cbn in Hv; try done. destruct Hv as [_ Hv]. unfold same_number in Hv.
    set (d := Z.min e1 e2) in *. assert (0 < 2 ^ (e1 - d) /\ 0 < 2 ^ (e2 - d)) by lia. assert (m1 = 0 <-> m2 = 0) as Hz by nia.
    destruct m1, m2; cbn; done || (exfalso; lia). }
  unfold rounds_to, mem_short. rewrite Hd, Hs. destruct (no_digits spec'.1); [done|]. intros Hm. eapply hpost_mono; [exact Hm|]. intros res. by apply result_in_equiv.
Qed.

Lemma rounds_result n prec spec m : no_digits spec.1 = false -> rounds_to n prec spec m -> hpost m (result_in (mem_short n prec spec) spec).
Proof. intros Hd. unfold rounds_to. by rewrite Hd. Qed.

(** * Overflow *)

Lemma value_ones n : 0 <= n -> value (replicate (Z.to_nat n) (u64 (-1))) = 2 ^ (64 * n) - 1.
Proof.
  intros Hn. rewrite <- LB_pow2 by done. rewrite <- (Z2Nat.id n) at 2 by done. generalize (Z.to_nat n) as m. induction m as [|m IH]; [done|].
  cbn [replicate value]. rewrite IH, Nat2Z.inj_succ, Z.pow_succ_r by lia. change (u64 (-1)) with (LB - 1). lia.
Qed.

(** The mantissa whose [prec] high bits are set. *)
Lemma overflow_mant prec :
  0 < prec < 2 ^ 63 ->
  let l := u64 (prec + LIMB_BITS - 1) / LIMB_BITS in
  let t := limb_mask (Z.land (u64 (- prec)) (LIMB_BITS - 1)) (LIMB_BITS - 1) :: replicate (Z.to_nat (l - 1)) (u64 (-1)) in
  0 < l /\ 0 <= 64 * l - prec /\ limbs t /\ zlen t = l /\ value t = (2 ^ prec - 1) * 2 ^ (64 * l - prec) /\ hd 0 t <> 0.
Proof.
  intros Hp l. change LIMB_BITS with 64 in *.
  assert (l = (prec + 63) / 64) as El by (unfold l; rewrite u64_id by (unfold in_u64; lia); f_equal; lia).
  assert (Z.land (u64 (- prec)) (64 - 1) = 64 * l - prec) as Es.
  { rewrite (land_mask _ 6) by done. rewrite El. unfold u64. change (2 ^ 6) with 64. Z.to_euclidean_division_equations. lia. }
  rewrite Es. assert (0 < l /\ 0 <= 64 * l - prec < 64) as [Hl Hs] by (rewrite El; Z.to_euclidean_division_equations; lia). clear Es El.
  clearbody l. set (s := 64 * l - prec) in *. pose proof (limb_mask_high s (LB - 1) Hs ltac:(done)) as Hm.
  assert (in_u64 (limb_mask s (64 - 1))) as Hr by (unfold limb_mask; case_match; apply u64_range).
  assert (Z.land (LB - 1) (limb_mask s (64 - 1)) = limb_mask s (64 - 1)) as Hid.
  { rewrite Z.land_comm, (land_mask _ 64) by done. by apply Z.mod_small. }
  change (LIMB_BITS - 1) with (64 - 1) in Hm. rewrite Hid in Hm. clear Hid.
  assert ((LB - 1) / 2 ^ s * 2 ^ s = LB - 2 ^ s) as Hq.
  { unfold LB. replace (2 ^ 64) with (2 ^ (64 - s) * 2 ^ s) at 1 by (rewrite <- Z.pow_add_r by lia; f_equal; lia).
    assert (0 < 2 ^ s) by lia. replace (2 ^ (64 - s) * 2 ^ s - 1) with ((2 ^ (64 - s) - 1) * 2 ^ s + (2 ^ s - 1)) by ring.
    rewrite Z.div_add_l, (Z.div_small (2 ^ s - 1)), Z.add_0_r by lia. rewrite Z.mul_sub_distr_r, <- Z.pow_add_r by lia. f_equal; [f_equal; lia|lia]. }
  rewrite Hq in Hm. split; [done|]. split; [lia|]. split.
  { constructor; [done|]. apply Forall_replicate. apply u64_range. }
  split; [rewrite zlen_cons, zlen_replicate; lia|]. cbn [hd value]. rewrite value_ones, Hm by lia. split.
  - rewrite Z.mul_sub_distr_r, <- Z.pow_add_r by lia. replace (prec + s) with (64 + 64 * (l - 1)) by lia. rewrite Z.pow_add_r by lia. unfold LB. ring.
  - assert (2 ^ s < LB) by (apply Z.pow_lt_mono_r; lia). lia.
Qed.

Lemma bf_set_overflow_spec r sgn prec flags :
  limbs (tab r) -> 0 <= prec <= BF_PREC_INF ->
  rounds_to (len r) prec (overflow_spec sgn prec flags) (bf_set_overflow r sgn prec flags).
Proof.
  intros Hl Hp0. unfold bf_set_overflow, overflow_spec. case_match eqn:Hmode.
  { apply rounds_ok; [done|]. intros short. apply hpost_bind. eapply hpost_mono; [apply bf_set_inf_spec|]. intros r' Hr. apply hpost_ret. by right. }
  assert (prec <> BF_PREC_INF) as Hninf by (intros ->; by rewrite Z.eqb_refl in Hmode). clear Hmode.
  unfold rounds_to. cbn [fst]. destruct (Z.eq_dec prec 0) as [->|Hprec].
  { change (no_digits (V_num _ (2 ^ 0 - 1) _)) with true. cbv iota. intros h. change (u64 (0 + LIMB_BITS - 1) / LIMB_BITS) with 0.
    unfold bf_resize, hbind. destruct (Z.eqb_spec 0 (len r)) as [E|E]; cbn [negb Z.eqb obind]; [|done].
    unfold len in E. destruct (tab r); [done|rewrite zlen_cons in E; pose proof (zlen_nonneg l); lia]. }
  assert (2 <= 2 ^ prec) as Hpow by (change 2 with (2 ^ 1) at 1; apply Z.pow_le_mono_r; lia).
  assert (no_digits (V_num sgn (2 ^ prec - 1) (Z.shiftl 1 (bf_get_exp_bits flags - 1) - prec)) = false) as -> by (unfold no_digits; case_match; done || lia).
  assert (0 < prec <= BF_PREC_INF) as Hp by lia.
  change BF_PREC_INF with (2 ^ 62 - 1) in *. destruct (overflow_mant prec) as (Hl0 & Hs & Ht & Hz & Hv & Hhd); [lia|].
  set (l := u64 (prec + LIMB_BITS - 1) / LIMB_BITS) in *. apply hpost_bind. intros h0. eapply post_mono; [by apply (bf_resize_from h0); [|lia]|].
  intros [h1 [r1 ok]] Hr1. clear h1. destruct ok; cbn [negb].
  2: { destruct Hr1 as (-> & Hshort & Href). apply hpost_bind. eapply hpost_mono; [apply bf_set_nan_spec|]. intros r' Hr'. apply hpost_ret. left.
       split; [|done]. unfold l in Hshort, Href. change LIMB_BITS with 64 in Hshort, Href. rewrite u64_id in Hshort, Href by (unfold in_u64; lia).
       replace (prec + 64 - 1) with (prec + 63) in * by lia. split; [done|]. split; [Z.to_euclidean_division_equations; lia|]. split; [|done].
       exists h0. apply Href. Z.to_euclidean_division_equations. lia. }
  destruct Hr1 as (_ & _ & Hl1 & Hz1 & _). unfold len in Hz1.
  remember (limb_mask (Z.land (u64 (- prec)) (LIMB_BITS - 1)) (LIMB_BITS - 1)) as m eqn:Em. remember (replicate (Z.to_nat (l - 1)) (u64 (-1))) as u eqn:Eu.
  rewrite zlen_cons in Hz. destruct (tab r1) as [|y w]; [change (zlen []) with 0 in Hz1; lia|]. rewrite zlen_cons in Hz1.
  apply hpost_bind, hpost_lift. assert (wr (y :: w) 0 m = Ret (m :: w)) as -> by (by apply (wr_app [])). apply post_ret. apply hpost_bind, hpost_lift.
  assert (wr_slice (m :: w) 1 u = Ret (m :: u)) as ->.
  { pose proof (wr_slice_mid [m] w [] u) as E. rewrite !app_nil_r in E. apply E. unfold zlen in *. lia. }
  apply post_ret. apply hpost_ret.
  right. split; [|done]. cbn [fst represents]. unfold bf_normal, len. cbn [tab sign expn]. rewrite zlen_cons, Hz.
  split; [split; [done|split; [done|split]]|split; [done|]].
  - rewrite Hv, LB_pow2 by lia. replace (64 * l) with (prec + (64 * l - prec)) at 1 by lia. rewrite Z.pow_add_r by lia.
    assert (2 <= 2 ^ prec) by (change 2 with (2 ^ 1) at 1; apply Z.pow_le_mono_r; lia). assert (0 < 2 ^ (64 * l - prec)) by lia. nia.
  - by exists m, u.
  - apply same_number_le; change LIMB_BITS with 64; [lia|]. rewrite Hv. do 2 f_equal. lia.
Qed.

(** * Mantissas with the highest bit set *)

(** What a rounding asks of the exponent, the precision and the format. *)
Definition rounding_range (E prec1 flags : Z) : Prop :=
  mode_ok (rnd_mode_of flags) /\ 3 <= bf_get_exp_bits flags <= 62 /\ 0 <= prec1 <= BF_PREC_INF /\ - 2 ^ 62 <= E <= 2 ^ 62 /\
  (has_flag flags BF_FLAG_RADPNT_PREC = true -> prec1 = BF_PREC_INF \/ prec1 <= 2 ^ 61) /\
  (has_flag flags BF_FLAG_RADPNT_PREC = false -> has_flag flags BF_FLAG_SUBNORMAL = true -> prec1 <> BF_PREC_INF).

(** With a precision of no bits, no overflow either. *)
Definition rounding_ok (E prec1 flags : Z) : Prop :=
  rounding_range E prec1 flags /\ (prec1 = 0 -> E < 2 ^ (bf_get_exp_bits flags - 1)).

(** The mantissa [M] rounded, in units of the last bit that is kept. *)
Definition rounded_mant (mode sgn M K : Z) : Z :=
  if K <=? 0 then M else M / 2 ^ K + b2z (add_one_of mode sgn M K).

(** [bf_round_spec] on a mantissa of [l] limbs and the exponent [E]. *)
Lemma bf_round_spec_mant sgn M l E prec1 flags :
  0 < l -> 2 ^ (64 * l - 1) <= M < 2 ^ (64 * l) ->
  bf_round_spec sgn M 1 (E - 64 * l) prec1 flags =
    (let mode := rnd_mode_of flags in
     let e_max := Z.shiftl 1 (bf_get_exp_bits flags - 1) in
     let e_min := - e_max + 3 in
     let prec := prec_spec E prec1 flags e_min in
     let K := 64 * l - prec in
     let m := rounded_mant mode sgn M K in
     let em := if K <=? 0 then E - 64 * l else E - prec in
     let st := if inexact_of mode M K then BF_ST_INEXACT else 0 in
     let under := Z.lor st (Z.lor BF_ST_UNDERFLOW BF_ST_INEXACT) in
     if prec <=? 0 then
       if m =? 0 then (V_zero sgn, under) else (V_num sgn m em, under)
     else
       let E' := if (0 <? K) && (m =? 2 ^ prec) then E + 1 else E in
       if (E' <? e_min) && negb (has_flag flags BF_FLAG_SUBNORMAL) then (V_zero sgn, under)
       else
         let st := if (E' <? e_min) && has_flag st BF_ST_INEXACT then Z.lor st BF_ST_UNDERFLOW else st in
         if e_max <? E' then overflow_spec sgn prec1 flags
         else (V_num sgn m em, st)).
Proof.
  intros Hl HM. unfold bf_round_spec. rewrite ratio_exponent_int by lia.
  assert (Z.log2 M = 64 * l - 1) as ->.
  { apply Z.log2_unique; [lia|]. replace (Z.succ (64 * l - 1)) with (64 * l) by lia. done. }
  replace (E - 64 * l + (64 * l - 1) + 1) with E by lia. cbv zeta. set (e_min := - _ + 3).
  set (prec := prec_spec E prec1 flags e_min). unfold scaled, rounded_mant, inexact_of, add_one_of, round_ratio.
  replace (E - 64 * l - (E - prec)) with (- (64 * l - prec)) by lia. replace (E - prec - (E - 64 * l)) with (64 * l - prec) by lia.
  replace (E - prec <=? E - 64 * l) with (64 * l - prec <=? 0) by (apply eq_true_iff_eq; rewrite !Z.leb_le; lia).
  set (K := 64 * l - prec). rewrite Z.ltb_antisym. change (1 =? 1) with true. destruct (Z.leb_spec K 0); cbn [andb negb].
  - done.
  - rewrite Z.max_l, Z.max_r, Z.pow_0_r, Z.mul_1_l, Z.mul_1_r by lia. done.
Qed.

Lemma round_prec_spec r prec1 flags e_min :
  rounding_range (expn r) prec1 flags -> e_min = - Z.shiftl 1 (bf_get_exp_bits flags - 1) + 3 ->
  round_prec r prec1 flags e_min = Ret (prec_spec (expn r) prec1 flags e_min) /\ prec_range (prec_spec (expn r) prec1 flags e_min) /\
  expn r - prec_spec (expn r) prec1 flags e_min <= 2 ^ 62.
Proof.
  intros (_ & Heb & Hp & HE & Hrad & Hsub) ->. rewrite Z.shiftl_mul_pow2, Z.mul_1_l by lia.
  assert (0 < 2 ^ (bf_get_exp_bits flags - 1) <= 2 ^ 61) as Hem by (split; [|apply Z.pow_le_mono_r]; lia).
  unfold round_prec, prec_spec, prec_range. change BF_PREC_INF with (2 ^ 62 - 1) in *. remember (2 ^ (bf_get_exp_bits flags - 1)) as em eqn:Eem.
  destruct (has_flag flags BF_FLAG_RADPNT_PREC).
  - destruct (Z.eqb_spec prec1 (2 ^ 62 - 1)); cbn [negb]; [split; [done|split; lia]|]. destruct (Hrad eq_refl); [done|]. i64_simpl. split; [done|split; lia].
  - specialize (Hsub eq_refl). destruct (Z.ltb_spec (expn r) (- em + 3)), (has_flag flags BF_FLAG_SUBNORMAL); cbn [andb]; try (split; [done|split; lia]).
    specialize (Hsub eq_refl). destruct (Z.eqb_spec prec1 (2 ^ 62 - 1)); [done|]. cbn [negb c_assert obind]. i64_simpl. split; [done|split; lia].
Qed.

(** Adding one leaves a mantissa of the same form, whose kept bits are the rounded number. *)
Lemma round_add_step r l prec mode sgn :
  limbs (tab r) -> 0 < l <= len r -> 2 ^ (64 * l - 1) <= mant (tab r) l -> 0 < prec -> - 2 ^ 62 <= expn r <= 2 ^ 62 ->
  let M := mant (tab r) l in let K := 64 * l - prec in
  let m := rounded_mant mode sgn M K in
  let E' := if (0 <? K) && (m =? 2 ^ prec) then expn r + 1 else expn r in
  post (if add_one_of mode sgn M K then round_add r l K else Ret r) (fun r' =>
    sign r' = sign r /\ limbs (tab r') /\ len r' = len r /\ expn r' = E' /\ 2 ^ (64 * l - 1) <= mant (tab r') l /\
    same_number (keep_bits (mant (tab r') l) K) (E' - 64 * l) m (if K <=? 0 then expn r - 64 * l else expn r - prec)).
Proof.
  intros Hl Hle HM Hprec HE M K m E'. pose proof (mant_bound (tab r) l Hl ltac:(unfold len in Hle; lia)) as Hub. fold M in HM, Hub.
  unfold E', m, rounded_mant, add_one_of, keep_bits. rewrite Z.ltb_antisym. destruct (Z.leb_spec K 0) as [HK|HK]; cbn [andb negb].
  { apply post_ret. repeat (split; [done|]). by apply same_number_le; [|rewrite Z.sub_diag, Z.mul_1_r]. }
  assert (2 ^ prec * 2 ^ K = 2 ^ (64 * l)) as Hpk by (rewrite <- Z.pow_add_r by lia; f_equal; lia).
  assert (0 < 2 ^ K) as HKp by lia. pose proof (Z.div_mod M (2 ^ K) ltac:(lia)) as Ediv. pose proof (Z.mod_pos_bound M (2 ^ K) HKp) as Hmod.
  destruct (rounds_up mode sgn (M / 2 ^ K) (M mod 2 ^ K) (2 ^ K)); cbn [b2z].
  - eapply post_mono; [apply (round_add_spec r l K Hl Hle ltac:(lia) HM)|]. intros r' (Hs & Hlen & Hl' & Hr'). cbv zeta in Hr'. fold M in Hr'.
    do 3 (split; [done|]). destruct (Z.ltb_spec (M + 2 ^ K) (2 ^ (64 * l))) as [Hc|Hc].
    + destruct Hr' as [He Hm]. rewrite Hm. destruct (Z.eqb_spec (M / 2 ^ K + 1) (2 ^ prec)) as [Eq|Eq]; [exfalso; nia|].
      split; [done|]. split; [lia|]. apply same_number_le; [lia|]. rewrite <- (Z.mul_1_l (2 ^ K)) at 1. rewrite Z.div_add by lia. f_equal. f_equal. lia.
    + destruct Hr' as (He & Hm1 & Hm2). destruct (Z.eqb_spec (M / 2 ^ K + 1) (2 ^ prec)) as [Eq|Eq].
      2: { exfalso. apply Eq. assert (M / 2 ^ K < 2 ^ prec) by (apply Z.div_lt_upper_bound; lia). assert (2 ^ prec < M / 2 ^ K + 2); [|lia].
           apply Z.mul_lt_mono_pos_r with (2 ^ K); lia. }
      split; [rewrite He; i64_simpl; done|]. split; [done|]. rewrite Eq.
      assert (2 ^ (64 * l - 1) = 2 ^ (prec - 1) * 2 ^ K) as Hh by (rewrite <- Z.pow_add_r by lia; f_equal; lia).
      assert (mant (tab r') l / 2 ^ K = 2 ^ (prec - 1)) as ->.
      { symmetry. apply Z.div_unique with (mant (tab r') l - 2 ^ (64 * l - 1)); [left; lia|]. rewrite Hh. ring. }
      rewrite <- Hh. unfold same_number. rewrite Z.min_l by lia. rewrite Z.sub_diag, Z.mul_1_r. rewrite <- Z.pow_add_r by lia. f_equal. lia.
  - apply post_ret. do 3 (split; [done|]). rewrite Z.add_0_r.
    destruct (Z.eqb_spec (M / 2 ^ K) (2 ^ prec)); [exfalso; nia|]. split; [done|]. split; [done|].
    apply same_number_le; [lia|]. f_equal. f_equal. lia.
Qed.

(** The end of a rounding that keeps no bit. *)
Lemma round_none_spec short r prec (add_one : bool) ret :
  limbs (tab r) -> 0 < len r -> prec <= 0 -> expn r - prec <= 2 ^ 62 -> - 2 ^ 62 <= expn r ->
  hpost (if negb (b2z add_one =? 0) then
           let! r := bf_resize_ r 1 in
           let! t := hlift (wr (tab r) 0 (Z.shiftl 1 (LIMB_BITS - 1))) in
           hret (mkBf (sign r) (i64 (expn r + (1 - prec))) t, Z.lor ret (Z.lor BF_ST_UNDERFLOW BF_ST_INEXACT))
         else round_underflow r ret)
    (result_in short (let under := Z.lor ret (Z.lor BF_ST_UNDERFLOW BF_ST_INEXACT) in
                if b2z add_one =? 0 then (V_zero (sign r), under) else (V_num (sign r) (b2z add_one) (expn r - prec), under))).
Proof.
  intros Hl Hle Hp HE HE'. destruct add_one; cbn [b2z Z.eqb negb]; [|by apply round_underflow_spec].
  apply hpost_bind. eapply hpost_mono; [apply bf_resize_shrink; unfold len in *; lia|]. intros r' ->. apply hpost_bind, hpost_lift.
  cbn [tab set_tab]. unfold len in Hle. destruct (tab r) as [|x t]; [done|]. change (take (Z.to_nat 1) (x :: t)) with [x].
  assert (wr [x] 0 (Z.shiftl 1 (LIMB_BITS - 1)) = Ret [2 ^ 63]) as -> by done. apply post_ret. apply hpost_ret. right. split; [|done].
  cbn [fst represents sign tab expn set_tab]. unfold bf_normal, len. cbn [tab expn]. split; [|split; [done|]].
  - split; [by repeat constructor|]. split; [done|]. split; [done|]. by exists (2 ^ 63), [].
  - i64_simpl. change (value [2 ^ 63]) with (2 ^ 63). change (LIMB_BITS * zlen [2 ^ 63]) with 64. apply same_number_le; [lia|].
    rewrite Z.mul_1_l. f_equal. lia.
Qed.

Lemma has_flag_inexact b ret : ret = (if b : bool then BF_ST_INEXACT else 0) -> has_flag ret BF_ST_INEXACT = b.
Proof. by intros ->; destruct b. Qed.

(** The result has digits when no greatest number of no bits is asked for. *)
Lemma rounding_digits sgn M l E prec1 flags :
  0 < l -> 2 ^ (64 * l - 1) <= M < 2 ^ (64 * l) -> rounding_ok E prec1 flags -> no_digits (bf_round_spec sgn M 1 (E - 64 * l) prec1 flags).1 = false.
Proof.
  intros Hl HM [Hok Hzero]. rewrite bf_round_spec_mant by done. cbv zeta. set (e_max := Z.shiftl 1 _). set (prec := prec_spec _ _ _ _).
  assert (forall s m e, m <> 0 -> no_digits (V_num s m e) = false) as Hd by (intros s m e Hm; unfold no_digits; by case_match).
  destruct (Z.leb_spec prec 0) as [Hp|Hp].
  { destruct (Z.eqb_spec (rounded_mant (rnd_mode_of flags) sgn M (64 * l - prec)) 0); [done|by apply Hd]. }
  set (E' := if (0 <? _) && _ then E + 1 else E). destruct ((E' <? - e_max + 3) && negb (has_flag flags BF_FLAG_SUBNORMAL)); [done|]. destruct (Z.ltb_spec e_max E') as [Hover|_]; cbn [fst].
  - unfold overflow_spec. case_match; [done|]. cbn [fst]. apply Hd. destruct Hok as (_ & Heb & Hp1 & _).
    assert (prec1 <> 0) as Hne. { intros Ez. specialize (Hzero Ez). unfold e_max in Hover. rewrite Z.shiftl_mul_pow2, Z.mul_1_l in Hover by lia. unfold E' in Hover. case_match; lia. }
    assert (2 ^ 1 <= 2 ^ prec1) by (apply Z.pow_le_mono_r; lia). lia.
  - apply Hd. unfold rounded_mant. destruct (Z.leb_spec (64 * l - prec) 0); [lia|].
    assert (0 < M / 2 ^ (64 * l - prec)); [|unfold b2z; case_match; lia]. apply Z.div_str_pos. split; [lia|]. eapply Z.le_trans; [|apply HM]. apply Z.pow_le_mono_r; lia.
Qed.

(** [__bf_round], on a mantissa whose highest bit is set. *)
Lemma __bf_round_to r prec1 flags l :
  limbs (tab r) -> 0 < l <= len r -> 2 ^ (64 * l - 1) <= mant (tab r) l -> 64 * l <= 2 ^ 60 -> rounding_range (expn r) prec1 flags ->
  rounds_to (len r) prec1 (bf_round_spec (sign r) (mant (tab r) l) 1 (expn r - 64 * l) prec1 flags) (__bf_round r prec1 flags l 0).
Proof.
  intros Hl Hle HM Hb Hok. pose proof (mant_bound (tab r) l Hl ltac:(unfold len in Hle; lia)) as Hub.
  rewrite bf_round_spec_mant by (done || lia). unfold __bf_round. cbv zeta.
  set (e_max := Z.shiftl 1 (bf_get_exp_bits flags - 1)). set (e_min := - e_max + 3).
  destruct (round_prec_spec r prec1 flags e_min Hok eq_refl) as (Eprec & Hprec & Hdiff). rewrite Eprec.
  set (prec := prec_spec (expn r) prec1 flags e_min) in *. apply rounds_lift, post_ret.
  assert (forall s m e, m <> 0 -> no_digits (V_num s m e) = false) as Hd by (intros s m e Hne; unfold no_digits; by case_match).
  pose proof Hok as (Hmode & Heb & Hp1 & HE & _). set (mode := rnd_mode_of flags) in *.
  rewrite (bf_get_rnd_add_spec 0 r l prec mode) by done. apply rounds_lift, post_ret.
  set (M := mant (tab r) l) in *. set (K := 64 * l - prec) in *. 
  change (if inexact_of mode M K then Z.lor 0 BF_ST_INEXACT else 0) with (if inexact_of mode M K then BF_ST_INEXACT else 0).
  remember (if inexact_of mode M K then BF_ST_INEXACT else 0) as st eqn:Est.
  destruct (Z.leb_spec prec 0) as [Hp|Hp].
  - replace (K <=? 0) with false by (symmetry; apply Z.leb_gt; lia).
    assert (rounded_mant mode (sign r) M K = b2z (add_one_of mode (sign r) M K)) as ->.
    { unfold rounded_mant. replace (K <=? 0) with false by (symmetry; apply Z.leb_gt; lia). rewrite Z.div_small; [done|].
      split; [lia|]. eapply Z.lt_le_trans; [apply Hub|apply Z.pow_le_mono_r; lia]. }
    apply rounds_ok; [by destruct (add_one_of mode (sign r) M K)|]. intros short. apply round_none_spec; done || lia.
  - assert (i64 (l * LIMB_BITS - 1 - (prec - 1)) = K) as ->.
    { unfold prec_range in Hprec. unfold K. change LIMB_BITS with 64. rewrite i64_id by (unfold in_i64; lia). lia. }
    rewrite b2z_nonzero. apply rounds_lift.
    eapply post_mono; [apply (round_add_step r l prec mode (sign r)); done|]. cbv zeta. fold M K.
    set (m := rounded_mant mode (sign r) M K). set (E' := if (0 <? K) && (m =? 2 ^ prec) then expn r + 1 else expn r).
    intros r1 (Hs & Hl1 & Hlen & He & Hm & Hsame). rewrite He.
    destruct ((E' <? e_min) && negb (has_flag flags BF_FLAG_SUBNORMAL)); [apply rounds_ok; [done|]; intros short; apply round_underflow_spec; by rewrite Hs|].
    destruct (Z.ltb_spec e_max E').
    + rewrite Hs, <- Hlen. by apply bf_set_overflow_spec.
    + apply rounds_ok; [apply Hd; unfold m, rounded_mant; destruct (Z.leb_spec K 0); [lia|]|intros short].
      { assert (0 < M / 2 ^ K); [|destruct (add_one_of mode (sign r) M K); cbn [b2z]; lia]. apply Z.div_str_pos. split; [lia|]. eapply Z.le_trans; [|exact HM]. apply Z.pow_le_mono_r; lia. }
      eapply hpost_mono; [apply (round_keep_spec r1 l K); [done|lia|unfold K; lia|done]|].
      intros [r2 st2] (-> & Hs2 & He2 & Hn2 & Hlen2 & Hv2). right. split; [|done]. cbn [fst represents]. split; [done|]. split; [congruence|].
      rewrite He2, He. eapply same_number_scale; [|exact Hsame|exact Hv2]. change LIMB_BITS with 64. lia.
Qed.

Lemma __bf_round_in r prec1 flags l :
  limbs (tab r) -> 0 < l <= len r -> 2 ^ (64 * l - 1) <= mant (tab r) l -> 64 * l <= 2 ^ 60 -> rounding_ok (expn r) prec1 flags ->
  let spec := bf_round_spec (sign r) (mant (tab r) l) 1 (expn r - 64 * l) prec1 flags in
  hpost (__bf_round r prec1 flags l 0) (result_in (mem_short (len r) prec1 spec) spec).
Proof.
  intros Hl Hle HM Hb Hok spec. apply rounds_result; [|by apply __bf_round_to, Hok]. apply rounding_digits; [lia| |done].
  split; [done|]. apply (mant_bound (tab r) l Hl). unfold len in Hle. lia.
Qed.

Lemma __bf_round_spec r prec1 flags l :
  limbs (tab r) -> 0 < l <= len r -> 2 ^ (64 * l - 1) <= mant (tab r) l -> 64 * l <= 2 ^ 60 -> rounding_ok (expn r) prec1 flags ->
  hpost (__bf_round r prec1 flags l 0) (result_is (bf_round_spec (sign r) (mant (tab r) l) 1 (expn r - 64 * l) prec1 flags)).
Proof. intros. eapply hpost_mono; [by apply __bf_round_in|]. intros res. apply result_in_is, mem_short_refuse. Qed.

(** * Normalization *)

Lemma top_len_spec t :
  limbs t -> let l := top_len (rev t) in
  0 <= l <= zlen t /\ value t = mant t l /\ (l = 0 \/ exists x, at_ t (l - 1) x /\ x <> 0).
Proof.
  intros Ht. induction t as [|x t IH] using rev_ind; [cbn; split; [done|split; [done|by left]]|].
  apply Forall_app in Ht as [Ht Hx]. specialize (IH Ht) as (Hl & Hv & Hx'). rewrite rev_app_distr. cbn [rev app top_len].
  unfold mant in *. rewrite zlen_app, zlen_1. destruct (Z.eqb_spec x 0) as [->|Hne]; cbv zeta.
  - split; [lia|]. rewrite value_snoc, Z.mul_0_r, Z.add_0_r, take_app_le by (unfold zlen in *; lia). split; [done|].
    destruct Hx' as [?|(y & [? Hy] & ?)]; [by left|right]. exists y. split; [|done]. split; [done|]. rewrite lookup_app_l; [done|].
    by apply lookup_lt_Some in Hy.
  - assert (zlen (x :: rev t) = zlen t + 1) as -> by (rewrite zlen_cons, zlen_rev; lia). split; [pose proof (zlen_nonneg t); lia|].
    rewrite take_ge by (rewrite length_app; cbn; unfold zlen; lia). split; [done|]. right. exists x. split; [|done].
    pose proof (zlen_nonneg t). split; [lia|]. replace (Z.to_nat (zlen t + 1 - 1)) with (length t) by (unfold zlen; lia).
    by apply list_lookup_middle.
Qed.

Lemma shl_limb a v s :
  in_u64 a -> in_u64 v -> 1 <= s < 64 ->
  Z.lor (u64 (Z.shiftl a s)) (Z.shiftr v (LIMB_BITS - s)) + LB * (a / 2 ^ (64 - s)) = a * 2 ^ s + v / 2 ^ (64 - s) /\
  in_u64 (Z.lor (u64 (Z.shiftl a s)) (Z.shiftr v (LIMB_BITS - s))).
Proof.
  intros Ha Hv Hs. u64_ranges. change LIMB_BITS with 64. rewrite Z.shiftr_div_pow2, Z.shiftl_mul_pow2, u64_LB by lia.
  assert (LB = 2 ^ (64 - s) * 2 ^ s) as EB by (unfold LB; rewrite <- Z.pow_add_r by lia; f_equal; lia).
  assert (0 < 2 ^ s) as Hp by lia. assert (0 < 2 ^ (64 - s)) as Hq by lia.
  assert ((a * 2 ^ s) mod LB = (a mod 2 ^ (64 - s)) * 2 ^ s) as -> by (rewrite EB; apply Z.mul_mod_distr_r; lia).
  assert (0 <= v / 2 ^ (64 - s) < 2 ^ s) as Hvb by (split; [apply Z.div_pos; lia|apply Z.div_lt_upper_bound; lia]).
  rewrite Z.lor_comm, lor_low_high by lia. pose proof (Z.div_mod a (2 ^ (64 - s)) ltac:(lia)) as Ea. pose proof (Z.mod_pos_bound a _ Hq) as Hm.
  split.
  - rewrite EB. rewrite Ea at 3. ring.
  - change (0 <= v / 2 ^ (64 - s) + a mod 2 ^ (64 - s) * 2 ^ s < LB). rewrite EB. nia.
Qed.

Lemma last_cons (a v : Z) t : List.last (a :: t) v = List.last t a.
Proof. revert a v. induction t as [|b t IH]; intros a v; [done|]. change (List.last (a :: b :: t) v) with (List.last (b :: t) v). by rewrite !IH. Qed.

Lemma shl_limbs_spec t s v :
  limbs t -> in_u64 v -> 1 <= s < 64 ->
  limbs (shl_limbs t s v) /\ length (shl_limbs t s v) = length t /\
  value (shl_limbs t s v) + base_pow t * (List.last t v / 2 ^ (64 - s)) = value t * 2 ^ s + v / 2 ^ (64 - s).
Proof.
  intros Ht. revert v. induction Ht as [|a t Ha Ht IH]; intros v Hv Hs; cbn [shl_limbs]; [split; [done|split; [done|]]; cbn [value List.last]; rewrite base_pow_nil; lia|].
  destruct (IH a Ha Hs) as (Hl & Hn & Hval). destruct (shl_limb a v s Ha Hv Hs) as [E Hr].
  split; [by constructor|]. split; [cbn; lia|]. cbn [value]. rewrite base_pow_cons.
  rewrite last_cons. nia.
Qed.

(** The mantissa shifted to the left until its highest bit is set. *)
Lemma normalize_shift t l x :
  limbs t -> 0 < l <= zlen t -> at_ t (l - 1) x -> x <> 0 ->
  2 ^ (64 * l - 1) <= mant t l * 2 ^ clz x < 2 ^ (64 * l) /\ 0 <= clz x < 64 /\
  (clz x <> 0 -> post (let* u := rd_slice t 0 l in wr_slice t 0 (shl_limbs u (clz x) 0))
    (fun t' => limbs t' /\ zlen t' = zlen t /\ mant t' l = mant t l * 2 ^ clz x)).
Proof.
  intros Hl Hle Hx Hnz. assert (in_u64 x) as Hx64 by exact (at_Forall _ _ _ _ Hl Hx). u64_ranges.
  pose proof (Z.log2_spec x ltac:(lia)) as Hlog. pose proof (Z.log2_nonneg x) as Hl0.
  assert (Z.log2 x < 64) as Hl64 by (apply Z.log2_lt_pow2; [lia|exact (proj2 Hx64)]).
  unfold clz. rewrite (proj2 (Z.eqb_neq x 0) Hnz). unfold clz64. set (s := 63 - Z.log2 x). assert (Z.log2 x = 63 - s) as Elog by lia. rewrite Elog in Hlog.
  assert (mant t l = mant t (l - 1) + 2 ^ (64 * (l - 1)) * x) as EM.
  { unfold mant. replace l with ((l - 1) + 1) at 1 by lia. rewrite (value_take_S _ _ _ Hx), LB_pow2 by lia. done. }
  pose proof (mant_bound t (l - 1) Hl ltac:(lia)) as Hb. remember (2 ^ (64 * (l - 1))) as P eqn:EP.
  assert (2 ^ (64 * l - 1) = P * 2 ^ (63 - s) * 2 ^ s /\ 2 ^ (64 * l) = P * 2 ^ (Z.succ (63 - s)) * 2 ^ s) as [-> ->].
  { rewrite EP, <- !Z.pow_add_r by lia. split; f_equal; lia. }
  split; [rewrite EM; split; [apply Z.mul_le_mono_nonneg_r|apply Z.mul_lt_mono_pos_r]; nia|]. split; [lia|]. intros Hs.
  step. rewrite rd_slice_in by lia. step. change (drop (Z.to_nat 0) t) with t.
  assert (limbs (take (Z.to_nat l) t)) as Hlt by auto with limbs. destruct (shl_limbs_spec _ s 0 Hlt ltac:(done) ltac:(lia)) as (Hu & Hn & Hv).
  assert (zlen (shl_limbs (take (Z.to_nat l) t) s 0) = l) as Hz by (unfold zlen; rewrite Hn, length_take; unfold zlen in Hle; lia).
  eapply post_mono; [apply (wr_top t l 0); try done; lia|]. intros t' (Hl' & Hzt & Hm). split; [done|]. split; [done|]. rewrite Hm.
  change (value (take (Z.to_nat 0) t)) with 0. change (2 ^ (64 * 0)) with 1. rewrite Z.mul_1_l, Z.add_0_l. rewrite Z.div_0_l in Hv by lia.
  assert (List.last (take (Z.to_nat l) t) 0 = x) as El.
  { destruct Hx as [_ Hx]. replace (Z.to_nat l) with (S (Z.to_nat (l - 1))) by lia. by rewrite (take_S_r _ _ x Hx), List.last_last. }
  rewrite El, (Z.div_small x) in Hv; [unfold mant; lia|]. split; [lia|]. replace (64 - s) with (Z.succ (63 - s)) by lia. lia.
Qed.

(** What normalizing and rounding a number of mantissa [V] gives. *)
Definition normalize_spec (sgn V e prec1 flags : Z) : bf_value * Z :=
  if V =? 0 then (V_zero sgn, 0) else bf_round_spec sgn V 1 e prec1 flags.

Lemma bf_normalize_and_round_in r prec1 flags :
  limbs (tab r) -> 64 * len r <= 2 ^ 60 ->
  (value (tab r) <> 0 -> rounding_ok (expn r - 64 * len r + Z.log2 (value (tab r)) + 1) prec1 flags) ->
  let spec := normalize_spec (sign r) (value (tab r)) (expn r - 64 * len r) prec1 flags in
  hpost (bf_normalize_and_round r prec1 flags) (result_in (mem_short (len r) prec1 spec) spec).
Proof.
  intros Hl Hb Hok spec. unfold spec, bf_normalize_and_round. destruct (top_len_spec (tab r) Hl) as (Hle & Hv & Htop). cbv zeta in Hle, Hv, Htop.
  remember (top_len (rev (tab r))) as l eqn:El. cbv zeta. destruct (Z.eqb_spec l 0) as [->|Hl0].
  { unfold normalize_spec. rewrite Hv. cbn. apply hpost_bind. eapply hpost_mono; [apply bf_resize_0|]. intros r' ->. apply hpost_ret. by right. }
  destruct Htop as [?|(x & Hx & Hnz)]; [done|]. unfold len in *. destruct (normalize_shift (tab r) l x Hl ltac:(lia) Hx Hnz) as (HM & Hs & Hsh).
  set (V := value (tab r)) in *. rewrite <- Hv in HM, Hsh.
  assert (0 < V) as HV by (apply Z.mul_pos_cancel_r with (2 ^ clz x); [lia|]; assert (0 < 2 ^ (64 * l - 1)) by lia; lia).
  unfold normalize_spec. rewrite (proj2 (Z.eqb_neq V 0)) by lia. specialize (Hok ltac:(lia)).
  assert (Z.log2 V = 64 * l - 1 - clz x) as Elog.
  { apply Z.log2_unique; [lia|]. replace (64 * l) with (64 * l - 1 - clz x + 1 + clz x) in HM at 2 by lia.
    replace (64 * l - 1) with (64 * l - 1 - clz x + clz x) in HM at 1 by lia. rewrite !Z.pow_add_r, Z.pow_1_r in HM by lia.
    rewrite Z.pow_succ_r by lia. nia. }
  remember (expn r - 64 * zlen (tab r) + Z.log2 V + 1) as E eqn:EE. assert (- 2 ^ 62 <= E <= 2 ^ 62) as HE by apply Hok.
  cbn [tab set_expn]. rewrite (rd_at _ _ _ Hx). apply hpost_bind, hpost_lift, post_ret. apply hpost_bind, hpost_lift. change LIMB_BITS with 64.
  apply post_mono with (fun r1 => sign r1 = sign r /\ limbs (tab r1) /\ zlen (tab r1) = zlen (tab r) /\ expn r1 = E /\ mant (tab r1) l = V * 2 ^ clz x).
  { cbn [tab set_expn expn sign]. change LIMB_BITS with 64. rewrite (i64_id (expn r - (zlen (tab r) - l) * 64)) by (unfold in_i64; lia). destruct (Z.eqb_spec (clz x) 0) as [Es|Es]; cbn [negb].
    - apply post_ret. cbn. rewrite Es, Z.mul_1_r in *. repeat (split; [done || lia|]). done.
    - rewrite <- obind_assoc. step. eapply post_mono; [by apply Hsh|]. intros t' (Ht' & Hz & Hm). apply post_ret. cbn.
      rewrite i64_id by (unfold in_i64; lia). repeat (split; [done || lia|]). done. }
  intros r1 (Hs1 & Hl1 & Hz1 & He1 & Hm1). eapply hpost_mono; [apply __bf_round_in; unfold len; rewrite ?He1, ?Hm1; try done; lia|].
  intros res. unfold len in *. rewrite Hs1, Hm1, He1, Hz1. set (s1 := bf_round_spec _ _ _ _ _ _). set (s2 := bf_round_spec _ _ _ _ _ _).
  assert (spec_equiv s1 s2) as Hequiv; [|unfold mem_short; rewrite (proj2 Hequiv); by apply result_in_equiv]. apply bf_round_spec_ratio; try done; [lia|].
  unfold ratio_eq. rewrite !Z.mul_1_r. apply same_number_le; [lia|]. f_equal. f_equal. lia.
Qed.

Lemma bf_normalize_and_round_spec r prec1 flags :
  limbs (tab r) -> 64 * len r <= 2 ^ 60 ->
  (value (tab r) <> 0 -> rounding_ok (expn r - 64 * len r + Z.log2 (value (tab r)) + 1) prec1 flags) ->
  hpost (bf_normalize_and_round r prec1 flags)
    (result_is (normalize_spec (sign r) (value (tab r)) (expn r - 64 * len r) prec1 flags)).
Proof. intros. eapply hpost_mono; [by apply bf_normalize_and_round_in|]. intros res. apply result_in_is, mem_short_refuse. Qed.

(** * Rounding of a number *)

(** The value of a number: [V_num] with the mantissa as an integer. *)
Definition bf_exp (r : bf_t) : Z := expn r - LIMB_BITS * len r.

Lemma bf_normal_mant r : bf_normal r -> 0 < len r /\ 2 ^ (64 * len r - 1) <= mant (tab r) (len r) /\ mant (tab r) (len r) = value (tab r).
Proof.
  intros (Hl & Hle & Hn & _). assert (mant (tab r) (len r) = value (tab r)) as -> by (unfold mant, len, zlen; by rewrite Nat2Z.id, firstn_all).
  split; [done|]. split; [|done]. rewrite LB_pow2 in Hn by lia. replace (64 * len r) with (Z.succ (64 * len r - 1)) in Hn by lia.
  rewrite Z.pow_succ_r in Hn by lia. lia.
Qed.

Lemma bf_round_normal_to r prec1 flags :
  bf_normal r -> 64 * len r <= 2 ^ 60 -> rounding_range (expn r) prec1 flags ->
  rounds_to (len r) prec1 (bf_round_spec (sign r) (value (tab r)) 1 (bf_exp r) prec1 flags) (bf_round r prec1 flags).
Proof.
  intros Hn Hb Hok. destruct (bf_normal_mant r Hn) as (Hle & HM & Em). unfold bf_round. destruct (Z.eqb_spec (len r) 0); [lia|].
  assert (limbs (tab r)) as Hl by apply Hn. rewrite <- Em. apply __bf_round_to; done || lia.
Qed.

Lemma bf_round_normal_in r prec1 flags :
  bf_normal r -> 64 * len r <= 2 ^ 60 -> rounding_ok (expn r) prec1 flags ->
  let spec := bf_round_spec (sign r) (value (tab r)) 1 (bf_exp r) prec1 flags in
  hpost (bf_round r prec1 flags) (result_in (mem_short (len r) prec1 spec) spec).
Proof.
  intros Hn Hb Hok. destruct (bf_normal_mant r Hn) as (Hle & HM & Em). unfold bf_round. destruct (Z.eqb_spec (len r) 0); [lia|].
  assert (limbs (tab r)) as Hl by apply Hn. rewrite <- Em. apply __bf_round_in; done || lia.
Qed.

Lemma bf_round_normal r prec1 flags :
  bf_normal r -> 64 * len r <= 2 ^ 60 -> rounding_ok (expn r) prec1 flags ->
  hpost (bf_round r prec1 flags) (result_is (bf_round_spec (sign r) (value (tab r)) 1 (bf_exp r) prec1 flags)).
Proof. intros. eapply hpost_mono; [by apply bf_round_normal_in|]. intros res. apply result_in_is, mem_short_refuse. Qed.

(** A number without limbs is not changed. *)
Lemma bf_round_special r prec1 flags : len r = 0 -> bf_round r prec1 flags = hret (r, 0).
Proof. intros H. unfold bf_round. by rewrite H. Qed.

End Round.
