(* ===== verification/BfOps.v ===== *)
(** The operations on the numbers of [libbf.c]: comparison, addition, product,
    quotient, remainder and powers.

    A function that writes its result to [r] has the old [r] as an argument: its
    block is used again.  [alias] says that [r] is one of the operands. *)
From Stdlib Require Import ZArith Lia Bool List.
From stdpp Require Import base tactics list numbers.
From S2P Require Import Prelude IntFmt Alloc Limb MpMul MpDiv Bf.

(** * Comparison *)

(** The limbs below [i], from the top, both numbers extended to [l] limbs. *)
Fixpoint cmpu_limbs (a b : bf_t) (l : Z) (i : nat) : outcome Z :=
  match i with
  | O => Ret 0
  | S i =>
      let* v1 := get_limbz a (len a - l + Z.of_nat i) in
      let* v2 := get_limbz b (len b - l + Z.of_nat i) in
      if negb (v1 =? v2) then Ret (if v1 <? v2 then -1 else 1) else cmpu_limbs a b l i
  end.

Definition bf_cmpu (a b : bf_t) : outcome Z :=
  if negb (expn a =? expn b) then Ret (if expn a <? expn b then -1 else 1)
  else
    let l := Z.max (len a) (len b) in
    cmpu_limbs a b l (Z.to_nat l).

Definition bf_cmp_full (a b : bf_t) : outcome Z :=
  if bf_is_nan a || bf_is_nan b then
    Ret (if expn a =? expn b then 0 else if bf_is_nan a then 1 else -1)
  else if negb (sign a =? sign b) then Ret (1 - 2 * sign a)
  else
    let* res := bf_cmpu a b in Ret (if negb (sign a =? 0) then - res else res).

Definition bf_cmp (a b : bf_t) : outcome Z :=
  if bf_is_nan a || bf_is_nan b then Ret 2
  else if negb (sign a =? sign b) then
    Ret (if bf_is_zero a && bf_is_zero b then 0 else 1 - 2 * sign a)
  else
    let* res := bf_cmpu a b in Ret (if negb (sign a =? 0) then - res else res).

Definition bf_cmp_eq (a b : bf_t) : outcome bool := let* c := bf_cmp a b in Ret (c =? 0).
Definition bf_cmp_le (a b : bf_t) : outcome bool := let* c := bf_cmp a b in Ret (c <=? 0).
Definition bf_cmp_lt (a b : bf_t) : outcome bool := let* c := bf_cmp a b in Ret (c <? 0).

(** The loop of [bf_can_round]: whether one of the [n] bits from [bit_pos] down differs from [bit]. *)
Fixpoint can_round_bits (a : bf_t) (bit bit_pos : Z) (n : nat) : outcome bool :=
  match n with
  | O => Ret false
  | S n =>
      let* b := get_bit (tab a) (len a) bit_pos in
      if negb (b =? bit) then Ret true else can_round_bits a bit (bit_pos - 1) n
  end.

Definition bf_can_round (a : bf_t) (prec rnd_mode k : Z) : outcome bool :=
  if (expn a =? BF_EXP_INF) || bf_is_nan a then Ret false
  else if rnd_mode =? BF_RNDF then Ret (prec + 1 <=? k)
  else if bf_is_zero a then Ret false
  else if k <? prec + 2 then Ret false
  else
    let is_rndn := (rnd_mode =? BF_RNDN) || (rnd_mode =? BF_RNDNA) in
    let bit_pos := len a * LIMB_BITS - 1 - prec in
    let* bit := get_bit (tab a) (len a) bit_pos in
    can_round_bits a (Z.lxor bit (b2z is_rndn)) (bit_pos - 1) (Z.to_nat (k - prec - 1)).

(** * Addition *)

(** The limb of [a] and the bits of [b] at one place of the comparison. *)
Definition cancel_words (a b : bf_t) (b_offset bit_offset : Z) : outcome (Z * Z) :=
  let* v1 := get_limbz a (Z.shiftr bit_offset LIMB_LOG2_BITS) in
  let* v2 := get_bits (tab b) (bit_offset + b_offset) in
  Ret (v1, v2).

(** The search of the first words that differ. *)
Definition cancel_equal (a b : bf_t) (b_offset : Z) '(n, bit_offset) : outcome (Z * Z + Z * Z * Z * Z) :=
  let* (v1, v2) := cancel_words a b b_offset bit_offset in
  if negb (v1 =? v2) then Ret (inr (n, bit_offset, v1, v2))
  else Ret (inl (n + LIMB_BITS, bit_offset - LIMB_BITS)).

(** The search of the end of the zeros of [a] over the ones of [b]. *)
Definition cancel_borrow (a b : bf_t) (b_offset : Z) '(n, bit_offset) : outcome (Z * Z + Z) :=
  let* (v1, v2) := cancel_words a b b_offset bit_offset in
  if negb (v1 =? 0) || negb (v2 =? u64 (-1)) then Ret (inr (n + Z.min (clz v1) (clz (u64 (Z.lnot v2)))))
  else Ret (inl (n + LIMB_BITS, bit_offset - LIMB_BITS)).

Definition count_cancelled_bits (a b : bf_t) : outcome Z :=
  let bit_offset := len a * LIMB_BITS - 1 in
  let b_offset := (len b - len a) * LIMB_BITS - (LIMB_BITS - 1) + expn a - expn b in
  let fuel := Z.to_nat (len a + len b + 2) in
  let* (n, bit_offset, v1, v2) := iter fuel (cancel_equal a b b_offset) (0, bit_offset) in
  let p := clz (Z.lxor v1 v2) + 1 in
  let n := n + p in
  let p := LIMB_BITS - p in
  if 0 <? p then
    let mask := limb_mask 0 (p - 1) in
    let p1 := Z.min (clz (Z.land v1 mask)) (clz (Z.land (u64 (Z.lnot v2)) mask)) - (LIMB_BITS - p) in
    let n := n + p1 in
    if negb (p1 =? p) then Ret n
    else iter fuel (cancel_borrow a b b_offset) (n, bit_offset - LIMB_BITS)
  else iter fuel (cancel_borrow a b b_offset) (n, bit_offset - LIMB_BITS).

(** The sum of two words and a carry, the second complemented by [sub_mask]. *)
Definition add_word (sub_mask v1 v2 carry : Z) : Z * Z :=
  let v2 := Z.lxor v2 sub_mask in
  let u := u64 (v1 + v2) in
  let carry1 := b2z (u <? v1) in
  let u := u64 (u + carry) in
  (u, Z.lor (b2z (u <? carry)) carry1).

(** One round of the loop over the words below the result. *)
Definition add_low_step (a b : bf_t) (a_offset b_bit_offset sub_mask : Z) '(i, carry, z)
    : outcome (Z * Z * Z + Z * Z) :=
  if i <? 0 then
    let ap := a_offset + i in
    let bp := b_bit_offset + i * LIMB_BITS in
    let ina := (0 <=? ap) && (ap <? len a) in
    let inb := (0 <? bp + LIMB_BITS) && (bp <? len b * LIMB_BITS) in
    let* v1 := if ina then rd (tab a) ap else Ret 0 in
    let* v2 := if inb then get_bits (tab b) bp else Ret 0 in
    let i' :=
      if ina || inb then i + 1
      else
        let i := if ap <? 0 then Z.min 0 (- a_offset) else 0 in
        if bp + LIMB_BITS <=? 0 then Z.min i (Z.shiftr (- b_bit_offset) LIMB_LOG2_BITS) else i in
    let '(u, carry) := add_word sub_mask v1 v2 carry in
    Ret (inl (i', carry, Z.lor z u))
  else Ret (inr (carry, z)).

(** One word of the result. *)
Definition add_high_step (a b : bf_t) (a_offset b_bit_offset sub_mask : Z) '(t, carry) (i : Z) : outcome (list Z * Z) :=
  let* v1 := get_limbz a (a_offset + i) in
  let* v2 := get_bits (tab b) (b_bit_offset + i * LIMB_BITS) in
  let '(u, carry) := add_word sub_mask v1 v2 carry in
  let* t := wr t i u in
  Ret (t, carry).

Section Ops.
Context `{SH : Shrinker} {FM : FftMul}.

(** The sum or the difference of [a] and [b], [a] the larger, other than zero. *)
Definition add_numbers (r a b : bf_t) (prec flags a_sign is_sub : Z) : heap_m (bf_t * Z) :=
  let r := mkBf a_sign (expn a) (tab r) in
  let d := expn a - expn b in
  let! cancelled_bits := hlift
    (if negb (is_sub =? 0) then if d <=? 1 then count_cancelled_bits a b else Ret 1 else Ret 0) in
  let precl := u64 (cancelled_bits + prec + 2 + LIMB_BITS - 1) / LIMB_BITS in
  let tot_len := Z.max (len a) (len b + (d + LIMB_BITS - 1) / LIMB_BITS) in
  let r_len := Z.min precl tot_len in
  let! (r, ok) := bf_resize r r_len in
  if negb ok then bf_mem_error r
  else
    let a_offset := len a - r_len in
    let b_bit_offset := (len b - r_len) * LIMB_BITS + d in
    let sub_mask := u64 (- is_sub) in
    let! (carry, z) := hlift
      (iter (Z.to_nat (len a + len b + 5)) (add_low_step a b a_offset b_bit_offset sub_mask) (r_len - tot_len, is_sub, 0)) in
    let! (t, carry) := hlift (ofold (add_high_step a b a_offset b_bit_offset sub_mask) (tab r, carry) (seqZ 0 r_len)) in
    let! x := hlift (rd t 0) in
    let! t := hlift (wr t 0 (Z.lor x (b2z (negb (z =? 0))))) in
    let r := set_tab r t in
    if (is_sub =? 0) && negb (carry =? 0) then
      let! (r, ok) := bf_resize r (r_len + 1) in
      if negb ok then bf_mem_error r
      else
        let! t := hlift (wr (tab r) r_len 1) in
        bf_normalize_and_round (mkBf (sign r) (expn r + LIMB_BITS) t) prec flags
    else bf_normalize_and_round r prec flags.

Definition bf_add_internal (r a b : bf_t) (prec flags b_neg : Z) : heap_m (bf_t * Z) :=
  let a_sign := sign a in
  let b_sign := Z.lxor (sign b) b_neg in
  let is_sub := Z.lxor a_sign b_sign in
  let! cmp_res := hlift (bf_cmpu a b) in
  let '(a, b, a_sign) := if cmp_res <? 0 then (b, a, b_sign) else (a, b, a_sign) in
  if (cmp_res =? 0) && negb (is_sub =? 0) && (expn a <? BF_EXP_INF) then
    let! r := bf_set_zero r (b2z (rnd_mode_of flags =? BF_RNDD)) in hret (r, 0)
  else if (len a =? 0) || (len b =? 0) then
    if BF_EXP_INF <=? expn a then
      if bf_is_nan a then let! r := bf_set_nan r in hret (r, 0)
      else if (expn b =? BF_EXP_INF) && negb (is_sub =? 0) then let! r := bf_set_nan r in hret (r, BF_ST_INVALID_OP)
      else let! r := bf_set_inf r a_sign in hret (r, 0)
    else
      let! (r, _) := bf_set false r a in
      bf_normalize_and_round (set_sign r a_sign) prec flags
  else add_numbers r a b prec flags a_sign is_sub.

Definition __bf_add (r a b : bf_t) (prec flags : Z) : heap_m (bf_t * Z) := bf_add_internal r a b prec flags 0.
Definition __bf_sub (r a b : bf_t) (prec flags : Z) : heap_m (bf_t * Z) := bf_add_internal r a b prec flags 1.

(** The result is computed in a new number when [r] is an operand. *)
Definition bf_op2 (alias : bool) (r a b : bf_t) (prec flags : Z)
    (func : bf_t -> bf_t -> bf_t -> Z -> Z -> heap_m (bf_t * Z)) : heap_m (bf_t * Z) :=
  func (if alias then bf_init else r) a b prec flags.

Definition bf_add (alias : bool) (r a b : bf_t) (prec flags : Z) : heap_m (bf_t * Z) := bf_op2 alias r a b prec flags __bf_add.
Definition bf_sub (alias : bool) (r a b : bf_t) (prec flags : Z) : heap_m (bf_t * Z) := bf_op2 alias r a b prec flags __bf_sub.

(** * Product *)

(** The limbs of the product, written to the block of [r] or to the one [fft_mul]
    allocates; whether this succeeds. *)
Definition mul_limbs (alias : bool) (r : bf_t) (a_tab b_tab : list Z) : heap_m (bf_t * bool) :=
  if FFT_MUL_THRESHOLD <=? zlen b_tab then
    let! t := (fft_mul a_tab b_tab : heap_m (option (list Z))) in
    hret (match t with Some t => (set_tab r t, true) | None => (r, false) end)
  else
    let! (r, ok) := bf_resize (if alias then bf_init else r) (zlen a_tab + zlen b_tab) in
    if negb ok then hret (r, false)
    else
      let! t := hlift (mp_mul_basecase (tab r) a_tab b_tab) in
      hret (set_tab r t, true).

Definition mul_special (r a b : bf_t) (r_sign : Z) : heap_m (bf_t * Z) :=
  if bf_is_nan a || bf_is_nan b then let! r := bf_set_nan r in hret (r, 0)
  else if (expn a =? BF_EXP_INF) || (expn b =? BF_EXP_INF) then
    if ((expn a =? BF_EXP_INF) && bf_is_zero b) || (bf_is_zero a && (expn b =? BF_EXP_INF)) then
      let! r := bf_set_nan r in hret (r, BF_ST_INVALID_OP)
    else let! r := bf_set_inf r r_sign in hret (r, 0)
  else let! r := bf_set_zero r r_sign in hret (r, 0).

Definition bf_mul (alias : bool) (r a b : bf_t) (prec flags : Z) : heap_m (bf_t * Z) :=
  let '(a, b) := if len a <? len b then (b, a) else (a, b) in
  let r_sign := Z.lxor (sign a) (sign b) in
  if len b =? 0 then mul_special r a b r_sign
  else
    let precl := u64 (prec + 2 + LIMB_BITS - 1) / LIMB_BITS in
    let '(a_len, b_len) :=
      if rnd_mode_of flags =? BF_RNDF then (Z.min (len a) precl, Z.min (len b) precl) else (len a, len b) in
    let! a_tab := hlift (rd_slice (tab a) (len a - a_len) a_len) in
    let! b_tab := hlift (rd_slice (tab b) (len b - b_len) b_len) in
    let! (r, ok) := mul_limbs alias r a_tab b_tab in
    if negb ok then bf_mem_error r
    else bf_normalize_and_round (mkBf r_sign (i64 (expn a + expn b)) (tab r)) prec flags.

Definition bf_mul_2exp (r : bf_t) (e prec flags : Z) : heap_m (bf_t * Z) :=
  if len r =? 0 then hret (r, 0)
  else
    let e_max := Z.shiftl 1 BF_EXT_EXP_BITS_MAX - 1 in
    let e := Z.min (Z.max e (- e_max)) e_max in
    __bf_round (set_expn r (i64 (expn r + e))) prec flags (len r) 0.

Definition ctz (a : Z) : Z := if a =? 0 then LIMB_BITS else Z.log2 (Z.land a (- a)).

Fixpoint exp_min_from (a : bf_t) (i : Z) (t : list Z) : Z :=
  match t with
  | v :: t => if negb (v =? 0) then expn a - (len a - i) * LIMB_BITS + ctz v else exp_min_from a (i + 1) t
  | [] => 0
  end.

Definition bf_get_exp_min (a : bf_t) : Z := exp_min_from a 0 (tab a).

(** * Quotient *)

(** The quotient of two numbers other than zero. *)
Definition div_numbers (r a b : bf_t) (prec flags r_sign : Z) : heap_m (bf_t * Z) :=
  let precl := u64 (prec + 2 + LIMB_BITS - 1) / LIMB_BITS in
  let nb := len b in
  let n := Z.max (len a) precl in
  let na := n + nb in
  if (2 ^ 64 - 1) / 8 - 1 <=? na then hret (r, BF_ST_MEM_ERROR)
  else
    let! taba := (bf_malloc (na + 1) : heap_m (option (list Z))) in
    match taba with
    | None => bf_mem_error r
    | Some taba =>
        let d := na - len a in
        let! taba := hlift (wr_slice taba 0 (replicate (Z.to_nat d) 0)) in
        let! taba := hlift (wr_slice taba d (tab a)) in
        let! (r, ok) := bf_resize r (n + 1) in
        if negb ok then bf_mem_error r
        else
          let! num := hlift (rd_slice taba 0 na) in
          let! qr := (mp_divnorm (tab r) num (tab b) : heap_m (option (list Z * list Z))) in
          match qr with
          | None => bf_mem_error r
          | Some (q, rem) =>
              let! rem := hlift (rd_slice rem 0 nb) in
              let! q := hlift
                (if negb (mp_scan_nz rem =? 0) then let* x := rd q 0 in wr q 0 (Z.lor x 1) else Ret q) in
              bf_normalize_and_round (mkBf r_sign (expn a - expn b + LIMB_BITS) q) prec flags
          end
    end.

Definition __bf_div (r a b : bf_t) (prec flags : Z) : heap_m (bf_t * Z) :=
  let r_sign := Z.lxor (sign a) (sign b) in
  if (BF_EXP_INF <=? expn a) || (BF_EXP_INF <=? expn b) then
    if bf_is_nan a || bf_is_nan b then let! r := bf_set_nan r in hret (r, 0)
    else if (expn a =? BF_EXP_INF) && (expn b =? BF_EXP_INF) then let! r := bf_set_nan r in hret (r, BF_ST_INVALID_OP)
    else if expn a =? BF_EXP_INF then let! r := bf_set_inf r r_sign in hret (r, 0)
    else let! r := bf_set_zero r r_sign in hret (r, 0)
  else if bf_is_zero a then
    if bf_is_zero b then let! r := bf_set_nan r in hret (r, BF_ST_INVALID_OP)
    else let! r := bf_set_zero r r_sign in hret (r, 0)
  else if bf_is_zero b then let! r := bf_set_inf r r_sign in hret (r, BF_ST_DIVIDE_ZERO)
  else div_numbers r a b prec flags r_sign.

Definition bf_div (alias : bool) (r a b : bf_t) (prec flags : Z) : heap_m (bf_t * Z) := bf_op2 alias r a b prec flags __bf_div.

(** The integer quotient of [a >= 0] by [b > 0], and the remainder. *)
Definition bf_tdivremu (q r a b : bf_t) : heap_m (bf_t * bf_t) :=
  let! c := hlift (bf_cmpu a b) in
  if c <? 0 then
    let! (q, _) := bf_set_ui q 0 in
    let! (r, _) := bf_set false r a in
    hret (q, r)
  else
    let! (q, _) := bf_div false q a b (Z.max (expn a - expn b + 1) 2) BF_RNDZ in
    let! (q, _) := bf_rint q BF_RNDZ in
    let! (r, _) := bf_mul false r q b BF_PREC_INF BF_RNDZ in
    let! (r, _) := bf_sub true r a r BF_PREC_INF BF_RNDZ in
    hret (q, r).

(** * Small operands *)

Definition bf_mul_ui (alias : bool) (r a : bf_t) (b1 prec flags : Z) : heap_m (bf_t * Z) :=
  let! (b, ret) := bf_set_ui bf_init b1 in
  let! (r, ret1) := bf_mul alias r a b prec flags in hret (r, Z.lor ret ret1).

Definition bf_mul_si (alias : bool) (r a : bf_t) (b1 prec flags : Z) : heap_m (bf_t * Z) :=
  let! (b, ret) := bf_set_si bf_init b1 in
  let! (r, ret1) := bf_mul alias r a b prec flags in hret (r, Z.lor ret ret1).

Definition bf_add_si (alias : bool) (r a : bf_t) (b1 prec flags : Z) : heap_m (bf_t * Z) :=
  let! (b, ret) := bf_set_si bf_init b1 in
  let! (r, ret1) := bf_add alias r a b prec flags in hret (r, Z.lor ret ret1).

(** * Division with remainder *)

(** The correction of the quotient by one. *)
Definition divrem_next (q r b1 : bf_t) : heap_m (bf_t * bf_t * Z) :=
  let! (q, ret) := bf_add_si true q q 1 BF_PREC_INF BF_RNDZ in
  let! (r, ret1) := bf_sub true r r b1 BF_PREC_INF BF_RNDZ in
  hret (q, r, Z.lor ret ret1).

Definition divrem_is_ceil (rnd_mode q_sign a_sign : Z) : bool :=
  if rnd_mode =? BF_RNDD then negb (q_sign =? 0)
  else if rnd_mode =? BF_RNDU then negb (Z.lxor q_sign 1 =? 0)
  else if rnd_mode =? BF_RNDA then true
  else if rnd_mode =? BF_DIVREM_EUCLIDIAN then negb (a_sign =? 0)
  else false.

(** Whether the truncated quotient [q] is increased. *)
Definition divrem_up (q r b1 : bf_t) (rnd_mode q_sign a_sign : Z) : outcome bool :=
  if len r =? 0 then Ret false
  else if (rnd_mode =? BF_RNDN) || (rnd_mode =? BF_RNDNA) then
    let* res := bf_cmpu r (set_expn b1 (expn b1 - 1)) in
    if 0 <? res then Ret true
    else if res =? 0 then
      if rnd_mode =? BF_RNDNA then Ret true
      else let* b := get_bit (tab q) (len q) (len q * LIMB_BITS - expn q) in Ret (negb (b =? 0))
    else Ret false
  else Ret (divrem_is_ceil rnd_mode q_sign a_sign).

Definition bf_divrem (q r a b : bf_t) (prec flags rnd_mode : Z) : heap_m (bf_t * bf_t * Z) :=
  if (len a =? 0) || (len b =? 0) then
    let! q := bf_set_zero q 0 in
    if bf_is_nan a || bf_is_nan b then let! r := bf_set_nan r in hret (q, r, 0)
    else if (expn a =? BF_EXP_INF) || bf_is_zero b then let! r := bf_set_nan r in hret (q, r, BF_ST_INVALID_OP)
    else
      let! (r, _) := bf_set false r a in
      let! (r, ret) := bf_round r prec flags in hret (q, r, ret)
  else
    let q_sign := Z.lxor (sign a) (sign b) in
    let a1 := set_sign a 0 in
    let b1 := set_sign b 0 in
    let fail q r := let! q := bf_set_nan q in let! r := bf_set_nan r in hret (q, r, BF_ST_MEM_ERROR) in
    let! (q, r) := bf_tdivremu q r a1 b1 in
    if bf_is_nan q || bf_is_nan r then fail q r
    else
      let! up := hlift (divrem_up q r b1 rnd_mode q_sign (sign a)) in
      let! (q, r, ret) := if up : bool then divrem_next q r b1 else hret (q, r, 0) in
      if has_flag ret BF_ST_MEM_ERROR then fail q r
      else
        let! (r, ret) := bf_round (set_sign r (Z.lxor (sign r) (sign a))) prec flags in
        hret (set_sign q q_sign, r, ret).

Definition bf_rem (r a b : bf_t) (prec flags rnd_mode : Z) : heap_m (bf_t * Z) :=
  let! (_, r, ret) := bf_divrem bf_init r a b prec flags rnd_mode in hret (r, ret).

(** * Powers *)

(** The bits of [b] below the bit [i], from the top. *)
Fixpoint pow_ui_bits (r a : bf_t) (b prec flags : Z) (ret : Z) (i : nat) : heap_m (bf_t * Z) :=
  match i with
  | O => hret (r, ret)
  | S i =>
      let! (r, ret1) := bf_mul true r r r prec flags in
      let ret := Z.lor ret ret1 in
      if Z.testbit b (Z.of_nat i) then
        let! (r, ret1) := bf_mul true r r a prec flags in
        pow_ui_bits r a b prec flags (Z.lor ret ret1) i
      else pow_ui_bits r a b prec flags ret i
  end.

Definition bf_pow_ui (r a : bf_t) (b prec flags : Z) : heap_m (bf_t * Z) :=
  if b =? 0 then bf_set_ui r 1
  else
    let! (r, ret) := bf_set false r a in
    pow_ui_bits r a b prec flags ret (Z.to_nat (LIMB_BITS - clz b - 1)).

End Ops.
