(* ===== verification/BfCmp.v ===== *)
(** Comparison of the numbers of [libbf.c].

    First the words of a mantissa at any place, which [get_limbz] and [get_bits]
    read; then [bf_cmpu], [bf_cmp] and [bf_cmp_full] as the order of the extended
    numbers. *)
From Stdlib Require Import ZArith Lia Bool List.
From stdpp Require Import base tactics list numbers.
From S2P Require Import Prelude IntFmt Alloc Limb MpMul MpDiv Bf BfRound BfRatio BfOps.

(** * Words of a number *)

(** The 64 bits of [v] from the position [pos], which may be negative. *)
Definition bits_at (v pos : Z) : Z := Z.shiftr v pos mod LB.

Lemma bits_at_range v pos : in_u64 (bits_at v pos).
Proof. apply in_u64_LB, Z.mod_pos_bound. done. Qed.

Lemma bits_at_scale v k pos : 0 <= k -> bits_at (v * 2 ^ k) (pos + k) = bits_at v pos.
Proof.
  intros Hk. unfold bits_at. rewrite <- Z.shiftl_mul_pow2, Z.shiftr_shiftl_r by done. do 2 f_equal. lia.
Qed.

Lemma bits_at_low v pos : pos <= -64 -> bits_at v pos = 0.
Proof.
  intros Hp. unfold bits_at. replace pos with (- (- pos)) by lia. rewrite Z.shiftr_opp_r, Z.shiftl_mul_pow2 by lia.
  replace (- pos) with ((- pos - 64) + 64) by lia. rewrite Z.pow_add_r, Z.mul_assoc by lia. by apply Z.mod_mul.
Qed.

Lemma bits_at_high v n pos : 0 <= v < 2 ^ n -> 0 <= n <= pos -> bits_at v pos = 0.
Proof.
  intros Hv Hn. unfold bits_at. rewrite Z.shiftr_div_pow2 by lia. rewrite Z.div_small; [done|].
  split; [lia|]. eapply Z.lt_le_trans; [apply Hv|]. apply Z.pow_le_mono_r; lia.
Qed.

Lemma word_at t i x : limbs t -> at_ t i x -> bits_at (value t) (64 * i) = x.
Proof.
  intros Hl Hx. destruct (value_split t i x Hl Hx) as [-> Hb]. pose proof (at_lt _ _ _ Hx).
  assert (in_u64 x) as Hx64 by exact (at_Forall _ _ _ _ Hl Hx). u64_ranges. unfold bits_at. rewrite Z.shiftr_div_pow2 by lia.
  rewrite (Z.mul_comm (2 ^ (64 * i))), Z.div_add, Z.div_small, Z.add_0_l by lia. change (2 ^ 64) with LB.
  rewrite (Z.mul_comm LB), Z.mod_add by done. by apply Z.mod_small.
Qed.

(** The size of a mantissa in memory. *)
Definition small_tab (t : list Z) : Prop := zlen t <= 2 ^ 50.

Lemma limb_read t i :
  limbs t -> small_tab t -> - 2 ^ 62 <= i <= 2 ^ 62 ->
  (if zlen t <=? u64 i then Ret 0 else rd t (u64 i)) = Ret (bits_at (value t) (64 * i)).
Proof.
  intros Hl Hs Hi. unfold small_tab in Hs. pose proof (value_bound t Hl) as Hb. unfold base_pow in Hb. rewrite LB_pow2 in Hb by apply zlen_nonneg.
  pose proof (zlen_nonneg t). destruct (Z.leb_spec 0 i) as [H0|H0].
  - rewrite u64_id by (unfold in_u64; lia). destruct (Z.leb_spec (zlen t) i); [by rewrite (bits_at_high _ (64 * zlen t)) by lia|].
    destruct (at_exists t i) as [x Hx]; [lia|]. by rewrite (rd_at _ _ _ Hx), (word_at _ _ _ Hl Hx).
  - rewrite bits_at_low by lia. assert (u64 i = i + 18446744073709551616) as ->.
    { unfold u64. symmetry. apply Z.mod_unique with (-1); lia. }
    destruct (Z.leb_spec (zlen t) (i + 18446744073709551616)); [done|lia].
Qed.

Lemma get_limbz_spec a i :
  limbs (tab a) -> small_tab (tab a) -> - 2 ^ 62 <= i <= 2 ^ 62 -> get_limbz a i = Ret (bits_at (value (tab a)) (64 * i)).
Proof. apply limb_read. Qed.

Lemma get_bits_spec t pos :
  limbs t -> small_tab t -> - 2 ^ 63 <= pos <= 2 ^ 63 -> get_bits t pos = Ret (bits_at (value t) pos).
Proof.
  intros Hl Hs Hpos. unfold get_bits. destruct (pos_split pos) as [E Hp]. remember (Z.shiftr pos LIMB_LOG2_BITS) as i eqn:Ei.
  remember (Z.land pos (LIMB_BITS - 1)) as p eqn:Ep. cbv zeta.
  assert (forall j, - 2 ^ 60 <= j <= 2 ^ 60 -> (if u64 j <? zlen t then rd t (u64 j) else Ret 0) = Ret (bits_at (value t) (64 * j))) as Hrd.
  { intros j Hj. rewrite <- limb_read by (done || lia). rewrite Z.ltb_antisym. by destruct (zlen t <=? u64 j). }
  rewrite Hrd by lia. cbn [obind]. destruct (Z.eqb_spec p 0) as [->|Hp0]; [by rewrite E, Z.add_0_r|].
  assert (u64 (u64 i + 1) = u64 (i + 1)) as -> by (unfold u64; by rewrite Z.add_mod_idemp_l by lia). rewrite Hrd by lia. cbn [obind]. f_equal.
  rewrite mp_shr_limb by (apply bits_at_range || lia). unfold bits_at. rewrite E.
  rewrite <- (Z.shiftr_shiftr _ (64 * i) p) by lia. replace (64 * (i + 1)) with (64 * i + 64) by lia. rewrite <- (Z.shiftr_shiftr _ (64 * i) 64) by lia.
  set (w := Z.shiftr (value t) (64 * i)). rewrite !(Z.shiftr_div_pow2 w) by lia. change (2 ^ 64) with LB.
  assert (0 < 2 ^ p) as Hpp by lia. assert (0 < 2 ^ (64 - p)) as Hqq by lia.
  assert (LB = 2 ^ (64 - p) * 2 ^ p) as EB by (unfold LB; rewrite <- Z.pow_add_r by lia; f_equal; lia).
  pose proof (Z.div_mod w LB ltac:(done)) as Ew. pose proof (Z.mod_pos_bound w LB ltac:(done)) as Hw.
  set (a0 := w mod LB) in *. set (w1 := w / LB) in *.
  assert (w / 2 ^ p = a0 / 2 ^ p + 2 ^ (64 - p) * w1) as ->.
  { rewrite Ew, EB, Z.add_comm. replace (2 ^ (64 - p) * 2 ^ p * w1) with (2 ^ (64 - p) * w1 * 2 ^ p) by ring. by rewrite Z.div_add by lia. }
  assert ((w1 mod LB) mod 2 ^ p = w1 mod 2 ^ p) as ->.
  { rewrite EB. rewrite (Z.mul_comm (2 ^ (64 - p))). rewrite Z.rem_mul_r by lia. rewrite (Z.mul_comm (2 ^ p)), Z.mod_add by lia. by rewrite Z.mod_mod by lia. }
  replace LB with (2 ^ (64 - p + p)) by (rewrite Z.pow_add_r by lia; done). rewrite mod_split; [done|lia|lia|].
  split; [apply Z.div_pos; lia|]. apply Z.div_lt_upper_bound; [lia|]. rewrite Z.mul_comm, <- EB. lia.
Qed.

(** The low words of a number. *)
Lemma low_words v n : 0 <= n -> v mod 2 ^ (64 * (n + 1)) = v mod 2 ^ (64 * n) + 2 ^ (64 * n) * bits_at v (64 * n).
Proof.
  intros Hn. replace (64 * (n + 1)) with (64 * n + 64) by lia. rewrite Z.pow_add_r by lia. rewrite Z.rem_mul_r by lia.
  unfold bits_at. by rewrite Z.shiftr_div_pow2 by lia.
Qed.

Lemma low_words_bound v n : 0 <= n -> 0 <= v mod 2 ^ (64 * n) < 2 ^ (64 * n).
Proof. intros. apply Z.mod_pos_bound. lia. Qed.

(** * Magnitudes *)

Lemma compare_mul_r p a b : 0 < p -> (a * p ?= b * p) = (a ?= b).
Proof.
  intros Hp. destruct (Z.compare_spec a b) as [->|H|H]; [apply Z.compare_refl|apply Z.compare_lt_iff|apply Z.compare_gt_iff]; by apply Z.mul_lt_mono_pos_r.
Qed.

(** The order of [m1 * 2 ^ e1] and [m2 * 2 ^ e2]. *)
Definition num_cmp (m1 e1 m2 e2 : Z) : comparison := m1 * 2 ^ (e1 - Z.min e1 e2) ?= m2 * 2 ^ (e2 - Z.min e1 e2).

Lemma num_cmp_at d m1 e1 m2 e2 : d <= e1 -> d <= e2 -> num_cmp m1 e1 m2 e2 = (m1 * 2 ^ (e1 - d) ?= m2 * 2 ^ (e2 - d)).
Proof.
  intros H1 H2. unfold num_cmp. set (c := Z.min e1 e2). assert (d <= c) as Hc by lia.
  replace (e1 - d) with ((e1 - c) + (c - d)) by lia. replace (e2 - d) with ((e2 - c) + (c - d)) by lia.
  rewrite !Z.pow_add_r, !Z.mul_assoc by lia. by rewrite compare_mul_r by lia.
Qed.

Definition mag_cmp (a b : bf_t) : comparison :=
  num_cmp (value (tab a)) (expn a - LIMB_BITS * len a) (value (tab b)) (expn b - LIMB_BITS * len b).

(** The words of the two mantissas, aligned at the top. *)
Lemma cmpu_limbs_spec a b l i :
  limbs (tab a) -> limbs (tab b) -> small_tab (tab a) -> small_tab (tab b) -> l = Z.max (len a) (len b) -> Z.of_nat i <= l ->
  cmpu_limbs a b l i = Ret (sign_of
    ((value (tab a) * 2 ^ (64 * (l - len a))) mod 2 ^ (64 * Z.of_nat i) ?= (value (tab b) * 2 ^ (64 * (l - len b))) mod 2 ^ (64 * Z.of_nat i))).
Proof.
  intros Ha Hb Hsa Hsb Hl. pose proof (zlen_nonneg (tab a)). pose proof (zlen_nonneg (tab b)). unfold len, small_tab in *.
  induction i as [|i IH]; intros Hi; [cbn; by rewrite !Z.mod_1_r|]. cbn [cmpu_limbs]. unfold len.
  rewrite !get_limbz_spec by (done || lia). cbn [obind].
  set (A := value (tab a) * 2 ^ (64 * (l - zlen (tab a)))) in *. set (B := value (tab b) * 2 ^ (64 * (l - zlen (tab b)))) in *.
  assert (bits_at (value (tab a)) (64 * (zlen (tab a) - l + Z.of_nat i)) = bits_at A (64 * Z.of_nat i)) as ->.
  { unfold A. rewrite <- (bits_at_scale _ (64 * (l - zlen (tab a))) (64 * (zlen (tab a) - l + Z.of_nat i))) by lia. f_equal. lia. }
  assert (bits_at (value (tab b)) (64 * (zlen (tab b) - l + Z.of_nat i)) = bits_at B (64 * Z.of_nat i)) as ->.
  { unfold B. rewrite <- (bits_at_scale _ (64 * (l - zlen (tab b))) (64 * (zlen (tab b) - l + Z.of_nat i))) by lia. f_equal. lia. }
  rewrite Nat2Z.inj_succ, <- Z.add_1_r. rewrite !low_words by lia.
  pose proof (low_words_bound A (Z.of_nat i) ltac:(lia)). pose proof (low_words_bound B (Z.of_nat i) ltac:(lia)).
  remember (bits_at A (64 * Z.of_nat i)) as x eqn:Ex. remember (bits_at B (64 * Z.of_nat i)) as y eqn:Ey.
  remember (2 ^ (64 * Z.of_nat i)) as P eqn:EP. destruct (Z.eqb_spec x y) as [->|Hne]; cbn [negb].
  - rewrite IH by lia. do 2 f_equal. rewrite !(Z.add_comm _ (P * y)). symmetry. apply Z.add_compare_mono_l.
  - f_equal. unfold sign_of. destruct (Z.ltb_spec x y) as [Hlt|Hge].
    + rewrite (proj2 (Z.compare_lt_iff _ _)); [done|]. nia.
    + rewrite (proj2 (Z.compare_gt_iff _ _)); [done|]. nia.
Qed.

(** The exponents of two numbers decide, then the mantissas. *)
Lemma bf_cmpu_spec a b :
  bf_normal a -> bf_normal b -> small_tab (tab a) -> small_tab (tab b) -> bf_cmpu a b = Ret (sign_of (mag_cmp a b)).
Proof.
  intros (Hla & Hna & Ha & _) (Hlb & Hnb & Hb & _) Hsa Hsb. unfold bf_cmpu, mag_cmp. change LIMB_BITS with 64.
  pose proof (value_bound _ Hla) as Ua. pose proof (value_bound _ Hlb) as Ub. unfold base_pow in Ua, Ub. fold (len a) in Ua. fold (len b) in Ub.
  rewrite LB_pow2 in Ha, Hb, Ua, Ub by lia. set (l := Z.max (len a) (len b)).
  set (A := value (tab a)) in *. set (B := value (tab b)) in *.
  assert (forall x e l0, 2 ^ (64 * l0) <= 2 * x -> 0 < l0 <= l -> forall d, d <= e - 64 * l -> 2 ^ (e - d) <= 2 * (x * 2 ^ (e - 64 * l0 - d))) as Hlow.
  { intros x e l0 Hx Hl0 d Hd. replace (e - d) with (64 * l0 + (e - 64 * l0 - d)) at 1 by lia. rewrite Z.pow_add_r, Z.mul_assoc by lia. by apply Z.mul_le_mono_nonneg_r; [lia|]. }
  assert (forall x e l0, x < 2 ^ (64 * l0) -> 0 < l0 <= l -> forall d, d <= e - 64 * l -> x * 2 ^ (e - 64 * l0 - d) < 2 ^ (e - d)) as Hhigh.
  { intros x e l0 Hx Hl0 d Hd. replace (e - d) with (64 * l0 + (e - 64 * l0 - d)) by lia. rewrite Z.pow_add_r by lia. by apply Z.mul_lt_mono_pos_r; [lia|]. }
  set (d := Z.min (expn a) (expn b) - 64 * l). rewrite (num_cmp_at d) by lia.
  pose proof (Hlow A (expn a) (len a) Ha ltac:(lia) d ltac:(lia)) as A1. pose proof (Hhigh A (expn a) (len a) (proj2 Ua) ltac:(lia) d ltac:(lia)) as A2.
  pose proof (Hlow B (expn b) (len b) Hb ltac:(lia) d ltac:(lia)) as B1. pose proof (Hhigh B (expn b) (len b) (proj2 Ub) ltac:(lia) d ltac:(lia)) as B2.
  destruct (Z.eqb_spec (expn a) (expn b)) as [E|Hne]; cbn [negb].
  - rewrite (cmpu_limbs_spec a b l) by (done || lia). rewrite Z2Nat.id by lia. do 2 f_equal. fold A B.
    replace (expn a - 64 * len a - d) with (64 * (l - len a)) in * by lia. replace (expn b - 64 * len b - d) with (64 * (l - len b)) in * by lia.
    replace (expn a - d) with (64 * l) in * by lia. replace (expn b - d) with (64 * l) in * by lia.
    rewrite !Z.mod_small; [done|split; [apply Z.mul_nonneg_nonneg; lia|done]..].
  - f_equal. unfold sign_of. destruct (Z.ltb_spec (expn a) (expn b)) as [Hlt|Hge].
    + rewrite (proj2 (Z.compare_lt_iff _ _)); [done|]. assert (2 * 2 ^ (expn a - d) <= 2 ^ (expn b - d)); [|lia].
      rewrite <- Z.pow_succ_r by lia. apply Z.pow_le_mono_r; lia.
    + rewrite (proj2 (Z.compare_gt_iff _ _)); [done|]. assert (2 * 2 ^ (expn b - d) <= 2 ^ (expn a - d)); [|lia].
      rewrite <- Z.pow_succ_r by lia. apply Z.pow_le_mono_r; lia.
Qed.

(** * Numbers and their values *)

(** A number of the library in the range of its exponents. *)
Definition in_range (r : bf_t) : Prop := - 2 ^ 61 < expn r <= 2 ^ 61 /\ small_tab (tab r).

Definition number (r : bf_t) (v : bf_value) : Prop :=
  represents r v /\ (sign r = 0 \/ sign r = 1) /\ match v with V_num _ _ _ => in_range r | _ => True end.

(** The extended numbers, a finite one in units of [2 ^ d]. *)
Inductive extended : Type := MinusInf | Finite (z : Z) | PlusInf.

Definition extended_cmp (x y : extended) : comparison :=
  match x, y with
  | Finite x, Finite y => x ?= y
  | MinusInf, MinusInf | PlusInf, PlusInf => Eq
  | MinusInf, _ | _, PlusInf => Lt
  | _, _ => Gt
  end.

Definition extended_of (d : Z) (v : bf_value) : option extended :=
  match v with
  | V_nan => None
  | V_inf s => Some (if s =? 0 then PlusInf else MinusInf)
  | V_zero _ => Some (Finite 0)
  | V_num s m e => Some (Finite ((1 - 2 * s) * m * 2 ^ (e - d)))
  end.

(** The order of two values, 2 when one is not a number. *)
Definition cmp_spec (d : Z) (va vb : bf_value) : Z :=
  match extended_of d va, extended_of d vb with
  | Some x, Some y => sign_of (extended_cmp x y)
  | _, _ => 2
  end.

(** [d] is a unit both numbers are multiples of. *)
Definition unit_of (d : Z) (v : bf_value) : Prop := match v with V_num _ m e => 0 < m /\ d <= e | _ => True end.

Lemma normal_pos r : bf_normal r -> 0 < value (tab r).
Proof. intros (_ & H1 & H2 & _). assert (0 < LB ^ len r) by (apply Z.pow_pos_nonneg; [done|lia]). lia. Qed.

Lemma same_number_cmp m1 e1 n1 f1 m2 e2 n2 f2 :
  same_number m1 e1 n1 f1 -> same_number m2 e2 n2 f2 -> num_cmp m1 e1 m2 e2 = num_cmp n1 f1 n2 f2.
Proof.
  set (d := Z.min (Z.min e1 f1) (Z.min e2 f2)). rewrite !(same_number_iff d), !(num_cmp_at d) by lia. by intros -> ->.
Qed.

Lemma num_cmp_pos m1 e1 m2 e2 d : d <= e1 -> d <= e2 -> (m1 * 2 ^ (e1 - d) ?= m2 * 2 ^ (e2 - d)) = num_cmp m1 e1 m2 e2.
Proof. intros. by rewrite (num_cmp_at d). Qed.

Lemma cmpu_special a b : len a = 0 -> len b = 0 -> expn a = expn b -> bf_cmpu a b = Ret 0.
Proof. intros Ha Hb E. unfold bf_cmpu. rewrite E, Z.eqb_refl, Ha, Hb. done. Qed.

Lemma cmpu_expn a b : expn a <> expn b -> bf_cmpu a b = Ret (if expn a <? expn b then -1 else 1).
Proof. intros E. unfold bf_cmpu. by rewrite (proj2 (Z.eqb_neq _ _) E). Qed.

(** The exponents of the special values are out of the range of the others. *)
Lemma in_range_expn r : in_range r -> BF_EXP_ZERO < expn r < BF_EXP_INF /\ bf_is_nan r = false /\ bf_is_zero r = false /\ (expn r =? BF_EXP_INF) = false /\ (BF_EXP_INF <=? expn r) = false.
Proof.
  intros [H _]. unfold bf_is_nan, bf_is_zero. change BF_EXP_ZERO with (- 2 ^ 63). change BF_EXP_INF with (2 ^ 63 - 2). change BF_EXP_NAN with (2 ^ 63 - 1).
  rewrite !Z.eqb_neq, Z.leb_gt. lia.
Qed.

Lemma finite_cmp d s1 m1 e1 s2 m2 e2 :
  s1 = 0 \/ s1 = 1 -> s2 = 0 \/ s2 = 1 -> 0 < m1 -> 0 < m2 -> d <= e1 -> d <= e2 ->
  sign_of ((1 - 2 * s1) * m1 * 2 ^ (e1 - d) ?= (1 - 2 * s2) * m2 * 2 ^ (e2 - d)) =
    if negb (s1 =? s2) then 1 - 2 * s1 else if negb (s1 =? 0) then - sign_of (num_cmp m1 e1 m2 e2) else sign_of (num_cmp m1 e1 m2 e2).
Proof.
  intros Hs1 Hs2 H1 H2 He1 He2. rewrite (num_cmp_at d) by done.
  assert (0 < m1 * 2 ^ (e1 - d)) by (apply Z.mul_pos_pos; lia). assert (0 < m2 * 2 ^ (e2 - d)) by (apply Z.mul_pos_pos; lia).
  rewrite <- !Z.mul_assoc. remember (m1 * 2 ^ (e1 - d)) as x eqn:Ex. remember (m2 * 2 ^ (e2 - d)) as y eqn:Ey.
  clear Ex Ey. destruct Hs1 as [->| ->], Hs2 as [->| ->]; cbn [Z.eqb negb]; change (1 - 2 * 0) with 1; change (1 - 2 * 1) with (-1); rewrite ?Z.mul_1_l.
  - done.
  - by rewrite (proj2 (Z.compare_gt_iff _ _)) by lia.
  - by rewrite (proj2 (Z.compare_lt_iff _ _)) by lia.
  - destruct (Z.compare_spec (-1 * x) (-1 * y)), (Z.compare_spec x y); done || lia.
Qed.

Lemma number_cmp_num a b sa ma ea sb mb eb :
  number a (V_num sa ma ea) -> number b (V_num sb mb eb) -> bf_cmpu a b = Ret (sign_of (num_cmp ma ea mb eb)).
Proof.
  intros ((Hna & _ & Ha) & _ & _ & Hsa) ((Hnb & _ & Hb) & _ & _ & Hsb). rewrite bf_cmpu_spec by done. unfold mag_cmp.
  by rewrite (same_number_cmp _ _ ma ea _ _ mb eb Ha Hb).
Qed.

Lemma bf_cmp_value a b va vb d :
  number a va -> number b vb -> unit_of d va -> unit_of d vb -> bf_cmp a b = Ret (cmp_spec d va vb).
Proof.
  intros Ha Hb Ua Ub. unfold bf_cmp, cmp_spec.
  destruct va as [|sa|sa|sa ma ea], vb as [|sb|sb|sb mb eb]; cbn [extended_of].
  all: try (pose proof Ha as (Ra & Sa & Ia); pose proof Hb as (Rb & Sb & Ib); cbn [represents] in Ra, Rb).
  all: try (subst a; cbn [sign expn] in Sa); try (subst b; cbn [sign expn] in Sb).
  all: try destruct Ra as (Na & <- & Sma); try destruct Rb as (Nb & <- & Smb).
  all: try (destruct (in_range_expn _ Ia) as (Xa & -> & -> & _)); try (destruct (in_range_expn _ Ib) as (Xb & -> & -> & _)).
  all: try reflexivity.
  9: { cbn [extended_cmp orb andb]. rewrite (number_cmp_num a b _ ma ea _ mb eb Ha Hb). cbn [obind]. destruct Ua, Ub.
       rewrite (finite_cmp d _ ma ea _ mb eb) by done. by destruct (sign a =? sign b), (sign a =? 0). }
  all: cbn [orb andb]; first [rewrite cmpu_expn by (cbn [expn]; lia)|idtac].
  all: rewrite ?orb_false_r, ?andb_false_r; cbn [bf_is_nan bf_is_zero expn sign].
  all: repeat match goal with
       | H : _ < expn ?r < _ |- context [expn ?r <? ?x] => first [rewrite (proj2 (Z.ltb_lt (expn r) x)) by lia|rewrite (proj2 (Z.ltb_ge (expn r) x)) by lia]
       | H : _ < expn ?r < _ |- context [?x <? expn ?r] => first [rewrite (proj2 (Z.ltb_lt x (expn r))) by lia|rewrite (proj2 (Z.ltb_ge x (expn r))) by lia]
       end.
  all: destruct Sa as [Ea|Ea], Sb as [Eb|Eb]; rewrite ?Ea, ?Eb; try reflexivity.
  all: first [destruct Ua; assert (0 < ma * 2 ^ (ea - d)) as HP by (apply Z.mul_pos_pos; lia)
             |destruct Ub; assert (0 < mb * 2 ^ (eb - d)) as HP by (apply Z.mul_pos_pos; lia)].
  all: rewrite <- Z.mul_assoc; match type of HP with 0 < ?P => destruct P; done end.
Qed.

(** ** The full order *)

(** [-0] is less than [0], and NaN is equal to itself and greater than the numbers. *)
Definition cmp_full_spec (d : Z) (va vb : bf_value) : Z :=
  match va, vb with
  | V_nan, V_nan => 0
  | V_nan, _ => 1
  | _, V_nan => -1
  | V_zero s, V_zero s' => s' - s
  | _, _ => cmp_spec d va vb
  end.

Lemma bf_cmp_full_value a b va vb d :
  number a va -> number b vb -> unit_of d va -> unit_of d vb -> bf_cmp_full a b = Ret (cmp_full_spec d va vb).
Proof.
  intros Ha Hb Ua Ub. pose proof (bf_cmp_value a b va vb d Ha Hb Ua Ub) as E. unfold bf_cmp in E. unfold bf_cmp_full.
  pose proof Ha as (Ra & Sa & Ia). pose proof Hb as (Rb & Sb & Ib).
  destruct va as [|sa|sa|sa ma ea], vb as [|sb|sb|sb mb eb]; cbn [represents cmp_full_spec] in *.
  all: try (subst a; cbn [sign expn] in Sa); try (subst b; cbn [sign expn] in Sb); try reflexivity.
  all: try (destruct (in_range_expn _ Ia) as (Xa & Na & Za & _)); try (destruct (in_range_expn _ Ib) as (Xb & Nb & Zb & _)).
  all: rewrite ?Na, ?Nb, ?Za, ?Zb in *; cbn [orb andb bf_is_nan expn sign] in *; rewrite ?andb_false_r in E; try exact E.
  all: try (destruct Sa as [->| ->], Sb as [->| ->]; done).
  - change BF_EXP_NAN with (BF_EXP_INF + 1). unfold bf_is_nan. cbn [expn]. by rewrite (proj2 (Z.eqb_neq (BF_EXP_INF + 1) (expn b))) by lia.
  - change BF_EXP_NAN with (BF_EXP_INF + 1). unfold bf_is_nan. cbn [expn]. by rewrite (proj2 (Z.eqb_neq (expn a) (BF_EXP_INF + 1))) by lia.
Qed.
