(* ===== verification/BfMulDiv.v ===== *)
(** The product and the quotient of the numbers of [libbf.c] are correctly rounded.

    [mul_spec] and [div_spec] are the operations on values, special values
    included; the theorems are about every mode, precision and format, and any
    state of the number the result is written to. *)
From Stdlib Require Import ZArith Lia Bool List Setoid.
From stdpp Require Import base tactics list numbers.
From S2P Require Import Prelude IntFmt Alloc Limb MpMul MpDiv MpRecip Bf BfRound BfRatio BfRoundOk BfOps BfCmp.

(** * Formats *)

(** A precision and flags that the operations accept. *)
Definition op_format (prec flags : Z) : Prop :=
  mode_ok (rnd_mode_of flags) /\ 3 <= bf_get_exp_bits flags <= 62 /\ 0 < prec <= BF_PREC_INF /\
  has_flag flags BF_FLAG_RADPNT_PREC = false /\ (has_flag flags BF_FLAG_SUBNORMAL = true -> prec <> BF_PREC_INF).

Lemma op_rounding_ok E prec flags : op_format prec flags -> - 2 ^ 62 <= E <= 2 ^ 62 -> rounding_ok E prec flags.
Proof.
  intros (Hm & Hb & Hp & Hr & Hs) HE. unfold rounding_ok, rounding_range. rewrite Hr. split; [|lia]. split; [done|]. split; [done|]. split; [lia|]. split; [done|].
  split; [done|by intros _].
Qed.

(** A finite result, from the one written by the code. *)
Lemma same_number_mul m1 e1 n1 f1 m2 e2 n2 f2 :
  same_number m1 e1 n1 f1 -> same_number m2 e2 n2 f2 -> same_number (m1 * m2) (e1 + e2) (n1 * n2) (f1 + f2).
Proof.
  set (c := Z.min e1 f1). set (d := Z.min e2 f2). rewrite (same_number_iff c), (same_number_iff d), (same_number_iff (c + d)) by lia.
  intros H1 H2. replace (e1 + e2 - (c + d)) with ((e1 - c) + (e2 - d)) by lia. replace (f1 + f2 - (c + d)) with ((f1 - c) + (f2 - d)) by lia.
  rewrite !Z.pow_add_r by lia.
  replace (m1 * m2 * (2 ^ (e1 - c) * 2 ^ (e2 - d))) with ((m1 * 2 ^ (e1 - c)) * (m2 * 2 ^ (e2 - d))) by ring. rewrite H1, H2. ring.
Qed.

Lemma same_number_pos m1 e1 m2 e2 : same_number m1 e1 m2 e2 -> 0 < m1 -> 0 < m2.
Proof.
  unfold same_number. intros H H1. assert (0 < m1 * 2 ^ (e1 - Z.min e1 e2)) as Hp by (apply Z.mul_pos_pos; lia). rewrite H in Hp.
  apply Z.mul_pos_cancel_r in Hp; lia.
Qed.

(** A number other than zero, and its mantissa. *)
Lemma number_mant r s m e :
  number r (V_num s m e) ->
  limbs (tab r) /\ 0 < len r <= 2 ^ 50 /\ 0 < value (tab r) /\ 0 < m /\ sign r = s /\ same_number (value (tab r)) (bf_exp r) m e /\
  2 ^ (64 * len r - 1) <= value (tab r) < 2 ^ (64 * len r) /\ - 2 ^ 61 < expn r <= 2 ^ 61.
Proof.
  intros ((Hn & Hs & Hm) & _ & Hr & Hsm). pose proof (normal_pos r Hn) as Hp. destruct (bf_normal_mant r Hn) as (Hl & HM & Em).
  pose proof (mant_bound (tab r) (len r) (proj1 Hn) ltac:(unfold len in *; lia)) as Hb. rewrite Em in *. unfold small_tab in Hsm.
  split; [apply Hn|]. split; [unfold len in *; lia|]. split; [done|]. split; [by apply (same_number_pos _ _ _ _ Hm)|]. split; [done|]. split; [done|]. split; [lia|done].
Qed.

(** ** Products *)

Definition mul_spec (va vb : bf_value) (prec flags : Z) : bf_value * Z :=
  match va, vb with
  | V_nan, _ | _, V_nan => (V_nan, 0)
  | V_inf _, V_zero _ | V_zero _, V_inf _ => (V_nan, BF_ST_INVALID_OP)
  | V_inf s, (V_inf s' | V_num s' _ _) | V_num s _ _, V_inf s' => (V_inf (Z.lxor s s'), 0)
  | V_zero s, (V_zero s' | V_num s' _ _) | V_num s _ _, V_zero s' => (V_zero (Z.lxor s s'), 0)
  | V_num s m e, V_num s' m' e' => bf_round_spec (Z.lxor s s') (m * m') 1 (e + e') prec flags
  end.

(** The numerator: [a] under [d] zero limbs. *)
Lemma div_numerator taba t na :
  limbs taba -> limbs t -> 0 <= zlen t <= na -> zlen taba = na + 1 ->
  let d := na - zlen t in
  post (wr_slice taba 0 (replicate (Z.to_nat d) 0)) (fun taba1 => post (wr_slice taba1 d t) (fun taba2 =>
    exists num, rd_slice taba2 0 na = Ret num /\ limbs num /\ zlen num = na /\ value num = value t * 2 ^ (64 * d))).
Proof.
  intros Ht Hl Hle Hz d. assert (zlen (replicate (Z.to_nat d) 0) = d) as Hzd by (rewrite zlen_replicate; lia).
  rewrite wr_slice_in by lia. change (take (Z.to_nat 0) taba) with (@nil Z). cbn [post app]. rewrite Z.add_0_l.
  pose proof (wr_slice_app (replicate (Z.to_nat d) 0) (drop (Z.to_nat (zlen (replicate (Z.to_nat d) 0))) taba) t) as E.
  rewrite Hzd in E |- *. rewrite E by (rewrite zlen_drop; lia). cbn [post].
  rewrite app_assoc. set (num := replicate (Z.to_nat d) 0 ++ t). exists num.
  assert (zlen num = na) as Hzn by (unfold num; rewrite zlen_app; lia).
  split; [rewrite <- Hzn; apply (rd_slice_mid [] num)|]. split; [unfold num; auto with limbs|]. split; [done|].
  unfold num. rewrite value_app, value_replicate_0. unfold base_pow. rewrite Hzd, LB_pow2 by lia. ring.
Qed.

Lemma value_lor_1 x t : 0 <= x -> 0 <= value t -> value (Z.lor x 1 :: t) = Z.lor (value (x :: t)) 1.
Proof.
  intros Hx Ht. cbn [value]. rewrite !lor_1 by (unfold LB; lia). replace (x + LB * value t) with (x + 2 ^ 63 * value t * 2) by (unfold LB; lia).
  rewrite Z.div_add by lia. unfold LB. lia.
Qed.

(** The sticky bit of the quotient. *)
Lemma div_sticky q rem a b :
  limbs q -> 0 < zlen q -> limbs rem -> a = value q * b + value rem -> value rem < b ->
  post (if negb (mp_scan_nz rem =? 0) then let* x := rd q 0 in wr q 0 (Z.lor x 1) else Ret q)
    (fun q' => limbs q' /\ zlen q' = zlen q /\ value q' = sticky a b).
Proof.
  intros Hq Hz Hr Ea Hlt. rewrite mp_scan_nz_spec by done. rewrite b2z_nonzero. pose proof (value_bound rem Hr) as Hrb.
  pose proof (value_bound q Hq) as Hqb.
  assert (a / b = value q /\ a mod b = value rem) as [Eq Er].
  { split; symmetry; [apply Z.div_unique with (value rem)|apply Z.mod_unique with (value q)]; (left; lia) || lia. }
  unfold sticky. rewrite Eq, Er. destruct (Z.eqb_spec (value rem) 0); cbn [negb]; [done|].
  destruct q as [|x q]; [done|]. inversion_clear Hq as [|? ? Hx Hq']. step. change (rd (x :: q) 0) with (Ret x). step.
  assert (wr (x :: q) 0 (Z.lor x 1) = Ret (Z.lor x 1 :: q)) as -> by (by apply (wr_app [])). cbn [post]. u64_ranges. pose proof (value_bound q Hq').
  split; [|split; [done|apply value_lor_1; lia]]. constructor; [|done]. apply (lor_bound 64); [done|done|done].
Qed.

Lemma normal_normalized r : bf_normal r -> normalized_limbs (tab r).
Proof. intros (Hl & Hz & Hn & _). by apply normalized_of_value. Qed.

Lemma same_number_shift c m1 e1 m2 e2 : same_number m1 e1 m2 e2 -> same_number m1 (e1 + c) m2 (e2 + c).
Proof.
  rewrite (same_number_iff (Z.min e1 e2)), (same_number_iff (Z.min e1 e2 + c)) by lia.
  replace (e1 + c - (Z.min e1 e2 + c)) with (e1 - Z.min e1 e2) by lia. by replace (e2 + c - (Z.min e1 e2 + c)) with (e2 - Z.min e1 e2) by lia.
Qed.

Lemma same_number_more k m1 e1 m2 e2 : 0 <= k -> same_number m1 e1 m2 e2 -> same_number (m1 * 2 ^ k) (e1 - k) m2 e2.
Proof.
  intros Hk. set (d := Z.min (e1 - k) e2). rewrite !(same_number_iff d) by lia. intros <-.
  rewrite <- Z.mul_assoc, <- Z.pow_add_r by lia. do 2 f_equal. lia.
Qed.

(** The ratio of the mantissas, the numerator extended with zeros. *)
Lemma ratio_eq_div m1 e1 n1 f1 m2 e2 n2 f2 k :
  same_number m1 e1 n1 f1 -> same_number m2 e2 n2 f2 -> 0 <= k -> ratio_eq (m1 * 2 ^ k) m2 (e1 - e2 - k) n1 n2 (f1 - f2).
Proof.
  intros H1 H2 Hk. unfold ratio_eq.
  pose proof (same_number_equiv.(Equivalence_Symmetric) (_, _) (_, _) H2) as H2'. cbn in H2'.
  pose proof (same_number_shift (- e2 - f2) _ _ _ _ (same_number_mul _ _ _ _ _ _ _ _ H1 H2')) as H.
  replace (m1 * 2 ^ k * n2) with (m1 * n2 * 2 ^ k) by ring.
  replace (f1 - f2) with (f1 + e2 + (- e2 - f2)) by lia.
  replace (e1 - e2 - k) with (e1 + f2 + (- e2 - f2) - k) by lia. by apply same_number_more.
Qed.

Lemma spec_prec_le E prec flags : has_flag flags BF_FLAG_RADPNT_PREC = false -> spec_prec E prec flags <= prec.
Proof. intros Hr. unfold spec_prec, prec_spec. rewrite Hr. case_match; lia. Qed.

Section MulDiv.
Context `{SHG : ShrinkGranted} {FM : FftMul}.

Lemma mul_limbs_spec alias r a_tab b_tab :
  limbs (tab r) -> limbs a_tab -> limbs b_tab -> 0 < zlen a_tab -> 0 < zlen b_tab -> zlen a_tab + zlen b_tab < 2 ^ 60 ->
  hpost (mul_limbs alias r a_tab b_tab) (fun '(r', ok) =>
    if ok : bool then limbs (tab r') /\ len r' = zlen a_tab + zlen b_tab /\ value (tab r') = value a_tab * value b_tab else can_refuse).
Proof.
  intros Hr Ha Hb Hza Hzb Hmax. unfold mul_limbs. destruct (FFT_MUL_THRESHOLD <=? zlen b_tab).
  - apply hpost_bind. eapply hpost_mono; [apply hpost_alloc, fft_mul_spec; done|]. intros [t|] Ht; by apply hpost_ret.
  - apply hpost_bind. eapply hpost_mono; [apply bf_resize_spec; [by destruct alias; [apply Forall_nil|]|lia]|].
    intros [r1 ok] Hr1. destruct ok; cbn [negb]; [|apply hpost_ret; by apply Hr1]. destruct Hr1 as (_ & _ & Hl1 & Hz1 & _).
    apply hpost_bind, hpost_lift. eapply post_mono; [apply mp_mul_basecase_spec; try done; exact Hz1|].
    intros t (Ht & Hz & Hv). by apply hpost_ret.
Qed.

Lemma mul_numbers alias r a b sa ma ea sb mb eb prec flags :
  number a (V_num sa ma ea) -> number b (V_num sb mb eb) -> limbs (tab r) -> op_format prec flags -> rnd_mode_of flags <> BF_RNDF ->
  len b <= len a ->
  hpost (bf_mul alias r a b prec flags) (result_is (bf_round_spec (Z.lxor sa sb) (ma * mb) 1 (ea + eb) prec flags)).
Proof.
  intros Ha Hb Hr Hf Hmode Hle. unfold bf_mul. rewrite (proj2 (Z.ltb_ge _ _) Hle).
  destruct (number_mant a sa ma ea Ha) as (Hla & Hza & Hpa & Hma & <- & Hsa & Hba & Hea).
  destruct (number_mant b sb mb eb Hb) as (Hlb & Hzb & Hpb & Hmb & <- & Hsb & Hbb & Heb).
  rewrite (proj2 (Z.eqb_neq (len b) 0)) by lia. rewrite (proj2 (Z.eqb_neq (rnd_mode_of flags) BF_RNDF) Hmode). rewrite !Z.sub_diag. unfold len in *.
  apply hpost_bind, hpost_lift. rewrite rd_slice_in by lia. apply post_ret. apply hpost_bind, hpost_lift. rewrite rd_slice_in by lia. apply post_ret.
  change (Z.to_nat 0) with 0%nat. rewrite !drop_0. unfold zlen at 1 2. rewrite !Nat2Z.id, !firstn_all.
  apply hpost_bind. eapply hpost_mono; [apply mul_limbs_spec; done || lia|]. intros [r1 ok] Hr1. destruct ok; [|by apply bf_mem_error_spec].
  destruct Hr1 as (Hl1 & Hz1 & Hv1). cbn [negb]. unfold len in Hz1.
  assert (0 < value (tab a) * value (tab b)) as Hpos by (by apply Z.mul_pos_pos).
  rewrite i64_id by (unfold in_i64; lia).
  assert (Z.log2 (value (tab r1)) < 64 * (zlen (tab a) + zlen (tab b)) /\ 64 * (zlen (tab a) + zlen (tab b)) - 2 <= Z.log2 (value (tab r1))) as [Hlog1 Hlog2].
  { rewrite Hv1. split.
    - apply Z.log2_lt_pow2; [done|]. rewrite Z.mul_add_distr_l, Z.pow_add_r by lia. apply Z.mul_lt_mono_nonneg; lia.
    - apply Z.log2_le_pow2; [done|]. replace (64 * (zlen (tab a) + zlen (tab b)) - 2) with ((64 * zlen (tab a) - 1) + (64 * zlen (tab b) - 1)) by lia.
      rewrite Z.pow_add_r by lia. apply Z.mul_le_mono_nonneg; lia. }
  eapply hpost_mono; [apply bf_normalize_and_round_spec; unfold len; cbn [tab expn sign]; [done|lia|]|].
  - intros _. apply op_rounding_ok; [done|]. lia.
  - intros res. unfold normalize_spec, len. cbn [tab expn sign]. rewrite Hv1, (proj2 (Z.eqb_neq _ 0)) by lia. apply result_is_equiv.
    apply bf_round_spec_ratio; try done; [by apply Z.mul_pos_pos|]. unfold ratio_eq. rewrite !Z.mul_1_r.
    replace (expn a + expn b - 64 * zlen (tab r1)) with (bf_exp a + bf_exp b) by (unfold bf_exp, len; change LIMB_BITS with 64; lia).
    by apply same_number_mul.
Qed.

Lemma bf_round_spec_sym s m1 m2 e1 e2 prec flags :
  bf_round_spec s (m1 * m2) 1 (e1 + e2) prec flags = bf_round_spec s (m2 * m1) 1 (e2 + e1) prec flags.
Proof. by rewrite (Z.mul_comm m1), (Z.add_comm e1). Qed.

Lemma bf_mul_comm_len alias r a b prec flags : len a < len b -> bf_mul alias r a b prec flags = bf_mul alias r b a prec flags.
Proof. intros H. unfold bf_mul. rewrite (proj2 (Z.ltb_lt _ _) H), (proj2 (Z.ltb_ge (len b) (len a))) by lia. done. Qed.

(** Results without limbs. *)
Lemma ret_nan r st spec : spec = (V_nan, st) -> hpost (let! r := bf_set_nan r in hret (r, st)) (result_is spec).
Proof. intros ->. apply hpost_bind. eapply hpost_mono; [apply bf_set_nan_spec|]. intros r' Hr. apply hpost_ret. by right. Qed.

Lemma ret_inf r s st spec : spec = (V_inf s, st) -> hpost (let! r := bf_set_inf r s in hret (r, st)) (result_is spec).
Proof. intros ->. apply hpost_bind. eapply hpost_mono; [apply bf_set_inf_spec|]. intros r' Hr. apply hpost_ret. by right. Qed.

Lemma ret_zero r s st spec : spec = (V_zero s, st) -> hpost (let! r := bf_set_zero r s in hret (r, st)) (result_is spec).
Proof. intros ->. apply hpost_bind. eapply hpost_mono; [apply bf_set_zero_spec|]. intros r' Hr. apply hpost_ret. by right. Qed.

(** Replaces the tests on special values by their answers. *)
Ltac special_tests :=
  repeat match goal with
  | H : number ?r (V_num ?s ?m ?e) |- _ =>
      let N := fresh "N" in let Z := fresh "Z" in let I := fresh "I" in let J := fresh "J" in
      destruct (in_range_expn r (proj2 (proj2 H))) as (_ & N & Z & I & J); rewrite ?N, ?Z, ?I, ?J;
      rewrite ?(proj1 (proj2 (proj1 H))); clear N Z I J H
  | H : number ?r ?v |- _ => let R := fresh "R" in pose proof (proj1 H) as R; cbn [represents] in R; subst r; clear H
  end.

Ltac ret_special := first [apply ret_nan|apply ret_inf|apply ret_zero]; reflexivity.

(** An operand without limbs. *)
Lemma mul_special_spec r a b va vb prec flags :
  number a va -> number b vb -> (forall s m e, va <> V_num s m e) \/ (forall s m e, vb <> V_num s m e) ->
  hpost (mul_special r a b (Z.lxor (sign a) (sign b))) (result_is (mul_spec va vb prec flags)).
Proof.
  intros Ha Hb Hsp. unfold mul_special. destruct va as [|sa|sa|sa ma ea], vb as [|sb|sb|sb mb eb].
  all: try (exfalso; destruct Hsp as [Hsp|Hsp]; by eapply Hsp).
  all: clear Hsp; special_tests; cbn; ret_special.
Qed.
Lemma number_len r v : number r v -> (exists s m e, v = V_num s m e /\ 0 < len r) \/ ((forall s m e, v <> V_num s m e) /\ len r = 0).
Proof.
  intros (R & _). destruct v as [|s|s|s m e]; cbn in R; [right; by subst..|]. left. exists s, m, e. split; [done|]. apply R.
Qed.

Lemma bf_mul_value alias r a b va vb prec flags :
  number a va -> number b vb -> limbs (tab r) -> op_format prec flags -> rnd_mode_of flags <> BF_RNDF ->
  hpost (bf_mul alias r a b prec flags) (result_is (mul_spec va vb prec flags)).
Proof.
  intros Ha Hb Hr Hf Hmode. destruct (number_len a va Ha) as [(sa & ma & ea & -> & Hla)|[Hsa Hla]], (number_len b vb Hb) as [(sb & mb & eb & -> & Hlb)|[Hsb Hlb]].
  - destruct (Z.le_gt_cases (len b) (len a)) as [Hle|Hgt]; [by apply mul_numbers|].
    rewrite bf_mul_comm_len by done. cbn [mul_spec]. rewrite Z.lxor_comm, bf_round_spec_sym. apply mul_numbers; done || lia.
  - unfold bf_mul. rewrite (proj2 (Z.ltb_ge _ _)), Hlb by lia. apply mul_special_spec; [done..|by right].
  - unfold bf_mul. rewrite (proj2 (Z.ltb_lt _ _)), Hla by lia. cbn [Z.eqb].
    replace (mul_spec va (V_num sb mb eb) prec flags) with (mul_spec (V_num sb mb eb) va prec flags) by (destruct va; cbn; rewrite 1?Z.lxor_comm; try done; by destruct (Hsa sgn m e)).
    apply mul_special_spec; [done..|by right].
  - unfold bf_mul. rewrite (proj2 (Z.ltb_ge _ _)), Hlb by lia. apply mul_special_spec; [done..|by right].
Qed.

(** ** Quotients *)

Definition div_spec (va vb : bf_value) (prec flags : Z) : bf_value * Z :=
  match va, vb with
  | V_nan, _ | _, V_nan => (V_nan, 0)
  | V_inf _, V_inf _ | V_zero _, V_zero _ => (V_nan, BF_ST_INVALID_OP)
  | V_inf s, (V_zero s' | V_num s' _ _) => (V_inf (Z.lxor s s'), 0)
  | V_zero s, (V_inf s' | V_num s' _ _) | V_num s _ _, V_inf s' => (V_zero (Z.lxor s s'), 0)
  | V_num s _ _, V_zero s' => (V_inf (Z.lxor s s'), BF_ST_DIVIDE_ZERO)
  | V_num s m e, V_num s' m' e' => bf_round_spec (Z.lxor s s') m m' (e - e') prec flags
  end.

Lemma div_special_spec r a b va vb prec flags :
  number a va -> number b vb -> (forall s m e, va <> V_num s m e) \/ (forall s m e, vb <> V_num s m e) ->
  hpost (__bf_div r a b prec flags) (result_is (div_spec va vb prec flags)).
Proof.
  intros Ha Hb Hsp. unfold __bf_div. destruct va as [|sa|sa|sa ma ea], vb as [|sb|sb|sb mb eb].
  all: try (exfalso; destruct Hsp as [Hsp|Hsp]; by eapply Hsp).
  all: clear Hsp; special_tests; cbn; ret_special.
Qed.

(** The rounding of the quotient of [n + 1] limbs. *)
Lemma div_rounded a b sa ma ea sb mb eb prec flags n q :
  number a (V_num sa ma ea) -> number b (V_num sb mb eb) -> op_format prec flags ->
  prec + 2 <= 64 * n -> len a <= n <= 2 ^ 53 -> limbs q -> zlen q = n + 1 ->
  value q = sticky (value (tab a) * 2 ^ (64 * (n + len b - len a))) (value (tab b)) ->
  hpost (bf_normalize_and_round (mkBf (Z.lxor sa sb) (expn a - expn b + LIMB_BITS) q) prec flags)
    (result_is (bf_round_spec (Z.lxor sa sb) ma mb (ea - eb) prec flags)).
Proof.
  intros Ha Hb Hf Hn1 Hn2 Hlq Hzq Hvq. pose proof Hf as (_ & _ & Hp & Hrad & _).
  destruct (number_mant a sa ma ea Ha) as (Hla & Hza & Hpa & Hma & _ & Hsa & Hba & Hea).
  destruct (number_mant b sb mb eb Hb) as (Hlb & Hzb & Hpb & Hmb & _ & Hsb & Hbb & Heb).
  set (d := n + len b - len a) in *. set (A := value (tab a) * 2 ^ (64 * d)) in *. set (B := value (tab b)) in *.
  assert (2 ^ (64 * (n + len b) - 1) <= A < 2 ^ (64 * (n + len b))) as HA.
  { unfold A. replace (64 * (n + len b) - 1) with ((64 * len a - 1) + 64 * d) by (unfold d; lia).
    replace (64 * (n + len b)) with (64 * len a + 64 * d) by (unfold d; lia). rewrite !Z.pow_add_r by (unfold d; lia).
    split; [apply Z.mul_le_mono_nonneg_r|apply Z.mul_lt_mono_pos_r]; lia. }
  assert (2 ^ (64 * n - 1) <= A / B < 2 ^ (64 * n + 1)) as HQ.
  { split.
    - apply Z.div_le_lower_bound; [done|]. apply Z.le_trans with (2 ^ (64 * len b) * 2 ^ (64 * n - 1)); [apply Z.mul_le_mono_nonneg_r; lia|].
      rewrite <- Z.pow_add_r by lia. replace (64 * len b + (64 * n - 1)) with (64 * (n + len b) - 1) by lia. lia.
    - apply Z.div_lt_upper_bound; [done|]. apply Z.lt_le_trans with (2 ^ (64 * len b - 1) * 2 ^ (64 * n + 1)); [|apply Z.mul_le_mono_nonneg_r; lia].
      rewrite <- Z.pow_add_r by lia. replace (64 * len b - 1 + (64 * n + 1)) with (64 * (n + len b)) by lia. lia. }
  assert (B <= A) as HBA by (destruct (Z.lt_ge_cases A B); [rewrite Z.div_small in HQ by lia; lia|done]).
  assert (ratio_exponent A B (expn a - expn b - 64 * n) = expn a - expn b - 64 * n + Z.log2 (value q) + 1) as HE.
  { rewrite <- ratio_exponent_sticky, <- Hvq by done. apply ratio_exponent_int. rewrite Hvq. destruct (sticky_spec A B Hpb ltac:(lia)) as [H _]. cbv zeta in H. lia. }
  assert (64 * n - 1 <= Z.log2 (value q) <= 64 * n) as Hlog.
  { assert (Z.log2 (value q) = Z.log2 (A / B)) as ->.
    { rewrite Hvq. unfold sticky. case_match; [done|]. rewrite Z.log2_lor by lia. pose proof (Z.log2_nonneg (A / B)). change (Z.log2 1) with 0. lia. }
    split; [apply Z.log2_le_pow2; lia|]. apply Z.lt_succ_r. rewrite <- Z.add_1_r. apply Z.log2_lt_pow2; lia. }
  eapply hpost_mono; [apply bf_normalize_and_round_spec; unfold len; cbn [tab expn sign]; [done|lia|]|].
  - intros _. apply op_rounding_ok; [done|]. rewrite Hzq. change LIMB_BITS with 64. lia.
  - intros res. unfold normalize_spec, len. cbn [tab expn sign]. rewrite Hzq. change LIMB_BITS with 64.
    assert (value q <> 0) as Hq0 by (intros E0; rewrite E0 in Hlog; change (Z.log2 0) with 0 in Hlog; lia).
    rewrite (proj2 (Z.eqb_neq _ 0)) by done. apply result_is_equiv.
    replace (expn a - expn b + 64 - 64 * (n + 1)) with (expn a - expn b - 64 * n) by lia. rewrite Hvq.
    etransitivity; [apply bf_round_spec_sticky; [done|done|]|].
    + rewrite HE. pose proof (spec_prec_le (expn a - expn b - 64 * n + Z.log2 (value q) + 1) prec flags Hrad). lia.
    + apply bf_round_spec_ratio; try done; [lia|].
      replace (expn a - expn b - 64 * n) with (bf_exp a - bf_exp b - 64 * d) by (unfold bf_exp, d; change LIMB_BITS with 64; lia).
      apply ratio_eq_div; done || (unfold d; lia).
Qed.

(** The limbs that are divided; [mp_divnorm] counts limbs with an [int].  Without a numerator or a divisor there is
    no division. *)
Definition div_limbs (a b : bf_t) (prec : Z) : Z := Z.max (len a) ((prec + 65) / 64) + len b.
Definition div_size_ok (a b : bf_t) (prec : Z) : Prop := len a = 0 \/ len b = 0 \/ div_limbs a b prec <= 2 ^ 30.

Lemma div_numbers_spec r a b sa ma ea sb mb eb prec flags :
  number a (V_num sa ma ea) -> number b (V_num sb mb eb) -> limbs (tab r) -> op_format prec flags -> div_limbs a b prec <= 2 ^ 30 ->
  hpost (div_numbers r a b prec flags (Z.lxor sa sb)) (result_is (bf_round_spec (Z.lxor sa sb) ma mb (ea - eb) prec flags)).
Proof.
  intros Ha Hb Hr Hf Hmax. unfold div_numbers. pose proof Hf as (_ & _ & Hp & Hrad & _). unfold div_limbs in Hmax.
  destruct (number_mant a sa ma ea Ha) as (Hla & Hza & Hpa & Hma & _ & Hsa & Hba & Hea).
  destruct (number_mant b sb mb eb Hb) as (Hlb & Hzb & Hpb & Hmb & _ & Hsb & Hbb & Heb).
  assert (u64 (prec + 2 + LIMB_BITS - 1) / LIMB_BITS = (prec + 65) / 64) as ->.
  { assert (prec <= 2 ^ 62) by (eapply Z.le_trans; [apply Hp|by vm_compute]). change LIMB_BITS with 64. rewrite u64_id by (unfold in_u64; lia). f_equal. lia. }
  set (n := Z.max (len a) ((prec + 65) / 64)) in *. assert (prec + 2 <= 64 * n /\ len a <= n <= 2 ^ 53) as [Hn1 Hn2] by (unfold n; Z.to_euclidean_division_equations; lia).
  cbv zeta. set (na := n + len b). destruct (Z.leb_spec ((2 ^ 64 - 1) / 8 - 1) na) as [Hbig|_]; [exfalso; change ((2 ^ 64 - 1) / 8 - 1) with 2305843009213693950 in Hbig; lia|].
  apply hpost_bind. eapply hpost_mono; [apply hpost_alloc, (mpost_malloc (na + 1) (fun t => limbs t /\ zlen t = na + 1)); [lia|done]|].
  intros [taba|]; [|apply bf_mem_error_spec]. intros [Hlt Hzt].
  apply hpost_bind, hpost_lift. eapply post_mono; [apply (div_numerator taba (tab a) na); [done|done|unfold len in *; lia|done]|].
  intros taba1 Hnum. apply hpost_bind, hpost_lift. eapply post_mono; [exact Hnum|]. intros taba2 (Hnum2 & Hln & Hzn & Hvn).
  apply hpost_bind. eapply hpost_mono; [apply bf_resize_spec; [done|lia]|]. intros [r1 ok] Hr1.
  destruct ok; [|apply bf_mem_error_spec, Hr1; lia]. destruct Hr1 as (_ & _ & Hl1 & Hz1 & _). cbn [negb].
  apply hpost_bind, hpost_lift. 
  rewrite Hln. apply post_ret. destruct Hvn as [Hzn' Hvn].
  apply hpost_bind. eapply hpost_mono; [apply hpost_alloc, mp_divnorm_divides; try done; [by apply normal_normalized, Hb|unfold len in *; lia..]|].
  intros [[q rem]|]; [|apply bf_mem_error_spec]. intros (Hlq & Hzq & Hlrem & Hzrem & Edq & Hrlt).
  apply hpost_bind, hpost_lift. rewrite rd_slice_in by (unfold len in *; lia). apply post_ret. change (drop (Z.to_nat 0) rem) with rem.
  apply hpost_bind, hpost_lift. eapply post_mono; [apply (div_sticky q _ (value Hnum2) (value (tab b)) Hlq); auto with limbs; unfold len in *; lia|].
  intros q' (Hlq' & Hzq' & Hvq'). rewrite Hvn in Hvq'.
  apply (div_rounded a b sa ma ea sb mb eb prec flags n q'); try done. unfold len in *. lia.
Qed.

Lemma bf_div_value alias r a b va vb prec flags :
  number a va -> number b vb -> limbs (tab r) -> op_format prec flags -> div_size_ok a b prec ->
  hpost (bf_div alias r a b prec flags) (result_is (div_spec va vb prec flags)).
Proof.
  intros Ha Hb Hr Hf Hp. unfold bf_div, bf_op2. assert (limbs (tab (if alias then bf_init else r))) as Hr' by (by destruct alias; [apply Forall_nil|]).
  destruct (number_len a va Ha) as [(sa & ma & ea & -> & Hla)|[Hsa Hla]], (number_len b vb Hb) as [(sb & mb & eb & -> & Hlb)|[Hsb Hlb]].
  - unfold __bf_div. destruct (in_range_expn a (proj2 (proj2 Ha))) as (_ & -> & -> & -> & ->). destruct (in_range_expn b (proj2 (proj2 Hb))) as (_ & -> & -> & -> & ->).
    cbn [orb andb]. rewrite (proj1 (proj2 (proj1 Ha))), (proj1 (proj2 (proj1 Hb))). apply div_numbers_spec; try done. destruct Hp as [?|[?|?]]; done || lia.
  - apply div_special_spec; [done..|by right].
  - apply div_special_spec; [done..|by left].
  - apply div_special_spec; [done..|by left].
Qed.
End MulDiv.

(** * Rounding *)

(** What rounding a value gives: a value that is not finite, or zero, is kept. *)
Definition round_spec (v : bf_value) (prec flags : Z) : bf_value * Z :=
  match v with V_num s m e => bf_round_spec s m 1 e prec flags | _ => (v, 0) end.

Lemma bf_round_to `{SHG : ShrinkGranted} r v prec flags :
  number r v -> (forall s m e, v = V_num s m e -> rounding_range (expn r) prec flags) ->
  rounds_to (len r) prec (round_spec v prec flags) (bf_round r prec flags).
Proof.
  intros Hr Hok. destruct (number_len r v Hr) as [(s & m & e & -> & Hl)|[Hsp Hl]].
  - destruct (number_mant r s m e Hr) as (Hla & Hz & Hp & Hm & <- & Hs & _). specialize (Hok _ _ _ eq_refl).
    eapply rounds_equiv; [|apply bf_round_normal_to; [apply Hr|lia|done]]. apply bf_round_spec_ratio; try done. unfold ratio_eq. by rewrite !Z.mul_1_r.
  - rewrite bf_round_special by done. destruct v as [| | |s m e]; [apply rounds_ok; [done|]; intros short; apply hpost_ret; right; split; [apply Hr|done]..|]. by destruct (Hsp s m e).
Qed.

Lemma bf_round_value `{SHG : ShrinkGranted} r v prec flags :
  number r v -> (forall s m e, v = V_num s m e -> rounding_ok (expn r) prec flags) ->
  hpost (bf_round r prec flags) (result_is (round_spec v prec flags)).
Proof.
  intros Hr Hok. destruct (number_len r v Hr) as [(s & m & e & -> & Hl)|[Hsp Hl]].
  - destruct (number_mant r s m e Hr) as (Hla & Hz & Hp & Hm & <- & Hs & _). specialize (Hok _ _ _ eq_refl).
    eapply hpost_mono; [apply bf_round_normal; [apply Hr|lia|done]|]. intros res. apply result_is_equiv.
    apply bf_round_spec_ratio; try done. unfold ratio_eq. by rewrite !Z.mul_1_r.
  - rewrite bf_round_special by done. apply hpost_ret. right. destruct v as [| | |s m e]; [split; [apply Hr|done]..|]. by destruct (Hsp s m e).
Qed.
