(* ===== verification/BfCancel.v ===== *)
(** The cancelled bits of a difference in [libbf.c].

    [count_cancelled_bits] bounds from below the logarithm of the difference of
    two numbers whose exponents differ by one at most. *)
From Stdlib Require Import ZArith Lia Bool List.
From stdpp Require Import base tactics list numbers.
From S2P Require Import Prelude IntFmt Alloc Limb MpMul MpDiv Bf BfRound BfRatio BfRoundOk BfOps BfCmp.

(** * Leading zeros *)

Lemma clz_spec v : in_u64 v -> 0 <= clz v <= 64 /\ v < 2 ^ (64 - clz v) /\ (clz v = 64 \/ 2 ^ (63 - clz v) <= v).
Proof.
  intros Hv. unfold clz, clz64. red in Hv. change 18446744073709551616 with (2 ^ 64) in Hv. destruct (Z.eqb_spec v 0) as [->|Hz]; [change LIMB_BITS with 64; split; [lia|split; [reflexivity|by left]]|].
  pose proof (Z.log2_spec v ltac:(lia)) as [H1 H2]. assert (Z.log2 v < 64) by (apply Z.log2_lt_pow2; lia).
  pose proof (Z.log2_nonneg v). split; [lia|]. replace (64 - (63 - Z.log2 v)) with (Z.succ (Z.log2 v)) by lia.
  split; [done|]. right. by replace (63 - (63 - Z.log2 v)) with (Z.log2 v) by lia.
Qed.

Lemma clz_lt v : in_u64 v -> v <> 0 -> clz v < 64.
Proof.
  intros Hv Hz. destruct (clz_spec v Hv) as (H1 & H2 & _). destruct (Z.eq_dec (clz v) 64) as [E|]; [|lia].
  rewrite E in H2. change (2 ^ (64 - 64)) with 1 in H2. red in Hv. lia.
Qed.

Lemma lxor_u64 x y : in_u64 x -> in_u64 y -> in_u64 (Z.lxor x y).
Proof.
  unfold in_u64. intros [Hx Hx'] [Hy Hy']. assert (0 <= Z.lxor x y) as Hn by (apply Z.lxor_nonneg; lia). split; [done|].
  change 18446744073709551616 with (2 ^ 64) in *. destruct (Z.eq_dec (Z.lxor x y) 0) as [->|Hz]; [done|]. apply Z.log2_lt_pow2; [lia|].
  eapply Z.le_lt_trans; [apply Z.log2_lxor; lia|]. apply Z.max_lub_lt.
  - destruct (Z.eq_dec x 0) as [->|]; [done|]. apply Z.log2_lt_pow2; lia.
  - destruct (Z.eq_dec y 0) as [->|]; [done|]. apply Z.log2_lt_pow2; lia.
Qed.

(** * A number over another *)

(** The difference when the bits from [e] up differ by one. *)
Definition above (a b e : Z) : Z := 2 ^ e + a mod 2 ^ e - b mod 2 ^ e.

Lemma mod_pow_add v p q : 0 <= p -> 0 <= q -> v mod 2 ^ (p + q) = v mod 2 ^ p + 2 ^ p * ((v / 2 ^ p) mod 2 ^ q).
Proof. intros Hp Hq. rewrite Z.pow_add_r by lia. by rewrite Z.rem_mul_r by lia. Qed.

Lemma bits_at_low_bits v p q : 0 <= p -> 0 <= q <= 64 -> bits_at v p mod 2 ^ q = (v / 2 ^ p) mod 2 ^ q.
Proof.
  intros Hp Hq. unfold bits_at. rewrite Z.shiftr_div_pow2 by lia. apply Z.mod_mod_divide.
  exists (2 ^ (64 - q)). rewrite <- Z.pow_add_r by lia. unfold LB. f_equal. lia.
Qed.

Lemma complement_low x q : in_u64 x -> 0 <= q <= 64 -> (LB - 1 - x) mod 2 ^ q = 2 ^ q - 1 - x mod 2 ^ q.
Proof.
  intros Hx Hq. symmetry. apply Z.mod_unique with (2 ^ (64 - q) - 1 - x / 2 ^ q).
  - left. pose proof (Z.mod_pos_bound x (2 ^ q) ltac:(lia)). lia.
  - pose proof (Z.div_mod x (2 ^ q) ltac:(lia)) as E. assert (LB = 2 ^ (64 - q) * 2 ^ q) as -> by (unfold LB; rewrite <- Z.pow_add_r by lia; f_equal; lia). lia.
Qed.

Lemma complement_u64 x : in_u64 x -> in_u64 (LB - 1 - x).
Proof. rewrite !in_u64_LB. lia. Qed.

(** The search in the low [q] bits of one word. *)
Lemma above_word a b p q p1 :
  0 <= p -> 0 < q <= 64 ->
  p1 = Z.min (clz (bits_at a p mod 2 ^ q)) (clz ((LB - 1 - bits_at b p) mod 2 ^ q)) - (64 - q) ->
  0 <= p1 <= q /\ (p1 = q -> above a b (p + q) = above a b p) /\ (p1 < q -> 2 ^ (p + q - p1 - 1) <= above a b (p + q)).
Proof.
  intros Hp Hq ->. rewrite complement_low by (apply bits_at_range || lia). rewrite !bits_at_low_bits by lia.
  unfold above. rewrite !mod_pow_add, Z.pow_add_r by lia.
  pose proof (Z.mod_pos_bound (a / 2 ^ p) (2 ^ q) ltac:(lia)) as Hx. pose proof (Z.mod_pos_bound (b / 2 ^ p) (2 ^ q) ltac:(lia)) as Hy.
  pose proof (Z.mod_pos_bound a (2 ^ p) ltac:(lia)) as Ha. pose proof (Z.mod_pos_bound b (2 ^ p) ltac:(lia)) as Hb.
  remember ((a / 2 ^ p) mod 2 ^ q) as x eqn:Ex. remember (2 ^ q - 1 - (b / 2 ^ p) mod 2 ^ q) as y eqn:Ey.
  assert ((b / 2 ^ p) mod 2 ^ q = 2 ^ q - 1 - y) as -> by lia. assert (0 <= y < 2 ^ q) as Hy' by lia.
  remember (a mod 2 ^ p) as a0 eqn:Ea. remember (b mod 2 ^ p) as b0 eqn:Eb. clear Ex Ey Ea Eb Hy.
  assert (forall z, 0 <= z < 2 ^ q -> 64 - q <= clz z <= 64 /\ (clz z = 64 -> z = 0) /\ (clz z < 64 -> 2 ^ (63 - clz z) <= z)) as Hclz.
  { intros z Hz. destruct (clz_spec z) as (H1 & H2 & H3).
    { red. change 18446744073709551616 with (2 ^ 64). assert (2 ^ q <= 2 ^ 64) by (apply Z.pow_le_mono_r; lia). lia. }
    split; [split; [|lia]|split; [intros E; rewrite E in H2; change (2 ^ (64 - 64)) with 1 in H2; lia|intros ?; destruct H3; [lia|done]]].
    destruct H3 as [->|H3]; [lia|]. assert (63 - clz z < q); [|lia]. apply (Z.pow_lt_mono_r_iff 2); lia. }
  destruct (Hclz x Hx) as (X1 & X2 & X3). destruct (Hclz y Hy') as (Y1 & Y2 & Y3). remember (Z.min (clz x) (clz y)) as c eqn:Ec.
  split; [lia|]. split.
  - intros E. rewrite (X2 ltac:(lia)), (Y2 ltac:(lia)). ring.
  - intros E. replace (p + q - (c - (64 - q)) - 1) with (p + (63 - c)) by lia. rewrite Z.pow_add_r by lia.
    assert (2 ^ (63 - c) <= x + y); [|nia]. destruct (Z.min_spec (clz x) (clz y)) as [[_ Em]|[_ Em]]; rewrite Ec, Em.
    + specialize (X3 ltac:(lia)). lia.
    + specialize (Y3 ltac:(lia)). lia.
Qed.

(** The first bit that differs. *)
Lemma lxor_top_bit x y q :
  in_u64 x -> in_u64 y -> y < x -> 2 ^ q <= Z.lxor x y < 2 ^ (q + 1) -> 0 <= q -> x / 2 ^ q = y / 2 ^ q + 1.
Proof.
  intros Hx Hy Hlt [H1 H2] Hq. red in Hx, Hy.
  assert (forall n, 0 <= n -> Z.lxor x y / 2 ^ n = Z.lxor (x / 2 ^ n) (y / 2 ^ n)) as Hsh.
  { intros n Hn. by rewrite <- !Z.shiftr_div_pow2, Z.shiftr_lxor by lia. }
  assert (x / 2 ^ (q + 1) = y / 2 ^ (q + 1)) as Eh.
  { apply Z.lxor_eq_0_iff. rewrite <- Hsh by lia. apply Z.div_small. split; [|done]. apply Z.lxor_nonneg. lia. }
  assert (x / 2 ^ q <> y / 2 ^ q) as Hne.
  { intros E. specialize (Hsh q Hq). rewrite E, Z.lxor_nilpotent in Hsh. apply Z.div_small_iff in Hsh; [lia|]. lia. }
  rewrite Z.pow_add_r, <- !Z.div_div in Eh by lia. change (2 ^ 1) with 2 in Eh.
  assert (y / 2 ^ q <= x / 2 ^ q) as Hle by (apply Z.div_le_mono; lia). Z.to_euclidean_division_equations. lia.
Qed.

Lemma above_first a b p q :
  0 <= p -> b < a -> a / 2 ^ (p + 64) = b / 2 ^ (p + 64) -> bits_at a p <> bits_at b p -> q = 63 - clz (Z.lxor (bits_at a p) (bits_at b p)) ->
  0 <= q <= 63 /\ a - b = above a b (p + q).
Proof.
  intros Hp Hlt Eh Hne Eq. pose proof (bits_at_range a p) as Hx. pose proof (bits_at_range b p) as Hy.
  assert (in_u64 (Z.lxor (bits_at a p) (bits_at b p))) as Hz by (by apply lxor_u64).
  destruct (clz_spec _ Hz) as (C1 & C2 & C3). assert (Z.lxor (bits_at a p) (bits_at b p) <> 0) as Hnz by (by rewrite Z.lxor_eq_0_iff).
  assert (clz (Z.lxor (bits_at a p) (bits_at b p)) < 64) as C4 by (by apply clz_lt).
  split; [lia|]. pose proof (Z.div_mod a (2 ^ (p + 64)) ltac:(lia)) as Ea. pose proof (Z.div_mod b (2 ^ (p + 64)) ltac:(lia)) as Eb. rewrite Eh in Ea.
  rewrite mod_pow_add in Ea, Eb by lia. rewrite <- bits_at_low_bits in Ea, Eb by lia.
  rewrite (Z.mod_small (bits_at a p)) in Ea by done. rewrite (Z.mod_small (bits_at b p)) in Eb by done. unfold above. rewrite !mod_pow_add by lia. rewrite <- !bits_at_low_bits by lia.
  pose proof (Z.mod_pos_bound a (2 ^ p) ltac:(lia)) as Ha. pose proof (Z.mod_pos_bound b (2 ^ p) ltac:(lia)) as Hb.
  assert (bits_at b p < bits_at a p) as Hw by nia.
  assert (bits_at a p / 2 ^ q = bits_at b p / 2 ^ q + 1) as E.
  { apply lxor_top_bit; try done; [|lia]. replace (q + 1) with (64 - clz (Z.lxor (bits_at a p) (bits_at b p))) by lia. rewrite Eq. split; [|done]. destruct C3; [lia|done]. }
  pose proof (Z.div_mod (bits_at a p) (2 ^ q) ltac:(lia)) as Ex. pose proof (Z.div_mod (bits_at b p) (2 ^ q) ltac:(lia)) as Ey. rewrite E in Ex.
  rewrite Z.pow_add_r by lia. nia.
Qed.

(** * The count *)

Lemma u64_lnot x : in_u64 x -> u64 (Z.lnot x) = LB - 1 - x.
Proof. intros Hx. unfold u64, Z.lnot. red in Hx. symmetry. apply Z.mod_unique with (-1); [left; unfold LB; lia|unfold LB; lia]. Qed.

Section Count.
Context (a b : bf_t) (La : limbs (tab a)) (Lb : limbs (tab b)) (Sa : small_tab (tab a)) (Sb : small_tab (tab b)).
Context (Ed : 0 <= expn a - expn b <= 1).

(** The mantissas in [N] words: the lowest one is zero. *)
Abbreviation N := (len a + len b + 2).
Abbreviation A := (value (tab a) * 2 ^ (64 * (N - len a))).
Abbreviation B := (value (tab b) * 2 ^ (64 * (N - len b) - (expn a - expn b))).
Abbreviation b_offset := ((len b - len a) * LIMB_BITS - (LIMB_BITS - 1) + expn a - expn b).

Context (HAB : B < A < 2 ^ (64 * N)).

Lemma cancel_words_spec j : 0 <= j < N -> cancel_words a b b_offset (64 * (len a - N + j) + 63) = Ret (bits_at A (64 * j), bits_at B (64 * j)).
Proof.
  intros Hj. unfold small_tab, len in *. pose proof (zlen_nonneg (tab a)). pose proof (zlen_nonneg (tab b)). unfold cancel_words. change LIMB_BITS with 64. change LIMB_LOG2_BITS with 6.
  assert (Z.shiftr (64 * (zlen (tab a) - (zlen (tab a) + zlen (tab b) + 2) + j) + 63) 6 = zlen (tab a) - (zlen (tab a) + zlen (tab b) + 2) + j) as ->.
  { rewrite Z.shiftr_div_pow2 by lia. symmetry. apply Z.div_unique with 63; lia. }
  rewrite get_limbz_spec by (done || lia). cbn [obind]. rewrite get_bits_spec by (done || lia). cbn [obind]. do 2 f_equal.
  - symmetry. etransitivity; [|apply (bits_at_scale _ (64 * (zlen (tab a) + zlen (tab b) + 2 - zlen (tab a)))); lia]. f_equal. lia.
  - symmetry. etransitivity; [|apply (bits_at_scale _ (64 * (zlen (tab a) + zlen (tab b) + 2 - zlen (tab b)) - (expn a - expn b))); lia]. f_equal. lia.
Qed.

Lemma lowest_word v k : 64 <= k -> bits_at (v * 2 ^ k) (64 * 0) = 0.
Proof.
  intros Hk. unfold bits_at. change (64 * 0) with 0. rewrite Z.shiftr_0_r. replace k with (k - 64 + 64) by lia. rewrite Z.pow_add_r, Z.mul_assoc by lia.
  by apply Z.mod_mul.
Qed.

Lemma lowest_words : bits_at A (64 * 0) = 0 /\ bits_at B (64 * 0) = 0.
Proof. unfold len in *. pose proof (zlen_nonneg (tab a)). pose proof (zlen_nonneg (tab b)). split; apply lowest_word; lia. Qed.

Lemma cancel_equal_spec fuel :
  N <= Z.of_nat fuel ->
  post (iter fuel (cancel_equal a b b_offset) (0, len a * LIMB_BITS - 1)) (fun '(n, bo, v1, v2) =>
    exists j, 1 <= j < N /\ n = 64 * (N - 1 - j) /\ bo = 64 * (len a - N + j) + 63 /\ v1 = bits_at A (64 * j) /\ v2 = bits_at B (64 * j) /\
      v1 <> v2 /\ A / 2 ^ (64 * j + 64) = B / 2 ^ (64 * j + 64)).
Proof.
  intros Hfuel. assert (0 <= len a /\ 0 <= len b) as [Hl1 Hl2] by (split; apply zlen_nonneg).
  assert (0 <= B) as HB by (apply Z.mul_nonneg_nonneg; [apply value_bound; done|lia]).
  apply (post_iter (fun '(n, bo) => exists j, 0 <= j < N /\ n = 64 * (N - 1 - j) /\ bo = 64 * (len a - N + j) + 63 /\ A / 2 ^ (64 * j + 64) = B / 2 ^ (64 * j + 64))
    (fun s => Z.to_nat (N - 1 - s.1 / 64))).
  - intros [n bo] (j & Hj & -> & -> & E). unfold cancel_equal. rewrite cancel_words_spec by done. cbn [obind].
    destruct (Z.eqb_spec (bits_at A (64 * j)) (bits_at B (64 * j))) as [Ew|Hne]; cbn [negb].
    + assert (A / 2 ^ (64 * j) = B / 2 ^ (64 * j)) as E'.
      { rewrite (Z.div_mod (A / 2 ^ (64 * j)) LB), (Z.div_mod (B / 2 ^ (64 * j)) LB) by done. rewrite !Z.div_div by (unfold LB; lia).
        unfold LB at 2 5. rewrite <- !Z.pow_add_r, E by lia. rewrite <- !Z.shiftr_div_pow2 by lia. fold (bits_at A (64 * j)) (bits_at B (64 * j)). by rewrite Ew. }
      destruct (Z.eq_dec j 0) as [->|Hj0]; [exfalso; change (2 ^ (64 * 0)) with 1 in E'; rewrite !Z.div_1_r in E'; lia|].
      apply post_ret. split.
      * exists (j - 1). change LIMB_BITS with 64. split; [lia|]. split; [lia|]. split; [lia|]. by replace (64 * (j - 1) + 64) with (64 * j) by lia.
      * cbn [fst]. change LIMB_BITS with 64. rewrite (Z.mul_comm 64), Z.div_add_l, Z.div_mul, Z.div_same by done. lia.
    + apply post_ret. exists j. destruct lowest_words as [W1 W2]. split; [|done]. split; [|lia].
      destruct (Z.eq_dec j 0) as [->|]; [by rewrite W1, W2 in Hne|lia].
  - exists (N - 1). split; [lia|]. split; [lia|]. change LIMB_BITS with 64. split; [lia|]. replace (64 * (N - 1) + 64) with (64 * N) by lia. rewrite !Z.div_small by lia. done.
  - cbn [fst]. change (0 / 64) with 0. lia.
Qed.

Lemma cancel_borrow_spec fuel j :
  N <= Z.of_nat fuel -> 1 <= j < N -> A - B = above A B (64 * j) ->
  post (iter fuel (cancel_borrow a b b_offset) (64 * (N - j), 64 * (len a - N + (j - 1)) + 63)) (fun n =>
    0 <= n <= 64 * N /\ 64 * N - n <= Z.log2 (A - B) + 1).
Proof.
  intros Hfuel Hj0 HD0. assert (0 <= len a /\ 0 <= len b) as [Hl1 Hl2] by (split; apply zlen_nonneg).
  apply (post_iter (fun '(n, bo) => exists j, 1 <= j < N /\ n = 64 * (N - j) /\ bo = 64 * (len a - N + (j - 1)) + 63 /\ A - B = above A B (64 * j))
    (fun s => Z.to_nat (N - s.1 / 64))).
  - clear j Hj0 HD0. intros [n bo] (j & Hj & -> & -> & HD). unfold cancel_borrow. rewrite cancel_words_spec by lia. cbn [obind].
    rewrite u64_lnot by apply bits_at_range. replace (64 * j) with (64 * (j - 1) + 64) in HD by lia.
    pose proof (bits_at_range A (64 * (j - 1))) as Rx. pose proof (bits_at_range B (64 * (j - 1))) as Ry.
    assert (in_u64 (LB - 1 - bits_at B (64 * (j - 1)))) as Ry' by (by apply complement_u64).
    destruct (above_word A B (64 * (j - 1)) 64 _ ltac:(lia) ltac:(lia) eq_refl) as (P1 & P2 & P3).
    rewrite !(Z.mod_small _ (2 ^ 64)), Z.sub_diag, Z.sub_0_r in P1, P2, P3 by done. rewrite <- HD in P2, P3. u64_ranges.
    change (u64 (-1)) with (LB - 1). destruct lowest_words as [_ W2].
    destruct (Z.eqb_spec (bits_at A (64 * (j - 1))) 0) as [Ex|Hx], (Z.eqb_spec (bits_at B (64 * (j - 1))) (LB - 1)) as [Ey|Hy]; cbn [negb orb].
    1: { rewrite Ex, Ey in P2. change (LB - 1 - (LB - 1)) with 0 in P2. specialize (P2 eq_refl).
      assert (j <> 1) by (intros ->; change (64 * (1 - 1)) with (64 * 0) in Ey; rewrite W2 in Ey; unfold LB in Ey; lia). apply post_ret. split.
      - exists (j - 1). change LIMB_BITS with 64. split; [lia|]. split; [lia|]. split; [lia|]. done.
      - cbn [fst]. change LIMB_BITS with 64. rewrite (Z.mul_comm 64 (N - j)), Z.div_add_l, Z.div_mul, Z.div_same by done. lia. }
    all: apply post_ret; assert (Z.min (clz (bits_at A (64 * (j - 1)))) (clz (LB - 1 - bits_at B (64 * (j - 1)))) < 64) as Hlt by
      (apply Z.min_lt_iff; first [left; apply clz_lt; [exact Rx|exact Hx]|right; apply clz_lt; [exact Ry'|clear - Hy; lia]]).
    all: specialize (P3 Hlt); apply Z.log2_le_pow2 in P3; lia.
  - exists j. done.
  - cbn [fst]. rewrite (Z.mul_comm 64), Z.div_mul by done. lia.
Qed.

Lemma count_cancelled_bits_spec :
  post (count_cancelled_bits a b) (fun n => 0 <= n <= 64 * N /\ 64 * N - n <= Z.log2 (A - B) + 1).
Proof.
  assert (0 <= len a /\ 0 <= len b) as [Hl1 Hl2] by (split; apply zlen_nonneg). unfold count_cancelled_bits. cbv zeta.
  apply post_bind. eapply post_mono; [apply cancel_equal_spec; lia|]. intros [[[n bo] v1] v2] (j & Hj & -> & -> & -> & -> & Hne & Eh).
  pose proof (bits_at_range A (64 * j)) as Rx. pose proof (bits_at_range B (64 * j)) as Ry.
  destruct (above_first A B (64 * j) _ ltac:(lia) (proj1 HAB) Eh Hne eq_refl) as [Hq HD]. change LIMB_BITS with 64.
  remember (clz (Z.lxor (bits_at A (64 * j)) (bits_at B (64 * j)))) as c eqn:Ec. replace (64 - (c + 1)) with (63 - c) by lia. remember (63 - c) as q eqn:Eq.
  assert (64 * (N - 1 - j) + (c + 1) = 64 * (N - j) - q) as -> by lia. replace (64 * (len a - N + j) + 63 - 64) with (64 * (len a - N + (j - 1)) + 63) by lia.
  destruct (Z.ltb_spec 0 q) as [Hq0|Hq0].
  2: { assert (q = 0) as -> by lia. rewrite Z.sub_0_r. apply cancel_borrow_spec; [lia|done|]. by rewrite Z.add_0_r in HD. }
  rewrite u64_lnot by done. assert (in_u64 (LB - 1 - bits_at B (64 * j))) as Ry' by (by apply complement_u64).
  rewrite !limb_mask_low by (done || lia). replace (q - 1 + 1) with q by lia.
  destruct (above_word A B (64 * j) q _ ltac:(lia) ltac:(lia) eq_refl) as (P1 & P2 & P3). cbv zeta.
  remember (Z.min (clz (bits_at A (64 * j) mod 2 ^ q)) (clz ((LB - 1 - bits_at B (64 * j)) mod 2 ^ q)) - (64 - q)) as p1 eqn:Ep1. rewrite <- HD in P2, P3.
  destruct (Z.eqb_spec p1 q) as [->|Hp1]; cbn [negb].
  - replace (64 * (N - j) - q + q) with (64 * (N - j)) by lia. apply cancel_borrow_spec; [lia|done|by apply P2].
  - specialize (P3 ltac:(lia)). apply post_ret. split; [lia|]. apply Z.log2_le_pow2 in P3; lia.
Qed.
End Count.
