(* ===== verification/BfAdd.v ===== *)
(** The sum of the words of two mantissas in [libbf.c].

    The loops of [bf_add_internal]: the words below those of the result give a
    carry and a sticky bit, whatever the distance of the two numbers, and the others
    the words of the result. *)
From Stdlib Require Import ZArith Lia Bool List.
From stdpp Require Import base tactics list numbers.
From S2P Require Import Prelude IntFmt Alloc Limb MpMul MpDiv Bf BfRound BfRatio BfRoundOk BfOps BfCmp BfCancel.

(** * Sums of words *)

(** The addend [v], or its complement to [p] in a subtraction. *)
Definition addend (is_sub p v : Z) : Z := if is_sub =? 0 then v else p - v.

Definition is_bit (c : Z) : Prop := c = 0 \/ c = 1.

Lemma add_word_spec is_sub v1 v2 carry :
  is_bit is_sub -> in_u64 v1 -> in_u64 v2 -> is_bit carry ->
  let '(u, c) := add_word (u64 (- is_sub)) v1 v2 carry in
  in_u64 u /\ is_bit c /\ u + LB * c = v1 + addend is_sub (LB - 1) v2 + carry.
Proof.
  intros Hs H1 H2 Hc. unfold add_word, addend.
  assert (Z.lxor v2 (u64 (- is_sub)) = (if is_sub =? 0 then v2 else LB - 1 - v2)) as ->.
  { destruct Hs as [->| ->]; cbn [Z.eqb]; [apply Z.lxor_0_r|]. rewrite <- u64_lnot by done. change (u64 (Z.opp 1)) with (Z.ones 64).
    symmetry. unfold u64. change 18446744073709551616 with (2 ^ 64). rewrite <- Z.land_ones by done. apply Z.bits_inj'. intros n Hn.
    rewrite Z.land_spec, Z.lxor_spec, Z.lnot_spec by done. destruct (Z.lt_ge_cases n 64).
    - rewrite Z.ones_spec_low, andb_true_r, xorb_true_r by lia. done.
    - rewrite Z.ones_spec_high, andb_false_r, xorb_false_r by lia. symmetry. apply (testbit_high v2 64); [exact H2|lia|done]. }
  set (w := if is_sub =? 0 then v2 else LB - 1 - v2). assert (in_u64 w) as Hw by (unfold w; case_match; [done|by apply complement_u64]).
  destruct (carry_lor v1 w carry H1 Hw) as [E Hk]; [destruct Hc; lia|]. cbv zeta in E, Hk.
  split; [apply u64_range|]. split; [unfold is_bit; lia|lia].
Qed.

Lemma write_word t i u :
  limbs t -> 0 <= i < zlen t -> in_u64 u ->
  post (wr t i u) (fun t' => limbs t' /\ zlen t' = zlen t /\ value (take (Z.to_nat (i + 1)) t') = value (take (Z.to_nat i) t) + 2 ^ (64 * i) * u).
Proof.
  intros Hl Hi Hu. rewrite wr_in by done. apply post_ret. split; [by apply Forall_insert|].
  split; [unfold zlen; by rewrite length_insert|]. rewrite (value_take_S _ i u).
  - rewrite LB_pow2 by lia. by rewrite take_insert_ge by lia.
  - split; [lia|]. apply list_lookup_insert_eq. unfold zlen in Hi. lia.
Qed.

Section Words.
Context (a b : bf_t) (La : limbs (tab a)) (Lb : limbs (tab b)) (Sa : small_tab (tab a)) (Sb : small_tab (tab b)).
Context (Pa : 0 < len a) (Pb : 0 < len b).
Context (d tot rl is_sub : Z) (Hd : 0 <= d <= 2 ^ 62 + 2 ^ 60) (Hsub : is_bit is_sub).
Context (Htot : len a <= tot) (Htot_b : d <= 64 * (tot - len b)) (Hmax : tot = len a \/ 64 * (tot - len b) - d < 64).
Context (Hrl : 0 < rl <= tot).

Abbreviation a_offset := (len a - rl).
Abbreviation b_bit_offset := ((len b - rl) * LIMB_BITS + d).
Abbreviation m := (tot - rl).

(** The two mantissas in [tot] words. *)
Definition ext_a : Z := value (tab a) * 2 ^ (64 * (tot - len a)).
Definition ext_b : Z := value (tab b) * 2 ^ (64 * (tot - len b) - d).

Lemma len_small : len a <= 2 ^ 50 /\ len b <= 2 ^ 50 /\ tot <= 2 ^ 57.
Proof. unfold small_tab, len in *. lia. Qed.

Lemma ext_range : 0 <= ext_a < 2 ^ (64 * tot) /\ 0 <= ext_b < 2 ^ (64 * tot - d).
Proof.
  pose proof (value_bound _ La) as Ha. pose proof (value_bound _ Lb) as Hb. unfold base_pow in Ha, Hb. fold (len a) in Ha. fold (len b) in Hb.
  rewrite LB_pow2 in Ha, Hb by lia. unfold ext_a, ext_b.
  replace (64 * tot) with (64 * len a + 64 * (tot - len a)) at 1 by lia.
  replace (64 * tot - d) with (64 * len b + (64 * (tot - len b) - d)) at 1 by lia.
  rewrite !Z.pow_add_r by lia. split; (split; [apply Z.mul_nonneg_nonneg; lia|apply Z.mul_lt_mono_pos_r; lia]).
Qed.

Lemma scaled_bits v k p : 0 <= k -> bits_at (v * 2 ^ k) p = bits_at v (p - k).
Proof. intros Hk. replace p with (p - k + k) at 1 by lia. by apply bits_at_scale. Qed.

Lemma word_a n : bits_at ext_a (64 * n) = bits_at (value (tab a)) (64 * (n - (tot - len a))).
Proof. unfold ext_a. rewrite scaled_bits by lia. f_equal. lia. Qed.

Lemma word_b n : bits_at ext_b (64 * n) = bits_at (value (tab b)) ((len b - tot) * 64 + d + 64 * n).
Proof. unfold ext_b. rewrite scaled_bits by lia. f_equal. lia. Qed.

(** The sum of the low [n] words. *)
Definition lowsum (n : Z) : Z := ext_a mod 2 ^ (64 * n) + addend is_sub (2 ^ (64 * n)) (ext_b mod 2 ^ (64 * n)).

Lemma lowsum_next n :
  0 <= n -> lowsum (n + 1) = lowsum n + 2 ^ (64 * n) * (bits_at ext_a (64 * n) + addend is_sub (LB - 1) (bits_at ext_b (64 * n))).
Proof.
  intros Hn. unfold lowsum, addend. rewrite !low_words by done. assert (2 ^ (64 * (n + 1)) = 2 ^ (64 * n) * LB) as ->.
  { unfold LB. rewrite <- Z.pow_add_r by lia. f_equal. lia. }
  destruct (is_sub =? 0); ring.
Qed.

(** The low [n] words are [S] and the carry, and [z] says whether [S] is zero. *)
Definition low_sum_is (n carry z S : Z) : Prop :=
  is_bit carry /\ 0 <= S < 2 ^ (64 * n) /\ lowsum n = S + 2 ^ (64 * n) * carry /\ (z = 0 <-> S = 0).

Lemma low_sum_0 : low_sum_is 0 is_sub 0 0.
Proof.
  split; [done|]. split; [by vm_compute|]. split; [|done]. unfold lowsum, addend. change (2 ^ (64 * 0)) with 1. rewrite !Z.mod_1_r.
  by destruct Hsub as [->| ->].
Qed.

Lemma low_sum_word n carry z S :
  0 <= n -> low_sum_is n carry z S ->
  let '(u, c) := add_word (u64 (- is_sub)) (bits_at ext_a (64 * n)) (bits_at ext_b (64 * n)) carry in
  in_u64 u /\ low_sum_is (n + 1) c (Z.lor z u) (S + 2 ^ (64 * n) * u).
Proof.
  intros Hn (Hc & HS & E & Hz). pose proof (add_word_spec is_sub _ _ carry Hsub (bits_at_range ext_a (64 * n)) (bits_at_range ext_b (64 * n)) Hc) as H.
  destruct (add_word _ _ _ _) as [u c]. destruct H as (Hu & Hc' & Eu). split; [done|]. u64_ranges.
  assert (2 ^ (64 * (n + 1)) = 2 ^ (64 * n) * LB) as EP by (unfold LB; rewrite <- Z.pow_add_r by lia; f_equal; lia).
  unfold low_sum_is. rewrite lowsum_next, EP, E by done. remember (2 ^ (64 * n)) as P eqn:HP. assert (0 < P) by lia. clear HP.
  split; [done|]. split; [nia|]. split.
  - replace (S + P * carry + P * (bits_at ext_a (64 * n) + addend is_sub (LB - 1) (bits_at ext_b (64 * n))))
      with (S + P * (bits_at ext_a (64 * n) + addend is_sub (LB - 1) (bits_at ext_b (64 * n)) + carry)) by ring. rewrite <- Eu. ring.
  - rewrite Z.lor_eq_0_iff, Hz. nia.
Qed.

(** Words that are zero in both numbers, above [b] and below [a]. *)
Lemma low_sum_gap n n' carry z S :
  0 <= n < n' -> n' <= tot - len a -> ext_b < 2 ^ (64 * n) -> low_sum_is n carry z S ->
  let '(u, c) := add_word (u64 (- is_sub)) 0 0 carry in exists S', low_sum_is n' c (Z.lor z u) S'.
Proof.
  intros Hn Hn' HB (Hc & HS & E & Hz). destruct ext_range as [_ HB0]. pose proof (add_word_spec is_sub 0 0 carry Hsub ltac:(done) ltac:(done) Hc) as H.
  destruct (add_word _ _ _ _) as [u c]. destruct H as (Hu & Hc' & Eu). u64_ranges.
  assert (2 ^ (64 * n') = 2 ^ (64 * n) * 2 ^ (64 * (n' - n))) as EP by (rewrite <- Z.pow_add_r by lia; f_equal; lia).
  assert (2 <= 2 ^ (64 * (n' - n))) as HQ by (change 2 with (2 ^ 1) at 1; apply Z.pow_le_mono_r; lia).
  assert (forall k, k <= tot - len a -> 0 <= k -> ext_a mod 2 ^ (64 * k) = 0) as Hlow.
  { intros k Hk Hk0. unfold ext_a. replace (64 * (tot - len a)) with (64 * (tot - len a - k) + 64 * k) by lia.
    rewrite Z.pow_add_r, Z.mul_assoc by lia. apply Z.mod_mul. lia. }
  assert (ext_b < 2 ^ (64 * n')) as HB' by nia. unfold low_sum_is, lowsum, addend in *. rewrite !Hlow in * by lia.
  rewrite (Z.mod_small ext_b) in * by lia. rewrite EP. remember (2 ^ (64 * n)) as P eqn:HP. remember (2 ^ (64 * (n' - n))) as Q eqn:HQ'. clear HP HQ' EP Hlow.
  destruct Hsub as [->| ->]; cbn [Z.eqb] in *; destruct Hc as [->| ->]; rewrite ?Z.mul_0_r, ?Z.mul_1_r, ?Z.add_0_r, ?Z.add_0_l in *.
  - assert (u = 0 /\ c = 0) as [-> ->] by (destruct Hc' as [->| ->]; lia). exists S. rewrite Z.lor_0_r, Z.mul_0_r, Z.add_0_r. split; [by left|]. split; [nia|]. done.
  - assert (u = 1 /\ c = 0) as [-> ->] by (destruct Hc' as [->| ->]; unfold LB in *; lia). exists (S + P).
    rewrite Z.mul_0_r, Z.add_0_r, Z.lor_eq_0_iff. split; [by left|]. split; [nia|]. split; [done|]. nia.
  - assert (u = LB - 1 /\ c = 0) as [-> ->] by (destruct Hc' as [->| ->]; lia). exists (P * Q - ext_b).
    rewrite Z.mul_0_r, Z.add_0_r, Z.lor_eq_0_iff. split; [by left|]. split; [nia|]. split; [done|]. unfold LB. nia.
  - assert (u = 0 /\ c = 1) as [-> ->] by (destruct Hc' as [->| ->]; lia). exists S. rewrite Z.lor_0_r, Z.mul_1_r. split; [by right|]. split; [nia|]. split; [lia|done].
Qed.

(** ** The words below the result *)

(** A bound on the rounds left at the word [n]: the words of [b], those of [a], and the gap. *)
Definition rounds_left (n : Z) : Z :=
  Z.max 0 (len b + 1 - n) + (tot - Z.max n (tot - len a)) + (if n <? Z.min m (tot - len a) then 1 else 0).

Definition low_state : Z * Z * Z -> Prop := fun '(i, carry, z) =>
  0 <= i + m <= m /\ exists S, low_sum_is (i + m) carry z S.

Lemma limb_a n : 0 <= n < tot ->
  (if (0 <=? n - (tot - len a)) && (n - (tot - len a) <? len a) then rd (tab a) (n - (tot - len a)) else Ret 0) = Ret (bits_at ext_a (64 * n)).
Proof.
  intros Hn. rewrite word_a. rewrite (proj2 (Z.ltb_lt (n - (tot - len a)) (len a))), andb_true_r by lia. destruct (Z.leb_spec 0 (n - (tot - len a))).
  - destruct (at_exists (tab a) (n - (tot - len a))) as [x Hx]; [unfold len in *; lia|]. by rewrite (rd_at _ _ _ Hx), (word_at _ _ _ La Hx).
  - by rewrite bits_at_low by lia.
Qed.

Lemma bits_b pos : - 2 ^ 63 <= pos <= 2 ^ 63 ->
  (if (0 <? pos + LIMB_BITS) && (pos <? len b * LIMB_BITS) then get_bits (tab b) pos else Ret 0) = Ret (bits_at (value (tab b)) pos).
Proof.
  intros Hp. change LIMB_BITS with 64. pose proof (value_bound _ Lb) as Hb. unfold base_pow in Hb. rewrite LB_pow2 in Hb by apply zlen_nonneg.
  destruct (Z.ltb_spec 0 (pos + 64)); cbn [andb]; [|by rewrite bits_at_low by lia].
  destruct (Z.ltb_spec pos (len b * 64)); [by apply get_bits_spec|]. rewrite (bits_at_high _ (64 * zlen (tab b))); [done|done|unfold len in *; lia].
Qed.

Lemma add_low_step_spec s :
  low_state s ->
  post (add_low_step a b a_offset b_bit_offset (u64 (- is_sub)) s) (fun r => match r with
    | inl s' => low_state s' /\ (Z.to_nat (rounds_left (s'.1.1 + m)) < Z.to_nat (rounds_left (s.1.1 + m)))%nat
    | inr (carry, z) => exists S, low_sum_is m carry z S
    end).
Proof.
  destruct s as [[i carry] z]. intros [Hi [S HS]]. unfold add_low_step. destruct len_small as (Z1 & Z2 & Z3).
  destruct (Z.ltb_spec i 0) as [Hi0|Hi0]; [|apply post_ret; exists S; by replace m with (i + m) at 1 by lia].
  remember (i + m) as n eqn:En. replace (a_offset + i) with (n - (tot - len a)) by lia.
  assert (b_bit_offset + i * LIMB_BITS = (len b - tot) * 64 + d + 64 * n) as -> by (change LIMB_BITS with 64; lia).
  rewrite limb_a, bits_b by lia. cbn [obind]. rewrite <- word_b.
  rewrite (proj2 (Z.ltb_lt (n - (tot - len a)) (len a))), andb_true_r by lia. change LIMB_BITS with 64.
  remember ((0 <=? n - (tot - len a)) || ((0 <? (len b - tot) * 64 + d + 64 * n + 64) && ((len b - tot) * 64 + d + 64 * n <? len b * 64))) as ins eqn:Eins.
  destruct ins.
  - pose proof (low_sum_word n carry z S ltac:(lia) HS) as H. destruct (add_word _ _ _ _) as [u c]. destruct H as [_ H].
    apply post_ret. cbn [fst low_state]. replace (i + 1 + m) with (n + 1) by lia. split; [split; [lia|by eexists]|].
    symmetry in Eins. apply orb_true_iff in Eins. rewrite andb_true_iff, Z.leb_le, !Z.ltb_lt in Eins. unfold rounds_left.
    rewrite <- En. destruct (Z.ltb_spec (n + 1) (Z.min m (tot - len a))), (Z.ltb_spec n (Z.min m (tot - len a))); lia.
  - symmetry in Eins. apply orb_false_iff in Eins. rewrite andb_false_iff, Z.leb_gt, !Z.ltb_ge in Eins. destruct Eins as [G1 G2].
    assert (len b * 64 <= (len b - tot) * 64 + d + 64 * n) as G3 by lia. clear G2.
    rewrite (proj2 (Z.ltb_lt (n - (tot - len a)) 0)), (proj2 (Z.leb_gt ((len b - tot) * 64 + d + 64 * n + 64) 0)) by lia.
    assert (bits_at ext_a (64 * n) = 0) as -> by (rewrite word_a; apply bits_at_low; lia).
    assert (ext_b < 2 ^ (64 * n)) as HB.
    { destruct ext_range as [_ [_ HB]]. eapply Z.lt_le_trans; [exact HB|]. apply Z.pow_le_mono_r; lia. }
    assert (bits_at ext_b (64 * n) = 0) as -> by (apply (bits_at_high _ (64 * n)); [split; [apply ext_range|done]|lia]).
    remember (Z.min 0 (- a_offset)) as i' eqn:Ei'. assert (i' + m = Z.min m (tot - len a)) as En' by lia.
    pose proof (low_sum_gap n (i' + m) carry z S ltac:(lia) ltac:(lia) HB HS) as H. destruct (add_word _ _ _ _) as [u c].
    apply post_ret. cbn [fst low_state]. split; [split; [lia|done]|]. unfold rounds_left. rewrite <- En, En'.
    rewrite Z.ltb_irrefl, (proj2 (Z.ltb_lt n _)) by lia. lia.
Qed.

Lemma add_low_spec :
  post (iter (Z.to_nat (len a + len b + 5)) (add_low_step a b a_offset b_bit_offset (u64 (- is_sub))) (rl - tot, is_sub, 0))
    (fun '(carry, z) => exists S, low_sum_is m carry z S).
Proof.
  apply (post_iter low_state (fun s => Z.to_nat (rounds_left (s.1.1 + m)))).
  - apply add_low_step_spec.
  - split; [lia|]. exists 0. replace (rl - tot + m) with 0 by lia. apply low_sum_0.
  - cbn [fst]. replace (rl - tot + m) with 0 by lia. unfold rounds_left. case_match; lia.
Qed.

(** ** The words of the result *)

Lemma add_high_spec t carry z S :
  limbs t -> zlen t = rl -> low_sum_is m carry z S ->
  post (ofold (add_high_step a b a_offset b_bit_offset (u64 (- is_sub))) (t, carry) (seqZ 0 rl)) (fun '(t', c) =>
    limbs t' /\ zlen t' = rl /\ is_bit c /\ lowsum tot = S + 2 ^ (64 * m) * (value t' + 2 ^ (64 * rl) * c)).
Proof.
  intros Hl Hz HS. destruct len_small as (Z1 & Z2 & Z3).
  set (P := fun i '((t', c) : list Z * Z) => limbs t' /\ zlen t' = rl /\ is_bit c /\
    lowsum (m + i) = S + 2 ^ (64 * m) * (value (take (Z.to_nat i) t') + 2 ^ (64 * i) * c)).
  eapply post_mono; [apply (post_for _ P 0 rl); [lia| |]|].
  - intros i [t0 c0] Hi (Hl0 & Hz0 & Hc0 & E). unfold add_high_step. rewrite get_limbz_spec by (done || lia).
    cbn [obind]. change LIMB_BITS with 64. rewrite get_bits_spec by (done || lia). cbn [obind].
    pose proof (add_word_spec is_sub (bits_at ext_a (64 * (m + i))) (bits_at ext_b (64 * (m + i))) c0 Hsub (bits_at_range _ _) (bits_at_range _ _) Hc0) as H.
    pose proof (lowsum_next (m + i) ltac:(lia)) as En. rewrite E in En. replace (m + i + 1) with (m + (i + 1)) in En by lia.
    rewrite word_a, word_b in *. replace (m + i - (tot - len a)) with (a_offset + i) in * by lia.
    replace ((len b - tot) * 64 + d + 64 * (m + i)) with ((len b - rl) * 64 + d + i * 64) in * by lia.
    destruct (add_word _ _ _ _) as [u c]. destruct H as (Hu & Hc & Eu).
    apply post_bind. eapply post_mono; [apply (write_word t0 i u); done || lia|]. intros t1 (Hl1 & Hz1 & Hv1). apply post_ret. unfold P.
    split; [done|]. split; [lia|]. split; [done|]. rewrite En, Hv1. replace (64 * (i + 1)) with (64 * i + 64) by lia. replace (64 * (m + i)) with (64 * m + 64 * i) by lia.
    rewrite !Z.pow_add_r by lia. fold LB.
    replace (bits_at (value (tab a)) (64 * (a_offset + i)) + addend is_sub (LB - 1) (bits_at (value (tab b)) ((len b - rl) * 64 + d + i * 64))) with (u + LB * c - c0) by lia.
    ring.
  - split; [done|]. split; [done|]. split; [apply HS|]. rewrite Z.add_0_r. destruct HS as (_ & _ & -> & _). change (value (take (Z.to_nat 0) t)) with 0.
    change (2 ^ (64 * 0)) with 1. ring.
  - intros [t' c] (Hl' & Hz' & Hc & E). split; [done|]. split; [done|]. split; [done|]. rewrite !Z.add_0_l in E. replace (m + rl) with tot in E by lia.
    rewrite E. rewrite firstn_all2; [done|]. unfold zlen in Hz'. lia.
Qed.
End Words.
