(* ===== verification/BfSum.v ===== *)
(** The sum and the difference of the numbers of [libbf.c] are correctly rounded.

    [add_spec] is the operation on values, special values included.  The theorem
    is about every mode, precision and format, on any two operands unless an
    unlimited precision meets exponents that are very far from each other. *)
From Stdlib Require Import ZArith Lia Bool List Setoid.
From stdpp Require Import base tactics list numbers.
From S2P Require Import Prelude IntFmt Alloc Limb MpMul MpDiv Bf BfRound BfRatio BfRoundOk BfOps BfCmp BfMulDiv BfCancel BfAdd.

(** * The rounding of a sum *)

Lemma lor_1_even x y : 0 <= x -> 0 <= y -> Z.lor (x + 2 * y) 1 = Z.lor x 1 + 2 * y.
Proof. intros Hx Hy. rewrite !lor_1 by lia. replace (x + 2 * y) with (x + y * 2) by lia. rewrite Z.div_add by lia. lia. Qed.

Lemma sticky_1 T : sticky T 1 = T.
Proof. unfold sticky. by rewrite Z.mod_1_r, Z.div_1_r. Qed.

Lemma sticky_split P V S z : 0 <= S < P -> (z = 0 <-> S = 0) -> sticky (S + P * V) P = if z =? 0 then V else Z.lor V 1.
Proof.
  intros HS Hz. unfold sticky. rewrite (Z.mul_comm P), Z.mod_add, Z.div_add, Z.mod_small, Z.div_small, Z.add_0_l by lia.
  destruct (Z.eqb_spec S 0), (Z.eqb_spec z 0); done || lia.
Qed.

(** The code sets the lowest bit of the result. *)
Lemma set_sticky t z :
  limbs t -> 0 < zlen t ->
  post (rd t 0) (fun x => post (wr t 0 (Z.lor x (b2z (negb (z =? 0))))) (fun t' =>
    limbs t' /\ zlen t' = zlen t /\ value t' = if z =? 0 then value t else Z.lor (value t) 1)).
Proof.
  intros Hl Hz. destruct t as [|x t]; [done|]. inversion_clear Hl as [|? ? Hx Ht]. u64_ranges. change (rd (x :: t) 0) with (Ret x). cbn [post].
  assert (forall y, wr (x :: t) 0 y = Ret (y :: t)) as Hw by (intros y; by apply (wr_app [])). rewrite Hw. cbn [post].
  pose proof (value_bound t Ht). destruct (Z.eqb_spec z 0); cbn [negb b2z].
  - rewrite Z.lor_0_r. split; [by constructor|done].
  - split; [|split; [done|apply value_lor_1; lia]]. constructor; [|done]. by apply (lor_bound 64).
Qed.

(** The mantissa of the result stands for the sum [T], in units of [2 ^ (ex - 64 * tot)]. *)
Section Rounded.
Context `{SHG : ShrinkGranted}.

Lemma add_rounded r T ex tot rl n prec flags :
  op_format prec flags -> limbs (tab r) -> 64 * len r <= 2 ^ 60 -> expn r - 64 * len r = ex - 64 * rl -> - 2 ^ 61 < ex <= 2 ^ 61 ->
  0 < rl <= tot -> 64 * rl <= 2 ^ 60 -> 0 < T -> 64 * tot - n <= Z.log2 T + 1 -> 0 <= n -> rl = tot \/ n + prec + 2 <= 64 * rl ->
  value (tab r) = sticky T (2 ^ (64 * (tot - rl))) ->
  hpost (bf_normalize_and_round r prec flags) (result_is (bf_round_spec (sign r) T 1 (ex - 64 * tot) prec flags)).
Proof.
  intros Hf Hl Hlen Hex Hrange Hrl Hrl2 HT Hlog Hn Hprec Hv. set (P := 2 ^ (64 * (tot - rl))) in *. pose proof Hf as (_ & _ & Hp & Hrad & _).
  assert (P <= T) as HPT.
  { destruct Hprec as [->|Hprec]; [unfold P; rewrite Z.sub_diag; lia|]. pose proof (Z.log2_spec T HT) as [H _].
    eapply Z.le_trans; [|exact H]. apply Z.pow_le_mono_r; lia. }
  assert (0 < P) as HP by (unfold P; lia). destruct (sticky_spec T P HP ltac:(lia)) as (HS & _ & _). cbv zeta in HS.
  assert (1 <= T / P) as HTP by (apply Z.div_le_lower_bound; lia). pose proof (value_bound _ Hl) as Hb. unfold base_pow in Hb. fold (len r) in Hb.
  rewrite LB_pow2 in Hb by apply zlen_nonneg.
  assert (0 <= Z.log2 (value (tab r)) < 64 * len r) as Hlv by (split; [apply Z.log2_nonneg|apply Z.log2_lt_pow2; lia]).
  eapply hpost_mono; [apply bf_normalize_and_round_spec; [done|done|]|].
  - intros _. apply op_rounding_ok; [done|]. lia.
  - intros res. unfold normalize_spec. rewrite Hv, (proj2 (Z.eqb_neq _ 0)), Hex by lia. apply result_is_equiv.
    assert (ratio_eq T P (ex - 64 * rl) T 1 (ex - 64 * tot)) as Hr.
    { unfold ratio_eq. rewrite Z.mul_1_r. apply same_number_ge; [lia|]. unfold P. do 2 f_equal. lia. }
    transitivity (bf_round_spec (sign r) T P (ex - 64 * rl) prec flags); [|by apply bf_round_spec_ratio].
    destruct Hprec as [->|Hprec].
    + assert (P = 1) as -> by (unfold P; by rewrite Z.sub_diag). by rewrite sticky_1.
    + apply bf_round_spec_sticky; [done|done|]. rewrite (ratio_exponent_eq _ _ _ _ _ _ HT HP HT Z.lt_0_1 Hr), ratio_exponent_int by done.
      pose proof (spec_prec_le (ex - 64 * tot + Z.log2 T + 1) prec flags Hrad). lia.
Qed.
End Rounded.

(** * The sum of two numbers *)

Section Numbers.
Context (a b : bf_t) (sa ma ea sb mb eb is_sub : Z) (Ha : number a (V_num sa ma ea)) (Hb : number b (V_num sb mb eb)).
Context (Hsub : is_bit is_sub) (Hd : expn b <= expn a).

Abbreviation d := (expn a - expn b).

Definition total_len : Z := Z.max (len a) (len b + (d + LIMB_BITS - 1) / LIMB_BITS).
Abbreviation A := (ext_a a total_len).
Abbreviation B := (ext_b b d total_len).

(** The sum or the difference, of unit [2 ^ (expn a - 64 * total_len)]. *)
Definition total : Z := if is_sub =? 0 then A + B else A - B.

Context (Hpos : is_sub = 1 -> B < A).

Lemma total_len_spec :
  0 <= d <= 2 ^ 62 + 2 ^ 60 /\ len a <= total_len /\ d <= 64 * (total_len - len b) /\
  (total_len = len a \/ 64 * (total_len - len b) - d < 64) /\ 0 < total_len <= 2 ^ 50 + (d + 63) / 64.
Proof.
  destruct (number_mant a sa ma ea Ha) as (_ & Hza & _ & _ & _ & _ & _ & Hea). destruct (number_mant b sb mb eb Hb) as (_ & Hzb & _ & _ & _ & _ & _ & Heb).
  unfold total_len. change LIMB_BITS with 64. replace (d + 64 - 1) with (d + 63) by lia.
  pose proof (Z.div_mod (d + 63) 64 ltac:(lia)). pose proof (Z.mod_pos_bound (d + 63) 64 ltac:(lia)). lia.
Qed.

Lemma operands_range : 2 ^ (64 * total_len - 1) <= A < 2 ^ (64 * total_len) /\ 0 < B < 2 ^ (64 * total_len - d).
Proof.
  destruct total_len_spec as (D1 & D2 & D3 & D4 & D5).
  destruct (number_mant a sa ma ea Ha) as (La & Hza & _ & _ & _ & _ & Hba & _). destruct (number_mant b sb mb eb Hb) as (Lb & Hzb & Hpb & _).
  destruct (ext_range a b La Lb ltac:(lia) ltac:(lia) d total_len D1 D2 D3) as [RA RB]. split; [split; [|lia]|split; [|lia]].
  - unfold ext_a. replace (64 * total_len - 1) with ((64 * len a - 1) + 64 * (total_len - len a)) by lia. rewrite Z.pow_add_r by lia.
    apply Z.mul_le_mono_nonneg_r; lia.
  - unfold ext_b. apply Z.mul_pos_pos; lia.
Qed.

Lemma total_range : 0 < total < 2 ^ (64 * total_len + 1).
Proof.
  destruct operands_range as [RA RB]. destruct total_len_spec as (D1 & _ & _ & _ & D5). unfold total.
  assert (2 ^ (64 * total_len - d) <= 2 ^ (64 * total_len)) by (apply Z.pow_le_mono_r; lia).
  rewrite Z.pow_add_r by lia. change (2 ^ 1) with 2. destruct Hsub as [->| ->]; cbn [Z.eqb]; [lia|]. specialize (Hpos eq_refl). lia.
Qed.

(** The sum has at most [n] leading zeros. *)
Lemma cancelled_spec :
  post (if negb (is_sub =? 0) then if d <=? 1 then count_cancelled_bits a b else Ret 1 else Ret 0) (fun n =>
    0 <= n <= 2 ^ 58 /\ 64 * total_len - n <= Z.log2 total + 1).
Proof.
  destruct operands_range as [RA RB]. pose proof total_range as RT. destruct total_len_spec as (D1 & D2 & D3 & D4 & D5).
  unfold total in *. destruct Hsub as [Es|Es]; rewrite Es in *; cbn [Z.eqb negb] in *.
  { apply post_ret. split; [lia|]. assert (64 * total_len - 1 <= Z.log2 (A + B)); [|lia]. apply Z.log2_le_pow2; lia. }
  specialize (Hpos eq_refl). destruct (Z.leb_spec d 1) as [Hd1|Hd1].
  - destruct (number_mant a sa ma ea Ha) as (La & Hza & _). destruct (number_mant b sb mb eb Hb) as (Lb & Hzb & _).
    set (N := len a + len b + 2). assert (total_len <= N) as HN by (unfold N; lia).
    assert (value (tab a) * 2 ^ (64 * (N - len a)) = A * 2 ^ (64 * (N - total_len))) as EA.
    { unfold ext_a. rewrite <- Z.mul_assoc, <- Z.pow_add_r by lia. do 2 f_equal. lia. }
    assert (value (tab b) * 2 ^ (64 * (N - len b) - d) = B * 2 ^ (64 * (N - total_len))) as EB.
    { unfold ext_b. rewrite <- Z.mul_assoc, <- Z.pow_add_r by lia. do 2 f_equal. lia. }
    eapply post_mono; [apply count_cancelled_bits_spec; try done; [apply Ha|apply Hb|lia|]|].
    + fold N. rewrite EA, EB. split; [apply Z.mul_lt_mono_pos_r; lia|]. replace (64 * N) with (64 * total_len + 64 * (N - total_len)) by lia.
      rewrite Z.pow_add_r by lia. apply Z.mul_lt_mono_pos_r; lia.
    + fold N. rewrite EA, EB, <- Z.mul_sub_distr_r. intros n [Hn Hlog]. rewrite Z.log2_mul_pow2 in Hlog by lia. lia.
  - apply post_ret. split; [lia|]. assert (64 * total_len - 2 <= Z.log2 (A - B)); [|lia]. apply Z.log2_le_pow2; [lia|].
    assert (2 ^ (64 * total_len - d) <= 2 ^ (64 * total_len - 2)) by (apply Z.pow_le_mono_r; lia).
    assert (2 ^ (64 * total_len - 1) = 2 * 2 ^ (64 * total_len - 2)) by (rewrite <- Z.pow_succ_r by lia; f_equal; lia). lia.
Qed.

(** The total is the words of the result, the carry, and those below. *)
Lemma total_words rl t c z S :
  0 < rl <= total_len -> limbs t -> zlen t = rl -> is_bit c -> 0 <= S < 2 ^ (64 * (total_len - rl)) -> (z = 0 <-> S = 0) ->
  lowsum a b d total_len is_sub total_len = S + 2 ^ (64 * (total_len - rl)) * (value t + 2 ^ (64 * rl) * c) ->
  sticky total (2 ^ (64 * (total_len - rl))) =
    (if z =? 0 then value t else Z.lor (value t) 1) + (if (is_sub =? 0) && negb (c =? 0) then 2 ^ (64 * rl) else 0).
Proof.
  intros Hrl Hl Hz Hc HS Hz0 E. pose proof total_range as RT. destruct operands_range as [RA RB]. destruct total_len_spec as (D1 & D2 & D3 & D4 & D5).
  pose proof (value_bound t Hl) as Ht. unfold base_pow in Ht. rewrite Hz, LB_pow2 in Ht by lia.
  assert (2 ^ (64 * total_len - d) <= 2 ^ (64 * total_len)) by (apply Z.pow_le_mono_r; lia).
  assert (total + (if is_sub =? 0 then 0 else 2 ^ (64 * total_len)) = S + 2 ^ (64 * (total_len - rl)) * (value t + 2 ^ (64 * rl) * c)) as ET.
  { rewrite <- E. unfold lowsum, addend, total. rewrite !(Z.mod_small _ (2 ^ (64 * total_len))) by lia. destruct (is_sub =? 0); ring. }
  assert (2 ^ (64 * total_len) = 2 ^ (64 * (total_len - rl)) * 2 ^ (64 * rl)) as EP by (rewrite <- Z.pow_add_r by lia; f_equal; lia).
  assert (2 ^ (64 * rl) = 2 * 2 ^ (64 * rl - 1)) as EQ by (rewrite <- Z.pow_succ_r by lia; f_equal; lia).
  assert (total = S + 2 ^ (64 * (total_len - rl)) * (value t + (if (is_sub =? 0) && negb (c =? 0) then 2 ^ (64 * rl) else 0))) as EV.
  { destruct (Z.eqb_spec is_sub 0) as [Es|Es]; cbn [andb].
    - destruct Hc as [-> | ->]; cbn [Z.eqb negb]; lia.
    - assert (is_sub = 1) as Es1 by (destruct Hsub; done). specialize (Hpos Es1). assert (total < 2 ^ (64 * total_len)) as HT2.
      { unfold total. rewrite (proj2 (Z.eqb_neq is_sub 0) Es). lia. }
      destruct Hc as [-> | ->]; [exfalso; rewrite EP in ET; nia|]. rewrite EP in ET. lia. }
  rewrite EV, (sticky_split _ _ _ z HS Hz0). destruct (z =? 0); [done|].
  destruct ((is_sub =? 0) && negb (c =? 0)); [|by rewrite !Z.add_0_r]. rewrite EQ. apply lor_1_even; lia.
Qed.

Context `{SHG : ShrinkGranted}.
Context (prec flags : Z) (Hf : op_format prec flags) (Hfar : prec <= 2 ^ 58 \/ d <= 2 ^ 58).

Lemma add_top r rl :
  limbs (tab r) -> len r = rl -> 0 < rl < 2 ^ 59 ->
  hpost (bf_resize r (rl + 1)) (fun '(r', ok) =>
    if ok : bool then post (wr (tab r') rl 1) (fun t => limbs t /\ zlen t = rl + 1 /\ value t = value (tab r) + 2 ^ (64 * rl)) /\ sign r' = sign r /\ expn r' = expn r
    else can_refuse).
Proof.
  intros Hl Hz Hrl. eapply hpost_mono; [apply bf_resize_spec; [done|lia]|]. intros [r' ok] Hr. destruct ok; [|apply Hr; lia]. destruct Hr as (Hs & He & Hl' & Hz' & Ht).
  rewrite Hz, Z.min_r in Ht by lia. unfold len in *. split; [|done].
  eapply post_mono; [apply (write_word (tab r') rl 1); [done|lia|done]|]. intros t (Hlt & Hzt & Hvt). split; [done|]. split; [lia|].
  assert (value (tab r) = value (take (Z.to_nat rl) (tab r'))) as ->.
  { rewrite Ht. rewrite firstn_all2; [done|]. unfold zlen in Hz. lia. }
  rewrite <- (firstn_all2 (n := Z.to_nat (rl + 1)) t) by (unfold zlen in *; lia). lia.
Qed.

Lemma add_numbers_spec r a_sign :
  limbs (tab r) ->
  hpost (add_numbers r a b prec flags a_sign is_sub) (result_is (bf_round_spec a_sign total 1 (expn a - 64 * total_len) prec flags)).
Proof.
  intros Hr. unfold add_numbers. pose proof total_range as RT. destruct total_len_spec as (D1 & D2 & D3 & D4 & D5). pose proof Hf as (_ & _ & Hp & _).
  destruct (number_mant a sa ma ea Ha) as (La & Hza & _ & _ & _ & _ & _ & Hea). destruct (number_mant b sb mb eb Hb) as (Lb & Hzb & _).
  pose proof (proj2 (proj2 (proj2 Ha))) as Sa. pose proof (proj2 (proj2 (proj2 Hb))) as Sb.
  apply hpost_bind, hpost_lift. eapply post_mono; [apply cancelled_spec|]. intros n [Hn Hlog]. fold total_len. cbv zeta.
  assert (u64 (n + prec + 2 + LIMB_BITS - 1) / LIMB_BITS = (n + prec + 65) / 64) as ->.
  { assert (prec <= 2 ^ 62) by (eapply Z.le_trans; [apply Hp|by vm_compute]). change LIMB_BITS with 64. rewrite u64_id by (unfold in_u64; lia). f_equal. lia. }
  set (rl := Z.min ((n + prec + 65) / 64) total_len).
  assert (0 < rl <= total_len /\ rl <= 2 ^ 54 - 1 /\ (rl = total_len \/ n + prec + 2 <= 64 * rl)) as (R1 & R2 & R3).
  { pose proof (Z.div_mod (n + prec + 65) 64 ltac:(lia)). pose proof (Z.mod_pos_bound (n + prec + 65) 64 ltac:(lia)).
    pose proof (Z.div_mod (d + 63) 64 ltac:(lia)). pose proof (Z.mod_pos_bound (d + 63) 64 ltac:(lia)). unfold rl. lia. }
  apply hpost_bind. eapply hpost_mono; [apply bf_resize_spec; [done|lia]|]. intros [r1 ok] Hr1.
  destruct ok; [|apply bf_mem_error_spec, Hr1; lia]. destruct Hr1 as (Hs1 & He1 & Hl1 & Hz1 & _). cbn [negb sign expn] in *.
  apply hpost_bind, hpost_lift. eapply post_mono; [apply (add_low_spec a b La Lb Sa Sb ltac:(lia) ltac:(lia) d total_len rl is_sub); done|].
  intros [carry z] [S HS]. apply hpost_bind, hpost_lift.
  eapply post_mono; [apply (add_high_spec a b La Lb Sa Sb ltac:(lia) ltac:(lia) d total_len rl is_sub D1 Hsub D2 D3 D4 R1 _ _ _ S Hl1 Hz1 HS)|].
  intros [t c] (Hlt & Hzt & Hc & E). destruct HS as (_ & HS & _ & Hz). pose proof (total_words rl t c z S R1 Hlt Hzt Hc HS Hz E) as EV. clear E.
  apply hpost_bind, hpost_lift. eapply post_mono; [apply set_sticky; [done|lia]|]. intros x Hx.
  apply hpost_bind, hpost_lift. eapply post_mono; [exact Hx|]. intros t1 (Hl1' & Hzt1 & Hv1). rewrite <- Hv1 in EV.
  destruct ((is_sub =? 0) && negb (c =? 0)).
  - apply hpost_bind. eapply hpost_mono; [apply add_top; unfold len; cbn [tab set_tab]; done || lia|]. intros [r2 ok] Hr2.
    destruct ok; [|by apply bf_mem_error_spec]. destruct Hr2 as (Hw & Hs2 & He2). cbn [negb sign expn set_tab tab] in *. apply hpost_bind, hpost_lift.
    eapply post_mono; [exact Hw|]. intros t2 (Hl2 & Hz2 & Hv2). rewrite Hs2, He2, Hs1, He1.
    apply (add_rounded (mkBf a_sign (expn a + LIMB_BITS) t2) total (expn a) total_len rl n); unfold len; cbn [tab expn]; change LIMB_BITS with 64; done || lia.
  - rewrite <- Hs1. change (sign r1) with (sign (set_tab r1 t1)).
    apply (add_rounded _ total (expn a) total_len rl n); unfold len; cbn [tab expn set_tab]; change LIMB_BITS with 64; done || lia.
Qed.
End Numbers.

(** * The operation on values *)

(** The sum; one that is zero is [-0] when rounding down. *)
Definition add_spec (va vb : bf_value) (prec flags : Z) : bf_value * Z :=
  let neg_zero := b2z (rnd_mode_of flags =? BF_RNDD) in
  match va, vb with
  | V_nan, _ | _, V_nan => (V_nan, 0)
  | V_inf s, V_inf s' => if s =? s' then (V_inf s, 0) else (V_nan, BF_ST_INVALID_OP)
  | V_inf s, _ | _, V_inf s => (V_inf s, 0)
  | V_zero s, V_zero s' => (V_zero (if s =? s' then s else neg_zero), 0)
  | V_zero _, V_num s m e | V_num s m e, V_zero _ => bf_round_spec s m 1 e prec flags
  | V_num s m e, V_num s' m' e' =>
      let d := Z.min e e' in
      let x := (1 - 2 * s) * m * 2 ^ (e - d) + (1 - 2 * s') * m' * 2 ^ (e' - d) in
      if x =? 0 then (V_zero neg_zero, 0) else bf_round_spec (b2z (x <? 0)) (Z.abs x) 1 d prec flags
  end.

Definition neg_value (n : Z) (v : bf_value) : bf_value :=
  match v with
  | V_nan => V_nan
  | V_inf s => V_inf (Z.lxor s n)
  | V_zero s => V_zero (Z.lxor s n)
  | V_num s m e => V_num (Z.lxor s n) m e
  end.

(** The sum of a zero and a number is a copy of the number.  When the request for its
    block is refused, which [short] says, the code does not see it: it returns zero. *)
Definition lost_copy (short : Z -> Prop) (a b : bf_t) (va vb : bf_value) '(r, st) : Prop :=
  match va, vb with
  | V_zero _, V_num s _ _ => short (len b * 8) /\ represents r (V_zero s) /\ st = 0
  | V_num s _ _, V_zero _ => short (len a * 8) /\ represents r (V_zero s) /\ st = 0
  | _, _ => False
  end.

(** An unlimited precision, and exponents that are very far from each other. *)
Definition too_far (a b : bf_t) (prec : Z) : Prop := 0 < len a /\ 0 < len b /\ 2 ^ 58 < prec /\ 2 ^ 58 < Z.abs (expn a - expn b).

(** ** Two numbers other than zero *)

Lemma lxor_bits x y : is_bit x -> is_bit y -> is_bit (Z.lxor x y) /\ (Z.lxor x y =? 0) = (x =? y) /\ (Z.lxor x y = 1 -> x = 1 - y) /\ (Z.lxor x y = 0 -> x = y).
Proof. intros [->| ->] [->| ->]; (split; [first [by left|by right]|split; [reflexivity|split; by vm_compute]]). Qed.

(** The total, in terms of the values of the two numbers. *)
Lemma total_value a b sa ma ea sb mb eb is_sub d0 :
  number a (V_num sa ma ea) -> number b (V_num sb mb eb) -> is_bit is_sub -> expn b <= expn a -> d0 <= ea -> d0 <= eb ->
  same_number (total a b is_sub) (expn a - 64 * total_len a b) (ma * 2 ^ (ea - d0) + (1 - 2 * is_sub) * (mb * 2 ^ (eb - d0))) d0 /\
  (ext_a a (total_len a b) ?= ext_b b (expn a - expn b) (total_len a b)) = num_cmp ma ea mb eb.
Proof.
  intros Ha Hb Hsub Hd H1 H2. destruct (total_len_spec a b _ _ _ _ _ _ Ha Hb Hd) as (D1 & D2 & D3 & D4 & D5).
  destruct (number_mant a sa ma ea Ha) as (_ & _ & _ & _ & _ & Sa & _). destruct (number_mant b sb mb eb Hb) as (_ & _ & _ & _ & _ & Sb & _).
  unfold total. set (tot := total_len a b) in *. set (e0 := expn a - 64 * tot).
  assert (same_number (ext_a a tot) e0 ma ea) as EA.
  { unfold ext_a. replace e0 with (bf_exp a - 64 * (tot - len a)) by (unfold bf_exp, e0; change LIMB_BITS with 64; lia). apply same_number_more; [lia|done]. }
  assert (same_number (ext_b b (expn a - expn b) tot) e0 mb eb) as EB.
  { unfold ext_b. replace e0 with (bf_exp b - (64 * (tot - len b) - (expn a - expn b))) by (unfold bf_exp, e0; change LIMB_BITS with 64; lia). apply same_number_more; [lia|done]. }
  split.
  - rewrite (same_number_iff (Z.min e0 d0)) in * by lia. set (c := Z.min e0 d0) in *.
    replace ((ma * 2 ^ (ea - d0) + (1 - 2 * is_sub) * (mb * 2 ^ (eb - d0))) * 2 ^ (d0 - c)) with (ma * (2 ^ (ea - d0) * 2 ^ (d0 - c)) + (1 - 2 * is_sub) * (mb * (2 ^ (eb - d0) * 2 ^ (d0 - c)))) by ring.
    rewrite <- !Z.pow_add_r by lia. replace (ea - d0 + (d0 - c)) with (ea - c) by lia. replace (eb - d0 + (d0 - c)) with (eb - c) by lia.
    rewrite <- EA, <- EB. destruct Hsub as [->| ->]; cbn [Z.eqb]; ring.
  - rewrite <- (same_number_cmp _ _ _ _ _ _ _ _ EA EB). unfold num_cmp. rewrite Z.min_id, Z.sub_diag, Z.pow_0_r, !Z.mul_1_r. done.
Qed.

Section Sum.
Context `{SHG : ShrinkGranted}.

(** [a] is the larger number, and the sum is not zero. *)
Lemma add_numbers_value r a b sa ma ea sb mb eb s prec flags is_sub d0 x :
  number a (V_num sa ma ea) -> number b (V_num sb mb eb) -> limbs (tab r) -> op_format prec flags -> ~ too_far a b prec ->
  is_bit is_sub -> num_cmp ma ea mb eb <> Lt -> (is_sub = 1 -> num_cmp ma ea mb eb = Gt) -> d0 <= ea -> d0 <= eb ->
  x = ma * 2 ^ (ea - d0) + (1 - 2 * is_sub) * (mb * 2 ^ (eb - d0)) -> expn b <= expn a ->
  hpost (add_numbers r a b prec flags s is_sub) (result_is (bf_round_spec s x 1 d0 prec flags)).
Proof.
  intros Ha Hb Hr Hf Hfar Hsub Hge Hgt H1 H2 -> Hd. destruct (total_value a b _ _ _ _ _ _ is_sub d0 Ha Hb Hsub Hd H1 H2) as [ET EC].
  assert (is_sub = 1 -> ext_b b (expn a - expn b) (total_len a b) < ext_a a (total_len a b)) as Hpos.
  { intros Es. apply Z.compare_gt_iff. rewrite EC. by apply Hgt. }
  pose proof (total_range a b _ _ _ _ _ _ is_sub Ha Hb Hsub Hd Hpos) as HT.
  eapply hpost_mono; [apply (add_numbers_spec a b _ _ _ _ _ _ is_sub Ha Hb Hsub Hd Hpos prec flags Hf); [|done]|].
  { destruct (number_mant a _ _ _ Ha) as (_ & Hza & _). destruct (number_mant b _ _ _ Hb) as (_ & Hzb & _). unfold too_far in Hfar. lia. }
  intros res. apply result_is_equiv. apply bf_round_spec_ratio; [lia|done|exact (same_number_pos _ _ _ _ ET (proj1 HT))|done|].
  unfold ratio_eq. by rewrite !Z.mul_1_r.
Qed.

Lemma cmpu_order a b sa ma ea sb mb eb :
  number a (V_num sa ma ea) -> number b (V_num sb mb eb) -> num_cmp ma ea mb eb <> Lt -> expn b <= expn a.
Proof.
  intros Ha Hb Hc. pose proof (number_cmp_num a b _ _ _ _ _ _ Ha Hb) as E. destruct (Z.le_gt_cases (expn b) (expn a)) as [|Hlt]; [done|].
  rewrite cmpu_expn, (proj2 (Z.ltb_lt _ _) Hlt) in E by lia. by destruct (num_cmp ma ea mb eb).
Qed.

Lemma signed_spec s T x prec flags e :
  is_bit s -> 0 < T -> x = (1 - 2 * s) * T ->
  bf_round_spec s T 1 e prec flags =
    if x =? 0 then (V_zero (b2z (rnd_mode_of flags =? BF_RNDD)), 0) else bf_round_spec (b2z (x <? 0)) (Z.abs x) 1 e prec flags.
Proof.
  intros Hs HT ->. rewrite (proj2 (Z.eqb_neq _ 0)) by (destruct Hs; lia). destruct Hs as [->| ->].
  - rewrite (proj2 (Z.ltb_ge _ 0)) by lia. cbn [b2z]. f_equal. lia.
  - rewrite (proj2 (Z.ltb_lt _ 0)) by lia. cbn [b2z]. f_equal. lia.
Qed.

(** The larger number first. *)
Lemma ordered_sum r a b s sa ma ea sb mb eb prec flags is_sub x :
  number a (V_num sa ma ea) -> number b (V_num sb mb eb) -> limbs (tab r) -> op_format prec flags -> ~ too_far a b prec ->
  is_bit s -> is_bit is_sub -> num_cmp ma ea mb eb <> Lt -> (is_sub = 1 -> num_cmp ma ea mb eb = Gt) ->
  x = (1 - 2 * s) * (ma * 2 ^ (ea - Z.min ea eb) + (1 - 2 * is_sub) * (mb * 2 ^ (eb - Z.min ea eb))) ->
  hpost (add_numbers r a b prec flags s is_sub) (result_is
    (if x =? 0 then (V_zero (b2z (rnd_mode_of flags =? BF_RNDD)), 0) else bf_round_spec (b2z (x <? 0)) (Z.abs x) 1 (Z.min ea eb) prec flags)).
Proof.
  intros Ha Hb Hr Hf Hfar Hs Hsub Hge Hgt Hx. rewrite <- (signed_spec s (ma * 2 ^ (ea - Z.min ea eb) + (1 - 2 * is_sub) * (mb * 2 ^ (eb - Z.min ea eb))) x prec flags (Z.min ea eb) Hs); [|..|exact Hx].
  - eapply add_numbers_value; try done; [lia|lia|by eapply cmpu_order].
  - destruct (number_mant a _ _ _ Ha) as (_ & _ & _ & Hma & _). destruct (number_mant b _ _ _ Hb) as (_ & _ & _ & Hmb & _).
    assert (0 < ma * 2 ^ (ea - Z.min ea eb)) by (apply Z.mul_pos_pos; lia). assert (0 < mb * 2 ^ (eb - Z.min ea eb)) by (apply Z.mul_pos_pos; lia).
    destruct Hsub as [->|Es]; [lia|]. specialize (Hgt Es). subst is_sub. apply Z.compare_gt_iff in Hgt. lia.
Qed.

Lemma num_cmp_sym m1 e1 m2 e2 : num_cmp m2 e2 m1 e1 = CompOpp (num_cmp m1 e1 m2 e2).
Proof. unfold num_cmp. rewrite (Z.min_comm e2 e1). apply Z.compare_antisym. Qed.

Lemma add_internal_numbers r a b sa ma ea sb mb eb prec flags b_neg :
  number a (V_num sa ma ea) -> number b (V_num sb mb eb) -> limbs (tab r) -> op_format prec flags -> ~ too_far a b prec -> is_bit b_neg ->
  hpost (bf_add_internal r a b prec flags b_neg) (result_is (add_spec (V_num sa ma ea) (neg_value b_neg (V_num sb mb eb)) prec flags)).
Proof.
  intros Ha Hb Hr Hf Hfar Hneg. unfold bf_add_internal. rewrite (number_cmp_num a b _ _ _ _ _ _ Ha Hb).
  destruct (number_mant a _ _ _ Ha) as (_ & Hza & _ & Hma & Esa & _). destruct (number_mant b _ _ _ Hb) as (_ & Hzb & _ & Hmb & Esb & _).
  pose proof (proj1 (proj2 Ha) : is_bit (sign a)) as Ba. pose proof (proj1 (proj2 Hb) : is_bit (sign b)) as Bb. rewrite Esa in *. rewrite Esb in *.
  destruct (lxor_bits sb b_neg Bb Hneg) as (Bs & _). destruct (lxor_bits sa (Z.lxor sb b_neg) Ba Bs) as (Bsub & Eqz & E1 & E0).
  cbn [neg_value add_spec]. set (s' := Z.lxor sb b_neg) in *. set (is_sub := Z.lxor sa s') in *.
  assert (1 - 2 * s' = (1 - 2 * sa) * (1 - 2 * is_sub)) as Es' by (destruct Bsub as [E|E]; rewrite E; [rewrite (E0 E); lia|rewrite (E1 E); lia]).
  apply hpost_bind, hpost_lift, post_ret. destruct (in_range_expn a (proj2 (proj2 Ha))) as (Xa & _). 
  destruct (num_cmp ma ea mb eb) eqn:EC; cbn [sign_of Z.ltb Z.compare Z.eqb andb].
  - destruct (Z.eqb_spec is_sub 0) as [Ez|Enz]; cbn [negb andb].
    + rewrite !(proj2 (Z.eqb_neq (len _) 0)) by lia. cbn [orb]. apply (ordered_sum r a b sa sa ma ea sb mb eb); try done; [by rewrite EC|by rewrite Ez|rewrite Es'; ring].
    + rewrite (proj2 (Z.ltb_lt _ _)) by lia. apply ret_zero. apply Z.compare_eq_iff in EC. rewrite (proj2 (Z.eqb_eq _ 0)); [done|].
      rewrite <- !Z.mul_assoc, EC, Es'. destruct Bsub as [->| ->]; [done|lia].
  - rewrite !(proj2 (Z.eqb_neq (len _) 0)) by lia. cbn [orb]. rewrite (Z.min_comm ea eb).
    assert (1 - 2 * sa = (1 - 2 * s') * (1 - 2 * is_sub)) as Es by (rewrite Es'; destruct Bsub as [->| ->]; lia).
    assert (~ too_far b a prec) as Hfar' by (unfold too_far in *; lia).
    apply (ordered_sum r b a s' sb mb eb sa ma ea); try done; [by rewrite num_cmp_sym, EC..|rewrite Es; ring].
  - rewrite !(proj2 (Z.eqb_neq (len _) 0)) by lia. cbn [orb]. apply (ordered_sum r a b sa sa ma ea sb mb eb); try done; [by rewrite EC|rewrite Es'; ring].
Qed.

(** ** An operand without limbs *)

Lemma bf_set_from h r a :
  limbs (tab r) -> limbs (tab a) ->
  hpost_from h (bf_set false r a) (fun '(r', _) => r' = a \/ (0 < len a /\ (len a * 8 < 2 ^ 63 -> refuses h (len a * 8)) /\ represents r' V_nan)).
Proof.
  intros Hr Ha. unfold bf_set. pose proof (zlen_nonneg (tab a)). apply hpost_from_bind. eapply hpost_from_mono; [apply bf_resize_from; [done|exact H]|].
  intros [r1 ok] Hr1. destruct ok; cbn [negb].
  - destruct Hr1 as (_ & _ & Hl1 & Hz1 & _). unfold len in *. apply hpost_bind, hpost_lift.
    apply post_mono with (fun t => t = tab a); [|intros t ->; apply hpost_ret; left; by destruct a].
    destruct (Z.ltb_spec 0 (zlen (tab a))).
    + rewrite wr_slice_in by lia. apply post_ret. change (take (Z.to_nat 0) (tab r1)) with (@nil Z). rewrite drop_ge by (unfold zlen in *; lia). by rewrite app_nil_r.
    + apply post_ret. destruct (tab a); [|unfold zlen in *; cbn [length] in *; lia]. destruct (tab r1); [done|unfold zlen in Hz1; cbn [length] in Hz1; lia].
  - destruct Hr1 as (-> & Hlt & Href). apply hpost_bind. eapply hpost_mono; [apply bf_set_nan_spec|]. intros r2 Hr2. apply hpost_ret. right.
    split; [pose proof (zlen_nonneg (tab r)); unfold len in *; lia|done].
Qed.

Lemma bf_set_spec r a :
  limbs (tab r) -> limbs (tab a) ->
  hpost (bf_set false r a) (fun '(r', _) => r' = a \/ (0 < len a /\ (len a * 8 < 2 ^ 63 -> may_refuse (len a * 8)) /\ represents r' V_nan)).
Proof.
  intros Hr Ha h. eapply post_mono; [exact (bf_set_from h r a Hr Ha)|]. intros [h' [r' st]] [->|(H & Href & Hn)]; [by left|right].
  split; [done|]. split; [intros Hm; exists h; by apply Href|done].
Qed.

Lemma normalize_empty r s prec flags :
  tab r = [] -> sign r = s -> hpost (bf_normalize_and_round r prec flags) (result_is (V_zero s, 0)).
Proof.
  intros Ht Hs. eapply hpost_mono; [apply bf_normalize_and_round_spec; rewrite ?Ht; [done|unfold len; rewrite Ht; by vm_compute|done]|].
  intros res. unfold normalize_spec. by rewrite Ht, Hs.
Qed.

(** A copy, with the sign [s], then rounded. *)
Lemma copy_number h r a sa m e s prec flags :
  number a (V_num sa m e) -> limbs (tab r) -> op_format prec flags ->
  hpost_from h (let! (r, _) := bf_set false r a in bf_normalize_and_round (set_sign r s) prec flags)
    (fun res => result_is (bf_round_spec s m 1 e prec flags) res \/ (refuses h (len a * 8) /\ represents res.1 (V_zero s) /\ res.2 = 0)).
Proof.
  intros Ha Hr Hf. destruct (number_mant a _ _ _ Ha) as (La & Hza & Hpa & Hm & _ & Sa & Hba & Hea).
  apply hpost_from_bind. eapply hpost_from_mono; [by apply bf_set_from|]. intros [r1 st] [-> | (_ & Href & Hr1)].
  - eapply hpost_mono; [apply bf_normalize_and_round_spec; unfold len in *; cbn [tab set_sign expn sign]; [done|lia|]|].
    + intros _. apply op_rounding_ok; [done|]. assert (0 <= Z.log2 (value (tab a)) < 64 * zlen (tab a)) by (split; [apply Z.log2_nonneg|apply Z.log2_lt_pow2; lia]). lia.
    + intros res Hres. left. revert Hres. unfold normalize_spec, len. cbn [tab set_sign expn sign]. rewrite (proj2 (Z.eqb_neq _ 0)) by lia.
      apply result_is_equiv, bf_round_spec_ratio; [done..|]. unfold ratio_eq. rewrite !Z.mul_1_r. exact Sa.
  - cbn [represents] in Hr1. subst r1. eapply hpost_mono; [by apply (normalize_empty _ s)|]. intros [r2 st2] [H|H]; [left; by left|right].
    split; [apply Href; lia|exact H].
Qed.

Definition add_result (short : Z -> Prop) (a b : bf_t) (va vb : bf_value) (prec flags : Z) (res : bf_t * Z) : Prop :=
  result_is (add_spec va vb prec flags) res \/ lost_copy short a b va vb res.

Lemma add_weaken h (m : heap_m (bf_t * Z)) spec a b va vb prec flags :
  spec = add_spec va vb prec flags -> hpost m (result_is spec) -> hpost_from h m (add_result (refuses h) a b va vb prec flags).
Proof. intros -> H. eapply hpost_from_mono; [exact (H h)|]. by left. Qed.

Lemma add_result_mono (P Q : Z -> Prop) a b va vb prec flags res :
  (forall n, P n -> Q n) -> add_result P a b va vb prec flags res -> add_result Q a b va vb prec flags res.
Proof. intros HPQ [H|H]; [by left|right]. destruct res as [r st]. destruct va, vb; try done; destruct H as [Hn H]; split; auto. Qed.

(** The comparison of a number with one that has no limbs. *)
Ltac cmpu_number :=
  rewrite cmpu_expn by (cbn [expn]; lia); cbn [expn];
  first [rewrite (proj2 (Z.ltb_lt _ _)) by lia|rewrite (proj2 (Z.ltb_ge _ _)) by lia];
  apply hpost_from_lift, post_ret; cbn [Z.ltb Z.compare Z.eqb andb].

Ltac cmpu_special :=
  match goal with |- context [bf_cmpu ?a ?b] => let c := eval vm_compute in (bf_cmpu a b) in change (bf_cmpu a b) with c end;
  apply hpost_from_lift, post_ret; cbn.

(** A number and an operand without limbs. *)
Lemma add_number_special h r a sa ma ea b vb prec flags b_neg :
  number a (V_num sa ma ea) -> number b vb -> (forall s m e, vb <> V_num s m e) -> limbs (tab r) -> op_format prec flags -> is_bit b_neg ->
  hpost_from h (bf_add_internal r a b prec flags b_neg) (add_result (refuses h) a b (V_num sa ma ea) (neg_value b_neg vb) prec flags).
Proof.
  intros Ha Hb Hsp Hr Hf Hneg. unfold bf_add_internal. destruct (in_range_expn a (proj2 (proj2 Ha))) as (Xa & Na & Za & Ia & Ja).
  destruct (number_mant a _ _ _ Ha) as (_ & Hza & _ & _ & Esa & _). pose proof (proj1 Hb) as R.
  assert (BF_EXP_NAN = BF_EXP_INF + 1) as EN by done.
  destruct vb as [|sb|sb|sb mb eb]; [| | |by destruct (Hsp sb mb eb)]; cbn [represents] in R; subst b.
  - cmpu_number. eapply add_weaken; [|apply ret_nan]; done.
  - cmpu_number. cbn [len tab zlen length expn sign]. rewrite Ia. eapply add_weaken; [|apply ret_inf]; done.
  - cmpu_number. rewrite orb_true_r, Ja, Esa. eapply hpost_from_mono; [by apply (copy_number h r a sa ma ea sa)|].
    intros [r1 st] H. exact H.
Qed.

Lemma add_special_number h r a va b sb mb eb prec flags b_neg :
  number a va -> (forall s m e, va <> V_num s m e) -> number b (V_num sb mb eb) -> limbs (tab r) -> op_format prec flags -> is_bit b_neg ->
  hpost_from h (bf_add_internal r a b prec flags b_neg) (add_result (refuses h) a b va (neg_value b_neg (V_num sb mb eb)) prec flags).
Proof.
  intros Ha Hsp Hb Hr Hf Hneg. unfold bf_add_internal. destruct (in_range_expn b (proj2 (proj2 Hb))) as (Xb & Nb & Zb & Ib & Jb).
  destruct (number_mant b _ _ _ Hb) as (_ & Hzb & _ & _ & Esb & _). pose proof (proj1 Ha) as R.
  assert (BF_EXP_NAN = BF_EXP_INF + 1) as EN by done.
  destruct va as [|sa|sa|sa ma ea]; [| | |by destruct (Hsp sa ma ea)]; cbn [represents] in R; subst a.
  - cmpu_number. eapply add_weaken; [|apply ret_nan]; done.
  - cmpu_number. cbn [len tab zlen length expn sign]. rewrite Ib. eapply add_weaken; [|apply ret_inf]; done.
  - cmpu_number. rewrite orb_true_r, Jb, Esb. eapply hpost_from_mono; [by apply (copy_number h r b sb mb eb (Z.lxor sb b_neg))|].
    intros [r1 st] H. exact H.
Qed.

Lemma add_special_special h r a va b vb prec flags b_neg :
  number a va -> (forall s m e, va <> V_num s m e) -> number b vb -> (forall s m e, vb <> V_num s m e) -> limbs (tab r) -> is_bit b_neg ->
  hpost_from h (bf_add_internal r a b prec flags b_neg) (add_result (refuses h) a b va (neg_value b_neg vb) prec flags).
Proof.
  intros Ha Hsa Hb Hsb Hr Hneg. unfold bf_add_internal. pose proof (proj1 Ha) as Ra. pose proof (proj1 Hb) as Rb.
  pose proof (proj1 (proj2 Ha)) as Ba. pose proof (proj1 (proj2 Hb)) as Bb.
  destruct va as [|sa|sa|sa ma ea]; [| | |by destruct (Hsa sa ma ea)]; cbn [represents] in Ra; subst a; cbn [sign] in Ba.
  all: destruct vb as [|sb|sb|sb mb eb]; [| | |by destruct (Hsb sb mb eb)]; cbn [represents] in Rb; subst b; cbn [sign] in Bb.
  all: clear Ha Hb Hsa Hsb; cmpu_special.
  all: try (destruct Ba as [->| ->]); try (destruct Bb as [->| ->]); destruct Hneg as [->| ->]; cbn.
  all: first [eapply add_weaken; [|apply ret_nan]; reflexivity|eapply add_weaken; [|apply ret_inf]; reflexivity|eapply add_weaken; [|apply ret_zero]; reflexivity|idtac].
  all: eapply add_weaken; [|apply hpost_bind; eapply hpost_mono; [apply bf_set_spec; [done|apply Forall_nil]|];
    intros [r1 st] [->|[Hlt _]]; [by eapply normalize_empty|done]]; done.
Qed.

Lemma add_internal_value h r a b va vb prec flags b_neg :
  number a va -> number b vb -> limbs (tab r) -> op_format prec flags -> ~ too_far a b prec -> is_bit b_neg ->
  hpost_from h (bf_add_internal r a b prec flags b_neg) (add_result (refuses h) a b va (neg_value b_neg vb) prec flags).
Proof.
  intros Ha Hb Hr Hf Hfar Hneg.
  destruct (number_len a va Ha) as [(sa & ma & ea & -> & _)|[Hsa _]], (number_len b vb Hb) as [(sb & mb & eb & -> & _)|[Hsb _]].
  - eapply add_weaken; [reflexivity|by apply add_internal_numbers].
  - by apply add_number_special.
  - by apply add_special_number.
  - by apply add_special_special.
Qed.

Lemma neg_value_0 v : neg_value 0 v = v.
Proof. destruct v; cbn; by rewrite ?Z.lxor_0_r. Qed.

Lemma limbs_alias (alias : bool) r : limbs (tab r) -> limbs (tab (if alias then bf_init else r)).
Proof. destruct alias; [intros _; apply Forall_nil|done]. Qed.

Lemma bf_add_from h alias r a b va vb prec flags :
  number a va -> number b vb -> limbs (tab r) -> op_format prec flags -> ~ too_far a b prec ->
  hpost_from h (bf_add alias r a b prec flags) (add_result (refuses h) a b va vb prec flags).
Proof.
  intros. rewrite <- (neg_value_0 vb). apply add_internal_value; try done; [by apply limbs_alias|by left].
Qed.

Lemma bf_sub_from h alias r a b va vb prec flags :
  number a va -> number b vb -> limbs (tab r) -> op_format prec flags -> ~ too_far a b prec ->
  hpost_from h (bf_sub alias r a b prec flags) (add_result (refuses h) a b va (neg_value 1 vb) prec flags).
Proof. intros. apply add_internal_value; try done; [by apply limbs_alias|by right]. Qed.

Lemma bf_add_value alias r a b va vb prec flags :
  number a va -> number b vb -> limbs (tab r) -> op_format prec flags -> ~ too_far a b prec ->
  hpost (bf_add alias r a b prec flags) (add_result may_refuse a b va vb prec flags).
Proof.
  intros Ha Hb Hr Hf Hfar h. eapply hpost_from_mono; [exact (bf_add_from h alias r a b va vb prec flags Ha Hb Hr Hf Hfar)|].
  intros res. apply add_result_mono. intros n Hn. by exists h.
Qed.

Lemma bf_sub_value alias r a b va vb prec flags :
  number a va -> number b vb -> limbs (tab r) -> op_format prec flags -> ~ too_far a b prec ->
  hpost (bf_sub alias r a b prec flags) (add_result may_refuse a b va (neg_value 1 vb) prec flags).
Proof.
  intros Ha Hb Hr Hf Hfar h. eapply hpost_from_mono; [exact (bf_sub_from h alias r a b va vb prec flags Ha Hb Hr Hf Hfar)|].
  intros res. apply add_result_mono. intros n Hn. by exists h.
Qed.
End Sum.
