(* ===== verification/BfDivrem.v ===== *)
(** Division with remainder on the numbers of [libbf.c].

    [bf_tdivremu] divides, truncates, multiplies back and subtracts, all exactly;
    [bf_divrem] adjusts the quotient for the rounding mode.  The theorem is that the
    quotient is the ratio rounded to an integer and the remainder what is left. *)
From Stdlib Require Import ZArith Lia Bool List Setoid.
From stdpp Require Import base tactics list numbers.
From S2P Require Import Prelude IntFmt Alloc Limb MpMul MpDiv MpRecip Bf BfRound BfRatio BfRoundOk BfOps BfCmp BfMulDiv BfAdd BfSum.

(** * Results as operands *)

Lemma normal_low_limb r : bf_normal r -> value (tab r) mod LB <> 0.
Proof.
  intros (Hl & _ & _ & x & t & E & Hx). rewrite E in *. cbn [value]. inversion_clear Hl as [|? ? Hx' _]. u64_ranges.
  rewrite (Z.mul_comm LB), Z.mod_add, Z.mod_small by done. done.
Qed.

(** The exponent and the length of a number of mantissa [m]. *)
Lemma represents_size r s m e :
  represents r (V_num s m e) -> 0 < m -> expn r = e + Z.log2 m + 1 /\ 64 * len r <= Z.log2 m + 64.
Proof.
  intros (Hn & _ & Hs) Hm. pose proof (normal_low_limb r Hn) as Hlow. pose proof (normal_pos r Hn) as Hp.
  destruct (bf_normal_mant r Hn) as (Hl & HM & Em). pose proof (mant_bound (tab r) (len r) (proj1 Hn) ltac:(unfold len in *; lia)) as Hb. rewrite Em in *.
  assert (Z.log2 (value (tab r)) = 64 * len r - 1) as Hlog by (apply Z.log2_unique; [lia|replace (Z.succ (64 * len r - 1)) with (64 * len r) by lia; lia]).
  change LIMB_BITS with 64 in Hs. set (V := value (tab r)) in *. set (f := expn r - 64 * len r) in *.
  assert (ratio_eq V 1 f m 1 e) as Hr by (unfold ratio_eq; by rewrite !Z.mul_1_r).
  pose proof (ratio_exponent_eq _ _ _ _ _ _ Hp Z.lt_0_1 Hm Z.lt_0_1 Hr) as HE. rewrite !ratio_exponent_int in HE by done. split; [lia|].
  destruct (Z.le_gt_cases e f) as [Hef|Hef]; [lia|]. assert (e - f < 64); [|lia]. destruct (Z.lt_ge_cases (e - f) 64) as [|Hge]; [done|exfalso].
  apply Hlow. unfold same_number in Hs. rewrite Z.min_l, Z.sub_diag, Z.pow_0_r, Z.mul_1_r in Hs by lia. rewrite Hs.
  replace (e - f) with (e - f - 64 + 64) by lia. rewrite Z.pow_add_r, Z.mul_assoc by lia. by apply Z.mod_mul.
Qed.

(** Numbers of at most [2 ^ 50] bits, and what is computed from them. *)
Definition fits (m e : Z) : Prop := 0 < m /\ Z.log2 m < 2 ^ 50 /\ - 2 ^ 50 <= e <= 2 ^ 50.
Definition sized (m e : Z) : Prop := 0 < m /\ Z.log2 m < 2 ^ 55 /\ - 2 ^ 55 <= e <= 2 ^ 55.

Lemma represents_number r s m e : represents r (V_num s m e) -> is_bit s -> sized m e -> number r (V_num s m e).
Proof.
  intros Hr Hs (Hm & Hlog & He). destruct (represents_size r s m e Hr Hm) as [E1 E2]. pose proof (Z.log2_nonneg m).
  split; [done|]. split; [destruct Hr as (_ & -> & _); exact Hs|]. split; [lia|]. unfold small_tab, len in *. lia.
Qed.

Lemma nan_number r : represents r V_nan -> number r V_nan.
Proof. intros H. split; [done|]. cbn in H. subst r. split; [by left|done]. Qed.

(** An integer, or a multiple of [2 ^ e]. *)
Definition int_value (s m e : Z) : bf_value := if m =? 0 then V_zero s else V_num s m e.

Lemma int_value_number r s m e : represents r (int_value s m e) -> is_bit s -> (m <> 0 -> sized m e) -> number r (int_value s m e).
Proof.
  unfold int_value. destruct (Z.eqb_spec m 0) as [->|Hm]; intros Hr Hs Hf; [|by apply represents_number; [..|apply Hf]].
  cbn in Hr. subst r. done.
Qed.

(** * Exact results *)

Lemma exact_format : op_format BF_PREC_INF BF_RNDZ.
Proof. split; [by vm_compute|]. split; [by vm_compute|]. split; [by vm_compute|]. done. Qed.

(** With an unlimited precision nothing is rounded. *)
Lemma spec_exact s m e : sized m e -> bf_round_spec s m 1 e BF_PREC_INF BF_RNDZ = (V_num s m e, 0).
Proof.
  intros (Hm & Hlog & He). pose proof (Z.log2_nonneg m). unfold bf_round_spec. rewrite ratio_exponent_int by done.
  unfold prec_spec. change (has_flag BF_RNDZ BF_FLAG_RADPNT_PREC) with false. change (has_flag BF_RNDZ BF_FLAG_SUBNORMAL) with false.
  change (Z.shiftl 1 (bf_get_exp_bits BF_RNDZ - 1)) with (2 ^ 60). change (rnd_mode_of BF_RNDZ =? BF_RNDF) with false.
  rewrite andb_false_r. change BF_PREC_INF with (2 ^ 62 - 1). change (1 =? 1) with true. cbv zeta.
  rewrite (proj2 (Z.leb_le _ e)) by lia. cbn [andb negb orb]. destruct (scaled m 1 e _) as [n' d'].
  rewrite (proj2 (Z.leb_gt _ 0)) by lia. rewrite (proj2 (Z.ltb_ge _ (- 2 ^ 60 + 3))) by lia. cbn [andb]. rewrite (proj2 (Z.ltb_ge (2 ^ 60) _)) by lia. done.
Qed.

(** Truncation of a ratio to [p] bits. *)
Lemma spec_trunc s n d e p :
  0 < n -> 0 < d -> 0 < p <= 2 ^ 58 -> - 2 ^ 58 <= ratio_exponent n d e <= 2 ^ 58 ->
  let k := ratio_exponent n d e - p in
  value_equiv (bf_round_spec s n d e p BF_RNDZ).1 (V_num s ((scaled n d e k).1 / (scaled n d e k).2) k).
Proof.
  intros Hn Hd Hp HE. cbv zeta. destruct (bf_round_spec_finish s n d e p BF_RNDZ Hn Hd) as [H _]. cbv zeta in H. rewrite H. clear H.
  set (E := ratio_exponent n d e) in *. unfold spec_prec, finish_spec, round_at, prec_spec.
  change (has_flag BF_RNDZ BF_FLAG_RADPNT_PREC) with false. change (has_flag BF_RNDZ BF_FLAG_SUBNORMAL) with false.
  change (Z.shiftl 1 (bf_get_exp_bits BF_RNDZ - 1)) with (2 ^ 60). rewrite andb_false_r. cbv zeta.
  destruct (scaled n d e (E - p)) as [n' d'] eqn:Es. cbn [fst snd]. rewrite (proj2 (Z.leb_gt p 0)) by lia.
  change (round_ratio (rnd_mode_of BF_RNDZ) s n' d') with (n' / d' + 0). rewrite Z.add_0_r.
  set (E' := if n' / d' =? 2 ^ p then E + 1 else E). assert (E <= E' <= E + 1) as HE' by (unfold E'; case_match; lia).
  rewrite (proj2 (Z.ltb_ge E' _)) by lia. cbn [andb]. rewrite (proj2 (Z.ltb_ge (2 ^ 60) E')) by lia. reflexivity.
Qed.

(** Truncation to an integer. *)
Lemma spec_rint s m e :
  0 < m -> e <= 0 -> 0 < e + Z.log2 m + 1 <= 2 ^ 58 ->
  value_equiv (bf_round_spec s m 1 e 0 (Z.lor BF_RNDZ BF_FLAG_RADPNT_PREC)).1 (V_num s (m / 2 ^ (- e)) 0).
Proof.
  intros Hm He HE. destruct (bf_round_spec_finish s m 1 e 0 (Z.lor BF_RNDZ BF_FLAG_RADPNT_PREC) Hm Z.lt_0_1) as [H _]. cbv zeta in H. rewrite H. clear H.
  rewrite ratio_exponent_int by done. set (E := e + Z.log2 m + 1) in *. unfold spec_prec, finish_spec, round_at, prec_spec, scaled.
  change (has_flag (Z.lor BF_RNDZ BF_FLAG_RADPNT_PREC) BF_FLAG_RADPNT_PREC) with true. change (negb (0 =? BF_PREC_INF)) with true.
  change (Z.shiftl 1 (bf_get_exp_bits (Z.lor BF_RNDZ BF_FLAG_RADPNT_PREC) - 1)) with (2 ^ 60). cbv zeta. rewrite Z.add_0_r, Z.sub_diag.
  rewrite Z.max_l, Z.max_r, Z.pow_0_r, Z.mul_1_r, Z.mul_1_l by lia. rewrite Z.sub_0_l, (proj2 (Z.leb_gt E 0)) by lia.
  change (round_ratio (rnd_mode_of (Z.lor BF_RNDZ BF_FLAG_RADPNT_PREC)) s m (2 ^ (- e))) with (m / 2 ^ (- e) + 0). rewrite Z.add_0_r.
  set (E' := if m / 2 ^ (- e) =? 2 ^ E then E + 1 else E). assert (E <= E' <= E + 1) as HE' by (unfold E'; case_match; lia).
  rewrite (proj2 (Z.ltb_ge E' _)) by lia. cbn [andb]. rewrite (proj2 (Z.ltb_ge (2 ^ 60) E')) by lia. reflexivity.
Qed.

(** * The integer quotient *)

(** The numerator and the denominator of [ma * 2 ^ ea / (mb * 2 ^ eb)], in units of the smaller power. *)
Definition numer (ma ea eb : Z) : Z := ma * 2 ^ (ea - Z.min ea eb).
Definition denom (mb ea eb : Z) : Z := mb * 2 ^ (eb - Z.min ea eb).

Lemma log2_mul_pow m k : 0 < m -> 0 <= k -> Z.log2 (m * 2 ^ k) = Z.log2 m + k.
Proof. intros. rewrite Z.log2_mul_pow2 by lia. lia. Qed.

Lemma trunc_quotient n d ea eb k :
  0 < n -> 0 < d -> k <= 0 ->
  let '(n', d') := scaled n d (ea - eb) k in (n' / d') / 2 ^ (- k) = numer n ea eb / denom d ea eb.
Proof.
  intros Hn Hd Hk. unfold scaled, numer, denom. set (e := ea - eb). rewrite Z.div_div by (try apply Z.mul_pos_pos; lia).
  replace (ea - Z.min ea eb) with (Z.max 0 e) by lia. replace (eb - Z.min ea eb) with (Z.max 0 (- e)) by lia.
  apply div_proportional; [apply Z.mul_pos_pos; [apply Z.mul_pos_pos|]; lia|apply Z.mul_pos_pos; lia|].
  replace (n * 2 ^ Z.max 0 (e - k) * (d * 2 ^ Z.max 0 (- e))) with (n * d * (2 ^ Z.max 0 (e - k) * 2 ^ Z.max 0 (- e))) by ring.
  replace (n * 2 ^ Z.max 0 e * (d * 2 ^ Z.max 0 (k - e) * 2 ^ (- k))) with (n * d * (2 ^ Z.max 0 e * 2 ^ Z.max 0 (k - e) * 2 ^ (- k))) by ring.
  rewrite <- !Z.pow_add_r by lia. do 2 f_equal. lia.
Qed.

(** The exponent of a ratio that is at least one. *)
Lemma quotient_exponent n d ea eb :
  0 < n -> 0 < d -> denom d ea eb <= numer n ea eb ->
  let E := ratio_exponent n d (ea - eb) in let g := ea - eb + Z.log2 n - Z.log2 d in 0 < E /\ g <= E <= g + 1.
Proof.
  intros Hn Hd Hle E g. split; [|unfold E, g, ratio_exponent; case_match; lia].
  destruct (Z.lt_ge_cases 0 E) as [|HE]; [done|exfalso]. destruct (ratio_exponent_spec n d (ea - eb) Hn Hd) as [_ H]. apply H. fold E.
  apply (pow_le_mono 0); [done|done|]. unfold pow_le. unfold numer, denom in Hle.
  replace (0 - Z.min 0 (ea - eb)) with (eb - Z.min ea eb) by lia. by replace (ea - eb - Z.min 0 (ea - eb)) with (ea - Z.min ea eb) by lia.
Qed.

Lemma numer_fits m ea eb : fits m ea -> - 2 ^ 50 <= eb <= 2 ^ 50 -> 0 < numer m ea eb /\ Z.log2 (numer m ea eb) <= 2 ^ 50 + 2 ^ 51.
Proof.
  intros (Hm & Hlog & He) Heb. unfold numer. split; [apply Z.mul_pos_pos; lia|]. rewrite log2_mul_pow by lia. lia.
Qed.

Lemma denom_pos m ea eb : 0 < m -> 0 < denom m ea eb.
Proof. intros. unfold denom. apply Z.mul_pos_pos; lia. Qed.

Lemma is_bit_0 : is_bit 0.
Proof. by left. Qed.
Lemma is_bit_1 : is_bit 1.
Proof. by right. Qed.
#[local] Hint Resolve is_bit_0 is_bit_1 : core.

Section Divrem.
Context `{SHG : ShrinkGranted} {FM : FftMul}.

Lemma rint_spec r m e :
  represents r (V_num 0 m e) -> 0 < m -> e <= 0 -> 0 < e + Z.log2 m + 1 <= 2 ^ 56 -> Z.log2 m <= 2 ^ 57 ->
  hpost (bf_rint r BF_RNDZ) (fun '(r', _) => (can_refuse /\ represents r' V_nan) \/ represents r' (V_num 0 (m / 2 ^ (- e)) 0)).
Proof.
  intros Hr Hm He HE Hlog. destruct (represents_size r 0 m e Hr Hm) as [E1 E2]. pose proof Hr as (Hn & Hs & Hsame).
  unfold bf_rint. eapply hpost_mono; [apply bf_round_normal; [done|lia|]|].
  - rewrite E1. split; [split; [by vm_compute|]; split; [by vm_compute|]; split; [by vm_compute|]; split; [lia|];
      split; [intros _; right; by vm_compute|by vm_compute]|]. intros _. change (2 ^ (bf_get_exp_bits (Z.lor BF_RNDZ BF_FLAG_RADPNT_PREC) - 1)) with (2 ^ 60). lia.
  - intros [r' st] [(Hm' & _ & H)|[H _]]; [by left|right]. rewrite Hs in H. revert H. apply represents_proper. symmetry.
    etransitivity; [|by apply spec_rint; [done|done|lia]]. apply bf_round_spec_ratio; [by apply normal_pos|done|done|done|].
    unfold ratio_eq. by rewrite !Z.mul_1_r.
Qed.

(** The size of the division, at the precision of the quotient. *)
Definition divrem_size_ok (a b : bf_t) : Prop := div_size_ok a b (Z.max (expn a - expn b + 1) 2).

Lemma div_trunc q a b ma ea mb eb :
  number a (V_num 0 ma ea) -> number b (V_num 0 mb eb) -> fits ma ea -> fits mb eb -> divrem_size_ok a b -> limbs (tab q) ->
  denom mb ea eb <= numer ma ea eb ->
  hpost (bf_div false q a b (Z.max (expn a - expn b + 1) 2) BF_RNDZ) (fun '(q1, _) => hpost (bf_rint q1 BF_RNDZ)
    (fun '(q', _) => (can_refuse /\ represents q' V_nan) \/ represents q' (V_num 0 (numer ma ea eb / denom mb ea eb) 0))).
Proof.
  intros Ha Hb Fa Fb Hmax Hq Hle. destruct (represents_size a _ _ _ (proj1 Ha) (proj1 Fa)) as [Ea _]. destruct (represents_size b _ _ _ (proj1 Hb) (proj1 Fb)) as [Eb _].
  pose proof Fa as (Hma & La & Xa). pose proof Fb as (Hmb & Lb & Xb). pose proof (Z.log2_nonneg ma). pose proof (Z.log2_nonneg mb).
  set (p := Z.max (expn a - expn b + 1) 2). destruct (quotient_exponent ma mb ea eb Hma Hmb Hle) as [E1 E2]. cbv zeta in E1, E2.
  set (E := ratio_exponent ma mb (ea - eb)) in *. set (k := E - p).
  assert (op_format p BF_RNDZ) as Hf. { split; [by vm_compute|]. split; [by vm_compute|]. split; [change BF_PREC_INF with (2 ^ 62 - 1); lia|]. split; [done|]. by intros H'. }
  eapply hpost_mono; [apply (bf_div_value false q a b _ _ p BF_RNDZ Ha Hb Hq Hf); exact Hmax|]. intros [q1 st] [(Hshort & _ & Hq1)|[Hq1 _]].
  { cbn in Hq1. subst q1. unfold bf_rint. rewrite bf_round_special by done. apply hpost_ret. by left. }
  cbn [div_spec] in Hq1. change (Z.lxor 0 0) with 0 in Hq1.
  rewrite (represents_proper q1 _ _ (spec_trunc 0 ma mb (ea - eb) p Hma Hmb ltac:(lia) ltac:(unfold E in *; lia))) in Hq1. fold E k in Hq1.
  pose proof (trunc_quotient ma mb ea eb k Hma Hmb ltac:(lia)) as HQ. destruct (scaled ma mb (ea - eb) k) as [n' d']. cbn [fst snd] in Hq1.
  set (M := n' / d') in *. set (X := numer ma ea eb) in *. set (Y := denom mb ea eb) in *.
  destruct (numer_fits ma ea eb Fa Xb) as [HX HlX]. fold X in HX, HlX. pose proof (denom_pos mb ea eb Hmb) as HY. fold Y in HY.
  assert (1 <= X / Y <= X) as HXY. { split; [apply Z.div_le_lower_bound; lia|]. apply Z.div_le_upper_bound; [done|]. nia. }
  assert (0 < 2 ^ (- k)) as HK by lia. assert (2 ^ (- k) <= M < 2 ^ (- k) * (X + 1)) as HM.
  { pose proof (Z.div_mod M (2 ^ (- k)) ltac:(lia)). pose proof (Z.mod_pos_bound M (2 ^ (- k)) HK). rewrite HQ in *. nia. }
  assert (- k <= Z.log2 M <= Z.log2 X + 1 - k) as HlM.
  { split; [apply Z.log2_le_pow2; lia|]. apply Z.le_trans with (Z.log2 (2 * X * 2 ^ (- k))); [apply Z.log2_le_mono; nia|].
    rewrite log2_mul_pow, Z.log2_double by lia. lia. }
  rewrite <- HQ. apply rint_spec; [done|lia|lia|lia|lia].
Qed.

(** The product is exact. *)
Lemma mul_exact r q b vq s m e mb eb :
  number q vq -> (vq = V_nan /\ can_refuse \/ vq = V_num s m e) -> number b (V_num 0 mb eb) -> limbs (tab r) -> is_bit s -> sized (m * mb) (e + eb) ->
  hpost (bf_mul false r q b BF_PREC_INF BF_RNDZ) (fun '(r', _) => (can_refuse /\ number r' V_nan) \/ (vq <> V_nan /\ number r' (V_num s (m * mb) (e + eb)))).
Proof.
  intros Hq Hvq Hb Hr Hs Hz. eapply hpost_mono; [apply (bf_mul_value false r q b vq _ BF_PREC_INF BF_RNDZ Hq Hb Hr exact_format); by vm_compute|].
  intros [r' st] [(Hshort & _ & H)|[H _]]; [left; split; [done|by apply nan_number]|].
  destruct Hvq as [[-> Hshort] | ->]; [left; split; [done|by apply nan_number]|right; split; [done|]].
  cbn [mul_spec] in H. rewrite Z.lxor_0_r, spec_exact in H by done. by apply represents_number.
Qed.

(** The sum is exact, of status 0 unless memory is short. *)
Lemma sum_exact a b va vb e x res :
  add_result may_refuse a b va vb BF_PREC_INF BF_RNDZ res ->
  add_spec va vb BF_PREC_INF BF_RNDZ = (if x =? 0 then (V_zero 0, 0) else bf_round_spec (b2z (x <? 0)) (Z.abs x) 1 e BF_PREC_INF BF_RNDZ) ->
  (x <> 0 -> sized (Z.abs x) e) ->
  (can_refuse /\ res.2 = BF_ST_MEM_ERROR /\ represents res.1 V_nan) \/ (res.2 = 0 /\ represents res.1 (int_value (b2z (x <? 0)) (Z.abs x) e)) \/ lost_copy may_refuse a b va vb res.
Proof.
  intros [H|H] Hspec Hz; [|by right; right]. destruct res as [r st]. destruct H as [H|[H ->]]; [by left|right; left]. rewrite Hspec in *.
  unfold int_value. destruct (Z.eqb_spec x 0) as [->|Hx]; [by split|]. rewrite (proj2 (Z.eqb_neq (Z.abs x) 0)) by lia.
  rewrite spec_exact in * by (by apply Hz). done.
Qed.

Lemma represents_copy a m e m' e' : represents a (V_num 0 m e) -> same_number m e m' e' -> represents a (V_num 0 m' e').
Proof. intros Ha H. revert Ha. apply (represents_proper a (V_num 0 m e) (V_num 0 m' e')). by split. Qed.

(** [a] is less than [b]. *)
Lemma tdivremu_less q r a ma ea mb eb :
  number a (V_num 0 ma ea) -> fits ma ea -> fits mb eb -> limbs (tab r) -> numer ma ea eb < denom mb ea eb ->
  hpost (let! (q, _) := bf_set_ui q 0 in let! (r, _) := bf_set false r a in hret (q, r)) (fun '(q', r') =>
    (can_refuse /\ (represents q' V_nan \/ represents r' V_nan)) \/
    (represents q' (int_value 0 (numer ma ea eb / denom mb ea eb) 0) /\ represents r' (int_value 0 (numer ma ea eb mod denom mb ea eb) (Z.min ea eb)))).
Proof.
  intros Ha Fa Fb Hr Hlt. destruct (numer_fits ma ea eb Fa ltac:(apply Fb)) as [HX _]. rewrite Z.div_small, Z.mod_small by lia.
  apply hpost_bind. eapply hpost_mono with (P := fun '(q', _) => represents q' (V_zero 0)).
  - unfold bf_set_ui. apply hpost_bind. eapply hpost_mono; [apply bf_resize_0|]. intros q' ->. by apply hpost_ret.
  - intros [q' st] Hq. apply hpost_bind. eapply hpost_mono; [apply bf_set_spec; [done|apply Ha]|]. intros [r' st'] [->|(_ & Href & Hr')]; apply hpost_ret.
    2: { left. split; [|by right]. exists (len a * 8). apply Href. destruct (number_mant a _ _ _ Ha) as (_ & ? & _ & _ & _ & _ & ? & _). lia. }
    right. split; [done|]. unfold int_value. rewrite (proj2 (Z.eqb_neq _ 0)) by lia. apply (represents_copy a ma ea); [apply Ha|].
    apply same_number_ge; [lia|done].
Qed.

(** What the product and the difference are in units of the smaller power. *)
Lemma remainder_value ma ea mb eb :
  fits ma ea -> fits mb eb -> denom mb ea eb <= numer ma ea eb ->
  let Q := numer ma ea eb / denom mb ea eb in let R := numer ma ea eb mod denom mb ea eb in
  0 < Q /\ sized Q 0 /\ sized (Q * mb) (0 + eb) /\ (R <> 0 -> sized R (Z.min ea eb)) /\ 0 <= R /\
  (1 - 2 * 0) * ma * 2 ^ (ea - Z.min ea (0 + eb)) + (1 - 2 * 1) * (Q * mb) * 2 ^ (0 + eb - Z.min ea (0 + eb)) = R.
Proof.
  intros Fa Fb Hle Q R. pose proof Fa as (Hma & La & Xa). pose proof Fb as (Hmb & Lb & Xb).
  destruct (numer_fits ma ea eb Fa Xb) as [HX HlX]. pose proof (denom_pos mb ea eb Hmb) as HY.
  pose proof (Z.div_mod (numer ma ea eb) (denom mb ea eb) ltac:(lia)) as E. pose proof (Z.mod_pos_bound (numer ma ea eb) (denom mb ea eb) HY) as HR. fold Q R in E, HR.
  assert (0 < Q <= numer ma ea eb) as HQ by nia.
  assert (Z.log2 Q <= Z.log2 (numer ma ea eb)) as HlQ by (apply Z.log2_le_mono; lia).
  assert (Z.log2 (Q * mb) <= Z.log2 Q + Z.log2 mb + 1) as HlQb by (pose proof (Z.log2_mul_above Q mb); lia || (apply Z.log2_mul_above; lia)).
  assert (Z.log2 R <= Z.log2 (numer ma ea eb)) as HlR by (apply Z.log2_le_mono; nia).
  split; [lia|]. split; [unfold sized; lia|]. split; [split; [by apply Z.mul_pos_pos; lia|lia]|]. split; [intros ?; unfold sized; lia|]. split; [lia|].
  rewrite Z.add_0_l. change (1 - 2 * 0) with 1. change (1 - 2 * 1) with (-1). rewrite <- !Z.mul_assoc. fold (numer ma ea eb) (denom mb ea eb). lia.
Qed.

Lemma number_limbs r v : number r v -> limbs (tab r).
Proof. intros (H & _). destruct v; cbn in H; [subst r; apply Forall_nil..|apply H]. Qed.

(** The division, when [a] is not less than [b]. *)
Lemma tdivremu_ge q r a b ma ea mb eb :
  number a (V_num 0 ma ea) -> number b (V_num 0 mb eb) -> fits ma ea -> fits mb eb -> divrem_size_ok a b -> limbs (tab q) -> limbs (tab r) ->
  denom mb ea eb <= numer ma ea eb ->
  hpost (let! (q, _) := bf_div false q a b (Z.max (expn a - expn b + 1) 2) BF_RNDZ in
         let! (q, _) := bf_rint q BF_RNDZ in
         let! (r, _) := bf_mul false r q b BF_PREC_INF BF_RNDZ in
         let! (r, _) := bf_sub true r a r BF_PREC_INF BF_RNDZ in hret (q, r)) (fun '(q', r') =>
    (can_refuse /\ (represents q' V_nan \/ represents r' V_nan)) \/
    (represents q' (int_value 0 (numer ma ea eb / denom mb ea eb) 0) /\ represents r' (int_value 0 (numer ma ea eb mod denom mb ea eb) (Z.min ea eb)))).
Proof.
  intros Ha Hb Fa Fb Hmax Hq Hr Hle. destruct (remainder_value ma ea mb eb Fa Fb Hle) as (HQ & SQ & SQb & SR & HR & Ex). cbv zeta in *.
  set (Q := numer ma ea eb / denom mb ea eb) in *. set (R := numer ma ea eb mod denom mb ea eb) in *.
  apply hpost_bind. eapply hpost_mono; [by apply (div_trunc q a b ma ea mb eb)|]. intros [q1 st1] Hq1. apply hpost_bind.
  eapply hpost_mono; [exact Hq1|]. intros [q2 st2] Hq2. fold Q in Hq2.
  assert (exists vq, number q2 vq /\ (vq = V_nan /\ can_refuse \/ vq = V_num 0 Q 0)) as (vq & Nq & Hvq).
  { destruct Hq2 as [[Hshort H]|H]; [exists V_nan; split; [by apply nan_number|by left]|]. exists (V_num 0 Q 0). split; [by apply represents_number|by right]. }
  apply hpost_bind. eapply hpost_mono; [by apply (mul_exact r q2 b vq 0 Q 0 mb eb)|]. intros [r1 st3] Hr1. apply hpost_bind.
  destruct Hr1 as [[Hshort Nr]|[Hvq' Nr]].
  - eapply hpost_mono; [apply (bf_sub_value true r1 a r1 _ _ BF_PREC_INF BF_RNDZ Ha Nr (number_limbs _ _ Nr) exact_format)|].
    + intros (_ & H & _). pose proof (proj1 Nr) as H'. cbn in H'. by subst r1.
    + intros [r2 st4] H. apply hpost_ret. left. split; [done|right]. destruct H as [[(_ & _ & H)|[H _]]|[]]; exact H.
  - destruct Hvq as [[-> _]|Evq]; [done|]. subst vq. eapply hpost_mono; [apply (bf_sub_value true r1 a r1 _ _ BF_PREC_INF BF_RNDZ Ha Nr (number_limbs _ _ Nr) exact_format)|].
    + destruct (represents_size a _ _ _ (proj1 Ha) (proj1 Fa)) as [Ea _]. destruct (represents_size r1 _ _ _ (proj1 Nr) (proj1 SQb)) as [Er _].
      pose proof (Z.log2_nonneg ma). pose proof (Z.log2_nonneg (Q * mb)). unfold too_far, fits, sized in *. lia.
    + intros [r2 st4] H. apply hpost_ret. destruct (sum_exact _ _ _ _ (Z.min ea (0 + eb)) R (r2, st4) H) as [(Hshort & _ & H')|[[_ H']|[]]].
      * cbn [add_spec neg_value]. change (Z.lxor 0 1) with 1. rewrite Ex. done.
      * rewrite Z.add_0_l. by rewrite Z.abs_eq by lia.
      * left. split; [done|by right].
      * right. cbn [fst] in H'. rewrite Z.abs_eq, (proj2 (Z.ltb_ge R 0)), Z.add_0_l in H' by lia. split; [|exact H'].
        unfold int_value. rewrite (proj2 (Z.eqb_neq Q 0)) by lia. apply Nq.
Qed.

Lemma tdivremu_spec q r a b ma ea mb eb :
  number a (V_num 0 ma ea) -> number b (V_num 0 mb eb) -> fits ma ea -> fits mb eb -> divrem_size_ok a b -> limbs (tab q) -> limbs (tab r) ->
  hpost (bf_tdivremu q r a b) (fun '(q', r') =>
    (can_refuse /\ (represents q' V_nan \/ represents r' V_nan)) \/
    (represents q' (int_value 0 (numer ma ea eb / denom mb ea eb) 0) /\ represents r' (int_value 0 (numer ma ea eb mod denom mb ea eb) (Z.min ea eb)))).
Proof.
  intros Ha Hb Fa Fb Hmax Hq Hr. unfold bf_tdivremu. rewrite (number_cmp_num a b _ _ _ _ _ _ Ha Hb). apply hpost_bind, hpost_lift, post_ret.
  unfold num_cmp. fold (numer ma ea eb) (denom mb ea eb).
  destruct (Z.compare_spec (numer ma ea eb) (denom mb ea eb)) as [E|E|E]; cbn [sign_of Z.ltb Z.compare].
  - apply tdivremu_ge; try done. lia.
  - by apply tdivremu_less.
  - apply tdivremu_ge; try done. lia.
Qed.
End Divrem.

(** * The rounding of the quotient *)

(** Whether the truncated quotient [q], of remainder [r], of a division by [y] is increased. *)
Definition divrem_increases (mode q_sign a_sign q r y : Z) : bool :=
  if mode =? BF_DIVREM_EUCLIDIAN then (a_sign =? 1) && (0 <? r) else rounds_up mode q_sign q r y.

Lemma int_value_len r s m e : represents r (int_value s m e) -> (len r =? 0) = (m =? 0).
Proof.
  unfold int_value. destruct (Z.eqb_spec m 0); cbn [represents]; [by intros ->|]. intros ((_ & H & _) & _). apply Z.eqb_neq. lia.
Qed.

Lemma unit_bit q Q : represents q (int_value 0 Q 0) -> get_bit (tab q) (len q) (len q * LIMB_BITS - expn q) = Ret (b2z (Z.odd Q)).
Proof.
  unfold int_value. destruct (Z.eqb_spec Q 0) as [->|HQ]; [by intros ->|]. intros (Hn & _ & Hs). pose proof Hn as (Hl & Hz & _).
  rewrite get_bit_spec by (done || (unfold len in *; lia)). destruct (bf_normal_mant q Hn) as (_ & _ & ->). do 2 f_equal. change LIMB_BITS with 64 in *.
  set (f := expn q - 64 * len q) in *. replace (len q * 64 - expn q) with (- f) by lia. unfold same_number in Hs.
  destruct (Z.le_gt_cases f 0) as [Hf|Hf].
  - rewrite Z.min_l, Z.sub_diag, Z.pow_0_r, Z.mul_1_r, Z.sub_0_l in Hs by lia. rewrite Hs, <- Z.shiftl_mul_pow2, Z.shiftl_spec, Z.sub_diag by lia. apply Z.bit0_odd.
  - rewrite Z.min_r, Z.sub_0_r, Z.sub_diag, Z.pow_0_r, Z.mul_1_r in Hs by lia. rewrite Z.testbit_neg_r by lia. rewrite <- Hs.
    replace f with (Z.succ (f - 1)) by lia. rewrite Z.pow_succ_r, Z.odd_mul by lia. rewrite Z.odd_mul. cbn. by rewrite andb_false_r.
Qed.

Lemma half_number b m e : number b (V_num 0 m e) -> fits m e -> number (set_expn b (expn b - 1)) (V_num 0 m (e - 1)).
Proof.
  intros (Hb & Hs & Hr) (Hm & Hl & He). apply represents_number; [|done|unfold sized; lia]. destruct Hb as (Hn & Hsg & Hsame). split; [exact Hn|]. split; [exact Hsg|].
  unfold len. cbn [tab expn set_expn]. replace (expn b - 1 - LIMB_BITS * zlen (tab b)) with (expn b - LIMB_BITS * zlen (tab b) + -1) by lia.
  by apply (same_number_shift (-1)).
Qed.

(** The remainder against half of the divisor. *)
Lemma half_cmp r b R mb ea eb :
  number r (V_num 0 R (Z.min ea eb)) -> number b (V_num 0 mb eb) -> fits mb eb ->
  bf_cmpu r (set_expn b (expn b - 1)) = Ret (sign_of (2 * R ?= denom mb ea eb)).
Proof.
  intros Hr Hb Hf. rewrite (number_cmp_num _ _ _ _ _ _ _ _ Hr (half_number b mb eb Hb Hf)). do 2 f_equal. unfold denom.
  rewrite (num_cmp_at (Z.min ea eb - 1)) by lia. replace (Z.min ea eb - (Z.min ea eb - 1)) with 1 by lia. change (2 ^ 1) with 2.
  replace (eb - 1 - (Z.min ea eb - 1)) with (eb - Z.min ea eb) by lia. by rewrite (Z.mul_comm 2).
Qed.

(** An exact quotient is not changed. *)
Lemma divrem_exact mode qs as_ Q y : 0 < y -> divrem_increases mode qs as_ Q 0 y = false.
Proof.
  intros HY. unfold divrem_increases, rounds_up. rewrite (proj2 (Z.ltb_ge y (2 * 0))), (proj2 (Z.eqb_neq (2 * 0) y)), (proj2 (Z.leb_gt y (2 * 0))) by lia.
  change (0 <? 0) with false. rewrite !andb_false_r. by repeat case_match.
Qed.

Lemma divrem_up_spec q r b Q R mb ea eb mode qs as_ :
  represents q (int_value 0 Q 0) -> represents r (int_value 0 R (Z.min ea eb)) -> number b (V_num 0 mb eb) -> fits mb eb ->
  0 <= R -> (R <> 0 -> sized R (Z.min ea eb)) -> 0 <= mode <= 6 -> is_bit qs -> is_bit as_ ->
  divrem_up q r b mode qs as_ = Ret (divrem_increases mode qs as_ Q R (denom mb ea eb)).
Proof.
  intros Hq Hr Hb Hf HR Hsz Hmode Hqs Has. unfold divrem_up. rewrite (int_value_len r _ _ _ Hr). pose proof (denom_pos mb ea eb (proj1 Hf)) as HY.
  assert (mode = 0 \/ mode = 1 \/ mode = 2 \/ mode = 3 \/ mode = 4 \/ mode = 5 \/ mode = 6) as Hc by lia.
  destruct (Z.eqb_spec R 0) as [->|HR0].
  - by rewrite divrem_exact.
  - unfold divrem_increases, rounds_up. change BF_DIVREM_EUCLIDIAN with 6. change BF_RNDN with 0. change BF_RNDNA with 4. change BF_RNDZ with 1.
    change BF_RNDD with 2. change BF_RNDU with 3. change BF_RNDA with 5. rewrite (proj2 (Z.ltb_lt 0 R)), !andb_true_r by lia.
    assert (number r (V_num 0 R (Z.min ea eb))) as Nr.
    { unfold int_value in Hr. rewrite (proj2 (Z.eqb_neq R 0) HR0) in Hr. by apply represents_number; [..|apply Hsz]. }
    rewrite (half_cmp r b R mb ea eb Nr Hb Hf), (unit_bit q Q Hq). unfold divrem_is_ceil. set (Y := denom mb ea eb) in *.
    destruct Hc as [-> | [-> | [-> | [-> | [-> | [-> | ->]]]]]]; cbn [Z.eqb orb Pos.eqb obind].
    all: try (destruct Hqs as [-> | ->]; reflexivity); try (destruct Has as [-> | ->]; reflexivity); try reflexivity.
    + destruct (Z.compare_spec (2 * R) Y) as [E|E|E]; cbn [sign_of Z.ltb Z.compare Z.eqb obind].
      * rewrite E, Z.ltb_irrefl, Z.eqb_refl. cbn. by destruct (Z.odd Q).
      * rewrite (proj2 (Z.ltb_ge Y _)), (proj2 (Z.eqb_neq _ Y)) by lia. done.
      * by rewrite (proj2 (Z.ltb_lt Y _)) by lia.
    + destruct (Z.compare_spec (2 * R) Y) as [E|E|E]; cbn [sign_of Z.ltb Z.compare Z.eqb obind].
      * by rewrite (proj2 (Z.leb_le Y _)) by lia.
      * by rewrite (proj2 (Z.leb_gt Y _)) by lia.
      * by rewrite (proj2 (Z.leb_le Y _)) by lia.
Qed.

(** * The correction of the quotient *)

Lemma has_flag_lor x y f : has_flag (Z.lor x y) f = has_flag x f || has_flag y f.
Proof.
  unfold has_flag. rewrite Z.land_lor_distr_l. destruct (Z.eqb_spec (Z.land x f) 0) as [->|Hx]; cbn [negb orb]; [done|].
  rewrite (proj2 (Z.eqb_neq _ 0)); [done|]. by rewrite Z.lor_eq_0_iff; intros [H _].
Qed.

Section Next.
Context `{SHG : ShrinkGranted} {FM : FftMul}.

Lemma number_sign r s m e s' : number r (V_num s m e) -> is_bit s' -> number (set_sign r s') (V_num s' m e).
Proof. intros ((Hn & _ & Hs) & _ & Hr) Hb. split; [split; [exact Hn|by split]|]. split; [exact Hb|exact Hr]. Qed.

Lemma set_si_unit c :
  c = 1 \/ c = -1 ->
  hpost (bf_set_si bf_init c) (fun '(b, st) =>
    (can_refuse /\ st = BF_ST_MEM_ERROR /\ exists s, b = mkBf s BF_EXP_NAN []) \/ (st = 0 /\ number b (V_num (b2z (c <? 0)) 1 0))).
Proof.
  intros Hc. assert (hpost (bf_set_ui bf_init 1) (fun '(b, st) =>
    (can_refuse /\ st = BF_ST_MEM_ERROR /\ represents b V_nan) \/ (st = 0 /\ number b (V_num 0 1 0)))) as H.
  { unfold bf_set_ui. change (1 =? 0) with false. cbv zeta.
    apply hpost_bind. eapply hpost_mono; [apply bf_resize_spec; [apply Forall_nil|done]|]. intros [r ok] Hr. destruct ok; cbn [negb].
    - destruct Hr as (Hs & _ & _ & Hz & _). apply hpost_bind, hpost_lift. unfold len in Hz. destruct (tab r) as [|x [|y t]]; [done| |unfold zlen in Hz; cbn [length] in Hz; lia].
      change (wr [x] 0 (u64 (Z.shiftl 1 (clz 1)))) with (Ret [2 ^ 63]). apply post_ret, hpost_ret. right. split; [done|]. change (LIMB_BITS - clz 1) with 1. rewrite Hs.
      apply represents_number; [|done|by vm_compute]. split; [|by split]. split; [by repeat constructor|]. do 2 (split; [done|]). by exists (2 ^ 63), [].
    - apply hpost_bind. eapply hpost_mono; [apply bf_set_nan_spec|]. intros r' Hr'. apply hpost_ret. left. split; [by apply Hr|done]. }
  unfold bf_set_si. destruct Hc as [->| ->].
  - change (1 <? 0) with false. change (u64 1) with 1. eapply hpost_mono; [exact H|]. intros [b st] [(Hshort & -> & Hb)|Hb]; [left; split; [done|]; split; [done|by exists 0]|by right].
  - change (-1 <? 0) with true. change (u64 (- -1)) with 1. apply hpost_bind. eapply hpost_mono; [exact H|]. intros [b st] [(Hshort & -> & Hb)|[-> Hb]]; apply hpost_ret.
    + left. do 2 (split; [done|]). exists 1. cbn in Hb. by subst b.
    + right. split; [done|]. by apply (number_sign b 0).
Qed.

(** A sum with NaN, of any sign, gives a result. *)
Lemma add_nan_operand alias r q v s prec flags :
  number q v -> v <> V_nan -> hpost (bf_add alias r q (mkBf s BF_EXP_NAN []) prec flags) (fun _ => True).
Proof.
  intros Hq Hv. unfold bf_add, bf_op2, __bf_add, bf_add_internal. assert (expn q < BF_EXP_NAN) as HE.
  { assert (BF_EXP_NAN = BF_EXP_INF + 1) as EN by done. destruct v as [|s'|s'|s' m e]; [done|..]; pose proof (proj1 Hq) as H; cbn in H; [by subst q..|].
    destruct (in_range_expn q (proj2 (proj2 Hq))) as (X & _). lia. }
  rewrite cmpu_expn by (cbn [expn]; lia). cbn [expn]. rewrite (proj2 (Z.ltb_lt _ _)) by lia. apply hpost_bind, hpost_lift, post_ret.
  cbn [Z.ltb Z.compare Z.eqb andb]. apply hpost_bind. eapply hpost_mono; [apply bf_set_nan_spec|]. intros r' _. by apply hpost_ret.
Qed.

(** Two numbers of the sizes that occur are near enough. *)
Lemma sized_near a b s m e s' m' e' prec : represents a (V_num s m e) -> represents b (V_num s' m' e') -> sized m e -> sized m' e' -> ~ too_far a b prec.
Proof.
  intros Ha Hb (Hm & Hl & He) (Hm' & Hl' & He'). destruct (represents_size a _ _ _ Ha Hm) as [Ea _]. destruct (represents_size b _ _ _ Hb Hm') as [Eb _].
  pose proof (Z.log2_nonneg m). pose proof (Z.log2_nonneg m'). unfold too_far. lia.
Qed.

(** One is added to an integer, or subtracted from it. *)
Lemma add_unit_spec alias r q s Q c :
  number q (int_value s Q 0) -> is_bit s -> limbs (tab r) -> c = 1 \/ c = -1 -> 0 <= Q -> (Q <> 0 -> sized Q 0) -> Z.log2 (Q + 1) < 2 ^ 55 ->
  let x := (1 - 2 * s) * Q + c in
  hpost (bf_add_si alias r q c BF_PREC_INF BF_RNDZ) (fun '(q', st) =>
    (can_refuse /\ has_flag st BF_ST_MEM_ERROR = true) \/
    (st = 0 /\ (represents q' (int_value (b2z (x <? 0)) (Z.abs x) 0) \/ (Q = 0 /\ may_refuse 8 /\ represents q' (V_zero (b2z (c <? 0))))))).
Proof.
  intros Hq Hsg Hr Hc HQ Hs Hl x. unfold bf_add_si. apply hpost_bind. eapply hpost_mono; [by apply set_si_unit|]. intros [b st] [(Hshort & -> & sb & ->)|[-> Hb]].
  - apply hpost_bind. eapply hpost_mono; [apply (add_nan_operand alias r q _ sb _ _ Hq); unfold int_value; by case_match|].
    intros [q' st'] _. apply hpost_ret. left. split; [done|]. by rewrite has_flag_lor.
  - assert (sized 1 0) as S1 by (by vm_compute). apply hpost_bind.
    eapply hpost_mono; [apply (bf_add_value alias r q b _ _ BF_PREC_INF BF_RNDZ Hq Hb Hr exact_format)|].
    + unfold int_value in Hq. destruct (Z.eqb_spec Q 0) as [EQ|HQ0].
      * pose proof (proj1 Hq) as H. cbn in H. subst q. by intros (H & _).
      * eapply sized_near; [apply Hq|apply Hb|by apply Hs|done].
    + intros [q' st'] H. apply hpost_ret. rewrite Z.lor_0_l. destruct (sum_exact _ _ _ _ 0 x (q', st') H) as [(Hshort & E & _)|[[E H']|H']]; cbn [fst snd] in *.
      * unfold int_value, x. destruct (Z.eqb_spec Q 0) as [->|HQ0]; cbn [add_spec].
        -- rewrite Z.mul_0_r. by destruct Hc as [-> | ->].
        -- change (Z.min 0 0) with 0. change (2 ^ (0 - 0)) with 1.
           replace ((1 - 2 * s) * Q * 1 + (1 - 2 * b2z (c <? 0)) * 1 * 1) with ((1 - 2 * s) * Q + c) by (destruct Hc as [-> | ->]; cbn; lia). done.
      * intros Hx. split; [lia|]. split; [|lia]. eapply Z.le_lt_trans; [apply Z.log2_le_mono|exact Hl]. unfold x. destruct Hsg as [->| ->]; lia.
      * left. by subst st'.
      * right. split; [done|]. by left.
      * right. unfold int_value in H'. destruct (Z.eqb_spec Q 0) as [EQ|HQ0]; [|done]. destruct H' as (Href & H' & ->). split; [done|]. right.
        destruct (represents_size b _ _ _ (proj1 Hb) Z.lt_0_1) as [_ Hlb]. destruct (number_mant b _ _ _ Hb) as (_ & Hzb & _). change (Z.log2 1) with 0 in Hlb.
        assert (len b = 1) as El by lia. rewrite El in Href. done.
Qed.

(** The quotient increased by one. *)
Lemma increment_spec q Q :
  number q (int_value 0 Q 0) -> 0 <= Q -> (Q <> 0 -> sized Q 0) -> Z.log2 (Q + 1) < 2 ^ 55 ->
  hpost (bf_add_si true q q 1 BF_PREC_INF BF_RNDZ) (fun '(q', st) =>
    (can_refuse /\ has_flag st BF_ST_MEM_ERROR = true) \/ (st = 0 /\ (represents q' (V_num 0 (Q + 1) 0) \/ (Q = 0 /\ may_refuse 8 /\ represents q' (V_zero 0))))).
Proof.
  intros Hq HQ Hs Hl. eapply hpost_mono; [apply (add_unit_spec true q q 0 Q 1 Hq is_bit_0 (number_limbs _ _ Hq)); [by left|done..]|].
  intros [q' st]. cbv zeta. change (1 - 2 * 0) with 1. rewrite Z.mul_1_l, (proj2 (Z.ltb_ge (Q + 1) 0)), Z.abs_eq by lia. unfold int_value.
  by rewrite (proj2 (Z.eqb_neq (Q + 1) 0)) by lia.
Qed.

Lemma divrem_next_spec q r b Q R mb ea eb :
  number q (int_value 0 Q 0) -> number r (V_num 0 R (Z.min ea eb)) -> number b (V_num 0 mb eb) -> 0 <= Q -> (Q <> 0 -> sized Q 0) ->
  Z.log2 (Q + 1) < 2 ^ 55 -> sized R (Z.min ea eb) -> fits mb eb -> R < denom mb ea eb -> Z.log2 (denom mb ea eb) < 2 ^ 55 ->
  hpost (divrem_next q r b) (fun '(q', r', st) =>
    (can_refuse /\ has_flag st BF_ST_MEM_ERROR = true) \/
    (has_flag st BF_ST_MEM_ERROR = false /\ represents r' (V_num 1 (denom mb ea eb - R) (Z.min ea eb)) /\
     (represents q' (V_num 0 (Q + 1) 0) \/ (Q = 0 /\ may_refuse 8 /\ represents q' (V_zero 0))))).
Proof.
  intros Hq Hr Hb HQ SQ HlQ SR Fb HRY HlY. pose proof SR as (HR & _ & He0). pose proof Fb as (Hmb & Lb & Xb). unfold divrem_next.
  assert (sized mb eb) as Sb by (unfold sized; lia).
  apply hpost_bind. eapply hpost_mono; [by apply increment_spec|]. intros [q1 st1] Hq1. apply hpost_bind.
  eapply hpost_mono; [apply (bf_sub_value true r r b _ _ BF_PREC_INF BF_RNDZ Hr Hb (number_limbs _ _ Hr) exact_format); by eapply sized_near; [apply Hr|apply Hb|..]|].
  intros [r1 st2] H. apply hpost_ret. rewrite has_flag_lor. destruct Hq1 as [[Hshort E]|[-> Hq1]]; [left; split; [done|]; by rewrite E|].
  destruct (sum_exact _ _ _ _ (Z.min ea eb) (R - denom mb ea eb) (r1, st2) H) as [(Hshort & E & _)|[[E H']|[]]]; cbn [fst snd] in *.
  - cbn [add_spec neg_value]. change (Z.lxor 0 1) with 1. rewrite (Z.min_l (Z.min ea eb) eb), Z.sub_diag, Z.pow_0_r by lia.
    change (1 - 2 * 0) with 1. change (1 - 2 * 1) with (-1). rewrite <- !Z.mul_assoc. fold (denom mb ea eb).
    by replace (1 * (R * 1) + -1 * denom mb ea eb) with (R - denom mb ea eb) by lia.
  - intros _. replace (Z.abs (R - denom mb ea eb)) with (denom mb ea eb - R) by lia. split; [lia|]. split; [|lia].
    eapply Z.le_lt_trans; [apply Z.log2_le_mono|exact HlY]. lia.
  - left. by subst st2.
  - right. subst st2. split; [done|]. split; [|done]. rewrite (proj2 (Z.ltb_lt _ 0)) in H' by lia. unfold int_value in H'.
    rewrite (proj2 (Z.eqb_neq _ 0)) in H' by lia. by replace (Z.abs (R - denom mb ea eb)) with (denom mb ea eb - R) in H' by lia.
Qed.

(** * The division *)

(** The quotient is the ratio rounded to an integer; the remainder, exact before the last rounding, is what is left.
    A quotient of zero that must become one is lost when the eight bytes of its copy are refused. *)
Definition divrem_result (mode sa ma ea sb mb eb prec flags : Z) '(q, r, st) : Prop :=
  let X := numer ma ea eb in let Y := denom mb ea eb in let q_sign := Z.lxor sa sb in
  let up := divrem_increases mode q_sign sa (X / Y) (X mod Y) Y in
  let rem := int_value (Z.lxor (b2z up) sa) (if up then Y - X mod Y else X mod Y) (Z.min ea eb) in
  (can_refuse /\ st = BF_ST_MEM_ERROR /\ represents r V_nan) \/
  (represents r (round_spec rem prec flags).1 /\ st = (round_spec rem prec flags).2 /\
   (represents q (int_value q_sign (X / Y + b2z up) 0) \/ (X / Y = 0 /\ up = true /\ may_refuse 8 /\ represents q (V_zero q_sign)))).

Lemma with_sign r s m e s' : represents r (int_value s m e) -> represents (set_sign r s') (int_value s' m e).
Proof.
  unfold int_value. destruct (m =? 0); cbn [represents]; [by intros ->|]. intros (Hn & _ & Hs). split; [exact Hn|]. by split.
Qed.

Lemma fail_spec (q r : bf_t) mode sa ma ea sb mb eb prec flags :
  can_refuse ->
  hpost (let! q := bf_set_nan q in let! r := bf_set_nan r in hret (q, r, BF_ST_MEM_ERROR)) (divrem_result mode sa ma ea sb mb eb prec flags).
Proof.
  intros Hs. apply hpost_bind. eapply hpost_mono; [apply bf_set_nan_spec|]. intros q' _. apply hpost_bind.
  eapply hpost_mono; [apply bf_set_nan_spec|]. intros r' Hr. apply hpost_ret. by left.
Qed.

Lemma int_value_not_nan r s m e : number r (int_value s m e) -> bf_is_nan r = false.
Proof.
  unfold int_value. destruct (m =? 0); intros (Hr & _ & Hi); [cbn in Hr; by subst r|]. by destruct (in_range_expn r Hi) as (_ & -> & _).
Qed.

Lemma quotient_bounds ma ea mb eb :
  fits ma ea -> fits mb eb ->
  let Y := denom mb ea eb in let Q := numer ma ea eb / Y in let R := numer ma ea eb mod Y in
  0 <= Q /\ (Q <> 0 -> sized Q 0) /\ Z.log2 (Q + 1) < 2 ^ 55 /\ 0 <= R < Y /\ (R <> 0 -> sized R (Z.min ea eb)) /\ Z.log2 Y < 2 ^ 55.
Proof.
  intros Fa Fb Y Q R. pose proof Fa as (Hma & La & Xa). pose proof Fb as (Hmb & Lb & Xb).
  destruct (numer_fits ma ea eb Fa Xb) as [HX HlX]. pose proof (denom_pos mb ea eb Hmb) as HY. fold Y in HY.
  assert (Z.log2 Y <= 2 ^ 50 + 2 ^ 51) as HlY by (unfold Y, denom; rewrite log2_mul_pow by lia; lia).
  pose proof (Z.mod_pos_bound (numer ma ea eb) Y HY) as HR. fold R in HR. assert (0 <= Q) as HQ by (apply Z.div_pos; lia).
  assert (Q <= numer ma ea eb) as HQX by (apply Z.div_le_upper_bound; nia).
  assert (Z.log2 Q <= Z.log2 (numer ma ea eb)) as HlQ by (apply Z.log2_le_mono; lia).
  assert (Z.log2 R <= Z.log2 Y) as HlR by (apply Z.log2_le_mono; lia). pose proof (Z.log2_succ_le Q) as HlS. rewrite <- Z.add_1_r in HlS.
  unfold sized. lia.
Qed.

(** The last rounding, and the signs. *)
Lemma divrem_finish q r mode sa ma ea sb mb eb prec flags s m :
  let Y := denom mb ea eb in let Q := numer ma ea eb / Y in let up := divrem_increases mode (Z.lxor sa sb) sa Q (numer ma ea eb mod Y) Y in
  represents r (int_value s m (Z.min ea eb)) -> (m <> 0 -> sized m (Z.min ea eb)) -> is_bit s -> is_bit sa ->
  s = b2z up -> m = (if up then Y - numer ma ea eb mod Y else numer ma ea eb mod Y) -> op_format prec flags ->
  represents q (int_value 0 (Q + b2z up) 0) \/ (Q = 0 /\ up = true /\ may_refuse 8 /\ represents q (V_zero 0)) ->
  hpost (let! (r, ret) := bf_round (set_sign r (Z.lxor (sign r) sa)) prec flags in hret (set_sign q (Z.lxor sa sb), r, ret))
    (divrem_result mode sa ma ea sb mb eb prec flags).
Proof.
  intros Y Q up Hr Hm Hs Hsa Es Em Hf Hq. assert (sign r = s) as ->.
  { unfold int_value in Hr. destruct (m =? 0); [cbn in Hr; by subst r|apply Hr]. }
  pose proof (with_sign r s m _ (Z.lxor s sa) Hr) as Hr'. destruct (lxor_bits s sa Hs Hsa) as (Hb & _).
  pose proof (int_value_number _ _ _ _ Hr' Hb Hm) as Nr. apply hpost_bind.
  eapply hpost_mono; [apply (bf_round_value _ _ prec flags Nr)|].
  - intros s' m' e' E. unfold int_value in E. destruct (Z.eqb_spec m 0) as [E0|Hm0]; [discriminate E|]. apply op_rounding_ok; [done|].
    unfold int_value in Nr. rewrite (proj2 (Z.eqb_neq m 0) Hm0) in Nr.
    destruct Nr as (_ & _ & Hin & _). cbn [expn set_sign] in *. lia.
  - intros [r1 st] [(Hshort & -> & H)|[H ->]]; apply hpost_ret; [by left|right]. rewrite Es, Em in H |- *. split; [exact H|]. split; [done|].
    destruct Hq as [Hq|(E1 & E2 & E3 & Hq)]; [left; by apply (with_sign q 0)|right]. do 3 (split; [done|]). cbn in Hq. by subst q.
Qed.

Lemma bf_divrem_value q r a b sa ma ea sb mb eb prec flags mode :
  number a (V_num sa ma ea) -> number b (V_num sb mb eb) -> fits ma ea -> fits mb eb -> divrem_size_ok a b -> limbs (tab q) -> limbs (tab r) ->
  op_format prec flags -> 0 <= mode <= 6 ->
  hpost (bf_divrem q r a b prec flags mode) (divrem_result mode sa ma ea sb mb eb prec flags).
Proof.
  intros Ha Hb Fa Fb Hmax Hq Hr Hf Hmode. destruct (number_mant a _ _ _ Ha) as (_ & Hza & _ & Hma & Esa & _). destruct (number_mant b _ _ _ Hb) as (_ & Hzb & _ & Hmb & Esb & _).
  pose proof (proj1 (proj2 Ha) : is_bit (sign a)) as Ba. pose proof (proj1 (proj2 Hb) : is_bit (sign b)) as Bb. rewrite Esa in Ba. rewrite Esb in Bb.
  unfold bf_divrem. rewrite !(proj2 (Z.eqb_neq (len _) 0)) by lia. cbn [orb]. cbv zeta. rewrite Esa, Esb.
  destruct (quotient_bounds ma ea mb eb Fa Fb) as (HQ & SQ & HlQ & HR & SR & HlY). cbv zeta in *. destruct (lxor_bits sa sb Ba Bb) as (Bq & _).
  pose proof (number_sign a _ _ _ 0 Ha is_bit_0) as Na. pose proof (number_sign b _ _ _ 0 Hb is_bit_0) as Nb.
  apply hpost_bind. eapply hpost_mono; [by apply (tdivremu_spec q r _ _ ma ea mb eb)|]. intros [q1 r1] [[Hs [H|H]]|[Hq1 Hr1]].
  1: cbn in H; subst q1; by apply fail_spec. 1: cbn in H; subst r1; cbn [bf_is_nan expn]; rewrite orb_true_r; by apply fail_spec.
  pose proof (int_value_number _ _ _ _ Hq1 is_bit_0 SQ) as Nq1. pose proof (int_value_number _ _ _ _ Hr1 is_bit_0 SR) as Nr1.
  rewrite (int_value_not_nan _ _ _ _ Nq1), (int_value_not_nan _ _ _ _ Nr1). cbn [orb].
  rewrite (divrem_up_spec q1 r1 _ _ _ mb ea eb mode _ sa Hq1 Hr1 Nb Fb (proj1 HR) SR Hmode Bq Ba). apply hpost_bind, hpost_lift, post_ret.
  set (up := divrem_increases mode (Z.lxor sa sb) sa _ _ _). destruct up eqn:Eup; apply hpost_bind.
  - assert (numer ma ea eb mod denom mb ea eb <> 0) as HR0 by (intros E0; unfold up in Eup; rewrite E0, divrem_exact in Eup; [done|lia]).
    assert (number r1 (V_num 0 (numer ma ea eb mod denom mb ea eb) (Z.min ea eb))) as Nr by (unfold int_value in Nr1; by rewrite (proj2 (Z.eqb_neq _ 0) HR0) in Nr1).
    eapply hpost_mono; [apply (divrem_next_spec q1 r1 _ _ _ mb ea eb Nq1 Nr Nb HQ SQ HlQ (SR HR0) Fb); lia|].
    intros [[q2 r2] st] [[Hs ->]|(-> & Hr2 & Hq2)]; [by apply fail_spec|].
    apply (divrem_finish q2 r2 mode sa ma ea sb mb eb prec flags 1 (denom mb ea eb - numer ma ea eb mod denom mb ea eb)); fold up; rewrite ?Eup; try done.
    + unfold int_value. by rewrite (proj2 (Z.eqb_neq _ 0)) by lia.
    + intros _. destruct (SR HR0) as (_ & _ & HE). split; [lia|]. split; [|done]. eapply Z.le_lt_trans; [apply Z.log2_le_mono|exact HlY]. lia.
    + destruct Hq2 as [H|(H1 & H2 & H3)]; [left|by right]. cbn [b2z]. unfold int_value. by rewrite (proj2 (Z.eqb_neq _ 0)) by lia.
  - apply hpost_ret. change (has_flag 0 BF_ST_MEM_ERROR) with false.
    apply (divrem_finish q1 r1 mode sa ma ea sb mb eb prec flags 0 (numer ma ea eb mod denom mb ea eb)); fold up; rewrite ?Eup; try done.
    left. cbn [b2z]. by rewrite Z.add_0_r.
Qed.

(** ** An operand without limbs *)

Definition divrem_special_spec (va vb : bf_value) (prec flags : Z) : bf_value * Z :=
  match va, vb with
  | V_nan, _ | _, V_nan => (V_nan, 0)
  | V_inf _, _ | _, V_zero _ => (V_nan, BF_ST_INVALID_OP)
  | _, _ => round_spec va prec flags
  end.

(** The quotient is zero and the remainder is [a], unless it is not defined.  When the block of the copy of [a]
    is refused, the remainder is NaN and no error is reported. *)
Definition divrem_special (a : bf_t) (va vb : bf_value) (prec flags : Z) '(q, r, st) : Prop :=
  represents q (V_zero 0) /\
  (result_is (divrem_special_spec va vb prec flags) (r, st) \/
   match va with V_num _ _ _ => may_refuse (len a * 8) /\ represents r V_nan /\ st = 0 | _ => False end).

Lemma divrem_undefined q r a va vb st spec prec flags :
  represents q (V_zero 0) -> spec = (V_nan, st) -> divrem_special_spec va vb prec flags = spec ->
  hpost (let! r := bf_set_nan r in hret (q, r, st)) (divrem_special a va vb prec flags).
Proof.
  intros Hq -> Es. apply hpost_bind. eapply hpost_mono; [apply bf_set_nan_spec|]. intros r' Hr. apply hpost_ret. split; [done|]. left. rewrite Es. by right.
Qed.

(** The remainder is [a]. *)
Lemma divrem_copy q r a va vb prec flags :
  represents q (V_zero 0) -> number a va -> limbs (tab r) -> op_format prec flags -> divrem_special_spec va vb prec flags = round_spec va prec flags ->
  hpost (let! (r, _) := bf_set false r a in let! (r, ret) := bf_round r prec flags in hret (q, r, ret)) (divrem_special a va vb prec flags).
Proof.
  intros Hq Ha Hr Hf Es. apply hpost_bind. eapply hpost_mono; [apply bf_set_spec; [done|by eapply number_limbs]|]. intros [r1 st] [->|(Hlt & Href & Hr1)]; apply hpost_bind.
  - eapply hpost_mono; [apply (bf_round_value a va prec flags Ha)|].
    + intros s m e ->. apply op_rounding_ok; [done|]. destruct Ha as (_ & _ & Hin & _). lia.
    + intros [r2 st2] H. apply hpost_ret. split; [done|]. left. by rewrite Es.
  - cbn in Hr1. subst r1. rewrite bf_round_special by done. apply hpost_ret. apply hpost_ret. split; [done|]. right.
    destruct va as [| | |s m e]; try done.
    4: { split; [apply Href|done]. destruct Ha as (_ & _ & _ & Hs). unfold small_tab, len in *. lia. }
    all: pose proof (proj1 Ha) as H; cbn in H; by subst a.
Qed.

Lemma bf_divrem_special q r a b va vb prec flags mode :
  number a va -> number b vb -> (forall s m e, va <> V_num s m e) \/ (forall s m e, vb <> V_num s m e) -> limbs (tab r) -> op_format prec flags ->
  hpost (bf_divrem q r a b prec flags mode) (divrem_special a va vb prec flags).
Proof.
  intros Ha Hb Hsp Hr Hf. unfold bf_divrem.
  assert ((len a =? 0) || (len b =? 0) = true) as ->.
  { destruct (number_len a va Ha) as [(s & m & e & -> & _)|[_ ->]]; [|done]. destruct (number_len b vb Hb) as [(s' & m' & e' & -> & _)|[_ ->]]; [|by rewrite orb_true_r].
    destruct Hsp as [H|H]; [by destruct (H s m e)|by destruct (H s' m' e')]. }
  apply hpost_bind. eapply hpost_mono; [apply bf_set_zero_spec|]. intros q1 Hq1.
  assert (forall v x, number x v -> bf_is_nan x = (match v with V_nan => true | _ => false end) /\ (expn x =? BF_EXP_INF) = (match v with V_inf _ => true | _ => false end) /\
    bf_is_zero x = (match v with V_zero _ => true | _ => false end)) as Htest.
  { intros v x (Hv & _ & Hi). destruct v; cbn in Hv; [by subst x..|]. by destruct (in_range_expn x Hi) as (_ & -> & -> & -> & _). }
  destruct (Htest va a Ha) as (-> & -> & _). destruct (Htest vb b Hb) as (-> & _ & ->). clear Htest.
  destruct va, vb; cbn [orb]; try (by eapply divrem_undefined); try (by apply divrem_copy).
Qed.

(** All operands. *)
Definition fits_value (v : bf_value) : Prop := match v with V_num _ m e => fits m e | _ => True end.

Definition divrem_ok (mode : Z) (a : bf_t) (va vb : bf_value) (prec flags : Z) : bf_t * bf_t * Z -> Prop :=
  match va, vb with
  | V_num sa ma ea, V_num sb mb eb => divrem_result mode sa ma ea sb mb eb prec flags
  | _, _ => divrem_special a va vb prec flags
  end.

Lemma bf_divrem_all q r a b va vb prec flags mode :
  number a va -> number b vb -> fits_value va -> fits_value vb -> divrem_size_ok a b -> limbs (tab q) -> limbs (tab r) -> op_format prec flags -> 0 <= mode <= 6 ->
  hpost (bf_divrem q r a b prec flags mode) (divrem_ok mode a va vb prec flags).
Proof.
  intros Ha Hb Fa Fb Hmax Hq Hr Hf Hmode. unfold divrem_ok. destruct va as [|sa|sa|sa ma ea]; [apply bf_divrem_special; try done; by left..|].
  destruct vb as [|sb|sb|sb mb eb]; [apply bf_divrem_special; try done; by right..|]. by apply bf_divrem_value.
Qed.
End Next.
