(* ===== verification/BfSqrt.v ===== *)
(** Square roots of the numbers of [libbf.c].

    The mantissa is extended or cut to [2 * n] limbs, its square root is taken, and the bits that are lost on the way
    are remembered in the lowest bit of the root.  [sqrt_spec] rounds the square root, which is not a ratio, from any
    number of its digits that is large enough. *)
From Stdlib Require Import ZArith Lia Bool List Setoid.
From stdpp Require Import base tactics list numbers.
From S2P Require Import Prelude IntFmt Alloc Limb MpMul MpDiv MpRecip MpSqrt Bf BfRound BfRatio BfRoundOk BfOps BfCmp BfMulDiv BfCancel BfAdd BfSum BfDivrem.

(** * The routines *)

Section Sqrt.
Context `{SH : Shrinker} {FM : FftMul}.

(** The highest limbs of the mantissa in a block of [2 * n] limbs, and how many they are. *)
Definition sqrt_operand (a : bf_t) (n : Z) (a1 : list Z) : outcome (list Z * Z) :=
  let n1 := Z.min (2 * n) (len a) in
  let* a1 := wr_slice a1 0 (replicate (Z.to_nat (2 * n - n1)) 0) in
  let* t := rd_slice (tab a) (len a - n1) n1 in
  let* a1 := wr_slice a1 (2 * n - n1) t in
  Ret (a1, n1).

(** Whether the root is inexact: the bit shifted out, the remainder, the limbs of the operand that are not used. *)
Definition sqrt_lost (a : bf_t) (n n1 res : Z) (a1 : list Z) : outcome Z :=
  let* res := if res =? 0 then let* t := rd_slice a1 0 (n + 1) in Ret (mp_scan_nz t) else Ret res in
  if res =? 0 then let* t := rd_slice (tab a) 0 (len a - n1) in Ret (mp_scan_nz t) else Ret res.

(** The square root of a positive number. *)
Definition sqrt_number (r a : bf_t) (prec flags : Z) : heap_m (bf_t * Z) :=
  let n := u64 (2 * (prec + 2) + 2 * LIMB_BITS - 1) / (2 * LIMB_BITS) in
  let! (r, ok) := bf_resize r n in
  if negb ok then bf_mem_error r
  else
    let! a1 := (bf_malloc (2 * n) : heap_m (option (list Z))) in
    match a1 with
    | None => bf_mem_error r
    | Some a1 =>
        let! (a1, n1) := hlift (sqrt_operand a n a1) in
        let! (a1, res) := hlift (if negb (Z.land (expn a) 1 =? 0) then mp_shr a1 1 0 else Ret (a1, 0)) in
        let! root := (mp_sqrtrem (tab r) a1 : heap_m (option (list Z * list Z))) in
        match root with
        | None => bf_mem_error r
        | Some (t, a1) =>
            let! res := hlift (sqrt_lost a n n1 res a1) in
            let! t := hlift (if negb (res =? 0) then let* x := rd t 0 in wr t 0 (Z.lor x 1) else Ret t) in
            bf_round (mkBf 0 (Z.shiftr (i64 (expn a + 1)) 1) t) prec flags
        end
    end.

Definition bf_sqrt (r a : bf_t) (prec flags : Z) : heap_m (bf_t * Z) :=
  if len a =? 0 then
    if bf_is_nan a then let! r := bf_set_nan r in hret (r, 0)
    else if (expn a =? BF_EXP_INF) && negb (sign a =? 0) then let! r := bf_set_nan r in hret (r, BF_ST_INVALID_OP)
    else let! (r, _) := bf_set false r a in hret (r, 0)
  else if negb (sign a =? 0) then let! r := bf_set_nan r in hret (r, BF_ST_INVALID_OP)
  else sqrt_number r a prec flags.

(** The remainder is wanted when [rem1] is given; here it is zero. *)
Definition sqrt_no_rem (rem1 : option bf_t) (r : bf_t) (ret : Z) : heap_m (bf_t * option bf_t * Z) :=
  match rem1 with
  | Some rem => let! (rem, _) := bf_set_ui rem 0 in hret (r, Some rem, ret)
  | None => hret (r, None, ret)
  end.

Definition bf_sqrtrem (r : bf_t) (rem1 : option bf_t) (a : bf_t) : heap_m (bf_t * option bf_t * Z) :=
  if len a =? 0 then
    if bf_is_nan a then let! r := bf_set_nan r in sqrt_no_rem rem1 r 0
    else if (expn a =? BF_EXP_INF) && negb (sign a =? 0) then let! r := bf_set_nan r in sqrt_no_rem rem1 r BF_ST_INVALID_OP
    else let! (r, _) := bf_set false r a in sqrt_no_rem rem1 r 0
  else if negb (sign a =? 0) then let! r := bf_set_nan r in sqrt_no_rem rem1 r BF_ST_INVALID_OP
  else
    let! (r, _) := bf_sqrt r a (u64 (Z.quot (i64 (expn a + 1)) 2)) BF_RNDZ in
    let! (r, _) := bf_rint r BF_RNDZ in
    let rem := default bf_init rem1 in
    let! (rem, _) := bf_mul false rem r r BF_PREC_INF BF_RNDZ in
    let! (rem, _) := bf_add true (bf_neg rem) (bf_neg rem) a BF_PREC_INF BF_RNDZ in
    hret (r, option_map (fun _ => rem) rem1,
          if bf_is_nan rem then BF_ST_MEM_ERROR else if negb (len rem =? 0) then BF_ST_INEXACT else 0).
End Sqrt.

(** * The integer square root *)

Lemma sqrt_shift x k : 0 <= x -> 0 <= k -> Z.sqrt (x * 2 ^ (2 * k)) / 2 ^ k = Z.sqrt x.
Proof.
  intros Hx Hk. assert (2 ^ (2 * k) = 2 ^ k * 2 ^ k) as -> by (rewrite <- Z.pow_add_r by lia; f_equal; lia). set (P := 2 ^ k). assert (0 < P) as HP by (unfold P; lia).
  pose proof (Z.sqrt_spec x Hx) as Hs. cbv zeta in Hs. pose proof (Z.sqrt_nonneg x) as H0. symmetry. apply Z.div_unique with (Z.sqrt (x * (P * P)) - P * Z.sqrt x); [left|lia].
  assert (P * Z.sqrt x <= Z.sqrt (x * (P * P))) as H1 by (apply Z.sqrt_le_square; nia).
  assert (Z.sqrt (x * (P * P)) < P * (Z.sqrt x + 1)) as H2 by (apply Z.sqrt_lt_square; nia). lia.
Qed.

Lemma bf_isqrt_value a : in_u64 a -> bf_isqrt a = Ret (Z.sqrt a).
Proof.
  intros Ha. unfold bf_isqrt. destruct (Z.eqb_spec a 0) as [->|Hnz]; [done|]. destruct (clz_spec a Ha) as (C1 & C2 & C3). pose proof (clz_lt a Ha Hnz) as C4.
  set (c := clz a) in *. destruct C3 as [?|C3]; [lia|]. unfold in_u64 in Ha.
  assert (Z.land c (Z.lnot 1) = 2 * (c / 2)) as ->.
  { rewrite <- Z.ldiff_land. change 1 with (Z.ones 1). rewrite Z.ldiff_ones_r, Z.shiftl_mul_pow2, Z.shiftr_div_pow2, Z.pow_1_r by lia. apply Z.mul_comm. }
  set (k := c / 2). assert (0 <= k /\ 2 * k <= c /\ c <= 2 * k + 1) as (Hk & Hk1 & Hk2) by (unfold k; Z.to_euclidean_division_equations; lia).
  rewrite Z.shiftl_mul_pow2 by lia. assert (2 ^ 62 <= a * 2 ^ (2 * k) < 2 ^ 64) as Hr.
  { split; [apply Z.le_trans with (2 ^ (63 - c) * 2 ^ (2 * k)); [rewrite <- Z.pow_add_r by lia; apply Z.pow_le_mono_r; lia|apply Z.mul_le_mono_nonneg_r; lia]|].
    apply Z.lt_le_trans with (2 ^ (64 - c) * 2 ^ (2 * k)); [apply Z.mul_lt_mono_pos_r; lia|rewrite <- Z.pow_add_r by lia; apply Z.pow_le_mono_r; lia]. }
  rewrite u64_id by (unfold in_u64; lia). destruct (mp_sqrtrem1_spec _ Hr) as (s & r & -> & Hs & _). cbn [obind]. destruct (is_sqrt_spec _ _ _ Hs) as [-> _].
  assert (Z.shiftr (2 * k) 1 = k) as -> by (rewrite Z.shiftr_div_pow2, Z.pow_1_r, Z.mul_comm by lia; by apply Z.div_mul). by rewrite Z.shiftr_div_pow2, sqrt_shift by lia.
Qed.

(** * The rounding of a square root *)

(** The digits of the square root of [X], followed by a bit that says whether there are more. *)
Definition sqrt_digits (X : Z) : Z := 2 * Z.sqrt X + b2z (negb (Z.sqrt X * Z.sqrt X =? X)).

(** The square root of [X'], cut to the unit [2 ^ d] with a sticky bit, from the number cut to the unit [2 ^ (2 * d)]. *)
Lemma sqrt_digits_sticky X d :
  0 <= X -> 0 <= d -> let A := X / 2 ^ (2 * d) in
  sqrt_digits X / 2 ^ (d + 1) = Z.sqrt A /\
  sticky (sqrt_digits X) (2 ^ (d + 1)) = if (Z.sqrt A * Z.sqrt A =? A) && (X mod 2 ^ (2 * d) =? 0) then Z.sqrt A else Z.lor (Z.sqrt A) 1.
Proof.
  intros HX Hd A. assert (2 ^ (2 * d) = 2 ^ d * 2 ^ d) as E2 by (rewrite <- Z.pow_add_r by lia; f_equal; lia). unfold A. rewrite E2, Z.pow_add_r, Z.pow_1_r by lia.
  set (P := 2 ^ d). assert (0 < P) as HP by (unfold P; lia). pose proof (Z.div_mod X (P * P) ltac:(nia)) as E. pose proof (Z.mod_pos_bound X (P * P) ltac:(nia)) as Hm.
  set (Q := X / (P * P)) in *. set (M := X mod (P * P)) in *. assert (0 <= Q) as HQ by (apply Z.div_pos; nia).
  pose proof (Z.sqrt_spec Q HQ) as HsQ. pose proof (Z.sqrt_spec X HX) as HsX. cbv zeta in *. pose proof (Z.sqrt_nonneg Q) as H0. pose proof (Z.sqrt_nonneg X) as H0'.
  set (s := Z.sqrt Q) in *. set (S' := Z.sqrt X) in *. unfold sqrt_digits. fold S'.
  assert (P * s <= S') as H1 by (apply Z.sqrt_le_square; nia). assert (S' < P * (s + 1)) as H2 by (apply Z.sqrt_lt_square; nia).
  set (b := b2z (negb (S' * S' =? X))). assert (0 <= b <= 1) as Hb by apply b2z_range.
  assert ((2 * S' + b) / (P * 2) = s /\ (2 * S' + b) mod (P * 2) = 2 * S' + b - P * 2 * s) as [D1 D2].
  { split; symmetry; [apply Z.div_unique with (2 * S' + b - P * 2 * s)|apply Z.mod_unique with s]; (left; lia) || lia. }
  split; [exact D1|]. unfold sticky. rewrite D1, D2. assert ((2 * S' + b - P * 2 * s =? 0) = ((s * s =? Q) && (M =? 0))) as ->; [|by destruct (_ && _)].
  apply eq_true_iff_eq. rewrite andb_true_iff, !Z.eqb_eq. unfold b. split.
  - intros H. destruct (Z.eqb_spec (S' * S') X) as [Es|Es]; cbn [negb b2z] in H; [|lia]. assert (S' = P * s) as E3 by lia. rewrite E3 in Es. split; nia.
  - intros [Es Em]. assert (X = (P * s) * (P * s)) as EX by nia. assert (S' = P * s) as E3 by (unfold S'; rewrite EX; apply Z.sqrt_square; nia).
    rewrite E3, <- EX, Z.eqb_refl. cbn [negb b2z]. lia.
Qed.

(** However many digits of the root are used, it rounds to the same number. *)
Lemma sqrt_round_at X d f prec flags :
  0 <= X -> 0 <= d -> op_format prec flags -> let A := X / 2 ^ (2 * d) in 0 < A -> prec + 2 <= Z.log2 (Z.sqrt A) + 1 ->
  spec_equiv (bf_round_spec 0 (if (Z.sqrt A * Z.sqrt A =? A) && (X mod 2 ^ (2 * d) =? 0) then Z.sqrt A else Z.lor (Z.sqrt A) 1) 1 f prec flags)
             (bf_round_spec 0 (sqrt_digits X) 1 (f - d - 1) prec flags).
Proof.
  intros HX Hd Hf A HA Hp. destruct (sqrt_digits_sticky X d HX Hd) as [Eq Est]. cbv zeta in Eq, Est. fold A in Eq, Est. rewrite <- Est.
  pose proof Hf as (_ & _ & Hp0 & Hrad & _). assert (0 < 2 ^ (d + 1)) as HP by lia. assert (0 < Z.sqrt A) as Hs by (apply Z.sqrt_pos; lia).
  assert (2 ^ (d + 1) <= sqrt_digits X) as HT.
  { pose proof (Z.div_mod (sqrt_digits X) (2 ^ (d + 1)) ltac:(lia)) as E. pose proof (Z.mod_pos_bound (sqrt_digits X) (2 ^ (d + 1)) HP). rewrite Eq in E. nia. }
  destruct (sticky_spec (sqrt_digits X) (2 ^ (d + 1)) HP ltac:(lia)) as [Hle _]. cbv zeta in Hle. rewrite Eq in Hle.
  pose proof (ratio_exponent_sticky (sqrt_digits X) (2 ^ (d + 1)) f HP HT) as HE. rewrite ratio_exponent_int in HE by lia.
  pose proof (Z.log2_le_mono _ _ (proj1 Hle)) as Hlog. etransitivity; [apply bf_round_spec_sticky; [done|done|]|].
  - pose proof (spec_prec_le (ratio_exponent (sqrt_digits X) (2 ^ (d + 1)) f) prec flags Hrad). lia.
  - apply bf_round_spec_ratio; try lia. unfold ratio_eq. rewrite Z.mul_1_r. apply same_number_ge; [lia|]. f_equal. f_equal. lia.
Qed.

(** * The steps of the code *)

Lemma sqrt_operand_spec a n a1 :
  limbs (tab a) -> 0 < n -> limbs a1 -> zlen a1 = 2 * n ->
  post (sqrt_operand a n a1) (fun '(a1', n1) => n1 = Z.min (2 * n) (len a) /\ limbs a1' /\ zlen a1' = 2 * n /\
    value a1' = value (tab a) * 2 ^ (64 * (2 * n - n1)) / 2 ^ (64 * (len a - n1))).
Proof.
  intros La Hn L1 Z1. unfold sqrt_operand, len. pose proof (zlen_nonneg (tab a)). set (n1 := Z.min (2 * n) (zlen (tab a))).
  assert (0 <= n1 <= 2 * n /\ n1 <= zlen (tab a) /\ (n1 = 2 * n \/ n1 = zlen (tab a))) as (Hn1 & Hn2 & Hn3) by (unfold n1; lia). clearbody n1. set (z := replicate (Z.to_nat (2 * n - n1)) 0).
  assert (zlen z = 2 * n - n1) as Hz by (unfold z; rewrite zlen_replicate; lia). destruct (block_halves a1 (2 * n - n1) ltac:(lia)) as (z0 & t0 & -> & Hz0 & Ht0).
  rewrite (wr_slice_first z0) by lia. cbn [obind]. destruct (block_halves (tab a) (zlen (tab a) - n1) ltac:(lia)) as (lo & hi & Et & Hlo & Hhi). rewrite Et in *.
  rewrite (rd_slice_last lo hi) by lia. cbn [obind]. rewrite (wr_slice_last z t0 hi) by lia. cbn [obind]. apply post_ret. apply Forall_app in La as [Llo Lhi].
  split; [done|]. split; [apply limbs_app; [apply limbs_replicate_0|done]|]. split; [rewrite zlen_app; lia|]. rewrite !value_app. unfold z at 1. rewrite value_replicate_0. unfold base_pow.
  rewrite Hz, Hlo, !LB_pow2, Z.add_0_l by lia. pose proof (value_bound lo Llo) as Hb. unfold base_pow in Hb. rewrite Hlo, LB_pow2 in Hb by lia.
  destruct (Z.le_gt_cases (zlen (lo ++ hi)) (2 * n)) as [Hc|Hc].
  - assert (zlen (lo ++ hi) - n1 = 0) as E0 by lia. rewrite E0 in *. change (2 ^ (64 * 0)) with 1 in *. rewrite Z.div_1_r. lia.
  - assert (2 * n - n1 = 0) as E0 by lia. rewrite E0. change (2 ^ (64 * 0)) with 1. rewrite Z.mul_1_l, Z.mul_1_r. apply Z.div_unique with (value lo); [left; lia|lia].
Qed.

Definition parity (E : Z) : Z := E mod 2.

Lemma land_parity E : Z.land E 1 = parity E.
Proof. change 1 with (Z.ones 1). by rewrite Z.land_ones by lia. Qed.

(** A number is shifted by one bit when its exponent is odd. *)
Lemma sqrt_shift_spec E t :
  limbs t -> post (if negb (Z.land E 1 =? 0) then mp_shr t 1 0 else Ret (t, 0)) (fun '(t', res) =>
    limbs t' /\ zlen t' = zlen t /\ value t' = value t / 2 ^ parity E /\ res = value t mod 2 ^ parity E).
Proof.
  intros Hl. rewrite land_parity. unfold parity. pose proof (Z.mod_pos_bound E 2 ltac:(lia)) as Hm. destruct (Z.eqb_spec (E mod 2) 0) as [->|Hne]; cbn [negb].
  - apply post_ret. rewrite Z.pow_0_r, Z.div_1_r, Z.mod_1_r. done.
  - assert (E mod 2 = 1) as -> by lia. eapply post_mono; [apply (mp_shr_spec t 1 0 Hl); [done|lia]|]. intros [t' r] (Lt & Zt & Hr & Ev).
    rewrite Z.pow_1_r, Z.mod_0_l, Z.mul_0_r, Z.add_0_r in * by lia. split; [done|]. split; [unfold zlen; by rewrite Zt|].
    split; [apply Z.div_unique with r|apply Z.mod_unique with (value t')]; (left; lia) || lia.
Qed.

(** The bits that are lost in the operand. *)
Lemma lost_bits V u w0 c :
  0 <= V -> 0 <= u -> 0 <= w0 -> 0 <= c -> u = 0 \/ w0 = 0 ->
  V * 2 ^ u / 2 ^ w0 / 2 ^ c = V * 2 ^ u / 2 ^ (w0 + c) /\ ((V * 2 ^ u) mod 2 ^ (w0 + c) = 0 <-> (V * 2 ^ u / 2 ^ w0) mod 2 ^ c = 0 /\ V mod 2 ^ w0 = 0).
Proof.
  intros HV Hu Hw Hc Huw. split; [by rewrite Z.pow_add_r, Z.div_div by lia|]. rewrite mod_pow_add by lia.
  assert ((V * 2 ^ u) mod 2 ^ w0 = V mod 2 ^ w0) as -> by (destruct Huw as [->| ->]; [by rewrite Z.pow_0_r, Z.mul_1_r|by rewrite Z.pow_0_r, !Z.mod_1_r]).
  pose proof (Z.mod_pos_bound V (2 ^ w0) ltac:(lia)). pose proof (Z.mod_pos_bound (V * 2 ^ u / 2 ^ w0) (2 ^ c) ltac:(lia)). assert (0 < 2 ^ w0) by lia. nia.
Qed.

Lemma sqrt_lost_spec a n n1 res t :
  limbs (tab a) -> 0 <= n1 <= len a -> limbs t -> 0 < n -> n + 1 <= zlen t ->
  post (sqrt_lost a n n1 res t) (fun r => r = 0 <-> value (take (Z.to_nat (n + 1)) t) = 0 /\ res = 0 /\ value (tab a) mod 2 ^ (64 * (len a - n1)) = 0).
Proof.
  intros La Hn1 Lt Hn Hz. unfold sqrt_lost, len in *. pose proof (zlen_nonneg (tab a)).
  assert (forall l k, limbs l -> 0 <= k <= zlen l -> rd_slice l 0 k = Ret (take (Z.to_nat k) l) /\ mp_scan_nz (take (Z.to_nat k) l) = b2z (negb (value (take (Z.to_nat k) l) =? 0))) as Hscan.
  { intros l k Hl Hk. split; [by rewrite rd_slice_in by lia|]. apply mp_scan_nz_spec. by apply limbs_take. }
  destruct (Hscan t (n + 1) Lt ltac:(lia)) as [-> S1]. destruct (Hscan (tab a) (zlen (tab a) - n1) La ltac:(lia)) as [-> S2].
  rewrite (value_take_mod (zlen (tab a) - n1)) in S2 by (done || lia). rewrite LB_pow2 in S2 by lia. cbn [obind].
  destruct (Z.eqb_spec res 0) as [->|Hr]; cbn [obind]; [rewrite S1; destruct (Z.eqb_spec (value (take (Z.to_nat (n + 1)) t)) 0); cbn [negb b2z Z.eqb]|].
  - apply post_ret. rewrite S2. destruct (Z.eqb_spec (value (tab a) mod 2 ^ (64 * (zlen (tab a) - n1))) 0); cbn; lia.
  - apply post_ret. lia.
  - rewrite (proj2 (Z.eqb_neq res 0)) by done. apply post_ret. lia.
Qed.

(** * Square roots *)

(** The square root of a value, from its digits down to the unit [2 ^ f]. *)
Definition sqrt_spec (f : Z) (v : bf_value) (prec flags : Z) : bf_value * Z :=
  match v with
  | V_nan => (V_nan, 0)
  | V_inf s => if s =? 0 then (V_inf 0, 0) else (V_nan, BF_ST_INVALID_OP)
  | V_zero s => (V_zero s, 0)
  | V_num s m e => if s =? 0 then bf_round_spec 0 (sqrt_digits (m * 2 ^ (e - 2 * f))) 1 (f - 1) prec flags else (V_nan, BF_ST_INVALID_OP)
  end.

(** The unit is small enough: the digits of the square root include those of the result and two more. *)
Definition sqrt_unit (f : Z) (v : bf_value) (prec : Z) : Prop :=
  match v with V_num _ m e => 2 * f <= e /\ prec + 2 <= Z.log2 (Z.sqrt (m * 2 ^ (e - 2 * f))) + 1 | _ => True end.

(** Any two units that are small enough give the same result. *)
Lemma sqrt_unit_equiv X k f prec flags :
  0 < X -> 0 <= k -> op_format prec flags -> prec + 2 <= Z.log2 (Z.sqrt X) + 1 ->
  spec_equiv (bf_round_spec 0 (sqrt_digits (X * 2 ^ (2 * k))) 1 (f - k - 1) prec flags) (bf_round_spec 0 (sqrt_digits X) 1 (f - 1) prec flags).
Proof.
  intros HX Hk Hf Hp. assert (0 < 2 ^ (2 * k)) as HP by lia.
  assert (X * 2 ^ (2 * k) / 2 ^ (2 * k) = X /\ (X * 2 ^ (2 * k)) mod 2 ^ (2 * k) = 0) as [E1 E2] by (split; [apply Z.div_mul; lia|apply Z.mod_mul; lia]).
  pose proof (sqrt_round_at (X * 2 ^ (2 * k)) k f prec flags ltac:(nia) Hk Hf) as H1. cbv zeta in H1. rewrite E1, E2 in H1. specialize (H1 HX Hp).
  pose proof (sqrt_round_at X 0 f prec flags ltac:(lia) ltac:(lia) Hf) as H2. cbv zeta in H2. change (2 ^ (2 * 0)) with 1 in H2. rewrite Z.div_1_r, Z.mod_1_r, Z.sub_0_r in H2. specialize (H2 HX Hp).
  etransitivity; [symmetry; exact H1|exact H2].
Qed.

Lemma sqrt_rounded a m e n u w f prec flags :
  number a (V_num 0 m e) -> op_format prec flags -> sqrt_unit f (V_num 0 m e) prec -> 0 <= u -> 0 <= w -> u - w = 128 * n - 64 * len a - parity (expn a) ->
  let Y := value (tab a) * 2 ^ u in let A := Y / 2 ^ w in 0 < A -> prec + 2 <= Z.log2 (Z.sqrt A) + 1 ->
  spec_equiv (bf_round_spec 0 (if (Z.sqrt A * Z.sqrt A =? A) && (Y mod 2 ^ w =? 0) then Z.sqrt A else Z.lor (Z.sqrt A) 1) 1 ((expn a + 1) / 2 - 64 * n) prec flags)
             (sqrt_spec f (V_num 0 m e) prec flags).
Proof.
  intros Ha Hf [Hu1 Hu2] Hu Hw Huw Y A HA Hp. destruct (number_mant a 0 m e Ha) as (_ & Hz & HV & Hm & _ & Hs & _). unfold bf_exp in Hs. change LIMB_BITS with 64 in Hs.
  set (V := value (tab a)) in *. set (E := expn a) in *. set (e' := E - 64 * len a) in *. set (f0 := (E + 1) / 2 - 64 * n).
  assert (e' - 2 * f0 = u - w) as Ef.
  { unfold f0, parity in *. pose proof (Z.div_mod E 2 ltac:(lia)). pose proof (Z.mod_pos_bound E 2 ltac:(lia)). pose proof (Z.div_mod (E + 1) 2 ltac:(lia)). pose proof (Z.mod_pos_bound (E + 1) 2 ltac:(lia)). unfold e'. lia. }
  set (f1 := Z.min f (f0 - w)). set (D := f0 - f1). assert (0 <= D /\ w <= D /\ f1 <= f /\ 2 * f1 <= e' /\ 2 * f1 <= e) as (HD & HDw & Hf1 & Hf2 & Hf3) by (unfold D, f1; lia).
  set (X := m * 2 ^ (e - 2 * f1)). assert (X = V * 2 ^ (e' - 2 * f1)) as EX by (symmetry; by apply (same_number_iff (2 * f1) V e' m e)).
  assert (X = Y * 2 ^ (2 * D - w)) as EX2. { rewrite EX. unfold Y. rewrite <- Z.mul_assoc, <- Z.pow_add_r by lia. do 2 f_equal. unfold D. lia. }
  assert (2 ^ (2 * D) = 2 ^ w * 2 ^ (2 * D - w)) as EP by (rewrite <- Z.pow_add_r by lia; f_equal; lia).
  assert (X / 2 ^ (2 * D) = A) as EA by (rewrite EX2, EP; apply Z.div_mul_cancel_r; lia).
  assert ((X mod 2 ^ (2 * D) =? 0) = (Y mod 2 ^ w =? 0)) as EM.
  { rewrite EX2, EP, Z.mul_mod_distr_r by lia. assert (0 < 2 ^ (2 * D - w)) by lia. apply eq_true_iff_eq. rewrite !Z.eqb_eq. nia. }
  assert (0 <= X) as HX by (unfold X; apply Z.mul_nonneg_nonneg; lia). pose proof (sqrt_round_at X D f0 prec flags HX HD Hf) as H1. cbv zeta in H1. rewrite EA, EM in H1.
  etransitivity; [exact (H1 HA Hp)|]. cbn [sqrt_spec Z.eqb]. pose proof (sqrt_unit_equiv (m * 2 ^ (e - 2 * f)) (f - f1) f prec flags ltac:(apply Z.mul_pos_pos; lia) ltac:(lia) Hf Hu2) as H2.
  replace (m * 2 ^ (e - 2 * f) * 2 ^ (2 * (f - f1))) with X in H2 by (unfold X; rewrite <- Z.mul_assoc, <- Z.pow_add_r by lia; do 2 f_equal; lia).
  replace (f - (f - f1) - 1) with (f0 - D - 1) in H2 by (unfold D; lia). exact H2.
Qed.

(** The lowest bit of the root is set when something is lost. *)
Lemma sqrt_set_bit t res :
  limbs t -> 0 < zlen t ->
  post (if negb (res =? 0) then let* x := rd t 0 in wr t 0 (Z.lor x 1) else Ret t)
    (fun t' => limbs t' /\ zlen t' = zlen t /\ value t' = if res =? 0 then value t else Z.lor (value t) 1).
Proof.
  intros Hl Hz. destruct (Z.eqb_spec res 0) as [->|Hr]; cbn [negb]; [by apply post_ret|].
  pose proof (set_sticky t 1 Hl Hz) as H. change (b2z (negb (1 =? 0))) with 1 in H. change (1 =? 0) with false in H. cbv iota in H.
  destruct (rd t 0) as [x|]; [|done]. cbn [post obind] in *. exact H.
Qed.

Section Value.
Context `{SHG : ShrinkGranted} {FM : FftMul}.

(** The rounding of the root. *)
Lemma sqrt_finish a m e n u w f prec flags t :
  number a (V_num 0 m e) -> op_format prec flags -> sqrt_unit f (V_num 0 m e) prec -> 0 <= u -> 0 <= w -> u - w = 128 * n - 64 * len a - parity (expn a) ->
  0 < n <= 2 ^ 53 -> prec + 2 <= 64 * n -> limbs t -> zlen t = n ->
  let Y := value (tab a) * 2 ^ u in let A := Y / 2 ^ w in 2 ^ (128 * n - 2) <= A ->
  value t = (if (Z.sqrt A * Z.sqrt A =? A) && (Y mod 2 ^ w =? 0) then Z.sqrt A else Z.lor (Z.sqrt A) 1) ->
  hpost (bf_round (mkBf 0 (Z.shiftr (i64 (expn a + 1)) 1) t) prec flags) (result_is (sqrt_spec f (V_num 0 m e) prec flags)).
Proof.
  intros Ha Hf Hunit Hu Hw Huw Hn Hp Lt Zt Y A HA Ev. destruct (number_mant a 0 m e Ha) as (_ & _ & _ & _ & _ & _ & _ & HE).
  assert (2 ^ (64 * n - 1) <= Z.sqrt A) as Hs. { apply Z.sqrt_le_square; [lia|lia|]. rewrite <- Z.pow_add_r by lia. by replace (64 * n - 1 + (64 * n - 1)) with (128 * n - 2) by lia. }
  assert (64 * n - 1 <= Z.log2 (Z.sqrt A)) as Hlog by (apply Z.log2_le_pow2; lia).
  assert (2 ^ (64 * n - 1) <= value t) as Htop.
  { rewrite Ev. case_match; [done|]. rewrite lor_1 by lia. pose proof (Z.div_mod (Z.sqrt A) 2 ltac:(lia)). pose proof (Z.mod_pos_bound (Z.sqrt A) 2 ltac:(lia)). lia. }
  rewrite i64_id by (unfold in_i64; lia). rewrite Z.shiftr_div_pow2, Z.pow_1_r by lia. set (E' := (expn a + 1) / 2).
  assert (- 2 ^ 61 <= E' <= 2 ^ 61) as HE' by (unfold E'; Z.to_euclidean_division_equations; lia).
  unfold bf_round, len. cbn [tab]. rewrite (proj2 (Z.eqb_neq (zlen t) 0)) by lia. assert (mant t (zlen t) = value t) as Em by (unfold mant, zlen; by rewrite Nat2Z.id, firstn_all).
  eapply hpost_mono; [apply __bf_round_in; unfold len; cbn [tab expn sign]; rewrite ?Em, ?Zt; [done|lia|done|lia|by apply op_rounding_ok; [|lia]]|].
  intros res Hres. apply (result_in_is _ _ _ (mem_short_refuse _ _ _)) in Hres. cbn [tab expn sign] in Hres. rewrite Em, Ev, Zt in Hres. revert Hres. apply result_is_equiv.
  assert (0 < 2 ^ (128 * n - 2)) as HP by lia. assert (0 < A) as HA0 by lia. assert (prec + 2 <= Z.log2 (Z.sqrt A) + 1) as Hpl by lia. by apply sqrt_rounded.
Qed.

Lemma sqrt_number_spec r a m e f prec flags :
  number a (V_num 0 m e) -> limbs (tab r) -> op_format prec flags -> prec <= 2 ^ 36 - 2 -> sqrt_unit f (V_num 0 m e) prec ->
  hpost (sqrt_number r a prec flags) (result_is (sqrt_spec f (V_num 0 m e) prec flags)).
Proof.
  intros Ha Hr Hf Hprec Hunit. pose proof Hf as (_ & _ & Hp & _). destruct (number_mant a 0 m e Ha) as (La & Hz & HV & _ & _ & _ & HVb & HE).
  unfold sqrt_number. change (2 * LIMB_BITS) with 128. rewrite u64_id by (unfold in_u64; lia). set (n := (2 * (prec + 2) + 128 - 1) / 128).
  pose proof (Z.div_mod (2 * (prec + 2) + 128 - 1) 128 ltac:(lia)) as Ediv. pose proof (Z.mod_pos_bound (2 * (prec + 2) + 128 - 1) 128 ltac:(lia)) as Hmod. fold n in Ediv.
  assert (0 < n <= 2 ^ 30 /\ prec + 2 <= 64 * n) as [Hn Hpn] by lia. clear Ediv Hmod. clearbody n.
  apply hpost_bind. eapply hpost_mono; [apply bf_resize_spec; [done|lia]|]. intros [r1 ok] Hr1. destruct ok; cbn [negb]; [|apply bf_mem_error_spec, Hr1; lia].
  destruct Hr1 as (_ & _ & Lr1 & Zr1 & _). unfold len in Zr1. apply hpost_bind.
  eapply hpost_mono; [apply hpost_alloc, (mpost_malloc (2 * n) (fun t => limbs t /\ zlen t = 2 * n)); [lia|done]|]. intros [a1|]; [|apply bf_mem_error_spec]. intros [L1 Z1].
  apply hpost_bind, hpost_lift. eapply post_mono; [by apply sqrt_operand_spec; [|lia| |]|]. intros [a2 n1] (En1 & L2 & Z2 & V2).
  apply hpost_bind, hpost_lift. eapply post_mono; [by apply (sqrt_shift_spec (expn a) a2)|]. intros [a3 res] (L3 & Z3 & V3 & Eres).
  assert (0 <= parity (expn a) <= 1) as Hpar by (unfold parity; pose proof (Z.mod_pos_bound (expn a) 2 ltac:(lia)); lia). set (c := parity (expn a)) in *. set (V := value (tab a)) in *.
  set (u := 64 * (2 * n - n1)) in *. set (w0 := 64 * (len a - n1)) in *. assert (0 <= n1 <= len a) as Hn1 by lia.
  assert (0 <= u /\ 0 <= w0 /\ (u = 0 \/ w0 = 0) /\ u - (w0 + c) = 128 * n - 64 * len a - c) as (Hu & Hw0 & Huw & Ediff) by (unfold u, w0; lia).
  destruct (lost_bits V u w0 c ltac:(lia) Hu Hw0 ltac:(lia) Huw) as [EA Elost]. rewrite V2 in V3, Eres. rewrite EA in V3. set (A := V * 2 ^ u / 2 ^ (w0 + c)) in *.
  assert (2 ^ (128 * n - 2) <= A) as HA.
  { apply Z.div_le_lower_bound; [lia|]. apply Z.le_trans with (2 ^ (64 * len a - 1) * 2 ^ u); [|apply Z.mul_le_mono_nonneg_r; lia]. rewrite <- !Z.pow_add_r by lia. apply Z.pow_le_mono_r; lia. }
  apply hpost_bind. eapply hpost_mono; [apply hpost_alloc, (mp_sqrtrem_spec (tab r1) a3); [lia|done|lia|]|].
  { rewrite Zr1, LB_pow2, <- Z.pow_add_r, V3 by lia. replace (64 * n + 64 * n) with (2 + (128 * n - 2)) by lia. rewrite Z.pow_add_r by lia. change (2 ^ 2) with 4. lia. }
  intros [[t a4]|]; [|apply bf_mem_error_spec]. rewrite Zr1. intros (Lt & Zt & L4 & Z4 & Hroot). rewrite V3 in Hroot. destruct (is_sqrt_spec _ _ _ Hroot) as [Et Erem].
  apply hpost_bind, hpost_lift. eapply post_mono; [apply (sqrt_lost_spec a n n1 res a4); done || lia|]. intros res' Hlost. fold w0 V in Hlost.
  apply hpost_bind, hpost_lift. eapply post_mono; [apply (sqrt_set_bit t res' Lt); lia|]. intros t' (Lt' & Zt' & Vt').
  apply (sqrt_finish a m e n u (w0 + c) f prec flags t'); try done; [lia|lia|lia|]. fold V A. rewrite Vt', Et.
  assert (res' = 0 <-> Z.sqrt A * Z.sqrt A = A /\ (V * 2 ^ u) mod 2 ^ (w0 + c) = 0) as Hiff by (rewrite Hlost, Elost, Erem, Eres; lia).
  destruct (Z.eqb_spec res' 0) as [E0|E0], (Z.eqb_spec (Z.sqrt A * Z.sqrt A) A) as [E1|E1], (Z.eqb_spec ((V * 2 ^ u) mod 2 ^ (w0 + c)) 0) as [E2|E2]; cbn [andb]; try done; exfalso; tauto.
Qed.

(** [bf_sqrt] rounds the square root of any number correctly. *)
Lemma bf_sqrt_value r a v f prec flags :
  number a v -> limbs (tab r) -> op_format prec flags -> (forall m e, v = V_num 0 m e -> prec <= 2 ^ 36 - 2) -> sqrt_unit f v prec ->
  hpost (bf_sqrt r a prec flags) (result_is (sqrt_spec f v prec flags)).
Proof.
  intros Ha Hr Hf Hp Hu. unfold bf_sqrt. destruct (number_len a v Ha) as [(s & m & e & -> & Hl)|[Hsp Hl]].
  - rewrite (proj2 (Z.eqb_neq (len a) 0)) by lia. destruct (number_mant a s m e Ha) as (_ & _ & _ & _ & Es & _). rewrite Es.
    destruct (Z.eqb_spec s 0) as [->|Hs]; cbn [negb]; [apply sqrt_number_spec; try done; by eapply Hp|]. apply ret_nan. cbn [sqrt_spec]. by rewrite (proj2 (Z.eqb_neq s 0)).
  - rewrite Hl. cbn [Z.eqb]. pose proof (proj1 Ha) as Ra. pose proof (proj1 (proj2 Ha)) as Bs. destruct v as [|s|s|s m e]; [| | |by destruct (Hsp s m e)]; cbn in Ra; subst a; cbn in Bs.
    + by apply ret_nan.
    + change (bf_is_nan (mkBf s BF_EXP_INF [])) with false. cbn [expn sign]. rewrite Z.eqb_refl. cbn [andb sqrt_spec]. destruct (Z.eqb_spec s 0) as [->|Hs]; cbn [negb]; [|by apply ret_nan].
      apply hpost_bind. eapply hpost_mono; [apply bf_set_spec; [done|apply Forall_nil]|]. intros [r1 st] [->|[? _]]; [|done]. apply hpost_ret. by right.
    + change (bf_is_nan (mkBf s BF_EXP_ZERO [])) with false. cbn [expn andb sqrt_spec]. 
      apply hpost_bind. eapply hpost_mono; [apply bf_set_spec; [done|apply Forall_nil]|]. intros [r1 st] [->|[? _]]; [|done]. apply hpost_ret. by right.
Qed.

(** ** The integer square root with remainder *)

Lemma log2_sqrt M : 0 < M -> Z.log2 (Z.sqrt M) = Z.log2 M / 2.
Proof.
  intros HM. pose proof (Z.log2_spec M HM) as H. pose proof (Z.log2_nonneg M). set (k := Z.log2 M / 2).
  assert (0 <= k /\ 2 * k <= Z.log2 M < 2 * k + 2) as [Hk Hlk] by (unfold k; Z.to_euclidean_division_equations; lia).
  apply Z.log2_unique; [done|]. split; [apply Z.sqrt_le_square|apply Z.sqrt_lt_square]; try lia; rewrite <- Z.pow_add_r by lia.
  - apply Z.le_trans with (2 ^ Z.log2 M); [apply Z.pow_le_mono_r; lia|lia].
  - apply Z.lt_le_trans with (2 ^ Z.succ (Z.log2 M)); [lia|apply Z.pow_le_mono_r; lia].
Qed.

(** Truncation of the square root of an integer to the bits before the radix point. *)
Lemma sqrt_trunc M :
  0 < M -> Z.log2 M < 2 ^ 50 -> let p := (Z.log2 M + 2) / 2 in
  0 < p <= 2 ^ 50 /\ sqrt_unit (-2) (V_num 0 M 0) p /\ value_equiv (sqrt_spec (-2) (V_num 0 M 0) p BF_RNDZ).1 (V_num 0 (Z.sqrt M) 0).
Proof.
  intros HM Hl p. pose proof (Z.log2_nonneg M) as Hl0. assert (p = Z.log2 M / 2 + 1) as Ep by (unfold p; replace (Z.log2 M + 2) with (Z.log2 M + 1 * 2) by lia; by rewrite Z.div_add by lia).
  assert (0 <= Z.log2 M / 2 <= 2 ^ 49) as Hl2 by (Z.to_euclidean_division_equations; lia). split; [lia|].
  assert (Z.log2 (Z.sqrt (M * 2 ^ 4)) = Z.log2 M / 2 + 2) as El.
  { rewrite log2_sqrt by lia. rewrite log2_mul_pow by lia. replace (Z.log2 M + 4) with (Z.log2 M + 2 * 2) by lia. by rewrite Z.div_add by lia. }
  split; [cbn [sqrt_unit]; change (0 - 2 * -2) with 4; lia|]. cbn [sqrt_spec Z.eqb]. change (0 - 2 * -2) with 4. change (-2 - 1) with (-3).
  destruct (sqrt_digits_sticky (M * 2 ^ 4) 2 ltac:(lia) ltac:(lia)) as [E3 _]. change (2 * 2) with 4 in E3. change (2 + 1) with 3 in E3. rewrite Z.div_mul in E3 by lia.
  set (T := sqrt_digits (M * 2 ^ 4)) in *. assert (Z.log2 T = Z.log2 M / 2 + 3) as ElT.
  { unfold T, sqrt_digits. set (s := Z.sqrt (M * 2 ^ 4)) in *. assert (0 < s) as Hs by (apply Z.sqrt_pos; lia). destruct (negb _); cbn [b2z].
    - rewrite Z.log2_succ_double by lia. lia.
    - rewrite Z.add_0_r, Z.log2_double by lia. lia. }
  assert (0 < T) as HT. { destruct (Z.lt_ge_cases 0 T) as [|HT]; [done|]. rewrite Z.log2_nonpos in ElT by lia. lia. }
  pose proof (spec_trunc 0 T 1 (-3) p HT Z.lt_0_1 ltac:(lia)) as Htr. rewrite ratio_exponent_int in Htr by done. cbv zeta in Htr.
  replace (-3 + Z.log2 T + 1 - p) with 0 in Htr by lia. cbn [scaled fst snd] in Htr. change (Z.max 0 (-3 - 0)) with 0 in Htr. change (Z.max 0 (0 - -3)) with 3 in Htr.
  rewrite Z.pow_0_r, Z.mul_1_r, Z.mul_1_l, E3 in Htr. apply Htr. lia.
Qed.

Lemma set_ui_0 r : hpost (bf_set_ui r 0) (fun '(r', st) => represents r' (V_zero 0)).
Proof. unfold bf_set_ui. apply hpost_bind. eapply hpost_mono; [apply bf_resize_0|]. intros r' ->. by apply hpost_ret. Qed.

(** A NaN of any sign is absorbing. *)
Lemma add_nan_left alias r s a v prec flags :
  number a v -> v <> V_nan -> hpost (bf_add alias r (mkBf s BF_EXP_NAN []) a prec flags) (fun '(r', _) => represents r' V_nan).
Proof.
  intros Ha Hv. unfold bf_add, bf_op2, __bf_add, bf_add_internal. assert (expn a < BF_EXP_NAN) as HE.
  { assert (BF_EXP_NAN = BF_EXP_INF + 1) as EN by done. destruct v as [|s'|s'|s' m e]; [done|..]; pose proof (proj1 Ha) as H; cbn in H; [by subst a..|].
    destruct (in_range_expn a (proj2 (proj2 Ha))) as (X & _). lia. }
  rewrite cmpu_expn by (cbn [expn]; lia). cbn [expn]. rewrite (proj2 (Z.ltb_ge _ _)) by lia. apply hpost_bind, hpost_lift, post_ret.
  cbn [Z.ltb Z.compare Z.eqb andb]. apply hpost_bind. eapply hpost_mono; [apply bf_set_nan_spec|]. intros r' Hr'. by apply hpost_ret.
Qed.

(** The result for a number other than a positive one, and the remainder is zero. *)
Definition sqrtrem_special (v : bf_value) : bf_value * Z :=
  match v with
  | V_nan => (V_nan, 0)
  | V_inf s => if s =? 0 then (V_inf 0, 0) else (V_nan, BF_ST_INVALID_OP)
  | V_zero s => (V_zero s, 0)
  | V_num _ _ _ => (V_nan, BF_ST_INVALID_OP)
  end.

Definition rem_is (rem1 rem : option bf_t) (v : bf_value) : Prop :=
  match rem1, rem with Some _, Some rem => represents rem v | None, None => True | _, _ => False end.

Definition sqrtrem_result (rem1 : option bf_t) (v : bf_value) '(r, rem, st) : Prop :=
  match v with
  | V_num 0 M _ =>
      let R := Z.sqrt M in
      (can_refuse /\ st = BF_ST_MEM_ERROR) \/
      (represents r (V_num 0 R 0) /\ rem_is rem1 rem (int_value 0 (M - R * R) 0) /\ st = if R * R =? M then 0 else BF_ST_INEXACT)
  | _ => represents r (sqrtrem_special v).1 /\ rem_is rem1 rem (V_zero 0) /\ st = (sqrtrem_special v).2
  end.

Lemma sqrt_floor M : 0 < M -> 0 < Z.sqrt M <= M /\ 0 <= M - Z.sqrt M * Z.sqrt M < M.
Proof. intros HM. pose proof (Z.sqrt_spec M ltac:(lia)) as H. cbv zeta in H. assert (0 < Z.sqrt M) by (apply Z.sqrt_pos; lia). nia. Qed.

(** The root of an integer is the integer part. *)
Lemma sqrt_root_spec r a M :
  number a (V_num 0 M 0) -> fits M 0 -> Z.log2 M < 2 ^ 36 -> limbs (tab r) ->
  hpost (bf_sqrt r a (u64 (Z.quot (i64 (expn a + 1)) 2)) BF_RNDZ) (fun '(r1, _) => hpost (bf_rint r1 BF_RNDZ) (fun '(r2, _) =>
    (can_refuse /\ represents r2 V_nan) \/ represents r2 (V_num 0 (Z.sqrt M) 0))).
Proof.
  intros Ha (HM & Hl & _) Hmax Hr. destruct (represents_size a 0 M 0 (proj1 Ha) HM) as [Ee _]. pose proof (Z.log2_nonneg M). rewrite i64_id by (unfold in_i64; lia).
  replace (expn a + 1) with (Z.log2 M + 2) by lia. rewrite Z.quot_div_nonneg by lia. destruct (sqrt_trunc M HM Hl) as (Hp & Hunit & Hspec). cbv zeta in *.
  set (p := (Z.log2 M + 2) / 2) in *. rewrite u64_id by (unfold in_u64; lia). destruct (sqrt_floor M HM) as [HR _].
  assert (op_format p BF_RNDZ) as Hf. { split; [by vm_compute|]. split; [by vm_compute|]. split; [change BF_PREC_INF with (2 ^ 62 - 1); lia|]. split; [done|]. by intros H'. }
  eapply hpost_mono; [apply (bf_sqrt_value r a _ (-2) p BF_RNDZ Ha Hr Hf); [intros _ _ _; unfold p; Z.to_euclidean_division_equations; lia|done]|]. intros [r1 st] [(Hshort & _ & Hr1)|[Hr1 _]].
  - cbn in Hr1. subst r1. unfold bf_rint. rewrite bf_round_special by done. apply hpost_ret. by left.
  - rewrite (represents_proper r1 _ _ Hspec) in Hr1. pose proof (Z.log2_nonneg (Z.sqrt M)). pose proof (Z.log2_le_mono _ _ (proj2 HR)).
    eapply hpost_mono; [apply (rint_spec r1 (Z.sqrt M) 0 Hr1); lia|]. intros [r2 st2] H2. by rewrite Z.div_1_r in H2.
Qed.

(** The square of the root is subtracted, exactly. *)
Lemma sqrt_rem_spec r rem a M :
  number a (V_num 0 M 0) -> fits M 0 -> (can_refuse /\ represents r V_nan) \/ represents r (V_num 0 (Z.sqrt M) 0) -> limbs (tab rem) ->
  let R := Z.sqrt M in
  hpost (bf_mul false rem r r BF_PREC_INF BF_RNDZ) (fun '(rem1, _) => hpost (bf_add true (bf_neg rem1) (bf_neg rem1) a BF_PREC_INF BF_RNDZ) (fun '(rem2, _) =>
    (can_refuse /\ represents rem2 V_nan) \/ (represents r (V_num 0 R 0) /\ represents rem2 (int_value 0 (M - R * R) 0)))).
Proof.
  intros Ha Fa Hr Hl R. pose proof Fa as (HM & HlM & _). destruct (sqrt_floor M HM) as [HR Hrem]. fold R in HR, Hrem. pose proof (Z.log2_le_mono _ _ (proj2 HR)) as HlR.
  assert (sized R 0) as SR by (unfold sized; lia). assert (sized (R * R) (0 + 0)) as SRR.
  { unfold sized. pose proof (Z.log2_le_mono (R * R) M ltac:(lia)). split; [apply Z.mul_pos_pos; lia|lia]. }
  assert (forall rem1, represents rem1 V_nan -> hpost (bf_add true (bf_neg rem1) (bf_neg rem1) a BF_PREC_INF BF_RNDZ) (fun '(rem2, _) => represents rem2 V_nan)) as Hnan.
  { intros rem1 H. cbn in H. subst rem1. change (bf_neg (mkBf 0 BF_EXP_NAN [])) with (mkBf 1 BF_EXP_NAN []). by apply (add_nan_left true _ 1 a (V_num 0 M 0)). }
  destruct Hr as [[Hshort Hr]|Hr].
  - pose proof (nan_number r Hr) as Nr. eapply hpost_mono; [apply (bf_mul_value false rem r r _ _ BF_PREC_INF BF_RNDZ Nr Nr Hl exact_format); by vm_compute|]. intros [rem1 st] H.
    eapply hpost_mono; [apply Hnan|intros [rem2 st2]; by left]. by destruct H as [(_ & _ & H)|[H _]].
  - pose proof (represents_number r 0 R 0 Hr is_bit_0 SR) as Nr. eapply hpost_mono; [apply (mul_exact rem r r (V_num 0 R 0) 0 R 0 R 0 Nr); [by right|done|done|apply is_bit_0|done]|].
    intros [rem1 st] [[Hshort N1]|[_ N1]]; [eapply hpost_mono; [apply Hnan, N1|intros [rem2 st2]; by left]|].
    assert (number (bf_neg rem1) (V_num 1 (R * R) (0 + 0))) as N2. { destruct (number_mant rem1 _ _ _ N1) as (_ & _ & _ & _ & Es & _). unfold bf_neg. rewrite Es. by apply (number_sign rem1 0 _ _ 1 N1 is_bit_1). }
    eapply hpost_mono; [apply (bf_add_value true (bf_neg rem1) (bf_neg rem1) a _ _ BF_PREC_INF BF_RNDZ N2 Ha (number_limbs _ _ N2) exact_format)|].
    + eapply sized_near; [apply N2|apply Ha|done|unfold sized; lia].
    + intros [rem2 st2] H. destruct (sum_exact _ _ _ _ 0 (M - R * R) (rem2, st2) H) as [(Hshort & _ & H')|[[_ H']|[]]].
      * cbn [add_spec]. change (Z.min (0 + 0) 0) with 0. change (2 ^ (0 + 0 - 0)) with 1. change (2 ^ (0 - 0)) with 1.
        replace ((1 - 2 * 1) * (R * R) * 1 + (1 - 2 * 0) * M * 1) with (M - R * R) by lia. done.
      * intros Hx. rewrite Z.abs_eq by lia. unfold sized. pose proof (Z.log2_le_mono (M - R * R) M ltac:(lia)). lia.
      * by left.
      * right. split; [done|]. cbn [fst] in H'. by rewrite Z.abs_eq, (proj2 (Z.ltb_ge _ 0)) in H' by lia.
Qed.

Lemma bf_sqrtrem_value r rem1 a v :
  number a v -> (forall s M e, v = V_num s M e -> e = 0 /\ fits M 0) -> (forall M e, v = V_num 0 M e -> Z.log2 M < 2 ^ 36) ->
  limbs (tab r) -> limbs (tab (default bf_init rem1)) ->
  hpost (bf_sqrtrem r rem1 a) (sqrtrem_result rem1 v).
Proof.
  intros Ha Hv Hmax Hr Hrem. unfold bf_sqrtrem.
  assert (forall r' ret, represents r' (sqrtrem_special v).1 -> ret = (sqrtrem_special v).2 -> (forall M e, v <> V_num 0 M e) -> hpost (sqrt_no_rem rem1 r' ret) (sqrtrem_result rem1 v)) as Hspecial.
  { intros r' ret H1 H2 Hn. assert (forall rem, rem_is rem1 rem (V_zero 0) -> sqrtrem_result rem1 v (r', rem, ret)) as Hres.
    { intros rem Hm. destruct v as [|s|s|s M e]; try done. unfold sqrtrem_result. destruct s as [|s|s]; [by destruct (Hn M e)|done..]. }
    unfold sqrt_no_rem. destruct rem1 as [rem|]; [|by apply hpost_ret, Hres]. apply hpost_bind. eapply hpost_mono; [apply set_ui_0|]. intros [rem' st] H. by apply hpost_ret, Hres. }
  destruct (number_len a v Ha) as [(s & M & e & -> & Hl)|[Hsp Hl]].
  - rewrite (proj2 (Z.eqb_neq (len a) 0)) by lia. destruct (number_mant a s M e Ha) as (_ & _ & _ & HM & Es & _). rewrite Es. destruct (Hv s M e eq_refl) as [-> Fa].
    destruct (Z.eqb_spec s 0) as [->|Hs]; cbn [negb].
    + apply hpost_bind. eapply hpost_mono; [apply (sqrt_root_spec r a M); try done; by eapply Hmax|]. intros [r1 st1] H1. apply hpost_bind. eapply hpost_mono; [exact H1|]. intros [r2 st2] H2.
      apply hpost_bind. eapply hpost_mono; [by apply (sqrt_rem_spec r2 _ a M)|]. intros [rem2 st3] H3. apply hpost_bind. eapply hpost_mono; [exact H3|]. intros [rem3 st4] [[Hshort H4]|[H4 H5]]; apply hpost_ret.
      * left. split; [done|]. cbn in H4. by subst rem3.
      * right. split; [done|]. split; [by destruct rem1|]. rewrite (int_value_len _ _ _ _ H5). assert (bf_is_nan rem3 = false) as ->.
        { unfold int_value in H5. destruct (Z.eqb_spec (M - Z.sqrt M * Z.sqrt M) 0); [cbn in H5; by subst rem3|]. pose proof (sqrt_floor M HM). destruct Fa as (_ & Hlm & _).
          pose proof (Z.log2_le_mono (M - Z.sqrt M * Z.sqrt M) M ltac:(lia)). apply (in_range_expn rem3), (represents_number rem3 0 _ 0 H5 is_bit_0). unfold sized. lia. }
        destruct (Z.eqb_spec (M - Z.sqrt M * Z.sqrt M) 0), (Z.eqb_spec (Z.sqrt M * Z.sqrt M) M); done || lia.
    + apply hpost_bind. eapply hpost_mono; [apply bf_set_nan_spec|]. intros r' Hr'. apply Hspecial; [done|done|]. by intros M' e' [= -> _ _].
  - rewrite Hl. cbn [Z.eqb]. pose proof (proj1 Ha) as Ra. destruct v as [|s|s|s m e]; [| | |by destruct (Hsp s m e)]; cbn in Ra; subst a.
    + apply hpost_bind. eapply hpost_mono; [apply bf_set_nan_spec|]. intros r' Hr'. by apply Hspecial.
    + change (bf_is_nan (mkBf s BF_EXP_INF [])) with false. cbn [expn sign]. rewrite Z.eqb_refl. cbn [andb sqrtrem_special] in *. destruct (Z.eqb_spec s 0) as [->|Hs]; cbn [negb].
      * apply hpost_bind. eapply hpost_mono; [apply bf_set_spec; [done|apply Forall_nil]|]. intros [r1 st] [->|[? _]]; [|done]. by apply Hspecial.
      * apply hpost_bind. eapply hpost_mono; [apply bf_set_nan_spec|]. intros r' Hr'. by apply Hspecial.
    + change (bf_is_nan (mkBf s BF_EXP_ZERO [])) with false. cbn [expn andb].
      apply hpost_bind. eapply hpost_mono; [apply bf_set_spec; [done|apply Forall_nil]|]. intros [r1 st] [->|[? _]]; [|done]. by apply Hspecial.
Qed.
End Value.
