(* ===== verification/BfConv.v ===== *)
(** The conversions of [libbf.c] between its numbers and the fixed size types, and
    the logical operations on its integers.

    A [double] is its 64 bits. *)
From Stdlib Require Import ZArith Lia Bool List.
From stdpp Require Import base tactics list numbers.
From S2P Require Import Prelude IntFmt Alloc Limb Bf BfOps.

(** * Floating point *)

Definition float64_flags (rnd_mode : Z) : Z := Z.lor (Z.lor rnd_mode BF_FLAG_SUBNORMAL) (bf_set_exp_bits 11).

(** The sign, the biased exponent and the mantissa put together. *)
Definition float64_bits (m e s : Z) : Z := Z.lor (Z.lor m (u64 (Z.shiftl e 52))) (u64 (Z.shiftl s 63)).

(** The mantissa and the biased exponent of a number other than zero. *)
Definition float64_fields (m e : Z) : Z * Z :=
  if e <=? 0 then (Z.shiftr m (12 - e), 0) else (Z.shiftr (u64 (Z.shiftl m 1)) 12, e).

Section Float64.
Context `{SH : Shrinker}.

Definition bf_get_float64 (a : bf_t) (rnd_mode : Z) : heap_m (Z * Z) :=
  if bf_is_nan a then hret (0x7ff8000000000000, 0)
  else
    let! (b, _) := bf_set false bf_init a in
    let! (b, ret) := if bf_is_finite b then bf_round b 53 (float64_flags rnd_mode) else hret (b, 0) in
    if expn b =? BF_EXP_INF then hret (float64_bits 0 (Z.shiftl 1 11 - 1) (sign b), ret)
    else if bf_is_zero b then hret (float64_bits 0 0 (sign b), ret)
    else
      let e := i32 (i64 (i64 (expn b + 1023) - 1)) in
      let! m := hlift (rd (tab b) 0) in
      let '(m, e) := float64_fields m e in
      hret (float64_bits m e (sign b), ret).

Definition bf_set_float64 (a : bf_t) (u : Z) : heap_m (bf_t * Z) :=
  let sgn := Z.shiftr u 63 in
  let e := Z.land (Z.shiftr u 52) (Z.shiftl 1 11 - 1) in
  let m := Z.land u (Z.shiftl 1 52 - 1) in
  let norm m e :=
    let a := set_expn a (e - 1023 + 1) in
    let! (a, ok) := bf_resize a 1 in
    if negb ok then bf_mem_error a
    else
      let! t := hlift (wr (tab a) 0 m) in
      hret (mkBf sgn (expn a) t, 0) in
  if e =? Z.shiftl 1 11 - 1 then
    if negb (m =? 0) then let! a := bf_set_nan a in hret (a, 0)
    else let! a := bf_set_inf a sgn in hret (a, 0)
  else if e =? 0 then
    if m =? 0 then let! a := bf_set_zero a sgn in hret (a, 0)
    else
      let m := u64 (Z.shiftl m 12) in
      let shift := clz m in
      norm (u64 (Z.shiftl m shift)) (- shift)
  else norm (Z.lor (u64 (Z.shiftl m 11)) (u64 (Z.shiftl 1 63))) e.
End Float64.

(** * Integers *)

Definition BF_GET_INT_MOD : Z := Z.shiftl 1 0.
Definition INT64_MAX : Z := 2 ^ 63 - 1.
Definition UINT64_MAX : Z := 2 ^ 64 - 1.

(** The top limb, shifted to its integer part. *)
Definition top_bits (a : bf_t) (n : Z) : outcome Z :=
  let* x := rd (tab a) (len a - 1) in Ret (Z.shiftr x (LIMB_BITS - n)).

Definition bf_get_int32 (a : bf_t) (flags : Z) : outcome (Z * Z) :=
  let* (v, ret) :=
    if BF_EXP_INF <=? expn a then
      Ret (if has_flag flags BF_GET_INT_MOD then 0
           else if expn a =? BF_EXP_INF then u32 (INT32_MAX + sign a) else INT32_MAX, BF_ST_INVALID_OP)
    else if expn a <=? 0 then Ret (0, 0)
    else if expn a <=? 31 then
      let* x := top_bits a (expn a) in
      let v := u32 x in Ret (if negb (sign a =? 0) then u32 (- v) else v, 0)
    else if negb (has_flag flags BF_GET_INT_MOD) then
      if negb (sign a =? 0) then
        let v := u32 (INT32_MAX + 1) in
        if expn a =? 32 then let* x := top_bits a 32 in Ret (v, if x =? v then 0 else BF_ST_INVALID_OP)
        else Ret (v, BF_ST_INVALID_OP)
      else Ret (INT32_MAX, BF_ST_INVALID_OP)
    else
      let* x := get_bits (tab a) (len a * LIMB_BITS - expn a) in
      let v := u32 x in Ret (if negb (sign a =? 0) then u32 (- v) else v, 0) in
  Ret (i32 v, ret).

Definition bf_get_int64 (a : bf_t) (flags : Z) : outcome (Z * Z) :=
  let* (v, ret) :=
    if BF_EXP_INF <=? expn a then
      Ret (if has_flag flags BF_GET_INT_MOD then 0
           else if expn a =? BF_EXP_INF then u64 (INT64_MAX + sign a) else INT64_MAX, BF_ST_INVALID_OP)
    else if expn a <=? 0 then Ret (0, 0)
    else if expn a <=? 63 then
      let* v := top_bits a (expn a) in Ret (if negb (sign a =? 0) then u64 (- v) else v, 0)
    else if negb (has_flag flags BF_GET_INT_MOD) then
      if negb (sign a =? 0) then
        let v := u64 (INT64_MAX + 1) in
        if expn a =? 64 then let* v1 := rd (tab a) (len a - 1) in Ret (v, if v1 =? v then 0 else BF_ST_INVALID_OP)
        else Ret (v, BF_ST_INVALID_OP)
      else Ret (INT64_MAX, BF_ST_INVALID_OP)
    else
      let* v := get_bits (tab a) (len a * LIMB_BITS - expn a) in
      Ret (if negb (sign a =? 0) then u64 (- v) else v, 0) in
  Ret (i64 v, ret).

Definition bf_get_uint64 (a : bf_t) : outcome (Z * Z) :=
  if expn a =? BF_EXP_NAN then Ret (UINT64_MAX, BF_ST_INVALID_OP)
  else if expn a <=? 0 then Ret (0, 0)
  else if negb (sign a =? 0) then Ret (0, BF_ST_INVALID_OP)
  else if expn a <=? 64 then let* v := top_bits a (expn a) in Ret (v, 0)
  else Ret (UINT64_MAX, BF_ST_INVALID_OP).

(** * Logical operations *)

Definition BF_LOGIC_OR : Z := 0.
Definition BF_LOGIC_XOR : Z := 1.
Definition BF_LOGIC_AND : Z := 2.

Definition bf_logic_op1 (a b op : Z) : Z :=
  if op =? BF_LOGIC_OR then Z.lor a b else if op =? BF_LOGIC_XOR then Z.lxor a b else Z.land a b.

(** The sign of an operand: minus zero is positive. *)
Definition logic_sign (a : bf_t) : Z := if expn a <=? 0 then 0 else sign a.

(** The length of the result in bits. *)
Definition logic_bits (a b : bf_t) (a_sign b_sign r_sign op : Z) : Z :=
  if (op =? BF_LOGIC_AND) && (r_sign =? 0) then
    if (a_sign =? 0) && (b_sign =? 0) then Z.min (expn a) (expn b)
    else if a_sign =? 0 then expn a else expn b
  else Z.max (expn a) (expn b).

(** The position of the integer part in the limbs: the difference is unsigned, and zero has the least exponent. *)
Definition logic_offset (a : bf_t) : Z := i64 (len a * LIMB_BITS - expn a).

Definition logic_step (a b : bf_t) (v1_mask v2_mask r_mask op : Z) (t : list Z) (i : Z) : outcome (list Z) :=
  let* v1 := get_bits (tab a) (logic_offset a + i * LIMB_BITS) in
  let* v2 := get_bits (tab b) (logic_offset b + i * LIMB_BITS) in
  wr t i (Z.lxor (bf_logic_op1 (Z.lxor v1 v1_mask) (Z.lxor v2 v2_mask) op) r_mask).

Section Logic.
Context `{SH : Shrinker}.

(** The operand as the complement of a positive number, when it is negative. *)
Definition logic_operand (a : bf_t) (a_sign : Z) : heap_m (bf_t * Z) :=
  if negb (a_sign =? 0) then bf_add_si false bf_init a 1 BF_PREC_INF BF_RNDZ else hret (a, 0).

Definition bf_logic_op (r a1 b1 : bf_t) (op : Z) : heap_m (bf_t * Z) :=
  let a_sign := logic_sign a1 in
  let b_sign := logic_sign b1 in
  let! (a, ret) := logic_operand a1 a_sign in
  if negb (ret =? 0) then bf_mem_error r
  else
    let! (b, ret) := logic_operand b1 b_sign in
    if negb (ret =? 0) then bf_mem_error r
    else
      let r_sign := bf_logic_op1 a_sign b_sign op in
      let l := (Z.max (logic_bits a b a_sign b_sign r_sign op) 1 + LIMB_BITS - 1) / LIMB_BITS in
      let! (r, ok) := bf_resize r l in
      if negb ok then bf_mem_error r
      else
        let! t := hlift (ofold (logic_step a b (u64 (- a_sign)) (u64 (- b_sign)) (u64 (- r_sign)) op) (tab r) (seqZ 0 l)) in
        let! (r, _) := bf_normalize_and_round (mkBf r_sign (l * LIMB_BITS) t) BF_PREC_INF BF_RNDZ in
        if negb (r_sign =? 0) then
          let! (r, ret) := bf_add_si true r r (-1) BF_PREC_INF BF_RNDZ in
          if negb (ret =? 0) then bf_mem_error r else hret (r, 0)
        else hret (r, 0).

Definition bf_logic_or (r a b : bf_t) : heap_m (bf_t * Z) := bf_logic_op r a b BF_LOGIC_OR.
Definition bf_logic_xor (r a b : bf_t) : heap_m (bf_t * Z) := bf_logic_op r a b BF_LOGIC_XOR.
Definition bf_logic_and (r a b : bf_t) : heap_m (bf_t * Z) := bf_logic_op r a b BF_LOGIC_AND.
End Logic.
