(* ===== verification/BfFloat.v ===== *)
(** The conversions between [double] and the numbers of [libbf.c].

    [float64_value] is the value of a [double]; [bf_set_float64] makes a number of
    it, [bf_get_float64] rounds a number to a [double]. *)
From Stdlib Require Import ZArith Lia Bool List Setoid.
From stdpp Require Import base tactics list numbers.
From S2P Require Import Prelude IntFmt Alloc Limb MpMul MpDiv Bf BfRound BfRatio BfRoundOk BfOps BfCmp BfMulDiv BfCancel BfAdd BfSum BfDivrem BfConv.

(** * The format *)

(** A [double]: the sign, 11 bits of exponent and 52 bits of mantissa. *)
Definition float64_sign (u : Z) : Z := u / 2 ^ 63.
Definition float64_exp (u : Z) : Z := (u / 2 ^ 52) mod 2 ^ 11.
Definition float64_mant (u : Z) : Z := u mod 2 ^ 52.

Definition float64_value (u : Z) : bf_value :=
  let s := float64_sign u in let e := float64_exp u in let m := float64_mant u in
  if e =? 2047 then (if m =? 0 then V_inf s else V_nan)
  else if e =? 0 then (if m =? 0 then V_zero s else V_num s m (-1074))
  else V_num s (m + 2 ^ 52) (e - 1075).

(** The mantissa and exponent of a finite [double] other than zero; a mantissa of [2 ^ 53] is one of [2 ^ 52] with
    the next exponent. *)
Definition double_num (m k : Z) : Prop :=
  0 < m <= 2 ^ 53 /\ -1074 <= k /\ (k = -1074 \/ 2 ^ 52 <= m) /\ k + Z.log2 m + 1 <= 1024.

(** ** Rounding to the format *)

Lemma double_flags_ok mode : 0 <= mode <= 6 ->
  rnd_mode_of (float64_flags mode) = mode /\ bf_get_exp_bits (float64_flags mode) = 11 /\
  has_flag (float64_flags mode) BF_FLAG_RADPNT_PREC = false /\ has_flag (float64_flags mode) BF_FLAG_SUBNORMAL = true /\ mode_ok mode.
Proof.
  intros Hm. assert (mode = 0 \/ mode = 1 \/ mode = 2 \/ mode = 3 \/ mode = 4 \/ mode = 5 \/ mode = 6) as Hc by lia.
  destruct Hc as [-> | [-> | [-> | [-> | [-> | [-> | ->]]]]]]; by vm_compute.
Qed.

Lemma round_at_bounds mode sgn m e k :
  0 < m -> let E := e + Z.log2 m + 1 in let M := (round_at mode sgn m 1 e k).1 in
  0 <= M <= 2 ^ Z.max 0 (E - k) /\ (k < E -> 2 ^ (E - k - 1) <= M).
Proof.
  intros Hm E M. unfold M, round_at, scaled, round_ratio. cbn [fst]. rewrite Z.mul_1_l.
  pose proof (Z.log2_spec m Hm) as Hlog. pose proof (Z.log2_nonneg m) as Hlog0. set (n := m * 2 ^ Z.max 0 (e - k)). set (d := 2 ^ Z.max 0 (k - e)).
  assert (0 < d) as Hd by (unfold d; lia). assert (0 <= n) as Hn by (unfold n; apply Z.mul_nonneg_nonneg; lia).
  assert (0 <= b2z (rounds_up mode sgn (n / d) (n mod d) d) <= 1) as Hb by (destruct (rounds_up _ _ _ _ _); cbn; lia).
  assert (0 <= n / d) as Hq by (apply Z.div_pos; lia).
  assert (n / d < 2 ^ Z.max 0 (E - k)) as Hu.
  { apply Z.div_lt_upper_bound; [done|]. unfold n, d. rewrite <- Z.pow_add_r by lia.
    apply Z.lt_le_trans with (2 ^ Z.succ (Z.log2 m) * 2 ^ Z.max 0 (e - k)); [apply Z.mul_lt_mono_pos_r; lia|]. rewrite <- Z.pow_add_r by lia. apply Z.pow_le_mono_r; lia. }
  split; [lia|]. intros Hk. apply Z.le_trans with (n / d); [|lia]. apply Z.div_le_lower_bound; [done|]. unfold n, d.
  apply Z.le_trans with (2 ^ Z.log2 m * 2 ^ Z.max 0 (e - k)); [|apply Z.mul_le_mono_nonneg_r; lia]. rewrite <- !Z.pow_add_r by lia. apply Z.pow_le_mono_r; lia.
Qed.

(** What rounding to the format gives. *)
Definition is_double (v : bf_value) (s : Z) : Prop :=
  v = V_inf s \/ v = V_zero s \/ exists m k, v = V_num s m k /\ double_num m k.

Lemma overflow_double s mode : 0 <= mode <= 6 -> is_double (overflow_spec s 53 (float64_flags mode)).1 s.
Proof.
  intros Hm. destruct (double_flags_ok mode Hm) as (E1 & E2 & _). unfold overflow_spec. rewrite E1, E2. case_match; [by left|right; right].
  exists (2 ^ 53 - 1), 971. split; [done|]. unfold double_num. change (Z.log2 (2 ^ 53 - 1)) with 52. lia.
Qed.

Lemma round_double s m e mode :
  0 < m -> 0 <= mode <= 6 -> exists v, value_equiv (bf_round_spec s m 1 e 53 (float64_flags mode)).1 v /\ is_double v s.
Proof.
  intros Hm Hmode. destruct (bf_round_spec_finish s m 1 e 53 (float64_flags mode) Hm Z.lt_0_1) as [Heq _]. cbv zeta in Heq. eexists. split; [exact Heq|]. clear Heq.
  destruct (double_flags_ok mode Hmode) as (E1 & E2 & E3 & E4 & _). rewrite ratio_exponent_int by done. pose proof (round_at_bounds (rnd_mode_of (float64_flags mode)) s m e) as Hb.
  set (E := e + Z.log2 m + 1) in *. unfold spec_prec, finish_spec, prec_spec. rewrite E2, E3, E4. change (Z.shiftl 1 (11 - 1)) with 1024. change (Z.opp 1024 + 3) with (-1021). cbv zeta.
  rewrite andb_true_r. set (prec := if E <? -1021 then 53 - (-1021 - E) else 53).
  specialize (Hb (E - prec) Hm). cbv zeta in Hb. fold E in Hb. destruct (round_at _ s m 1 e (E - prec)) as [M inex]. cbn [fst] in Hb. replace (E - (E - prec)) with prec in Hb by lia. cbn [negb]. rewrite andb_false_r.
  destruct (Z.leb_spec prec 0) as [Hp|Hp].
  - rewrite Z.max_l in Hb by lia. change (2 ^ 0) with 1 in Hb. destruct (Z.eqb_spec M 0) as [->|HM]; [by right; left|]. right; right.
    exists M, (E - prec). split; [done|]. assert (M = 1) as -> by lia. assert (E - prec = -1074) as -> by (unfold prec in *; destruct (Z.ltb_spec E (-1021)); lia). unfold double_num. change (Z.log2 1) with 0. lia.
  - rewrite Z.max_r in Hb by lia. destruct Hb as [HM1 HM2]. specialize (HM2 ltac:(lia)).
    destruct (Z.ltb_spec 1024 (if M =? 2 ^ prec then E + 1 else E)) as [Ho|Ho]; [by apply overflow_double|].
    right; right. exists M, (E - prec). split; [done|]. assert (0 < 2 ^ (prec - 1)) as Hpp by lia. unfold double_num.
    assert (prec <= 53) as Hp53 by (unfold prec; destruct (Z.ltb_spec E (-1021)); lia).
    assert (2 ^ prec <= 2 ^ 53) by (apply Z.pow_le_mono_r; lia). split; [lia|].
    assert (E - prec = -1074 \/ (prec = 53 /\ -1021 <= E)) as Hk by (unfold prec; destruct (Z.ltb_spec E (-1021)); lia).
    split; [lia|]. split; [destruct Hk as [?|[-> _]]; [by left|right; exact HM2]|].
    destruct (Z.eqb_spec M (2 ^ prec)) as [->|HM]; [rewrite Z.log2_pow2 by lia; lia|].
    assert (Z.log2 M < prec) by (apply Z.log2_lt_pow2; lia). lia.
Qed.

(** * Encoding *)

Lemma float64_bits_sum m e s :
  0 <= m < 2 ^ 52 -> 0 <= e < 2 ^ 11 -> is_bit s -> float64_bits m e s = m + (e + s * 2 ^ 11) * 2 ^ 52.
Proof.
  intros Hm He Hs. unfold float64_bits. rewrite !Z.shiftl_mul_pow2 by lia.
  rewrite !u64_id by (unfold in_u64; destruct Hs as [->| ->]; lia). rewrite (lor_low_high 52 m) by lia. rewrite (lor_low_high 63) by lia. lia.
Qed.

(** The fields are read back. *)
Lemma float64_fields_of m e s :
  0 <= m < 2 ^ 52 -> 0 <= e < 2 ^ 11 -> is_bit s -> let u := float64_bits m e s in
  in_u64 u /\ float64_sign u = s /\ float64_exp u = e /\ float64_mant u = m.
Proof.
  intros Hm He Hs. cbv zeta. rewrite float64_bits_sum by done. unfold float64_sign, float64_exp, float64_mant.
  assert ((m + (e + s * 2 ^ 11) * 2 ^ 52) / 2 ^ 52 = e + s * 2 ^ 11) as E by (rewrite Z.div_add, Z.div_small by lia; lia).
  split; [unfold in_u64; destruct Hs as [->| ->]; lia|]. split.
  - change (2 ^ 63) with (2 ^ 52 * 2 ^ 11). rewrite <- Z.div_div, E by lia. rewrite Z.div_add, Z.div_small by lia. lia.
  - split; [rewrite E, Z.mod_add, Z.mod_small by lia; done|]. rewrite Z.mod_add, Z.mod_small by lia. done.
Qed.

Lemma float64_inf s : is_bit s -> let u := float64_bits 0 (Z.shiftl 1 11 - 1) s in in_u64 u /\ float64_value u = V_inf s.
Proof. by intros [->| ->]. Qed.

Lemma float64_zero s : is_bit s -> let u := float64_bits 0 0 s in in_u64 u /\ float64_value u = V_zero s.
Proof. by intros [->| ->]. Qed.

(** The limb of a number of the format. *)
Lemma double_limb r s m k :
  represents r (V_num s m k) -> double_num m k ->
  tab r = [m * 2 ^ (63 - Z.log2 m)] /\ expn r = k + Z.log2 m + 1 /\ Z.log2 m <= 53.
Proof.
  intros Hr (Hm & Hk1 & _ & Hk2). destruct (represents_size r s m k Hr ltac:(lia)) as [E1 E2]. destruct Hr as ((Hl & Hz & Hn & _) & _ & Hsame).
  assert (Z.log2 m <= 53) as Hlog by (change 53 with (Z.log2 (2 ^ 53)); apply Z.log2_le_mono; lia). pose proof (Z.log2_nonneg m).
  assert (len r = 1) as Hlen by lia. rewrite Hlen, E1 in Hsame. unfold len in Hlen. destruct (tab r) as [|x [|y t]]; [done| |rewrite !zlen_cons in Hlen; pose proof (zlen_nonneg t); lia].
  split; [|done]. f_equal. change (value [x]) with (x + LB * 0) in Hsame. rewrite Z.mul_0_r, Z.add_0_r in Hsame. change (LIMB_BITS * 1) with 64 in Hsame.
  unfold same_number in Hsame. rewrite Z.min_l, Z.sub_diag, Z.pow_0_r, Z.mul_1_r in Hsame by lia. rewrite Hsame. do 2 f_equal. lia.
Qed.

(** The bits below the first one. *)
Lemma double_top m g :
  0 < m <= 2 ^ 53 -> g = Z.log2 m -> let x := m * 2 ^ (63 - g) in
  Z.shiftr (u64 (Z.shiftl x 1)) 12 = x / 2 ^ 11 - 2 ^ 52 /\ x mod 2 ^ 11 = 0 /\ 2 ^ 63 <= x < 2 ^ 64.
Proof.
  intros Hm Hg x. pose proof (Z.log2_spec m ltac:(lia)) as Hspec. rewrite <- Hg in Hspec. pose proof (Z.log2_nonneg m) as Hg0. rewrite <- Hg in Hg0.
  assert (g <= 53) as Hg53 by (rewrite Hg; change 53 with (Z.log2 (2 ^ 53)); apply Z.log2_le_mono; lia).
  assert (2 ^ 63 <= x < 2 ^ 64) as Hx.
  { unfold x. replace 63 with (g + (63 - g)) at 1 by lia. change 64 with (Z.succ 63). replace (Z.succ 63) with (Z.succ g + (63 - g)) by lia. rewrite !Z.pow_add_r by lia.
    split; [apply Z.mul_le_mono_nonneg_r|apply Z.mul_lt_mono_pos_r]; lia. }
  assert (x mod 2 ^ 11 = 0) as Hmod.
  { unfold x. destruct (Z.eq_dec g 53) as [E|E].
    - rewrite E in *. assert (m = 2 ^ 53) as -> by lia. reflexivity.
    - replace (63 - g) with (52 - g + 11) by lia. rewrite Z.pow_add_r, Z.mul_assoc by lia. by apply Z.mod_mul. }
  split; [|done]. assert (u64 (Z.shiftl x 1) = 2 * x - 2 ^ 64) as ->.
  { rewrite Z.shiftl_mul_pow2 by lia. change (2 ^ 1) with 2. unfold u64. symmetry. apply Z.mod_unique with 1; [left; lia|lia]. }
  rewrite Z.shiftr_div_pow2 by lia. pose proof (Z.div_mod x (2 ^ 11) ltac:(lia)) as Ex. rewrite Hmod in Ex.
  symmetry. apply Z.div_unique with 0; [left; lia|lia].
Qed.

Lemma encode_num r s m k :
  represents r (V_num s m k) -> double_num m k -> is_bit s ->
  exists x, tab r = [x] /\ -1021 - 52 <= expn r <= 1024 /\
    let '(f, e) := float64_fields x (expn r + 1022) in
    in_u64 (float64_bits f e s) /\ value_equiv (float64_value (float64_bits f e s)) (V_num s m k).
Proof.
  intros Hr Hd Hs. destruct (double_limb r s m k Hr Hd) as (Ht & -> & Hlog). destruct Hd as (Hm & Hk & Hnorm & Hmax). pose proof (Z.log2_nonneg m) as Hlog0.
  pose proof (Z.log2_spec m ltac:(lia)) as Hspec. eexists. split; [exact Ht|]. split; [lia|]. set (g := Z.log2 m) in *. unfold float64_fields.
  replace (k + g + 1 + 1022) with (k + g + 1023) by lia. destruct (Z.leb_spec (k + g + 1023) 0) as [He|He].
  - assert (k = -1074) as ->. { destruct Hnorm as [|Hm2]; [done|]. assert (52 <= g) by (apply Z.log2_le_pow2; lia). lia. }
    assert (Z.shiftr (m * 2 ^ (63 - g)) (12 - (-1074 + g + 1023)) = m) as ->.
    { rewrite Z.shiftr_div_pow2 by lia. replace (12 - (-1074 + g + 1023)) with (63 - g) by lia. apply Z.div_mul. lia. }
    assert (m < 2 ^ 52) as Hm52 by (eapply Z.lt_le_trans; [apply Hspec|apply Z.pow_le_mono_r; lia]).
    destruct (float64_fields_of m 0 s ltac:(lia) ltac:(lia) Hs) as (Hu & Es & Ee & Em). split; [done|]. unfold float64_value. rewrite Es, Ee, Em. change (0 =? 2047) with false. change (0 =? 0) with true.
    rewrite (proj2 (Z.eqb_neq m 0)) by lia. reflexivity.
  - destruct (double_top m g Hm eq_refl) as (Hq & Hx & Hxb). rewrite Hq. set (x := m * 2 ^ (63 - g)) in *.
    pose proof (Z.div_mod x (2 ^ 11) ltac:(lia)) as Ex. rewrite Hx, Z.add_0_r in Ex.
    destruct (float64_fields_of (x / 2 ^ 11 - 2 ^ 52) (k + g + 1023) s ltac:(lia) ltac:(lia) Hs) as (Hu & Es & Ee & Em). split; [done|]. unfold float64_value. rewrite Es, Ee, Em.
    rewrite (proj2 (Z.eqb_neq (k + g + 1023) 2047)), (proj2 (Z.eqb_neq (k + g + 1023) 0)) by lia. split; [done|].
    replace (x / 2 ^ 11 - 2 ^ 52 + 2 ^ 52) with (x / 2 ^ 11) by lia. replace (k + g + 1023 - 1075) with (k + (g - 52)) by lia.
    apply (same_number_scale _ _ 11 x (k + (g - 52) - 11)); [lia| |lia]. apply same_number_le; [lia|]. unfold x. do 2 f_equal. lia.
Qed.

(** * From a number *)

(** Memory is not short. *)
Class AllocGranted `{AL : Allocator} := alloc_granted : forall h n, exists h' fresh, heap_alloc h n = (h', Some fresh).

Lemma double_op_format mode : 0 <= mode <= 6 -> op_format 53 (float64_flags mode).
Proof.
  intros Hm. destruct (double_flags_ok mode Hm) as (E1 & E2 & E3 & E4 & E5). unfold op_format. rewrite E1, E2, E3. by split; [|split; [lia|]].
Qed.

Section GetDouble.
Context `{SHG : ShrinkGranted} {AG : AllocGranted}.

Lemma bf_resize_granted r n : 0 <= n <= 2 ^ 50 -> hpost (bf_resize r n) (fun '(_, ok) => ok = true).
Proof.
  intros Hn h. unfold bf_resize. destruct (negb _); [|done]. destruct (n =? 0); [done|]. destruct (n <? len r).
  - pose proof (shrink_granted h (n * 8)) as H. destruct (shrink h (n * 8)) as [h' ok]. cbn in *. by subst ok.
  - unfold realloc. destruct (alloc_granted h (n * 8)) as (h' & fresh & ->). by rewrite (proj2 (Z.ltb_lt _ _)) by lia.
Qed.

Lemma hpost_and {A : Type} (m : heap_m A) (P Q : A -> Prop) : hpost m P -> hpost m Q -> hpost m (fun a => P a /\ Q a).
Proof. intros HP HQ h. specialize (HP h). specialize (HQ h). destruct (m h) as [[h' a]|]; [by split|done]. Qed.

Lemma bf_copy_granted a : limbs (tab a) -> len a <= 2 ^ 50 -> hpost (bf_set false bf_init a) (fun '(r, _) => r = a).
Proof.
  intros Hl Hle. pose proof (zlen_nonneg (tab a)) as H0. unfold bf_set. apply hpost_bind.
  eapply hpost_mono; [apply hpost_and; [apply (bf_resize_spec bf_init (len a)); [apply Forall_nil|exact H0]|apply bf_resize_granted; unfold len in *; lia]|].
  intros [r1 ok] [Hr1 ->]. destruct Hr1 as (_ & _ & _ & Hz1 & _). cbn [negb]. unfold len in *. apply hpost_bind, hpost_lift.
  apply post_mono with (fun t => t = tab a); [|intros t ->; apply hpost_ret; by destruct a].
  destruct (Z.ltb_spec 0 (zlen (tab a))).
  - rewrite wr_slice_in by lia. apply post_ret. change (take (Z.to_nat 0) (tab r1)) with (@nil Z). rewrite drop_ge by (unfold zlen in *; lia). by rewrite app_nil_r.
  - apply post_ret. destruct (tab a); [|unfold zlen in *; cbn [length] in *; lia]. destruct (tab r1); [done|unfold zlen in Hz1; cbn [length] in Hz1; lia].
Qed.

(** The bits of a rounded number. *)
Lemma encode_spec r v s (st : Z) :
  represents r v -> is_double v s -> is_bit s ->
  hpost (if expn r =? BF_EXP_INF then hret (float64_bits 0 (Z.shiftl 1 11 - 1) (sign r), st)
         else if bf_is_zero r then hret (float64_bits 0 0 (sign r), st)
         else
           let e := i32 (i64 (i64 (expn r + 1023) - 1)) in
           let! m := hlift (rd (tab r) 0) in
           let '(m, e) := float64_fields m e in hret (float64_bits m e (sign r), st))
    (fun '((u, st') : Z * Z) => in_u64 u /\ value_equiv (float64_value u) v /\ st' = st).
Proof.
  intros Hr [->|[->|(m & k & -> & Hd)]] Hs.
  - cbn in Hr. subst r. destruct (float64_inf s Hs) as [Hu Hv]. cbv zeta in Hu, Hv. cbn [expn sign]. rewrite Z.eqb_refl. apply hpost_ret. by rewrite Hv.
  - cbn in Hr. subst r. destruct (float64_zero s Hs) as [Hu Hv]. cbv zeta in Hu, Hv. apply hpost_ret. cbn [sign]. by rewrite Hv.
  - destruct (encode_num r s m k Hr Hd Hs) as (x & Ht & HE & Hf). assert (sign r = s) as -> by apply Hr.
    change BF_EXP_INF with (2 ^ 63 - 2). rewrite (proj2 (Z.eqb_neq (expn r) _)) by lia.
    unfold bf_is_zero. change BF_EXP_ZERO with (- 2 ^ 63). rewrite (proj2 (Z.eqb_neq (expn r) _)) by lia. cbv zeta.
    assert (i32 (i64 (i64 (expn r + 1023) - 1)) = expn r + 1022) as ->.
    { rewrite (i64_id (expn r + 1023)) by (unfold in_i64; lia). rewrite i64_id by (unfold in_i64; lia). replace (expn r + 1023 - 1) with (expn r + 1022) by lia.
      unfold i32, u32. destruct (Z.lt_ge_cases (expn r + 1022) 0).
      - rewrite <- (Z.mod_unique (expn r + 1022) 4294967296 (-1) (expn r + 1022 + 4294967296)) by lia. rewrite (proj2 (Z.ltb_ge _ _)) by lia. lia.
      - rewrite Z.mod_small by lia. rewrite (proj2 (Z.ltb_lt _ _)) by lia. done. }
    rewrite Ht. apply hpost_bind, hpost_lift, post_ret. destruct (float64_fields x (expn r + 1022)) as [f e]. destruct Hf as [Hu Hv]. by apply hpost_ret.
Qed.

Lemma bf_get_float64_value a va mode :
  number a va -> 0 <= mode <= 6 ->
  hpost (bf_get_float64 a mode) (fun '(u, st) =>
    in_u64 u /\ value_equiv (float64_value u) (round_spec va 53 (float64_flags mode)).1 /\ st = (round_spec va 53 (float64_flags mode)).2).
Proof.
  intros Ha Hmode. unfold bf_get_float64. destruct va as [|s|s|s m e]; cbn [round_spec fst snd].
  1: pose proof (proj1 Ha) as H; cbn in H; subst a; apply hpost_ret; by vm_compute.
  1,2: pose proof (proj1 Ha) as H; pose proof (proj1 (proj2 Ha)) as Hs; cbn in H; subst a; apply hpost_bind;
    (eapply hpost_mono; [apply bf_copy_granted; [apply Forall_nil|done]|]); intros [r st] ->; apply hpost_bind, hpost_ret.
  - apply (encode_spec _ (V_inf s) s 0); [done|by left|exact Hs].
  - apply (encode_spec _ (V_zero s) s 0); [done|by right; left|exact Hs].
  - destruct (in_range_expn a (proj2 (proj2 Ha))) as (Xa & -> & _). destruct (number_mant a _ _ _ Ha) as (Hl & Hz & Hp & Hm & Hsg & Hsame & _ & HE).
    apply hpost_bind. eapply hpost_mono; [apply bf_copy_granted; [done|lia]|]. intros [r st] ->. unfold bf_is_finite. rewrite (proj2 (Z.ltb_lt _ _)) by lia.
    apply hpost_bind. eapply hpost_mono; [apply bf_round_normal_in; [apply Ha|lia|apply op_rounding_ok; [by apply double_op_format|lia]]|].
    intros [r1 st1] [[(_ & Hshort & _) _]|[Hr1 ->]]; [lia|]. rewrite Hsg in *.
    assert (spec_equiv (bf_round_spec s (value (tab a)) 1 (bf_exp a) 53 (float64_flags mode)) (bf_round_spec s m 1 e 53 (float64_flags mode))) as [Hv ->].
    { apply bf_round_spec_ratio; [done..|]. unfold ratio_eq. by rewrite !Z.mul_1_r. }
    destruct (round_double s m e mode Hm Hmode) as (v & Ev & Hd). rewrite (represents_proper r1 _ _ Hv), (represents_proper r1 _ _ Ev) in Hr1.
    eapply hpost_mono; [apply (encode_spec r1 v s); [done|done|]|].
    + pose proof (proj1 (proj2 Ha)) as Hs. by rewrite Hsg in Hs.
    + intros [u st'] (Hu & Hval & ->). split; [done|]. split; [|done]. by rewrite Hval, Ev.
Qed.
End GetDouble.

(** * To a number *)

Lemma float64_parts u :
  in_u64 u -> is_bit (float64_sign u) /\ 0 <= float64_exp u < 2 ^ 11 /\ 0 <= float64_mant u < 2 ^ 52 /\
  u = float64_mant u + (float64_exp u + float64_sign u * 2 ^ 11) * 2 ^ 52.
Proof.
  unfold in_u64, is_bit, float64_sign, float64_exp, float64_mant. intros Hu. pose proof (Z.mod_pos_bound u (2 ^ 52) ltac:(lia)). pose proof (Z.mod_pos_bound (u / 2 ^ 52) (2 ^ 11) ltac:(lia)).
  pose proof (Z.div_mod u (2 ^ 52) ltac:(lia)) as E1. pose proof (Z.div_mod (u / 2 ^ 52) (2 ^ 11) ltac:(lia)) as E2.
  assert (u / 2 ^ 52 / 2 ^ 11 = u / 2 ^ 63) as E3 by (rewrite Z.div_div by lia; done). rewrite E3 in E2.
  assert (0 <= u / 2 ^ 63 < 2) by (split; [apply Z.div_pos; lia|apply Z.div_lt_upper_bound; lia]). split; [lia|]. split; [done|]. split; [done|]. lia.
Qed.

(** One limb with its highest bit set. *)
Lemma one_limb s x e v :
  is_bit s -> 2 ^ 63 <= x < LB -> -2000 <= e <= 2000 -> value_equiv (V_num s x (e - 64)) v -> represents (mkBf s e [x]) v.
Proof.
  intros Hs Hx He Hv. rewrite <- (represents_proper (mkBf s e [x]) _ _ Hv). split; [|split; [done|]].
  - split; [constructor; [red; change 18446744073709551616 with LB; lia|constructor]|]. split; [done|]. split; [|exists x, []; split; [done|lia]].
    cbn [tab value]. change (LB ^ len (mkBf s e [x])) with LB. unfold LB in *. lia.
  - cbn [tab expn value]. change (LIMB_BITS * len (mkBf s e [x])) with 64. rewrite Z.mul_0_r, Z.add_0_r. by apply same_number_le; [|rewrite Z.sub_diag; lia].
Qed.

Section SetDouble.
Context `{SHG : ShrinkGranted} (short : Prop).

Lemma float64_norm r sgn e m v :
  limbs (tab r) -> hpost (bf_resize (set_expn r (e - 1023 + 1)) 1) (fun '(_, ok) => ok = true \/ short) ->
  is_bit sgn -> 2 ^ 63 <= m < LB -> -100 <= e <= 2 ^ 11 -> value_equiv (V_num sgn m (e - 1086)) v ->
  hpost (let! (a, ok) := bf_resize (set_expn r (e - 1023 + 1)) 1 in
         if negb ok then bf_mem_error a else let! t := hlift (wr (tab a) 0 m) in hret (mkBf sgn (expn a) t, 0))
    (fun '(r', st) => (short /\ st = BF_ST_MEM_ERROR /\ represents r' V_nan) \/ (st = 0 /\ represents r' v)).
Proof.
  intros Hl Hg Hs Hm He Hv. apply hpost_bind. eapply hpost_mono; [apply hpost_and; [apply (bf_resize_spec (set_expn r (e - 1023 + 1)) 1); [exact Hl|done]|exact Hg]|].
  intros [r1 ok] [Hr1 Hok]. destruct ok; cbn [negb].
  - destruct Hr1 as (_ & -> & _ & Hz & _). unfold len in Hz. destruct (tab r1) as [|y [|z t]]; [done| |rewrite !zlen_cons in Hz; pose proof (zlen_nonneg t); lia].
    apply hpost_bind, hpost_lift, post_ret, hpost_ret. right. split; [done|]. cbn [expn set_expn].
    apply one_limb; [done|done|lia|]. by replace (e - 1023 + 1 - 64) with (e - 1086) by lia.
  - destruct Hok as [?|Hshort]; [done|]. apply hpost_bind. eapply hpost_mono; [apply bf_set_nan_spec|]. intros r' Hr'. apply hpost_ret. by left.
Qed.

Lemma bf_set_float64_in r u :
  limbs (tab r) -> in_u64 u -> (forall e, hpost (bf_resize (set_expn r e) 1) (fun '(_, ok) => ok = true \/ short)) ->
  hpost (bf_set_float64 r u) (fun '(r', st) => (short /\ st = BF_ST_MEM_ERROR /\ represents r' V_nan) \/ (st = 0 /\ represents r' (float64_value u))).
Proof.
  intros Hl Hu Hg. destruct (float64_parts u Hu) as (Hs & He & Hm & _). unfold bf_set_float64. cbv zeta.
  rewrite (Z.shiftr_div_pow2 u 63), (Z.shiftr_div_pow2 u 52) by lia. change (Z.shiftl 1 11 - 1) with (2 ^ 11 - 1). change (Z.shiftl 1 52 - 1) with (2 ^ 52 - 1).
  rewrite (land_mask _ 11), (land_mask u 52) by done. fold (float64_sign u) (float64_exp u) (float64_mant u). unfold float64_value.
  set (s := float64_sign u) in *. set (e := float64_exp u) in *. set (m := float64_mant u) in *. change (2 ^ 11 - 1) with 2047.
  destruct (Z.eqb_spec e 2047) as [_|He1]; [destruct (Z.eqb_spec m 0) as [_|Hm0]; cbn [negb]|destruct (Z.eqb_spec e 0) as [_|He0]; [destruct (Z.eqb_spec m 0) as [_|Hm0]|]].
  - apply hpost_bind. eapply hpost_mono; [apply bf_set_inf_spec|]. intros r' Hr'. apply hpost_ret. by right.
  - apply hpost_bind. eapply hpost_mono; [apply bf_set_nan_spec|]. intros r' Hr'. apply hpost_ret. by right.
  - apply hpost_bind. eapply hpost_mono; [apply bf_set_zero_spec|]. intros r' Hr'. apply hpost_ret. by right.
  - rewrite (Z.shiftl_mul_pow2 m) by lia. rewrite (u64_id (m * 2 ^ 12)) by (unfold in_u64; lia). set (m' := m * 2 ^ 12).
    destruct (clz_spec m' ltac:(unfold in_u64, m'; lia)) as (C1 & C2 & C3). pose proof (clz_lt m' ltac:(unfold in_u64, m'; lia) ltac:(unfold m'; lia)) as C4.
    set (c := clz m') in *. destruct C3 as [?|C3]; [lia|]. assert (2 ^ 63 <= m' * 2 ^ c < LB) as Hx.
    { unfold LB. replace 63 with (63 - c + c) at 1 by lia. replace 64 with (64 - c + c) at 1 by lia. rewrite !Z.pow_add_r by lia. split; [apply Z.mul_le_mono_nonneg_r|apply Z.mul_lt_mono_pos_r]; lia. }
    rewrite Z.shiftl_mul_pow2, u64_id by (lia || (unfold in_u64; unfold LB in Hx; lia)).
    assert (c <= 63) as C5 by lia. apply float64_norm; [done|apply Hg|done|done|lia|]. split; [done|]. apply same_number_le; [lia|]. unfold m'. rewrite <- Z.mul_assoc, <- Z.pow_add_r by lia. do 2 f_equal. lia.
  - rewrite (Z.shiftl_mul_pow2 m) by lia. rewrite (u64_id (m * 2 ^ 11)) by (unfold in_u64; lia). change (u64 (Z.shiftl 1 63)) with (1 * 2 ^ 63). rewrite (lor_low_high 63) by lia.
    apply float64_norm; [done|apply Hg|done|unfold LB; lia|lia|]. split; [done|]. apply same_number_le; [lia|]. replace (e - 1075 - (e - 1086)) with 11 by lia. lia.
Qed.
End SetDouble.

Lemma float64_sized u s m k : in_u64 u -> float64_value u = V_num s m k ->
  is_bit s /\ 0 < m < 2 ^ 53 /\ -1074 <= k <= 971 /\ (k = -1074 \/ 2 ^ 52 <= m).
Proof.
  intros Hu. destruct (float64_parts u Hu) as (Hs & He & Hm & _). unfold float64_value.
  destruct (Z.eqb_spec (float64_exp u) 2047); [by case_match|]. destruct (Z.eqb_spec (float64_exp u) 0); [destruct (Z.eqb_spec (float64_mant u) 0); [done|]|];
    intros [= <- <- <-]; (split; [exact Hs|lia]).
Qed.

Lemma float64_number r u : in_u64 u -> represents r (float64_value u) -> number r (float64_value u).
Proof.
  intros Hu Hr. destruct (float64_parts u Hu) as (Hs & _). destruct (float64_value u) as [|s|s|s m k] eqn:E.
  - by apply nan_number.
  - assert (s = float64_sign u) as -> by (unfold float64_value in E; repeat case_match; congruence). cbn in Hr. subst r. by split.
  - assert (s = float64_sign u) as -> by (unfold float64_value in E; repeat case_match; congruence). cbn in Hr. subst r. by split.
  - destruct (float64_sized u s m k Hu E) as (Hb & Hm & Hk & _). apply represents_number; [done|done|]. unfold sized.
    assert (Z.log2 m < 53) by (apply Z.log2_lt_pow2; lia). lia.
Qed.

(** Two doubles with one value are one, but for the NaNs. *)
Lemma same_number_canonical m1 k1 m2 k2 :
  0 < m1 < 2 ^ 53 -> 0 < m2 < 2 ^ 53 -> -1074 <= k1 -> -1074 <= k2 -> (k1 = -1074 \/ 2 ^ 52 <= m1) -> (k2 = -1074 \/ 2 ^ 52 <= m2) ->
  same_number m1 k1 m2 k2 -> m1 = m2 /\ k1 = k2.
Proof.
  intros H1 H2 K1 K2 C1 C2 Hs. assert (forall m k m' k', 0 < m < 2 ^ 53 -> 0 < m' -> -1074 <= k -> k < k' -> (k' = -1074 \/ 2 ^ 52 <= m') -> m <> m' * 2 ^ (k' - k)) as Hlt.
  { intros m k m' k' Hm Hm' Hk Hkk Hc E. assert (2 <= 2 ^ (k' - k)) by (change 2 with (2 ^ 1) at 1; apply Z.pow_le_mono_r; lia). destruct Hc; [lia|]. nia. }
  unfold same_number in Hs. destruct (Z.lt_trichotomy k1 k2) as [Hk|[->|Hk]].
  - rewrite Z.min_l, Z.sub_diag, Z.pow_0_r, Z.mul_1_r in Hs by lia. exfalso. apply (Hlt m1 k1 m2 k2); done || lia.
  - rewrite Z.min_id, Z.sub_diag, Z.pow_0_r, !Z.mul_1_r in Hs. done.
  - rewrite Z.min_r, Z.sub_diag, Z.pow_0_r, Z.mul_1_r in Hs by lia. symmetry in Hs. exfalso. apply (Hlt m2 k2 m1 k1); done || lia.
Qed.

Lemma float64_value_inj u u' :
  in_u64 u -> in_u64 u' -> float64_value u <> V_nan -> value_equiv (float64_value u') (float64_value u) -> u' = u.
Proof.
  intros Hu Hu' Hn. destruct (float64_parts u Hu) as (Hs & He & Hm & E). destruct (float64_parts u' Hu') as (Hs' & He' & Hm' & E').
  unfold float64_value in *. destruct (Z.eqb_spec (float64_exp u) 2047) as [X1|X1], (Z.eqb_spec (float64_exp u') 2047) as [Y1|Y1].
  all: destruct (Z.eqb_spec (float64_mant u) 0) as [X2|X2], (Z.eqb_spec (float64_mant u') 0) as [Y2|Y2].
  all: destruct (Z.eqb_spec (float64_exp u) 0) as [X3|X3], (Z.eqb_spec (float64_exp u') 0) as [Y3|Y3].
  all: cbn [value_equiv]; intros H; try done; try lia.
  all: try (injection H as H; rewrite E, E'; rewrite ?X1, ?X2, ?X3, ?Y1, ?Y2, ?Y3, H; done).
  all: destruct H as [H1 H2]; apply same_number_canonical in H2; try lia.
Qed.

(** A double is not changed by rounding. *)
Lemma double_exact u mode s m k :
  in_u64 u -> float64_value u = V_num s m k -> 0 <= mode < 6 -> bf_round_spec s m 1 k 53 (float64_flags mode) = (V_num s m k, 0).
Proof.
  intros Hu E Hmode. destruct (float64_sized u s m k Hu E) as (Hs & Hm & Hk & Hc). destruct (double_flags_ok mode ltac:(lia)) as (E1 & E2 & E3 & E4 & _).
  assert (Z.log2 m < 53) as Hl by (apply Z.log2_lt_pow2; lia). pose proof (Z.log2_nonneg m). assert (k = -1074 \/ Z.log2 m = 52) as Hc'.
  { destruct Hc as [|Hc]; [by left|right]. assert (52 <= Z.log2 m) by (apply Z.log2_le_pow2; lia). lia. }
  unfold bf_round_spec. rewrite ratio_exponent_int by lia. rewrite E1, E2. unfold prec_spec. rewrite E3, E4. change (Z.shiftl 1 (11 - 1)) with 1024. change (Z.opp 1024 + 3) with (-1021). cbv zeta.
  change BF_RNDF with 6. rewrite (proj2 (Z.eqb_neq mode 6)) by lia. rewrite andb_true_r. cbn [orb].
  set (E0 := k + Z.log2 m + 1). set (prec := if E0 <? -1021 then 53 - (-1021 - E0) else 53).
  assert (0 < prec /\ E0 - prec <= k /\ E0 <= 1024) as (Hp & Hpk & HE) by (unfold prec; destruct (Z.ltb_spec E0 (-1021)); lia).
  rewrite (proj2 (Z.leb_le (E0 - prec) k)) by lia. change (1 =? 1) with true. cbn [andb negb]. destruct (scaled m 1 k (E0 - prec)) as [n' d'].
  rewrite (proj2 (Z.leb_gt prec 0)) by lia. change (has_flag 0 BF_ST_INEXACT) with false. rewrite !andb_false_r.
  by rewrite (proj2 (Z.ltb_ge 1024 E0)) by lia.
Qed.

Section Roundtrip.
Context `{SHG : ShrinkGranted}.

Lemma bf_set_float64_value r u :
  limbs (tab r) -> in_u64 u ->
  hpost (bf_set_float64 r u) (fun '(r', st) => (st = BF_ST_MEM_ERROR /\ represents r' V_nan) \/ (st = 0 /\ number r' (float64_value u))).
Proof.
  intros Hl Hu. eapply hpost_mono; [apply (bf_set_float64_in True r u Hl Hu)|].
  - intros e h. destruct (bf_resize (set_expn r e) 1 h) as [[h' [r1 ok]]|] eqn:E; [by right|]. 
    pose proof (bf_resize_spec (set_expn r e) 1 Hl ltac:(done) h) as H. by rewrite E in H.
  - intros [r' st] [[_ H]|[-> H]]; [by left|right]. split; [done|by apply float64_number].
Qed.

Lemma float64_roundtrip_value `{AG : !AllocGranted} r u mode :
  limbs (tab r) -> in_u64 u -> 0 <= mode < 6 ->
  hpost (let! (a, _) := bf_set_float64 r u in bf_get_float64 a mode) (fun '(u', st) =>
    st = 0 /\ match float64_value u with V_nan => float64_value u' = V_nan | _ => u' = u end).
Proof.
  intros Hl Hu Hmode. apply hpost_bind. eapply hpost_mono; [apply (bf_set_float64_in False r u Hl Hu)|].
  - intros e. eapply hpost_mono; [by apply bf_resize_granted|]. intros [r1 ok] ->. by left.
  - intros [r' st] [[[] _]|[-> Hr']]. pose proof (float64_number r' u Hu Hr') as Nr. eapply hpost_mono; [apply (bf_get_float64_value r' _ mode Nr); lia|].
    intros [u' st'] (Hu' & Hv & ->). destruct (float64_value u) as [|s|s|s m k] eqn:E.
    1: split; [done|]; cbn [round_spec fst] in Hv; destruct (float64_value u'); done || by destruct Hv.
    all: cbn [round_spec] in *; try rewrite (double_exact u mode s m k Hu E Hmode) in *; (split; [done|]).
    all: apply float64_value_inj; rewrite ?E; done.
Qed.
End Roundtrip.
