(* ===== verification/BfInt.v ===== *)
(** The conversions of the numbers of [libbf.c] to fixed size integers, and the
    logical operations on its integers. *)
From Stdlib Require Import ZArith Lia Bool List Setoid.
From stdpp Require Import base tactics list numbers.
From S2P Require Import Prelude IntFmt Alloc Limb MpMul MpDiv Bf BfRound BfRatio BfRoundOk BfOps BfCmp BfMulDiv BfCancel BfAdd BfSum BfDivrem BfConv.

(** * Integer parts *)

(** The integer part of [m * 2 ^ e] is [Z.shiftl m e]. *)
Lemma shiftl_same m1 e1 m2 e2 : same_number m1 e1 m2 e2 -> Z.shiftl m1 e1 = Z.shiftl m2 e2.
Proof.
  unfold same_number. set (d := Z.min e1 e2). intros H. assert (forall m e, d <= e -> Z.shiftl m e = Z.shiftl (m * 2 ^ (e - d)) d) as Hs.
  { intros m e He. rewrite <- Z.shiftl_mul_pow2, Z.shiftl_shiftl by lia. f_equal. lia. }
  rewrite (Hs m1 e1), (Hs m2 e2), H by lia. done.
Qed.

(** The integer part of a number: what its words are, and its size. *)
Lemma number_int_part a s m e :
  number a (V_num s m e) -> Z.shiftl (value (tab a)) (expn a - 64 * len a) = Z.shiftl m e /\
  (expn a <= 0 -> Z.shiftl m e = 0) /\ (0 < expn a -> 2 ^ (expn a - 1) <= Z.shiftl m e < 2 ^ expn a).
Proof.
  intros Ha. destruct (number_mant a s m e Ha) as (_ & Hz & Hp & _ & _ & Hs & Hb & _). unfold bf_exp in Hs. change LIMB_BITS with 64 in Hs.
  rewrite <- (shiftl_same _ _ _ _ Hs). split; [done|]. set (V := value (tab a)) in *. destruct (Z.le_gt_cases (64 * len a) (expn a)) as [Hf|Hf].
  - split; [lia|]. intros _. rewrite Z.shiftl_mul_pow2 by lia. set (f := expn a - 64 * len a) in *.
    assert (2 ^ (expn a - 1) = 2 ^ (64 * len a - 1) * 2 ^ f) as -> by (rewrite <- Z.pow_add_r by lia; f_equal; lia).
    assert (2 ^ expn a = 2 ^ (64 * len a) * 2 ^ f) as -> by (rewrite <- Z.pow_add_r by lia; f_equal; lia). split; [apply Z.mul_le_mono_nonneg_r|apply Z.mul_lt_mono_pos_r]; lia.
  - replace (expn a - 64 * len a) with (- (64 * len a - expn a)) by lia. rewrite Z.shiftl_opp_r, Z.shiftr_div_pow2 by lia. split.
    + intros He. apply Z.div_small. split; [lia|]. eapply Z.lt_le_trans; [apply Hb|apply Z.pow_le_mono_r; lia].
    + intros He. split.
      * apply Z.div_le_lower_bound; [lia|]. rewrite <- Z.pow_add_r by lia. replace (64 * len a - expn a + (expn a - 1)) with (64 * len a - 1) by lia. lia.
      * apply Z.div_lt_upper_bound; [lia|]. rewrite <- Z.pow_add_r by lia. replace (64 * len a - expn a + expn a) with (64 * len a) by lia. lia.
Qed.

Lemma low_word_spec a s m e :
  number a (V_num s m e) -> get_bits (tab a) (len a * LIMB_BITS - expn a) = Ret (Z.shiftl m e mod LB).
Proof.
  intros Ha. destruct (number_int_part a s m e Ha) as [Hi _]. destruct (number_mant a s m e Ha) as (Hl & Hz & _ & _ & _ & _ & _ & He).
  pose proof (proj2 (proj2 (proj2 Ha))) as Hs. change LIMB_BITS with 64. rewrite get_bits_spec by (done || (unfold len in *; lia)). unfold bits_at. rewrite <- Hi.
  replace (expn a - 64 * len a) with (- (len a * 64 - expn a)) by lia. by rewrite Z.shiftl_opp_r.
Qed.

Lemma top_limb_spec a s m e :
  number a (V_num s m e) -> rd (tab a) (len a - 1) = Ret (value (tab a) / 2 ^ (64 * (len a - 1))).
Proof.
  intros Ha. destruct (number_mant a s m e Ha) as (Hl & Hz & _ & _ & _ & _ & Hb & _). destruct (at_exists (tab a) (len a - 1)) as [x Hx]; [unfold len in *; lia|].
  rewrite (rd_at _ _ _ Hx). f_equal. rewrite <- (word_at _ _ _ Hl Hx). unfold bits_at. rewrite Z.shiftr_div_pow2 by lia. apply Z.mod_small.
  split; [apply Z.div_pos; lia|]. apply Z.div_lt_upper_bound; [lia|]. unfold LB. rewrite <- Z.pow_add_r by lia. replace (64 * (len a - 1) + 64) with (64 * len a) by lia. lia.
Qed.

Lemma top_bits_spec a s m e :
  number a (V_num s m e) -> 0 < expn a <= 64 -> top_bits a (expn a) = Ret (Z.shiftl m e).
Proof.
  intros Ha He. destruct (number_int_part a s m e Ha) as [<- _]. destruct (number_mant a s m e Ha) as (_ & Hz & _). unfold top_bits. rewrite (top_limb_spec a s m e Ha). cbn [obind]. f_equal.
  change LIMB_BITS with 64. rewrite Z.shiftr_div_pow2, Z.div_div, <- Z.pow_add_r by lia.
  replace (expn a - 64 * len a) with (- (64 * (len a - 1) + (64 - expn a))) by lia. by rewrite Z.shiftl_opp_r, Z.shiftr_div_pow2 by lia.
Qed.

(** * Conversions *)

(** Two's complement on [n] bits. *)
Definition wrap (n z : Z) : Z := (z + 2 ^ (n - 1)) mod 2 ^ n - 2 ^ (n - 1).

(** The conversion to a signed integer of [n] bits: truncation, then saturation or reduction. *)
Definition get_int_spec (n : Z) (v : bf_value) (modular : bool) : Z * Z :=
  let max := 2 ^ (n - 1) - 1 in
  let saturated s := if s =? 0 then max else - 2 ^ (n - 1) in
  match v with
  | V_nan => (if modular then 0 else max, BF_ST_INVALID_OP)
  | V_inf s => (if modular then 0 else saturated s, BF_ST_INVALID_OP)
  | V_zero _ => (0, 0)
  | V_num s m e =>
      let z := (1 - 2 * s) * Z.shiftl m e in
      if modular then (wrap n z, 0)
      else if (- 2 ^ (n - 1) <=? z) && (z <=? max) then (z, 0)
      else (saturated s, BF_ST_INVALID_OP)
  end.

Definition get_uint_spec (n : Z) (v : bf_value) : Z * Z :=
  match v with
  | V_nan => (2 ^ n - 1, BF_ST_INVALID_OP)
  | V_inf s => if s =? 0 then (2 ^ n - 1, BF_ST_INVALID_OP) else (0, BF_ST_INVALID_OP)
  | V_zero _ => (0, 0)
  | V_num s m e =>
      let z := Z.shiftl m e in
      if z =? 0 then (0, 0) else if negb (s =? 0) then (0, BF_ST_INVALID_OP) else if z <? 2 ^ n then (z, 0) else (2 ^ n - 1, BF_ST_INVALID_OP)
  end.

Lemma i64_wrap z : i64 z = wrap 64 z.
Proof. unfold i64, wrap, u64. change (2 ^ 64) with 18446744073709551616. change (2 ^ (64 - 1)) with 9223372036854775808. Z.to_euclidean_division_equations. case_match eqn:E; lia. Qed.

Lemma i32_wrap z : i32 z = wrap 32 z.
Proof. unfold i32, wrap, u32. change (2 ^ 32) with 4294967296. change (2 ^ (32 - 1)) with 2147483648. Z.to_euclidean_division_equations. case_match eqn:E; lia. Qed.

Lemma wrap_equal n x y : 0 < n -> (x - y) mod 2 ^ n = 0 -> wrap n x = wrap n y.
Proof.
  intros Hn H. unfold wrap. f_equal. apply Z.mod_divide in H as [k Hk]; [|lia]. replace (x + 2 ^ (n - 1)) with (y + 2 ^ (n - 1) + k * 2 ^ n) by lia. apply Z.mod_add. lia.
Qed.

Lemma wrap_small n z : 0 < n -> - 2 ^ (n - 1) <= z < 2 ^ (n - 1) -> wrap n z = z.
Proof.
  intros Hn Hz. unfold wrap. assert (2 ^ n = 2 * 2 ^ (n - 1)) as E by (rewrite <- Z.pow_succ_r by lia; f_equal; lia). rewrite Z.mod_small; lia.
Qed.

(** A word, negated when the sign is set, reduced. *)
Lemma i64_signed s T : is_bit s -> i64 (if negb (s =? 0) then u64 (- (T mod LB)) else T mod LB) = wrap 64 ((1 - 2 * s) * T).
Proof.
  intros Hs. rewrite i64_wrap. apply wrap_equal; [done|]. unfold u64, LB. change 18446744073709551616 with (2 ^ 64).
  pose proof (Z.div_mod T (2 ^ 64) ltac:(lia)) as E. destruct Hs as [->| ->]; cbn [Z.eqb negb].
  - replace (T mod 2 ^ 64 - (1 - 2 * 0) * T) with (- (T / 2 ^ 64) * 2 ^ 64) by lia. by apply Z.mod_mul.
  - pose proof (Z.div_mod (- (T mod 2 ^ 64)) (2 ^ 64) ltac:(lia)) as E'.
    replace ((- (T mod 2 ^ 64)) mod 2 ^ 64 - (1 - 2 * 1) * T) with ((T / 2 ^ 64 - (- (T mod 2 ^ 64)) / 2 ^ 64) * 2 ^ 64) by lia. by apply Z.mod_mul.
Qed.

Lemma i32_signed s T : is_bit s -> i32 (if negb (s =? 0) then u32 (- u32 (T mod LB)) else u32 (T mod LB)) = wrap 32 ((1 - 2 * s) * T).
Proof.
  intros Hs. rewrite i32_wrap. apply wrap_equal; [done|]. assert (u32 (T mod LB) = T mod 2 ^ 32) as ->.
  { unfold u32, LB. change 4294967296 with (2 ^ 32). apply Z.mod_mod_divide. by exists (2 ^ 32). }
  unfold u32. change 4294967296 with (2 ^ 32).
  pose proof (Z.div_mod T (2 ^ 32) ltac:(lia)) as E. destruct Hs as [->| ->]; cbn [Z.eqb negb].
  - replace (T mod 2 ^ 32 - (1 - 2 * 0) * T) with (- (T / 2 ^ 32) * 2 ^ 32) by lia. by apply Z.mod_mul.
  - pose proof (Z.div_mod (- (T mod 2 ^ 32)) (2 ^ 32) ltac:(lia)) as E'.
    replace ((- (T mod 2 ^ 32)) mod 2 ^ 32 - (1 - 2 * 1) * T) with ((T / 2 ^ 32 - (- (T mod 2 ^ 32)) / 2 ^ 32) * 2 ^ 32) by lia. by apply Z.mod_mul.
Qed.

(** Results in and out of the range. *)
Lemma get_int_in n s m e (modular : bool) :
  1 < n -> is_bit s -> 0 <= Z.shiftl m e < 2 ^ (n - 1) ->
  get_int_spec n (V_num s m e) modular = (wrap n ((1 - 2 * s) * Z.shiftl m e), 0).
Proof.
  intros Hn Hs HT. unfold get_int_spec. destruct modular; [done|]. rewrite (proj2 (Z.leb_le (- 2 ^ (n - 1)) _)), (proj2 (Z.leb_le _ (2 ^ (n - 1) - 1))) by (destruct Hs as [->| ->]; lia).
  cbn [andb]. f_equal. symmetry. apply wrap_small; [lia|]. destruct Hs as [->| ->]; lia.
Qed.

Lemma get_int_out n s m e :
  1 < n -> is_bit s -> 2 ^ (n - 1) <= Z.shiftl m e ->
  get_int_spec n (V_num s m e) false =
    if s =? 0 then (2 ^ (n - 1) - 1, BF_ST_INVALID_OP) else (- 2 ^ (n - 1), if Z.shiftl m e =? 2 ^ (n - 1) then 0 else BF_ST_INVALID_OP).
Proof.
  intros Hn Hs HT. unfold get_int_spec. destruct Hs as [->| ->]; cbn [Z.eqb].
  - rewrite (proj2 (Z.leb_gt _ (2 ^ (n - 1) - 1))) by lia. by rewrite andb_false_r.
  - destruct (Z.eqb_spec (Z.shiftl m e) (2 ^ (n - 1))) as [->|Hne].
    + rewrite (proj2 (Z.leb_le _ _)), (proj2 (Z.leb_le _ (2 ^ (n - 1) - 1))) by lia. cbn [andb]. f_equal; lia.
    + by rewrite (proj2 (Z.leb_gt (- 2 ^ (n - 1)) _)) by lia.
Qed.

Lemma bf_get_int64_value a v flags :
  number a v -> bf_get_int64 a flags = Ret (get_int_spec 64 v (has_flag flags BF_GET_INT_MOD)).
Proof.
  intros Ha. pose proof (proj1 (proj2 Ha) : is_bit (sign a)) as Bs. unfold bf_get_int64. destruct v as [|s|s|s m e].
  1-3: pose proof (proj1 Ha) as H; cbn in H; subst a; cbn [sign] in Bs; destruct (has_flag flags BF_GET_INT_MOD); try (destruct Bs as [->| ->]); by vm_compute.
  destruct (in_range_expn a (proj2 (proj2 Ha))) as (_ & _ & _ & _ & ->). destruct (number_int_part a s m e Ha) as (Hi & H0 & H1).
  destruct (number_mant a s m e Ha) as (_ & Hz & _ & _ & Es & _). rewrite Es in *. set (T := Z.shiftl m e) in *.
  assert (forall T', 0 <= T' < LB -> i64 (if negb (s =? 0) then u64 (- T') else T') = wrap 64 ((1 - 2 * s) * T')) as Hsig.
  { intros T' HT'. rewrite <- i64_signed by done. by rewrite Z.mod_small. }
  destruct (Z.leb_spec (expn a) 0) as [He|He]; [|destruct (Z.leb_spec (expn a) 63) as [He2|He2]].
  - cbn [obind]. specialize (H0 He). rewrite get_int_in; fold T; [|lia|done|lia]. replace T with 0 by lia. by rewrite Z.mul_0_r.
  - specialize (H1 He). assert (2 ^ expn a <= 2 ^ 63) by (apply Z.pow_le_mono_r; lia). rewrite (top_bits_spec a s m e Ha) by lia. fold T. cbn [obind].
    rewrite Hsig by (unfold LB; lia). rewrite get_int_in; fold T; [done|lia|done|lia].
  - specialize (H1 He). assert (2 ^ 63 <= T) by (eapply Z.le_trans; [|apply H1]; apply Z.pow_le_mono_r; lia).
    destruct (has_flag flags BF_GET_INT_MOD); cbn [negb].
    + rewrite (low_word_spec a s m e Ha). fold T. cbn [obind]. rewrite i64_signed by done. done.
    + rewrite get_int_out; fold T; [|lia|done|done]. change (2 ^ (64 - 1)) with (2 ^ 63). destruct (Z.eqb_spec s 0) as [->|Hs0]; cbn [negb]; [done|].
      destruct (Z.eqb_spec (expn a) 64) as [E|E]; cbn [obind].
      * rewrite (top_limb_spec a s m e Ha). cbn [obind]. change (u64 (INT64_MAX + 1)) with (2 ^ 63). change (i64 (2 ^ 63)) with (- 2 ^ 63).
        replace (value (tab a) / 2 ^ (64 * (len a - 1))) with T; [done|]. rewrite <- Hi, E.
        replace (64 - 64 * len a) with (- (64 * (len a - 1))) by lia. by rewrite Z.shiftl_opp_r, Z.shiftr_div_pow2 by lia.
      * assert (2 ^ 64 <= T) by (eapply Z.le_trans; [|apply H1]; apply Z.pow_le_mono_r; lia). by rewrite (proj2 (Z.eqb_neq T _)) by lia.
Qed.

Lemma bf_get_int32_value a v flags :
  number a v -> bf_get_int32 a flags = Ret (get_int_spec 32 v (has_flag flags BF_GET_INT_MOD)).
Proof.
  intros Ha. pose proof (proj1 (proj2 Ha) : is_bit (sign a)) as Bs. unfold bf_get_int32. destruct v as [|s|s|s m e].
  1-3: pose proof (proj1 Ha) as H; cbn in H; subst a; cbn [sign] in Bs; destruct (has_flag flags BF_GET_INT_MOD); try (destruct Bs as [->| ->]); by vm_compute.
  destruct (in_range_expn a (proj2 (proj2 Ha))) as (_ & _ & _ & _ & ->). destruct (number_int_part a s m e Ha) as (_ & H0 & H1).
  destruct (number_mant a s m e Ha) as (_ & Hz & _ & _ & Es & _). rewrite Es in *. set (T := Z.shiftl m e) in *.
  destruct (Z.leb_spec (expn a) 0) as [He|He]; [|destruct (Z.leb_spec (expn a) 31) as [He2|He2]].
  - cbn [obind]. specialize (H0 He). rewrite get_int_in; fold T; [|lia|done|lia]. replace T with 0 by lia. by rewrite Z.mul_0_r.
  - specialize (H1 He). assert (2 ^ expn a <= 2 ^ 31) by (apply Z.pow_le_mono_r; lia). rewrite (top_bits_spec a s m e Ha) by lia. fold T. cbn [obind]. cbv zeta.
    rewrite <- (Z.mod_small T LB) by (unfold LB; lia). rewrite i32_signed by done. rewrite get_int_in; fold T; [done|lia|done|lia].
  - specialize (H1 He). assert (2 ^ 31 <= T) by (eapply Z.le_trans; [|apply H1]; apply Z.pow_le_mono_r; lia).
    destruct (has_flag flags BF_GET_INT_MOD); cbn [negb].
    + rewrite (low_word_spec a s m e Ha). fold T. cbn [obind]. cbv zeta. rewrite i32_signed by done. done.
    + rewrite get_int_out; fold T; [|lia|done|done]. change (2 ^ (32 - 1)) with (2 ^ 31). destruct (Z.eqb_spec s 0) as [->|Hs0]; cbn [negb]; [done|].
      destruct (Z.eqb_spec (expn a) 32) as [E|E]; cbn [obind].
      * rewrite <- E at 1. rewrite (top_bits_spec a s m e Ha) by lia. done.
      * assert (2 ^ 32 <= T) by (eapply Z.le_trans; [|apply H1]; apply Z.pow_le_mono_r; lia). by rewrite (proj2 (Z.eqb_neq T _)) by lia.
Qed.

Lemma bf_get_uint64_value a v : number a v -> bf_get_uint64 a = Ret (get_uint_spec 64 v).
Proof.
  intros Ha. pose proof (proj1 (proj2 Ha) : is_bit (sign a)) as Bs. unfold bf_get_uint64. destruct v as [|s|s|s m e].
  1-3: pose proof (proj1 Ha) as H; cbn in H; subst a; cbn [sign] in Bs; try (destruct Bs as [->| ->]); by vm_compute.
  destruct (in_range_expn a (proj2 (proj2 Ha))) as (_ & Hn & _). unfold bf_is_nan in Hn. rewrite Hn. destruct (number_int_part a s m e Ha) as (_ & H0 & H1).
  destruct (number_mant a s m e Ha) as (_ & Hz & _ & _ & Es & _). rewrite Es in *. unfold get_uint_spec. set (T := Z.shiftl m e) in *.
  destruct (Z.leb_spec (expn a) 0) as [He|He]; [by rewrite H0 by lia|]. specialize (H1 He). assert (0 < 2 ^ (expn a - 1)) by lia.
  rewrite (proj2 (Z.eqb_neq T 0)) by lia. destruct (Z.eqb_spec s 0) as [->|Hs0]; cbn [negb]; [|done].
  destruct (Z.leb_spec (expn a) 64) as [He2|He2].
  - assert (2 ^ expn a <= 2 ^ 64) by (apply Z.pow_le_mono_r; lia). rewrite (top_bits_spec a 0 m e Ha) by lia. fold T. cbn [obind]. by rewrite (proj2 (Z.ltb_lt T _)) by lia.
  - assert (2 ^ 64 <= T) by (eapply Z.le_trans; [|apply H1]; apply Z.pow_le_mono_r; lia). by rewrite (proj2 (Z.ltb_ge T _)) by lia.
Qed.
