(* ===== verification/BfLogic.v ===== *)
(** The logical operations of [libbf.c] on integers are those of two's complement.

    A negative operand is replaced by its complement, the words of the operands are
    combined with masks of their signs, and the complement of the result is taken
    back when its sign is negative. *)
From Stdlib Require Import ZArith Lia Bool List Setoid.
From stdpp Require Import base tactics list numbers.
From S2P Require Import Prelude IntFmt Alloc Limb MpMul MpDiv Bf BfRound BfRatio BfRoundOk BfOps BfCmp BfMulDiv BfCancel BfAdd BfSum BfDivrem BfConv.

(** * Bits *)

(** A bit repeated: the mask of a sign. *)
Lemma sign_mask_bit s p : is_bit s -> 0 <= p -> Z.testbit (- s) p = (s =? 1).
Proof. intros [->| ->] Hp; [by rewrite Z.testbit_0_l|by rewrite Z.bits_m1]. Qed.

Lemma logic_op1_bit x y op p :
  Z.testbit (bf_logic_op1 x y op) p =
    if op =? BF_LOGIC_OR then Z.testbit x p || Z.testbit y p
    else if op =? BF_LOGIC_XOR then xorb (Z.testbit x p) (Z.testbit y p) else Z.testbit x p && Z.testbit y p.
Proof. unfold bf_logic_op1. repeat case_match; [by rewrite Z.lor_spec|by rewrite Z.lxor_spec|by rewrite Z.land_spec]. Qed.

Lemma bits_at_bit v pos k : 0 <= pos -> 0 <= k -> Z.testbit (bits_at v pos) k = (k <? 64) && Z.testbit v (pos + k).
Proof.
  intros Hp Hk. unfold bits_at, LB. destruct (Z.ltb_spec k 64).
  - rewrite Z.mod_pow2_bits_low by lia. by rewrite Z.shiftr_spec, Z.add_comm by lia.
  - by rewrite Z.mod_pow2_bits_high by lia.
Qed.

(** The sign of the result. *)
Lemma logic_sign_bit s1 s2 op : is_bit s1 -> is_bit s2 -> is_bit (bf_logic_op1 s1 s2 op).
Proof. intros [->| ->] [->| ->]; unfold bf_logic_op1, is_bit; repeat case_match; vm_compute; auto. Qed.

Lemma logic_sign_test s1 s2 op :
  is_bit s1 -> is_bit s2 -> (bf_logic_op1 s1 s2 op =? 1) =
    if op =? BF_LOGIC_OR then (s1 =? 1) || (s2 =? 1) else if op =? BF_LOGIC_XOR then xorb (s1 =? 1) (s2 =? 1) else (s1 =? 1) && (s2 =? 1).
Proof. intros [->| ->] [->| ->]; unfold bf_logic_op1; by repeat case_match. Qed.

Section Words.
Context (x y s1 s2 op : Z) (Hs1 : is_bit s1) (Hs2 : is_bit s2).

Abbreviation rs := (bf_logic_op1 s1 s2 op).

(** The operands and the result as the code has them: complemented when they are negative. *)
Definition logic_mag (v s : Z) : Z := Z.lxor v (- s).
Definition logic_word : Z := logic_mag (bf_logic_op1 x y op) rs.

Lemma logic_word_at n : 0 <= n ->
  Z.lxor (bf_logic_op1 (Z.lxor (bits_at (logic_mag x s1) n) (u64 (- s1))) (Z.lxor (bits_at (logic_mag y s2) n) (u64 (- s2))) op) (u64 (- rs)) = bits_at logic_word n.
Proof.
  intros Hn. pose proof (logic_sign_bit s1 s2 op Hs1 Hs2) as Hrs. apply Z.bits_inj'. intros k Hk.
  assert (forall s, is_bit s -> Z.testbit (u64 (- s)) k = (k <? 64) && (s =? 1)) as Hu.
  { intros s Hs. unfold u64. change 18446744073709551616 with (2 ^ 64). destruct (Z.ltb_spec k 64); [by rewrite Z.mod_pow2_bits_low, sign_mask_bit by done|by rewrite Z.mod_pow2_bits_high by lia]. }
  rewrite Z.lxor_spec, logic_op1_bit, !Z.lxor_spec, !bits_at_bit, !Hu by done. unfold logic_word, logic_mag.
  rewrite !Z.lxor_spec, logic_op1_bit, !sign_mask_bit by (done || lia). destruct (k <? 64); cbn [andb].
  - destruct (s1 =? 1), (s2 =? 1), (rs =? 1), (Z.testbit x (n + k)), (Z.testbit y (n + k)); by repeat case_match.
  - by repeat case_match.
Qed.

(** Bits at and above which the result has none. *)
Lemma logic_word_high n :
  0 <= n -> (forall p, n <= p ->
    (Z.testbit (logic_mag x s1) p = false /\ Z.testbit (logic_mag y s2) p = false) \/
    (op = BF_LOGIC_AND /\ rs = 0 /\ ((s1 = 0 /\ Z.testbit (logic_mag x s1) p = false) \/ (s2 = 0 /\ Z.testbit (logic_mag y s2) p = false)))) ->
  logic_word mod 2 ^ n = logic_word.
Proof.
  intros Hn H. pose proof (logic_sign_bit s1 s2 op Hs1 Hs2) as Hrs. pose proof (logic_sign_test s1 s2 op Hs1 Hs2) as Ers. apply Z.bits_inj'. intros p Hp.
  destruct (Z.lt_ge_cases p n) as [Hpn|Hpn]; [by rewrite Z.mod_pow2_bits_low by lia|]. rewrite Z.mod_pow2_bits_high by lia. symmetry.
  specialize (H p Hpn). unfold logic_word, logic_mag in *. rewrite !Z.lxor_spec, !sign_mask_bit in H by done. rewrite Z.lxor_spec, logic_op1_bit, sign_mask_bit by done.
  destruct H as [[Hx Hy]|(Eop & E & [[Es Hx]|[Es Hy]])].
  - rewrite Ers. destruct (s1 =? 1), (s2 =? 1), (Z.testbit x p), (Z.testbit y p); try done; by repeat case_match.
  - rewrite E, Eop. rewrite Es in Hx. cbn in *. by destruct (Z.testbit x p).
  - rewrite E, Eop. rewrite Es in Hy. cbn in *. destruct (Z.testbit x p), (Z.testbit y p); done.
Qed.
End Words.

(** * Operands *)

Lemma sign_bit x : is_bit (b2z (x <? 0)).
Proof. destruct (x <? 0); [by right|by left]. Qed.

Lemma logic_mag_sign x : logic_mag x (b2z (x <? 0)) = if x <? 0 then - x - 1 else x.
Proof. unfold logic_mag. destruct (x <? 0); cbn [b2z]; [by rewrite Z.lxor_m1_r; unfold Z.lnot; lia|apply Z.lxor_0_r]. Qed.

(** What the code has for an operand. *)
Definition mag (v : Z) : Z := logic_mag v (b2z (v <? 0)).

Lemma mag_spec v : 0 <= mag v <= Z.abs v /\ mag v = if v <? 0 then - v - 1 else v.
Proof. unfold mag. rewrite logic_mag_sign. destruct (Z.ltb_spec v 0); lia. Qed.

(** An integer of at most [2 ^ 50] bits. *)
Definition small_int (v : Z) : Prop := v <> 0 -> fits (Z.abs v) 0.

Lemma small_int_sized v : small_int v -> Z.abs v <> 0 -> sized (Z.abs v) 0.
Proof. intros H Hv. destruct H as (? & ? & ?); [lia|]. unfold sized. lia. Qed.

Lemma small_int_log2 v : small_int v -> Z.log2 (Z.abs v) < 2 ^ 50.
Proof. intros H. destruct (Z.eq_dec v 0) as [->|Hv]; [done|]. by destruct (H Hv) as (_ & ? & _). Qed.

Lemma small_int_le v w : Z.abs v <= Z.abs w -> small_int w -> small_int v.
Proof. intros Hle Hw Hv. pose proof (small_int_log2 w Hw). pose proof (Z.log2_le_mono _ _ Hle). unfold fits. lia. Qed.

(** The exponent and the length of an operand. *)
Lemma operand_size a s v :
  number a (int_value s (Z.abs v) 0) -> small_int v -> 0 <= len a /\ small_tab (tab a) /\ limbs (tab a) /\
  (v = 0 /\ a = mkBf s BF_EXP_ZERO [] \/ v <> 0 /\ sign a = s /\ expn a = Z.log2 (Z.abs v) + 1 /\ 64 * len a <= 2 ^ 50 + 64).
Proof.
  intros Ha Hv. pose proof (number_limbs _ _ Ha) as Hl. split; [apply zlen_nonneg|]. pose proof (proj1 Ha) as Hr. unfold int_value in Hr. destruct (Z.eqb_spec (Z.abs v) 0) as [E|E].
  - cbn in Hr. subst a. split; [done|]. split; [constructor|]. left. split; [lia|done].
  - destruct (Hv ltac:(lia)) as (H1 & H2 & _). destruct (represents_size a _ _ _ Hr H1) as [E1 E2]. unfold small_tab, len in *. split; [lia|]. split; [done|]. right.
    split; [lia|]. split; [apply Hr|]. lia.
Qed.

(** The words of an operand. *)
Lemma operand_word a s v i :
  number a (int_value s (Z.abs v) 0) -> small_int v -> 0 <= i <= 2 ^ 50 ->
  get_bits (tab a) (logic_offset a + i * LIMB_BITS) = Ret (bits_at (Z.abs v) (64 * i)).
Proof.
  intros Ha Hv Hi. destruct (operand_size a s v Ha Hv) as (Hz & Hs & Hl & [[-> ->]|(Hv0 & _ & Ee & Hlen)]).
  - change (logic_offset (mkBf s BF_EXP_ZERO [])) with (- 2 ^ 63). change LIMB_BITS with 64. rewrite get_bits_spec by (done || lia). f_equal. cbn [tab value]. unfold bits_at. cbn. by rewrite !Z.shiftr_0_l.
  - pose proof (small_int_log2 v Hv). pose proof (Z.log2_nonneg (Z.abs v)). unfold logic_offset. change LIMB_BITS with 64. rewrite i64_id by (unfold in_i64; lia).
    rewrite get_bits_spec by (done || lia). f_equal. pose proof (proj1 Ha) as Hr. unfold int_value in Hr. rewrite (proj2 (Z.eqb_neq (Z.abs v) 0)) in Hr by lia.
    destruct Hr as (_ & _ & Hsame). change LIMB_BITS with 64 in Hsame. unfold same_number in Hsame. set (f := expn a - 64 * len a) in *.
    rewrite <- (bits_at_scale _ (f - Z.min f 0)), Hsame by lia. replace (len a * 64 - expn a + i * 64 + (f - Z.min f 0)) with (64 * i + (0 - Z.min f 0)) by lia.
    apply bits_at_scale. lia.
Qed.

Lemma operand_high a s v p :
  number a (int_value s (Z.abs v) 0) -> small_int v -> Z.max (expn a) 0 <= p -> Z.testbit (Z.abs v) p = false.
Proof.
  intros Ha Hv Hp. destruct (operand_size a s v Ha Hv) as (_ & _ & _ & [[-> _]|(Hv0 & _ & Ee & _)]); [apply Z.testbit_0_l|]. apply Z.bits_above_log2; lia.
Qed.

Lemma logic_sign_spec a s v :
  number a (int_value s (Z.abs v) 0) -> small_int v -> (v <> 0 -> s = b2z (v <? 0)) -> logic_sign a = b2z (v <? 0).
Proof.
  intros Ha Hv Hs. unfold logic_sign. destruct (operand_size a s v Ha Hv) as (_ & _ & _ & [[-> ->]|(Hv0 & -> & Ee & _)]); [done|].
  pose proof (Z.log2_nonneg (Z.abs v)). rewrite (proj2 (Z.leb_gt _ 0)) by lia. by apply Hs.
Qed.

(** An integer is its sign and its magnitude; zero has either sign. *)
Definition integer (a : bf_t) (v : Z) : Prop := exists s, number a (int_value s (Z.abs v) 0) /\ (v <> 0 -> s = b2z (v <? 0)).

Lemma integer_int_value a s m :
  number a (int_value s m 0) -> 0 <= m -> is_bit s -> integer a ((1 - 2 * s) * m).
Proof.
  intros Ha Hm Hs. exists s. assert (Z.abs ((1 - 2 * s) * m) = m) as -> by (destruct Hs as [->| ->]; lia). split; [done|]. intros Hv.
  destruct Hs as [->| ->]; [by rewrite (proj2 (Z.ltb_ge _ 0)) by lia|by rewrite (proj2 (Z.ltb_lt _ 0)) by lia].
Qed.

Section Logic.
Context `{SHG : ShrinkGranted}.

Lemma small_mag v : small_int v -> small_int (mag v).
Proof. pose proof (mag_spec v). apply small_int_le. lia. Qed.

Lemma logic_operand_spec a v :
  integer a v -> small_int v ->
  hpost (logic_operand a (b2z (v <? 0))) (fun '(a', ret) => (can_refuse /\ ret <> 0) \/ (ret = 0 /\ exists s, number a' (int_value s (Z.abs (mag v)) 0))).
Proof.
  intros (s & Ha & Hs) Hv. destruct (mag_spec v) as [Hm Em]. rewrite Z.abs_eq, Em by lia. unfold logic_operand. destruct (Z.ltb_spec v 0) as [Hneg|Hpos]; cbn [b2z Z.eqb negb].
  - pose proof (small_int_log2 v Hv) as Hl. assert (is_bit s) as Bs by (rewrite Hs by lia; by right).
    eapply hpost_mono; [apply (add_unit_spec false bf_init a s (Z.abs v) 1 Ha Bs (Forall_nil _)); [by left|lia|by apply small_int_sized|]|].
    + pose proof (Z.log2_succ_le (Z.abs v)). rewrite Z.add_1_r. lia.
    + cbv zeta. rewrite (Hs ltac:(lia)). cbn [b2z]. replace ((1 - 2 * 1) * Z.abs v + 1) with (- (- v - 1)) by lia. rewrite Z.abs_opp, Z.abs_eq by lia.
      intros [a' st] [[Hshort H]|[-> [H|[H _]]]]; [left; split; [done|]; intros ->; done|right|lia]. split; [done|]. eexists. apply int_value_number; [exact H|apply sign_bit|].
      intros Hne. rewrite <- (Z.abs_eq (- v - 1)) by lia. apply small_int_sized; [|lia]. apply (small_int_le _ v); [lia|done].
  - apply hpost_ret. right. split; [done|]. exists s. rewrite <- (Z.abs_eq v) at 1 by lia. done.
Qed.

(** * The result *)

Section Result.
Context (a b : bf_t) (sa sb x y op : Z) (Hx : small_int x) (Hy : small_int y).
Context (Ha : number a (int_value sa (Z.abs (mag x)) 0)) (Hb : number b (int_value sb (Z.abs (mag y)) 0)).

Abbreviation s1 := (b2z (x <? 0)).
Abbreviation s2 := (b2z (y <? 0)).
Abbreviation rs := (bf_logic_op1 s1 s2 op).
Abbreviation word := (logic_word x y s1 s2 op).

Lemma logic_words_spec t l :
  limbs t -> zlen t = l -> l <= 2 ^ 50 ->
  post (ofold (logic_step a b (u64 (- s1)) (u64 (- s2)) (u64 (- rs)) op) t (seqZ 0 l)) (fun t' =>
    limbs t' /\ zlen t' = l /\ value t' = word mod 2 ^ (64 * l)).
Proof.
  intros Hl Hz Hle. pose proof (zlen_nonneg t).
  set (P := fun i (t' : list Z) => limbs t' /\ zlen t' = l /\ value (take (Z.to_nat i) t') = word mod 2 ^ (64 * i)).
  eapply post_mono; [apply (post_for _ P 0 l); [lia| |]|].
  - intros i t0 Hi (Hl0 & Hz0 & E). unfold logic_step.
    rewrite (operand_word a sa _ i Ha (small_mag x Hx)), (operand_word b sb _ i Hb (small_mag y Hy)) by lia. cbn [obind].
    rewrite !Z.abs_eq by apply mag_spec. unfold mag. rewrite logic_word_at by (apply sign_bit || lia).
    eapply post_mono; [apply write_word; [done|lia|apply bits_at_range]|]. intros t1 (Hl1 & Hz1 & Hv1). split; [done|]. split; [lia|].
    rewrite Hv1, E, low_words by lia. done.
  - split; [done|]. split; [done|]. by rewrite Z.mul_0_r, Z.mod_1_r.
  - intros t' (Hl' & Hz' & E). split; [done|]. split; [done|]. rewrite Z.add_0_l in E. rewrite <- E. rewrite firstn_all2; [done|]. unfold zlen in Hz'. lia.
Qed.

(** The words of the result hold all of it. *)
Lemma logic_bits_spec :
  let l := (Z.max (logic_bits a b s1 s2 rs op) 1 + LIMB_BITS - 1) / LIMB_BITS in 0 < l <= 2 ^ 45 /\ word mod 2 ^ (64 * l) = word.
Proof.
  intros l. change LIMB_BITS with 64 in l. set (n := logic_bits a b s1 s2 rs op) in l.
  assert (forall c s v, number c (int_value s (Z.abs (mag v)) 0) -> small_int v -> expn c <= 2 ^ 50) as Hexp.
  { intros c s v Hc Hv. destruct (operand_size c s _ Hc (small_mag v Hv)) as (_ & _ & _ & [[_ ->]|(_ & _ & -> & _)]); [done|]. pose proof (small_int_log2 _ (small_mag v Hv)). lia. }
  pose proof (Hexp a sa x Ha Hx) as Ea. pose proof (Hexp b sb y Hb Hy) as Eb.
  assert (n <= 2 ^ 50) as Hn by (unfold n, logic_bits; repeat case_match; lia). assert (0 < l <= 2 ^ 45 /\ Z.max n 1 <= 64 * l) as [Hl Hnl].
  { pose proof (Z.div_mod (Z.max n 1 + 64 - 1) 64 ltac:(lia)). pose proof (Z.mod_pos_bound (Z.max n 1 + 64 - 1) 64 ltac:(lia)). lia. }
  split; [done|]. apply logic_word_high; [apply sign_bit..|lia|]. intros p Hp. fold (mag x) (mag y).
  assert (Z.max (expn a) 0 <= p -> Z.testbit (mag x) p = false) as HA.
  { intros H. rewrite <- (Z.abs_eq (mag x)) by apply mag_spec. apply (operand_high a sa _ p Ha); [by apply small_mag|done]. }
  assert (Z.max (expn b) 0 <= p -> Z.testbit (mag y) p = false) as HB.
  { intros H. rewrite <- (Z.abs_eq (mag y)) by apply mag_spec. apply (operand_high b sb _ p Hb); [by apply small_mag|done]. }
  unfold n, logic_bits in Hnl. destruct (Z.eqb_spec op BF_LOGIC_AND) as [Eop|]; cbn [andb] in Hnl; [|left; split; [apply HA|apply HB]; lia].
  destruct (Z.eqb_spec rs 0) as [Ers|]; [|left; split; [apply HA|apply HB]; lia].
  destruct (Z.eqb_spec s1 0) as [E1|E1], (Z.eqb_spec s2 0) as [E2|E2]; cbn [andb] in Hnl.
  - right. split; [done|]. split; [done|]. destruct (Z.min_spec (expn a) (expn b)); [left|right]; (split; [done|]); [apply HA|apply HB]; lia.
  - right. split; [done|]. split; [done|]. left. split; [done|]. apply HA. lia.
  - right. split; [done|]. split; [done|]. right. split; [done|]. apply HB. lia.
  - subst op. destruct (sign_bit x) as [E|E], (sign_bit y) as [E'|E']; rewrite E, E' in *; done.
Qed.

(** The words that are computed, the sign, and the result of the operation on integers. *)
Lemma logic_word_value :
  let z := bf_logic_op1 x y op in
  0 <= word /\ Z.log2 word < 2 ^ 51 /\ (rs = 0 /\ z = word \/ rs = 1 /\ z = - word - 1).
Proof.
  cbv zeta. destruct logic_bits_spec as [Hl E]. cbv zeta in Hl, E. set (l := _ / LIMB_BITS) in *. pose proof (Z.mod_pos_bound word (2 ^ (64 * l)) ltac:(lia)) as Hw. rewrite E in Hw.
  split; [lia|]. split.
  - destruct (Z.eq_dec word 0) as [->|]; [done|]. assert (Z.log2 word < 64 * l) by (apply Z.log2_lt_pow2; lia). lia.
  - unfold logic_word, logic_mag. destruct (logic_sign_bit s1 s2 op (sign_bit x) (sign_bit y)) as [-> | ->]; [left|right].
    + by rewrite Z.lxor_0_r.
    + rewrite Z.lxor_m1_r. unfold Z.lnot. lia.
Qed.

(** The result as an integer.  A result of -1 is 0 less 1, a copy of -1 into a new block: it is -0 when the eight
    bytes of this block are refused. *)
Definition logic_result (z : Z) (res : bf_t * Z) : Prop :=
  let '(r, st) := res in
  (can_refuse /\ st = BF_ST_MEM_ERROR /\ represents r V_nan) \/
  (st = 0 /\ (represents r (int_value (b2z (z <? 0)) (Z.abs z) 0) \/ (z = -1 /\ may_refuse 8 /\ represents r (V_zero 1)))).

Lemma mem_error_result r z : can_refuse -> hpost (bf_mem_error r) (logic_result z).
Proof. intros Hs. apply hpost_bind. eapply hpost_mono; [apply bf_set_nan_spec|]. intros r' Hr'. apply hpost_ret. by left. Qed.

(** The last steps: the words are normalized, and one is subtracted when the result is negative. *)
Lemma logic_finish t l :
  limbs t -> zlen t = l -> 0 < l <= 2 ^ 45 -> value t = word ->
  hpost (let! (r, _) := bf_normalize_and_round (mkBf rs (l * LIMB_BITS) t) BF_PREC_INF BF_RNDZ in
         if negb (rs =? 0) then
           let! (r, ret) := bf_add_si true r r (-1) BF_PREC_INF BF_RNDZ in
           if negb (ret =? 0) then bf_mem_error r else hret (r, 0)
         else hret (r, 0)) (logic_result (bf_logic_op1 x y op)).
Proof.
  intros Hl Hz Hlr Hv. destruct logic_word_value as (Hw & Hlog & Hres). cbv zeta in Hres. pose proof (logic_sign_bit s1 s2 op (sign_bit x) (sign_bit y)) as Brs.
  set (z := bf_logic_op1 x y op) in *. set (w := word) in *. set (rs0 := rs) in *.
  assert (w <> 0 -> sized w 0) as Hsz by (intros ?; unfold sized; lia). pose proof (Z.log2_nonneg w).
  apply hpost_bind. eapply hpost_mono; [apply bf_normalize_and_round_in; unfold len; cbn [tab expn sign]; [done|lia|]|].
  - intros _. rewrite Hv. apply op_rounding_ok; [apply exact_format|]. change LIMB_BITS with 64. lia.
  - unfold len. cbn [tab expn sign]. rewrite Hv, Hz. change LIMB_BITS with 64. replace (l * 64 - 64 * l) with 0 by lia.
    assert (normalize_spec rs0 w 0 BF_PREC_INF BF_RNDZ = (int_value rs0 w 0, 0)) as ->.
    { unfold normalize_spec, int_value. destruct (Z.eqb_spec w 0); [done|]. apply spec_exact. by apply Hsz. }
    intros [r st] [[[? _] _]|[Hr _]]; [done|]. cbn [fst] in Hr. destruct Hres as [[E Ez]|[E Ez]]; rewrite E in *; cbn [Z.eqb negb].
    + apply hpost_ret. right. split; [done|]. left. rewrite (proj2 (Z.ltb_ge z 0)), Z.abs_eq, Ez by lia. done.
    + pose proof (int_value_number r 1 w 0 Hr Brs Hsz) as Nr. pose proof (Z.log2_succ_le w). apply hpost_bind.
      eapply hpost_mono; [apply (add_unit_spec true r r 1 w (-1) Nr Brs (number_limbs _ _ Nr)); [by right|lia|done|rewrite Z.add_1_r; lia]|].
      cbv zeta. replace ((1 - 2 * 1) * w + -1) with z by lia. intros [r' st'] H'. destruct (Z.eqb_spec st' 0) as [->|Hst]; cbn [negb]; [|apply mem_error_result; by destruct H' as [[H' _]|[? _]]].
      apply hpost_ret. right. split; [done|]. destruct H' as [[_ H']|[_ [H'|[Ew H']]]]; [done|by left|right]. split; [lia|exact H'].
Qed.
End Result.

(** The operation on any two integers. *)
Lemma bf_logic_op_value r a b x y op :
  integer a x -> integer b y -> small_int x -> small_int y -> limbs (tab r) ->
  hpost (bf_logic_op r a b op) (logic_result (bf_logic_op1 x y op)).
Proof.
  intros Ia Ib Hx Hy Hr. unfold bf_logic_op. cbv zeta. pose proof Ia as (sa & Na & Ha). pose proof Ib as (sb & Nb & Hb).
  rewrite (logic_sign_spec a sa x Na Hx Ha), (logic_sign_spec b sb y Nb Hy Hb).
  apply hpost_bind. eapply hpost_mono; [by apply logic_operand_spec|]. intros [a' ret] HA.
  destruct (Z.eqb_spec ret 0) as [Eret|Hret]; cbn [negb]; [|apply mem_error_result; by destruct HA as [[HA _]|[? _]]].
  apply hpost_bind. eapply hpost_mono; [by apply logic_operand_spec|]. intros [b' ret'] HB.
  destruct (Z.eqb_spec ret' 0) as [Eret'|Hret]; cbn [negb]; [|apply mem_error_result; by destruct HB as [[HB _]|[? _]]].
  destruct HA as [[_ ?]|(_ & sa' & NA)]; [done|]. destruct HB as [[_ ?]|(_ & sb' & NB)]; [done|].
  destruct (logic_bits_spec a' b' sa' sb' x y op Hx Hy NA NB) as [Hl Hw]. cbv zeta in Hl, Hw. set (l := _ / LIMB_BITS) in *.
  apply hpost_bind. eapply hpost_mono; [apply (bf_resize_spec r l Hr); lia|]. intros [r1 ok] Hr1. destruct ok; cbn [negb]; [|apply mem_error_result, Hr1; lia].
  destruct Hr1 as (_ & _ & Hl1 & Hz1 & _). apply hpost_bind, hpost_lift.
  eapply post_mono; [apply (logic_words_spec a' b' sa' sb' x y op Hx Hy NA NB (tab r1) l Hl1 Hz1); lia|]. intros t (Hlt & Hzt & Hvt).
  rewrite Hw in Hvt. by apply (logic_finish a' b' sa' sb').
Qed.
End Logic.
