(* ===== verification/BfClaims.v ===== *)
(** What is proved of [libbf.c]: the division and the square root of limbs, and rounding, comparison and
    arithmetic on floating point numbers, with concrete instances of what they assume. *)
From Stdlib Require Import ZArith Lia Bool List.
From stdpp Require Import base tactics list numbers.
From S2P Require Import Prelude IntFmt Alloc Limb MpMul MpDiv MpRecip MpSqrt Bf BfRound BfRatio BfRoundOk BfOps BfCmp BfMulDiv BfAdd BfSum BfDivrem BfSqrt BfConv BfFloat BfInt BfLogic.

(** * Instances *)

(** A multiplication of large operands that keeps to the interface: the base case. *)
Lemma fft_mul_base_spec `{AL : Allocator} op1 op2 :
  limbs op1 -> limbs op2 -> 0 < zlen op1 -> 0 < zlen op2 -> zlen op1 + zlen op2 < 2 ^ 60 ->
  mpost (let? r := bf_malloc (zlen op1 + zlen op2) in lift (mp_mul_basecase r op1 op2))
    (fun r => limbs r /\ zlen r = zlen op1 + zlen op2 /\ value r = value op1 * value op2).
Proof. intros. apply mpost_bind. apply mpost_malloc; [lia|]. intros. apply mpost_lift. by apply mp_mul_basecase_spec. Qed.

Definition fft_mul_base : @FftMul alloc_always := @mkFftMul alloc_always _ fft_mul_base_spec.

(** Requests to make a block smaller are granted. *)
Definition shrink_always : @Shrinker alloc_always := fun h _ => (h, true).
Lemma shrink_always_granted : @ShrinkGranted alloc_always shrink_always.
Proof. by intros h n. Qed.

(** Memory is never short. *)
Lemma alloc_always_granted : @AllocGranted alloc_always.
Proof. intros h n. by exists h, (fun _ => 0). Qed.

(** Double precision, and the numbers 3, 5 and 0.75. *)
Definition double_flags (mode : Z) : Z := Z.lor mode (bf_set_exp_bits 11).
Definition bf_three : bf_t := mkBf 0 2 [3 * 2 ^ 62].
Definition bf_five : bf_t := mkBf 0 3 [5 * 2 ^ 61].

Lemma bf_three_number : number bf_three (V_num 0 3 0).
Proof.
  split; [split; [|by split]|split; [by left|by split]]. split; [by repeat constructor|]. do 2 (split; [done|]). by exists (3 * 2 ^ 62), [].
Qed.

Lemma bf_five_number : number bf_five (V_num 0 5 0).
Proof.
  split; [split; [|by split]|split; [by left|by split]]. split; [by repeat constructor|]. do 2 (split; [done|]). by exists (5 * 2 ^ 61), [].
Qed.

Lemma double_format mode : 0 <= mode <= 6 -> op_format 53 (double_flags mode).
Proof.
  intros Hm. assert (mode = 0 \/ mode = 1 \/ mode = 2 \/ mode = 3 \/ mode = 4 \/ mode = 5 \/ mode = 6) as Hc by lia.
  destruct Hc as [-> | [-> | [-> | [-> | [-> | [-> | ->]]]]]]; by vm_compute.
Qed.

(** * Claims *)

(** C12: mp_divnorm divides any number of at most 2^30 limbs by any divisor whose highest bit is set: it ends
    after a bounded number of corrections, inside its blocks and without overflow of the counters of its loops,
    with the quotient in tabq and the remainder, smaller than the divisor, in the low limbs of taba; it fails only
    with an allocator that refuses requests.  The schoolbook, the one limb and the Newton division for large
    operands all keep this contract. *)
Theorem mp_divnorm_correct `{FM : FftMul} tabq taba tabb h :
  limbs tabq -> limbs taba -> normalized_limbs tabb -> zlen tabb <= zlen taba -> zlen tabq = zlen taba - zlen tabb + 1 -> zlen taba <= 2 ^ 30 ->
  exists h' res, mp_divnorm tabq taba tabb h = Ret (h', res) /\
    match res with
    | Some (q, t) =>
        limbs q /\ zlen q = zlen tabq /\ limbs t /\ zlen t = zlen taba /\
        value q = value taba / value tabb /\ value (take (Z.to_nat (zlen tabb)) t) = value taba mod value tabb
    | None => can_refuse
    end.
Proof.
  intros Hq Ha Hb Hle Hz Hmax. pose proof (mp_divnorm_divides tabq taba tabb Hq Ha Hb Hle Hz Hmax h) as H.
  apply post_inv in H as ([h' res] & E & H). exists h', res. split; [done|]. destruct res as [[q t]|]; [|done].
  destruct H as (Hlq & Hzq & Hlt & Hzt & Ea & Hr). split; [done|]. split; [lia|]. split; [done|]. split; [done|].
  pose proof (value_bound _ (limbs_take (Z.to_nat (zlen tabb)) t Hlt)).
  split; [apply Z.div_unique with (value (take (Z.to_nat (zlen tabb)) t))|apply Z.mod_unique with (value q)]; (left; lia) || lia.
Qed.

Lemma mp_divnorm_correct_witness : exists h' q t,
  @mp_divnorm alloc_always fft_mul_base [0; 0] [7; 9; 2 ^ 63] [1; 2 ^ 63] tt = Ret (h', Some (q, t)) /\
  value q = value [7; 9; 2 ^ 63] / value [1; 2 ^ 63] /\ value (take 2 t) = value [7; 9; 2 ^ 63] mod value [1; 2 ^ 63].
Proof.
  destruct (@mp_divnorm_correct alloc_always fft_mul_base [0; 0] [7; 9; 2 ^ 63] [1; 2 ^ 63] tt) as (h' & res & E & H).
  - by repeat constructor.
  - by repeat constructor.
  - split; [by repeat constructor|]. exists [1], (2 ^ 63). split; [done|]. by vm_compute.
  - done.
  - done.
  - by vm_compute.
  - destruct res as [[q t]|]; [|discriminate E]. exists h', q, t. split; [exact E|]. destruct H as (_ & _ & _ & _ & H1 & H2). split; [exact H1|exact H2].
Defined.

(** C17: bf_mul on two numbers of any kind computes the correctly rounded product and its exact status, in every
    rounding mode but the faithful one, every precision and every format with subnormal numbers, underflow and
    overflow; zeros, infinities and NaN give what IEEE 754 says; the result may be one of the operands; NaN with
    BF_ST_MEM_ERROR is returned only with an allocator that refuses requests. *)
Theorem bf_mul_correct `{SHG : ShrinkGranted} `{!FftMul} alias r a b va vb prec flags :
  number a va -> number b vb -> limbs (tab r) -> op_format prec flags -> rnd_mode_of flags <> BF_RNDF ->
  hpost (bf_mul alias r a b prec flags) (result_is (mul_spec va vb prec flags)).
Proof. apply bf_mul_value. Qed.

Lemma bf_mul_correct_witness :
  @hpost alloc_always _ (@bf_mul alloc_always shrink_always fft_mul_base false bf_init bf_three bf_five 53 (double_flags BF_RNDN))
    (@result_is alloc_always (V_num 0 15 0, 0)).
Proof.
  change (V_num 0 15 0, 0) with (mul_spec (V_num 0 3 0) (V_num 0 5 0) 53 (double_flags BF_RNDN)).
  apply (@bf_mul_correct alloc_always shrink_always shrink_always_granted fft_mul_base).
  - exact bf_three_number.
  - exact bf_five_number.
  - constructor.
  - apply double_format. by vm_compute.
  - discriminate.
Defined.

(** C9: bf_div computes the correctly rounded quotient and its exact status, in every rounding mode: the limbs
    it computes, with the bit that says whether there is a remainder, round like the ratio itself.  Divisions by
    zero and invalid operations set their flags.  The numerator and the divisor have at most 2^30 limbs, which
    mp_divnorm counts with an int; NaN with BF_ST_MEM_ERROR is returned only with an allocator that refuses requests. *)
Theorem bf_div_correct `{SHG : ShrinkGranted} `{!FftMul} alias r a b va vb prec flags :
  number a va -> number b vb -> limbs (tab r) -> op_format prec flags -> div_size_ok a b prec ->
  hpost (bf_div alias r a b prec flags) (result_is (div_spec va vb prec flags)).
Proof. apply bf_div_value. Qed.

Lemma bf_div_correct_witness :
  @hpost alloc_always _ (@bf_div alloc_always shrink_always fft_mul_base true bf_three bf_three bf_five 53 (double_flags BF_RNDN))
    (@result_is alloc_always (V_num 0 5404319552844595 (-53), BF_ST_INEXACT)).
Proof.
  change (V_num 0 5404319552844595 (-53), BF_ST_INEXACT) with (div_spec (V_num 0 3 0) (V_num 0 5 0) 53 (double_flags BF_RNDN)).
  apply (@bf_div_correct alloc_always shrink_always shrink_always_granted fft_mul_base).
  - exact bf_three_number.
  - exact bf_five_number.
  - by repeat constructor.
  - apply double_format. by vm_compute.
  - right. right. by vm_compute.
Defined.

(** C16: bf_add and bf_sub compute the correctly rounded sum and difference and the exact status, in every mode,
    precision and format: the words below the result, skipped over when the numbers are far from each other, and
    the bits that cancel do not change what is rounded.  A sum that is zero is -0 only when rounding down, and
    infinities of different signs are invalid.  The sum of a zero and a number is the number, rounded, unless the
    allocator, in the state in which the operation starts, refuses the block of its copy: then the code returns
    zero with status 0.  The case left out is an unlimited precision with exponents more than 2^58 apart. *)
Theorem bf_add_correct `{SHG : ShrinkGranted} alias r a b va vb prec flags h :
  number a va -> number b vb -> limbs (tab r) -> op_format prec flags -> ~ too_far a b prec ->
  hpost_from h (bf_add alias r a b prec flags) (add_result (refuses h) a b va vb prec flags) /\
  hpost_from h (bf_sub alias r a b prec flags) (add_result (refuses h) a b va (neg_value 1 vb) prec flags).
Proof. intros. split; [by apply bf_add_from|by apply bf_sub_from]. Qed.

Lemma bf_add_correct_witness :
  @hpost_from alloc_always _ tt (@bf_sub alloc_always shrink_always true bf_three bf_three bf_five 53 (double_flags BF_RNDN))
    (@result_is alloc_always (V_num 1 2 0, 0)).
Proof.
  change (V_num 1 2 0, 0) with (add_spec (V_num 0 3 0) (neg_value 1 (V_num 0 5 0)) 53 (double_flags BF_RNDN)).
  refine (@hpost_from_mono alloc_always _ tt _ _ _ (proj2 (@bf_add_correct alloc_always shrink_always shrink_always_granted true bf_three bf_three bf_five
    (V_num 0 3 0) (V_num 0 5 0) 53 (double_flags BF_RNDN) tt bf_three_number bf_five_number _ _ _)) _).
  - by repeat constructor.
  - apply double_format. by vm_compute.
  - intros (_ & _ & H & _). by vm_compute in H.
  - intros [r st] [H|H]; [exact H|destruct H].
Defined.

(** The copy that is lost: without memory, 0 + 3 is zero and no error is reported. *)
Lemma bf_add_loses_copy :
  @bf_add alloc_budget (fun h _ => (h, true)) false bf_init bf_init bf_three 53 (double_flags BF_RNDN) 0%nat = Ret (0%nat, (mkBf 0 BF_EXP_ZERO [], 0)).
Proof. by vm_compute. Qed.

(** C14: bf_divrem gives the quotient of two numbers rounded to an integer in the mode that is asked for, the
    Euclidian one included, and the remainder a - q * b, rounded to the precision of the caller: the division, the
    truncation, the product and the difference inside are exact.  The operands have at most 2^50 bits, and the
    division at most 2^30 limbs.  With an allocator that refuses requests the result can be NaN with
    BF_ST_MEM_ERROR, and there are two copies whose failure the code does not see: if the allocator refuses a
    block of one limb, a quotient 0 that must become 1 or -1 stays 0, and if it refuses the block of a copy of a,
    the remainder of a number by infinity is NaN with status 0. *)
Theorem bf_divrem_correct `{SHG : ShrinkGranted} `{!FftMul} q r a b va vb prec flags mode :
  number a va -> number b vb -> fits_value va -> fits_value vb -> divrem_size_ok a b -> limbs (tab q) -> limbs (tab r) ->
  op_format prec flags -> 0 <= mode <= 6 ->
  hpost (bf_divrem q r a b prec flags mode) (divrem_ok mode a va vb prec flags).
Proof. apply bf_divrem_all. Qed.

(** -5 = (-2) * 3 + 1, rounding down. *)
Lemma bf_divrem_correct_witness :
  @hpost alloc_always _ (@bf_divrem alloc_always shrink_always fft_mul_base bf_init bf_init (set_sign bf_five 1) bf_three 53 (double_flags BF_RNDN) BF_RNDD)
    (fun '(q, r, st) => represents q (V_num 1 2 0) /\ represents r (V_num 0 1 0) /\ st = 0).
Proof.
  refine (hpost_mono _ _ _ (@bf_divrem_correct alloc_always shrink_always shrink_always_granted fft_mul_base bf_init bf_init (set_sign bf_five 1) bf_three
    (V_num 1 5 0) (V_num 0 3 0) 53 (double_flags BF_RNDN) BF_RNDD _ bf_three_number _ _ _ _ _ _ _) _).
  - apply (number_sign bf_five 0 5 0 1 bf_five_number). by right.
  - by vm_compute.
  - by vm_compute.
  - right. right. by vm_compute.
  - constructor.
  - constructor.
  - apply double_format. by vm_compute.
  - by vm_compute.
  - intros [[q r] st] [[H _]|(Hr & Hs & [Hq|(E & _)])].
    + destruct (alloc_always_serves H).
    + split; [exact Hq|]. split; [exact Hr|exact Hs].
    + vm_compute in E. discriminate E.
Defined.

(** A copy that is lost: without memory the remainder of 3 by infinity is NaN, and no error is reported. *)
Lemma bf_divrem_loses_copy :
  @bf_divrem alloc_budget (fun h _ => (h, true)) (@mkFftMul alloc_budget _ fft_mul_base_spec) bf_init bf_init bf_three (mkBf 0 BF_EXP_INF []) 53
    (double_flags BF_RNDN) BF_RNDZ 0%nat = Ret (0%nat, (mkBf 0 BF_EXP_ZERO [], mkBf 0 BF_EXP_NAN [], 0)).
Proof. by vm_compute. Qed.

(** C22: bf_cmp orders numbers like extended real numbers: the two zeros are equal, infinities are beyond all
    numbers, and the answer is 2 when one of the operands is NaN. *)
Theorem bf_cmp_correct a b va vb d :
  number a va -> number b vb -> unit_of d va -> unit_of d vb -> bf_cmp a b = Ret (cmp_spec d va vb).
Proof. apply bf_cmp_value. Qed.

Lemma bf_cmp_correct_witness : bf_cmp bf_three bf_five = Ret (-1).
Proof.
  change (-1) with (cmp_spec 0 (V_num 0 3 0) (V_num 0 5 0)). apply (bf_cmp_correct bf_three bf_five (V_num 0 3 0) (V_num 0 5 0) 0).
  - exact bf_three_number.
  - exact bf_five_number.
  - by split.
  - by split.
Defined.

(** C13: bf_round rounds a number to a precision counted from the first bit or from the radix point, in any mode,
    with 3 to 62 exponent bits: the result is the nearest number, the one above or below that the mode asks for,
    subnormal numbers keep fewer bits, results out of the format are flushed to zero or replaced by infinity or by
    the greatest number of the precision, and the status says exactly what happened.  BF_ST_MEM_ERROR is returned
    only for a greatest number that needs more limbs than the operand and that the allocator may refuse.  A
    greatest number of precision 0 has no limb: then, and only then, the code writes out of bounds. *)
Theorem bf_round_correct `{SHG : ShrinkGranted} r v prec flags :
  number r v -> (forall s m e, v = V_num s m e -> rounding_range (expn r) prec flags) ->
  rounds_to (len r) prec (round_spec v prec flags) (bf_round r prec flags).
Proof. apply bf_round_to. Qed.

Lemma bf_round_correct_witness :
  @hpost alloc_always _ (@bf_round alloc_always shrink_always bf_five 2 (double_flags BF_RNDN)) (@result_is alloc_always (V_num 0 2 1, BF_ST_INEXACT)).
Proof.
  change (V_num 0 2 1, BF_ST_INEXACT) with (round_spec (V_num 0 5 0) 2 (double_flags BF_RNDN)).
  refine (hpost_mono _ _ _ (rounds_result _ _ _ _ _ (@bf_round_correct alloc_always shrink_always shrink_always_granted bf_five (V_num 0 5 0) 2 (double_flags BF_RNDN) _ _)) _).
  - by vm_compute.
  - exact bf_five_number.
  - intros s m e _. split; [by vm_compute|]. split; [by vm_compute|]. split; [by vm_compute|]. split; [by vm_compute|].
    split; [by vm_compute|discriminate].
  - intros res. apply result_in_is, mem_short_refuse.
Defined.

(** The greatest number of no bits: 2^1029 rounded down to an integer in double precision. *)
Lemma bf_round_greatest_empty :
  @bf_round alloc_always shrink_always (mkBf 0 1030 [2 ^ 63]) 0 (Z.lor (double_flags BF_RNDZ) BF_FLAG_RADPNT_PREC) tt = Err OutOfBounds.
Proof. by vm_compute. Qed.

(** C20: every double that is made a number by bf_set_float64 is given back bit for bit by bf_get_float64, in every
    rounding mode but the faithful one and with status 0: subnormal numbers, both zeros and the infinities keep
    their encoding, and a NaN of any payload stays a NaN. *)
Theorem bf_float64_roundtrip `{SHG : ShrinkGranted} `{!AllocGranted} r u mode :
  limbs (tab r) -> in_u64 u -> 0 <= mode < 6 ->
  hpost (let! (a, _) := bf_set_float64 r u in bf_get_float64 a mode) (fun '(u', st) =>
    st = 0 /\ match float64_value u with V_nan => float64_value u' = V_nan | _ => u' = u end).
Proof. apply float64_roundtrip_value. Qed.

(** The least subnormal number. *)
Lemma bf_float64_roundtrip_witness :
  @hpost alloc_always _ (let! (a, _) := @bf_set_float64 alloc_always shrink_always bf_init 1 in @bf_get_float64 alloc_always shrink_always a BF_RNDN)
    (fun '(u', st) => st = 0 /\ u' = 1).
Proof.
  apply (@bf_float64_roundtrip alloc_always shrink_always shrink_always_granted alloc_always_granted bf_init 1 BF_RNDN).
  - constructor.
  - by vm_compute.
  - by vm_compute.
Defined.

(** C19: bf_get_float64 rounds a number of any size to a double, in any mode: the 64 bits it returns encode the
    number rounded to 53 bits, with gradual underflow and overflow to infinity or the greatest double, and the
    status says whether it is exact. *)
Theorem bf_get_float64_correct `{SHG : ShrinkGranted} `{!AllocGranted} a va mode :
  number a va -> 0 <= mode <= 6 ->
  hpost (bf_get_float64 a mode) (fun '(u, st) =>
    in_u64 u /\ value_equiv (float64_value u) (round_spec va 53 (float64_flags mode)).1 /\ st = (round_spec va 53 (float64_flags mode)).2).
Proof. apply bf_get_float64_value. Qed.

(** 5 is 0x4014000000000000. *)
Lemma bf_get_float64_correct_witness :
  @hpost alloc_always _ (@bf_get_float64 alloc_always shrink_always bf_five BF_RNDU)
    (fun '(u, st) => in_u64 u /\ value_equiv (float64_value u) (float64_value 0x4014000000000000) /\ st = 0).
Proof.
  refine (hpost_mono _ _ _ (@bf_get_float64_correct alloc_always shrink_always shrink_always_granted alloc_always_granted bf_five (V_num 0 5 0) BF_RNDU bf_five_number _) _).
  - by vm_compute.
  - intros [u st] (Hu & Hv & Hs). split; [exact Hu|]. split; [|exact Hs]. etransitivity; [exact Hv|]. by vm_compute.
Defined.

(** The copy of a number that is lost: without memory, bf_get_float64 reads a limb that is not there. *)
Lemma bf_get_float64_loses_copy : @bf_get_float64 alloc_budget (fun h _ => (h, true)) bf_three BF_RNDN 0%nat = Err OutOfBounds.
Proof. by vm_compute. Qed.

(** C21: the conversions to integers truncate numbers of any size: a result in the range is exact, others saturate at
    the bound of their sign with the flag for an invalid operation, the bound -2^(n-1) itself being valid, or are
    reduced modulo 2^n when the caller asks for it; NaN and infinities are invalid. *)
Theorem bf_get_int_correct a v flags :
  number a v ->
  bf_get_int64 a flags = Ret (get_int_spec 64 v (has_flag flags BF_GET_INT_MOD)) /\
  bf_get_int32 a flags = Ret (get_int_spec 32 v (has_flag flags BF_GET_INT_MOD)) /\
  bf_get_uint64 a = Ret (get_uint_spec 64 v).
Proof. intros Ha. split; [by apply bf_get_int64_value|]. split; [by apply bf_get_int32_value|by apply bf_get_uint64_value]. Qed.

(** 3 * 2^30 is out of the range of 32 bits. *)
Lemma bf_get_int_correct_witness :
  bf_get_int32 (mkBf 0 32 [3 * 2 ^ 62]) 0 = Ret (2 ^ 31 - 1, BF_ST_INVALID_OP) /\ bf_get_int32 (mkBf 0 32 [3 * 2 ^ 62]) BF_GET_INT_MOD = Ret (- 2 ^ 30, 0).
Proof.
  assert (number (mkBf 0 32 [3 * 2 ^ 62]) (V_num 0 3 30)) as H.
  { split; [split; [|by split]|split; [by left|by split]]. split; [by repeat constructor|]. do 2 (split; [done|]). by exists (3 * 2 ^ 62), []. }
  split.
  - exact (proj1 (proj2 (bf_get_int_correct _ _ 0 H))).
  - exact (proj1 (proj2 (bf_get_int_correct _ _ BF_GET_INT_MOD H))).
Defined.

(** C18: bf_logic_or, bf_logic_xor and bf_logic_and compute on integers of any sign and of at most 2^50 bits what the
    operations on infinite two's complement words give: the complements that are added and taken back, the masks of
    the words and the number of words that are computed do not change the result.  With an allocator that
    refuses requests the result can be NaN with BF_ST_MEM_ERROR, and if the block of one limb of the copy of -1 can
    be refused, the result -1 can be -0. *)
Theorem bf_logic_op_correct `{SHG : ShrinkGranted} r a b x y :
  integer a x -> integer b y -> small_int x -> small_int y -> limbs (tab r) ->
  hpost (bf_logic_or r a b) (logic_result (Z.lor x y)) /\ hpost (bf_logic_xor r a b) (logic_result (Z.lxor x y)) /\
  hpost (bf_logic_and r a b) (logic_result (Z.land x y)).
Proof.
  intros Ia Ib Hx Hy Hr. split; [exact (bf_logic_op_value r a b x y BF_LOGIC_OR Ia Ib Hx Hy Hr)|].
  split; [exact (bf_logic_op_value r a b x y BF_LOGIC_XOR Ia Ib Hx Hy Hr)|exact (bf_logic_op_value r a b x y BF_LOGIC_AND Ia Ib Hx Hy Hr)].
Qed.

(** 3 xor -5 = -8. *)
Lemma bf_logic_op_correct_witness :
  @hpost alloc_always _ (@bf_logic_xor alloc_always shrink_always bf_init bf_three (set_sign bf_five 1)) (fun '(r, st) =>
    st = 0 /\ represents r (V_num 1 8 0)).
Proof.
  refine (hpost_mono _ _ _ (proj1 (proj2 (@bf_logic_op_correct alloc_always shrink_always shrink_always_granted bf_init bf_three (set_sign bf_five 1) 3 (-5) _ _ _ _ _))) _).
  - exists 0. split; [exact bf_three_number|]. intros _. reflexivity.
  - exists 1. split; [|intros _; reflexivity]. apply (number_sign bf_five 0 5 0 1 bf_five_number). by right.
  - by vm_compute.
  - by vm_compute.
  - constructor.
  - intros [r st] [[H _]|[Hs [H|[Hz _]]]]; [destruct (alloc_always_serves H)| |discriminate Hz]. split; [exact Hs|exact H].
Defined.

(** C11: mp_sqrtrem, the Karatsuba square root, terminates inside its blocks with the integer square root and the
    remainder of any number of an even number of limbs whose two highest bits are not both zero, for roots of at most
    2^30 limbs, which its loops count with an int, and any multiplication and allocator that keep their contracts:
    the quotient that is one too large, the digit LB^l and the remainder with one more bit, which goes to taba[n],
    are handled.  It fails only with an allocator that refuses requests. *)
Theorem mp_sqrtrem_correct `{FM : FftMul} tabs taba h :
  0 < zlen tabs <= 2 ^ 30 -> limbs taba -> zlen taba = 2 * zlen tabs -> LB ^ zlen tabs * LB ^ zlen tabs <= 4 * value taba ->
  exists h' res, mp_sqrtrem tabs taba h = Ret (h', res) /\
    match res with
    | Some (tabs', taba') =>
        zlen tabs' = zlen tabs /\ zlen taba' = 2 * zlen tabs /\ value tabs' = Z.sqrt (value taba) /\
        value (take (Z.to_nat (zlen tabs + 1)) taba') = value taba - Z.sqrt (value taba) * Z.sqrt (value taba)
    | None => can_refuse
    end.
Proof.
  intros Hn La Za Htop. pose proof (mp_sqrtrem_spec tabs taba Hn La Za Htop h) as H. apply post_inv in H as ([h' res] & E & H). exists h', res. split; [done|].
  destruct res as [[t a]|]; [|done]. destruct H as (_ & Zt & _ & Zt' & Hs). by destruct (is_sqrt_spec _ _ _ Hs) as [-> ->].
Qed.

Lemma mp_sqrtrem_correct_witness : exists h' res,
  @mp_sqrtrem alloc_always fft_mul_base [0; 0; 0] [1; 2; 3; 4; 5; 2 ^ 63] tt = Ret (h', res) /\
  match res with Some (t, _) => value t = Z.sqrt (value [1; 2; 3; 4; 5; 2 ^ 63]) | None => False end.
Proof.
  destruct (@mp_sqrtrem_correct alloc_always fft_mul_base [0; 0; 0] [1; 2; 3; 4; 5; 2 ^ 63] tt) as (h' & res & E & H).
  - by vm_compute.
  - by repeat constructor.
  - by vm_compute.
  - by vm_compute.
  - exists h', res. split; [exact E|]. destruct res as [[t a]|]; [|exact (alloc_always_serves H)]. exact (proj1 (proj2 (proj2 H))).
Defined.

(** C10: bf_sqrt rounds the square root of any number correctly, with the exact status, in every rounding mode,
    precision and format: the result is the one obtained from any number of digits of the root that is large
    enough, followed by a bit that says whether there are more.  The root of -0 is -0, a negative number is an
    invalid operation.  The root of a positive number has at most 2^36 - 2 bits, which are 2^30 limbs. *)
Theorem bf_sqrt_correct `{SHG : ShrinkGranted} `{!FftMul} r a v f prec flags :
  number a v -> limbs (tab r) -> op_format prec flags -> (forall m e, v = V_num 0 m e -> prec <= 2 ^ 36 - 2) -> sqrt_unit f v prec ->
  hpost (bf_sqrt r a prec flags) (result_is (sqrt_spec f v prec flags)).
Proof. apply bf_sqrt_value. Qed.

Lemma bf_sqrt_correct_witness :
  @hpost alloc_always _ (@bf_sqrt alloc_always shrink_always fft_mul_base bf_init bf_three 53 (double_flags BF_RNDN))
    (@result_is alloc_always (V_num 0 7800463371553962 (-52), BF_ST_INEXACT)).
Proof.
  change (V_num 0 7800463371553962 (-52), BF_ST_INEXACT) with (sqrt_spec (-60) (V_num 0 3 0) 53 (double_flags BF_RNDN)).
  apply (@bf_sqrt_correct alloc_always shrink_always shrink_always_granted fft_mul_base bf_init bf_three (V_num 0 3 0) (-60)).
  - exact bf_three_number.
  - constructor.
  - apply double_format. by vm_compute.
  - intros m e _. by vm_compute.
  - by vm_compute.
Defined.

(** C15: bf_sqrtrem gives the integer square root of an integer and, when it is asked for, the remainder, and says
    whether the root is exact; the remainder is computed exactly.  An integer has at most 2^36 bits, a root of 2^29
    limbs.  Zeros and infinity are their own roots, a negative number is an invalid operation, BF_ST_MEM_ERROR is
    returned only with an allocator that refuses requests. *)
Theorem bf_sqrtrem_correct `{SHG : ShrinkGranted} `{!FftMul} r rem1 a v :
  number a v -> (forall s M e, v = V_num s M e -> e = 0 /\ fits M 0) -> (forall M e, v = V_num 0 M e -> Z.log2 M < 2 ^ 36) ->
  limbs (tab r) -> limbs (tab (default bf_init rem1)) ->
  hpost (bf_sqrtrem r rem1 a) (sqrtrem_result rem1 v).
Proof. apply bf_sqrtrem_value. Qed.

(** 5 = 2 * 2 + 1. *)
Lemma bf_sqrtrem_correct_witness :
  @hpost alloc_always _ (@bf_sqrtrem alloc_always shrink_always fft_mul_base bf_init (Some bf_init) bf_five) (fun '(r, rem, st) =>
    represents r (V_num 0 2 0) /\ rem_is (Some bf_init) rem (V_num 0 1 0) /\ st = BF_ST_INEXACT).
Proof.
  refine (hpost_mono _ _ _ (@bf_sqrtrem_correct alloc_always shrink_always shrink_always_granted fft_mul_base bf_init (Some bf_init) bf_five (V_num 0 5 0) bf_five_number _ _ _ _) _).
  - intros s M e [= _ <- <-]. by vm_compute.
  - intros M e [= <- _]. by vm_compute.
  - constructor.
  - constructor.
  - intros [[r rem] st] [[H _]|H]; [destruct (alloc_always_serves H)|exact H].
Defined.
