(* ===== verification/GcObject.v ===== *)
(** The objects the garbage collector sees.

    The heap maps the pointers to the collected objects to their contents, as
    far as the collector reads them; the reference counts, the marks and the
    lists are the state of the collector (file [Gc]).  [mark_children] calls a
    function on every object that an object refers to; it is written for a
    state of any type, as the source does with its callback.

    A member of a union is a constructor; reading another member than the one
    stored, a null pointer or a pointer to nothing is an access out of bounds. *)
From Stdlib Require Import ZArith Lia Bool List.
From stdpp Require Import base tactics list numbers gmap.
From S2P Require Import Prelude.

(** * Values *)

Definition JS_TAG_FIRST : Z := -9.
Definition JS_TAG_STRING : Z := -7.
Definition JS_TAG_FUNCTION_BYTECODE : Z := -2.
Definition JS_TAG_OBJECT : Z := -1.
Definition JS_TAG_INT : Z := 0.
Definition JS_TAG_UNDEFINED : Z := 3.

(** [jv_ptr] is the pointer of a value with a reference count. *)
Record JSValue : Type := JS_MKVAL { jv_tag : Z; jv_ptr : Z }.
Definition JS_MKPTR (tag p : Z) : JSValue := JS_MKVAL tag p.
Definition JS_UNDEFINED : JSValue := JS_MKVAL JS_TAG_UNDEFINED 0.

Definition JS_VALUE_HAS_REF_COUNT (v : JSValue) : bool := u32 JS_TAG_FIRST <=? u32 (jv_tag v).

(** * Objects *)

Definition JS_PROP_TMASK : Z := 0x30.
Definition JS_PROP_GETSET : Z := 0x10.
Definition JS_PROP_VARREF : Z := 0x20.
Definition JS_PROP_AUTOINIT : Z := 0x30.
Definition JS_ATOM_NULL : Z := 0.

(** The union of [JSProperty]; [realm] is the pointer in [realm_and_id]. *)
Inductive JSProperty : Type :=
  | P_value (v : JSValue)
  | P_getset (getter setter : option Z)
  | P_var_ref (p : Z)
  | P_init (realm : Z).

Record JSShapeProperty : Type := mkJSShapeProperty { hash_next : Z; flags : Z; atom : Z }.

(** [prop_hash] is the hash table before the structure: the cell [h] is
    [prop_hash_end(sh)[-h - 1]]. *)
Record JSShape : Type := mkJSShape {
  is_hashed : bool;
  has_small_array_index : bool;
  hash : Z;
  prop_hash_mask : Z;
  prop_size : Z;
  prop_count : Z;
  deleted_prop_count : Z;
  shape_hash_next : option Z;
  proto : option Z;
  prop_hash : list Z;
  shape_prop : list JSShapeProperty
}.

(** [pvalue] is the value pointed to. *)
Record JSVarRef : Type := mkJSVarRef { is_detached : bool; pvalue : JSValue }.

Record JSFunctionBytecode : Type := mkJSFunctionBytecode {
  cpool : list JSValue;
  cpool_count : Z;
  closure_var_count : Z;
  b_realm : option Z;
  (* the [shape] arrays of the inline cache *)
  ic : option (list (list (option Z)))
}.

(** [frame] is the stack frame; [has_arg_buf] whether [arg_buf] is not null;
    [stack] is the cells from [arg_buf] to [cur_sp], [None] when [cur_sp] is
    null. *)
Record JSAsyncFunctionState : Type := mkJSAsyncFunctionState {
  this_val : JSValue;
  cur_func : JSValue;
  frame : Z;
  has_arg_buf : bool;
  stack : option (list JSValue)
}.

Record JSAsyncFunctionData : Type := mkJSAsyncFunctionData {
  a_resolving_funcs : JSValue * JSValue;
  is_active : bool;
  a_func_state : JSAsyncFunctionState
}.

(** An entry of the exports: whether its type is [JS_EXPORT_TYPE_LOCAL], and
    its [var_ref]. *)
Record JSModuleDef : Type := mkJSModuleDef {
  export_entries : list (bool * option Z);
  module_ns : JSValue;
  func_obj : JSValue;
  eval_exception : JSValue;
  meta_obj : JSValue;
  m_promise : JSValue;
  m_resolving_funcs : JSValue * JSValue
}.

Definition JS_NATIVE_ERROR_COUNT : Z := 8.

Record JSContext : Type := mkJSContext {
  loaded_modules : list JSModuleDef;
  global_obj : JSValue;
  global_var_obj : JSValue;
  throw_type_error : JSValue;
  eval_obj : JSValue;
  array_proto_values : JSValue;
  native_error_proto : list JSValue;
  error_ctor : JSValue;
  error_prepare_stack : JSValue;
  class_proto : list JSValue;
  iterator_ctor : JSValue;
  async_iterator_proto : JSValue;
  promise_ctor : JSValue;
  array_ctor : JSValue;
  regexp_ctor : JSValue;
  function_ctor : JSValue;
  function_proto : JSValue;
  array_shape : option Z
}.

(** The class ids. *)
Definition JS_CLASS_OBJECT : Z := 1.
Definition JS_CLASS_ARRAY : Z := 2.
Definition JS_CLASS_ERROR : Z := 3.
Definition JS_CLASS_NUMBER : Z := 4.
Definition JS_CLASS_STRING : Z := 5.
Definition JS_CLASS_BOOLEAN : Z := 6.
Definition JS_CLASS_SYMBOL : Z := 7.
Definition JS_CLASS_ARGUMENTS : Z := 8.
Definition JS_CLASS_MAPPED_ARGUMENTS : Z := 9.
Definition JS_CLASS_DATE : Z := 10.
Definition JS_CLASS_MODULE_NS : Z := 11.
Definition JS_CLASS_C_FUNCTION : Z := 12.
Definition JS_CLASS_BYTECODE_FUNCTION : Z := 13.
Definition JS_CLASS_BOUND_FUNCTION : Z := 14.
Definition JS_CLASS_C_FUNCTION_DATA : Z := 15.
Definition JS_CLASS_GENERATOR_FUNCTION : Z := 16.
Definition JS_CLASS_FOR_IN_ITERATOR : Z := 17.
Definition JS_CLASS_REGEXP : Z := 18.
Definition JS_CLASS_ARRAY_BUFFER : Z := 19.
Definition JS_CLASS_SHARED_ARRAY_BUFFER : Z := 20.
Definition JS_CLASS_UINT8C_ARRAY : Z := 21.
Definition JS_CLASS_INT8_ARRAY : Z := 22.
Definition JS_CLASS_UINT8_ARRAY : Z := 23.
Definition JS_CLASS_INT16_ARRAY : Z := 24.
Definition JS_CLASS_UINT16_ARRAY : Z := 25.
Definition JS_CLASS_INT32_ARRAY : Z := 26.
Definition JS_CLASS_UINT32_ARRAY : Z := 27.
Definition JS_CLASS_BIG_INT64_ARRAY : Z := 28.
Definition JS_CLASS_BIG_UINT64_ARRAY : Z := 29.
Definition JS_CLASS_FLOAT16_ARRAY : Z := 30.
Definition JS_CLASS_FLOAT32_ARRAY : Z := 31.
Definition JS_CLASS_FLOAT64_ARRAY : Z := 32.
Definition JS_CLASS_DATAVIEW : Z := 33.
Definition JS_CLASS_BIG_INT : Z := 34.
Definition JS_CLASS_MAP : Z := 35.
Definition JS_CLASS_SET : Z := 36.
Definition JS_CLASS_WEAKMAP : Z := 37.
Definition JS_CLASS_WEAKSET : Z := 38.
Definition JS_CLASS_ITERATOR : Z := 39.
Definition JS_CLASS_ITERATOR_HELPER : Z := 40.
Definition JS_CLASS_ITERATOR_WRAP : Z := 41.
Definition JS_CLASS_MAP_ITERATOR : Z := 42.
Definition JS_CLASS_SET_ITERATOR : Z := 43.
Definition JS_CLASS_ARRAY_ITERATOR : Z := 44.
Definition JS_CLASS_STRING_ITERATOR : Z := 45.
Definition JS_CLASS_REGEXP_STRING_ITERATOR : Z := 46.
Definition JS_CLASS_GENERATOR : Z := 47.
Definition JS_CLASS_PROXY : Z := 48.
Definition JS_CLASS_PROMISE : Z := 49.
Definition JS_CLASS_PROMISE_RESOLVE_FUNCTION : Z := 50.
Definition JS_CLASS_PROMISE_REJECT_FUNCTION : Z := 51.
Definition JS_CLASS_ASYNC_FUNCTION : Z := 52.
Definition JS_CLASS_ASYNC_FUNCTION_RESOLVE : Z := 53.
Definition JS_CLASS_ASYNC_FUNCTION_REJECT : Z := 54.
Definition JS_CLASS_ASYNC_FROM_SYNC_ITERATOR : Z := 55.
Definition JS_CLASS_ASYNC_GENERATOR_FUNCTION : Z := 56.
Definition JS_CLASS_ASYNC_GENERATOR : Z := 57.
Definition JS_CLASS_WEAK_REF : Z := 58.
Definition JS_CLASS_FINALIZATION_REGISTRY : Z := 59.
Definition JS_CLASS_CALL_SITE : Z := 60.
Definition JS_CLASS_INIT_COUNT : Z := 61.

(** The records behind the pointers of the union [u] of an object; [mr_id] and
    [fre_id] are addresses. *)
Record JSMapRecord : Type := mkJSMapRecord { mr_id : Z; mr_empty : bool; mr_key : JSValue; mr_value : JSValue }.
Record JSMapState : Type := mkJSMapState { is_weak : bool; records : list JSMapRecord }.
Record JSFinRecEntry : Type := mkJSFinRecEntry {
  fre_id : Z;
  fre_target : JSValue;
  held_val : JSValue;
  token : JSValue
}.

Inductive JSGeneratorStateEnum : Type :=
  | JS_GENERATOR_STATE_SUSPENDED_START
  | JS_GENERATOR_STATE_SUSPENDED_YIELD
  | JS_GENERATOR_STATE_SUSPENDED_YIELD_STAR
  | JS_GENERATOR_STATE_EXECUTING
  | JS_GENERATOR_STATE_COMPLETED.

Inductive JSAsyncGeneratorStateEnum : Type :=
  | JS_ASYNC_GENERATOR_STATE_SUSPENDED_START
  | JS_ASYNC_GENERATOR_STATE_SUSPENDED_YIELD
  | JS_ASYNC_GENERATOR_STATE_SUSPENDED_YIELD_STAR
  | JS_ASYNC_GENERATOR_STATE_EXECUTING
  | JS_ASYNC_GENERATOR_STATE_AWAITING_RETURN
  | JS_ASYNC_GENERATOR_STATE_COMPLETED.

Record JSAsyncGeneratorRequest : Type := mkJSAsyncGeneratorRequest {
  result : JSValue;
  req_promise : JSValue;
  req_resolving_funcs : JSValue * JSValue
}.

Record JSPromiseReactionData : Type := mkJSPromiseReactionData {
  rd_resolving_funcs : JSValue * JSValue;
  handler : JSValue
}.

(** The union [u] of an object; [U_null] is a null pointer in any of the members
    that are pointers, [U_host] what a class of the host program stores. *)
Inductive JSClassData : Type :=
  | U_null
  | U_array (values : list JSValue) (count : Z)
  | U_object_data (v : JSValue)
  | U_cfunc (realm : option Z)
  | U_func (function_bytecode : option Z) (var_refs : option (list (option Z))) (home_object : option Z)
  | U_bound_function (func_obj this_val : JSValue) (argv : list JSValue) (argc : Z)
  | U_c_function_data (data : list JSValue) (data_len : Z)
  | U_for_in_iterator (obj : JSValue)
  | U_typed_array (buffer : Z)
  | U_map_state (s : JSMapState)
  | U_map_iterator (obj : JSValue) (cur_record : option Z)
  | U_array_iterator (obj : JSValue)
  | U_regexp_string_iterator (iterating_regexp iterated_string : JSValue)
  | U_generator (state : JSGeneratorStateEnum) (func_state : JSAsyncFunctionState)
  | U_iterator_helper (obj func next inner : JSValue)
  | U_iterator_wrap (wrapped_iter wrapped_next : JSValue)
  | U_proxy (target handler : JSValue)
  | U_promise (promise_reactions : list (list JSPromiseReactionData)) (promise_result : JSValue)
  | U_promise_function (promise : JSValue)
  | U_async_function (s : Z)
  | U_async_from_sync_iterator (sync_iter next_method : JSValue)
  | U_async_generator (state : JSAsyncGeneratorStateEnum) (func_state : JSAsyncFunctionState)
      (queue : list JSAsyncGeneratorRequest)
  | U_finrec (cb : JSValue) (entries : list JSFinRecEntry)
  | U_callsite (filename func func_name : JSValue)
  | U_regexp (bytecode pattern : Z)
  | U_array_buffer
  | U_weak_ref (target : JSValue)
  | U_weak_ref_sentinel
  | U_host (opaque : Z).

Record JSObject : Type := mkJSObject {
  class_id : Z;
  shape : Z;
  prop : list JSProperty;
  u : JSClassData
}.

(** What a pointer to a collected object points to; the constructor is the
    [gc_obj_type] of the header. *)
Inductive gc_object : Type :=
  | GC_JS_OBJECT (p : JSObject)
  | GC_FUNCTION_BYTECODE (b : JSFunctionBytecode)
  | GC_SHAPE (sh : JSShape)
  | GC_VAR_REF (var_ref : JSVarRef)
  | GC_ASYNC_FUNCTION (s : JSAsyncFunctionData)
  | GC_JS_CONTEXT (ctx : JSContext).

(** The objects, the number of classes, and the mark functions and finalizers of
    the classes that the host program registers: the objects the first visit,
    the values the second release. *)
Record JSRuntime : Type := mkJSRuntime {
  gc_objects : gmap Z gc_object;
  class_count : Z;
  host_gc_mark : Z -> option (Z -> list Z);
  host_finalizer : Z -> option (Z -> list JSValue)
}.

(** * The children of an object *)

Section Mark.
Variable rt : JSRuntime.
Context {S : Type}.
(** The callback and the state it changes. *)
Variable mark_func : S -> Z -> outcome S.

Definition mark_ptr (st : S) (p : option Z) : outcome S :=
  match p with Some p => mark_func st p | None => Ret st end.

Definition JS_MarkValue (st : S) (val : JSValue) : outcome S :=
  if JS_VALUE_HAS_REF_COUNT val then
    if (jv_tag val =? JS_TAG_OBJECT) || (jv_tag val =? JS_TAG_FUNCTION_BYTECODE)
    then mark_func st (jv_ptr val) else Ret st
  else Ret st.

Definition mark_values (st : S) (vals : list JSValue) : outcome S := ofold JS_MarkValue st vals.

(** [for(i = 0; i < n; i++) JS_MarkValue(rt, vals[i], mark_func)]. *)
Definition mark_array (st : S) (vals : list JSValue) (n : Z) : outcome S :=
  ofold (fun st i => let* v := rd vals i in JS_MarkValue st v) st (seqZ 0 n).

Definition get_shape (sh : Z) : outcome JSShape :=
  match gc_objects rt !! sh with Some (GC_SHAPE sh) => Ret sh | _ => Err OutOfBounds end.
Definition get_var_ref (p : Z) : outcome JSVarRef :=
  match gc_objects rt !! p with Some (GC_VAR_REF v) => Ret v | _ => Err OutOfBounds end.
Definition get_bytecode (p : Z) : outcome JSFunctionBytecode :=
  match gc_objects rt !! p with Some (GC_FUNCTION_BYTECODE b) => Ret b | _ => Err OutOfBounds end.

Definition js_autoinit_mark (st : S) (realm : Z) : outcome S := mark_func st realm.

(** One property of an object, with its flags in the shape. *)
Definition mark_property (p : JSObject) (prs : list JSShapeProperty) (st : S) (i : Z) : outcome S :=
  let* pr := rd prs i in
  if negb (atom pr =? JS_ATOM_NULL) then
    let* v := rd (prop p) i in
    let t := Z.land (flags pr) JS_PROP_TMASK in
    if negb (t =? 0) then
      if t =? JS_PROP_GETSET then
        match v with
        | P_getset getter setter => let* st := mark_ptr st getter in mark_ptr st setter
        | _ => Err OutOfBounds
        end
      else if t =? JS_PROP_VARREF then
        match v with
        | P_var_ref p => let* r := get_var_ref p in if is_detached r then mark_func st p else Ret st
        | _ => Err OutOfBounds
        end
      else if t =? JS_PROP_AUTOINIT then
        match v with P_init realm => js_autoinit_mark st realm | _ => Err OutOfBounds end
      else Ret st
    else match v with P_value v => JS_MarkValue st v | _ => Err OutOfBounds end
  else Ret st.

(** ** The mark functions of the classes *)

(** [JS_GetOpaque(val, class_id)]: null for an object of another class. *)
Definition JS_GetOpaque (p : JSObject) (id : Z) : JSClassData := if class_id p =? id then u p else U_null.

Definition js_c_function_data_mark (p : JSObject) (st : S) : outcome S :=
  match JS_GetOpaque p JS_CLASS_C_FUNCTION_DATA with
  | U_null => Ret st
  | U_c_function_data data data_len => mark_array st data data_len
  | _ => Err OutOfBounds
  end.

Definition js_array_mark (p : JSObject) (st : S) : outcome S :=
  match u p with U_array values count => mark_array st values count | _ => Err OutOfBounds end.

Definition js_object_data_mark (p : JSObject) (st : S) : outcome S :=
  match u p with U_object_data v => JS_MarkValue st v | _ => Err OutOfBounds end.

Definition js_c_function_mark (p : JSObject) (st : S) : outcome S :=
  match u p with U_cfunc realm => mark_ptr st realm | _ => Err OutOfBounds end.

Definition js_bytecode_function_mark (p : JSObject) (st : S) : outcome S :=
  match u p with
  | U_func b var_refs home_object =>
      let* st := match home_object with
                 | Some o => JS_MarkValue st (JS_MKPTR JS_TAG_OBJECT o)
                 | None => Ret st
                 end in
      match b with
      | Some b =>
          let* st := match var_refs with
                     | Some var_refs =>
                         let* code := get_bytecode b in
                         ofold (fun st i =>
                           let* r := rd var_refs i in
                           match r with
                           | Some r => let* v := get_var_ref r in if is_detached v then mark_func st r else Ret st
                           | None => Ret st
                           end) st (seqZ 0 (closure_var_count code))
                     | None => Ret st
                     end in
          JS_MarkValue st (JS_MKPTR JS_TAG_FUNCTION_BYTECODE b)
      | None => Ret st
      end
  | _ => Err OutOfBounds
  end.

Definition js_bound_function_mark (p : JSObject) (st : S) : outcome S :=
  match u p with
  | U_bound_function func_obj this_val argv argc =>
      let* st := JS_MarkValue st func_obj in
      let* st := JS_MarkValue st this_val in
      mark_array st argv argc
  | _ => Err OutOfBounds
  end.

Definition js_for_in_iterator_mark (p : JSObject) (st : S) : outcome S :=
  match u p with U_for_in_iterator obj => JS_MarkValue st obj | _ => Err OutOfBounds end.

Definition js_typed_array_mark (p : JSObject) (st : S) : outcome S :=
  match u p with
  | U_null => Ret st
  | U_typed_array buffer => JS_MarkValue st (JS_MKPTR JS_TAG_OBJECT buffer)
  | _ => Err OutOfBounds
  end.

Definition js_map_mark (p : JSObject) (st : S) : outcome S :=
  match u p with
  | U_null => Ret st
  | U_map_state s =>
      ofold (fun st mr =>
        let* st := if negb (is_weak s) then JS_MarkValue st (mr_key mr) else Ret st in
        JS_MarkValue st (mr_value mr)) st (records s)
  | _ => Err OutOfBounds
  end.

Definition js_map_iterator_mark (p : JSObject) (st : S) : outcome S :=
  match u p with U_null => Ret st | U_map_iterator obj _ => JS_MarkValue st obj | _ => Err OutOfBounds end.

Definition js_array_iterator_mark (p : JSObject) (st : S) : outcome S :=
  match u p with U_null => Ret st | U_array_iterator obj => JS_MarkValue st obj | _ => Err OutOfBounds end.

Definition js_iterator_helper_mark (p : JSObject) (st : S) : outcome S :=
  match u p with
  | U_null => Ret st
  | U_iterator_helper obj func next inner => mark_values st [obj; func; next; inner]
  | _ => Err OutOfBounds
  end.

Definition js_iterator_wrap_mark (p : JSObject) (st : S) : outcome S :=
  match u p with
  | U_null => Ret st
  | U_iterator_wrap wrapped_iter wrapped_next => mark_values st [wrapped_iter; wrapped_next]
  | _ => Err OutOfBounds
  end.

Definition js_regexp_string_iterator_mark (p : JSObject) (st : S) : outcome S :=
  match u p with
  | U_null => Ret st
  | U_regexp_string_iterator iterating_regexp iterated_string => mark_values st [iterating_regexp; iterated_string]
  | _ => Err OutOfBounds
  end.

Definition async_func_mark (s : JSAsyncFunctionState) (st : S) : outcome S :=
  let* st := JS_MarkValue st (cur_func s) in
  let* st := JS_MarkValue st (this_val s) in
  match stack s with Some vals => mark_values st vals | None => Ret st end.

Definition js_generator_mark (p : JSObject) (st : S) : outcome S :=
  match u p with
  | U_null => Ret st
  | U_generator JS_GENERATOR_STATE_COMPLETED _ => Ret st
  | U_generator _ s => async_func_mark s st
  | _ => Err OutOfBounds
  end.

Definition js_async_function_resolve_mark (p : JSObject) (st : S) : outcome S :=
  match u p with U_null => Ret st | U_async_function s => mark_func st s | _ => Err OutOfBounds end.

Definition js_async_generator_mark (p : JSObject) (st : S) : outcome S :=
  match JS_GetOpaque p JS_CLASS_ASYNC_GENERATOR with
  | U_null => Ret st
  | U_async_generator state s queue =>
      let* st := ofold (fun st req =>
        mark_values st [result req; req_promise req; fst (req_resolving_funcs req); snd (req_resolving_funcs req)])
        st queue in
      match state with
      | JS_ASYNC_GENERATOR_STATE_COMPLETED | JS_ASYNC_GENERATOR_STATE_AWAITING_RETURN => Ret st
      | _ => async_func_mark s st
      end
  | _ => Err OutOfBounds
  end.

Definition js_proxy_mark (p : JSObject) (st : S) : outcome S :=
  match JS_GetOpaque p JS_CLASS_PROXY with
  | U_null => Ret st
  | U_proxy target handler => mark_values st [target; handler]
  | _ => Err OutOfBounds
  end.

Definition js_promise_mark (p : JSObject) (st : S) : outcome S :=
  match JS_GetOpaque p JS_CLASS_PROMISE with
  | U_null => Ret st
  | U_promise reactions promise_result =>
      let* st := ofold (fun st i =>
        let* l := rd reactions i in
        ofold (fun st r => mark_values st [fst (rd_resolving_funcs r); snd (rd_resolving_funcs r); handler r]) st l)
        st (seqZ 0 2) in
      JS_MarkValue st promise_result
  | _ => Err OutOfBounds
  end.

Definition js_promise_resolve_function_mark (p : JSObject) (st : S) : outcome S :=
  match u p with U_null => Ret st | U_promise_function promise => JS_MarkValue st promise | _ => Err OutOfBounds end.

Definition js_async_from_sync_iterator_mark (p : JSObject) (st : S) : outcome S :=
  match JS_GetOpaque p JS_CLASS_ASYNC_FROM_SYNC_ITERATOR with
  | U_null => Ret st
  | U_async_from_sync_iterator sync_iter next_method => mark_values st [sync_iter; next_method]
  | _ => Err OutOfBounds
  end.

Definition js_finrec_mark (p : JSObject) (st : S) : outcome S :=
  match JS_GetOpaque p JS_CLASS_FINALIZATION_REGISTRY with
  | U_null => Ret st
  | U_finrec cb entries =>
      let* st := JS_MarkValue st cb in
      ofold (fun st fre => mark_values st [held_val fre; token fre]) st entries
  | _ => Err OutOfBounds
  end.

Definition js_callsite_mark (p : JSObject) (st : S) : outcome S :=
  match JS_GetOpaque p JS_CLASS_CALL_SITE with
  | U_null => Ret st
  | U_callsite filename func func_name => mark_values st [filename; func; func_name]
  | _ => Err OutOfBounds
  end.

Definition host_mark (f : Z -> list Z) (p : JSObject) (st : S) : outcome S :=
  match u p with U_host opaque => ofold mark_func st (f opaque) | _ => Err OutOfBounds end.

(** [rt->class_array[class_id].gc_mark]: the classes of the engine, then those
    of the host program. *)
Definition class_gc_mark (id : Z) : option (JSObject -> S -> outcome S) :=
  let mem := existsb (Z.eqb id) in
  if mem [JS_CLASS_ARRAY; JS_CLASS_ARGUMENTS] then Some js_array_mark
  else if mem [JS_CLASS_NUMBER; JS_CLASS_STRING; JS_CLASS_BOOLEAN; JS_CLASS_SYMBOL; JS_CLASS_DATE; JS_CLASS_BIG_INT]
  then Some js_object_data_mark
  else if id =? JS_CLASS_C_FUNCTION then Some js_c_function_mark
  else if mem [JS_CLASS_BYTECODE_FUNCTION; JS_CLASS_GENERATOR_FUNCTION; JS_CLASS_ASYNC_FUNCTION;
               JS_CLASS_ASYNC_GENERATOR_FUNCTION] then Some js_bytecode_function_mark
  else if id =? JS_CLASS_BOUND_FUNCTION then Some js_bound_function_mark
  else if id =? JS_CLASS_C_FUNCTION_DATA then Some js_c_function_data_mark
  else if id =? JS_CLASS_FOR_IN_ITERATOR then Some js_for_in_iterator_mark
  else if (JS_CLASS_UINT8C_ARRAY <=? id) && (id <=? JS_CLASS_DATAVIEW) then Some js_typed_array_mark
  else if mem [JS_CLASS_MAP; JS_CLASS_SET; JS_CLASS_WEAKMAP; JS_CLASS_WEAKSET] then Some js_map_mark
  else if id =? JS_CLASS_ITERATOR_HELPER then Some js_iterator_helper_mark
  else if id =? JS_CLASS_ITERATOR_WRAP then Some js_iterator_wrap_mark
  else if mem [JS_CLASS_MAP_ITERATOR; JS_CLASS_SET_ITERATOR] then Some js_map_iterator_mark
  else if mem [JS_CLASS_ARRAY_ITERATOR; JS_CLASS_STRING_ITERATOR] then Some js_array_iterator_mark
  else if id =? JS_CLASS_REGEXP_STRING_ITERATOR then Some js_regexp_string_iterator_mark
  else if id =? JS_CLASS_GENERATOR then Some js_generator_mark
  else if id =? JS_CLASS_PROXY then Some js_proxy_mark
  else if id =? JS_CLASS_PROMISE then Some js_promise_mark
  else if mem [JS_CLASS_PROMISE_RESOLVE_FUNCTION; JS_CLASS_PROMISE_REJECT_FUNCTION]
  then Some js_promise_resolve_function_mark
  else if mem [JS_CLASS_ASYNC_FUNCTION_RESOLVE; JS_CLASS_ASYNC_FUNCTION_REJECT]
  then Some js_async_function_resolve_mark
  else if id =? JS_CLASS_ASYNC_FROM_SYNC_ITERATOR then Some js_async_from_sync_iterator_mark
  else if id =? JS_CLASS_ASYNC_GENERATOR then Some js_async_generator_mark
  else if id =? JS_CLASS_FINALIZATION_REGISTRY then Some js_finrec_mark
  else if id =? JS_CLASS_CALL_SITE then Some js_callsite_mark
  else if id <? JS_CLASS_INIT_COUNT then None
  else match host_gc_mark rt id with Some f => Some (host_mark f) | None => None end.

(** ** The children of every kind of object *)

Definition js_mark_module_def (m : JSModuleDef) (st : S) : outcome S :=
  let* st := ofold (fun st '(is_local, var_ref) => if is_local : bool then mark_ptr st var_ref else Ret st)
               st (export_entries m) in
  mark_values st [module_ns m; func_obj m; eval_exception m; meta_obj m; m_promise m;
                  fst (m_resolving_funcs m); snd (m_resolving_funcs m)].

Definition JS_MarkContext (ctx : JSContext) (st : S) : outcome S :=
  let* st := ofold (fun st m => js_mark_module_def m st) st (loaded_modules ctx) in
  let* st := mark_values st [global_obj ctx; global_var_obj ctx; throw_type_error ctx; eval_obj ctx;
                             array_proto_values ctx] in
  let* st := mark_array st (native_error_proto ctx) JS_NATIVE_ERROR_COUNT in
  let* st := mark_values st [error_ctor ctx; error_prepare_stack ctx] in
  let* st := mark_array st (class_proto ctx) (class_count rt) in
  let* st := mark_values st [iterator_ctor ctx; async_iterator_proto ctx; promise_ctor ctx; array_ctor ctx;
                             regexp_ctor ctx; function_ctor ctx; function_proto ctx] in
  mark_ptr st (array_shape ctx).

Definition mark_children (gp : Z) (st : S) : outcome S :=
  match gc_objects rt !! gp with
  | None => Err OutOfBounds
  | Some (GC_JS_OBJECT p) =>
      let* st := mark_func st (shape p) in
      let* sh := get_shape (shape p) in
      let* st := ofold (mark_property p (shape_prop sh)) st (seqZ 0 (prop_count sh)) in
      if negb (class_id p =? JS_CLASS_OBJECT) then
        match class_gc_mark (class_id p) with Some gc_mark => gc_mark p st | None => Ret st end
      else Ret st
  | Some (GC_FUNCTION_BYTECODE b) =>
      let* st := mark_array st (cpool b) (cpool_count b) in
      let* st := mark_ptr st (b_realm b) in
      match ic b with
      | Some cache => ofold (ofold mark_ptr) st cache
      | None => Ret st
      end
  | Some (GC_VAR_REF var_ref) =>
      let* _ := c_assert (is_detached var_ref) in
      JS_MarkValue st (pvalue var_ref)
  | Some (GC_ASYNC_FUNCTION s) =>
      let* st := if is_active s then async_func_mark (a_func_state s) st else Ret st in
      mark_values st [fst (a_resolving_funcs s); snd (a_resolving_funcs s)]
  | Some (GC_SHAPE sh) => mark_ptr st (proto sh)
  | Some (GC_JS_CONTEXT ctx) => JS_MarkContext ctx st
  end.
End Mark.

(** The calls of [mark_children] on [gp]: the pointers [mark_func] gets, in
    order. *)
Definition children (rt : JSRuntime) (gp : Z) : outcome (list Z) :=
  mark_children rt (fun l p => Ret (l ++ [p])) gp [].
