(* ===== verification/GcChildren.v ===== *)
(** The calls of [mark_children] do not depend on what the callback does: they
    are a list of pointers, the children of the object. *)
From Stdlib Require Import ZArith Lia Bool List.
From stdpp Require Import base tactics list numbers gmap.
From S2P Require Import Prelude GcObject.

Section Traces.
Context {S : Type}.
Variable f : S -> Z -> outcome S.

Abbreviation collect := (fun l p => Ret (l ++ [p])).

(** When [mc], which collects the pointers, returns, [mf] runs the callback on
    the pointers it added. *)
Definition traces (mc : list Z -> outcome (list Z)) (mf : S -> outcome S) : Prop :=
  forall acc l, mc acc = Ret l -> exists k, l = acc ++ k /\ forall st, mf st = ofold f st k.

Lemma traces_ret : traces (fun acc => Ret acc) (fun st => Ret st).
Proof. intros acc l [= <-]. exists []. by rewrite app_nil_r. Qed.

Lemma traces_err e (mf : S -> outcome S) : traces (fun acc => Err e) mf.
Proof. by intros acc l ?. Qed.

Lemma traces_call p : traces (fun acc => Ret (acc ++ [p])) (fun st => f st p).
Proof. intros acc l [= <-]. exists [p]. split; [done|]. intros st. cbn [ofold]. by destruct (f st p). Qed.

Lemma traces_bind mc1 mc2 mf1 mf2 :
  traces mc1 mf1 -> traces mc2 mf2 ->
  traces (fun acc => let* acc := mc1 acc in mc2 acc) (fun st => let* st := mf1 st in mf2 st).
Proof.
  intros H1 H2 acc l E. destruct (mc1 acc) as [acc1|] eqn:E1; [|done]. cbn [obind] in E.
  apply H1 in E1 as (k1 & -> & K1). apply H2 in E as (k2 & -> & K2). exists (k1 ++ k2).
  split; [by rewrite app_assoc|]. intros st. rewrite ofold_app, K1. by destruct (ofold f st k1); cbn.
Qed.

Lemma traces_read {X : Type} (o : outcome X) mc mf :
  (forall x, traces (mc x) (mf x)) ->
  traces (fun acc => let* x := o in mc x acc) (fun st => let* x := o in mf x st).
Proof. intros H. destruct o as [x|e]; cbn [obind]; [apply H|apply traces_err]. Qed.

Lemma traces_ofold {X : Type} (mc : list Z -> X -> outcome (list Z)) (mf : S -> X -> outcome S) xs :
  (forall x, traces (fun acc => mc acc x) (fun st => mf st x)) ->
  traces (fun acc => ofold mc acc xs) (fun st => ofold mf st xs).
Proof.
  intros H. induction xs as [|x xs IH]; cbn [ofold]; [apply traces_ret|].
  apply (traces_bind (fun acc => mc acc x) _ (fun st => mf st x)); [apply H|exact IH].
Qed.
End Traces.

(** Decomposition of a goal [traces mc mf] along the two programs. *)
Ltac traces_step lemmas :=
  first
    [ lemmas ()
    | apply traces_ret | apply traces_call | apply traces_err
    | apply traces_ofold; intro
    | apply traces_read; intro
    | apply traces_bind
    | match goal with
      | |- traces _ (fun acc => match ?x with _ => _ end) _ => destruct x
      end ].
Ltac traces_tac lemmas := repeat (cbn [fst snd]; traces_step lemmas).

Section Children.
Variable rt : JSRuntime.
Context {S : Type}.
Variable f : S -> Z -> outcome S.
Abbreviation collect := (fun l p => Ret (l ++ [p])).

Lemma mark_ptr_traces p : traces f (fun acc => mark_ptr collect acc p) (fun st => mark_ptr f st p).
Proof. unfold mark_ptr. traces_tac ltac:(fun _ => fail). Qed.

Lemma JS_MarkValue_traces v : traces f (fun acc => JS_MarkValue collect acc v) (fun st => JS_MarkValue f st v).
Proof. unfold JS_MarkValue. traces_tac ltac:(fun _ => fail). Qed.

Lemma mark_values_traces l : traces f (fun acc => mark_values collect acc l) (fun st => mark_values f st l).
Proof. apply traces_ofold. intro. apply JS_MarkValue_traces. Qed.

Lemma mark_array_traces l n : traces f (fun acc => mark_array collect acc l n) (fun st => mark_array f st l n).
Proof. apply traces_ofold. intro. apply traces_read. intro. apply JS_MarkValue_traces. Qed.

Ltac basic _ := first [ apply mark_ptr_traces | apply JS_MarkValue_traces | apply mark_values_traces
                      | apply mark_array_traces ].

Lemma mark_property_traces p prs i :
  traces f (fun acc => mark_property rt collect p prs acc i) (fun st => mark_property rt f p prs st i).
Proof. unfold mark_property, js_autoinit_mark. traces_tac ltac:(basic). Qed.

Lemma async_func_mark_traces s :
  traces f (fun acc => async_func_mark collect s acc) (fun st => async_func_mark f s st).
Proof. unfold async_func_mark. traces_tac ltac:(basic). Qed.

Lemma host_mark_traces g p : traces f (fun acc => host_mark collect g p acc) (fun st => host_mark f g p st).
Proof. unfold host_mark. traces_tac ltac:(basic). Qed.

(** The mark functions of the classes. *)
Lemma class_gc_mark_traces id :
  match class_gc_mark rt collect id, class_gc_mark rt f id with
  | Some mc, Some mf => forall p, traces f (mc p) (mf p)
  | None, None => True
  | _, _ => False
  end.
Proof.
  unfold class_gc_mark. cbv zeta. destruct (host_gc_mark rt id);
  repeat match goal with
  | |- match (if ?b then _ else _) with _ => _ end => destruct b
  end; try exact I; intro p;
  unfold js_array_mark, js_object_data_mark, js_c_function_mark, js_bytecode_function_mark, js_bound_function_mark,
    js_c_function_data_mark, js_for_in_iterator_mark, js_typed_array_mark, js_map_mark, js_iterator_helper_mark,
    js_iterator_wrap_mark, js_map_iterator_mark, js_array_iterator_mark, js_regexp_string_iterator_mark,
    js_generator_mark, js_proxy_mark, js_promise_mark, js_promise_resolve_function_mark,
    js_async_function_resolve_mark, js_async_from_sync_iterator_mark, js_async_generator_mark, js_finrec_mark,
    js_callsite_mark;
  traces_tac ltac:(fun _ => first [basic () | apply async_func_mark_traces | apply host_mark_traces]).
Qed.

Lemma js_mark_module_def_traces m :
  traces f (fun acc => js_mark_module_def collect m acc) (fun st => js_mark_module_def f m st).
Proof. unfold js_mark_module_def. traces_tac ltac:(basic). Qed.

Lemma JS_MarkContext_traces ctx :
  traces f (fun acc => JS_MarkContext rt collect ctx acc) (fun st => JS_MarkContext rt f ctx st).
Proof.
  unfold JS_MarkContext.
  traces_tac ltac:(fun _ => first [basic () | apply js_mark_module_def_traces]).
Qed.

Lemma object_traces p :
  traces f (fun acc => if negb (class_id p =? JS_CLASS_OBJECT) then
                         match class_gc_mark rt collect (class_id p) with Some m => m p acc | None => Ret acc end
                       else Ret acc)
           (fun st => if negb (class_id p =? JS_CLASS_OBJECT) then
                        match class_gc_mark rt f (class_id p) with Some m => m p st | None => Ret st end
                      else Ret st).
Proof.
  destruct (negb _); [|apply traces_ret]. pose proof (class_gc_mark_traces (class_id p)) as H.
  destruct (class_gc_mark rt collect (class_id p)), (class_gc_mark rt f (class_id p)); try done.
  apply traces_ret.
Qed.

(** [mark_children] runs its callback on the children of the object, in order. *)
Lemma mark_children_ofold gp l st : children rt gp = Ret l -> mark_children rt f gp st = ofold f st l.
Proof.
  assert (traces f (mark_children rt collect gp) (mark_children rt f gp)) as H.
  { unfold mark_children. traces_tac ltac:(fun _ => first [basic () | apply mark_property_traces
      | apply async_func_mark_traces | apply JS_MarkContext_traces | apply object_traces]). }
  intros E. apply H in E as (k & -> & Hk). apply Hk.
Qed.
End Children.
