(* ===== verification/Gc.v ===== *)
(** The marking of the garbage collector.

    Every collected object is in one of three lists; [gc_decref] subtracts from
    the reference counts the references the objects hold, so that what is left
    comes from outside, and [gc_scan] gives the references of the objects that
    stay back and leaves the others in the temporary list. *)
From Stdlib Require Import ZArith Lia Bool List.
From stdpp Require Import base tactics list numbers gmap.
From S2P Require Import Prelude GcObject.

(** * The state of the collector *)

Record JSGCObjectHeader : Type := mkHeader { ref_count : Z; mark : Z }.

(** The lists of the runtime, linked through the headers. *)
Inductive gc_list : Type := GC_OBJ_LIST | TMP_OBJ_LIST | GC_ZERO_REF_COUNT_LIST.
#[export] Instance gc_list_eq_dec : EqDecision gc_list.
Proof. solve_decision. Defined.

Record GcState : Type := mkGcState {
  headers : gmap Z JSGCObjectHeader;
  gc_obj_list : list Z;
  tmp_obj_list : list Z;
  gc_zero_ref_count_list : list Z
}.

Definition list_of (st : GcState) (l : gc_list) : list Z :=
  match l with
  | GC_OBJ_LIST => gc_obj_list st
  | TMP_OBJ_LIST => tmp_obj_list st
  | GC_ZERO_REF_COUNT_LIST => gc_zero_ref_count_list st
  end.

Definition set_list (st : GcState) (l : gc_list) (v : list Z) : GcState :=
  match l with
  | GC_OBJ_LIST => mkGcState (headers st) v (tmp_obj_list st) (gc_zero_ref_count_list st)
  | TMP_OBJ_LIST => mkGcState (headers st) (gc_obj_list st) v (gc_zero_ref_count_list st)
  | GC_ZERO_REF_COUNT_LIST => mkGcState (headers st) (gc_obj_list st) (tmp_obj_list st) v
  end.

Definition get_header (st : GcState) (p : Z) : outcome JSGCObjectHeader :=
  match headers st !! p with Some h => Ret h | None => Err OutOfBounds end.

Definition set_header (st : GcState) (p : Z) (h : JSGCObjectHeader) : GcState :=
  mkGcState (<[p := h]> (headers st)) (gc_obj_list st) (tmp_obj_list st) (gc_zero_ref_count_list st).

(** The list an object is linked in. *)
Definition find_list (st : GcState) (p : Z) : outcome gc_list :=
  match List.find (fun l => existsb (Z.eqb p) (list_of st l))
          [GC_OBJ_LIST; TMP_OBJ_LIST; GC_ZERO_REF_COUNT_LIST] with
  | Some l => Ret l
  | None => Err OutOfBounds
  end.

Definition list_del (st : GcState) (p : Z) : outcome GcState :=
  let* l := find_list st p in
  Ret (set_list st l (List.remove Z.eq_dec p (list_of st l))).

Definition list_add_tail (st : GcState) (p : Z) (l : gc_list) : GcState :=
  set_list st l (list_of st l ++ [p]).

(** A link points to an object or to the head of a list. *)
Inductive link : Type :=
  | L_obj (p : Z)
  | L_head (l : gc_list).

Definition first_link (st : GcState) (l : gc_list) : link :=
  match list_of st l with p :: _ => L_obj p | [] => L_head l end.

(** The link after [p] in the list [l]. *)
Fixpoint link_after (l : gc_list) (p : Z) (objs : list Z) : link :=
  match objs with
  | [] => L_head l
  | q :: objs => if q =? p then match objs with r :: _ => L_obj r | [] => L_head l end else link_after l p objs
  end.

(** [el->next]. *)
Definition link_next (st : GcState) (el : link) : outcome link :=
  match el with
  | L_head l => Ret (first_link st l)
  | L_obj p => let* l := find_list st p in Ret (link_after l p (list_of st l))
  end.

(** * Marking *)

Section Gc.
Variable rt : JSRuntime.

Definition gc_decref_child (st : GcState) (p : Z) : outcome GcState :=
  let* h := get_header st p in
  if ref_count h <=? 0 then Ret st
  else
    let h := mkHeader (i32 (ref_count h - 1)) (mark h) in
    let st := set_header st p h in
    if (ref_count h =? 0) && (mark h =? 1) then
      let* st := list_del st p in
      Ret (list_add_tail st p TMP_OBJ_LIST)
    else Ret st.

(** The body of [list_for_each_safe(el, el1, &rt->gc_obj_list)]. *)
Definition gc_decref_object (st : GcState) (p : Z) : outcome GcState :=
  let* h := get_header st p in
  let* _ := c_assert (mark h =? 0) in
  let* st := mark_children rt gc_decref_child p st in
  let* h := get_header st p in
  let st := set_header st p (mkHeader (ref_count h) 1) in
  if ref_count h =? 0 then
    let* st := list_del st p in
    Ret (list_add_tail st p TMP_OBJ_LIST)
  else Ret st.

Definition gc_decref_step '(el, el1, st) : outcome (link * link * GcState + GcState) :=
  match el with
  | L_head GC_OBJ_LIST => Ret (inr st)
  | L_head _ => Err OutOfBounds
  | L_obj p =>
      let* st := gc_decref_object st p in
      let el := el1 in
      let* el1 := link_next st el in
      Ret (inl (el, el1, st))
  end.

Definition gc_decref (st : GcState) : outcome GcState :=
  let st := set_list st TMP_OBJ_LIST [] in
  let el := first_link st GC_OBJ_LIST in
  let* el1 := link_next st el in
  iter (S (length (gc_obj_list st))) gc_decref_step (el, el1, st).

Definition gc_scan_incref_child (st : GcState) (p : Z) : outcome GcState :=
  let* h := get_header st p in
  let h := mkHeader (i32 (ref_count h + 1)) (mark h) in
  let st := set_header st p h in
  if ref_count h =? 1 then
    let* st := list_del st p in
    let st := list_add_tail st p GC_OBJ_LIST in
    Ret (set_header st p (mkHeader (ref_count h) 0))
  else Ret st.

Definition gc_scan_incref_child2 (st : GcState) (p : Z) : outcome GcState :=
  let* h := get_header st p in
  Ret (set_header st p (mkHeader (i32 (ref_count h + 1)) (mark h))).

(** The body of the loop over [gc_obj_list]. *)
Definition gc_scan_object (st : GcState) (p : Z) : outcome GcState :=
  let* h := get_header st p in
  let* _ := c_assert (0 <? ref_count h) in
  let st := set_header st p (mkHeader (ref_count h) 0) in
  mark_children rt gc_scan_incref_child p st.

(** [list_for_each(el, head)] with a body on the object of [el]. *)
Definition list_for_each_step (head : gc_list) (body : GcState -> Z -> outcome GcState) '(el, st)
    : outcome (link * GcState + GcState) :=
  match el with
  | L_head l => if bool_decide (l = head) then Ret (inr st) else Err OutOfBounds
  | L_obj p =>
      let* st := body st p in
      let* el := link_next st el in
      Ret (inl (el, st))
  end.

(** [fuel] bounds the number of the objects. *)
Definition gc_scan (fuel : nat) (st : GcState) : outcome GcState :=
  let* st := iter fuel (list_for_each_step GC_OBJ_LIST gc_scan_object) (first_link st GC_OBJ_LIST, st) in
  iter fuel (list_for_each_step TMP_OBJ_LIST (fun st p => mark_children rt gc_scan_incref_child2 p st))
    (first_link st TMP_OBJ_LIST, st).

(** [gc_decref(rt); gc_scan(rt)], the marking of [JS_RunGC]. *)
Definition gc_mark_phase (st : GcState) : outcome GcState :=
  let fuel := S (length (gc_obj_list st)) in
  let* st := gc_decref st in
  gc_scan fuel st.
End Gc.
