(* ===== verification/GcMark.v ===== *)
(** The marking of the garbage collector finds the objects that are not
    reachable from outside, and only them.

    The heap must be well counted: the reference count of an object is at least
    the number of the references to it that the objects hold; the difference is
    the number of the references from outside. *)
From Stdlib Require Import ZArith Lia Bool List Permutation.
From stdpp Require Import base tactics list numbers gmap.
From S2P Require Import Prelude GcObject GcChildren Gc.

(** * Occurrences in lists *)

Definition occ (x : Z) (l : list Z) : Z := Z.of_nat (count_occ Z.eq_dec l x).

Lemma occ_app x l k : occ x (l ++ k) = occ x l + occ x k.
Proof. unfold occ. rewrite count_occ_app. lia. Qed.

Lemma occ_nonneg x l : 0 <= occ x l.
Proof. unfold occ. lia. Qed.

Lemma occ_cons x y l : occ x (y :: l) = (if Z.eq_dec y x then 1 else 0) + occ x l.
Proof. unfold occ. cbn [count_occ]. destruct (Z.eq_dec y x); lia. Qed.

Lemma occ_one x y : occ x [y] = if Z.eq_dec y x then 1 else 0.
Proof. rewrite occ_cons. unfold occ. cbn. lia. Qed.

Lemma occ_In x l : In x l <-> 0 < occ x l.
Proof. unfold occ. rewrite (count_occ_In Z.eq_dec). lia. Qed.

Lemma occ_perm x l k : Permutation l k -> occ x l = occ x k.
Proof. intros H. unfold occ. f_equal. by apply Permutation_count_occ. Qed.

Lemma existsb_In x l : existsb (Z.eqb x) l = true <-> In x l.
Proof.
  rewrite existsb_exists. split; [intros (y & Hy & E); apply Z.eqb_eq in E; by subst|].
  intros H. exists x. by rewrite Z.eqb_refl.
Qed.

Lemma existsb_notin x l : ~ In x l -> existsb (Z.eqb x) l = false.
Proof. intros H. destruct (existsb _ l) eqn:E; [|done]. by apply existsb_In in E. Qed.

Lemma i32_small z : 0 <= z < 2 ^ 31 -> i32 z = z.
Proof. intros H. unfold i32, u32. rewrite Z.mod_small by lia. cbv zeta. destruct (Z.ltb_spec z 2147483648); lia. Qed.

(** A filter that loses one element. *)
Lemma filter_remove (P Q : Z -> bool) x l :
  (forall y, y <> x -> P y = Q y) -> Q x = false -> List.filter Q l = List.remove Z.eq_dec x (List.filter P l).
Proof.
  intros Hpq Hq. induction l as [|y l IH]; [done|]. cbn [List.filter].
  destruct (Z.eq_dec y x) as [->|Hne].
  - rewrite Hq. destruct (P x); [|exact IH]. cbn [List.remove]. by destruct (Z.eq_dec x x).
  - rewrite <- (Hpq y Hne), IH. destruct (P y); [|done]. cbn [List.remove]. by destruct (Z.eq_dec x y).
Qed.

(** A filter that gains one element. *)
Lemma filter_gain (P Q : Z -> bool) x l :
  List.NoDup l -> In x l -> (forall y, y <> x -> P y = Q y) -> P x = false -> Q x = true ->
  Permutation (List.filter Q l) (List.filter P l ++ [x]).
Proof.
  intros Hn Hx Hpq Hp Hq. induction Hn as [|y l Hy Hn IH]; [done|]. cbn [List.filter].
  destruct (Z.eq_dec y x) as [->|Hne].
  - rewrite Hp, Hq. rewrite <- Permutation_cons_append. constructor.
    erewrite filter_ext_in; [done|]. intros z Hz. symmetry. apply Hpq. by intros ->.
  - destruct Hx as [->|Hx]; [done|]. rewrite <- (Hpq y Hne). destruct (P y); [|by apply IH].
    cbn [app]. constructor. by apply IH.
Qed.

Lemma remove_perm x l : List.NoDup l -> In x l -> Permutation l (List.remove Z.eq_dec x l ++ [x]).
Proof.
  induction 1 as [|y l Hy Hn IH]; [done|]. intros Hx. cbn [List.remove]. destruct (Z.eq_dec x y) as [->|Hne].
  - rewrite (notin_remove Z.eq_dec l y Hy). apply Permutation_cons_append.
  - destruct Hx as [->|Hx]; [done|]. cbn [app]. constructor. by apply IH.
Qed.

(** * The lists of the collector *)

(** [p] is linked in the list [l]. *)
Definition linked (st : GcState) (l : gc_list) (p : Z) : Prop := find_list st p = Ret l.

Lemma linked_obj st p : In p (gc_obj_list st) -> linked st GC_OBJ_LIST p.
Proof. intros H. apply existsb_In in H. unfold linked, find_list. cbn [List.find list_of]. by rewrite H. Qed.

Lemma linked_tmp st p : ~ In p (gc_obj_list st) -> In p (tmp_obj_list st) -> linked st TMP_OBJ_LIST p.
Proof.
  intros H1 H2. apply existsb_notin in H1. apply existsb_In in H2. unfold linked, find_list.
  cbn [List.find list_of]. by rewrite H1, H2.
Qed.

(** The first link of what remains of a list. *)
Definition link_of (l : gc_list) (objs : list Z) : link :=
  match objs with p :: _ => L_obj p | [] => L_head l end.

Lemma link_after_app l p objs rest : ~ In p objs -> link_after l p (objs ++ p :: rest) = link_of l rest.
Proof.
  induction objs as [|q objs IH]; intros H; cbn [app link_after].
  - by rewrite Z.eqb_refl.
  - destruct (Z.eqb_spec q p) as [->|Hne]; [by destruct H; left|]. apply IH. intros Hp. apply H. by right.
Qed.

Lemma link_next_obj st l p objs rest :
  linked st l p -> list_of st l = objs ++ p :: rest -> ~ In p objs ->
  link_next st (L_obj p) = Ret (link_of l rest).
Proof. intros H E Hn. cbn [link_next]. rewrite H. cbn [obind]. by rewrite E, link_after_app. Qed.

Lemma NoDup_mid_notin {A : Type} (l k : list A) x : List.NoDup (l ++ x :: k) -> ~ In x l.
Proof. intros H Hx. apply List.NoDup_remove_2 in H. apply H, in_or_app. by left. Qed.

Lemma NoDup_disjoint {A : Type} (l k : list A) x : List.NoDup (l ++ k) -> In x l -> In x k -> False.
Proof.
  intros H Hl Hk. apply in_split in Hk as (k1 & k2 & ->). rewrite app_assoc in H.
  apply NoDup_mid_notin in H. apply H, in_or_app. by left.
Qed.

(** The rule of a loop over a list that the body extends: [I done rest st]. *)
Lemma list_for_each_rule head body (I : list Z -> list Z -> GcState -> Prop) n :
  (forall P Q st, I P Q st -> list_of st head = P ++ Q /\ List.NoDup (P ++ Q) /\
     (length (P ++ Q) <= n)%nat /\ forall p, In p (P ++ Q) -> linked st head p) ->
  (forall P q Q st, I P (q :: Q) st -> post (body st q) (fun st' => exists Q', I (P ++ [q]) Q' st')) ->
  forall fuel P Q st, I P Q st -> (n - length P < fuel)%nat ->
  post (iter fuel (list_for_each_step head body) (link_of head Q, st)) (fun st' => exists P', I P' [] st').
Proof.
  intros HI Hbody fuel. induction fuel as [|fuel IH]; intros P Q st HPQ Hf; [lia|]. rewrite iter_S.
  destruct Q as [|q Q]; cbn [link_of list_for_each_step].
  - rewrite bool_decide_true by done. apply post_ret. by exists P.
  - pose proof (Hbody _ _ _ _ HPQ) as H. apply post_inv in H as (st' & -> & Q' & HPQ'). cbn [obind].
    destruct (HI _ _ _ HPQ') as (El & Hn & Hlen & Hlk). rewrite <- app_assoc in El, Hn, Hlen, Hlk. cbn [app] in *.
    rewrite (link_next_obj st' head q P Q'); [|by apply Hlk, in_elt|done|by eapply NoDup_mid_notin]. cbn [obind].
    apply (IH (P ++ [q])); [done|]. rewrite length_app in *. cbn [length] in *. lia.
Qed.

(** * The heap *)

Section Marking.
Variable rt : JSRuntime.

(** The children of an object, none when marking it is an error. *)
Definition kids (p : Z) : list Z := match children rt p with Ret l => l | Err _ => [] end.

(** The references the objects of a list hold. *)
Definition refs (objs : list Z) : list Z := concat (map kids objs).

Lemma refs_app l k : refs (l ++ k) = refs l ++ refs k.
Proof using. unfold refs. by rewrite map_app, concat_app. Qed.

Lemma refs_snoc l p : refs (l ++ [p]) = refs l ++ kids p.
Proof using. rewrite refs_app. unfold refs at 2. cbn [map concat]. by rewrite app_nil_r. Qed.

Lemma refs_In x l : In x (refs l) <-> exists p, In p l /\ In x (kids p).
Proof using.
  unfold refs. rewrite in_concat. split.
  - intros (k & Hk & Hx). apply in_map_iff in Hk as (p & <- & Hp). by exists p.
  - intros (p & Hp & Hx). exists (kids p). split; [by apply in_map|done].
Qed.

Lemma refs_perm l k : Permutation l k -> Permutation (refs l) (refs k).
Proof using.
  unfold refs. induction 1 as [|x l k _ IH|x y l|l k m _ IH1 _ IH2]; cbn [map concat]; [done| | |by etransitivity].
  - by apply Permutation_app_head.
  - rewrite !app_assoc. apply Permutation_app_tail, Permutation_app_comm.
Qed.

(** The objects and their reference counts before the collection. *)
Variable objs : list Z.
Variable rc : Z -> Z.

Record well_counted : Prop := {
  wc_nodup : List.NoDup objs;
  wc_kids : forall p, In p objs -> children rt p = Ret (kids p) /\ forall q, In q (kids p) -> In q objs;
  wc_refs : forall p, In p objs -> occ p (refs objs) <= rc p < 2 ^ 31
}.
Hypothesis WC : well_counted.

(** [p] is reachable from an object with a reference from outside. *)
Inductive live : Z -> Prop :=
  | live_root p : In p objs -> occ p (refs objs) < rc p -> live p
  | live_kid p q : live p -> In q (kids p) -> live q.

Lemma live_objs p : live p -> In p objs.
Proof using WC.
  induction 1 as [p Hp _|p q _ Hp Hq]; [done|]. by apply (wc_kids WC p Hp).
Qed.

(** * Subtracting the references *)

(** [p] was visited, and all its references were found. *)
Definition moved (seen done : list Z) (p : Z) : bool := existsb (Z.eqb p) seen && (rc p =? occ p done).

Record dinv (seen done : list Z) (st : GcState) : Prop := {
  di_header : forall x, In x objs ->
    headers st !! x = Some (mkHeader (rc x - occ x done) (if existsb (Z.eqb x) seen then 1 else 0));
  di_gc : gc_obj_list st = List.filter (fun x => negb (moved seen done x)) objs;
  di_tmp : Permutation (tmp_obj_list st) (List.filter (moved seen done) objs);
  di_zero : gc_zero_ref_count_list st = []
}.

Lemma get_header_some st p h : headers st !! p = Some h -> get_header st p = Ret h.
Proof using. unfold get_header. by intros ->. Qed.

Lemma lookup_set_header st p h x :
  headers (set_header st p h) !! x = if Z.eq_dec p x then Some h else headers st !! x.
Proof using. cbn [set_header headers]. destruct (Z.eq_dec p x) as [->|H]; [by rewrite lookup_insert_eq|by rewrite lookup_insert_ne]. Qed.

(** An object of the list whose count becomes zero goes to the temporary list. *)
Lemma dinv_move seen done seen' done' st st1 x :
  In x objs -> dinv seen done st ->
  gc_obj_list st1 = gc_obj_list st -> tmp_obj_list st1 = tmp_obj_list st ->
  gc_zero_ref_count_list st1 = gc_zero_ref_count_list st ->
  (forall y, In y objs ->
     headers st1 !! y = Some (mkHeader (rc y - occ y done') (if existsb (Z.eqb y) seen' then 1 else 0))) ->
  (forall y, y <> x -> moved seen done y = moved seen' done' y) ->
  moved seen done x = false ->
  (moved seen' done' x = true ->
     exists st', (let* s := list_del st1 x in Ret (list_add_tail s x TMP_OBJ_LIST)) = Ret st' /\ dinv seen' done' st') /\
  (moved seen' done' x = false -> dinv seen' done' st1).
Proof using WC.
  intros Hx [Hh Hg Ht Hz] Eg Et Ez Hh' Hm Hx0. split; intros Hx1.
  - assert (linked st1 GC_OBJ_LIST x) as Hl.
    { apply linked_obj. rewrite Eg, Hg. apply filter_In. by rewrite Hx0. }
    unfold list_del. rewrite Hl. cbn [obind]. eexists. split; [done|]. constructor.
    + intros y Hy. by apply Hh'.
    + cbn. rewrite Eg, Hg. symmetry. apply filter_remove.
      * intros y Hy. by rewrite Hm.
      * by rewrite Hx1.
    + cbn. rewrite Et, Ht. symmetry. apply filter_gain; try done. apply (wc_nodup WC).
    + cbn. by rewrite Ez.
  - constructor; [done| | |by rewrite Ez].
    + rewrite Eg, Hg. apply filter_ext. intros y. f_equal.
      destruct (Z.eq_dec y x) as [->|Hne]; [by rewrite Hx0|by apply Hm].
    + rewrite Et, Ht. erewrite filter_ext; [done|]. intros y.
      destruct (Z.eq_dec y x) as [->|Hne]; [by rewrite Hx0|by apply Hm].
Qed.

Lemma gc_decref_child_spec seen done st x :
  In x objs -> dinv seen done st -> occ x (done ++ [x]) <= rc x ->
  exists st', gc_decref_child st x = Ret st' /\ dinv seen (done ++ [x]) st'.
Proof using WC.
  intros Hx Hd Hle. pose proof (di_header _ _ _ Hd x Hx) as Hh. unfold gc_decref_child.
  rewrite (get_header_some _ _ _ Hh). cbn [obind ref_count mark].
  rewrite occ_app, occ_one in Hle. destruct (Z.eq_dec x x) as [_|]; [|done].
  pose proof (wc_refs WC x Hx) as [_ Hrc]. pose proof (occ_nonneg x done).
  destruct (Z.leb_spec (rc x - occ x done) 0); [lia|].
  assert (i32 (rc x - occ x done - 1) = rc x - occ x (done ++ [x])) as ->.
  { rewrite occ_app, occ_one, i32_small by lia. destruct (Z.eq_dec x x); [lia|done]. }
  set (st1 := set_header st x _).
  assert (moved seen done x = false) as Hx0 by (unfold moved; apply andb_false_iff; right; lia).
  pose proof (dinv_move seen done seen (done ++ [x]) st st1 x Hx Hd eq_refl eq_refl eq_refl) as [Hyes Hno].
  { intros y Hy. unfold st1. rewrite lookup_set_header. destruct (Z.eq_dec x y) as [<-|Hne]; [done|].
    rewrite (di_header _ _ _ Hd y Hy), occ_app, occ_one. destruct (Z.eq_dec x y); [done|]. do 2 f_equal. lia. }
  { intros y Hne. unfold moved. rewrite occ_app, occ_one. destruct (Z.eq_dec x y); [done|]. by rewrite Z.add_0_r. }
  { done. }
  replace ((rc x - occ x (done ++ [x]) =? 0) && _) with (moved seen (done ++ [x]) x).
  - destruct (moved seen (done ++ [x]) x); [by apply Hyes|]. exists st1. split; [done|]. by apply Hno.
  - unfold moved. rewrite andb_comm. f_equal; [lia|]. by destruct (existsb _ seen).
Qed.

Lemma gc_decref_children seen done st l :
  (forall x, In x l -> In x objs) -> dinv seen done st -> (forall x, In x objs -> occ x (done ++ l) <= rc x) ->
  exists st', ofold gc_decref_child st l = Ret st' /\ dinv seen (done ++ l) st'.
Proof using WC.
  revert done st. induction l as [|x l IH]; intros done st Hl Hd Hle; cbn [ofold].
  - exists st. by rewrite app_nil_r.
  - destruct (gc_decref_child_spec seen done st x) as (st1 & -> & Hd1); [by apply Hl; left|done| |].
    { specialize (Hle x ltac:(by apply Hl; left)). rewrite occ_app, occ_cons in Hle. rewrite occ_app, occ_one.
      pose proof (occ_nonneg x l). lia. }
    cbn [obind]. destruct (IH (done ++ [x]) st1) as (st2 & E & Hd2).
    + intros y Hy. apply Hl. by right.
    + done.
    + intros y Hy. rewrite <- app_assoc. by apply Hle.
    + exists st2. split; [done|]. by rewrite <- app_assoc in Hd2.
Qed.

Lemma refs_part seen p rest x :
  objs = seen ++ p :: rest -> occ x (refs seen ++ kids p) <= occ x (refs objs).
Proof using.
  intros ->. rewrite refs_app. unfold refs at 3. cbn [map concat]. rewrite !occ_app.
  pose proof (occ_nonneg x (concat (map kids rest))). lia.
Qed.

(** The unvisited objects are still in the list, after the others. *)
Lemma dinv_rest seen done st rest :
  objs = seen ++ rest -> dinv seen done st ->
  exists K, gc_obj_list st = K ++ rest /\ List.NoDup (K ++ rest).
Proof using WC.
  intros Eo Hd. exists (List.filter (fun x => negb (moved seen done x)) seen).
  assert (gc_obj_list st = List.filter (fun x => negb (moved seen done x)) seen ++ rest) as E.
  { rewrite (di_gc _ _ _ Hd). rewrite Eo at 1. rewrite List.filter_app. f_equal.
    apply forallb_filter_id, forallb_forall. intros y Hy. unfold moved.
    rewrite existsb_notin; [done|]. pose proof (wc_nodup WC) as Hn. rewrite Eo in Hn.
    intros Hy'. by eapply NoDup_disjoint in Hn. }
  split; [done|]. rewrite <- E, (di_gc _ _ _ Hd). by apply List.NoDup_filter, (wc_nodup WC).
Qed.

Lemma gc_decref_object_spec seen p rest st :
  objs = seen ++ p :: rest -> dinv seen (refs seen) st ->
  exists st', gc_decref_object rt st p = Ret st' /\ dinv (seen ++ [p]) (refs (seen ++ [p])) st'.
Proof using WC.
  intros Eo Hd. assert (In p objs) as Hp by (rewrite Eo; apply in_elt).
  assert (~ In p seen) as Hps by (pose proof (wc_nodup WC) as Hn; rewrite Eo in Hn; by apply NoDup_mid_notin in Hn).
  unfold gc_decref_object. rewrite (get_header_some _ _ _ (di_header _ _ _ Hd p Hp)). cbn [obind mark].
  rewrite (existsb_notin p seen Hps). cbn [Z.eqb c_assert obind].
  destruct (wc_kids WC p Hp) as [Ek Hk]. rewrite (mark_children_ofold rt gc_decref_child p _ st Ek).
  destruct (gc_decref_children seen (refs seen) st (kids p) Hk Hd) as (st1 & -> & Hd1).
  { intros x Hx. pose proof (refs_part seen p rest x Eo). pose proof (wc_refs WC x Hx). lia. }
  cbn [obind]. rewrite <- refs_snoc in Hd1. set (done := refs (seen ++ [p])) in *.
  rewrite (get_header_some _ _ _ (di_header _ _ _ Hd1 p Hp)). cbn [obind ref_count].
  set (st2 := set_header st1 p _).
  assert (moved seen done p = false) as Hp0 by (unfold moved; by rewrite existsb_notin).
  pose proof (dinv_move seen done (seen ++ [p]) done st1 st2 p Hp Hd1 eq_refl eq_refl eq_refl) as [Hyes Hno].
  { intros y Hy. unfold st2. rewrite lookup_set_header, existsb_app. cbn [existsb]. rewrite orb_false_r.
    destruct (Z.eq_dec p y) as [<-|Hne]; [by rewrite Z.eqb_refl, orb_true_r|].
    rewrite (di_header _ _ _ Hd1 y Hy). destruct (Z.eqb_spec y p); [done|]. by rewrite orb_false_r. }
  { intros y Hne. unfold moved. rewrite existsb_app. cbn [existsb]. destruct (Z.eqb_spec y p); [done|]. by rewrite !orb_false_r. }
  { done. }
  replace (rc p - occ p done =? 0) with (moved (seen ++ [p]) done p).
  - destruct (moved (seen ++ [p]) done p); [by apply Hyes|]. exists st2. split; [done|]. by apply Hno.
  - unfold moved. rewrite existsb_app. cbn [existsb]. rewrite Z.eqb_refl, orb_true_r. cbn [andb].
    pose proof (Z.eqb_spec (rc p) (occ p done)). destruct (Z.eqb_spec (rc p) (occ p done)); lia.
Qed.

Lemma link_next_rest seen done st q rest :
  objs = seen ++ q :: rest -> dinv seen done st -> link_next st (L_obj q) = Ret (link_of GC_OBJ_LIST rest).
Proof using WC.
  intros Eo Hd. destruct (dinv_rest _ _ _ _ Eo Hd) as (K & E & Hn).
  apply (link_next_obj st GC_OBJ_LIST q K rest); [|done|by eapply NoDup_mid_notin].
  apply linked_obj. rewrite E. apply in_elt.
Qed.

(** The second link is the one after the first. *)
Definition next_link (st : GcState) (rest : list Z) (el1 : link) : Prop :=
  match rest with [] => True | q :: _ => link_next st (L_obj q) = Ret el1 end.

Lemma link_next_link seen done st rest :
  objs = seen ++ rest -> dinv seen done st ->
  exists el1, link_next st (link_of GC_OBJ_LIST rest) = Ret el1 /\ next_link st rest el1.
Proof using WC.
  intros Eo Hd. destruct rest as [|q rest]; [by eexists|]. exists (link_of GC_OBJ_LIST rest).
  split; by eapply link_next_rest.
Qed.

Lemma gc_decref_loop rest : forall seen st el1 fuel,
  objs = seen ++ rest -> dinv seen (refs seen) st -> next_link st rest el1 -> (length rest < fuel)%nat ->
  exists st', iter fuel (gc_decref_step rt) (link_of GC_OBJ_LIST rest, el1, st) = Ret st' /\ dinv objs (refs objs) st'.
Proof using WC.
  induction rest as [|p rest IH]; intros seen st el1 fuel Eo Hd Hel Hf; (destruct fuel; [cbn in Hf; lia|]);
    rewrite iter_S; cbn [link_of gc_decref_step].
  - exists st. rewrite app_nil_r in Eo. by subst.
  - destruct (gc_decref_object_spec seen p rest st Eo Hd) as (st1 & -> & Hd1). cbn [obind].
    assert (el1 = link_of GC_OBJ_LIST rest) as ->.
    { cbn [next_link] in Hel. rewrite (link_next_rest _ _ _ _ _ Eo Hd) in Hel. by injection Hel. }
    assert (objs = (seen ++ [p]) ++ rest) as Eo1 by by rewrite <- app_assoc.
    destruct (link_next_link (seen ++ [p]) _ st1 rest Eo1 Hd1) as (el2 & -> & Hel2). cbn [obind].
    apply (IH (seen ++ [p])); [done..|]. cbn [length] in Hf. lia.
Qed.

Lemma gc_decref_spec st :
  gc_obj_list st = objs -> (forall p, In p objs -> headers st !! p = Some (mkHeader (rc p) 0)) ->
  gc_zero_ref_count_list st = [] ->
  exists st', gc_decref rt st = Ret st' /\ dinv objs (refs objs) st'.
Proof using WC.
  intros Eg Hh Hz. unfold gc_decref. set (st0 := set_list st TMP_OBJ_LIST []).
  assert (dinv [] (refs []) st0) as Hd.
  { constructor; cbn.
    - intros x Hx. rewrite Hh by done. by rewrite Z.sub_0_r.
    - rewrite Eg. symmetry. by apply forallb_filter_id, forallb_forall.
    - clear. induction objs; [done|]. done.
    - done. }
  replace (first_link st0 GC_OBJ_LIST) with (link_of GC_OBJ_LIST objs) by (unfold first_link; cbn; by rewrite Eg).
  destruct (link_next_link [] _ st0 objs eq_refl Hd) as (el1 & -> & Hel). cbn [obind].
  apply (gc_decref_loop objs [] st0); [done..|]. cbn. rewrite Eg. lia.
Qed.

(** * Giving the references back *)

(** [P] was scanned, [Q] waits in the list, [done] is the references given. *)
Record sinv (P Q done : list Z) (st : GcState) : Prop := {
  si_gc : gc_obj_list st = P ++ Q;
  si_perm : Permutation ((P ++ Q) ++ tmp_obj_list st) objs;
  si_in : forall x, In x objs -> (In x (P ++ Q) <-> 0 < rc x - occ x (refs objs) + occ x done);
  si_header : forall x, In x objs -> exists m,
    headers st !! x = Some (mkHeader (rc x - occ x (refs objs) + occ x done) m) /\ (In x P -> m = 0);
  si_live : forall x, In x (P ++ Q) -> live x;
  si_done : forall x, In x objs -> occ x done <= occ x (refs objs);
  si_zero : gc_zero_ref_count_list st = []
}.

Lemma gc_scan_incref_child_spec P Q done st x :
  live x -> sinv P Q done st -> occ x (done ++ [x]) <= occ x (refs objs) ->
  exists Q' st', gc_scan_incref_child st x = Ret st' /\ sinv P Q' (done ++ [x]) st'.
Proof using WC.
  intros Hl Hs Hle. pose proof (live_objs x Hl) as Hx. destruct Hs as [Eg Hp Hin Hh Hlv Hd Hz].
  destruct (Hh x Hx) as (m & Ex & Hm). unfold gc_scan_incref_child.
  rewrite (get_header_some _ _ _ Ex). cbn [obind ref_count mark].
  pose proof (wc_refs WC x Hx) as Hrc. pose proof (Hd x Hx) as Hdx. pose proof (occ_nonneg x done).
  rewrite occ_app, occ_one in Hle. destruct (Z.eq_dec x x) as [_|]; [|done].
  set (n := rc x - occ x (refs objs) + occ x done) in *.
  rewrite i32_small by lia. set (st1 := set_header st x _).
  assert (forall y, In y objs -> occ y (done ++ [x]) = if Z.eq_dec x y then occ y done + 1 else occ y done) as Hocc.
  { intros y _. rewrite occ_app, occ_one. destruct (Z.eq_dec x y); lia. }
  assert (forall y, In y objs -> occ y (done ++ [x]) <= occ y (refs objs)) as Hd1.
  { intros y Hy. rewrite Hocc by done. specialize (Hd y Hy). destruct (Z.eq_dec x y) as [<-|]; lia. }
  assert (forall y, In y objs -> y <> x -> exists m, headers st !! y =
            Some (mkHeader (rc y - occ y (refs objs) + occ y (done ++ [x])) m) /\ (In y P -> m = 0)) as Hoth.
  { intros y Hy Hne. rewrite Hocc by done. destruct (Z.eq_dec x y); [done|]. by apply Hh. }
  destruct (Z.eqb_spec (n + 1) 1) as [Hn1|Hn1].
  - (* it comes back from the temporary list *)
    assert (~ In x (P ++ Q)) as Hnx by (rewrite (Hin x Hx); lia).
    assert (In x (tmp_obj_list st)) as Ht.
    { rewrite <- Hp in Hx. apply in_app_or in Hx as [?|?]; done. }
    assert (linked st1 TMP_OBJ_LIST x) as Hlk by (apply linked_tmp; cbn; [by rewrite Eg|done]).
    unfold list_del. rewrite Hlk. cbn [obind]. exists (Q ++ [x]). eexists. split; [done|].
    assert (List.NoDup (tmp_obj_list st)) as Hnt.
    { eapply List.NoDup_app_remove_l. rewrite Hp. apply (wc_nodup WC). }
    constructor.
    + cbn. rewrite Eg. by rewrite app_assoc.
    + cbn. rewrite <- Hp at 1. rewrite (remove_perm x (tmp_obj_list st) Hnt Ht) at 2.
      rewrite app_assoc, <- !(app_assoc (P ++ Q)). apply Permutation_app_head, Permutation_app_comm.
    + intros y Hy. rewrite Hocc by done. rewrite app_assoc, in_app_iff, (Hin y Hy). cbn [In].
      destruct (Z.eq_dec x y) as [<-|]; [fold n|]; intuition lia.
    + intros y Hy. cbn [headers list_add_tail set_list]. rewrite lookup_set_header. destruct (Z.eq_dec x y) as [<-|Hne].
      * exists 0. split; [|done]. rewrite Hocc by done. destruct (Z.eq_dec x x); [|done]. do 2 f_equal. lia.
      * cbn. rewrite lookup_insert_ne by done. apply Hoth; [done|]. by intros ->.
    + intros y. rewrite app_assoc, in_app_iff. intros [Hy|[<-|[]]]; [by apply Hlv|done].
    + done.
    + done.
  - exists Q, st1. split; [done|]. constructor; try done.
    + intros y Hy. rewrite Hocc by done. rewrite (Hin y Hy). destruct (Z.eq_dec x y) as [<-|]; [fold n|]; lia.
    + intros y Hy. unfold st1. rewrite lookup_set_header. destruct (Z.eq_dec x y) as [<-|Hne].
      * exists m. split; [|done]. rewrite Hocc by done. destruct (Z.eq_dec x x); [|done]. do 2 f_equal. lia.
      * apply Hoth; [done|]. by intros ->.
Qed.

Lemma gc_scan_children P done l : forall Q st,
  (forall x, In x l -> live x) -> sinv P Q done st ->
  (forall x, In x objs -> occ x (done ++ l) <= occ x (refs objs)) ->
  exists Q' st', ofold gc_scan_incref_child st l = Ret st' /\ sinv P Q' (done ++ l) st'.
Proof using WC.
  revert done. induction l as [|x l IH]; intros done Q st Hl Hs Hle; cbn [ofold].
  - exists Q, st. by rewrite app_nil_r.
  - assert (live x) as Hx by (apply Hl; by left).
    destruct (gc_scan_incref_child_spec P Q done st x Hx Hs) as (Q1 & st1 & -> & Hs1).
    { specialize (Hle x (live_objs x Hx)). rewrite occ_app, occ_cons in Hle. rewrite occ_app, occ_one.
      pose proof (occ_nonneg x l). lia. }
    cbn [obind]. destruct (IH (done ++ [x]) Q1 st1) as (Q2 & st2 & E & Hs2).
    + intros y Hy. apply Hl. by right.
    + done.
    + intros y Hy. rewrite <- app_assoc. by apply Hle.
    + exists Q2, st2. split; [done|]. by rewrite <- app_assoc in Hs2.
Qed.

Lemma refs_le l k x : Permutation (l ++ k) objs -> occ x (refs l) <= occ x (refs objs).
Proof using.
  intros H. apply refs_perm in H. rewrite <- (occ_perm x _ _ H), refs_app, occ_app.
  pose proof (occ_nonneg x (refs k)). lia.
Qed.

Lemma gc_scan_object_spec P q Q st :
  sinv P (q :: Q) (refs P) st ->
  post (gc_scan_object rt st q) (fun st' => exists Q', sinv (P ++ [q]) Q' (refs (P ++ [q])) st').
Proof using WC.
  intros Hs. pose proof Hs as [Eg Hp Hin Hh Hlv Hd Hz].
  assert (In q (P ++ q :: Q)) as Hq by apply in_elt. pose proof (live_objs q (Hlv q Hq)) as Hqo.
  unfold gc_scan_object. destruct (Hh q Hqo) as (m & Eq & _). rewrite (get_header_some _ _ _ Eq).
  cbn [obind ref_count]. apply (Hin q Hqo) in Hq as Hpos. rewrite (proj2 (Z.ltb_lt _ _) Hpos).
  cbn [c_assert obind]. destruct (wc_kids WC q Hqo) as [Ek _].
  rewrite (mark_children_ofold rt gc_scan_incref_child q _ _ Ek). set (st1 := set_header st q _).
  assert ((P ++ [q]) ++ Q = P ++ q :: Q) as EPq by by rewrite <- app_assoc.
  assert (sinv (P ++ [q]) Q (refs P) st1) as Hs1.
  { constructor; rewrite ?EPq; try done. intros x Hx. unfold st1. rewrite lookup_set_header.
    destruct (Z.eq_dec q x) as [<-|Hne]; [by exists 0|]. destruct (Hh x Hx) as (mx & Ex & Hmx). exists mx.
    split; [done|]. intros Hi. apply in_app_iff in Hi as [?|[?|[]]]; [by apply Hmx|done]. }
  destruct (gc_scan_children (P ++ [q]) (refs P) (kids q) Q st1) as (Q' & st2 & -> & Hs2).
  - intros x Hx. eapply live_kid; [by apply Hlv|done].
  - done.
  - intros x Hx. rewrite <- refs_snoc. apply (refs_le _ (Q ++ tmp_obj_list st)).
    by rewrite app_assoc, EPq.
  - apply post_ret. exists Q'. by rewrite refs_snoc.
Qed.

(** The objects of the list after the first loop are the live ones. *)
Lemma sinv_live P st : sinv P [] (refs P) st -> forall x, In x P <-> live x.
Proof using WC.
  intros [Eg Hp Hin Hh Hlv Hd Hz] x. rewrite app_nil_r in *. split; [apply Hlv|].
  induction 1 as [p Hpo Hr|p q Hl IH Hq].
  - apply (Hin p Hpo). pose proof (occ_nonneg p (refs P)). lia.
  - pose proof (live_objs p Hl) as Hpo. assert (In q objs) as Hqo by (by apply (wc_kids WC p Hpo)).
    apply (Hin q Hqo). pose proof (wc_refs WC q Hqo).
    assert (0 < occ q (refs P)); [|lia]. apply occ_In, refs_In. by exists p.
Qed.

(** ** The second loop *)

(** The live objects [P] do not change; [T1] gave its references back. *)
Record tinv (P T1 T2 : list Z) (st : GcState) : Prop := {
  ti_gc : gc_obj_list st = P;
  ti_tmp : tmp_obj_list st = T1 ++ T2;
  ti_perm : Permutation (P ++ T1 ++ T2) objs;
  ti_header : forall x, In x objs -> exists m,
    headers st !! x = Some (mkHeader (rc x - occ x (refs objs) + occ x (refs (P ++ T1))) m) /\ (In x P -> m = 0);
  ti_zero : gc_zero_ref_count_list st = []
}.

Definition counted (P : list Z) (done : list Z) (st : GcState) : Prop :=
  forall x, In x objs -> exists m,
    headers st !! x = Some (mkHeader (rc x - occ x (refs objs) + occ x done) m) /\ (In x P -> m = 0).

Lemma incref2_children P done l st :
  (forall x, In x l -> In x objs) -> counted P done st -> (forall x, In x objs -> occ x (done ++ l) <= occ x (refs objs)) ->
  exists st', ofold gc_scan_incref_child2 st l = Ret st' /\ counted P (done ++ l) st' /\
    gc_obj_list st' = gc_obj_list st /\ tmp_obj_list st' = tmp_obj_list st /\
    gc_zero_ref_count_list st' = gc_zero_ref_count_list st.
Proof using WC.
  revert done st. induction l as [|x l IH]; intros done st Hl Hc Hle; cbn [ofold].
  - exists st. by rewrite app_nil_r.
  - assert (In x objs) as Hx by (apply Hl; by left). destruct (Hc x Hx) as (m & Ex & Hm).
    pose proof (Hle x Hx) as Hlx. rewrite occ_app, occ_cons in Hlx. destruct (Z.eq_dec x x); [|done].
    pose proof (wc_refs WC x Hx). pose proof (occ_nonneg x done). pose proof (occ_nonneg x l).
    unfold gc_scan_incref_child2 at 1. rewrite (get_header_some _ _ _ Ex). cbn [obind ref_count mark].
    rewrite i32_small by lia.
    destruct (IH (done ++ [x]) (set_header st x (mkHeader (rc x - occ x (refs objs) + occ x done + 1) m)))
      as (st2 & E & Hc2 & Eg & Et & Ez).
    + intros y Hy. apply Hl. by right.
    + intros y Hy. rewrite lookup_set_header, occ_app, occ_one. destruct (Z.eq_dec x y) as [<-|Hne].
      * exists m. split; [do 2 f_equal; lia|done].
      * rewrite Z.add_0_r. by apply Hc.
    + intros y Hy. rewrite <- app_assoc. by apply Hle.
    + exists st2. rewrite <- app_assoc in Hc2. done.
Qed.

Lemma incref2_object_spec P T1 q T2 st :
  tinv P T1 (q :: T2) st ->
  post (mark_children rt gc_scan_incref_child2 q st) (fun st' => exists T2', tinv P (T1 ++ [q]) T2' st').
Proof using WC.
  intros [Eg Et Hp Hh Hz]. assert (In q objs) as Hq by (rewrite <- Hp; apply in_or_app; right; apply in_elt).
  destruct (wc_kids WC q Hq) as [Ek Hk]. rewrite (mark_children_ofold rt gc_scan_incref_child2 q _ _ Ek).
  assert (Permutation ((P ++ T1 ++ [q]) ++ T2) objs) as Hp' by (rewrite <- Hp, <- !app_assoc; done).
  destruct (incref2_children P (refs (P ++ T1)) (kids q) st Hk Hh) as (st' & -> & Hc & Eg' & Et' & Ez').
  { intros x Hx. rewrite <- refs_snoc, <- app_assoc. by apply (refs_le _ T2). }
  apply post_ret. exists T2. constructor.
  - by rewrite Eg'.
  - rewrite Et', Et. by rewrite <- app_assoc.
  - by rewrite <- app_assoc, <- Hp.
  - intros x Hx. rewrite app_assoc, refs_snoc. by apply Hc.
  - by rewrite Ez'.
Qed.

(** ** Both loops *)

Lemma sinv_loop P Q st : sinv P Q (refs P) st ->
  list_of st GC_OBJ_LIST = P ++ Q /\ List.NoDup (P ++ Q) /\ (length (P ++ Q) <= length objs)%nat /\
  forall p, In p (P ++ Q) -> linked st GC_OBJ_LIST p.
Proof using WC.
  intros [Eg Hp _ _ _ _ _]. split; [done|]. split; [|split].
  - eapply List.NoDup_app_remove_r. rewrite Hp. apply (wc_nodup WC).
  - rewrite <- Hp, (length_app (P ++ Q)). lia.
  - intros p Hi. apply linked_obj. by rewrite Eg.
Qed.

Lemma tinv_loop P T1 T2 st : tinv P T1 T2 st ->
  list_of st TMP_OBJ_LIST = T1 ++ T2 /\ List.NoDup (T1 ++ T2) /\ (length (T1 ++ T2) <= length objs)%nat /\
  forall p, In p (T1 ++ T2) -> linked st TMP_OBJ_LIST p.
Proof using WC.
  intros [Eg Et Hp _ _]. assert (List.NoDup (P ++ T1 ++ T2)) as Hn by (rewrite Hp; apply (wc_nodup WC)).
  split; [done|]. split; [|split].
  - by eapply List.NoDup_app_remove_l.
  - rewrite <- Hp, (length_app P). lia.
  - intros p Hi. apply linked_tmp; [|by rewrite Et]. rewrite Eg. intros Hi'. exact (NoDup_disjoint _ _ p Hn Hi' Hi).
Qed.

Lemma filter_split (f : Z -> bool) l : Permutation (List.filter (fun x => negb (f x)) l ++ List.filter f l) l.
Proof using.
  induction l as [|x l IH]; [done|]. cbn [List.filter]. destruct (f x); cbn [negb app]; [|by constructor].
  rewrite <- Permutation_middle. by constructor.
Qed.

Lemma dinv_sinv st : dinv objs (refs objs) st -> sinv [] (gc_obj_list st) (refs []) st.
Proof using WC.
  intros [Hh Hg Ht Hz].
  assert (forall x, In x objs -> moved objs (refs objs) x = (rc x =? occ x (refs objs))) as Hm.
  { intros x Hx. unfold moved. apply existsb_In in Hx. by rewrite Hx. }
  assert (forall x, In x (gc_obj_list st) <-> In x objs /\ rc x <> occ x (refs objs)) as Hin.
  { intros x. rewrite Hg, filter_In. split; intros [Hx Hx']; split; try done; revert Hx'; rewrite (Hm x Hx);
      destruct (Z.eqb_spec (rc x) (occ x (refs objs))); done. }
  constructor; cbn [app].
  - done.
  - rewrite Hg, Ht. apply filter_split.
  - intros x Hx. rewrite Hin. pose proof (wc_refs WC x Hx). change (occ x (refs [])) with 0. intuition lia.
  - intros x Hx. eexists. split; [|by intros []]. rewrite Hh by done. change (occ x (refs [])) with 0.
    rewrite Z.add_0_r. reflexivity.
  - intros x Hx. apply Hin in Hx as [Hx Hne]. apply live_root; [done|]. pose proof (wc_refs WC x Hx). lia.
  - intros x _. change (occ x (refs [])) with 0. apply occ_nonneg.
  - done.
Qed.

Lemma gc_mark_phase_spec st :
  gc_obj_list st = objs -> (forall p, In p objs -> headers st !! p = Some (mkHeader (rc p) 0)) ->
  gc_zero_ref_count_list st = [] ->
  post (gc_mark_phase rt st) (fun st' => gc_zero_ref_count_list st' = [] /\
    Permutation (gc_obj_list st' ++ tmp_obj_list st') objs /\
    (forall p, In p (gc_obj_list st') <-> live p) /\
    forall p, In p objs -> exists m, headers st' !! p = Some (mkHeader (rc p) m) /\ (live p -> m = 0)).
Proof using WC.
  intros Eg Hh Hz. unfold gc_mark_phase. destruct (gc_decref_spec st Eg Hh Hz) as (st1 & -> & Hd). cbn [obind].
  rewrite Eg. apply dinv_sinv in Hd. unfold gc_scan.
  change (first_link st1 GC_OBJ_LIST) with (link_of GC_OBJ_LIST (gc_obj_list st1)).
  apply post_bind. eapply post_mono.
  { apply (list_for_each_rule GC_OBJ_LIST _ (fun P Q st => sinv P Q (refs P) st) (length objs)
      sinv_loop gc_scan_object_spec _ [] _ st1 Hd). cbn. lia. }
  intros st2 (P & Hs). pose proof (sinv_live P st2 Hs) as Hlv. destruct Hs as [Eg2 Hp2 _ Hh2 _ _ Hz2].
  rewrite app_nil_r in *.
  assert (tinv P [] (tmp_obj_list st2) st2) as Ht by (constructor; cbn [app]; rewrite ?app_nil_r; done).
  change (first_link st2 TMP_OBJ_LIST) with (link_of TMP_OBJ_LIST (tmp_obj_list st2)).
  eapply post_mono.
  { apply (list_for_each_rule TMP_OBJ_LIST _ (tinv P) (length objs) (tinv_loop P) (incref2_object_spec P) _ [] _ st2 Ht).
    cbn. lia. }
  intros st3 (T & [Eg3 Et3 Hp3 Hh3 Hz3]). rewrite app_nil_r in *. rewrite Eg3, Et3. split; [done|]. split; [done|]. split; [done|].
  intros p Hpo. destruct (Hh3 p Hpo) as (m & -> & Hm). exists m. split; [|by rewrite <- Hlv].
  do 2 f_equal. rewrite (occ_perm p _ _ (refs_perm _ _ Hp3)). lia.
Qed.
End Marking.

(** * The specification *)

(** The reference count of an object. *)
Definition count_of (st : GcState) (p : Z) : Z :=
  match headers st !! p with Some h => ref_count h | None => 0 end.

(** A heap between two collections: the objects are linked once, no object waits
    to be freed, the children can be visited and are linked, their marks are reset and their reference
    counts cover the references the objects hold. *)
Definition heap_ok (rt : JSRuntime) (st : GcState) : bool :=
  let objs := gc_obj_list st in
  bool_decide (NoDup objs) && bool_decide (gc_zero_ref_count_list st = []) &&
  forallb (fun p => match children rt p with
                    | Ret l => forallb (fun q => existsb (Z.eqb q) objs) l
                    | Err _ => false
                    end) objs &&
  forallb (fun p => match headers st !! p with
                    | Some h => (mark h =? 0) && (occ p (refs rt objs) <=? ref_count h) && (ref_count h <? 2 ^ 31)
                    | None => false
                    end) objs.

Lemma heap_ok_counted rt st :
  heap_ok rt st = true -> well_counted rt (gc_obj_list st) (count_of st) /\
  (forall p, In p (gc_obj_list st) -> headers st !! p = Some (mkHeader (count_of st p) 0)) /\
  gc_zero_ref_count_list st = [].
Proof.
  unfold heap_ok. set (objs := gc_obj_list st). intros H. apply andb_true_iff in H as [H Hc].
  apply andb_true_iff in H as [H Hk]. apply andb_true_iff in H as [Hn Hz]. apply bool_decide_eq_true in Hn, Hz.
  rewrite forallb_forall in Hk, Hc. split; [|split; [|done]].
  - constructor.
    + by apply NoDup_ListNoDup.
    + intros p Hp. specialize (Hk p Hp). unfold kids. destruct (children rt p) as [l|]; [|done]. split; [done|].
      rewrite forallb_forall in Hk. intros q Hq. by apply existsb_In, Hk.
    + intros p Hp. specialize (Hc p Hp). unfold count_of. destruct (headers st !! p); [lia|done].
  - intros p Hp. specialize (Hc p Hp). unfold count_of. destruct (headers st !! p) as [[n m]|]; [|done].
    cbn [ref_count mark] in *. do 2 f_equal. lia.
Qed.

(** [p] is reachable in the object graph from an object referenced from outside
    the heap: one whose count exceeds the references the objects hold. *)
Definition is_live (rt : JSRuntime) (st : GcState) (p : Z) : Prop := live rt (gc_obj_list st) (count_of st) p.

(** C3: The marking of [JS_RunGC], [gc_decref] then [gc_scan], on a well-counted
    heap: no assertion fails, no object is taken out of a list it is not in, and
    the loops, which move objects between the lists they run over, end.  The
    object list then holds the objects reachable from outside, the temporary
    list all the others, each object once; every reference count is the one
    before the marking, and the marks of the live objects are reset. *)
Theorem gc_marks_unreachable rt st :
  heap_ok rt st = true ->
  post (gc_mark_phase rt st) (fun st' =>
    Permutation (gc_obj_list st' ++ tmp_obj_list st') (gc_obj_list st) /\
    (forall p, In p (gc_obj_list st') <-> is_live rt st p) /\
    forall p, In p (gc_obj_list st) ->
      exists m, headers st' !! p = Some (mkHeader (count_of st p) m) /\ (is_live rt st p -> m = 0)).
Proof.
  intros H. apply heap_ok_counted in H as (Hwc & Hh & Hz). eapply post_mono; [by apply gc_mark_phase_spec|].
  by intros st' [_ H].
Qed.

(** Two objects that refer to each other, a shape they share, and a global
    object with a property and the shape of it. *)
Definition example_heap : JSRuntime :=
  let obj sh props := GC_JS_OBJECT (mkJSObject JS_CLASS_OBJECT sh props U_null) in
  let ref p := P_value (JS_MKPTR JS_TAG_OBJECT p) in
  let shape1 := GC_SHAPE (mkJSShape false false 0 3 2 1 0 None None [0; 0; 1; 0] [mkJSShapeProperty 0 7 50]) in
  mkJSRuntime (list_to_map [(1, obj 2 [ref 3]); (2, shape1); (3, obj 2 [ref 1]); (4, obj 5 [ref 6]); (5, shape1);
                            (6, obj 5 [P_value JS_UNDEFINED])]) 0 (fun _ => None) (fun _ => None).

Definition example_state : GcState :=
  let h n := mkHeader n 0 in
  mkGcState (list_to_map [(1, h 1); (2, h 2); (3, h 1); (4, h 1); (5, h 2); (6, h 1)]) [1; 2; 3; 4; 5; 6] [] [].

Lemma gc_marks_unreachable_witness :
  heap_ok example_heap example_state = true /\
  (let* st := gc_mark_phase example_heap example_state in Ret (gc_obj_list st, tmp_obj_list st))
    = Ret ([4; 5; 6], [2; 1; 3]) /\
  post (gc_mark_phase example_heap example_state) (fun st' =>
    Permutation (gc_obj_list st' ++ tmp_obj_list st') [1; 2; 3; 4; 5; 6] /\
    (forall p, In p (gc_obj_list st') <-> is_live example_heap example_state p) /\
    forall p, In p [1; 2; 3; 4; 5; 6] ->
      exists m, headers st' !! p = Some (mkHeader (count_of example_state p) m) /\
        (is_live example_heap example_state p -> m = 0)).
Proof.
  split; [vm_compute; reflexivity|]. split; [vm_compute; reflexivity|].
  apply (gc_marks_unreachable example_heap example_state). vm_compute. reflexivity.
Defined.
