(* ===== verification/GcFree.v ===== *)
(** The freeing of objects.

    What an object releases is written once, over the operations that release a
    reference ([Release]): the finalizers of the classes, the properties, the
    functions and the contexts.  The runtime gives these operations their
    effect on the reference counts and the lists; another instance collects the
    references.

    The runtime: freed memory is no longer in [gc_objects] and an access to it is
    an error.  The calls to the parts of the engine that are not modelled here,
    atoms, strings, big integers, array buffers and the table of the shapes, are
    recorded in order. *)
From Stdlib Require Import ZArith Lia Bool List.
From stdpp Require Import base tactics list numbers gmap.
From S2P Require Import Prelude GcObject Gc.

Definition JS_TAG_BIG_INT : Z := -9.
Definition JS_TAG_SYMBOL : Z := -8.

(** The calls to other parts: releasing a reference to a string, a symbol or a
    big integer, or duplicating it, and freeing an atom; a shape leaves the table
    of the shapes, a map record loses its iterator, a typed array leaves its
    buffer, the data of a buffer is freed. *)
Inductive free_call : Type :=
  | C_free_leaf (v : JSValue)
  | C_dup_leaf (v : JSValue)
  | C_JS_FreeAtomRT (a : Z)
  | C_js_shape_hash_unlink (sh : Z)
  | C_map_decref_record (mr : Z)
  | C_typed_array_unlink (buffer : Z)
  | C_free_array_buffer
  | C_free_resolved.

(** A weak reference to an object, in the list of the object: the record [mr] of
    the map [obj], the object of class [WeakRef], the entry [fre] of the registry
    [obj]. *)
Inductive JSWeakRefRecord : Type :=
  | WR_map_record (obj mr : Z)
  | WR_weak_ref_data (obj : Z)
  | WR_fin_rec_entry (obj fre : Z).
#[export] Instance JSWeakRefRecord_eq_dec : EqDecision JSWeakRefRecord.
Proof. solve_decision. Defined.

(** * The operations that release a reference *)

Class Release (S : Type) : Type := mkRelease {
  release_value : S -> JSValue -> outcome S; (* [JS_FreeValueRT] *)
  release_var_ref : S -> option Z -> outcome S; (* [free_var_ref] *)
  release_shape : S -> Z -> outcome S; (* [js_free_shape] *)
  release_context : S -> Z -> outcome S; (* [JS_FreeContext] *)
  release_async_function : S -> Z -> outcome S; (* [js_async_function_free] *)
  close_frame : S -> Z -> outcome S; (* [close_var_refs] *)
  drop_weak_ref : S -> JSValue -> JSWeakRefRecord -> outcome S; (* unlinks a weak reference to the value *)
  is_live_object : S -> JSValue -> bool; (* [JS_IsLiveObject] *)
  record_call : S -> free_call -> S
}.

(** * What the objects release *)

Section Bodies.
Context {S : Type} `{R : !Release S}.

Definition release_ptr (tag : Z) (st : S) (p : option Z) : outcome S :=
  match p with Some p => release_value st (JS_MKPTR tag p) | None => Ret st end.

Definition release_values (st : S) (vals : list JSValue) : outcome S := ofold release_value st vals.

(** [for(i = 0; i < n; i++) JS_FreeValueRT(rt, vals[i])]. *)
Definition release_array (st : S) (vals : list JSValue) (n : Z) : outcome S :=
  ofold (fun st i => let* v := rd vals i in release_value st v) st (seqZ 0 n).

Definition release_context_opt (st : S) (ctx : option Z) : outcome S :=
  match ctx with Some ctx => release_context st ctx | None => Ret st end.

Definition js_free_shape_null (st : S) (sh : option Z) : outcome S :=
  match sh with Some sh => release_shape st sh | None => Ret st end.

Definition js_autoinit_free (st : S) (realm : Z) : outcome S := release_context st realm.

Definition free_property (st : S) (pr : JSProperty) (prop_flags : Z) : outcome S :=
  let t := Z.land prop_flags JS_PROP_TMASK in
  if negb (t =? 0) then
    if t =? JS_PROP_GETSET then
      match pr with
      | P_getset getter setter =>
          let* st := release_ptr JS_TAG_OBJECT st getter in release_ptr JS_TAG_OBJECT st setter
      | _ => Err OutOfBounds
      end
    else if t =? JS_PROP_VARREF then
      match pr with P_var_ref p => release_var_ref st (Some p) | _ => Err OutOfBounds end
    else if t =? JS_PROP_AUTOINIT then
      match pr with P_init realm => js_autoinit_free st realm | _ => Err OutOfBounds end
    else Ret st
  else match pr with P_value v => release_value st v | _ => Err OutOfBounds end.

(** The loop over the properties of [free_object]. *)
Definition free_properties (p : JSObject) (sh : JSShape) (st : S) : outcome S :=
  ofold (fun st i =>
    let* pr := rd (shape_prop sh) i in
    let* v := rd (prop p) i in
    free_property st v (flags pr)) st (seqZ 0 (prop_count sh)).

(** ** The finalizers of the classes *)

Definition js_array_finalizer (p : JSObject) (st : S) : outcome S :=
  match u p with U_array values count => release_array st values count | _ => Err OutOfBounds end.

Definition js_object_data_finalizer (p : JSObject) (st : S) : outcome S :=
  match u p with U_object_data v => release_value st v | _ => Err OutOfBounds end.

Definition js_c_function_finalizer (p : JSObject) (st : S) : outcome S :=
  match u p with U_cfunc realm => release_context_opt st realm | _ => Err OutOfBounds end.

Definition js_bytecode_function_finalizer (code : Z -> outcome JSFunctionBytecode) (p : JSObject) (st : S) : outcome S :=
  match u p with
  | U_func b var_refs home_object =>
      let* st := release_ptr JS_TAG_OBJECT st home_object in
      match b with
      | Some b =>
          let* st := match var_refs with
                     | Some var_refs =>
                         let* c := code b in
                         ofold (fun st i => let* r := rd var_refs i in release_var_ref st r)
                           st (seqZ 0 (closure_var_count c))
                     | None => Ret st
                     end in
          release_value st (JS_MKPTR JS_TAG_FUNCTION_BYTECODE b)
      | None => Ret st
      end
  | _ => Err OutOfBounds
  end.

Definition js_bound_function_finalizer (p : JSObject) (st : S) : outcome S :=
  match u p with
  | U_bound_function func_obj this_val argv argc =>
      let* st := release_value st func_obj in
      let* st := release_value st this_val in
      release_array st argv argc
  | _ => Err OutOfBounds
  end.

Definition js_c_function_data_finalizer (p : JSObject) (st : S) : outcome S :=
  match JS_GetOpaque p JS_CLASS_C_FUNCTION_DATA with
  | U_null => Ret st
  | U_c_function_data data data_len => release_array st data data_len
  | _ => Err OutOfBounds
  end.

Definition js_for_in_iterator_finalizer (p : JSObject) (st : S) : outcome S :=
  match u p with U_for_in_iterator obj => release_value st obj | _ => Err OutOfBounds end.

Definition js_regexp_finalizer (p : JSObject) (st : S) : outcome S :=
  match u p with
  | U_regexp bytecode pattern => release_values st [JS_MKPTR JS_TAG_STRING bytecode; JS_MKPTR JS_TAG_STRING pattern]
  | _ => Err OutOfBounds
  end.

Definition js_array_buffer_finalizer (p : JSObject) (st : S) : outcome S :=
  match u p with
  | U_null => Ret st
  | U_array_buffer => Ret (record_call st C_free_array_buffer)
  | _ => Err OutOfBounds
  end.

Definition js_typed_array_finalizer (p : JSObject) (st : S) : outcome S :=
  match u p with
  | U_null => Ret st
  | U_typed_array buffer =>
      release_value (record_call st (C_typed_array_unlink buffer)) (JS_MKPTR JS_TAG_OBJECT buffer)
  | _ => Err OutOfBounds
  end.

(** [obj] is the address of the map. *)
Definition js_map_finalizer (obj : Z) (p : JSObject) (st : S) : outcome S :=
  match u p with
  | U_null => Ret st
  | U_map_state s =>
      ofold (fun st mr =>
        if negb (mr_empty mr) then
          let* st := if is_weak s then drop_weak_ref st (mr_key mr) (WR_map_record obj (mr_id mr))
                     else release_value st (mr_key mr) in
          release_value st (mr_value mr)
        else Ret st) st (records s)
  | _ => Err OutOfBounds
  end.

Definition js_map_iterator_finalizer (p : JSObject) (st : S) : outcome S :=
  match u p with
  | U_null => Ret st
  | U_map_iterator obj cur_record =>
      let st := match cur_record with
                | Some mr => if is_live_object st obj then record_call st (C_map_decref_record mr) else st
                | None => st
                end in
      release_value st obj
  | _ => Err OutOfBounds
  end.

Definition js_array_iterator_finalizer (p : JSObject) (st : S) : outcome S :=
  match u p with U_null => Ret st | U_array_iterator obj => release_value st obj | _ => Err OutOfBounds end.

Definition js_iterator_helper_finalizer (p : JSObject) (st : S) : outcome S :=
  match u p with
  | U_null => Ret st
  | U_iterator_helper obj func next inner => release_values st [obj; func; next; inner]
  | _ => Err OutOfBounds
  end.

Definition js_iterator_wrap_finalizer (p : JSObject) (st : S) : outcome S :=
  match u p with
  | U_null => Ret st
  | U_iterator_wrap wrapped_iter wrapped_next => release_values st [wrapped_iter; wrapped_next]
  | _ => Err OutOfBounds
  end.

Definition js_regexp_string_iterator_finalizer (p : JSObject) (st : S) : outcome S :=
  match u p with
  | U_null => Ret st
  | U_regexp_string_iterator iterating_regexp iterated_string =>
      release_values st [iterating_regexp; iterated_string]
  | _ => Err OutOfBounds
  end.

Definition async_func_free (s : JSAsyncFunctionState) (st : S) : outcome S :=
  let* st := close_frame st (frame s) in
  let* st := if has_arg_buf s then
               match stack s with
               | Some vals => release_values st vals
               | None => Err AssertFail
               end
             else Ret st in
  let* st := release_value st (cur_func s) in
  release_value st (this_val s).

Definition js_generator_finalizer (p : JSObject) (st : S) : outcome S :=
  match JS_GetOpaque p JS_CLASS_GENERATOR with
  | U_null => Ret st
  | U_generator JS_GENERATOR_STATE_COMPLETED _ => Ret st
  | U_generator _ s => async_func_free s st
  | _ => Err OutOfBounds
  end.

Definition js_async_function_resolve_finalizer (p : JSObject) (st : S) : outcome S :=
  match u p with U_null => Ret st | U_async_function s => release_async_function st s | _ => Err OutOfBounds end.

Definition js_async_generator_finalizer (p : JSObject) (st : S) : outcome S :=
  match JS_GetOpaque p JS_CLASS_ASYNC_GENERATOR with
  | U_null => Ret st
  | U_async_generator state s queue =>
      let* st := ofold (fun st req =>
        release_values st [result req; req_promise req; fst (req_resolving_funcs req); snd (req_resolving_funcs req)])
        st queue in
      match state with
      | JS_ASYNC_GENERATOR_STATE_COMPLETED | JS_ASYNC_GENERATOR_STATE_AWAITING_RETURN => Ret st
      | _ => async_func_free s st
      end
  | _ => Err OutOfBounds
  end.

Definition js_proxy_finalizer (p : JSObject) (st : S) : outcome S :=
  match JS_GetOpaque p JS_CLASS_PROXY with
  | U_null => Ret st
  | U_proxy target handler => release_values st [target; handler]
  | _ => Err OutOfBounds
  end.

Definition promise_reaction_data_free (st : S) (r : JSPromiseReactionData) : outcome S :=
  release_values st [fst (rd_resolving_funcs r); snd (rd_resolving_funcs r); handler r].

Definition js_promise_finalizer (p : JSObject) (st : S) : outcome S :=
  match JS_GetOpaque p JS_CLASS_PROMISE with
  | U_null => Ret st
  | U_promise reactions promise_result =>
      let* st := ofold (fun st i => let* l := rd reactions i in ofold promise_reaction_data_free st l) st (seqZ 0 2) in
      release_value st promise_result
  | _ => Err OutOfBounds
  end.

Definition js_promise_resolve_function_finalizer (p : JSObject) (st : S) : outcome S :=
  match u p with
  | U_null => Ret st
  | U_promise_function promise => release_value (record_call st C_free_resolved) promise
  | _ => Err OutOfBounds
  end.

Definition js_async_from_sync_iterator_finalizer (p : JSObject) (st : S) : outcome S :=
  match JS_GetOpaque p JS_CLASS_ASYNC_FROM_SYNC_ITERATOR with
  | U_null => Ret st
  | U_async_from_sync_iterator sync_iter next_method => release_values st [sync_iter; next_method]
  | _ => Err OutOfBounds
  end.

Definition js_weakref_finalizer (obj : Z) (p : JSObject) (st : S) : outcome S :=
  match JS_GetOpaque p JS_CLASS_WEAK_REF with
  | U_null | U_weak_ref_sentinel => Ret st
  | U_weak_ref target => drop_weak_ref st target (WR_weak_ref_data obj)
  | _ => Err OutOfBounds
  end.

Definition js_finrec_finalizer (obj : Z) (p : JSObject) (st : S) : outcome S :=
  match JS_GetOpaque p JS_CLASS_FINALIZATION_REGISTRY with
  | U_null => Ret st
  | U_finrec cb entries =>
      let* st := ofold (fun st fre => drop_weak_ref st (fre_target fre) (WR_fin_rec_entry obj (fre_id fre))) st entries in
      let* st := ofold (fun st fre => release_values st [held_val fre; token fre]) st entries in
      release_value st cb
  | _ => Err OutOfBounds
  end.

Definition js_callsite_finalizer (p : JSObject) (st : S) : outcome S :=
  match JS_GetOpaque p JS_CLASS_CALL_SITE with
  | U_null => Ret st
  | U_callsite filename func func_name => release_values st [filename; func; func_name]
  | _ => Err OutOfBounds
  end.

Definition host_class_finalizer (f : Z -> list JSValue) (p : JSObject) (st : S) : outcome S :=
  match u p with U_host opaque => release_values st (f opaque) | _ => Err OutOfBounds end.

(** [rt->class_array[class_id].finalizer]; [obj] is the address of the object. *)
Definition class_finalizer (rt : JSRuntime) (code : Z -> outcome JSFunctionBytecode) (obj id : Z)
    : option (JSObject -> S -> outcome S) :=
  let mem := existsb (Z.eqb id) in
  if mem [JS_CLASS_ARRAY; JS_CLASS_ARGUMENTS] then Some js_array_finalizer
  else if mem [JS_CLASS_NUMBER; JS_CLASS_STRING; JS_CLASS_BOOLEAN; JS_CLASS_SYMBOL; JS_CLASS_DATE; JS_CLASS_BIG_INT]
  then Some js_object_data_finalizer
  else if id =? JS_CLASS_C_FUNCTION then Some js_c_function_finalizer
  else if mem [JS_CLASS_BYTECODE_FUNCTION; JS_CLASS_GENERATOR_FUNCTION; JS_CLASS_ASYNC_FUNCTION;
               JS_CLASS_ASYNC_GENERATOR_FUNCTION] then Some (js_bytecode_function_finalizer code)
  else if id =? JS_CLASS_BOUND_FUNCTION then Some js_bound_function_finalizer
  else if id =? JS_CLASS_C_FUNCTION_DATA then Some js_c_function_data_finalizer
  else if id =? JS_CLASS_FOR_IN_ITERATOR then Some js_for_in_iterator_finalizer
  else if id =? JS_CLASS_REGEXP then Some js_regexp_finalizer
  else if mem [JS_CLASS_ARRAY_BUFFER; JS_CLASS_SHARED_ARRAY_BUFFER] then Some js_array_buffer_finalizer
  else if (JS_CLASS_UINT8C_ARRAY <=? id) && (id <=? JS_CLASS_DATAVIEW) then Some js_typed_array_finalizer
  else if mem [JS_CLASS_MAP; JS_CLASS_SET; JS_CLASS_WEAKMAP; JS_CLASS_WEAKSET] then Some (js_map_finalizer obj)
  else if id =? JS_CLASS_ITERATOR_HELPER then Some js_iterator_helper_finalizer
  else if id =? JS_CLASS_ITERATOR_WRAP then Some js_iterator_wrap_finalizer
  else if mem [JS_CLASS_MAP_ITERATOR; JS_CLASS_SET_ITERATOR] then Some js_map_iterator_finalizer
  else if mem [JS_CLASS_ARRAY_ITERATOR; JS_CLASS_STRING_ITERATOR] then Some js_array_iterator_finalizer
  else if id =? JS_CLASS_REGEXP_STRING_ITERATOR then Some js_regexp_string_iterator_finalizer
  else if id =? JS_CLASS_GENERATOR then Some js_generator_finalizer
  else if id =? JS_CLASS_PROXY then Some js_proxy_finalizer
  else if id =? JS_CLASS_PROMISE then Some js_promise_finalizer
  else if mem [JS_CLASS_PROMISE_RESOLVE_FUNCTION; JS_CLASS_PROMISE_REJECT_FUNCTION]
  then Some js_promise_resolve_function_finalizer
  else if mem [JS_CLASS_ASYNC_FUNCTION_RESOLVE; JS_CLASS_ASYNC_FUNCTION_REJECT]
  then Some js_async_function_resolve_finalizer
  else if id =? JS_CLASS_ASYNC_FROM_SYNC_ITERATOR then Some js_async_from_sync_iterator_finalizer
  else if id =? JS_CLASS_ASYNC_GENERATOR then Some js_async_generator_finalizer
  else if id =? JS_CLASS_WEAK_REF then Some (js_weakref_finalizer obj)
  else if id =? JS_CLASS_FINALIZATION_REGISTRY then Some (js_finrec_finalizer obj)
  else if id =? JS_CLASS_CALL_SITE then Some js_callsite_finalizer
  else if id <? JS_CLASS_INIT_COUNT then None
  else match host_finalizer rt id with Some f => Some (host_class_finalizer f) | None => None end.

Definition call_finalizer (rt : JSRuntime) (code : Z -> outcome JSFunctionBytecode) (obj : Z) (p : JSObject) (st : S)
    : outcome S :=
  match class_finalizer rt code obj (class_id p) with Some f => f p st | None => Ret st end.

(** ** Functions, contexts, shapes *)

Definition free_ic (cache : list (list (option Z))) (st : S) : outcome S := ofold (ofold js_free_shape_null) st cache.

(** What [free_function_bytecode] releases. *)
Definition free_bytecode_refs (b : JSFunctionBytecode) (st : S) : outcome S :=
  let* st := match ic b with Some cache => free_ic cache st | None => Ret st end in
  let* st := release_array st (cpool b) (cpool_count b) in
  release_context_opt st (b_realm b).

Definition js_free_module_def (m : JSModuleDef) (st : S) : outcome S :=
  let* st := ofold (fun st '(is_local, var_ref) => if is_local : bool then release_var_ref st var_ref else Ret st)
               st (export_entries m) in
  release_values st [module_ns m; func_obj m; eval_exception m; meta_obj m; m_promise m;
                     fst (m_resolving_funcs m); snd (m_resolving_funcs m)].

(** What [JS_FreeContext] releases. *)
Definition free_context_refs (n_classes : Z) (ctx : JSContext) (st : S) : outcome S :=
  let* st := ofold (fun st m => js_free_module_def m st) st (loaded_modules ctx) in
  let* st := release_values st [global_obj ctx; global_var_obj ctx; throw_type_error ctx; eval_obj ctx;
                                array_proto_values ctx] in
  let* st := release_array st (native_error_proto ctx) JS_NATIVE_ERROR_COUNT in
  let* st := release_values st [error_ctor ctx; error_prepare_stack ctx] in
  let* st := release_array st (class_proto ctx) n_classes in
  let* st := release_values st [iterator_ctor ctx; async_iterator_proto ctx; promise_ctor ctx; array_ctor ctx;
                                regexp_ctor ctx; function_ctor ctx; function_proto ctx] in
  js_free_shape_null st (array_shape ctx).

(** What [js_async_function_free0] releases: [js_async_function_terminate], then
    the two functions. *)
Definition free_async_refs (s : JSAsyncFunctionData) (st : S) : outcome S :=
  let* st := if is_active s then async_func_free (a_func_state s) st else Ret st in
  release_values st [fst (a_resolving_funcs s); snd (a_resolving_funcs s)].

(** What [js_free_shape0] releases. *)
Definition free_shape_refs (obj : Z) (sh : JSShape) (st : S) : outcome S :=
  let st := if is_hashed sh then record_call st (C_js_shape_hash_unlink obj) else st in
  let* st := release_ptr JS_TAG_OBJECT st (proto sh) in
  ofold (fun st i => let* pr := rd (shape_prop sh) i in Ret (record_call st (C_JS_FreeAtomRT (atom pr))))
    st (seqZ 0 (prop_count sh)).
End Bodies.

(** * The runtime *)

Inductive JSGCPhaseEnum : Type := JS_GC_PHASE_NONE | JS_GC_PHASE_DECREF | JS_GC_PHASE_REMOVE_CYCLES.
#[export] Instance JSGCPhaseEnum_eq_dec : EqDecision JSGCPhaseEnum.
Proof. solve_decision. Defined.

(** [mem] is the memory; [frames] the list [var_ref_list] of every stack frame,
    [weak_refs] the list [first_weak_ref] of every object and symbol, [jobs] the
    arguments of the jobs, [calls] the recorded calls. *)
Record FreeState : Type := mkFreeState {
  mem : JSRuntime;
  gc : GcState;
  gc_phase : JSGCPhaseEnum;
  in_free : bool;
  free_marks : gset Z;
  frames : gmap Z (list Z);
  weak_refs : gmap Z (list JSWeakRefRecord);
  jobs : list (list JSValue);
  calls : list free_call
}.

Definition set_mem (st : FreeState) (m : JSRuntime) : FreeState :=
  mkFreeState m (gc st) (gc_phase st) (in_free st) (free_marks st) (frames st) (weak_refs st) (jobs st) (calls st).
Definition set_gc (st : FreeState) (g : GcState) : FreeState :=
  mkFreeState (mem st) g (gc_phase st) (in_free st) (free_marks st) (frames st) (weak_refs st) (jobs st) (calls st).
Definition set_phase (st : FreeState) (ph : JSGCPhaseEnum) : FreeState :=
  mkFreeState (mem st) (gc st) ph (in_free st) (free_marks st) (frames st) (weak_refs st) (jobs st) (calls st).
Definition set_free_mark (st : FreeState) (p : Z) : FreeState :=
  mkFreeState (mem st) (gc st) (gc_phase st) (in_free st) ({[p]} ∪ free_marks st) (frames st) (weak_refs st) (jobs st)
    (calls st).
Definition set_frames (st : FreeState) (f : gmap Z (list Z)) : FreeState :=
  mkFreeState (mem st) (gc st) (gc_phase st) (in_free st) (free_marks st) f (weak_refs st) (jobs st) (calls st).
Definition set_weak_refs (st : FreeState) (w : gmap Z (list JSWeakRefRecord)) : FreeState :=
  mkFreeState (mem st) (gc st) (gc_phase st) (in_free st) (free_marks st) (frames st) w (jobs st) (calls st).
Definition add_job (st : FreeState) (args : list JSValue) : FreeState :=
  mkFreeState (mem st) (gc st) (gc_phase st) (in_free st) (free_marks st) (frames st) (weak_refs st)
    (jobs st ++ [args]) (calls st).
Definition add_free_call (st : FreeState) (c : free_call) : FreeState :=
  mkFreeState (mem st) (gc st) (gc_phase st) (in_free st) (free_marks st) (frames st) (weak_refs st) (jobs st)
    (calls st ++ [c]).

Definition with_objects (rt : JSRuntime) (m : gmap Z gc_object) : JSRuntime :=
  mkJSRuntime m (class_count rt) (host_gc_mark rt) (host_finalizer rt).
Definition with_headers (g : GcState) (h : gmap Z JSGCObjectHeader) : GcState :=
  mkGcState h (gc_obj_list g) (tmp_obj_list g) (gc_zero_ref_count_list g).

Definition get_gc_object (st : FreeState) (p : Z) : outcome gc_object :=
  match gc_objects (mem st) !! p with Some o => Ret o | None => Err OutOfBounds end.
Definition put_gc_object (st : FreeState) (p : Z) (o : gc_object) : FreeState :=
  set_mem st (with_objects (mem st) (<[p := o]> (gc_objects (mem st)))).
Definition get_object (st : FreeState) (p : Z) : outcome JSObject :=
  let* o := get_gc_object st p in match o with GC_JS_OBJECT o => Ret o | _ => Err OutOfBounds end.
Definition put_u (o : JSObject) (d : JSClassData) : JSObject := mkJSObject (class_id o) (shape o) (prop o) d.

(** [js_free_rt(rt, p)] of the block of a collected object. *)
Definition js_free_rt (st : FreeState) (p : Z) : outcome FreeState :=
  let* _ := get_gc_object st p in
  let st := set_mem st (with_objects (mem st) (delete p (gc_objects (mem st)))) in
  Ret (set_gc st (with_headers (gc st) (delete p (headers (gc st))))).

(** [--p->ref_count]. *)
Definition dec_ref_count (st : FreeState) (p : Z) : outcome (FreeState * Z) :=
  let* h := get_header (gc st) p in
  let n := i32 (ref_count h - 1) in
  Ret (set_gc st (set_header (gc st) p (mkHeader n (mark h))), n).

Definition list_add (g : GcState) (p : Z) (l : gc_list) : GcState := set_list g l (p :: list_of g l).

Definition add_gc_object (st : FreeState) (p : Z) : outcome FreeState :=
  let* h := get_header (gc st) p in
  Ret (set_gc st (list_add_tail (set_header (gc st) p (mkHeader (ref_count h) 0)) p GC_OBJ_LIST)).
Definition remove_gc_object (st : FreeState) (p : Z) : outcome FreeState :=
  let* g := list_del (gc st) p in Ret (set_gc st g).

(** [list_del] of a variable reference that is in the list of a frame. *)
Definition frame_list_del (st : FreeState) (p : Z) : outcome FreeState :=
  match List.find (fun '(_, l) => existsb (Z.eqb p) l) (map_to_list (frames st)) with
  | Some (f, l) => Ret (set_frames st (<[f := List.remove Z.eq_dec p l]> (frames st)))
  | None => Err OutOfBounds
  end.

Definition is_leaf_tag (tag : Z) : bool := existsb (Z.eqb tag) [JS_TAG_STRING; JS_TAG_SYMBOL; JS_TAG_BIG_INT].
Definition is_gc_tag (tag : Z) : bool := (tag =? JS_TAG_OBJECT) || (tag =? JS_TAG_FUNCTION_BYTECODE).

Definition js_dup (st : FreeState) (v : JSValue) : outcome FreeState :=
  if JS_VALUE_HAS_REF_COUNT v then
    if is_gc_tag (jv_tag v) then
      let* h := get_header (gc st) (jv_ptr v) in
      Ret (set_gc st (set_header (gc st) (jv_ptr v) (mkHeader (i32 (ref_count h + 1)) (mark h))))
    else Ret (add_free_call st (C_dup_leaf v))
  else Ret st.

Definition JS_IsLiveObject (st : FreeState) (obj : JSValue) : bool :=
  (jv_tag obj =? JS_TAG_OBJECT) && bool_decide (jv_ptr obj ∉ free_marks st).

(** Whether [js_malloc] of the next job succeeds. *)
Section Runtime.
Variable job_malloc_ok : list (list JSValue) -> bool.

Definition JS_EnqueueJob (st : FreeState) (args : list JSValue) : outcome FreeState :=
  let* _ := c_assert (negb (in_free st)) in
  if negb (job_malloc_ok (jobs st)) then Ret st
  else
    let* st := ofold js_dup st args in
    Ret (add_job st args).

(** A function that releases references frees objects only in the phase
    [JS_GC_PHASE_NONE], by a call of [free_zero_refcount]; the calls below
    [free_zero_refcount] are in the phase [JS_GC_PHASE_DECREF].  [on_zero] is the
    function called: [free_zero_refcount] itself at the top, an error below it. *)
Section Values.
Variable on_zero : FreeState -> outcome FreeState.

(** [js_free_value_rt] for an object or a function; the other values are
    recorded. *)
Definition js_free_value_rt (st : FreeState) (p : Z) : outcome FreeState :=
  if negb (bool_decide (gc_phase st = JS_GC_PHASE_REMOVE_CYCLES)) then
    let* g := list_del (gc st) p in
    let st := set_gc st (list_add g p GC_ZERO_REF_COUNT_LIST) in
    if bool_decide (gc_phase st = JS_GC_PHASE_NONE) then on_zero st else Ret st
  else Ret st.

Definition JS_FreeValueRT (st : FreeState) (v : JSValue) : outcome FreeState :=
  if JS_VALUE_HAS_REF_COUNT v then
    if is_leaf_tag (jv_tag v) then Ret (add_free_call st (C_free_leaf v))
    else if is_gc_tag (jv_tag v) then
      let* (st, n) := dec_ref_count st (jv_ptr v) in
      if n <=? 0 then js_free_value_rt st (jv_ptr v) else Ret st
    else Err AssertFail
  else Ret st.

Definition free_var_ref (st : FreeState) (var_ref : option Z) : outcome FreeState :=
  match var_ref with
  | None => Ret st
  | Some p =>
      let* h := get_header (gc st) p in
      let* _ := c_assert (0 <? ref_count h) in
      let* (st, n) := dec_ref_count st p in
      if n =? 0 then
        let* r := get_var_ref (mem st) p in
        let* st := if is_detached r then
                     let* st := JS_FreeValueRT st (pvalue r) in
                     remove_gc_object st p
                   else frame_list_del st p in
        js_free_rt st p
      else Ret st
  end.

(** The body of the loop of [close_var_refs]. *)
Definition close_var_ref (st : FreeState) (p : Z) : outcome FreeState :=
  let* r := get_var_ref (mem st) p in
  let* st := js_dup st (pvalue r) in
  add_gc_object (put_gc_object st p (GC_VAR_REF (mkJSVarRef true (pvalue r)))) p.

Definition close_var_refs (st : FreeState) (f : Z) : outcome FreeState :=
  let* st := ofold close_var_ref st (default [] (frames st !! f)) in
  Ret (set_frames st (delete f (frames st))).

(** The loops of [delete_map_weak_ref], [delete_finrec_weakref] and
    [js_weakref_finalizer]; the assertion is that the record is in the list. *)
Definition delete_weak_ref (st : FreeState) (target : JSValue) (wr : JSWeakRefRecord) : outcome FreeState :=
  let* _ := c_assert ((jv_tag target =? JS_TAG_OBJECT) || (jv_tag target =? JS_TAG_SYMBOL)) in
  let l := default [] (weak_refs st !! jv_ptr target) in
  let* _ := c_assert (bool_decide (wr ∈ l)) in
  Ret (set_weak_refs st (<[jv_ptr target := List.filter (fun w => negb (bool_decide (w = wr))) l]> (weak_refs st))).

(** The operations, without those that the bodies of the last ones call not. *)
Definition values_release : Release FreeState :=
  mkRelease FreeState JS_FreeValueRT free_var_ref (fun _ _ => Err AssertFail) (fun _ _ => Err AssertFail)
    (fun _ _ => Err AssertFail) close_var_refs delete_weak_ref JS_IsLiveObject add_free_call.

Definition js_free_shape0 (st : FreeState) (p : Z) : outcome FreeState :=
  let* h := get_header (gc st) p in
  let* _ := c_assert (ref_count h =? 0) in
  let* sh := get_shape (mem st) p in
  let* st := free_shape_refs (R := values_release) p sh st in
  let* st := remove_gc_object st p in
  js_free_rt st p.

Definition js_free_shape (st : FreeState) (p : Z) : outcome FreeState :=
  let* (st, n) := dec_ref_count st p in
  if n <=? 0 then js_free_shape0 st p else Ret st.

Definition get_async_function (st : FreeState) (p : Z) : outcome JSAsyncFunctionData :=
  let* o := get_gc_object st p in match o with GC_ASYNC_FUNCTION s => Ret s | _ => Err OutOfBounds end.

Definition js_async_function_free0 (st : FreeState) (p : Z) : outcome FreeState :=
  let* s := get_async_function st p in
  let* st := free_async_refs (R := values_release) s st in
  let* st := remove_gc_object st p in
  js_free_rt st p.

Definition js_async_function_free (st : FreeState) (p : Z) : outcome FreeState :=
  let* (st, n) := dec_ref_count st p in
  if n =? 0 then js_async_function_free0 st p else Ret st.

Definition shapes_release : Release FreeState :=
  mkRelease FreeState JS_FreeValueRT free_var_ref js_free_shape (fun _ _ => Err AssertFail)
    (fun _ _ => Err AssertFail) close_var_refs delete_weak_ref JS_IsLiveObject add_free_call.

Definition JS_FreeContext (st : FreeState) (p : Z) : outcome FreeState :=
  let* (st, n) := dec_ref_count st p in
  if 0 <? n then Ret st
  else if n <? 0 then Ret st
  else
    let* o := get_gc_object st p in
    match o with
    | GC_JS_CONTEXT ctx =>
        let* st := free_context_refs (R := shapes_release) (class_count (mem st)) ctx st in
        let* st := remove_gc_object st p in
        js_free_rt st p
    | _ => Err OutOfBounds
    end.

(** The operations of the runtime. *)
Definition runtime_release : Release FreeState :=
  mkRelease FreeState JS_FreeValueRT free_var_ref js_free_shape JS_FreeContext js_async_function_free
    close_var_refs delete_weak_ref JS_IsLiveObject add_free_call.

(** ** Weak references *)

Definition without_record (s : JSMapState) (mr : Z) : JSMapState :=
  mkJSMapState (is_weak s) (List.filter (fun r => negb (mr_id r =? mr)) (records s)).
Definition without_entry (entries : list JSFinRecEntry) (fre : Z) : list JSFinRecEntry :=
  List.filter (fun e => negb (fre_id e =? fre)) entries.

(** What the second pass of [reset_weak_ref] reads of the record. *)
Inductive weak_data : Type :=
  | WD_map_value (value : JSValue)
  | WD_weak_ref (obj : Z)
  | WD_fin_rec (registry : Z) (fre : JSFinRecEntry).

(** The first pass. *)
Definition unlink_weak_ref '(st, ds) (wr : JSWeakRefRecord) : outcome (FreeState * list weak_data) :=
  match wr with
  | WR_map_record obj mr =>
      let* o := get_object st obj in
      match u o with
      | U_map_state s =>
          let* _ := c_assert (is_weak s) in
          match List.find (fun r => mr_id r =? mr) (records s) with
          | Some r =>
              let* _ := c_assert (negb (mr_empty r)) in
              Ret (put_gc_object st obj (GC_JS_OBJECT (put_u o (U_map_state (without_record s mr)))),
                   ds ++ [WD_map_value (mr_value r)])
          | None => Err OutOfBounds
          end
      | _ => Err OutOfBounds
      end
  | WR_weak_ref_data obj =>
      let* o := get_object st obj in
      match u o with
      | U_weak_ref _ =>
          Ret (put_gc_object st obj (GC_JS_OBJECT (put_u o (U_weak_ref JS_UNDEFINED))), ds ++ [WD_weak_ref obj])
      | _ => Err OutOfBounds
      end
  | WR_fin_rec_entry obj fre =>
      let* o := get_object st obj in
      match u o with
      | U_finrec cb entries =>
          match List.find (fun e => fre_id e =? fre) entries with
          | Some e =>
              Ret (put_gc_object st obj (GC_JS_OBJECT (put_u o (U_finrec cb (without_entry entries fre)))),
                   ds ++ [WD_fin_rec obj e])
          | None => Err OutOfBounds
          end
      | _ => Err OutOfBounds
      end
  end.

(** The second pass. *)
Definition free_weak_data (st : FreeState) (d : weak_data) : outcome FreeState :=
  match d with
  | WD_map_value v => JS_FreeValueRT st v
  | WD_weak_ref obj =>
      let* o := get_object st obj in
      Ret (put_gc_object st obj (GC_JS_OBJECT (put_u o U_weak_ref_sentinel)))
  | WD_fin_rec registry fre =>
      let* o := get_object st registry in
      match JS_GetOpaque o JS_CLASS_FINALIZATION_REGISTRY with
      | U_finrec cb _ =>
          let* st := if negb (in_free st) &&
                        (negb (jv_tag (held_val fre) =? JS_TAG_OBJECT) || JS_IsLiveObject st (held_val fre))
                     then JS_EnqueueJob st [cb; held_val fre] else Ret st in
          let* st := JS_FreeValueRT st (held_val fre) in
          JS_FreeValueRT st (token fre)
      | U_null => Err AssertFail
      | _ => Err OutOfBounds
      end
  end.

Definition reset_weak_ref (st : FreeState) (p : Z) : outcome FreeState :=
  let* (st, ds) := ofold unlink_weak_ref (st, []) (default [] (weak_refs st !! p)) in
  let* st := ofold free_weak_data st ds in
  Ret (set_weak_refs st (delete p (weak_refs st))).

(** ** Objects *)

(** The end of [free_object] and [free_function_bytecode]. *)
Definition free_gc_block (st : FreeState) (p : Z) : outcome FreeState :=
  let* st := remove_gc_object st p in
  let* h := get_header (gc st) p in
  if bool_decide (gc_phase st = JS_GC_PHASE_REMOVE_CYCLES) && negb (ref_count h =? 0) then
    Ret (set_gc st (list_add_tail (gc st) p GC_ZERO_REF_COUNT_LIST))
  else js_free_rt st p.

Definition free_object (st : FreeState) (p : Z) : outcome FreeState :=
  let st := set_free_mark st p in
  let* o := get_object st p in
  let* sh := get_shape (mem st) (shape o) in
  let* st := free_properties (R := runtime_release) o sh st in
  let* st := js_free_shape st (shape o) in
  let* o := get_object st p in
  let st := put_gc_object st p (GC_JS_OBJECT (mkJSObject (class_id o) 0 [] (u o))) in
  let* st := match weak_refs st !! p with
             | Some (_ :: _) => reset_weak_ref st p
             | _ => Ret st
             end in
  let* o := get_object st p in
  let* st := call_finalizer (R := runtime_release) (mem st) (get_bytecode (mem st)) p o st in
  let st := put_gc_object st p (GC_JS_OBJECT (mkJSObject 0 0 [] U_null)) in
  free_gc_block st p.

Definition free_function_bytecode (st : FreeState) (p : Z) : outcome FreeState :=
  let* b := get_bytecode (mem st) p in
  let* st := free_bytecode_refs (R := runtime_release) b st in
  free_gc_block st p.

Definition free_gc_object (st : FreeState) (p : Z) : outcome FreeState :=
  let* o := get_gc_object st p in
  match o with
  | GC_JS_OBJECT _ => free_object st p
  | GC_FUNCTION_BYTECODE _ => free_function_bytecode st p
  | _ => Err AssertFail
  end.
End Values.

(** ** Freeing the objects without references *)

Definition free_zero_refcount_step (st : FreeState) : outcome (FreeState + FreeState) :=
  match gc_zero_ref_count_list (gc st) with
  | [] => Ret (inr st)
  | p :: _ =>
      let* h := get_header (gc st) p in
      let* _ := c_assert (ref_count h =? 0) in
      let* st := free_gc_object (fun _ => Err AssertFail) st p in
      Ret (inl st)
  end.

Definition free_zero_refcount (st : FreeState) : outcome FreeState :=
  let st := set_phase st JS_GC_PHASE_DECREF in
  let* st := iter (S (size (gc_objects (mem st)))) free_zero_refcount_step st in
  Ret (set_phase st JS_GC_PHASE_NONE).

(** ** Freeing the cycles *)

Definition is_value_object (o : gc_object) : bool :=
  match o with GC_JS_OBJECT _ | GC_FUNCTION_BYTECODE _ => true | _ => false end.

Definition gc_free_cycles_step (st : FreeState) : outcome (FreeState + FreeState) :=
  match tmp_obj_list (gc st) with
  | [] => Ret (inr st)
  | p :: _ =>
      let* o := get_gc_object st p in
      if is_value_object o then
        let* st := free_gc_object (fun _ => Err AssertFail) st p in
        Ret (inl st)
      else
        let* g := list_del (gc st) p in
        Ret (inl (set_gc st (list_add_tail g p GC_ZERO_REF_COUNT_LIST)))
  end.

(** The last loop of [gc_free_cycles]. *)
Definition free_zombie (st : FreeState) (p : Z) : outcome FreeState :=
  let* o := get_gc_object st p in
  let* _ := c_assert (is_value_object o) in
  js_free_rt st p.

Definition gc_free_cycles (st : FreeState) : outcome FreeState :=
  let st := set_phase st JS_GC_PHASE_REMOVE_CYCLES in
  let* st := iter (S (length (tmp_obj_list (gc st)))) gc_free_cycles_step st in
  let st := set_phase st JS_GC_PHASE_NONE in
  let* st := ofold free_zombie st (gc_zero_ref_count_list (gc st)) in
  Ret (set_gc st (set_list (gc st) GC_ZERO_REF_COUNT_LIST [])).

Definition JS_RunGC (st : FreeState) : outcome FreeState :=
  let* g := gc_mark_phase (mem st) (gc st) in
  gc_free_cycles (set_gc st g).

(** [JS_FreeValueRT] outside a collection. *)
Definition JS_FreeValue (st : FreeState) (v : JSValue) : outcome FreeState := JS_FreeValueRT free_zero_refcount st v.
End Runtime.
