(* ===== verification/GcRelease.v ===== *)
(** Freeing an object releases the references that marking visits.

    The release operations are given a second instance, which collects the
    references with their kinds.  When these have the kinds expected ([well_typed])
    and nothing is released that marking does not see, the pointers released are a
    permutation of the children.  File [GcTyped] derives it from a typing of the
    fields. *)
From Stdlib Require Import ZArith Lia Bool List Permutation.
From stdpp Require Import base tactics list numbers gmap.
From S2P Require Import Prelude GcObject GcChildren Gc GcFree.

(** * Collecting the references *)

(** What a reference must point to. *)
Inductive ref_kind : Type :=
  | K_value (tag : Z)
  | K_var_ref
  | K_shape
  | K_context
  | K_async.

Definition collect_value (acc : list (ref_kind * Z)) (v : JSValue) : outcome (list (ref_kind * Z)) :=
  if JS_VALUE_HAS_REF_COUNT v then
    if is_leaf_tag (jv_tag v) then Ret acc
    else if is_gc_tag (jv_tag v) then Ret (acc ++ [(K_value (jv_tag v), jv_ptr v)])
    else Err AssertFail
  else Ret acc.

(** Closing a frame and unlinking a weak reference release nothing.  When the
    list of the open variables of every frame is given, they are errors, the
    former for a frame that has open variables. *)
Definition collect_refs (frames : option (gmap Z (list Z))) : Release (list (ref_kind * Z)) :=
  mkRelease _ collect_value
    (fun acc p => match p with Some p => Ret (acc ++ [(K_var_ref, p)]) | None => Ret acc end)
    (fun acc p => Ret (acc ++ [(K_shape, p)]))
    (fun acc p => Ret (acc ++ [(K_context, p)]))
    (fun acc p => Ret (acc ++ [(K_async, p)]))
    (fun acc f => match frames with
                  | Some open_frames =>
                      match open_frames !! f with Some (_ :: _) => Err OutOfBounds | _ => Ret acc end
                  | None => Ret acc
                  end)
    (fun acc _ _ => match frames with Some _ => Err OutOfBounds | None => Ret acc end)
    (fun _ _ => false) (fun acc _ => acc).

Definition collect_release (open_frames : gmap Z (list Z)) : Release (list (ref_kind * Z)) :=
  collect_refs (Some open_frames).

(** What freeing the object [p] releases, in order. *)
Definition free_refs {S : Type} {R : Release S} (rt : JSRuntime) (p : Z) (st : S) : outcome S :=
  match gc_objects rt !! p with
  | None => Err OutOfBounds
  | Some (GC_JS_OBJECT o) =>
      let* sh := get_shape rt (shape o) in
      let* st := free_properties o sh st in
      let* st := release_shape st (shape o) in
      call_finalizer rt (get_bytecode rt) p o st
  | Some (GC_FUNCTION_BYTECODE b) => free_bytecode_refs b st
  | Some (GC_VAR_REF r) => let* _ := c_assert (is_detached r) in release_value st (pvalue r)
  | Some (GC_ASYNC_FUNCTION s) => free_async_refs s st
  | Some (GC_SHAPE sh) => free_shape_refs p sh st
  | Some (GC_JS_CONTEXT ctx) => free_context_refs (class_count rt) ctx st
  end.

Definition released (rt : JSRuntime) (open_frames : gmap Z (list Z)) (p : Z) : outcome (list (ref_kind * Z)) :=
  free_refs (R := collect_release open_frames) rt p [].

(** * Well-typed objects *)

Definition ref_ok (rt : JSRuntime) (r : ref_kind * Z) : bool :=
  match r.1, gc_objects rt !! r.2 with
  | K_value tag, Some (GC_JS_OBJECT _) => tag =? JS_TAG_OBJECT
  | K_value tag, Some (GC_FUNCTION_BYTECODE _) => tag =? JS_TAG_FUNCTION_BYTECODE
  | K_var_ref, Some (GC_VAR_REF r) => is_detached r
  | K_shape, Some (GC_SHAPE _) => true
  | K_context, Some (GC_JS_CONTEXT _) => true
  | K_async, Some (GC_ASYNC_FUNCTION _) => true
  | _, _ => false
  end.

(** Not a reference to a collected object. *)
Definition no_gc_ref (v : JSValue) : bool := negb (JS_VALUE_HAS_REF_COUNT v && is_gc_tag (jv_tag v)).

(** A deleted property holds nothing. *)
Definition tidy_property (o : JSObject) (sh : JSShape) (i : Z) : bool :=
  match rd (shape_prop sh) i, rd (prop o) i with
  | Ret pr, Ret v =>
      negb (atom pr =? JS_ATOM_NULL) ||
      (Z.land (flags pr) JS_PROP_TMASK =? 0) && match v with P_value v => no_gc_ref v | _ => false end
  | _, _ => true
  end.

Definition tidy_frame (s : JSAsyncFunctionState) : bool :=
  has_arg_buf s || match stack s with Some (_ :: _) => false | _ => true end.

(** An empty record of a map holds nothing; a frame without a buffer has no
    stack. *)
Definition tidy_class_data (d : JSClassData) : bool :=
  match d with
  | U_map_state s => forallb (fun mr => negb (mr_empty mr) || (no_gc_ref (mr_key mr) && no_gc_ref (mr_value mr))) (records s)
  | U_generator _ s | U_async_generator _ s _ => tidy_frame s
  | _ => true
  end.

Definition tidy (rt : JSRuntime) (p : Z) : bool :=
  match gc_objects rt !! p with
  | Some (GC_JS_OBJECT o) =>
      tidy_class_data (u o) &&
      match get_shape rt (shape o) with
      | Ret sh => forallb (tidy_property o sh) (seqZ 0 (prop_count sh))
      | Err _ => false
      end
  | Some (GC_ASYNC_FUNCTION s) => tidy_frame (a_func_state s)
  | _ => true
  end.

Definition well_typed (rt : JSRuntime) (open_frames : gmap Z (list Z)) (p : Z) : bool :=
  tidy rt p && match released rt open_frames p with Ret rs => forallb (ref_ok rt) rs | Err _ => false end.

(** The pointers of the references to collected objects among values. *)
Definition gc_refs (vals : list JSValue) : list Z :=
  map jv_ptr (List.filter (fun v => JS_VALUE_HAS_REF_COUNT v && is_gc_tag (jv_tag v)) vals).

(** The finalizers of the host program release what its mark functions visit. *)
Definition host_classes_ok (rt : JSRuntime) : Prop :=
  forall id opaque,
    Permutation (match host_gc_mark rt id with Some f => f opaque | None => [] end)
      (match host_finalizer rt id with Some f => gc_refs (f opaque) | None => [] end).

(** * The release programs mirror the marking programs *)

Section Mirror.
Variable rt : JSRuntime.
Variable open_frames : option (gmap Z (list Z)).
#[local] Instance collecting : Release (list (ref_kind * Z)) := collect_refs open_frames.
Abbreviation collect := (fun (l : list Z) (p : Z) => Ret (l ++ [p])).

Definition mirrors (mc : list Z -> outcome (list Z)) (rc : list (ref_kind * Z) -> outcome (list (ref_kind * Z)))
    : Prop :=
  forall acc acc' l l', mc acc = Ret l -> rc acc' = Ret l' ->
    exists k k', l = acc ++ k /\ l' = acc' ++ k' /\ (forallb (ref_ok rt) k' = true -> Permutation (map snd k') k).

Lemma mirrors_ret : mirrors (fun acc => Ret acc) (fun acc => Ret acc).
Proof using. intros acc acc' l l' [= <-] [= <-]. exists [], []. by rewrite !app_nil_r. Qed.

Lemma mirrors_err_l e rc : mirrors (fun _ => Err e) rc.
Proof using. by intros acc acc' l l' ?. Qed.

Lemma mirrors_err_r mc e : mirrors mc (fun _ => Err e).
Proof using. by intros acc acc' l l' _ ?. Qed.

Lemma mirrors_call k p : mirrors (fun acc => Ret (acc ++ [p])) (fun acc => Ret (acc ++ [(k, p)])).
Proof using. intros acc acc' l l' [= <-] [= <-]. by exists [p], [(k, p)]. Qed.

Lemma mirrors_bind mc1 mc2 rc1 rc2 :
  mirrors mc1 rc1 -> mirrors mc2 rc2 ->
  mirrors (fun acc => let* acc := mc1 acc in mc2 acc) (fun acc => let* acc := rc1 acc in rc2 acc).
Proof using.
  intros H1 H2 acc acc' l l' E E'. destruct (mc1 acc) as [a1|] eqn:E1, (rc1 acc') as [a1'|] eqn:E1'; try done.
  cbn [obind] in *. apply (H1 _ _ _ _ E1) in E1' as (k1 & k1' & -> & -> & P1).
  apply (H2 _ _ _ _ E) in E' as (k2 & k2' & -> & -> & P2). exists (k1 ++ k2), (k1' ++ k2').
  rewrite !app_assoc. split; [done|]. split; [done|]. rewrite forallb_app, map_app. intros [Q1 Q2]%andb_true_iff.
  by apply Permutation_app; [apply P1|apply P2].
Qed.

(** The two parts in the other order. *)
Lemma mirrors_swap mc1 mc2 rc1 rc2 :
  mirrors mc1 rc1 -> mirrors mc2 rc2 ->
  mirrors (fun acc => let* acc := mc1 acc in mc2 acc) (fun acc => let* acc := rc2 acc in rc1 acc).
Proof using.
  intros H1 H2 acc acc' l l' E E'. destruct (mc1 acc) as [a1|] eqn:E1, (rc2 acc') as [a1'|] eqn:E1'; try done.
  cbn [obind] in *. apply (H1 _ _ _ _ E1) in E' as (k1 & k1' & -> & -> & P1).
  apply (H2 _ _ _ _ E) in E1' as (k2 & k2' & -> & -> & P2). exists (k1 ++ k2), (k2' ++ k1').
  rewrite !app_assoc. split; [done|]. split; [done|]. rewrite forallb_app, map_app. intros [Q2 Q1]%andb_true_iff.
  rewrite Permutation_app_comm. by apply Permutation_app; [apply P1|apply P2].
Qed.

Lemma mirrors_eq mc mc' rc rc' :
  (forall acc, mc acc = mc' acc) -> (forall acc, rc acc = rc' acc) -> mirrors mc' rc' -> mirrors mc rc.
Proof using. intros Hm Hr H acc acc' l l'. rewrite Hm, Hr. apply H. Qed.

Lemma mirrors_read {X : Type} (o : outcome X) mc rc :
  (forall x, o = Ret x -> mirrors (mc x) (rc x)) ->
  mirrors (fun acc => let* x := o in mc x acc) (fun acc => let* x := o in rc x acc).
Proof using. intros H. destruct o as [x|e]; cbn [obind]; [by apply H|apply mirrors_err_l]. Qed.

Lemma mirrors_read_l {X : Type} (o : outcome X) mc rc :
  (forall x, o = Ret x -> mirrors (mc x) rc) -> mirrors (fun acc => let* x := o in mc x acc) rc.
Proof using. intros H. destruct o as [x|e]; cbn [obind]; [by apply H|apply mirrors_err_l]. Qed.

Lemma mirrors_ofold {X : Type} (mc : list Z -> X -> outcome (list Z)) rc xs :
  (forall x, In x xs -> mirrors (fun acc => mc acc x) (fun acc => rc acc x)) ->
  mirrors (fun acc => ofold mc acc xs) (fun acc => ofold rc acc xs).
Proof using.
  induction xs as [|x xs IH]; intros H; cbn [ofold]; [apply mirrors_ret|].
  apply (mirrors_bind (fun acc => mc acc x) _ (fun acc => rc acc x)); [apply H; by left|].
  apply IH. intros y Hy. apply H. by right.
Qed.

(** ** Values *)

Lemma mirrors_value v : mirrors (fun acc => JS_MarkValue collect acc v) (fun acc => release_value acc v).
Proof using.
  cbn [release_value collecting collect_refs]. unfold JS_MarkValue, collect_value. destruct (JS_VALUE_HAS_REF_COUNT v); [|apply mirrors_ret].
  unfold is_gc_tag. destruct (is_leaf_tag (jv_tag v)) eqn:El.
  - destruct (_ || _) eqn:Eg; [|apply mirrors_ret]. unfold is_leaf_tag in El. cbn [existsb] in El.
    unfold JS_TAG_STRING, JS_TAG_SYMBOL, JS_TAG_BIG_INT, JS_TAG_OBJECT, JS_TAG_FUNCTION_BYTECODE in *. lia.
  - destruct (_ || _); [apply mirrors_call|apply mirrors_err_r].
Qed.

(** A value that is not a reference to a collected object. *)
Lemma mirrors_no_ref v : no_gc_ref v = true -> mirrors (fun acc => Ret acc) (fun acc => release_value acc v).
Proof using.
  cbn [release_value collecting collect_refs]. unfold no_gc_ref, collect_value. destruct (JS_VALUE_HAS_REF_COUNT v); [|intros; apply mirrors_ret].
  destruct (is_gc_tag (jv_tag v)); [done|]. intros _. destruct (is_leaf_tag _); [apply mirrors_ret|apply mirrors_err_r].
Qed.

Lemma mirrors_values vals : mirrors (fun acc => mark_values collect acc vals) (fun acc => release_values acc vals).
Proof using. apply mirrors_ofold. intros v _. apply mirrors_value. Qed.

Lemma mirrors_array vals n :
  mirrors (fun acc => mark_array collect acc vals n) (fun acc => release_array acc vals n).
Proof using. apply mirrors_ofold. intros i _. apply mirrors_read. intros v _. apply mirrors_value. Qed.

Lemma mirrors_obj_ptr p :
  mirrors (fun acc => mark_ptr collect acc p) (fun acc => release_ptr JS_TAG_OBJECT acc p).
Proof using. destruct p; [|apply mirrors_ret]. cbn [mark_ptr release_ptr]. apply (mirrors_value (JS_MKPTR JS_TAG_OBJECT z)). Qed.

(** A variable reference is marked when it is detached. *)
Lemma mirrors_var_ref p :
  mirrors (fun acc => match p with
                      | Some p => let* r := get_var_ref rt p in if is_detached r then Ret (acc ++ [p]) else Ret acc
                      | None => Ret acc
                      end)
    (fun acc => release_var_ref acc p).
Proof using.
  destruct p as [p|]; [|apply mirrors_ret]. apply mirrors_read_l. intros r Er acc acc' l l' E [= <-].
  unfold get_var_ref in Er. destruct (gc_objects rt !! p) as [[]|] eqn:Eo; try done. injection Er as ->.
  destruct (is_detached r) eqn:Ed; injection E as <-; [by exists [p], [(K_var_ref, p)]|].
  exists [], [(K_var_ref, p)]. rewrite app_nil_r. split; [done|]. split; [done|]. unfold ref_ok. cbn. by rewrite Eo, Ed.
Qed.

(** ** Objects *)

Lemma mirrors_async s :
  tidy_frame s = true -> mirrors (fun acc => async_func_mark collect s acc) (fun acc => async_func_free s acc).
Proof using.
  intros Ht. unfold async_func_mark, async_func_free. cbn [close_frame collecting collect_refs].
  destruct open_frames as [fr|]; [destruct (fr !! frame s) as [[|]|]; try apply mirrors_err_r|]; cbn [obind];
    (eapply mirrors_eq;
     [intros acc; symmetry; apply (obind_assoc _ (fun a => JS_MarkValue collect a (this_val s)))|done|]);
    (apply mirrors_swap; [apply mirrors_bind; apply mirrors_value|]);
    (unfold tidy_frame in Ht; destruct (has_arg_buf s), (stack s) as [[|v vals]|]; try done;
     try apply mirrors_values; try apply mirrors_ret; apply mirrors_err_r).
Qed.

Lemma mirrors_property o sh i :
  tidy_property o sh i = true ->
  mirrors (fun acc => mark_property rt collect o (shape_prop sh) acc i)
    (fun acc => let* pr := rd (shape_prop sh) i in let* v := rd (prop o) i in free_property acc v (flags pr)).
Proof using.
  unfold tidy_property, mark_property. intros Ht. apply mirrors_read. intros pr Epr. rewrite Epr in Ht.
  destruct (atom pr =? JS_ATOM_NULL) eqn:Ea; cbn [negb].
  - destruct (rd (prop o) i) as [v|]; [|apply mirrors_err_r]. cbn [obind orb] in *. unfold free_property.
    apply andb_true_iff in Ht as [Hf Hv]. rewrite Hf. cbn [negb]. destruct v; try done. by apply mirrors_no_ref.
  - apply mirrors_read. intros v _. unfold free_property. cbv zeta. set (t := Z.land (flags pr) JS_PROP_TMASK).
    destruct (t =? 0); cbn [negb]; [destruct v; try apply mirrors_err_l; apply mirrors_value|].
    destruct (t =? JS_PROP_GETSET); [destruct v; try apply mirrors_err_l; apply mirrors_bind; apply mirrors_obj_ptr|].
    destruct (t =? JS_PROP_VARREF); [destruct v; try apply mirrors_err_l; apply (mirrors_var_ref (Some p))|].
    destruct (t =? JS_PROP_AUTOINIT); [destruct v; try apply mirrors_err_l; apply mirrors_call|apply mirrors_ret].
Qed.

Lemma mirrors_properties o sh :
  forallb (tidy_property o sh) (seqZ 0 (prop_count sh)) = true ->
  mirrors (fun acc => ofold (mark_property rt collect o (shape_prop sh)) acc (seqZ 0 (prop_count sh)))
    (fun acc => free_properties o sh acc).
Proof using. rewrite forallb_forall. intros Ht. apply mirrors_ofold. intros i Hi. by apply mirrors_property, Ht. Qed.

(** The classes whose finalizer mirrors the mark function step by step. *)
Ltac mirror_step :=
  first
    [ apply mirrors_ret | apply mirrors_err_l | apply mirrors_err_r | apply mirrors_value | apply mirrors_values
    | apply mirrors_array | apply mirrors_obj_ptr | apply mirrors_call
    | apply mirrors_async; assumption
    | apply mirrors_bind | apply mirrors_read; intros ? ? | apply mirrors_ofold; intros ? ? ].
Ltac mirror := repeat mirror_step.

Lemma mirrors_map obj o :
  tidy_class_data (u o) = true ->
  mirrors (js_map_mark collect o) (js_map_finalizer obj o).
Proof using.
  unfold js_map_mark, js_map_finalizer. intros Ht.
  destruct (u o); try apply mirrors_err_l; try apply mirrors_ret. cbn [tidy_class_data] in Ht.
  rewrite forallb_forall in Ht. apply mirrors_ofold. intros mr Hmr. apply Ht in Hmr.
  destruct (is_weak s); cbn [negb]; destruct (mr_empty mr); cbn [negb orb] in *.
  - apply andb_true_iff in Hmr as [_ Hv]. intros acc acc' l l' E [= <-].
    pose proof (mirrors_value (mr_value mr) acc acc' l) as H.
    pose proof (mirrors_no_ref (mr_value mr) Hv [] acc') as H0. revert H H0 E.
    unfold no_gc_ref in Hv. unfold JS_MarkValue. cbn [obind]. destruct (JS_VALUE_HAS_REF_COUNT (mr_value mr)).
    + unfold is_gc_tag in Hv. destruct (_ || _); [done|]. intros _ _ [= <-]. exists [], []. by rewrite !app_nil_r.
    + intros _ _ [= <-]. exists [], []. by rewrite !app_nil_r.
  - cbn [drop_weak_ref collecting collect_refs]. destruct open_frames; [apply mirrors_err_r|apply mirrors_value].
  - apply andb_true_iff in Hmr as [Hk Hv]. intros acc acc' l l' E [= <-]. exists [], []. rewrite !app_nil_r.
    split; [|done]. revert E. unfold no_gc_ref in Hk, Hv. unfold JS_MarkValue, is_gc_tag in *.
    destruct (JS_VALUE_HAS_REF_COUNT (mr_key mr)), (_ || _); try done; cbn [obind];
      destruct (JS_VALUE_HAS_REF_COUNT (mr_value mr)), (_ || _); try done; congruence.
  - apply mirrors_bind; apply mirrors_value.
Qed.

Lemma mirrors_bytecode_function o :
  mirrors (js_bytecode_function_mark rt collect o) (js_bytecode_function_finalizer (get_bytecode rt) o).
Proof using.
  unfold js_bytecode_function_mark, js_bytecode_function_finalizer.
  destruct (u o) as [| | | |b var_refs home| | | | | | | | | | | | | | | | | | | | | | | |]; try apply mirrors_err_l.
  apply mirrors_bind; [destruct home; mirror|]. destruct b as [b|]; [|mirror].
  apply mirrors_bind; [|apply mirrors_value]. destruct var_refs; mirror. apply mirrors_var_ref.
Qed.

(** A class without a mark function releases no reference to a collected object. *)
Lemma mirrors_leaf rc :
  (forall acc l, rc acc = Ret l -> l = acc) -> mirrors (fun acc => Ret acc) rc.
Proof using. intros H acc acc' l l' [= <-] E%H. exists [], []. by rewrite !app_nil_r. Qed.

Lemma gc_refs_mirror vals :
  mirrors (fun acc => ofold collect acc (gc_refs vals)) (fun acc => release_values acc vals).
Proof using.
  unfold gc_refs, release_values. induction vals as [|v vals IH]; [apply mirrors_ret|]. cbn [List.filter ofold].
  pose proof (mirrors_value v) as Hv. unfold JS_MarkValue in Hv. destruct (JS_VALUE_HAS_REF_COUNT v); cbn [andb];
    [|by apply (mirrors_bind (fun acc => Ret acc))].
  unfold is_gc_tag. destruct (_ || _); cbn [map ofold]; [|by apply (mirrors_bind (fun acc => Ret acc))].
  by apply (mirrors_bind (fun acc => Ret (acc ++ [jv_ptr v]))).
Qed.

Lemma collect_fold acc l : ofold collect acc l = Ret (acc ++ l).
Proof using.
  revert acc. induction l as [|p l IH]; intros acc; cbn [ofold obind]; [by rewrite app_nil_r|].
  by rewrite IH, <- app_assoc.
Qed.

Lemma mirrors_host f g o :
  (forall opaque, Permutation (f opaque) (gc_refs (g opaque))) ->
  mirrors (fun acc => host_mark collect f o acc) (fun acc => host_class_finalizer g o acc).
Proof using.
  intros Hp. unfold host_mark, host_class_finalizer. destruct (u o); try apply mirrors_err_l.
  intros acc acc' l l' E E'. rewrite collect_fold in E. injection E as <-.
  destruct (gc_refs_mirror (g opaque) acc acc' _ l' (collect_fold _ _) E') as (k & k' & Ek & -> & P).
  apply app_inv_head in Ek as <-. exists (f opaque), k'. split; [done|]. split; [done|]. intros H.
  by rewrite Hp, P.
Qed.

Lemma mirrors_regexp o : mirrors (fun acc => Ret acc) (js_regexp_finalizer o).
Proof using. unfold js_regexp_finalizer. destruct (u o); try apply mirrors_err_r. apply mirrors_leaf. by intros acc l [= <-]. Qed.

Lemma mirrors_array_buffer o : mirrors (fun acc => Ret acc) (js_array_buffer_finalizer o).
Proof using. unfold js_array_buffer_finalizer. destruct (u o); try apply mirrors_err_r; apply mirrors_ret. Qed.

Lemma mirrors_weakref obj o : mirrors (fun acc => Ret acc) (js_weakref_finalizer obj o).
Proof using.
  unfold js_weakref_finalizer. cbn [drop_weak_ref collecting collect_refs].
  destruct (JS_GetOpaque _ _), open_frames; try apply mirrors_err_r; apply mirrors_ret.
Qed.

Lemma mirrors_finrec obj o : mirrors (js_finrec_mark collect o) (js_finrec_finalizer obj o).
Proof using.
  unfold js_finrec_mark, js_finrec_finalizer.
  destruct (JS_GetOpaque _ _); try apply mirrors_err_l; try apply mirrors_ret.
  apply (mirrors_bind (fun acc => Ret acc) _ (fun acc => ofold (fun st fre => drop_weak_ref st (fre_target fre) _) acc entries)).
  - induction entries as [|e entries IH]; [apply mirrors_ret|]. cbn [ofold drop_weak_ref collecting collect_refs] in *.
    destruct open_frames; [apply mirrors_err_r|exact IH].
  - apply mirrors_swap; [apply mirrors_value|]. apply mirrors_ofold. intros e _. apply mirrors_values.
Qed.

Lemma mirrors_c_function o : mirrors (js_c_function_mark collect o) (js_c_function_finalizer o).
Proof using.
  unfold js_c_function_mark, js_c_function_finalizer. destruct (u o); try apply mirrors_err_l.
  destruct realm; [apply mirrors_call|apply mirrors_ret].
Qed.

Lemma mirrors_map_iterator o : mirrors (js_map_iterator_mark collect o) (js_map_iterator_finalizer o).
Proof using.
  unfold js_map_iterator_mark, js_map_iterator_finalizer.
  destruct (u o); try apply mirrors_err_l; try apply mirrors_ret. destruct cur_record; apply mirrors_value.
Qed.

Lemma mirrors_generator o :
  (class_id o =? JS_CLASS_GENERATOR) = true -> tidy_class_data (u o) = true ->
  mirrors (js_generator_mark collect o) (js_generator_finalizer o).
Proof using.
  intros Hc Ht. unfold js_generator_mark, js_generator_finalizer, JS_GetOpaque. rewrite Hc.
  destruct (u o); try destruct state; mirror.
Qed.

Lemma mirrors_async_generator o :
  tidy_class_data (u o) = true -> mirrors (js_async_generator_mark collect o) (js_async_generator_finalizer o).
Proof using.
  intros Ht. unfold js_async_generator_mark, js_async_generator_finalizer, JS_GetOpaque.
  destruct (u o), (class_id o =? JS_CLASS_ASYNC_GENERATOR); try destruct state; mirror.
Qed.

(** A class whose two functions go through the same members. *)
Ltac mirror_class :=
  unfold js_array_mark, js_array_finalizer, js_object_data_mark, js_object_data_finalizer, js_c_function_mark,
    js_c_function_finalizer, js_bound_function_mark, js_bound_function_finalizer, js_c_function_data_mark,
    js_c_function_data_finalizer, js_for_in_iterator_mark, js_for_in_iterator_finalizer, js_typed_array_mark,
    js_typed_array_finalizer, js_iterator_helper_mark, js_iterator_helper_finalizer, js_iterator_wrap_mark,
    js_iterator_wrap_finalizer, js_map_iterator_mark, js_map_iterator_finalizer, js_array_iterator_mark,
    js_array_iterator_finalizer, js_regexp_string_iterator_mark, js_regexp_string_iterator_finalizer,
    js_generator_mark, js_generator_finalizer, js_proxy_mark, js_proxy_finalizer, js_promise_mark,
    js_promise_finalizer, promise_reaction_data_free, js_promise_resolve_function_mark,
    js_promise_resolve_function_finalizer, js_async_function_resolve_mark, js_async_function_resolve_finalizer,
    js_async_from_sync_iterator_mark, js_async_from_sync_iterator_finalizer, js_async_generator_mark,
    js_async_generator_finalizer, js_callsite_mark, js_callsite_finalizer;
  repeat match goal with
  | |- mirrors (fun acc => match ?x with U_null => _ | _ => _ end) _ => destruct x
  | |- mirrors _ (fun acc => match ?x with U_null => _ | _ => _ end) => destruct x
  end.

(** The classes with a finalizer and no mark function. *)
Definition is_leaf_class (id : Z) : bool :=
  existsb (Z.eqb id) [JS_CLASS_REGEXP; JS_CLASS_ARRAY_BUFFER; JS_CLASS_SHARED_ARRAY_BUFFER; JS_CLASS_WEAK_REF].

Lemma mirrors_leaf_class obj o :
  is_leaf_class (class_id o) = true ->
  mirrors (fun acc => match class_gc_mark rt collect (class_id o) with Some m => m o acc | None => Ret acc end)
    (fun acc => call_finalizer rt (get_bytecode rt) obj o acc).
Proof using.
  unfold is_leaf_class, call_finalizer. cbn [existsb]. rewrite !orb_true_iff, !Z.eqb_eq.
  intros [->|[->|[->|[->|]]]]; [| | | |done]; (eapply mirrors_eq; [intro; reflexivity|intro; reflexivity|]).
  - apply mirrors_regexp.
  - apply mirrors_array_buffer.
  - apply mirrors_array_buffer.
  - apply mirrors_weakref.
Qed.

Lemma mirrors_class obj o :
  host_classes_ok rt -> tidy_class_data (u o) = true ->
  mirrors (fun acc => match class_gc_mark rt collect (class_id o) with Some m => m o acc | None => Ret acc end)
    (fun acc => call_finalizer rt (get_bytecode rt) obj o acc).
Proof using.
  intros Hh Ht. destruct (is_leaf_class (class_id o)) eqn:El; [by apply mirrors_leaf_class|].
  unfold call_finalizer, class_gc_mark, class_finalizer. cbv zeta. unfold is_leaf_class in El. cbn [existsb] in El.
  rewrite !orb_false_iff in El. destruct El as (El1 & El2 & El3 & El4 & _). rewrite El1, El4.
  cbn [existsb]. rewrite El2, El3. cbn [orb].
  repeat match goal with
  | |- mirrors _ (fun acc => match (if ?b then _ else _) with _ => _ end) => destruct b eqn:?E
  end.
  all: try (mirror_class; mirror; fail).
  all: try first [apply mirrors_bytecode_function | by apply mirrors_map | apply mirrors_finrec
    | apply mirrors_c_function | apply mirrors_map_iterator | by apply mirrors_generator
    | by apply mirrors_async_generator].
  pose proof (Hh (class_id o)) as Hp. destruct (host_gc_mark rt _) as [f|], (host_finalizer rt _) as [g|].
  - by apply mirrors_host.
  - unfold host_mark. destruct (u o); try apply mirrors_err_l.
    intros acc acc' l l' E' [= <-]. rewrite collect_fold in E'. injection E' as <-.
    rewrite (Permutation_nil (symmetry (Hp opaque))). exists [], []. by rewrite !app_nil_r.
  - unfold host_class_finalizer. destruct (u o); try apply mirrors_err_r.
    pose proof (gc_refs_mirror (g opaque)) as H. by rewrite (Permutation_nil (Hp opaque)) in H.
  - apply mirrors_ret.
Qed.

Lemma mirrors_module_def m :
  mirrors (fun acc => js_mark_module_def collect m acc) (fun acc => js_free_module_def m acc).
Proof using.
  apply mirrors_bind; [|apply mirrors_values]. apply mirrors_ofold. intros [is_local [v|]] _;
    destruct is_local; [apply mirrors_call|apply mirrors_ret..].
Qed.

Lemma mirrors_context ctx :
  mirrors (fun acc => JS_MarkContext rt collect ctx acc) (fun acc => free_context_refs (class_count rt) ctx acc).
Proof using.
  unfold JS_MarkContext, free_context_refs.
  apply mirrors_bind; [apply mirrors_ofold; intros m _; apply mirrors_module_def|]. mirror.
  destruct (array_shape ctx); [apply mirrors_call|apply mirrors_ret].
Qed.

Lemma mirrors_bytecode b :
  mirrors (fun acc =>
      let* acc := mark_array collect acc (cpool b) (cpool_count b) in
      let* acc := mark_ptr collect acc (b_realm b) in
      match ic b with Some cache => ofold (ofold (mark_ptr collect)) acc cache | None => Ret acc end)
    (fun acc => free_bytecode_refs b acc).
Proof using.
  eapply mirrors_eq; [intros acc; symmetry; apply (obind_assoc _ (fun a => mark_ptr collect a (b_realm b)))|done|].
  apply mirrors_swap.
  - apply mirrors_bind; [apply mirrors_array|]. destruct (b_realm b); [apply mirrors_call|apply mirrors_ret].
  - destruct (ic b) as [cache|]; [|apply mirrors_ret]. apply mirrors_ofold. intros l _. apply mirrors_ofold.
    intros [sh|] _; [apply mirrors_call|apply mirrors_ret].
Qed.

Lemma mirrors_shape obj sh :
  mirrors (fun acc => mark_ptr collect acc (proto sh)) (fun acc => free_shape_refs obj sh acc).
Proof using.
  eapply (mirrors_eq _ (fun acc => let* acc := mark_ptr collect acc (proto sh) in Ret acc)).
  { intros acc. by destruct (mark_ptr _ acc _). }
  { intros acc. unfold free_shape_refs. cbn [record_call collecting collect_refs].
    instantiate (1 := fun acc => _). cbv beta. destruct (is_hashed sh); reflexivity. }
  apply mirrors_bind; [apply mirrors_obj_ptr|]. apply mirrors_leaf. intros acc l.
  generalize (seqZ 0 (prop_count sh)). intros l0. induction l0 as [|i l0 IH]; [by intros [= <-]|].
  cbn [ofold]. destruct (rd (shape_prop sh) i); [exact IH|done].
Qed.
End Mirror.

(** * The theorem *)

Lemma object_class_mark rt {S : Type} (f : S -> Z -> outcome S) o st :
  (if negb (class_id o =? JS_CLASS_OBJECT) then
     match class_gc_mark rt f (class_id o) with Some gc_mark => gc_mark o st | None => Ret st end
   else Ret st) =
  match class_gc_mark rt f (class_id o) with Some gc_mark => gc_mark o st | None => Ret st end.
Proof. destruct (Z.eqb_spec (class_id o) JS_CLASS_OBJECT) as [->|]; done. Qed.

Lemma mirrors_object rt open_frames p o sh :
  host_classes_ok rt -> tidy_class_data (u o) = true ->
  forallb (tidy_property o sh) (seqZ 0 (prop_count sh)) = true ->
  mirrors rt (fun acc =>
      let* acc := let* acc := Ret (acc ++ [shape o]) in
                  ofold (mark_property rt (fun l p => Ret (l ++ [p])) o (shape_prop sh)) acc (seqZ 0 (prop_count sh)) in
      match class_gc_mark rt (fun l p => Ret (l ++ [p])) (class_id o) with Some m => m o acc | None => Ret acc end)
    (fun acc =>
      let* acc := let* acc := free_properties (R := collect_refs open_frames) o sh acc in
                  release_shape (Release := collect_refs open_frames) acc (shape o) in
      call_finalizer (R := collect_refs open_frames) rt (get_bytecode rt) p o acc).
Proof.
  intros Hh Hu Ht. apply mirrors_bind; [|by apply mirrors_class].
  apply (mirrors_swap rt (fun acc => Ret (acc ++ [shape o])) _ _
           (fun acc => free_properties (R := collect_refs open_frames) o sh acc)); [apply mirrors_call|].
  by apply mirrors_properties.
Qed.

Lemma mirrors_children rt open_frames p :
  host_classes_ok rt -> tidy rt p = true ->
  mirrors rt (fun acc => mark_children rt (fun (l : list Z) p => Ret (l ++ [p])) p acc)
    (fun acc => free_refs (R := collect_refs open_frames) rt p acc).
Proof.
  intros Hh Ht. unfold mark_children, free_refs. unfold tidy in Ht.
  destruct (gc_objects rt !! p) as [[o|b|sh|r|s|ctx]|] eqn:Ep; [| | | | | |apply mirrors_err_l].
  - apply andb_true_iff in Ht as [Hu Ht]. destruct (get_shape rt (shape o)) as [sh|]; [|apply mirrors_err_r].
    cbn [obind]. eapply mirrors_eq; [| |exact (mirrors_object rt open_frames p o sh Hh Hu Ht)].
    + intros acc. cbn [obind]. destruct (ofold _ _ _); [apply object_class_mark|done].
    + intros acc. symmetry. apply obind_assoc.
  - apply mirrors_bytecode.
  - apply mirrors_shape.
  - apply mirrors_read. intros _ _. apply mirrors_value.
  - apply mirrors_bind; [|apply mirrors_values]. destruct (is_active s); [by apply mirrors_async|apply mirrors_ret].
  - apply mirrors_context.
Qed.

Lemma released_perm rt open_frames p ks :
  host_classes_ok rt -> well_typed rt open_frames p = true -> children rt p = Ret ks ->
  exists rs, released rt open_frames p = Ret rs /\ Permutation (map snd rs) ks /\ forallb (ref_ok rt) rs = true.
Proof.
  intros Hh Hw Hk. unfold well_typed in Hw. apply andb_true_iff in Hw as [Ht Hr].
  destruct (released rt open_frames p) as [rs|] eqn:Er; [|done]. exists rs. split; [done|]. split; [|done].
  destruct (mirrors_children rt (Some open_frames) p Hh Ht [] [] ks rs Hk Er) as (k & k' & -> & -> & P). by apply P.
Qed.

(** * The kinds of the references *)

(** An object that is not a value holds references to values; a context also to
    variables and shapes. *)
Section Kinds.
Variable open_frames : gmap Z (list Z).
Variable P : ref_kind -> bool.
Hypothesis P_value : forall tag, P (K_value tag) = true.
Abbreviation C := (collect_release open_frames).

Definition emits (prog : list (ref_kind * Z) -> outcome (list (ref_kind * Z))) : Prop :=
  forall acc l, prog acc = Ret l -> exists k, l = acc ++ k /\ forallb (fun r => P r.1) k = true.

Lemma collects_ret : emits (fun acc => Ret acc).
Proof using. intros acc l [= <-]. exists []. by rewrite app_nil_r. Qed.

Lemma emits_err e : emits (fun _ => Err e).
Proof using. by intros acc l ?. Qed.

Lemma emits_one kd p : P kd = true -> emits (fun acc => Ret (acc ++ [(kd, p)])).
Proof using. intros H acc l [= <-]. exists [(kd, p)]. cbn. by rewrite H. Qed.

Lemma collects_bind m1 m2 : emits m1 -> emits m2 -> emits (fun acc => let* acc := m1 acc in m2 acc).
Proof using.
  intros H1 H2 acc l E. destruct (m1 acc) as [l1|] eqn:E1; [|done]. cbn [obind] in E.
  apply H1 in E1 as (k1 & -> & F1). apply H2 in E as (k2 & -> & F2). exists (k1 ++ k2).
  by rewrite app_assoc, forallb_app, F1, F2.
Qed.

Lemma emits_read {X : Type} (o : outcome X) m : (forall x, emits (m x)) -> emits (fun acc => let* x := o in m x acc).
Proof using. intros H. destruct o; cbn [obind]; [apply H|apply emits_err]. Qed.

Lemma emits_ofold {X : Type} (m : list (ref_kind * Z) -> X -> outcome (list (ref_kind * Z))) xs :
  (forall x, emits (fun acc => m acc x)) -> emits (fun acc => ofold m acc xs).
Proof using.
  intros H. induction xs as [|x xs IH]; cbn [ofold]; [apply collects_ret|].
  apply (collects_bind (fun acc => m acc x)); [apply H|exact IH].
Qed.

Lemma emits_value v : emits (fun acc => release_value (Release := C) acc v).
Proof using P_value.
  cbn [release_value collect_release collect_refs]. unfold collect_value. destruct (JS_VALUE_HAS_REF_COUNT v); [|apply collects_ret].
  destruct (is_leaf_tag _); [apply collects_ret|]. destruct (is_gc_tag _); [by apply emits_one|apply emits_err].
Qed.

Lemma emits_values vals : emits (fun acc => release_values (R := C) acc vals).
Proof using P_value. apply emits_ofold. intros v. apply emits_value. Qed.

Lemma emits_array vals n : emits (fun acc => release_array (R := C) acc vals n).
Proof using P_value. apply emits_ofold. intros i. apply emits_read. intros v. apply emits_value. Qed.

Lemma emits_shape obj sh : emits (fun acc => free_shape_refs (R := C) obj sh acc).
Proof using P_value.
  unfold free_shape_refs. cbn [record_call collect_release collect_refs]. destruct (is_hashed sh);
    (apply collects_bind; [destruct (proto sh); [apply emits_value|apply collects_ret]|];
     apply emits_ofold; intros i; apply emits_read; intros pr; apply collects_ret).
Qed.

Lemma emits_async s : emits (fun acc => free_async_refs (R := C) s acc).
Proof using P_value.
  apply collects_bind; [|apply emits_values]. destruct (is_active s); [|apply collects_ret]. unfold async_func_free.
  apply collects_bind; [cbn [close_frame collect_release collect_refs]; destruct (open_frames !! _) as [[|]|]; apply collects_ret || apply emits_err|].
  apply collects_bind; [|apply collects_bind; apply emits_value].
  destruct (has_arg_buf _); [|apply collects_ret]. destruct (stack _); [apply emits_values|apply emits_err].
Qed.

Lemma emits_context n ctx :
  P K_var_ref = true -> P K_shape = true -> emits (fun acc => free_context_refs (R := C) n ctx acc).
Proof using P_value.
  intros Hv Hs. unfold free_context_refs. apply collects_bind.
  - apply emits_ofold. intros m. apply collects_bind; [|apply emits_values]. apply emits_ofold.
    intros [[] [p|]]; try apply collects_ret. by apply emits_one.
  - repeat (apply collects_bind; [first [apply emits_values|apply emits_array]|]).
    destruct (array_shape ctx); [by apply emits_one|apply collects_ret].
Qed.
End Kinds.

Definition is_context (o : gc_object) : bool := match o with GC_JS_CONTEXT _ => true | _ => false end.

(** The kinds of the references that an object that is not a value holds. *)
Definition inner_kind (o : gc_object) (kd : ref_kind) : bool :=
  match kd with
  | K_value _ => true
  | K_var_ref | K_shape => is_context o
  | _ => false
  end.

Lemma released_kinds rt open_frames p o k :
  gc_objects rt !! p = Some o -> is_value_object o = false -> released rt open_frames p = Ret k ->
  forallb (fun r => inner_kind o r.1) k = true.
Proof.
  intros Eo Hv. unfold released, free_refs. rewrite Eo.
  assert (emits (inner_kind o) (fun acc => match o with
    | GC_JS_OBJECT _ | GC_FUNCTION_BYTECODE _ => Ret acc
    | GC_VAR_REF r => let* _ := c_assert (is_detached r) in release_value (Release := collect_release open_frames) acc (pvalue r)
    | GC_ASYNC_FUNCTION s => free_async_refs (R := collect_release open_frames) s acc
    | GC_SHAPE sh => free_shape_refs (R := collect_release open_frames) p sh acc
    | GC_JS_CONTEXT ctx => free_context_refs (R := collect_release open_frames) (class_count rt) ctx acc
    end)) as H.
  { destruct o; try done; [by apply emits_shape| |by apply emits_async|by apply emits_context].
    apply emits_read. intros _. by apply emits_value. }
  intros E. destruct o; try done; apply (H [] k) in E as (k' & -> & Hk); exact Hk.
Qed.
