(* ===== verification/GcTyped.v ===== *)
(** Typed objects can be marked and freed, and the two agree.

    The typing reads the fields only: a value points to an object of the kind of
    its tag, a pointer of a field to an object of the kind that the field is
    declared with, an array has the cells that its count says, an object stores
    the member of the union that its class uses.  On a typed object the mark
    function and the freeing return, and what the latter releases is what the
    former visits, at the kinds of the fields. *)
From Stdlib Require Import ZArith Lia Bool List Permutation.
From stdpp Require Import base tactics list numbers gmap.
From S2P Require Import Prelude GcObject GcChildren Gc GcFree GcRelease.

(** * The typing *)

Section Typing.
Variable rt : JSRuntime.

Definition value_typed (v : JSValue) : bool :=
  negb (JS_VALUE_HAS_REF_COUNT v) || is_leaf_tag (jv_tag v) || ref_ok rt (K_value (jv_tag v), jv_ptr v).

Definition opt_typed (kd : ref_kind) (p : option Z) : bool :=
  match p with Some p => ref_ok rt (kd, p) | None => true end.

(** The first [n] cells of an array. *)
Definition cells_typed {A : Type} (ok : A -> bool) (l : list A) (n : Z) : bool :=
  forallb (fun i => match rd l i with Ret x => ok x | Err _ => false end) (seqZ 0 n).

(** The member of [JSProperty] that the flags say. *)
Definition property_typed (pr : JSShapeProperty) (v : JSProperty) : bool :=
  let t := Z.land (flags pr) JS_PROP_TMASK in
  match v with
  | P_value v => (t =? 0) && value_typed v
  | P_getset getter setter =>
      (t =? JS_PROP_GETSET) &&
      (opt_typed (K_value JS_TAG_OBJECT) getter && opt_typed (K_value JS_TAG_OBJECT) setter)
  | P_var_ref p => (t =? JS_PROP_VARREF) && ref_ok rt (K_var_ref, p)
  | P_init realm => (t =? JS_PROP_AUTOINIT) && ref_ok rt (K_context, realm)
  end.

Definition properties_typed (o : JSObject) (sh : JSShape) : bool :=
  forallb (fun i => match rd (shape_prop sh) i, rd (prop o) i with
                    | Ret pr, Ret v => property_typed pr v
                    | _, _ => false
                    end) (seqZ 0 (prop_count sh)).

Definition async_state_typed (s : JSAsyncFunctionState) : bool :=
  forallb value_typed [this_val s; cur_func s] &&
  match stack s with Some vals => forallb value_typed vals | None => negb (has_arg_buf s) end.

Definition func_typed (b : option Z) (var_refs : option (list (option Z))) (home_object : option Z) : bool :=
  opt_typed (K_value JS_TAG_OBJECT) home_object &&
  match b with
  | Some b =>
      ref_ok rt (K_value JS_TAG_FUNCTION_BYTECODE, b) &&
      match var_refs, get_bytecode rt b with
      | Some var_refs, Ret code => cells_typed (opt_typed K_var_ref) var_refs (closure_var_count code)
      | _, _ => true
      end
  | None => true
  end.

Definition record_typed (weak : bool) (mr : JSMapRecord) : bool :=
  (weak || value_typed (mr_key mr)) && value_typed (mr_value mr).

Definition request_typed (req : JSAsyncGeneratorRequest) : bool :=
  forallb value_typed [result req; req_promise req; fst (req_resolving_funcs req); snd (req_resolving_funcs req)].

Definition reaction_typed (r : JSPromiseReactionData) : bool :=
  forallb value_typed [fst (rd_resolving_funcs r); snd (rd_resolving_funcs r); handler r].

(** The fields of the members of the union [u]; a weak reference can point to
    anything. *)
Definition data_typed (d : JSClassData) : bool :=
  match d with
  | U_null | U_regexp _ _ | U_array_buffer | U_weak_ref _ | U_weak_ref_sentinel | U_host _ => true
  | U_array values count => cells_typed value_typed values count
  | U_object_data v | U_for_in_iterator v | U_map_iterator v _ | U_array_iterator v | U_promise_function v =>
      value_typed v
  | U_cfunc realm => opt_typed K_context realm
  | U_func b var_refs home_object => func_typed b var_refs home_object
  | U_bound_function f this argv argc => value_typed f && value_typed this && cells_typed value_typed argv argc
  | U_c_function_data data data_len => cells_typed value_typed data data_len
  | U_typed_array buffer => ref_ok rt (K_value JS_TAG_OBJECT, buffer)
  | U_map_state s => forallb (record_typed (is_weak s)) (records s)
  | U_regexp_string_iterator a b | U_iterator_wrap a b | U_proxy a b | U_async_from_sync_iterator a b =>
      forallb value_typed [a; b]
  | U_generator JS_GENERATOR_STATE_COMPLETED _ => true
  | U_generator _ s => async_state_typed s
  | U_iterator_helper obj func next inner => forallb value_typed [obj; func; next; inner]
  | U_promise reactions res => cells_typed (forallb reaction_typed) reactions 2 && value_typed res
  | U_async_function s => ref_ok rt (K_async, s)
  | U_async_generator state s queue =>
      forallb request_typed queue &&
      match state with
      | JS_ASYNC_GENERATOR_STATE_COMPLETED | JS_ASYNC_GENERATOR_STATE_AWAITING_RETURN => true
      | _ => async_state_typed s
      end
  | U_finrec cb entries =>
      value_typed cb && forallb (fun fre => forallb value_typed [held_val fre; token fre]) entries
  | U_callsite filename func func_name => forallb value_typed [filename; func; func_name]
  end.

(** The member of the union [u] that a class uses, or null for the members that
    the class sets after the object is created; a class of the host program with a
    mark function or a finalizer stores what these expect. *)
Definition member_of (id : Z) (d : JSClassData) : bool :=
  let mem := existsb (Z.eqb id) in
  if mem [JS_CLASS_ARRAY; JS_CLASS_ARGUMENTS] then match d with U_array _ _ => true | _ => false end
  else if mem [JS_CLASS_NUMBER; JS_CLASS_STRING; JS_CLASS_BOOLEAN; JS_CLASS_SYMBOL; JS_CLASS_DATE; JS_CLASS_BIG_INT]
  then match d with U_object_data _ => true | _ => false end
  else if id =? JS_CLASS_C_FUNCTION then match d with U_cfunc _ => true | _ => false end
  else if mem [JS_CLASS_BYTECODE_FUNCTION; JS_CLASS_GENERATOR_FUNCTION; JS_CLASS_ASYNC_FUNCTION;
               JS_CLASS_ASYNC_GENERATOR_FUNCTION] then match d with U_func _ _ _ => true | _ => false end
  else if id =? JS_CLASS_BOUND_FUNCTION then match d with U_bound_function _ _ _ _ => true | _ => false end
  else if id =? JS_CLASS_C_FUNCTION_DATA then match d with U_null | U_c_function_data _ _ => true | _ => false end
  else if id =? JS_CLASS_FOR_IN_ITERATOR then match d with U_for_in_iterator _ => true | _ => false end
  else if id =? JS_CLASS_REGEXP then match d with U_regexp _ _ => true | _ => false end
  else if mem [JS_CLASS_ARRAY_BUFFER; JS_CLASS_SHARED_ARRAY_BUFFER]
  then match d with U_null | U_array_buffer => true | _ => false end
  else if (JS_CLASS_UINT8C_ARRAY <=? id) && (id <=? JS_CLASS_DATAVIEW)
  then match d with U_null | U_typed_array _ => true | _ => false end
  else if mem [JS_CLASS_MAP; JS_CLASS_SET; JS_CLASS_WEAKMAP; JS_CLASS_WEAKSET]
  then match d with U_null | U_map_state _ => true | _ => false end
  else if id =? JS_CLASS_ITERATOR_HELPER then match d with U_null | U_iterator_helper _ _ _ _ => true | _ => false end
  else if id =? JS_CLASS_ITERATOR_WRAP then match d with U_null | U_iterator_wrap _ _ => true | _ => false end
  else if mem [JS_CLASS_MAP_ITERATOR; JS_CLASS_SET_ITERATOR]
  then match d with U_null | U_map_iterator _ _ => true | _ => false end
  else if mem [JS_CLASS_ARRAY_ITERATOR; JS_CLASS_STRING_ITERATOR]
  then match d with U_null | U_array_iterator _ => true | _ => false end
  else if id =? JS_CLASS_REGEXP_STRING_ITERATOR
  then match d with U_null | U_regexp_string_iterator _ _ => true | _ => false end
  else if id =? JS_CLASS_GENERATOR then match d with U_null | U_generator _ _ => true | _ => false end
  else if id =? JS_CLASS_PROXY then match d with U_null | U_proxy _ _ => true | _ => false end
  else if id =? JS_CLASS_PROMISE then match d with U_null | U_promise _ _ => true | _ => false end
  else if mem [JS_CLASS_PROMISE_RESOLVE_FUNCTION; JS_CLASS_PROMISE_REJECT_FUNCTION]
  then match d with U_null | U_promise_function _ => true | _ => false end
  else if mem [JS_CLASS_ASYNC_FUNCTION_RESOLVE; JS_CLASS_ASYNC_FUNCTION_REJECT]
  then match d with U_null | U_async_function _ => true | _ => false end
  else if id =? JS_CLASS_ASYNC_FROM_SYNC_ITERATOR
  then match d with U_null | U_async_from_sync_iterator _ _ => true | _ => false end
  else if id =? JS_CLASS_ASYNC_GENERATOR then match d with U_null | U_async_generator _ _ _ => true | _ => false end
  else if id =? JS_CLASS_WEAK_REF
  then match d with U_null | U_weak_ref _ | U_weak_ref_sentinel => true | _ => false end
  else if id =? JS_CLASS_FINALIZATION_REGISTRY then match d with U_null | U_finrec _ _ => true | _ => false end
  else if id =? JS_CLASS_CALL_SITE then match d with U_null | U_callsite _ _ _ => true | _ => false end
  else if id <? JS_CLASS_INIT_COUNT then true
  else match host_gc_mark rt id, host_finalizer rt id, d with
       | None, None, _ => true
       | _, Some f, U_host opaque => forallb value_typed (f opaque)
       | _, None, U_host _ => true
       | _, _, _ => false
       end.

Definition js_object_typed (o : JSObject) : bool :=
  match get_shape rt (shape o) with Ret sh => properties_typed o sh | Err _ => false end &&
  (member_of (class_id o) (u o) && data_typed (u o)).

Definition bytecode_typed (b : JSFunctionBytecode) : bool :=
  cells_typed value_typed (cpool b) (cpool_count b) &&
  (opt_typed K_context (b_realm b) &&
   match ic b with Some cache => forallb (forallb (opt_typed K_shape)) cache | None => true end).

Definition async_data_typed (s : JSAsyncFunctionData) : bool :=
  (if is_active s then async_state_typed (a_func_state s) else true) &&
  forallb value_typed [fst (a_resolving_funcs s); snd (a_resolving_funcs s)].

Definition module_typed (m : JSModuleDef) : bool :=
  forallb (fun '(is_local, var_ref) => if is_local : bool then opt_typed K_var_ref var_ref else true)
    (export_entries m) &&
  forallb value_typed [module_ns m; func_obj m; eval_exception m; meta_obj m; m_promise m;
                       fst (m_resolving_funcs m); snd (m_resolving_funcs m)].

Definition context_typed (ctx : JSContext) : bool :=
  forallb module_typed (loaded_modules ctx) &&
  (forallb value_typed [global_obj ctx; global_var_obj ctx; throw_type_error ctx; eval_obj ctx;
                        array_proto_values ctx] &&
   (cells_typed value_typed (native_error_proto ctx) JS_NATIVE_ERROR_COUNT &&
    (forallb value_typed [error_ctor ctx; error_prepare_stack ctx] &&
     (cells_typed value_typed (class_proto ctx) (class_count rt) &&
      (forallb value_typed [iterator_ctor ctx; async_iterator_proto ctx; promise_ctor ctx; array_ctor ctx;
                            regexp_ctor ctx; function_ctor ctx; function_proto ctx] &&
       opt_typed K_shape (array_shape ctx)))))).

(** The object [p] is typed and what it does not use is empty ([tidy]). *)
Definition object_typed (p : Z) : bool :=
  tidy rt p &&
  match gc_objects rt !! p with
  | Some (GC_JS_OBJECT o) => js_object_typed o
  | Some (GC_FUNCTION_BYTECODE b) => bytecode_typed b
  | Some (GC_SHAPE sh) =>
      opt_typed (K_value JS_TAG_OBJECT) (proto sh) && cells_typed (fun _ => true) (shape_prop sh) (prop_count sh)
  | Some (GC_VAR_REF r) => is_detached r && value_typed (pvalue r)
  | Some (GC_ASYNC_FUNCTION s) => async_data_typed s
  | Some (GC_JS_CONTEXT ctx) => context_typed ctx
  | None => false
  end.
End Typing.

(** When the open variables of the frames are given: the object holds no weak
    reference, and its frame has no open variable. *)
Section Detached.
Variable frames : option (gmap Z (list Z)).

Definition frame_closed (s : JSAsyncFunctionState) : bool :=
  match frames with
  | Some open_frames => match open_frames !! frame s with Some (_ :: _) => false | _ => true end
  | None => true
  end.

Definition no_weak (d : JSClassData) : bool :=
  match frames with
  | Some _ =>
      match d with
      | U_map_state s => negb (is_weak s) || forallb mr_empty (records s)
      | U_weak_ref _ | U_finrec _ (_ :: _) => false
      | _ => true
      end
  | None => true
  end.

Definition detached (rt : JSRuntime) (p : Z) : bool :=
  match gc_objects rt !! p with
  | Some (GC_JS_OBJECT o) =>
      no_weak (u o) && match u o with U_generator _ s | U_async_generator _ s _ => frame_closed s | _ => true end
  | Some (GC_ASYNC_FUNCTION s) => frame_closed (a_func_state s)
  | _ => true
  end.
End Detached.

(** What freeing the object [p] releases, in order, weak references and open
    variables of its frame included. *)
Definition freed (rt : JSRuntime) (p : Z) : outcome (list (ref_kind * Z)) :=
  free_refs (R := collect_refs None) rt p [].

(** * Programs that add elements to a list *)

Section Adds.
Context {A : Type}.
Variable ok : A -> bool.

Definition adds (m : list A -> outcome (list A)) : Prop :=
  forall acc, exists k, m acc = Ret (acc ++ k) /\ forallb ok k = true.

Lemma adds_ret : adds (fun acc => Ret acc).
Proof using. intros acc. exists []. by rewrite app_nil_r. Qed.

Lemma adds_one x : ok x = true -> adds (fun acc => Ret (acc ++ [x])).
Proof using. intros H acc. exists [x]. cbn. by rewrite H. Qed.

Lemma adds_bind m1 m2 : adds m1 -> adds m2 -> adds (fun acc => let* acc := m1 acc in m2 acc).
Proof using.
  intros H1 H2 acc. destruct (H1 acc) as (k1 & -> & F1). cbn [obind]. destruct (H2 (acc ++ k1)) as (k2 & -> & F2).
  exists (k1 ++ k2). by rewrite app_assoc, forallb_app, F1, F2.
Qed.

Lemma adds_ofold {X : Type} (m : list A -> X -> outcome (list A)) xs :
  (forall x, In x xs -> adds (fun acc => m acc x)) -> adds (fun acc => ofold m acc xs).
Proof using.
  induction xs as [|x xs IH]; intros H; cbn [ofold]; [apply adds_ret|].
  apply (adds_bind (fun acc => m acc x)); [apply H; by left|]. apply IH. intros y Hy. apply H. by right.
Qed.

(** A loop over the elements of a list, or the cells of an array, that satisfy [P]. *)
Lemma adds_list {X : Type} (P : X -> bool) (m : list A -> X -> outcome (list A)) xs :
  (forall x, P x = true -> adds (fun acc => m acc x)) -> forallb P xs = true -> adds (fun acc => ofold m acc xs).
Proof using. rewrite forallb_forall. intros H Hx. apply adds_ofold. intros x Hi. by apply H, Hx. Qed.

Lemma adds_cells {X : Type} (P : X -> bool) (m : list A -> X -> outcome (list A)) l n :
  (forall x, P x = true -> adds (fun acc => m acc x)) -> cells_typed P l n = true ->
  adds (fun acc => ofold (fun st i => let* x := rd l i in m st x) acc (seqZ 0 n)).
Proof using.
  intros H Hc. apply (adds_list (fun i => match rd l i with Ret x => P x | Err _ => false end)); [|exact Hc].
  intros i Hi. destruct (rd l i) as [x|]; [by apply H|done].
Qed.
End Adds.

Section Typed.
Variable rt : JSRuntime.
Variable frames : option (gmap Z (list Z)).
#[local] Instance C : Release (list (ref_kind * Z)) := collect_refs frames.
Abbreviation collect := (fun (l : list Z) (p : Z) => Ret (l ++ [p])).
Abbreviation marks := (adds (fun _ : Z => true)).
Abbreviation frees := (adds (ref_ok rt)).

(** ** Values and pointers *)

Lemma marks_value v : marks (fun acc => JS_MarkValue collect acc v).
Proof using. unfold JS_MarkValue. repeat case_match; try apply adds_ret; by apply adds_one. Qed.

Lemma ref_ok_gc_tag tag p : ref_ok rt (K_value tag, p) = true -> is_gc_tag tag = true.
Proof using. unfold ref_ok, is_gc_tag. cbn. repeat case_match; try done; intros ->; [done|by rewrite orb_true_r]. Qed.

Lemma frees_value v : value_typed rt v = true -> frees (fun acc => release_value acc v).
Proof using.
  unfold value_typed. cbn [release_value C collect_refs]. unfold collect_value.
  destruct (JS_VALUE_HAS_REF_COUNT v); [|intros; apply adds_ret].
  destruct (is_leaf_tag _); [intros; apply adds_ret|]. cbn [negb orb]. intros H.
  rewrite (ref_ok_gc_tag _ _ H). by apply adds_one.
Qed.

Lemma marks_ptr p : marks (fun acc => mark_ptr collect acc p).
Proof using. destruct p; [by apply adds_one|apply adds_ret]. Qed.

Lemma value_typed_ptr tag p : ref_ok rt (K_value tag, p) = true -> value_typed rt (JS_MKPTR tag p) = true.
Proof using. intros H. unfold value_typed. cbn [JS_MKPTR jv_tag jv_ptr]. by rewrite H, !orb_true_r. Qed.

Lemma frees_gc_value tag p : ref_ok rt (K_value tag, p) = true -> frees (fun acc => release_value acc (JS_MKPTR tag p)).
Proof using. intros H. by apply frees_value, value_typed_ptr. Qed.

Lemma frees_obj_ptr tag p : opt_typed rt (K_value tag) p = true -> frees (fun acc => release_ptr tag acc p).
Proof using. destruct p; [apply frees_gc_value|intros; apply adds_ret]. Qed.

Lemma frees_var_ref p : opt_typed rt K_var_ref p = true -> frees (fun acc => release_var_ref acc p).
Proof using. destruct p; [intros H; exact (adds_one (ref_ok rt) _ H)|intros; apply adds_ret]. Qed.

Lemma frees_context_opt p : opt_typed rt K_context p = true -> frees (fun acc => release_context_opt acc p).
Proof using. destruct p; [intros H; exact (adds_one (ref_ok rt) _ H)|intros; apply adds_ret]. Qed.

Lemma frees_shape_null p : opt_typed rt K_shape p = true -> frees (fun acc => js_free_shape_null acc p).
Proof using. destruct p; [intros H; exact (adds_one (ref_ok rt) _ H)|intros; apply adds_ret]. Qed.

Lemma marks_values vals : marks (fun acc => mark_values collect acc vals).
Proof using. apply adds_ofold. intros v _. apply marks_value. Qed.

Lemma frees_values vals : forallb (value_typed rt) vals = true -> frees (fun acc => release_values acc vals).
Proof using. apply adds_list, frees_value. Qed.

Lemma marks_array vals n :
  cells_typed (value_typed rt) vals n = true -> marks (fun acc => mark_array collect acc vals n).
Proof using. apply adds_cells. intros v _. apply marks_value. Qed.

Lemma frees_array vals n :
  cells_typed (value_typed rt) vals n = true -> frees (fun acc => release_array acc vals n).
Proof using. apply adds_cells, frees_value. Qed.

(** A variable that is not on the stack. *)
Lemma get_detached p : ref_ok rt (K_var_ref, p) = true -> exists r, get_var_ref rt p = Ret r /\ is_detached r = true.
Proof using. unfold ref_ok, get_var_ref. cbn. destruct (_ !! p) as [[]|]; try done. by eexists. Qed.

Lemma marks_var_ref p :
  ref_ok rt (K_var_ref, p) = true ->
  marks (fun acc => let* r := get_var_ref rt p in if is_detached r then Ret (acc ++ [p]) else Ret acc).
Proof using. intros (r & -> & Hd)%get_detached. cbn [obind]. rewrite Hd. by apply adds_one. Qed.

Lemma bytecode_typed_get p :
  ref_ok rt (K_value JS_TAG_FUNCTION_BYTECODE, p) = true -> exists b, get_bytecode rt p = Ret b.
Proof using. unfold ref_ok, get_bytecode. cbn. destruct (_ !! p) as [[]|]; try done. by eexists. Qed.

(** ** The objects *)

Ltac split_typed := repeat match goal with H : _ && _ = true |- _ => apply andb_true_iff in H as [? ?] end.

Lemma marks_property o sh i :
  match rd (shape_prop sh) i, rd (prop o) i with Ret pr, Ret v => property_typed rt pr v | _, _ => false end = true ->
  marks (fun acc => mark_property rt collect o (shape_prop sh) acc i).
Proof using.
  unfold mark_property, property_typed. destruct (rd (shape_prop sh) i) as [pr|]; [|done].
  destruct (rd (prop o) i) as [v|]; [|done]. cbn [obind]. cbv zeta. set (t := Z.land (flags pr) JS_PROP_TMASK).
  intros H. destruct (negb _); [|apply adds_ret].
  destruct v; apply andb_true_iff in H as [->%Z.eqb_eq H]; cbn -[adds JS_MarkValue mark_ptr].
  - apply marks_value.
  - apply adds_bind; apply marks_ptr.
  - by apply marks_var_ref.
  - by apply adds_one.
Qed.

Lemma frees_property o sh i :
  match rd (shape_prop sh) i, rd (prop o) i with Ret pr, Ret v => property_typed rt pr v | _, _ => false end = true ->
  frees (fun acc => let* pr := rd (shape_prop sh) i in let* v := rd (prop o) i in free_property acc v (flags pr)).
Proof using.
  unfold free_property, property_typed. destruct (rd (shape_prop sh) i) as [pr|]; [|done].
  destruct (rd (prop o) i) as [v|]; [|done]. cbn [obind]. cbv zeta. set (t := Z.land (flags pr) JS_PROP_TMASK).
  intros H. destruct v; apply andb_true_iff in H as [->%Z.eqb_eq H]; cbn -[adds ref_ok release_value release_ptr].
  - by apply frees_value.
  - apply andb_true_iff in H as [Hg Hs]. by apply adds_bind; apply frees_obj_ptr.
  - by apply (frees_var_ref (Some p)).
  - by apply (frees_context_opt (Some realm)).
Qed.

Lemma marks_properties o sh :
  properties_typed rt o sh = true ->
  marks (fun acc => ofold (mark_property rt collect o (shape_prop sh)) acc (seqZ 0 (prop_count sh))).
Proof using. apply adds_list. intros i. apply marks_property. Qed.

Lemma frees_properties o sh : properties_typed rt o sh = true -> frees (fun acc => free_properties o sh acc).
Proof using. apply adds_list. intros i. apply frees_property. Qed.

Lemma marks_async s : marks (fun acc => async_func_mark collect s acc).
Proof using.
  apply adds_bind; [apply marks_value|]. apply adds_bind; [apply marks_value|].
  destruct (stack s); [apply marks_values|apply adds_ret].
Qed.

Lemma frees_async s :
  async_state_typed rt s = true -> frame_closed frames s = true -> frees (fun acc => async_func_free s acc).
Proof using.
  unfold async_state_typed, frame_closed. cbn [forallb]. intros H Hc. split_typed.
  apply adds_bind.
  { cbn [close_frame C collect_refs].
    destruct frames as [fr|]; [destruct (fr !! _) as [[]|]|]; try done; apply adds_ret. }
  apply adds_bind; [|by apply adds_bind; apply frees_value].
  destruct (has_arg_buf s), (stack s); try done; try apply adds_ret. by apply frees_values.
Qed.

Lemma marks_func b var_refs home :
  func_typed rt b var_refs home = true ->
  forall o, u o = U_func b var_refs home -> marks (js_bytecode_function_mark rt collect o).
Proof using.
  unfold func_typed. intros H o Eu. unfold js_bytecode_function_mark. rewrite Eu. apply andb_true_iff in H as [Hh H].
  apply adds_bind; [destruct home; [apply marks_value|apply adds_ret]|].
  destruct b as [b|]; [|apply adds_ret]. apply andb_true_iff in H as [Hb H].
  apply adds_bind; [|apply marks_value]. destruct var_refs as [l|]; [|apply adds_ret].
  destruct (bytecode_typed_get b Hb) as (c & Ec). rewrite Ec in *. cbn [obind].
  revert H. apply adds_cells. intros [r|] Hr; [by apply marks_var_ref|apply adds_ret].
Qed.

Lemma frees_func b var_refs home :
  func_typed rt b var_refs home = true ->
  forall o, u o = U_func b var_refs home -> frees (js_bytecode_function_finalizer (get_bytecode rt) o).
Proof using.
  unfold func_typed. intros H o Eu. unfold js_bytecode_function_finalizer. rewrite Eu.
  apply andb_true_iff in H as [Hh H].
  apply adds_bind; [by apply frees_obj_ptr|].
  destruct b as [b|]; [|apply adds_ret]. apply andb_true_iff in H as [Hb H].
  apply adds_bind; [|by apply frees_gc_value]. destruct var_refs as [l|]; [|apply adds_ret].
  destruct (bytecode_typed_get b Hb) as (c & Ec). rewrite Ec in *. cbn [obind].
  revert H. apply adds_cells, frees_var_ref.
Qed.

(** ** The classes *)

(** The functions of the classes go through the fields one by one. *)
Lemma record_typed_key mr : record_typed rt false mr = true -> value_typed rt (mr_key mr) = true.
Proof using. by intros [H _]%andb_true_iff. Qed.

Lemma record_typed_value weak mr : record_typed rt weak mr = true -> value_typed rt (mr_value mr) = true.
Proof using. by intros [_ H]%andb_true_iff. Qed.

Ltac fields_step :=
  first
    [ apply adds_ret | apply adds_bind
    | match goal with |- adds _ (fun acc => match ?x with _ => _ end) => destruct x end
    | apply adds_ofold; intros ? _ ].
Ltac marks_fields := repeat first
  [ apply marks_value | apply marks_values | apply marks_ptr | by apply marks_array | apply marks_async
  | by apply adds_one | by eapply marks_func
  | eapply adds_cells; [|eassumption]; intros ? _; apply adds_ofold; intros ? _; apply marks_values
  | fields_step ].
Ltac frees_fields := repeat first
  [ by apply frees_value | by apply frees_values | by apply frees_gc_value | by apply frees_array
  | by apply frees_async | by apply frees_context_opt | by apply (adds_one (ref_ok rt)) | by eapply frees_func
  | eapply adds_cells; [|eassumption]; intros ? ?; eapply adds_list; [|eassumption]; intros ? ?; by apply frees_values
  | match goal with |- adds _ (fun acc => release_value match ?x with _ => _ end _) => destruct x end
  | eapply adds_list; [|eassumption]; intros ? ?
  | fields_step ].

(** Unlinking weak references. *)
Lemma frees_map obj o s :
  u o = U_map_state s -> no_weak frames (U_map_state s) = true ->
  forallb (record_typed rt (is_weak s)) (records s) = true -> frees (js_map_finalizer obj o).
Proof using.
  intros Eu Hw Ht. unfold js_map_finalizer. rewrite Eu. rewrite forallb_forall in Ht. apply adds_ofold. intros mr Hi.
  pose proof (Ht mr Hi) as Hr. destruct (mr_empty mr) eqn:Em; cbn [negb]; [apply adds_ret|].
  apply adds_bind; [|by eapply frees_value, record_typed_value].
  destruct (is_weak s) eqn:Ew; [|by apply frees_value, record_typed_key].
  cbn [drop_weak_ref C collect_refs]. destruct frames; [|apply adds_ret]. unfold no_weak in Hw. rewrite Ew in Hw.
  cbn [negb orb] in Hw. rewrite forallb_forall in Hw. apply Hw in Hi. congruence.
Qed.

Lemma frees_weakref obj o :
  match u o with U_null | U_weak_ref _ | U_weak_ref_sentinel => true | _ => false end = true ->
  no_weak frames (u o) = true -> frees (js_weakref_finalizer obj o).
Proof using.
  unfold js_weakref_finalizer, JS_GetOpaque, no_weak. cbn [drop_weak_ref C collect_refs].
  intros H Hw. destruct (class_id o =? _); [|apply adds_ret].
  destruct (u o), frames; try done; apply adds_ret.
Qed.

Lemma frees_finrec obj o cb entries :
  u o = U_finrec cb entries -> no_weak frames (U_finrec cb entries) = true -> value_typed rt cb = true ->
  forallb (fun fre => forallb (value_typed rt) [held_val fre; token fre]) entries = true ->
  frees (js_finrec_finalizer obj o).
Proof using.
  intros Eu Hw Hc He. unfold js_finrec_finalizer, JS_GetOpaque. rewrite Eu.
  destruct (class_id o =? _); [|apply adds_ret]. apply adds_bind.
  - apply adds_ofold. intros e Hi. cbn [drop_weak_ref C collect_refs]. destruct frames; [|apply adds_ret].
    by destruct entries.
  - apply adds_bind; [|by apply frees_value]. eapply adds_list; [|exact He]. intros e. apply frees_values.
Qed.

Lemma frees_null obj o : u o = U_null -> frees (js_map_finalizer obj o) /\ frees (js_finrec_finalizer obj o).
Proof using.
  intros Eu. unfold js_map_finalizer, js_finrec_finalizer, JS_GetOpaque. rewrite Eu.
  split; [|destruct (class_id o =? _)]; apply adds_ret.
Qed.

Ltac class_functions :=
  unfold js_array_mark, js_array_finalizer, js_object_data_mark, js_object_data_finalizer, js_c_function_mark,
    js_c_function_finalizer, js_bound_function_mark, js_bound_function_finalizer, js_c_function_data_mark,
    js_c_function_data_finalizer, js_for_in_iterator_mark, js_for_in_iterator_finalizer, js_regexp_finalizer,
    js_array_buffer_finalizer, js_typed_array_mark, js_typed_array_finalizer, js_map_mark,
    js_iterator_helper_mark, js_iterator_helper_finalizer, js_iterator_wrap_mark, js_iterator_wrap_finalizer,
    js_map_iterator_mark, js_map_iterator_finalizer, js_array_iterator_mark, js_array_iterator_finalizer,
    js_regexp_string_iterator_mark, js_regexp_string_iterator_finalizer, js_generator_mark, js_generator_finalizer,
    js_proxy_mark, js_proxy_finalizer, js_promise_mark, js_promise_finalizer, promise_reaction_data_free,
    js_promise_resolve_function_mark, js_promise_resolve_function_finalizer, js_async_function_resolve_mark,
    js_async_function_resolve_finalizer, js_async_from_sync_iterator_mark, js_async_from_sync_iterator_finalizer,
    js_async_generator_mark, js_async_generator_finalizer, js_finrec_mark,
    js_callsite_mark, js_callsite_finalizer, host_mark, host_class_finalizer, JS_GetOpaque.

(** The member of the class, from the hypothesis on the union. *)
Ltac class_member o :=
  try match goal with E : (class_id o =? ?c) = true |- context [class_id o =? ?c] => rewrite E end;
  try destruct (host_finalizer rt (class_id o)) eqn:?;
  let Hm := fresh "Hm" in let Hd := fresh "Hd" in let Eu := fresh "Eu" in
  intros Hm Hd; destruct (u o) eqn:Eu; try discriminate Hm; cbn [data_typed] in Hd.

Lemma class_marks o :
  member_of rt (class_id o) (u o) = true -> data_typed rt (u o) = true ->
  marks (fun acc => match class_gc_mark rt collect (class_id o) with Some m => m o acc | None => Ret acc end).
Proof using.
  destruct (is_leaf_class (class_id o)) eqn:El.
  { unfold is_leaf_class in El. cbn [existsb] in El. rewrite !orb_true_iff, !Z.eqb_eq in El.
    intros _ _. destruct El as [->|[->|[->|[->|]]]]; [| | | |done]; apply adds_ret. }
  unfold is_leaf_class in El. cbn [existsb] in El. rewrite !orb_false_iff in El.
  destruct El as (El1 & El2 & El3 & El4 & _). unfold member_of, class_gc_mark. cbv zeta. rewrite El1, El4.
  cbn [existsb]. rewrite El2, El3. cbn [orb].
  repeat match goal with |- (if ?b then _ else _) = true -> _ => destruct b eqn:?E end.
  all: class_functions; class_member o; split_typed; marks_fields.
Qed.

Lemma class_frees obj o :
  no_weak frames (u o) = true ->
  match u o with U_generator _ s | U_async_generator _ s _ => frame_closed frames s | _ => true end = true ->
  member_of rt (class_id o) (u o) = true -> data_typed rt (u o) = true ->
  frees (fun acc => call_finalizer rt (get_bytecode rt) obj o acc).
Proof using.
  intros Hw Hc. unfold call_finalizer, member_of, class_finalizer. cbv zeta.
  repeat match goal with |- (if ?b then _ else _) = true -> _ => destruct b eqn:?E end.
  all: try (intros Hm _; by apply (frees_weakref obj)).
  all: class_functions; class_member o; try rewrite Eu in Hw, Hc; split_typed.
  all: try first [by eapply frees_map | by eapply frees_finrec].
  all: try by apply (frees_null obj o Eu).
  all: frees_fields.
Qed.

(** ** Every kind of object *)

Lemma bytecode_adds b :
  bytecode_typed rt b = true ->
  marks (fun acc =>
    let* acc := mark_array collect acc (cpool b) (cpool_count b) in
    let* acc := mark_ptr collect acc (b_realm b) in
    match ic b with Some cache => ofold (ofold (mark_ptr collect)) acc cache | None => Ret acc end) /\
  frees (fun acc => free_bytecode_refs b acc).
Proof using.
  unfold bytecode_typed. intros H. split_typed. split.
  - apply adds_bind; [by apply marks_array|]. apply adds_bind; [apply marks_ptr|].
    destruct (ic b) as [cache|]; [|apply adds_ret]. apply adds_ofold. intros l _.
    apply adds_ofold. intros p _. apply marks_ptr.
  - apply adds_bind; [|apply adds_bind; [by apply frees_array|by apply frees_context_opt]].
    destruct (ic b) as [cache|]; [|apply adds_ret]. eapply adds_list; [|eassumption]. intros l Hl.
    eapply adds_list; [|exact Hl]. apply frees_shape_null.
Qed.

Lemma module_adds m :
  module_typed rt m = true ->
  marks (fun acc => js_mark_module_def collect m acc) /\ frees (fun acc => js_free_module_def m acc).
Proof using.
  unfold module_typed. intros H. split_typed. split.
  - apply adds_bind; [|apply marks_values]. apply adds_ofold. intros [[] v] _; [apply marks_ptr|apply adds_ret].
  - apply adds_bind; [|by apply frees_values]. eapply adds_list; [|eassumption].
    intros [[] v] Hv; [by apply frees_var_ref|apply adds_ret].
Qed.

Lemma context_adds ctx :
  context_typed rt ctx = true ->
  marks (fun acc => JS_MarkContext rt collect ctx acc) /\ frees (fun acc => free_context_refs (class_count rt) ctx acc).
Proof using.
  unfold context_typed. intros H. split_typed. split.
  - apply adds_bind; [eapply adds_list; [|eassumption]; intros m Hm; by apply module_adds|]. marks_fields.
  - apply adds_bind; [eapply adds_list; [|eassumption]; intros m Hm; by apply module_adds|].
    repeat (apply adds_bind; [first [by apply frees_values|by apply frees_array]|]). by apply frees_shape_null.
Qed.

Lemma object_adds p o :
  js_object_typed rt o = true -> no_weak frames (u o) = true ->
  match u o with U_generator _ s | U_async_generator _ s _ => frame_closed frames s | _ => true end = true ->
  marks (fun acc =>
    let* acc := Ret (acc ++ [shape o]) in
    let* sh := get_shape rt (shape o) in
    let* acc := ofold (mark_property rt collect o (shape_prop sh)) acc (seqZ 0 (prop_count sh)) in
    match class_gc_mark rt collect (class_id o) with Some gc_mark => gc_mark o acc | None => Ret acc end) /\
  frees (fun acc =>
    let* sh := get_shape rt (shape o) in
    let* acc := free_properties o sh acc in
    let* acc := release_shape acc (shape o) in
    call_finalizer rt (get_bytecode rt) p o acc).
Proof using.
  unfold js_object_typed. intros H Hw Hc. split_typed.
  destruct (get_shape rt (shape o)) as [sh|] eqn:Es; [|done]. split.
  - apply (adds_bind _ (fun acc => Ret (acc ++ [shape o]))); [by apply adds_one|]. cbn [obind].
    apply adds_bind; [by apply marks_properties|]. by apply class_marks.
  - cbn [obind]. apply adds_bind; [by apply frees_properties|]. apply adds_bind; [|by apply class_frees].
    apply (adds_one (ref_ok rt)). unfold get_shape in Es. unfold ref_ok. cbn. by destruct (_ !! _) as [[]|].
Qed.

Lemma typed_adds p :
  object_typed rt p = true -> detached frames rt p = true ->
  marks (fun acc => mark_children rt collect p acc) /\ frees (fun acc => free_refs rt p acc).
Proof using.
  unfold object_typed, detached, mark_children, free_refs. intros [_ H]%andb_true_iff Hd.
  destruct (gc_objects rt !! p) as [[o|b|sh|r|s|ctx]|]; [| | | | | |done].
  - apply andb_true_iff in Hd as [Hw Hc]. destruct (object_adds p o H Hw Hc) as [Hm Hf]. split; [|exact Hf]. intros acc.
    destruct (Hm acc) as (k & Ek & Hk). exists k. split; [|done]. rewrite <- Ek. cbn [obind].
    destruct (get_shape _ _); [|done]. cbn [obind]. destruct (ofold _ _ _); [|done]. apply object_class_mark.
  - by apply bytecode_adds.
  - apply andb_true_iff in H as [Hp Hs]. split; [apply marks_ptr|].
    unfold free_shape_refs. cbn [record_call C collect_refs].
    destruct (is_hashed sh); (apply adds_bind; [by apply frees_obj_ptr|]);
      (eapply adds_cells; [|exact Hs]; intros; apply adds_ret).
  - apply andb_true_iff in H as [Hr Hv]. rewrite Hr. split; [apply marks_value|by apply frees_value].
  - unfold async_data_typed in H. apply andb_true_iff in H as [Ha Hr]. split.
    + apply adds_bind; [|apply marks_values]. destruct (is_active s); [apply marks_async|apply adds_ret].
    + apply adds_bind; [|by apply frees_values]. destruct (is_active s); [by apply frees_async|apply adds_ret].
  - by apply context_adds.
Qed.
End Typed.

(** * The theorem *)

(** The typed objects without weak references and open frames are among those that
    a collection can free. *)
Lemma object_typed_well_typed rt open_frames p :
  object_typed rt p = true -> detached (Some open_frames) rt p = true -> well_typed rt open_frames p = true.
Proof.
  intros Ht Hd. destruct (typed_adds rt (Some open_frames) p Ht Hd) as [_ Hf]. destruct (Hf []) as (rs & Er & Hr).
  unfold well_typed, released. unfold object_typed in Ht. apply andb_true_iff in Ht as [-> _].
  unfold C in Er. unfold collect_release. by rewrite Er.
Qed.

Lemma detached_None rt p : detached None rt p = true.
Proof. unfold detached. destruct (_ !! p) as [[o| | | | |]|]; try done. cbn. by destruct (u o). Qed.

(** C7: The finalizers agree with the mark functions.  For an object of any kind and
    class whose fields are typed, the mark function and the freeing return, and the
    freeing releases exactly the references that [mark_children] visits, each as
    many times, and each with the function for the kind of object it points to.
    Weak references and the open variables of a suspended frame are included: no
    reference of theirs is released and none is visited.  A function that holds a
    variable still on the stack is not typed: the source releases that variable and
    does not visit it. *)
Theorem free_releases_children rt p :
  host_classes_ok rt -> object_typed rt p = true ->
  exists ks rs, children rt p = Ret ks /\ freed rt p = Ret rs /\ Permutation (map snd rs) ks /\
    forallb (ref_ok rt) rs = true.
Proof.
  intros Hh Ht. destruct (typed_adds rt None p Ht (detached_None rt p)) as [Hm Hf]. destruct (Hm []) as (ks & Ek & _).
  destruct (Hf []) as (rs & Er & Hr). exists ks, rs. split; [exact Ek|]. split; [exact Er|]. split; [|exact Hr].
  unfold object_typed in Ht. apply andb_true_iff in Ht as [Ht _].
  destruct (mirrors_children rt None p Hh Ht [] [] ks rs Ek Er) as (k & k' & -> & -> & P). by apply P.
Qed.

(** A map that holds itself, a string and an array, and a weak map from the array
    to the map. *)
Definition map_heap : JSRuntime :=
  let shape1 := GC_SHAPE (mkJSShape false false 0 3 2 0 0 None None [0; 0; 0; 0] []) in
  let ref p := JS_MKPTR JS_TAG_OBJECT p in
  let recs := [mkJSMapRecord 10 false (ref 1) (JS_MKPTR JS_TAG_STRING 9); mkJSMapRecord 11 false (ref 3) (ref 1)] in
  let weak_recs := [mkJSMapRecord 12 false (ref 3) (ref 1)] in
  let map_of weak recs := U_map_state (mkJSMapState weak recs) in
  mkJSRuntime (list_to_map [(1, GC_JS_OBJECT (mkJSObject JS_CLASS_MAP 2 [] (map_of false recs)));
                            (2, shape1); (3, GC_JS_OBJECT (mkJSObject JS_CLASS_ARRAY 2 [] (U_array [] 0)));
                            (4, GC_JS_OBJECT (mkJSObject JS_CLASS_WEAKMAP 2 [] (map_of true weak_recs)))])
    0 (fun _ => None) (fun _ => None).

Lemma free_releases_children_witness :
  children map_heap 1 = Ret [2; 1; 3; 1] /\ freed map_heap 4 = Ret [(K_shape, 2); (K_value JS_TAG_OBJECT, 1)] /\
  (exists ks rs, children map_heap 1 = Ret ks /\ freed map_heap 1 = Ret rs /\ Permutation (map snd rs) ks /\
     forallb (ref_ok map_heap) rs = true) /\
  (exists ks rs, children map_heap 4 = Ret ks /\ freed map_heap 4 = Ret rs /\ Permutation (map snd rs) ks /\
     forallb (ref_ok map_heap) rs = true).
Proof.
  split; [vm_compute; reflexivity|]. split; [vm_compute; reflexivity|].
  split; (apply free_releases_children; [intros id opaque; constructor|vm_compute; reflexivity]).
Defined.
