(* ===== verification/GcSweep.v ===== *)
(** The removal of the cycles: the state between two operations.

    The dead objects are freed one after the other; the references that a freed
    object holds are released, and an object that is not a value is freed with
    the last reference to it.  The invariant [sweep] says, for the objects freed
    so far, those that are being freed, and the references the latter have
    released, what the counts, the memory and the lists are. *)
From Stdlib Require Import ZArith Lia Bool List Permutation.
From stdpp Require Import base tactics list numbers gmap.
From S2P Require Import Prelude GcObject GcChildren Gc GcMark GcFree GcRelease.

(** The part of a list within another, with repetitions. *)
Definition within (l k : list Z) : Prop := forall x, occ x l <= occ x k.

Lemma occ_nil x : occ x [] = 0.
Proof. done. Qed.

Lemma occ_rest x l : occ x (x :: l) = 1 + occ x l.
Proof. rewrite occ_cons. by destruct (Z.eq_dec x x). Qed.

Lemma occ_snoc x l : occ x (l ++ [x]) = occ x l + 1.
Proof. rewrite occ_app, occ_rest, occ_nil. lia. Qed.

Lemma occ_0_notin x l : ~ In x l -> occ x l = 0.
Proof. rewrite occ_In. pose proof (occ_nonneg x l). lia. Qed.

Section Sweep.
Variable rt0 : JSRuntime.
Variable open_frames : gmap Z (list Z).
(** The objects that stay, those to free, the counts and the marks. *)
Variable L D : list Z.
Variable rc mk : Z -> Z.

Abbreviation rel proc extra := (refs rt0 proc ++ extra).

Definition is_dead_value (p : Z) : bool :=
  match gc_objects rt0 !! p with Some o => is_value_object o | None => false end.

Record sweepable : Prop := {
  sa_nodup : List.NoDup (L ++ D);
  sa_host : host_classes_ok rt0;
  sa_typed : forall p, In p D -> well_typed rt0 open_frames p = true /\ children rt0 p = Ret (kids rt0 p);
  sa_kids : forall p q, In p D -> In q (kids rt0 p) -> In q (L ++ D);
  sa_objects : forall p, In p (L ++ D) -> is_Some (gc_objects rt0 !! p);
  sa_dead : forall p, In p D -> rc p = occ p (refs rt0 D);
  sa_live : forall p, In p L -> occ p (refs rt0 D) < rc p;
  sa_range : forall p, In p (L ++ D) -> rc p < 2 ^ 31;
  sa_counted : forall p, In p D -> is_dead_value p = false -> 0 < rc p
}.
Hypothesis SA : sweepable.

(** [proc] are freed, [prog] are being freed and have released [extra]. *)
Record sweep (proc prog extra : list Z) (st : FreeState) : Prop := {
  sw_nodup : List.NoDup (proc ++ prog);
  sw_in : forall p, In p (proc ++ prog) -> In p D;
  sw_extra : within extra (refs rt0 prog);
  sw_phase : gc_phase st = JS_GC_PHASE_REMOVE_CYCLES;
  sw_frames : forall f, default [] (frames st !! f) = default [] (open_frames !! f);
  sw_weak : forall p, In p D -> default [] (weak_refs st !! p) = [];
  sw_mem : mem st = with_objects rt0 (gc_objects (mem st));
  (* a block in memory has its count; a block that is not, has no reference left *)
  sw_header : forall p, In p (L ++ D) -> is_Some (gc_objects (mem st) !! p) ->
    headers (gc st) !! p = Some (mkHeader (rc p - occ p (rel proc extra)) (mk p));
  sw_gone : forall p, In p (L ++ D) -> gc_objects (mem st) !! p = None ->
    In p proc /\ headers (gc st) !! p = None /\ occ p (rel proc extra) = rc p;
  sw_same : forall p, In p (L ++ D) -> ~ In p proc -> ~ In p prog -> gc_objects (mem st) !! p = gc_objects rt0 !! p;
  sw_prog : forall p, In p prog -> is_Some (gc_objects (mem st) !! p) /\
    (is_dead_value p = false -> occ p (rel proc extra) = rc p);
  (* a freed object that is not a value is not in memory, a freed value may be *)
  sw_freed : forall p, In p proc -> is_dead_value p = false -> gc_objects (mem st) !! p = None;
  sw_zombie : forall p o, In p D -> is_dead_value p = true -> gc_objects (mem st) !! p = Some o ->
    is_value_object o = true /\
    forall b, gc_objects rt0 !! p = Some (GC_FUNCTION_BYTECODE b) -> o = GC_FUNCTION_BYTECODE b;
  (* an object that is not a value is freed when its last reference is released *)
  sw_pending : forall p, In p D -> is_dead_value p = false -> ~ In p (proc ++ prog) ->
    occ p (rel proc extra) < rc p;
  sw_gc : gc_obj_list (gc st) = L;
  sw_lists : Permutation (tmp_obj_list (gc st) ++ gc_zero_ref_count_list (gc st))
    (List.filter (fun p => bool_decide (is_Some (gc_objects (mem st) !! p))) D);
  sw_zero : forall p, In p (gc_zero_ref_count_list (gc st)) -> In p proc \/ is_dead_value p = false;
  sw_tmp : forall p, In p (tmp_obj_list (gc st)) -> ~ In p proc
}.

(** ** The budget of the references *)

Lemma refs_within l k : List.NoDup l -> (forall p, In p l -> In p k) -> within (refs rt0 l) (refs rt0 k).
Proof using.
  revert k. induction l as [|p l IH]; intros k Hn Hi x; [rewrite occ_nil; apply occ_nonneg|].
  apply List.NoDup_cons_iff in Hn as [Hp Hn].
  destruct (in_split p k (Hi p (or_introl eq_refl))) as (k1 & k2 & ->).
  assert (within (refs rt0 l) (refs rt0 (k1 ++ k2))) as H.
  { apply IH; [done|]. intros q Hq. assert (In q (k1 ++ p :: k2)) as H by (apply Hi; by right).
    apply in_app_iff in H as [H|[->|H]]; [apply in_app_iff; by left|done|apply in_app_iff; by right]. }
  specialize (H x). unfold refs in *. rewrite !map_app, !concat_app in *. cbn [map concat].
  rewrite !occ_app in *. lia.
Qed.

Lemma sweep_budget proc prog extra extra' st x :
  sweep proc prog extra st -> within extra' (refs rt0 prog) -> occ x (rel proc extra') <= occ x (refs rt0 D).
Proof using.
  intros H He. pose proof (refs_within _ D (sw_nodup _ _ _ _ H) (sw_in _ _ _ _ H) x) as Hb.
  rewrite refs_app, occ_app in Hb. rewrite occ_app. specialize (He x). lia.
Qed.

Lemma dead_le p : In p (L ++ D) -> occ p (refs rt0 D) <= rc p.
Proof using SA. intros [Hp|Hp]%in_app_iff; [pose proof (sa_live SA p Hp)|rewrite (sa_dead SA p Hp)]; lia. Qed.

(** An object with a reference to release is in memory. *)
Lemma sweep_present proc prog extra st x :
  sweep proc prog extra st -> In x (L ++ D) -> within (extra ++ [x]) (refs rt0 prog) ->
  is_Some (gc_objects (mem st) !! x).
Proof using SA.
  intros H Hx He. destruct (gc_objects (mem st) !! x) eqn:E; [done|]. exfalso.
  destruct (sw_gone _ _ _ _ H x Hx E) as (_ & _ & Eo).
  pose proof (refs_within _ D (sw_nodup _ _ _ _ H) (sw_in _ _ _ _ H) x) as Hb.
  pose proof (He x) as Hex. pose proof (dead_le x Hx).
  rewrite refs_app, occ_app in Hb. rewrite occ_app in Eo. rewrite occ_snoc in Hex. lia.
Qed.

(** ** The lists *)

Lemma remove_NoDup_perm x l : List.NoDup l -> In x l -> Permutation (x :: List.remove Z.eq_dec x l) l.
Proof using. intros Hn Hx. rewrite Permutation_cons_append. symmetry. by apply remove_perm. Qed.

Lemma list_del_dead g x :
  List.NoDup (gc_obj_list g ++ tmp_obj_list g ++ gc_zero_ref_count_list g) ->
  In x (tmp_obj_list g ++ gc_zero_ref_count_list g) ->
  exists g', list_del g x = Ret g' /\ headers g' = headers g /\ gc_obj_list g' = gc_obj_list g /\
    Permutation (x :: tmp_obj_list g' ++ gc_zero_ref_count_list g') (tmp_obj_list g ++ gc_zero_ref_count_list g) /\
    incl (tmp_obj_list g') (tmp_obj_list g) /\ incl (gc_zero_ref_count_list g') (gc_zero_ref_count_list g).
Proof using.
  intros Hn Hx. assert (~ In x (gc_obj_list g)) as H1 by (intros H; exact (NoDup_disjoint _ _ x Hn H Hx)).
  apply List.NoDup_app_remove_l in Hn. unfold list_del, find_list. cbn [List.find list_of].
  rewrite (existsb_notin x _ H1). destruct (existsb (Z.eqb x) (tmp_obj_list g)) eqn:Et.
  - apply existsb_In in Et. cbn [obind]. eexists. split; [done|]. cbn. split; [done|]. split; [done|].
    split; [|split; [intros y Hy; by apply in_remove in Hy as [Hy _]|apply incl_refl]].
    rewrite app_comm_cons. apply Permutation_app_tail, remove_NoDup_perm; [|done]. by eapply List.NoDup_app_remove_r.
  - assert (In x (gc_zero_ref_count_list g)) as Hz.
    { apply in_app_iff in Hx as [Hx|Hx]; [|done]. apply existsb_In in Hx. congruence. }
    rewrite (proj2 (existsb_In x _) Hz). cbn [obind]. eexists. split; [done|]. cbn. split; [done|]. split; [done|].
    split; [|split; [apply incl_refl|intros y Hy; by apply in_remove in Hy as [Hy _]]].
    rewrite Permutation_middle. apply Permutation_app_head, remove_NoDup_perm; [|done]. by eapply List.NoDup_app_remove_l.
Qed.

Lemma sweep_lists_nodup proc prog extra st :
  sweep proc prog extra st ->
  List.NoDup (gc_obj_list (gc st) ++ tmp_obj_list (gc st) ++ gc_zero_ref_count_list (gc st)).
Proof using SA.
  intros H. pose proof (sa_nodup SA) as Hn. rewrite (sw_gc _ _ _ _ H).
  eapply Permutation_NoDup; [apply Permutation_app_head; symmetry; apply (sw_lists _ _ _ _ H)|].
  apply List.NoDup_app.
  - by eapply List.NoDup_app_remove_r.
  - apply List.NoDup_filter. by eapply List.NoDup_app_remove_l.
  - intros y Hy [Hy' _]%filter_In. exact (NoDup_disjoint _ _ y Hn Hy Hy').
Qed.

(** An object to free that is in memory is in one of the two lists. *)
Lemma sweep_listed proc prog extra st x :
  sweep proc prog extra st -> In x D -> is_Some (gc_objects (mem st) !! x) ->
  In x (tmp_obj_list (gc st) ++ gc_zero_ref_count_list (gc st)).
Proof using.
  intros H Hx Hs. eapply Permutation_in; [symmetry; apply (sw_lists _ _ _ _ H)|].
  apply filter_In. split; [done|]. by apply bool_decide_eq_true.
Qed.

(** ** Releasing a reference *)

Lemma rel_snoc proc extra x p : occ p (rel proc (extra ++ [x])) = occ p (rel proc extra) + (if Z.eq_dec x p then 1 else 0).
Proof using. rewrite app_assoc, occ_app, occ_one. done. Qed.

(** The count of [x] goes down; [x] may start to be freed. *)
Lemma sweep_dec proc prog prog' extra st x :
  sweep proc prog extra st -> In x (L ++ D) -> within (extra ++ [x]) (refs rt0 prog) ->
  (prog' = prog /\ (In x D -> is_dead_value x = false -> occ x (rel proc (extra ++ [x])) < rc x) \/
   prog' = x :: prog /\ In x D /\ ~ In x (proc ++ prog) /\ occ x (rel proc (extra ++ [x])) = rc x) ->
  exists st', dec_ref_count st x = Ret (st', rc x - occ x (rel proc (extra ++ [x]))) /\
    mem st' = mem st /\ tmp_obj_list (gc st') = tmp_obj_list (gc st) /\ sweep proc prog' (extra ++ [x]) st'.
Proof using SA.
  intros H Hx He Hp. pose proof (sweep_present _ _ _ _ _ H Hx He) as Hpr.
  pose proof (sw_header _ _ _ _ H x Hx Hpr) as Hh.
  pose proof (sweep_budget _ _ _ _ _ x H He) as Hb. pose proof (dead_le x Hx) as Hd.
  pose proof (sa_range SA x Hx) as Hr.  rewrite app_assoc, occ_snoc in Hb.
  pose proof (occ_nonneg x (rel proc extra)) as Hnn.
  assert (i32 (rc x - occ x (rel proc extra) - 1) = rc x - occ x (rel proc (extra ++ [x]))) as En.
  { rewrite i32_small by lia. rewrite app_assoc, occ_snoc. lia. }
  unfold dec_ref_count. rewrite (get_header_some _ _ _ Hh). cbn [obind ref_count mark]. rewrite En.
  eexists. split; [done|]. split; [done|]. split; [done|].
  assert (forall p, p <> x -> occ p (rel proc (extra ++ [x])) = occ p (rel proc extra)) as Hne.
  { intros p Hpx. rewrite rel_snoc. destruct (Z.eq_dec x p); [by subst|lia]. }
  assert (forall p, In p prog' -> In p prog \/ p = x /\ In x D /\ occ x (rel proc (extra ++ [x])) = rc x) as Hin.
  { intros p Hpp. destruct Hp as [[-> _]|(-> & ? & ? & ?)]; [by left|]. destruct Hpp as [<-|]; [by right|by left]. }
  assert (incl prog prog') as Hsub by (destruct Hp as [[-> _]|(-> & _)]; [apply incl_refl|apply incl_tl, incl_refl]).
  destruct H. constructor; cbn [gc mem set_gc gc_phase frames weak_refs]; try done.
  - destruct Hp as [[-> _]|(-> & _ & Hn & _)]; [done|]. eapply Permutation_NoDup; [apply Permutation_middle|]. by constructor.
  - intros p [Hpp|Hpp]%in_app_iff; [apply sw_in0, in_app_iff; by left|].
    destruct (Hin p Hpp) as [Hq|(-> & Hq & _)]; [|exact Hq]. apply sw_in0, in_app_iff. by right.
  - intros y. specialize (He y). destruct Hp as [[-> _]|(-> & _)]; [done|].
    change (refs rt0 (x :: prog)) with (kids rt0 x ++ refs rt0 prog). rewrite !occ_app in *.
    pose proof (occ_nonneg y (kids rt0 x)). lia.
  - intros p Hpp Hs. rewrite lookup_set_header. destruct (Z.eq_dec x p) as [<-|Hpx].
    + done.
    + rewrite (sw_header0 p Hpp Hs). do 2 f_equal. by rewrite Hne.
  - intros p Hpp Hs. rewrite lookup_set_header. destruct (Z.eq_dec x p) as [<-|Hpx]; [by destruct Hpr; congruence|].
    destruct (sw_gone0 p Hpp Hs) as (? & ? & ?). split; [done|]. split; [done|]. by rewrite Hne.
  - intros p Hpp Hp1 Hp2. apply sw_same0; [done|done|]. intros Hp3. by apply Hp2, Hsub.
  - intros p Hpp. destruct (Hin p Hpp) as [Hq|(-> & _ & Ez)]; [|done]. destruct (sw_prog0 p Hq) as [? Hz]. split; [done|].
    intros Hv. specialize (Hz Hv). destruct (Z.eq_dec p x) as [->|Hpx]; [lia|by rewrite Hne].
  - intros p Hpp Hv Hn. destruct (Z.eq_dec x p) as [<-|Hpx].
    + destruct Hp as [[-> Hlt]|(-> & _)]; [by apply Hlt|]. exfalso. apply Hn, in_app_iff. right. by left.
    + rewrite Hne by done. apply sw_pending0; [done|done|]. intros Hq. apply Hn.
      apply in_app_iff in Hq as [Hq|Hq]; apply in_app_iff; [by left|right; by apply Hsub].
Qed.

(** ** Freeing the memory of an object *)

Lemma refs_of_snoc proc x extra ks :
  Permutation ks (kids rt0 x) -> Permutation (rel (proc ++ [x]) extra) (rel proc (extra ++ ks)).
Proof using.
  intros Hk. rewrite refs_snoc, <- Hk, <- !app_assoc. apply Permutation_app_head, Permutation_app_comm.
Qed.

Lemma filter_gone (m : gmap Z gc_object) x l :
  List.NoDup l -> In x l -> is_Some (m !! x) ->
  Permutation (List.filter (fun p => bool_decide (is_Some (m !! p))) l)
    (x :: List.filter (fun p => bool_decide (is_Some (delete x m !! p))) l).
Proof using.
  intros Hn Hx Hs. rewrite Permutation_cons_append. apply filter_gain; [done|done| | |].
  - intros y Hy. by rewrite lookup_delete_ne.
  - rewrite lookup_delete_eq. apply bool_decide_eq_false. by intros [? ?].
  - by apply bool_decide_eq_true.
Qed.

Section Freed.
Variable proc prog extra ks : list Z.
Variable st : FreeState.
Variable x : Z.
Variable g : GcState.
Hypothesis H : sweep proc (x :: prog) (extra ++ ks) st.
Hypothesis Hk : Permutation ks (kids rt0 x).
Hypothesis He : within extra (refs rt0 prog).
Hypothesis Hrc : rc x = occ x (rel proc (extra ++ ks)).
Hypothesis Hgh : headers g = headers (gc st).
Hypothesis Hgl : gc_obj_list g = gc_obj_list (gc st).
Hypothesis Hgp : Permutation (x :: tmp_obj_list g ++ gc_zero_ref_count_list g)
                   (tmp_obj_list (gc st) ++ gc_zero_ref_count_list (gc st)).
Hypothesis Hgz : incl (gc_zero_ref_count_list g) (gc_zero_ref_count_list (gc st)).
Hypothesis Hgt : incl (tmp_obj_list g) (tmp_obj_list (gc st)).
Hypothesis Hxt : ~ In x (tmp_obj_list g).

(** The state when [x] left its list, and its memory was freed. *)
Definition freed_state : FreeState :=
  set_gc (set_mem (set_gc st g) (with_objects (mem st) (delete x (gc_objects (mem st)))))
    (with_headers g (delete x (headers g))).

Lemma freed_in : In x D /\ ~ In x (proc ++ prog).
Proof using H.
  split; [apply (sw_in _ _ _ _ H), in_elt|]. apply (List.NoDup_remove_2 _ _ _ (sw_nodup _ _ _ _ H)).
Qed.

Lemma freed_occ p : occ p (rel (proc ++ [x]) extra) = occ p (rel proc (extra ++ ks)).
Proof using Hk. apply occ_perm. by apply refs_of_snoc. Qed.

Lemma freed_sweep : sweep (proc ++ [x]) prog extra freed_state.
Proof using SA H Hk He Hrc Hgh Hgl Hgp Hgz Hgt Hxt.
  destruct freed_in as [Hx Hnx]. destruct (sw_prog _ _ _ _ H x (or_introl eq_refl)) as [[o Eo] _].
  pose proof freed_occ as Eocc. destruct H.
  constructor; cbn [freed_state gc mem set_gc set_mem gc_phase frames weak_refs headers with_headers with_objects
    gc_objects gc_obj_list tmp_obj_list gc_zero_ref_count_list]; try done.
  - by rewrite <- app_assoc.
  - intros p Hp. apply sw_in0. by rewrite <- app_assoc in Hp.
  - by rewrite sw_mem0.
  - intros p Hp [o' Hs]. apply lookup_delete_Some in Hs as [Hne Hs]. rewrite lookup_delete_ne, Hgh, Eocc by done.
    apply sw_header0; [done|by eexists].
  - intros p Hp Hs. destruct (Z.eq_dec p x) as [->|Hne].
    + rewrite lookup_delete_eq, Eocc. split; [apply in_app_iff; right; by left|]. split; [done|by symmetry].
    + rewrite lookup_delete_ne in Hs by done. rewrite lookup_delete_ne, Hgh, Eocc by done. destruct (sw_gone0 p Hp Hs) as (? & ? & ?).
      split; [apply in_app_iff; by left|done].
  - intros p Hp Hp1 Hp2. rewrite in_app_iff in Hp1. assert (p <> x) as Hne by (intros ->; apply Hp1; right; by left).
    rewrite lookup_delete_ne by done. apply sw_same0; [done| |].
    + intros Hi. apply Hp1. by left.
    + intros [->|Hi]; done.
  - intros p Hp. rewrite lookup_delete_ne, Eocc; [apply sw_prog0; by right|]. intros ->. apply Hnx, in_app_iff. by right.
  - intros p Hp Hv. destruct (Z.eq_dec p x) as [->|Hne]; [by rewrite lookup_delete_eq|].
    rewrite lookup_delete_ne by done. apply sw_freed0; [|done]. apply in_app_iff in Hp as [?|[->|[]]]; done.
  - intros p o' Hp Hv Hs. apply lookup_delete_Some in Hs as [Hne Hs]. by apply sw_zombie0.
  - intros p Hp Hv Hn'. rewrite Eocc. apply sw_pending0; [done|done|]. intros Hi. apply Hn'. by rewrite <- app_assoc.
  - by rewrite Hgl.
  - apply (Permutation_cons_inv (a := x)). rewrite Hgp, sw_lists0. apply filter_gone; [|done|by eexists].
    pose proof (sa_nodup SA). by eapply List.NoDup_app_remove_l.
  - intros p Hp. destruct (sw_zero0 p (Hgz p Hp)); [left; apply in_app_iff; by left|by right].
  - intros p Hp [Hi|[->|[]]]%in_app_iff; [|done]. exact (sw_tmp0 p (Hgt p Hp) Hi).
Qed.
End Freed.

(** The end of the freeing of an object without references: it leaves its list,
    then its memory is freed. *)
Lemma sweep_free_block proc prog extra ks st x :
  sweep proc (x :: prog) (extra ++ ks) st -> Permutation ks (kids rt0 x) ->
  within extra (refs rt0 prog) -> rc x = occ x (rel proc (extra ++ ks)) ->
  exists st', (let* st := remove_gc_object st x in js_free_rt st x) = Ret st' /\
    sweep (proc ++ [x]) prog extra st' /\ incl (tmp_obj_list (gc st')) (tmp_obj_list (gc st)) /\
    ~ In x (tmp_obj_list (gc st')) /\
    (forall p, p <> x -> gc_objects (mem st') !! p = gc_objects (mem st) !! p).
Proof using SA.
  intros H Hk He Hrc. destruct (freed_in _ _ _ _ _ _ H) as [Hx _].
  destruct (sw_prog _ _ _ _ H x (or_introl eq_refl)) as [Hpr _]. pose proof (sweep_lists_nodup _ _ _ _ H) as Hn.
  destruct (list_del_dead (gc st) x Hn (sweep_listed _ _ _ _ x H Hx Hpr)) as (g & Eg & Hgh & Hgl & Hgp & Hgt & Hgz).
  unfold remove_gc_object. rewrite Eg. cbn [obind]. unfold js_free_rt, get_gc_object. cbn [mem set_gc].
  destruct Hpr as [o Eo]. rewrite Eo. cbn [obind]. exists (freed_state st x g). split; [done|].
  assert (~ In x (tmp_obj_list g)) as Hxt.
  { intros Hi. eapply Permutation_NoDup in Hn; [|apply Permutation_app_head; symmetry; apply Hgp].
    apply List.NoDup_app_remove_l, List.NoDup_cons_iff in Hn as [Hn _]. apply Hn, in_app_iff. by left. }
  split; [by eapply freed_sweep|]. split; [done|]. split; [done|]. intros p Hp. cbn. by rewrite lookup_delete_ne.
Qed.
End Sweep.

#[global] Arguments sa_nodup {rt0 open_frames L D rc} _.
#[global] Arguments sa_host {rt0 open_frames L D rc} _.
#[global] Arguments sa_typed {rt0 open_frames L D rc} _.
#[global] Arguments sa_kids {rt0 open_frames L D rc} _.
#[global] Arguments sa_objects {rt0 open_frames L D rc} _.
#[global] Arguments sa_dead {rt0 open_frames L D rc} _.
#[global] Arguments sa_live {rt0 open_frames L D rc} _.
#[global] Arguments sa_range {rt0 open_frames L D rc} _.
#[global] Arguments sa_counted {rt0 open_frames L D rc} _.
#[global] Arguments sw_nodup {rt0 open_frames L D rc mk proc prog extra st} _.
#[global] Arguments sw_in {rt0 open_frames L D rc mk proc prog extra st} _.
#[global] Arguments sw_extra {rt0 open_frames L D rc mk proc prog extra st} _.
#[global] Arguments sw_phase {rt0 open_frames L D rc mk proc prog extra st} _.
#[global] Arguments sw_frames {rt0 open_frames L D rc mk proc prog extra st} _.
#[global] Arguments sw_weak {rt0 open_frames L D rc mk proc prog extra st} _.
#[global] Arguments sw_mem {rt0 open_frames L D rc mk proc prog extra st} _.
#[global] Arguments sw_header {rt0 open_frames L D rc mk proc prog extra st} _.
#[global] Arguments sw_gone {rt0 open_frames L D rc mk proc prog extra st} _.
#[global] Arguments sw_same {rt0 open_frames L D rc mk proc prog extra st} _.
#[global] Arguments sw_prog {rt0 open_frames L D rc mk proc prog extra st} _.
#[global] Arguments sw_freed {rt0 open_frames L D rc mk proc prog extra st} _.
#[global] Arguments sw_zombie {rt0 open_frames L D rc mk proc prog extra st} _.
#[global] Arguments sw_pending {rt0 open_frames L D rc mk proc prog extra st} _.
#[global] Arguments sw_gc {rt0 open_frames L D rc mk proc prog extra st} _.
#[global] Arguments sw_lists {rt0 open_frames L D rc mk proc prog extra st} _.
#[global] Arguments sw_zero {rt0 open_frames L D rc mk proc prog extra st} _.
#[global] Arguments sw_tmp {rt0 open_frames L D rc mk proc prog extra st} _.
#[global] Arguments sweep_budget {rt0 open_frames L D rc mk proc prog extra extra' st} x _ _.
#[global] Arguments dead_le {rt0 open_frames L D rc} _ p _.
#[global] Arguments sweep_present {rt0 open_frames L D rc mk} _ {proc prog extra st} x _ _ _.
#[global] Arguments sweep_dec {rt0 open_frames L D rc mk} _ proc prog prog' extra st x _ _ _ _.
#[global] Arguments freed_in {rt0 open_frames L D rc mk proc prog extra ks st x} _.
#[global] Arguments sweep_free_block {rt0 open_frames L D rc mk} _ {proc prog extra ks st x} _ _ _ _.
#[global] Arguments sweep_lists_nodup {rt0 open_frames L D rc mk} _ {proc prog extra st} _.
#[global] Arguments sweep_listed {rt0 open_frames L D rc mk proc prog extra st} x _ _ _.

(** The parts of the invariant that a step does not change. *)
Ltac sweep_keep H :=
  try first [ exact (sw_nodup H) | exact (sw_in H) | exact (sw_extra H) | exact (sw_phase H) | exact (sw_frames H)
            | exact (sw_weak H) | exact (sw_mem H) | exact (sw_header H) | exact (sw_gone H) | exact (sw_same H)
            | exact (sw_prog H) | exact (sw_freed H) | exact (sw_zombie H) | exact (sw_pending H) | exact (sw_gc H)
            | exact (sw_lists H) | exact (sw_zero H) | exact (sw_tmp H) ].
