(* ===== verification/GcRuns.v ===== *)
(** The operations of the runtime during the removal of the cycles.

    A program over the release operations runs in the runtime as it does when
    the references are collected: it releases the references collected, in
    order, and frees the objects that lose their last reference. *)
From Stdlib Require Import ZArith Lia Bool List Permutation.
From stdpp Require Import base tactics list numbers gmap.
From S2P Require Import Prelude GcObject GcChildren Gc GcMark GcFree GcRelease GcSweep.

Section Runs.
Variable rt0 : JSRuntime.
Variable open_frames : gmap Z (list Z).
Variable L D : list Z.
Variable rc mk : Z -> Z.
Hypothesis SA : sweepable rt0 open_frames L D rc.
Variable on_zero : FreeState -> outcome FreeState.

Abbreviation sweep := (GcSweep.sweep rt0 open_frames L D rc mk).
Abbreviation is_dead_value := (GcSweep.is_dead_value rt0).
Abbreviation refs := (GcMark.refs rt0).
Abbreviation kids := (GcMark.kids rt0).

(** What an operation keeps: no object enters the temporary list, and the objects
    that are being freed keep their contents. *)
Definition quiet (prog : list Z) (st st' : FreeState) : Prop :=
  incl (tmp_obj_list (gc st')) (tmp_obj_list (gc st)) /\
  forall p, In p prog -> gc_objects (mem st') !! p = gc_objects (mem st) !! p.

Lemma quiet_refl prog st : quiet prog st st.
Proof using. split; [apply incl_refl|done]. Qed.

Lemma quiet_trans prog st1 st2 st3 : quiet prog st1 st2 -> quiet prog st2 st3 -> quiet prog st1 st3.
Proof using.
  intros [H1 K1] [H2 K2]. split; [by eapply incl_tran|]. intros p Hp. by rewrite K2, K1.
Qed.

(** The references can be released: they are within what the objects being freed
    hold, and they have the right kinds. *)
Definition releasable (prog extra : list Z) (k : list (ref_kind * Z)) : Prop :=
  forallb (ref_ok rt0) k = true /\ (forall q, In q (map snd k) -> In q (L ++ D)) /\
  within (extra ++ map snd k) (refs prog).

(** The program releases the references [k]. *)
Definition executes (k : list (ref_kind * Z)) (rp : FreeState -> outcome FreeState) : Prop :=
  forall proc prog extra st, sweep proc prog extra st -> releasable prog extra k ->
  exists news st', rp st = Ret st' /\ sweep (proc ++ news) prog (extra ++ map snd k) st' /\ quiet prog st st'.

Definition runs (cp : list (ref_kind * Z) -> outcome (list (ref_kind * Z))) (rp : FreeState -> outcome FreeState)
    : Prop :=
  forall acc l, cp acc = Ret l -> exists k, l = acc ++ k /\ executes k rp.

(** ** Composition *)

Lemma releasable_app prog extra k1 k2 :
  releasable prog extra (k1 ++ k2) -> releasable prog extra k1 /\ releasable prog (extra ++ map snd k1) k2.
Proof using.
  intros (Hk & Hq & He). rewrite forallb_app in Hk. apply andb_true_iff in Hk as [Hk1 Hk2].
  rewrite map_app in *. split; split; [done| |done|].
  - split; [intros q Hi; apply Hq, in_app_iff; by left|]. intros x. specialize (He x).
    rewrite !occ_app in *. pose proof (occ_nonneg x (map snd k2)). lia.
  - split; [intros q Hi; apply Hq, in_app_iff; by right|]. by rewrite <- app_assoc.
Qed.

Lemma executes_ret : executes [] (fun st => Ret st).
Proof using.
  intros proc prog extra st H _. exists [], st. cbn [map]. rewrite !app_nil_r. split; [done|]. split; [done|].
  apply quiet_refl.
Qed.

Lemma executes_bind k1 k2 rp1 rp2 :
  executes k1 rp1 -> executes k2 rp2 -> executes (k1 ++ k2) (fun st => let* st := rp1 st in rp2 st).
Proof using.
  intros H1 H2 proc prog extra st H Hr. apply releasable_app in Hr as [Hr1 Hr2].
  destruct (H1 proc prog extra st H Hr1) as (n1 & st1 & E1 & Hs1 & Q1). rewrite E1. cbn [obind].
  destruct (H2 _ _ _ _ Hs1 Hr2) as (n2 & st2 & E2 & Hs2 & Q2). exists (n1 ++ n2), st2. split; [done|].
  rewrite map_app, !app_assoc in *. split; [done|]. by eapply quiet_trans.
Qed.

Lemma runs_ret : runs (fun acc => Ret acc) (fun st => Ret st).
Proof using. intros acc l [= <-]. exists []. rewrite app_nil_r. split; [done|]. apply executes_ret. Qed.

Lemma runs_err e rp : runs (fun _ => Err e) rp.
Proof using. by intros acc l ?. Qed.

Lemma runs_bind cp1 cp2 rp1 rp2 :
  runs cp1 rp1 -> runs cp2 rp2 ->
  runs (fun acc => let* acc := cp1 acc in cp2 acc) (fun st => let* st := rp1 st in rp2 st).
Proof using.
  intros H1 H2 acc l E. destruct (cp1 acc) as [l1|] eqn:E1; [|done]. cbn [obind] in E.
  apply H1 in E1 as (k1 & -> & X1). apply H2 in E as (k2 & -> & X2). exists (k1 ++ k2).
  split; [by rewrite app_assoc|]. by apply executes_bind.
Qed.

Lemma runs_read {X : Type} (o : outcome X) cp rp :
  (forall x, o = Ret x -> runs (cp x) (rp x)) ->
  runs (fun acc => let* x := o in cp x acc) (fun st => let* x := o in rp x st).
Proof using. intros H. destruct o as [x|e]; cbn [obind]; [by apply H|apply runs_err]. Qed.

Lemma runs_ofold {X : Type} (cp : list (ref_kind * Z) -> X -> outcome (list (ref_kind * Z))) rp xs :
  (forall x, runs (fun acc => cp acc x) (fun st => rp st x)) ->
  runs (fun acc => ofold cp acc xs) (fun st => ofold rp st xs).
Proof using.
  intros H. induction xs as [|x xs IH]; cbn [ofold]; [apply runs_ret|].
  apply (runs_bind (fun acc => cp acc x) _ (fun st => rp st x)); [apply H|exact IH].
Qed.

(** A change of the state that the invariant does not see. *)
Lemma executes_same rp :
  (forall st, exists st', rp st = Ret st' /\ mem st' = mem st /\ gc st' = gc st /\ gc_phase st' = gc_phase st /\
     weak_refs st' = weak_refs st /\ forall f, default [] (frames st' !! f) = default [] (frames st !! f)) ->
  executes [] rp.
Proof using.
  intros Hrp proc prog extra st H _. destruct (Hrp st) as (st' & -> & Em & Eg & Ep & Ew & Ef).
  exists [], st'. split; [done|]. cbn [map]. rewrite !app_nil_r. split; [|split; [rewrite Eg; apply incl_refl|by rewrite Em]].
  destruct H. constructor; rewrite ?Em, ?Eg, ?Ep, ?Ew; try done. intros f. by rewrite Ef.
Qed.

(** ** Values *)

Lemma executes_gc_value v :
  JS_VALUE_HAS_REF_COUNT v = true -> is_leaf_tag (jv_tag v) = false -> is_gc_tag (jv_tag v) = true ->
  executes [(K_value (jv_tag v), jv_ptr v)] (fun st => JS_FreeValueRT on_zero st v).
Proof using SA.
  intros Hc Hl Hg proc prog extra st H (Hk & Hq & He). cbn [map snd forallb] in *. rewrite andb_true_r in Hk.
  assert (is_dead_value (jv_ptr v) = true) as Hv.
  { unfold ref_ok in Hk. unfold GcSweep.is_dead_value. cbn in Hk. by destruct (gc_objects rt0 !! jv_ptr v) as [[]|]. }
  destruct (sweep_dec SA proc prog prog extra st (jv_ptr v) H) as (st' & E & Em & Et & Hs).
  { apply Hq. by left. } { done. } { left. split; [done|]. by rewrite Hv. }
  exists [], st'. rewrite app_nil_r. unfold JS_FreeValueRT. rewrite Hc, Hl, Hg, E. cbn [obind].
  split; [|split; [done|]; split; [rewrite Et; apply incl_refl|by rewrite Em]].
  destruct (_ <=? 0); [|done]. unfold js_free_value_rt. by rewrite (sw_phase Hs).
Qed.

Lemma executes_call c : executes [] (fun st => Ret (add_free_call st c)).
Proof using. apply executes_same. intros st. by exists (add_free_call st c). Qed.

Lemma runs_value v : runs (fun acc => collect_value acc v) (fun st => JS_FreeValueRT on_zero st v).
Proof using SA.
  intros acc l. unfold collect_value. destruct (JS_VALUE_HAS_REF_COUNT v) eqn:Hc.
  - destruct (is_leaf_tag (jv_tag v)) eqn:Hl.
    + intros [= <-]. exists []. rewrite app_nil_r. split; [done|]. unfold JS_FreeValueRT. rewrite Hc, Hl. apply executes_call.
    + destruct (is_gc_tag (jv_tag v)) eqn:Hg; [|done]. intros [= <-]. eexists. split; [done|]. by apply executes_gc_value.
  - intros [= <-]. exists []. rewrite app_nil_r. split; [done|]. unfold JS_FreeValueRT. rewrite Hc. apply executes_ret.
Qed.

(** No variable reference of the frame is open. *)
Lemma runs_close f :
  runs (fun acc => close_frame (Release := collect_release open_frames) acc f) (fun st => close_var_refs st f).
Proof using.
  intros acc l. cbn [close_frame collect_release collect_refs]. intros E.
  assert (default [] (open_frames !! f) = [] /\ l = acc) as [Ho ->] by (destruct (open_frames !! f) as [[|]|]; by inversion E).
  exists []. rewrite app_nil_r. split; [done|]. intros proc prog extra st H Hr.
  assert (default [] (frames st !! f) = []) as Ef by (by rewrite (sw_frames H)).
  exists [], (set_frames st (delete f (frames st))). unfold close_var_refs. rewrite Ef. cbn [ofold obind map].
  rewrite !app_nil_r. split; [done|]. split; [|split; [apply incl_refl|done]].
  pose proof (sw_frames H) as Hf.
  destruct H. constructor; try done. intros g. cbn [frames set_frames]. rewrite <- Hf.
  destruct (decide (f = g)) as [<-|]; [by rewrite lookup_delete_eq, Ef|by rewrite lookup_delete_ne].
Qed.

(** ** The last reference *)

(** An object that has a reference left is there, with its contents. *)
Lemma sweep_contents proc prog extra st x o :
  sweep proc prog extra st -> In x (L ++ D) -> within (extra ++ [x]) (refs prog) ->
  gc_objects rt0 !! x = Some o -> is_value_object o = false ->
  gc_objects (mem st) !! x = Some o /\ ~ In x (proc ++ prog).
Proof using SA.
  intros H Hx He Eo Hv.
  assert (is_dead_value x = false) as Hd by (unfold GcSweep.is_dead_value; by rewrite Eo).
  destruct (sweep_present SA x H Hx He) as [o' Eo'].
  assert (~ In x (proc ++ prog)) as Hn.
  { intros [Hi|Hi]%in_app_iff.
    - rewrite (sw_freed H x Hi Hd) in Eo'. done.
    - destruct (sw_prog H x Hi) as [_ Ez]. specialize (Ez Hd).
      pose proof (sweep_budget x H He) as Hb. pose proof (dead_le SA x Hx).
      rewrite app_assoc, occ_snoc in Hb. lia. }
  split; [|done]. rewrite (sw_same H x Hx); [done|intros Hi; apply Hn, in_app_iff; by left|intros Hi; apply Hn, in_app_iff; by right].
Qed.

(** Its body released what it holds, and it leaves the memory. *)
Lemma last_reference proc prog extra st x body :
  sweep proc (x :: prog) (extra ++ [x]) st -> within (extra ++ [x]) (refs prog) ->
  rc x = occ x (refs proc ++ extra ++ [x]) -> is_dead_value x = false ->
  runs (fun acc => free_refs (R := collect_release open_frames) rt0 x acc) body ->
  exists news st', (let* st := body st in let* st := remove_gc_object st x in js_free_rt st x) = Ret st' /\
    sweep (proc ++ news) prog (extra ++ [x]) st' /\ quiet prog st st'.
Proof using SA.
  intros H He Hrc Hv Hb. destruct (freed_in H) as [Hx Hn].
  destruct (sa_typed SA x Hx) as [Hw Ec].
  destruct (released_perm rt0 open_frames x _ (sa_host SA) Hw Ec) as (k & Ek & Hp & Hok).
  destruct (Hb [] k Ek) as (k' & Ek' & Hex). cbn [app] in Ek'. subst k'.
  destruct (Hex _ _ _ _ H) as (news & st1 & -> & Hs & Hq1 & Hq2).
  { split; [done|]. split.
    - intros q Hi. apply (sa_kids SA x); [done|]. by eapply Permutation_in.
    - intros y. change (refs (x :: prog)) with (kids x ++ refs prog). specialize (He y).
      rewrite !occ_app, (occ_perm y _ _ Hp) in *. lia. }
  cbn [obind].
  destruct (sweep_free_block SA Hs Hp He) as (st2 & E2 & Hs2 & Ht2 & _ & Hm2).
  { destruct (sw_prog Hs x (or_introl eq_refl)) as [_ Hz]. symmetry. by apply Hz. }
  exists (news ++ [x]), st2. rewrite E2. split; [done|]. rewrite app_assoc. split; [done|]. split.
  - by eapply incl_tran.
  - intros p Hpp. rewrite Hm2; [apply Hq2; by right|]. intros ->. apply Hn, in_app_iff. by right.
Qed.

(** Releasing a reference to an object that is not a value: its count goes down,
    and it is freed when the count is zero. *)
Lemma executes_last kd x o (rp : FreeState -> outcome FreeState) body :
  gc_objects rt0 !! x = Some o -> is_value_object o = false ->
  runs (fun acc => free_refs (R := collect_release open_frames) rt0 x acc) body ->
  (forall st st' n, is_Some (gc_objects (mem st) !! x) -> 0 < ref_count (default (mkHeader 0 0) (headers (gc st) !! x)) ->
     dec_ref_count st x = Ret (st', n) -> mem st' = mem st -> 0 <= n ->
     (0 < n -> rp st = Ret st') /\
     (n = 0 -> gc_objects (mem st') !! x = Some o -> class_count (mem st') = class_count rt0 ->
      (exists m, headers (gc st') !! x = Some (mkHeader 0 m)) ->
      rp st = (let* st := body st' in let* st := remove_gc_object st x in js_free_rt st x))) ->
  executes [(kd, x)] rp.
Proof using SA.
  intros Eo Hv Hb Hrp proc prog extra st H (Hk & Hq & He). cbn [map snd] in *.
  assert (In x (L ++ D)) as Hx by (apply Hq; by left).
  assert (is_dead_value x = false) as Hd by (unfold GcSweep.is_dead_value; by rewrite Eo).
  destruct (sweep_contents _ _ _ _ _ _ H Hx He Eo Hv) as [Ec Hn].
  pose proof (sweep_budget x H He) as Hbd. pose proof (dead_le SA x Hx) as Hle.
  set (n := rc x - occ x (refs proc ++ extra ++ [x])).
  pose proof (sw_header H x Hx (ex_intro _ _ Ec)) as Hh.
  assert (0 < ref_count (default (mkHeader 0 0) (headers (gc st) !! x))) as Hpos.
  { rewrite Hh. cbn. rewrite app_assoc, occ_snoc in Hbd. lia. }
  destruct (decide (n = 0)) as [Hz|Hnz].
  - assert (In x D) as HxD.
    { apply in_app_iff in Hx as [Hx|Hx]; [|done]. pose proof (sa_live SA x Hx). lia. }
    destruct (sweep_dec SA proc prog (x :: prog) extra st x H Hx He) as (st' & E & Em & Et & Hs).
    { right. split_and!; [done|done|done|]. lia. }
    destruct (Hrp st st' n (ex_intro _ _ Ec) Hpos E Em ltac:(lia)) as [_ Hrp0].
    destruct (last_reference _ _ _ _ _ _ Hs He ltac:(lia) Hd Hb) as (news & st2 & E2 & Hs2 & Ht2 & Hm2).
    exists news, st2. rewrite Hrp0; [|done|by rewrite Em| |].
    + split; [done|]. split; [done|]. split; [by rewrite <- Et|]. intros p Hp. by rewrite Hm2, Em.
    + rewrite (sw_mem Hs). done.
    + exists (mk x). rewrite (sw_header Hs x Hx); [fold n; by rewrite Hz|rewrite Em; by eexists].
  - destruct (sweep_dec SA proc prog prog extra st x H Hx He) as (st' & E & Em & Et & Hs).
    { left. split; [done|]. intros _ _. lia. }
    destruct (Hrp st st' n (ex_intro _ _ Ec) Hpos E Em ltac:(lia)) as [Hrp1 _].
    exists [], st'. rewrite app_nil_r. rewrite Hrp1 by lia. split; [done|]. split; [done|].
    split; [rewrite Et; apply incl_refl|by rewrite Em].
Qed.

(** * The bodies *)

Section Bodies.
Context {R : Release FreeState}.
Abbreviation C := (collect_release open_frames).
Hypothesis Hvalue : forall v, runs (fun acc => collect_value acc v) (fun st => release_value st v).
Hypothesis Hcall : forall st c, record_call st c = add_free_call st c.

Lemma runs_call cp rp c : runs cp rp -> runs cp (fun st => rp (record_call st c)).
Proof using Hcall.
  intros H acc l E. destruct (H acc l E) as (k & -> & X). exists k. split; [done|].
  intros proc prog extra st Hs Hr. rewrite Hcall. destruct (executes_call c _ _ _ _ Hs) as (n & st' & [= <-] & Hs' & Q).
  { split; [done|]. cbn [map]. split; [done|]. rewrite app_nil_r. apply (sw_extra Hs). }
  cbn [map] in Hs'. rewrite app_nil_r in Hs'.
  destruct (X _ _ _ _ Hs' Hr) as (n' & st2 & -> & Hs2 & Q2). exists (n ++ n'), st2. rewrite app_assoc.
  split; [done|]. split; [done|]. exact (quiet_trans _ _ _ _ Q Q2).
Qed.

Lemma runs_values vals :
  runs (fun acc => release_values (R := C) acc vals) (fun st => release_values st vals).
Proof using Hvalue. apply runs_ofold. intros v. apply Hvalue. Qed.

Lemma runs_array vals n :
  runs (fun acc => release_array (R := C) acc vals n) (fun st => release_array st vals n).
Proof using Hvalue. apply runs_ofold. intros i. apply runs_read. intros v _. apply Hvalue. Qed.

Lemma runs_ptr tag p : runs (fun acc => release_ptr (R := C) tag acc p) (fun st => release_ptr tag st p).
Proof using Hvalue. destruct p; [apply Hvalue|apply runs_ret]. Qed.

Lemma runs_shape_refs p sh :
  runs (fun acc => free_shape_refs (R := C) p sh acc) (fun st => free_shape_refs p sh st).
Proof using Hvalue Hcall.
  unfold free_shape_refs. cbn [record_call collect_release collect_refs].
  assert (runs (fun acc =>
      let* acc := release_ptr (R := C) JS_TAG_OBJECT acc (proto sh) in
      ofold (fun acc i => let* pr := rd (shape_prop sh) i in Ret acc) acc (seqZ 0 (prop_count sh)))
    (fun st =>
      let* st := release_ptr JS_TAG_OBJECT st (proto sh) in
      ofold (fun st i => let* pr := rd (shape_prop sh) i in Ret (record_call st (C_JS_FreeAtomRT (atom pr)))) st
        (seqZ 0 (prop_count sh)))) as H.
  { apply runs_bind; [apply runs_ptr|]. apply runs_ofold. intros i. apply runs_read. intros pr _.
    apply (runs_call (fun acc => Ret acc) (fun st => Ret st)), runs_ret. }
  destruct (is_hashed sh); [|exact H]. exact (runs_call _ _ (C_js_shape_hash_unlink p) H).
Qed.

Section Frames.
Hypothesis Hclose : forall f, runs (fun acc => close_frame (Release := C) acc f) (fun st => close_frame st f).

Lemma runs_async_func s : runs (fun acc => async_func_free (R := C) s acc) (fun st => async_func_free s st).
Proof using Hvalue Hclose.
  unfold async_func_free. apply runs_bind; [apply Hclose|]. apply runs_bind.
  - destruct (has_arg_buf s); [|apply runs_ret]. destruct (stack s); [apply runs_values|apply runs_err].
  - apply runs_bind; apply Hvalue.
Qed.

Lemma runs_async_refs s : runs (fun acc => free_async_refs (R := C) s acc) (fun st => free_async_refs s st).
Proof using Hvalue Hclose.
  apply runs_bind; [|apply runs_values]. destruct (is_active s); [apply runs_async_func|apply runs_ret].
Qed.

Hypothesis Hvar_ref : forall p, runs (fun acc => release_var_ref (Release := C) acc p) (fun st => release_var_ref st p).
Hypothesis Hshape : forall p, runs (fun acc => release_shape (Release := C) acc p) (fun st => release_shape st p).

Lemma runs_shape_null p : runs (fun acc => js_free_shape_null (R := C) acc p) (fun st => js_free_shape_null st p).
Proof using Hshape. destruct p; [apply Hshape|apply runs_ret]. Qed.

Lemma runs_module_def m : runs (fun acc => js_free_module_def (R := C) m acc) (fun st => js_free_module_def m st).
Proof using Hvalue Hvar_ref.
  apply runs_bind; [|apply runs_values]. apply runs_ofold. intros [[] p]; [apply Hvar_ref|apply runs_ret].
Qed.

Lemma runs_context_refs n ctx :
  runs (fun acc => free_context_refs (R := C) n ctx acc) (fun st => free_context_refs n ctx st).
Proof using Hvalue Hvar_ref Hshape.
  unfold free_context_refs. apply runs_bind; [apply runs_ofold; intros m; apply runs_module_def|].
  repeat (apply runs_bind; [first [apply runs_values|apply runs_array]|]). apply runs_shape_null.
Qed.

Hypothesis Hcontext : forall p, runs (fun acc => release_context (Release := C) acc p) (fun st => release_context st p).
Hypothesis Hasync :
  forall p, runs (fun acc => release_async_function (Release := C) acc p) (fun st => release_async_function st p).

Lemma runs_context_opt p :
  runs (fun acc => release_context_opt (R := C) acc p) (fun st => release_context_opt st p).
Proof using Hcontext. destruct p; [apply Hcontext|apply runs_ret]. Qed.

Lemma runs_bytecode_refs b :
  runs (fun acc => free_bytecode_refs (R := C) b acc) (fun st => free_bytecode_refs b st).
Proof using Hvalue Hshape Hcontext.
  unfold free_bytecode_refs. apply runs_bind.
  - destruct (ic b) as [cache|]; [|apply runs_ret]. apply runs_ofold. intros l. apply runs_ofold. intros p. apply runs_shape_null.
  - apply runs_bind; [apply runs_array|apply runs_context_opt].
Qed.

(** Decomposition along the two programs, which are the same. *)
Ltac runs_step :=
  first
    [ apply Hvalue | apply Hvar_ref | apply Hshape | apply Hcontext | apply Hasync
    | apply runs_values | apply runs_array | apply runs_ptr | apply runs_context_opt | apply runs_async_func
    | apply runs_ret | apply runs_err
    | apply runs_ofold; intro | apply runs_read; intros ? _ | apply runs_bind
    | match goal with |- runs _ (fun acc => match ?x with _ => _ end) => destruct x end ].
Ltac runs_tac := repeat (cbn [fst snd]; runs_step).

Lemma runs_property v fl :
  runs (fun acc => free_property (R := C) acc v fl) (fun st => free_property st v fl).
Proof using Hvalue Hvar_ref Hcontext. unfold free_property, js_autoinit_free. cbv zeta. runs_tac. Qed.

Lemma runs_properties o sh :
  runs (fun acc => free_properties (R := C) o sh acc) (fun st => free_properties o sh st).
Proof using Hvalue Hvar_ref Hcontext.
  apply runs_ofold. intros i. apply runs_read. intros pr _. apply runs_read. intros v _. apply runs_property.
Qed.

Lemma runs_recorded_value v c :
  runs (fun acc => release_value (Release := C) (record_call (Release := C) acc c) v)
    (fun st => release_value (record_call st c) v).
Proof using Hvalue Hcall. exact (runs_call _ _ c (Hvalue v)). Qed.

Lemma runs_recorded c : runs (fun acc => Ret (record_call (Release := C) acc c)) (fun st => Ret (record_call st c)).
Proof using Hcall. exact (runs_call (fun acc => Ret acc) (fun st => Ret st) c runs_ret). Qed.

(** The record of the iterator is released when the map is there. *)
Lemma runs_map_iterator o : runs (js_map_iterator_finalizer (R := C) o) (js_map_iterator_finalizer o).
Proof using Hvalue Hcall.
  unfold js_map_iterator_finalizer. destruct (u o); runs_tac. destruct cur_record as [mr|]; [|apply Hvalue].
  intros acc l E. destruct (Hvalue obj acc l E) as (k & -> & X). exists k. split; [done|].
  intros proc prog extra st Hs Hr. destruct (is_live_object st obj); [|by apply X].
  destruct (runs_call _ _ (C_map_decref_record mr) (Hvalue obj) acc _ E) as (k2 & Ek & X2).
  apply app_inv_head in Ek as <-. by apply X2.
Qed.

Lemma runs_class rt code obj o :
  runs (fun acc => call_finalizer (R := C) rt code obj o acc) (fun st => call_finalizer rt code obj o st).
Proof using Hvalue Hcall Hclose Hvar_ref Hshape Hcontext Hasync.
  unfold call_finalizer, class_finalizer. cbv zeta.
  repeat match goal with
  | |- runs (fun acc => match (if ?b then _ else _) with _ => _ end) _ => destruct b
  | |- runs (fun acc => match (match ?x with Some _ => _ | None => _ end) with _ => _ end) _ => destruct x
  end;
  unfold js_array_finalizer, js_object_data_finalizer, js_c_function_finalizer, js_bytecode_function_finalizer,
    js_bound_function_finalizer, js_c_function_data_finalizer, js_for_in_iterator_finalizer, js_regexp_finalizer,
    js_array_buffer_finalizer, js_typed_array_finalizer, js_map_finalizer, js_iterator_helper_finalizer,
    js_iterator_wrap_finalizer, js_array_iterator_finalizer, js_regexp_string_iterator_finalizer,
    js_generator_finalizer, js_proxy_finalizer, js_promise_finalizer, promise_reaction_data_free,
    js_promise_resolve_function_finalizer, js_async_function_resolve_finalizer,
    js_async_from_sync_iterator_finalizer, js_async_generator_finalizer, js_weakref_finalizer, js_finrec_finalizer,
    js_callsite_finalizer, host_class_finalizer;
  repeat (cbn [fst snd]; first [apply runs_recorded_value | apply runs_recorded | apply runs_map_iterator | runs_step]).
Qed.
End Frames.
End Bodies.

(** * The operations of the runtime *)

(** The kind of a reference says what the object is. *)
Lemma executes_kind kd x rp :
  (forall o, gc_objects rt0 !! x = Some o -> ref_ok rt0 (kd, x) = true -> executes [(kd, x)] rp) ->
  executes [(kd, x)] rp.
Proof using.
  intros H proc prog extra st Hs Hr. destruct (gc_objects rt0 !! x) as [o|] eqn:Eo.
  - apply (H o); [done| |done|done]. destruct Hr as [Hk _]. cbn [forallb] in Hk. by apply andb_true_iff in Hk as [Hk _].
  - exfalso. destruct Hr as [Hk _]. cbn [forallb] in Hk. apply andb_true_iff in Hk as [Hk _]. unfold ref_ok in Hk.
    cbn in Hk. rewrite Eo in Hk. by destruct kd.
Qed.

Lemma runs_one kd x rp : executes [(kd, x)] rp -> runs (fun acc => Ret (acc ++ [(kd, x)])) rp.
Proof using. intros H acc l [= <-]. by eexists. Qed.

Lemma get_header_pos st x :
  0 < ref_count (default (mkHeader 0 0) (headers (gc st) !! x)) ->
  exists h, get_header (gc st) x = Ret h /\ 0 < ref_count h.
Proof using. unfold get_header. destruct (headers (gc st) !! x) as [h|]; [by exists h|cbn; lia]. Qed.

Lemma dec_ref_header st x st' n : dec_ref_count st x = Ret (st', n) -> exists h, get_header (gc st) x = Ret h.
Proof using. unfold dec_ref_count. destruct (get_header (gc st) x); [by eexists|done]. Qed.

Lemma runs_var_ref p :
  runs (fun acc => release_var_ref (Release := collect_release open_frames) acc p)
    (fun st => free_var_ref on_zero st p).
Proof using SA.
  destruct p as [x|]; [|apply runs_ret]. apply runs_one, executes_kind. intros o Eo Hk. unfold ref_ok in Hk. cbn in Hk.
  rewrite Eo in Hk. destruct o as [| | |r| |]; try done.
  apply (executes_last K_var_ref x _ _ (fun st => JS_FreeValueRT on_zero st (pvalue r)) Eo eq_refl).
  - unfold free_refs. rewrite Eo, Hk. cbn [c_assert obind]. apply runs_value.
  - intros st st' n Hs Hpos E Em Hn. apply get_header_pos in Hpos as (h & Eh & Hpos).
    unfold free_var_ref. rewrite Eh. cbn [obind]. apply Z.ltb_lt in Hpos. rewrite Hpos. cbn [c_assert obind].
    rewrite E. cbn [obind]. split.
    + intros Hlt. by destruct (Z.eqb_spec n 0); [lia|].
    + intros -> Eo' _ _. cbn [Z.eqb]. unfold get_var_ref. rewrite Eo'. cbn [obind]. rewrite Hk.
      by rewrite obind_assoc.
Qed.

Lemma runs_shape (p : Z) :
  runs (fun acc => release_shape (Release := collect_release open_frames) acc p) (fun st => js_free_shape on_zero st p).
Proof using SA.
  apply runs_one, executes_kind. intros o Eo Hk. unfold ref_ok in Hk. cbn in Hk.
  rewrite Eo in Hk. destruct o as [| |sh| | |]; try done.
  apply (executes_last K_shape p _ _ (free_shape_refs (R := values_release on_zero) p sh) Eo eq_refl).
  - unfold free_refs. rewrite Eo. apply runs_shape_refs; [exact runs_value|done].
  - intros st st' n Hs Hpos E Em Hn. unfold js_free_shape. rewrite E. cbn [obind]. split.
    + intros Hlt. by destruct (Z.leb_spec n 0); [lia|].
    + intros -> Eo' _ [m Em']. cbn [Z.leb]. unfold js_free_shape0. rewrite (get_header_some _ _ _ Em').
      cbn [obind ref_count Z.eqb c_assert]. unfold get_shape. by rewrite Eo'.
Qed.

Lemma runs_async (p : Z) :
  runs (fun acc => release_async_function (Release := collect_release open_frames) acc p)
    (fun st => js_async_function_free on_zero st p).
Proof using SA.
  apply runs_one, executes_kind. intros o Eo Hk. unfold ref_ok in Hk. cbn in Hk.
  rewrite Eo in Hk. destruct o as [| | | |s|]; try done.
  apply (executes_last K_async p _ _ (free_async_refs (R := values_release on_zero) s) Eo eq_refl).
  - unfold free_refs. rewrite Eo. apply runs_async_refs; [exact runs_value|exact runs_close].
  - intros st st' n Hs Hpos E Em Hn. unfold js_async_function_free. rewrite E. cbn [obind]. split.
    + intros Hlt. by destruct (Z.eqb_spec n 0); [lia|].
    + intros -> Eo' _ _. cbn [Z.eqb]. unfold js_async_function_free0, get_async_function, get_gc_object. by rewrite Eo'.
Qed.

Lemma runs_context (p : Z) :
  runs (fun acc => release_context (Release := collect_release open_frames) acc p)
    (fun st => JS_FreeContext on_zero st p).
Proof using SA.
  apply runs_one, executes_kind. intros o Eo Hk. unfold ref_ok in Hk. cbn in Hk.
  rewrite Eo in Hk. destruct o as [| | | | |ctx]; try done.
  apply (executes_last K_context p _ _ (free_context_refs (R := shapes_release on_zero) (class_count rt0) ctx) Eo eq_refl).
  - unfold free_refs. rewrite Eo. apply runs_context_refs; [exact runs_value|exact runs_var_ref|exact runs_shape].
  - intros st st' n Hs Hpos E Em Hn. unfold JS_FreeContext. rewrite E. cbn [obind]. split.
    + intros Hlt. by destruct (Z.ltb_spec 0 n); [|lia].
    + intros -> Eo' Ec _. cbn [Z.ltb Z.compare]. unfold get_gc_object. by rewrite Eo', Ec.
Qed.

Lemma runs_finalizer rt code obj o :
  runs (fun acc => call_finalizer (R := collect_release open_frames) rt code obj o acc)
    (fun st => call_finalizer (R := runtime_release on_zero) rt code obj o st).
Proof using SA.
  apply runs_class; [exact runs_value|done|exact runs_close|exact runs_var_ref|exact runs_shape|exact runs_context
    |exact runs_async].
Qed.

Lemma runs_object_properties o sh :
  runs (fun acc => free_properties (R := collect_release open_frames) o sh acc)
    (fun st => free_properties (R := runtime_release on_zero) o sh st).
Proof using SA. apply runs_properties; [exact runs_value|exact runs_var_ref|exact runs_context]. Qed.

Lemma runs_function b :
  runs (fun acc => free_bytecode_refs (R := collect_release open_frames) b acc)
    (fun st => free_bytecode_refs (R := runtime_release on_zero) b st).
Proof using SA. apply runs_bytecode_refs; [exact runs_value|exact runs_shape|exact runs_context]. Qed.
End Runs.
