(* ===== verification/GcRemove.v ===== *)
(** [JS_RunGC] frees the objects that are not reachable, and only them. *)
From Stdlib Require Import ZArith Lia Bool List Permutation.
From stdpp Require Import base tactics list numbers gmap.
From S2P Require Import Prelude GcObject GcChildren Gc GcMark GcFree GcRelease GcSweep GcRuns.

(** * The finalizer reads the class and the data of the object *)

Lemma finalizer_ext {S : Type} {R : Release S} rt rt' code code' obj o o' (st : S) :
  class_id o = class_id o' -> u o = u o' -> host_finalizer rt = host_finalizer rt' ->
  (forall b vr h, u o = U_func (Some b) (Some vr) h ->
     existsb (Z.eqb (class_id o)) [JS_CLASS_BYTECODE_FUNCTION; JS_CLASS_GENERATOR_FUNCTION; JS_CLASS_ASYNC_FUNCTION;
       JS_CLASS_ASYNC_GENERATOR_FUNCTION] = true -> code b = code' b) ->
  call_finalizer rt code obj o st = call_finalizer rt' code' obj o' st.
Proof.
  destruct o as [c sh1 pr1 d], o' as [c' sh2 pr2 d']. cbn [class_id u]. intros <- <- Eh Hc.
  unfold call_finalizer, class_finalizer. cbv zeta. cbn [class_id]. rewrite Eh.
  repeat match goal with
  | |- match (if ?b then Some (js_bytecode_function_finalizer _) else _) with _ => _ end = _ => destruct b eqn:?E
  | |- match (if ?b then _ else _) with _ => _ end = _ => destruct b; [reflexivity|]
  end; [|by destruct (host_finalizer rt' c)].
  unfold js_bytecode_function_finalizer. cbn [u]. destruct d as [| | | |[b|] [vr|] h| | | | | | | | | | | | | | | | | | | | | | | |]; try done.
  by rewrite (Hc b vr h).
Qed.

(** The bytecode of a function is released. *)
Lemma finalizer_bytecode f rt code obj o acc l b vr h :
  u o = U_func (Some b) (Some vr) h ->
  existsb (Z.eqb (class_id o)) [JS_CLASS_BYTECODE_FUNCTION; JS_CLASS_GENERATOR_FUNCTION; JS_CLASS_ASYNC_FUNCTION;
       JS_CLASS_ASYNC_GENERATOR_FUNCTION] = true ->
  call_finalizer (R := collect_release f) rt code obj o acc = Ret l ->
  exists l', l = l' ++ [(K_value JS_TAG_FUNCTION_BYTECODE, b)].
Proof.
  intros Eu Ec. unfold call_finalizer.
  assert (class_finalizer (R := collect_release f) rt code obj (class_id o) =
    Some (js_bytecode_function_finalizer (R := collect_release f) code)) as ->.
  { cbn [existsb] in Ec. rewrite !orb_true_iff, !Z.eqb_eq in Ec. by destruct Ec as [->|[->|[->|[->|]]]]. }
  unfold js_bytecode_function_finalizer. rewrite Eu. intros E.
  destruct (release_ptr _ _ _) as [l1|]; [|done]. cbn [obind] in E. destruct (code b) as [c|]; [|done]. cbn [obind] in E.
  destruct (ofold _ l1 _) as [l2|]; [|done]. cbn [obind] in E. injection E as <-. by exists l2.
Qed.

Section Remove.
Variable rt0 : JSRuntime.
Variable open_frames : gmap Z (list Z).
Variable L D : list Z.
Variable rc mk : Z -> Z.
Hypothesis SA : sweepable rt0 open_frames L D rc.

Abbreviation sweep := (GcSweep.sweep rt0 open_frames L D rc mk).
Abbreviation is_dead_value := (GcSweep.is_dead_value rt0).
Abbreviation refs := (GcMark.refs rt0).
Abbreviation kids := (GcMark.kids rt0).

(** ** The start and the end of the freeing of a value *)

Lemma sweep_start proc st x :
  sweep proc [] [] st -> In x D -> ~ In x proc -> is_dead_value x = true ->
  sweep proc [x] [] st /\ gc_objects (mem st) !! x = gc_objects rt0 !! x.
Proof using SA.
  intros H Hx Hn Hv. assert (In x (L ++ D)) as Hxl by (apply in_app_iff; by right).
  assert (gc_objects (mem st) !! x = gc_objects rt0 !! x) as Ex by (apply (sw_same H); [done|done|exact (fun Hi => Hi)]).
  split; [|done]. pose proof (sa_objects SA x Hxl) as Hs.
  constructor; sweep_keep H.
  - apply List.NoDup_app; [pose proof (sw_nodup H) as Hnd; by rewrite app_nil_r in Hnd|(constructor; [exact (fun Hi => Hi)|constructor])|].
    intros y Hy [->|[]]. done.
  - intros p [Hp|[->|[]]]%in_app_iff; [|done]. apply (sw_in H), in_app_iff. by left.
  - intros y. apply occ_nonneg.
  - intros p Hp Hp1 Hp2. apply (sw_same H); [done|done|exact (fun Hi => Hi)].
  - intros p [<-|[]]. rewrite Ex. split; [done|]. by rewrite Hv.
  - intros p Hp Hd Hi. apply (sw_pending H); [done|done|]. rewrite app_nil_r. intros Hi'. apply Hi, in_app_iff. by left.
Qed.

(** The memory of an object of class [JSObject] that is being freed changes. *)
Lemma sweep_put proc extra st x o0 o :
  sweep proc [x] extra st -> gc_objects rt0 !! x = Some (GC_JS_OBJECT o0) ->
  sweep proc [x] extra (put_gc_object st x (GC_JS_OBJECT o)).
Proof using.
  intros H Eo. assert (In x D) as Hx by (apply (sw_in H), in_app_iff; right; by left).
  assert (is_dead_value x = true) as Hv by (unfold GcSweep.is_dead_value; by rewrite Eo).
  destruct (sw_prog H x (or_introl eq_refl)) as [Hs _].
  assert (forall p, is_Some (<[x := GC_JS_OBJECT o]> (gc_objects (mem st)) !! p) <-> is_Some (gc_objects (mem st) !! p)) as Hsome.
  { intros p. destruct (decide (x = p)) as [<-|Hne]; [rewrite lookup_insert_eq|by rewrite lookup_insert_ne]. split; [done|by eexists]. }
  constructor; cbn [put_gc_object set_mem mem gc gc_phase frames weak_refs with_objects gc_objects]; sweep_keep H.
  - by rewrite (sw_mem H).
  - intros p Hp Hs'. apply (sw_header H); [done|]. by apply Hsome.
  - intros p Hp En. apply (sw_gone H); [done|]. destruct (gc_objects (mem st) !! p) eqn:E; [|done].
    destruct (proj2 (Hsome p)) as [? ?]; [by eexists|congruence].
  - intros p Hp Hp1 Hp2. rewrite lookup_insert_ne; [by apply (sw_same H)|]. intros ->. apply Hp2. by left.
  - intros p Hp. rewrite Hsome. by apply (sw_prog H).
  - intros p Hp Hd. rewrite lookup_insert_ne; [by apply (sw_freed H)|]. intros ->. congruence.
  - intros p o' Hp Hd. destruct (decide (x = p)) as [<-|Hne].
    + rewrite lookup_insert_eq. intros [= <-]. split; [done|]. intros b. by rewrite Eo.
    + rewrite lookup_insert_ne by done. by apply (sw_zombie H).
  - rewrite (sw_lists H). erewrite filter_ext; [done|]. intros p. apply bool_decide_ext. symmetry. apply Hsome.
Qed.

(** The value was freed and other objects still refer to it: its memory stays, in
    the list of the objects without references. *)
Lemma sweep_zombie proc ks st x g :
  sweep proc [x] ks st -> Permutation ks (kids x) -> is_dead_value x = true ->
  headers g = headers (gc st) -> gc_obj_list g = gc_obj_list (gc st) ->
  Permutation (x :: tmp_obj_list g ++ gc_zero_ref_count_list g) (tmp_obj_list (gc st) ++ gc_zero_ref_count_list (gc st)) ->
  incl (gc_zero_ref_count_list g) (gc_zero_ref_count_list (gc st)) ->
  incl (tmp_obj_list g) (tmp_obj_list (gc st)) -> ~ In x (tmp_obj_list g) ->
  sweep (proc ++ [x]) [] [] (set_gc st (list_add_tail g x GC_ZERO_REF_COUNT_LIST)).
Proof using.
  intros H Hk Hv Hgh Hgl Hgp Hgz Hgt Hxt.
  assert (forall p, occ p (refs (proc ++ [x]) ++ []) = occ p (refs proc ++ ks)) as Eocc.
  { intros p. apply occ_perm. by apply (refs_of_snoc rt0 proc x [] ks). }
  assert (forall p, In p proc -> In p (proc ++ [x])) as Hin by (intros p Hp; apply in_app_iff; by left).
  constructor; cbn [set_gc gc mem gc_phase frames weak_refs list_add_tail set_list list_of headers gc_obj_list
    tmp_obj_list gc_zero_ref_count_list]; sweep_keep H.
  - rewrite app_nil_r. apply (sw_nodup H).
  - intros p. rewrite app_nil_r. apply (sw_in H).
  - intros y. apply occ_nonneg.
  - intros p Hp Hs. rewrite Hgh, Eocc. by apply (sw_header H).
  - intros p Hp Hs. rewrite Hgh, Eocc. destruct (sw_gone H p Hp Hs) as (? & ? & ?). split; [by apply Hin|done].
  - intros p Hp Hp1 _. rewrite in_app_iff in Hp1. apply (sw_same H); tauto.
  - intros p [].
  - intros p [Hp|[->|[]]]%in_app_iff Hd; [by apply (sw_freed H)|congruence].
  - intros p Hp Hd Hi. rewrite Eocc. apply (sw_pending H); [done|done|]. by rewrite app_nil_r in Hi.
  - rewrite Hgl. apply (sw_gc H).
  - rewrite <- (sw_lists H), <- Hgp, app_assoc. symmetry. apply Permutation_cons_append.
  - intros p [Hp|[->|[]]]%in_app_iff; [|left; apply in_app_iff; right; by left].
    destruct (sw_zero H p (Hgz p Hp)); [left; by apply Hin|by right].
  - intros p Hp [Hi|[->|[]]]%in_app_iff; [|done]. exact (sw_tmp H p (Hgt p Hp) Hi).
Qed.

Lemma sweep_finish proc ks st x :
  sweep proc [x] ks st -> Permutation ks (kids x) -> is_dead_value x = true ->
  exists st', free_gc_block st x = Ret st' /\ sweep (proc ++ [x]) [] [] st' /\
    incl (tmp_obj_list (gc st')) (tmp_obj_list (gc st)) /\ ~ In x (tmp_obj_list (gc st')).
Proof using SA.
  intros H Hk Hv. destruct (sw_prog H x (or_introl eq_refl)) as [Hpr _].
  assert (In x D) as Hx by (apply (sw_in H), in_app_iff; right; by left).
  assert (In x (L ++ D)) as Hxl by (apply in_app_iff; by right).
  pose proof (sw_header H x Hxl Hpr) as Hh. set (n := rc x - occ x (refs proc ++ ks)) in Hh.
  pose proof (sweep_lists_nodup SA H) as Hn.
  destruct (list_del_dead (gc st) x Hn (sweep_listed x H Hx Hpr)) as (g & Eg & Hgh & Hgl & Hgp & Hgt & Hgz).
  assert (~ In x (tmp_obj_list g)) as Hxt.
  { intros Hi. eapply Permutation_NoDup in Hn; [|apply Permutation_app_head; symmetry; apply Hgp].
    apply List.NoDup_app_remove_l, List.NoDup_cons_iff in Hn as [Hn _]. apply Hn, in_app_iff. by left. }
  unfold free_gc_block, remove_gc_object. rewrite Eg. cbn [obind set_gc gc]. rewrite (get_header_some g x (mkHeader n (mk x))) by (by rewrite Hgh).
  cbn [obind ref_count gc_phase set_gc]. rewrite (sw_phase H). cbn [andb].
  destruct (Z.eqb_spec n 0) as [Hz|Hnz]; cbn [negb].
  - destruct (sweep_free_block SA (ks := ks) (extra := []) H Hk) as (st' & E & Hs & Ht & Hxt' & _).
    { intros y. apply occ_nonneg. } { unfold n in Hz. cbn [app]. lia. }
    exists st'. unfold remove_gc_object in E. rewrite Eg in E. done.
  - exists (set_gc st (list_add_tail g x GC_ZERO_REF_COUNT_LIST)). split; [done|].
    split; [by apply (sweep_zombie proc ks)|]. done.
Qed.

(** ** Freeing a value *)

Variable job_malloc_ok : list (list JSValue) -> bool.
Variable on_zero : FreeState -> outcome FreeState.

(** The contents of an object that the value being freed still refers to, and that
    nothing has changed. *)
Lemma kid_contents proc prog extra st x q o :
  sweep proc prog extra st -> In x D -> In q (kids x) -> within (extra ++ [q]) (refs prog) ->
  gc_objects rt0 !! q = Some o -> ~ In q prog ->
  (is_value_object o = false \/ exists b, o = GC_FUNCTION_BYTECODE b) -> gc_objects (mem st) !! q = Some o.
Proof using SA.
  intros H Hx Hq He Eo Hnq Ho. assert (In q (L ++ D)) as Hql by exact (sa_kids SA x q Hx Hq).
  destruct Ho as [Hv|[b ->]]; [by destruct (sweep_contents rt0 open_frames L D rc mk SA _ _ _ _ q o H Hql He Eo Hv)|].
  destruct (sweep_present SA q H Hql He) as [o' Eo'].
  destruct (in_dec Z.eq_dec q proc) as [Hi|Hi]; [|by rewrite (sw_same H)].
  assert (In q D) as HqD by (apply (sw_in H), in_app_iff; by left).
  destruct (sw_zombie H q o' HqD) as [_ Hb]; [by unfold GcSweep.is_dead_value; rewrite Eo|done|].
  rewrite Eo'. f_equal. by apply Hb.
Qed.

(** What freeing the object releases, in three parts. *)
Lemma released_object x o :
  In x D -> gc_objects rt0 !! x = Some (GC_JS_OBJECT o) ->
  exists sh k1 k3, gc_objects rt0 !! shape o = Some (GC_SHAPE sh) /\
    free_properties (R := collect_release open_frames) o sh [] = Ret k1 /\
    call_finalizer (R := collect_release open_frames) rt0 (get_bytecode rt0) x o (k1 ++ [(K_shape, shape o)])
      = Ret (k1 ++ [(K_shape, shape o)] ++ k3) /\
    Permutation (map snd (k1 ++ [(K_shape, shape o)] ++ k3)) (kids x) /\
    forallb (ref_ok rt0) (k1 ++ [(K_shape, shape o)] ++ k3) = true.
Proof using SA mk on_zero.
  intros Hx Eo. destruct (sa_typed SA x Hx) as [Hw Ec].
  destruct (released_perm rt0 open_frames x _ (sa_host SA) Hw Ec) as (k & Ek & Hp & Hok).
  unfold released, free_refs in Ek. rewrite Eo in Ek. unfold get_shape in Ek.
  destruct (gc_objects rt0 !! shape o) as [[| |sh| | |]|] eqn:Esh; try done. cbn [obind] in Ek.
  destruct (free_properties o sh []) as [k1|] eqn:E1; [|done].
  change (call_finalizer (R := collect_release open_frames) rt0 (get_bytecode rt0) x o (k1 ++ [(K_shape, shape o)]) = Ret k) in Ek.
  destruct (runs_finalizer rt0 open_frames L D rc mk SA on_zero rt0 (get_bytecode rt0) x o _ _ Ek) as (k3 & -> & _).
  exists sh, k1, k3. rewrite <- app_assoc in *. done.
Qed.

Lemma sweep_mark proc prog extra st x : sweep proc prog extra st -> sweep proc prog extra (set_free_mark st x).
Proof using. intros H. constructor; sweep_keep H. Qed.

(** The references of the object being freed may be released. *)
Lemma releasable_all x k :
  In x D -> Permutation (map snd k) (kids x) -> forallb (ref_ok rt0) k = true -> releasable rt0 L D [x] [] k.
Proof using SA.
  intros Hx Hp Hk. split; [done|]. split.
  - intros q Hq. apply (sa_kids SA x q Hx). by eapply Permutation_in.
  - intros y. cbn [app]. change (refs [x]) with (kids x ++ []). rewrite app_nil_r, (occ_perm y _ _ Hp). lia.
Qed.

(** The finalizer reads the memory of the function as it was. *)
Lemma finalizer_code proc extra st x o k1 r k3 acc :
  sweep proc [x] extra st -> In x D -> gc_objects rt0 !! x = Some (GC_JS_OBJECT o) ->
  call_finalizer (R := collect_release open_frames) rt0 (get_bytecode rt0) x o (k1 ++ [(K_shape, r)])
    = Ret (k1 ++ [(K_shape, r)] ++ k3) ->
  releasable rt0 L D [x] extra k3 -> (forall q, In q (map snd k3) -> In q (kids x)) ->
  call_finalizer (R := runtime_release on_zero) (mem st) (get_bytecode (mem st)) x
    (mkJSObject (class_id o) 0 [] (u o)) acc =
  call_finalizer (R := runtime_release on_zero) rt0 (get_bytecode rt0) x o acc.
Proof using SA.
  intros H Hx Eo Ef (Hk & Hq & He) Hkk.
  apply finalizer_ext; [done|done|exact (f_equal host_finalizer (sw_mem H))|]. intros b vr h Eu Ec. cbn [u class_id] in Eu, Ec.
  destruct (finalizer_bytecode _ _ _ _ _ _ _ b vr h Eu Ec Ef) as [l' El].
  assert (exists l, k3 = l ++ [(K_value JS_TAG_FUNCTION_BYTECODE, b)]) as [l ->].
  { destruct k3 as [|y l _] using rev_ind; [by apply app_inj_tail in El as [_ ?]|]. rewrite !app_assoc in El.
    apply app_inj_tail in El as [_ ->]. by exists l. }
  rewrite forallb_app in Hk. apply andb_true_iff in Hk as [_ Ho]. cbn [forallb] in Ho. rewrite andb_true_r in Ho.
  unfold ref_ok in Ho. cbn [fst snd] in Ho. destruct (gc_objects rt0 !! b) as [[|bc| | | |]|] eqn:Eb; try done.
  unfold get_bytecode. rewrite (kid_contents proc [x] extra st x b (GC_FUNCTION_BYTECODE bc) H Hx); [by rewrite Eb| | |exact Eb| |].
  - apply Hkk. rewrite map_app. apply in_app_iff. right. by left.
  - intros y. specialize (He y). rewrite map_app in He. cbn [map snd] in He. rewrite !occ_app in *.
    pose proof (occ_nonneg y (map snd l)). lia.
  - intros [->|[]]. rewrite Eo in Eb. done.
  - right. by eexists.
Qed.

(** The effect of the freeing of a value. *)
Definition frees_value (free : FreeState -> outcome FreeState) (proc : list Z) (st : FreeState) (x : Z) : Prop :=
  exists news st', free st = Ret st' /\ sweep (proc ++ news) [] [] st' /\
    incl (tmp_obj_list (gc st')) (tmp_obj_list (gc st)) /\ ~ In x (tmp_obj_list (gc st')).

(** The first part of [free_object]: the properties, the shape, the weak
    references, of which there are none. *)
Lemma free_object_fields proc st x o sh k1 k3 :
  sweep proc [x] [] st -> gc_objects (mem st) !! x = Some (GC_JS_OBJECT o) -> In x D ->
  gc_objects rt0 !! x = Some (GC_JS_OBJECT o) -> gc_objects rt0 !! shape o = Some (GC_SHAPE sh) ->
  free_properties (R := collect_release open_frames) o sh [] = Ret k1 ->
  In (shape o) (kids x) -> releasable rt0 L D [x] [] (k1 ++ [(K_shape, shape o)] ++ k3) ->
  exists news st3, sweep (proc ++ news) [x] (map snd (k1 ++ [(K_shape, shape o)])) st3 /\
    incl (tmp_obj_list (gc st3)) (tmp_obj_list (gc st)) /\
    free_object job_malloc_ok on_zero st x =
      (let* st := call_finalizer (R := runtime_release on_zero) (mem st3) (get_bytecode (mem st3)) x
                    (mkJSObject (class_id o) 0 [] (u o)) st3 in
       free_gc_block (put_gc_object st x (GC_JS_OBJECT (mkJSObject 0 0 [] U_null))) x).
Proof using SA.
  intros H0 Ex Hx Eo Esh E1 Hks Hr. apply (sweep_mark _ _ _ _ x) in H0.
  unfold free_object, get_object, get_gc_object. cbn [mem set_free_mark]. rewrite Ex. cbn [obind].
  assert (gc_objects (mem (set_free_mark st x)) !! shape o = Some (GC_SHAPE sh)) as Es.
  { apply (kid_contents proc [x] [] _ x); try done; [|intros [E|[]]; rewrite <- E, Eo in Esh; done|by left].
    intros y. cbn [app]. change (refs [x]) with (kids x ++ []). rewrite app_nil_r, occ_one.
    destruct (Z.eq_dec (shape o) y) as [<-|]; [by apply occ_In in Hks; lia|apply occ_nonneg]. }
  unfold get_shape at 1. cbn [mem set_free_mark] in Es. rewrite Es. cbn [obind].
  apply releasable_app in Hr as [Hr1 Hr]. apply releasable_app in Hr as [Hr2 Hr3].
  destruct (runs_object_properties rt0 open_frames L D rc mk SA on_zero o sh [] k1 E1) as (? & -> & X1).
  destruct (X1 _ _ _ _ H0 Hr1) as (n1 & st1 & -> & H1 & Q1). cbn [obind].
  destruct (runs_shape rt0 open_frames L D rc mk SA on_zero (shape o) [] _ eq_refl) as (? & [= <-] & X2).
  destruct (X2 _ _ _ _ H1 Hr2) as (n2 & st2 & -> & H2 & Q2). cbn [obind].
  pose proof (quiet_trans _ _ _ _ Q1 Q2) as [Qt Qm]. rewrite (Qm x (or_introl eq_refl)). cbn [mem set_free_mark].
  rewrite Ex. cbn [obind]. apply (sweep_put _ _ _ _ o (mkJSObject (class_id o) 0 [] (u o))) in H2; [|done].
  set (st3 := put_gc_object st2 x _) in *. exists (n1 ++ n2), st3. rewrite app_assoc, map_app. split; [done|]. split; [done|].
  pose proof (sw_weak H2 x Hx) as Hw.
  assert (gc_objects (mem st3) !! x = Some (GC_JS_OBJECT (mkJSObject (class_id o) 0 [] (u o)))) as E4.
  { unfold st3. cbn. by rewrite lookup_insert_eq. }
  destruct (weak_refs st3 !! x) as [[|]|]; try done; cbn [obind]; by rewrite E4.
Qed.

Lemma gc_free_object_spec proc st x o :
  sweep proc [] [] st -> In x D -> ~ In x proc -> gc_objects rt0 !! x = Some (GC_JS_OBJECT o) ->
  frees_value (fun st => free_object job_malloc_ok on_zero st x) proc st x.
Proof using SA.
  intros H Hx Hn Eo. assert (is_dead_value x = true) as Hv by (unfold GcSweep.is_dead_value; by rewrite Eo).
  destruct (sweep_start proc st x H Hx Hn Hv) as [H0 Ex]. rewrite Eo in Ex.
  destruct (released_object x o Hx Eo) as (sh & k1 & k3 & Esh & E1 & E3 & Hp & Hok).
  pose proof (releasable_all x _ Hx Hp Hok) as Hr.
  assert (forall q, In q (map snd (k1 ++ [(K_shape, shape o)] ++ k3)) -> In q (kids x)) as Hk
    by (intros q Hq; by eapply Permutation_in).
  destruct (free_object_fields proc st x o sh k1 k3 H0 Ex Hx Eo Esh E1) as (n1 & st3 & H3 & Qt & E); [|done|].
  { apply Hk. rewrite !map_app, !in_app_iff. right. left. by left. }
  unfold frees_value. rewrite E. rewrite app_assoc in Hr. apply releasable_app in Hr as [_ Hr3]. cbn [app] in Hr3.
  rewrite (finalizer_code _ _ st3 x o _ _ k3 st3 H3 Hx Eo E3 Hr3).
  2: { intros q Hq. apply Hk. rewrite !map_app, !in_app_iff. by right; right. }
  rewrite app_assoc in E3, Hp.
  destruct (runs_finalizer rt0 open_frames L D rc mk SA on_zero rt0 (get_bytecode rt0) x o _ _ E3) as (? & E5 & X3).
  apply app_inv_head in E5 as <-. destruct (X3 _ _ _ _ H3 Hr3) as (n2 & st4 & -> & H4 & Qt4 & _). cbn [obind].
  apply (sweep_put _ _ _ _ o (mkJSObject 0 0 [] U_null)) in H4; [|done].
  rewrite <- map_app, <- app_assoc in H4.
  destruct (sweep_finish _ _ _ _ H4 Hp Hv) as (st5 & -> & H5 & Ht5 & Hxt). exists ((n1 ++ n2) ++ [x]), st5.
  rewrite !app_assoc in *. split; [done|]. split; [done|]. split; [|done].
  eapply incl_tran; [exact Ht5|]. by eapply incl_tran.
Qed.

Lemma free_function_spec proc st x b :
  sweep proc [] [] st -> In x D -> ~ In x proc -> gc_objects rt0 !! x = Some (GC_FUNCTION_BYTECODE b) ->
  frees_value (fun st => free_function_bytecode on_zero st x) proc st x.
Proof using SA.
  intros H Hx Hn Eo. assert (is_dead_value x = true) as Hv by (unfold GcSweep.is_dead_value; by rewrite Eo).
  destruct (sweep_start proc st x H Hx Hn Hv) as [H0 Ex]. rewrite Eo in Ex.
  destruct (sa_typed SA x Hx) as [Hw Ec].
  destruct (released_perm rt0 open_frames x _ (sa_host SA) Hw Ec) as (k & Ek & Hp & Hok).
  pose proof (releasable_all x _ Hx Hp Hok) as Hr. unfold released, free_refs in Ek. rewrite Eo in Ek.
  destruct (runs_function rt0 open_frames L D rc mk SA on_zero b [] k Ek) as (? & [= <-] & X).
  destruct (X _ _ _ _ H0 Hr) as (n1 & st1 & E1 & H1 & Qt & _). cbn [app] in H1.
  unfold frees_value, free_function_bytecode, get_bytecode. rewrite Ex. cbn [obind]. rewrite E1. cbn [obind].
  destruct (sweep_finish _ _ _ _ H1 Hp Hv) as (st2 & -> & H2 & Ht2 & Hxt). exists (n1 ++ [x]), st2.
  rewrite app_assoc. split; [done|]. split; [done|]. split; [by eapply incl_tran|done].
Qed.

Lemma free_gc_object_spec proc st x :
  sweep proc [] [] st -> In x D -> ~ In x proc -> is_dead_value x = true ->
  frees_value (fun st => free_gc_object job_malloc_ok on_zero st x) proc st x.
Proof using SA.
  intros H Hx Hn Hv. destruct (sweep_start proc st x H Hx Hn Hv) as [_ Ex].
  unfold GcSweep.is_dead_value in Hv. unfold frees_value, free_gc_object, get_gc_object. rewrite Ex.
  destruct (gc_objects rt0 !! x) as [[o|b| | | |]|] eqn:Eo; try done; cbn [obind].
  - by apply (gc_free_object_spec proc st x o).
  - by apply (free_function_spec proc st x b).
Qed.

End Remove.

(** * The loop of [gc_free_cycles] *)

Section Cycles.
Variable rt0 : JSRuntime.
Variable open_frames : gmap Z (list Z).
Variable L D : list Z.
Variable rc mk : Z -> Z.
Hypothesis SA : sweepable rt0 open_frames L D rc.
Variable job_malloc_ok : list (list JSValue) -> bool.

Abbreviation sweep := (GcSweep.sweep rt0 open_frames L D rc mk).
Abbreviation is_dead_value := (GcSweep.is_dead_value rt0).
Abbreviation refs := (GcMark.refs rt0).
Abbreviation kids := (GcMark.kids rt0).


Lemma NoDup_shorter x (l k : list Z) :
  List.NoDup l -> incl l k -> In x k -> ~ In x l -> (length l < length k)%nat.
Proof using.
  intros Hn Hi Hx Hx'. change (length (x :: l) <= length k)%nat. apply NoDup_incl_length; [by constructor|].
  by intros y [<-|Hy]; [|apply Hi].
Qed.

Lemma sweep_tmp_nodup proc prog extra st : sweep proc prog extra st -> List.NoDup (tmp_obj_list (gc st)).
Proof using SA.
  intros H. pose proof (sweep_lists_nodup SA H) as Hn. apply List.NoDup_app_remove_l in Hn.
  by eapply List.NoDup_app_remove_r.
Qed.

Lemma sweep_tmp_in proc prog extra st p :
  sweep proc prog extra st -> In p (tmp_obj_list (gc st)) -> In p D /\ is_Some (gc_objects (mem st) !! p).
Proof using.
  intros H Hp. assert (In p (tmp_obj_list (gc st) ++ gc_zero_ref_count_list (gc st))) as Hi by (apply in_app_iff; by left).
  eapply Permutation_in in Hi; [|apply (sw_lists H)]. apply filter_In in Hi as [Hi Hs]. split; [done|].
  by apply bool_decide_eq_true in Hs.
Qed.

(** An object that is not a value waits for its last reference in the other list. *)
Lemma sweep_move proc st x g :
  sweep proc [] [] st -> is_dead_value x = false ->
  headers g = headers (gc st) -> gc_obj_list g = gc_obj_list (gc st) ->
  Permutation (x :: tmp_obj_list g ++ gc_zero_ref_count_list g) (tmp_obj_list (gc st) ++ gc_zero_ref_count_list (gc st)) ->
  incl (tmp_obj_list g) (tmp_obj_list (gc st)) -> incl (gc_zero_ref_count_list g) (gc_zero_ref_count_list (gc st)) ->
  sweep proc [] [] (set_gc st (list_add_tail g x GC_ZERO_REF_COUNT_LIST)).
Proof using.
  intros H Hv Hgh Hgl Hgp Hgt Hgz.
  constructor; cbn [set_gc gc mem gc_phase frames weak_refs list_add_tail set_list list_of headers gc_obj_list
    tmp_obj_list gc_zero_ref_count_list]; rewrite ?Hgh, ?Hgl; sweep_keep H.
  - rewrite <- (sw_lists H), <- Hgp, app_assoc. symmetry. apply Permutation_cons_append.
  - intros p [Hp|[->|[]]]%in_app_iff; [|by right]. by apply (sw_zero H), Hgz.
  - intros p Hp. by apply (sw_tmp H), Hgt.
Qed.

Lemma free_cycles_step proc st :
  sweep proc [] [] st ->
  post (gc_free_cycles_step job_malloc_ok st) (fun r => match r with
    | inl st' => (exists proc', sweep proc' [] [] st') /\
                 (length (tmp_obj_list (gc st')) < length (tmp_obj_list (gc st)))%nat
    | inr st' => exists proc', sweep proc' [] [] st' /\ tmp_obj_list (gc st') = []
    end).
Proof using SA.
  intros H. unfold gc_free_cycles_step. destruct (tmp_obj_list (gc st)) as [|p t] eqn:Et; [apply post_ret; by exists proc|].
  assert (In p (tmp_obj_list (gc st))) as Hp by (rewrite Et; by left).
  destruct (sweep_tmp_in _ _ _ _ _ H Hp) as [Hx Hs]. pose proof Hs as [o Eo]. pose proof (sw_tmp H p Hp) as Hn.
  assert (gc_objects rt0 !! p = Some o) as Eo0.
  { rewrite <- Eo. symmetry. apply (sw_same H); [apply in_app_iff; by right|done|exact (fun Hi => Hi)]. }
  assert (is_dead_value p = is_value_object o) as Ev by (unfold GcSweep.is_dead_value; by rewrite Eo0).
  unfold get_gc_object. rewrite Eo. cbn [obind]. rewrite <- Et in *. destruct (is_value_object o).
  - destruct (free_gc_object_spec rt0 open_frames L D rc mk SA job_malloc_ok (fun _ => Err AssertFail) proc st p H Hx Hn Ev)
      as (n & st' & -> & H' & Hi & Hxt). cbn [obind]. apply post_ret. split; [by exists (proc ++ n)|].
    apply (NoDup_shorter p); [by eapply sweep_tmp_nodup|done|done|done].
  - pose proof (sweep_lists_nodup SA H) as Hnd.
    destruct (list_del_dead (gc st) p Hnd (sweep_listed p H Hx Hs)) as (g & -> & Hgh & Hgl & Hgp & Hgt & Hgz).
    cbn [obind]. apply post_ret. pose proof (sweep_move proc st p g H Ev Hgh Hgl Hgp Hgt Hgz) as H'. split; [by exists proc|].
    apply (NoDup_shorter p); [by eapply sweep_tmp_nodup|done|done|].
    intros Hi. eapply Permutation_NoDup in Hnd; [|apply Permutation_app_head; symmetry; apply Hgp].
    apply List.NoDup_app_remove_l, List.NoDup_cons_iff in Hnd as [Hnd _]. apply Hnd, in_app_iff. by left.
Qed.

(** ** When the temporary list is empty, every object to free was freed *)

(** The inner objects: contexts refer to variables and shapes, and these to values. *)
Lemma kid_kind p x :
  In p D -> is_dead_value p = false -> In x (kids p) -> is_dead_value x = false ->
  (exists ctx, gc_objects rt0 !! p = Some (GC_JS_CONTEXT ctx)) /\ forall ctx, gc_objects rt0 !! x <> Some (GC_JS_CONTEXT ctx).
Proof using SA.
  intros Hp Hv Hx Hvx. destruct (sa_typed SA p Hp) as [Hw Ec].
  destruct (released_perm rt0 open_frames p _ (sa_host SA) Hw Ec) as (k & Ek & Hperm & Hok).
  destruct (sa_objects SA p) as [o Eo]; [apply in_app_iff; by right|].
  assert (is_value_object o = false) as Ho by (unfold GcSweep.is_dead_value in Hv; by rewrite Eo in Hv).
  pose proof (released_kinds rt0 open_frames p o k Eo Ho Ek) as Hk. rewrite forallb_forall in Hk, Hok.
  eapply Permutation_in in Hx; [|symmetry; exact Hperm]. apply in_map_iff in Hx as ([kd q] & <- & Hq). cbn [snd] in *.
  specialize (Hk _ Hq). specialize (Hok _ Hq). unfold ref_ok in Hok. cbn [fst snd] in *.
  unfold GcSweep.is_dead_value in Hvx. destruct kd as [tag| | | |]; cbn in Hk; try done.
  - by destruct (gc_objects rt0 !! q) as [[]|].
  - destruct o; try done. split; [by eexists|]. intros ctx' E. by rewrite E in Hok.
  - destruct o; try done. split; [by eexists|]. intros ctx' E. by rewrite E in Hok.
Qed.

(** The references to [x] were released, when the objects not freed have none. *)
Lemma released_elsewhere k proc x :
  List.NoDup proc -> List.NoDup k -> incl proc k -> (forall p, In p k -> ~ In p proc -> ~ In x (kids p)) ->
  occ x (refs k) <= occ x (refs proc).
Proof using.
  intros Hn Hd Hi Hx. revert proc Hn Hi Hx.
  induction k as [|p D' IH]; intros proc Hn Hi Hx; [apply occ_nonneg|].
  apply List.NoDup_cons_iff in Hd as [Hp Hd]. change (refs (p :: D')) with (kids p ++ refs D'). rewrite occ_app.
  destruct (in_dec Z.eq_dec p proc) as [Hpp|Hpp].
  - apply in_split in Hpp as (l1 & l2 & ->). assert (~ In p (l1 ++ l2)) as Hnp by (by apply List.NoDup_remove_2).
    apply List.NoDup_remove_1 in Hn. assert (occ x (refs D') <= occ x (refs (l1 ++ l2))) as H.
    { apply IH; [done|done| |].
      - intros q Hq. assert (In q (l1 ++ p :: l2)) as Hq'.
        { apply in_app_iff in Hq as [?|?]; apply in_app_iff; [by left|right; by right]. }
        destruct (Hi q Hq') as [<-|]; [by destruct (Hnp Hq)|done].
      - intros q Hq Hq'. apply Hx; [by right|]. intros [Hl|[<-|Hl]]%in_app_iff; [|done|]; apply Hq', in_app_iff; [by left|by right]. }
    change (l1 ++ p :: l2) with (l1 ++ [p] ++ l2). rewrite !refs_app, !occ_app in *.
    change (refs [p]) with (kids p ++ []). rewrite app_nil_r. lia.
  - rewrite (occ_0_notin x (kids p)) by (apply Hx; [by left|done]). apply IH; [done|done| |].
    + intros q Hq. destruct (Hi q Hq) as [<-|]; done.
    + intros q Hq Hq'. apply Hx; [by right|done].
Qed.

Lemma all_freed proc st : sweep proc [] [] st -> tmp_obj_list (gc st) = [] -> forall p, In p D -> In p proc.
Proof using SA.
  intros H Ht.
  assert (forall p, In p D -> is_dead_value p = true -> In p proc) as Hval.
  { intros p Hp Hv. destruct (in_dec Z.eq_dec p proc) as [|Hn]; [done|]. exfalso.
    assert (is_Some (gc_objects (mem st) !! p)) as Hs.
    { rewrite (sw_same H); [apply (sa_objects SA), in_app_iff; by right|apply in_app_iff; by right|done|exact (fun Hi => Hi)]. }
    pose proof (sweep_listed p H Hp Hs) as Hi. rewrite Ht in Hi. destruct (sw_zero H p Hi); [done|congruence]. }
  assert (forall x, In x D -> is_dead_value x = false -> ~ In x proc ->
    exists p, In p D /\ ~ In p proc /\ In x (kids p)) as Hex.
  { intros x Hx Hv Hn. pose proof (sw_nodup H) as Hnd. rewrite app_nil_r in Hnd.
    pose proof (sw_pending H x Hx Hv) as Hlt. rewrite !app_nil_r in Hlt. specialize (Hlt Hn).
    rewrite (sa_dead SA x Hx) in Hlt.
    destruct (List.existsb (fun p => negb (existsb (Z.eqb p) proc) && existsb (Z.eqb x) (kids p)) D) eqn:E.
    - apply existsb_exists in E as (p & Hp & E). apply andb_true_iff in E as [E1 E2]. exists p. split; [done|].
      apply existsb_In in E2. split; [|done]. intros Hi. apply existsb_In in Hi. by rewrite Hi in E1.
    - exfalso. assert (occ x (refs D) <= occ x (refs proc)); [|lia].
      apply released_elsewhere; [done|pose proof (sa_nodup SA); by eapply List.NoDup_app_remove_l| |].
      + intros p Hp. apply (sw_in H), in_app_iff. by left.
      + intros p Hp Hpn Hi. assert (existsb (fun p => negb (existsb (Z.eqb p) proc) && existsb (Z.eqb x) (kids p)) D = true); [|congruence].
        apply existsb_exists. exists p. split; [done|]. rewrite (existsb_notin p proc Hpn). by apply existsb_In. }
  intros x Hx. destruct (is_dead_value x) eqn:Hv; [by apply Hval|].
  destruct (in_dec Z.eq_dec x proc) as [|Hn]; [done|]. exfalso.
  destruct (Hex x Hx Hv Hn) as (p & Hp & Hpn & Hxp). destruct (is_dead_value p) eqn:Hvp; [by apply Hpn, Hval|].
  destruct (kid_kind p x Hp Hvp Hxp Hv) as [[ctx Ep] _].
  destruct (Hex p Hp Hvp Hpn) as (p' & Hp' & Hpn' & Hpp). destruct (is_dead_value p') eqn:Hvp'; [by apply Hpn', Hval|].
  by destruct (kid_kind p' p Hp' Hvp' Hpp Hvp) as [_ H'], (H' ctx).
Qed.

(** ** The last loop *)

Lemma free_zombies zs st :
  List.NoDup zs ->
  (forall p, In p zs -> exists o, gc_objects (mem st) !! p = Some o /\ is_value_object o = true) ->
  exists st', ofold free_zombie st zs = Ret st' /\
    gc_obj_list (gc st') = gc_obj_list (gc st) /\ tmp_obj_list (gc st') = tmp_obj_list (gc st) /\
    gc_phase st' = gc_phase st /\
    (forall p, In p zs -> gc_objects (mem st') !! p = None /\ headers (gc st') !! p = None) /\
    (forall p, ~ In p zs -> gc_objects (mem st') !! p = gc_objects (mem st) !! p /\
                            headers (gc st') !! p = headers (gc st) !! p).
Proof using.
  revert st. induction zs as [|x zs IH]; intros st Hn Hz; [exists st; split_and!; try done; by intros p []|].
  apply List.NoDup_cons_iff in Hn as [Hx Hn]. destruct (Hz x (or_introl eq_refl)) as (o & Eo & Ho).
  cbn [ofold]. unfold free_zombie at 1, get_gc_object. rewrite Eo. cbn [obind]. rewrite Ho. cbn [c_assert obind].
  unfold js_free_rt, get_gc_object. rewrite Eo. cbn [obind]. set (st1 := set_gc _ _).
  assert (forall p, p <> x -> gc_objects (mem st1) !! p = gc_objects (mem st) !! p /\
                              headers (gc st1) !! p = headers (gc st) !! p) as Hne.
  { intros p Hp. cbn. by rewrite !lookup_delete_ne. }
  destruct (IH st1 Hn) as (st' & E & Hg & Ht & Hp & Hin & Hout).
  { intros p Hp. rewrite (proj1 (Hne p ltac:(by intros ->))). apply Hz. by right. }
  exists st'. split; [done|]. split; [done|]. split; [done|]. split; [done|]. split.
  - intros p [<-|Hq]; [|by apply Hin]. destruct (Hout x Hx) as [-> ->]. cbn. by rewrite !lookup_delete_eq.
  - intros p Hq. destruct (Hout p) as [-> ->]; [intros Hi; apply Hq; by right|]. apply Hne. intros ->. apply Hq. by left.
Qed.

Lemma gc_free_cycles_spec st :
  sweep [] [] [] (set_phase st JS_GC_PHASE_REMOVE_CYCLES) ->
  post (gc_free_cycles job_malloc_ok st) (fun st' =>
    gc_obj_list (gc st') = L /\ tmp_obj_list (gc st') = [] /\ gc_zero_ref_count_list (gc st') = [] /\
    gc_phase st' = JS_GC_PHASE_NONE /\
    (forall p, In p D -> gc_objects (mem st') !! p = None /\ headers (gc st') !! p = None) /\
    (forall p, In p L -> gc_objects (mem st') !! p = gc_objects rt0 !! p /\
       headers (gc st') !! p = Some (mkHeader (rc p - occ p (refs D)) (mk p)))).
Proof using SA.
  intros H. unfold gc_free_cycles. apply post_bind. eapply post_mono.
  { apply (post_iter (fun st => exists proc, sweep proc [] [] st) (fun st => length (tmp_obj_list (gc st)))
      (fun st' => exists proc', sweep proc' [] [] st' /\ tmp_obj_list (gc st') = [])).
    - intros s [proc Hs]. by apply (free_cycles_step proc).
    - by exists [].
    - cbn. lia. }
  intros st1 (proc & H1 & Ht). pose proof (all_freed proc st1 H1 Ht) as Hall.
  pose proof (sw_nodup H1) as Hnp. rewrite app_nil_r in Hnp. pose proof (sweep_lists_nodup SA H1) as Hnl.
  pose proof (sa_nodup SA) as Hnd.
  assert (Permutation proc D) as Hperm.
  { apply NoDup_Permutation; [by apply NoDup_ListNoDup|apply NoDup_ListNoDup; by eapply List.NoDup_app_remove_l|].
    intros p. rewrite !list_elem_of_In. split; [intros Hp; apply (sw_in H1), in_app_iff; by left|apply Hall]. }
  assert (forall p, In p (gc_zero_ref_count_list (gc st1)) <-> In p D /\ is_Some (gc_objects (mem st1) !! p)) as Hz.
  { intros p. pose proof (sw_lists H1) as Hl. rewrite Ht in Hl. cbn [app] in Hl.
    rewrite <- (bool_decide_eq_true (is_Some (gc_objects (mem st1) !! p))).
    rewrite <- (filter_In (fun p => bool_decide (is_Some (gc_objects (mem st1) !! p)))).
    split; apply Permutation_in; [done|by symmetry]. }
  destruct (free_zombies (gc_zero_ref_count_list (gc st1)) (set_phase st1 JS_GC_PHASE_NONE))
    as (st2 & E2 & Hg2 & Ht2 & Hph & Hin & Hout).
  { rewrite app_assoc in Hnl. by eapply List.NoDup_app_remove_l. }
  { intros p [Hp [o Eo]]%Hz. exists o. split; [done|]. destruct (is_dead_value p) eqn:Hv.
    - by destruct (sw_zombie H1 p o Hp Hv Eo).
    - rewrite (sw_freed H1 p (Hall p Hp) Hv) in Eo. done. }
  cbn [set_phase gc] in E2 |- *. rewrite E2. cbn [obind]. apply post_ret.
  cbn [set_gc gc mem gc_phase set_list gc_obj_list tmp_obj_list gc_zero_ref_count_list headers].
  rewrite Hg2, Ht2, Hph. split; [exact (sw_gc H1)|]. split; [done|]. split; [done|]. split; [done|]. split.
  - intros p Hp. destruct (in_dec Z.eq_dec p (gc_zero_ref_count_list (gc st1))) as [Hi|Hi]; [by apply Hin|].
    destruct (Hout p Hi) as [-> ->]. cbn [set_phase mem gc].
    assert (gc_objects (mem st1) !! p = None) as En.
    { destruct (gc_objects (mem st1) !! p) eqn:E; [|done]. exfalso. apply Hi, Hz. split; [done|by eexists]. }
    split; [done|]. by apply (sw_gone H1 p); [apply in_app_iff; right|].
  - intros p Hp. assert (~ In p D) as HpD by (intros Hi; exact (NoDup_disjoint _ _ p Hnd Hp Hi)).
    assert (In p (L ++ D)) as Hpl by (apply in_app_iff; by left).
    destruct (Hout p) as [-> ->]; [rewrite Hz; tauto|]. cbn [set_phase mem gc].
    assert (gc_objects (mem st1) !! p = gc_objects rt0 !! p) as Es.
    { apply (sw_same H1); [done|intros Hi; apply HpD, (sw_in H1), in_app_iff; by left|exact (fun Hi => Hi)]. }
    split; [done|]. rewrite (sw_header H1 p Hpl); [|rewrite Es; by apply (sa_objects SA)].
    rewrite app_nil_r, (occ_perm p _ _ (refs_perm rt0 _ _ Hperm)). done.
Qed.
End Cycles.
