(* ===== verification/GcRun.v ===== *)
(** A whole collection, [JS_RunGC]. *)
From Stdlib Require Import ZArith Lia Bool List Permutation.
From stdpp Require Import base tactics list numbers gmap.
From S2P Require Import Prelude GcObject GcChildren Gc GcMark GcFree GcRelease GcSweep GcRuns GcRemove.

(** What freeing an unreachable object needs: its references have the kinds
    expected, it has no weak reference and no suspended frame with open
    variables, and, if it is not a value, something refers to it. *)
Definition free_ok (st : FreeState) (p : Z) : bool :=
  well_typed (mem st) (frames st) p &&
  match weak_refs st !! p with Some (_ :: _) => false | _ => true end &&
  (is_dead_value (mem st) p || (0 <? count_of (gc st) p)).

Lemma children_object rt p l : children rt p = Ret l -> is_Some (gc_objects rt !! p).
Proof. unfold children, mark_children. destruct (gc_objects rt !! p); [by eexists|done]. Qed.

Section Run.
Variable st : FreeState.
Variable g : GcState.
Abbreviation rt := (mem st).
Abbreviation objs := (gc_obj_list (gc st)).
Abbreviation rc := (count_of (gc st)).
Abbreviation L := (gc_obj_list g).
Abbreviation D := (tmp_obj_list g).

(** The marks after the marking. *)
Definition mark_of (p : Z) : Z := match headers g !! p with Some h => mark h | None => 0 end.

Hypothesis WC : well_counted rt objs rc.
Hypothesis Hhost : host_classes_ok rt.
Hypothesis Hok : forall p, In p objs -> is_live rt (gc st) p \/ free_ok st p = true.
Hypothesis Hperm : Permutation (L ++ D) objs.
Hypothesis Hlive : forall p, In p L <-> is_live rt (gc st) p.
Hypothesis Hcount : forall p, In p objs -> exists m, headers g !! p = Some (mkHeader (rc p) m) /\ (is_live rt (gc st) p -> m = 0).
Hypothesis Hzero : gc_zero_ref_count_list g = [].

Lemma split_nodup : List.NoDup (L ++ D).
Proof using WC Hperm. eapply Permutation_NoDup; [symmetry; exact Hperm|]. apply (wc_nodup _ _ _ WC). Qed.

Lemma dead_not_live p : In p D -> ~ is_live rt (gc st) p.
Proof using WC Hperm Hlive. intros Hp Hl. apply Hlive in Hl. exact (NoDup_disjoint _ _ p split_nodup Hl Hp). Qed.

Lemma in_objs p : In p (L ++ D) <-> In p objs.
Proof using Hperm. split; apply Permutation_in; [done|by symmetry]. Qed.

Lemma refs_split p : occ p (refs rt objs) = occ p (refs rt L) + occ p (refs rt D).
Proof using Hperm. rewrite <- (occ_perm p _ _ (refs_perm rt _ _ Hperm)), refs_app, occ_app. done. Qed.

Lemma dead_free_ok p : In p D -> free_ok st p = true.
Proof using WC Hok Hperm Hlive.
  intros Hp. destruct (Hok p) as [H|H]; [apply in_objs, in_app_iff; by right|by apply dead_not_live in H|done].
Qed.

Lemma dead_count p : In p D -> rc p = occ p (refs rt D).
Proof using WC Hperm Hlive.
  intros Hp. assert (In p objs) as Ho by (apply in_objs, in_app_iff; by right).
  pose proof (wc_refs _ _ _ WC p Ho) as [Hle _]. pose proof (refs_split p) as Hs.
  assert (~ occ p (refs rt objs) < rc p) by (intros H; by apply (dead_not_live p Hp), live_root).
  assert (occ p (refs rt L) = 0); [|lia]. apply occ_0_notin. intros (q & Hq & Hk)%refs_In.
  apply (dead_not_live p Hp). eapply live_kid; [by apply Hlive|done].
Qed.

Lemma live_count p : In p L -> occ p (refs rt D) < rc p.
Proof using WC Hperm Hlive.
  intros Hp. assert (In p objs) as Ho by (apply in_objs, in_app_iff; by left).
  pose proof (wc_refs _ _ _ WC p Ho) as [Hle _]. pose proof (refs_split p) as Hs.
  pose proof (occ_nonneg p (refs rt L)). apply Hlive in Hp. destruct Hp as [p _ Hr|q p Hq Hk]; [lia|].
  assert (0 < occ p (refs rt L)); [|lia]. apply occ_In, refs_In. exists q. split; [by apply Hlive|done].
Qed.

Lemma run_sweepable : sweepable rt (frames st) L D rc.
Proof using WC Hhost Hok Hperm Hlive.
  constructor.
  - apply split_nodup.
  - done.
  - intros p Hp. pose proof (dead_free_ok p Hp) as H. unfold free_ok in H. apply andb_true_iff in H as [H _].
    apply andb_true_iff in H as [H _]. split; [done|]. apply (wc_kids _ _ _ WC), in_objs, in_app_iff. by right.
  - intros p q Hp Hq. apply in_objs. assert (In p objs) as Ho by (apply in_objs, in_app_iff; by right).
    by apply (wc_kids _ _ _ WC p Ho).
  - intros p Hp%in_objs. destruct (wc_kids _ _ _ WC p Hp) as [E _]. by eapply children_object.
  - apply dead_count.
  - apply live_count.
  - intros p Hp%in_objs. apply (wc_refs _ _ _ WC p Hp).
  - intros p Hp Hv. pose proof (dead_free_ok p Hp) as H. unfold free_ok in H. apply andb_true_iff in H as [_ H].
    rewrite Hv in H. cbn [orb] in H. lia.
Qed.

Lemma run_sweep :
  sweep rt (frames st) L D rc mark_of [] [] [] (set_phase (set_gc st g) JS_GC_PHASE_REMOVE_CYCLES).
Proof using WC Hhost Hok Hperm Hlive Hcount Hzero.
  pose proof run_sweepable as SA.
  constructor; cbn [set_phase set_gc gc mem gc_phase frames weak_refs]; try done.
  - constructor.
  - intros p Hp. pose proof (dead_free_ok p Hp) as H. unfold free_ok in H. apply andb_true_iff in H as [H _].
    apply andb_true_iff in H as [_ H]. by destruct (weak_refs st !! p) as [[|]|].
  - by destruct (mem st).
  - intros p Hp _. apply in_objs in Hp. destruct (Hcount p Hp) as (m & E & _). unfold mark_of. rewrite E. cbn [mark].
    do 2 f_equal. change (rc p = rc p - 0). lia.
  - intros p Hp E. pose proof (sa_objects SA p Hp) as [o Eo]. congruence.
  - intros p o Hp Hv Eo. unfold is_dead_value in Hv. rewrite Eo in Hv. split; [done|]. intros b. rewrite Eo. by intros [= ->].
  - intros p Hp Hv _. change (0 < rc p). by apply (sa_counted SA).
  - rewrite Hzero, app_nil_r. rewrite forallb_filter_id; [done|]. apply forallb_forall. intros p Hp.
    apply bool_decide_eq_true, (sa_objects SA), in_app_iff. by right.
  - rewrite Hzero. intros p [].
  - intros p _ [].
Qed.
End Run.

Lemma JS_RunGC_spec job_malloc_ok st :
  heap_ok (mem st) (gc st) = true -> host_classes_ok (mem st) ->
  (forall p, In p (gc_obj_list (gc st)) -> is_live (mem st) (gc st) p \/ free_ok st p = true) ->
  post (JS_RunGC job_malloc_ok st) (fun st' =>
    let objs := gc_obj_list (gc st) in let objs' := gc_obj_list (gc st') in
    List.NoDup objs' /\ (forall p, In p objs' <-> is_live (mem st) (gc st) p) /\
    tmp_obj_list (gc st') = [] /\ gc_zero_ref_count_list (gc st') = [] /\ gc_phase st' = JS_GC_PHASE_NONE /\
    (forall p, In p objs -> ~ is_live (mem st) (gc st) p ->
       gc_objects (mem st') !! p = None /\ headers (gc st') !! p = None) /\
    (forall p, is_live (mem st) (gc st) p -> gc_objects (mem st') !! p = gc_objects (mem st) !! p /\
       exists n, headers (gc st') !! p = Some (mkHeader n 0) /\
         n - occ p (refs (mem st) objs') = count_of (gc st) p - occ p (refs (mem st) objs))).
Proof.
  intros Hh Hhost Hok. apply heap_ok_counted in Hh as (WC & Hh & Hz). unfold JS_RunGC. apply post_bind.
  eapply post_mono; [by apply (gc_mark_phase_spec (mem st) _ _ WC)|]. intros g (Hzg & Hp & Hl & Hc).
  assert (forall p, In p (gc_obj_list g ++ tmp_obj_list g) <-> In p (gc_obj_list (gc st))) as Hin by (apply in_objs, Hp).
  pose proof (run_sweepable st g WC Hhost Hok Hp Hl) as SA.
  eapply post_mono.
  { apply (gc_free_cycles_spec _ _ _ _ _ (mark_of g) SA). by apply run_sweep. }
  intros st' (Eg & Et & Ez & Eph & Hdead & Hlive). cbv zeta. rewrite Eg. pose proof (sa_nodup SA) as Hnd.
  split; [by eapply List.NoDup_app_remove_r|]. split; [done|]. split; [done|]. split; [done|]. split; [done|]. split.
  - intros p Ho Hnl. apply Hdead. apply Hin, in_app_iff in Ho as [Ho|Ho]; [by apply Hl in Ho|done].
  - intros p Hpl. assert (In p (gc_obj_list g)) as Hpg by by apply Hl.
    assert (In p (gc_obj_list (gc st))) as Ho by (apply Hin, in_app_iff; by left).
    destruct (Hlive p Hpg) as [E1 E2]. split; [done|]. destruct (Hc p Ho) as (m & Em & Hm). specialize (Hm Hpl). subst m.
    eexists. unfold mark_of in E2. rewrite Em in E2. split; [exact E2|].
    rewrite (refs_split st g Hp). lia.
Qed.

(** C6: [JS_RunGC] on a well-counted heap whose unreachable objects are well typed
    and have no weak references: no assertion fails, no freed memory is
    accessed, and the collection ends.  Then the object list is the objects
    reachable from outside, the other lists are empty; every unreachable object
    was freed, exactly once; every reachable object is unchanged, its mark is
    reset, and its count is still the references from outside plus those of the
    remaining objects. *)
Theorem gc_frees_unreachable job_malloc_ok st :
  heap_ok (mem st) (gc st) = true -> host_classes_ok (mem st) ->
  (forall p, In p (gc_obj_list (gc st)) -> is_live (mem st) (gc st) p \/ free_ok st p = true) ->
  post (JS_RunGC job_malloc_ok st) (fun st' =>
    let objs := gc_obj_list (gc st) in let objs' := gc_obj_list (gc st') in
    List.NoDup objs' /\ (forall p, In p objs' <-> is_live (mem st) (gc st) p) /\
    tmp_obj_list (gc st') = [] /\ gc_zero_ref_count_list (gc st') = [] /\ gc_phase st' = JS_GC_PHASE_NONE /\
    (forall p, In p objs -> ~ is_live (mem st) (gc st) p ->
       gc_objects (mem st') !! p = None /\ headers (gc st') !! p = None) /\
    (forall p, is_live (mem st) (gc st) p -> gc_objects (mem st') !! p = gc_objects (mem st) !! p /\
       exists n, headers (gc st') !! p = Some (mkHeader n 0) /\
         n - occ p (refs (mem st) objs') = count_of (gc st) p - occ p (refs (mem st) objs))).
Proof. apply JS_RunGC_spec. Qed.

(** The heap of two cyclic objects and a global object. *)
Definition example_free_state : FreeState :=
  mkFreeState example_heap example_state JS_GC_PHASE_NONE false ∅ ∅ ∅ [] [].

Definition left_objects (m : outcome FreeState) : outcome (list Z * list Z) :=
  let* st := m in Ret (gc_obj_list (gc st), map fst (map_to_list (gc_objects (mem st)))).

Lemma gc_frees_unreachable_witness :
  left_objects (JS_RunGC (fun _ => true) example_free_state) = Ret ([4; 5; 6], [5; 6; 4]) /\
  post (JS_RunGC (fun _ => true) example_free_state) (fun st' =>
    let objs := [1; 2; 3; 4; 5; 6] in let objs' := gc_obj_list (gc st') in
    List.NoDup objs' /\ (forall p, In p objs' <-> is_live example_heap example_state p) /\
    tmp_obj_list (gc st') = [] /\ gc_zero_ref_count_list (gc st') = [] /\ gc_phase st' = JS_GC_PHASE_NONE /\
    (forall p, In p objs -> ~ is_live example_heap example_state p ->
       gc_objects (mem st') !! p = None /\ headers (gc st') !! p = None) /\
    (forall p, is_live example_heap example_state p -> gc_objects (mem st') !! p = gc_objects example_heap !! p /\
       exists n, headers (gc st') !! p = Some (mkHeader n 0) /\
         n - occ p (refs example_heap objs') = count_of example_state p - occ p (refs example_heap objs))).
Proof.
  split; [vm_compute; reflexivity|].
  apply (gc_frees_unreachable (fun _ => true) example_free_state); [vm_compute; reflexivity|intros id opaque; constructor|].
  intros p Hp. right. cbn in Hp. repeat (destruct Hp as [<-|Hp]; [vm_compute; reflexivity|]). destruct Hp.
Defined.

(** * What the hypotheses exclude *)

Definition plain (sh : Z) (props : list JSProperty) : gc_object := GC_JS_OBJECT (mkJSObject JS_CLASS_OBJECT sh props U_null).
Definition obj_ref (p : Z) : JSValue := JS_MKPTR JS_TAG_OBJECT p.
Definition simple_shape (n : Z) : gc_object :=
  GC_SHAPE (mkJSShape false false 0 3 n n 0 None None [0; 0; 0; 0] (map (fun a => mkJSShapeProperty 0 7 (50 + a)) (seqZ 0 n))).

(** An unreachable object 1, in a cycle with itself, holds the registry 3 it is
    registered in; the registry holds the callback 5. *)
Definition finrec_state : FreeState :=
  let h n := mkHeader n 0 in
  mkFreeState
    (mkJSRuntime (list_to_map
      [(1, plain 2 [P_value (obj_ref 1); P_value (obj_ref 3)]); (2, simple_shape 2);
       (3, GC_JS_OBJECT (mkJSObject JS_CLASS_FINALIZATION_REGISTRY 4 []
             (U_finrec (obj_ref 5) [mkJSFinRecEntry 100 (obj_ref 1) JS_UNDEFINED JS_UNDEFINED])));
       (4, simple_shape 0); (5, GC_JS_OBJECT (mkJSObject JS_CLASS_C_FUNCTION 4 [] (U_cfunc None)))])
      0 (fun _ => None) (fun _ => None))
    (mkGcState (list_to_map [(1, h 1); (2, h 1); (3, h 1); (4, h 2); (5, h 1)]) [1; 2; 3; 4; 5] [] [])
    JS_GC_PHASE_NONE false ∅ ∅ {[1 := [WR_fin_rec_entry 3 100]]} [] [].

(** [reset_weak_ref] enqueues a job with the callback of the registry, which the
    same collection frees: the job is left with a pointer to freed memory. *)
Example finrec_job_dangling :
  (let* st := JS_RunGC (fun _ => true) finrec_state in Ret (jobs st, gc_objects (mem st) !! 5))
    = Ret ([[obj_ref 5; JS_UNDEFINED]], None).
Proof. vm_compute. reflexivity. Qed.

(** The function 1 is reachable; its variable 4 is in the frame 77 of the suspended
    generator 5 and holds the object 6.  The generator is unreachable, in a cycle
    with its own frame. *)
Definition generator_state : FreeState :=
  let h n := mkHeader n 0 in
  let s := mkJSAsyncFunctionState JS_UNDEFINED JS_UNDEFINED 77 true (Some [obj_ref 6; obj_ref 5]) in
  mkFreeState
    (mkJSRuntime (list_to_map
      [(1, GC_JS_OBJECT (mkJSObject JS_CLASS_BYTECODE_FUNCTION 2 [] (U_func (Some 3) (Some [Some 4]) None)));
       (2, simple_shape 0); (3, GC_FUNCTION_BYTECODE (mkJSFunctionBytecode [] 0 1 None None));
       (4, GC_VAR_REF (mkJSVarRef false (obj_ref 6)));
       (5, GC_JS_OBJECT (mkJSObject JS_CLASS_GENERATOR 2 [] (U_generator JS_GENERATOR_STATE_SUSPENDED_YIELD s)));
       (6, plain 2 [])]) 0 (fun _ => None) (fun _ => None))
    (mkGcState (list_to_map [(1, h 1); (2, h 3); (3, h 1); (4, h 1); (5, h 1); (6, h 1)]) [1; 2; 3; 5; 6] [] [])
    JS_GC_PHASE_NONE false ∅ {[77 := [4]]} ∅ [] [].

(** The mark function of the closure skips the open variable: the object 6 is
    freed, and the variable of the reachable function, closed with the frame,
    is left with a pointer to it. *)
Example generator_variable_dangling :
  (let* st := JS_RunGC (fun _ => true) generator_state in
   Ret (gc_obj_list (gc st), gc_objects (mem st) !! 4, gc_objects (mem st) !! 6))
    = Ret ([1; 2; 3; 4], Some (GC_VAR_REF (mkJSVarRef true (obj_ref 6))), None).
Proof. vm_compute. reflexivity. Qed.
