(* ===== verification/Shape.v ===== *)
(** Shapes and properties.

    Objects with the same properties share a shape: the names and flags of the
    properties, in the order of their creation, with a hash table from names to
    positions.  A shape that is shared is not changed: an object that gets a
    new property moves to a shape that already has it, found in the table of
    the shapes, or to a copy.

    A pointer to a shape is a key of [shapes]; the address of a new shape comes
    from the allocator.  The reference counts of the atoms and of the values are
    kept by other parts of the engine: the calls to them are recorded in order. *)
From Stdlib Require Import ZArith Lia Bool List.
From stdpp Require Import base tactics list numbers gmap.
From S2P Require Import Prelude Alloc GcObject.

(** * The state *)

Record JSObj : Type := mkJSObj { o_shape : Z; o_prop : list JSProperty }.

(** The calls to the other parts of the engine. *)
Inductive call : Type :=
  | JS_DupAtom (a : Z)
  | JS_FreeAtom (a : Z)
  | js_dup (p : Z)
  | JS_FreeObject (p : Z)
  | free_property (v : JSProperty) (prop_flags : Z).

Section Shape.
Context `{AL : Allocator}.

(** [shape_list] is the shapes of [gc_obj_list]. *)
Record ShapeState : Type := mkShapeState {
  s_heap : heap;
  shapes : gmap Z JSShape;
  ref_counts : gmap Z Z;
  shape_list : list Z;
  shape_hash_bits : Z;
  shape_hash_size : Z;
  shape_hash_count : Z;
  shape_hash : list (option Z);
  objects : gmap Z JSObj;
  calls : list call
}.

(** The address of a new block, and the contents of fresh memory. *)
Variable new_ptr : gset Z -> Z.
Variable uninit_prop : nat -> JSProperty.
Variable uninit_shape_prop : nat -> JSShapeProperty.

Definition set_heap (st : ShapeState) (h : heap) : ShapeState :=
  mkShapeState h (shapes st) (ref_counts st) (shape_list st) (shape_hash_bits st) (shape_hash_size st)
    (shape_hash_count st) (shape_hash st) (objects st) (calls st).
Definition set_shapes (st : ShapeState) (m : gmap Z JSShape) : ShapeState :=
  mkShapeState (s_heap st) m (ref_counts st) (shape_list st) (shape_hash_bits st) (shape_hash_size st)
    (shape_hash_count st) (shape_hash st) (objects st) (calls st).
Definition set_refs (st : ShapeState) (m : gmap Z Z) : ShapeState :=
  mkShapeState (s_heap st) (shapes st) m (shape_list st) (shape_hash_bits st) (shape_hash_size st)
    (shape_hash_count st) (shape_hash st) (objects st) (calls st).
Definition set_shape_list (st : ShapeState) (l : list Z) : ShapeState :=
  mkShapeState (s_heap st) (shapes st) (ref_counts st) l (shape_hash_bits st) (shape_hash_size st)
    (shape_hash_count st) (shape_hash st) (objects st) (calls st).
Definition set_shape_table (st : ShapeState) (bits size count : Z) (t : list (option Z)) : ShapeState :=
  mkShapeState (s_heap st) (shapes st) (ref_counts st) (shape_list st) bits size count t (objects st) (calls st).
Definition set_objects (st : ShapeState) (m : gmap Z JSObj) : ShapeState :=
  mkShapeState (s_heap st) (shapes st) (ref_counts st) (shape_list st) (shape_hash_bits st) (shape_hash_size st)
    (shape_hash_count st) (shape_hash st) m (calls st).
Definition add_call (st : ShapeState) (c : call) : ShapeState :=
  mkShapeState (s_heap st) (shapes st) (ref_counts st) (shape_list st) (shape_hash_bits st) (shape_hash_size st)
    (shape_hash_count st) (shape_hash st) (objects st) (calls st ++ [c]).

Definition get_sh (st : ShapeState) (p : Z) : outcome JSShape :=
  match shapes st !! p with Some sh => Ret sh | None => Err OutOfBounds end.
Definition put_sh (st : ShapeState) (p : Z) (sh : JSShape) : ShapeState := set_shapes st (<[p := sh]> (shapes st)).
Definition get_ref (st : ShapeState) (p : Z) : outcome Z :=
  match ref_counts st !! p with Some n => Ret n | None => Err OutOfBounds end.
Definition put_ref (st : ShapeState) (p n : Z) : ShapeState := set_refs st (<[p := n]> (ref_counts st)).
Definition get_obj (st : ShapeState) (o : Z) : outcome JSObj :=
  match objects st !! o with Some x => Ret x | None => Err OutOfBounds end.
Definition put_obj (st : ShapeState) (o : Z) (x : JSObj) : ShapeState := set_objects st (<[o := x]> (objects st)).

(** Copies of a shape with some of the fields changed. *)
Definition with_next (sh : JSShape) (n : option Z) : JSShape :=
  mkJSShape (is_hashed sh) (has_small_array_index sh) (hash sh) (prop_hash_mask sh) (prop_size sh) (prop_count sh)
    (deleted_prop_count sh) n (proto sh) (prop_hash sh) (shape_prop sh).
Definition with_hash (sh : JSShape) (hashed : bool) (h : Z) : JSShape :=
  mkJSShape hashed (has_small_array_index sh) h (prop_hash_mask sh) (prop_size sh) (prop_count sh)
    (deleted_prop_count sh) (shape_hash_next sh) (proto sh) (prop_hash sh) (shape_prop sh).
Definition with_props (sh : JSShape) (mask size count deleted : Z) (t : list Z) (ps : list JSShapeProperty) : JSShape :=
  mkJSShape (is_hashed sh) (has_small_array_index sh) (hash sh) mask size count deleted (shape_hash_next sh)
    (proto sh) t ps.
Definition with_small_index (sh : JSShape) (b : bool) : JSShape :=
  mkJSShape (is_hashed sh) b (hash sh) (prop_hash_mask sh) (prop_size sh) (prop_count sh)
    (deleted_prop_count sh) (shape_hash_next sh) (proto sh) (prop_hash sh) (shape_prop sh).

(** [js_malloc] of [n] bytes: the address, [None] for a null pointer. *)
Definition js_malloc (st : ShapeState) (n : Z) : ShapeState * bool :=
  let '(h, ok) := alloc (s_heap st) n in (set_heap st h, ok).

Definition sizeof_JSShape : Z := 64.
Definition sizeof_JSShapeProperty : Z := 8.
Definition sizeof_JSProperty : Z := 16.
Definition get_shape_size (hash_size prop_size : Z) : Z :=
  hash_size * 4 + sizeof_JSShape + prop_size * sizeof_JSShapeProperty.

(** * The table of the shapes *)

Definition init_shape_hash (st : ShapeState) : ShapeState * Z :=
  let '(st, ok) := js_malloc st (8 * Z.shiftl 1 4) in
  if negb ok then (set_shape_table st 4 (Z.shiftl 1 4) 0 [], -1)
  else (set_shape_table st 4 (Z.shiftl 1 4) 0 (replicate 16 None), 0).

Definition u32_mul (a b : Z) : Z := u32 (a * b).
(** [hash_val] is the name of the function; [hash] the member. *)
Definition shape_hash_fn (h val : Z) : Z := u32_mul (u32 (h + val)) 0x9e370001.
Definition get_shape_hash (h hash_bits : Z) : Z := Z.shiftr h (32 - hash_bits).
Definition ptr_val (p : option Z) : Z := match p with Some p => p | None => 0 end.
Definition shape_initial_hash (proto : option Z) : Z :=
  let h := shape_hash_fn 1 (u32 (ptr_val proto)) in
  shape_hash_fn h (u32 (Z.shiftr (ptr_val proto) 32)).

Definition js_shape_hash_link (st : ShapeState) (p : Z) : outcome ShapeState :=
  let* sh := get_sh st p in
  let h := get_shape_hash (hash sh) (shape_hash_bits st) in
  let* next := rd (shape_hash st) h in
  let st := put_sh st p (with_next sh next) in
  let* t := wr (shape_hash st) h (Some p) in
  Ret (set_shape_table st (shape_hash_bits st) (shape_hash_size st) (shape_hash_count st + 1) t).

(** A cell of type [JSShape *]: an entry of the table or the link of a shape. *)
Inductive cell : Type :=
  | C_table (h : Z)
  | C_next (p : Z).

Definition rd_cell (st : ShapeState) (c : cell) : outcome (option Z) :=
  match c with
  | C_table h => rd (shape_hash st) h
  | C_next p => let* sh := get_sh st p in Ret (shape_hash_next sh)
  end.

Definition wr_cell (st : ShapeState) (c : cell) (v : option Z) : outcome ShapeState :=
  match c with
  | C_table h =>
      let* t := wr (shape_hash st) h v in
      Ret (set_shape_table st (shape_hash_bits st) (shape_hash_size st) (shape_hash_count st) t)
  | C_next p => let* sh := get_sh st p in Ret (put_sh st p (with_next sh v))
  end.

(** [while ( *psh != sh) psh = &( *psh)->shape_hash_next]. *)
Definition unlink_step (st : ShapeState) (p : Z) (psh : cell) : outcome (cell + cell) :=
  let* v := rd_cell st psh in
  if bool_decide (v = Some p) then Ret (inr psh)
  else match v with
       | Some q => Ret (inl (C_next q))
       | None => Err OutOfBounds
       end.

Definition js_shape_hash_unlink (st : ShapeState) (p : Z) : outcome ShapeState :=
  let* sh := get_sh st p in
  let h := get_shape_hash (hash sh) (shape_hash_bits st) in
  let* psh := iter (S (size (shapes st))) (unlink_step st p) (C_table h) in
  let* st := wr_cell st psh (shape_hash_next sh) in
  Ret (set_shape_table st (shape_hash_bits st) (shape_hash_size st) (shape_hash_count st - 1) (shape_hash st)).

(** The loop over a chain of [resize_shape_hash], with the new table [t]. *)
Definition rehash_step (new_bits : Z) '(st, t, sh) : outcome (ShapeState * list (option Z) * option Z +
                                                              ShapeState * list (option Z)) :=
  match sh with
  | None => Ret (inr (st, t))
  | Some p =>
      let* s := get_sh st p in
      let sh_next := shape_hash_next s in
      let h := get_shape_hash (hash s) new_bits in
      let* v := rd t h in
      let st := put_sh st p (with_next s v) in
      let* t := wr t h (Some p) in
      Ret (inl (st, t, sh_next))
  end.

Definition resize_shape_hash (st : ShapeState) (new_bits : Z) : outcome (ShapeState * Z) :=
  let* new_size := c_shl 1 new_bits in
  let '(st, ok) := js_malloc st (8 * new_size) in
  if negb ok then Ret (st, -1)
  else
    let* (st, t) := ofold (fun '(st, t) i =>
      let* sh := rd (shape_hash st) i in
      iter (S (size (shapes st))) (rehash_step new_bits) (st, t, sh))
      (st, replicate (Z.to_nat new_size) None) (seqZ 0 (shape_hash_size st)) in
    Ret (set_shape_table st new_bits new_size (shape_hash_count st) t, 0).

(** * Shapes *)

Definition JS_PROP_INITIAL_SIZE : Z := 2.
Definition JS_PROP_INITIAL_HASH_SIZE : Z := 4.

Definition fresh_shape_props (from n : Z) : list JSShapeProperty :=
  map uninit_shape_prop (seq (Z.to_nat from) (Z.to_nat (n - from))).

(** The block of [n] cells after [js_realloc]: the cells both blocks have are
    kept. *)
Definition realloc_props (l : list JSProperty) (n : Z) : list JSProperty :=
  take (Z.to_nat n) l ++ map uninit_prop (seq (length l) (Z.to_nat n - length l)).

Definition add_gc_object (st : ShapeState) (p : Z) : ShapeState := set_shape_list st (shape_list st ++ [p]).
Definition remove_gc_object (st : ShapeState) (p : Z) : ShapeState :=
  set_shape_list st (List.remove Z.eq_dec p (shape_list st)).

(** A new block for a shape. *)
Definition new_shape (st : ShapeState) (sh : JSShape) : ShapeState * Z :=
  let p := new_ptr (dom (shapes st)) in (put_sh st p sh, p).

Definition free_shape_block (st : ShapeState) (p : Z) : ShapeState :=
  set_refs (set_shapes st (delete p (shapes st))) (delete p (ref_counts st)).

Definition js_new_shape2 (st : ShapeState) (proto : option Z) (hash_size prop_size : Z)
    : outcome (ShapeState * option Z) :=
  let* needed := c_int (2 * (shape_hash_count st + 1)) in
  let* (st, _) :=
    if shape_hash_size st <? needed
    then resize_shape_hash st (shape_hash_bits st + 1) else Ret (st, 0) in
  let '(st, ok) := js_malloc st (get_shape_size hash_size prop_size) in
  if negb ok then Ret (st, None)
  else
    let '(st, p) := new_shape st (mkJSShape true false (shape_initial_hash proto) (hash_size - 1) prop_size 0 0 None
                                    proto (replicate (Z.to_nat hash_size) 0) (fresh_shape_props 0 prop_size)) in
    let st := put_ref st p 1 in
    let st := add_gc_object st p in
    let st := match proto with Some o => add_call st (js_dup o) | None => st end in
    let* st := js_shape_hash_link st p in
    Ret (st, Some p).

Definition js_new_shape (st : ShapeState) (proto : option Z) : outcome (ShapeState * option Z) :=
  js_new_shape2 st proto JS_PROP_INITIAL_HASH_SIZE JS_PROP_INITIAL_SIZE.

Definition js_clone_shape (st : ShapeState) (p1 : Z) : outcome (ShapeState * option Z) :=
  let* sh1 := get_sh st p1 in
  let hash_size := prop_hash_mask sh1 + 1 in
  let '(st, ok) := js_malloc st (get_shape_size hash_size (prop_size sh1)) in
  if negb ok then Ret (st, None)
  else
    let '(st, p) := new_shape st sh1 in
    let st := put_ref st p 1 in
    let st := add_gc_object st p in
    let sh := with_hash sh1 false (hash sh1) in
    let st := put_sh st p sh in
    let st := match proto sh with Some o => add_call st (js_dup o) | None => st end in
    let* st := ofold (fun st i => let* pr := rd (shape_prop sh) i in Ret (add_call st (JS_DupAtom (atom pr))))
                 st (seqZ 0 (prop_count sh)) in
    Ret (st, Some p).

Definition js_dup_shape (st : ShapeState) (p : Z) : outcome ShapeState :=
  let* n := get_ref st p in Ret (put_ref st p (n + 1)).

Definition js_free_shape0 (st : ShapeState) (p : Z) : outcome ShapeState :=
  let* n := get_ref st p in
  let* _ := c_assert (n =? 0) in
  let* sh := get_sh st p in
  let* st := if is_hashed sh then js_shape_hash_unlink st p else Ret st in
  let st := match proto sh with Some o => add_call st (JS_FreeObject o) | None => st end in
  let* st := ofold (fun st i => let* pr := rd (shape_prop sh) i in Ret (add_call st (JS_FreeAtom (atom pr))))
               st (seqZ 0 (prop_count sh)) in
  let st := remove_gc_object st p in
  Ret (free_shape_block st p).

Definition js_free_shape (st : ShapeState) (p : Z) : outcome ShapeState :=
  let* n := get_ref st p in
  let st := put_ref st p (n - 1) in
  if n - 1 <=? 0 then js_free_shape0 st p else Ret st.

(** * Properties of a shape *)

(** [h] is added to the chain of [a]: the new table, and the entry it was. *)
Definition hash_insert (t : list Z) (mask a h : Z) : outcome (list Z * Z) :=
  let b := Z.land a mask in
  let* next := rd t b in
  let* t := wr t b h in
  Ret (t, next).

Definition with_link (pr : JSShapeProperty) (next : Z) : JSShapeProperty :=
  mkJSShapeProperty (next mod 2 ^ 26) (flags pr) (atom pr).

(** The loop that fills the new hash table of [resize_properties]. *)
Definition rehash_props (mask : Z) (n : Z) (t : list Z) (ps : list JSShapeProperty)
    : outcome (list Z * list JSShapeProperty) :=
  ofold (fun '(t, ps) i =>
    let* pr := rd ps i in
    if negb (atom pr =? JS_ATOM_NULL) then
      let* (t, next) := hash_insert t mask (atom pr) (i + 1) in
      let* ps := wr ps i (with_link pr next) in
      Ret (t, ps)
    else Ret (t, ps)) (t, ps) (seqZ 0 n).

(** [while (new_hash_size < new_size) new_hash_size = 2 * new_hash_size]. *)
Definition grow_hash_size (hash_size new_size : Z) : outcome Z :=
  iter 33 (fun s => if s <? new_size then Ret (inl (u32 (2 * s))) else Ret (inr s)) hash_size.

(** The result and [*psh]; [p] is the object whose properties grow too. *)
Definition resize_properties (st : ShapeState) (psh : Z) (p : option Z) (count : Z)
    : outcome (ShapeState * Z * Z) :=
  let* sh := get_sh st psh in
  let new_size := Z.max (i32 count) (prop_size sh * 3 / 2) in
  let* (st, failed) :=
    match p with
    | None => Ret (st, false)
    | Some o =>
        let* x := get_obj st o in
        let '(st, ok) := js_malloc st (sizeof_JSProperty * new_size) in
        if negb ok then Ret (st, true)
        else Ret (put_obj st o (mkJSObj (o_shape x) (realloc_props (o_prop x) new_size)), false)
    end in
  if failed : bool then Ret (st, psh, -1)
  else
    let* new_hash_size := grow_hash_size (prop_hash_mask sh + 1) new_size in
    let* n := get_ref st psh in
    if negb (new_hash_size =? prop_hash_mask sh + 1) then
      let '(st, ok) := js_malloc st (get_shape_size new_hash_size new_size) in
      if negb ok then Ret (st, psh, -1)
      else
        let st := remove_gc_object st psh in
        let ps := take (Z.to_nat (prop_count sh)) (shape_prop sh) ++ fresh_shape_props (prop_count sh) new_size in
        let* (t, ps) := rehash_props (new_hash_size - 1) (prop_count sh) (replicate (Z.to_nat new_hash_size) 0) ps in
        let '(st, q) := new_shape st (with_props sh (new_hash_size - 1) new_size (prop_count sh)
                                        (deleted_prop_count sh) t ps) in
        let st := put_ref st q n in
        let st := add_gc_object st q in
        Ret (free_shape_block st psh, q, 0)
    else
      let st := remove_gc_object st psh in
      let '(st, ok) := js_malloc st (get_shape_size new_hash_size new_size) in
      if negb ok then Ret (add_gc_object st psh, psh, -1)
      else
        let ps := take (Z.to_nat new_size) (shape_prop sh) ++ fresh_shape_props (zlen (shape_prop sh)) new_size in
        let st := free_shape_block st psh in
        let '(st, q) := new_shape st (with_props sh (prop_hash_mask sh) new_size (prop_count sh)
                                        (deleted_prop_count sh) (prop_hash sh) ps) in
        let st := put_ref st q n in
        Ret (add_gc_object st q, q, 0).

(** [while ((new_hash_size / 2) >= new_size) new_hash_size = new_hash_size / 2]. *)
Definition shrink_hash_size (hash_size new_size : Z) : outcome Z :=
  iter 33 (fun s => if new_size <=? s / 2 then Ret (inl (s / 2)) else Ret (inr s)) hash_size.

(** The loop of [compact_properties]: the new table, the new properties of the
    shape, those of the object and their number. *)
Definition compact_loop (mask n : Z) (old : list JSShapeProperty) (t : list Z) (ps : list JSShapeProperty)
    (prop : list JSProperty) : outcome (list Z * list JSShapeProperty * list JSProperty * Z) :=
  ofold (fun '(t, ps, prop, j) i =>
    let* old_pr := rd old i in
    if negb (atom old_pr =? JS_ATOM_NULL) then
      let* (t, next) := hash_insert t mask (atom old_pr) (j + 1) in
      let* ps := wr ps j (mkJSShapeProperty (next mod 2 ^ 26) (flags old_pr) (atom old_pr)) in
      let* v := rd prop i in
      let* prop := wr prop j v in
      Ret (t, ps, prop, j + 1)
    else Ret (t, ps, prop, j)) (t, ps, prop, 0) (seqZ 0 n).

Definition compact_properties (st : ShapeState) (o : Z) : outcome (ShapeState * Z) :=
  let* x := get_obj st o in
  let* sh := get_sh st (o_shape x) in
  let* _ := c_assert (negb (is_hashed sh)) in
  let new_size := Z.max JS_PROP_INITIAL_SIZE (prop_count sh - deleted_prop_count sh) in
  let* _ := c_assert (new_size <=? prop_size sh) in
  let* new_hash_size := shrink_hash_size (prop_hash_mask sh + 1) new_size in
  let mask := new_hash_size - 1 in
  let '(st, ok) := js_malloc st (get_shape_size new_hash_size new_size) in
  if negb ok then Ret (st, -1)
  else
    let st := remove_gc_object st (o_shape x) in
    let* n := get_ref st (o_shape x) in
    let* (t, ps, prop, j) :=
      compact_loop mask (prop_count sh) (shape_prop sh) (replicate (Z.to_nat new_hash_size) 0)
        (fresh_shape_props 0 new_size) (o_prop x) in
    let* _ := c_assert (j =? prop_count sh - deleted_prop_count sh) in
    let '(st, q) := new_shape st (with_props sh mask new_size j 0 t ps) in
    let st := put_ref st q n in
    let st := add_gc_object st q in
    let st := put_obj st o (mkJSObj q prop) in
    let st := free_shape_block st (o_shape x) in
    let '(st, ok) := js_malloc st (sizeof_JSProperty * new_size) in
    Ret (if ok then put_obj st o (mkJSObj q (realloc_props prop new_size)) else st, 0).

Definition JS_ATOM_TAG_INT : Z := Z.shiftl 1 31.
Definition __JS_AtomIsTaggedInt (v : Z) : bool := negb (Z.land v JS_ATOM_TAG_INT =? 0).

(** The end of [add_shape_property], with space for the property; the flags are
    six bits wide. *)
Definition append_property (st : ShapeState) (q : Z) (hashed : bool) (new_shape_hash a prop_flags : Z)
    : outcome ShapeState :=
  let* sh := get_sh st q in
  let* st := if hashed then js_shape_hash_link (put_sh st q (with_hash sh true new_shape_hash)) q else Ret st in
  let* sh := get_sh st q in
  let n := prop_count sh in
  let st := add_call st (JS_DupAtom a) in
  let* (t, next) := hash_insert (prop_hash sh) (prop_hash_mask sh) a (n + 1) in
  let* ps := wr (shape_prop sh) n (mkJSShapeProperty (next mod 2 ^ 26) (prop_flags mod 2 ^ 6) a) in
  let sh := with_props sh (prop_hash_mask sh) (prop_size sh) (n + 1) (deleted_prop_count sh) t ps in
  Ret (put_sh st q (with_small_index sh (has_small_array_index sh || __JS_AtomIsTaggedInt a))).

(** [*psh] and the result. *)
Definition add_shape_property (st : ShapeState) (psh : Z) (p : option Z) (a prop_flags : Z)
    : outcome (ShapeState * Z * Z) :=
  let* sh := get_sh st psh in
  let hashed := is_hashed sh in
  let* st := if hashed then js_shape_hash_unlink st psh else Ret st in
  let new_shape_hash := shape_hash_fn (shape_hash_fn (hash sh) a) (u32 prop_flags) in
  let* (st, q, r) :=
    if prop_size sh <=? prop_count sh then resize_properties st psh p (prop_count sh + 1) else Ret (st, psh, 0) in
  if negb (r =? 0) then
    let* st := if hashed then js_shape_hash_link st q else Ret st in
    Ret (st, q, -1)
  else
    let* st := append_property st q hashed new_shape_hash a prop_flags in
    Ret (st, q, 0).

(** The loop over a chain of the table of the shapes, with the test of a shape. *)
Definition chain_find (st : ShapeState) (test : JSShape -> outcome bool) (h : Z) : outcome (option Z) :=
  let* sh1 := rd (shape_hash st) h in
  iter (S (size (shapes st))) (fun sh1 =>
    match sh1 with
    | None => Ret (inr None)
    | Some p =>
        let* s := get_sh st p in
        let* b := test s in
        if b : bool then Ret (inr (Some p)) else Ret (inl (shape_hash_next s))
    end) sh1.

Definition find_hashed_shape_proto (st : ShapeState) (pr : option Z) : outcome (option Z) :=
  let h := shape_initial_hash pr in
  chain_find st (fun s => Ret ((hash s =? h) && bool_decide (proto s = pr) && (prop_count s =? 0)))
    (get_shape_hash h (shape_hash_bits st)).

(** Whether the first [n] properties of two shapes are the same. *)
Definition same_props (a b : list JSShapeProperty) (n : Z) : outcome bool :=
  iter (S (Z.to_nat n)) (fun i =>
    if i <? n then
      let* x := rd a i in
      let* y := rd b i in
      if negb (atom x =? atom y) || negb (flags x =? flags y) then Ret (inr false) else Ret (inl (i + 1))
    else Ret (inr true)) 0.

Definition find_hashed_shape_prop (st : ShapeState) (psh a prop_flags : Z) : outcome (option Z) :=
  let* sh := get_sh st psh in
  let h := shape_hash_fn (shape_hash_fn (hash sh) a) (u32 prop_flags) in
  chain_find st (fun s =>
    if (hash s =? h) && bool_decide (proto s = proto sh) && (prop_count s =? prop_count sh + 1) then
      let n := prop_count sh in
      let* same := same_props (shape_prop s) (shape_prop sh) n in
      if same : bool then
        let* pr := rd (shape_prop s) n in
        Ret ((atom pr =? a) && (flags pr =? prop_flags))
      else Ret false
    else Ret false) (get_shape_hash h (shape_hash_bits st)).

(** * Properties of an object *)

(** The position of the property, [None] when there is none. *)
Definition find_own_property1 (st : ShapeState) (o a : Z) : outcome (option Z) :=
  let* x := get_obj st o in
  let* sh := get_sh st (o_shape x) in
  let* h := rd (prop_hash sh) (Z.land a (prop_hash_mask sh)) in
  iter (S (length (shape_prop sh))) (fun h =>
    if h =? 0 then Ret (inr None)
    else
      let* pr := rd (shape_prop sh) (h - 1) in
      if atom pr =? a then Ret (inr (Some (h - 1))) else Ret (inl (hash_next pr))) h.

(** With [*ppr]: the property of the shape and the value of the object. *)
Definition find_own_property (st : ShapeState) (o a : Z) : outcome (option (JSShapeProperty * JSProperty)) :=
  let* i := find_own_property1 st o a in
  match i with
  | None => Ret None
  | Some i =>
      let* x := get_obj st o in
      let* sh := get_sh st (o_shape x) in
      let* pr := rd (shape_prop sh) i in
      let* v := rd (o_prop x) i in
      Ret (Some (pr, v))
  end.

(** The end of [add_property]: the shape [p] belongs to the object [o]. *)
Definition add_to_own_shape (st : ShapeState) (o p a prop_flags : Z) : outcome (ShapeState * option Z) :=
  let* n := get_ref st p in
  let* _ := c_assert (n =? 1) in
  let* (st, q, r) := add_shape_property st p (Some o) a prop_flags in
  let* x := get_obj st o in
  let st := put_obj st o (mkJSObj q (o_prop x)) in
  if negb (r =? 0) then Ret (st, None)
  else let* sh := get_sh st q in Ret (st, Some (prop_count sh - 1)).

(** The position of the new property, [None] without memory. *)
Definition add_property (st : ShapeState) (o a prop_flags : Z) : outcome (ShapeState * option Z) :=
  let* x := get_obj st o in
  let p := o_shape x in
  let* sh := get_sh st p in
  if is_hashed sh then
    let* new_sh := find_hashed_shape_prop st p a prop_flags in
    match new_sh with
    | Some q =>
        let* sh1 := get_sh st q in
        let '(st, ok, prop) :=
          if negb (prop_size sh1 =? prop_size sh) then
            let '(st, ok) := js_malloc st (sizeof_JSProperty * prop_size sh1) in
            (st, ok, if ok then realloc_props (o_prop x) (prop_size sh1) else o_prop x)
          else (st, true, o_prop x) in
        if negb ok then Ret (st, None)
        else
          let st := put_obj st o (mkJSObj q prop) in
          let* st := js_dup_shape st q in
          let* st := js_free_shape st p in
          Ret (st, Some (prop_count sh1 - 1))
    | None =>
        let* n := get_ref st p in
        if negb (n =? 1) then
          let* (st, new_sh) := js_clone_shape st p in
          match new_sh with
          | None => Ret (st, None)
          | Some q =>
              let* s := get_sh st q in
              let* st := js_shape_hash_link (put_sh st q (with_hash s true (hash s))) q in
              let* st := js_free_shape st p in
              let st := put_obj st o (mkJSObj q (o_prop x)) in
              add_to_own_shape st o q a prop_flags
          end
        else add_to_own_shape st o p a prop_flags
    end
  else add_to_own_shape st o p a prop_flags.

(** The result; [p->shape] is in the state. *)
Definition js_shape_prepare_update (st : ShapeState) (o : Z) : outcome (ShapeState * Z) :=
  let* x := get_obj st o in
  let* sh := get_sh st (o_shape x) in
  if is_hashed sh then
    let* n := get_ref st (o_shape x) in
    if negb (n =? 1) then
      let* (st, q) := js_clone_shape st (o_shape x) in
      match q with
      | None => Ret (st, -1)
      | Some q =>
          let* st := js_free_shape st (o_shape x) in
          Ret (put_obj st o (mkJSObj q (o_prop x)), 0)
      end
    else
      let* st := js_shape_hash_unlink st (o_shape x) in
      let* sh := get_sh st (o_shape x) in
      Ret (put_sh st (o_shape x) (with_hash sh false (hash sh)), 0)
  else Ret (st, 0).

Definition JS_PROP_CONFIGURABLE : Z := 1.

(** The walk of [delete_property]: the entry before ([lpr], 0 for none) and the
    entry of the property, [None] when it is not found. *)
Definition delete_find (sh : JSShape) (a : Z) : outcome (option (Z * Z)) :=
  let* h := rd (prop_hash sh) (Z.land a (prop_hash_mask sh)) in
  iter (S (length (shape_prop sh))) (fun '(lpr, h) =>
    if h =? 0 then Ret (inr None)
    else
      let* pr := rd (shape_prop sh) (h - 1) in
      if atom pr =? a then Ret (inr (Some (lpr, h))) else Ret (inl (h, hash_next pr))) (0, h).

(** The entry after the one to delete is linked to the one before it. *)
Definition remove_link (t : list Z) (ps : list JSShapeProperty) (mask a lpr next : Z)
    : outcome (list Z * list JSShapeProperty) :=
  if negb (lpr =? 0) then
    let* l := rd ps (lpr - 1) in
    let* ps := wr ps (lpr - 1) (with_link l next) in
    Ret (t, ps)
  else
    let* t := wr t (Z.land a mask) next in
    Ret (t, ps).

(** The part of [delete_property] that removes the entry [h] from the shape. *)
Definition delete_entry (st : ShapeState) (o a lpr h : Z) : outcome ShapeState :=
  let* x := get_obj st o in
  let* sh := get_sh st (o_shape x) in
  let* pr := rd (shape_prop sh) (h - 1) in
  let* (t, ps) := remove_link (prop_hash sh) (shape_prop sh) (prop_hash_mask sh) a lpr (hash_next pr) in
  let deleted := deleted_prop_count sh + 1 in
  let* v := rd (o_prop x) (h - 1) in
  let st := add_call st (free_property v (flags pr)) in
  let st := add_call st (JS_FreeAtom (atom pr)) in
  let* ps := wr ps (h - 1) (mkJSShapeProperty (hash_next pr) 0 JS_ATOM_NULL) in
  let* prop := wr (o_prop x) (h - 1) (P_value JS_UNDEFINED) in
  let st := put_sh st (o_shape x) (with_props sh (prop_hash_mask sh) (prop_size sh) (prop_count sh) deleted t ps) in
  let st := put_obj st o (mkJSObj (o_shape x) prop) in
  let* (st, _) :=
    if (8 <=? deleted) && (prop_count sh / 2 <=? deleted) then compact_properties st o else Ret (st, 0) in
  Ret st.

(** The properties in the shape; the rest of the function is for exotic
    objects.  The result is [FALSE] for a property that cannot be deleted, -1
    without memory, [None] when the property is not found. *)
Definition delete_property (st : ShapeState) (o a : Z) : outcome (ShapeState * option Z) :=
  let* x := get_obj st o in
  let* sh := get_sh st (o_shape x) in
  let* f := delete_find sh a in
  match f with
  | None => Ret (st, None)
  | Some (lpr, h) =>
      let* pr := rd (shape_prop sh) (h - 1) in
      if Z.land (flags pr) JS_PROP_CONFIGURABLE =? 0 then Ret (st, Some 0)
      else
        let* (st, r) := js_shape_prepare_update st o in
        if negb (r =? 0) then Ret (st, Some (-1))
        else
          let* st := delete_entry st o a lpr h in
          Ret (st, Some 1)
  end.

(** * Objects *)

Definition sizeof_JSObject : Z := 72.

(** The object of [JS_CLASS_OBJECT] with the shape [sh], whose reference it
    takes; [None] is the exception. *)
Definition JS_NewObjectFromShape (st : ShapeState) (sh : Z) : outcome (ShapeState * option Z) :=
  let fail st := let* st := js_free_shape st sh in Ret (st, None) in
  let '(st, ok) := js_malloc st sizeof_JSObject in
  if negb ok then fail st
  else
    let* s := get_sh st sh in
    let '(st, ok) := js_malloc st (sizeof_JSProperty * prop_size s) in
    if negb ok then fail st
    else
      let o := new_ptr (dom (objects st)) in
      Ret (put_obj st o (mkJSObj sh (map uninit_prop (seq 0 (Z.to_nat (prop_size s))))), Some o).

Definition JS_NewObjectProtoClass (st : ShapeState) (proto : option Z) : outcome (ShapeState * option Z) :=
  let* sh := find_hashed_shape_proto st proto in
  match sh with
  | Some sh =>
      let* st := js_dup_shape st sh in
      JS_NewObjectFromShape st sh
  | None =>
      let* (st, sh) := js_new_shape st proto in
      match sh with
      | None => Ret (st, None)
      | Some sh => JS_NewObjectFromShape st sh
      end
  end.

(** The part of [free_object] that frees the properties and the shape. *)
Definition free_object (st : ShapeState) (o : Z) : outcome ShapeState :=
  let* x := get_obj st o in
  let* sh := get_sh st (o_shape x) in
  let* st := ofold (fun st i =>
    let* pr := rd (shape_prop sh) i in
    let* v := rd (o_prop x) i in
    Ret (add_call st (free_property v (flags pr)))) st (seqZ 0 (prop_count sh)) in
  let* st := js_free_shape st (o_shape x) in
  Ret (set_objects st (delete o (objects st))).
End Shape.
