(* ===== verification/ShapeChain.v ===== *)
(** The hash table of a shape.

    The chain of a bucket is the live properties of the bucket, the last one
    first.  Adding, removing and copying properties keep that, so that a search
    finds a property exactly when there is one. *)
From Stdlib Require Import ZArith Lia Bool List.
From stdpp Require Import base tactics list numbers gmap.
From S2P Require Import Prelude Alloc GcObject Shape.

(** * Chains *)

Definition is_live (pr : JSShapeProperty) : bool := negb (atom pr =? JS_ATOM_NULL).

(** The links of the live properties of the bucket [b] among the first [n], the
    last one first; the link of the property [i] is [i + 1]. *)
Fixpoint bucket (ps : list JSShapeProperty) (mask b : Z) (n : nat) : list Z :=
  match n with
  | O => []
  | S m =>
      match ps !! m with
      | Some pr =>
          if is_live pr && (Z.land (atom pr) mask =? b) then (Z.of_nat m + 1) :: bucket ps mask b m
          else bucket ps mask b m
      | None => bucket ps mask b m
      end
  end.

(** [l] is the links from [h] on. *)
Fixpoint chain (ps : list JSShapeProperty) (h : Z) (l : list Z) : Prop :=
  match l with
  | [] => h = 0
  | x :: l => h = x /\ exists pr, at_ ps (x - 1) pr /\ chain ps (hash_next pr) l
  end.

Lemma bucket_In ps mask b n x :
  In x (bucket ps mask b n) <->
  0 < x <= Z.of_nat n /\ exists pr, at_ ps (x - 1) pr /\ is_live pr = true /\ Z.land (atom pr) mask = b.
Proof.
  induction n as [|n IH]; cbn [bucket].
  - split; [done|]. intros [? _]. lia.
  - assert (forall m, (x = Z.of_nat n + 1 -> m -> False) ->
      (0 < x <= Z.of_nat n /\ m <-> 0 < x <= Z.of_nat (S n) /\ m)) as Hr.
    { intros m Hm. split; intros [? Hx]; (split; [|done]); [lia|].
      destruct (Z.eq_dec x (Z.of_nat n + 1)) as [->|]; [by destruct Hm|lia]. }
    destruct (ps !! n) as [pr|] eqn:E.
    + assert (at_ ps (Z.of_nat n + 1 - 1) pr) as Hat by (split; [lia|]; by replace (Z.to_nat _) with n by lia).
      destruct (is_live pr && (Z.land (atom pr) mask =? b)) eqn:Eb.
      * apply andb_true_iff in Eb as [El Eb]. apply Z.eqb_eq in Eb. cbn [In]. rewrite IH. split.
        -- intros [<-|[? ?]]; [|split; [lia|done]]. split; [lia|by exists pr].
        -- intros [? Hx]. destruct (Z.eq_dec x (Z.of_nat n + 1)) as [->|]; [by left|right]. split; [lia|done].
      * rewrite IH. apply Hr. intros -> (pr' & Hat' & El & Ec). rewrite <- (at_det _ _ _ _ Hat Hat') in El, Ec.
        rewrite El, Ec, Z.eqb_refl in Eb. done.
    + rewrite IH. apply Hr. intros -> (pr & [_ Hl] & _). replace (Z.to_nat _) with n in Hl by lia. congruence.
Qed.

Lemma bucket_length ps mask b n : (length (bucket ps mask b n) <= n)%nat.
Proof.
  induction n as [|n IH]; cbn [bucket]; [done|]. destruct (ps !! n) as [pr|]; [|lia].
  destruct (_ && _); cbn [length]; lia.
Qed.

Lemma bucket_NoDup ps mask b n : List.NoDup (bucket ps mask b n).
Proof.
  induction n as [|n IH]; cbn [bucket]; [constructor|]. destruct (ps !! n) as [pr|]; [|done].
  destruct (_ && _); [|done]. constructor; [|done]. rewrite bucket_In. lia.
Qed.

(** The bucket depends on the names alone. *)
Lemma bucket_ext ps ps' mask b n :
  (forall i pr, (i < n)%nat -> ps !! i = Some pr -> exists pr', ps' !! i = Some pr' /\ atom pr' = atom pr) ->
  (n <= length ps)%nat -> bucket ps' mask b n = bucket ps mask b n.
Proof.
  induction n as [|n IH]; intros H Hn; cbn [bucket]; [done|]. rewrite IH; [|intros; apply H; [lia|done]|lia].
  destruct (lookup_lt_is_Some_2 ps n) as [pr E]; [lia|]. destruct (H n pr ltac:(lia) E) as (pr' & E' & Ea).
  rewrite E, E'. unfold is_live. by rewrite Ea.
Qed.

(** The chain depends on the links of its properties alone. *)
Lemma chain_ext ps ps' h l :
  (forall x pr, In x l -> at_ ps (x - 1) pr -> exists pr', at_ ps' (x - 1) pr' /\ hash_next pr' = hash_next pr) ->
  chain ps h l -> chain ps' h l.
Proof.
  revert h. induction l as [|x l IH]; intros h H; cbn [chain]; [done|]. intros (-> & pr & Hat & Hc). split; [done|].
  destruct (H x pr ltac:(by left) Hat) as (pr' & Hat' & E). exists pr'. split; [done|]. rewrite E.
  apply IH; [|done]. intros y q Hy. apply H. by right.
Qed.

Lemma chain_head ps h l x : chain ps h (x :: l) -> h = x.
Proof. by intros [? _]. Qed.

(** * The properties of a shape *)

(** The hash table [t] of the first [n] properties. *)
Record props_wf (t : list Z) (mask : Z) (ps : list JSShapeProperty) (n : Z) : Prop := {
  pw_mask : exists k, 0 <= k <= 31 /\ mask = 2 ^ k - 1;
  pw_table : zlen t = mask + 1;
  pw_count : 0 <= n <= zlen ps /\ n < 2 ^ 26;
  pw_chain : forall b, 0 <= b <= mask -> exists h, at_ t b h /\ chain ps h (bucket ps mask b (Z.to_nat n))
}.

Lemma bucket_range t mask ps n a : props_wf t mask ps n -> 0 <= Z.land a mask <= mask.
Proof.
  intros [(k & Hk & ->) _ _ _]. assert (0 < 2 ^ k) by (apply Z.pow_pos_nonneg; lia).
  replace (2 ^ k - 1) with (Z.ones k) by (rewrite Z.ones_equiv; lia). rewrite Z.land_ones, Z.ones_equiv by lia.
  pose proof (Z.mod_pos_bound a (2 ^ k)). lia.
Qed.

(** The walk over a chain finds its first property with the name [a]. *)
Lemma chain_walk ps a h l fuel :
  chain ps h l -> ~ In 0 l -> (length l < fuel)%nat ->
  iter fuel (fun h => if h =? 0 then Ret (inr None)
                      else let* pr := rd ps (h - 1) in
                           if atom pr =? a then Ret (inr (Some (h - 1))) else Ret (inl (hash_next pr))) h
  = Ret (option_map (fun x => x - 1)
           (List.find (fun x => match ps !! Z.to_nat (x - 1) with Some pr => atom pr =? a | None => false end) l)).
Proof.
  revert h fuel. induction l as [|x l IH]; intros h fuel Hc Hn Hf; (destruct fuel; [cbn in Hf; lia|]); rewrite iter_S.
  - by rewrite Hc.
  - destruct Hc as (-> & pr & Hat & Hc). destruct (Z.eqb_spec x 0) as [->|_]; [by destruct Hn; left|].
    rewrite (rd_at _ _ _ Hat). destruct Hat as [_ Hat]. cbn [obind List.find]. rewrite Hat.
    destruct (atom pr =? a); cbn [obind]; [done|]. apply IH; [done| |cbn [length] in Hf; lia].
    intros H. apply Hn. by right.
Qed.

Lemma bucket_no_zero ps mask b n : ~ In 0 (bucket ps mask b n).
Proof. rewrite bucket_In. lia. Qed.

(** [i] is the position of the property [a]. *)
Definition has_prop (ps : list JSShapeProperty) (n a i : Z) : Prop :=
  i < n /\ exists pr, at_ ps i pr /\ atom pr = a.

(** The search over the bucket of [a] finds the property. *)
Lemma find_bucket t mask ps n a :
  props_wf t mask ps n -> a <> JS_ATOM_NULL ->
  match List.find (fun x => match ps !! Z.to_nat (x - 1) with Some pr => atom pr =? a | None => false end)
          (bucket ps mask (Z.land a mask) (Z.to_nat n)) with
  | Some x => In x (bucket ps mask (Z.land a mask) (Z.to_nat n)) /\ has_prop ps n a (x - 1)
  | None => forall i, ~ has_prop ps n a i
  end.
Proof.
  intros Hw Ha. destruct (List.find _ _) as [x|] eqn:E.
  - apply find_some in E as [Hx E]. split; [done|]. apply bucket_In in Hx as (Hx & pr & Hat & _).
    split; [destruct (pw_count _ _ _ _ Hw); lia|]. exists pr. split; [done|]. destruct Hat as [_ Hat]. rewrite Hat in E. lia.
  - intros i (Hi & pr & Hat & Ea). pose proof (find_none _ _ E (i + 1)) as Hno. cbn beta in Hno.
    replace (i + 1 - 1) with i in Hno by lia. pose proof Hat as [Hi0 Hl]. rewrite Hl in Hno.
    destruct (pw_count _ _ _ _ Hw) as [Hc _].
    assert (In (i + 1) (bucket ps mask (Z.land a mask) (Z.to_nat n))) as Hin.
    { apply bucket_In. split; [lia|]. exists pr. replace (i + 1 - 1) with i by lia. split; [done|].
      unfold is_live. rewrite Ea. split; [|done]. destruct (Z.eqb_spec a JS_ATOM_NULL); done. }
    specialize (Hno Hin). lia.
Qed.

(** ** Adding a property *)

Lemma chain_bounds ps h mask b n : chain ps h (bucket ps mask b n) -> 0 <= h <= Z.of_nat n.
Proof.
  destruct (bucket ps mask b n) as [|x l] eqn:E; cbn [chain]; [lia|]. intros [-> _].
  assert (In x (bucket ps mask b n)) as H by (rewrite E; by left). apply bucket_In in H. lia.
Qed.

(** The table does not depend on the properties after the first [n]. *)
Lemma props_wf_take t mask ps ps' n :
  props_wf t mask ps n -> take (Z.to_nat n) ps' = take (Z.to_nat n) ps -> n <= zlen ps' -> props_wf t mask ps' n.
Proof.
  intros [Hm Ht [Hn Hb] Hc] Etk Hn'.
  assert (forall i, (i < Z.to_nat n)%nat -> ps' !! i = ps !! i) as Hi.
  { intros i Hi. rewrite <- (lookup_take_lt ps' (Z.to_nat n)), <- (lookup_take_lt ps (Z.to_nat n)) by done. by rewrite Etk. }
  constructor; [done|done|lia|]. intros b Hbm. destruct (Hc b Hbm) as (h & Hat & Hch). exists h. split; [done|].
  rewrite (bucket_ext ps ps'); [| |unfold zlen in Hn; lia].
  - eapply chain_ext; [|exact Hch]. intros x pr Hx [Hx0 Hp]. apply bucket_In in Hx as [Hx _]. exists pr.
    split; [|done]. split; [done|]. rewrite Hi; [done|lia].
  - intros i pr Hlt Hp. exists pr. split; [|done]. by rewrite Hi.
Qed.

Lemma props_wf_empty k ps : 0 <= k <= 31 -> props_wf (replicate (Z.to_nat (2 ^ k)) 0) (2 ^ k - 1) ps 0.
Proof.
  intros Hk. assert (0 < 2 ^ k) by (apply Z.pow_pos_nonneg; lia). constructor.
  - by exists k.
  - rewrite zlen_replicate. lia.
  - pose proof (zlen_nonneg ps). lia.
  - intros b Hb. exists 0. split; [|done]. split; [lia|]. apply lookup_replicate. split; [done|lia].
Qed.

(** A free entry is in no chain. *)
Lemma props_wf_skip t mask ps n pr :
  props_wf t mask ps n -> at_ ps n pr -> is_live pr = false -> n + 1 < 2 ^ 26 -> props_wf t mask ps (n + 1).
Proof.
  intros [Hm Ht [Hn Hb] Hc] Hat Hl Hn1. apply at_lt in Hat as Hlt. constructor; [done|done|lia|].
  intros b Hbm. destruct (Hc b Hbm) as (h & Hh & Hch). exists h. split; [done|].
  replace (Z.to_nat (n + 1)) with (S (Z.to_nat n)) by lia. cbn [bucket]. destruct Hat as [_ Hat]. by rewrite Hat, Hl.
Qed.

Lemma hash_insert_spec t mask ps n a fl :
  props_wf t mask ps n -> n < zlen ps -> n + 1 < 2 ^ 26 -> a <> JS_ATOM_NULL ->
  exists t' next, hash_insert t mask a (n + 1) = Ret (t', next) /\
    props_wf t' mask (<[Z.to_nat n := mkJSShapeProperty (next mod 2 ^ 26) fl a]> ps) (n + 1).
Proof.
  intros Hw Hlt Hn1 Ha. pose proof (bucket_range _ _ _ _ a Hw) as Hbm. pose proof Hw as [Hm Ht [Hn Hb] Hc].
  destruct (Hc _ Hbm) as (h & Hat & Hch). unfold hash_insert. rewrite (rd_at _ _ _ Hat). cbn [obind].
  rewrite wr_in by lia. cbn [obind]. eexists _, h. split; [done|]. pose proof (chain_bounds _ _ _ _ _ Hch) as Hh.
  rewrite (Z.mod_small h) by lia. set (pr := mkJSShapeProperty h fl a). set (ps' := <[Z.to_nat n := pr]> ps).
  assert (at_ ps' n pr) as Hatn by (apply at_insert_eq; lia).
  assert (forall b, bucket ps' mask b (Z.to_nat n) = bucket ps mask b (Z.to_nat n)) as Hbk.
  { intros b. apply bucket_ext; [|unfold zlen in Hlt; lia]. intros i q Hi Hq. exists q. split; [|done].
    unfold ps'. rewrite list_lookup_insert_ne by lia. done. }
  assert (forall h b, chain ps h (bucket ps mask b (Z.to_nat n)) -> chain ps' h (bucket ps mask b (Z.to_nat n))) as Hext.
  { intros h' b Hch'. eapply chain_ext; [|exact Hch']. intros x q Hx Hq. exists q. split; [|done].
    apply bucket_In in Hx. unfold ps'. apply at_insert_ne; [lia..|done]. }
  constructor; [done| | |].
  - by rewrite zlen_insert.
  - unfold ps'. rewrite zlen_insert. lia.
  - intros b Hbb. replace (Z.to_nat (n + 1)) with (S (Z.to_nat n)) by lia. cbn [bucket].
    destruct Hatn as [Hn0 El]. rewrite El. unfold is_live. cbn [atom pr].
    destruct (Z.eqb_spec a JS_ATOM_NULL); [done|]. cbn [negb andb]. rewrite Hbk.
    destruct (Z.eqb_spec (Z.land a mask) b) as [<-|Hne].
    + exists (n + 1). split; [apply at_insert_eq; lia|]. cbn [chain]. replace (Z.of_nat (Z.to_nat n) + 1) with (n + 1) by lia.
      split; [done|]. exists pr. replace (n + 1 - 1) with n by lia. split; [by split|]. cbn [hash_next pr]. by apply Hext.
    + destruct (Hc b Hbb) as (h' & Hat' & Hch'). exists h'. split; [|by apply Hext].
      apply at_insert_ne; [lia..|done].
Qed.

(** ** Copying the properties *)

(** Names and flags. *)
Definition names (ps : list JSShapeProperty) : list (Z * Z) := map (fun pr => (atom pr, flags pr)) ps.

Lemma seqZ_mid n l1 x l2 : seqZ 0 n = l1 ++ x :: l2 -> x = zlen l1 /\ 0 <= x < n.
Proof.
  intros E. assert (seqZ 0 n !! length l1 = Some x) as H by (rewrite E; by apply list_lookup_middle).
  apply lookup_seqZ in H as [-> Hlt]. unfold zlen. lia.
Qed.

Lemma names_insert ps i pr q :
  ps !! i = Some pr -> atom q = atom pr -> flags q = flags pr -> names (<[i := q]> ps) = names ps.
Proof.
  intros H Ea Ef. pose proof (lookup_lt_Some _ _ _ H) as Hlt. rewrite insert_take_drop by done.
  rewrite <- (take_drop_middle ps i pr H) at 3. unfold names. by rewrite !map_app, !map_cons, Ea, Ef.
Qed.

Lemma names_lookup ps ps' i pr :
  names ps = names ps' -> ps !! i = Some pr ->
  exists pr', ps' !! i = Some pr' /\ atom pr' = atom pr /\ flags pr' = flags pr.
Proof.
  revert ps' i. induction ps as [|q ps IH]; intros [|q' ps'] i E H; try done. injection E as Ea Ef E.
  destruct i as [|i]; [injection H as <-; by exists q'|]. by apply (IH ps' i).
Qed.

Lemma names_zlen ps ps' : names ps = names ps' -> zlen ps = zlen ps'.
Proof. intros H. apply (f_equal length) in H. unfold names in H. rewrite !length_map in H. unfold zlen. lia. Qed.

Lemma zlen_seqZ n : 0 <= n -> zlen (seqZ 0 n) = n.
Proof. intros H. unfold zlen. rewrite length_seqZ. lia. Qed.

(** The loop of [resize_properties] fills an empty table. *)
Lemma rehash_props_spec k n ps :
  0 <= k <= 31 -> 0 <= n <= zlen ps -> n < 2 ^ 26 ->
  post (rehash_props (2 ^ k - 1) n (replicate (Z.to_nat (2 ^ k)) 0) ps) (fun '(t, ps') =>
    props_wf t (2 ^ k - 1) ps' n /\ names ps' = names ps).
Proof.
  intros Hk Hn Hb. unfold rehash_props. eapply post_mono.
  1: apply (post_ofold _ (fun l '(t, ps') => props_wf t (2 ^ k - 1) ps' (zlen l) /\ names ps' = names ps)).
  2:{ split; [by apply props_wf_empty|done]. }
  2:{ intros [t ps'] [Hw En]. rewrite zlen_seqZ in Hw by lia. done. }
  intros l1 x l2 [t ps'] E [Hw En]. apply seqZ_mid in E as [-> Hx]. rewrite zlen_app, zlen_1.
  apply names_zlen in En as Hz. destruct (at_exists ps' (zlen l1)) as [pr Hat]; [lia|].
  rewrite (rd_at _ _ _ Hat). cbn [obind]. destruct (Z.eqb_spec (atom pr) JS_ATOM_NULL) as [Ea|Ea]; cbn [negb].
  - apply post_ret. split; [|done]. apply (props_wf_skip _ _ _ _ pr Hw Hat); [|lia]. unfold is_live. by rewrite Ea.
  - destruct (hash_insert_spec t (2 ^ k - 1) ps' (zlen l1) (atom pr) (flags pr) Hw) as (t' & next & -> & Hw'); [lia|lia|done|].
    cbn [obind]. rewrite wr_in by lia. cbn [obind]. apply post_ret. split; [done|].
    destruct Hat as [_ Hat]. by rewrite (names_insert _ _ pr).
Qed.

(** ** The properties of an object *)

(** Name, flags and value of the live properties, in order. *)
Definition props_of (ps : list JSShapeProperty) (vs : list JSProperty) : list (Z * Z * JSProperty) :=
  map (fun '(pr, v) => (atom pr, flags pr, v)) (List.filter (fun '(pr, _) => is_live pr) (combine ps vs)).

Lemma props_of_cons pr ps v vs :
  props_of (pr :: ps) (v :: vs) = (if is_live pr then [(atom pr, flags pr, v)] else []) ++ props_of ps vs.
Proof. unfold props_of. cbn [combine List.filter]. by destruct (is_live pr). Qed.

Lemma props_of_snoc ps pr vs v :
  vs !! length ps = Some v ->
  props_of (ps ++ [pr]) vs = props_of ps vs ++ if is_live pr then [(atom pr, flags pr, v)] else [].
Proof.
  revert vs. induction ps as [|q ps IH]; intros [|w vs] H; try done; cbn [length app] in *.
  - injection H as ->. rewrite props_of_cons, app_nil_r. unfold props_of. cbn [combine List.filter map]. done.
  - rewrite !props_of_cons, (IH vs H). by rewrite app_assoc.
Qed.

Lemma props_of_names ps ps' vs : names ps' = names ps -> props_of ps' vs = props_of ps vs.
Proof.
  revert ps' vs. induction ps as [|q ps IH]; intros [|q' ps'] vs E; try done. injection E as Ea Ef E.
  destruct vs as [|v vs]; [done|]. rewrite !props_of_cons, (IH ps' vs E). unfold is_live. by rewrite Ea, Ef.
Qed.

(** Values after the properties do not count. *)
Lemma props_of_take ps vs vs' : take (length ps) vs = take (length ps) vs' -> props_of ps vs = props_of ps vs'.
Proof.
  revert vs vs'. induction ps as [|q ps IH]; intros vs vs' E; [done|]. destruct vs as [|v vs], vs' as [|v' vs']; try done.
  cbn [length take] in E. injection E as -> E. rewrite !props_of_cons. by rewrite (IH vs vs' E).
Qed.

Lemma props_of_insert_after ps vs i v : (length ps <= i)%nat -> props_of ps (<[i := v]> vs) = props_of ps vs.
Proof. intros H. apply props_of_take. by rewrite take_insert_ge. Qed.

(** The number of live properties. *)
Definition live_count (ps : list JSShapeProperty) : Z := zlen (List.filter is_live ps).

Lemma live_count_app ps qs : live_count (ps ++ qs) = live_count ps + live_count qs.
Proof. unfold live_count. by rewrite List.filter_app, zlen_app. Qed.

Lemma live_count_le ps : 0 <= live_count ps <= zlen ps.
Proof.
  unfold live_count, zlen. pose proof (filter_length_le is_live ps). lia.
Qed.

Lemma take_snoc {A : Type} (l : list A) i x : at_ l i x -> take (Z.to_nat (i + 1)) l = take (Z.to_nat i) l ++ [x].
Proof. intros [Hi H]. replace (Z.to_nat (i + 1)) with (S (Z.to_nat i)) by lia. by apply take_S_r. Qed.

Lemma live_count_take ps i n : 0 <= i <= n -> live_count (take (Z.to_nat i) ps) <= live_count (take (Z.to_nat n) ps).
Proof.
  intros H. replace (Z.to_nat n) with (Z.to_nat i + Z.to_nat (n - i))%nat by lia. rewrite <- take_take_drop, live_count_app.
  pose proof (live_count_le (take (Z.to_nat (n - i)) (drop (Z.to_nat i) ps))). lia.
Qed.

(** The state of the loop of [compact_properties] after [i] properties. *)
Definition compact_inv mask (old ps0 : list JSShapeProperty) (vs : list JSProperty) (i : Z)
    '(t, ps, prop, j) : Prop :=
  props_wf t mask ps j /\ j = live_count (take (Z.to_nat i) old) /\ zlen ps = zlen ps0 /\ zlen prop = zlen vs /\
  (forall m, (Z.to_nat i <= m)%nat -> prop !! m = vs !! m) /\
  props_of (take (Z.to_nat j) ps) prop = props_of (take (Z.to_nat i) old) vs.

Lemma compact_step mask old ps0 vs n i pr v t ps prop j :
  compact_inv mask old ps0 vs i (t, ps, prop, j) -> at_ old i pr -> at_ vs i v -> is_live pr = true ->
  0 <= i < n -> n < 2 ^ 26 -> live_count (take (Z.to_nat n) old) <= zlen ps0 ->
  exists t' next, hash_insert t mask (atom pr) (j + 1) = Ret (t', next) /\ rd prop i = Ret v /\ 0 <= j < zlen ps /\
    j < zlen prop /\
    compact_inv mask old ps0 vs (i + 1)
      (t', <[Z.to_nat j := mkJSShapeProperty (next mod 2 ^ 26) (flags pr) (atom pr)]> ps, <[Z.to_nat j := v]> prop, j + 1).
Proof.
  intros (Hw & Hj & Hzp & Hzv & Hp & Ho) Hat Hv Hl Hi Hn Hc. apply at_lt in Hv as Hvl.
  assert (live_count (take (Z.to_nat (i + 1)) old) = j + 1) as Hj1.
  { rewrite (take_snoc old i pr Hat), live_count_app, <- Hj. unfold live_count. cbn [List.filter]. by rewrite Hl. }
  pose proof (live_count_take old (i + 1) n ltac:(lia)). pose proof (live_count_le (take (Z.to_nat i) old)) as Hle.
  assert (zlen (take (Z.to_nat i) old) <= i) by (unfold zlen; rewrite length_take; lia).
  destruct (hash_insert_spec t mask ps j (atom pr) (flags pr) Hw) as (t' & next & E & Hw'); [lia|lia| |].
  { unfold is_live in Hl. destruct (Z.eqb_spec (atom pr) JS_ATOM_NULL); done. }
  exists t', next. split; [done|]. split.
  { apply rd_at. destruct Hv as [Hi0 Hv]. split; [done|]. by rewrite Hp by lia. }
  split; [lia|]. split; [lia|]. set (q := mkJSShapeProperty _ _ _). split; [done|]. split; [done|].
  rewrite !zlen_insert. split; [done|]. split; [done|]. split.
  - intros m Hm. rewrite list_lookup_insert_ne by lia. apply Hp. lia.
  - rewrite (take_snoc _ j q) by (apply at_insert_eq; lia). rewrite take_insert_ge by lia.
    rewrite (props_of_snoc _ q _ v), (take_snoc old i pr Hat), (props_of_snoc _ pr vs v).
    + rewrite props_of_insert_after by (rewrite length_take; lia). rewrite Ho. unfold q, is_live. cbn [atom flags]. done.
    + destruct Hv as [_ Hv]. rewrite length_take. apply at_lt in Hat. unfold zlen in Hat. by rewrite Nat.min_l by lia.
    + rewrite length_take. unfold zlen in *. rewrite Nat.min_l by lia. apply list_lookup_insert_eq. lia.
Qed.

Lemma compact_skip mask old ps0 vs i pr v s :
  compact_inv mask old ps0 vs i s -> at_ old i pr -> at_ vs i v -> is_live pr = false ->
  compact_inv mask old ps0 vs (i + 1) s.
Proof.
  destruct s as [[[t ps] prop] j]. intros (Hw & Hj & Hzp & Hzv & Hp & Ho) Hat [Hi Hv] Hl. unfold compact_inv.
  apply at_lt in Hat as Hlt. rewrite (take_snoc old i pr Hat), live_count_app, (props_of_snoc _ pr vs v), Hl, app_nil_r.
  - split; [done|]. split; [|split; [done|split; [done|split; [|done]]]].
    + rewrite <- Hj. unfold live_count. cbn [List.filter]. rewrite Hl, zlen_nil. lia.
    + intros m Hm. apply Hp. lia.
  - rewrite length_take. unfold zlen in Hlt. by rewrite Nat.min_l by lia.
Qed.

Lemma compact_loop_spec k n old ps0 vs :
  0 <= k <= 31 -> 0 <= n <= zlen old -> n < 2 ^ 26 -> n <= zlen vs -> live_count (take (Z.to_nat n) old) <= zlen ps0 ->
  post (compact_loop (2 ^ k - 1) n old (replicate (Z.to_nat (2 ^ k)) 0) ps0 vs) (compact_inv (2 ^ k - 1) old ps0 vs n).
Proof.
  intros Hk Hn Hb Hv Hc. unfold compact_loop. eapply post_mono.
  1: apply (post_ofold _ (fun l s => compact_inv (2 ^ k - 1) old ps0 vs (zlen l) s)).
  2:{ split; [by apply props_wf_empty|]. done. }
  2:{ intros s Hs. by rewrite zlen_seqZ in Hs by lia. }
  intros l1 x l2 [[[t ps] prop] j] E Hs. apply seqZ_mid in E as [-> Hx]. rewrite zlen_app, zlen_1.
  destruct (at_exists old (zlen l1)) as [pr Hat]; [lia|]. rewrite (rd_at _ _ _ Hat). cbn [obind].
  destruct (at_exists vs (zlen l1)) as [v Hvat]; [lia|].
  change (negb (atom pr =? JS_ATOM_NULL)) with (is_live pr). destruct (is_live pr) eqn:Hl.
  - destruct (compact_step _ _ _ _ n _ pr v _ _ _ _ Hs Hat Hvat Hl Hx Hb Hc) as (t' & next & -> & Ev & Hj & Hjv & Hs').
    cbn [obind]. rewrite wr_in by lia. cbn [obind]. rewrite Ev. cbn [obind]. rewrite wr_in by lia. cbn [obind].
    by apply post_ret.
  - apply post_ret. by apply (compact_skip _ _ _ _ _ pr v).
Qed.

(** ** Removing a property *)

Lemma delete_walk ps a l : forall h prev fuel,
  chain ps h l -> ~ In 0 l -> (length l < fuel)%nat ->
  let r := iter fuel (fun '(lpr, h) =>
             if h =? 0 then Ret (inr None)
             else let* pr := rd ps (h - 1) in
                  if atom pr =? a then Ret (inr (Some (lpr, h))) else Ret (inl (h, hash_next pr))) (prev, h) in
  (r = Ret None /\ forall x pr, In x l -> at_ ps (x - 1) pr -> atom pr <> a) \/
  exists l1 x l2 pr, l = l1 ++ x :: l2 /\ r = Ret (Some (List.last l1 prev, x)) /\ at_ ps (x - 1) pr /\ atom pr = a /\
    forall y q, In y l1 -> at_ ps (y - 1) q -> atom q <> a.
Proof.
  induction l as [|x l IH]; intros h prev fuel Hc Hn Hf; (destruct fuel; [cbn in Hf; lia|]); cbv zeta; rewrite iter_S.
  - left. rewrite Hc. by split.
  - destruct Hc as (-> & pr & Hat & Hc). destruct (Z.eqb_spec x 0) as [->|_]; [by destruct Hn; left|].
    rewrite (rd_at _ _ _ Hat). cbn [obind]. destruct (Z.eqb_spec (atom pr) a) as [Ea|Ea]; cbn [obind].
    + right. by exists [], x, l, pr.
    + destruct (IH (hash_next pr) x fuel Hc) as [[E Hno]|(l1 & y & l2 & q & -> & E & Hq & Eq & Hno)].
      * intros H. apply Hn. by right.
      * cbn [length] in Hf. lia.
      * left. split; [exact E|]. intros y q [<-|Hy] Hq; [by rewrite <- (at_det _ _ _ _ Hat Hq)|by apply (Hno y)].
      * right. exists (x :: l1), y, l2, q. split; [done|]. split; [|split; [done|split; [done|]]].
        2:{ intros z w [<-|Hz] Hw; [by rewrite <- (at_det _ _ _ _ Hat Hw)|by apply (Hno z)]. }
        replace (List.last (x :: l1) prev) with (List.last l1 x); [exact E|]. destruct l1; [done|]. cbn [List.last].
        clear. revert z prev. induction l1 as [|w l1 IH]; intros; [done|]. cbn [List.last] in *. by apply (IH w).
Qed.

Lemma chain_split ps l1 x l2 h :
  chain ps h (l1 ++ x :: l2) -> exists pr, at_ ps (x - 1) pr /\ chain ps (hash_next pr) l2.
Proof.
  revert h. induction l1 as [|y l1 IH]; intros h; cbn [app chain]; [intros (_ & pr & H)|intros (_ & pr & _ & H)].
  - by exists pr.
  - by eapply IH.
Qed.

Lemma chain_splice ps l1 y x l2 pr py : forall h,
  List.NoDup (l1 ++ y :: x :: l2) -> (forall z, In z (l1 ++ y :: x :: l2) -> 0 < z) ->
  at_ ps (x - 1) pr -> at_ ps (y - 1) py -> 0 <= hash_next pr < 2 ^ 26 ->
  chain ps h (l1 ++ y :: x :: l2) -> chain (<[Z.to_nat (y - 1) := with_link py (hash_next pr)]> ps) h (l1 ++ y :: l2).
Proof.
  induction l1 as [|z l1 IH]; intros h Hn Hp Hx Hy Hb; cbn [app chain] in *.
  - intros (-> & py' & Hy' & _ & pr' & Hx' & Hc). apply at_lt in Hy as Hlt. rewrite (at_det _ _ _ _ Hx' Hx) in Hc. split; [done|].
    exists (with_link py (hash_next pr)). split; [apply at_insert_eq; lia|].
    cbn [hash_next with_link]. rewrite Z.mod_small by done. eapply chain_ext; [|exact Hc]. intros w q Hw Hq.
    exists q. split; [|done]. apply List.NoDup_cons_iff in Hn as [Hny _]. apply at_insert_ne; [| | |done].
    + specialize (Hp y ltac:(by left)). lia.
    + destruct Hq. lia.
    + intros E. apply Hny. right. by replace y with w by lia.
  - intros (-> & pz & Hz & Hc). split; [done|]. apply List.NoDup_cons_iff in Hn as [Hnz Hn]. exists pz. split.
    + apply at_insert_ne; [|destruct Hz; lia| |done].
      * specialize (Hp y). destruct Hz. assert (0 < y); [|lia]. apply Hp. right. apply in_elt.
      * intros E. apply Hnz. replace z with y by lia. apply in_elt.
    + apply IH; try done. intros w Hw. apply Hp. by right.
Qed.

Lemma bucket_kill ps ps1 mask b n x q :
  names ps1 = names ps -> (n <= length ps)%nat -> 0 < x -> is_live q = false ->
  bucket (<[Z.to_nat (x - 1) := q]> ps1) mask b n = List.remove Z.eq_dec x (bucket ps mask b n).
Proof.
  intros En Hn Hx Hq. induction n as [|n IH]; [done|]. cbn [bucket].
  destruct (lookup_lt_is_Some_2 ps n) as [pr E]; [lia|]. symmetry in En.
  destruct (names_lookup _ _ _ _ En E) as (pr1 & E1 & Ea & _). rewrite E.
  assert (length ps = length ps1) as Hlen by (apply (f_equal length) in En; unfold names in En; by rewrite !length_map in En).
  destruct (decide (n = Z.to_nat (x - 1))) as [->|Hne].
  - rewrite list_lookup_insert_eq by lia. rewrite Hq. cbn [andb]. rewrite IH by lia.
    destruct (_ && _); [|done]. cbn [List.remove]. by destruct (Z.eq_dec x _); [|lia].
  - rewrite list_lookup_insert_ne by done. rewrite E1, IH by lia. unfold is_live. rewrite Ea.
    destruct (_ && _); [|done]. cbn [List.remove]. by destruct (Z.eq_dec x _); [lia|].
Qed.

Lemma remove_mid x l1 l2 : List.NoDup (l1 ++ x :: l2) -> List.remove Z.eq_dec x (l1 ++ x :: l2) = l1 ++ l2.
Proof.
  intros H. apply List.NoDup_remove_2 in H. rewrite remove_app. cbn [List.remove]. destruct (Z.eq_dec x x); [|done].
  rewrite !notin_remove; [done| |]; intros Hx; apply H, in_or_app; auto.
Qed.

(** The chain of the bucket without [x], in the changed table and links. *)
Lemma remove_link_chain t mask ps n a l1 x l2 pr h :
  props_wf t mask ps n -> bucket ps mask (Z.land a mask) (Z.to_nat n) = l1 ++ x :: l2 ->
  at_ t (Z.land a mask) h -> chain ps h (l1 ++ x :: l2) -> at_ ps (x - 1) pr ->
  exists t' ps1 h', remove_link t ps mask a (List.last l1 0) (hash_next pr) = Ret (t', ps1) /\
    names ps1 = names ps /\ zlen t' = zlen t /\ at_ t' (Z.land a mask) h' /\ chain ps1 h' (l1 ++ l2) /\
    (forall b v, b <> Z.land a mask -> 0 <= b -> at_ t b v -> at_ t' b v) /\
    (forall z q, 0 < z -> ~ In z l1 -> at_ ps (z - 1) q -> at_ ps1 (z - 1) q).
Proof.
  intros Hw Eb Hh Hc Hx. pose proof (bucket_NoDup ps mask (Z.land a mask) (Z.to_nat n)) as Hn. rewrite Eb in Hn.
  assert (forall z, In z (l1 ++ x :: l2) -> 0 < z) as Hpos by (intros z; rewrite <- Eb, bucket_In; lia).
  pose proof (bucket_range _ _ _ _ a Hw) as Hb. apply at_lt in Hh as Hhl.
  destruct (chain_split _ _ _ _ _ Hc) as (pr' & Hx' & Hc2). rewrite (at_det _ _ _ _ Hx' Hx) in Hc2.
  assert (0 <= hash_next pr < 2 ^ 26) as Hnx.
  { destruct l2 as [|z l2]; [by rewrite Hc2|]. rewrite (chain_head _ _ _ _ Hc2).
    assert (In z (bucket ps mask (Z.land a mask) (Z.to_nat n))) as Hz by (rewrite Eb; apply in_or_app; right; right; by left).
    apply bucket_In in Hz as [Hz _]. destruct (pw_count _ _ _ _ Hw). lia. }
  unfold remove_link. destruct l1 as [|y l1 _] using rev_ind.
  - cbn [List.last Z.eqb negb app] in *. rewrite wr_in by lia. cbn [obind]. eexists _, ps, (hash_next pr). split; [done|].
    split; [done|]. split; [by rewrite zlen_insert|]. split; [by apply at_insert_eq|]. split; [done|].
    split; [|done]. intros b v Hne Hb0 Hat. apply at_insert_ne; [lia..|done].
  - rewrite List.last_last. rewrite <- app_assoc in *. cbn [app] in *.
    assert (0 < y) as Hy by (apply Hpos, in_elt). destruct (Z.eqb_spec y 0); [lia|]. cbn [negb].
    destruct (chain_split _ _ _ _ _ Hc) as (py & Hyat & _). rewrite (rd_at _ _ _ Hyat). cbn [obind].
    apply at_lt in Hyat as Hyl. rewrite wr_in by done. cbn [obind]. eexists t, _, h. split; [done|].
    destruct Hyat as [Hy0 Hyat]. split; [by apply (names_insert _ _ py)|]. split; [done|]. split; [done|].
    split; [by apply (chain_splice ps l1 y x l2 pr py); try done|]. split; [done|].
    intros z q Hz Hni Hat. apply at_insert_ne; [lia|lia| |done]. intros E. apply Hni.
    replace z with y by lia. apply in_or_app. right. by left.
Qed.

Lemma remove_link_spec t mask ps n a l1 x l2 pr :
  props_wf t mask ps n -> bucket ps mask (Z.land a mask) (Z.to_nat n) = l1 ++ x :: l2 -> at_ ps (x - 1) pr ->
  exists t' ps1, remove_link t ps mask a (List.last l1 0) (hash_next pr) = Ret (t', ps1) /\
    names ps1 = names ps /\ at_ ps1 (x - 1) pr /\
    props_wf t' mask (<[Z.to_nat (x - 1) := mkJSShapeProperty (hash_next pr) 0 JS_ATOM_NULL]> ps1) n.
Proof.
  intros Hw Eb Hx. pose proof (bucket_NoDup ps mask (Z.land a mask) (Z.to_nat n)) as Hn. rewrite Eb in Hn.
  pose proof (bucket_range _ _ _ _ a Hw) as Hb. destruct (pw_chain _ _ _ _ Hw _ Hb) as (h & Hh & Hc). rewrite Eb in Hc.
  assert (In x (bucket ps mask (Z.land a mask) (Z.to_nat n))) as Hxi by (rewrite Eb; apply in_elt).
  apply bucket_In in Hxi as (Hx0 & prx & Hxat & _ & Hxb). rewrite (at_det _ _ _ _ Hxat Hx) in Hxb. clear prx Hxat.
  destruct (remove_link_chain _ _ _ _ _ _ _ _ _ _ Hw Eb Hh Hc Hx) as (t' & ps1 & h' & -> & En & Hz & Hh' & Hc' & Ht & Hp).
  exists t', ps1. split; [done|]. split; [done|]. apply List.NoDup_remove_2 in Hn as Hnx.
  split; [apply Hp; [lia|intros Hi; apply Hnx, in_or_app; by left|done]|].
  destruct Hw as [Hm Htl [Hn0 Hn1] Hch]. apply names_zlen in En as Hpz. set (q := mkJSShapeProperty _ _ _).
  constructor; [done|lia| |].
  - rewrite zlen_insert. lia.
  - intros b Hbb. rewrite (bucket_kill ps ps1 mask b (Z.to_nat n) x q En); [|unfold zlen in Hn0; lia|lia|done].
    destruct (Z.eq_dec b (Z.land a mask)) as [->|Hne].
    + exists h'. split; [done|]. rewrite Eb, (remove_mid x l1 l2 Hn). eapply chain_ext; [|exact Hc'].
      intros z pz Hzi Hpz'. exists pz. split; [|done]. apply at_insert_ne; [lia|destruct Hpz'; lia| |done].
      intros E. apply Hnx. by replace x with z by (destruct Hpz'; lia).
    + destruct (Hch b Hbb) as (hb & Hhb & Hcb). exists hb. split; [apply Ht; [done|lia|done]|].
      assert (~ In x (bucket ps mask b (Z.to_nat n))) as Hnb.
      { rewrite bucket_In. intros (_ & pr' & Hat & _ & E). rewrite (at_det _ _ _ _ Hat Hx) in E. congruence. }
      rewrite notin_remove by done. eapply chain_ext; [|exact Hcb]. intros z pz Hzi Hpz'. exists pz. split; [|done].
      apply at_insert_ne; [lia|destruct Hpz'; lia| |].
      * intros E. apply Hnb. by replace x with z by (destruct Hpz'; lia).
      * apply Hp; [apply bucket_In in Hzi as [? _]; lia| |done]. intros Hi.
        assert (In z (bucket ps mask (Z.land a mask) (Z.to_nat n))) as Hz1 by (rewrite Eb; apply in_or_app; by left).
        apply bucket_In in Hz1 as (_ & p1 & Ha1 & _ & E1). apply bucket_In in Hzi as (_ & p2 & Ha2 & _ & E2).
        rewrite (at_det _ _ _ _ Ha1 Ha2) in E1. congruence.
Qed.

(** ** The last property of a name *)

Lemma bucket_sorted ps mask b n l1 x l2 :
  bucket ps mask b n = l1 ++ x :: l2 -> forall y, In y l2 -> y < x.
Proof.
  revert l1. induction n as [|n IH]; intros l1; cbn [bucket]; [by destruct l1|].
  destruct (ps !! n) as [pr|]; [|by apply IH]. destruct (_ && _); [|by apply IH].
  destruct l1 as [|z l1]; cbn [app]; [|intros [= _ E]; by apply (IH l1)].
  intros [= <- <-] y Hy. apply bucket_In in Hy. lia.
Qed.

(** [i] is the position of the last property [a]. *)
Definition last_prop (ps : list JSShapeProperty) (n a i : Z) : Prop :=
  has_prop ps n a i /\ forall j, i < j -> ~ has_prop ps n a j.

Lemma bucket_has t mask ps n a i :
  props_wf t mask ps n -> a <> JS_ATOM_NULL -> has_prop ps n a i ->
  In (i + 1) (bucket ps mask (Z.land a mask) (Z.to_nat n)).
Proof.
  intros Hw Ha (Hi & pr & Hat & Ea). apply bucket_In. pose proof (at_lt _ _ _ Hat). split; [lia|].
  exists pr. replace (i + 1 - 1) with i by lia. split; [done|]. unfold is_live. rewrite Ea.
  split; [|done]. destruct (Z.eqb_spec a JS_ATOM_NULL); done.
Qed.

(** The first of the chain is the last of the list. *)
Lemma bucket_last t mask ps n a l1 x l2 pr :
  props_wf t mask ps n -> a <> JS_ATOM_NULL ->
  bucket ps mask (Z.land a mask) (Z.to_nat n) = l1 ++ x :: l2 -> at_ ps (x - 1) pr -> atom pr = a ->
  (forall y q, In y l1 -> at_ ps (y - 1) q -> atom q <> a) -> last_prop ps n a (x - 1).
Proof.
  intros Hw Ha Eb Hat Ea Hno. destruct (pw_count _ _ _ _ Hw) as [Hn _].
  assert (In x (bucket ps mask (Z.land a mask) (Z.to_nat n))) as Hx by (rewrite Eb; apply in_elt).
  apply bucket_In in Hx as [Hx _]. split; [split; [lia|by exists pr]|].
  intros j Hj Hp. pose proof (bucket_has _ _ _ _ _ _ Hw Ha Hp) as Hin. destruct Hp as (_ & q & Hq & Eq).
  rewrite Eb in Hin. apply in_app_iff in Hin as [Hin|[Hin|Hin]].
  - apply (Hno _ q Hin); [|done]. by replace (j + 1 - 1) with j by lia.
  - lia.
  - pose proof (bucket_sorted _ _ _ _ _ _ _ Eb _ Hin). lia.
Qed.

Lemma find_split {A : Type} (f : A -> bool) l x :
  List.find f l = Some x -> exists l1 l2, l = l1 ++ x :: l2 /\ f x = true /\ forall y, In y l1 -> f y = false.
Proof.
  induction l as [|y l IH]; cbn [List.find]; [done|]. destruct (f y) eqn:E.
  - intros [= ->]. by exists [], l.
  - intros H. destruct (IH H) as (l1 & l2 & -> & Hx & Hn). exists (y :: l1), l2. split; [done|]. split; [done|].
    intros z [<-|Hz]; [done|by apply Hn].
Qed.

(** The search in the table finds the last property of the name, when there is
    one. *)
Lemma find_walk t mask ps n a h :
  props_wf t mask ps n -> a <> JS_ATOM_NULL -> at_ t (Z.land a mask) h ->
  exists r, iter (S (length ps)) (fun h => if h =? 0 then Ret (inr None)
                      else let* pr := rd ps (h - 1) in
                           if atom pr =? a then Ret (inr (Some (h - 1))) else Ret (inl (hash_next pr))) h = Ret r /\
    match r with Some i => last_prop ps n a i | None => forall i, ~ has_prop ps n a i end.
Proof.
  intros Hw Ha Hat. pose proof (bucket_range _ _ _ _ a Hw) as Hb. destruct (pw_chain _ _ _ _ Hw _ Hb) as (h' & Hat' & Hc).
  rewrite (at_det _ _ _ _ Hat' Hat) in Hc. pose proof (bucket_length ps mask (Z.land a mask) (Z.to_nat n)) as Hlen.
  destruct (pw_count _ _ _ _ Hw) as [Hn _].
  rewrite (chain_walk ps a h _ (S (length ps)) Hc); [|apply bucket_no_zero|unfold zlen in Hn; lia].
  eexists. split; [done|]. pose proof (find_bucket t mask ps n a Hw Ha) as Hf.
  destruct (List.find _ _) as [x|] eqn:E; cbn [option_map]; [|done].
  apply find_split in E as (l1 & l2 & Eb & Ex & Hno). destruct Hf as [_ (Hx & pr & Hpr & Ea)].
  apply (bucket_last t mask ps n a l1 x l2 pr Hw Ha Eb Hpr Ea).
  intros y q Hy [_ Hq]. specialize (Hno y Hy). cbn beta in Hno. rewrite Hq in Hno. lia.
Qed.

Lemma delete_find_spec sh a :
  props_wf (prop_hash sh) (prop_hash_mask sh) (shape_prop sh) (prop_count sh) -> a <> JS_ATOM_NULL ->
  (delete_find sh a = Ret None /\ forall i, ~ has_prop (shape_prop sh) (prop_count sh) a i) \/
  exists l1 x l2 pr, delete_find sh a = Ret (Some (List.last l1 0, x)) /\
    bucket (shape_prop sh) (prop_hash_mask sh) (Z.land a (prop_hash_mask sh)) (Z.to_nat (prop_count sh)) = l1 ++ x :: l2 /\
    at_ (shape_prop sh) (x - 1) pr /\ atom pr = a /\ last_prop (shape_prop sh) (prop_count sh) a (x - 1).
Proof.
  intros Hw Ha. pose proof (bucket_range _ _ _ _ a Hw) as Hb. destruct (pw_chain _ _ _ _ Hw _ Hb) as (h & Hat & Hc).
  pose proof (bucket_length (shape_prop sh) (prop_hash_mask sh) (Z.land a (prop_hash_mask sh)) (Z.to_nat (prop_count sh))) as Hlen.
  destruct (pw_count _ _ _ _ Hw) as [Hn _]. unfold delete_find. rewrite (rd_at _ _ _ Hat). cbn [obind].
  destruct (delete_walk (shape_prop sh) a _ h 0 (S (length (shape_prop sh))) Hc) as [[E Hno]|(l1 & x & l2 & pr & Eb & E & Hx & Ea & Hno)].
  - apply bucket_no_zero.
  - unfold zlen in Hn. lia.
  - left. split; [exact E|]. intros i Hp. pose proof (bucket_has _ _ _ _ _ _ Hw Ha Hp) as Hin.
    destruct Hp as (_ & q & Hq & Eq). apply (Hno _ q Hin); [|done]. by replace (i + 1 - 1) with i by lia.
  - right. exists l1, x, l2, pr. split; [exact E|]. split; [done|]. split; [done|]. split; [done|].
    by apply (bucket_last _ _ _ _ _ _ _ _ _ Hw Ha Eb Hx Ea).
Qed.

(** ** Positions and lists of properties *)

Lemma props_of_app ps qs vs : props_of (ps ++ qs) vs = props_of ps vs ++ props_of qs (drop (length ps) vs).
Proof.
  revert vs. induction ps as [|p ps IH]; intros vs; cbn [app length]; [by destruct vs|].
  destruct vs as [|v vs]; [unfold props_of; cbn [combine List.filter map app]; by destruct qs|].
  rewrite !props_of_cons. cbn [drop]. by rewrite IH, app_assoc.
Qed.

Lemma props_of_names_In ps vs a : In a (map (fun p => fst (fst p)) (props_of ps vs)) ->
  a <> JS_ATOM_NULL /\ exists pr, In pr ps /\ atom pr = a.
Proof.
  revert vs. induction ps as [|p ps IH]; intros vs; [done|]. destruct vs as [|v vs]; [done|].
  rewrite props_of_cons, map_app, in_app_iff. intros [H|H].
  - unfold is_live in H. destruct (Z.eqb_spec (atom p) JS_ATOM_NULL); [done|]. destruct H as [<-|[]]. cbn.
    split; [done|]. exists p. split; [by left|done].
  - destruct (IH vs H) as (Ha & pr & Hp & E). split; [done|]. exists pr. split; [by right|done].
Qed.

(** The list of the properties around the position [i]. *)
Lemma props_of_at ps vs n i pr v :
  0 <= n <= zlen ps -> i < n -> at_ ps i pr -> at_ vs i v -> is_live pr = true ->
  exists l1 l2, props_of (take (Z.to_nat n) ps) vs = l1 ++ (atom pr, flags pr, v) :: l2 /\
    (forall q w, props_of (take (Z.to_nat n) (<[Z.to_nat i := q]> ps)) (<[Z.to_nat i := w]> vs)
       = l1 ++ (if is_live q then [(atom q, flags q, w)] else []) ++ l2) /\
    ((forall j, i < j -> ~ has_prop ps n (atom pr) j) -> ~ In (atom pr) (map (fun p => fst (fst p)) l2)).
Proof.
  intros Hn Hi Hat Hv Hl. pose proof (at_lt _ _ _ Hat) as Hil. pose proof (at_lt _ _ _ Hv) as Hvl. unfold zlen in *.
  destruct Hat as [Hi0 Hat], Hv as [_ Hv]. set (k := Z.to_nat i) in *. set (m := Z.to_nat n).
  set (rest := drop (S k) (take m ps)).
  exists (props_of (take k ps) vs), (props_of rest (drop (S k) vs)).
  assert (forall q w, props_of (take m (<[k := q]> ps)) (<[k := w]> vs)
     = props_of (take k ps) vs ++ (if is_live q then [(atom q, flags q, w)] else []) ++ props_of rest (drop (S k) vs)) as Hall.
  { intros q w. assert (take m (<[k := q]> ps) = take k ps ++ q :: rest) as ->.
    { rewrite take_insert_lt by lia. rewrite insert_take_drop by (rewrite length_take; lia). f_equal.
      rewrite take_take. f_equal. lia. }
    rewrite props_of_app, length_take, Nat.min_l by lia. f_equal.
    - apply props_of_insert_after. rewrite length_take. lia.
    - rewrite insert_take_drop by lia. rewrite drop_app_length' by (rewrite length_take; lia). by rewrite props_of_cons. }
  split; [|split].
  - specialize (Hall pr v). rewrite (list_insert_id _ _ _ Hat), (list_insert_id _ _ _ Hv) in Hall. by rewrite Hall, Hl.
  - exact Hall.
  - intros Hno Hin. apply props_of_names_In in Hin as (_ & q & Hq & Eq). apply list_elem_of_In, list_elem_of_lookup in Hq as (j & Hj).
    unfold rest in Hj. rewrite lookup_drop, lookup_take_Some in Hj. destruct Hj as [Hj Hjm].
    apply (Hno (Z.of_nat (S k + j))); [lia|]. split; [lia|]. exists q. split; [|done]. split; [lia|]. by rewrite Nat2Z.id.
Qed.
