(* ===== verification/ShapeTable.v ===== *)
(** The table of the hashed shapes.

    Every bucket of the table is a chain of the shapes whose hash falls in it.
    Linking and unlinking a shape keeps the table, and changes nothing else of
    the shapes than the links of the chains. *)
From Stdlib Require Import ZArith Lia Bool List.
From stdpp Require Import base tactics list numbers gmap.
From S2P Require Import Prelude Alloc GcObject Shape.

Section Table.
Context `{AL : Allocator}.
Abbreviation ShapeState := (ShapeState (AL := AL)).

(** The shapes of a chain. *)
Fixpoint schain (m : gmap Z JSShape) (v : option Z) (l : list Z) : Prop :=
  match l with
  | [] => v = None
  | p :: l => v = Some p /\ exists sh, m !! p = Some sh /\ schain m (shape_hash_next sh) l
  end.

Lemma schain_ext m m' v l :
  (forall p sh, In p l -> m !! p = Some sh -> exists sh', m' !! p = Some sh' /\ shape_hash_next sh' = shape_hash_next sh) ->
  schain m v l -> schain m' v l.
Proof using.
  revert v. induction l as [|p l IH]; intros v H; cbn [schain]; [done|]. intros (-> & sh & E & Hc). split; [done|].
  destruct (H p sh ltac:(by left) E) as (sh' & E' & En). exists sh'. split; [done|]. rewrite En. apply IH; [|done].
  intros q s Hq. apply H. by right.
Qed.

Lemma schain_dom m v l p : schain m v l -> In p l -> is_Some (m !! p).
Proof using.
  revert v. induction l as [|q l IH]; intros v; cbn [schain In]; [done|]. intros (_ & sh & E & Hc) [<-|Hp]; [by exists sh|].
  by eapply IH.
Qed.

Lemma schain_length m v l : schain m v l -> List.NoDup l -> (length l <= size m)%nat.
Proof using.
  intros Hc Hn. apply NoDup_ListNoDup in Hn. rewrite <- (size_list_to_set (C := gset Z) l) by done.
  rewrite <- size_dom. apply subseteq_size. intros p Hp. apply elem_of_list_to_set, list_elem_of_In in Hp.
  apply elem_of_dom. by eapply schain_dom.
Qed.

(** The link of [y] skips [p]. *)
Lemma schain_splice m l1 y p l2 sy sp : forall v,
  List.NoDup (l1 ++ y :: p :: l2) -> m !! y = Some sy -> m !! p = Some sp ->
  schain m v (l1 ++ y :: p :: l2) -> schain (<[y := with_next sy (shape_hash_next sp)]> m) v (l1 ++ y :: l2).
Proof using.
  induction l1 as [|z l1 IH]; intros v Hn Hy Hp; cbn [app schain] in *.
  - intros (-> & sy' & Hy' & _ & sp' & Hp' & Hc). split; [done|]. exists (with_next sy (shape_hash_next sp)).
    rewrite lookup_insert_eq. split; [done|]. cbn [shape_hash_next with_next].
    rewrite Hp in Hp'. injection Hp' as <-. eapply schain_ext; [|exact Hc]. intros q s Hq E. exists s. split; [|done].
    apply List.NoDup_cons_iff in Hn as [Hny _]. rewrite lookup_insert_ne; [done|]. intros ->. apply Hny. by right.
  - intros (-> & sz & Hz & Hc). split; [done|]. apply List.NoDup_cons_iff in Hn as [Hnz Hn]. exists sz.
    rewrite lookup_insert_ne by (intros ->; apply Hnz, in_elt). split; [done|]. by apply IH.
Qed.

Lemma schain_mid m l1 p l2 v :
  schain m v (l1 ++ p :: l2) -> exists sh, m !! p = Some sh /\ schain m (shape_hash_next sh) l2.
Proof using.
  revert v. induction l1 as [|q l1 IH]; intros v; cbn [app schain]; [intros (_ & sh & H)|intros (_ & sh & _ & H)].
  - by exists sh.
  - by eapply IH.
Qed.

(** * The state *)

(** A shape without its link. *)
Definition core (sh : JSShape) : JSShape := with_next sh None.

Definition same_shapes (m m' : gmap Z JSShape) : Prop := forall p, core <$> m' !! p = core <$> m !! p.

Lemma same_shapes_refl m : same_shapes m m.
Proof using. done. Qed.

Lemma same_shapes_trans m1 m2 m3 : same_shapes m1 m2 -> same_shapes m2 m3 -> same_shapes m1 m3.
Proof using. intros H1 H2 p. by rewrite H2, H1. Qed.

#[export] Instance same_shapes_equivalence : Equivalence same_shapes.
Proof using. constructor; [done| |exact same_shapes_trans]. intros m m' H p. by rewrite H. Qed.

#[export] Instance same_shapes_size : Proper (same_shapes ==> eq) size.
Proof using.
  intros m m' H. rewrite <- !size_dom. f_equal. apply set_eq. intros k. rewrite !elem_of_dom. specialize (H k).
  destruct (m !! k), (m' !! k); try done; split; intros [? ?]; done.
Qed.

Lemma same_shapes_next m p sh v : m !! p = Some sh -> same_shapes m (<[p := with_next sh v]> m).
Proof using.
  intros E q. destruct (decide (p = q)) as [<-|Hne]; [by rewrite lookup_insert_eq, E|by rewrite lookup_insert_ne].
Qed.

Lemma same_shapes_lookup m m' p sh :
  same_shapes m m' -> m !! p = Some sh -> exists v, m' !! p = Some (with_next sh v).
Proof using.
  intros H E. specialize (H p). rewrite E in H. destruct (m' !! p) as [sh'|] eqn:E'; [|done].
  injection H as Hc. exists (shape_hash_next sh'). f_equal. destruct sh, sh'. unfold with_next. cbn in *. congruence.
Qed.

(** [st'] differs from [st] by the table of the shapes and its links. *)
Record same_but_table (st st' : ShapeState) : Prop := {
  sb_heap : s_heap st' = s_heap st;
  sb_refs : ref_counts st' = ref_counts st;
  sb_list : shape_list st' = shape_list st;
  sb_objects : objects st' = objects st;
  sb_calls : calls st' = calls st;
  sb_bits : shape_hash_bits st' = shape_hash_bits st;
  sb_shapes : same_shapes (shapes st) (shapes st')
}.

(** The table holds the shapes in [T]. *)
Record table_wf (st : ShapeState) (T : Z -> Prop) : Prop := {
  tw_size : 1 <= shape_hash_bits st <= 31 /\ shape_hash_size st = 2 ^ shape_hash_bits st /\
    zlen (shape_hash st) = 2 ^ shape_hash_bits st;
  tw_chain : forall b, 0 <= b < 2 ^ shape_hash_bits st -> exists v l,
    at_ (shape_hash st) b v /\ schain (shapes st) v l /\ List.NoDup l /\
    forall p, In p l <-> T p /\ exists sh, shapes st !! p = Some sh /\ get_shape_hash (hash sh) (shape_hash_bits st) = b
}.

Lemma get_shape_hash_range h bits : 0 <= h < 2 ^ 32 -> 1 <= bits <= 31 -> 0 <= get_shape_hash h bits < 2 ^ bits.
Proof using.
  intros Hh Hb. unfold get_shape_hash. rewrite Z.shiftr_div_pow2 by lia. split; [apply Z.div_pos; [lia|apply Z.pow_pos_nonneg; lia]|].
  apply Z.div_lt_upper_bound; [apply Z.pow_pos_nonneg; lia|]. rewrite <- Z.pow_add_r by lia.
  replace (32 - bits + bits) with 32 by lia. lia.
Qed.

Lemma get_sh_some (st : ShapeState) p sh : shapes st !! p = Some sh -> get_sh st p = Ret sh.
Proof using. unfold get_sh. by intros ->. Qed.

(** ** Linking *)

Lemma js_shape_hash_link_spec (st : ShapeState) T p sh :
  table_wf st T -> shapes st !! p = Some sh -> 0 <= hash sh < 2 ^ 32 -> ~ T p ->
  exists st', js_shape_hash_link st p = Ret st' /\ same_but_table st st' /\ table_wf st' (fun q => T q \/ q = p).
Proof using.
  intros [(Hb & Hs & Hz) Hc] Hp Hh Hn. pose proof (get_shape_hash_range (hash sh) _ Hh Hb) as Hr.
  unfold js_shape_hash_link. rewrite (get_sh_some _ _ _ Hp). cbn [obind].
  destruct (Hc _ Hr) as (v & l & Hat & Hl & Hnd & Hin). rewrite (rd_at _ _ _ Hat). cbn [obind].
  rewrite wr_in by (cbn; lia). cbn [obind]. eexists. split; [done|].
  assert (forall q s, q <> p -> shapes st !! q = Some s -> exists s',
            <[p := with_next sh v]> (shapes st) !! q = Some s' /\ shape_hash_next s' = shape_hash_next s) as Hext.
  { intros q s Hne E. exists s. by rewrite lookup_insert_ne. }
  split; [constructor; cbn; try done; by apply same_shapes_next|]. constructor; cbn.
  { by rewrite zlen_insert. }
  intros b Hbb. destruct (Z.eq_dec b (get_shape_hash (hash sh) (shape_hash_bits st))) as [->|Hne].
  - exists (Some p), (p :: l). split; [apply at_insert_eq; lia|].
    assert (~ In p l) as Hpl by (rewrite Hin; tauto). split.
    { cbn [schain]. split; [done|]. exists (with_next sh v). rewrite lookup_insert_eq. split; [done|].
      eapply schain_ext; [|exact Hl]. intros q s Hq E. apply Hext; [by intros ->|done]. }
    split; [by constructor|]. intros q. cbn [In]. rewrite Hin. split.
    + intros [<-|(Hq & s & E & Eh)].
      * split; [by right|]. exists (with_next sh v). by rewrite lookup_insert_eq.
      * split; [by left|]. exists s. rewrite lookup_insert_ne; [done|]. by intros ->.
    + intros [[Hq| ->] (s & E & Eh)]; [right|by left]. rewrite lookup_insert_ne in E by (by intros ->).
      split; [done|]. by exists s.
  - destruct (Hc b Hbb) as (v' & l' & Hat' & Hl' & Hnd' & Hin'). exists v', l'.
    split; [apply at_insert_ne; [lia..|done]|]. assert (~ In p l') as Hpl by (rewrite Hin'; tauto).
    split; [eapply schain_ext; [|exact Hl']; intros q s Hq E; apply Hext; [by intros ->|done]|].
    split; [done|]. intros q. rewrite Hin'. split.
    + intros (Hq & s & E & Eh). split; [by left|]. exists s. rewrite lookup_insert_ne; [done|]. by intros ->.
    + intros [[Hq| ->] (s & E & Eh)].
      * rewrite lookup_insert_ne in E by (by intros ->). split; [done|]. by exists s.
      * rewrite lookup_insert_eq in E. injection E as <-. by destruct Hne.
Qed.

(** ** Unlinking *)

Lemma rd_cell_next (st : ShapeState) p sh : shapes st !! p = Some sh -> rd_cell st (C_next p) = Ret (shape_hash_next sh).
Proof using. intros E. unfold rd_cell. by rewrite (get_sh_some _ _ _ E). Qed.

Lemma last_any {A : Type} (l : list A) d d' : l <> [] -> List.last l d = List.last l d'.
Proof using.
  intros H. destruct l as [|x l _] using rev_ind; [done|]. by rewrite !List.last_last.
Qed.

(** The walk stops at the cell that points to [p]. *)
Lemma unlink_walk (st : ShapeState) p l1 l2 : forall c v fuel,
  rd_cell st c = Ret v -> schain (shapes st) v (l1 ++ p :: l2) -> ~ In p l1 -> (length l1 < fuel)%nat ->
  iter fuel (unlink_step st p) c = Ret (List.last (map C_next l1) c).
Proof using.
  induction l1 as [|q l1 IH]; intros c v fuel Hr Hc Hn Hf; (destruct fuel; [cbn in Hf; lia|]); rewrite iter_S;
    unfold unlink_step at 1; rewrite Hr; cbn [obind app schain] in *; destruct Hc as (-> & sh & E & Hc).
  - by rewrite bool_decide_true.
  - rewrite bool_decide_false; [|intros [= ->]; apply Hn; by left]. cbn [obind].
    rewrite (IH (C_next q) (shape_hash_next sh) fuel); [|by apply rd_cell_next|done| |cbn [length] in Hf; lia].
    + f_equal. cbn [map]. destruct (map C_next l1) as [|y k]; [done|].
      by apply (last_any (y :: k)).
    + intros Hp. apply Hn. by right.
Qed.

(** The cell found is the head of the bucket or the link of a shape. *)
Lemma unlink_write (st : ShapeState) b v l1 p l2 sh :
  at_ (shape_hash st) b v -> schain (shapes st) v (l1 ++ p :: l2) -> List.NoDup (l1 ++ p :: l2) ->
  shapes st !! p = Some sh ->
  exists t m v', wr_cell st (List.last (map C_next l1) (C_table b)) (shape_hash_next sh)
      = Ret (set_shape_table (set_shapes st m) (shape_hash_bits st) (shape_hash_size st) (shape_hash_count st) t) /\
    zlen t = zlen (shape_hash st) /\ at_ t b v' /\ schain m v' (l1 ++ l2) /\ same_shapes (shapes st) m /\
    (forall c w, c <> b -> at_ (shape_hash st) c w -> at_ t c w) /\
    (forall q s, ~ In q l1 -> shapes st !! q = Some s -> m !! q = Some s).
Proof using.
  intros Hat Hc Hn Hp. apply at_lt in Hat as Hb. destruct (schain_mid _ _ _ _ _ Hc) as (sh' & E' & Hc2).
  rewrite Hp in E'. injection E' as <-. destruct l1 as [|y l1 _] using rev_ind.
  - cbn [map List.last wr_cell app] in *. rewrite wr_in by lia. cbn [obind].
    exists (<[Z.to_nat b := shape_hash_next sh]> (shape_hash st)), (shapes st), (shape_hash_next sh).
    split; [by destruct st|]. split; [by rewrite zlen_insert|]. split; [by apply at_insert_eq|].
    split; [done|]. split; [done|]. split; [|done]. intros c w Hne Hw. apply at_insert_ne; [lia|destruct Hw; lia|lia|done].
  - rewrite map_app. cbn [map]. rewrite List.last_last. cbn [wr_cell]. rewrite <- app_assoc in *. cbn [app] in *.
    destruct (schain_mid _ _ _ _ _ Hc) as (sy & Ey & _). rewrite (get_sh_some _ _ _ Ey). cbn [obind].
    exists (shape_hash st), (<[y := with_next sy (shape_hash_next sh)]> (shapes st)), v. split; [by destruct st|].
    split; [done|]. split; [done|]. split; [by apply (schain_splice _ _ _ p)|].
    split; [by apply same_shapes_next|]. split; [done|]. intros q s Hq E. rewrite lookup_insert_ne; [done|].
    intros ->. apply Hq, in_or_app. right. by left.
Qed.

Lemma same_shapes_hash m m' q (P : Z -> Prop) :
  same_shapes m m' -> (exists s, m' !! q = Some s /\ P (hash s)) <-> (exists s, m !! q = Some s /\ P (hash s)).
Proof using.
  intros H. specialize (H q). destruct (m !! q) as [s|], (m' !! q) as [s'|]; try done.
  injection H as Hc. assert (hash s' = hash s) as Eh by (destruct s, s'; cbn in *; congruence).
  split; intros (x & [= <-] & Hx); eexists; (split; [done|]); congruence.
Qed.

Lemma js_shape_hash_unlink_spec (st : ShapeState) T p sh :
  table_wf st T -> shapes st !! p = Some sh -> 0 <= hash sh < 2 ^ 32 -> T p ->
  exists st', js_shape_hash_unlink st p = Ret st' /\ same_but_table st st' /\ table_wf st' (fun q => T q /\ q <> p).
Proof using.
  intros [(Hb & Hs & Hz) Hc] Hp Hh Ht. pose proof (get_shape_hash_range (hash sh) _ Hh Hb) as Hr.
  unfold js_shape_hash_unlink. rewrite (get_sh_some _ _ _ Hp). cbn [obind].
  destruct (Hc _ Hr) as (v & l & Hat & Hl & Hnd & Hin).
  assert (In p l) as Hpl by (apply Hin; split; [done|]; by exists sh).
  apply in_split in Hpl as (l1 & l2 & ->). pose proof (schain_length _ _ _ Hl Hnd) as Hlen. rewrite length_app in Hlen.
  assert (~ In p l1) as Hp1 by (apply List.NoDup_remove_2 in Hnd; intros H; apply Hnd, in_or_app; by left).
  rewrite (unlink_walk st p l1 l2 _ v); [|by apply rd_at|done|done|cbn [length] in Hlen; lia]. cbn [obind].
  destruct (unlink_write st _ v l1 p l2 sh Hat Hl Hnd Hp) as (t & m & v' & -> & Hzt & Hat' & Hl' & Hsm & Ho & Hm).
  cbn [obind]. eexists. split; [done|]. split; [constructor; cbn; done|].
  constructor; cbn; [by rewrite Hzt|]. intros b Hbb.
  destruct (Z.eq_dec b (get_shape_hash (hash sh) (shape_hash_bits st))) as [->|Hne].
  - exists v', (l1 ++ l2). split; [done|]. split; [done|]. split; [by eapply List.NoDup_remove_1|].
    intros q. rewrite (same_shapes_hash _ _ q (fun h => get_shape_hash h _ = _) Hsm).
    apply List.NoDup_remove_2 in Hnd. split.
    + intros Hq. assert (In q (l1 ++ p :: l2)) as Hq' by (rewrite in_app_iff in *; cbn [In]; tauto).
      apply Hin in Hq' as [Hq1 Hq2]. split; [|done]. split; [done|]. by intros ->.
    + intros [[Hq1 Hqp] Hq2]. assert (In q (l1 ++ p :: l2)) as Hq' by (by apply Hin).
      rewrite in_app_iff in *. cbn [In] in Hq'. intuition congruence.
  - destruct (Hc b Hbb) as (w & k & Hw & Hk & Hkn & Hkin). exists w, k. split; [by apply Ho|].
    assert (forall q, In q k -> ~ In q (l1 ++ p :: l2)) as Hdis.
    { intros q Hq Hq'. apply Hkin in Hq as (_ & s & E & Eb). apply Hin in Hq' as (_ & s' & E' & Eb').
      rewrite E in E'. injection E' as <-. congruence. }
    split; [|split; [done|]].
    + eapply schain_ext; [|exact Hk]. intros q s Hq E. exists s. split; [|done]. apply Hm; [|done].
      intros Hq1. apply (Hdis q Hq), in_or_app. by left.
    + intros q. rewrite (same_shapes_hash _ _ q (fun h => get_shape_hash h _ = _) Hsm), Hkin. split; [|tauto].
      intros [Hq1 Hq2]. split; [|done]. split; [done|]. intros ->. apply (Hdis p); [by apply Hkin|apply in_elt].
Qed.
End Table.
