(* ===== verification/ShapeInv.v ===== *)
(** The invariant of the shapes and of the objects that use them.

    The hash table of every shape is right, the table of the shapes holds the
    hashed ones, and the reference count of a shape covers the objects that use
    it, so that a shape with one reference belongs to one object, which may
    change it. *)
From Stdlib Require Import ZArith Lia Bool List.
From stdpp Require Import base tactics list numbers gmap.
From S2P Require Import Prelude Alloc GcObject Shape ShapeChain ShapeTable.

Section Inv.
Context `{AL : Allocator}.
Abbreviation ShapeState := (ShapeState (AL := AL)).

(** * The users of a shape *)

Definition user_set (m : gmap Z JSObj) (p : Z) : gset Z := dom (filter (fun kv => o_shape (snd kv) = p) m).
Definition users (m : gmap Z JSObj) (p : Z) : Z := Z.of_nat (size (user_set m p)).

Lemma elem_of_users m p o : o ∈ user_set m p <-> exists x, m !! o = Some x /\ o_shape x = p.
Proof using.
  unfold user_set. rewrite elem_of_dom. split.
  - intros [x Hx]. apply map_lookup_filter_Some in Hx as [Hx Hp]. by exists x.
  - intros (x & Hx & Hp). exists x. by apply map_lookup_filter_Some.
Qed.

Lemma user_set_other m o x p : o_shape x <> p -> user_set (<[o := x]> m) p = user_set m p ∖ {[o]}.
Proof using.
  intros Hne. apply set_eq. intros k. rewrite elem_of_difference, elem_of_singleton, !elem_of_users. split.
  - intros (y & Hy & Hp). destruct (decide (k = o)) as [->|Hko].
    + rewrite lookup_insert_eq in Hy. by injection Hy as <-.
    + rewrite lookup_insert_ne in Hy by done. split; [by exists y|done].
  - intros [(y & Hy & Hp) Hko]. exists y. by rewrite lookup_insert_ne.
Qed.

Lemma user_set_same m o x p : o_shape x = p -> user_set (<[o := x]> m) p = {[o]} ∪ user_set m p.
Proof using.
  intros Hp. apply set_eq. intros k. rewrite elem_of_union, elem_of_singleton, !elem_of_users. split.
  - intros (y & Hy & Hyp). destruct (decide (k = o)) as [->|Hko]; [by left|right].
    rewrite lookup_insert_ne in Hy by done. by exists y.
  - destruct (decide (k = o)) as [->|Hko].
    + intros _. exists x. by rewrite lookup_insert_eq.
    + intros [->|(y & Hy & Hyp)]; [done|]. exists y. by rewrite lookup_insert_ne.
Qed.

(** An object that does not use [p] any more. *)
Lemma users_leave m o x y p :
  m !! o = Some x -> o_shape x = p -> o_shape y <> p -> users (<[o := y]> m) p = users m p - 1.
Proof using.
  intros Hx Hp Hy. unfold users. rewrite user_set_other by done.
  assert (o ∈ user_set m p) as Ho by (apply elem_of_users; by exists x).
  assert (0 < size (user_set m p))%nat by (destruct (size (user_set m p)) eqn:E; [apply size_empty_inv in E; set_solver|lia]).
  rewrite size_difference by set_solver. rewrite size_singleton. lia.
Qed.

Lemma users_enter m o x p :
  (forall y, m !! o = Some y -> o_shape y <> p) -> o_shape x = p -> users (<[o := x]> m) p = users m p + 1.
Proof using.
  intros Hy Hp. unfold users. rewrite user_set_same by done. rewrite size_union, size_singleton; [lia|].
  intros k Hk. apply elem_of_singleton in Hk as ->. intros Hk. apply elem_of_users in Hk as (y & Hm & Hp'). by apply (Hy y).
Qed.

Lemma users_keep m o x y p :
  m !! o = Some x -> (o_shape x = p <-> o_shape y = p) -> users (<[o := y]> m) p = users m p.
Proof using.
  intros Hx Hp. unfold users. do 2 f_equal. apply set_eq. intros k. rewrite !elem_of_users.
  destruct (decide (k = o)) as [->|Hko].
  - rewrite lookup_insert_eq, Hx. split; intros (z & [= <-] & Hz); eexists; (split; [done|]); by apply Hp.
  - by rewrite lookup_insert_ne.
Qed.

Lemma users_two m o o' x x' p :
  m !! o = Some x -> m !! o' = Some x' -> o_shape x = p -> o_shape x' = p -> o <> o' -> 2 <= users m p.
Proof using.
  intros Hx Hx' Hp Hp' Hne. unfold users.
  assert ({[o; o']} ⊆ user_set m p) as Hsub.
  { intros k Hk. apply elem_of_users. apply elem_of_union in Hk as [Hk|Hk]; apply elem_of_singleton in Hk as ->; by eexists. }
  apply subseteq_size in Hsub. rewrite size_union, !size_singleton in Hsub by set_solver. lia.
Qed.

Lemma users_none m p o x : users m p <= 0 -> m !! o = Some x -> o_shape x <> p.
Proof using.
  intros Hu Hx Hp. unfold users in Hu. assert (size (user_set m p) = 0%nat) as E by lia. apply size_empty_inv in E.
  assert (o ∈ user_set m p) as Ho by (apply elem_of_users; by exists x). set_solver.
Qed.

(** * The invariant *)

Record shape_ok (sh : JSShape) : Prop := {
  so_props : props_wf (prop_hash sh) (prop_hash_mask sh) (shape_prop sh) (prop_count sh);
  so_size : zlen (shape_prop sh) = prop_size sh;
  so_deleted : deleted_prop_count sh = prop_count sh - live_count (take (Z.to_nat (prop_count sh)) (shape_prop sh));
  so_hash : 0 <= hash sh < 2 ^ 32;
  so_max : prop_size sh < 2 ^ 31
}.

Record base_wf (st : ShapeState) : Prop := {
  bw_shape : forall p sh, shapes st !! p = Some sh -> shape_ok sh;
  bw_refs : forall p sh, shapes st !! p = Some sh -> exists n,
    ref_counts st !! p = Some n /\ 0 < n /\ users (objects st) p <= n /\ (is_hashed sh = false -> n = 1);
  bw_obj : forall o x, objects st !! o = Some x -> exists sh,
    shapes st !! (o_shape x) = Some sh /\ prop_size sh <= zlen (o_prop x)
}.

Definition hashed (st : ShapeState) (p : Z) : Prop := exists sh, shapes st !! p = Some sh /\ is_hashed sh = true.

Record shapes_wf (st : ShapeState) : Prop := {
  sw_base : base_wf st;
  sw_table : table_wf st (hashed st)
}.

(** What the program sees of an object: its properties in order. *)
Definition obj_props (st : ShapeState) (o : Z) : option (list (Z * Z * JSProperty)) :=
  match objects st !! o with
  | None => None
  | Some x =>
      match shapes st !! (o_shape x) with
      | None => None
      | Some sh => Some (props_of (take (Z.to_nat (prop_count sh)) (shape_prop sh)) (o_prop x))
      end
  end.

(** ** Fields that the link does not change *)

Lemma shape_ok_next sh v : shape_ok sh -> shape_ok (with_next sh v).
Proof using. intros [H1 H2 H3 H4 H5]. by constructor. Qed.

Lemma core_back sh sh' : core sh' = core sh -> sh = with_next sh' (shape_hash_next sh).
Proof using. destruct sh, sh'. unfold core, with_next. cbn. intros. congruence. Qed.

Lemma same_shapes_sym m m' : same_shapes m m' -> same_shapes m' m.
Proof using. by symmetry. Qed.

Lemma table_wf_ext (st : ShapeState) T T' : (forall p, T p <-> T' p) -> table_wf st T -> table_wf st T'.
Proof using.
  intros H [H1 H2]. constructor; [done|]. intros b Hb. destruct (H2 b Hb) as (v & l & Hat & Hl & Hn & Hin).
  exists v, l. split; [done|]. split; [done|]. split; [done|]. intros p. by rewrite Hin, H.
Qed.

(** The table depends on the hashes and the links of the shapes in it. *)
Lemma table_wf_frame (st st' : ShapeState) T :
  shape_hash st' = shape_hash st -> shape_hash_bits st' = shape_hash_bits st -> shape_hash_size st' = shape_hash_size st ->
  (forall p sh, T p -> shapes st !! p = Some sh -> exists sh',
     shapes st' !! p = Some sh' /\ hash sh' = hash sh /\ shape_hash_next sh' = shape_hash_next sh) ->
  (forall p sh, T p -> shapes st' !! p = Some sh -> is_Some (shapes st !! p)) ->
  table_wf st T -> table_wf st' T.
Proof using.
  intros Et Eb Es Hm Hm' [H1 H2]. constructor; rewrite Et, Eb; [by rewrite Es|]. intros b Hb.
  destruct (H2 b Hb) as (v & l & Hat & Hl & Hn & Hin). exists v, l. split; [done|]. split; [|split; [done|]].
  - eapply schain_ext; [|exact Hl]. intros p sh Hp E. destruct (Hm p sh) as (sh' & E' & _ & En); [by apply Hin|done|].
    by exists sh'.
  - intros p. rewrite Hin. split; intros (Hp & sh & E & Eh); (split; [done|]).
    + destruct (Hm p sh Hp E) as (sh' & E' & Eh' & _). exists sh'. by rewrite Eh'.
    + destruct (Hm' p sh Hp E) as [s Es']. exists s. split; [done|].
      destruct (Hm p s Hp Es') as (sh' & E' & Eh' & _). congruence.
Qed.

Lemma base_wf_table (st st' : ShapeState) : same_but_table st st' -> base_wf st -> base_wf st'.
Proof using.
  intros [Hh Hr Hl Ho Hc Hb Hs] [H1 H2 H3]. apply same_shapes_sym in Hs. constructor.
  - intros p sh E. destruct (same_shapes_lookup _ _ _ _ Hs E) as [v E']. apply H1 in E'.
    apply (shape_ok_next _ (shape_hash_next sh)) in E'. by destruct sh.
  - intros p sh E. destruct (same_shapes_lookup _ _ _ _ Hs E) as [v E']. rewrite Hr, Ho. destruct (H2 _ _ E') as (n & Hn). by exists n.
  - intros o x E. rewrite Ho in E. destruct (H3 o x E) as (sh & Esh & Hle). apply same_shapes_sym in Hs.
    destruct (same_shapes_lookup _ _ _ _ Hs Esh) as [v E']. by exists (with_next sh v).
Qed.

Lemma obj_props_same (st st' : ShapeState) o :
  same_shapes (shapes st) (shapes st') -> objects st' !! o = objects st !! o -> obj_props st' o = obj_props st o.
Proof using.
  intros Hs Ho. unfold obj_props. rewrite Ho. destruct (objects st !! o) as [x|]; [|done].
  specialize (Hs (o_shape x)). destruct (shapes st !! o_shape x) as [sh|], (shapes st' !! o_shape x) as [sh'|]; try done.
  apply (inj Some) in Hs as Hc. apply core_back in Hc. rewrite Hc. by destruct sh'.
Qed.

Lemma hashed_same (st st' : ShapeState) p : same_shapes (shapes st) (shapes st') -> hashed st' p <-> hashed st p.
Proof using.
  intros Hs. specialize (Hs p). unfold hashed.
  destruct (shapes st !! p) as [sh|], (shapes st' !! p) as [sh'|]; try done.
  apply (inj Some) in Hs as Hc. apply core_back in Hc. rewrite Hc. destruct sh'. cbn.
  split; intros (s & [= <-] & Hh); by eexists.
Qed.

(** ** The update of a shape by its only user *)

(** [o] alone uses the shape [p], which becomes [sh'] at the address [q]. *)
Record update (st st' : ShapeState) (o p q : Z) (sh' : JSShape) (prop' : list JSProperty) : Prop := {
  up_shapes : same_shapes (<[q := sh']> (delete p (shapes st))) (shapes st');
  up_refs : ref_counts st' = <[q := 1]> (delete p (ref_counts st));
  up_objects : objects st' = <[o := mkJSObj q prop']> (objects st);
  up_fresh : q = p \/ shapes st !! q = None
}.

Lemma only_user (st : ShapeState) o x p :
  base_wf st -> objects st !! o = Some x -> o_shape x = p -> ref_counts st !! p = Some 1 ->
  forall o' x', o' <> o -> objects st !! o' = Some x' -> o_shape x' <> p.
Proof using.
  intros Hb Hx Hp Hr o' x' Hne Hx' Hp'. destruct (bw_obj _ Hb o x Hx) as (sh & E & _). rewrite Hp in E.
  destruct (bw_refs _ Hb p sh E) as (n & En & _ & Hu & _). rewrite Hr in En. injection En as <-.
  pose proof (users_two _ _ _ _ _ _ Hx Hx' Hp Hp' ltac:(done)). lia.
Qed.

Lemma update_wf (st st' : ShapeState) o x p q sh' prop' :
  base_wf st -> objects st !! o = Some x -> o_shape x = p -> ref_counts st !! p = Some 1 ->
  update st st' o p q sh' prop' -> shape_ok sh' -> prop_size sh' <= zlen prop' ->
  base_wf st' /\ (forall o', o' <> o -> obj_props st' o' = obj_props st o') /\
  obj_props st' o = Some (props_of (take (Z.to_nat (prop_count sh')) (shape_prop sh')) prop').
Proof using.
  intros Hb Hx Hp Hr [Hs Hrf Ho Hf] Hok Hz. pose proof (only_user _ _ _ _ Hb Hx Hp Hr) as Hu.
  destruct Hb as [H1 H2 H3]. set (m := <[q := sh']> (delete p (shapes st))) in *.
  assert (forall p' s, p' <> q -> m !! p' = Some s -> p' <> p /\ shapes st !! p' = Some s) as Hm.
  { intros p' s Hne E. unfold m in E. rewrite lookup_insert_ne in E by done. by apply lookup_delete_Some in E as [? ?]. }
  assert (forall p', p' <> q -> p' <> p -> m !! p' = shapes st !! p') as Hm'.
  { intros p' Hq Hpp. unfold m. rewrite lookup_insert_ne, lookup_delete_ne by done. done. }
  assert (m !! q = Some sh') as Hmq by apply lookup_insert_eq.
  assert (forall o' x', o' <> o -> objects st !! o' = Some x' -> o_shape x' <> q) as Hq.
  { intros o' x' Hne E. destruct Hf as [->|Hf]; [by apply (Hu o')|]. intros Eq.
    destruct (H3 o' x' E) as (s & Es & _). congruence. }
  split; [|split].
  - constructor.
    + intros p' s E. apply same_shapes_sym in Hs. destruct (same_shapes_lookup _ _ _ _ Hs E) as [v E'].
      assert (shape_ok (with_next s v)) as Hs'.
      { destruct (decide (p' = q)) as [->|Hne]; [by rewrite Hmq in E'; injection E' as ->|]. apply Hm in E' as [_ E']; [|done].
        by eapply H1. }
      apply (shape_ok_next _ (shape_hash_next s)) in Hs'. by destruct s.
    + intros p' s E. apply same_shapes_sym in Hs. destruct (same_shapes_lookup _ _ _ _ Hs E) as [v E']. rewrite Hrf, Ho.
      destruct (decide (p' = q)) as [->|Hne].
      * exists 1. rewrite lookup_insert_eq. split; [done|]. split; [lia|]. split; [|done].
        destruct (Z_le_gt_dec (users (<[o:=mkJSObj q prop']> (objects st)) q) 1) as [|Hgt]; [done|].
        assert (user_set (<[o:=mkJSObj q prop']> (objects st)) q ⊆ {[o]}) as Hsub.
        { intros k Hk. apply elem_of_users in Hk as (y & Hy & Hyq). apply elem_of_singleton.
          destruct (decide (k = o)) as [|Hko]; [done|]. rewrite lookup_insert_ne in Hy by done. by apply Hq in Hy. }
        apply subseteq_size in Hsub. rewrite size_singleton in Hsub. unfold users in *. lia.
      * apply Hm in E' as [Hpp E']; [|done]. rewrite lookup_insert_ne, lookup_delete_ne by done.
        destruct (H2 _ _ E') as (n & En & Hn & Hun & Hh). exists n. split; [done|]. split; [done|]. split; [|done].
        rewrite (users_keep _ _ x); [done|done|]. cbn [o_shape]. split; [congruence|]. by intros ->.
    + intros o' x' E. rewrite Ho in E. destruct (decide (o' = o)) as [->|Hne].
      * rewrite lookup_insert_eq in E. injection E as <-. cbn [o_shape o_prop].
        destruct (same_shapes_lookup _ _ _ _ Hs Hmq) as [v E']. by exists (with_next sh' v).
      * rewrite lookup_insert_ne in E by done. destruct (H3 o' x' E) as (s & Es & Hle).
        rewrite <- (Hm' (o_shape x')) in Es; [|by apply (Hq o')|by apply (Hu o')].
        destruct (same_shapes_lookup _ _ _ _ Hs Es) as [v E']. by exists (with_next s v).
  - intros o' Hne. unfold obj_props. rewrite Ho, lookup_insert_ne by done.
    destruct (objects st !! o') as [x'|] eqn:E; [|done]. destruct (H3 o' x' E) as (s & Es & _). rewrite Es.
    rewrite <- (Hm' (o_shape x')) in Es; [|by apply (Hq o')|by apply (Hu o')].
    destruct (same_shapes_lookup _ _ _ _ Hs Es) as [v ->]. done.
  - unfold obj_props. rewrite Ho, lookup_insert_eq. cbn [o_shape o_prop].
    destruct (same_shapes_lookup _ _ _ _ Hs Hmq) as [v ->]. done.
Qed.
End Inv.
