(* ===== verification/ShapeOps.v ===== *)
(** What the operations on shapes do.

    An object that owns its shape gets, loses and compacts properties in place;
    the shape may move to another address.  References that no object holds are
    taken and given back by the copies and the releases of shapes. *)
From Stdlib Require Import ZArith Lia Bool List.
From stdpp Require Import base tactics list numbers gmap.
From S2P Require Import Prelude Alloc GcObject Shape ShapeChain ShapeTable ShapeInv.

(** * The sizes of the hash tables *)

Lemma pow2_succ k : 0 <= k -> 2 ^ (k + 1) = 2 * 2 ^ k.
Proof. intros H. rewrite Z.pow_add_r by lia. lia. Qed.

Lemma grow_loop fuel new_size : forall k,
  0 <= k <= 31 -> 31 - k < Z.of_nat fuel -> new_size <= 2 ^ 31 ->
  exists k', k <= k' <= 31 /\ new_size <= 2 ^ k' /\
    iter fuel (fun s => if s <? new_size then Ret (inl (u32 (2 * s))) else Ret (inr s)) (2 ^ k) = Ret (2 ^ k').
Proof.
  induction fuel as [|fuel IH]; intros k Hk Hf Hn; [lia|]. rewrite iter_S.
  destruct (Z.ltb_spec (2 ^ k) new_size) as [Hlt|Hge]; cbn [obind]; [|exists k; split; [lia|done]].
  assert (k < 31).
  { destruct (Z_lt_dec k 31); [done|]. replace k with 31 in Hlt by lia. lia. }
  rewrite <- pow2_succ by lia. pose proof (Z.pow_le_mono_r 2 (k + 1) 31 ltac:(lia) ltac:(lia)).
  assert (0 < 2 ^ (k + 1)) by (apply Z.pow_pos_nonneg; lia).
  unfold u32; rewrite Z.mod_small by lia. destruct (IH (k + 1)) as (k' & Hk' & Hle & E); [lia..|done|]. exists k'. split; [lia|done].
Qed.

Lemma grow_hash_size_spec k new_size :
  0 <= k <= 31 -> new_size <= 2 ^ 31 ->
  exists k', k <= k' <= 31 /\ new_size <= 2 ^ k' /\ grow_hash_size (2 ^ k) new_size = Ret (2 ^ k').
Proof. intros Hk Hn. apply grow_loop; [done|lia|done]. Qed.

Lemma shrink_loop fuel new_size : forall k,
  0 <= k <= 31 -> k < Z.of_nat fuel -> 0 < new_size ->
  exists k', 0 <= k' <= k /\
    iter fuel (fun s => if new_size <=? s / 2 then Ret (inl (s / 2)) else Ret (inr s)) (2 ^ k) = Ret (2 ^ k').
Proof.
  induction fuel as [|fuel IH]; intros k Hk Hf Hn; [lia|]. rewrite iter_S.
  destruct (Z.leb_spec new_size (2 ^ k / 2)) as [Hle|Hgt]; cbn [obind]; [|exists k; split; [lia|done]].
  destruct (Z.eq_dec k 0) as [->|Hk0]; [change (2 ^ 0 / 2) with 0 in Hle; lia|].
  assert (2 ^ k / 2 = 2 ^ (k - 1)) as ->.
  { replace (2 ^ k) with (2 ^ (k - 1) * 2); [by apply Z.div_mul|]. replace k with (k - 1 + 1) at 2 by lia.
    rewrite pow2_succ by lia. lia. }
  destruct (IH (k - 1)) as (k' & Hk' & E); [lia..|]. exists k'. split; [lia|done].
Qed.

Lemma shrink_hash_size_spec k new_size :
  0 <= k <= 31 -> 0 < new_size -> exists k', 0 <= k' <= k /\ shrink_hash_size (2 ^ k) new_size = Ret (2 ^ k').
Proof. intros Hk Hn. apply shrink_loop; [done|lia|done]. Qed.

Section Ops.
Context `{AL : Allocator}.
Abbreviation ShapeState := (ShapeState (AL := AL)).
Variable new_ptr : gset Z -> Z.
Variable uninit_prop : nat -> JSProperty.
Variable uninit_shape_prop : nat -> JSShapeProperty.
Hypothesis new_ptr_fresh : forall X, new_ptr X ∉ X.

(** * Blocks *)

Lemma zlen_realloc l n : 0 <= n -> zlen (realloc_props uninit_prop l n) = n.
Proof using.
  intros Hn. unfold realloc_props, zlen. rewrite length_app, length_take, length_map, length_seq. lia.
Qed.

Lemma take_realloc l n m :
  0 <= m <= n -> m <= zlen l -> take (Z.to_nat m) (realloc_props uninit_prop l n) = take (Z.to_nat m) l.
Proof using.
  intros Hm Hl. unfold zlen in Hl. unfold realloc_props. rewrite take_app_le by (rewrite length_take; lia).
  rewrite take_take. f_equal. lia.
Qed.

Lemma zlen_fresh_props a n : 0 <= a <= n -> zlen (fresh_shape_props uninit_shape_prop a n) = n - a.
Proof using. intros H. unfold fresh_shape_props, zlen. rewrite length_map, length_seq. lia. Qed.

Lemma new_ptr_none (m : gmap Z JSShape) : m !! new_ptr (dom m) = None.
Proof using new_ptr_fresh. apply not_elem_of_dom, new_ptr_fresh. Qed.

Lemma get_obj_some (st : ShapeState) o x : objects st !! o = Some x -> get_obj st o = Ret x.
Proof using. unfold get_obj. by intros ->. Qed.

Lemma get_ref_some (st : ShapeState) p n : ref_counts st !! p = Some n -> get_ref st p = Ret n.
Proof using. unfold get_ref. by intros ->. Qed.

(** * Growing the properties *)

(** What stays of a shape when its properties grow. *)
Record same_props_but_size (sh sh' : JSShape) : Prop := {
  sp_hashed : is_hashed sh' = is_hashed sh;
  sp_hash : hash sh' = hash sh;
  sp_proto : proto sh' = proto sh;
  sp_count : prop_count sh' = prop_count sh;
  sp_deleted : deleted_prop_count sh' = deleted_prop_count sh;
  sp_names : names (take (Z.to_nat (prop_count sh)) (shape_prop sh')) = names (take (Z.to_nat (prop_count sh)) (shape_prop sh))
}.

(** [st'] is [st] with the shape [p] moved to [q], where it is [sh'], and the
    properties of its object [o] in [prop']. *)
Record resized (st st' : ShapeState) (o p q : Z) (sh sh' : JSShape) (x : JSObj) (prop' : list JSProperty) : Prop := {
  rz_shapes : shapes st' = <[q := sh']> (delete p (shapes st));
  rz_refs : ref_counts st' = <[q := 1]> (delete p (ref_counts st));
  rz_objects : objects st' = <[o := mkJSObj (o_shape x) prop']> (objects st);
  rz_table : shape_hash st' = shape_hash st /\ shape_hash_bits st' = shape_hash_bits st /\
    shape_hash_size st' = shape_hash_size st;
  rz_fresh : q = p \/ shapes st !! q = None;
  rz_ok : shape_ok sh';
  rz_same : same_props_but_size sh sh';
  rz_size : prop_size sh' <= zlen prop';
  rz_values : take (Z.to_nat (prop_count sh)) prop' = take (Z.to_nat (prop_count sh)) (o_prop x)
}.

Lemma names_take n ps ps' : names ps = names ps' -> names (take n ps) = names (take n ps').
Proof using.
  unfold names. intros H. apply (f_equal (take n)) in H. by rewrite !firstn_map in H.
Qed.

Lemma live_count_names ps ps' : names ps = names ps' -> live_count ps = live_count ps'.
Proof using.
  revert ps'. induction ps as [|p ps IH]; intros [|p' ps'] H; try done. injection H as Ea _ H.
  unfold live_count in *. cbn [List.filter]. specialize (IH ps' H).
  assert (is_live p = is_live p') as -> by (unfold is_live; by rewrite Ea).
  unfold zlen in *. destruct (is_live p'); cbn [length]; lia.
Qed.

(** A new table for the same properties. *)
Lemma shape_ok_grow sh mask size t ps :
  shape_ok sh -> props_wf t mask ps (prop_count sh) -> zlen ps = size -> size < 2 ^ 31 ->
  names (take (Z.to_nat (prop_count sh)) ps) = names (take (Z.to_nat (prop_count sh)) (shape_prop sh)) ->
  let sh' := with_props sh mask size (prop_count sh) (deleted_prop_count sh) t ps in
  shape_ok sh' /\ same_props_but_size sh sh'.
Proof using.
  intros [H1 H2 H3 H4 H5] Hw Hz Hmax Hn. cbv zeta. split; constructor; cbn; try done. rewrite H3. f_equal. symmetry.
  by apply live_count_names.
Qed.

Lemma fresh_copy sh size :
  shape_ok sh -> prop_count sh <= size ->
  let ps := take (Z.to_nat (prop_count sh)) (shape_prop sh) ++ fresh_shape_props uninit_shape_prop (prop_count sh) size in
  zlen ps = size /\ take (Z.to_nat (prop_count sh)) ps = take (Z.to_nat (prop_count sh)) (shape_prop sh).
Proof using.
  intros [[_ _ [Hn _] _] Hz _ _ _] Hs. cbv zeta. unfold zlen in Hn.
  assert (length (take (Z.to_nat (prop_count sh)) (shape_prop sh)) = Z.to_nat (prop_count sh)) as Hlen by (rewrite length_take; lia).
  rewrite zlen_app, zlen_fresh_props by lia. unfold zlen. rewrite Hlen. split; [lia|]. rewrite take_app_le by lia.
  rewrite take_take. f_equal. lia.
Qed.

(** The copy of [resize_properties] with a larger hash table. *)
Lemma rehash_copy sh k size :
  shape_ok sh -> 0 <= k <= 31 -> prop_count sh <= size < 2 ^ 31 ->
  let ps := take (Z.to_nat (prop_count sh)) (shape_prop sh) ++ fresh_shape_props uninit_shape_prop (prop_count sh) size in
  exists t ps', rehash_props (2 ^ k - 1) (prop_count sh) (replicate (Z.to_nat (2 ^ k)) 0) ps = Ret (t, ps') /\
    let sh' := with_props sh (2 ^ k - 1) size (prop_count sh) (deleted_prop_count sh) t ps' in
    shape_ok sh' /\ same_props_but_size sh sh'.
Proof using.
  intros Hok Hk [Hs Hmax]. destruct (fresh_copy sh size Hok Hs) as [Hz Ht]. pose proof Hok as [[_ _ [Hn Hb] _] _ _ _ _]. cbv zeta.
  pose proof (rehash_props_spec k (prop_count sh) _ Hk ltac:(rewrite Hz; lia) Hb) as Hp.
  apply post_inv in Hp as ([t ps'] & -> & Hw & En). exists t, ps'. split; [done|]. apply shape_ok_grow; [done|done| |done|].
  - by rewrite (names_zlen _ _ En).
  - rewrite <- Ht. by apply names_take.
Qed.

(** The copy with the same hash table. *)
Lemma same_hash_copy sh size :
  shape_ok sh -> prop_size sh <= size < 2 ^ 31 ->
  let ps := take (Z.to_nat size) (shape_prop sh) ++ fresh_shape_props uninit_shape_prop (zlen (shape_prop sh)) size in
  let sh' := with_props sh (prop_hash_mask sh) size (prop_count sh) (deleted_prop_count sh) (prop_hash sh) ps in
  shape_ok sh' /\ same_props_but_size sh sh'.
Proof using.
  intros Hok [Hs Hmax]. pose proof Hok as [Hw Hz _ _ _]. cbv zeta. pose proof (pw_count _ _ _ _ Hw) as [Hn _]. set (ps := _ ++ _).
  assert (zlen ps = size) as Hzp.
  { unfold ps. rewrite zlen_app, zlen_fresh_props by lia. unfold zlen in *. rewrite length_take. lia. }
  assert (take (Z.to_nat (prop_count sh)) ps = take (Z.to_nat (prop_count sh)) (shape_prop sh)) as Ht.
  { unfold ps. rewrite take_app_le by (rewrite length_take; unfold zlen in *; lia). rewrite take_take. f_equal. lia. }
  apply shape_ok_grow; [done| |done|done|by rewrite Ht]. apply (props_wf_take _ _ (shape_prop sh)); [done|done|lia].
Qed.

(** A request fails only when the allocator refuses it. *)
Lemma js_malloc_cases (st : ShapeState) n :
  exists h ok, js_malloc st n = (set_heap st h, ok) /\ (ok = false -> n < 2 ^ 63 -> can_refuse).
Proof using.
  unfold js_malloc, alloc. destruct (heap_alloc (s_heap st) n) as [h r] eqn:E. eexists h, _. split; [done|].
  intros Hok Hn. destruct r; [apply Z.ltb_ge in Hok; lia|]. exists n, (s_heap st). unfold refuses. by rewrite E.
Qed.

(** The sizes of the blocks of a shape. *)
Lemma shape_size_fits k size : 0 <= k <= 31 -> size < 2 ^ 31 -> get_shape_size (2 ^ k) size < 2 ^ 63.
Proof using.
  intros Hk Hs. pose proof (Z.pow_le_mono_r 2 k 31 ltac:(lia) ltac:(lia)).
  unfold get_shape_size, sizeof_JSShape, sizeof_JSShapeProperty. lia.
Qed.

Lemma props_size_fits size : size < 2 ^ 31 -> sizeof_JSProperty * size < 2 ^ 63.
Proof using. unfold sizeof_JSProperty. lia. Qed.

Lemma resized_heap (st st' : ShapeState) h o p q sh sh' x prop' :
  resized (set_heap st h) st' o p q sh sh' x prop' -> resized st st' o p q sh sh' x prop'.
Proof using. intros [H1 H2 H3 H4 H5 H6 H7 H8 H9]. by constructor. Qed.

(** Without memory for the shape, which stays. *)
Lemma resized_none (st st' : ShapeState) o p sh x prop' :
  shapes st !! p = Some sh -> ref_counts st !! p = Some 1 -> o_shape x = p -> shape_ok sh ->
  prop_size sh <= zlen prop' -> take (Z.to_nat (prop_count sh)) prop' = take (Z.to_nat (prop_count sh)) (o_prop x) ->
  shapes st' = shapes st -> ref_counts st' = ref_counts st -> objects st' = <[o := mkJSObj p prop']> (objects st) ->
  shape_hash st' = shape_hash st -> shape_hash_bits st' = shape_hash_bits st -> shape_hash_size st' = shape_hash_size st ->
  resized st st' o p p sh sh x prop'.
Proof using.
  intros Hs Hr Hx Hok Hz Ht E1 E2 E3 E4 E5 E6. constructor; rewrite ?Hx; try done.
  - by rewrite insert_delete_id.
  - by rewrite insert_delete_id.
  - by left.
Qed.

(** The new block of the shape [p], after its properties have been copied. *)
Definition resize_block (st : ShapeState) (p n : Z) (sh : JSShape) (size k : Z) : outcome (ShapeState * Z * Z) :=
  if negb (2 ^ k =? prop_hash_mask sh + 1) then
    let '(st, ok) := js_malloc st (get_shape_size (2 ^ k) size) in
    if negb ok then Ret (st, p, -1)
    else
      let st := remove_gc_object st p in
      let ps := take (Z.to_nat (prop_count sh)) (shape_prop sh) ++ fresh_shape_props uninit_shape_prop (prop_count sh) size in
      let* (t, ps) := rehash_props (2 ^ k - 1) (prop_count sh) (replicate (Z.to_nat (2 ^ k)) 0) ps in
      let '(st, q) := new_shape new_ptr st (with_props sh (2 ^ k - 1) size (prop_count sh) (deleted_prop_count sh) t ps) in
      let st := put_ref st q n in
      let st := add_gc_object st q in
      Ret (free_shape_block st p, q, 0)
  else
    let st := remove_gc_object st p in
    let '(st, ok) := js_malloc st (get_shape_size (2 ^ k) size) in
    if negb ok then Ret (add_gc_object st p, p, -1)
    else
      let ps := take (Z.to_nat size) (shape_prop sh) ++ fresh_shape_props uninit_shape_prop (zlen (shape_prop sh)) size in
      let st := free_shape_block st p in
      let '(st, q) := new_shape new_ptr st (with_props sh (prop_hash_mask sh) size (prop_count sh) (deleted_prop_count sh)
                                      (prop_hash sh) ps) in
      let st := put_ref st q n in
      Ret (add_gc_object st q, q, 0).

Lemma resize_block_spec (st : ShapeState) o p sh x size k :
  objects st !! o = Some x -> o_shape x = p -> shapes st !! p = Some sh -> ref_counts st !! p = Some 1 -> shape_ok sh ->
  0 <= k <= 31 -> prop_size sh <= size < 2 ^ 31 -> size = zlen (o_prop x) ->
  exists st' q r sh', resize_block st p 1 sh size k = Ret (st', q, r) /\ resized st st' o p q sh sh' x (o_prop x) /\
    (r = -1 /\ sh' = sh /\ q = p /\ can_refuse \/ r = 0 /\ prop_size sh' = size).
Proof using new_ptr_fresh.
  intros Ho Hx Hs Hr Hok Hk Hsz Hz. unfold resize_block.
  assert (prop_count sh <= size < 2 ^ 31) as Hc by (pose proof Hok as [[_ _ [Hn _] _] Hz' _ _ _]; lia).
  assert (<[o := mkJSObj (o_shape x) (o_prop x)]> (objects st) = objects st) as Hid by (rewrite insert_id; [done|by destruct x]).
  assert (forall st', shapes st' = shapes st -> ref_counts st' = ref_counts st -> objects st' = objects st ->
    shape_hash st' = shape_hash st -> shape_hash_bits st' = shape_hash_bits st -> shape_hash_size st' = shape_hash_size st ->
    resized st st' o p p sh sh x (o_prop x)) as Hfail.
  { intros st' E1 E2 E3 E4 E5 E6. apply resized_none; try done; [lia|]. by rewrite E3, <- Hx. }
  destruct (negb _); cbn [negb].
  - destruct (js_malloc_cases st (get_shape_size (2 ^ k) size)) as (h & ok & -> & Href). destruct ok; cbn [negb].
    2:{ eexists _, p, (-1), sh. split; [done|]. split; [by apply Hfail|left]. specialize (Href eq_refl (shape_size_fits k size Hk (proj2 Hsz))). done. }
    destruct (rehash_copy sh k size Hok Hk Hc) as (t & ps & -> & Hok' & Hsame). cbn [obind].
    eexists _, _, 0, (with_props sh (2 ^ k - 1) size (prop_count sh) (deleted_prop_count sh) t ps). split; [done|]. split; [|by right]. cbv zeta in Hok', Hsame. pose proof (new_ptr_none (shapes st)) as Hf.
    assert (new_ptr (dom (shapes st)) <> p) as Hne by congruence.
    constructor; cbn; try done; [by rewrite delete_insert_ne|by rewrite delete_insert_ne|by right|lia].
  - destruct (js_malloc_cases (remove_gc_object st p) (get_shape_size (2 ^ k) size)) as (h & ok & -> & Href). destruct ok; cbn [negb].
    2:{ eexists _, p, (-1), sh. split; [done|]. split; [by apply Hfail|left]. specialize (Href eq_refl (shape_size_fits k size Hk (proj2 Hsz))). done. }
    destruct (same_hash_copy sh size Hok Hsz) as [Hok' Hsame]. eexists _, _, 0, _. split; [done|]. pose proof (new_ptr_none (delete p (shapes st))) as Hf.
    split; [constructor; cbn; try (exact Hok' || exact Hsame); try done; [|cbn; lia]|by right].
    destruct (decide (new_ptr (dom (delete p (shapes st))) = p)) as [E|Hne]; [by left|right].
    by rewrite lookup_delete_ne in Hf by done.
Qed.

Lemma resize_properties_spec (st : ShapeState) o p sh x :
  objects st !! o = Some x -> o_shape x = p -> shapes st !! p = Some sh -> ref_counts st !! p = Some 1 -> shape_ok sh ->
  prop_size sh <= zlen (o_prop x) -> prop_size sh <= prop_count sh -> prop_count sh + 1 < 2 ^ 26 ->
  exists st' q r sh' prop', resize_properties new_ptr uninit_prop uninit_shape_prop st p (Some o) (prop_count sh + 1) = Ret (st', q, r) /\
    resized st st' o p q sh sh' x prop' /\ (r = -1 /\ sh' = sh /\ q = p /\ can_refuse \/ r = 0 /\ prop_count sh < prop_size sh').
Proof using new_ptr_fresh.
  intros Ho Hx Hs Hr Hok Hz Hf Hn. pose proof Hok as [[(k & Hk & Hm) _ [Hc _] _] Hsz _ _ _].
  unfold resize_properties. rewrite (get_sh_some _ _ _ Hs). cbn [obind].
  assert (i32 (prop_count sh + 1) = prop_count sh + 1) as -> by (unfold i32, u32; rewrite Z.mod_small by lia; by destruct (Z.ltb_spec (prop_count sh + 1) 2147483648); [|lia]).
  set (size := Z.max _ _). assert (prop_count sh < size < 2 ^ 31) as Hsize.
  { unfold size. pose proof (Z.div_le_upper_bound (prop_size sh * 3) 2 (2 ^ 31 - 1)). lia. }
  rewrite (get_obj_some _ _ _ Ho). cbn [obind].
  destruct (js_malloc_cases st (sizeof_JSProperty * size)) as (h & ok & -> & Href). destruct ok; cbn [negb obind].
  2:{ specialize (Href eq_refl (props_size_fits size (proj2 Hsize))).
      eexists _, p, (-1), sh, (o_prop x). split; [done|]. split; [|by left]. apply resized_none; try done.
      cbn. symmetry. apply insert_id. rewrite <- Hx. by destruct x. }
  set (st1 := put_obj _ _ _). rewrite Hm. replace (2 ^ k - 1 + 1) with (2 ^ k) by lia.
  destruct (grow_hash_size_spec k size) as (k' & Hk' & Hle & ->); [done|lia|]. cbn [obind].
  rewrite (get_ref_some st1 p 1) by done. cbn [obind]. set (x1 := mkJSObj (o_shape x) (realloc_props uninit_prop (o_prop x) size)).
  destruct (resize_block_spec st1 o p sh x1 size k') as (st' & q & r & sh' & E & Hres & Hcase); try done; try lia.
  - cbn. by rewrite lookup_insert_eq.
  - cbn. by rewrite zlen_realloc by lia.
  - unfold resize_block in E. rewrite Hm in E. replace (2 ^ k - 1 + 1) with (2 ^ k) in E by lia.
    eexists st', q, r, sh', (o_prop x1). split; [exact E|]. split; [|destruct Hcase as [?|[? ?]]; [by left|right; split; [done|lia]]].
    destruct Hres as [H1 H2 H3 H4 H5 H6 H7 H8 H9]. constructor; try done.
    + rewrite H3. cbn. by rewrite insert_insert_eq.
    + cbn [o_prop x1]. apply take_realloc; lia.
Qed.

(** * Adding a property to a shape *)

Lemma same_shapes_insert m m' q s s' : core s' = core s -> same_shapes m m' -> same_shapes (<[q := s]> m) (<[q := s']> m').
Proof using.
  intros Hc H k. destruct (decide (k = q)) as [->|Hne]; [rewrite !lookup_insert_eq; change (Some (core s') = Some (core s)); congruence|].
  by rewrite !lookup_insert_ne.
Qed.

Lemma same_shapes_delete m m' q : same_shapes m m' -> same_shapes (delete q m) (delete q m').
Proof using.
  intros H k. destruct (decide (k = q)) as [->|Hne]; [by rewrite !lookup_delete_eq|]. by rewrite !lookup_delete_ne.
Qed.

Lemma same_but_table_refl (st : ShapeState) : same_but_table st st.
Proof using. by constructor. Qed.

(** The table without the shape [p]. *)
Lemma unlink_if (st : ShapeState) p sh :
  table_wf st (hashed st) -> shapes st !! p = Some sh -> shape_ok sh ->
  exists st', (if is_hashed sh then js_shape_hash_unlink st p else Ret st) = Ret st' /\ same_but_table st st' /\
    table_wf st' (fun k => hashed st k /\ k <> p).
Proof using.
  intros Ht Hs Hok. destruct (is_hashed sh) eqn:Eh.
  - apply (js_shape_hash_unlink_spec st (hashed st) p sh); [done|done| |by exists sh]. apply (so_hash sh Hok).
  - exists st. split; [done|]. split; [apply same_but_table_refl|]. eapply table_wf_ext; [|exact Ht]. intros k. split; [|by intros [? _]].
    intros Hk. split; [done|]. intros ->. destruct Hk as (s & E & Es). congruence.
Qed.

Lemma link_if (st : ShapeState) T (b : bool) q sh :
  table_wf st T -> shapes st !! q = Some sh -> shape_ok sh -> ~ T q ->
  exists st', (if b then js_shape_hash_link st q else Ret st) = Ret st' /\ same_but_table st st' /\
    table_wf st' (fun k => T k \/ b = true /\ k = q).
Proof using.
  intros Ht Hs Hok Hn. destruct b.
  - destruct (js_shape_hash_link_spec st T q sh Ht Hs (so_hash _ Hok) Hn) as (st' & E & Hsame & Hw).
    exists st'. split; [done|]. split; [done|]. eapply table_wf_ext; [|exact Hw]. intros k. cbn. tauto.
  - exists st. split; [done|]. split; [apply same_but_table_refl|]. eapply table_wf_ext; [|exact Ht]. intros k. cbn.
    split; [by left|]. by intros [?|[? _]].
Qed.

(** Shapes that are not in the table may change. *)
Lemma table_wf_put (st : ShapeState) T q sh : table_wf st T -> ~ T q -> table_wf (put_sh st q sh) T.
Proof using.
  intros Ht Hn. eapply table_wf_frame; [..|exact Ht]; try done.
  - intros k s Hk E. exists s. cbn. rewrite lookup_insert_ne; [done|]. by intros ->.
  - intros k s Hk E. cbn in E. rewrite lookup_insert_ne in E; [by exists s|]. by intros ->.
Qed.

Lemma table_wf_put_same (st : ShapeState) T q sh sh' :
  table_wf st T -> shapes st !! q = Some sh -> hash sh' = hash sh -> shape_hash_next sh' = shape_hash_next sh ->
  table_wf (put_sh st q sh') T.
Proof using.
  intros Ht Hs Eh En. eapply table_wf_frame; [..|exact Ht]; try done.
  - intros k s Hk E. cbn. destruct (decide (q = k)) as [<-|Hne].
    + exists sh'. rewrite lookup_insert_eq. split; [done|]. by replace s with sh by congruence.
    + exists s. by rewrite lookup_insert_ne.
  - intros k s Hk E. cbn in E. destruct (decide (q = k)) as [<-|Hne]; [by exists sh|].
    rewrite lookup_insert_ne in E by done. by exists s.
Qed.

(** A shape of the table stays when another one is moved. *)
Lemma resized_table (st st' : ShapeState) T o p q sh sh' x prop' :
  resized st st' o p q sh sh' x prop' -> (forall k, T k -> is_Some (shapes st !! k)) -> ~ T p -> table_wf st T ->
  table_wf st' T /\ ~ T q.
Proof using.
  intros [Hs _ _ (Et & Eb & Es) Hf _ _ _ _] Hd Hn Ht.
  assert (~ T q) as Hq.
  { destruct Hf as [->|Hf]; [done|]. intros Hq. destruct (Hd q Hq) as [s E]. congruence. }
  split; [|done]. eapply table_wf_frame; [exact Et|exact Eb|exact Es|..|exact Ht].
  - intros k s Hk E. exists s. rewrite Hs, lookup_insert_ne, lookup_delete_ne; [done|by intros ->|by intros ->].
  - intros k s Hk E. by apply Hd.
Qed.

(** The hashed shapes after the update of a shape. *)
Lemma hashed_update (st st' : ShapeState) o p q sh' prop' k :
  update st st' o p q sh' prop' ->
  hashed st' k <-> (hashed st k /\ k <> p) \/ (is_hashed sh' = true /\ k = q).
Proof using.
  intros [Hs _ _ Hf]. rewrite (hashed_same (set_shapes st (<[q := sh']> (delete p (shapes st)))) st' k Hs).
  unfold hashed. cbn. destruct (decide (k = q)) as [->|Hne].
  - rewrite lookup_insert_eq. split.
    + intros (s & [= <-] & Eh). by right.
    + intros [[(s & E & _) Hp]|[Eh _]]; [destruct Hf; congruence|by exists sh'].
  - rewrite lookup_insert_ne by done. destruct (decide (k = p)) as [->|Hp].
    + rewrite lookup_delete_eq. split; [by intros (s & ? & _)|]. intros [[_ Hk]|[_ Hk]]; done.
    + rewrite lookup_delete_ne by done. split; [by left|]. intros [[Hk _]|[_ Hk]]; done.
Qed.
End Ops.
