(* ===== verification/ShapeAdd.v ===== *)
(** Adding properties to objects.

    The shape of an object that gets a property is found in the table of the
    shapes, or it is the shape of the object, changed in place, or a copy of it.
    In every case the object has one more property at the end, the other objects
    keep theirs, and the invariant holds. *)
From Stdlib Require Import ZArith Lia Bool List.
From stdpp Require Import base tactics list numbers gmap.
From S2P Require Import Prelude Alloc GcObject Shape ShapeChain ShapeTable ShapeInv ShapeOps.

Section Add.
Context `{AL : Allocator}.
Abbreviation ShapeState := (ShapeState (AL := AL)).
Variable new_ptr : gset Z -> Z.
Variable uninit_prop : nat -> JSProperty.
Variable uninit_shape_prop : nat -> JSShapeProperty.
Hypothesis new_ptr_fresh : forall X, new_ptr X ∉ X.

(** The properties of a shape, with the values [vs]. *)
Definition shape_props (sh : JSShape) (vs : list JSProperty) : list (Z * Z * JSProperty) :=
  props_of (take (Z.to_nat (prop_count sh)) (shape_prop sh)) vs.

Lemma shape_props_same sh sh' vs vs' :
  same_props_but_size sh sh' -> shape_ok sh -> take (Z.to_nat (prop_count sh)) vs' = take (Z.to_nat (prop_count sh)) vs ->
  shape_props sh' vs' = shape_props sh vs.
Proof using.
  intros [_ _ _ Hc _ Hn] [[_ _ [Hk _] _] _ _ _ _] Ht. unfold shape_props. rewrite Hc, (props_of_names _ _ _ Hn).
  apply props_of_take. unfold zlen in Hk. by rewrite length_take, Nat.min_l by lia.
Qed.

(** Space for one more property. *)
Lemma ensure_room (st : ShapeState) o p sh x :
  objects st !! o = Some x -> o_shape x = p -> shapes st !! p = Some sh -> ref_counts st !! p = Some 1 -> shape_ok sh ->
  prop_size sh <= zlen (o_prop x) -> prop_count sh + 1 < 2 ^ 26 ->
  exists st' q r sh' prop',
    (if prop_size sh <=? prop_count sh
     then resize_properties new_ptr uninit_prop uninit_shape_prop st p (Some o) (prop_count sh + 1)
     else Ret (st, p, 0)) = Ret (st', q, r) /\
    resized st st' o p q sh sh' x prop' /\ (r = -1 /\ sh' = sh /\ q = p /\ can_refuse \/ r = 0 /\ prop_count sh < prop_size sh').
Proof using new_ptr_fresh.
  intros Ho Hx Hs Hr Hok Hz Hn. destruct (Z.leb_spec (prop_size sh) (prop_count sh)) as [Hle|Hgt].
  - by apply resize_properties_spec.
  - exists st, p, 0, sh, (o_prop x). split; [done|]. split; [|by right]. apply resized_none; try done.
    symmetry. apply insert_id. rewrite <- Hx. by destruct x.
Qed.

(** The new property in the hash table and the properties of a shape. *)
Lemma insert_shape_prop sh a fl vs :
  shape_ok sh -> prop_count sh < prop_size sh -> prop_size sh <= zlen vs -> prop_count sh + 1 < 2 ^ 26 -> a <> JS_ATOM_NULL ->
  exists t next v, hash_insert (prop_hash sh) (prop_hash_mask sh) a (prop_count sh + 1) = Ret (t, next) /\
    let ps := <[Z.to_nat (prop_count sh) := mkJSShapeProperty (next mod 2 ^ 26) fl a]> (shape_prop sh) in
    let sh' := with_props sh (prop_hash_mask sh) (prop_size sh) (prop_count sh + 1) (deleted_prop_count sh) t ps in
    shape_ok sh' /\ shape_props sh' vs = shape_props sh vs ++ [(a, fl, v)] /\ at_ vs (prop_count sh) v.
Proof using.
  intros [Hw Hz Hd Hh Hmax] Hc Hv Hn Ha. pose proof (pw_count _ _ _ _ Hw) as [Hc0 _].
  destruct (hash_insert_spec _ _ _ _ a fl Hw) as (t & next & E & Hw'); [lia|lia|done|].
  destruct (at_exists vs (prop_count sh)) as [v [_ Hvat]]; [lia|]. exists t, next, v. split; [done|]. cbv zeta.
  set (pr := mkJSShapeProperty _ _ _) in *. set (ps := <[_ := _]> _) in *.
  assert (take (Z.to_nat (prop_count sh + 1)) ps = take (Z.to_nat (prop_count sh)) (shape_prop sh) ++ [pr]) as Ht.
  { rewrite (take_snoc ps (prop_count sh) pr) by (apply at_insert_eq; lia). unfold ps. by rewrite take_insert_ge by lia. }
  assert (is_live pr = true) as Hl by (unfold is_live; cbn; by destruct (Z.eqb_spec a JS_ATOM_NULL)).
  split.
  - constructor; cbn [prop_hash prop_hash_mask shape_prop prop_count prop_size deleted_prop_count hash with_props]; try done.
    + unfold ps. by rewrite zlen_insert.
    + rewrite Ht, live_count_app. unfold live_count at 2. cbn [List.filter]. rewrite Hl, zlen_1. lia.
  - unfold shape_props. cbn [prop_count shape_prop with_props]. rewrite Ht, (props_of_snoc _ pr _ v), Hl.
    + split; [done|]. split; [lia|done].
    + rewrite length_take. unfold zlen in *. by rewrite Nat.min_l by lia.
Qed.

Lemma shape_hash_fn_range h v : 0 <= shape_hash_fn h v < 2 ^ 32.
Proof using. unfold shape_hash_fn, u32_mul, u32. apply Z.mod_pos_bound. lia. Qed.

Lemma shape_ok_rehash sh b h : shape_ok sh -> 0 <= h < 2 ^ 32 -> shape_ok (with_hash sh b h).
Proof using. intros [H1 H2 H3 H4 H5] Hh. by constructor. Qed.

Lemma shape_ok_index sh b : shape_ok sh -> shape_ok (with_small_index sh b).
Proof using. intros [H1 H2 H3 H4 H5]. by constructor. Qed.

(** The shape is put in the table again with its new hash. *)
Lemma relink (st : ShapeState) T q sh b h :
  table_wf st T -> ~ T q -> shapes st !! q = Some sh -> shape_ok sh -> is_hashed sh = b -> 0 <= h < 2 ^ 32 ->
  exists st' sh', (if b then js_shape_hash_link (put_sh st q (with_hash sh true h)) q else Ret st) = Ret st' /\
    shapes st' !! q = Some sh' /\ core sh' = core (if b then with_hash sh true h else sh) /\
    same_shapes (<[q := sh']> (shapes st)) (shapes st') /\ ref_counts st' = ref_counts st /\ objects st' = objects st /\
    table_wf st' (fun k => T k \/ b = true /\ k = q).
Proof using.
  intros Ht Hn Hs Hok Hb Hh. destruct b.
  - set (sh1 := with_hash sh true h). assert (shapes (put_sh st q sh1) !! q = Some sh1) as Hq by apply lookup_insert_eq.
    destruct (link_if (put_sh st q sh1) T true q sh1) as (st' & E & [_ Hr _ Ho _ _ Hsame] & Ht');
      [by apply table_wf_put|done|by apply shape_ok_rehash|done|].
    destruct (same_shapes_lookup _ _ _ _ Hsame Hq) as [v E']. exists st', (with_next sh1 v). split; [exact E|].
    split; [done|]. split; [done|]. split; [|done]. eapply same_shapes_trans; [|exact Hsame].
    by apply same_shapes_insert.
  - exists st, sh. split; [done|]. split; [done|]. split; [done|]. split; [by rewrite insert_id|].
    split; [done|]. split; [done|]. eapply table_wf_ext; [|exact Ht]. intros k. cbn. split; [by left|]. by intros [?|[? _]].
Qed.

Lemma core_eq sh sh' : core sh' = core sh -> sh' = with_next sh (shape_hash_next sh').
Proof using. destruct sh, sh'. unfold core, with_next. cbn. intros. congruence. Qed.

Lemma table_wf_call (st : ShapeState) c T : table_wf st T -> table_wf (add_call st c) T.
Proof using. intros [H1 H2]. by constructor. Qed.

Lemma append_property_spec (st : ShapeState) T q sh h a fl vs :
  table_wf st T -> ~ T q -> shapes st !! q = Some sh -> shape_ok sh -> 0 <= h < 2 ^ 32 ->
  prop_count sh < prop_size sh -> prop_size sh <= zlen vs -> prop_count sh + 1 < 2 ^ 26 -> a <> JS_ATOM_NULL ->
  exists st' sh' v, append_property st q (is_hashed sh) h a fl = Ret st' /\
    same_shapes (<[q := sh']> (shapes st)) (shapes st') /\ ref_counts st' = ref_counts st /\ objects st' = objects st /\
    table_wf st' (fun k => T k \/ is_hashed sh = true /\ k = q) /\ shape_ok sh' /\ is_hashed sh' = is_hashed sh /\
    prop_size sh' = prop_size sh /\ prop_count sh' = prop_count sh + 1 /\
    shape_props sh' vs = shape_props sh vs ++ [(a, fl mod 2 ^ 6, v)] /\ at_ vs (prop_count sh) v /\
    shapes st' !! q = Some sh'.
Proof using.
  intros Ht Hn Hs Hok Hh Hc Hv Hn1 Ha. unfold append_property. rewrite (get_sh_some _ _ _ Hs). cbn [obind].
  destruct (relink st T q sh (is_hashed sh) h Ht Hn Hs Hok eq_refl Hh) as (st1 & sh1 & -> & Hs1 & Hcore & Hsame & Hr & Ho & Ht1).
  cbn [obind]. rewrite (get_sh_some _ _ _ Hs1). cbn [obind].
  assert (exists s0, sh1 = with_next s0 (shape_hash_next sh1) /\ shape_ok s0 /\ is_hashed s0 = is_hashed sh /\
    prop_count s0 = prop_count sh /\ prop_size s0 = prop_size sh /\ forall vs, shape_props s0 vs = shape_props sh vs) as Hsh1.
  { apply core_eq in Hcore. eexists. split; [exact Hcore|]. destruct (is_hashed sh) eqn:Eb; (split; [|done]); [by apply shape_ok_rehash|done]. }
  destruct Hsh1 as (s0 & E1 & Hok0 & Eh0 & Ec0 & Ez0 & Ep0).
  assert (shape_ok sh1) as Hok1 by (rewrite E1; by apply shape_ok_next).
  assert (prop_count sh1 = prop_count sh) as Ec1 by (by rewrite E1).
  assert (prop_size sh1 = prop_size sh) as Ez1 by (by rewrite E1).
  assert (is_hashed sh1 = is_hashed sh) as Eh1 by (by rewrite E1).
  destruct (insert_shape_prop sh1 a (fl mod 2 ^ 6) vs Hok1) as (t & next & v & -> & Hok' & Hp' & Hat); [lia|lia|lia|done|].
  cbn [obind]. pose proof Hok1 as [[_ _ [Hc0 _] _] Hz1 _ _ _]. rewrite wr_in by lia. cbn [obind]. cbv zeta in Hok', Hp'.
  set (sh2 := with_props _ _ _ _ _ _ _) in *. eexists _, (with_small_index sh2 (has_small_array_index sh2 || __JS_AtomIsTaggedInt a)), v.
  split; [done|]. split; [|split; [done|split; [done|split; [|split; [by apply shape_ok_index|]]]]].
  - cbn [shapes put_sh set_shapes add_call]. rewrite <- (insert_insert_eq (shapes st) q _ sh1). by apply same_shapes_insert.
  - apply (table_wf_put_same (add_call st1 _) _ _ sh1); [by apply table_wf_call|done..].
  - split; [done|]. split; [done|]. split; [by rewrite <- Ec1|]. split; [|split; [by rewrite <- Ec1|by apply lookup_insert_eq]].
    assert (shape_props sh vs = shape_props sh1 vs) as -> by (rewrite <- Ep0, E1; done). exact Hp'.
Qed.

(** * Adding a property to an object *)

(** The object [o] gets the property [a] in the position [r] or, when a request
    for memory is refused, nothing changes for the program. *)
Definition added (st st' : ShapeState) (o a fl : Z) (r : option Z) : Prop :=
  shapes_wf st' /\ (forall o', o' <> o -> obj_props st' o' = obj_props st o') /\
  match r with
  | None => obj_props st' o = obj_props st o /\ can_refuse
  | Some i => exists l v x', obj_props st o = Some l /\ obj_props st' o = Some (l ++ [(a, fl mod 2 ^ 6, v)]) /\
      objects st' !! o = Some x' /\ at_ (o_prop x') i v
  end.

Lemma obj_props_shape (st : ShapeState) o x sh :
  objects st !! o = Some x -> shapes st !! (o_shape x) = Some sh -> obj_props st o = Some (shape_props sh (o_prop x)).
Proof using. unfold obj_props. by intros -> ->. Qed.

(** The update that a resized shape and its new link make. *)
Lemma resized_update (st st0 st1 st2 : ShapeState) o p q v sh sh1 sh2 x prop' :
  same_but_table st st0 -> shapes st !! p = Some sh -> resized st0 st1 o p q (with_next sh v) sh1 x prop' ->
  same_shapes (<[q := sh2]> (shapes st1)) (shapes st2) -> ref_counts st2 = ref_counts st1 -> objects st2 = objects st1 ->
  update st (put_obj st2 o (mkJSObj q prop')) o p q sh2 prop'.
Proof using.
  intros [_ Hr0 _ Ho0 _ _ Hs0] Hs [Hs1 Hr1 Ho1 _ Hf _ _ _ _] Hs2 Hr2 Ho2. constructor; cbn.
  - eapply same_shapes_trans; [|exact Hs2]. rewrite Hs1, insert_insert_eq. by apply same_shapes_insert, same_shapes_delete.
  - by rewrite Hr2, Hr1, Hr0.
  - by rewrite Ho2, Ho1, insert_insert_eq, Ho0.
  - destruct Hf as [->|Hf]; [by left|right]. specialize (Hs0 q). rewrite Hf in Hs0. by destruct (shapes st !! q).
Qed.

(** The end of every case: the update, and the table it leaves. *)
Lemma update_shapes_wf (st st2 : ShapeState) o x p q sh' prop' :
  shapes_wf st -> objects st !! o = Some x -> o_shape x = p -> ref_counts st !! p = Some 1 ->
  update st (put_obj st2 o (mkJSObj q prop')) o p q sh' prop' -> shape_ok sh' -> prop_size sh' <= zlen prop' ->
  table_wf st2 (fun k => (hashed st k /\ k <> p) \/ is_hashed sh' = true /\ k = q) ->
  let st' := put_obj st2 o (mkJSObj q prop') in
  shapes_wf st' /\ (forall o', o' <> o -> obj_props st' o' = obj_props st o') /\ obj_props st' o = Some (shape_props sh' prop').
Proof using.
  intros [Hb Ht] Ho Hx Hr Hu Hok Hz Ht2. destruct (update_wf _ _ _ _ _ _ _ _ Hb Ho Hx Hr Hu Hok Hz) as (Hb' & Hoth & Hown).
  cbv zeta. split; [|done]. constructor; [done|]. eapply table_wf_ext; [intros k; symmetry; by apply (hashed_update st _ o p q sh' prop')|].
  destruct Ht2 as [H1 H2]. by constructor.
Qed.

(** The shape out of the table, with space for one more property. *)
Record roomy (st st1 : ShapeState) (o p q : Z) (sh sh1 : JSShape) (x : JSObj) (prop' : list JSProperty) : Prop := {
  ry_shape : shapes st1 !! q = Some sh1;
  ry_object : objects st1 !! o = Some (mkJSObj (o_shape x) prop');
  ry_ok : shape_ok sh1;
  ry_size : prop_size sh1 <= zlen prop';
  ry_hashed : is_hashed sh1 = is_hashed sh;
  ry_count : prop_count sh1 = prop_count sh;
  ry_props : shape_props sh1 prop' = shape_props sh (o_prop x);
  ry_table : table_wf st1 (fun k => hashed st k /\ k <> p);
  ry_out : ~ (hashed st q /\ q <> p);
  ry_update : forall st2 sh2, same_shapes (<[q := sh2]> (shapes st1)) (shapes st2) -> ref_counts st2 = ref_counts st1 ->
    objects st2 = objects st1 -> update st (put_obj st2 o (mkJSObj q prop')) o p q sh2 prop'
}.

Lemma own_room (st : ShapeState) o p sh x :
  shapes_wf st -> objects st !! o = Some x -> o_shape x = p -> shapes st !! p = Some sh -> ref_counts st !! p = Some 1 ->
  prop_count sh + 1 < 2 ^ 26 ->
  exists st0 st1 q r sh1 prop', (if is_hashed sh then js_shape_hash_unlink st p else Ret st) = Ret st0 /\
    (if prop_size sh <=? prop_count sh
     then resize_properties new_ptr uninit_prop uninit_shape_prop st0 p (Some o) (prop_count sh + 1)
     else Ret (st0, p, 0)) = Ret (st1, q, r) /\
    roomy st st1 o p q sh sh1 x prop' /\ (r = -1 /\ q = p /\ can_refuse \/ r = 0 /\ prop_count sh1 < prop_size sh1).
Proof using new_ptr_fresh.
  intros Hwf Ho Hx Hs Hr Hn. pose proof Hwf as [Hb _]. pose proof (bw_shape _ Hb _ _ Hs) as Hok.
  destruct (bw_obj _ Hb o x Ho) as (sh' & Es' & Hz). rewrite Hx, Hs in Es'. injection Es' as <-.
  destruct (unlink_if st p sh (sw_table _ Hwf) Hs Hok) as (st0 & E0 & Hsb & Ht0). pose proof Hsb as [_ Hr0 _ Ho0 _ _ Hs0].
  destruct (same_shapes_lookup _ _ _ _ Hs0 Hs) as [v0 Hp0]. set (sh0 := with_next sh v0) in *.
  destruct (ensure_room st0 o p sh0 x) as (st1 & q & r & sh1 & prop' & E1 & Hres & Hcase); rewrite ?Ho0, ?Hr0; try done;
    [by apply shape_ok_next|].
  destruct (resized_table _ _ (fun k => hashed st k /\ k <> p) _ _ _ _ _ _ _ Hres) as [Ht1 Hnq]; [|tauto|done|].
  { intros k [(s & E & _) _]. destruct (same_shapes_lookup _ _ _ _ Hs0 E) as [w E']. by exists (with_next s w). }
  exists st0, st1, q, r, sh1, prop'. split; [done|]. split; [exact E1|]. pose proof Hres as [H1 H2 H3 H4 H5 H6 H7 H8 H9].
  assert (prop_count sh1 = prop_count sh) as Ec1 by apply (sp_count _ _ H7).
  split; [|destruct Hcase as [(? & _ & ? & ?)|[? Hlt]]; [by left|right; split; [done|by rewrite Ec1]]].
  constructor; try done.
  - rewrite H1. apply lookup_insert_eq.
  - rewrite H3. apply lookup_insert_eq.
  - apply (sp_hashed _ _ H7).
  - apply shape_props_same; [by destruct H7; constructor|done|done].
  - intros st2 sh2 Hs2 Hr2 Ho2. by eapply resized_update.
Qed.

Lemma add_to_own_shape_spec (st : ShapeState) o p sh x a fl :
  shapes_wf st -> objects st !! o = Some x -> o_shape x = p -> shapes st !! p = Some sh -> ref_counts st !! p = Some 1 ->
  prop_count sh + 1 < 2 ^ 26 -> a <> JS_ATOM_NULL ->
  exists st' r, add_to_own_shape new_ptr uninit_prop uninit_shape_prop st o p a fl = Ret (st', r) /\ added st st' o a fl r.
Proof using new_ptr_fresh.
  intros Hwf Ho Hx Hs Hr Hn Ha. unfold add_to_own_shape. rewrite (get_ref_some _ _ _ Hr). cbn [obind c_assert Z.eqb Pos.eqb].
  unfold add_shape_property. rewrite (get_sh_some _ _ _ Hs). cbn [obind].
  destruct (own_room st o p sh x Hwf Ho Hx Hs Hr Hn) as (st0 & st1 & q & r & sh1 & prop' & -> & E1 & Hroom & Hcase).
  cbn [obind]. rewrite E1. cbn [obind]. clear E1. destruct Hroom as [Hq1 Ho1 Hok1 Hz1 Eh1 Ec1 Ep1 Ht1 Hnq Hup].
  assert (obj_props st o = Some (shape_props sh (o_prop x))) as Eo by (apply obj_props_shape; [done|by rewrite Hx]).
  rewrite <- Eh1. destruct Hcase as [(-> & -> & Href)|[-> Hroom]]; cbn [Z.eqb negb obind].
  - destruct (link_if st1 _ (is_hashed sh1) p sh1 Ht1 Hq1 Hok1 Hnq) as (st2 & -> & [_ Hr2 _ Ho2 _ _ Hs2] & Ht2).
    cbn [obind]. rewrite (get_obj_some st2 o (mkJSObj (o_shape x) prop')) by (by rewrite Ho2). cbn [obind negb o_prop].
    eexists _, None. split; [done|].
    assert (update st (put_obj st2 o (mkJSObj p prop')) o p p sh1 prop') as Hu by (apply Hup; [by rewrite insert_id|done|done]).
    destruct (update_shapes_wf _ _ _ _ _ _ _ _ Hwf Ho Hx Hr Hu Hok1 Hz1 Ht2) as (H1 & H2 & H3).
    split; [done|]. split; [done|]. split; [by rewrite H3, Ep1|done].
  - destruct (append_property_spec st1 _ q sh1 (shape_hash_fn (shape_hash_fn (hash sh) a) (u32 fl)) a fl prop' Ht1 Hnq Hq1 Hok1)
      as (st2 & sh2 & v & -> & Hs2 & Hr2 & Ho2 & Ht2 & Hok2 & Eh2 & Ez2 & Ec2 & Ep2 & Hat & Hq2);
      [apply shape_hash_fn_range|lia|done|lia|done|].
    cbn [obind]. rewrite (get_obj_some st2 o (mkJSObj (o_shape x) prop')) by (by rewrite Ho2). cbn [obind negb o_prop].
    rewrite (get_sh_some (put_obj st2 o _) q sh2 Hq2). cbn [obind]. eexists _, _. split; [done|].
    rewrite <- Eh2 in Ht2. rewrite <- Ez2 in Hz1.
    destruct (update_shapes_wf _ _ _ _ _ _ _ _ Hwf Ho Hx Hr (Hup st2 sh2 Hs2 Hr2 Ho2) Hok2 Hz1 Ht2) as (H1 & H2 & H3).
    split; [done|]. split; [done|]. exists (shape_props sh (o_prop x)), v, (mkJSObj q prop'). split; [done|].
    split; [by rewrite H3, Ep2, Ep1|]. split; [apply lookup_insert_eq|]. cbn [o_prop].
    by replace (prop_count sh2 - 1) with (prop_count sh1) by lia.
Qed.
End Add.
