(* ===== verification/ShapeRefs.v ===== *)
(** References to shapes.

    Objects move between shapes; a reference that no object holds is taken for a
    copy or for a shape found in the table, and given back.  The search in the
    table of the shapes finds only a shape with the wanted properties. *)
From Stdlib Require Import ZArith Lia Bool List.
From stdpp Require Import base tactics list numbers gmap.
From S2P Require Import Prelude Alloc GcObject Shape ShapeChain ShapeTable ShapeInv ShapeOps ShapeAdd.

Section Refs.
Context `{AL : Allocator}.
Abbreviation ShapeState := (ShapeState (AL := AL)).
Variable new_ptr : gset Z -> Z.
Hypothesis new_ptr_fresh : forall X, new_ptr X ∉ X.

(** * References *)

Lemma shapes_wf_ext (st st' : ShapeState) :
  shapes st' = shapes st -> ref_counts st' = ref_counts st -> objects st' = objects st -> shape_hash st' = shape_hash st ->
  shape_hash_bits st' = shape_hash_bits st -> shape_hash_size st' = shape_hash_size st -> shapes_wf st -> shapes_wf st'.
Proof using.
  intros E1 E2 E3 E4 E5 E6 [[H1 H2 H3] Ht]. constructor.
  - constructor; rewrite ?E1, ?E2, ?E3; done.
  - eapply table_wf_ext; [|eapply table_wf_frame; [exact E4|exact E5|exact E6|..|exact Ht]].
    + intros k. unfold hashed. by rewrite E1.
    + intros k s _ E. exists s. by rewrite E1.
    + intros k s _ E. exists s. by rewrite <- E1.
Qed.

(** One more reference, or one that no object holds less. *)
Lemma put_ref_wf (st : ShapeState) p sh n :
  shapes_wf st -> shapes st !! p = Some sh -> 0 < n -> users (objects st) p <= n -> (is_hashed sh = false -> n = 1) ->
  shapes_wf (put_ref st p n).
Proof using.
  intros [[H1 H2 H3] Ht] Hs Hn Hu Hh. constructor; [constructor; cbn; try done|].
  - intros k s E. destruct (decide (k = p)) as [->|Hne].
    + exists n. rewrite lookup_insert_eq. split; [done|]. split; [done|]. split; [done|]. by replace s with sh by congruence.
    + rewrite lookup_insert_ne by done. by apply H2.
  - destruct Ht as [Ht1 Ht2]. by constructor.
Qed.

(** An object moves from its shape to another one. *)
Lemma move_wf (st : ShapeState) o x p q sq n prop' :
  shapes_wf st -> objects st !! o = Some x -> o_shape x = p -> p <> q -> shapes st !! q = Some sq ->
  ref_counts st !! q = Some n -> users (objects st) q + 1 <= n -> prop_size sq <= zlen prop' ->
  let st' := put_obj st o (mkJSObj q prop') in
  shapes_wf st' /\ (forall o', o' <> o -> obj_props st' o' = obj_props st o') /\
  obj_props st' o = Some (shape_props sq prop') /\ users (objects st') p = users (objects st) p - 1.
Proof using.
  intros [[H1 H2 H3] Ht] Ho Hx Hpq Hs Hr Hu Hz. cbv zeta. split; [|split; [|split]].
  - constructor; [constructor; cbn; try done|by destruct Ht; constructor].
    + intros k s E. destruct (H2 k s E) as (m & Em & Hm & Hum & Hh). exists m. split; [done|]. split; [done|]. split; [|done].
      destruct (decide (k = q)) as [->|Hkq].
      * rewrite (users_enter _ _ (mkJSObj q prop')); [|intros y Hy; congruence|done]. replace m with n by congruence. done.
      * destruct (decide (k = p)) as [->|Hkp].
        -- rewrite (users_leave _ _ x (mkJSObj q prop')); [lia|done|done|done].
        -- rewrite (users_keep _ _ x); [done|done|]. cbn. split; congruence.
    + intros o' x' E. destruct (decide (o' = o)) as [->|Hne].
      * rewrite lookup_insert_eq in E. injection E as <-. by exists sq.
      * rewrite lookup_insert_ne in E by done. by apply (H3 o').
  - intros o' Hne. unfold obj_props. cbn. by rewrite lookup_insert_ne.
  - by rewrite (obj_props_shape _ o (mkJSObj q prop') sq) by (done || apply lookup_insert_eq).
  - cbn. by apply (users_leave _ _ x); [done|done|].
Qed.

Definition with_calls (st : ShapeState) (c : list call) : ShapeState :=
  mkShapeState (s_heap st) (shapes st) (ref_counts st) (shape_list st) (shape_hash_bits st) (shape_hash_size st)
    (shape_hash_count st) (shape_hash st) (objects st) c.

Lemma ofold_calls (st : ShapeState) ps n (f : JSShapeProperty -> call) :
  n <= zlen ps ->
  exists c, ofold (fun st i => let* pr := rd ps i in Ret (add_call st (f pr))) st (seqZ 0 n) = Ret (with_calls st c).
Proof using.
  intros Hn. assert (post (ofold (fun st i => let* pr := rd ps i in Ret (add_call st (f pr))) st (seqZ 0 n))
    (fun st' => exists c, st' = with_calls st c)) as H.
  { apply (post_ofold _ (fun _ st' => exists c, st' = with_calls st c)); [|exists (calls st); by destruct st].
    intros l1 i l2 st' E [c ->]. apply seqZ_mid in E as [_ Hi]. destruct (at_exists ps i) as [pr Hpr]; [lia|].
    rewrite (rd_at _ _ _ Hpr). apply post_ret. by eexists. }
  apply post_inv in H as (st' & E & c & ->). by exists c.
Qed.

Lemma js_dup_shape_eq (st : ShapeState) p n : ref_counts st !! p = Some n -> js_dup_shape st p = Ret (put_ref st p (n + 1)).
Proof using. intros E. unfold js_dup_shape. by rewrite (get_ref_some _ _ _ E). Qed.

Lemma js_free_shape_shared (st : ShapeState) p n :
  ref_counts st !! p = Some n -> 2 <= n -> js_free_shape st p = Ret (put_ref st p (n - 1)).
Proof using.
  intros E Hn. unfold js_free_shape. rewrite (get_ref_some _ _ _ E). cbn [obind]. by destruct (Z.leb_spec (n - 1) 0); [lia|].
Qed.

(** The last reference: the shape leaves the table and its block is freed. *)
Lemma js_free_shape_last (st : ShapeState) p sh :
  shapes_wf st -> shapes st !! p = Some sh -> ref_counts st !! p = Some 1 ->
  exists st', js_free_shape st p = Ret st' /\ objects st' = objects st /\ ref_counts st' = delete p (ref_counts st) /\
    same_shapes (delete p (shapes st)) (shapes st') /\ table_wf st' (fun k => hashed st k /\ k <> p).
Proof using.
  intros [Hb Ht] Hs Hr. unfold js_free_shape. rewrite (get_ref_some _ _ _ Hr). cbn [obind]. change (1 - 1) with 0.
  cbn [Z.leb Z.compare]. unfold js_free_shape0. rewrite (get_ref_some (put_ref st p 0) p 0) by apply lookup_insert_eq.
  cbn [obind c_assert Z.eqb]. rewrite (get_sh_some (put_ref st p 0) p sh Hs). cbn [obind].
  pose proof (bw_shape _ Hb _ _ Hs) as Hok.
  destruct (unlink_if (put_ref st p 0) p sh) as (st1 & -> & [Hh1 Hr1 Hl1 Ho1 Hc1 Hb1 Hs1] & Ht1); [by destruct Ht; constructor|done|done|].
  cbn [obind]. set (st2 := match proto sh with Some _ => _ | None => _ end).
  assert (exists c, st2 = with_calls st1 c) as [c2 ->].
  { unfold st2. destruct (proto sh); [by eexists|]. exists (calls st1). by destruct st1. }
  destruct (ofold_calls (with_calls st1 c2) (shape_prop sh) (prop_count sh) (fun pr => JS_FreeAtom (atom pr))) as [c ->].
  { destruct Hok as [[_ _ [? _] _] _ _ _]. lia. }
  cbn [obind]. eexists. split; [done|]. split; [done|]. split; [cbn; by rewrite Hr1; cbn; rewrite delete_insert_eq|].
  split; [cbn; by apply same_shapes_delete|]. eapply table_wf_frame; [..|exact Ht1]; try done.
  - intros k s [_ Hk] E. exists s. cbn. by rewrite lookup_delete_ne.
  - intros k s [_ Hk] E. cbn in E. rewrite lookup_delete_ne in E by done. by exists s.
Qed.

Lemma users_sub (m m' : gmap Z JSObj) p :
  (forall o x, m' !! o = Some x -> m !! o = Some x) -> users m' p <= users m p.
Proof using.
  intros H. unfold users. apply inj_le, subseteq_size. intros o Ho. apply elem_of_users in Ho as (x & Hx & Hp).
  apply elem_of_users. exists x. split; [by apply H|done].
Qed.

(** The state without the shape [p], and without the objects that used it. *)
Lemma drop_shape (st st' : ShapeState) p :
  shapes_wf st -> ref_counts st' = delete p (ref_counts st) -> same_shapes (delete p (shapes st)) (shapes st') ->
  table_wf st' (fun k => hashed st k /\ k <> p) ->
  (forall o x, objects st' !! o = Some x -> objects st !! o = Some x /\ o_shape x <> p) ->
  shapes_wf st' /\ forall o, objects st' !! o = objects st !! o -> obj_props st' o = obj_props st o.
Proof using.
  intros [Hb _] Hr' Hsame Ht' Hno. assert (forall k, hashed st' k <-> hashed st k /\ k <> p) as Hhash.
  { intros k. rewrite (hashed_same (set_shapes st (delete p (shapes st))) st' k Hsame). unfold hashed. cbn.
    destruct (decide (k = p)) as [->|Hk]; [rewrite lookup_delete_eq|rewrite lookup_delete_ne by done; tauto].
    split; [by intros (s & ? & _)|by intros [_ ?]]. }
  split.
  - constructor; [|eapply table_wf_ext; [|exact Ht']; intros k; by rewrite Hhash]. apply same_shapes_sym in Hsame as Hback. constructor.
    + intros k s Es. destruct (same_shapes_lookup _ _ _ _ Hback Es) as [v Ev]. apply lookup_delete_Some in Ev as [_ Ev].
      apply (bw_shape _ Hb) in Ev. apply (shape_ok_next _ (shape_hash_next s)) in Ev. by destruct s.
    + intros k s Es. destruct (same_shapes_lookup _ _ _ _ Hback Es) as [v Ev]. apply lookup_delete_Some in Ev as [Hk Ev].
      rewrite Hr', lookup_delete_ne by done. destruct (bw_refs _ Hb _ _ Ev) as (m & Em & Hm & Hum & Hh). exists m.
      split; [done|]. split; [done|]. split; [|done]. etransitivity; [|exact Hum]. apply users_sub. intros o x Ex. by apply Hno.
    + intros o x E'. destruct (Hno o x E') as [E Hp]. destruct (bw_obj _ Hb o x E) as (s & Es & Hz).
      rewrite <- (lookup_delete_ne _ p) in Es by done. destruct (same_shapes_lookup _ _ _ _ Hsame Es) as [v Ev].
      by exists (with_next s v).
  - intros o Eo. unfold obj_props. rewrite Eo. destruct (objects st !! o) as [x|] eqn:E; [|done].
    destruct (bw_obj _ Hb o x E) as (s & Es & _). rewrite Es. destruct (Hno o x) as [_ Hp]; [by rewrite Eo|].
    rewrite <- (lookup_delete_ne _ p) in Es by done. destruct (same_shapes_lookup _ _ _ _ Hsame Es) as [v ->]. done.
Qed.

(** A reference that no object holds is given back. *)
Lemma js_free_shape_spec (st : ShapeState) p sh n :
  shapes_wf st -> shapes st !! p = Some sh -> ref_counts st !! p = Some n -> users (objects st) p + 1 <= n ->
  exists st', js_free_shape st p = Ret st' /\ shapes_wf st' /\ objects st' = objects st /\
    forall o, obj_props st' o = obj_props st o.
Proof using.
  intros Hwf Hs Hr Hu. pose proof Hwf as [Hb Ht]. destruct (bw_refs _ Hb _ _ Hs) as (m & Em & Hm & _ & Hh).
  rewrite Hr in Em. injection Em as <-. destruct (Z_le_gt_dec 2 n) as [Hn|Hn].
  - exists (put_ref st p (n - 1)). split; [by apply js_free_shape_shared|]. split; [|done].
    apply (put_ref_wf st p sh); [done|done|lia|lia|]. intros E. specialize (Hh E). lia.
  - replace n with 1 in * by lia. destruct (js_free_shape_last st p sh Hwf Hs Hr) as (st' & E & Ho & Hr' & Hsame & Ht').
    exists st'. split; [done|]. destruct (drop_shape st st' p Hwf Hr' Hsame Ht') as [H1 H2].
    { intros o x Ex. rewrite Ho in Ex. split; [done|]. apply (users_none (objects st) p o x); [lia|done]. }
    split; [done|]. split; [done|]. intros o. apply H2. by rewrite Ho.
Qed.

(** ** Copies *)

(** The copy of a shape is in no table; its one reference is not held yet. *)
Record cloned (st st' : ShapeState) (sh : JSShape) (q : Z) : Prop := {
  cl_fresh : shapes st !! q = None;
  cl_shapes : shapes st' = <[q := with_hash sh false (hash sh)]> (shapes st);
  cl_refs : ref_counts st' = <[q := 1]> (ref_counts st);
  cl_objects : objects st' = objects st;
  cl_table : shape_hash st' = shape_hash st /\ shape_hash_bits st' = shape_hash_bits st /\ shape_hash_size st' = shape_hash_size st
}.

Lemma js_clone_shape_spec (st : ShapeState) p sh :
  shapes st !! p = Some sh -> shape_ok sh ->
  exists st' r, js_clone_shape new_ptr st p = Ret (st', r) /\
    match r with Some q => cloned st st' sh q | None => (exists h, st' = set_heap st h) /\ can_refuse end.
Proof using new_ptr_fresh.
  intros Hs Hok. unfold js_clone_shape. rewrite (get_sh_some _ _ _ Hs). cbn [obind].
  destruct (js_malloc_cases st (get_shape_size (prop_hash_mask sh + 1) (prop_size sh))) as (h & ok & -> & Href).
  destruct ok; cbn [negb].
  2:{ exists (set_heap st h), None. split; [done|]. split; [by exists h|]. apply (Href eq_refl).
      destruct Hok as [[(k & Hk & ->) _ _ _] _ _ _ Hmax]. rewrite Z.sub_add. by apply shape_size_fits. }
  cbn [new_shape set_heap shapes].
  set (q := new_ptr (dom (shapes st))). set (sh1 := with_hash sh false (hash sh)). set (st1 := put_sh _ q sh1).
  set (st2 := match proto sh1 with Some _ => _ | None => _ end).
  assert (exists c, st2 = with_calls st1 c) as [c2 ->].
  { unfold st2. destruct (proto sh1); [by eexists|]. exists (calls st1). by destruct st1. }
  destruct (ofold_calls (with_calls st1 c2) (shape_prop sh1) (prop_count sh1) (fun pr => JS_DupAtom (atom pr))) as [c ->].
  { destruct Hok as [[_ _ [? _] _] _ _ _ _]. cbn. lia. }
  cbn [obind]. eexists _, (Some q). split; [done|]. constructor; try done; [by apply new_ptr_none|].
  cbn. by rewrite insert_insert_eq.
Qed.

Lemma fresh_users (st : ShapeState) q : base_wf st -> shapes st !! q = None -> users (objects st) q = 0.
Proof using.
  intros Hb Hq. unfold users. replace (user_set (objects st) q) with (∅ : gset Z); [done|]. symmetry. apply set_eq. intros k.
  rewrite elem_of_users, elem_of_empty. split; [|done]. intros (x & Hx & E). destruct (bw_obj _ Hb k x Hx) as (s & Es & _). congruence.
Qed.

Lemma cloned_wf (st st' : ShapeState) p sh q :
  shapes_wf st -> shapes st !! p = Some sh -> cloned st st' sh q ->
  shapes_wf st' /\ (forall o, obj_props st' o = obj_props st o) /\ p <> q /\ users (objects st') q = 0.
Proof using.
  intros [Hb Ht] Hp [Hf Hs Hr Ho (E1 & E2 & E3)]. assert (p <> q) as Hpq by congruence.
  assert (users (objects st') q = 0) as Hu by (rewrite Ho; by apply fresh_users).
  assert (forall k s, shapes st !! k = Some s -> shapes st' !! k = Some s) as Hk.
  { intros k s E. rewrite Hs, lookup_insert_ne; [done|]. congruence. }
  split; [constructor|split; [|done]].
  - constructor.
    + intros k s E. rewrite Hs in E. apply lookup_insert_Some in E as [[<- <-]|[Hne E]]; [|by eapply bw_shape].
      pose proof (bw_shape _ Hb _ _ Hp) as Hok. apply shape_ok_rehash; [done|apply (so_hash _ Hok)].
    + intros k s E. rewrite Hs in E. rewrite Hr. apply lookup_insert_Some in E as [[<- <-]|[Hne E]].
      * exists 1. rewrite lookup_insert_eq. split; [done|]. split; [lia|]. split; [lia|done].
      * rewrite Ho, lookup_insert_ne by done. by apply (bw_refs _ Hb k s).
    + intros o x E. rewrite Ho in E. destruct (bw_obj _ Hb o x E) as (s & Es & Hz). exists s. split; [by apply Hk|done].
  - assert (forall k, hashed st' k <-> hashed st k) as Hh.
    { intros k. unfold hashed. rewrite Hs. destruct (decide (k = q)) as [->|Hne]; [|by rewrite lookup_insert_ne].
      rewrite lookup_insert_eq, Hf. split; [by intros (s & [= <-] & ?)|by intros (s & ? & _)]. }
    eapply table_wf_ext; [intros k; symmetry; apply Hh|]. eapply table_wf_frame; [exact E1|exact E2|exact E3|..|exact Ht].
    + intros k s _ E. exists s. by rewrite (Hk k s).
    + intros k s (s' & E & _) _. by exists s'.
  - intros o. unfold obj_props. rewrite Ho. destruct (objects st !! o) as [x|] eqn:E; [|done].
    destruct (bw_obj _ Hb o x E) as (s & Es & _). by rewrite Es, (Hk _ _ Es).
Qed.

(** A copy that is hashed and linked. *)
Lemma link_clone (st : ShapeState) q sh :
  shapes_wf st -> shapes st !! q = Some sh -> is_hashed sh = false ->
  exists st', js_shape_hash_link (put_sh st q (with_hash sh true (hash sh))) q = Ret st' /\ shapes_wf st' /\
    same_shapes (<[q := with_hash sh true (hash sh)]> (shapes st)) (shapes st') /\
    ref_counts st' = ref_counts st /\ objects st' = objects st /\ (forall o, obj_props st' o = obj_props st o).
Proof using.
  intros [Hb Ht] Hs Eh. set (sh1 := with_hash sh true (hash sh)). pose proof (bw_shape _ Hb _ _ Hs) as Hok.
  assert (~ hashed st q) as Hn by (intros (s & E & Es); congruence).
  assert (shape_ok sh1) as Hok1 by (apply shape_ok_rehash; [done|apply (so_hash _ Hok)]).
  assert (shapes (put_sh st q sh1) !! q = Some sh1) as Hq by apply lookup_insert_eq.
  destruct (js_shape_hash_link_spec (put_sh st q sh1) (hashed st) q sh1) as (st' & E & Hsb & Ht');
    [by apply table_wf_put|done|apply (so_hash _ Hok1)|done|].
  exists st'. split; [done|]. pose proof Hsb as [_ Hr _ Ho _ _ Hsame].
  assert (base_wf (put_sh st q sh1)) as Hb1.
  { constructor.
    - intros k s Ek. cbn in Ek. apply lookup_insert_Some in Ek as [[<- <-]|[_ Ek]]; [done|]. by eapply bw_shape.
    - intros k s Ek. cbn in Ek. apply lookup_insert_Some in Ek as [[<- <-]|[_ Ek]].
      + destruct (bw_refs _ Hb _ _ Hs) as (n & En & Hn1 & Hu & _). by exists n.
      + by apply (bw_refs _ Hb k s).
    - intros o x Ex. destruct (bw_obj _ Hb o x Ex) as (s & Es & Hz). cbn. destruct (decide (o_shape x = q)) as [E'|Hne].
      + rewrite E' in *. exists sh1. rewrite lookup_insert_eq. split; [done|]. by replace s with sh in Hz by congruence.
      + exists s. by rewrite lookup_insert_ne. }
  split; [|split; [done|split; [done|split; [done|]]]].
  - constructor; [by eapply base_wf_table|]. eapply table_wf_ext; [|exact Ht']. intros k.
    rewrite (hashed_same (put_sh st q sh1) st' k Hsame). unfold hashed. cbn.
    destruct (decide (k = q)) as [->|Hne]; [rewrite lookup_insert_eq|rewrite lookup_insert_ne by done; tauto].
    split; [intros _; by exists sh1|by right].
  - intros o. rewrite (obj_props_same (put_sh st q sh1) st') by (done || by rewrite Ho). unfold obj_props. cbn.
    destruct (objects st !! o) as [x|]; [|done]. destruct (decide (o_shape x = q)) as [E'|Hne]; [|by rewrite lookup_insert_ne].
    by rewrite E', lookup_insert_eq, Hs.
Qed.

(** ** The search in the table of the shapes *)

Lemma chain_search (st : ShapeState) (test : JSShape -> outcome bool) l : forall v fuel,
  schain (shapes st) v l -> (length l < fuel)%nat ->
  (forall p s, In p l -> shapes st !! p = Some s -> exists b, test s = Ret b) ->
  exists r, iter fuel (fun sh1 => match sh1 with
      | None => Ret (inr None)
      | Some p => let* s := get_sh st p in let* b := test s in
                  if b : bool then Ret (inr (Some p)) else Ret (inl (shape_hash_next s))
      end) v = Ret r /\
    match r with Some p => In p l /\ exists s, shapes st !! p = Some s /\ test s = Ret true | None => True end.
Proof using.
  induction l as [|p l IH]; intros v fuel Hc Hf Ht; (destruct fuel; [cbn in Hf; lia|]); rewrite iter_S; cbn [schain] in Hc.
  - subst v. by exists None.
  - destruct Hc as (-> & s & E & Hc). rewrite (get_sh_some _ _ _ E). cbn [obind].
    destruct (Ht p s) as [b Eb]; [by left|done|]. rewrite Eb. cbn [obind]. destruct b; cbn [obind].
    + exists (Some p). split; [done|]. split; [by left|by exists s].
    + destruct (IH (shape_hash_next s) fuel Hc) as (r & Er & Hr); [cbn [length] in Hf; lia|intros q t Hq; apply Ht; by right|].
      exists r. split; [done|]. destruct r as [q|]; [|done]. destruct Hr as [Hq Hr]. split; [by right|done].
Qed.

Lemma chain_find_spec (st : ShapeState) test h :
  shapes_wf st -> 0 <= h < 2 ^ 32 -> (forall p s, hashed st p -> shapes st !! p = Some s -> exists b, test s = Ret b) ->
  exists r, chain_find st test (get_shape_hash h (shape_hash_bits st)) = Ret r /\
    match r with Some p => hashed st p /\ exists s, shapes st !! p = Some s /\ test s = Ret true | None => True end.
Proof using.
  intros [_ [(Hb & Hs & Hz) Hc]] Hh Ht. destruct (Hc _ (get_shape_hash_range h _ Hh Hb)) as (v & l & Hat & Hl & Hn & Hin).
  unfold chain_find. rewrite (rd_at _ _ _ Hat). cbn [obind]. pose proof (schain_length _ _ _ Hl Hn) as Hlen.
  destruct (chain_search st test l v (S (size (shapes st))) Hl) as (r & E & Hr); [lia| |].
  - intros p s Hp. apply Ht. by apply Hin.
  - exists r. split; [exact E|]. destruct r as [p|]; [|done]. destruct Hr as [Hp Hr]. split; [by apply Hin|done].
Qed.

Lemma same_props_loop a b n : forall k fuel,
  n <= zlen a -> n <= zlen b -> 0 <= k <= n -> (Z.to_nat (n - k) < fuel)%nat ->
  names (take (Z.to_nat k) a) = names (take (Z.to_nat k) b) ->
  exists r, iter fuel (fun i => if i <? n then
      let* x := rd a i in let* y := rd b i in
      if negb (atom x =? atom y) || negb (flags x =? flags y) then Ret (inr false) else Ret (inl (i + 1))
    else Ret (inr true)) k = Ret r /\
    (r = true -> names (take (Z.to_nat n) a) = names (take (Z.to_nat n) b)).
Proof using.
  intros k fuel Ha Hb. revert k. induction fuel as [|fuel IH]; intros k Hk Hf He; [lia|]. rewrite iter_S.
  destruct (Z.ltb_spec k n) as [Hlt|Hge]; cbn [obind]; [|exists true; split; [done|]; by replace n with k by lia].
  destruct (at_exists a k) as [x Hx]; [lia|]. destruct (at_exists b k) as [y Hy]; [lia|].
  rewrite (rd_at _ _ _ Hx), (rd_at _ _ _ Hy). cbn [obind].
  destruct (Z.eqb_spec (atom x) (atom y)) as [Ea|]; cbn [negb orb obind]; [|by exists false].
  destruct (Z.eqb_spec (flags x) (flags y)) as [Ef|]; cbn [negb obind]; [|by exists false].
  apply IH; [lia|lia|]. rewrite (take_snoc a k x Hx), (take_snoc b k y Hy). unfold names in *. rewrite !map_app, He.
  cbn [map]. by rewrite Ea, Ef.
Qed.

Lemma same_props_spec a b n :
  0 <= n -> n <= zlen a -> n <= zlen b ->
  exists r, same_props a b n = Ret r /\ (r = true -> names (take (Z.to_nat n) a) = names (take (Z.to_nat n) b)).
Proof using. intros Hn Ha Hb. apply same_props_loop; [done|done|lia|lia|done]. Qed.

(** The shape found has the properties of [sh] and the new one. *)
Lemma find_hashed_shape_prop_spec (st : ShapeState) p sh a fl :
  shapes_wf st -> shapes st !! p = Some sh ->
  exists r, find_hashed_shape_prop st p a fl = Ret r /\
    match r with
    | Some q => exists sq, shapes st !! q = Some sq /\ is_hashed sq = true /\ prop_count sq = prop_count sh + 1 /\
        names (take (Z.to_nat (prop_count sq)) (shape_prop sq))
          = names (take (Z.to_nat (prop_count sh)) (shape_prop sh)) ++ [(a, fl)]
    | None => True
    end.
Proof using.
  intros Hwf Hs. pose proof Hwf as [Hb _]. pose proof (bw_shape _ Hb _ _ Hs) as [[_ _ [Hc _] _] _ _ _].
  unfold find_hashed_shape_prop. rewrite (get_sh_some _ _ _ Hs). cbn [obind]. match goal with |- context [chain_find _ ?f _] => set (test := f) end.
  assert (forall s, shape_ok s -> exists b, test s = Ret b /\ (b = true -> prop_count s = prop_count sh + 1 /\
    names (take (Z.to_nat (prop_count s)) (shape_prop s)) = names (take (Z.to_nat (prop_count sh)) (shape_prop sh)) ++ [(a, fl)])) as Htest.
  { intros s [[_ _ [Hcs _] _] _ _ _]. unfold test. set (c := _ && _). destruct c eqn:Ec; [|by exists false].
    apply andb_true_iff in Ec as [_ Ec]. apply Z.eqb_eq in Ec.
    destruct (same_props_spec (shape_prop s) (shape_prop sh) (prop_count sh)) as (r & -> & Hr); [lia..|]. cbn [obind].
    destruct r; [|by exists false]. destruct (at_exists (shape_prop s) (prop_count sh)) as [pr Hpr]; [lia|].
    rewrite (rd_at _ _ _ Hpr). cbn [obind]. eexists. split; [done|]. intros E. apply andb_true_iff in E as [Ea Ef].
    split; [done|]. rewrite Ec, (take_snoc _ _ _ Hpr). unfold names in *. rewrite map_app, Hr by done. cbn [map].
    apply Z.eqb_eq in Ea, Ef. by rewrite Ea, Ef. }
  destruct (chain_find_spec st test (shape_hash_fn (shape_hash_fn (hash sh) a) (u32 fl)) Hwf) as (r & E & Hr).
  - apply shape_hash_fn_range.
  - intros k s _ Es. destruct (Htest s) as (b & Eb & _); [by eapply bw_shape|by exists b].
  - exists r. split; [exact E|]. destruct r as [q|]; [|done]. destruct Hr as ((s' & Es' & Eh) & s & Es & Et).
    replace s' with s in Eh by congruence. destruct (Htest s) as (b & Eb & Hbs); [by eapply bw_shape|].
    rewrite Et in Eb. injection Eb as <-. destruct Hbs as [Hc1 Hn1]; [done|]. by exists s.
Qed.
End Refs.
