(* ===== verification/ShapeProps.v ===== *)
(** The properties of objects.

    Looking a property up, adding one and deleting one, for any object that
    shares its shape with others or not: the object gets or loses the one
    property, in the order of creation, and the other objects keep theirs. *)
From Stdlib Require Import ZArith Lia Bool List.
From stdpp Require Import base tactics list numbers gmap.
From S2P Require Import Prelude Alloc GcObject Shape ShapeChain ShapeTable ShapeInv ShapeOps ShapeAdd ShapeRefs.

Section Props.
Context `{AL : Allocator}.
Abbreviation ShapeState := (ShapeState (AL := AL)).
Variable new_ptr : gset Z -> Z.
Variable uninit_prop : nat -> JSProperty.
Variable uninit_shape_prop : nat -> JSShapeProperty.
Hypothesis new_ptr_fresh : forall X, new_ptr X ∉ X.

(** * Adding *)

Lemma added_pre (st st1 st' : ShapeState) o a fl r :
  (forall o', obj_props st1 o' = obj_props st o') -> added st1 st' o a fl r -> added st st' o a fl r.
Proof using.
  intros He (H1 & H2 & H3). split; [done|]. split; [by intros o' Hne; rewrite H2, He|]. destruct r; rewrite <- He; done.
Qed.

(** The values [prop] of an object with the shape [sh] in the shape [sq], that
    has one more property. *)
Lemma found_props sh sq a fl vs prop :
  shape_ok sh -> shape_ok sq -> prop_count sq = prop_count sh + 1 ->
  names (take (Z.to_nat (prop_count sq)) (shape_prop sq)) = names (take (Z.to_nat (prop_count sh)) (shape_prop sh)) ++ [(a, fl)] ->
  take (Z.to_nat (prop_count sh)) prop = take (Z.to_nat (prop_count sh)) vs -> prop_size sq <= zlen prop -> a <> JS_ATOM_NULL ->
  exists v, shape_props sq prop = shape_props sh vs ++ [(a, fl, v)] /\ at_ prop (prop_count sh) v.
Proof using.
  intros [[_ _ [Hn _] _] Hz _ _ _] [[_ _ [Hnq _] _] Hzq _ _ _] Hc En Ht Hp Ha.
  destruct (at_exists prop (prop_count sh)) as [v Hv]; [lia|]. exists v. split; [|done].
  unfold shape_props. set (ps := take (Z.to_nat (prop_count sh)) (shape_prop sh)) in *.
  assert (length ps = Z.to_nat (prop_count sh)) as Hlen by (unfold ps; rewrite length_take; unfold zlen in *; lia).
  rewrite (props_of_names (ps ++ [mkJSShapeProperty 0 fl a])) by (rewrite En; unfold names; by rewrite map_app).
  rewrite (props_of_snoc _ _ _ v) by (rewrite Hlen; by destruct Hv). f_equal.
  - apply props_of_take. by rewrite Hlen.
  - unfold is_live. cbn. by destruct (Z.eqb_spec a JS_ATOM_NULL).
Qed.

(** A matching shape: the object moves to it. *)
Lemma add_found (st : ShapeState) o x p q sh sq prop a fl :
  shapes_wf st -> objects st !! o = Some x -> o_shape x = p -> shapes st !! p = Some sh -> shapes st !! q = Some sq ->
  is_hashed sq = true -> prop_count sq = prop_count sh + 1 ->
  names (take (Z.to_nat (prop_count sq)) (shape_prop sq)) = names (take (Z.to_nat (prop_count sh)) (shape_prop sh)) ++ [(a, fl)] ->
  take (Z.to_nat (prop_count sh)) prop = take (Z.to_nat (prop_count sh)) (o_prop x) -> prop_size sq <= zlen prop ->
  a <> JS_ATOM_NULL -> 0 <= fl < 2 ^ 6 ->
  exists st1 st', js_dup_shape (put_obj st o (mkJSObj q prop)) q = Ret st1 /\ js_free_shape st1 p = Ret st' /\
    added st st' o a fl (Some (prop_count sq - 1)).
Proof using.
  intros Hwf Ho Hx Hs Hq Eh Hc En Ht Hz Ha Hfl. pose proof Hwf as [Hb _]. assert (p <> q) as Hpq by (intros ->; rewrite Hs in Hq; injection Hq as <-; lia).
  destruct (bw_refs _ Hb _ _ Hq) as (n & Er & Hn & Hu & _). destruct (bw_refs _ Hb _ _ Hs) as (m & Em & Hm & Hum & _).
  assert (shapes_wf (put_ref st q (n + 1))) as Hwf1 by (apply (put_ref_wf st q sq); [done|done|lia|lia|congruence]).
  destruct (move_wf (put_ref st q (n + 1)) o x p q sq (n + 1) prop Hwf1 Ho Hx Hpq Hq) as (Hwf2 & Hoth & Hown & Hup);
    [apply lookup_insert_eq|cbn; lia|done|].
  set (st2 := put_obj (put_ref st q (n + 1)) o (mkJSObj q prop)) in *.
  destruct (js_free_shape_spec st2 p sh m Hwf2 Hs) as (st' & E & Hwf' & Ho' & Hp').
  { cbn. by rewrite lookup_insert_ne. }
  { rewrite Hup. cbn. lia. }
  exists st2, st'. split; [exact (js_dup_shape_eq (put_obj st o (mkJSObj q prop)) q n Er)|]. split; [exact E|]. split; [done|]. split; [by intros o' Hne; rewrite Hp', Hoth|].
  destruct (found_props sh sq a fl (o_prop x) prop) as (v & Ep & Hat); try done; [by eapply bw_shape|by eapply bw_shape|].
  exists (shape_props sh (o_prop x)), v, (mkJSObj q prop). rewrite Z.mod_small by lia.
  split; [apply obj_props_shape; [done|by rewrite Hx]|]. split; [by rewrite Hp', Hown, Ep|].
  split; [rewrite Ho'; apply lookup_insert_eq|]. cbn [o_prop]. by replace (prop_count sq - 1) with (prop_count sh) by lia.
Qed.

(** A copy of a shared shape, hashed ([b]) or not: the object moves to it. *)
Lemma cloned_owner (st st1 st2 : ShapeState) o x p sh q s n :
  shapes_wf st -> objects st !! o = Some x -> o_shape x = p -> shapes st !! p = Some sh -> ref_counts st !! p = Some n -> 2 <= n ->
  cloned st st1 sh q -> shapes_wf st2 -> ref_counts st2 = ref_counts st1 -> objects st2 = objects st1 ->
  (forall o', obj_props st2 o' = obj_props st1 o') -> shapes st2 !! q = Some s -> shape_props s (o_prop x) = shape_props sh (o_prop x) ->
  prop_size s = prop_size sh -> (forall s', shapes st2 !! p = Some s' -> is_hashed s' = is_hashed sh) -> is_hashed sh = true ->
  is_Some (shapes st2 !! p) ->
  let st3 := put_obj (put_ref st2 p (n - 1)) o (mkJSObj q (o_prop x)) in
  js_free_shape st2 p = Ret (put_ref st2 p (n - 1)) /\ shapes_wf st3 /\ (forall o', obj_props st3 o' = obj_props st o') /\
  objects st3 !! o = Some (mkJSObj q (o_prop x)) /\ shapes st3 !! q = Some s /\ ref_counts st3 !! q = Some 1.
Proof using.
  intros Hwf Ho Hx Hs Hr Hn Hcl Hwf2 Hr2 Ho2 Hp2 Hq Hps Hsz Hh Hh' [sp Hsp]. cbv zeta. pose proof Hwf as [Hb _].
  destruct (cloned_wf st st1 p sh q Hwf Hs Hcl) as (Hwf1 & Hp1 & Hpq & Hu). pose proof Hcl as [_ Hs1 Hr1 Ho1 _].
  assert (ref_counts st2 !! p = Some n) as Hr2p by (by rewrite Hr2, Hr1, lookup_insert_ne by done).
  assert (ref_counts st2 !! q = Some 1) as Hr2q by (rewrite Hr2, Hr1; apply lookup_insert_eq).
  destruct (bw_obj _ Hb o x Ho) as (sh' & Es' & Hz). rewrite Hx, Hs in Es'. injection Es' as <-.
  destruct (bw_refs _ Hb _ _ Hs) as (m & Em & _ & Hum & _). rewrite Hr in Em. injection Em as <-.
  destruct (move_wf st2 o x p q s 1 (o_prop x) Hwf2) as (Hwf3 & Hoth & Hown & Hup);
    [by rewrite Ho2, Ho1|done|done|done|done|rewrite Ho2; lia|lia|].
  split; [by apply js_free_shape_shared|]. split.
  - apply (put_ref_wf (put_obj st2 o (mkJSObj q (o_prop x))) p sp); [done|done|lia|rewrite Hup, Ho2, Ho1; lia|].
    intros E. rewrite (Hh sp Hsp), Hh' in E. done.
  - assert (forall o', obj_props (put_obj st2 o (mkJSObj q (o_prop x))) o' = obj_props st o') as Hall.
    { intros o'. destruct (decide (o' = o)) as [->|Hne].
      - rewrite Hown, Hps. symmetry. apply obj_props_shape; [done|by rewrite Hx].
      - by rewrite (Hoth o' Hne), Hp2, Hp1. }
    split; [exact Hall|]. split; [apply lookup_insert_eq|]. split; [done|]. cbn. by rewrite lookup_insert_ne.
Qed.

Lemma add_cloned (st : ShapeState) o x p sh n a fl :
  shapes_wf st -> objects st !! o = Some x -> o_shape x = p -> shapes st !! p = Some sh -> ref_counts st !! p = Some n -> 2 <= n ->
  is_hashed sh = true -> prop_count sh + 1 < 2 ^ 26 -> a <> JS_ATOM_NULL ->
  exists st' r,
    (let* (st, new_sh) := js_clone_shape new_ptr st p in
     match new_sh with
     | None => Ret (st, None)
     | Some q =>
         let* s := get_sh st q in
         let* st := js_shape_hash_link (put_sh st q (with_hash s true (hash s))) q in
         let* st := js_free_shape st p in
         let st := put_obj st o (mkJSObj q (o_prop x)) in
         add_to_own_shape new_ptr uninit_prop uninit_shape_prop st o q a fl
     end) = Ret (st', r) /\ added st st' o a fl r.
Proof using new_ptr_fresh.
  intros Hwf Ho Hx Hs Hr Hn Hh Hc Ha. pose proof Hwf as [Hb _]. pose proof (bw_shape _ Hb _ _ Hs) as Hok.
  destruct (js_clone_shape_spec new_ptr new_ptr_fresh st p sh Hs Hok) as (st1 & r & -> & Hcl). cbn [obind].
  destruct r as [q|]; [|destruct Hcl as [[h ->] Href]; eexists _, None; split; [done|split; [by apply (shapes_wf_ext st)|done]]].
  destruct (cloned_wf st st1 p sh q Hwf Hs Hcl) as (Hwf1 & Hp1 & Hpq & Hu). pose proof Hcl as [_ Hs1 Hr1 Ho1 _].
  set (s1 := with_hash sh false (hash sh)) in *. assert (shapes st1 !! q = Some s1) as Hq1 by (rewrite Hs1; apply lookup_insert_eq).
  rewrite (get_sh_some _ _ _ Hq1). cbn [obind].
  destruct (link_clone st1 q s1 Hwf1 Hq1 eq_refl) as (st2 & -> & Hwf2 & Hsame & Hr2 & Ho2 & Hp2). cbn [obind].
  set (s2 := with_hash s1 true (hash s1)) in *. destruct (same_shapes_lookup _ _ q s2 Hsame) as [v Hq2]; [apply lookup_insert_eq|].
  destruct (same_shapes_lookup _ _ p sh Hsame) as [w Hp2']; [by rewrite lookup_insert_ne, Hs1, lookup_insert_ne by done|].
  destruct (cloned_owner st st1 st2 o x p sh q (with_next s2 v) n) as (-> & Hwf3 & Hall & Ho3 & Hq3 & Hr3); try done.
  { intros s'. rewrite Hp2'. by intros [= <-]. }
  cbn [obind]. destruct (add_to_own_shape_spec new_ptr uninit_prop uninit_shape_prop new_ptr_fresh _ o q (with_next s2 v)
    (mkJSObj q (o_prop x)) a fl Hwf3 Ho3 eq_refl Hq3 Hr3 Hc Ha) as (st' & r & E & Hadd).
  exists st', r. split; [exact E|]. by eapply added_pre.
Qed.

(** Every branch of [add_property]. *)
Lemma add_property_spec (st : ShapeState) o x sh a fl :
  shapes_wf st -> objects st !! o = Some x -> shapes st !! (o_shape x) = Some sh -> prop_count sh + 1 < 2 ^ 26 ->
  a <> JS_ATOM_NULL -> 0 <= fl < 2 ^ 6 ->
  exists st' r, add_property new_ptr uninit_prop uninit_shape_prop st o a fl = Ret (st', r) /\ added st st' o a fl r.
Proof using new_ptr_fresh.
  intros Hwf Ho Hs Hn Ha Hfl. pose proof Hwf as [Hb _]. pose proof (bw_shape _ Hb _ _ Hs) as Hok.
  destruct (bw_refs _ Hb _ _ Hs) as (n & Er & Hn0 & _ & Hh). destruct (bw_obj _ Hb o x Ho) as (sh' & Es' & Hz).
  replace sh' with sh in Hz by congruence. clear sh' Es'.
  unfold add_property. rewrite (get_obj_some _ _ _ Ho). cbn [obind]. rewrite (get_sh_some _ _ _ Hs). cbn [obind].
  destruct (is_hashed sh) eqn:Eh.
  2:{ replace n with 1 in Er by (symmetry; by apply Hh). by apply (add_to_own_shape_spec _ _ _ new_ptr_fresh st o (o_shape x) sh x). }
  destruct (find_hashed_shape_prop_spec st (o_shape x) sh a fl Hwf Hs) as (r & -> & Hr). cbn [obind].
  destruct r as [q|].
  - destruct Hr as (sq & Hq & Ehq & Hcq & Enq). rewrite (get_sh_some _ _ _ Hq). cbn [obind].
    pose proof (bw_shape _ Hb _ _ Hq) as [[_ _ [Hcq0 _] _] Hzq _ _ Hmax]. destruct Hok as [[_ _ [Hc0 _] _] Hz0 _ _ _].
    destruct (Z.eqb_spec (prop_size sq) (prop_size sh)) as [Esz|Esz]; cbn [negb].
    + destruct (add_found st o x (o_shape x) q sh sq (o_prop x) a fl) as (st1 & st' & E1 & E2 & Hadd); try done; [lia|].
      rewrite E1. cbn [obind]. rewrite E2. by eexists _, _.
    + destruct (js_malloc_cases st (sizeof_JSProperty * prop_size sq)) as (h & ok & -> & Href).
      assert (shapes_wf (set_heap st h)) as Hwf' by (by apply (shapes_wf_ext st)).
      destruct ok; cbn [negb]; [|specialize (Href eq_refl (props_size_fits _ Hmax)); by eexists _, None].
      destruct (add_found (set_heap st h) o x (o_shape x) q sh sq (realloc_props uninit_prop (o_prop x) (prop_size sq)) a fl)
        as (st1 & st' & E1 & E2 & Hadd); try done; [apply take_realloc; lia|rewrite zlen_realloc; lia|].
      rewrite E1. cbn [obind]. rewrite E2. eexists _, _. split; [done|]. by eapply added_pre; [|exact Hadd].
  - rewrite (get_ref_some _ _ _ Er). cbn [obind]. destruct (Z.eqb_spec n 1) as [->|Hne]; cbn [negb].
    + by apply (add_to_own_shape_spec _ _ _ new_ptr_fresh st o (o_shape x) sh x).
    + apply (add_cloned st o x (o_shape x) sh n); try done. lia.
Qed.

(** * Looking up *)

Lemma props_of_key ps vs n a :
  a <> JS_ATOM_NULL -> 0 <= n <= zlen ps -> n <= zlen vs ->
  (In a (map (fun p => fst (fst p)) (props_of (take (Z.to_nat n) ps) vs)) <-> exists i, has_prop ps n a i).
Proof using.
  intros Ha Hn Hv. split.
  - intros Hin. apply props_of_names_In in Hin as (_ & pr & Hp & E). apply list_elem_of_In, list_elem_of_lookup in Hp as [i Hi].
    apply lookup_take_Some in Hi as [Hi Hlt]. exists (Z.of_nat i). split; [lia|]. exists pr. split; [|done]. split; [lia|]. by rewrite Nat2Z.id.
  - intros (i & Hi & pr & Hat & Ea). pose proof (at_lt _ _ _ Hat) as Hil. destruct (at_exists vs i) as [v Hvi]; [lia|].
    assert (is_live pr = true) as Hl by (unfold is_live; rewrite Ea; by destruct (Z.eqb_spec a JS_ATOM_NULL)).
    destruct (props_of_at ps vs n i pr v) as (l1 & l2 & -> & _); try done. rewrite map_app. cbn [map fst].
    rewrite Ea. apply in_elt.
Qed.

Lemma find_own_property_spec (st : ShapeState) o x sh a :
  shapes_wf st -> objects st !! o = Some x -> shapes st !! (o_shape x) = Some sh -> a <> JS_ATOM_NULL ->
  exists r, find_own_property st o a = Ret r /\
    match r with
    | Some (pr, v) => atom pr = a /\ exists l1 l2, shape_props sh (o_prop x) = l1 ++ (a, flags pr, v) :: l2 /\
        ~ In a (map (fun p => fst (fst p)) l2)
    | None => ~ In a (map (fun p => fst (fst p)) (shape_props sh (o_prop x)))
    end.
Proof using.
  intros [Hb _] Ho Hs Ha. pose proof (bw_shape _ Hb _ _ Hs) as [Hw Hz _ _]. destruct (bw_obj _ Hb o x Ho) as (sh' & Es' & Hzp).
  replace sh' with sh in Hzp by congruence. clear sh' Es'. pose proof (pw_count _ _ _ _ Hw) as [Hn _].
  destruct (pw_chain _ _ _ _ Hw _ (bucket_range _ _ _ _ a Hw)) as (h & Hat & _).
  destruct (find_walk _ _ _ _ a h Hw Ha Hat) as (r & E & Hr).
  unfold find_own_property, find_own_property1. rewrite (get_obj_some _ _ _ Ho). cbn [obind]. rewrite (get_sh_some _ _ _ Hs).
  cbn [obind]. rewrite (rd_at _ _ _ Hat). cbn [obind]. rewrite E. cbn [obind]. destruct r as [i|].
  - destruct Hr as [(Hi & pr & Hpr & Ea) Hlast]. pose proof (at_lt _ _ _ Hpr). destruct (at_exists (o_prop x) i) as [v Hv]; [lia|].
    rewrite (rd_at _ _ _ Hpr). cbn [obind]. rewrite (rd_at _ _ _ Hv). cbn [obind]. eexists. split; [done|]. split; [done|].
    assert (is_live pr = true) as Hl by (unfold is_live; rewrite Ea; by destruct (Z.eqb_spec a JS_ATOM_NULL)).
    destruct (props_of_at (shape_prop sh) (o_prop x) (prop_count sh) i pr v) as (l1 & l2 & El & _ & Hno); try done.
    rewrite Ea in *. exists l1, l2. split; [exact El|]. by apply Hno.
  - exists None. split; [done|]. unfold shape_props. rewrite props_of_key by (done || lia). intros [i Hi]. by apply (Hr i).
Qed.
End Props.
