(* ===== verification/ShapeDelete.v ===== *)
(** Deleting properties of objects.

    An object takes a shape of its own before it loses a property; when many
    entries of the shape are free the rest are moved together. *)
From Stdlib Require Import ZArith Lia Bool List.
From stdpp Require Import base tactics list numbers gmap.
From S2P Require Import Prelude Alloc GcObject Shape ShapeChain ShapeTable ShapeInv ShapeOps ShapeAdd ShapeRefs ShapeProps.

Section Delete.
Context `{AL : Allocator}.
Abbreviation ShapeState := (ShapeState (AL := AL)).
Variable new_ptr : gset Z -> Z.
Variable uninit_prop : nat -> JSProperty.
Variable uninit_shape_prop : nat -> JSShapeProperty.
Hypothesis new_ptr_fresh : forall X, new_ptr X ∉ X.

(** The object [o] owns a shape out of the table, with the properties of [sh]. *)
Definition owned (st : ShapeState) (o : Z) (x : JSObj) (sh : JSShape) : Prop :=
  exists p sh', objects st !! o = Some (mkJSObj p (o_prop x)) /\ shapes st !! p = Some sh' /\ ref_counts st !! p = Some 1 /\
    is_hashed sh' = false /\ prop_hash sh' = prop_hash sh /\ prop_hash_mask sh' = prop_hash_mask sh /\
    shape_prop sh' = shape_prop sh /\ prop_count sh' = prop_count sh /\ prop_size sh' = prop_size sh.

Lemma put_obj_id (st : ShapeState) o x : objects st !! o = Some x -> put_obj st o x = st.
Proof using. intros E. unfold put_obj. rewrite insert_id by done. by destruct st. Qed.

Lemma unhash_own (st : ShapeState) o x p sh :
  shapes_wf st -> objects st !! o = Some x -> o_shape x = p -> shapes st !! p = Some sh -> ref_counts st !! p = Some 1 ->
  is_hashed sh = true ->
  exists st1 sh1, js_shape_hash_unlink st p = Ret st1 /\ shapes st1 !! p = Some sh1 /\
    let st' := put_sh st1 p (with_hash sh1 false (hash sh1)) in
    shapes_wf st' /\ (forall o', obj_props st' o' = obj_props st o') /\ owned st' o x sh.
Proof using.
  intros Hwf Ho Hx Hs Hr Hh. pose proof Hwf as [Hb Ht]. pose proof (bw_shape _ Hb _ _ Hs) as Hok.
  destruct (bw_obj _ Hb o x Ho) as (s & Es & Hz). rewrite Hx, Hs in Es. injection Es as <-.
  destruct (unlink_if st p sh Ht Hs Hok) as (st1 & E1 & [_ Hr1 _ Ho1 _ _ Hs1] & Ht1). rewrite Hh in E1.
  destruct (same_shapes_lookup _ _ _ _ Hs1 Hs) as [v Hp1]. exists st1, (with_next sh v). split; [done|]. split; [done|].
  set (sh1 := with_next sh v) in *. set (sh2 := with_hash sh1 false (hash sh1)). cbv zeta.
  assert (shape_ok sh2) as Hok2 by (apply shape_ok_rehash; [by apply shape_ok_next|apply (so_hash _ Hok)]).
  assert (mkJSObj p (o_prop x) = x) as Ex by (rewrite <- Hx; by destruct x).
  set (st' := put_sh st1 p sh2). assert (put_obj st' o (mkJSObj p (o_prop x)) = st') as Eput.
  { apply put_obj_id. cbn. by rewrite Ho1, Ex. }
  assert (update st (put_obj st' o (mkJSObj p (o_prop x))) o p p sh2 (o_prop x)) as Hu.
  { constructor; cbn; [|by rewrite Hr1, insert_delete_id|by rewrite Ho1|by left].
    rewrite insert_delete_eq. by apply same_shapes_insert. }
  destruct (update_shapes_wf st st' o x p p sh2 (o_prop x) Hwf Ho Hx Hr Hu Hok2 Hz) as (H1 & H2 & H3).
  { apply table_wf_put; [|cbn; intros [[_ ?]|[? _]]; done]. eapply table_wf_ext; [|exact Ht1]. intros k. cbn.
    split; [by left|]. by intros [?|[? _]]. }
  rewrite Eput in *. split; [done|]. split.
  - intros o'. destruct (decide (o' = o)) as [->|Hne]; [|by apply H2]. rewrite H3. symmetry. rewrite <- Hx in Hs.
    exact (obj_props_shape st o x sh Ho Hs).
  - exists p, sh2. split; [cbn; by rewrite Ho1, Ex|]. split; [apply lookup_insert_eq|]. split; [cbn; by rewrite Hr1|done].
Qed.

Lemma js_shape_prepare_update_spec (st : ShapeState) o x sh :
  shapes_wf st -> objects st !! o = Some x -> shapes st !! (o_shape x) = Some sh ->
  exists st' r, js_shape_prepare_update new_ptr st o = Ret (st', r) /\ shapes_wf st' /\
    (forall o', obj_props st' o' = obj_props st o') /\ (r = -1 /\ can_refuse \/ r = 0 /\ owned st' o x sh).
Proof using new_ptr_fresh.
  intros Hwf Ho Hs. pose proof Hwf as [Hb _]. destruct (bw_refs _ Hb _ _ Hs) as (n & Er & Hn0 & _ & Hh).
  unfold js_shape_prepare_update. rewrite (get_obj_some _ _ _ Ho). cbn [obind]. rewrite (get_sh_some _ _ _ Hs). cbn [obind].
  destruct (is_hashed sh) eqn:Eh.
  2:{ exists st, 0. split; [done|]. split; [done|]. split; [done|]. right. split; [done|]. exists (o_shape x), sh.
      rewrite (Hh eq_refl) in Er. split; [rewrite Ho; by destruct x|done]. }
  rewrite (get_ref_some _ _ _ Er). cbn [obind]. destruct (Z.eqb_spec n 1) as [->|Hne]; cbn [negb].
  - destruct (unhash_own st o x _ sh Hwf Ho eq_refl Hs Er Eh) as (st1 & sh1 & -> & Hs1 & H1 & H2 & H3). cbn [obind].
    rewrite (get_sh_some _ _ _ Hs1). cbn [obind]. eexists _, 0. split; [done|]. split; [done|]. split; [done|]. by right.
  - pose proof (bw_shape _ Hb _ _ Hs) as Hok.
    destruct (js_clone_shape_spec new_ptr new_ptr_fresh st _ sh Hs Hok) as (st1 & r & -> & Hcl). cbn [obind].
    destruct r as [q|].
    2:{ destruct Hcl as [[h ->] Href]. eexists _, (-1). split; [done|]. split; [by apply (shapes_wf_ext st)|]. split; [done|by left]. }
    destruct (cloned_wf st st1 _ sh q Hwf Hs Hcl) as (Hwf1 & Hp1 & Hpq & Hu). pose proof Hcl as [_ Hs1 Hr1 Ho1 _].
    assert (shapes st1 !! o_shape x = Some sh) as Hp by (by rewrite Hs1, lookup_insert_ne by done).
    destruct (cloned_owner st st1 st1 o x (o_shape x) sh q (with_hash sh false (hash sh)) n) as (-> & Hwf3 & Hall & Ho3 & Hq3 & Hr3); try done.
    { lia. } { rewrite Hs1. apply lookup_insert_eq. } { rewrite Hp. by intros s' [= <-]. }
    cbn [obind]. eexists _, 0. split; [done|]. split; [exact Hwf3|]. split; [exact Hall|]. right. split; [done|].
    by exists q, (with_hash sh false (hash sh)).
Qed.

Lemma zlen_props_of ps vs : zlen ps <= zlen vs -> zlen (props_of ps vs) = live_count ps.
Proof using.
  revert vs. induction ps as [|p ps IH]; intros vs Hz; [done|]. destruct vs as [|v vs]; [unfold zlen in Hz; cbn [length] in Hz; lia|].
  rewrite props_of_cons, zlen_app, IH by (unfold zlen in *; cbn [length] in *; lia). unfold live_count. cbn [List.filter].
  unfold zlen. destruct (is_live p); cbn [length]; lia.
Qed.

(** The copy of [compact_properties]. *)
Lemma compact_copy sh k size prop :
  shape_ok sh -> 0 <= k <= 31 -> prop_size sh <= zlen prop -> prop_count sh - deleted_prop_count sh <= size < 2 ^ 31 ->
  exists t ps prop', compact_loop (2 ^ k - 1) (prop_count sh) (shape_prop sh) (replicate (Z.to_nat (2 ^ k)) 0)
      (fresh_shape_props uninit_shape_prop 0 size) prop = Ret (t, ps, prop', prop_count sh - deleted_prop_count sh) /\
    let sh' := with_props sh (2 ^ k - 1) size (prop_count sh - deleted_prop_count sh) 0 t ps in
    shape_ok sh' /\ zlen prop' = zlen prop /\ shape_props sh' prop' = shape_props sh prop.
Proof using.
  intros [Hw Hz Hd Hh Hmax] Hk Hv [Hsz Hsm]. pose proof (pw_count _ _ _ _ Hw) as [Hn Hb].
  pose proof (live_count_le (take (Z.to_nat (prop_count sh)) (shape_prop sh))) as Hl.
  assert (zlen (fresh_shape_props uninit_shape_prop 0 size) = size) as Hf by (rewrite zlen_fresh_props; lia).
  pose proof (compact_loop_spec k (prop_count sh) (shape_prop sh) (fresh_shape_props uninit_shape_prop 0 size) prop Hk Hn Hb) as Hc.
  rewrite Hf in Hc. apply post_inv in Hc as ([[[t ps] prop'] j] & E & Hw' & Hj & Hzp & Hzv & _ & Ho); [|lia|lia].
  replace j with (prop_count sh - deleted_prop_count sh) in * by lia. exists t, ps, prop'. split; [done|]. cbv zeta.
  assert (prop_count sh - deleted_prop_count sh <= prop_count sh) as Hmn by (unfold zlen in *; rewrite length_take in Hl; lia).
  set (m := prop_count sh - deleted_prop_count sh) in *. split; [|split; [done|exact Ho]]. rewrite Hf in Hzp. pose proof (pw_count _ _ _ _ Hw') as [Hm _].
  constructor; cbn; try done. apply (f_equal zlen) in Ho. rewrite !zlen_props_of in Ho; [lia| |]; unfold zlen in *; rewrite length_take; lia.
Qed.

Lemma compact_properties_spec (st : ShapeState) o x p sh :
  shapes_wf st -> objects st !! o = Some x -> o_shape x = p -> shapes st !! p = Some sh -> ref_counts st !! p = Some 1 ->
  is_hashed sh = false -> 2 <= prop_size sh ->
  exists st' r, compact_properties new_ptr uninit_prop uninit_shape_prop st o = Ret (st', r) /\ shapes_wf st' /\
    forall o', obj_props st' o' = obj_props st o'.
Proof using new_ptr_fresh.
  intros Hwf Ho Hx Hs Hr Hh H2. pose proof Hwf as [Hb Ht]. pose proof (bw_shape _ Hb _ _ Hs) as Hok.
  destruct (bw_obj _ Hb o x Ho) as (s & Es & Hz). rewrite Hx, Hs in Es. injection Es as <-.
  pose proof Hok as [[(k & Hk & Hm) _ [Hc _] _] Hzs Hd _ Hmax].
  pose proof (live_count_le (take (Z.to_nat (prop_count sh)) (shape_prop sh))) as Hl.
  assert (zlen (take (Z.to_nat (prop_count sh)) (shape_prop sh)) = prop_count sh) as Htk by (unfold zlen in *; rewrite length_take; lia).
  unfold compact_properties. rewrite (get_obj_some _ _ _ Ho). cbn [obind]. rewrite Hx, (get_sh_some _ _ _ Hs). cbn [obind].
  rewrite Hh. cbn [negb c_assert obind]. set (size := Z.max _ _). assert (2 <= size <= prop_size sh /\ prop_count sh - deleted_prop_count sh <= size) as Hsize by (unfold size, JS_PROP_INITIAL_SIZE; lia).
  destruct (Z.leb_spec size (prop_size sh)); [|lia]. cbn [c_assert obind]. rewrite Hm. replace (2 ^ k - 1 + 1) with (2 ^ k) by lia.
  destruct (shrink_hash_size_spec k size Hk) as (k' & Hk' & ->); [lia|]. cbn [obind].
  destruct (js_malloc_cases st (get_shape_size (2 ^ k') size)) as (h & ok & -> & _).
  destruct ok; cbn [negb]; [|eexists _, _; split; [done|]; split; [by apply (shapes_wf_ext st)|done]].
  rewrite (get_ref_some (remove_gc_object (set_heap st h) p) p 1 Hr). cbn [obind].
  destruct (compact_copy sh k' size (o_prop x) Hok) as (t & ps & prop' & -> & Hok' & Hzp & Hp); [lia|lia|lia|].
  cbn [obind]. rewrite Z.eqb_refl. cbn [c_assert obind]. cbv zeta in Hok', Hp. set (sh' := with_props _ _ _ _ _ _ _) in *.
  cbn [new_shape remove_gc_object set_shape_list set_heap shapes]. set (q := new_ptr (dom (shapes st))).
  pose proof (new_ptr_none new_ptr new_ptr_fresh (shapes st)) as Hfq. fold q in Hfq. assert (q <> p) as Hqp by congruence.
  match goal with |- context [js_malloc ?s _] => set (st4 := s) end.
  destruct (js_malloc_cases st4 (sizeof_JSProperty * size)) as (h' & ok' & -> & _). eexists _, 0. split; [done|].
  set (prop'' := if ok' then realloc_props uninit_prop prop' size else prop').
  assert ((if ok' then put_obj (set_heap st4 h') o (mkJSObj q (realloc_props uninit_prop prop' size)) else set_heap st4 h')
    = put_obj (set_heap st4 h') o (mkJSObj q prop'')) as ->.
  { unfold prop''. destruct ok'; [done|]. symmetry. apply put_obj_id. apply lookup_insert_eq. }
  assert (update st (put_obj (set_heap st4 h') o (mkJSObj q prop'')) o p q sh' prop'') as Hu.
  { constructor; cbn; [by rewrite delete_insert_ne|by rewrite delete_insert_ne|by rewrite insert_insert_eq|by right]. }
  assert (shape_props sh' prop'' = shape_props sh (o_prop x)) as Hp''.
  { rewrite <- Hp. apply shape_props_same; [done|done|]. unfold prop''. destruct ok'; [|done]. apply take_realloc; cbn; lia. }
  destruct (update_shapes_wf st (set_heap st4 h') o x p q sh' prop'' Hwf Ho Hx Hr Hu Hok') as (H3 & H4 & H5).
  { unfold prop''. destruct ok'; [rewrite zlen_realloc; cbn; lia|cbn; lia]. }
  { eapply table_wf_ext; [|eapply table_wf_frame; [..|exact Ht]]; try done.
    - intros i. cbn. rewrite Hh. split; [|by intros [[? _]|[? _]]]. intros Hi. left. split; [done|].
      intros ->. destruct Hi as (s & E & Es). congruence.
    - intros i s (s' & E' & Es') E. exists s. cbn. rewrite lookup_delete_ne, lookup_insert_ne by congruence. done.
    - intros i s (s' & E' & Es') E. by exists s'. }
  split; [done|]. intros o'. destruct (decide (o' = o)) as [->|Hne]; [|by apply H4]. rewrite H5, Hp''. symmetry.
  rewrite <- Hx in Hs. exact (obj_props_shape st o x sh Ho Hs).
Qed.

(** The shape without the entry [h]. *)
Lemma removed_shape sh a l1 h l2 pr vs :
  shape_ok sh -> bucket (shape_prop sh) (prop_hash_mask sh) (Z.land a (prop_hash_mask sh)) (Z.to_nat (prop_count sh)) = l1 ++ h :: l2 ->
  at_ (shape_prop sh) (h - 1) pr -> atom pr = a -> a <> JS_ATOM_NULL -> prop_size sh <= zlen vs ->
  exists t ps1 v k1 k2, remove_link (prop_hash sh) (shape_prop sh) (prop_hash_mask sh) a (List.last l1 0) (hash_next pr) = Ret (t, ps1) /\
    zlen ps1 = zlen (shape_prop sh) /\ at_ vs (h - 1) v /\ h - 1 < prop_count sh /\
    let ps := <[Z.to_nat (h - 1) := mkJSShapeProperty (hash_next pr) 0 JS_ATOM_NULL]> ps1 in
    let sh' := with_props sh (prop_hash_mask sh) (prop_size sh) (prop_count sh) (deleted_prop_count sh + 1) t ps in
    shape_ok sh' /\ shape_props sh vs = k1 ++ (a, flags pr, v) :: k2 /\
    (forall w, shape_props sh' (<[Z.to_nat (h - 1) := w]> vs) = k1 ++ k2) /\
    ((forall j, h - 1 < j -> ~ has_prop (shape_prop sh) (prop_count sh) a j) -> ~ In a (map (fun p => fst (fst p)) k2)).
Proof using.
  intros [Hw Hz Hd Hh Hmax] Hbk Hat Ea Ha Hv. pose proof (pw_count _ _ _ _ Hw) as [Hn _].
  destruct (remove_link_spec _ _ _ _ _ _ _ _ _ Hw Hbk Hat) as (t & ps1 & E & En & Hat1 & Hw').
  assert (In h (bucket (shape_prop sh) (prop_hash_mask sh) (Z.land a (prop_hash_mask sh)) (Z.to_nat (prop_count sh)))) as Hin.
  { rewrite Hbk. apply in_elt. }
  apply bucket_In in Hin as (Hhb & pr' & Hat' & Hl & _). rewrite (at_det _ _ _ _ Hat' Hat) in Hl. clear pr' Hat'.
  destruct (at_exists vs (h - 1)) as [v Hvat]; [lia|]. pose proof (names_zlen _ _ En) as Hzn.
  assert (shape_props sh vs = props_of (take (Z.to_nat (prop_count sh)) ps1) vs) as Ep.
  { unfold shape_props. apply props_of_names, names_take. by rewrite En. }
  destruct (props_of_at ps1 vs (prop_count sh) (h - 1) pr v) as (k1 & k2 & El & Hrep & Hno); try done; [lia|lia|].
  set (q := mkJSShapeProperty _ _ _) in *. assert (is_live q = false) as Hlq by done.
  exists t, ps1, v, k1, k2. split; [done|]. split; [done|]. split; [done|]. split; [lia|]. cbv zeta.
  assert (forall w, props_of (take (Z.to_nat (prop_count sh)) (<[Z.to_nat (h - 1) := q]> ps1)) (<[Z.to_nat (h - 1) := w]> vs) = k1 ++ k2) as Hrep'.
  { intros w. rewrite Hrep, Hlq. done. }
  split; [|split; [by rewrite Ep, El, Ea|split; [exact Hrep'|]]].
  - constructor; cbn [prop_hash prop_hash_mask shape_prop prop_count prop_size deleted_prop_count hash with_props]; try done.
    + rewrite zlen_insert. lia.
    + specialize (Hrep' v). apply (f_equal zlen) in Hrep', El. apply (f_equal zlen) in Ep. unfold shape_props in Ep.
      rewrite zlen_props_of in Hrep' by (unfold zlen in *; rewrite length_take, ?length_insert; lia).
      rewrite <- Ep in El. rewrite zlen_props_of in El by (unfold zlen in *; rewrite length_take, ?length_insert; lia).
      rewrite zlen_app, zlen_cons in El. rewrite zlen_app in Hrep'. lia.
  - rewrite Ea in Hno. intros Hj. apply Hno. intros j Hlt (Hjn & r & Hr & Er). apply (Hj j Hlt). split; [done|].
    destruct Hr as [Hj0 Hr]. destruct (names_lookup _ _ _ _ En Hr) as (r' & Hr' & Ear & _). exists r'. split; [by split|congruence].
Qed.

(** The owner of a shape loses a property. *)
Lemma delete_entry_spec (st : ShapeState) o x p sh a l1 h l2 pr :
  shapes_wf st -> objects st !! o = Some x -> o_shape x = p -> shapes st !! p = Some sh -> ref_counts st !! p = Some 1 ->
  is_hashed sh = false ->
  bucket (shape_prop sh) (prop_hash_mask sh) (Z.land a (prop_hash_mask sh)) (Z.to_nat (prop_count sh)) = l1 ++ h :: l2 ->
  at_ (shape_prop sh) (h - 1) pr -> atom pr = a -> a <> JS_ATOM_NULL ->
  exists st' v k1 k2, delete_entry new_ptr uninit_prop uninit_shape_prop st o a (List.last l1 0) h = Ret st' /\ shapes_wf st' /\
    (forall o', o' <> o -> obj_props st' o' = obj_props st o') /\ obj_props st o = Some (k1 ++ (a, flags pr, v) :: k2) /\
    obj_props st' o = Some (k1 ++ k2) /\
    ((forall j, h - 1 < j -> ~ has_prop (shape_prop sh) (prop_count sh) a j) -> ~ In a (map (fun p => fst (fst p)) k2)).
Proof using new_ptr_fresh.
  intros Hwf Ho Hx Hs Hr Hh Hbk Hat Ea Ha. pose proof Hwf as [Hb Ht]. pose proof (bw_shape _ Hb _ _ Hs) as Hok.
  destruct (bw_obj _ Hb o x Ho) as (s & Es & Hz). rewrite Hx, Hs in Es. injection Es as <-.
  destruct (removed_shape sh a l1 h l2 pr (o_prop x) Hok Hbk Hat Ea Ha Hz) as (t & ps1 & v & k1 & k2 & E & Hzp & Hv & Hhn & Hok' & Ep & Hdel & Hno).
  pose proof (at_lt _ _ _ Hat) as Hhl. pose proof (at_lt _ _ _ Hv) as Hvl.
  unfold delete_entry. rewrite (get_obj_some _ _ _ Ho). cbn [obind]. rewrite Hx, (get_sh_some _ _ _ Hs). cbn [obind].
  rewrite (rd_at _ _ _ Hat). cbn [obind]. rewrite E. cbn [obind]. rewrite (rd_at _ _ _ Hv). cbn [obind].
  rewrite wr_in by lia. cbn [obind]. rewrite wr_in by lia. cbn [obind]. set (sh' := with_props _ _ _ _ _ _ _) in *.
  set (prop' := <[_ := P_value JS_UNDEFINED]> _). set (st1 := put_sh _ p sh'). specialize (Hdel (P_value JS_UNDEFINED)). fold prop' in Hdel.
  assert (update st (put_obj st1 o (mkJSObj p prop')) o p p sh' prop') as Hu.
  { constructor; cbn; [by rewrite insert_delete_eq|by rewrite insert_delete_id|done|by left]. }
  assert (zlen prop' = zlen (o_prop x)) as Hzv by (unfold prop'; by rewrite zlen_insert).
  destruct (update_shapes_wf st st1 o x p p sh' prop' Hwf Ho Hx Hr Hu Hok') as (H1 & H2 & H3); [rewrite Hzv; done| |].
  { assert (~ hashed st p) as Hnh by (intros (s & E' & Es); congruence).
    apply table_wf_put; [do 2 apply table_wf_call|cbn; rewrite Hh; intros [[_ ?]|[? _]]; done].
    eapply table_wf_ext; [|exact Ht]. intros k. cbn. rewrite Hh. split; [|by intros [[? _]|[? _]]].
    intros Hk. left. split; [done|]. by intros ->. }
  set (st2 := put_obj st1 o (mkJSObj p prop')) in *. rewrite Hdel in H3.
  assert (obj_props st o = Some (k1 ++ (a, flags pr, v) :: k2)) as Hold.
  { rewrite <- Ep. rewrite <- Hx in Hs. exact (obj_props_shape st o x sh Ho Hs). }
  destruct (Z.leb_spec 8 (deleted_prop_count sh + 1)) as [H8|_]; cbn [andb]; [destruct (_ <=? _)|]; cbn [obind];
    [|exists st2, v, k1, k2; done..].
  destruct (compact_properties_spec st2 o (mkJSObj p prop') p sh') as (st3 & r & E3 & Hwf3 & Hp3); try done.
  - apply lookup_insert_eq.
  - apply lookup_insert_eq.
  - cbn. destruct Hok as [[_ _ [? _] _] ? Hdc _ _]. pose proof (live_count_le (take (Z.to_nat (prop_count sh)) (shape_prop sh))). lia.
  - rewrite E3. cbn [obind]. exists st3, v, k1, k2. split; [done|]. split; [done|].
    split; [intros o' Hne; by rewrite Hp3, H2|]. split; [done|]. split; [by rewrite Hp3|done].
Qed.

Lemma delete_property_spec (st : ShapeState) o x sh a :
  shapes_wf st -> objects st !! o = Some x -> shapes st !! (o_shape x) = Some sh -> a <> JS_ATOM_NULL ->
  exists st' r, delete_property new_ptr uninit_prop uninit_shape_prop st o a = Ret (st', r) /\ shapes_wf st' /\
    (forall o', o' <> o -> obj_props st' o' = obj_props st o') /\
    match r with
    | None => obj_props st' o = obj_props st o /\ ~ In a (map (fun p => fst (fst p)) (shape_props sh (o_prop x)))
    | Some r => exists k1 fl v k2, obj_props st o = Some (k1 ++ (a, fl, v) :: k2) /\ ~ In a (map (fun p => fst (fst p)) k2) /\
        (r = 0 /\ Z.land fl JS_PROP_CONFIGURABLE = 0 /\ obj_props st' o = obj_props st o \/
         r = -1 /\ Z.land fl JS_PROP_CONFIGURABLE <> 0 /\ obj_props st' o = obj_props st o /\ can_refuse \/
         r = 1 /\ Z.land fl JS_PROP_CONFIGURABLE <> 0 /\ obj_props st' o = Some (k1 ++ k2))
    end.
Proof using new_ptr_fresh.
  intros Hwf Ho Hs Ha. pose proof Hwf as [Hb _]. pose proof (bw_shape _ Hb _ _ Hs) as Hok. pose proof Hok as [Hw Hzs _ _ _].
  destruct (bw_obj _ Hb o x Ho) as (s & Es & Hz). replace s with sh in Hz by congruence. clear s Es.
  pose proof (pw_count _ _ _ _ Hw) as [Hn _]. pose proof (obj_props_shape st o x sh Ho Hs) as Hold.
  unfold delete_property. rewrite (get_obj_some _ _ _ Ho). cbn [obind]. rewrite (get_sh_some _ _ _ Hs). cbn [obind].
  destruct (delete_find_spec sh a Hw Ha) as [[-> Hno]|(l1 & h & l2 & pr & -> & Hbk & Hat & Ea & Hlast)]; cbn [obind].
  { exists st, None. split; [done|]. split; [done|]. split; [done|]. split; [done|]. unfold shape_props.
    rewrite props_of_key by (done || lia). intros [i Hi]. by apply (Hno i). }
  rewrite (rd_at _ _ _ Hat). cbn [obind]. destruct Hlast as [_ Hlast].
  destruct (removed_shape sh a l1 h l2 pr (o_prop x) Hok Hbk Hat Ea Ha Hz) as (_ & _ & v & k1 & k2 & _ & _ & _ & _ & _ & Ep & _ & Hno).
  rewrite Ep in Hold. specialize (Hno Hlast). destruct (Z.eqb_spec (Z.land (flags pr) JS_PROP_CONFIGURABLE) 0) as [Hc|Hc].
  { exists st, (Some 0). split; [done|]. split; [done|]. split; [done|]. exists k1, (flags pr), v, k2. split; [done|].
    split; [done|]. by left. }
  destruct (js_shape_prepare_update_spec st o x sh Hwf Ho Hs) as (st1 & r & -> & Hwf1 & Hall & Hr). cbn [obind].
  destruct Hr as [[-> Href]|[-> Hown]]; cbn [Z.eqb negb].
  { exists st1, (Some (-1)). split; [done|]. split; [done|]. split; [intros; apply Hall|]. exists k1, (flags pr), v, k2. split; [done|].
    split; [done|]. right. left. by rewrite Hall. }
  destruct Hown as (p & sh1 & Ho1 & Hs1 & Hr1 & Hh1 & E1 & E2 & E3 & E4 & E5).
  rewrite <- E2, <- E3, <- E4 in Hbk. rewrite <- E3 in Hat.
  destruct (delete_entry_spec st1 o _ p sh1 a l1 h l2 pr Hwf1 Ho1 eq_refl Hs1 Hr1 Hh1 Hbk Hat Ea Ha)
    as (st2 & v' & m1 & m2 & -> & Hwf2 & Hoth & Hold1 & Hnew & Hno1). cbn [obind].
  exists st2, (Some 1). split; [done|]. split; [done|]. split; [intros o' Hne; by rewrite Hoth, Hall|].
  rewrite Hall in Hold1. exists m1, (flags pr), v', m2. split; [done|]. rewrite E3, E4 in Hno1. split; [by apply Hno1|].
  right. right. by rewrite Hnew.
Qed.
End Delete.
