(* ===== verification/ShapeNew.v ===== *)
(** New shapes and objects.

    The table of the shapes grows; shapes and objects are created and freed.
    The invariant holds in every state that the operations reach. *)
From Stdlib Require Import ZArith Lia Bool List.
From stdpp Require Import base tactics list numbers gmap.
From S2P Require Import Prelude Alloc GcObject Shape ShapeChain ShapeTable ShapeInv ShapeOps ShapeAdd ShapeRefs ShapeProps ShapeDelete.

Section Resize.
Context `{AL : Allocator}.
Abbreviation ShapeState := (ShapeState (AL := AL)).

(** * The table grows *)

(** [st] with the new table. *)
Definition with_table (st : ShapeState) (bits c : Z) (t : list (option Z)) : ShapeState := set_shape_table st bits (2 ^ bits) c t.

(** The shapes in [D] have moved to the new table [t]; the others have their
    links. *)
Record moving (st0 st : ShapeState) (bits : Z) (t : list (option Z)) (D : Z -> Prop) : Prop := {
  mv_table : table_wf (with_table st bits 0 t) D;
  mv_same : same_shapes (shapes st0) (shapes st);
  mv_rest : forall p s, ~ D p -> shapes st0 !! p = Some s -> shapes st !! p = Some s;
  mv_frame : ref_counts st = ref_counts st0 /\ objects st = objects st0 /\ shape_hash st = shape_hash st0 /\
    s_heap st = s_heap st0
}.

Lemma rehash_one (st0 st : ShapeState) bits t D p s :
  moving st0 st bits t D -> ~ D p -> shapes st0 !! p = Some s -> 0 <= hash s < 2 ^ 32 ->
  exists st' t', rehash_step bits (st, t, Some p) = Ret (inl (st', t', shape_hash_next s)) /\
    moving st0 st' bits t' (fun k => D k \/ k = p).
Proof using.
  intros [Ht Hs Hrest Hfr] Hn E Hh. pose proof (Hrest p s Hn E) as Ep.
  destruct (js_shape_hash_link_spec _ D p s Ht Ep Hh Hn) as (F & EF & _ & HF).
  unfold js_shape_hash_link in EF. rewrite (get_sh_some (with_table st bits 0 t) p s Ep) in EF. cbn [obind] in EF.
  cbn [with_table set_shape_table shape_hash shape_hash_bits put_sh set_shapes] in EF. unfold rehash_step.
  rewrite (get_sh_some _ _ _ Ep). cbn [obind]. destruct (rd t _) as [v|]; [|done]. cbn [obind] in *.
  destruct (wr t _ _) as [t'|]; [|done]. cbn [obind] in *. injection EF as <-.
  eexists _, t'. split; [done|]. constructor.
  - eapply table_wf_frame; [..|exact HF]; try done; intros k sk _ Ek; by exists sk.
  - eapply same_shapes_trans; [exact Hs|]. by apply same_shapes_next.
  - intros k sk Hk Ek. cbn. rewrite lookup_insert_ne; [apply Hrest; [tauto|done]|]. intros ->. apply Hk. by right.
  - done.
Qed.

Lemma moving_ext (st0 st : ShapeState) bits t D D' :
  (forall k, D k <-> D' k) -> moving st0 st bits t D -> moving st0 st bits t D'.
Proof using.
  intros H [H1 H2 H3 H4]. constructor; [by eapply table_wf_ext|done| |done]. intros k s Hk. apply H3. by rewrite H.
Qed.

(** The loop over a chain. *)
Lemma rehash_chain (st0 : ShapeState) bits l : forall st t D v fuel,
  moving st0 st bits t D -> schain (shapes st0) v l -> List.NoDup l -> (forall p, In p l -> ~ D p) -> (length l < fuel)%nat ->
  (forall p s, shapes st0 !! p = Some s -> 0 <= hash s < 2 ^ 32) ->
  exists st' t', iter fuel (rehash_step bits) (st, t, v) = Ret (st', t') /\ moving st0 st' bits t' (fun k => D k \/ In k l).
Proof using.
  induction l as [|p l IH]; intros st t D v fuel Hm Hc Hn Hd Hf Hh; (destruct fuel; [cbn in Hf; lia|]); rewrite iter_S; cbn [schain] in Hc.
  - subst v. exists st, t. split; [done|]. destruct Hm as [H1 H2 H3 H4]. constructor; [|done| |done].
    + eapply table_wf_ext; [|exact H1]. intros k. cbn. tauto.
    + intros k s Hk. apply H3. tauto.
  - destruct Hc as (-> & s & E & Hc). apply List.NoDup_cons_iff in Hn as [Hnp Hn].
    destruct (rehash_one st0 st bits t D p s Hm) as (st1 & t1 & -> & Hm1); [apply Hd; by left|done|by eapply Hh|]. cbn [obind].
    destruct (IH st1 t1 (fun k => D k \/ k = p) (shape_hash_next s) fuel Hm1 Hc Hn) as (st2 & t2 & E2 & Hm2); [|cbn [length] in Hf; lia|done|].
    { intros k Hk [Hk'| ->]; [by apply (Hd k); [right|]|done]. }
    exists st2, t2. split; [exact E2|]. destruct Hm2 as [H1 H2 H3 H4]. constructor; [|done| |done].
    + eapply table_wf_ext; [|exact H1]. intros k. cbn [In]. split; [intros [[?|?]|?]; auto|intros [?|[?|?]]; auto].
    + intros k sk Hk. apply H3. cbn [In] in Hk. intros [[?|?]|?]; apply Hk; auto.
Qed.

(** The bucket of a shape in the old table. *)
Definition in_bucket (st : ShapeState) (i : Z) (p : Z) : Prop :=
  exists s, shapes st !! p = Some s /\ get_shape_hash (hash s) (shape_hash_bits st) = i.

Lemma table_wf_empty (st : ShapeState) bits c :
  1 <= bits <= 31 -> table_wf (with_table st bits c (replicate (Z.to_nat (2 ^ bits)) None)) (fun _ => False).
Proof using.
  intros Hb. assert (0 < 2 ^ bits) by (apply Z.pow_pos_nonneg; lia). constructor; cbn.
  - split; [done|]. split; [done|]. rewrite zlen_replicate. lia.
  - intros b Hbb. exists None, []. split; [split; [lia|]; apply lookup_replicate; split; [done|lia]|].
    split; [done|]. split; [constructor|]. intros p. cbn. tauto.
Qed.

(** The loop over the buckets. *)
Lemma rehash_all (st : ShapeState) bits :
  shapes_wf st -> 1 <= bits <= 31 ->
  post (ofold (fun '(st, t) i => let* sh := rd (shape_hash st) i in iter (S (size (shapes st))) (rehash_step bits) (st, t, sh))
          (st, replicate (Z.to_nat (2 ^ bits)) None) (seqZ 0 (shape_hash_size st)))
    (fun '(st', t') => moving st st' bits t' (hashed st)).
Proof using.
  intros [Hb Ht] Hbits. pose proof Ht as [(Hob & Hsz & Hz) Hc].
  assert (forall p s, shapes st !! p = Some s -> 0 <= hash s < 2 ^ 32) as Hh.
  { intros p s E. apply (so_hash s). by eapply bw_shape. }
  eapply post_mono; [apply (post_ofold _ (fun l '(st2, t2) => moving st st2 bits t2
    (fun k => hashed st k /\ exists i, 0 <= i < zlen l /\ in_bucket st i k)))|].
  - intros l1 i l2 [st2 t2] El Hm. apply seqZ_mid in El as [-> Hi]. rewrite zlen_app, zlen_1. rewrite Hsz in Hi.
    destruct (Hc (zlen l1) Hi) as (v & l & Hat & Hl & Hn & Hin). pose proof (schain_length _ _ _ Hl Hn) as Hlen.
    destruct (mv_frame _ _ _ _ _ Hm) as (_ & _ & -> & _). rewrite (rd_at _ _ _ Hat). cbn [obind].
    rewrite <- (mv_same _ _ _ _ _ Hm).
    destruct (rehash_chain st bits l st2 t2 _ v (S (size (shapes st))) Hm Hl Hn) as (st3 & t3 & -> & Hm3); [|lia|done|].
    { intros p Hp [_ (j & Hj & s & E & Eh)]. apply Hin in Hp as (_ & s' & E' & Eh'). replace s' with s in Eh' by congruence. lia. }
    cbn [post]. eapply moving_ext; [|exact Hm3]. intros k. cbn. rewrite Hin. split.
    + intros [[Hk (j & Hj & Hjk)]|[Hk Hjk]]; (split; [done|]); [exists j; split; [lia|done]|].
      exists (zlen l1). split; [pose proof (zlen_nonneg l1); lia|done].
    + intros [Hk (j & Hj & Hjk)]. destruct (Z.eq_dec j (zlen l1)) as [->|Hne]; [by right|left]. split; [done|].
      exists j. split; [lia|done].
  - constructor; [|done|done|done]. eapply table_wf_ext; [|by apply (table_wf_empty st bits 0)].
    intros k. cbn. split; [done|]. intros [_ (i & Hi & _)]. change (zlen []) with 0 in Hi. lia.
  - intros [st' t'] Hm. rewrite zlen_seqZ in Hm by (rewrite Hsz; apply Z.pow_nonneg; lia). eapply moving_ext; [|exact Hm].
    intros k. cbn. split; [by intros [? _]|]. intros Hk. split; [done|]. destruct Hk as (s & E & _).
    exists (get_shape_hash (hash s) (shape_hash_bits st)). rewrite Hsz. split; [|by exists s].
    apply get_shape_hash_range; [by eapply Hh|done].
Qed.

Lemma resize_shape_hash_spec (st : ShapeState) :
  shapes_wf st -> shape_hash_bits st <= 29 ->
  exists st' r, resize_shape_hash st (shape_hash_bits st + 1) = Ret (st', r) /\ shapes_wf st' /\
    same_shapes (shapes st) (shapes st') /\ ref_counts st' = ref_counts st /\ objects st' = objects st.
Proof using.
  intros Hwf H30. pose proof Hwf as [Hb [(Hbits & _ & _) _]]. unfold resize_shape_hash. set (bits := shape_hash_bits st + 1).
  assert (1 <= bits <= 30) as Hbs by (unfold bits; lia).
  assert (1 * 2 ^ bits < 2 ^ 31) as Hlt by (rewrite Z.mul_1_l; apply Z.pow_lt_mono_r; lia).
  rewrite (c_shl_in 1 bits), Z.mul_1_l by (exact Hlt || lia). cbn [obind].
  destruct (js_malloc_cases st (8 * 2 ^ bits)) as (h & ok & -> & _).
  assert (shapes_wf (set_heap st h)) as Hwf1 by (by apply (shapes_wf_ext st)).
  destruct ok; cbn [negb]; [|eexists _, _; split; [done|]; split; [done|done]].
  pose proof (rehash_all (set_heap st h) bits Hwf1 ltac:(lia)) as Hp. apply post_inv in Hp as ([st2 t2] & -> & Hm). cbn [obind].
  eexists _, _. split; [done|]. destruct Hm as [Ht Hs _ (Hr & Ho & _ & _)].
  assert (same_shapes (shapes st) (shapes st2)) as Hs' by done. split; [|done].
  assert (base_wf (set_shapes (set_heap st h) (shapes st2))) as Hb2.
  { destruct Hwf1 as [Hb1 _]. eapply base_wf_table; [|exact Hb1]. by constructor. }
  constructor.
  - destruct Hb2 as [B1 B2 B3]. constructor; cbn in *; rewrite ?Hr, ?Ho; done.
  - eapply table_wf_ext; [|eapply table_wf_frame; [..|exact Ht]]; try done; [|intros k s _ E; by exists s..].
    intros k. rewrite <- (hashed_same (set_heap st h) (set_shape_table st2 bits (2 ^ bits) (shape_hash_count st2) t2) k); done.
Qed.

(** * An object less *)

Lemma users_delete (m : gmap Z JSObj) o x :
  m !! o = Some x -> users (delete o m) (o_shape x) = users m (o_shape x) - 1.
Proof using.
  intros Ho. unfold users. replace (user_set (delete o m) (o_shape x)) with (user_set m (o_shape x) ∖ {[o]}).
  - assert (o ∈ user_set m (o_shape x)) as Hin by (apply elem_of_users; by exists x).
    assert (0 < size (user_set m (o_shape x)))%nat by (destruct (size _) eqn:E; [apply size_empty_inv in E; set_solver|lia]).
    rewrite size_difference by set_solver. rewrite size_singleton. lia.
  - apply set_eq. intros k. rewrite elem_of_difference, elem_of_singleton, !elem_of_users. split.
    + intros [(y & Hy & Ey) Hne]. exists y. by rewrite lookup_delete_ne.
    + intros (y & Hy & Ey). apply lookup_delete_Some in Hy as [Hne Hy]. split; [by exists y|done].
Qed.

(** A state that forgets an object keeps its reference. *)
Lemma forget_wf (st : ShapeState) o : shapes_wf st -> shapes_wf (set_objects st (delete o (objects st))).
Proof using.
  intros [[B1 B2 B3] Ht]. constructor; [constructor; cbn; [done| |]|by destruct Ht; constructor].
  - intros k s E. destruct (B2 k s E) as (m & Em & Hm & Hum & Hhm). exists m. split; [done|]. split; [done|]. split; [|done].
    etransitivity; [|exact Hum]. apply users_sub. intros i y Hy. by apply lookup_delete_Some in Hy as [_ Hy].
  - intros i y Hy. apply lookup_delete_Some in Hy as [_ Hy]. by apply (B3 i).
Qed.

End Resize.

Section New.
Context `{AL : Allocator}.
Abbreviation ShapeState := (ShapeState (AL := AL)).
Variable new_ptr : gset Z -> Z.
Variable uninit_prop : nat -> JSProperty.
Variable uninit_shape_prop : nat -> JSShapeProperty.
Hypothesis new_ptr_fresh : forall X, new_ptr X ∉ X.

(** * New shapes *)

(** A new hashed shape, put in the table. *)
Lemma new_linked (st st2 : ShapeState) p sh :
  shapes_wf st -> shapes st !! p = None -> shape_ok sh -> is_hashed sh = true ->
  shapes st2 = <[p := sh]> (shapes st) -> ref_counts st2 = <[p := 1]> (ref_counts st) -> objects st2 = objects st ->
  shape_hash st2 = shape_hash st -> shape_hash_bits st2 = shape_hash_bits st -> shape_hash_size st2 = shape_hash_size st ->
  exists st3 v, js_shape_hash_link st2 p = Ret st3 /\ shapes_wf st3 /\ objects st3 = objects st /\
    (forall o, obj_props st3 o = obj_props st o) /\ shapes st3 !! p = Some (with_next sh v) /\ ref_counts st3 !! p = Some 1.
Proof using.
  intros [Hb Ht] Hf Hok Hh Es Er Eo E1 E2 E3. assert (shapes st2 !! p = Some sh) as Hp by (rewrite Es; apply lookup_insert_eq).
  assert (forall k s, shapes st !! k = Some s -> k <> p) as Hne by (intros; congruence).
  assert (table_wf st2 (hashed st)) as Ht2.
  { eapply table_wf_frame; [exact E1|exact E2|exact E3|..|exact Ht].
    - intros k s _ E. exists s. rewrite Es, lookup_insert_ne; [done|]. symmetry. by eapply Hne.
    - intros k s (s' & E & _) _. by exists s'. }
  destruct (js_shape_hash_link_spec st2 (hashed st) p sh Ht2 Hp (so_hash _ Hok)) as (st3 & E & Hsb & Ht3).
  { intros (s & E & _). by apply Hne in E. }
  pose proof Hsb as [_ Hr3 _ Ho3 _ _ Hs3]. destruct (same_shapes_lookup _ _ _ _ Hs3 Hp) as [v Hv].
  assert (base_wf st2) as Hb2.
  { constructor; rewrite ?Es, ?Er, ?Eo.
    - intros k s Ek. apply lookup_insert_Some in Ek as [[<- <-]|[_ Ek]]; [done|by eapply bw_shape].
    - intros k s Ek. apply lookup_insert_Some in Ek as [[<- <-]|[Hk Ek]].
      + exists 1. rewrite lookup_insert_eq. split; [done|]. split; [lia|]. split; [by rewrite (fresh_users st p Hb Hf)|done].
      + rewrite lookup_insert_ne by done. by apply (bw_refs _ Hb k s).
    - intros o x Ex. destruct (bw_obj _ Hb o x Ex) as (s & E' & Hz). exists s. rewrite lookup_insert_ne; [done|].
      symmetry. by eapply Hne. }
  exists st3, v. split; [done|]. split; [|split; [by rewrite Ho3|split; [|split; [done|by rewrite Hr3, Er; apply lookup_insert_eq]]]].
  - constructor; [by eapply base_wf_table|]. eapply table_wf_ext; [|exact Ht3]. intros k. rewrite (hashed_same st2 st3 k Hs3).
    unfold hashed. rewrite Es. destruct (decide (k = p)) as [->|Hk]; [rewrite lookup_insert_eq|rewrite lookup_insert_ne by done; tauto].
    split; [intros _; by exists sh|by right].
  - intros o. rewrite (obj_props_same st2 st3) by (done || by rewrite Ho3). unfold obj_props. rewrite Eo.
    destruct (objects st !! o) as [x|] eqn:Ex; [|done]. destruct (bw_obj _ Hb o x Ex) as (s & E' & _).
    rewrite Es, lookup_insert_ne; [done|]. symmetry. by eapply Hne.
Qed.

(** A shape without properties, whose reference no object holds yet. *)
Definition empty_shape (st : ShapeState) (proto_ : option Z) (p : Z) : Prop :=
  exists sh n, shapes st !! p = Some sh /\ prop_count sh = 0 /\ proto sh = proto_ /\
    ref_counts st !! p = Some n /\ users (objects st) p + 1 <= n.

Lemma js_new_shape_spec (st : ShapeState) proto :
  shapes_wf st -> shape_hash_bits st <= 29 -> 0 <= shape_hash_count st < 2 ^ 30 - 1 ->
  exists st' r, js_new_shape new_ptr uninit_shape_prop st proto = Ret (st', r) /\ shapes_wf st' /\ objects st' = objects st /\
    (forall o, obj_props st' o = obj_props st o) /\ match r with Some p => empty_shape st' proto p | None => can_refuse end.
Proof using new_ptr_fresh.
  intros Hwf H30 Hcount. unfold js_new_shape, js_new_shape2.
  rewrite c_int_in by (unfold in_i32; lia). cbn [obind].
  assert (exists st1 r1, (if shape_hash_size st <? 2 * (shape_hash_count st + 1)
      then resize_shape_hash st (shape_hash_bits st + 1) else Ret (st, 0)) = Ret (st1, r1) /\ shapes_wf st1 /\
    same_shapes (shapes st) (shapes st1) /\ objects st1 = objects st) as (st1 & r1 & -> & Hwf1 & Hs1 & Ho1).
  { destruct (_ <? _); [|by exists st, 0]. destruct (resize_shape_hash_spec st Hwf H30) as (st1 & r1 & E & H1 & H2 & _ & H3).
    by exists st1, r1. }
  cbn [obind]. assert (forall o, obj_props st1 o = obj_props st o) as Hp1 by (intros o; apply obj_props_same; [done|by rewrite Ho1]).
  destruct (js_malloc_cases st1 (get_shape_size JS_PROP_INITIAL_HASH_SIZE JS_PROP_INITIAL_SIZE)) as (h & ok & -> & Href).
  destruct ok; cbn [negb]; [|specialize (Href eq_refl eq_refl); eexists _, None; split; [done|]; split; [by apply (shapes_wf_ext st1)|done]].
  cbn [new_shape set_heap shapes]. set (p := new_ptr (dom (shapes st1))). set (sh := mkJSShape _ _ _ _ _ _ _ _ _ _ _).
  assert (shape_ok sh) as Hok.
  { constructor; cbn; [by apply (props_wf_empty 2)|done|done|apply shape_hash_fn_range|done]. }
  set (st2 := match proto with Some _ => _ | None => _ end).
  destruct (new_linked st1 st2 p sh Hwf1) as (st3 & v & -> & Hwf3 & Ho3 & Hp3 & Hs3 & Hr3);
    try (unfold st2; by destruct proto); [by apply new_ptr_none|].
  cbn [obind]. exists st3, (Some p). split; [done|]. split; [done|]. split; [by rewrite Ho3|].
  split; [intros o; by rewrite Hp3|]. exists (with_next sh v), 1. split; [done|]. split; [done|]. split; [done|].
  split; [done|]. rewrite Ho3, (fresh_users st1 p); [lia|by destruct Hwf1|by apply new_ptr_none].
Qed.

Lemma find_hashed_shape_proto_spec (st : ShapeState) pr :
  shapes_wf st ->
  exists r, find_hashed_shape_proto st pr = Ret r /\
    match r with
    | Some p => exists sh, shapes st !! p = Some sh /\ is_hashed sh = true /\ prop_count sh = 0 /\ proto sh = pr
    | None => True
    end.
Proof using.
  intros Hwf. unfold find_hashed_shape_proto. match goal with |- context [chain_find _ ?f _] => set (test := f) end.
  destruct (chain_find_spec st test (shape_initial_hash pr) Hwf) as (r & E & Hr); [apply shape_hash_fn_range|by intros; eexists|].
  exists r. split; [exact E|]. destruct r as [p|]; [|done]. destruct Hr as ((s & Es & Eh) & s' & Es' & Et).
  replace s with s' in Eh by congruence. unfold test in Et. injection Et as Et.
  apply andb_true_iff in Et as [Et Ec]. apply andb_true_iff in Et as [_ Ep].
  apply bool_decide_eq_true in Ep. apply Z.eqb_eq in Ec. by exists s'.
Qed.

(** * New objects *)

Lemma enter_wf (st : ShapeState) o p sh n prop :
  shapes_wf st -> objects st !! o = None -> shapes st !! p = Some sh -> ref_counts st !! p = Some n ->
  users (objects st) p + 1 <= n -> prop_size sh <= zlen prop ->
  let st' := put_obj st o (mkJSObj p prop) in
  shapes_wf st' /\ (forall o', o' <> o -> obj_props st' o' = obj_props st o') /\ obj_props st' o = Some (shape_props sh prop).
Proof using.
  intros [[H1 H2 H3] Ht] Ho Hs Hr Hu Hz. cbv zeta. split; [|split].
  - constructor; [constructor; cbn; try done|by destruct Ht; constructor].
    + intros k s E. destruct (H2 k s E) as (m & Em & Hm & Hum & Hh). exists m. split; [done|]. split; [done|]. split; [|done].
      destruct (decide (k = p)) as [->|Hk]; [rewrite users_enter by (done || by rewrite Ho); by replace m with n by congruence|].
      etransitivity; [|exact Hum]. unfold users. apply inj_le, subseteq_size. intros i Hi. apply elem_of_users in Hi as (y & Hy & Ey).
      apply elem_of_users. exists y. split; [|done]. rewrite lookup_insert_ne in Hy; [done|]. intros ->.
      rewrite lookup_insert_eq in Hy. injection Hy as <-. by cbn in Ey.
    + intros o' x' E. apply lookup_insert_Some in E as [[<- <-]|[_ E]]; [by exists sh|by apply (H3 o')].
  - intros o' Hne. unfold obj_props. cbn. by rewrite lookup_insert_ne.
  - by rewrite (obj_props_shape _ o (mkJSObj p prop) sh) by (done || apply lookup_insert_eq).
Qed.

(** A new object without properties. *)
Definition new_object (st st' : ShapeState) (r : option Z) : Prop :=
  shapes_wf st' /\
  match r with
  | None => (forall o, obj_props st' o = obj_props st o) /\ can_refuse
  | Some o => objects st !! o = None /\ obj_props st' o = Some [] /\
      forall o', o' <> o -> obj_props st' o' = obj_props st o'
  end.

Lemma JS_NewObjectFromShape_spec (st : ShapeState) proto p :
  shapes_wf st -> empty_shape st proto p ->
  exists st' r, JS_NewObjectFromShape new_ptr uninit_prop st p = Ret (st', r) /\ new_object st st' r.
Proof using new_ptr_fresh.
  intros Hwf (sh & n & Hs & Hc & _ & Hr & Hu). unfold JS_NewObjectFromShape.
  assert (forall h, shapes_wf (set_heap st h)) as Hwfh by (intros h; by apply (shapes_wf_ext st)).
  assert (forall h, can_refuse -> exists st' r, (let* st := js_free_shape (set_heap st h) p in Ret (st, None)) = Ret (st', r) /\ new_object st st' r) as Hfail.
  { intros h Href. destruct (js_free_shape_spec (set_heap st h) p sh n (Hwfh h) Hs Hr Hu) as (st' & -> & Hwf' & _ & Hp).
    exists st', None. split; [done|]. by split. }
  destruct (js_malloc_cases st sizeof_JSObject) as (h & ok & -> & Href). destruct ok; cbn [negb]; [|apply Hfail, (Href eq_refl eq_refl)].
  rewrite (get_sh_some (set_heap st h) p sh Hs). cbn [obind].
  destruct (js_malloc_cases (set_heap st h) (sizeof_JSProperty * prop_size sh)) as (h' & ok & -> & Href').
  pose proof (bw_shape _ (sw_base _ Hwf) _ _ Hs) as [_ Hz _ _ Hmax].
  destruct ok; cbn [negb]; [|apply (Hfail h'), (Href' eq_refl (props_size_fits _ Hmax))]. set (st1 := set_heap (set_heap st h) h').
  set (o := new_ptr (dom (objects st1))). set (prop := map uninit_prop _).
  assert (objects st !! o = None) as Ho by (apply not_elem_of_dom, new_ptr_fresh).
  pose proof (zlen_nonneg (shape_prop sh)).
  assert (zlen prop = prop_size sh) as Hzp by (unfold prop, zlen; rewrite length_map, length_seq; lia).
  destruct (enter_wf st1 o p sh n prop (Hwfh h') Ho Hs Hr Hu) as (H1 & H2 & H3); [by rewrite Hzp|].
  eexists _, (Some o). split; [done|]. split; [exact H1|]. split; [done|]. split; [|exact H2].
  rewrite H3. unfold shape_props. by rewrite Hc.
Qed.

Lemma JS_NewObjectProtoClass_spec (st : ShapeState) proto :
  shapes_wf st -> shape_hash_bits st <= 29 -> 0 <= shape_hash_count st < 2 ^ 30 - 1 ->
  exists st' r, JS_NewObjectProtoClass new_ptr uninit_prop uninit_shape_prop st proto = Ret (st', r) /\ new_object st st' r.
Proof using new_ptr_fresh.
  intros Hwf H30 Hcount. unfold JS_NewObjectProtoClass. destruct (find_hashed_shape_proto_spec st proto Hwf) as (r & -> & Hr). cbn [obind].
  destruct r as [p|].
  - destruct Hr as (sh & Hs & Hh & Hc & Hp). destruct (bw_refs _ (sw_base _ Hwf) _ _ Hs) as (n & Er & Hn & Hu & _).
    rewrite (js_dup_shape_eq _ _ _ Er). cbn [obind].
    destruct (JS_NewObjectFromShape_spec (put_ref st p (n + 1)) proto p) as (st' & r & E & H1 & H2).
    { apply (put_ref_wf st p sh); [done|done|lia|lia|congruence]. }
    { exists sh, (n + 1). split; [done|]. split; [done|]. split; [done|]. split; [apply lookup_insert_eq|cbn; lia]. }
    exists st', r. split; [exact E|]. split; [done|exact H2].
  - destruct (js_new_shape_spec st proto Hwf H30 Hcount) as (st1 & r & -> & Hwf1 & Ho1 & Hp1 & Hr1). cbn [obind].
    destruct r as [p|]; [|by exists st1, None].
    destruct (JS_NewObjectFromShape_spec st1 proto p Hwf1 Hr1) as (st' & r & E & H1 & H2). exists st', r.
    split; [exact E|]. split; [done|]. destruct r as [o|].
    + destruct H2 as (H2 & H3 & H4). split; [by rewrite <- Ho1|]. split; [done|]. intros o' Hne. by rewrite H4, Hp1.
    + destruct H2 as [H2 Href]. split; [|done]. intros o. by rewrite H2, Hp1.
Qed.

(** * Freed objects *)

Lemma free_calls (st : ShapeState) ps vs n :
  n <= zlen ps -> n <= zlen vs ->
  exists c, ofold (fun st i => let* pr := rd ps i in let* v := rd vs i in Ret (add_call st (free_property v (flags pr))))
    st (seqZ 0 n) = Ret (with_calls st c).
Proof using.
  intros Hn Hv. match goal with |- exists c, ofold ?f _ _ = _ => set (body := f) end.
  assert (post (ofold body st (seqZ 0 n)) (fun st' => exists c, st' = with_calls st c)) as H.
  { apply (post_ofold _ (fun _ st' => exists c, st' = with_calls st c)); [|exists (calls st); by destruct st].
    intros l1 i l2 st' E [c ->]. apply seqZ_mid in E as [_ Hi]. destruct (at_exists ps i) as [pr Hpr]; [lia|].
    destruct (at_exists vs i) as [v Hvi]; [lia|]. unfold body. rewrite (rd_at _ _ _ Hpr). cbn [obind]. rewrite (rd_at _ _ _ Hvi).
    apply post_ret. by eexists. }
  apply post_inv in H as (st' & E & c & ->). by exists c.
Qed.

Lemma free_object_spec (st : ShapeState) o x :
  shapes_wf st -> objects st !! o = Some x ->
  exists st', free_object st o = Ret st' /\ shapes_wf st' /\ objects st' = delete o (objects st) /\
    forall o', o' <> o -> obj_props st' o' = obj_props st o'.
Proof using.
  intros Hwf Ho. pose proof Hwf as [Hb Ht]. destruct (bw_obj _ Hb o x Ho) as (sh & Hs & Hz). set (p := o_shape x) in *.
  destruct (bw_refs _ Hb _ _ Hs) as (n & Hr & Hn & Hu & Hh). pose proof (bw_shape _ Hb _ _ Hs) as [[_ _ [Hc _] _] Hzs _ _ _].
  unfold free_object. rewrite (get_obj_some _ _ _ Ho). cbn [obind]. fold p. rewrite (get_sh_some _ _ _ Hs). cbn [obind].
  destruct (free_calls st (shape_prop sh) (o_prop x) (prop_count sh)) as [c ->]; [lia|lia|]. cbn [obind].
  set (st1 := with_calls st c). assert (shapes_wf st1) as Hwf1 by (by apply (shapes_wf_ext st)).
  pose proof (users_delete _ _ _ Ho) as Hu1. fold p in Hu1.
  destruct (Z_le_gt_dec 2 n) as [Hn2|Hn1].
  - rewrite (js_free_shape_shared st1 p n Hr Hn2). cbn [obind]. eexists. split; [done|]. split; [|split; [done|]].
    2:{ intros o' Hne. unfold obj_props. cbn. by rewrite lookup_delete_ne. }
    change (shapes_wf (put_ref (set_objects st1 (delete o (objects st1))) p (n - 1))).
    apply (put_ref_wf _ p sh); [by apply forget_wf|done|lia|cbn; lia|].
    intros E. specialize (Hh E). lia.
  - replace n with 1 in * by lia. destruct (js_free_shape_last st1 p sh Hwf1 Hs Hr) as (st2 & -> & Ho2 & Hr2 & Hs2 & Ht2).
    cbn [obind]. eexists. split; [done|]. set (st3 := set_objects st2 (delete o (objects st2))).
    assert (objects st3 = delete o (objects st)) as Ho3 by (cbn; by rewrite Ho2).
    destruct (drop_shape st1 st3 p Hwf1 Hr2 Hs2) as [H1 H2].
    { by destruct Ht2; constructor. }
    { intros i y Hy. rewrite Ho3 in Hy. split; [by apply lookup_delete_Some in Hy as [_ Hy]|].
      apply (users_none (delete o (objects st)) p i); [lia|done]. }
    split; [done|]. split; [done|]. intros o' Hne. apply H2. rewrite Ho3, lookup_delete_ne by done. done.
Qed.
End New.
