(* ===== verification/ShapeSpec.v ===== *)
(** Objects as lists of properties.

    To the program an object is the list of its properties in the order of their
    creation.  Looking up, adding and deleting a property, creating and freeing
    an object are operations on these lists: shapes, hash tables, sharing and
    compaction do not show. *)
From Stdlib Require Import ZArith Lia Bool List.
From stdpp Require Import base tactics list numbers gmap fin_sets infinite relations.
From S2P Require Import Prelude Alloc GcObject Shape ShapeChain ShapeTable ShapeInv ShapeOps ShapeAdd ShapeRefs ShapeProps ShapeDelete ShapeNew.

(** * The specification *)

(** Name, flags and value. *)
Definition prop_list : Type := list (Z * Z * JSProperty).

Definition key (p : Z * Z * JSProperty) : Z := fst (fst p).

(** The last property with the name [a]. *)
Definition last_named (l : prop_list) (a : Z) : option (Z * Z * JSProperty) :=
  List.find (fun p => key p =? a) (rev l).

Lemma last_named_split l1 a fl v l2 :
  ~ In a (map key l2) -> last_named (l1 ++ (a, fl, v) :: l2) a = Some (a, fl, v).
Proof.
  intros H. unfold last_named. rewrite rev_app_distr. cbn [rev]. rewrite <- app_assoc.
  assert (forall k, ~ In a (map key k) -> List.find (fun p => key p =? a) (rev k ++ [(a, fl, v)] ++ rev l1) = Some (a, fl, v)) as Hk.
  { intros k. induction k as [|p k IH] using rev_ind; intros Hn.
    - cbn [rev app List.find]. unfold key at 1. cbn [fst]. by rewrite Z.eqb_refl.
    - rewrite rev_app_distr. rewrite map_app, in_app_iff in Hn. cbn [rev app List.find map In] in *.
      destruct (Z.eqb_spec (key p) a) as [E|_]; [tauto|]. apply IH. tauto. }
  by apply Hk.
Qed.

Lemma last_named_none l a : ~ In a (map key l) -> last_named l a = None.
Proof.
  intros H. unfold last_named. destruct (List.find _ (rev l)) as [p|] eqn:E; [|done].
  apply find_some in E as [Hp Ep]. apply Z.eqb_eq in Ep. destruct H. rewrite <- Ep. apply in_map. by apply in_rev.
Qed.

(** The objects of the program. *)
Definition objs : Type := Z -> option prop_list.

Definition same_others (f g : objs) (o : Z) : Prop := forall o', o' <> o -> g o' = f o'.

(** The operations of the program, with their arguments, and their results: the
    new object, or none; the position of the new property, or none; the result of
    the deletion, none when there is no such property. *)
Inductive shape_op : Type :=
  | Op_new (proto : option Z)
  | Op_add (o a prop_flags : Z)
  | Op_delete (o a : Z)
  | Op_free (o : Z).

Inductive shape_res : Type :=
  | R_new (o : option Z)
  | R_add (i : option Z)
  | R_delete (r : option Z)
  | R_free.

(** What an operation with its result does to the objects.  When memory is
    [short] the results can be no object, no position and -1, and nothing
    changes. *)
Inductive astep (short : Prop) (f g : objs) : shape_op -> shape_res -> Prop :=
  | A_new proto o : f o = None -> g o = Some [] -> same_others f g o -> astep short f g (Op_new proto) (R_new (Some o))
  | A_no_object proto : short -> (forall o, g o = f o) -> astep short f g (Op_new proto) (R_new None)
  | A_add o a fl i l v : f o = Some l -> g o = Some (l ++ [(a, fl, v)]) -> same_others f g o ->
      astep short f g (Op_add o a fl) (R_add (Some i))
  | A_not_added o a fl : short -> (forall o, g o = f o) -> astep short f g (Op_add o a fl) (R_add None)
  | A_delete o a l1 fl v l2 : f o = Some (l1 ++ (a, fl, v) :: l2) -> ~ In a (map key l2) ->
      Z.land fl JS_PROP_CONFIGURABLE <> 0 -> g o = Some (l1 ++ l2) -> same_others f g o ->
      astep short f g (Op_delete o a) (R_delete (Some 1))
  | A_not_configurable o a l1 fl v l2 : f o = Some (l1 ++ (a, fl, v) :: l2) -> ~ In a (map key l2) ->
      Z.land fl JS_PROP_CONFIGURABLE = 0 -> (forall o, g o = f o) ->
      astep short f g (Op_delete o a) (R_delete (Some 0))
  | A_not_deleted o a l1 fl v l2 : short -> f o = Some (l1 ++ (a, fl, v) :: l2) -> ~ In a (map key l2) ->
      Z.land fl JS_PROP_CONFIGURABLE <> 0 -> (forall o, g o = f o) ->
      astep short f g (Op_delete o a) (R_delete (Some (-1)))
  | A_no_property o a l : f o = Some l -> ~ In a (map key l) -> (forall o, g o = f o) ->
      astep short f g (Op_delete o a) (R_delete None)
  | A_free o : is_Some (f o) -> g o = None -> same_others f g o -> astep short f g (Op_free o) R_free.

(** A sequence of them. *)
Inductive aruns (short : Prop) (f : objs) : list (shape_op * shape_res) -> objs -> Prop :=
  | aruns_nil : aruns short f [] f
  | aruns_cons o r g l h : astep short f g o r -> aruns short g l h -> aruns short f ((o, r) :: l) h.

Lemma astep_mono (P Q : Prop) f g o r : (P -> Q) -> astep P f g o r -> astep Q f g o r.
Proof. intros H. destruct 1; by econstructor; eauto. Qed.

Lemma aruns_mono (P Q : Prop) f l g : (P -> Q) -> aruns P f l g -> aruns Q f l g.
Proof. intros H. induction 1; [constructor|]. econstructor; [by eapply astep_mono|done]. Qed.

Section Spec.
Context `{AL : Allocator}.
Abbreviation ShapeState := (ShapeState (AL := AL)).
Variable new_ptr : gset Z -> Z.
Variable uninit_prop : nat -> JSProperty.
Variable uninit_shape_prop : nat -> JSShapeProperty.

(** The entries of the shape of an object, with the deleted ones. *)
Definition prop_slots (st : ShapeState) (o : Z) : option Z :=
  match objects st !! o with
  | Some x => prop_count <$> shapes st !! (o_shape x)
  | None => None
  end.

(** One operation of the code. *)
Definition run_op (st : ShapeState) (op : shape_op) : outcome (ShapeState * shape_res) :=
  match op with
  | Op_new proto =>
      let* (st, r) := JS_NewObjectProtoClass new_ptr uninit_prop uninit_shape_prop st proto in Ret (st, R_new r)
  | Op_add o a prop_flags =>
      let* (st, r) := add_property new_ptr uninit_prop uninit_shape_prop st o a prop_flags in Ret (st, R_add r)
  | Op_delete o a =>
      let* (st, r) := delete_property new_ptr uninit_prop uninit_shape_prop st o a in Ret (st, R_delete r)
  | Op_free o => let* st := free_object st o in Ret (st, R_free)
  end.

(** What the caller of an operation sees to: the object exists, names and flags
    are of their types, and the numbers of properties and of shapes stay in the
    widths that the code gives them. *)
Definition op_ok (st : ShapeState) (op : shape_op) : Prop :=
  match op with
  | Op_new _ => shape_hash_bits st <= 29 /\ 0 <= shape_hash_count st < 2 ^ 30 - 1
  | Op_add o a prop_flags =>
      a <> JS_ATOM_NULL /\ 0 <= prop_flags < 2 ^ 6 /\ exists n, prop_slots st o = Some n /\ n + 1 < 2 ^ 26
  | Op_delete o a => a <> JS_ATOM_NULL /\ is_Some (objects st !! o)
  | Op_free o => is_Some (objects st !! o)
  end.

(** The runs of the code. *)
Inductive runs (st : ShapeState) : list (shape_op * shape_res) -> ShapeState -> Prop :=
  | runs_nil : runs st [] st
  | runs_cons op st1 r l st2 : op_ok st op -> run_op st op = Ret (st1, r) -> runs st1 l st2 -> runs st ((op, r) :: l) st2.

Lemma obj_props_inv (st : ShapeState) o l :
  obj_props st o = Some l ->
  exists x sh, objects st !! o = Some x /\ shapes st !! (o_shape x) = Some sh /\ l = shape_props sh (o_prop x).
Proof using.
  unfold obj_props. destruct (objects st !! o) as [x|]; [|done]. destruct (shapes st !! o_shape x) as [sh|] eqn:E; [|done].
  intros [= <-]. by exists x, sh.
Qed.

(** ** The initial state *)

Lemma init_wf (st st' : ShapeState) :
  shapes st = ∅ -> objects st = ∅ -> init_shape_hash st = (st', 0) -> shapes_wf st' /\ forall o, obj_props st' o = None.
Proof using.
  intros Hs Ho. unfold init_shape_hash. destruct (js_malloc_cases st (8 * Z.shiftl 1 4)) as (h & ok & -> & _).
  destruct ok; cbn [negb]; [|done]. intros [= <-]. split; [constructor|].
  - constructor; cbn; rewrite ?Hs, ?Ho; done.
  - eapply table_wf_ext; [|exact (table_wf_empty (set_heap st h) 4 0 ltac:(lia))]. intros p. split; [done|].
    intros (s & E & _). cbn in E. rewrite Hs in E. done.
  - intros o. unfold obj_props. cbn. by rewrite Ho.
Qed.

(** * Refinement *)

(** C30: in a state that keeps the invariant, the search for a property in the
    hash table of the shape ends and gives the last property with the name,
    when there is one. *)
Theorem find_own_property_refines (st : ShapeState) o l a :
  shapes_wf st -> obj_props st o = Some l -> a <> JS_ATOM_NULL ->
  exists r, find_own_property st o a = Ret r /\
    option_map (fun '(pr, v) => (atom pr, flags pr, v)) r = last_named l a.
Proof using.
  intros Hwf Hl Ha. apply obj_props_inv in Hl as (x & sh & Ho & Hs & ->).
  destruct (find_own_property_spec st o x sh a Hwf Ho Hs Ha) as (r & E & Hr). exists r. split; [done|].
  destruct r as [[pr v]|]; cbn [option_map]; [|symmetry; by apply last_named_none].
  destruct Hr as (Ea & l1 & l2 & -> & Hno). rewrite Ea. symmetry. by apply last_named_split.
Qed.

Hypothesis new_ptr_fresh : forall X, new_ptr X ∉ X.

(** C2: adding a property, whether the next shape is found in the table, the
    shape is the object's own, or it is copied, and whether it has to grow,
    appends the property to the list of the object; the other objects keep their
    properties and the invariant holds.  The result is the position of the new
    value.  The operation fails only with an allocator that refuses requests,
    and then nothing changes for the program. *)
Theorem add_property_refines (st : ShapeState) o l n a fl :
  shapes_wf st -> obj_props st o = Some l -> prop_slots st o = Some n -> n + 1 < 2 ^ 26 ->
  a <> JS_ATOM_NULL -> 0 <= fl < 2 ^ 6 ->
  exists st' r, add_property new_ptr uninit_prop uninit_shape_prop st o a fl = Ret (st', r) /\ shapes_wf st' /\
    same_others (obj_props st) (obj_props st') o /\
    match r with
    | None => obj_props st' o = Some l /\ can_refuse
    | Some i => exists v x', obj_props st' o = Some (l ++ [(a, fl, v)]) /\ objects st' !! o = Some x' /\ at_ (o_prop x') i v
    end.
Proof using new_ptr_fresh.
  intros Hwf Hl Hn Hn1 Ha Hfl. pose proof Hl as Hl'. apply obj_props_inv in Hl' as (x & sh & Ho & Hs & El).
  unfold prop_slots in Hn. rewrite Ho, Hs in Hn. injection Hn as <-.
  destruct (add_property_spec new_ptr uninit_prop uninit_shape_prop new_ptr_fresh st o x sh a fl) as (st' & r & E & H1 & H2 & H3);
    try done.
  exists st', r. split; [done|]. split; [done|]. split; [exact H2|]. destruct r as [i|]; [|by destruct H3 as [-> Href]].
  destruct H3 as (l' & v & x' & E1 & E2 & E3 & Hat). exists v, x'. rewrite Hl in E1. injection E1 as <-.
  rewrite Z.mod_small in E2 by done. done.
Qed.

(** C8: deleting a property removes the last property with the name from the
    list of the object, if it is configurable, and no other; an object that
    shares its shape gets a copy first, and a shape with many free entries is
    compacted, which does not show.  The result is -1 only with an allocator
    that refuses requests.  The other objects keep their properties and the
    invariant holds. *)
Theorem delete_property_refines (st : ShapeState) o l a :
  shapes_wf st -> obj_props st o = Some l -> a <> JS_ATOM_NULL ->
  exists st' r, delete_property new_ptr uninit_prop uninit_shape_prop st o a = Ret (st', r) /\ shapes_wf st' /\
    same_others (obj_props st) (obj_props st') o /\
    match r with
    | None => ~ In a (map key l) /\ obj_props st' o = Some l
    | Some r => exists l1 fl v l2, l = l1 ++ (a, fl, v) :: l2 /\ ~ In a (map key l2) /\
        (if r =? 1 then Z.land fl JS_PROP_CONFIGURABLE <> 0 /\ obj_props st' o = Some (l1 ++ l2)
         else (r = 0 /\ Z.land fl JS_PROP_CONFIGURABLE = 0 \/ r = -1 /\ Z.land fl JS_PROP_CONFIGURABLE <> 0 /\ can_refuse) /\
              obj_props st' o = Some l)
    end.
Proof using new_ptr_fresh.
  intros Hwf Hl Ha. pose proof Hl as Hl'. apply obj_props_inv in Hl' as (x & sh & Ho & Hs & El).
  destruct (delete_property_spec new_ptr uninit_prop uninit_shape_prop new_ptr_fresh st o x sh a Hwf Ho Hs Ha)
    as (st' & r & E & H1 & H2 & H3).
  exists st', r. split; [done|]. split; [done|]. split; [exact H2|]. destruct r as [r|].
  - destruct H3 as (l1 & fl & v & l2 & E1 & Hno & Hr). exists l1, fl, v, l2. rewrite Hl in *. injection E1 as ->.
    split; [done|]. split; [exact Hno|]. destruct Hr as [(-> & Hc & Hr)|[(-> & Hc & Hr & Href)|(-> & Hc & Hr)]]; cbn [Z.eqb Pos.eqb]; auto.
  - destruct H3 as [E1 Hno]. rewrite El. split; [exact Hno|]. by rewrite E1, Hl, El.
Qed.

(** An operation that the caller sees to returns, and does what its result says. *)
Lemma run_op_refines (st : ShapeState) op :
  shapes_wf st -> op_ok st op ->
  exists st' r, run_op st op = Ret (st', r) /\ shapes_wf st' /\ astep can_refuse (obj_props st) (obj_props st') op r.
Proof using new_ptr_fresh.
  intros Hwf Hok. destruct op as [proto|o a fl|o a|o]; cbn [run_op op_ok] in *.
  - destruct Hok as [Hb Hc].
    destruct (JS_NewObjectProtoClass_spec new_ptr uninit_prop uninit_shape_prop new_ptr_fresh st proto Hwf Hb Hc) as (st1 & r & -> & H1 & H2).
    exists st1, (R_new r). split; [done|]. split; [done|]. destruct r as [o|]; [|by destruct H2; apply A_no_object].
    destruct H2 as (H2 & H3 & H4). apply A_new; [|done|done]. unfold obj_props. by rewrite H2.
  - destruct Hok as (Ha & Hfl & n & Hs & Hn). unfold prop_slots in Hs. destruct (objects st !! o) as [x|] eqn:Ho; [|done].
    destruct (shapes st !! o_shape x) as [sh|] eqn:Hs'; [|done]. injection Hs as <-.
    destruct (add_property_spec new_ptr uninit_prop uninit_shape_prop new_ptr_fresh st o x sh a fl Hwf Ho Hs' Hn Ha Hfl)
      as (st1 & r & -> & H1 & H2 & H3).
    exists st1, (R_add r). split; [done|]. split; [done|]. destruct r as [i|].
    + destruct H3 as (l & v & x' & E1 & E2 & _). rewrite Z.mod_small in E2 by done. by apply (A_add _ _ _ o a fl i l v).
    + destruct H3 as [H3 Href]. apply A_not_added; [done|]. intros o'. destruct (decide (o' = o)) as [->|Hne]; [done|by apply H2].
  - destruct Hok as (Ha & x & Ho). destruct (bw_obj _ (sw_base _ Hwf) o x Ho) as (sh & Hs & _).
    destruct (delete_property_spec new_ptr uninit_prop uninit_shape_prop new_ptr_fresh st o x sh a Hwf Ho Hs Ha)
      as (st1 & r & -> & H1 & H2 & H3).
    exists st1, (R_delete r). split; [done|]. split; [done|].
    assert (obj_props st1 o = obj_props st o -> forall o', obj_props st1 o' = obj_props st o') as Hsame.
    { intros Heq o'. destruct (decide (o' = o)) as [->|Hne]; [done|by apply H2]. }
    destruct r as [r|].
    + destruct H3 as (l1 & fl & v & l2 & E1 & Hno & [(-> & Hc & Hr)|[(-> & Hc & Hr & Href)|(-> & Hc & Hr)]]);
        [by eapply A_not_configurable; [..|apply Hsame]|by eapply A_not_deleted; [..|apply Hsame]|by eapply A_delete].
    + destruct H3 as [E1 Hno]. eapply A_no_property; [unfold obj_props; rewrite Ho, Hs; done|exact Hno|by apply Hsame].
  - destruct Hok as [x Ho]. destruct (free_object_spec st o x Hwf Ho) as (st1 & -> & H1 & H2 & H3).
    exists st1, R_free. split; [done|]. split; [done|]. apply A_free; [|unfold obj_props; by rewrite H2, lookup_delete_eq|done].
    destruct (bw_obj _ (sw_base _ Hwf) o x Ho) as (sh & Hs & _). unfold obj_props. rewrite Ho, Hs. by eexists.
Qed.

Lemma runs_refine (st st' : ShapeState) l :
  shapes_wf st -> runs st l st' -> shapes_wf st' /\ aruns can_refuse (obj_props st) l (obj_props st').
Proof using new_ptr_fresh.
  intros Hwf. induction 1 as [st|st op st1 r l st2 Hok E _ IH]; [by split; [|constructor]|].
  destruct (run_op_refines st op Hwf Hok) as (st1' & r' & E' & Hwf1 & Ha). rewrite E in E'. injection E' as <- <-.
  destruct (IH Hwf1) as [Hwf2 Hr]. split; [done|]. by eapply aruns_cons.
Qed.

(** C25: from the empty state, every sequence of creations and releases of
    objects and of additions and deletions of properties keeps the invariant of
    the shapes and is, operation by operation and with the same results, a
    sequence of these operations on lists of properties, in which an operation
    fails only with an allocator that refuses requests; and whatever has been
    done, the next operation returns. *)
Theorem shape_runs_refine (st0 st st' : ShapeState) l :
  shapes st0 = ∅ -> objects st0 = ∅ -> init_shape_hash st0 = (st, 0) -> runs st l st' ->
  shapes_wf st' /\ (forall o, obj_props st o = None) /\ aruns can_refuse (obj_props st) l (obj_props st') /\
  forall op, op_ok st' op -> exists st2 r, run_op st' op = Ret (st2, r).
Proof using new_ptr_fresh.
  intros Hs Ho Hi Hrun. destruct (init_wf st0 st Hs Ho Hi) as [Hwf Hnone].
  destruct (runs_refine st st' l Hwf Hrun) as [Hwf' Ha]. do 3 (split; [done|]).
  intros op Hok. destruct (run_op_refines st' op Hwf' Hok) as (st2 & r & E & _). by exists st2, r.
Qed.
End Spec.

(** * Concrete runs *)

Definition w_ptr (X : gset Z) : Z := fresh X.
Definition w_prop (i : nat) : JSProperty := P_value JS_UNDEFINED.
Definition w_shape_prop (i : nat) : JSShapeProperty := mkJSShapeProperty 0 0 0.

Lemma w_ptr_fresh X : w_ptr X ∉ X.
Proof. apply is_fresh. Qed.

#[local] Existing Instance alloc_always.

Definition w_empty : ShapeState := mkShapeState tt ∅ ∅ [] 0 0 0 [] ∅ [].
Definition w_init : ShapeState := fst (init_shape_hash w_empty).

Definition run_state {A : Type} (m : outcome (ShapeState * A)) : ShapeState :=
  match m with Ret (st, _) => st | Err _ => w_empty end.

(** Two objects with the property 5, that share their shape. *)
Definition w_new (st : ShapeState) : ShapeState := run_state (JS_NewObjectProtoClass w_ptr w_prop w_shape_prop st None).
Definition w_add (st : ShapeState) (o a : Z) : ShapeState := run_state (add_property w_ptr w_prop w_shape_prop st o a 7).
Definition w_one : ShapeState := w_add (w_new w_init) 0 5.
Definition w_two : ShapeState := w_add (w_new w_one) 1 5.

(** The second object has found the shape of the first. *)
Example w_two_shared :
  (o_shape <$> objects w_two !! 0, o_shape <$> objects w_two !! 1, ref_counts w_two !! 0) = (Some 0, Some 0, Some 2).
Proof. vm_compute. reflexivity. Qed.

Abbreviation w_runs := (runs w_ptr w_prop w_shape_prop).
Abbreviation w_op := (run_op w_ptr w_prop w_shape_prop).

Lemma w_runs_new st st1 r l st2 :
  bool_decide (shape_hash_bits st <= 29 /\ 0 <= shape_hash_count st < 2 ^ 30 - 1) = true ->
  w_op st (Op_new None) = Ret (st1, r) -> w_runs st1 l st2 -> w_runs st ((Op_new None, r) :: l) st2.
Proof. intros H E. apply bool_decide_eq_true in H. by apply runs_cons. Qed.

Lemma w_runs_add st o a n st1 r l st2 :
  bool_decide (a <> JS_ATOM_NULL /\ prop_slots st o = Some n /\ n + 1 < 2 ^ 26) = true ->
  w_op st (Op_add o a 7) = Ret (st1, r) -> w_runs st1 l st2 -> w_runs st ((Op_add o a 7, r) :: l) st2.
Proof. intros H E. apply bool_decide_eq_true in H as (Ha & Hs & Hn). apply runs_cons; [|done]. cbn [op_ok]. split; [done|]. split; [done|]. by exists n. Qed.

Definition w_trace : list (shape_op * shape_res) :=
  [(Op_new None, R_new (Some 0)); (Op_add 0 5 7, R_add (Some 0)); (Op_new None, R_new (Some 1)); (Op_add 1 5 7, R_add (Some 0))].

Lemma w_run : w_runs w_init w_trace w_two.
Proof.
  eapply (w_runs_new w_init (w_new w_init)); [vm_compute; reflexivity..|].
  eapply (w_runs_add _ 0 5 0 w_one); [vm_compute; reflexivity..|].
  eapply (w_runs_new w_one (w_new w_one)); [vm_compute; reflexivity..|].
  eapply (w_runs_add _ 1 5 0 w_two); [vm_compute; reflexivity..|]. apply runs_nil.
Qed.

Lemma w_two_wf : shapes_wf w_two.
Proof.
  assert (shapes_wf w_init) as Hi by (by apply (init_wf w_empty)).
  exact (proj1 (runs_refine w_ptr w_prop w_shape_prop w_ptr_fresh _ _ _ Hi w_run)).
Qed.

Lemma find_own_property_refines_witness :
  shapes_wf w_two /\ exists r, find_own_property w_two 0 5 = Ret r /\
    option_map (fun '(pr, v) => (atom pr, flags pr, v)) r = Some (5, 7, P_value JS_UNDEFINED).
Proof.
  split; [apply w_two_wf|].
  apply (find_own_property_refines w_two 0 [(5, 7, P_value JS_UNDEFINED)] 5); [apply w_two_wf|vm_compute; reflexivity|done].
Defined.

Lemma add_property_refines_witness :
  exists st' i v x', add_property w_ptr w_prop w_shape_prop w_two 0 6 7 = Ret (st', Some i) /\ shapes_wf st' /\
    same_others (obj_props w_two) (obj_props st') 0 /\
    obj_props st' 0 = Some ([(5, 7, P_value JS_UNDEFINED)] ++ [(6, 7, v)]) /\
    objects st' !! 0 = Some x' /\ at_ (o_prop x') i v.
Proof.
  destruct (add_property_refines w_ptr w_prop w_shape_prop w_ptr_fresh w_two 0 [(5, 7, P_value JS_UNDEFINED)] 1 6 7)
    as (st' & r & E & H1 & H2 & H3); [apply w_two_wf|vm_compute; reflexivity|vm_compute; reflexivity|lia|done|lia|].
  destruct r as [i|]; [|destruct (alloc_always_serves (proj2 H3))]. destruct H3 as (v & x' & H3).
  exists st', i, v, x'. split; [exact E|]. split; [exact H1|]. split; [exact H2|exact H3].
Defined.

Lemma delete_property_refines_witness :
  exists st' r, delete_property w_ptr w_prop w_shape_prop w_two 0 5 = Ret (st', r) /\ shapes_wf st' /\
    same_others (obj_props w_two) (obj_props st') 0 /\
    match r with
    | None => ~ In 5 (map key [(5, 7, P_value JS_UNDEFINED)]) /\ obj_props st' 0 = Some [(5, 7, P_value JS_UNDEFINED)]
    | Some r => exists l1 fl v l2, [(5, 7, P_value JS_UNDEFINED)] = l1 ++ (5, fl, v) :: l2 /\ ~ In 5 (map key l2) /\
        (if r =? 1 then Z.land fl JS_PROP_CONFIGURABLE <> 0 /\ obj_props st' 0 = Some (l1 ++ l2)
         else (r = 0 /\ Z.land fl JS_PROP_CONFIGURABLE = 0 \/
               r = -1 /\ Z.land fl JS_PROP_CONFIGURABLE <> 0 /\ @can_refuse alloc_always) /\
              obj_props st' 0 = Some [(5, 7, P_value JS_UNDEFINED)])
    end.
Proof.
  apply (delete_property_refines w_ptr w_prop w_shape_prop w_ptr_fresh w_two 0 [(5, 7, P_value JS_UNDEFINED)] 5);
    [apply w_two_wf|vm_compute; reflexivity|done].
Defined.

Lemma shape_runs_refine_witness :
  w_runs w_init w_trace w_two /\
  shapes_wf w_two /\ (forall o, obj_props w_init o = None) /\ aruns False (obj_props w_init) w_trace (obj_props w_two) /\
  exists st r, w_op w_two (Op_free 0) = Ret (st, r).
Proof.
  split; [exact w_run|].
  destruct (shape_runs_refine w_ptr w_prop w_shape_prop w_ptr_fresh w_empty w_init w_two w_trace) as (H1 & H2 & H3 & H4);
    [done|done|done|exact w_run|].
  split; [exact H1|]. split; [exact H2|]. split; [exact (aruns_mono _ _ _ _ _ alloc_always_serves H3)|]. apply (H4 (Op_free 0)). cbn [op_ok]. eexists. vm_compute. reflexivity.
Defined.
